(* ===== verification/_CoqProject ===== *)
-Q . S2P
Prelude.v
GoErrors.v
GoStrings.v
Quorum.v
Distribution.v
XLMeta.v
Storage.v
Bpool.v
Erasure.v
ErasureSpec.v
XorCode.v
ErasureRead.v
ErasureWrite.v
ErasureHeal.v
Healing.v
ObjCache.v
LockServer.v
NsLock.v
Wildcard.v
Policy.v
ObjectNames.v
DiskContract.v
HttpRange.v
XLDisk.v
XLCommon.v
XLBucket.v
XLObject.v
XLPut.v
XLStage.v
XLPutGet.v
XLDelete.v
XLCopy.v
TreeWalk.v
TreeWalkDisks.v
WalkPool.v
XLList.v
XLHeal.v
XLHealed.v
XLRedundancy.v
Format.v
FormatSpec.v
FormatPlaces.v
RetryStorage.v
Startup.v
XLMultipart.v
XLFiles.v
XLUpload.v
XLUploads.v
XLComplete.v
XLNewUpload.v
XLMultipartFaults.v
XLMultipartGet.v
OSFiles.v
OSTrees.v
Posix.v
PosixSpec.v
PosixOps.v
PosixRefines.v
PosixRun.v
PosixFaults.v
FSFiles.v
FSObjects.v
FSSpec.v
FSPut.v
FSGet.v
FSFaults.v
FSPool.v
FSList.v
