(* ===== verification/Prelude.v ===== *)
(** * A verification of the Minio object server

    Minio (src/) is an S3-compatible object server written in Go.  Its XL
    backend spreads every object over 4 to 16 disks: the bytes are erasure
    coded into data and parity shards, every disk keeps its shards and a
    metadata file [xl.json] with their checksums, and an operation succeeds
    when a quorum of disks agrees.  Concurrent operations are ordered by
    locks on names.  This development models that core, from the disks up to
    the object operations ([PutObject], [GetObject], [CopyObject],
    [DeleteObject], [ListObjects], multipart uploads, [HealObject]), the buckets,
    the format of the disks and the start of the server, with the parts it
    stands on, and proves it correct.  The FS backend, which keeps objects as
    files of one file system, is modelled over the same calls of the operating
    system as the disks of the XL backend.

    ** The program and the files

    - Prelude: Go outcomes (the monad [go]: return, panic, out of fuel),
      machine integers, bytes, the unspecified iteration order of Go maps
      ([MapOrder]), tactics and shared lemmas.
    - GoErrors: error values, tracing and comparison (src/cmd/errors.go,
      storage-errors.go, typed-errors.go, xl-v1-errors.go,
      object-api-errors.go).  An error is a value; [err_eqb] is Go's [==].
    - GoStrings: the functions of Go's [strings], [strconv], [path] and [sort]
      that the code uses, on byte strings.
    - Quorum: [reduceErrs], [reduceQuorumErrs], [isDiskQuorum]
      (xl-v1-utils.go), for every map iteration order.
    - Distribution: [hashOrder] (with CRC-32), [getOrderedDisks],
      [getOrderedPartsMetadata], [getLoadBalancedDisks] (xl-v1-utils.go,
      xl-v1-common.go).
    - XLMeta: the structure of [xl.json] and its operations
      (xl-v1-metadata.go).
    - Storage: the disk interface [StorageAPI] (storage-interface.go) as a
      class of state-passing operations, the contract its clients rely on
      ([StorageContract]) and an in-memory disk that satisfies it ([MemDisk]).
    - Bpool: the pool of read buffers (src/pkg/bpool).
    - Erasure: the operations on erasure-coded files (erasure-utils.go,
      erasure-createfile.go, erasure-readfile.go, erasure-healfile.go).
      ErasureSpec: the layout of the shard files and the contracts of the
      codec and of writers; XorCode: a codec with one parity shard, hashes and
      a writer that satisfy them.  ErasureRead, ErasureWrite, ErasureHeal: the
      proofs.
    - Healing: which version of an object is current and which disks lack it
      (xl-v1-healing-common.go).
    - ObjCache: the in-memory object cache (src/pkg/objcache).
    - LockServer: the lock RPC server of a node (lock-rpc-server.go,
      lock-rpc-server-common.go).
    - NsLock: namespace locks with their instrumentation, used by any number
      of threads (namespace-lock.go, lock-instrument.go, lock-stat.go).
    - Wildcard (src/pkg/wildcard) and Policy (bucket-policy-parser.go,
      bucket-policy-handlers.go): bucket policies.
    - ObjectNames: names, paths, argument checks, the size-limited reader
      (object-api-utils.go, object-api-input-checks.go).
    - HttpRange: the Range header (httprange.go).
    - XLDisk: [xl.json] on the disks, its parsing, reads, writes with a quorum
      and undo, and renames (xl-v1-utils.go, xl-v1-metadata.go,
      xl-v1-object.go).
    - XLObject: [GetObject] with the object cache, [getObjectInfo]
      (xl-v1-object.go).
    - DiskContract: what the object layer promises itself of a disk that is up
      or down, with volumes and directories; [MemDisk] satisfies it.
    - XLCommon: [isObject], [parentDirIsObject], [sizeOnDisk], [cleanupDir],
      [deleteObject] (xl-v1-common.go, object-api-common.go, xl-v1-object.go),
      and the reasoning about a slice of disks of which some are up.
    - XLBucket: buckets (xl-v1-bucket.go).
    - XLPut: [PutObject], [CopyObject], [DeleteObject] (xl-v1-object.go).
      XLStage: the state of a disk during a put.  XLPutGet, XLDelete, XLCopy:
      the proofs.
    - TreeWalk: the recursive listing of directories (tree-walk.go);
      TreeWalkDisks: on the disks of a bucket it lists the objects.  WalkPool:
      the pool of suspended walks and its timers (tree-walk-pool.go).  XLList:
      the pages of [ListObjects] (xl-v1-list-objects.go).
    - XLHeal: [HealObject], [HealBucket] and quick heals (xl-v1-healing.go).
      XLHealed: what healing leaves on the disks; XLRedundancy: put, heal and
      get one after the other.
    - Format: format.json, its checks, the order of the disks and its healing
      (format-config-v1.go).  FormatSpec, FormatPlaces: the proofs.
    - RetryStorage: the storage that reconnects remote disks (retry-storage.go).
    - Startup: the decision what to do with the disks and the loop that waits
      for them (prepare-storage.go, xl-v1.go).
    - XLMultipart: multipart uploads (xl-v1-multipart.go,
      xl-v1-multipart-common.go, object-api-multipart-common.go).  XLFiles: the
      disks as functions from names to files; XLUpload, XLUploads, XLNewUpload,
      XLComplete: the operations on such disks; XLMultipartGet: a whole upload;
      XLMultipartFaults: runs that go wrong.
    - OSFiles: what the code uses of Go's [os], [ioutil] and [syscall], as calls
      on a tree of directories and files, each of which can fail; OSTrees: what
      they do to the tree.  Posix: the disk of a node (posix.go,
      posix-list-dir-nix.go, posix-errors.go, posix-utils_nix.go,
      posix-utils_common.go, fallocate_linux.go) as a [StorageAPI].  PosixSpec,
      PosixOps, PosixRefines: its operations on a disk without faults, and the
      relation with [MemDisk]; PosixRun: runs of operations; PosixFaults: with
      faults.
    - FSFiles: the helpers of the FS backend, its locked files and its metadata
      (fs-v1-helpers.go, fs-v1-metadata.go, src/pkg/lock).  FSObjects: its
      start, buckets and objects (fs-v1.go, fs-v1-rwpool.go), one operation after
      the other.  FSSpec, FSPut, FSGet: the operations without faults; FSFaults:
      with faults.  FSPool: the pool of read locks with readers that overlap.
      FSList: [ListObjects] over the same walks and pool as that of the XL
      backend.

    ** How the code is translated

    A Go function is a Rocq function of the same name.  Functions that mutate
    a receiver or a slice take and return it; a disk is a value of a type [D]
    that every call may change, so it can fail or recover between calls, and
    [None] in a slice of disks is a nil disk.  Errors are returned as in Go;
    [go] adds panics (index out of range, division by zero, a fatal unlock).
    Integers are in [Z]; [int64_wrap] and the like are written where the code
    can overflow.  Iterations over a map go through [range_order], an oracle
    for the order.  The goroutines of a parallel disk operation work on a disk
    and a slot of their own and are run in index order; the interleaving of
    lock operations is explicit, as a step relation over threads ([ns_step] in
    NsLock), over handlers and maintenance ([lock_step] in LockServer), over
    listings and timers ([pool_step] in WalkPool) or over readers ([rstep] in
    FSPool).
    Clocks, random identifiers and the state of the buffer pool between reads
    are arguments.

    Code outside src/cmd and src/pkg is a parameter: the Reed-Solomon codec,
    the hash functions, JSON and time parsing, UUIDs, HTTP authentication.  The
    classes that state what is relied on ([RSContract], [StorageContract],
    [StorageReads], [StorageFiles], [DiskContract], [IOWriterContract],
    [JsonContract], [UploadsContract], [FSJsonContract]) have
    instances, and the witness of each theorem applies it to them.

    What the theorems take for granted.  The metadata of the XL backend is what
    JSON represents: text in valid UTF-8, integers up to 2^53 in size (gjson reads
    them through a float64), times with a year of four digits ([JsonContract] and
    [UploadsContract]; the contracts of fs.json and format.json say so in their
    hypotheses).  The disks of the object layer are those of [DiskContract], which
    knows no limit on the length of a path element and no directories that a
    rename without a source leaves; posix.go does such things in the cases
    that PosixRun leaves out.  The theorems on the objects of the XL backend are
    for a server whose object cache is off, while xl-v1.go turns it on if there is
    memory for it: a read then goes to the disks.  The cache alone is treated in
    ObjCache.  The theorems on namespace locks are for locks and unlocks;
    [ForceUnlock] is modelled and breaks them.

    Fuel.  Loops over slices are structural.  [erasureCreateFile] takes one
    unit per block and one to see the end of the stream, and hashing a file one
    more than its length; the theorems that these functions return ask for that
    much.  [cleanupDir] takes one unit per level of the directory and
    [parentDirIsObject] one per element of the name; [PutObject] passes one
    fuel to all of these.  A tree walk takes one unit per level of the tree; the
    elements of the longest name are enough.  A delete of [posix] takes one unit
    per element of its path ([delete_fuel]), and so does one of the FS backend.
    Copies to and from a file ([copy_file], [copy_out]) take one unit per byte at
    most, since a chunk is not empty; the code passes the length.  The retry loop of [erasureReadFile]
    runs at most once per disk and its block loop once per block, so their
    bounds are computed.

    ** What is proved

    - Reads (ErasureRead, XLObject): whatever the disks hold and however they
      fail, a read returns a prefix of the requested range and an error, or
      the range; it returns the range whenever as many shards as data blocks
      are intact.  For [GetObject] this covers the metadata quorum, the choice
      of the version, the order of the disks and objects of many parts.
    - Writes and healing (ErasureWrite, ErasureHeal, XLDisk): shard files and
      checksums are what the layout says on every disk that accepted the
      write; what was written reads back; healing rebuilds the shards of the
      outdated disks; metadata is on a quorum or removed again.
    - Objects (XLPutGet, XLDelete, XLBucket): with a write quorum of disks up,
      [PutObject] leaves exactly the files of the new version and touches no
      other object; [GetObject] then returns the data after any loss of disks
      that leaves enough; data that is shorter than announced or has another
      digest is rejected and changes nothing (longer data is cut off); [DeleteObject] removes every file of the
      object; recursive deletion terminates; buckets are created on a quorum or
      removed again.
    - Listing (TreeWalk, TreeWalkDisks, XLList, WalkPool): with some disks up,
      every page has the next keys in order and tells whether there are more,
      and a client that follows the markers gets every object once; the pool
      hands a walk to one listing at a time.
    - Healing of objects (XLHealed, XLRedundancy): [HealObject] leaves every disk
      that is up with exactly the files of the current version for its block,
      and a healed object survives the loss of disks that were intact before.
    - Multipart uploads (XLUpload, XLNewUpload, XLComplete, XLMultipartGet): every
      part is added to the upload on all disks that are up; a new upload, its
      parts and its completion give an object that [GetObject] returns as the
      parts one after the other after disks are lost.
    - Disks and start-up (FormatPlaces, RetryStorage, Startup): a server formats
      exactly when it is the first and all disks are fresh; a restart finds the
      order of the disks again; healing the format gives fresh disks the free
      places; a retried call reconnects a bounded number of times.
    - POSIX storage (PosixRun, PosixFaults): on a disk without faults every run of
      operations answers as the in-memory disk does and leaves the same files;
      whatever calls of the system fail, the tree stays well formed, only the
      files that an operation names can change, and an append leaves a prefix of
      its data.
    - FS backend (FSGet, FSList, FSFaults, FSPool): without faults a put succeeds,
      every range reads back as given, no other file changes, and paging through
      the bucket then shows its objects and the new one; whatever calls
      of the system fail, a put replaces the object by the whole verified data or
      leaves it as it was; the pool of read locks counts the readers of a file
      exactly if no two readers open it at the same time and it does not appear
      while a reader does without it.
    - Decisions (Quorum, Healing, Distribution, XLMeta): quorum reduction,
      the current version, block order and part lookup, independently of map
      iteration order where the code is.
    - Locks (LockServer, NsLock): the RPC handlers refine a reader-writer lock
      per resource; exclusion, exact counters, safe unlocking and progress in
      every state that any number of threads reach by locking and unlocking.
    - Caching, names, ranges, policies (ObjCache, ObjectNames, HttpRange,
      Wildcard, Policy): functional specifications of each; a Range header gets
      exactly the bytes it asks for, and is refused exactly if it asks for none.
    - Defects: an append that fails once corrupts data silently
      ([flaky_append_silent_corruption]); the bounds check of reads overflows;
      the read quorum is not a majority; forced unlocks break exclusion; a
      StringNotEquals condition means its opposite; object names with [..]
      reach every object of every other bucket ([object_name_escapes]); the cache leaks the size of replaced entries; a copy
      of an object onto itself overwrites the checksums of all disks
      ([CopyObject_one_checksum]); a timer of the pool ends a walk in use and
      can panic ([walk_pool_race]); a marker in the shadow of an object lists
      it again ([ListObjects_marker_repeats]); a listing without results fails
      if the last disk is down ([ListObjects_missing_prefix]); healing spreads
      bit rot with valid checksums ([HealObject_spreads_bitrot]); a retried append
      stores its bytes twice ([retry_AppendFile_twice]); a start-up with most
      disks fresh never ends ([startup_waits_forever]); an acknowledged part of
      an upload is forgotten ([PutObjectPart_forgets_part]); listing no uploads
      ends the server ([listMultipartUploads_timer_panics]); an upload can not be
      aborted while a disk is offline ([abortMultipartUpload_offline]); the disk
      does not count the input/output errors of most calls
      ([io_errors_not_counted]); a failed rename leaves directories that block
      later ones ([rename_missing_leaves_dirs]); two readers of an FS object that
      start together close each other's file ([pool_race]), and so does a reader
      that has not found fs.json ([pool_late_file]); a rejected put of the
      FS backend leaves metadata without an object
      ([rejected_put_leaves_metadata]); a bucket that could not be made is
      reported as made ([make_bucket_drops_error]); a listing with one entry that
      fails is empty ([list_drops_error]); a copy reads files out of the
      exported directory ([copy_from_outside]) and, onto itself, loses the md5
      sum ([copy_drops_md5]).

    ** What is not modelled

    Multipart uploads and the background append of the FS backend (the former
    are modelled for the XL backend; the latter is a race of goroutines over the
    files of an upload); symbolic links and systems other
    than Linux in the files of the operating system; networking and RPC
    transport; the distributed lock client (dsync is not part of the sources);
    HTTP handlers, XML and JSON encoding, request signatures, notifications,
    configuration and the browser, which are input and output around the object
    layer. *)

From Stdlib Require Export ZArith Lia Ascii.
From stdpp Require Export base list gmap strings sorting fin_maps.

(** ** Go values

    A Go function returns, panics (index out of range, division by zero, nil
    dereference) or keeps looping; a model of a loop that runs out of fuel is
    [Diverge].  [go A] is that outcome; Go [error]s are ordinary values and
    are modelled in [GoErrors]. *)

Inductive go (A : Type) : Type :=
| Ret (a : A)
| Panic
| Diverge.
Arguments Ret {A} a.
Arguments Panic {A}.
Arguments Diverge {A}.

#[export] Instance go_ret : MRet go := @Ret.
#[export] Instance go_bind : MBind go :=
  λ A B f m, match m with Ret a => f a | Panic => Panic | Diverge => Diverge end.

(** Go's [byte], and byte slices. *)
Abbreviation byte := ascii.
Abbreviation bytes := (list ascii).
Abbreviation byte0 := (Ascii false false false false false false false false).

Definition byte_val (b : byte) : Z := Z.of_N (N_of_ascii b).

(** Conversions [[]byte(s)] and [string(b)]. *)
Definition bytes_of_string (s : string) : bytes := String.list_ascii_of_string s.
Definition string_of_bytes (b : bytes) : string := String.string_of_list_ascii b.

(** Machine integers: values are kept in [Z] and wrapped where the code can
    overflow. *)
Definition int64_wrap (z : Z) : Z := ((z + 2 ^ 63) `mod` 2 ^ 64 - 2 ^ 63)%Z.
Definition uint64_wrap (z : Z) : Z := (z `mod` 2 ^ 64)%Z.
Definition uint32_wrap (z : Z) : Z := (z `mod` 2 ^ 32)%Z.
Definition is_int64 (z : Z) : Prop := (- 2 ^ 63 ≤ z < 2 ^ 63)%Z.

(** [len(l)] as an [int]. *)
Definition zlen {A} (l : list A) : Z := Z.of_nat (length l).

(** The iteration order of [for k, v := range m] over a map is unspecified:
    it is an oracle that permutes the entries. *)
Class MapOrder := {
  range_order : ∀ {A : Type}, list A → list A;
  range_order_perm : ∀ {A : Type} (l : list A), range_order l ≡ₚ l;
}.

Definition map_order_id : MapOrder :=
  {| range_order _ l := l; range_order_perm _ _ := reflexivity _ |}.

Lemma rev_perm {A} (l : list A) : rev l ≡ₚ l.
Proof. symmetry. apply Permutation_rev. Qed.

Definition map_order_rev : MapOrder :=
  {| range_order _ l := rev l; range_order_perm _ l := rev_perm l |}.

(** ** Tactics and hint databases *)

Create HintDb minio.
Create Rewrite HintDb minio.

(** Running a bind of a value. *)
Ltac go_simpl := cbn [negb mbind go_bind mret go_ret].

(** Case analysis on the innermost [if]/[match] of the goal or a hypothesis. *)
Ltac split_if :=
  match goal with
  | |- context [if ?b then _ else _] => destruct b eqn:?
  | H : context [if ?b then _ else _] |- _ => destruct b eqn:?
  end.

Ltac bool_prop :=
  repeat match goal with
  | H : (_ && _)%bool = true |- _ => apply andb_true_iff in H as [? ?]
  | H : (_ && _)%bool = false |- _ => apply andb_false_iff in H
  | H : (_ || _)%bool = true |- _ => apply orb_true_iff in H
  | H : (_ || _)%bool = false |- _ => apply orb_false_iff in H as [? ?]
  | H : negb _ = true |- _ => apply negb_true_iff in H
  | H : negb _ = false |- _ => apply negb_false_iff in H
  | H : bool_decide _ = true |- _ => apply bool_decide_eq_true in H
  | H : bool_decide _ = false |- _ => apply bool_decide_eq_false in H
  | H : (_ =? _)%Z = true |- _ => apply Z.eqb_eq in H
  | H : (_ =? _)%Z = false |- _ => apply Z.eqb_neq in H
  | H : (_ <? _)%Z = true |- _ => apply Z.ltb_lt in H
  | H : (_ <? _)%Z = false |- _ => apply Z.ltb_ge in H
  | H : (_ <=? _)%Z = true |- _ => apply Z.leb_le in H
  | H : (_ <=? _)%Z = false |- _ => apply Z.leb_gt in H
  end.

(** ** Shared lemmas *)

Lemma int64_wrap_id z : is_int64 z → int64_wrap z = z.
Proof.
  unfold is_int64, int64_wrap. intros H.
  rewrite Z.mod_small; lia.
Qed.

Lemma int64_wrap_bounds z : is_int64 (int64_wrap z).
Proof.
  unfold is_int64, int64_wrap.
  pose proof (Z.mod_pos_bound (z + 2 ^ 63) (2 ^ 64)). lia.
Qed.

Lemma zlen_app {A} (l k : list A) : zlen (l ++ k) = (zlen l + zlen k)%Z.
Proof. unfold zlen. rewrite length_app. lia. Qed.

Lemma zlen_nonneg {A} (l : list A) : (0 ≤ zlen l)%Z.
Proof. unfold zlen. lia. Qed.

Lemma filter_all {A} (P : A → Prop) `{!∀ x, Decision (P x)} (l : list A) :
  (∀ x, x ∈ l → P x) → filter P l = l.
Proof.
  induction l as [|x l IH]; intros Hl; [done|]. rewrite filter_cons, decide_True by (apply Hl; constructor).
  f_equal. apply IH. intros y Hy. apply Hl. by constructor.
Qed.

Lemma filter_iff_in {A} (P Q : A → Prop) `{!∀ x, Decision (P x), !∀ x, Decision (Q x)} (l : list A) :
  (∀ x, x ∈ l → P x ↔ Q x) → filter P l = filter Q l.
Proof.
  induction l as [|x l IH]; intros Hl; [done|]. rewrite !filter_cons, IH
    by (intros y Hy; apply Hl; by constructor).
  pose proof (Hl x ltac:(constructor)). destruct (decide (P x)), (decide (Q x)); tauto.
Qed.

Lemma filter_fmap {A B} (f : A → B) (P : B → Prop) `{!∀ x, Decision (P x)} (l : list A) :
  filter P (f <$> l) = f <$> filter (λ x, P (f x)) l.
Proof.
  induction l as [|x l IH]; [done|]. rewrite fmap_cons, !filter_cons, IH.
  by destruct (decide (P (f x))).
Qed.

(** Filtering keeps a key unique. *)
Lemma NoDup_fmap_filter {A B} (f : A → B) (P : A → Prop) `{!∀ x, Decision (P x)} (l : list A) :
  NoDup (f <$> l) → NoDup (f <$> filter P l).
Proof.
  induction l as [|x l IH]; [done|]. rewrite fmap_cons, NoDup_cons. intros [Hx Hl].
  rewrite filter_cons. destruct (decide (P x)); [|auto]. rewrite fmap_cons, NoDup_cons.
  split; [|auto]. rewrite list_elem_of_fmap in *. intros (y & Heq & Hy).
  apply Hx. exists y. split; [done|]. by apply list_elem_of_filter in Hy as [_ Hy].
Qed.

#[export] Hint Resolve zlen_nonneg int64_wrap_bounds : minio.
#[export] Hint Rewrite @zlen_app : minio.
