(* ===== verification/GoErrors.v ===== *)
(** * Errors

    The [error] values of the server (src/cmd/errors.go, storage-errors.go,
    typed-errors.go, xl-v1-errors.go, object-api-errors.go): package-level
    sentinels, struct-valued object-layer errors, errors allocated by
    [errors.New] or [fmt.Errorf] at the point of failure, and the traced
    [*Error] wrapper.  A Go [error] variable is an [option error], [None]
    being [nil]. *)

From S2P Require Import Prelude.

(** ** Data *)

(** src/cmd/storage-errors.go. *)
Inductive storage_error :=
| errUnexpected | errCorruptedFormat | errUnformattedDisk | errDiskFull
| errDiskNotFound | errFaultyRemoteDisk | errFaultyDisk | errDiskAccessDenied
| errFileNotFound | errFileNameTooLong | errVolumeExists | errIsNotRegular
| errVolumeNotFound | errVolumeNotEmpty | errVolumeAccessDenied
| errFileAccessDenied.

(** src/cmd/typed-errors.go. *)
Inductive typed_error :=
| errInvalidArgument | errSignatureMismatch | errInvalidToken
| errContentSHA256Mismatch | errSizeUnexpected | errDataTooLarge
| errDataTooSmall | errServerNotInitialized | errServerVersionMismatch
| errServerTimeMismatch.

(** src/cmd/xl-v1-errors.go. *)
Inductive xl_error :=
| errXLMaxDisks | errXLMinDisks | errXLNumDisks | errXLReadQuorum
| errXLWriteQuorum.

(** Sentinels of the packages the code compares against. *)
Inductive lib_error :=
| io_EOF | io_ErrUnexpectedEOF | io_ErrShortWrite | io_ErrShortBuffer
| bufio_ErrBufferFull
| rs_ErrTooFewShards | rs_ErrShortData | rs_ErrInvShardNum | rs_ErrShardSize
| rs_ErrShardNoData
| errInvalidRange | errSomeDiskUnformatted | errSomeDiskOffline
| errDiskOrderMismatch | errWalkAbort | errLineTooLong | errMalformedEncoding
| ErrBpoolNoFree | ErrKeyNotFoundInCache | ErrCacheFull | ErrExcessData
| errInvalidAccessKeyID | errAuthentication.

(** The error types of src/cmd/object-api-errors.go; all are struct values
    that compare field by field. *)
Inductive object_error :=
| SHA256Mismatch | StorageFull | InsufficientReadQuorum
| InsufficientWriteQuorum
| BucketNotFound (Bucket Object : string)
| BucketNotEmpty (Bucket Object : string)
| ObjectNotFound (Bucket Object : string)
| ObjectExistsAsDirectory (Bucket Object : string)
| PrefixAccessDenied (Bucket Object : string)
| BucketExists (Bucket Object : string)
| BadDigest (ExpectedMD5 CalculatedMD5 : string)
| UnsupportedDelimiter (Delimiter : string)
| InvalidUploadIDKeyCombination (UploadIDMarker KeyMarker : string)
| InvalidMarkerPrefixCombination (Marker Prefix : string)
| BucketPolicyNotFound (Bucket Object : string)
| BucketNameInvalid (Bucket Object : string)
| ObjectNameInvalid (Bucket Object : string)
| IncompleteBody (Bucket Object : string)
| InvalidRange (offsetBegin offsetEnd resourceSize : Z)
| ObjectTooLarge (Bucket Object : string)
| ObjectTooSmall (Bucket Object : string)
| MalformedUploadID (UploadID : string)
| InvalidUploadID (UploadID : string)
| InvalidPart
| PartTooSmall (PartSize PartNumber : Z) (PartETag : string)
| NotImplemented
| PolicyNesting.

(** [ENew] is an error allocated where it is returned ([errors.New],
    [fmt.Errorf], [*json.SyntaxError], ...); [Traced] is the [*Error] of
    src/cmd/errors.go without its stack trace. *)
#[warnings="-register-all"]
Inductive error :=
| StorageErr (e : storage_error)
| TypedErr (e : typed_error)
| XLErr (e : xl_error)
| LibErr (e : lib_error)
| ObjErr (e : object_error)
| ENew (msg : string)
| Traced (e : error) (errs : list (option error)).

Coercion StorageErr : storage_error >-> error.
Coercion TypedErr : typed_error >-> error.
Coercion XLErr : xl_error >-> error.
Coercion LibErr : lib_error >-> error.
Coercion ObjErr : object_error >-> error.

#[export] Instance storage_error_dec : EqDecision storage_error.
Proof. solve_decision. Defined.
#[export] Instance typed_error_dec : EqDecision typed_error.
Proof. solve_decision. Defined.
#[export] Instance xl_error_dec : EqDecision xl_error.
Proof. solve_decision. Defined.
#[export] Instance lib_error_dec : EqDecision lib_error.
Proof. solve_decision. Defined.
#[export] Instance object_error_dec : EqDecision object_error.
Proof. solve_decision. Defined.

(** ** Operations *)

(** Go's [==] on two [error] interfaces.  Sentinels are pointers to distinct
    variables, struct errors compare by value.  Two errors allocated at run
    time ([ENew], [Traced]) are different pointers: the slots of the error
    slices are each filled by a call of their own. *)
Definition err_eqb (a b : option error) : bool :=
  match a, b with
  | None, None => true
  | Some (StorageErr x), Some (StorageErr y) => bool_decide (x = y)
  | Some (TypedErr x), Some (TypedErr y) => bool_decide (x = y)
  | Some (XLErr x), Some (XLErr y) => bool_decide (x = y)
  | Some (LibErr x), Some (LibErr y) => bool_decide (x = y)
  | Some (ObjErr x), Some (ObjErr y) => bool_decide (x = y)
  | _, _ => false
  end.

(** [traceError(e, errs...)]. *)
Definition traceError (e : option error) (errs : list (option error)) : option error :=
  match e with
  | None => None
  | Some e => Some (Traced e errs)
  end.

(** [errorCause] unwraps one [*Error]. *)
Definition errorCause (err : option error) : option error :=
  match err with
  | Some (Traced e _) => Some e
  | _ => err
  end.

Definition errorsCause (errs : list (option error)) : list (option error) :=
  map (λ err, match err with None => None | Some _ => errorCause err end) errs.

Definition baseErrs : list (option error) :=
  [Some (errDiskNotFound : error); Some (errFaultyDisk : error);
   Some (errFaultyRemoteDisk : error)].

Definition baseIgnoredErrs : list (option error) := baseErrs.

Definition isErrIgnored (err : option error) (ignoredErrs : list (option error)) : bool :=
  existsb (λ ignoredErr, err_eqb ignoredErr (errorCause err)) ignoredErrs.

Definition isErr (err : option error) (errs : list (option error)) : bool :=
  existsb (λ exactErr, err_eqb (errorCause err) exactErr) errs.

(** [toObjectErr(err, params...)]: the object-layer error of a storage error.
    A traced error is updated in place and stays traced. *)
Definition toObjectErr_cause (err : option error) (params : list string) : option error :=
  match err with
  | Some (StorageErr errVolumeNotFound) =>
      match params with b :: _ => Some (BucketNotFound b "" : error) | _ => err end
  | Some (StorageErr errVolumeNotEmpty) =>
      match params with b :: _ => Some (BucketNotEmpty b "" : error) | _ => err end
  | Some (StorageErr errVolumeExists) =>
      match params with b :: _ => Some (BucketExists b "" : error) | _ => err end
  | Some (StorageErr errDiskFull) => Some (StorageFull : error)
  | Some (StorageErr errFileAccessDenied) =>
      match params with b :: o :: _ => Some (PrefixAccessDenied b o : error) | _ => err end
  | Some (StorageErr errIsNotRegular) =>
      match params with b :: o :: _ => Some (ObjectExistsAsDirectory b o : error) | _ => err end
  | Some (StorageErr errFileNotFound) =>
      match params with b :: o :: _ => Some (ObjectNotFound b o : error) | _ => err end
  | Some (StorageErr errFileNameTooLong) =>
      match params with b :: o :: _ => Some (ObjectNameInvalid b o : error) | _ => err end
  | Some (TypedErr errDataTooLarge) =>
      match params with b :: o :: _ => Some (ObjectTooLarge b o : error) | _ => err end
  | Some (TypedErr errDataTooSmall) =>
      match params with b :: o :: _ => Some (ObjectTooSmall b o : error) | _ => err end
  | Some (XLErr errXLReadQuorum) => Some (InsufficientReadQuorum : error)
  | Some (XLErr errXLWriteQuorum) => Some (InsufficientWriteQuorum : error)
  | Some (LibErr io_ErrUnexpectedEOF) | Some (LibErr io_ErrShortWrite) =>
      Some (IncompleteBody "" "" : error)
  | Some (TypedErr errContentSHA256Mismatch) => Some (SHA256Mismatch : error)
  | _ => err
  end.

Definition toObjectErr (err : option error) (params : list string) : option error :=
  match err with
  | Some (Traced e errs) =>
      match toObjectErr_cause (Some e) params with
      | Some e' => Some (Traced e' errs)
      | None => err
      end
  | _ => toObjectErr_cause err params
  end.

Definition isErrIncompleteBody (err : option error) : bool :=
  match errorCause err with Some (ObjErr (IncompleteBody _ _)) => true | _ => false end.

Definition isErrBucketPolicyNotFound (err : option error) : bool :=
  match errorCause err with Some (ObjErr (BucketPolicyNotFound _ _)) => true | _ => false end.

Definition isErrObjectNotFound (err : option error) : bool :=
  match errorCause err with Some (ObjErr (ObjectNotFound _ _)) => true | _ => false end.

(** ** Lemmas *)

(** [err_eqb] is sound for Leibniz equality: equal errors are the same value. *)
Lemma err_eqb_eq a b : err_eqb a b = true → a = b.
Proof.
  destruct a as [[]|], b as [[]|]; simpl; intros; bool_prop; congruence.
Qed.

Lemma err_eqb_sym a b : err_eqb a b = err_eqb b a.
Proof.
  destruct a as [[]|], b as [[]|]; simpl; try done;
    apply bool_decide_ext; split; congruence.
Qed.
