(* ===== verification/GoStrings.v ===== *)
(** * Strings of the Go standard library

    What the code uses of [strings], [strconv], [sort], [regexp], [utf8] and
    [path], on byte strings. *)

From S2P Require Import Prelude.

(** ** strings *)

Definition HasPrefix (s prefix : string) : bool :=
  bool_decide (bytes_of_string prefix `prefix_of` bytes_of_string s).

Definition HasSuffix (s suffix : string) : bool :=
  bool_decide (bytes_of_string suffix `suffix_of` bytes_of_string s).

Definition TrimPrefix (s prefix : string) : string :=
  if HasPrefix s prefix
  then string_of_bytes (drop (length (bytes_of_string prefix)) (bytes_of_string s)) else s.

Definition TrimSuffix (s suffix : string) : string :=
  if HasSuffix s suffix
  then string_of_bytes (take (length (bytes_of_string s) - length (bytes_of_string suffix))
                          (bytes_of_string s)) else s.

(** [ToLower] and [EqualFold] for the letters of ASCII; other characters are
    compared as they are, without the case folding of Unicode. *)
Definition lower_byte (c : ascii) : ascii :=
  if bool_decide (65 ≤ nat_of_ascii c ≤ 90) then ascii_of_nat (nat_of_ascii c + 32) else c.

Definition ToLower (s : string) : string := string_of_bytes (lower_byte <$> bytes_of_string s).

Definition strings_EqualFold (s t : string) : bool := bool_decide (ToLower s = ToLower t).

(** The index of the first occurrence. *)
Fixpoint index_bytes (s sep : bytes) : option nat :=
  if bool_decide (sep `prefix_of` s) then Some 0
  else match s with
       | [] => None
       | _ :: s' => S <$> index_bytes s' sep
       end.

Definition Index (s sep : string) : option nat :=
  index_bytes (bytes_of_string s) (bytes_of_string sep).

Definition Contains (s sep : string) : bool := bool_decide (is_Some (Index s sep)).

(** [Split] ([save] = 0) and [SplitAfter] ([save] = the length of [sep]) for a
    non-empty separator; every piece takes a byte, so the length is enough
    fuel. *)
Fixpoint split_bytes (fuel : nat) (s sep : bytes) (save : nat) : list bytes :=
  match fuel with
  | O => [s]
  | S fuel' =>
      match index_bytes s sep with
      | None => [s]
      | Some i => take (i + save) s :: split_bytes fuel' (drop (i + length sep) s) sep save
      end
  end.

Definition Split (s sep : string) : list string :=
  string_of_bytes <$>
    split_bytes (length (bytes_of_string s)) (bytes_of_string s) (bytes_of_string sep) 0.

Definition SplitAfter (s sep : string) : list string :=
  string_of_bytes <$>
    split_bytes (length (bytes_of_string s)) (bytes_of_string s) (bytes_of_string sep)
      (length (bytes_of_string sep)).

(** [strings.Join]. *)
Fixpoint Join (elems : list string) (sep : string) : string :=
  match elems with
  | [] => ""
  | [e] => e
  | e :: elems' => e +:+ sep +:+ Join elems' sep
  end.

(** ** Byte-wise order and sort.Strings *)

Fixpoint bytes_le (s t : bytes) : bool :=
  match s, t with
  | [], _ => true
  | _ :: _, [] => false
  | a :: s', b :: t' =>
      if (byte_val a <? byte_val b)%Z then true
      else if (byte_val b <? byte_val a)%Z then false
      else bytes_le s' t'
  end.

Definition str_le (s t : string) : Prop := bytes_le (bytes_of_string s) (bytes_of_string t) = true.

#[export] Instance str_le_dec s t : Decision (str_le s t).
Proof. unfold str_le. apply _. Defined.

Definition sort_Strings (l : list string) : list string := merge_sort str_le l.

(** ** Regular expressions of the code, as predicates *)

Definition is_digit (b : byte) : bool := (48 <=? byte_val b)%Z && (byte_val b <=? 57)%Z.
Definition is_lower (b : byte) : bool := (97 <=? byte_val b)%Z && (byte_val b <=? 122)%Z.

(** [^[0-9]+$]. *)
Definition all_digits (b : bytes) : bool := negb (bool_decide (b = [])) && forallb is_digit b.

(** ** strconv.ParseInt(s, 10, 64) of a string of digits *)

Definition digits_value (b : bytes) : Z :=
  fold_left (λ acc d, acc * 10 + (byte_val d - 48))%Z b 0%Z.

(** [None] is a range error. *)
Definition ParseInt_digits (b : bytes) : option Z :=
  let v := digits_value b in if (v <? 2 ^ 63)%Z then Some v else None.

(** ** path *)

(** [path.Clean]: the lexical elements, with [.] dropped and [..] resolved;
    [stack] is the result in reverse. *)
Fixpoint clean_elems (rooted : bool) (stack elems : list string) : list string :=
  match elems with
  | [] => rev stack
  | e :: elems' =>
      if bool_decide (e = "") || bool_decide (e = ".") then clean_elems rooted stack elems'
      else if bool_decide (e = "..") then
        match stack with
        | top :: stack' =>
            if bool_decide (top = "..") then clean_elems rooted (".." :: stack) elems'
            else clean_elems rooted stack' elems'
        | [] => if rooted then clean_elems rooted [] elems' else clean_elems rooted [".."] elems'
        end
      else clean_elems rooted (e :: stack) elems'
  end.

Definition path_Clean (p : string) : string :=
  let rooted := HasPrefix p "/" in
  let res := (if rooted then "/" else "") +:+ Join (clean_elems rooted [] (Split p "/")) "/" in
  if bool_decide (res = "") then "." else res.

(** [path.Join]: the non-empty elements, joined and cleaned. *)
Definition path_Join (elems : list string) : string :=
  match filter (λ e, e ≠ "") elems with
  | [] => ""
  | es => path_Clean (Join es "/")
  end.

(** The directory part of [path.Split]: up to the last slash. *)
Definition path_Split_dir (p : string) : string :=
  let b := bytes_of_string p in
  match index_bytes (rev b) (bytes_of_string "/") with
  | Some j => string_of_bytes (take (length b - j) b)
  | None => ""
  end.

Definition path_Dir (p : string) : string := path_Clean (path_Split_dir p).

(** The loop of [path.Ext] from the end; [acc] is what was passed. *)
Fixpoint ext_scan (rb acc : bytes) : bytes :=
  match rb with
  | [] => []
  | c :: rb' =>
      if bool_decide (c = "/"%char) then []
      else if bool_decide (c = "."%char) then c :: acc
      else ext_scan rb' (c :: acc)
  end.

Definition path_Ext (p : string) : string := string_of_bytes (ext_scan (rev (bytes_of_string p)) []).

(** ** Lemmas *)

Lemma bytes_string_bytes b : bytes_of_string (string_of_bytes b) = b.
Proof. apply String.list_ascii_of_string_of_list_ascii. Qed.

Lemma string_bytes_string s : string_of_bytes (bytes_of_string s) = s.
Proof. apply String.string_of_list_ascii_of_string. Qed.

Lemma bytes_of_string_inj s t : bytes_of_string s = bytes_of_string t → s = t.
Proof. intros H. rewrite <- (string_bytes_string s), H. apply string_bytes_string. Qed.

Lemma byte_val_inj a b : byte_val a = byte_val b → a = b.
Proof.
  unfold byte_val. intros H%N2Z.inj. rewrite <- (ascii_N_embedding a), H. apply ascii_N_embedding.
Qed.

Lemma bytes_le_total s t : bytes_le s t = true ∨ bytes_le t s = true.
Proof.
  revert t. induction s as [|a s IH]; intros [|b t]; simpl; auto.
  destruct (byte_val a <? byte_val b)%Z eqn:E1; [by left|].
  destruct (byte_val b <? byte_val a)%Z eqn:E2; [by right|]. apply IH.
Qed.

Lemma bytes_le_trans s t u : bytes_le s t = true → bytes_le t u = true → bytes_le s u = true.
Proof.
  revert t u. induction s as [|a s IH]; intros [|b t] [|c u]; simpl; try done.
  destruct (byte_val a <? byte_val b)%Z eqn:E1, (byte_val b <? byte_val c)%Z eqn:E2,
    (byte_val c <? byte_val b)%Z eqn:E3, (byte_val b <? byte_val a)%Z eqn:E4,
    (byte_val a <? byte_val c)%Z eqn:E5, (byte_val c <? byte_val a)%Z eqn:E6;
    bool_prop; try done; try lia; apply IH.
Qed.

Lemma bytes_le_antisym s t : bytes_le s t = true → bytes_le t s = true → s = t.
Proof.
  revert t. induction s as [|a s IH]; intros [|b t]; simpl; try done.
  destruct (byte_val a <? byte_val b)%Z eqn:E1, (byte_val b <? byte_val a)%Z eqn:E2;
    bool_prop; try done; try lia.
  intros H1 H2. f_equal; [apply byte_val_inj; lia|auto].
Qed.

Lemma bytes_le_prefix s t : s `prefix_of` t → bytes_le s t = true.
Proof.
  intros [k ->]. induction s as [|a s IH]; simpl; [done|]. by rewrite Z.ltb_irrefl.
Qed.

#[export] Instance str_le_total : Total str_le.
Proof. intros s t. apply bytes_le_total. Qed.

#[export] Instance str_le_trans : Transitive str_le.
Proof. intros s t u. apply bytes_le_trans. Qed.

#[export] Instance str_le_antisym : AntiSymm (=) str_le.
Proof. intros s t H1 H2. apply bytes_of_string_inj. by apply bytes_le_antisym. Qed.

#[export] Instance str_le_refl : Reflexive str_le.
Proof. intros s. by destruct (total str_le s s). Qed.

Lemma sort_Strings_perm l : sort_Strings l ≡ₚ l.
Proof. apply merge_sort_Permutation. Qed.

Lemma sort_Strings_sorted l : StronglySorted str_le (sort_Strings l).
Proof. apply StronglySorted_merge_sort; apply _. Qed.

Lemma HasPrefix_le s p : HasPrefix s p = true → str_le p s.
Proof. unfold HasPrefix. rewrite bool_decide_eq_true. apply bytes_le_prefix. Qed.

Lemma HasPrefix_refl s : HasPrefix s s = true.
Proof. unfold HasPrefix. apply bool_decide_true. done. Qed.

Lemma bytes_of_string_app s t : bytes_of_string (s +:+ t) = bytes_of_string s ++ bytes_of_string t.
Proof. induction s as [|c s IH]; [done|]. simpl. f_equal. apply IH. Qed.

Lemma str_app_nil_r s : s +:+ "" = s.
Proof. apply bytes_of_string_inj. rewrite bytes_of_string_app. apply app_nil_r. Qed.

Lemma str_app_assoc s t u : s +:+ t +:+ u = (s +:+ t) +:+ u.
Proof. apply bytes_of_string_inj. rewrite !bytes_of_string_app. apply app_assoc. Qed.

Lemma str_app_empty s t : s +:+ t = "" → s = "" ∧ t = "".
Proof. by destruct s. Qed.

(** ** Occurrences of a single byte *)

Lemma char_prefix_of c (b : bytes) : [c] `prefix_of` b ↔ head b = Some c.
Proof.
  split; [by intros [k ->]|]. destruct b as [|d b]; [done|]. intros [= ->]. by exists b.
Qed.

Lemma index_char_found c (e rest : bytes) :
  c ∉ e → index_bytes (e ++ c :: rest) [c] = Some (length e).
Proof.
  induction e as [|d e IH]; intros He; cbn [app index_bytes].
  - by rewrite bool_decide_true by (by exists rest).
  - rewrite not_elem_of_cons in He. destruct He as [Hc He].
    rewrite bool_decide_false; [by rewrite IH|]. rewrite char_prefix_of. simpl. congruence.
Qed.

Lemma index_char_absent c (e : bytes) : c ∉ e → index_bytes e [c] = None.
Proof.
  induction e as [|d e IH]; intros He; cbn [index_bytes].
  - rewrite bool_decide_false; [done|]. by rewrite char_prefix_of.
  - rewrite not_elem_of_cons in He. destruct He as [Hc He].
    rewrite bool_decide_false; [by rewrite IH|]. rewrite char_prefix_of. simpl. congruence.
Qed.

Lemma HasPrefix_app p s : HasPrefix (p +:+ s) p = true.
Proof. apply bool_decide_true. rewrite bytes_of_string_app. by eexists. Qed.

Lemma TrimPrefix_app p s : TrimPrefix (p +:+ s) p = s.
Proof.
  unfold TrimPrefix. rewrite HasPrefix_app, bytes_of_string_app, drop_app_length.
  apply string_bytes_string.
Qed.

(** ** Splitting at a byte *)

Fixpoint split_char (c : byte) (b : bytes) : list bytes :=
  match b with
  | [] => [[]]
  | x :: b' =>
      if bool_decide (x = c) then [] :: split_char c b'
      else match split_char c b' with
           | [] => [[x]]
           | h :: t => (x :: h) :: t
           end
  end.

Lemma split_char_ne c b : split_char c b ≠ [].
Proof. destruct b as [|x b]; [done|]. simpl. case_bool_decide; [done|]. by destruct (split_char c b). Qed.

Lemma split_char_app c a b : split_char c (a ++ c :: b) = split_char c a ++ split_char c b.
Proof.
  induction a as [|x a IH]; simpl; [by rewrite bool_decide_true|].
  case_bool_decide; [by rewrite IH|]. rewrite IH.
  destruct (split_char c a) eqn:E; [by apply split_char_ne in E|done].
Qed.

Lemma split_char_absent c a : c ∉ a → split_char c a = [a].
Proof.
  induction a as [|x a IH]; [done|]. intros [Hx Ha]%not_elem_of_cons. simpl.
  rewrite bool_decide_false by done. by rewrite IH.
Qed.

Lemma index_char_Some c b i :
  index_bytes b [c] = Some i → ∃ a r, b = a ++ (c :: r) ∧ (c ∉ a) ∧ length a = i.
Proof.
  revert i. induction b as [|x b IH]; intros i; cbn [index_bytes]; case_bool_decide as Hp; try done.
  - by apply char_prefix_of in Hp.
  - intros [= <-]. apply char_prefix_of in Hp. injection Hp as ->. exists [], b. by split_and!; [..|apply not_elem_of_nil|].
  - rewrite fmap_Some. intros (j & Hj & ->). destruct (IH j Hj) as (a & r & -> & Ha & Hl).
    exists (x :: a), r. split_and!; [done| |simpl; lia]. rewrite not_elem_of_cons. split; [|done].
    intros ->. apply Hp. apply char_prefix_of. done.
Qed.

Lemma split_bytes_char c fuel b :
  length b ≤ fuel → split_bytes fuel b [c] 0 = split_char c b.
Proof.
  revert b. induction fuel as [|fuel IH]; intros b Hl.
  { destruct b; [done|simpl in Hl; lia]. }
  cbn [split_bytes]. destruct (index_bytes b [c]) as [i|] eqn:E.
  - destruct (index_char_Some _ _ _ E) as (a & r & -> & Ha & <-).
    rewrite Nat.add_0_r, take_app_length, split_char_app, (split_char_absent c a Ha).
    rewrite (drop_app_ge _ _ (length a + length [c])) by lia.
    replace (length a + length [c] - length a) with 1 by (change (length [c]) with 1; lia).
    rewrite length_app, length_cons in Hl. change (drop 1 (c :: r)) with r. rewrite IH by lia. done.
  - destruct (decide (c ∈ b)) as [Hin|Hin]; [|by rewrite split_char_absent].
    apply list_elem_of_split in Hin as (a & r & ->). exfalso.
    clear -E. induction a as [|x a IH]; cbn [app index_bytes] in E; case_bool_decide as Hp; try done.
    + apply Hp. by exists r.
    + apply IH. destruct (index_bytes (a ++ c :: r) [c]); done.
Qed.

Lemma Split_slash s r : Split (s +:+ "/" +:+ r) "/" = Split s "/" ++ Split r "/".
Proof.
  unfold Split. change (bytes_of_string "/") with ["/"%char].
  rewrite !split_bytes_char by done. rewrite !bytes_of_string_app.
  change (bytes_of_string "/" ++ ?x) with ("/"%char :: x). by rewrite split_char_app, fmap_app.
Qed.

Lemma Split_plain s : "/"%char ∉ bytes_of_string s → Split s "/" = [s].
Proof.
  intros Hs. unfold Split. change (bytes_of_string "/") with ["/"%char].
  rewrite split_bytes_char, split_char_absent by done. simpl. by rewrite string_bytes_string.
Qed.

Lemma Split_ne s : Split s "/" ≠ [].
Proof.
  unfold Split. change (bytes_of_string "/") with ["/"%char]. rewrite split_bytes_char by done.
  intros E. apply fmap_nil_inv in E. by apply split_char_ne in E.
Qed.

(** A string is its first element, or that and the rest. *)
Lemma first_elem s :
  (("/"%char ∉ bytes_of_string s) ∧ Index s "/" = None) ∨
  ∃ name r, s = name +:+ "/" +:+ r ∧ ("/"%char ∉ bytes_of_string name) ∧
    Index s "/" = Some (length (bytes_of_string name)).
Proof.
  unfold Index. change (bytes_of_string "/") with ["/"%char].
  destruct (index_bytes (bytes_of_string s) ["/"%char]) as [i|] eqn:E.
  - right. destruct (index_char_Some _ _ _ E) as (a & r & Hs & Ha & <-).
    exists (string_of_bytes a), (string_of_bytes r). rewrite bytes_string_bytes.
    split_and!; [|done|done]. apply bytes_of_string_inj.
    rewrite !bytes_of_string_app, !bytes_string_bytes. done.
  - left. split; [|done]. intros Hin. apply list_elem_of_split in Hin as (a & r & Hs).
    assert (Hm : is_Some (index_bytes (bytes_of_string s) ["/"%char])); [|rewrite E in Hm; by destruct Hm].
    rewrite Hs. clear. induction a as [|x a IH]; cbn [app index_bytes]; case_bool_decide as Hp; try done.
    + by destruct Hp; exists r.
    + by apply fmap_is_Some.
Qed.

Lemma str_app_inj_l s t u : s +:+ t = s +:+ u → t = u.
Proof.
  intros E. apply (f_equal bytes_of_string) in E. rewrite !bytes_of_string_app in E.
  apply app_inv_head in E. by apply bytes_of_string_inj.
Qed.

Lemma HasPrefix_iff s p : HasPrefix s p = true ↔ ∃ r, s = p +:+ r.
Proof.
  split; [|intros [r ->]; apply HasPrefix_app]. unfold HasPrefix. rewrite bool_decide_eq_true.
  intros [r Hr]. exists (string_of_bytes r). apply bytes_of_string_inj.
  by rewrite bytes_of_string_app, bytes_string_bytes.
Qed.

Lemma HasSuffix_app s p : HasSuffix (s +:+ p) p = true.
Proof. apply bool_decide_true. rewrite bytes_of_string_app. by eexists. Qed.

Lemma TrimSuffix_app s p : TrimSuffix (s +:+ p) p = s.
Proof.
  unfold TrimSuffix. rewrite HasSuffix_app, bytes_of_string_app, length_app, Nat.add_sub, take_app_length.
  apply string_bytes_string.
Qed.

Lemma Join_cons_ne e es sep : es ≠ [] → Join (e :: es) sep = e +:+ sep +:+ Join es sep.
Proof. by destruct es. Qed.

Lemma Join_app es fs sep : es ≠ [] → fs ≠ [] → Join (es ++ fs) sep = Join es sep +:+ sep +:+ Join fs sep.
Proof.
  intros Hes Hfs. induction es as [|e es IH]; [done|]. destruct es as [|e2 es].
  - change ([e] ++ fs) with (e :: fs). by rewrite Join_cons_ne.
  - change ((e :: e2 :: es) ++ fs) with (e :: ((e2 :: es) ++ fs)).
    rewrite Join_cons_ne by done. rewrite IH by done. rewrite (Join_cons_ne e (e2 :: es)) by done.
    by rewrite !str_app_assoc.
Qed.

Lemma Join_Split s : Join (Split s "/") "/" = s.
Proof.
  unfold Split. change (bytes_of_string "/") with ["/"%char]. rewrite split_bytes_char by done.
  rewrite <- (string_bytes_string s) at 2. generalize (bytes_of_string s). intros b.
  induction b as [|x b IH]; [done|]. cbn [split_char]. case_bool_decide as Hx.
  - subst x. rewrite fmap_cons, Join_cons_ne.
    + rewrite IH. apply bytes_of_string_inj. by rewrite !bytes_of_string_app, !bytes_string_bytes.
    + intros E. apply fmap_nil_inv in E. by apply split_char_ne in E.
  - destruct (split_char "/" b) as [|h t] eqn:E; [by apply split_char_ne in E|].
    rewrite fmap_cons in *. destruct t as [|h2 t].
    + simpl in *. apply (f_equal bytes_of_string) in IH. rewrite !bytes_string_bytes in IH. by rewrite IH.
    + rewrite Join_cons_ne in * by done. change (string_of_bytes (x :: h)) with (String x (string_of_bytes h)).
      change (string_of_bytes (x :: b)) with (String x (string_of_bytes b)). by rewrite <- IH.
Qed.
