(* ===== verification/Quorum.v ===== *)
(** * Quorum decisions

    The reduction of per-disk errors to one decision
    (src/cmd/xl-v1-utils.go: [reduceErrs], [reduceQuorumErrs],
    [reduceReadQuorumErrs], [reduceWriteQuorumErrs], [isDiskQuorum]).
    The map of error counts is iterated in an unspecified order, so every
    definition takes the order as an oracle ([MapOrder]). *)

From S2P Require Import Prelude.
From S2P Require Import GoErrors.

(** ** Operations *)

(** [errorCounts[err]++] on a [map[error]int]; entries in insertion order. *)
Fixpoint errorCounts_incr (err : option error) (m : list (option error * nat))
    : list (option error * nat) :=
  match m with
  | [] => [(err, 1)]
  | (k, n) :: m' =>
      if err_eqb k err then (k, S n) :: m' else (k, n) :: errorCounts_incr err m'
  end.

Definition errorCounts (ignoredErrs errs : list (option error))
    : list (option error * nat) :=
  fold_left
    (λ m err, if isErrIgnored err ignoredErrs then m else errorCounts_incr err m)
    errs [].

(** The loop [for err, count := range errorCounts]. *)
Definition maxCounted (entries : list (option error * nat)) : nat * option error :=
  fold_left
    (λ acc entry, if (acc.1 <? entry.2)%nat then (entry.2, entry.1) else acc)
    entries (0, None).

Definition objectOpIgnoredErrs : list (option error) :=
  [Some (errDiskNotFound : error); Some (errDiskAccessDenied : error);
   Some (errFaultyDisk : error); Some (errFaultyRemoteDisk : error)].

Definition quorumIgnoredErrs : list (option error) :=
  baseIgnoredErrs ++ [Some (errDiskAccessDenied : error)].

Section Reduce.
Context `{MapOrder}.

Definition reduceErrs (errs ignoredErrs : list (option error)) : nat * option error :=
  maxCounted (range_order (errorCounts ignoredErrs (errorsCause errs))).

Definition reduceQuorumErrs (errs ignoredErrs : list (option error)) (quorum : nat)
    (quorumErr : error) : option error :=
  let '(maxCount, maxErr) := reduceErrs errs ignoredErrs in
  match maxErr with
  | None =>
      if (quorum <=? maxCount)%nat then None
      else traceError (Some quorumErr) errs
  | Some _ =>
      if (quorum <=? maxCount)%nat then traceError maxErr errs
      else traceError (Some quorumErr) errs
  end.

Definition reduceReadQuorumErrs (errs ignoredErrs : list (option error))
    (readQuorum : nat) : option error :=
  reduceQuorumErrs errs ignoredErrs readQuorum errXLReadQuorum.

Definition reduceWriteQuorumErrs (errs ignoredErrs : list (option error))
    (writeQuorum : nat) : option error :=
  reduceQuorumErrs errs ignoredErrs writeQuorum errXLWriteQuorum.

End Reduce.

Definition isDiskQuorum (errs : list (option error)) (minQuorumCount : nat) : bool :=
  (minQuorumCount <=?
     fold_left
       (λ count err, if negb (isErrIgnored err quorumIgnoredErrs) then S count else count)
       (errorsCause errs) 0)%nat.

(** ** Specification

    [votes ignored errs] are the causes that take part in the decision and
    [occ e l] the number of votes for [e]. *)

Definition votes (ignoredErrs errs : list (option error)) : list (option error) :=
  filter (λ err, isErrIgnored err ignoredErrs = false) (errorsCause errs).

Definition occ (e : option error) (l : list (option error)) : nat :=
  length (filter (λ x, err_eqb e x = true) l).

(** The decision a quorum of [quorum] votes out of [l] allows. *)
Definition quorum_decision (l errs : list (option error)) (quorum : nat)
    (quorumErr : error) (r : option error) : Prop :=
  (quorum ≤ occ None l ∧ r = None) ∨
  (∃ e, quorum ≤ occ (Some e) l ∧ r = Some (Traced e errs)) ∨
  ((∀ e, occ e l < quorum) ∧ r = Some (Traced quorumErr errs)).

(** ** Lemmas *)

Lemma occ_cons e x l :
  occ e (x :: l) = (if err_eqb e x then 1 else 0) + occ e l.
Proof. unfold occ. rewrite filter_cons. by destruct (err_eqb e x). Qed.

Lemma occ_snoc e x l :
  occ e (l ++ [x]) = occ e l + (if err_eqb e x then 1 else 0).
Proof.
  induction l as [|y l IH]; simpl.
  - rewrite occ_cons. unfold occ. simpl. lia.
  - rewrite !occ_cons, IH. lia.
Qed.

Lemma occ_self k l : 1 ≤ occ k l → err_eqb k k = true.
Proof.
  induction l as [|x l IH]; [cbn; lia|]. rewrite occ_cons.
  destruct (err_eqb k x) eqn:E; [|simpl; auto].
  intros _. pose proof E as E'. apply err_eqb_eq in E' as <-. done.
Qed.

(** Two different errors cannot both collect more than half of the votes. *)
Lemma occ_disjoint e1 e2 l : e1 ≠ e2 → occ e1 l + occ e2 l ≤ length l.
Proof.
  intros Hne. induction l as [|x l IH]; [done|].
  rewrite !occ_cons. simpl.
  destruct (err_eqb e1 x) eqn:E1, (err_eqb e2 x) eqn:E2; try lia.
  apply err_eqb_eq in E1, E2. congruence.
Qed.

(** The count stored for a key. *)
Fixpoint counted (e : option error) (m : list (option error * nat)) : nat :=
  match m with
  | [] => 0
  | (k, n) :: m' => if err_eqb k e then n else counted e m'
  end.

Lemma counted_incr e err m :
  counted e (errorCounts_incr err m) = counted e m + (if err_eqb e err then 1 else 0).
Proof.
  induction m as [|[k n] m IH]; simpl.
  - rewrite err_eqb_sym. by destruct (err_eqb e err).
  - destruct (err_eqb k err) eqn:Ek; simpl; destruct (err_eqb k e) eqn:Ee.
    + pose proof (err_eqb_eq _ _ Ee) as <-. rewrite Ek. lia.
    + destruct (err_eqb e err) eqn:E; [|lia].
      apply err_eqb_eq in E as ->. congruence.
    + pose proof (err_eqb_eq _ _ Ee) as <-. rewrite Ek. lia.
    + apply IH.
Qed.

Lemma counted_elem e m : 1 ≤ counted e m → (e, counted e m) ∈ m.
Proof.
  induction m as [|[k n] m IH]; simpl; [lia|].
  destruct (err_eqb k e) eqn:E; intros Hn.
  - apply err_eqb_eq in E as ->. constructor.
  - constructor. auto.
Qed.

(** An entry counts at most the votes for its key; a key that equals nothing,
    not even itself, is counted once. *)
Definition entry_ok (l : list (option error)) (entry : option error * nat) : Prop :=
  if err_eqb entry.1 entry.1 then entry.2 ≤ occ entry.1 l else entry.2 ≤ 1.

Lemma entry_ok_incr l err m :
  Forall (entry_ok l) m → Forall (entry_ok (l ++ [err])) (errorCounts_incr err m).
Proof.
  assert (Hmono : ∀ x, entry_ok l x → entry_ok (l ++ [err]) x).
  { intros [k n]. unfold entry_ok. simpl. rewrite occ_snoc. destruct (err_eqb k k); lia. }
  induction 1 as [|[k n] m Hk Hm IH]; simpl.
  - constructor; [|done]. unfold entry_ok. simpl. rewrite occ_snoc.
    destruct (err_eqb err err); lia.
  - destruct (err_eqb k err) eqn:E.
    + pose proof (err_eqb_eq _ _ E) as ->. constructor; [|by eapply Forall_impl].
      revert Hk. unfold entry_ok. simpl. rewrite occ_snoc, E. lia.
    + constructor; auto.
Qed.

Lemma errorCounts_inv ignoredErrs l m done_ :
  Forall (entry_ok done_) m → (∀ e, err_eqb e e = true → counted e m = occ e done_) →
  let m' := fold_left
    (λ m err, if isErrIgnored err ignoredErrs then m else errorCounts_incr err m) l m in
  let all := done_ ++ filter (λ err, isErrIgnored err ignoredErrs = false) l in
  Forall (entry_ok all) m' ∧ (∀ e, err_eqb e e = true → counted e m' = occ e all).
Proof.
  revert m done_. induction l as [|x l IH]; intros m dn Hok Hc; simpl.
  - by rewrite app_nil_r.
  - rewrite filter_cons. destruct (isErrIgnored x ignoredErrs); simpl.
    + by apply IH.
    + replace (dn ++ x :: _) with ((dn ++ [x]) ++
        filter (λ err, isErrIgnored err ignoredErrs = false) l) by by rewrite <- app_assoc.
      apply IH; [by apply entry_ok_incr|].
      intros e He. rewrite counted_incr, occ_snoc, Hc; done.
Qed.

Lemma errorCounts_spec ignoredErrs errs :
  let m := errorCounts ignoredErrs (errorsCause errs) in
  Forall (entry_ok (votes ignoredErrs errs)) m ∧
  (∀ e, 1 ≤ occ e (votes ignoredErrs errs) → (e, occ e (votes ignoredErrs errs)) ∈ m).
Proof.
  destruct (errorCounts_inv ignoredErrs (errorsCause errs) [] []) as [Hok Hc]; [done..|].
  split; [done|]. intros e He. pose proof (Hc e (occ_self _ _ He)) as Hce.
  change ([] ++ ?x) with x in Hce. fold (votes ignoredErrs errs) in Hce.
  rewrite <- Hce in *. by apply counted_elem.
Qed.

(** The maximum loop returns an entry no other entry beats. *)
Lemma maxCounted_spec entries :
  let '(n, e) := maxCounted entries in
  (∀ k c, (k, c) ∈ entries → c ≤ n) ∧ (1 ≤ n → (e, n) ∈ entries) ∧ (n = 0 → e = None).
Proof.
  unfold maxCounted.
  cut (∀ acc pre, (∀ k c, (k, c) ∈ pre → c ≤ acc.1) → (1 ≤ acc.1 → (acc.2, acc.1) ∈ pre) →
       (acc.1 = 0 → acc.2 = None) →
       let '(n, e) := fold_left (λ acc entry,
         if (acc.1 <? entry.2)%nat then (entry.2, entry.1) else acc) entries acc in
       (∀ k c, (k, c) ∈ pre ++ entries → c ≤ n) ∧ (1 ≤ n → (e, n) ∈ pre ++ entries) ∧
       (n = 0 → e = None)).
  { intros Hgen. apply (Hgen (0, None) []); simpl; [set_solver|lia|done]. }
  induction entries as [|[k c] es IH]; intros [n e] pre Hle Hin H0; simpl in *.
  - rewrite app_nil_r. auto.
  - replace (pre ++ (k, c) :: es) with ((pre ++ [(k, c)]) ++ es) by by rewrite <- app_assoc.
    destruct (n <? c)%nat eqn:E; [apply Nat.ltb_lt in E|apply Nat.ltb_ge in E];
      apply IH; simpl.
    + intros k' c' [Hp|Hp%list_elem_of_singleton]%elem_of_app; [apply Hle in Hp; lia|].
      by simplify_eq.
    + intros _. apply elem_of_app. right. by apply list_elem_of_singleton.
    + lia.
    + intros k' c' [Hp|Hp%list_elem_of_singleton]%elem_of_app; [eauto|by simplify_eq].
    + intros Hn. apply elem_of_app. left. auto.
    + done.
Qed.

(** ** Theorems *)

Section ReduceFacts.
Context `{MapOrder}.

Lemma reduceErrs_spec errs ignoredErrs :
  let '(n, e) := reduceErrs errs ignoredErrs in
  (∀ k, occ k (votes ignoredErrs errs) ≤ n) ∧
  (2 ≤ n → n = occ e (votes ignoredErrs errs)) ∧ (n = 0 → e = None).
Proof.
  unfold reduceErrs.
  destruct (errorCounts_spec ignoredErrs errs) as [Hok Hall].
  set (m := errorCounts ignoredErrs (errorsCause errs)) in *.
  pose proof (maxCounted_spec (range_order m)) as Hmax.
  destruct (maxCounted (range_order m)) as [n e]. destruct Hmax as (Hle & Hin & H0).
  assert (Hocc : ∀ k, occ k (votes ignoredErrs errs) ≤ n).
  { intros k. destruct (decide (1 ≤ occ k (votes ignoredErrs errs))); [|lia].
    eapply Hle. rewrite range_order_perm. by apply Hall. }
  split_and!; [done| |done].
  intros Hn. specialize (Hin ltac:(lia)). rewrite range_order_perm in Hin.
  rewrite Forall_forall in Hok. apply Hok in Hin.
  unfold entry_ok in Hin. simpl in Hin. specialize (Hocc e).
  destruct (err_eqb e e); lia.
Qed.

Lemma reduceQuorumErrs_decision errs ignoredErrs quorum quorumErr :
  2 ≤ quorum →
  quorum_decision (votes ignoredErrs errs) errs quorum quorumErr
    (reduceQuorumErrs errs ignoredErrs quorum quorumErr).
Proof.
  intros Hq. unfold reduceQuorumErrs, quorum_decision.
  pose proof (reduceErrs_spec errs ignoredErrs) as Hspec.
  destruct (reduceErrs errs ignoredErrs) as [n e]. destruct Hspec as (Hle & Heq & _).
  destruct e as [e|]; simpl; destruct (quorum <=? n)%nat eqn:E;
    [apply Nat.leb_le in E|apply Nat.leb_gt in E|apply Nat.leb_le in E|apply Nat.leb_gt in E].
  - right; left. exists e. split; [|done]. rewrite <- Heq; lia.
  - right; right. split; [|done]. intros k. specialize (Hle k). lia.
  - left. split; [|done]. rewrite <- Heq; lia.
  - right; right. split; [|done]. intros k. specialize (Hle k). lia.
Qed.

Lemma reduceQuorumErrs_nil errs ignoredErrs quorum quorumErr :
  2 ≤ quorum → length (votes ignoredErrs errs) < 2 * quorum →
  quorum ≤ occ None (votes ignoredErrs errs) →
  reduceQuorumErrs errs ignoredErrs quorum quorumErr = None.
Proof.
  intros Hq Hmaj Hn.
  destruct (reduceQuorumErrs_decision errs ignoredErrs quorum quorumErr Hq)
    as [[_ ->]|[(e & He & _)|[Hall _]]]; [done|..].
  - pose proof (occ_disjoint None (Some e) (votes ignoredErrs errs) ltac:(done)). lia.
  - specialize (Hall None). lia.
Qed.

(** A majority of nil votes decides, also when the quorum is less than a
    majority. *)
Lemma reduceQuorumErrs_majority errs ignoredErrs quorum quorumErr :
  2 ≤ quorum ≤ occ None (votes ignoredErrs errs) →
  length (votes ignoredErrs errs) < 2 * occ None (votes ignoredErrs errs) →
  reduceQuorumErrs errs ignoredErrs quorum quorumErr = None.
Proof.
  intros Hq Hmaj. unfold reduceQuorumErrs.
  pose proof (reduceErrs_spec errs ignoredErrs) as Hspec.
  destruct (reduceErrs errs ignoredErrs) as [n e]. destruct Hspec as (Hle & Heq & _).
  specialize (Hle None). specialize (Heq ltac:(lia)). destruct e as [e|].
  - pose proof (occ_disjoint None (Some e) (votes ignoredErrs errs) ltac:(done)). lia.
  - destruct (quorum <=? n)%nat eqn:E; [done|]. apply Nat.leb_gt in E. lia.
Qed.

(** Only nil votes, fewer than two of them included. *)
Lemma reduceQuorumErrs_all_nil errs ignoredErrs quorum quorumErr :
  Forall (λ e, e = None) (votes ignoredErrs errs) → quorum ≤ length (votes ignoredErrs errs) →
  reduceQuorumErrs errs ignoredErrs quorum quorumErr = None.
Proof.
  intros Hall Hq. unfold reduceQuorumErrs, reduceErrs, errorCounts. unfold votes in *.
  set (l := errorsCause errs) in *.
  assert (Hfold : ∀ c, ∃ c', c' = c + length (filter (λ err, isErrIgnored err ignoredErrs = false) l) ∧
    fold_left (λ m err, if isErrIgnored err ignoredErrs then m else errorCounts_incr err m) l
      (match c with O => [] | _ => [(None, c)] end) = match c' with O => [] | _ => [(None, c')] end).
  { clear Hq. revert Hall. generalize l. clear l. intros l.
    induction l as [|x l IH]; intros Hall c; simpl; [exists c; split; [simpl; lia|done]|].
    rewrite filter_cons in *. destruct (isErrIgnored x ignoredErrs) eqn:E; simpl in *; [by apply IH|].
    apply Forall_cons in Hall as [-> Hall]. destruct (IH Hall (S c)) as (c' & -> & Hc').
    exists (c + S (length (filter (λ err, isErrIgnored err ignoredErrs = false) l))).
    split; [done|]. replace (c + S _) with (S c + length (filter (λ err, isErrIgnored err ignoredErrs = false) l)) by lia.
    rewrite <- Hc'. by destruct c. }
  destruct (Hfold 0) as (c' & Hc & ->). simpl in Hc. rewrite <- Hc in Hq. destruct c' as [|c'].
  - pose proof (range_order_perm (A := option error * nat) []) as Hp. symmetry in Hp.
    apply Permutation_nil_l in Hp as <-. simpl. by destruct quorum; [|lia].
  - pose proof (range_order_perm [(None : option error, S c')]) as Hp. symmetry in Hp.
    apply Permutation_singleton_l in Hp as <-. unfold maxCounted. cbn [fold_left fst snd Nat.ltb Nat.leb].
    by rewrite (proj2 (Nat.leb_le _ _) Hq).
Qed.

(** C29.  The quorum reduction is correct whatever order the Go runtime iterates
    the map of error counts in: with a quorum of at least two votes,
    [reduceQuorumErrs] returns nil only if a quorum of disks voted nil, returns
    a (traced) error only if a quorum of disks reported that very error, and
    returns the quorum error exactly when no outcome reached the quorum.
    Ignored errors never vote. *)
Theorem reduceQuorumErrs_decides errs ignoredErrs quorum quorumErr :
  2 ≤ quorum →
  quorum_decision (votes ignoredErrs errs) errs quorum quorumErr
    (reduceQuorumErrs errs ignoredErrs quorum quorumErr).
Proof. apply reduceQuorumErrs_decision. Qed.

End ReduceFacts.

Lemma reduceQuorumErrs_decides_witness :
  let errs := [None; Some (Traced errFileNotFound []); Some (errFileNotFound : error);
               Some (errDiskNotFound : error)] in
  2 ≤ 2 ∧
  quorum_decision (votes objectOpIgnoredErrs errs) errs 2 errXLReadQuorum
    (Some (Traced errFileNotFound errs)).
Proof.
  split; [lia|].
  exact (@reduceQuorumErrs_decides map_order_rev
    [None; Some (Traced errFileNotFound []); Some (errFileNotFound : error);
     Some (errDiskNotFound : error)] objectOpIgnoredErrs 2 errXLReadQuorum ltac:(lia)).
Defined.

Lemma quorum_decision_unique l errs quorum qe r1 r2 :
  length l < 2 * quorum →
  quorum_decision l errs quorum qe r1 → quorum_decision l errs quorum qe r2 → r1 = r2.
Proof.
  unfold quorum_decision. intros Hmaj.
  intros [[H1 ->]|[(e1 & H1 & ->)|[H1 ->]]] [[H2 ->]|[(e2 & H2 & ->)|[H2 ->]]]; try done.
  - pose proof (occ_disjoint None (Some e2) l ltac:(done)). lia.
  - specialize (H2 None). lia.
  - pose proof (occ_disjoint None (Some e1) l ltac:(done)). lia.
  - destruct (err_eqb (Some e1) (Some e2)) eqn:E.
    + apply err_eqb_eq in E. congruence.
    + exfalso. assert (Some e1 ≠ Some e2) as Hne.
      { intros [= ->]. rewrite (occ_self (Some e2) l) in E by lia. done. }
      pose proof (occ_disjoint _ _ l Hne). lia.
  - specialize (H2 (Some e1)). lia.
  - specialize (H1 None). lia.
  - specialize (H1 (Some e2)). lia.
Qed.

Lemma length_votes ignoredErrs errs : length (votes ignoredErrs errs) ≤ length errs.
Proof.
  unfold votes. etransitivity; [apply length_filter|].
  unfold errorsCause. by rewrite length_map.
Qed.

(** With a strict majority quorum the decision is deterministic: it does
    not depend on the order in which Go iterates the map of error counts. *)
Theorem reduceQuorumErrs_order_irrelevant (o1 o2 : MapOrder) errs ignoredErrs quorum quorumErr :
  2 ≤ quorum → length errs < 2 * quorum →
  @reduceQuorumErrs o1 errs ignoredErrs quorum quorumErr =
  @reduceQuorumErrs o2 errs ignoredErrs quorum quorumErr.
Proof.
  intros Hq Hmaj. pose proof (length_votes ignoredErrs errs).
  eapply quorum_decision_unique; [|by apply reduceQuorumErrs_decision..]. lia.
Qed.

Lemma reduceQuorumErrs_order_irrelevant_witness :
  let errs := [None; None; None; Some (errFileNotFound : error)] in
  @reduceQuorumErrs map_order_id errs objectOpIgnoredErrs 3 errXLWriteQuorum =
  @reduceQuorumErrs map_order_rev errs objectOpIgnoredErrs 3 errXLWriteQuorum.
Proof. apply reduceQuorumErrs_order_irrelevant; simpl; lia. Defined.

(** The read quorum of the XL layer is half of the disks, not a majority:
    on a tie of two disks that hold the object and two that do not, the
    decision depends on the map order, nil (object found) for one order and
    file-not-found for the other. *)
Theorem reduceReadQuorumErrs_tie :
  let errs := [None; None; Some (Traced errFileNotFound []); Some (Traced errFileNotFound [])] in
  length errs / 2 = 2 ∧
  @reduceReadQuorumErrs map_order_id errs objectOpIgnoredErrs 2 = None ∧
  @reduceReadQuorumErrs map_order_rev errs objectOpIgnoredErrs 2 =
    Some (Traced errFileNotFound errs).
Proof. split_and!; reflexivity. Qed.

Lemma isDiskQuorum_count errs n :
  isDiskQuorum errs n = true ↔ n ≤ length (votes quorumIgnoredErrs errs).
Proof.
  unfold isDiskQuorum, votes.
  rewrite Nat.leb_le. generalize (errorsCause errs) quorumIgnoredErrs. intros l ign.
  cut (∀ c, fold_left (λ count err,
       if negb (isErrIgnored err ign) then S count else count) l c =
     c + length (filter (λ err, isErrIgnored err ign = false) l)).
  { intros ->. done. }
  induction l as [|x l IH]; intros c; simpl; [lia|].
  rewrite filter_cons, IH. destruct (isErrIgnored x ign); simpl; lia.
Qed.
