(* ===== verification/Distribution.v ===== *)
(** * Block distribution

    How the blocks of an object are spread over the disks
    (src/cmd/xl-v1-utils.go: [hashOrder], [getOrderedDisks],
    [getOrderedPartsMetadata], [diskCount]; src/cmd/xl-v1-common.go:
    [getLoadBalancedDisks]).  A disk slice is a list of [option]s, [None]
    being a nil (offline) disk. *)

From S2P Require Import Prelude.

Local Open Scope Z_scope.

(** ** CRC-32 (Go's hash/crc32 with the IEEE table) *)

Definition crc32_bit (c : Z) : Z :=
  if Z.odd c then Z.lxor (Z.shiftr c 1) 0xEDB88320 else Z.shiftr c 1.

Definition crc32_update (c : Z) (b : byte) : Z :=
  Nat.iter 8 crc32_bit (Z.lxor c (byte_val b)).

Definition crc32_checksum (data : bytes) : Z :=
  Z.lxor (fold_left crc32_update data 0xFFFFFFFF) 0xFFFFFFFF.

(** ** Operations *)

Definition hashOrder (key : string) (cardinality : Z) : go (list Z) :=
  if cardinality <? 0 then Ret []
  else if uint32_wrap cardinality =? 0 then Panic
  else
    let keyCrc := crc32_checksum (bytes_of_string key) in
    let start := Z.lor (uint32_wrap keyCrc `mod` uint32_wrap cardinality) 1 in
    Ret ((λ i, 1 + (start + i) `mod` cardinality) <$> seqZ 1 cardinality).

(** [dst[blockIndex-1] = x], which panics out of range. *)
Definition slice_set {A} (dst : list A) (i : Z) (x : A) : go (list A) :=
  if (i <? 0) || (zlen dst <=? i) then Panic else Ret (<[Z.to_nat i := x]> dst).

(** The common loop of the two ordering functions:
    [for index := range src { dst[distribution[index]-1] = src[index] }]. *)
Fixpoint scatter {A} (distribution : list Z) (src dst : list A) : go (list A) :=
  match src, distribution with
  | [], _ => Ret dst
  | _ :: _, [] => Panic
  | x :: src', blockIndex :: distribution' =>
      dst' ← slice_set dst (blockIndex - 1) x;
      scatter distribution' src' dst'
  end.

Definition getOrderedDisks {D} (distribution : list Z) (disks : list (option D))
    : go (list (option D)) :=
  scatter distribution disks (replicate (length disks) None).

(** [zero] is the zero value of the element type ([xlMetaV1{}]). *)
Definition getOrderedPartsMetadata {M} (zero : M) (distribution : list Z)
    (partsMetadata : list M) : go (list M) :=
  scatter distribution partsMetadata (replicate (length partsMetadata) zero).

Fixpoint diskCount {D} (disks : list (option D)) : nat :=
  match disks with
  | [] => 0%nat
  | None :: disks' => diskCount disks'
  | Some _ :: disks' => S (diskCount disks')
  end.

(** [storageDisks[i-1]], which panics out of range. *)
Definition disk_at {D} (storageDisks : list (option D)) (i : Z) : go (option D) :=
  if i - 1 <? 0 then Panic
  else match storageDisks !! Z.to_nat (i - 1) with
       | Some d => Ret d
       | None => Panic
       end.

(** [now] is [time.Now().UTC().String()]. *)
Definition getLoadBalancedDisks {D} (now : string) (storageDisks : list (option D))
    : go (list (option D)) :=
  order ← hashOrder now (zlen storageDisks);
  foldr (λ i rest, d ← disk_at storageDisks i; ds ← rest; mret (d :: ds)) (Ret []) order.

Example crc32_check : crc32_checksum (bytes_of_string "123456789") = 0xCBF43926.
Proof. reflexivity. Qed.

(** ** Lemmas *)

(** A rotation of [0 .. n-1] by any start is a permutation of it. *)
Lemma rotate_perm (start n : Z) :
  0 < n → (λ i, 1 + (start + i) `mod` n) <$> seqZ 1 n ≡ₚ seqZ 1 n.
Proof.
  intros Hn. apply submseteq_length_Permutation.
  2: { by rewrite length_fmap. }
  apply NoDup_submseteq.
  - apply NoDup_fmap_2_strong; [|apply NoDup_seqZ].
    intros x y [Hx1 Hx2]%elem_of_seqZ [Hy1 Hy2]%elem_of_seqZ Heq.
    assert (Hm : (start + x) `mod` n = (start + y) `mod` n) by lia.
    pose proof (Z.div_mod (start + x) n ltac:(lia)).
    pose proof (Z.div_mod (start + y) n ltac:(lia)).
    assert (x - y = n * ((start + x) / n - (start + y) / n)) by lia.
    assert ((start + x) / n - (start + y) / n = 0) by nia. lia.
  - intros z [i [-> Hi]]%list_elem_of_fmap.
    apply elem_of_seqZ. pose proof (Z.mod_pos_bound (start + i) n). lia.
Qed.

Lemma slice_set_in {A} (dst : list A) i x :
  0 ≤ i < zlen dst → slice_set dst i x = Ret (<[Z.to_nat i := x]> dst).
Proof.
  unfold slice_set. intros. destruct (i <? 0) eqn:E1, (zlen dst <=? i) eqn:E2;
    bool_prop; simpl; done || lia.
Qed.

(** The ordering loop writes each source element at its block position and
    leaves every other position alone. *)
Lemma scatter_spec {A} (distribution : list Z) (src dst : list A) :
  length src = length distribution →
  Forall (λ b, 1 ≤ b ≤ zlen dst) distribution → NoDup distribution →
  ∃ r, scatter distribution src dst = Ret r ∧ length r = length dst ∧
    (∀ i b x, distribution !! i = Some b → src !! i = Some x →
       r !! Z.to_nat (b - 1) = Some x) ∧
    (∀ j, Z.of_nat j + 1 ∉ distribution → r !! j = dst !! j).
Proof.
  revert src dst. induction distribution as [|b bs IH]; intros [|x src] dst; simpl;
    intros Hlen Hall Hnd; try lia.
  - eexists. split_and!; done.
  - apply Forall_cons in Hall as [Hb Hall]. apply NoDup_cons in Hnd as [Hnin Hnd].
    rewrite slice_set_in by lia. simpl.
    destruct (IH src (<[Z.to_nat (b - 1) := x]> dst)) as (r & Hr & Hlr & Hin & Hout);
      [lia|unfold zlen in *; by rewrite length_insert|done|].
    exists r. rewrite length_insert in Hlr. split_and!; [done..| |].
    + intros [|i] b' x' Hb' Hx'; simplify_eq/=; [|eauto].
      rewrite Hout.
      * apply list_lookup_insert_eq. unfold zlen in Hb. lia.
      * by replace (Z.of_nat (Z.to_nat (b' - 1)) + 1) with b' by lia.
    + intros j Hj. rewrite not_elem_of_cons in Hj. destruct Hj as [Hj1 Hj2].
      rewrite Hout by done. apply list_lookup_insert_ne. lia.
Qed.

Lemma perm_seqZ_bounds (distribution : list Z) n :
  distribution ≡ₚ seqZ 1 n → Forall (λ b, 1 ≤ b ≤ n) distribution ∧ NoDup distribution.
Proof.
  intros Hp. split.
  - apply Forall_forall. intros b Hb. rewrite Hp in Hb. apply elem_of_seqZ in Hb. lia.
  - rewrite Hp. apply NoDup_seqZ.
Qed.

Lemma scatter_perm {A} (dist : list Z) n (l : list A) zero :
  dist ≡ₚ seqZ 1 (Z.of_nat n) → length l = n →
  ∃ r, scatter dist l (replicate (length l) zero) = Ret r ∧ length r = n ∧
    ∀ s b x, dist !! s = Some b → l !! s = Some x → r !! Z.to_nat (b - 1) = Some x.
Proof.
  intros Hp Hl. destruct (perm_seqZ_bounds _ _ Hp) as [Hb Hnd].
  assert (Hd : length dist = n) by (rewrite Hp, length_seqZ; lia).
  destruct (scatter_spec dist l (replicate (length l) zero)) as (r & Hr & Hlr & Hin & _);
    [lia|unfold zlen; rewrite length_replicate, Hl; done|done|].
  exists r. rewrite length_replicate in Hlr. split_and!; [done|lia|done].
Qed.

(** Reading a list through [1 .. n] gives the list back. *)
Lemma fmap_lookup_seqZ `{Inhabited A} (l : list A) :
  (λ b, l !!! Z.to_nat (b - 1)) <$> seqZ 1 (zlen l) = l.
Proof.
  apply list_eq. intros i. rewrite list_lookup_fmap.
  destruct (decide (i < length l)%nat).
  - rewrite lookup_seqZ_lt by (unfold zlen; lia). simpl.
    replace (Z.to_nat (1 + Z.of_nat i - 1)) with i by lia.
    symmetry. by apply list_lookup_lookup_total_lt.
  - rewrite (lookup_ge_None_2 l) by lia.
    rewrite lookup_seqZ_ge by (unfold zlen; lia). done.
Qed.

Lemma hashOrder_ret key cardinality :
  0 < cardinality < 2 ^ 32 →
  ∃ nums, hashOrder key cardinality = Ret nums ∧ nums ≡ₚ seqZ 1 cardinality.
Proof.
  intros Hc. unfold hashOrder.
  destruct (cardinality <? 0) eqn:E; bool_prop; [lia|].
  unfold uint32_wrap at 1. rewrite Z.mod_small by lia.
  destruct (cardinality =? 0) eqn:E0; bool_prop; [lia|].
  eexists. split; [done|]. apply rotate_perm. lia.
Qed.

(** ** Theorems *)

(** [hashOrder] assigns the blocks one to one: for every key and every
    positive cardinality (below the 32-bit wrap of its modulus) it returns a
    permutation of [1 .. cardinality]. *)
Theorem hashOrder_permutation key cardinality :
  0 < cardinality < 2 ^ 32 →
  ∃ nums, hashOrder key cardinality = Ret nums ∧ nums ≡ₚ seqZ 1 cardinality.
Proof. apply hashOrder_ret. Qed.

Lemma hashOrder_permutation_witness :
  ∃ nums, hashOrder "object" 16 = Ret nums ∧ nums ≡ₚ seqZ 1 16.
Proof. apply (hashOrder_permutation "object" 16). lia. Defined.

(** Reordering is lossless: when the distribution is a permutation of the
    block numbers, [getOrderedDisks] does not panic, puts the disk at index [i]
    in the position of the block it stores, and returns a permutation of the
    input disks. *)
Theorem getOrderedDisks_spec {D} (distribution : list Z) (disks : list (option D)) :
  distribution ≡ₚ seqZ 1 (zlen disks) →
  ∃ ordered, getOrderedDisks distribution disks = Ret ordered ∧
    ordered ≡ₚ disks ∧
    ∀ i b d, distribution !! i = Some b → disks !! i = Some d →
      ordered !! Z.to_nat (b - 1) = Some d.
Proof.
  intros Hp. destruct (perm_seqZ_bounds _ _ Hp) as [Hb Hnd].
  assert (Hlen : length disks = length distribution).
  { rewrite Hp, length_seqZ. unfold zlen. lia. }
  destruct (scatter_spec distribution disks (replicate (length disks) None))
    as (r & Hr & Hlr & Hin & _);
    [done|by unfold zlen in *; rewrite length_replicate|done|].
  rewrite length_replicate in Hlr.
  exists r. split_and!; [done| |done].
  (* the positions read off in distribution order are the disks themselves *)
  assert (Hsel : ((λ b, r !!! Z.to_nat (b - 1)) <$> distribution) = disks).
  { apply list_eq. intros i. rewrite list_lookup_fmap.
    destruct (distribution !! i) as [b|] eqn:Eb; simpl.
    - destruct (lookup_lt_is_Some_2 disks i) as [d Hd].
      { rewrite Hlen. by eapply lookup_lt_Some. }
      rewrite Hd. f_equal. apply list_lookup_total_correct. eauto.
    - symmetry. apply lookup_ge_None. rewrite Hlen. by apply lookup_ge_None. }
  rewrite <- Hsel, Hp.
  replace (zlen disks) with (zlen r) by (unfold zlen; lia).
  by rewrite fmap_lookup_seqZ.
Qed.

Lemma getOrderedDisks_spec_witness :
  let disks := [Some 1; None; Some 3] : list (option Z) in
  ∃ ordered, getOrderedDisks [2; 3; 1] disks = Ret ordered ∧ ordered ≡ₚ disks ∧
    ∀ i b d, [2; 3; 1] !! i = Some b → disks !! i = Some d →
      ordered !! Z.to_nat (b - 1) = Some d.
Proof.
  apply (getOrderedDisks_spec [2; 3; 1] [Some 1; None; Some 3]).
  change (seqZ 1 (zlen _)) with [1; 2; 3].
  apply Permutation_sym, (Permutation_trans (l' := [2; 1; 3]));
    [apply Permutation_swap | apply perm_skip, Permutation_swap].
Defined.

Lemma disk_at_all {D} (storageDisks : list (option D)) order :
  Forall (λ b, 1 ≤ b ≤ zlen storageDisks) order →
  foldr (λ i rest, d ← disk_at storageDisks i; ds ← rest; mret (d :: ds)) (Ret []) order =
  Ret ((λ b, storageDisks !!! Z.to_nat (b - 1)) <$> order).
Proof.
  induction 1 as [|b order Hb Hall IH]; [done|].
  simpl. rewrite IH. unfold disk_at. unfold zlen in Hb.
  destruct (b - 1 <? 0) eqn:E; bool_prop; [lia|].
  by rewrite list_lookup_lookup_total_lt by lia.
Qed.

(** Load balancing only shuffles: for every clock value each disk is returned
    exactly once. *)
Lemma getLoadBalancedDisks_perm {D} now (storageDisks : list (option D)) :
  0 < zlen storageDisks < 2 ^ 32 →
  ∃ disks, getLoadBalancedDisks now storageDisks = Ret disks ∧ disks ≡ₚ storageDisks.
Proof.
  intros Hn. unfold getLoadBalancedDisks.
  destruct (hashOrder_ret now (zlen storageDisks)) as (nums & -> & Hp); [done|].
  destruct (perm_seqZ_bounds _ _ Hp) as [Hb _]. simpl.
  rewrite disk_at_all by done. eexists. split; [done|].
  by rewrite Hp, fmap_lookup_seqZ.
Qed.
