(* ===== verification/XLMeta.v ===== *)
(** * Object metadata

    The [xl.json] metadata of an object (src/cmd/xl-v1-metadata.go): parts,
    per-part checksums and the erasure layout, with the operations that keep
    them in order.  Times are instants, in nanoseconds since the epoch. *)

From S2P Require Import Prelude.
From S2P Require Import GoErrors.
From S2P Require Import Distribution.

Local Open Scope Z_scope.

(** ** Data *)

Abbreviation time := Z (only parsing).

(** Go's zero [time.Time{}]: January 1, year 1, 00:00:00 UTC. *)
Definition zeroTime : time := -62135596800 * 10 ^ 9.

Record objectPartInfo := ObjectPartInfo {
  Number : Z;
  PartName : string;
  ETag : string;
  PartSize : Z;
}.

Record checkSumInfo := CheckSumInfo {
  CkName : string;
  CkAlgorithm : string;
  CkHash : string;
}.

Record erasureInfo := ErasureInfo {
  Algorithm : string;
  DataBlocks : Z;
  ParityBlocks : Z;
  BlockSize : Z;
  Index : Z;
  Distribution : list Z;
  Checksum : list checkSumInfo;
}.

Record statInfo := StatInfo {
  StatSize : Z;
  ModTime : time;
}.

Record xlMetaV1 := XLMetaV1 {
  Version : string;
  Format : string;
  Stat : statInfo;
  Erasure : erasureInfo;
  MinioRelease : string;
  Meta : gmap string string;
  Parts : list objectPartInfo;
}.

Definition erasureInfo_zero : erasureInfo := ErasureInfo "" 0 0 0 0 [] [].
Definition statInfo_zero : statInfo := StatInfo 0 zeroTime.
Definition xlMetaV1_zero : xlMetaV1 :=
  XLMetaV1 "" "" statInfo_zero erasureInfo_zero "" ∅ [].

#[export] Instance objectPartInfo_dec : EqDecision objectPartInfo.
Proof. solve_decision. Defined.
#[export] Instance checkSumInfo_dec : EqDecision checkSumInfo.
Proof. solve_decision. Defined.
#[export] Instance objectPartInfo_inhabited : Inhabited objectPartInfo :=
  populate (ObjectPartInfo 0 "" "" 0).

Definition sha256Algo : string := "sha256".
Definition blake2bAlgo : string := "blake2b".

(** [GOARCH] is [runtime.GOARCH]. *)
Definition getDefaultBitRotAlgo (GOARCH : string) : string :=
  if bool_decide (GOARCH = "arm64") then sha256Algo else blake2bAlgo.

Definition xlMetaVersion : string := "1.0.0".
Definition xlMetaFormat : string := "xl".
Definition erasureAlgorithmKlauspost : string := "klauspost/reedsolomon/vandermonde".

(** [blockSizeV1], 10MiB (src/cmd/object-api-common.go). *)
Definition blockSizeV1 : Z := 10 * 1024 * 1024.

(** ** Operations *)

(** [byObjectPartNumber.Less]; [sort.Sort] sorts by it. *)
Definition part_le (p q : objectPartInfo) : Prop := Number p ≤ Number q.
#[export] Instance part_le_dec : RelDecision part_le.
Proof. intros p q. unfold part_le. apply _. Defined.
#[export] Instance part_le_total : Total part_le.
Proof. intros p q. unfold part_le. lia. Qed.
#[export] Instance part_le_trans : Transitive part_le.
Proof. intros p q r. unfold part_le. lia. Qed.

Definition sort_parts (parts : list objectPartInfo) : list objectPartInfo :=
  merge_sort part_le parts.

Fixpoint AddCheckSumInfo_list (sums : list checkSumInfo) (ck : checkSumInfo)
    : list checkSumInfo :=
  match sums with
  | [] => [ck]
  | sum :: sums' =>
      if bool_decide (CkName sum = CkName ck) then ck :: sums'
      else sum :: AddCheckSumInfo_list sums' ck
  end.

Definition AddCheckSumInfo (e : erasureInfo) (ck : checkSumInfo) : erasureInfo :=
  ErasureInfo (Algorithm e) (DataBlocks e) (ParityBlocks e) (BlockSize e) (Index e)
    (Distribution e) (AddCheckSumInfo_list (Checksum e) ck).

(** [bitRotAlgo] is the default returned for a part without a checksum. *)
Fixpoint GetCheckSumInfo_list (bitRotAlgo : string) (sums : list checkSumInfo)
    (partName : string) : checkSumInfo :=
  match sums with
  | [] => CheckSumInfo "" bitRotAlgo ""
  | sum :: sums' =>
      if bool_decide (CkName sum = partName) then sum
      else GetCheckSumInfo_list bitRotAlgo sums' partName
  end.

Definition GetCheckSumInfo (bitRotAlgo : string) (e : erasureInfo) (partName : string)
    : checkSumInfo :=
  GetCheckSumInfo_list bitRotAlgo (Checksum e) partName.

(** [ReleaseTag] is the build constant. *)
Definition newXLMetaV1 (ReleaseTag object : string) (dataBlocks parityBlocks : Z)
    : go xlMetaV1 :=
  distribution ← hashOrder object (dataBlocks + parityBlocks);
  mret (XLMetaV1 xlMetaVersion xlMetaFormat statInfo_zero
    (ErasureInfo erasureAlgorithmKlauspost dataBlocks parityBlocks blockSizeV1 0
       distribution []) ReleaseTag ∅ []).

Definition IsValid (m : xlMetaV1) : bool :=
  bool_decide (Version m = xlMetaVersion) && bool_decide (Format m = xlMetaFormat).

Fixpoint objectPartIndex_from (i : Z) (parts : list objectPartInfo) (partNumber : Z) : Z :=
  match parts with
  | [] => -1
  | part :: parts' =>
      if partNumber =? Number part then i else objectPartIndex_from (i + 1) parts' partNumber
  end.

Definition objectPartIndex (parts : list objectPartInfo) (partNumber : Z) : Z :=
  objectPartIndex_from 0 parts partNumber.

(** The update loop of [AddObjectPart]: [None] when no part has the number. *)
Fixpoint replace_part (parts : list objectPartInfo) (p : objectPartInfo)
    : option (list objectPartInfo) :=
  match parts with
  | [] => None
  | part :: parts' =>
      if Number p =? Number part then Some (p :: parts')
      else match replace_part parts' p with
           | Some parts'' => Some (part :: parts'')
           | None => None
           end
  end.

Definition set_parts (m : xlMetaV1) (parts : list objectPartInfo) : xlMetaV1 :=
  XLMetaV1 (Version m) (Format m) (Stat m) (Erasure m) (MinioRelease m) (Meta m) parts.

Definition AddObjectPart (m : xlMetaV1) (partNumber : Z) (partName partETag : string)
    (partSize : Z) : xlMetaV1 :=
  let partInfo := ObjectPartInfo partNumber partName partETag partSize in
  match replace_part (Parts m) partInfo with
  | Some parts => set_parts m parts
  | None => set_parts m (sort_parts (Parts m ++ [partInfo]))
  end.

(** The seek loop of [ObjectToPartOffset]. *)
Fixpoint part_offset_loop (i : Z) (parts : list objectPartInfo) (partOffset : Z)
    : Z * Z * option error :=
  match parts with
  | [] => (0, 0, traceError (Some (InvalidRange 0 0 0 : error)) [])
  | part :: parts' =>
      if partOffset <? PartSize part then (i, partOffset, None)
      else part_offset_loop (i + 1) parts' (int64_wrap (partOffset - PartSize part))
  end.

Definition ObjectToPartOffset (m : xlMetaV1) (offset : Z) : Z * Z * option error :=
  if offset =? 0 then (0, 0, None) else part_offset_loop 0 (Parts m) offset.

Fixpoint pickValidXLMeta (metaArr : list xlMetaV1) (modTime : time)
    : xlMetaV1 * option error :=
  match metaArr with
  | [] => (xlMetaV1_zero, traceError (Some (ENew "No valid xl.json present")) [])
  | meta :: metaArr' =>
      if IsValid meta && (ModTime (Stat meta) =? modTime) then (meta, None)
      else pickValidXLMeta metaArr' modTime
  end.

(** ** Specification *)

(** Parts are listed by strictly increasing part number. *)
Definition parts_wf (parts : list objectPartInfo) : Prop :=
  StronglySorted (λ p q, Number p < Number q) parts.

Definition find_part (parts : list objectPartInfo) (n : Z) : option objectPartInfo :=
  snd <$> list_find (λ p, Number p = n) parts.

(** The number of object bytes in front of part [i]. *)
Definition bytes_before (parts : list objectPartInfo) (i : nat) : Z :=
  foldr (λ p acc, PartSize p + acc) 0 (take i parts).

Definition total_size (parts : list objectPartInfo) : Z :=
  bytes_before parts (length parts).

(** ** Lemmas *)

Lemma parts_wf_alt parts :
  parts_wf parts ↔ StronglySorted part_le parts ∧ NoDup (Number <$> parts).
Proof.
  unfold parts_wf. split.
  - induction 1 as [|p parts Hs [IH1 IH2] Hall]; [split; constructor|].
    split; [constructor; [done|]; eapply Forall_impl; [done|]; unfold part_le; lia|].
    simpl. constructor; [|done]. intros (q & Heq & Hq)%list_elem_of_fmap.
    rewrite Forall_forall in Hall. specialize (Hall q Hq). lia.
  - intros [Hs Hnd]. induction Hs as [|p parts Hs IH Hall]; [constructor|].
    simpl in Hnd. apply NoDup_cons in Hnd as [Hnin Hnd]. constructor; [auto|].
    apply Forall_forall. intros q Hq. rewrite Forall_forall in Hall.
    specialize (Hall q Hq). unfold part_le in Hall.
    destruct (decide (Number p = Number q)) as [E|]; [|lia].
    destruct Hnin. rewrite E. by apply list_elem_of_fmap_2.
Qed.

Lemma find_part_Some parts n p :
  NoDup (Number <$> parts) → find_part parts n = Some p ↔ p ∈ parts ∧ Number p = n.
Proof.
  intros Hnd. unfold find_part. split.
  - destruct (list_find _ parts) as [[i q]|] eqn:E; simpl; [|done].
    intros [= <-]. apply list_find_Some in E as (Hi & Hn & _).
    split; [by eapply list_elem_of_lookup_2|done].
  - intros [[i Hi]%list_elem_of_lookup Hn].
    destruct (list_find (λ q, Number q = n) parts) as [[j q]|] eqn:E; simpl.
    + apply list_find_Some in E as (Hj & Hq & _).
      assert (i = j) as ->; [|congruence].
      apply (NoDup_lookup (Number <$> parts) i j n Hnd);
        rewrite list_lookup_fmap; [rewrite Hi|rewrite Hj]; simpl; congruence.
    + apply list_find_None in E. rewrite Forall_forall in E.
      destruct (E p); [by eapply list_elem_of_lookup_2|done].
Qed.

Lemma find_part_None parts n :
  find_part parts n = None ↔ ∀ p, p ∈ parts → Number p ≠ n.
Proof.
  unfold find_part. rewrite fmap_None, list_find_None, Forall_forall. done.
Qed.

Lemma replace_part_spec parts p :
  match replace_part parts p with
  | Some parts' => ∃ l q r, parts = l ++ q :: r ∧ Number q = Number p ∧ parts' = l ++ p :: r
  | None => ∀ q, q ∈ parts → Number q ≠ Number p
  end.
Proof.
  induction parts as [|q parts IH]; simpl; [intros q Hq; by apply elem_of_nil in Hq|].
  destruct (Number p =? Number q) eqn:E; bool_prop.
  - by exists [], q, parts.
  - destruct (replace_part parts p) as [parts'|].
    + destruct IH as (l & q' & r & -> & ? & ->). by exists (q :: l), q', r.
    + intros q' [->|Hq']%elem_of_cons; [congruence|auto].
Qed.

(** Replacing a part by one of the same number keeps the list of numbers. *)
Lemma replace_numbers (l r : list objectPartInfo) p q :
  Number q = Number p → Number <$> (l ++ q :: r) = Number <$> (l ++ p :: r).
Proof. intros H. rewrite !fmap_app, !fmap_cons, H. done. Qed.

Lemma StronglySorted_numbers parts :
  StronglySorted part_le parts ↔ StronglySorted Z.le (Number <$> parts).
Proof.
  induction parts as [|p parts IH]; [split; constructor|]. rewrite fmap_cons. split.
  - intros [Hs Hall]%StronglySorted_inv. constructor; [by apply IH|].
    apply Forall_fmap. exact Hall.
  - intros [Hs Hall]%StronglySorted_inv. constructor; [by apply IH|].
    exact (proj1 (Forall_fmap _ _ _) Hall).
Qed.

Lemma add_part_numbers_fresh parts p :
  NoDup (Number <$> parts) → (∀ q, q ∈ parts → Number q ≠ Number p) →
  NoDup (Number <$> sort_parts (parts ++ [p])) ∧ StronglySorted part_le (sort_parts (parts ++ [p])).
Proof.
  intros Hnd Hfresh. split.
  - unfold sort_parts. rewrite merge_sort_Permutation, fmap_app.
    apply NoDup_app. split_and!; [done| |apply NoDup_singleton].
    intros n (q & -> & Hq)%list_elem_of_fmap. simpl.
    rewrite list_elem_of_singleton. auto.
  - apply StronglySorted_merge_sort; apply _.
Qed.

Lemma AddObjectPart_wf m n name etag size :
  parts_wf (Parts m) → parts_wf (Parts (AddObjectPart m n name etag size)).
Proof.
  rewrite !parts_wf_alt. intros [Hs Hnd]. unfold AddObjectPart.
  set (p := ObjectPartInfo n name etag size).
  pose proof (replace_part_spec (Parts m) p) as Hr.
  destruct (replace_part (Parts m) p) as [parts'|]; simpl.
  - destruct Hr as (l & q & r & Heq & Hn & ->). rewrite Heq in *.
    rewrite StronglySorted_numbers, <- (replace_numbers l r p q Hn) in *. done.
  - destruct (add_part_numbers_fresh (Parts m) p) as [? ?]; done.
Qed.

Lemma AddObjectPart_find m n name etag size k :
  parts_wf (Parts m) →
  find_part (Parts (AddObjectPart m n name etag size)) k =
    if bool_decide (k = n) then Some (ObjectPartInfo n name etag size)
    else find_part (Parts m) k.
Proof.
  intros Hwf. pose proof (AddObjectPart_wf m n name etag size Hwf) as Hwf'.
  apply parts_wf_alt in Hwf as [_ Hnd]. apply parts_wf_alt in Hwf' as [_ Hnd'].
  set (p := ObjectPartInfo n name etag size).
  assert (Helem : ∀ q, q ∈ Parts (AddObjectPart m n name etag size) ↔
            q = p ∨ (q ∈ Parts m ∧ Number q ≠ n)).
  { revert Hnd Hnd'. unfold AddObjectPart. fold p. intros Hnd Hnd' q.
    pose proof (replace_part_spec (Parts m) p) as Hr.
    destruct (replace_part (Parts m) p) as [parts'|]; simpl in *.
    - destruct Hr as (l & q0 & r & Heq & Hn & ->). rewrite Heq in *. simpl in *.
      rewrite fmap_app, fmap_cons, NoDup_app, NoDup_cons in Hnd.
      destruct Hnd as (_ & Hd & Hnr & _). rewrite Hn in *. simpl in *.
      rewrite !elem_of_app, !elem_of_cons. split.
      + intros [Hl|[->|Hr]]; [right|by left|right]; (split; [by auto|]).
        * intros <-. eapply (Hd (Number q)); [by apply list_elem_of_fmap_2|by constructor].
        * intros <-. apply Hnr. by apply list_elem_of_fmap_2.
      + intros [->|[[Hl|[->|Hr]] Hne]]; auto. by destruct Hne.
    - unfold sort_parts. rewrite merge_sort_Permutation, elem_of_app, list_elem_of_singleton.
      split; [intros [Hq| ->]; [right; split; [done|by apply Hr]|by left]|].
      intros [->|[? ?]]; auto. }
  case_bool_decide as Hk; [subst k|].
  - apply find_part_Some; [done|]. rewrite Helem. auto.
  - destruct (find_part (Parts m) k) as [q|] eqn:E.
    + apply find_part_Some in E as [Hq <-]; [|done].
      apply find_part_Some; [done|]. rewrite Helem. auto.
    + apply find_part_None. intros q [->|[Hq _]]%Helem; [simpl; congruence|].
      rewrite find_part_None in E. auto.
Qed.

Lemma bytes_before_0 parts : bytes_before parts 0 = 0.
Proof. done. Qed.

Lemma bytes_before_S p parts i :
  bytes_before (p :: parts) (S i) = PartSize p + bytes_before parts i.
Proof. done. Qed.

Lemma total_size_cons p parts : total_size (p :: parts) = PartSize p + total_size parts.
Proof. done. Qed.

Lemma part_offset_loop_spec parts : ∀ i off,
  Forall (λ p, 0 ≤ PartSize p) parts → 0 ≤ off < 2 ^ 63 →
  (off < total_size parts ∧
   ∃ j o p, part_offset_loop i parts off = (i + Z.of_nat j, o, None) ∧
     parts !! j = Some p ∧ 0 ≤ o < PartSize p ∧ bytes_before parts j + o = off) ∨
  (total_size parts ≤ off ∧
   part_offset_loop i parts off = (0, 0, Some (Traced (InvalidRange 0 0 0) []))).
Proof.
  induction parts as [|p parts IH]; intros i off Hall Hoff; simpl.
  { right. split; [cbn; lia|done]. }
  apply Forall_cons in Hall as [Hp Hall]. rewrite total_size_cons.
  destruct (off <? PartSize p) eqn:E; bool_prop.
  - left. assert (Htot : 0 ≤ total_size parts).
    { clear -Hall. unfold total_size, bytes_before.
      rewrite firstn_all. induction Hall; simpl; lia. }
    split; [lia|]. exists 0%nat, off, p. rewrite bytes_before_0.
    split_and!; [|done|lia..]. by rewrite Z.add_0_r.
  - rewrite int64_wrap_id by (unfold is_int64; lia).
    destruct (IH (i + 1) (off - PartSize p)) as [(Hlt & j & o & q & -> & Hj & Ho & Hb)|[Hge ->]];
      [done|lia| |].
    + left. split; [lia|]. exists (S j), o, q. rewrite bytes_before_S.
      split_and!; [|done|lia..]. do 2 f_equal. lia.
    + right. split; [lia|done].
Qed.

(** ** Theorems *)

(** [ObjectToPartOffset] locates every byte of a multipart object: for a
    positive offset inside the object it returns the index of a part and the
    offset inside it such that the bytes of the preceding parts plus that
    offset are the requested offset; at or past the end it returns
    InvalidRange; offset 0 is always (0, 0). *)
Theorem ObjectToPartOffset_spec m offset :
  Forall (λ p, 0 ≤ PartSize p) (Parts m) → 0 ≤ offset < 2 ^ 63 →
  match ObjectToPartOffset m offset with
  | (i, o, None) =>
      (offset = 0 ∧ i = 0 ∧ o = 0) ∨
      (offset < total_size (Parts m) ∧
       ∃ p, Parts m !! Z.to_nat i = Some p ∧ 0 ≤ i ∧ 0 ≤ o < PartSize p ∧
         bytes_before (Parts m) (Z.to_nat i) + o = offset)
  | (i, o, Some e) =>
      e = Traced (InvalidRange 0 0 0) [] ∧ 0 < offset ∧ total_size (Parts m) ≤ offset
  end.
Proof.
  intros Hall Hoff. unfold ObjectToPartOffset.
  destruct (offset =? 0) eqn:E; bool_prop; [left; auto|].
  destruct (part_offset_loop_spec (Parts m) 0 offset Hall Hoff)
    as [(Hlt & j & o & p & -> & Hj & Ho & Hb)|[Hge ->]].
  - right. split; [done|]. exists p. rewrite Z.add_0_l, Nat2Z.id. split_and!; done || lia.
  - split_and!; [done|lia|done].
Qed.

Definition two_parts : xlMetaV1 :=
  set_parts xlMetaV1_zero [ObjectPartInfo 1 "part.1" "" 5; ObjectPartInfo 2 "part.2" "" 7].

Lemma ObjectToPartOffset_spec_witness :
  ObjectToPartOffset two_parts 6 = (1, 1, None) ∧
  match ObjectToPartOffset two_parts 6 with
  | (i, o, None) =>
      (6 = 0 ∧ i = 0 ∧ o = 0) ∨
      (6 < total_size (Parts two_parts) ∧
       ∃ p, Parts two_parts !! Z.to_nat i = Some p ∧ 0 ≤ i ∧ 0 ≤ o < PartSize p ∧
         bytes_before (Parts two_parts) (Z.to_nat i) + o = 6)
  | (i, o, Some e) =>
      e = Traced (InvalidRange 0 0 0) [] ∧ 0 < 6 ∧ total_size (Parts two_parts) ≤ 6
  end.
Proof.
  split; [reflexivity|].
  apply ObjectToPartOffset_spec; [repeat constructor; simpl; lia|lia].
Defined.

(** Adding a part keeps the part list sorted by strictly increasing
    number, makes the added part the one found under its number (replacing an
    earlier upload of the same part), and leaves every other part alone. *)
Theorem AddObjectPart_spec m n name etag size :
  parts_wf (Parts m) →
  let m' := AddObjectPart m n name etag size in
  parts_wf (Parts m') ∧
  ∀ k, find_part (Parts m') k =
    if bool_decide (k = n) then Some (ObjectPartInfo n name etag size)
    else find_part (Parts m) k.
Proof.
  intros Hwf. split; [by apply AddObjectPart_wf|].
  intros k. by apply AddObjectPart_find.
Qed.

Lemma AddObjectPart_spec_witness :
  let m' := AddObjectPart two_parts 1 "part.1" "etag" 9 in
  parts_wf (Parts m') ∧
  ∀ k, find_part (Parts m') k =
    if bool_decide (k = 1) then Some (ObjectPartInfo 1 "part.1" "etag" 9)
    else find_part (Parts two_parts) k.
Proof. apply AddObjectPart_spec. repeat constructor; simpl; lia. Defined.

(** Checksums behave as a map from part names. *)
Lemma AddCheckSumInfo_get algo e ck name :
  GetCheckSumInfo algo (AddCheckSumInfo e ck) name =
    if bool_decide (name = CkName ck) then ck else GetCheckSumInfo algo e name.
Proof.
  unfold GetCheckSumInfo, AddCheckSumInfo. simpl. generalize (Checksum e). intros sums.
  induction sums as [|s sums IH]; simpl.
  - by rewrite (bool_decide_ext (CkName ck = name) (name = CkName ck)) by done.
  - destruct (decide (CkName s = CkName ck)) as [Hs|Hs].
    + rewrite (bool_decide_true _ Hs). simpl. rewrite Hs.
      rewrite (bool_decide_ext (CkName ck = name) (name = CkName ck)) by done.
      by case_bool_decide.
    + rewrite (bool_decide_false _ Hs). simpl. rewrite IH.
      repeat case_bool_decide; congruence.
Qed.

(** [pickValidXLMeta] returns a valid member with the requested time, and fails
    only when there is none. *)
Lemma pickValidXLMeta_spec metaArr modTime :
  match pickValidXLMeta metaArr modTime with
  | (m, None) => m ∈ metaArr ∧ IsValid m = true ∧ ModTime (Stat m) = modTime
  | (m, Some _) =>
      m = xlMetaV1_zero ∧
      ∀ m', m' ∈ metaArr → IsValid m' = true → ModTime (Stat m') ≠ modTime
  end.
Proof.
  induction metaArr as [|m ms IH]; simpl.
  - split; [done|]. intros m' Hm'. by apply elem_of_nil in Hm'.
  - destruct (IsValid m && (ModTime (Stat m) =? modTime)) eqn:E.
    + bool_prop. split_and!; [constructor|done..].
    + destruct (pickValidXLMeta ms modTime) as [m0 [e|]].
      * destruct IH as [-> IH]. split; [done|].
        intros m' [->|Hm']%elem_of_cons Hv; [|auto].
        rewrite Hv in E. simpl in E. by bool_prop.
      * destruct IH as (? & ? & ?). split_and!; [by constructor|done..].
Qed.

(** New metadata is valid and its distribution is a permutation of the disks. *)
Lemma newXLMetaV1_ok tag object dataBlocks parityBlocks :
  0 < dataBlocks + parityBlocks < 2 ^ 32 →
  ∃ m, newXLMetaV1 tag object dataBlocks parityBlocks = Ret m ∧ IsValid m = true ∧
    Distribution (Erasure m) ≡ₚ seqZ 1 (dataBlocks + parityBlocks).
Proof.
  intros H. unfold newXLMetaV1.
  destruct (hashOrder_ret object (dataBlocks + parityBlocks) H) as (nums & -> & Hp).
  eexists. split_and!; [done|done|done].
Qed.
