(* ===== verification/Storage.v ===== *)
(** * Storage interface

    The [StorageAPI] interface of a disk (src/cmd/storage-interface.go,
    src/cmd/storage-datatypes.go).  Operations are state passing: a disk is a
    value of a type [D] and every call returns the disk after the call, so an
    implementation can fail, heal or go offline between calls.

    [StorageContract] is what the erasure layer relies on: the documented
    behaviour of [ReadFile] ("symantics are same as io.ReadFull") and
    [AppendFile].  [MemDisk] is an in-memory disk that satisfies it. *)

From S2P Require Import Prelude.
From S2P Require Import GoErrors.
From S2P Require Import GoStrings.

Local Open Scope Z_scope.

(** ** Data *)

Record VolInfo := { VolName : string; VolCreated : Z }.

Record FileInfo := {
  FileVolume : string;
  FileName : string;
  FileModTime : Z;
  FileSize : Z;
  FileMode : Z;
}.

(** [disk.Info] of src/pkg/disk/disk.go. *)
Record DiskStat := {
  DiskTotal : Z;
  DiskFree : Z;
  DiskFiles : Z;
  DiskFfree : Z;
  DiskFSType : string;
}.

Class StorageAPI (D : Type) := {
  Init : D → D * option error;
  Close : D → D * option error;
  DiskInfo : D → D * (DiskStat * option error);
  MakeVol : D → string → D * option error;
  ListVols : D → D * (list VolInfo * option error);
  StatVol : D → string → D * (VolInfo * option error);
  DeleteVol : D → string → D * option error;
  ListDir : D → string → string → D * (list string * option error);
  (** The buffer after the call, the number of bytes read, the error. *)
  ReadFile : D → string → string → Z → bytes → D * (bytes * Z * option error);
  PrepareFile : D → string → string → Z → D * option error;
  AppendFile : D → string → string → bytes → D * option error;
  RenameFile : D → string → string → string → string → D * option error;
  StatFile : D → string → string → D * (FileInfo * option error);
  DeleteFile : D → string → string → D * option error;
  ReadAll : D → string → string → D * (bytes * option error);
}.

(** ** Contract *)

(** [io.ReadFull] of a buffer from offset [off] of a file with content [c]:
    the buffer after the call, the count, and nil, [io.EOF] (nothing read) or
    [io.ErrUnexpectedEOF] (read short). *)
Definition readFull (c : bytes) (off : Z) (buf : bytes) : bytes * Z * option error :=
  let avail := take (length buf) (drop (Z.to_nat off) c) in
  (avail ++ drop (length avail) buf, zlen avail,
   if (length avail =? length buf)%nat then None
   else if (length avail =? 0)%nat then Some (io_EOF : error)
   else Some (io_ErrUnexpectedEOF : error)).

(** End-of-file conditions, as opposed to failures of the disk. *)
Definition is_eof (e : option error) : bool :=
  err_eqb e (Some (io_EOF : error)) || err_eqb e (Some (io_ErrUnexpectedEOF : error)).

Class StorageContract (D : Type) `{!StorageAPI D} := {
  (** The content of a file, if it exists. *)
  file_at : D → string → string → option bytes;
  (** The disk answers the reads of the file. *)
  serves : D → string → string → Prop;
  (** The disk accepts the appends to the file. *)
  accepts : D → string → string → Prop;
  AppendFile_appends : ∀ d v p b d',
    AppendFile d v p b = (d', None) →
    file_at d' v p = Some (default [] (file_at d v p) ++ b);
  AppendFile_accepts : ∀ d v p b,
    accepts d v p → ∃ d', AppendFile d v p b = (d', None) ∧ accepts d' v p;
  (** A read changes no file. *)
  ReadFile_frame : ∀ d v p off buf d' r v' p',
    ReadFile d v p off buf = (d', r) → file_at d' v' p' = file_at d v' p';
  (** A read does not change the length of the buffer. *)
  ReadFile_buf : ∀ d v p off buf d' buf' n e,
    ReadFile d v p off buf = (d', (buf', n, e)) → length buf' = length buf;
  (** A read that succeeds or hits the end of the file is an [io.ReadFull]. *)
  ReadFile_sound : ∀ d v p off buf d' buf' n e,
    0 ≤ off →
    ReadFile d v p off buf = (d', (buf', n, e)) → e = None ∨ is_eof e = true →
    ∃ c, file_at d v p = Some c ∧ (buf', n, e) = readFull c off buf;
  (** A disk that serves a file reads it, and keeps serving it. *)
  ReadFile_serves : ∀ d v p off buf c,
    0 ≤ off → serves d v p → file_at d v p = Some c →
    ∃ d', ReadFile d v p off buf = (d', readFull c off buf) ∧ serves d' v p;
}.

(** ** Lemmas *)

Lemma readFull_full c off buf :
  0 ≤ off → off + zlen buf ≤ zlen c →
  readFull c off buf = (take (length buf) (drop (Z.to_nat off) c), zlen buf, None).
Proof.
  intros Hoff Hlen. unfold readFull, zlen in *.
  assert (Hl : length (take (length buf) (drop (Z.to_nat off) c)) = length buf).
  { rewrite length_take, length_drop. lia. }
  rewrite Hl, Nat.eqb_refl. rewrite drop_all, app_nil_r. done.
Qed.

Lemma readFull_None c off buf buf' n :
  readFull c off buf = (buf', n, None) →
  buf' = take (length buf) (drop (Z.to_nat off) c) ∧ n = zlen buf ∧
  length (take (length buf) (drop (Z.to_nat off) c)) = length buf.
Proof.
  unfold readFull. intros H. injection H as <- <- He.
  destruct (_ =? length buf)%nat eqn:E; [|by destruct (_ =? 0)%nat].
  apply Nat.eqb_eq in E. rewrite E. rewrite drop_all, app_nil_r.
  split_and!; [done| |done]. unfold zlen. lia.
Qed.

Lemma readFull_error_eof c off buf buf' n e :
  readFull c off buf = (buf', n, Some e) → is_eof (Some e) = true.
Proof.
  unfold readFull. intros H. injection H as <- <- He.
  destruct (_ =? length buf)%nat; [done|]. by destruct (_ =? 0)%nat; simplify_eq.
Qed.

Lemma readFull_length c off buf : length (readFull c off buf).1.1 = length buf.
Proof. unfold readFull. simpl. rewrite length_app, length_drop, length_take. lia. Qed.

(** ** An in-memory disk *)

Record MemDisk := {
  mem_files : gmap (string * string) bytes;
  mem_vols : gset string;
  mem_offline : bool;
}.

Definition mem_set_files (d : MemDisk) (fs : gmap (string * string) bytes) : MemDisk :=
  {| mem_files := fs; mem_vols := mem_vols d; mem_offline := mem_offline d |}.

Definition mem_set_vols (d : MemDisk) (vs : gset string) : MemDisk :=
  {| mem_files := mem_files d; mem_vols := vs; mem_offline := mem_offline d |}.

(** Errors before a file operation: the disk and then the volume. *)
Definition mem_check (d : MemDisk) (v : string) : option error :=
  if mem_offline d then Some (errDiskNotFound : error)
  else if bool_decide (v ∈ mem_vols d) then None else Some (errVolumeNotFound : error).

Definition mem_ReadFile (d : MemDisk) (v p : string) (off : Z) (buf : bytes)
    : MemDisk * (bytes * Z * option error) :=
  (d, match mem_check d v with
      | Some e => (buf, 0, Some e)
      | None =>
          match mem_files d !! (v, p) with
          | None => (buf, 0, Some (errFileNotFound : error))
          | Some c =>
              if off <? 0 then (buf, 0, Some (errInvalidArgument : error))
              else readFull c off buf
          end
      end).

Definition mem_AppendFile (d : MemDisk) (v p : string) (b : bytes) : MemDisk * option error :=
  match mem_check d v with
  | Some e => (d, Some e)
  | None => (mem_set_files d (<[(v, p) := default [] (mem_files d !! (v, p)) ++ b]> (mem_files d)), None)
  end.

(** The files of a volume whose path starts with [s], by the rest of the path. *)
Definition mem_under (v s : string) (key : string * string) : option string :=
  if bool_decide (key.1 = v) && HasPrefix key.2 s then Some (TrimPrefix key.2 s) else None.

Definition mem_dir (fs : gmap (string * string) bytes) (v s : string) : list string :=
  omap (mem_under v s) (map_to_list fs).*1.

(** The directory entry of a file: its first element, with the slash. *)
Definition mem_entry (r : string) : string :=
  match Index r "/" with
  | Some i => string_of_bytes (take (S i) (bytes_of_string r))
  | None => r
  end.

Definition mem_ListDir (d : MemDisk) (v p : string) : MemDisk * (list string * option error) :=
  (d, match mem_check d v with
      | Some e => ([], Some e)
      | None =>
          let dir := if bool_decide (p = "") || HasSuffix p "/" then p else p +:+ "/" in
          match mem_dir (mem_files d) v dir with
          | [] => ([], if bool_decide (p = "") then None else Some (errFileNotFound : error))
          | rs => (remove_dups (mem_entry <$> rs), None)
          end
      end).

(** The key of a file after the directory [src] is moved to [dst]. *)
Definition mem_moved (sv src dv dst : string) (key : string * string) : string * string :=
  match mem_under sv src key with
  | Some r => (dv, dst +:+ r)
  | None => key
  end.

Definition mem_move_dir (fs : gmap (string * string) bytes) (sv src dv dst : string)
    : gmap (string * string) bytes :=
  list_to_map (prod_map (mem_moved sv src dv dst) id <$> map_to_list fs).

(** A rename moves a file or a directory; the destination of a directory must
    not exist. *)
Definition mem_RenameFile (d : MemDisk) (sv sp dv dp : string) : MemDisk * option error :=
  match mem_check d sv, mem_check d dv with
  | Some e, _ | None, Some e => (d, Some e)
  | None, None =>
      let fs := mem_files d in
      match HasSuffix sp "/", HasSuffix dp "/" with
      | true, true =>
          match mem_dir fs dv dp, mem_dir fs sv sp with
          | _ :: _, _ => (d, Some (errFileAccessDenied : error))
          | [], [] => (d, Some (errFileNotFound : error))
          | [], _ :: _ => (mem_set_files d (mem_move_dir fs sv sp dv dp), None)
          end
      | false, false =>
          match fs !! (sv, sp) with
          | None => (d, Some (errFileNotFound : error))
          | Some c => (mem_set_files d (<[(dv, dp) := c]> (delete (sv, sp) fs)), None)
          end
      | _, _ => (d, Some (errFileAccessDenied : error))
      end
  end.

#[export] Instance MemDisk_StorageAPI : StorageAPI MemDisk := {|
  Init d := (d, if mem_offline d then Some (errDiskNotFound : error) else None);
  Close d := (d, None);
  DiskInfo d := (d, ({| DiskTotal := 0; DiskFree := 0; DiskFiles := 0; DiskFfree := 0;
                        DiskFSType := "" |},
                     if mem_offline d then Some (errDiskNotFound : error) else None));
  MakeVol d v :=
    if mem_offline d then (d, Some (errDiskNotFound : error))
    else if bool_decide (v ∈ mem_vols d) then (d, Some (errVolumeExists : error))
    else (mem_set_vols d ({[v]} ∪ mem_vols d), None);
  ListVols d :=
    if mem_offline d then (d, ([], Some (errDiskNotFound : error)))
    else (d, ((λ v, {| VolName := v; VolCreated := 0 |}) <$> elements (mem_vols d), None));
  StatVol d v :=
    (d, ({| VolName := v; VolCreated := 0 |}, mem_check d v));
  DeleteVol d v :=
    match mem_check d v with
    | Some e => (d, Some e)
    | None =>
        match mem_dir (mem_files d) v "" with
        | [] => (mem_set_vols d (mem_vols d ∖ {[v]}), None)
        | _ :: _ => (d, Some (errVolumeNotEmpty : error))
        end
    end;
  ListDir := mem_ListDir;
  ReadFile := mem_ReadFile;
  PrepareFile d v p n := (d, mem_check d v);
  AppendFile := mem_AppendFile;
  RenameFile := mem_RenameFile;
  StatFile d v p :=
    (d, ({| FileVolume := v; FileName := p; FileModTime := 0;
            FileSize := zlen (default [] (mem_files d !! (v, p))); FileMode := 0 |},
         match mem_check d v, mem_files d !! (v, p) with
         | Some e, _ => Some e
         | None, None => Some (errFileNotFound : error)
         | None, Some _ => None
         end));
  DeleteFile d v p :=
    match mem_check d v, mem_files d !! (v, p) with
    | Some e, _ => (d, Some e)
    | None, None => (d, Some (errFileNotFound : error))
    | None, Some _ => (mem_set_files d (delete (v, p) (mem_files d)), None)
    end;
  ReadAll d v p :=
    (d, match mem_check d v, mem_files d !! (v, p) with
        | Some e, _ => ([], Some e)
        | None, None => ([], Some (errFileNotFound : error))
        | None, Some c => (c, None)
        end);
|}.

Lemma mem_check_not_eof d v : is_eof (mem_check d v) = false.
Proof. unfold mem_check. by repeat case_match. Qed.

#[export] Program Instance MemDisk_contract : StorageContract MemDisk := {|
  file_at d v p := mem_files d !! (v, p);
  serves d v p := mem_check d v = None;
  accepts d v p := mem_check d v = None;
|}.
Next Obligation.
  intros d v p b d'. simpl. unfold mem_AppendFile.
  destruct (mem_check d v); [done|]. intros [= <-]. simpl. by rewrite lookup_insert_eq.
Qed.
Next Obligation.
  intros d v p b Hd. simpl. unfold mem_AppendFile. rewrite Hd. eexists. by split.
Qed.
Next Obligation. intros d v p off buf d' r v' p'. simpl. unfold mem_ReadFile. by intros [= <- _]. Qed.
Next Obligation.
  intros d v p off buf d' buf' n e. simpl. unfold mem_ReadFile. intros [= _ Hr].
  change buf' with (buf', n, e).1.1. rewrite <- Hr.
  repeat case_match; simplify_eq; try done. apply readFull_length.
Qed.
Next Obligation.
  intros d v p off buf d' buf' n e Hoff. simpl. unfold mem_ReadFile.
  intros [= _ Hr]. pose proof (mem_check_not_eof d v) as Hc.
  destruct (mem_check d v) as [e'|]; [simplify_eq; intros [?|?]; [done|congruence]|].
  destruct (mem_files d !! (v, p)) as [c|]; [|simplify_eq; by intros [?|?]].
  destruct (off <? 0) eqn:E; bool_prop; [lia|]. by exists c.
Qed.
Next Obligation.
  intros d v p off buf c Hoff Hs Hf. simpl in *. unfold mem_ReadFile.
  rewrite Hs, Hf. exists d. destruct (off <? 0) eqn:E; bool_prop; [lia|done].
Qed.
