(* ===== verification/Bpool.v ===== *)
(** * Byte pool

    The fixed-size pool of read buffers (src/pkg/bpool/bpool.go).  A pool
    slice is owned by the pool and handed out by reference: [Get] returns the
    slot, so that a write through the slice is a write to the slot
    ([pool_write]). *)

From S2P Require Import Prelude.
From S2P Require Import GoErrors.

(** ** Operations *)

Record BytePool := {
  pool_buf : list (option bytes);
  pool_used : list bool;
  pool_size : nat;
}.

Definition NewBytePool (size n : nat) : BytePool :=
  {| pool_buf := replicate n None; pool_used := replicate n false; pool_size := size |}.

(** The scan for the first unused slot. *)
Fixpoint first_unused (i : nat) (used : list bool) : option nat :=
  match used with
  | [] => None
  | true :: used' => first_unused (S i) used'
  | false :: _ => Some i
  end.

(** [Get]: marks the slot used and allocates its slice on first use. *)
Definition pool_Get (b : BytePool) : BytePool * (option (nat * bytes) * option error) :=
  match first_unused 0 (pool_used b) with
  | None => (b, (None, Some (ErrBpoolNoFree : error)))
  | Some i =>
      let slice := match pool_buf b !! i with
                   | Some (Some s) => s
                   | _ => replicate (pool_size b) byte0
                   end in
      ({| pool_buf := <[i := Some slice]> (pool_buf b);
          pool_used := <[i := true]> (pool_used b);
          pool_size := pool_size b |}, (Some (i, slice), None))
  end.

Definition pool_Reset (b : BytePool) : BytePool :=
  {| pool_buf := pool_buf b; pool_used := replicate (length (pool_used b)) false;
     pool_size := pool_size b |}.

(** A write through the front of the slice of slot [i]. *)
Definition pool_write (b : BytePool) (i : nat) (data : bytes) : BytePool :=
  {| pool_buf := alter (λ s, match s with
                             | Some s => Some (data ++ drop (length data) s)
                             | None => None
                             end) i (pool_buf b);
     pool_used := pool_used b; pool_size := pool_size b |}.

(** ** Invariant and lemmas *)

(** The slots and flags agree in number and every slice has the pool's size. *)
Definition pool_wf (b : BytePool) : Prop :=
  length (pool_buf b) = length (pool_used b) ∧
  ∀ i s, pool_buf b !! i = Some (Some s) → length s = pool_size b.

Definition pool_in_use (b : BytePool) : nat := length (filter (λ u, u = true) (pool_used b)).

Lemma first_unused_spec used : ∀ i,
  match first_unused i used with
  | Some j => i ≤ j ∧ used !! (j - i) = Some false ∧ ∀ l, l < j - i → used !! l = Some true
  | None => Forall (λ u, u = true) used
  end.
Proof.
  induction used as [|[] used IH]; intros i; simpl.
  - constructor.
  - specialize (IH (S i)). destruct (first_unused (S i) used) as [j|].
    + destruct IH as (Hle & Hj & Hall). replace (j - i) with (S (j - S i)) by lia.
      split_and!; [lia|done|]. intros [|l] Hl; [done|]. apply Hall. lia.
    + by constructor.
  - rewrite Nat.sub_diag. split_and!; [lia|done|lia].
Qed.

Lemma in_use_insert used i :
  used !! i = Some false →
  length (filter (λ u, u = true) (<[i := true]> used)) =
  S (length (filter (λ u, u = true) used)).
Proof.
  revert i. induction used as [|u used IH]; intros [|i]; simpl; try done.
  - intros [= ->]. by rewrite !filter_cons.
  - intros Hi. rewrite !filter_cons. destruct u; simpl; rewrite IH; done.
Qed.

Lemma all_in_use used :
  Forall (λ u, u = true) used → length (filter (λ u, u = true) used) = length used.
Proof. induction 1; rewrite ?filter_cons; simplify_eq/=; auto. Qed.

Lemma NewBytePool_wf size n : pool_wf (NewBytePool size n).
Proof.
  split; simpl; [by rewrite !length_replicate|].
  intros i s H. apply lookup_replicate in H as [? ?]. done.
Qed.

Lemma pool_Reset_wf b : pool_wf b → pool_wf (pool_Reset b).
Proof. intros [? ?]. split; simpl; [by rewrite length_replicate|done]. Qed.

Lemma pool_Reset_in_use b : pool_in_use (pool_Reset b) = 0.
Proof.
  unfold pool_in_use. simpl. induction (length (pool_used b)); [done|].
  simpl. by rewrite filter_cons.
Qed.

(** [Get] succeeds exactly while a slot is free; it hands out one more slot of
    the pool's size. *)
Lemma pool_Get_spec b :
  pool_wf b →
  match pool_Get b with
  | (b', (Some (i, s), None)) =>
      pool_wf b' ∧ pool_used b !! i = Some false ∧ pool_used b' = <[i := true]> (pool_used b) ∧
      length s = pool_size b ∧ pool_size b' = pool_size b ∧
      pool_in_use b' = S (pool_in_use b) ∧ length (pool_used b') = length (pool_used b) ∧
      pool_buf b' !! i = Some (Some s)
  | (b', (None, Some e)) =>
      b' = b ∧ e = ErrBpoolNoFree ∧ pool_in_use b = length (pool_used b)
  | _ => False
  end.
Proof.
  intros [Hl Hs]. unfold pool_Get. pose proof (first_unused_spec (pool_used b) 0) as Hf.
  destruct (first_unused 0 (pool_used b)) as [i|].
  - rewrite Nat.sub_0_r in Hf. destruct Hf as (_ & Hi & _).
    set (s := match pool_buf b !! i with Some (Some s) => s | _ => _ end).
    assert (Hlen : length s = pool_size b).
    { unfold s. destruct (pool_buf b !! i) as [[s'|]|] eqn:E; [by eapply Hs|..];
        apply length_replicate. }
    assert (Hlt : i < length (pool_buf b)) by (rewrite Hl; by eapply lookup_lt_Some).
    simpl. split_and!; simpl; try done.
    + split; simpl; [by rewrite !length_insert|].
      intros j s'. destruct (decide (i = j)) as [<-|Hne].
      * rewrite list_lookup_insert_eq by done. by intros [= <-].
      * rewrite list_lookup_insert_ne by done. apply Hs.
    + by apply in_use_insert.
    + by rewrite length_insert.
    + by apply list_lookup_insert_eq.
  - split_and!; [done..|]. by apply all_in_use.
Qed.

Lemma pool_write_wf b i data :
  pool_wf b → length data ≤ pool_size b → pool_wf (pool_write b i data).
Proof.
  intros [Hl Hs] Hd. split; simpl; [by rewrite length_alter|].
  intros j s. destruct (decide (i = j)) as [<-|Hne].
  - rewrite list_lookup_alter_eq. destruct (pool_buf b !! i) as [[s'|]|] eqn:E; simpl;
      intros; simplify_eq. rewrite length_app, length_drop, (Hs i s'); [lia|done].
  - rewrite list_lookup_alter_ne by done. apply Hs.
Qed.
