(* ===== verification/Erasure.v ===== *)
(** * Erasure coding

    Erasure-coded files over a slice of disks (src/cmd/erasure-utils.go,
    erasure-createfile.go, erasure-readfile.go, erasure-healfile.go).

    Parameters.  The Reed-Solomon codec is the class [ReedSolomon] (the
    vendored klauspost/reedsolomon, of which [Split] is translated); the hash
    functions are the class [Hashes]; disks are any [StorageAPI] and writers
    any [IOWriter].  The goroutines of a parallel append or read each work on
    a disk and a slot of their own, so they are run in index order. *)

From S2P Require Import Prelude.
From S2P Require Import GoErrors.
From S2P Require Import Quorum.
From S2P Require Import XLMeta.
From S2P Require Import Storage.
From S2P Require Import Bpool.

Local Open Scope Z_scope.

(** ** Library parameters *)

Class Hashes := {
  sha256_Sum : bytes → bytes;
  blake2b_Sum : bytes → bytes;
}.

(** A codec for given numbers of data and parity shards: [None] is a nil
    shard. *)
Class ReedSolomon := {
  rs_New : Z → Z → option error;
  rs_Encode : Z → Z → list bytes → list bytes * option error;
  rs_Reconstruct : Z → Z → list (option bytes) → list (option bytes) * option error;
  rs_Verify : Z → Z → list (option bytes) → bool * option error;
}.

(** [io.Writer]: the writer after the call, the bytes accepted, the error. *)
Class IOWriter (W : Type) := {
  Write : W → bytes → W * (Z * option error);
}.

(** A reader is the bytes it will deliver and the error that ends them. *)
Record reader := { rd_data : bytes; rd_err : error }.

(** [io.ReadFull(r, buf)] for a buffer of [n] bytes. *)
Definition io_ReadFull (r : reader) (n : nat) : reader * (bytes * option error) :=
  let got := take n (rd_data r) in
  let r' := {| rd_data := drop n (rd_data r); rd_err := rd_err r |} in
  (r', (got,
        if (length got =? n)%nat then None
        else if err_eqb (Some (rd_err r)) (Some (io_EOF : error)) && negb (length got =? 0)%nat
        then Some (io_ErrUnexpectedEOF : error)
        else Some (rd_err r))).

(** ** encoding/hex *)

Definition hex_digit (n : N) : ascii :=
  ascii_of_N (if (n <? 10)%N then (n + 48)%N else (n + 87)%N).

Fixpoint hex_encode (b : bytes) : string :=
  match b with
  | [] => ""
  | c :: b' =>
      String (hex_digit (N_of_ascii c / 16)%N)
        (String (hex_digit (N_of_ascii c `mod` 16)%N) (hex_encode b'))
  end.

(** ** klauspost/reedsolomon: [Split] *)

Fixpoint split_shards (perShard : nat) (shards : nat) (data : bytes) : list bytes :=
  match shards with
  | O => []
  | S shards' => take perShard data :: split_shards perShard shards' (drop perShard data)
  end.

Definition rs_Split (dataShards parityShards : Z) (data : bytes) : list bytes * option error :=
  if (length data =? 0)%nat then ([], Some (rs_ErrShortData : error))
  else
    let perShard := Z.to_nat ((zlen data + dataShards - 1) `quot` dataShards) in
    let shards := Z.to_nat (dataShards + parityShards) in
    let padded := data ++ replicate (shards * perShard - length data) byte0 in
    (split_shards perShard shards padded, None).

(** ** src/cmd/erasure-utils.go *)

Section Utils.
Context `{Hashes}.

(** A [hash.Hash] is the bytes written to it so far; [newHash algo] is its
    [Sum]. *)
Definition newHash (algo : string) : bytes → bytes :=
  if bool_decide (algo = sha256Algo) then sha256_Sum
  else if bool_decide (algo = blake2bAlgo) then blake2b_Sum
  else blake2b_Sum.

Definition newHashWriters (diskCount : nat) : list bytes := replicate diskCount [].

End Utils.

Definition getDataBlockLen (enBlocks : list (option bytes)) (dataBlocks : nat) : Z :=
  fold_left (λ size block, size + zlen (default [] block)) (take dataBlocks enBlocks) 0.

Definition getChunkSize (blockSize : Z) (dataBlocks : nat) : go Z :=
  if (dataBlocks =? 0)%nat then Panic
  else Ret ((blockSize + Z.of_nat dataBlocks - 1) `quot` Z.of_nat dataBlocks).

Section Copy.
Context {W : Type} `{!IOWriter W}.

(** [io.Copy(dst, bytes.NewReader(block))]. *)
Definition io_Copy (dst : W) (block : bytes) : W * (Z * option error) :=
  if (length block =? 0)%nat then (dst, (0, None))
  else
    let '(dst', (m, err)) := Write dst block in
    (dst', (m, match err with
               | None => if m =? zlen block then None else Some (io_ErrShortWrite : error)
               | Some e => Some e
               end)).

(** The write loop of [writeDataBlocks]. *)
Fixpoint writeDataBlocks_loop (dst : W) (blocks : list (option bytes))
    (offset write totalWritten : Z) : W * (Z * option error) :=
  match blocks with
  | [] => (dst, (totalWritten, None))
  | block :: blocks' =>
      let block := default [] block in
      if zlen block <=? offset then
        writeDataBlocks_loop dst blocks' (offset - zlen block) write totalWritten
      else
        let block := drop (Z.to_nat offset) block in
        if write <? zlen block then
          let '(dst', (n, err)) := io_Copy dst (take (Z.to_nat write) block) in
          match err with
          | Some e => (dst', (0, traceError (Some e) []))
          | None => (dst', (totalWritten + n, None))
          end
        else
          let '(dst', (n, err)) := io_Copy dst block in
          match err with
          | Some e => (dst', (0, traceError (Some e) []))
          | None => writeDataBlocks_loop dst' blocks' 0 (write - n) (totalWritten + n)
          end
  end.

Definition writeDataBlocks (dst : W) (enBlocks : list (option bytes)) (dataBlocks : nat)
    (offset length_ : Z) : W * (Z * option error) :=
  if (offset <? 0) || (length_ <? 0) then (dst, (0, traceError (Some (errUnexpected : error)) []))
  else if (length enBlocks <? dataBlocks)%nat
  then (dst, (0, traceError (Some (rs_ErrTooFewShards : error)) []))
  else if getDataBlockLen enBlocks dataBlocks <? length_
  then (dst, (0, traceError (Some (rs_ErrShortData : error)) []))
  else writeDataBlocks_loop dst (take dataBlocks enBlocks) offset length_ 0.

End Copy.

(** [readSizeV1], 1MiB (src/cmd/object-api-common.go). *)
Definition readSizeV1 : nat := Z.to_nat (1024 * 1024).

Section Disks.
Context {D : Type} `{!StorageAPI D} `{Hashes} `{ReedSolomon} `{MapOrder}.

(** The read loop of [copyBuffer]; [writer] is the hash's input so far.  The
    hash never fails to write. *)
Fixpoint copyBuffer_loop (fuel : nat) (writer : bytes) (disk : D) (volume path : string)
    (buf : bytes) (startOffset : Z) : go (D * (bytes * option error)) :=
  match fuel with
  | O => Diverge
  | S fuel' =>
      let '(disk', (buf', n, err)) := ReadFile disk volume path startOffset buf in
      let writer' := if 0 <? n then writer ++ take (Z.to_nat n) buf' else writer in
      match err with
      | Some _ => if is_eof err then Ret (disk', (writer', None)) else Ret (disk', (writer', err))
      | None => copyBuffer_loop fuel' writer' disk' volume path buf' (startOffset + n)
      end
  end.

Definition copyBuffer (fuel : nat) (writer : bytes) (disk : D) (volume path : string)
    (buf : bytes) : go (D * (bytes * option error)) :=
  if (length buf =? 0)%nat
  then Ret (disk, (writer, Some (ENew "empty buffer in readBuffer")))
  else copyBuffer_loop fuel writer disk volume path buf 0.

(** [hash] is the [Sum] of the hash passed in; the staging buffer comes from a
    pool of [readSizeV1] buffers. *)
Definition hashSum (fuel : nat) (disk : D) (volume path : string) (hash : bytes → bytes)
    : go (D * (bytes * option error)) :=
  '(disk', (written, err)) ← copyBuffer fuel [] disk volume path (replicate readSizeV1 byte0);
  match err with
  | Some e => mret (disk', ([], Some e))
  | None => mret (disk', (hash written, None))
  end.

(** ** src/cmd/erasure-createfile.go *)

Definition encodeData (dataBuffer : bytes) (dataBlocks parityBlocks : Z)
    : list bytes * option error :=
  match rs_New dataBlocks parityBlocks with
  | Some e => ([], traceError (Some e) [])
  | None =>
      let '(blocks, err) := rs_Split dataBlocks parityBlocks dataBuffer in
      match err with
      | Some e => ([], traceError (Some e) [])
      | None =>
          let '(blocks', err') := rs_Encode dataBlocks parityBlocks blocks in
          match err' with
          | Some e => ([], traceError (Some e) [])
          | None => (blocks', None)
          end
      end
  end.

(** The goroutines of [appendFile]: disks, hash inputs and errors by index. *)
Fixpoint appendFile_disks (disks : list (option D)) (volume path : string)
    (enBlocks hashWriters : list bytes)
    : go (list (option D) * list bytes * list (option error)) :=
  match disks, hashWriters with
  | [], _ => Ret ([], hashWriters, [])
  | None :: disks', h :: hs =>
      '(ds, hs', errs) ← appendFile_disks disks' volume path (tail enBlocks) hs;
      mret (None :: ds, h :: hs', None :: errs)
  | Some disk :: disks', h :: hs =>
      match enBlocks with
      | [] => Panic
      | block :: enBlocks' =>
          let '(disk', wErr) := AppendFile disk volume path block in
          '(ds, hs', errs) ← appendFile_disks disks' volume path enBlocks' hs;
          mret (Some disk' :: ds,
                (match wErr with None => h ++ block | Some _ => h end) :: hs',
                traceError wErr [] :: errs)
      end
  | _ :: _, [] => Panic
  end.

Definition appendFile (disks : list (option D)) (volume path : string)
    (enBlocks hashWriters : list bytes) (writeQuorum : nat)
    : go (list (option D) * list bytes * option error) :=
  '(disks', hashWriters', wErrs) ← appendFile_disks disks volume path enBlocks hashWriters;
  if negb (isDiskQuorum wErrs writeQuorum)
  then mret (disks', hashWriters', traceError (Some (errXLWriteQuorum : error)) [])
  else mret (disks', hashWriters', reduceWriteQuorumErrs wErrs objectOpIgnoredErrs writeQuorum).

(** The loop of [erasureCreateFile]. *)
Fixpoint erasureCreateFile_loop (fuel : nat) (disks : list (option D)) (volume path : string)
    (r : reader) (blockSize : nat) (dataBlocks parityBlocks : Z) (writeQuorum : nat)
    (hashWriters : list bytes) (bytesWritten : Z)
    : go (list (option D) * (list bytes * Z * option error)) :=
  match fuel with
  | O => Diverge
  | S fuel' =>
      let '(r', (data, rErr)) := io_ReadFull r blockSize in
      if (length data =? 0)%nat && err_eqb rErr (Some (io_ErrUnexpectedEOF : error))
      then Ret (disks, (hashWriters, 0, traceError rErr []))
      else if err_eqb rErr (Some (io_EOF : error)) then
        if bytesWritten =? 0 then
          '(disks', hs', err) ← appendFile disks volume path
              (replicate (length disks) []) hashWriters writeQuorum;
          match err with
          | Some e => mret (disks', (hs', 0, Some e))
          | None => mret (disks', (hs', bytesWritten, None))
          end
        else Ret (disks, (hashWriters, bytesWritten, None))
      else if match rErr with
              | None => false
              | Some _ => negb (err_eqb rErr (Some (io_ErrUnexpectedEOF : error)))
              end
      then Ret (disks, (hashWriters, 0, traceError rErr []))
      else if (0 <? length data)%nat then
        let '(blocks, enErr) := encodeData data dataBlocks parityBlocks in
        match enErr with
        | Some e => Ret (disks, (hashWriters, 0, Some e))
        | None =>
            '(disks', hs', err) ← appendFile disks volume path blocks hashWriters writeQuorum;
            match err with
            | Some e => mret (disks', (hs', 0, Some e))
            | None => erasureCreateFile_loop fuel' disks' volume path r' blockSize
                        dataBlocks parityBlocks writeQuorum hs' (bytesWritten + zlen data)
            end
        end
      else erasureCreateFile_loop fuel' disks volume path r' blockSize
             dataBlocks parityBlocks writeQuorum hashWriters bytesWritten
  end.

(** Returns the disks after the writes, the bytes written, the checksums and
    the error. *)
Definition erasureCreateFile (fuel : nat) (disks : list (option D)) (volume path : string)
    (r : reader) (blockSize : nat) (dataBlocks parityBlocks : Z) (algo : string)
    (writeQuorum : nat) : go (list (option D) * (Z * list string * option error)) :=
  '(disks', (hs, bytesWritten, err)) ← erasureCreateFile_loop fuel disks volume path r blockSize
      dataBlocks parityBlocks writeQuorum (newHashWriters (length disks)) 0;
  match err with
  | Some e => mret (disks', (0, [], Some e))
  | None => mret (disks', (bytesWritten, (λ h, hex_encode (newHash algo h)) <$> hs, None))
  end.

(** ** src/cmd/erasure-readfile.go *)

(** The counters of [isSuccessDecodeBlocks]: data and parity blocks read. *)
Fixpoint count_blocks {A} (index dataBlocks : nat) (enBlocks : list (option A)) : nat * nat :=
  match enBlocks with
  | [] => (0, 0)%nat
  | b :: enBlocks' =>
      let '(dataCount, parityCount) := count_blocks (S index) dataBlocks enBlocks' in
      match b with
      | None => (dataCount, parityCount)
      | Some _ => if (index <? dataBlocks)%nat then (S dataCount, parityCount)
                  else (dataCount, S parityCount)
      end
  end.

Definition isSuccessDecodeBlocks (enBlocks : list (option bytes)) (dataBlocks : nat) : bool :=
  let '(successData, successParity) := count_blocks 0 dataBlocks enBlocks in
  (successData =? dataBlocks)%nat || (dataBlocks <=? successData + successParity)%nat.

(** Panics when there are fewer blocks than [dataBlocks]. *)
Definition isSuccessDataBlocks (enBlocks : list (option bytes)) (dataBlocks : nat) : go bool :=
  if (length enBlocks <? dataBlocks)%nat then Panic
  else Ret (dataBlocks <=? (count_blocks 0 dataBlocks (take dataBlocks enBlocks)).1)%nat.

(** The second loop of [getReadDisks], from index [i] on: the disks to read
    (as a mask over the remaining disks) and the next index. *)
Fixpoint getReadDisks_scan (i : nat) (disks : list (option D)) (dataBlocks : nat)
    (dataDisks parityDisks : nat) : option (list bool * nat) :=
  match disks with
  | [] => None
  | None :: disks' =>
      match getReadDisks_scan (S i) disks' dataBlocks dataDisks parityDisks with
      | Some (mask, next) => Some (false :: mask, next)
      | None => None
      end
  | Some _ :: disks' =>
      let dataDisks' := if (i <? dataBlocks)%nat then S dataDisks else dataDisks in
      let parityDisks' := if (i <? dataBlocks)%nat then parityDisks else S parityDisks in
      if (dataDisks' =? dataBlocks)%nat then Some (true :: replicate (length disks') false, S i)
      else if (dataDisks' + parityDisks' =? dataBlocks)%nat
      then Some (true :: replicate (length disks') false, S i)
      else
        match getReadDisks_scan (S i) disks' dataBlocks dataDisks' parityDisks' with
        | Some (mask, next) => Some (true :: mask, next)
        | None => None
        end
  end.

(** The result is the mask of [readDisks] (the disk handles themselves stay in
    [orderedDisks]), the next index and the error. *)
Definition getReadDisks (orderedDisks : list (option D)) (index dataBlocks : nat)
    : list bool * nat * option error :=
  let '(dataDisks, parityDisks) := count_blocks 0 dataBlocks (take index orderedDisks) in
  if (dataDisks =? dataBlocks)%nat then ([], 0%nat, traceError (Some (errUnexpected : error)) [])
  else if (dataBlocks <=? dataDisks + parityDisks)%nat
  then ([], 0%nat, traceError (Some (errUnexpected : error)) [])
  else
    match getReadDisks_scan index (drop index orderedDisks) dataBlocks dataDisks parityDisks with
    | Some (mask, next) => (replicate index false ++ mask, next, None)
    | None => ([], 0%nat, traceError (Some (errXLReadQuorum : error)) [])
    end.

Definition isValidBlock (fuel : nat) (disk : option D) (volume path checkSum checkSumAlgo : string)
    : go (option D * bool) :=
  match disk with
  | None => Ret (None, false)
  | Some disk =>
      if bool_decide (checkSum = "") then Ret (Some disk, false)
      else
        '(disk', (hashBytes, err)) ← hashSum fuel disk volume path (newHash checkSumAlgo);
        match err with
        | Some _ => mret (Some disk', false)
        | None => mret (Some disk', bool_decide (hex_encode hashBytes = checkSum))
        end
  end.

(** The state shared by the reads of a block: the disk slice (entries are set
    to nil on failure), the blocks read, the bit-rot verification cache and
    the buffer pool. *)
Record read_state := ReadState {
  rs_disks : list (option D);
  rs_blocks : list (option bytes);
  rs_verified : list bool;
  rs_pool : BytePool;
}.

(** [bitRotVerify(index)]: verifies a disk once. *)
Definition bitRotVerify (fuel : nat) (volume path : string) (checkSums : list string)
    (algo : string) (index : nat) (st : read_state) : go (read_state * bool) :=
  match rs_verified st !! index, rs_disks st !! index, checkSums !! index with
  | Some true, _, _ => Ret (st, true)
  | Some false, Some disk, Some checkSum =>
      '(disk', isValid) ← isValidBlock fuel disk volume path checkSum algo;
      mret (ReadState (<[index := disk']> (rs_disks st)) (rs_blocks st)
              (<[index := isValid]> (rs_verified st)) (rs_pool st), isValid)
  | _, _, _ => Panic
  end.

(** [orderedDisks[index] = nil]. *)
Definition drop_disk (st : read_state) (index : nat) : read_state :=
  ReadState (<[index := None]> (rs_disks st)) (rs_blocks st) (rs_verified st) (rs_pool st).

Definition set_pool (st : read_state) (pool : BytePool) : read_state :=
  ReadState (rs_disks st) (rs_blocks st) (rs_verified st) pool.

(** The goroutine of [parallelRead] for one index. *)
Definition parallelRead_one (fuel : nat) (volume path : string) (checkSums : list string)
    (algo : string) (blockOffset curChunkSize : Z) (index : nat) (st : read_state)
    : go read_state :=
  '(st, valid) ← bitRotVerify fuel volume path checkSums algo index st;
  if negb (valid : bool) then mret (drop_disk st index)
  else
    let '(pool', (slot, err)) := pool_Get (rs_pool st) in
    let st := set_pool st pool' in
    match slot with
    | None => mret (drop_disk st index)
    | Some (i, slice) =>
        (* buf = buf[:curChunkSize] *)
        if (curChunkSize <? 0) || (zlen slice <? curChunkSize) then Panic
        else
          match rs_disks st !! index with
          | Some (Some disk) =>
              let '(disk', (buf', n, err)) :=
                ReadFile disk volume path blockOffset (take (Z.to_nat curChunkSize) slice) in
              let st := ReadState (<[index := Some disk']> (rs_disks st)) (rs_blocks st)
                          (rs_verified st) (pool_write (rs_pool st) i buf') in
              match err with
              | Some _ => mret (drop_disk st index)
              | None =>
                  mret (ReadState (rs_disks st) (<[index := Some buf']> (rs_blocks st))
                          (rs_verified st) (rs_pool st))
              end
          | _ => Panic
          end
    end.

Fixpoint parallelRead (fuel : nat) (volume path : string) (checkSums : list string)
    (algo : string) (blockOffset curChunkSize : Z) (index : nat) (readDisks : list bool)
    (st : read_state) : go read_state :=
  match readDisks with
  | [] => Ret st
  | false :: readDisks' =>
      parallelRead fuel volume path checkSums algo blockOffset curChunkSize (S index) readDisks' st
  | true :: readDisks' =>
      st' ← parallelRead_one fuel volume path checkSums algo blockOffset curChunkSize index st;
      parallelRead fuel volume path checkSums algo blockOffset curChunkSize (S index) readDisks' st'
  end.

Definition decodeData (enBlocks : list (option bytes)) (dataBlocks parityBlocks : Z)
    : list (option bytes) * option error :=
  match rs_New dataBlocks parityBlocks with
  | Some e => (enBlocks, traceError (Some e) [])
  | None =>
      let '(enBlocks', err) := rs_Reconstruct dataBlocks parityBlocks enBlocks in
      match err with
      | Some e => (enBlocks', traceError (Some e) [])
      | None =>
          let '(ok, err') := rs_Verify dataBlocks parityBlocks enBlocks' in
          match err' with
          | Some e => (enBlocks', traceError (Some e) [])
          | None =>
              if (ok : bool) then (enBlocks', None)
              else (enBlocks', traceError (Some (ENew
                "Verification failed after reconstruction, data likely corrupted")) [])
          end
      end
  end.

(** The inner loop of [erasureReadFile]: read disks until enough blocks are
    available.  Each round advances [nextIndex], so [S (length disks)] rounds
    are enough. *)
Fixpoint read_rounds (rounds fuel : nat) (volume path : string) (checkSums : list string)
    (algo : string) (blockOffset curChunkSize : Z) (dataBlocks nextIndex : nat)
    (st : read_state) : go (read_state * option error) :=
  match rounds with
  | O => Diverge
  | S rounds' =>
      let '(readDisks, nextIndex', err) := getReadDisks (rs_disks st) nextIndex dataBlocks in
      match err with
      | Some e => Ret (st, Some e)
      | None =>
          st' ← parallelRead fuel volume path checkSums algo blockOffset curChunkSize 0
                  readDisks st;
          if isSuccessDecodeBlocks (rs_blocks st') dataBlocks then mret (st', None)
          else if (nextIndex' =? length (rs_disks st'))%nat
          then mret (st', traceError (Some (errXLReadQuorum : error)) [])
          else read_rounds rounds' fuel volume path checkSums algo blockOffset curChunkSize
                 dataBlocks nextIndex' st'
      end
  end.

Section Read.
Context {W : Type} `{!IOWriter W}.

(** The block loop of [erasureReadFile]; [blocks] bounds the number of blocks
    left ([endBlock - block + 1]). *)
Fixpoint erasureReadFile_loop (blocks fuel : nat) (writer : W) (volume path : string)
    (offset length_ totalLength blockSize chunkSize : Z) (dataBlocks parityBlocks : nat)
    (checkSums : list string) (algo : string) (startBlock block bytesWritten : Z)
    (curBlockSize curChunkSize : Z) (st : read_state)
    : go (W * list (option D) * (Z * option error)) :=
  match blocks with
  | O => Ret (writer, rs_disks st, (bytesWritten, None))
  | S blocks' =>
      let st := ReadState (rs_disks st) (replicate (length (rs_disks st)) None)
                  (rs_verified st) (pool_Reset (rs_pool st)) in
      let last := (offset + bytesWritten) `quot` blockSize =? totalLength `quot` blockSize in
      let curBlockSize := if last then totalLength `rem` blockSize else curBlockSize in
      curChunkSize ← (if last then getChunkSize curBlockSize dataBlocks else Ret curChunkSize);
      let blockOffset := block * chunkSize in
      '(st, err) ← read_rounds (S (length (rs_disks st))) fuel volume path checkSums algo
          blockOffset curChunkSize dataBlocks 0 st;
      match err with
      | Some e => mret (writer, rs_disks st, (bytesWritten, Some e))
      | None =>
          allData ← isSuccessDataBlocks (rs_blocks st) dataBlocks;
          let '(enBlocks, err) :=
            if (allData : bool) then (rs_blocks st, None)
            else decodeData (rs_blocks st) (Z.of_nat dataBlocks) (Z.of_nat parityBlocks) in
          match err with
          | Some e => mret (writer, rs_disks st, (bytesWritten, Some e))
          | None =>
              let enBlocksOffset := if block =? startBlock then offset `rem` blockSize else 0 in
              let enBlocksLength :=
                if block =? startBlock then curBlockSize - enBlocksOffset else curBlockSize in
              let remaining := length_ - bytesWritten in
              let enBlocksLength :=
                if remaining <? enBlocksLength then remaining else enBlocksLength in
              let '(writer, (n, err)) :=
                writeDataBlocks writer enBlocks dataBlocks enBlocksOffset enBlocksLength in
              match err with
              | Some e => mret (writer, rs_disks st, (bytesWritten, Some e))
              | None =>
                  let bytesWritten := bytesWritten + n in
                  if bytesWritten =? length_
                  then mret (writer, rs_disks st, (bytesWritten, None))
                  else erasureReadFile_loop blocks' fuel writer volume path offset length_
                         totalLength blockSize chunkSize dataBlocks parityBlocks checkSums algo
                         startBlock (block + 1) bytesWritten curBlockSize curChunkSize st
              end
          end
      end
  end.

(** Returns the writer, the disk slice after the call (failed disks set to
    nil), the bytes written and the error. *)
Definition erasureReadFile (fuel : nat) (writer : W) (disks : list (option D))
    (volume path : string) (offset length_ totalLength blockSize : Z)
    (dataBlocks parityBlocks : nat) (checkSums : list string) (algo : string) (pool : BytePool)
    : go (W * list (option D) * (Z * option error)) :=
  if (offset <? 0) || (length_ <? 0)
  then Ret (writer, disks, (0, traceError (Some (errUnexpected : error)) []))
  else if totalLength <? int64_wrap (offset + length_)
  then Ret (writer, disks, (0, traceError (Some (errUnexpected : error)) []))
  else
    chunkSize ← getChunkSize blockSize dataBlocks;
    if blockSize =? 0 then Panic
    else
      let startBlock := offset `quot` blockSize in
      let endBlock := int64_wrap (offset + length_) `quot` blockSize in
      erasureReadFile_loop (Z.to_nat (endBlock - startBlock + 1)) fuel writer volume path
        offset length_ totalLength blockSize chunkSize dataBlocks parityBlocks checkSums algo
        startBlock startBlock 0 blockSize chunkSize
        (ReadState disks [] (replicate (length disks) false) pool).

End Read.

(** ** src/cmd/erasure-healfile.go *)

(** Read a chunk from every latest disk; a failed read leaves a nil block. *)
Fixpoint heal_read (latestDisks : list (option D)) (volume path : string) (offset : Z)
    (chunk : nat) : list (option D) * list (option bytes) :=
  match latestDisks with
  | [] => ([], [])
  | None :: ds =>
      let '(ds', blocks) := heal_read ds volume path offset chunk in (None :: ds', None :: blocks)
  | Some disk :: ds =>
      let '(disk', (buf, n, err)) := ReadFile disk volume path offset (replicate chunk byte0) in
      let '(ds', blocks) := heal_read ds volume path offset chunk in
      (Some disk' :: ds', match err with None => Some buf | Some _ => None end :: blocks)
  end.

(** Append the blocks to the outdated disks; stops at the first error. *)
Fixpoint heal_write (outDatedDisks : list (option D)) (healBucket healPath : string)
    (enBlocks : list (option bytes)) (hashWriters : list bytes)
    : go (list (option D) * list bytes * option error) :=
  match outDatedDisks, hashWriters with
  | [], _ => Ret ([], hashWriters, None)
  | None :: ds, h :: hs =>
      '(ds', hs', err) ← heal_write ds healBucket healPath (tail enBlocks) hs;
      mret (None :: ds', h :: hs', err)
  | Some disk :: ds, h :: hs =>
      match enBlocks with
      | [] => Panic
      | block :: enBlocks' =>
          let block := default [] block in
          let '(disk', err) := AppendFile disk healBucket healPath block in
          match err with
          | Some e => Ret (Some disk' :: ds, h :: hs, traceError (Some e) [])
          | None =>
              '(ds', hs', err') ← heal_write ds healBucket healPath enBlocks' hs;
              mret (Some disk' :: ds', (h ++ block) :: hs', err')
          end
      end
  | _ :: _, [] => Panic
  end.

Fixpoint erasureHealFile_loop (fuel : nat) (latestDisks outDatedDisks : list (option D))
    (volume path healBucket healPath : string) (blockSize : Z) (dataBlocks parityBlocks : nat)
    (hashWriters : list bytes) (offset remainingSize : Z)
    : go (list (option D) * list (option D) * (list bytes * option error)) :=
  match fuel with
  | O => Diverge
  | S fuel' =>
      if remainingSize <=? 0 then Ret (latestDisks, outDatedDisks, (hashWriters, None))
      else
        let curBlockSize := if remainingSize <? blockSize then remainingSize else blockSize in
        curEncBlockSize ← getChunkSize curBlockSize dataBlocks;
        if curEncBlockSize <? 0 then Panic
        else
        let '(latestDisks, enBlocks) :=
          heal_read latestDisks volume path offset (Z.to_nat curEncBlockSize) in
        let '(enBlocks, err) :=
          decodeData enBlocks (Z.of_nat dataBlocks) (Z.of_nat parityBlocks) in
        match err with
        | Some e => Ret (latestDisks, outDatedDisks, (hashWriters, Some e))
        | None =>
            '(outDatedDisks, hashWriters, err) ←
              heal_write outDatedDisks healBucket healPath enBlocks hashWriters;
            match err with
            | Some e => mret (latestDisks, outDatedDisks, (hashWriters, Some e))
            | None =>
                erasureHealFile_loop fuel' latestDisks outDatedDisks volume path healBucket
                  healPath blockSize dataBlocks parityBlocks hashWriters
                  (offset + curEncBlockSize) (remainingSize - curBlockSize)
            end
        end
  end.

(** [bitRotAlgo] is the server's default algorithm: the code hashes with it,
    whatever [algo] is. *)
Definition erasureHealFile (bitRotAlgo : string) (fuel : nat)
    (latestDisks outDatedDisks : list (option D)) (volume path healBucket healPath : string)
    (size blockSize : Z) (dataBlocks parityBlocks : nat) (algo : string)
    : go (list (option D) * list (option D) * (list string * option error)) :=
  '(latestDisks, outDatedDisks, (hs, err)) ←
    erasureHealFile_loop fuel latestDisks outDatedDisks volume path healBucket healPath
      blockSize dataBlocks parityBlocks (newHashWriters (length outDatedDisks)) 0 size;
  match err with
  | Some e => mret (latestDisks, outDatedDisks, ([], Some e))
  | None =>
      mret (latestDisks, outDatedDisks,
        (zip_with (λ (disk : option D) h,
           match disk with None => "" | Some _ => hex_encode (newHash bitRotAlgo h) end)
           outDatedDisks hs, None))
  end.

End Disks.
