(* ===== verification/ErasureSpec.v ===== *)
(** * Layout of erasure-coded files

    What the erasure layer promises, independently of the loops that do it:
    the contracts of the codec and of writers, and [shard_file], the content
    of the file that disk [i] holds for an object. *)

From S2P Require Import Prelude.
From S2P Require Import GoErrors.
From S2P Require Import Storage.
From S2P Require Import Erasure.

(** ** Contracts of the parameters *)

(** The number of non-nil entries of a slice. *)
Fixpoint nsome {A} (l : list (option A)) : nat :=
  match l with
  | [] => 0
  | None :: l' => nsome l'
  | Some _ :: l' => S (nsome l')
  end.

(** What klauspost/reedsolomon documents: [Encode] keeps the data shards and
    computes parity shards of the same size; [Reconstruct] recreates the
    missing shards of an encoded set from any [k] of them and fails with fewer;
    [Verify] accepts an encoded set. *)
Class RSContract `{ReedSolomon} (k m : nat) := {
  rs_k_pos : 0 < k;
  rs_New_ok : rs_New (Z.of_nat k) (Z.of_nat m) = None;
  rs_Encode_ok : ∀ shards sz,
    0 < sz → length shards = k + m → Forall (λ s, length s = sz) shards →
    ∃ full, rs_Encode (Z.of_nat k) (Z.of_nat m) shards = (full, None) ∧
      length full = k + m ∧ Forall (λ s, length s = sz) full ∧ take k full = take k shards;
  rs_Reconstruct_ok : ∀ shards sz full avail,
    0 < sz → length shards = k + m → Forall (λ s, length s = sz) shards →
    rs_Encode (Z.of_nat k) (Z.of_nat m) shards = (full, None) →
    Forall2 (λ a s, a = None ∨ a = Some s) avail full → k ≤ nsome avail →
    rs_Reconstruct (Z.of_nat k) (Z.of_nat m) avail = (Some <$> full, None);
  rs_Reconstruct_few : ∀ avail,
    length avail = k + m → nsome avail < k →
    ∃ out e, rs_Reconstruct (Z.of_nat k) (Z.of_nat m) avail = (out, Some e);
  rs_Verify_ok : ∀ shards sz full,
    0 < sz → length shards = k + m → Forall (λ s, length s = sz) shards →
    rs_Encode (Z.of_nat k) (Z.of_nat m) shards = (full, None) →
    rs_Verify (Z.of_nat k) (Z.of_nat m) (Some <$> full) = (true, None);
}.

(** The [io.Writer] contract: [Write] accepts a prefix, and accepts less than
    everything only with an error. *)
Class IOWriterContract (W : Type) `{!IOWriter W} := {
  written : W → bytes;
  Write_spec : ∀ w b w' n e,
    Write w b = (w', (n, e)) →
    (0 ≤ n ≤ zlen b)%Z ∧ written w' = written w ++ take (Z.to_nat n) b ∧
    ((n < zlen b)%Z → e ≠ None);
  (** The writer takes whatever it is given. *)
  w_accepts : W → Prop;
  Write_accepts : ∀ w b,
    w_accepts w → ∃ w', Write w b = (w', (zlen b, None)) ∧ w_accepts w';
}.

(** ** Layout *)

Definition ceil_div (a b : nat) : nat := (a + b - 1) / b.

Section Layout.
Context `{ReedSolomon} (k m bs : nat).

(** Block [j] of the object. *)
Definition block_at (data : bytes) (j : nat) : bytes := take bs (drop (j * bs) data).

Definition nblocks (data : bytes) : nat := ceil_div (length data) bs.

(** The encoded shards of a block. *)
Definition encoded (block : bytes) : list bytes :=
  (rs_Encode (Z.of_nat k) (Z.of_nat m) (rs_Split (Z.of_nat k) (Z.of_nat m) block).1).1.

Definition shard (data : bytes) (i j : nat) : bytes :=
  default [] (encoded (block_at data j) !! i).

(** The file of disk [i]: its shard of every block, in block order. *)
Definition shard_file (data : bytes) (i : nat) : bytes :=
  concat (shard data i <$> seq 0 (nblocks data)).

(** The checksum of the file of disk [i]. *)
Definition file_checksum `{Hashes} (data : bytes) (algo : string) (i : nat) : string :=
  hex_encode (newHash algo (shard_file data i)).

End Layout.

(** The number of indices below [n] that satisfy [good]. *)
Definition count_good (good : nat → bool) (n : nat) : nat :=
  length (filter (λ i, good i = true) (seq 0 n)).

Lemma count_good_filter {A} (good : nat → bool) (P : A → Prop) `{!∀ x, Decision (P x)} (l : list A) :
  (∀ i a, l !! i = Some a → good i = true → P a) →
  count_good good (length l) ≤ length (filter P l).
Proof.
  intros Hl. unfold count_good.
  cut (∀ s, (∀ i a, l !! i = Some a → good (s + i) = true → P a) →
       length (filter (λ i, good i = true) (seq s (length l))) ≤ length (filter P l)).
  { intros Hc. by apply Hc. }
  clear Hl. induction l as [|a l IH]; intros s Hg; simpl; [done|].
  assert (length (filter (λ i, good i = true) (seq (S s) (length l))) ≤ length (filter P l)) as IH'.
  { apply IH. intros i b Hi Hgi. apply (Hg (S i) b Hi). by rewrite Nat.add_succ_r. }
  rewrite !filter_cons. pose proof (Hg 0 a eq_refl) as H0. rewrite Nat.add_0_r in H0.
  destruct (decide (good s = true)), (decide (P a)); simpl; try lia. naive_solver.
Qed.

(** ** Lemmas: splitting *)

Lemma nsome_filter {A} (l : list (option A)) : nsome l = length (filter is_Some l).
Proof.
  induction l as [|[a|] l IH]; [done|..]; rewrite filter_cons; simpl; [by rewrite IH|done].
Qed.

Lemma nsome_app {A} (l r : list (option A)) : nsome (l ++ r) = nsome l + nsome r.
Proof. induction l as [|[] l IH]; simpl; lia. Qed.

Lemma nsome_le {A} (l : list (option A)) : nsome l ≤ length l.
Proof. induction l as [|[] l IH]; simpl; lia. Qed.

Lemma nsome_replicate_None {A} n : nsome (replicate n (@None A)) = 0.
Proof. by induction n. Qed.

Lemma ceil_div_mul a b : 0 < b → a ≤ b * ceil_div a b.
Proof.
  intros Hb. unfold ceil_div.
  pose proof (Nat.div_mod (a + b - 1) b ltac:(lia)).
  pose proof (Nat.mod_upper_bound (a + b - 1) b ltac:(lia)). lia.
Qed.

Lemma ceil_div_pos a b : 0 < b → 0 < a → 0 < ceil_div a b.
Proof. intros. pose proof (ceil_div_mul a b). nia. Qed.

Lemma ceil_div_upper a b : 0 < b → 0 < a → b * (ceil_div a b - 1) < a.
Proof.
  intros Hb Ha. unfold ceil_div.
  pose proof (Nat.div_mod (a + b - 1) b ltac:(lia)). nia.
Qed.

(** The chunk size of the code is the ceiling division. *)
Lemma getChunkSize_ceil blockSize k :
  0 < k → getChunkSize (Z.of_nat blockSize) k = Ret (Z.of_nat (ceil_div blockSize k)).
Proof.
  intros Hk. unfold getChunkSize, ceil_div. destruct k as [|k]; [lia|]. simpl Nat.eqb. cbv iota.
  f_equal. rewrite Z.quot_div_nonneg by lia. rewrite Nat2Z.inj_div. f_equal. lia.
Qed.

Lemma split_shards_length per n data : length (split_shards per n data) = n.
Proof. revert data. induction n; intros; simpl; auto. Qed.

Lemma split_shards_sizes per n data :
  n * per ≤ length data → Forall (λ s, length s = per) (split_shards per n data).
Proof.
  revert data. induction n as [|n IH]; intros data Hl; simpl; constructor.
  - rewrite length_take. lia.
  - apply IH. rewrite length_drop. lia.
Qed.

Lemma split_shards_concat per n data :
  concat (split_shards per n data) = take (n * per) data.
Proof.
  revert data. induction n as [|n IH]; intros data; simpl; [done|].
  rewrite IH. rewrite <- (take_drop per data) at 3.
  destruct (decide (per ≤ length data)).
  - rewrite take_app. rewrite length_take, Nat.min_l by lia.
    rewrite (take_ge (take per data)) by (rewrite length_take; lia).
    by replace (per + n * per - per) with (n * per) by lia.
  - rewrite (drop_ge data) by lia. rewrite take_nil, !app_nil_r.
    rewrite take_take. f_equal. lia.
Qed.

Lemma split_shards_take per n r data :
  r ≤ n → take r (split_shards per n data) = split_shards per r data.
Proof.
  revert n data. induction r as [|r IH]; intros n data Hr; simpl; [done|].
  destruct n as [|n]; [lia|]. simpl. rewrite IH by lia. done.
Qed.

Lemma concat_sizes per (l : list bytes) :
  Forall (λ s, length s = per) l → length (concat l) = length l * per.
Proof. induction 1; simpl; [done|]. rewrite length_app. lia. Qed.

Lemma concat_slice per (l : list bytes) j s :
  Forall (λ s, length s = per) (take j l) → l !! j = Some s →
  take (length s) (drop (j * per) (concat l)) = s.
Proof.
  revert j. induction l as [|x l IH]; intros [|j] Hall Hj; simplify_eq/=.
  - rewrite drop_0. by rewrite take_app_length.
  - apply Forall_cons in Hall as [Hx Hall].
    rewrite drop_app. rewrite drop_ge by lia. simpl.
    replace (per + j * per - length x) with (j * per) by lia. auto.
Qed.

(** ** Lemmas: blocks of an object *)

Section Blocks.
Context (bs : nat) (bs_pos : 0 < bs).

Lemma block_at_length data j : length (block_at bs data j) = Nat.min bs (length data - j * bs).
Proof. unfold block_at. by rewrite length_take, length_drop. Qed.

Lemma block_at_pos data j : j < nblocks bs data → 0 < length (block_at bs data j).
Proof.
  intros Hj. unfold nblocks in Hj. rewrite block_at_length.
  destruct (decide (length data = 0)) as [E|].
  { rewrite E in Hj. unfold ceil_div in Hj. rewrite Nat.div_small in Hj; lia. }
  pose proof (ceil_div_upper (length data) bs). nia.
Qed.

Lemma block_at_full data j : S j < nblocks bs data → length (block_at bs data j) = bs.
Proof.
  intros Hj. unfold nblocks in Hj. rewrite block_at_length.
  destruct (decide (length data = 0)) as [E|].
  { rewrite E in Hj. unfold ceil_div in Hj. rewrite Nat.div_small in Hj; lia. }
  pose proof (ceil_div_upper (length data) bs). nia.
Qed.

Lemma nblocks_lt data j : j < nblocks bs data ↔ j * bs < length data.
Proof.
  unfold nblocks. pose proof (ceil_div_mul (length data) bs ltac:(done)).
  destruct (decide (length data = 0)) as [E|].
  - rewrite E. unfold ceil_div. rewrite Nat.div_small; lia.
  - pose proof (ceil_div_upper (length data) bs). split; nia.
Qed.

End Blocks.

(** ** Lemmas: the encoded layout *)

Section Encoded.
Context `{RS : ReedSolomon} (k m : nat) `{!RSContract k m}.

Let k_pos : 0 < k := rs_k_pos.

Lemma rs_Split_ok block :
  0 < length block →
  ∃ shards pad, rs_Split (Z.of_nat k) (Z.of_nat m) block = (shards, None) ∧
    length shards = k + m ∧
    Forall (λ s, length s = ceil_div (length block) k) shards ∧
    concat (take k shards) = block ++ pad.
Proof.
  intros Hb. unfold rs_Split.
  destruct (length block =? 0) eqn:E; [apply Nat.eqb_eq in E; lia|].
  assert (Hper : Z.to_nat ((zlen block + Z.of_nat k - 1) `quot` Z.of_nat k) =
                 ceil_div (length block) k).
  { unfold zlen, ceil_div. rewrite Z.quot_div_nonneg by lia.
    rewrite <- (Nat2Z.id ((length block + k - 1) / k)). f_equal.
    rewrite Nat2Z.inj_div. f_equal. lia. }
  rewrite Hper. set (per := ceil_div (length block) k).
  replace (Z.to_nat (Z.of_nat k + Z.of_nat m)) with (k + m) by lia.
  pose proof (ceil_div_mul (length block) k k_pos) as Hle. fold per in Hle.
  set (zs := replicate ((k + m) * per - length block) byte0).
  eexists _, (take (k * per - length block) zs).
  assert (Hlen : length (block ++ zs) = (k + m) * per).
  { unfold zs. rewrite length_app, length_replicate. nia. }
  split_and!; [done|apply split_shards_length| |].
  - apply split_shards_sizes. lia.
  - rewrite split_shards_take by lia. rewrite split_shards_concat.
    rewrite take_app, take_ge by lia. done.
Qed.

Lemma encoded_ok block :
  0 < length block →
  encodeData block (Z.of_nat k) (Z.of_nat m) = (encoded k m block, None) ∧
  length (encoded k m block) = k + m ∧
  Forall (λ s, length s = ceil_div (length block) k) (encoded k m block) ∧
  (∃ pad, concat (take k (encoded k m block)) = block ++ pad).
Proof.
  intros Hb. destruct (rs_Split_ok block Hb) as (shards & pad & Hs & Hlen & Hsz & Hc).
  destruct (rs_Encode_ok shards (ceil_div (length block) k)) as (full & He & Hfl & Hfs & Ht);
    [by apply ceil_div_pos|done..|].
  assert (Henc : encoded k m block = full) by (unfold encoded; by rewrite Hs; simpl; rewrite He).
  unfold encodeData. rewrite rs_New_ok, Hs, He, Henc. split_and!; [done..|].
  exists pad. by rewrite Ht.
Qed.

Lemma decodeData_few avail :
  length avail = k + m → nsome avail < k →
  ∃ out e, decodeData avail (Z.of_nat k) (Z.of_nat m) = (out, Some e).
Proof.
  intros Hl Hn. unfold decodeData. rewrite rs_New_ok.
  destruct (rs_Reconstruct_few avail Hl Hn) as (out & e & ->). by eexists _, _.
Qed.

Lemma encoded_reconstruct block avail :
  0 < length block →
  Forall2 (λ a s, a = None ∨ a = Some s) avail (encoded k m block) → k ≤ nsome avail →
  decodeData avail (Z.of_nat k) (Z.of_nat m) = (Some <$> encoded k m block, None).
Proof.
  intros Hb Hav Hn. destruct (rs_Split_ok block Hb) as (shards & pad & Hs & Hlen & Hsz & Hc).
  pose proof (ceil_div_pos (length block) k k_pos Hb).
  assert (He : rs_Encode (Z.of_nat k) (Z.of_nat m) shards = (encoded k m block, None)).
  { destruct (rs_Encode_ok shards (ceil_div (length block) k)) as (full & He & _); [done..|].
    unfold encoded. rewrite Hs. simpl. by rewrite He. }
  unfold decodeData. rewrite rs_New_ok.
  by rewrite (rs_Reconstruct_ok shards _ _ _ H Hlen Hsz He Hav Hn),
    (rs_Verify_ok shards _ _ H Hlen Hsz He).
Qed.

Context (bs : nat) (bs_pos : 0 < bs).

Lemma shard_lookup data i j :
  j < nblocks bs data → i < k + m →
  encoded k m (block_at bs data j) !! i = Some (shard k m bs data i j) ∧
  length (shard k m bs data i j) = ceil_div (length (block_at bs data j)) k.
Proof.
  intros Hj Hi. destruct (encoded_ok (block_at bs data j)) as (_ & Hl & Hsz & _);
    [by apply block_at_pos|].
  unfold shard. destruct (lookup_lt_is_Some_2 (encoded k m (block_at bs data j)) i) as [s Hs];
    [lia|]. rewrite Hs. split; [done|]. simpl.
  rewrite Forall_forall in Hsz. apply Hsz. by eapply list_elem_of_lookup_2.
Qed.

(** Reading the chunk of block [j] at offset [j * chunkSize] of the file of
    disk [i] gives the shard of that block. *)
Lemma shard_file_slice data i j :
  j < nblocks bs data → i < k + m →
  take (ceil_div (length (block_at bs data j)) k)
    (drop (j * ceil_div bs k) (shard_file k m bs data i)) = shard k m bs data i j ∧
  j * ceil_div bs k + ceil_div (length (block_at bs data j)) k ≤
    length (shard_file k m bs data i).
Proof.
  intros Hj Hi. destruct (shard_lookup data i j Hj Hi) as [_ Hlen].
  assert (Hjth : (shard k m bs data i <$> seq 0 (nblocks bs data)) !! j =
                 Some (shard k m bs data i j)).
  { rewrite list_lookup_fmap, lookup_seq_lt by done. done. }
  assert (Hfull : Forall (λ s, length s = ceil_div bs k)
                    (take j (shard k m bs data i <$> seq 0 (nblocks bs data)))).
  { apply Forall_forall. intros s [l Hl]%list_elem_of_lookup.
    apply lookup_take_Some in Hl as [Hl Hlj].
    rewrite list_lookup_fmap, lookup_seq_lt in Hl by lia. simpl in Hl. simplify_eq.
    destruct (shard_lookup data i l ltac:(lia) Hi) as [_ ->].
    by rewrite block_at_full by lia. }
  pose proof (concat_slice _ _ j _ Hfull Hjth) as Hslice. rewrite Hlen in Hslice.
  split; [done|]. pose proof (f_equal length Hslice) as Hl.
  rewrite length_take, length_drop, Hlen in Hl. fold (shard_file k m bs data i) in Hl.
  destruct (shard_lookup data i j Hj Hi) as [_ Hpos].
  pose proof (ceil_div_pos (length (block_at bs data j)) k k_pos (block_at_pos bs bs_pos data j Hj)).
  lia.
Qed.

(** The length of the file of disk [i]: the full blocks and the rest. *)
Lemma shard_file_length data i : i < k + m →
  length (shard_file k m bs data i) =
    length data / bs * ceil_div bs k + ceil_div (length data mod bs) k.
Proof.
  intros Hi. pose proof (Nat.div_mod (length data) bs ltac:(lia)) as Hdm.
  pose proof (Nat.mod_upper_bound (length data) bs ltac:(lia)) as Hr.
  set (q := length data / bs) in *. set (r := length data mod bs) in *.
  assert (Hfull : length (concat (shard k m bs data i <$> seq 0 q)) = q * ceil_div bs k).
  { rewrite (concat_sizes (ceil_div bs k)); [by rewrite length_fmap, length_seq|].
    apply Forall_fmap, Forall_forall. intros j Hj%elem_of_seq. simpl.
    destruct (shard_lookup data i j) as [_ ->]; [apply nblocks_lt; [done|nia]|done|].
    rewrite block_at_length, Nat.min_l by nia. done. }
  unfold shard_file. destruct (decide (r = 0)) as [E|E].
  - assert (nblocks bs data = q) as ->.
    { pose proof (nblocks_lt bs bs_pos data q). pose proof (nblocks_lt bs bs_pos data (q - 1)).
      destruct (decide (q = 0)); nia. }
    rewrite Hfull, E. unfold ceil_div at 3. rewrite Nat.div_small; lia.
  - assert (nblocks bs data = S q) as ->.
    { pose proof (nblocks_lt bs bs_pos data q). pose proof (nblocks_lt bs bs_pos data (S q)). nia. }
    rewrite seq_S, fmap_app, concat_app, length_app, Hfull. simpl. rewrite app_nil_r. f_equal.
    destruct (shard_lookup data i q) as [_ ->]; [apply nblocks_lt; [done|nia]|done|].
    rewrite block_at_length, Nat.min_r by nia. f_equal. nia.
Qed.

Lemma shard_file_short data i : i < k + m → length (shard_file k m bs data i) ≤ length data.
Proof.
  intros Hi. rewrite shard_file_length by done.
  assert (Hc : ∀ a, ceil_div a k ≤ a).
  { intros a. unfold ceil_div. destruct (decide (a = 0)) as [->|]; [rewrite Nat.div_small; lia|].
    apply Nat.lt_succ_r, Nat.Div0.div_lt_upper_bound. nia. }
  pose proof (Hc bs). pose proof (Hc (length data mod bs)).
  pose proof (Nat.div_mod (length data) bs ltac:(lia)). nia.
Qed.

Lemma shard_file_read data i j buf :
  j < nblocks bs data → i < k + m →
  length buf = ceil_div (length (block_at bs data j)) k →
  readFull (shard_file k m bs data i) (Z.of_nat (j * ceil_div bs k)) buf =
    (shard k m bs data i j, zlen buf, None).
Proof.
  intros Hj Hi Hbuf. destruct (shard_file_slice data i j Hj Hi) as [Hslice Hle].
  rewrite readFull_full; unfold zlen; [|lia..]. by rewrite Nat2Z.id, Hbuf, Hslice.
Qed.

End Encoded.

(** ** Lemmas: hashing a file *)

Section HashFile.
Context {D : Type} `{!StorageAPI D} `{!StorageContract D}.

(** [copyBuffer] reads a whole file: on success what it passes on is the
    content of the file, no file changes, and a disk that serves the file
    succeeds and keeps serving it.  Fuel above the file size is enough. *)
Lemma copyBuffer_loop_spec v p : ∀ fuel writer d buf off,
  0 < length buf → (0 ≤ off)%Z →
  (∀ c, file_at d v p = Some c →
     (off ≤ zlen c)%Z ∧ writer = take (Z.to_nat off) c ∧ (zlen c - off < Z.of_nat fuel)%Z) →
  0 < fuel →
  ∃ d' w e, copyBuffer_loop fuel writer d v p buf off = Ret (d', (w, e)) ∧
    (∀ v' p', file_at d' v' p' = file_at d v' p') ∧
    (e = None → file_at d v p = Some w) ∧
    (∀ c, serves d v p → file_at d v p = Some c → e = None ∧ serves d' v p).
Proof.
  induction fuel as [|fuel IH]; intros writer d buf off Hbuf Hoff Hc Hfuel; [lia|].
  simpl. destruct (ReadFile d v p off buf) as [d' [[buf' n] e]] eqn:Hr.
  assert (Hf : ∀ v' p', file_at d' v' p' = file_at d v' p')
    by (intros; by eapply ReadFile_frame).
  assert (Hsv : ∀ c, serves d v p → file_at d v p = Some c →
            (buf', n, e) = readFull c off buf ∧ serves d' v p).
  { intros c Hs Hfc. destruct (ReadFile_serves d v p off buf c Hoff Hs Hfc) as (d'' & Hr' & Hs').
    rewrite Hr in Hr'. by simplify_eq. }
  destruct e as [e|].
  - destruct (is_eof (Some e)) eqn:Heof.
    + destruct (ReadFile_sound d v p off buf d' buf' n (Some e) Hoff Hr) as (c & Hfc & Hfull);
        [by right|].
      destruct (Hc c Hfc) as (Hoc & Hw & _).
      eexists _, _, _. split_and!; [done|done| |].
      * intros _. rewrite Hfc. f_equal. unfold readFull in Hfull. injection Hfull as -> -> He.
        set (avail := take (length buf) (drop (Z.to_nat off) c)) in *.
        assert (Hav : avail = drop (Z.to_nat off) c).
        { unfold avail. apply take_ge. destruct (decide (length buf ≤ length (drop (Z.to_nat off) c)));
            [|lia]. unfold avail in He. rewrite length_take, Nat.min_l, Nat.eqb_refl in He by done.
          done. }
        rewrite Hw. destruct (0 <? zlen avail)%Z eqn:E.
        -- unfold zlen. rewrite Nat2Z.id, take_app_length, Hav, take_drop. done.
        -- bool_prop. unfold zlen in E. assert (length avail = 0) as El by lia.
           rewrite Hav in El. rewrite length_drop in El. symmetry. apply take_ge.
           unfold zlen in Hoc. lia.
      * intros c' Hs Hfc'. split; [done|]. by apply (Hsv c').
    + eexists _, _, _. split_and!; [done|done|done|].
      intros c Hs Hfc. destruct (Hsv c Hs Hfc) as [Hfull _].
      symmetry in Hfull. apply readFull_error_eof in Hfull. congruence.
  - destruct (ReadFile_sound d v p off buf d' buf' n None Hoff Hr) as (c & Hfc & Hfull);
      [by left|].
    symmetry in Hfull. destruct (readFull_None _ _ _ _ _ Hfull) as (Hb' & Hn & Hlen).
    destruct (Hc c Hfc) as (Hoc & Hw & Hfu). rewrite length_take, length_drop in Hlen.
    unfold zlen in Hoc, Hfu, Hn.
    destruct (0 <? n)%Z eqn:E; [|bool_prop; lia].
    destruct (IH (writer ++ take (Z.to_nat n) buf') d' buf' (off + n)%Z)
      as (d2 & w & e & Hl & Hf2 & He & Hs2).
    + rewrite Hb', length_take, length_drop. lia.
    + lia.
    + intros c' Hfc'. rewrite Hf, Hfc in Hfc'. simplify_eq. unfold zlen.
      split_and!; [lia| |lia]. rewrite Nat2Z.id, Z2Nat.inj_add, Nat2Z.id by lia.
      rewrite <- take_take_drop. f_equal. rewrite take_ge; [done|]. rewrite length_take. lia.
    + lia.
    + exists d2, w, e. split_and!; [done| | |].
      * intros. by rewrite Hf2.
      * intros ->. rewrite <- Hf. auto.
      * intros c' Hs Hfc'. apply (Hs2 c'); [|by rewrite Hf]. by apply (Hsv c').
Qed.

Lemma hashSum_spec v p fuel d hash :
  (∀ c, file_at d v p = Some c → length c < fuel) → 0 < fuel →
  ∃ d' h e, hashSum fuel d v p hash = Ret (d', (h, e)) ∧
    (∀ v' p', file_at d' v' p' = file_at d v' p') ∧
    (e = None → ∃ c, file_at d v p = Some c ∧ h = hash c) ∧
    (∀ c, serves d v p → file_at d v p = Some c → e = None ∧ serves d' v p).
Proof.
  intros Hc Hfuel. unfold hashSum, copyBuffer. rewrite length_replicate.
  assert (Hrs : 0 < readSizeV1) by (unfold readSizeV1; lia).
  destruct (readSizeV1 =? 0) eqn:E; [apply Nat.eqb_eq in E; lia|].
  destruct (copyBuffer_loop_spec v p fuel [] d (replicate readSizeV1 byte0) 0%Z)
    as (d' & w & e & -> & Hf & He & Hs); [by rewrite length_replicate|lia| |done|].
  { intros c Hfc. specialize (Hc c Hfc). unfold zlen. split_and!; [lia|done|lia]. }
  simpl. destruct e as [e|].
  - eexists _, _, _. split_and!; [done|done|done|done].
  - eexists _, _, _. split_and!; [done|done| |done]. intros _. exists w. auto.
Qed.

(** A property of the disk that reads keep is kept by hashing a file. *)
Context (P : D → Prop).
Context (P_reads : ∀ d v p off buf d' r, P d → ReadFile d v p off buf = (d', r) → P d').

Lemma copyBuffer_loop_keeps v p fuel : ∀ writer d buf off d' r,
  P d → copyBuffer_loop fuel writer d v p buf off = Ret (d', r) → P d'.
Proof.
  induction fuel as [|fuel IH]; intros writer d buf off d' r HP; simpl; [done|].
  destruct (ReadFile d v p off buf) as [d1 [[buf' n] e]] eqn:Hr.
  apply P_reads in Hr; [|done]. destruct e as [e|]; [destruct (is_eof _); by intros [= <- _]|].
  by apply IH.
Qed.

Lemma copyBuffer_keeps v p fuel writer d buf d' r :
  P d → copyBuffer fuel writer d v p buf = Ret (d', r) → P d'.
Proof.
  intros HP. unfold copyBuffer. destruct (length buf =? 0)%nat; [by intros [= <- _]|].
  by apply copyBuffer_loop_keeps.
Qed.

Lemma hashSum_keeps v p fuel d hash d' r : P d → hashSum fuel d v p hash = Ret (d', r) → P d'.
Proof.
  intros HP. unfold hashSum. pose proof (copyBuffer_keeps v p fuel [] d (replicate readSizeV1 byte0)) as Hc.
  destruct (copyBuffer fuel [] d v p (replicate readSizeV1 byte0)) as [[d1 [w [e|]]]| |];
    cbn [mbind go_bind mret go_ret]; try done; intros [= <- _]; by eapply Hc.
Qed.

Lemma isValidBlock_keeps `{Hashes} v p fuel d ck algo d' b :
  P d → isValidBlock fuel (Some d) v p ck algo = Ret (Some d', b) → P d'.
Proof.
  intros HP. unfold isValidBlock. case_bool_decide; [by intros [= <- _]|].
  destruct (hashSum _ _ _ _ _) as [[d1 [h [e|]]]| |] eqn:E; simpl; try done;
    intros [= <- _]; by eapply hashSum_keeps.
Qed.

End HashFile.
