(* ===== verification/XorCode.v ===== *)
(** * A codec, hashes and a writer

    Concrete instances of the parameters of the erasure layer: a code with
    two data shards and one parity shard (their exclusive or), hash functions
    without collisions, and a writer that collects its input.  They show that
    the contracts can be met and let the model run. *)

From S2P Require Import Prelude.
From S2P Require Import GoErrors.
From S2P Require Import Erasure.
From S2P Require Import ErasureSpec.

Definition byte_xor (a b : byte) : byte :=
  let '(Ascii a0 a1 a2 a3 a4 a5 a6 a7) := a in
  let '(Ascii b0 b1 b2 b3 b4 b5 b6 b7) := b in
  Ascii (xorb a0 b0) (xorb a1 b1) (xorb a2 b2) (xorb a3 b3)
        (xorb a4 b4) (xorb a5 b5) (xorb a6 b6) (xorb a7 b7).

Definition bytes_xor (a b : bytes) : bytes := zip_with byte_xor a b.

#[export] Instance xor_code : ReedSolomon := {|
  rs_New k m := if bool_decide (k = 2%Z ∧ m = 1%Z) then None else Some (ENew "unsupported");
  rs_Encode _ _ shards :=
    match shards with
    | [a; b; _] => ([a; b; bytes_xor a b], None)
    | _ => (shards, Some (rs_ErrTooFewShards : error))
    end;
  rs_Reconstruct _ _ shards :=
    match shards with
    | [Some a; Some b; _] => ([Some a; Some b; Some (bytes_xor a b)], None)
    | [Some a; None; Some c] => ([Some a; Some (bytes_xor a c); Some c], None)
    | [None; Some b; Some c] => ([Some (bytes_xor b c); Some b; Some c], None)
    | _ => (shards, Some (rs_ErrTooFewShards : error))
    end;
  rs_Verify _ _ shards :=
    match shards with
    | [Some a; Some b; Some c] => (bool_decide (c = bytes_xor a b), None)
    | _ => (false, Some (rs_ErrTooFewShards : error))
    end;
|}.

Lemma byte_xor_cancel_l a b : byte_xor a (byte_xor a b) = b.
Proof.
  destruct a, b. simpl. f_equal; by rewrite <- xorb_assoc, xorb_nilpotent, xorb_false_l.
Qed.

Lemma byte_xor_comm a b : byte_xor a b = byte_xor b a.
Proof. destruct a, b. simpl. f_equal; apply xorb_comm. Qed.

Lemma bytes_xor_cancel_l a b : length a = length b → bytes_xor a (bytes_xor a b) = b.
Proof.
  revert b. induction a as [|x a IH]; intros [|y b] Hl; simplify_eq/=; [done|].
  unfold bytes_xor in *. simpl. by rewrite byte_xor_cancel_l, IH.
Qed.

Lemma bytes_xor_comm a b : bytes_xor a b = bytes_xor b a.
Proof.
  revert b. induction a as [|x a IH]; intros [|y b]; try done.
  unfold bytes_xor in *. simpl. by rewrite byte_xor_comm, IH.
Qed.

Lemma three_shards (shards : list bytes) sz :
  length shards = 2 + 1 → Forall (λ s, length s = sz) shards →
  ∃ a b c, shards = [a; b; c] ∧ length a = sz ∧ length b = sz.
Proof.
  destruct shards as [|a [|b [|c [|]]]]; try done. intros _ Hf.
  exists a, b, c. by apply Forall_cons in Hf as [Ha [Hb _]%Forall_cons].
Qed.

#[export] Instance xor_contract : RSContract 2 1.
Proof.
  split; [lia|done|..].
  - intros shards sz Hsz Hl Hf. destruct (three_shards _ _ Hl Hf) as (a & b & c & -> & Ha & Hb).
    eexists. split; [done|]. split_and!; [done| |done].
    repeat constructor; [done|done|]. unfold bytes_xor. rewrite length_zip_with. lia.
  - intros shards sz full avail Hsz Hl Hf. destruct (three_shards _ _ Hl Hf) as (a & b & c & -> & Ha & Hb).
    intros [= <-] Hav Hn.
    apply Forall2_cons_inv_r in Hav as (x & ? & Hx & Hav & ->).
    apply Forall2_cons_inv_r in Hav as (y & ? & Hy & Hav & ->).
    apply Forall2_cons_inv_r in Hav as (z & ? & Hz & Hav & ->).
    apply Forall2_nil_inv_r in Hav as ->.
    destruct Hx as [-> | ->], Hy as [-> | ->], Hz as [-> | ->]; simpl in *; try lia; try done.
    + by rewrite (bytes_xor_comm a b), bytes_xor_cancel_l by congruence.
    + by rewrite bytes_xor_cancel_l by congruence.
  - intros [|x [|y [|z [|]]]] Hl Hn; try done.
    destruct x, y, z; simpl in *; try lia; by eexists _, _.
  - intros shards sz full Hsz Hl Hf. destruct (three_shards _ _ Hl Hf) as (a & b & c & -> & Ha & Hb).
    intros [= <-]. simpl. by rewrite bool_decide_true.
Qed.

(** Hashes that keep their input: no two inputs collide. *)
#[export] Instance id_hashes : Hashes := {| sha256_Sum b := byte0 :: b; blake2b_Sum b := b ++ [byte0] |}.

Lemma hex_encode_inj a b : hex_encode a = hex_encode b → a = b.
Proof.
  revert b. induction a as [|x a IH]; intros [|y b] Hab; try done.
  assert (Hd : ∀ u w : N, (u < 16)%N → (w < 16)%N → hex_digit u = hex_digit w → u = w).
  { intros u w Hu Hw Heq. unfold hex_digit in Heq. apply (f_equal N_of_ascii) in Heq.
    destruct (u <? 10)%N eqn:Eu, (w <? 10)%N eqn:Ew;
      rewrite ?N.ltb_lt, ?N.ltb_ge in *; rewrite !N_ascii_embedding in Heq by lia; lia. }
  assert (Hlt : ∀ c, (N_of_ascii c < 256)%N)
    by (intros c; destruct c as [[] [] [] [] [] [] [] []]; reflexivity).
  cbn [hex_encode] in Hab. injection Hab as H1 H2 H3.
  pose proof (Hlt x). pose proof (Hlt y).
  apply Hd in H1; [|apply N.Div0.div_lt_upper_bound; lia..].
  apply Hd in H2; [|apply N.mod_lt; lia..].
  rewrite (IH b H3). f_equal. rewrite <- (ascii_N_embedding x), <- (ascii_N_embedding y). f_equal.
  pose proof (N.Div0.div_mod (N_of_ascii x) 16). pose proof (N.Div0.div_mod (N_of_ascii y) 16).
  congruence.
Qed.

(** A writer that collects what it is given. *)
#[export] Instance bytes_writer : IOWriter bytes := {| Write w b := (w ++ b, (zlen b, None)) |}.

#[export] Program Instance bytes_writer_contract : IOWriterContract bytes :=
  {| written w := w; w_accepts _ := True |}.
Next Obligation.
  intros w b w' n e [= <- <- <-]. split_and!; [apply zlen_nonneg|done| |lia].
  unfold zlen. rewrite Nat2Z.id, take_ge by done. done.
Qed.
Next Obligation. intros w b _. by eexists. Qed.
