(* ===== verification/ErasureRead.v ===== *)
(** * Reading erasure-coded files

    [erasureReadFile] returns the requested range of the object or an error,
    whatever the disks hold and however they fail, and it returns the range
    whenever as many disks as there are data blocks hold an intact file. *)

From S2P Require Import Prelude.
From S2P Require Import GoErrors.
From S2P Require Import XLMeta.
From S2P Require Import Storage.
From S2P Require Import Bpool.
From S2P Require Import Erasure.
From S2P Require Import ErasureSpec.
From S2P Require Import XorCode.

(** ** Writing the data blocks *)

(** The bytes of a list of blocks. *)
Definition blocks_data (blocks : list (option bytes)) : bytes := concat (default [] <$> blocks).

Lemma blocks_data_cons b blocks :
  blocks_data (b :: blocks) = default [] b ++ blocks_data blocks.
Proof. done. Qed.

Section WriteBlocks.
Context {W : Type} `{!IOWriter W} `{!IOWriterContract W}.

Lemma io_Copy_spec (w : W) (b : bytes) :
  ∃ w' n e, io_Copy w b = (w', (n, e)) ∧ (0 ≤ n ≤ zlen b)%Z ∧
    written w' = written w ++ take (Z.to_nat n) b ∧ (e = None → n = zlen b) ∧
    (w_accepts w → e = None ∧ w_accepts w').
Proof.
  unfold io_Copy. destruct (length b =? 0) eqn:E.
  - apply Nat.eqb_eq, length_zero_iff_nil in E as ->.
    exists w, 0%Z, None. rewrite app_nil_r. unfold zlen. simpl. split_and!; auto; lia.
  - destruct (Write w b) as [w' [n e]] eqn:Hw.
    destruct (Write_spec _ _ _ _ _ Hw) as (Hn & Hwr & He).
    eexists _, _, _. split; [done|]. split_and!; [lia|lia|done| |].
    + destruct e; [done|]. by destruct (n =? zlen b)%Z eqn:E'; bool_prop.
    + intros Ha. destruct (Write_accepts w b Ha) as (w2 & Hw2 & Ha2).
      rewrite Hw in Hw2. simplify_eq. by rewrite Z.eqb_refl.
Qed.

Lemma writeDataBlocks_loop_spec : ∀ blocks (w : W) off wr tot,
  (0 ≤ off)%Z → (0 ≤ wr)%Z → (off + wr ≤ zlen (blocks_data blocks))%Z →
  ∃ w' n e q, writeDataBlocks_loop w blocks off wr tot = (w', (n, e)) ∧
    (0 ≤ q ≤ wr)%Z ∧
    written w' = written w ++ take (Z.to_nat q) (drop (Z.to_nat off) (blocks_data blocks)) ∧
    (e = None → q = wr ∧ n = (tot + wr)%Z) ∧
    (w_accepts w → e = None ∧ w_accepts w').
Proof.
  induction blocks as [|ob blocks IH]; intros w off wr tot Hoff Hwr Hle; simpl.
  - exists w, tot, None, 0%Z. simpl. rewrite app_nil_r. unfold zlen in Hle. simpl in Hle.
    split_and!; auto; try lia.
  - set (block := default [] ob) in *. rewrite blocks_data_cons in *. fold block in Hle |- *.
    set (rest := blocks_data blocks) in *. rewrite zlen_app in Hle.
    destruct (zlen block <=? off)%Z eqn:E; bool_prop.
    + destruct (IH w (off - zlen block)%Z wr tot) as (w' & n & e & q & -> & Hq & Hwr' & Hr);
        [lia|lia|lia|].
      exists w', n, e, q. split_and!; [done|lia|lia| |apply Hr|apply Hr].
      rewrite Hwr', drop_app. rewrite (drop_ge block) by (unfold zlen in E; lia). simpl.
      do 3 f_equal. unfold zlen. lia.
    + assert (Hdl : zlen (drop (Z.to_nat off) block) = (zlen block - off)%Z)
        by (unfold zlen in *; rewrite length_drop; lia).
      assert (Hdt : drop (Z.to_nat off) (block ++ rest) = drop (Z.to_nat off) block ++ rest)
        by (apply drop_app_le; unfold zlen in E; lia).
      rewrite Hdl. destruct (wr <? zlen block - off)%Z eqn:E2; bool_prop.
      * set (b := take (Z.to_nat wr) (drop (Z.to_nat off) block)).
        assert (Hbl : zlen b = wr) by (unfold b, zlen in *; rewrite length_take; lia).
        destruct (io_Copy_spec w b) as (w' & n & e & Hc & Hn & Hw' & He & Ha). rewrite Hc.
        assert (Htk : take (Z.to_nat n) (drop (Z.to_nat off) (block ++ rest)) = take (Z.to_nat n) b).
        { rewrite Hdt. rewrite take_app_le by (unfold zlen in *; lia).
          unfold b. rewrite take_take. f_equal. lia. }
        destruct e as [e|].
        -- exists w', 0%Z, (traceError (Some e) []), n.
           split_and!; [done|lia|lia|by rewrite Htk|done|]. intros H. by destruct (Ha H).
        -- exists w', (tot + n)%Z, None, n. split_and!; [done|lia|lia|by rewrite Htk| |auto].
           intros _. specialize (He eq_refl). lia.
      * destruct (io_Copy_spec w (drop (Z.to_nat off) block)) as (w' & n & e & Hc & Hn & Hw' & He & Ha).
        rewrite Hc. destruct e as [e|].
        -- exists w', 0%Z, (traceError (Some e) []), n.
           split_and!; [done|lia|lia| |done|intros H; by destruct (Ha H)].
           rewrite Hdt, take_app_le by (unfold zlen in *; lia). done.
        -- specialize (He eq_refl). rewrite Hdl in He.
           destruct (IH w' 0%Z (wr - n)%Z (tot + n)%Z) as (w2 & n2 & e2 & q & -> & Hq & Hw2 & Hr2 & Ha2);
             [lia|lia|lia|].
           exists w2, n2, e2, (n + q)%Z. split_and!; [done|lia|lia| | |].
           ++ rewrite Hw2, Hw', Hdt, <- app_assoc. f_equal. simpl. rewrite drop_0.
              rewrite take_app. f_equal.
              ** rewrite !take_ge; [done|unfold zlen in *; lia..].
              ** f_equal. unfold zlen in *. lia.
           ++ intros ->. destruct (Hr2 eq_refl). lia.
           ++ intros H. apply Ha2. by apply Ha.
Qed.

Lemma getDataBlockLen_concat blocks n :
  getDataBlockLen blocks n = zlen (blocks_data (take n blocks)).
Proof.
  unfold getDataBlockLen. generalize (take n blocks) as l. intros l.
  assert (∀ a, fold_left (λ size block, (size + zlen (default [] block))%Z) l a =
               (a + zlen (blocks_data l))%Z) as Hg; [|by rewrite Hg].
  induction l as [|b l IH]; intros a; simpl; [unfold zlen; simpl; lia|].
  rewrite IH, blocks_data_cons, zlen_app. lia.
Qed.

Lemma writeDataBlocks_spec (w : W) blocks k off len (total : bytes) :
  k ≤ length blocks → blocks_data (take k blocks) = total →
  (0 ≤ off)%Z → (0 ≤ len)%Z → (off + len ≤ zlen total)%Z →
  ∃ w' n e q, writeDataBlocks w blocks k off len = (w', (n, e)) ∧
    (0 ≤ q ≤ len)%Z ∧
    written w' = written w ++ take (Z.to_nat q) (drop (Z.to_nat off) total) ∧
    (e = None → q = len ∧ n = len) ∧ (w_accepts w → e = None ∧ w_accepts w').
Proof.
  intros Hk <- Hoff Hlen Hle. unfold writeDataBlocks.
  rewrite (proj2 (Z.ltb_ge off 0)), (proj2 (Z.ltb_ge len 0)) by lia. simpl.
  rewrite (proj2 (Nat.ltb_ge _ _)) by done.
  rewrite getDataBlockLen_concat, (proj2 (Z.ltb_ge _ len)) by lia.
  by apply writeDataBlocks_loop_spec.
Qed.

End WriteBlocks.

(** ** Choosing the disks to read *)

Lemma count_blocks_sum {A} i n (l : list (option A)) :
  (count_blocks i n l).1 + (count_blocks i n l).2 = nsome l.
Proof.
  revert i. induction l as [|[a|] l IH]; intros i; simpl; [done|..];
    specialize (IH (S i)); destruct (count_blocks (S i) n l); simpl in *; [|done].
  destruct (i <? n); simpl; lia.
Qed.

Lemma count_blocks_data {A} i n (l : list (option A)) :
  i + length l ≤ n → count_blocks i n l = (nsome l, 0).
Proof.
  revert i. induction l as [|[a|] l IH]; intros i Hl; simpl in *; [done|..];
    rewrite IH by lia; [|done].
  rewrite (proj2 (Nat.ltb_lt i n)) by lia. done.
Qed.

Lemma isSuccessDecodeBlocks_iff blocks n :
  isSuccessDecodeBlocks blocks n = true ↔ n ≤ nsome blocks.
Proof.
  unfold isSuccessDecodeBlocks. pose proof (count_blocks_sum 0 n blocks).
  destruct (count_blocks 0 n blocks) as [a b]. simpl in *.
  rewrite orb_true_iff, Nat.eqb_eq, Nat.leb_le. lia.
Qed.

Lemma isSuccessDataBlocks_ret blocks n :
  n ≤ length blocks →
  ∃ b, isSuccessDataBlocks blocks n = Ret b ∧ (b = true → n ≤ nsome (take n blocks)).
Proof.
  intros Hn. unfold isSuccessDataBlocks. rewrite (proj2 (Nat.ltb_ge _ _)) by done.
  eexists. split; [done|]. rewrite count_blocks_data by (rewrite length_take; lia).
  simpl. apply Nat.leb_le.
Qed.

Section ReadDisks.
Context {D : Type}.

(** The mask selects the next non-nil disks until [dataBlocks] are chosen. *)
Lemma getReadDisks_scan_spec n : ∀ (ds : list (option D)) i dd pd,
  dd + pd < n →
  match getReadDisks_scan i ds n dd pd with
  | Some (mask, next) =>
      ∃ r, next = i + r ∧ 0 < r ≤ length ds ∧
        mask = ((λ d, bool_decide (is_Some d)) <$> take r ds) ++ replicate (length ds - r) false ∧
        dd + pd + nsome (take r ds) = n
  | None => dd + pd + nsome ds < n
  end.
Proof.
  induction ds as [|[d|] ds IH]; intros i dd pd Hlt; simpl; [lia|..].
  - set (dd' := if i <? n then S dd else dd). set (pd' := if i <? n then pd else S pd).
    assert (Hs : dd' + pd' = S (dd + pd)) by (unfold dd', pd'; destruct (i <? n); lia).
    assert (Hone : dd' + pd' = n → ∃ r, S i = i + r ∧ 0 < r ≤ S (length ds) ∧
        true :: replicate (length ds) false =
        ((λ d, bool_decide (is_Some d)) <$> take r (Some d :: ds)) ++
          replicate (S (length ds) - r) false ∧
        dd + pd + nsome (take r (Some d :: ds)) = n).
    { intros He. exists 1. rewrite firstn_cons, take_0. simpl. rewrite Nat.sub_0_r. repeat split; lia. }
    destruct (dd' =? n) eqn:E1; [apply Nat.eqb_eq in E1; apply Hone; lia|].
    destruct (dd' + pd' =? n) eqn:E2; [apply Nat.eqb_eq in E2; by apply Hone|].
    apply Nat.eqb_neq in E2. specialize (IH (S i) dd' pd' ltac:(lia)).
    destruct (getReadDisks_scan (S i) ds n dd' pd') as [[mask next]|]; [|lia].
    destruct IH as (r & -> & Hr & -> & Hn). exists (S r). split_and!; [lia|lia|lia|done|].
    simpl. lia.
  - specialize (IH (S i) dd pd Hlt).
    destruct (getReadDisks_scan (S i) ds n dd pd) as [[mask next]|]; [|lia].
    destruct IH as (r & -> & Hr & -> & Hn). exists (S r). split_and!; [lia|lia|lia|done|done].
Qed.

(** [getReadDisks] never reports [errUnexpected] while blocks are missing. *)
Lemma getReadDisks_spec (ds : list (option D)) index n :
  nsome (take index ds) < n → index ≤ length ds →
  (∃ r, getReadDisks ds index n =
     (replicate index false ++
        (((λ d, bool_decide (is_Some d)) <$> take r (drop index ds)) ++
           replicate (length ds - index - r) false), index + r, None) ∧
     0 < r ∧ index + r ≤ length ds) ∨
  (getReadDisks ds index n = ([], 0, traceError (Some (errXLReadQuorum : error)) []) ∧
   nsome ds < n).
Proof.
  intros Hlt Hi. unfold getReadDisks.
  pose proof (count_blocks_sum 0 n (take index ds)) as Hs.
  destruct (count_blocks 0 n (take index ds)) as [dd pd]. simpl in Hs.
  destruct (dd =? n) eqn:E1; [apply Nat.eqb_eq in E1; lia|].
  destruct (n <=? dd + pd) eqn:E2; [apply Nat.leb_le in E2; lia|].
  pose proof (getReadDisks_scan_spec n (drop index ds) index dd pd ltac:(lia)) as Hsc.
  destruct (getReadDisks_scan index (drop index ds) n dd pd) as [[mask next]|].
  - left. destruct Hsc as (r & -> & Hr & -> & _). rewrite length_drop in *.
    exists r. split_and!; [done|lia|lia].
  - right. split; [done|]. rewrite <- (take_drop index ds), nsome_app. lia.
Qed.

End ReadDisks.

(** ** The state of a read *)

Section ReadState.
Context {D : Type} `{!StorageAPI D} `{!StorageContract D}.
Context `{Hashes} `{RS : ReedSolomon} (k m : nat) `{!RSContract k m}.
Context (bs : nat) (bs_pos : 0 < bs) (data : bytes) (v p : string).
Context (cks : list string) (algo : string) (fuel : nat) (good : nat → bool).
Context (cks_len : length cks = k + m) (fuel_pos : 0 < fuel).

(** A property of the disks that reads keep. *)
Context (kept : nat → D → Prop).
Context (kept_reads : ∀ i d v p off buf d' r, kept i d → ReadFile d v p off buf = (d', r) → kept i d').

Let n := k + m.

(** What is assumed of every disk: its file fits in the fuel, and a file whose
    checksum is the recorded one is the file that was written (no collision
    among the files present). *)
Definition disk_sane (i : nat) (d : D) : Prop :=
  ∀ c, file_at d v p = Some c →
    length c < fuel ∧
    (cks !! i = Some (hex_encode (newHash algo c)) → c = shard_file k m bs data i).

(** A disk that serves the file that was written, with its checksum. *)
Definition disk_intact (i : nat) (d : D) : Prop :=
  serves d v p ∧ file_at d v p = Some (shard_file k m bs data i) ∧
  cks !! i = Some (file_checksum k m bs data algo i) ∧ file_checksum k m bs data algo i ≠ "".

(** Slot [i] of the state while block [j] is read, when the disks before
    [next] have been tried. *)
Record slot_ok (j next i : nat) (od : option D) (ob : option bytes) (verified : bool) : Prop := {
  slot_sane : ∀ d, od = Some d → disk_sane i d;
  slot_verified : ∀ d, od = Some d → verified = true →
    file_at d v p = Some (shard_file k m bs data i);
  slot_block : ∀ b, ob = Some b → b = shard k m bs data i j;
  slot_good : good i = true → ∃ d, od = Some d ∧ disk_intact i d;
  slot_tried : i < next → is_Some ob ↔ is_Some od;
  slot_todo : next ≤ i → ob = None;
  slot_kept : ∀ d, od = Some d → kept i d;
}.

Record read_inv (j next : nat) (st : read_state (D := D)) : Prop := {
  inv_disks : length (rs_disks st) = n;
  inv_blocks : length (rs_blocks st) = n;
  inv_verified : length (rs_verified st) = n;
  inv_slots : ∀ i od ob b,
    rs_disks st !! i = Some od → rs_blocks st !! i = Some ob → rs_verified st !! i = Some b →
    slot_ok j next i od ob b;
  inv_pool : pool_wf (rs_pool st);
  inv_pool_len : n ≤ length (pool_used (rs_pool st));
  inv_pool_size : ceil_div bs k ≤ pool_size (rs_pool st);
  inv_pool_use : pool_in_use (rs_pool st) ≤ next;
}.

(** A step that touches one slot. *)
Lemma read_inv_step j next next' st i od ob b pool :
  read_inv j next st → i < n → next ≤ next' →
  (∀ i', i' ≠ i → next ≤ i' → next' ≤ i') →
  slot_ok j next' i od ob b →
  pool_wf pool → length (pool_used pool) = length (pool_used (rs_pool st)) →
  pool_size pool = pool_size (rs_pool st) → pool_in_use pool ≤ next' →
  read_inv j next' (ReadState (<[i := od]> (rs_disks st)) (<[i := ob]> (rs_blocks st))
                      (<[i := b]> (rs_verified st)) pool).
Proof.
  intros [Hd Hb Hv Hs Hp Hpl Hps Hpu] Hi Hnn Hother Hslot Hwf Hl Hsz Hu.
  split; simpl; rewrite ?length_insert; try lia; try done.
  intros i' od' ob' b'. destruct (decide (i = i')) as [<-|Hne].
  - rewrite !list_lookup_insert_eq by lia. intros [= <-] [= <-] [= <-]. done.
  - rewrite !list_lookup_insert_ne by done. intros H1 H2 H3.
    destruct (Hs _ _ _ _ H1 H2 H3) as [A B C E F G K]. split; try done.
    + intros Hlt. apply F. destruct (decide (next ≤ i')); [|lia].
      specialize (Hother i' ltac:(congruence) ltac:(done)). lia.
    + intros. apply G. lia.
Qed.

Lemma read_inv_lookup j next st i :
  read_inv j next st → i < n →
  ∃ od ob b, rs_disks st !! i = Some od ∧ rs_blocks st !! i = Some ob ∧
    rs_verified st !! i = Some b ∧ slot_ok j next i od ob b.
Proof.
  intros Hinv Hi.
  destruct (lookup_lt_is_Some_2 (rs_disks st) i) as [od Hd]; [by rewrite (inv_disks _ _ _ Hinv)|].
  destruct (lookup_lt_is_Some_2 (rs_blocks st) i) as [ob Hb]; [by rewrite (inv_blocks _ _ _ Hinv)|].
  destruct (lookup_lt_is_Some_2 (rs_verified st) i) as [b Hv]; [by rewrite (inv_verified _ _ _ Hinv)|].
  exists od, ob, b. split_and!; [done..|]. by eapply inv_slots.
Qed.

(** Setting one or more components of the state as a three-way update. *)
Lemma read_state_eta (st : read_state (D := D)) i od ob b pool :
  rs_disks st !! i = Some od → rs_blocks st !! i = Some ob → rs_verified st !! i = Some b →
  ReadState (rs_disks st) (rs_blocks st) (rs_verified st) pool =
  ReadState (<[i := od]> (rs_disks st)) (<[i := ob]> (rs_blocks st))
    (<[i := b]> (rs_verified st)) pool.
Proof. intros. by rewrite !list_insert_id. Qed.

(** Verifying a disk: it always answers; a positive answer means that the
    disk holds the file that was written, and a good disk passes. *)
Lemma isValidBlock_spec i d ck :
  disk_sane i d → cks !! i = Some ck →
  ∃ d' valid, isValidBlock fuel (Some d) v p ck algo = Ret (Some d', valid) ∧
    disk_sane i d' ∧
    (valid = true → file_at d' v p = Some (shard_file k m bs data i)) ∧
    (disk_intact i d → valid = true ∧ disk_intact i d') ∧ (kept i d → kept i d').
Proof.
  intros Hsane Hck.
  enough (∃ d' valid, isValidBlock fuel (Some d) v p ck algo = Ret (Some d', valid) ∧
    disk_sane i d' ∧
    (valid = true → file_at d' v p = Some (shard_file k m bs data i)) ∧
    (disk_intact i d → valid = true ∧ disk_intact i d')) as (d' & valid & Hv & ? & ? & ?).
  { exists d', valid. split_and!; try done. intros Hkept.
    eapply (isValidBlock_keeps (kept i)); [by apply kept_reads|done|exact Hv]. }
  unfold isValidBlock. case_bool_decide as Hempty.
  { exists d, false. split_and!; [done..|]. intros (_ & _ & Hc & Hne). congruence. }
  destruct (hashSum_spec v p fuel d (newHash algo)) as (d' & h & e & -> & Hf & He & Hs);
    [intros c Hc; by apply Hsane|done|]. simpl.
  assert (Hsane' : disk_sane i d') by (intros c; rewrite Hf; apply Hsane).
  destruct e as [e|].
  - exists d', false. split_and!; [done..|]. intros (Hsv & Hfile & _).
    by destruct (Hs _ Hsv Hfile).
  - destruct (He eq_refl) as (c & Hc & ->). exists d', (bool_decide (hex_encode (newHash algo c) = ck)).
    split_and!; [done|done| |].
    + intros Hv. bool_prop. rewrite Hf, Hc. f_equal. apply (Hsane c Hc). by rewrite Hck, Hv.
    + intros (Hsv & Hfile & Hcs & Hne). rewrite Hfile in Hc. simplify_eq.
      split; [by apply bool_decide_true; unfold file_checksum in *; congruence|].
      destruct (Hs _ Hsv Hfile) as [_ Hsv']. split_and!; [done|by rewrite Hf|done|done].
Qed.

Lemma bitRotVerify_spec j next st i d :
  read_inv j next st → next ≤ i < n → rs_disks st !! i = Some (Some d) →
  ∃ st' valid d', bitRotVerify fuel v p cks algo i st = Ret (st', valid) ∧
    read_inv j next st' ∧ drop (S i) (rs_disks st') = drop (S i) (rs_disks st) ∧
    rs_disks st' !! i = Some (Some d') ∧
    (valid = true → file_at d' v p = Some (shard_file k m bs data i)) ∧
    (good i = true → valid = true).
Proof.
  intros Hinv [Hi Hin] Hd.
  destruct (read_inv_lookup _ _ _ i Hinv Hin) as (od & ob & b & Hd' & Hb & Hv & Hslot).
  rewrite Hd in Hd'. simplify_eq. unfold bitRotVerify. rewrite Hv, Hd. destruct b.
  { exists st, true, d. split_and!; try done. intros _. by eapply slot_verified. }
  destruct (lookup_lt_is_Some_2 cks i) as [ck Hck]; [lia|]. rewrite Hck.
  destruct (isValidBlock_spec i d ck) as (d' & valid & -> & Hsane & Hval & Hgood & Hkept);
    [by eapply slot_sane|done|].
  simpl. eexists _, valid, d'. split; [done|]. simpl. split_and!.
  - rewrite <- (list_insert_id (rs_blocks st) i ob Hb).
    apply read_inv_step with (next := next); try done; try lia; [|by destruct Hinv..].
    destruct Hslot as [A B C E F G K]. split; try done.
    + intros ? [= <-]. done.
    + intros ? [= <-]. done.
    + intros Hg. destruct (E Hg) as (? & [= <-] & Hint). exists d'. split; [done|]. by apply Hgood.
    + lia.
    + intros ? [= <-]. auto.
  - by rewrite drop_insert_lt by lia.
  - apply list_lookup_insert_eq. by rewrite (inv_disks _ _ _ Hinv).
  - done.
  - intros Hg. destruct (slot_good _ _ _ _ _ _ Hslot Hg) as (? & [= <-] & Hint). by apply Hgood.
Qed.

(** Dropping a disk that is not good. *)
Lemma read_inv_drop j st i pool :
  read_inv j i st → i < n → good i ≠ true →
  pool_wf pool → length (pool_used pool) = length (pool_used (rs_pool st)) →
  pool_size pool = pool_size (rs_pool st) → pool_in_use pool ≤ S i →
  read_inv j (S i) (drop_disk (set_pool st pool) i).
Proof.
  intros Hinv Hin Hg Hwf Hl Hsz Hu.
  destruct (read_inv_lookup _ _ _ i Hinv Hin) as (od & ob & b & Hd & Hb & Hv & Hslot).
  unfold drop_disk, set_pool. simpl.
  rewrite <- (list_insert_id (rs_blocks st) i ob Hb), <- (list_insert_id (rs_verified st) i b Hv).
  apply read_inv_step with (next := i); try done; try lia.
  destruct Hslot as [A B C E F G K]. rewrite (G ltac:(lia)) in *. split; try done; try lia.
  all: intros; by destruct (E ltac:(done)).
Qed.

(** Reading block [j] from disk [i]: the disk is dropped or its shard of the
    block is read; a good disk is read. *)
Lemma parallelRead_one_spec j st i d :
  j < nblocks bs data →
  read_inv j i st → i < n → rs_disks st !! i = Some (Some d) →
  ∃ st', parallelRead_one fuel v p cks algo (Z.of_nat j * Z.of_nat (ceil_div bs k))
           (Z.of_nat (ceil_div (length (block_at bs data j)) k)) i st = Ret st' ∧
    read_inv j (S i) st' ∧ drop (S i) (rs_disks st') = drop (S i) (rs_disks st).
Proof.
  intros Hj Hinv0 Hin Hd0. unfold parallelRead_one.
  destruct (bitRotVerify_spec j i st i d Hinv0) as (st1 & valid & d1 & -> & Hinv & Hdrop & Hd & Hval & Hg);
    [lia|done|]. simpl. rewrite <- Hdrop. clear Hdrop Hinv0 Hd0.
  destruct valid; simpl.
  2: { eexists. split; [done|]. split; [|simpl; by rewrite drop_insert_lt by lia].
       change (drop_disk st1 i) with (drop_disk (set_pool (ReadState (rs_disks st1) (rs_blocks st1) (rs_verified st1) (rs_pool st1)) (rs_pool st1)) i).
       destruct Hinv as [? ? ? ? ? ? ? ?].
       apply read_inv_drop; simpl; try done; [by intros ?%Hg|lia]. }
  pose proof (pool_Get_spec (rs_pool st1) (inv_pool _ _ _ Hinv)) as Hget.
  pose proof (inv_pool_len _ _ _ Hinv). pose proof (inv_pool_use _ _ _ Hinv) as Huse.
  pose proof (inv_pool_size _ _ _ Hinv).
  destruct (pool_Get (rs_pool st1)) as [pool' [[[slot s]|] e]]; [|by destruct e; lia].
  destruct e; [done|]. destruct Hget as (Hwf & _ & _ & Hslen & Hpsz & Hpu & Hpl & _).
  specialize (Hval eq_refl). destruct (shard_file_slice k m bs bs_pos data i j Hj Hin) as [_ Hslen2].
  assert (Hchunk : ceil_div (length (block_at bs data j)) k ≤ ceil_div bs k).
  { unfold ceil_div. apply Nat.Div0.div_le_mono. rewrite block_at_length by done. lia. }
  rewrite (proj2 (Z.ltb_ge _ _)), (proj2 (Z.ltb_ge _ _)) by (unfold zlen; lia). simpl.
  rewrite Hd, Nat2Z.id. set (chunk := ceil_div (length (block_at bs data j)) k) in *.
  set (buf := take chunk s).
  assert (Hbuf : length buf = chunk) by (unfold buf; rewrite length_take; lia).
  set (off := (Z.of_nat j * Z.of_nat (ceil_div bs k))%Z).
  destruct (ReadFile d1 v p off buf) as [d2 [[buf' nr] err]] eqn:Hr.
  assert (Hf : ∀ v' p', file_at d2 v' p' = file_at d1 v' p')
    by (intros; by eapply ReadFile_frame).
  assert (Hfull : readFull (shard_file k m bs data i) off buf = (shard k m bs data i j, Z.of_nat chunk, None)).
  { unfold off. rewrite <- Nat2Z.inj_mul, (shard_file_read k m bs bs_pos data i j) by done.
    unfold zlen. by rewrite Hbuf. }
  destruct (read_inv_lookup _ _ _ i Hinv Hin) as (od & ob & b & Hd' & Hb & Hv & Hslot).
  rewrite Hd in Hd'. simplify_eq. destruct Hslot as [A B C E F G K].
  assert (Hpw : pool_wf (pool_write pool' slot buf')).
  { apply pool_write_wf; [done|]. rewrite (ReadFile_buf _ _ _ _ _ _ _ _ _ Hr). lia. }
  assert (Hgd : good i = true → err = None ∧ disk_intact i d2).
  { intros Hg'. destruct (E Hg') as (? & [= <-] & Hsv & Hfile & Hck).
    destruct (ReadFile_serves d1 v p off buf _ ltac:(unfold off; lia) Hsv Hfile) as (d3 & Hr' & Hsv').
    rewrite Hfull, Hr in Hr'. simplify_eq. split; [done|]. split_and!; [done| |apply Hck..].
    by rewrite Hf. }
  set (pool2 := pool_write pool' slot buf') in *.
  assert (Hp2u : pool_in_use pool2 ≤ S i) by (change (pool_in_use pool' ≤ S i); lia).
  assert (Hp2l : length (pool_used pool2) = length (pool_used (rs_pool st1))) by done.
  assert (Hp2s : pool_size pool2 = pool_size (rs_pool st1)) by done.
  clearbody pool2. destruct err as [err|].
  - eexists. split; [done|]. unfold drop_disk. simpl. rewrite list_insert_insert_eq.
    split; [|by rewrite drop_insert_lt by lia].
    apply (read_inv_drop j st1 i pool2); simpl; try done; try lia.
    intros Hg'. by destruct (Hgd Hg').
  - eexists. split; [done|]. simpl. split; [|by rewrite drop_insert_lt by lia].
    destruct (ReadFile_sound d1 v p off buf d2 buf' nr None) as (c & Hc & Hrf);
      [unfold off; lia|done|by left|].
    rewrite Hval in Hc. simplify_eq. rewrite Hfull in Hrf. simplify_eq.
    rewrite <- (list_insert_id (rs_verified st1) i b Hv).
    apply read_inv_step with (next := i); try done; simpl; try lia. split.
    + intros ? [= <-]. intros c. rewrite Hf. by apply A.
    + intros ? [= <-] _. by rewrite Hf.
    + by intros ? [= <-].
    + intros Hg'. exists d2. split; [done|]. by apply Hgd.
    + intros _. split; intros; by eexists.
    + lia.
    + intros ? [= <-]. eapply kept_reads; [|exact Hr]. by apply K.
Qed.

Definition pread j := parallelRead (D := D) fuel v p cks algo
  (Z.of_nat j * Z.of_nat (ceil_div bs k)) (Z.of_nat (ceil_div (length (block_at bs data j)) k)).

Lemma pread_skip j q i rest st : pread j i (replicate q false ++ rest) st = pread j (i + q) rest st.
Proof.
  revert i. induction q as [|q IH]; intros i; simpl; [by rewrite Nat.add_0_r|].
  unfold pread in *. simpl. rewrite IH. f_equal. lia.
Qed.

(** Reading the non-nil disks among the next [r] ones. *)
Lemma pread_run j : j < nblocks bs data → ∀ r i rest st,
  read_inv j i st → i + r ≤ n →
  ∃ st', pread j i (((λ d, bool_decide (is_Some d)) <$> take r (drop i (rs_disks st))) ++ rest) st =
           pread j (i + r) rest st' ∧ read_inv j (i + r) st'.
Proof.
  intros Hj. induction r as [|r IH]; intros i rest st Hinv Hle.
  { exists st. rewrite take_0. rewrite Nat.add_0_r. done. }
  destruct (read_inv_lookup _ _ _ i Hinv ltac:(lia)) as (od & ob & b & Hd & Hb & Hv & Hslot).
  rewrite (drop_S _ _ _ Hd). simpl. rewrite <- Nat.add_succ_comm. destruct od as [d|].
  - destruct (parallelRead_one_spec j st i d Hj Hinv ltac:(lia) Hd) as (st1 & Hone & Hinv1 & Hdrop).
    rewrite bool_decide_true by (by eexists). unfold pread at 1. simpl. rewrite Hone. simpl.
    rewrite <- Hdrop. by apply IH; [|lia].
  - rewrite bool_decide_false by (by intros []). unfold pread at 1. simpl. apply IH; [|lia].
    destruct Hinv as [? ? ? Hs ? ? ? ?]. split; try done; [|lia]. intros i' od' ob' b' H1 H2 H3.
    destruct (Hs _ _ _ _ H1 H2 H3) as [A B C E F G K]. split; try done; [|intros; apply G; lia].
    intros Hlt. destruct (decide (i' = i)) as [->|]; [|apply F; lia].
    rewrite Hd in H1. simplify_eq. rewrite (G ltac:(done)). done.
Qed.

Lemma nsome_lookup {A B} (l : list (option A)) (r : list (option B)) :
  length l = length r →
  (∀ i a b, l !! i = Some a → r !! i = Some b → is_Some a ↔ is_Some b) → nsome l = nsome r.
Proof.
  revert r. induction l as [|a l IH]; intros [|b r] Hlen Hi; simplify_eq/=; [done|].
  assert (nsome l = nsome r) as Hn by (apply IH; [done|]; intros i; apply (Hi (S i))).
  pose proof (Hi 0 a b eq_refl eq_refl) as H0. destruct a, b; simpl; try lia.
  - by destruct (proj1 H0 (ex_intro _ _ eq_refl)).
  - by destruct (proj2 H0 (ex_intro _ _ eq_refl)).
Qed.

(** The number of good disks. *)
Definition good_count : nat := count_good good n.

Lemma read_inv_good j next st : read_inv j next st → good_count ≤ nsome (rs_disks st).
Proof.
  intros Hinv. unfold good_count. rewrite <- (inv_disks _ _ _ Hinv), nsome_filter.
  apply count_good_filter. intros i od Hod Hg.
  assert (Hi : i < n) by (rewrite <- (inv_disks _ _ _ Hinv); by eapply lookup_lt_Some).
  destruct (read_inv_lookup _ _ _ i Hinv Hi) as (od' & ob & b & Hd & _ & _ & Hslot).
  simplify_eq. destruct (slot_good _ _ _ _ _ _ Hslot Hg) as (d & -> & _). by exists d.
Qed.

Lemma read_inv_count j next st :
  read_inv j next st → next ≤ n → nsome (rs_blocks st) = nsome (take next (rs_disks st)).
Proof.
  intros Hinv Hn. rewrite <- (take_drop next (rs_blocks st)), nsome_app.
  assert (nsome (drop next (rs_blocks st)) = 0) as ->.
  { rewrite <- (nsome_replicate_None (A := bytes) (n - next)). apply nsome_lookup.
    - by rewrite length_replicate, length_drop, (inv_blocks _ _ _ Hinv).
    - intros i a b Ha [-> Hi]%lookup_replicate. rewrite lookup_drop in Ha.
      destruct (read_inv_lookup _ _ _ (next + i) Hinv) as (od & ob & b & Hd & Hb & _ & Hslot); [lia|].
      rewrite Ha in Hb. simplify_eq. by rewrite (slot_todo _ _ _ _ _ _ Hslot) by lia. }
  rewrite Nat.add_0_r. apply nsome_lookup.
  - by rewrite !length_take, (inv_blocks _ _ _ Hinv), (inv_disks _ _ _ Hinv).
  - intros i a b [Ha Hi]%lookup_take_Some [Hb _]%lookup_take_Some.
    destruct (read_inv_lookup _ _ _ i Hinv) as (od & ob & b' & Hd & Hb' & _ & Hslot); [lia|].
    simplify_eq. by eapply slot_tried.
Qed.

(** The retry loop ends: with enough blocks, or with a quorum error that does
    not occur when there are enough good disks. *)
Lemma read_rounds_spec j : j < nblocks bs data → ∀ rounds next st,
  read_inv j next st → next ≤ n → n - next < rounds → nsome (rs_blocks st) < k →
  ∃ st' e, read_rounds rounds fuel v p cks algo (Z.of_nat j * Z.of_nat (ceil_div bs k))
             (Z.of_nat (ceil_div (length (block_at bs data j)) k)) k next st = Ret (st', e) ∧
    (e = None → (∃ next', read_inv j next' st') ∧ k ≤ nsome (rs_blocks st')) ∧
    (k ≤ good_count → e = None).
Proof.
  intros Hj. induction rounds as [|rounds IH]; intros next st Hinv Hn Hr Hlt; [lia|].
  simpl. pose proof (read_inv_good _ _ _ Hinv) as Hgood.
  rewrite (read_inv_count _ _ _ Hinv Hn) in Hlt.
  pose proof (inv_disks _ _ _ Hinv) as Hdl.
  destruct (getReadDisks_spec (rs_disks st) next k Hlt ltac:(lia))
    as [(r & -> & Hr0 & Hle)|[-> Hq]].
  2: { eexists _, _. split; [done|]. split; [done|lia]. }
  fold (pread j). rewrite pread_skip. simpl.
  destruct (pread_run j Hj r next (replicate (length (rs_disks st) - next - r) false) st Hinv)
    as (st1 & -> & Hinv1); [lia|].
  rewrite <- (app_nil_r (replicate _ false)), pread_skip. simpl.
  destruct (isSuccessDecodeBlocks (rs_blocks st1) k) eqn:E.
  { apply isSuccessDecodeBlocks_iff in E. eexists _, _. split; [done|]. split; [|done]. eauto. }
  assert (Hlt1 : nsome (rs_blocks st1) < k).
  { destruct (decide (k ≤ nsome (rs_blocks st1))) as [Hk|]; [|lia].
    apply isSuccessDecodeBlocks_iff in Hk. congruence. }
  rewrite (inv_disks _ _ _ Hinv1). destruct (next + r =? n) eqn:E2.
  - apply Nat.eqb_eq in E2. eexists _, _. split; [done|]. split; [done|]. intros Hk.
    pose proof (read_inv_good _ _ _ Hinv1). rewrite (read_inv_count _ _ _ Hinv1) in Hlt1 by lia.
    rewrite take_ge in Hlt1; [lia|]. rewrite (inv_disks _ _ _ Hinv1). lia.
  - apply Nat.eqb_neq in E2. apply IH; try done; lia.
Qed.

(** ** Decoding a block *)

Lemma all_available {A} (avail : list (option A)) full :
  Forall2 (λ a s, a = None ∨ a = Some s) avail full → length avail ≤ nsome avail →
  avail = Some <$> full.
Proof.
  induction 1 as [|a s avail full Ha Hf IH]; intros Hn; [done|].
  pose proof (nsome_le avail). destruct Ha as [-> | ->]; simpl in Hn; [lia|].
  rewrite fmap_cons, <- IH by lia. done.
Qed.

Lemma blocks_data_Some (l : list bytes) : blocks_data (Some <$> l) = concat l.
Proof. induction l as [|b l IH]; [done|]. rewrite fmap_cons, blocks_data_cons, IH. done. Qed.

Lemma read_inv_available j next st :
  j < nblocks bs data → read_inv j next st →
  Forall2 (λ a s, a = None ∨ a = Some s) (rs_blocks st) (encoded k m (block_at bs data j)).
Proof.
  intros Hj Hinv. apply Forall2_same_length_lookup. split.
  - rewrite (inv_blocks _ _ _ Hinv). symmetry.
    by apply (encoded_ok k m (block_at bs data j)), block_at_pos.
  - intros i a s Ha Hs.
    assert (Hi : i < n) by (rewrite <- (inv_blocks _ _ _ Hinv); by eapply lookup_lt_Some).
    destruct (read_inv_lookup _ _ _ i Hinv Hi) as (od & ob & b & _ & Hb & _ & Hslot).
    destruct (shard_lookup k m bs bs_pos data i j Hj Hi) as [Hsh _].
    simplify_eq. destruct a as [b'|]; [right|by left].
    by rewrite (slot_block _ _ _ _ _ _ Hslot b').
Qed.

(** With [k] blocks read, the data blocks are those of the object. *)
Lemma decode_block j next st :
  j < nblocks bs data → read_inv j next st → k ≤ nsome (rs_blocks st) →
  ∃ b en pad, isSuccessDataBlocks (rs_blocks st) k = Ret b ∧
    (if b then (rs_blocks st, None)
     else decodeData (rs_blocks st) (Z.of_nat k) (Z.of_nat m)) = (en, None) ∧
    k ≤ length en ∧ blocks_data (take k en) = block_at bs data j ++ pad.
Proof.
  intros Hj Hinv Hk. pose proof (read_inv_available j next st Hj Hinv) as Hav.
  destruct (encoded_ok k m (block_at bs data j)) as (_ & Hlen & _ & pad & Hpad);
    [by apply block_at_pos|].
  destruct (isSuccessDataBlocks_ret (rs_blocks st) k) as (b & Hb & Hall);
    [rewrite (inv_blocks _ _ _ Hinv); lia|].
  exists b. destruct b.
  - exists (rs_blocks st), pad. split_and!; [done|done|rewrite (inv_blocks _ _ _ Hinv); lia|].
    rewrite (all_available (take k (rs_blocks st)) (take k (encoded k m (block_at bs data j)))).
    + by rewrite blocks_data_Some.
    + by apply Forall2_take.
    + rewrite length_take. pose proof (Hall eq_refl). lia.
  - exists (Some <$> encoded k m (block_at bs data j)), pad. split_and!; [done| | |].
    + apply (encoded_reconstruct k m); [by apply block_at_pos|done|done].
    + rewrite length_fmap, Hlen. lia.
    + by rewrite <- fmap_take, blocks_data_Some.
Qed.

(** ** The block loop *)

(** The state at the start of a block. *)
Definition next_block (st : read_state) : read_state (D := D) :=
  ReadState (rs_disks st) (replicate (length (rs_disks st)) None) (rs_verified st)
    (pool_Reset (rs_pool st)).

Lemma read_inv_next_block j next st j' : read_inv j next st → read_inv j' 0 (next_block st).
Proof.
  intros [Hd Hb Hv Hs Hp Hpl Hps Hpu].
  split; simpl; rewrite ?length_replicate; try done.
  - intros i od ob b H1 [-> Hi]%lookup_replicate H3.
    destruct (lookup_lt_is_Some_2 (rs_blocks st) i) as [ob H2]; [lia|].
    destruct (Hs _ _ _ _ H1 H2 H3) as [A B C E F G K]. split; try done. lia.
  - by apply pool_Reset_wf.
  - by rewrite pool_Reset_in_use.
Qed.

Lemma quot_nat a b : (Z.of_nat a `quot` Z.of_nat b)%Z = Z.of_nat (a / b).
Proof.
  rewrite Nat2Z.inj_div. destruct b; [by rewrite Z.quot_0_r_ext, Z.div_0_r|].
  apply Z.quot_div_nonneg; lia.
Qed.

Lemma rem_nat a b : 0 < b → (Z.of_nat a `rem` Z.of_nat b)%Z = Z.of_nat (a `mod` b).
Proof. intros. rewrite Nat2Z.inj_mod. apply Z.rem_mod_nonneg; lia. Qed.

Lemma block_at_cur j :
  j < nblocks bs data →
  length (block_at bs data j) = if j =? length data / bs then length data `mod` bs else bs.
Proof.
  intros Hj%nblocks_lt; [|done]. rewrite block_at_length.
  pose proof (Nat.div_mod (length data) bs ltac:(lia)) as Hdm.
  pose proof (Nat.mod_upper_bound (length data) bs ltac:(lia)).
  destruct (j =? length data / bs) eqn:E; [apply Nat.eqb_eq in E; subst j; lia|].
  apply Nat.eqb_neq in E. nia.
Qed.

(** The position of the loop: [bw] bytes of the range [off, off+len) are
    written, and block [j] holds the next one. *)
Record at_block (off len bw j : nat) : Prop := {
  at_lt : bw < len;
  at_range : off + len ≤ length data;
  at_start : j = off / bs → bw = 0;
  at_next : j ≠ off / bs → off + bw = j * bs;
}.

(** The range of block [j] that is written. *)
Definition block_offset (off j : nat) : nat := if j =? off / bs then off `mod` bs else 0.
Definition block_length (off len bw j : nat) : nat :=
  Nat.min (length (block_at bs data j) - block_offset off j) (len - bw).

Lemma at_block_offset off len bw j :
  at_block off len bw j → j * bs + block_offset off j = off + bw ∧ block_offset off j < bs.
Proof.
  intros [Hlt Hr Hs Hn]. unfold block_offset.
  pose proof (Nat.div_mod off bs ltac:(lia)). pose proof (Nat.mod_upper_bound off bs ltac:(lia)).
  destruct (j =? off / bs) eqn:E.
  - apply Nat.eqb_eq in E. subst j. rewrite (Hs eq_refl). lia.
  - apply Nat.eqb_neq in E. specialize (Hn E). lia.
Qed.

Lemma at_block_index off len bw j :
  at_block off len bw j → j = (off + bw) / bs ∧ j < nblocks bs data.
Proof.
  intros Hat. destruct (at_block_offset _ _ _ _ Hat) as [He Hb]. destruct Hat.
  rewrite nblocks_lt by done. split; [|lia]. apply Nat.div_unique with (block_offset off j); lia.
Qed.

Lemma at_block_slice off len bw j :
  at_block off len bw j →
  0 < block_length off len bw j ∧
  block_offset off j + block_length off len bw j ≤ length (block_at bs data j) ∧
  ∀ q, q ≤ block_length off len bw j →
    take q (drop (block_offset off j) (block_at bs data j)) = take q (drop (off + bw) data).
Proof.
  intros Hat. destruct (at_block_offset _ _ _ _ Hat) as [He Hb]. destruct Hat.
  assert (Hl : block_offset off j < length (block_at bs data j)) by (rewrite block_at_length; lia).
  unfold block_length. split_and!; [lia|lia|]. intros q Hq.
  assert (Hle : block_offset off j + q ≤ bs) by (rewrite block_at_length in Hq; lia).
  unfold block_at. rewrite <- He, <- drop_drop, !take_drop_commute, take_take.
  do 3 f_equal. lia.
Qed.

Lemma at_block_advance off len bw j :
  at_block off len bw j → bw + block_length off len bw j ≠ len →
  at_block off len (bw + block_length off len bw j) (S j) ∧
  length (block_at bs data j) = bs ∧ j ≠ length data / bs.
Proof.
  intros Hat Hne. destruct (at_block_offset _ _ _ _ Hat) as [He Hb].
  destruct (at_block_index _ _ _ _ Hat) as [Hj Hjn].
  pose proof (block_at_cur j Hjn) as Hcur. destruct Hat.
  assert (Hlb : block_length off len bw j = length (block_at bs data j) - block_offset off j)
    by (unfold block_length in *; lia).
  assert (Hlt : bw + block_length off len bw j < len) by (unfold block_length in *; lia).
  rewrite block_at_length in Hlb.
  assert (Hfull : length (block_at bs data j) = bs) by (rewrite block_at_length; lia).
  rewrite block_at_length in Hfull.
  pose proof (Nat.div_mod (length data) bs ltac:(lia)).
  pose proof (Nat.mod_upper_bound (length data) bs ltac:(lia)).
  assert (Hjlt : off / bs ≤ j) by (rewrite Hj; apply Nat.Div0.div_le_mono; lia).
  split_and!; [|rewrite block_at_length; lia|nia]. split; [lia|lia|lia|lia].
Qed.

Context {W : Type} `{!IOWriter W} `{!IOWriterContract W}.

(** The ranges computed by the code are [block_offset] and [block_length]. *)
Lemma block_range_code off len bw j :
  at_block off len bw j →
  let T := Z.of_nat (length data) in
  let last := ((Z.of_nat off + Z.of_nat bw) `quot` Z.of_nat bs =? T `quot` Z.of_nat bs)%Z in
  let cur := if last then (T `rem` Z.of_nat bs)%Z else Z.of_nat bs in
  let eoff := if (Z.of_nat j =? Z.of_nat off `quot` Z.of_nat bs)%Z
              then (Z.of_nat off `rem` Z.of_nat bs)%Z else 0%Z in
  let elen := if (Z.of_nat j =? Z.of_nat off `quot` Z.of_nat bs)%Z then (cur - eoff)%Z else cur in
  last = (j =? length data / bs) ∧
  cur = Z.of_nat (length (block_at bs data j)) ∧
  eoff = Z.of_nat (block_offset off j) ∧
  (if (Z.of_nat len - Z.of_nat bw <? elen)%Z then (Z.of_nat len - Z.of_nat bw)%Z else elen) =
    Z.of_nat (block_length off len bw j).
Proof.
  intros Hat T last cur eoff elen.
  destruct (at_block_index _ _ _ _ Hat) as [Hj Hjn].
  destruct (at_block_slice _ _ _ _ Hat) as (Hpos & Hle & _).
  assert (Hlast : last = (j =? length data / bs)).
  { unfold last, T. rewrite <- Nat2Z.inj_add, !quot_nat, <- Hj.
    apply eq_bool_prop_intro. rewrite !Is_true_true, Z.eqb_eq, Nat.eqb_eq. lia. }
  assert (Hcur : cur = Z.of_nat (length (block_at bs data j))).
  { unfold cur. rewrite Hlast, (block_at_cur j Hjn). unfold T. rewrite rem_nat by done.
    by destruct (j =? length data / bs). }
  assert (Hst : (Z.of_nat j =? Z.of_nat off `quot` Z.of_nat bs)%Z = (j =? off / bs)).
  { rewrite quot_nat. apply eq_bool_prop_intro. rewrite !Is_true_true, Z.eqb_eq, Nat.eqb_eq. lia. }
  assert (Heoff : eoff = Z.of_nat (block_offset off j)).
  { unfold eoff, block_offset. rewrite Hst, rem_nat by done. by destruct (j =? off / bs). }
  split_and!; [done..|]. unfold block_length. destruct Hat.
  assert (Hel : elen = Z.of_nat (length (block_at bs data j) - block_offset off j)).
  { unfold elen. rewrite Hst, Heoff, Hcur. unfold block_offset in *.
    destruct (j =? off / bs); lia. }
  rewrite Hel. destruct (_ <? _)%Z eqn:E; bool_prop; lia.
Qed.

(** The disks after a read: good disks are still there. *)
Definition disks_kept (ds : list (option D)) : Prop :=
  length ds = k + m ∧ (∀ i d, ds !! i = Some (Some d) → kept i d) ∧
  ∀ i, i < k + m → good i = true → ∃ d, ds !! i = Some (Some d).

Lemma read_inv_kept j next st : read_inv j next st → disks_kept (rs_disks st).
Proof.
  intros Hinv. split_and!; [apply (inv_disks _ _ _ Hinv)|..].
  - intros i d Hd. assert (Hi : i < n) by (rewrite <- (inv_disks _ _ _ Hinv); by eapply lookup_lt_Some).
    destruct (read_inv_lookup _ _ _ i Hinv Hi) as (od & ob & b & Hd' & _ & _ & Hslot).
    simplify_eq. by eapply slot_kept.
  - intros i Hi Hg. destruct (read_inv_lookup _ _ _ i Hinv Hi) as (od & ob & b & Hd & _ & _ & Hslot).
    destruct (slot_good _ _ _ _ _ _ Hslot Hg) as (d & -> & _). eauto.
Qed.

Lemma erasureReadFile_loop_spec off len : ∀ blocks bw j st (w : W),
  at_block off len bw j → (off + len) / bs - j < blocks →
  (∃ j' next', read_inv j' next' (next_block st)) →
  ∃ w' ds nw e q,
    erasureReadFile_loop blocks fuel w v p (Z.of_nat off) (Z.of_nat len) (zlen data)
      (Z.of_nat bs) (Z.of_nat (ceil_div bs k)) k m cks algo (Z.of_nat off `quot` Z.of_nat bs)
      (Z.of_nat j) (Z.of_nat bw) (Z.of_nat bs) (Z.of_nat (ceil_div bs k)) st = Ret (w', ds, (nw, e)) ∧
    q ≤ len - bw ∧ written w' = written w ++ take q (drop (off + bw) data) ∧
    (e = None → q = len - bw ∧ nw = Z.of_nat len ∧ disks_kept ds) ∧
    (w_accepts w → k ≤ good_count → e = None ∧ w_accepts w').
Proof.
  induction blocks as [|blocks IH]; intros bw j st w Hat Hbl (j0 & next0 & Hinv0); [lia|].
  cbn [erasureReadFile_loop]. fold (next_block st).
  destruct (at_block_index _ _ _ _ Hat) as [Hj Hjn].
  destruct (at_block_slice _ _ _ _ Hat) as (Hpos & Hle & Hslice).
  pose proof (block_range_code _ _ _ _ Hat) as Hcode. cbv zeta in Hcode. fold (zlen data) in Hcode.
  set (last := (_ `quot` _ =? zlen data `quot` _)%Z) in *.
  set (cur := if last then _ else Z.of_nat bs) in *.
  destruct Hcode as (Hlast & Hcur & Heoff & Helen).
  assert (Hchunk : (if last then getChunkSize cur k else Ret (Z.of_nat (ceil_div bs k))) =
                   Ret (Z.of_nat (ceil_div (length (block_at bs data j)) k))).
  { rewrite Hcur, getChunkSize_ceil by apply rs_k_pos. destruct last eqn:El; [done|].
    unfold cur in Hcur. by rewrite <- (Nat2Z.inj _ _ Hcur). }
  rewrite Hchunk. cbn [mbind go_bind].
  pose proof (read_inv_next_block _ _ _ j Hinv0) as Hinv.
  assert (Hidem : next_block (next_block st) = next_block st)
    by (unfold next_block, pool_Reset; simpl; by rewrite length_replicate).
  rewrite Hidem in Hinv.
  destruct (read_rounds_spec j Hjn (S (length (rs_disks (next_block st)))) 0 (next_block st) Hinv)
    as (st1 & e1 & Hrr & Hok & Hlive).
  { lia. } { rewrite (inv_disks _ _ _ Hinv). lia. }
  { rewrite (read_inv_count _ _ _ Hinv), take_0 by lia. apply rs_k_pos. }
  rewrite Hrr. cbn [mbind go_bind]. destruct e1 as [e1|].
  { eexists _, _, _, _, 0. rewrite take_0, app_nil_r. split_and!; [done|lia|done|done|].
    intros _ Hk. by specialize (Hlive Hk). }
  destruct (Hok eq_refl) as [[next1 Hinv1] Hk].
  destruct (decode_block j next1 st1 Hjn Hinv1 Hk) as (b & en & pad & -> & Hdec & Hen & Hdata).
  cbn [mbind go_bind]. rewrite Hdec, Heoff, Hcur in *.
  rewrite Helen.
  destruct (writeDataBlocks_spec w en k (Z.of_nat (block_offset off j))
              (Z.of_nat (block_length off len bw j)) _ Hen Hdata)
    as (w1 & n1 & e1 & q1 & -> & Hq1 & Hw1 & He1 & Ha1);
    [lia|lia|rewrite zlen_app; unfold zlen; lia|].
  assert (Hw1' : written w1 = written w ++ take (Z.to_nat q1) (drop (off + bw) data)).
  { rewrite Hw1, Nat2Z.id, <- (Hslice (Z.to_nat q1)) by lia. f_equal.
    rewrite drop_app_le by lia. rewrite take_app_le by (rewrite length_drop; lia). done. }
  assert (Hbl1 : block_length off len bw j ≤ len - bw) by (unfold block_length; lia).
  destruct e1 as [e1|].
  { eexists _, _, _, _, (Z.to_nat q1). split_and!; [done|lia|done|done|].
    intros Ha _. by destruct (Ha1 Ha) as [? _]. }
  destruct (He1 eq_refl) as [-> ->]. rewrite Nat2Z.id in Hw1'. rewrite <- Nat2Z.inj_add.
  pose proof (at_lt _ _ _ _ Hat) as Hbw. destruct (_ =? Z.of_nat len)%Z eqn:E; bool_prop.
  { eexists _, _, _, _, (block_length off len bw j). split_and!; [done|lia|done| |].
    - intros _. split_and!; [lia|lia|]. by eapply read_inv_kept.
    - intros Ha _. by apply Ha1. }
  destruct (at_block_advance _ _ _ _ Hat) as (Hat' & Hfull & Hnl); [lia|].
  apply Nat.eqb_neq in Hnl. rewrite Hfull. change (Z.of_nat j + 1)%Z with (Z.succ (Z.of_nat j)).
  rewrite <- Nat2Z.inj_succ.
  destruct (IH (bw + block_length off len bw j) (S j) st1 w1 Hat') as (w2 & ds & nw & e & q & -> & Hq & Hw2 & He & Ha).
  { assert (S j ≤ (off + len) / bs); [|lia]. destruct (at_block_index _ _ _ _ Hat') as [-> _].
    apply Nat.Div0.div_le_mono. destruct Hat'. lia. }
  { exists j, 0. by eapply read_inv_next_block. }
  exists w2, ds, nw, e, (block_length off len bw j + q). split_and!; [done|lia| | |].
  - rewrite Hw2, Hw1', <- app_assoc, Nat.add_assoc. f_equal. by rewrite <- take_take_drop, drop_drop.
  - intros ->. destruct (He eq_refl) as (? & ? & ?). split_and!; [lia|lia|done].
  - intros Hwa Hkg. apply Ha; [by apply Ha1|done].
Qed.

(** The state [erasureReadFile] starts from. *)
Lemma read_inv_start disks pool :
  length disks = n →
  (∀ i d, disks !! i = Some (Some d) → disk_sane i d) →
  (∀ i, i < n → good i = true → ∃ d, disks !! i = Some (Some d) ∧ disk_intact i d) →
  (∀ i d, disks !! i = Some (Some d) → kept i d) →
  pool_wf pool → n ≤ length (pool_used pool) → ceil_div bs k ≤ pool_size pool →
  read_inv 0 0 (next_block (ReadState disks [] (replicate (length disks) false) pool)).
Proof.
  intros Hl Hsane Hgood Hkept Hwf Hpl Hps.
  split; simpl; rewrite ?length_replicate; try done.
  - intros i od ob b Hd [-> Hi]%lookup_replicate [-> _]%lookup_replicate. split; try done.
    + intros d ->. by apply Hsane.
    + intros Hg. destruct (Hgood i) as (d & Hd' & Hint); [lia|done|]. simplify_eq. by exists d.
    + lia.
    + intros d ->. by apply Hkept.
  - by apply pool_Reset_wf.
  - by rewrite pool_Reset_in_use.
Qed.

Lemma erasureReadFile_ok disks pool (w : W) off len :
  length disks = k + m →
  (∀ i d, disks !! i = Some (Some d) → disk_sane i d) →
  (∀ i, i < k + m → good i = true → ∃ d, disks !! i = Some (Some d) ∧ disk_intact i d) →
  (∀ i d, disks !! i = Some (Some d) → kept i d) →
  pool_wf pool → k + m ≤ length (pool_used pool) → ceil_div bs k ≤ pool_size pool →
  0 < len → off + len ≤ length data → is_int64 (zlen data) →
  ∃ w' ds nw e,
    erasureReadFile fuel w disks v p (Z.of_nat off) (Z.of_nat len) (zlen data) (Z.of_nat bs)
      k m cks algo pool = Ret (w', ds, (nw, e)) ∧
    (∃ q, q ≤ len ∧ written w' = written w ++ take q (drop off data)) ∧
    (e = None → nw = Z.of_nat len ∧ written w' = written w ++ take len (drop off data) ∧
       disks_kept ds) ∧
    (w_accepts w → k ≤ good_count → e = None ∧ w_accepts w').
Proof.
  intros Hl Hsane Hgood Hkept Hwf Hpl Hps Hlen Hle Hint. unfold erasureReadFile.
  rewrite !(proj2 (Z.ltb_ge _ 0)) by lia. simpl orb. cbv iota.
  unfold is_int64, zlen in Hint. rewrite int64_wrap_id by (unfold is_int64; lia).
  rewrite (proj2 (Z.ltb_ge (zlen data) _)) by (unfold zlen; lia).
  rewrite getChunkSize_ceil by apply rs_k_pos. cbn [mbind go_bind].
  destruct (Z.of_nat bs =? 0)%Z eqn:E; bool_prop; [lia|].
  cbv zeta. rewrite <- Nat2Z.inj_add, (quot_nat (off + len)).
  destruct (erasureReadFile_loop_spec off len (Z.to_nat (Z.of_nat ((off + len) / bs) - Z.of_nat (off / bs) + 1))
     0 (off / bs) (ReadState disks [] (replicate (length disks) false) pool) w)
    as (w' & ds & nw & e & q & Heq & Hq & Hw & He & Ha).
  { split; try lia; done. }
  { pose proof (Nat.Div0.div_le_mono off (off + len) bs ltac:(lia)) as Hmono. revert Hmono.
    generalize ((off + len) / bs) (off / bs). lia. }
  { exists 0, 0. by apply read_inv_start. }
  rewrite Nat.add_0_r in Hw. rewrite (quot_nat off) in Heq |- *. exists w', ds, nw, e. split_and!; [exact Heq| | |done].
  - exists q. split; [lia|done].
  - intros ->. destruct (He eq_refl) as (-> & -> & Hk). rewrite Hw, Nat.sub_0_r. done.
Qed.

End ReadState.

Section ReadCorrect.
Context {D : Type} `{!StorageAPI D} `{!StorageContract D}.
Context `{Hashes} `{RS : ReedSolomon} (k m : nat) `{!RSContract k m}.
Context (bs : nat) (bs_pos : 0 < bs) (data : bytes) (v p : string).
Context (cks : list string) (algo : string) (fuel : nat) (good : nat → bool).
Context (cks_len : length cks = k + m) (fuel_pos : 0 < fuel).
Context {W : Type} `{!IOWriter W} `{!IOWriterContract W}.

Abbreviation disk_sane := (disk_sane k m bs data v p cks algo fuel).
Abbreviation disk_intact := (disk_intact k m bs data v p cks algo).


(** C16.  Reading an erasure-coded file is correct: [erasureReadFile] always
    returns; what it writes is a prefix of the requested range of the object;
    without an error it is the whole range and the count returned is its
    length, whatever the disks hold; and with as many intact disks as data
    blocks, and a writer that accepts its input, there is no error, whichever
    other disks are missing, corrupted or failing. *)
Theorem erasureReadFile_correct disks pool (w : W) off len :
  length disks = k + m →
  (∀ i d, disks !! i = Some (Some d) → disk_sane i d) →
  (∀ i, i < k + m → good i = true → ∃ d, disks !! i = Some (Some d) ∧ disk_intact i d) →
  pool_wf pool → k + m ≤ length (pool_used pool) → ceil_div bs k ≤ pool_size pool →
  0 < len → off + len ≤ length data → is_int64 (zlen data) →
  ∃ w' ds nw e,
    erasureReadFile fuel w disks v p (Z.of_nat off) (Z.of_nat len) (zlen data) (Z.of_nat bs)
      k m cks algo pool = Ret (w', ds, (nw, e)) ∧
    (∃ q, q ≤ len ∧ written w' = written w ++ take q (drop off data)) ∧
    (e = None → nw = Z.of_nat len ∧ written w' = written w ++ take len (drop off data)) ∧
    (w_accepts w → k ≤ good_count k m good → e = None).
Proof.
  intros ? ? ? ? ? ? ? ? ?.
  destruct (erasureReadFile_ok k m bs bs_pos data v p cks algo fuel good cks_len fuel_pos
    (λ _ _, True) ltac:(done) disks pool w off len) as (w' & ds & nw & e & ? & ? & He & Ha); [done..|].
  exists w', ds, nw, e. split_and!; [done|done| |].
  - intros E. by destruct (He E) as (? & ? & _).
  - intros Hw Hk. by destruct (Ha Hw Hk).
Qed.

End ReadCorrect.

(** ** Arguments out of range *)

(** A negative offset or length, or a range beyond the file, is refused before
    any disk is used. *)
Lemma erasureReadFile_bad_range {D} `{!StorageAPI D} `{Hashes} `{ReedSolomon} {W} `{!IOWriter W}
    fuel (w : W) (disks : list (option D)) v p off len total bs k m cks algo pool :
  (off < 0 ∨ len < 0 ∨ total < int64_wrap (off + len))%Z →
  erasureReadFile fuel w disks v p off len total bs k m cks algo pool =
    Ret (w, disks, (0%Z, traceError (Some (errUnexpected : error)) [])).
Proof.
  intros Hbad. unfold erasureReadFile.
  destruct (_ || _) eqn:E1; [done|]. bool_prop. destruct (_ <? int64_wrap _)%Z eqn:E2; [done|].
  bool_prop. lia.
Qed.

(** The bounds check overflows: for an offset and a length whose sum
    exceeds the largest [int64], [erasureReadFile] reports success without
    reading or writing a byte instead of refusing the range. *)
Theorem erasureReadFile_overflow {D} `{!StorageAPI D} `{Hashes} `{ReedSolomon} {W} `{!IOWriter W}
    fuel (w : W) (disks : list (option D)) v p off len total bs k m cks algo pool :
  (0 < bs ≤ off)%Z → is_int64 off → (0 < len)%Z → is_int64 len → (0 ≤ total)%Z →
  (2 ^ 63 ≤ off + len)%Z → 0 < k →
  erasureReadFile fuel w disks v p off len total bs k m cks algo pool =
    Ret (w, disks, (0%Z, None)).
Proof.
  unfold is_int64. intros Hbs Hoff Hl Hlen Htot Hov Hk. unfold erasureReadFile, getChunkSize.
  assert (Hw : int64_wrap (off + len) = (off + len - 2 ^ 64)%Z).
  { unfold int64_wrap. replace (off + len + 2 ^ 63)%Z with (off + len - 2 ^ 63 + 1 * 2 ^ 64)%Z by lia.
    rewrite Z.mod_add, Z.mod_small; lia. }
  rewrite !(proj2 (Z.ltb_ge _ 0)) by lia. simpl orb. cbv iota. rewrite Hw.
  rewrite (proj2 (Z.ltb_ge total _)) by lia. rewrite (proj2 (Nat.eqb_neq k 0)) by lia.
  cbn [mbind go_bind]. rewrite (proj2 (Z.eqb_neq bs 0)) by lia. cbv zeta.
  assert (Hend : ((off + len - 2 ^ 64) `quot` bs ≤ 0)%Z).
  { rewrite <- (Z.opp_involutive (off + len - 2 ^ 64)), Z.quot_opp_l by lia.
    pose proof (Z.quot_pos (- (off + len - 2 ^ 64)) bs). lia. }
  assert (Hst : (1 ≤ off `quot` bs)%Z).
  { rewrite Z.quot_div_nonneg by lia. apply Z.div_le_lower_bound; lia. }
  replace (Z.to_nat _) with 0 by lia. done.
Qed.

(** ** Witnesses *)

Definition read_data := bytes_of_string "hello, world".
Definition read_shard i := shard_file 2 1 5 read_data i.
Definition read_disk i : MemDisk :=
  {| mem_files := {[("v", "p") := read_shard i]}; mem_vols := {["v"]}; mem_offline := false |}.

(** The first disk is missing; the object is read from the other data shard
    and the parity shard. *)
Lemma erasureReadFile_correct_witness :
  ∃ ds,
    erasureReadFile 100 [] [None; Some (read_disk 1); Some (read_disk 2)] "v" "p" 3 7 (zlen read_data) 5 2 1
      (file_checksum 2 1 5 read_data blake2bAlgo <$> [0; 1; 2]) blake2bAlgo (NewBytePool 3 3) =
      Ret (bytes_of_string "lo, wor", ds, (7%Z, None)).
Proof.
  destruct (erasureReadFile_correct (D := MemDisk) (W := bytes) 2 1 5 ltac:(lia) read_data "v" "p"
    (file_checksum 2 1 5 read_data blake2bAlgo <$> [0; 1; 2]) blake2bAlgo 100
    (λ i, (i =? 1) || (i =? 2)) ltac:(done) ltac:(lia)
    [None; Some (read_disk 1); Some (read_disk 2)] (NewBytePool 3 3) [] 3 7)
    as (w' & ds & nw & e & Heq & _ & Hok & Hlive).
  - done.
  - intros i d Hd c Hc. assert (i = 1 ∧ d = read_disk 1 ∨ i = 2 ∧ d = read_disk 2) as [[-> ->] | [-> ->]]
      by (destruct i as [|[|[|i]]]; naive_solver).
    all: vm_compute in Hc; injection Hc as <-; split; [apply Nat.ltb_lt; vm_compute; done|done].
  - intros i _ Hi. assert (i = 1 ∨ i = 2) as [-> | ->] by (destruct i as [|[|[|i]]]; naive_solver).
    + exists (read_disk 1). split; [done|]. split_and!; [done|done|done|by vm_compute].
    + exists (read_disk 2). split; [done|]. split_and!; [done|done|done|by vm_compute].
  - apply NewBytePool_wf.
  - done.
  - apply Nat.leb_le. done.
  - lia.
  - apply Nat.leb_le. vm_compute. done.
  - vm_compute. split; done.
  - exists ds. specialize (Hlive I ltac:(apply Nat.leb_le; by vm_compute)).
    destruct (Hok Hlive) as [-> Hw]. simpl in Hw. rewrite Hlive, Hw in Heq. exact Heq.
Defined.

Lemma erasureReadFile_overflow_witness :
  erasureReadFile 1 [] [Some (read_disk 0)] "v" "p" (2 ^ 63 - 1) 1 12 5 1 0 [] blake2bAlgo
    (NewBytePool 3 3) = Ret ([] : bytes, [Some (read_disk 0)], (0%Z, None)).
Proof. apply erasureReadFile_overflow; unfold is_int64; lia. Defined.
