(* ===== verification/ErasureWrite.v ===== *)
(** * Writing erasure-coded files

    [erasureCreateFile] gives every disk that accepts the appends its shard
    file, with the checksum of that file; it fails when the reader fails, and
    succeeds when a write quorum of disks accepts the appends.  What was
    written can be read back. *)

From S2P Require Import Prelude.
From S2P Require Import GoErrors.
From S2P Require Import Quorum.
From S2P Require Import XLMeta.
From S2P Require Import Storage.
From S2P Require Import Bpool.
From S2P Require Import Erasure.
From S2P Require Import ErasureSpec.
From S2P Require Import XorCode.
From S2P Require Import ErasureRead.

(** ** Appending a block to every disk *)

Section Append.
Context {D : Type} `{!StorageAPI D} (v p : string).

(** The outcome of the append at index [i]. *)
Record append_slot (ds : list (option D)) (blocks hs : list bytes)
    (ds' : list (option D)) (hs' : list bytes) (errs : list (option error)) (i : nat) : Prop := {
  slot_disk : ∀ d b h,
    ds !! i = Some (Some d) → blocks !! i = Some b → hs !! i = Some h →
    ds' !! i = Some (Some (AppendFile d v p b).1) ∧
    hs' !! i = Some (match (AppendFile d v p b).2 with None => h ++ b | Some _ => h end) ∧
    errs !! i = Some (traceError (AppendFile d v p b).2 []);
  slot_nil : ds !! i = Some None →
    ds' !! i = Some None ∧ hs' !! i = hs !! i ∧ errs !! i = Some None;
}.

Lemma appendFile_disks_spec : ∀ (ds : list (option D)) blocks hs,
  length hs = length ds → length ds ≤ length blocks →
  ∃ ds' hs' errs, appendFile_disks ds v p blocks hs = Ret (ds', hs', errs) ∧
    length ds' = length ds ∧ length hs' = length ds ∧ length errs = length ds ∧
    ∀ i, append_slot ds blocks hs ds' hs' errs i.
Proof.
  induction ds as [|od ds IH]; intros blocks hs Hh Hb.
  { exists [], hs, []. split_and!; [done..|]. by split. }
  destruct hs as [|h hs]; [done|]. destruct blocks as [|b blocks]; [simpl in Hb; lia|].
  destruct (IH blocks hs) as (ds' & hs' & errs & Heq & Hl1 & Hl2 & Hl3 & Hs); [simpl in *; lia..|].
  destruct od as [d|]; simpl.
  - destruct (AppendFile d v p b) as [d' e] eqn:Ha. rewrite Heq. simpl.
    eexists _, _, _. split; [done|]. simpl. split_and!; [lia..|]. intros [|i]; [|by destruct (Hs i); split].
    split; [|done]. simpl. intros ? ? ? [= <-] [= <-] [= <-]. by rewrite Ha.
  - rewrite Heq. simpl. eexists _, _, _. split; [done|]. simpl. split_and!; [lia..|].
    intros [|i]; [|by destruct (Hs i); split]. by split.
Qed.

End Append.

(** Errors of disks that accept the append are votes for nil. *)
Lemma occ_None_good good errs ign :
  isErrIgnored None ign = false →
  (∀ i, i < length errs → good i = true → errs !! i = Some None) →
  count_good good (length errs) ≤ occ None (votes ign errs).
Proof.
  intros Hign Hg. unfold occ, votes.
  assert (Hlen : length errs = length (errorsCause errs)) by (unfold errorsCause; by rewrite length_map).
  rewrite Hlen, list_filter_filter. apply count_good_filter. intros i e Hi Hgi.
  assert (Hlt : i < length errs) by (rewrite Hlen; by eapply lookup_lt_Some).
  specialize (Hg i Hlt Hgi).
  assert (errorsCause errs !! i = Some None) as Hm; [|by simplify_eq].
  clear -Hg. revert i Hg. induction errs as [|x errs IH]; intros [|i] Hg; simplify_eq/=; auto.
Qed.

(** With a majority quorum of accepted appends, [appendFile] succeeds. *)
Lemma appendFile_quorum `{MapOrder} good errs wq :
  2 ≤ wq → length errs < 2 * wq → wq ≤ count_good good (length errs) →
  (∀ i, i < length errs → good i = true → errs !! i = Some None) →
  isDiskQuorum errs wq = true ∧ reduceWriteQuorumErrs errs objectOpIgnoredErrs wq = None.
Proof.
  intros Hwq Hmaj Hn Hg. split.
  - apply isDiskQuorum_count. pose proof (occ_None_good good errs quorumIgnoredErrs eq_refl Hg).
    unfold occ in *. pose proof (length_filter (λ x, err_eqb None x = true) (votes quorumIgnoredErrs errs)).
    lia.
  - pose proof (occ_None_good good errs objectOpIgnoredErrs eq_refl Hg).
    apply reduceQuorumErrs_nil; [done| |lia]. pose proof (length_votes objectOpIgnoredErrs errs). lia.
Qed.

(** ** Creating a file *)

Section Create.
Context {D : Type} `{!StorageAPI D} `{!StorageContract D} `{!MapOrder}.
Context `{Hashes} `{RS : ReedSolomon} (k m : nat) `{!RSContract k m}.
Context (bs : nat) (bs_pos : 0 < bs) (data : bytes) (v p : string) (wq : nat).
Context (ds0 : list (option D)) (acc missing : nat → bool).
(** A property of the disks that the appends preserve. *)
Context (kept : nat → option D → Prop).
Context (kept_append : ∀ i d b, kept i (Some d) → kept i (Some (AppendFile d v p b).1)).

Let n := k + m.

(** The disks of [acc] have appended [pre i] to the file they started with,
    and the hash of disk [i] has seen [pre i]; [ex] says that the file exists.
    The disks of [missing] are nil. *)
Record create_inv (ex : bool) (pre : nat → bytes) (ds : list (option D)) (hs : list bytes) : Prop := {
  create_disks : length ds = n;
  create_hashes : length hs = n;
  create_slots : ∀ i, i < n → acc i = true →
    ∃ d0 d, ds0 !! i = Some (Some d0) ∧ ds !! i = Some (Some d) ∧ accepts d v p ∧
      default [] (file_at d v p) = default [] (file_at d0 v p) ++ pre i ∧
      (ex = true → is_Some (file_at d v p)) ∧ hs !! i = Some (pre i);
  create_missing : ∀ i, i < n → missing i = true → ds !! i = Some None;
  create_kept : ∀ i x, ds !! i = Some x → kept i x;
}.

(** The disks that count towards the write quorum: the nil ones too. *)
Definition counted_disks : nat := count_good (λ i, acc i || missing i) n.

Lemma appendFile_step ex pre ds hs blocks b :
  create_inv ex pre ds hs → length blocks = n → (∀ i, i < n → blocks !! i = Some (b i)) →
  ∃ ds' hs' e, appendFile ds v p blocks hs wq = Ret (ds', hs', e) ∧
    create_inv true (λ i, pre i ++ b i) ds' hs' ∧
    (2 ≤ wq → n < 2 * wq → wq ≤ counted_disks → e = None).
Proof.
  intros [Hd Hh Hs Hm Hkp] Hbl Hb. unfold appendFile.
  destruct (appendFile_disks_spec v p ds blocks hs) as (ds' & hs' & errs & -> & Hl1 & Hl2 & Hl3 & Hslot);
    [lia..|]. simpl.
  assert (Hacc : ∀ i, i < n → acc i = true → ∃ d0 d d',
      ds0 !! i = Some (Some d0) ∧ default [] (file_at d v p) = default [] (file_at d0 v p) ++ pre i ∧
      AppendFile d v p (b i) = (d', None) ∧ accepts d' v p ∧
      ds' !! i = Some (Some d') ∧ hs' !! i = Some (pre i ++ b i) ∧ errs !! i = Some None).
  { intros i Hi Hai. destruct (Hs i Hi Hai) as (d0 & d & Hz0 & Hz1 & Ha & Hf & _ & Hhi).
    destruct (AppendFile_accepts d v p (b i) Ha) as (d' & Happ & Ha').
    destruct (slot_disk _ _ _ _ _ _ _ _ _ (Hslot i) d (b i) (pre i) Hz1 (Hb i Hi) Hhi) as (E1 & E2 & E3).
    rewrite Happ in E1, E2, E3. exists d0, d, d'. done. }
  assert (Hinv' : create_inv true (λ i, pre i ++ b i) ds' hs').
  { split; [lia|lia| |intros i Hi Hmi; by apply (slot_nil _ _ _ _ _ _ _ _ _ (Hslot i)), Hm|].
    2: { intros i x Hx. assert (Hi : i < n) by (apply lookup_lt_Some in Hx; lia).
         destruct (lookup_lt_is_Some_2 ds i) as [y Hy]; [lia|]. specialize (Hkp i y Hy).
         destruct (lookup_lt_is_Some_2 hs i) as [h Hhi]; [lia|]. destruct y as [d|].
         - destruct (slot_disk _ _ _ _ _ _ _ _ _ (Hslot i) d (b i) h Hy (Hb i Hi) Hhi) as [E _].
           rewrite E in Hx. injection Hx as <-. by apply kept_append.
         - destruct (slot_nil _ _ _ _ _ _ _ _ _ (Hslot i) Hy) as [E _]. rewrite E in Hx. by injection Hx as <-. }
    intros i Hi Hai. destruct (Hacc i Hi Hai) as (d0 & d & d' & Hz0 & Hf & Happ & Ha' & E1 & E2 & E3).
    exists d0, d'. pose proof (AppendFile_appends d v p (b i) d' Happ) as Hfile.
    split_and!; [done|done|done| |by rewrite Hfile|done].
    rewrite Hfile. simpl. by rewrite Hf, app_assoc. }
  assert (Hlive : 2 ≤ wq → n < 2 * wq → wq ≤ counted_disks →
            isDiskQuorum errs wq = true ∧ reduceWriteQuorumErrs errs objectOpIgnoredErrs wq = None).
  { intros Hz2 Hmaj Hq. apply (appendFile_quorum (λ i, acc i || missing i)); [lia|lia|by rewrite Hl3, Hd|].
    intros i Hi [Hai|Hmi]%orb_true_iff.
    - by destruct (Hacc i ltac:(lia) Hai) as (_ & _ & _ & _ & _ & _ & _ & _ & _ & ?).
    - apply (slot_nil _ _ _ _ _ _ _ _ _ (Hslot i)), Hm; [lia|done]. }
  destruct (isDiskQuorum errs wq); simpl; eexists _, _, _;
    (split_and!; [done|done|]); intros Hz2 Hmaj Hq; by destruct (Hlive Hz2 Hmaj Hq).
Qed.

(** The shards of the first [t] blocks. *)
Definition shard_prefix (t i : nat) : bytes := concat (shard k m bs data i <$> seq 0 t).

Lemma shard_prefix_S t i : shard_prefix (S t) i = shard_prefix t i ++ shard k m bs data i t.
Proof.
  unfold shard_prefix. rewrite seq_S, fmap_app, concat_app. simpl. by rewrite app_nil_r.
Qed.

Lemma create_inv_ext ex pre pre' ds hs :
  (∀ i, pre i = pre' i) → create_inv ex pre ds hs → create_inv ex pre' ds hs.
Proof.
  intros Hp [Hd Hh Hs Hm Hkp]. split; [done..| |done|done]. intros i Hi Hai. rewrite <- !Hp. by apply Hs.
Qed.

(** One read of the loop. *)
Lemma io_ReadFull_block t r :
  rd_data r = drop (t * bs) data →
  io_ReadFull r bs =
    ({| rd_data := drop (S t * bs) data; rd_err := rd_err r |},
     (block_at bs data t,
      if (length (block_at bs data t) =? bs)%nat then None
      else if err_eqb (Some (rd_err r)) (Some (io_EOF : error)) && negb (length (block_at bs data t) =? 0)%nat
      then Some (io_ErrUnexpectedEOF : error) else Some (rd_err r))).
Proof.
  intros Hr. unfold io_ReadFull. rewrite Hr. fold (block_at bs data t). rewrite drop_drop.
  do 3 f_equal. lia.
Qed.

(** What a run of the loop from block [t] on guarantees. *)
Definition create_result (r : reader) (res : go (list (option D) * (list bytes * Z * option error))) : Prop :=
  ∃ ds' hs' nw e, res = Ret (ds', (hs', nw, e)) ∧
    (e = None → rd_err r = (io_EOF : error) ∧ nw = zlen data ∧
       create_inv true (shard_prefix (nblocks bs data)) ds' hs') ∧
    (rd_err r = (io_EOF : error) → 2 ≤ wq → n < 2 * wq → wq ≤ counted_disks → e = None).

Lemma create_result_error r ds hs nw e :
  rd_err r ≠ (io_EOF : error) → create_result r (Ret (ds, (hs, nw, Some e))).
Proof. intros Hr. eexists _, _, _, _. split; [done|]. split; [done|]. congruence. Qed.

(** The read at the end of the input. *)
Lemma erasureCreateFile_loop_end fuel r ds hs :
  let t := nblocks bs data in
  create_inv (negb (t =? 0)) (shard_prefix t) ds hs → rd_data r = drop (t * bs) data →
  create_result r
    (erasureCreateFile_loop (S fuel) ds v p r bs (Z.of_nat k) (Z.of_nat m) wq hs
      (Z.of_nat (Nat.min (t * bs) (length data)))).
Proof.
  intros t Hinv Hr. cbn [erasureCreateFile_loop]. rewrite (io_ReadFull_block t r Hr).
  assert (Hge : length data ≤ t * bs) by (pose proof (nblocks_lt bs bs_pos data t); lia).
  assert (Hb0 : block_at bs data t = [])
    by (apply length_zero_iff_nil; rewrite block_at_length; lia).
  rewrite Hb0. simpl length. rewrite (proj2 (Nat.eqb_neq 0 bs)) by lia. simpl andb.
  rewrite andb_false_r.
  destruct (err_eqb (Some (rd_err r)) (Some (io_ErrUnexpectedEOF : error))) eqn:E1.
  { apply err_eqb_eq in E1. apply create_result_error. congruence. }
  destruct (err_eqb (Some (rd_err r)) (Some (io_EOF : error))) eqn:E2.
  2: { apply create_result_error. intros Hrd. rewrite Hrd in E2. done. }
  apply err_eqb_eq in E2. destruct (_ =? 0)%Z eqn:E3; bool_prop.
  - assert (Hlen : length (replicate (length ds) ([] : bytes)) = n)
      by (rewrite length_replicate; apply Hinv).
    destruct (appendFile_step _ _ ds hs (replicate (length ds) []) (λ _, []) Hinv Hlen)
      as (ds' & hs' & e & -> & Hinv' & Hlive).
    { intros i Hi. apply lookup_replicate_2. by rewrite (create_disks _ _ _ _ Hinv). }
    simpl. destruct e as [e|]; eexists _, _, _, _; (split; [done|]); split; try done.
    intros _. split_and!; [congruence|unfold zlen; lia|].
    eapply create_inv_ext; [|done]. intros i. simpl. by rewrite app_nil_r.
  - eexists _, _, _, _. split; [done|]. split; [|done]. intros _.
    split_and!; [congruence|unfold zlen; lia|]. fold t. destruct t as [|t']; [lia|]. done.
Qed.

Lemma erasureCreateFile_loop_spec : ∀ fuel t r ds hs,
  create_inv (negb (t =? 0)) (shard_prefix t) ds hs → t ≤ nblocks bs data →
  nblocks bs data - t < fuel → rd_data r = drop (t * bs) data →
  create_result r
    (erasureCreateFile_loop fuel ds v p r bs (Z.of_nat k) (Z.of_nat m) wq hs
      (Z.of_nat (Nat.min (t * bs) (length data)))).
Proof.
  induction fuel as [|fuel IH]; intros t r ds hs Hinv Ht Hfuel Hr; [lia|].
  destruct (decide (t = nblocks bs data)) as [->|Hne]; [by apply erasureCreateFile_loop_end|].
  cbn [erasureCreateFile_loop]. rewrite (io_ReadFull_block t r Hr).
  pose proof (block_at_pos bs bs_pos data t ltac:(lia)) as Hpos.
  pose proof (block_at_length bs data t) as Hbl.
  rewrite (proj2 (Nat.eqb_neq (length (block_at bs data t)) 0)) by lia.
  rewrite andb_false_l. change (negb false) with true. rewrite andb_true_r. cbv iota.
  set (rErr := if length (block_at bs data t) =? bs then None else _).
  assert (Hnoteof : err_eqb rErr (Some (io_EOF : error)) = false).
  { unfold rErr. destruct (_ =? bs); [done|].
    destruct (err_eqb (Some (rd_err r)) (Some (io_EOF : error))) eqn:E; [done|exact E]. }
  rewrite Hnoteof. destruct (match rErr with None => false | Some _ => _ end) eqn:Ec.
  { destruct rErr as [e0|] eqn:Er; [|done]. apply create_result_error. intros Hrd.
    unfold rErr in Er. rewrite Hrd in Er. destruct (_ =? bs); [done|]. simpl in Er. by simplify_eq. }
  rewrite (proj2 (Nat.ltb_lt 0 _)) by done.
  destruct (encoded_ok k m (block_at bs data t) Hpos) as (-> & Hel & _).
  destruct (appendFile_step _ _ ds hs (encoded k m (block_at bs data t))
              (λ i, shard k m bs data i t) Hinv Hel) as (ds' & hs' & e & -> & Hinv' & Hlive).
  { intros i Hi. apply (shard_lookup k m bs bs_pos); [lia|done]. }
  cbn [mbind go_bind]. destruct e as [e|].
  { eexists _, _, _, _. split; [done|]. split; [done|]. intros _ Hz2 Hm Hq. by specialize (Hlive Hz2 Hm Hq). }
  replace (Z.of_nat (Nat.min (t * bs) (length data)) + zlen (block_at bs data t))%Z
    with (Z.of_nat (Nat.min (S t * bs) (length data))) by (unfold zlen; lia).
  apply (IH (S t) {| rd_data := drop (S t * bs) data; rd_err := rd_err r |} ds' hs'); [|lia|lia|done].
  eapply create_inv_ext; [|done]. intros i. by rewrite shard_prefix_S.
Qed.

Lemma erasureCreateFile_ok fuel r algo :
  length ds0 = k + m →
  (∀ i, i < k + m → acc i = true → ∃ d, ds0 !! i = Some (Some d) ∧ accepts d v p) →
  (∀ i, i < k + m → missing i = true → ds0 !! i = Some None) →
  (∀ i x, ds0 !! i = Some x → kept i x) →
  rd_data r = data → nblocks bs data < fuel →
  ∃ ds' nw cks e,
    erasureCreateFile fuel ds0 v p r bs (Z.of_nat k) (Z.of_nat m) algo wq =
      Ret (ds', (nw, cks, e)) ∧
    (e = None → rd_err r = (io_EOF : error) ∧ nw = zlen data ∧ length cks = k + m ∧
       (length ds' = k + m ∧ ∀ i x, ds' !! i = Some x → kept i x) ∧
       ∀ i d, i < k + m → acc i = true → ds0 !! i = Some (Some d) →
         cks !! i = Some (file_checksum k m bs data algo i) ∧
         ∃ d', ds' !! i = Some (Some d') ∧
           file_at d' v p = Some (default [] (file_at d v p) ++ shard_file k m bs data i)) ∧
    (rd_err r = (io_EOF : error) → 2 ≤ wq → k + m < 2 * wq → wq ≤ counted_disks → e = None).
Proof.
  intros Hl Hacc Hmis Hkp Hr Hfuel. unfold erasureCreateFile.
  destruct (erasureCreateFile_loop_spec fuel 0 r ds0 (newHashWriters (length ds0)))
    as (ds' & hs' & nw & e & Heq & Hok & Hlive).
  { split; [done|unfold newHashWriters; by rewrite length_replicate| |done|done]. intros i Hi Hai.
    destruct (Hacc i Hi Hai) as (d & Hd & Ha). exists d, d. unfold shard_prefix, newHashWriters. simpl.
    rewrite app_nil_r, lookup_replicate_2 by lia. done. }
  { lia. } { lia. } { by rewrite Hr. }
  change (Z.of_nat (Nat.min (0 * bs) (length data))) with 0%Z in Heq. rewrite Heq. simpl.
  destruct e as [e|]; eexists _, _, _, _; (split; [done|]); split; try done.
  intros _. destruct (Hok eq_refl) as (Hrd & Hnw & Hinv). split_and!; [done|done| | | |].
  { rewrite length_fmap. apply Hinv. } { apply Hinv. } { apply Hinv. }
  intros i d Hi Hai Hd. destruct (create_slots _ _ _ _ Hinv i Hi Hai) as (d0 & d' & Hd0 & Hd' & _ & Hf & Hex & Hhs).
  rewrite Hd in Hd0. simplify_eq. split; [by rewrite list_lookup_fmap, Hhs|].
  exists d'. split; [done|]. destruct (Hex eq_refl) as [c Hc]. rewrite Hc in *. simpl in Hf. by rewrite Hf.
Qed.

End Create.

Section Created.
Context {D : Type} `{!StorageAPI D} `{!StorageContract D} `{!MapOrder}.
Context `{Hashes} `{RS : ReedSolomon} (k m : nat) `{!RSContract k m}.
Context (bs : nat) (bs_pos : 0 < bs) (data : bytes) (v p : string) (wq : nat).
Context (ds0 : list (option D)) (acc missing : nat → bool).

(** C17.  Writing an erasure-coded file is correct: [erasureCreateFile] always
    returns; it reports success only when the reader ended with [io.EOF], and
    then the count is the length of the input, every disk that accepted the
    appends has its shard file appended to the file it had, and its checksum
    is the one of that shard file; when the reader ends with [io.EOF] and a
    majority write quorum of disks accepts the appends or is missing (a nil
    disk counts as a success), it succeeds. *)
Theorem erasureCreateFile_correct fuel r algo :
  length ds0 = k + m →
  (∀ i, i < k + m → acc i = true → ∃ d, ds0 !! i = Some (Some d) ∧ accepts d v p) →
  (∀ i, i < k + m → missing i = true → ds0 !! i = Some None) →
  rd_data r = data → nblocks bs data < fuel →
  ∃ ds' nw cks e,
    erasureCreateFile fuel ds0 v p r bs (Z.of_nat k) (Z.of_nat m) algo wq =
      Ret (ds', (nw, cks, e)) ∧
    (e = None → rd_err r = (io_EOF : error) ∧ nw = zlen data ∧
       ∀ i d, i < k + m → acc i = true → ds0 !! i = Some (Some d) →
         cks !! i = Some (file_checksum k m bs data algo i) ∧
         ∃ d', ds' !! i = Some (Some d') ∧
           file_at d' v p = Some (default [] (file_at d v p) ++ shard_file k m bs data i)) ∧
    (rd_err r = (io_EOF : error) → 2 ≤ wq → k + m < 2 * wq → wq ≤ counted_disks k m acc missing → e = None).
Proof.
  intros Hl Hacc Hmis Hr Hfuel.
  destruct (erasureCreateFile_ok k m bs bs_pos data v p wq ds0 acc missing (λ _ _, True) ltac:(done)
    fuel r algo Hl Hacc Hmis ltac:(done) Hr Hfuel) as (ds' & nw & cks & e & Heq & Hok & Hlive).
  exists ds', nw, cks, e. split_and!; [done| |done]. intros He. by destruct (Hok He) as (? & ? & _ & _ & ?).
Qed.

End Created.

(** ** Round trip *)

Section RoundTrip.
Context {D : Type} `{!StorageAPI D} `{!StorageContract D} `{!MapOrder}.
Context `{Hashes} `{RS : ReedSolomon} (k m : nat) `{!RSContract k m}.
Context {W : Type} `{!IOWriter W} `{!IOWriterContract W}.

(** Round trip: what [erasureCreateFile] wrote to a new file,
    [erasureReadFile] reads back with the checksums it returned.  Any range of
    the input comes back exactly, as soon as as many disks as there are data
    blocks accepted the appends and still serve the file. *)
Theorem create_read_roundtrip (bs : nat) data v p wq ds0 acc fuel algo ds' nw cks
    (good : nat → bool) pool (w : W) off len rfuel :
  0 < bs → length ds0 = k + m →
  (∀ i, i < k + m → acc i = true →
     ∃ d, ds0 !! i = Some (Some d) ∧ accepts d v p ∧ file_at d v p = None) →
  nblocks bs data < fuel →
  erasureCreateFile fuel ds0 v p {| rd_data := data; rd_err := io_EOF : error |} bs
    (Z.of_nat k) (Z.of_nat m) algo wq = Ret (ds', (nw, cks, None)) →
  length ds' = k + m → length cks = k + m →
  (∀ i, i < k + m → good i = true → acc i = true ∧ ∀ d, ds' !! i = Some (Some d) → serves d v p) →
  (∀ i, file_checksum k m bs data algo i ≠ "") →
  (∀ i d, ds' !! i = Some (Some d) → disk_sane k m bs data v p cks algo rfuel i d) →
  k ≤ count_good good (k + m) → 0 < rfuel →
  pool_wf pool → k + m ≤ length (pool_used pool) → ceil_div bs k ≤ pool_size pool →
  0 < len → off + len ≤ length data → is_int64 (zlen data) → w_accepts w →
  ∃ w' ds'', erasureReadFile rfuel w ds' v p (Z.of_nat off) (Z.of_nat len) nw (Z.of_nat bs)
      k m cks algo pool = Ret (w', ds'', (Z.of_nat len, None)) ∧
    written w' = written w ++ take len (drop off data).
Proof.
  intros Hbs Hl Hacc Hfuel Hc Hl' Hlc Hgood Hne Hsane Hk Hrf Hwf Hpl Hps Hlen Hle Hint Hw.
  destruct (erasureCreateFile_ok k m bs Hbs data v p wq ds0 acc (λ _, false) (λ _ _, True) ltac:(done)
    fuel {| rd_data := data; rd_err := io_EOF : error |} algo Hl)
    as (ds1 & nw1 & cks1 & e1 & Hc1 & Hok & _).
  { intros i Hi Hai. destruct (Hacc i Hi Hai) as (d & ? & ? & ?). by exists d. }
  { done. } { done. } { done. } { done. }
  rewrite Hc in Hc1. injection Hc1 as <- <- <- <-. destruct (Hok eq_refl) as (_ & -> & _ & _ & Hfiles).
  destruct (erasureReadFile_ok k m bs Hbs data v p cks algo rfuel good Hlc Hrf
    (λ _ _, True) ltac:(done) ds' pool w off len)
    as (w' & ds'' & nw' & e & -> & _ & Hdone & Hlive); try done.
  - intros i Hi Hgi. destruct (Hgood i Hi Hgi) as [Hai Hserve].
    destruct (Hacc i Hi Hai) as (d0 & Hd0 & _ & Hnone).
    destruct (Hfiles i d0 Hi Hai Hd0) as (Hck & d' & Hd' & Hf).
    exists d'. split; [done|]. rewrite Hnone in Hf. simpl in Hf.
    split_and!; [by apply Hserve|done|done|apply Hne].
  - destruct (Hlive Hw Hk) as [-> _]. destruct (Hdone eq_refl) as (-> & Hw' & _). eauto.
Qed.

End RoundTrip.

(** ** Disks that fail for a while

    A disk whose appends fail as scheduled and which works otherwise. *)

Record FlakyDisk := { fl_disk : MemDisk; fl_fails : list bool }.

Definition flaky_lift {A} (d : FlakyDisk) (r : MemDisk * A) : FlakyDisk * A :=
  ({| fl_disk := r.1; fl_fails := fl_fails d |}, r.2).

#[export] Instance FlakyDisk_StorageAPI : StorageAPI FlakyDisk := {|
  Init d := flaky_lift d (Init (fl_disk d));
  Close d := flaky_lift d (Close (fl_disk d));
  DiskInfo d := flaky_lift d (DiskInfo (fl_disk d));
  MakeVol d v := flaky_lift d (MakeVol (fl_disk d) v);
  ListVols d := flaky_lift d (ListVols (fl_disk d));
  StatVol d v := flaky_lift d (StatVol (fl_disk d) v);
  DeleteVol d v := flaky_lift d (DeleteVol (fl_disk d) v);
  ListDir d v p := flaky_lift d (ListDir (fl_disk d) v p);
  ReadFile d v p off buf := flaky_lift d (ReadFile (fl_disk d) v p off buf);
  PrepareFile d v p n := flaky_lift d (PrepareFile (fl_disk d) v p n);
  AppendFile d v p b :=
    match fl_fails d with
    | true :: fails => ({| fl_disk := fl_disk d; fl_fails := fails |}, Some (errFaultyDisk : error))
    | fails =>
        let r := AppendFile (fl_disk d) v p b in ({| fl_disk := r.1; fl_fails := tail fails |}, r.2)
    end;
  RenameFile d sv sp dv dp := flaky_lift d (RenameFile (fl_disk d) sv sp dv dp);
  StatFile d v p := flaky_lift d (StatFile (fl_disk d) v p);
  DeleteFile d v p := flaky_lift d (DeleteFile (fl_disk d) v p);
  ReadAll d v p := flaky_lift d (ReadAll (fl_disk d) v p);
|}.

Definition flaky_disk (fails : list bool) : FlakyDisk :=
  {| fl_disk := {| mem_files := ∅; mem_vols := {["v"]}; mem_offline := false |}; fl_fails := fails |}.

(** Writing an object to three disks, of which the first fails its first
    append, and reading it back. *)
Definition flaky_write_read (data : bytes) : go (Z * option error * (bytes * (Z * option error))) :=
  '(ds, (nw, cks, e)) ← erasureCreateFile (H1 := map_order_id) 10
     [Some (flaky_disk [true]); Some (flaky_disk []); Some (flaky_disk [])] "v" "p"
     {| rd_data := data; rd_err := io_EOF : error |} 4 2 1 blake2bAlgo 2;
  '(out, _, r) ← erasureReadFile (W := bytes) 100 [] ds "v" "p" 0 (zlen data) (zlen data) 4 2 1 cks
     blake2bAlgo (NewBytePool 2 3);
  mret ((nw, e), (out, r)).

(** An append that fails once goes unnoticed: the write reports success,
    the file of that disk misses a block, the checksum recorded for it is that
    of the gapped file, and a read reports success with wrong data. *)
Theorem flaky_append_silent_corruption :
  ∃ out, flaky_write_read (bytes_of_string "hello, world") = Ret ((12%Z, None), (out, (12%Z, None))) ∧
    out ≠ bytes_of_string "hello, world".
Proof. eexists. split; [vm_compute; reflexivity|done]. Qed.

(** ** Witnesses *)

Definition fresh_disk : MemDisk :=
  {| mem_files := ∅; mem_vols := {["v"]}; mem_offline := false |}.

Definition create_disks3 : list (option MemDisk) := [Some fresh_disk; Some fresh_disk; None].

(** Two disks and a missing one. *)
Lemma erasureCreateFile_correct_witness :
  ∃ ds' cks,
    erasureCreateFile (H1 := map_order_id) 4 create_disks3 "v" "p"
      {| rd_data := read_data; rd_err := io_EOF : error |} 5 2 1 blake2bAlgo 2 =
      Ret (ds', (12%Z, cks, None)) ∧
    cks !! 0 = Some (file_checksum 2 1 5 read_data blake2bAlgo 0) ∧
    ∃ d', ds' !! 0 = Some (Some d') ∧ file_at d' "v" "p" = Some (shard_file 2 1 5 read_data 0).
Proof.
  destruct (erasureCreateFile_correct (H := map_order_id) (D := MemDisk) 2 1 5 ltac:(lia) read_data "v" "p" 2
    create_disks3 (λ i, i <? 2) (λ i, i =? 2) 4
    {| rd_data := read_data; rd_err := io_EOF : error |} blake2bAlgo)
    as (ds' & nw & cks & e & Heq & Hok & Hlive).
  - done.
  - intros i Hi Hai. exists fresh_disk. by destruct i as [|[|[|i]]].
  - intros i Hi Hmi. by destruct i as [|[|[|i]]].
  - done.
  - apply Nat.ltb_lt. vm_compute. done.
  - specialize (Hlive eq_refl ltac:(lia) ltac:(lia) ltac:(apply Nat.leb_le; by vm_compute)) as ->.
    destruct (Hok eq_refl) as (_ & -> & Hf).
    destruct (Hf 0 fresh_disk ltac:(lia) eq_refl eq_refl) as (Hck & d' & Hd' & Hfile).
    exists ds', cks. split_and!; [exact Heq|exact Hck|]. exists d'. split; [done|exact Hfile].
Defined.

Definition created : go (list (option MemDisk) * (Z * list string * option error)) :=
  erasureCreateFile (H1 := map_order_id) 4 create_disks3 "v" "p"
    {| rd_data := read_data; rd_err := io_EOF : error |} 5 2 1 blake2bAlgo 2.

Definition created_disks : list (option MemDisk) :=
  match created with Ret (ds, _) => ds | _ => [] end.

Definition created_checksums : list string :=
  match created with Ret (_, (_, cks, _)) => cks | _ => [] end.

Lemma create_read_roundtrip_witness :
  ∃ ds'', erasureReadFile 100 [] created_disks "v" "p" 3 7 12 5 2 1 created_checksums blake2bAlgo
      (NewBytePool 3 3) = Ret (bytes_of_string "lo, wor", ds'', (7%Z, None)).
Proof.
  destruct (create_read_roundtrip (H := map_order_id) (D := MemDisk) (W := bytes) 2 1 5 read_data "v" "p" 2
    create_disks3 (λ i, i <? 2) 4 blake2bAlgo created_disks 12 created_checksums
    (λ i, i <? 2) (NewBytePool 3 3) [] 3 7 100) as (w' & ds'' & Heq & Hw).
  - lia.
  - done.
  - intros i Hi Hai. exists fresh_disk. by destruct i as [|[|[|i]]].
  - apply Nat.ltb_lt. vm_compute. done.
  - vm_compute. reflexivity.
  - vm_compute. reflexivity.
  - vm_compute. reflexivity.
  - intros i Hi Hg. split; [done|]. intros d Hd. destruct i as [|[|[|i]]]; try done;
      vm_compute in Hd; injection Hd as <-; vm_compute; done.
  - intros i. unfold file_checksum, newHash. simpl. by destruct (shard_file _ _ _ _ _).
  - intros i d Hd c Hc. destruct i as [|[|[|i]]]; try done; vm_compute in Hd; injection Hd as <-;
      vm_compute in Hc; injection Hc as <-; (split; [apply Nat.ltb_lt; vm_compute; done|done]).
  - apply Nat.leb_le. vm_compute. done.
  - lia.
  - apply NewBytePool_wf.
  - done.
  - apply Nat.leb_le. done.
  - lia.
  - apply Nat.leb_le. vm_compute. done.
  - vm_compute. split; done.
  - done.
  - exists ds''. simpl in Hw. rewrite Hw in Heq. exact Heq.
Defined.
