(* ===== verification/ErasureHeal.v ===== *)
(** * Healing erasure-coded files

    [erasureHealFile] rebuilds the shard file of every outdated disk from the
    disks that hold the latest version. *)

From S2P Require Import Prelude.
From S2P Require Import GoErrors.
From S2P Require Import XLMeta.
From S2P Require Import Storage.
From S2P Require Import Erasure.
From S2P Require Import ErasureSpec.
From S2P Require Import XorCode.
From S2P Require Import ErasureRead.
From S2P Require Import ErasureWrite.

Section Heal.
Context {D : Type} `{!StorageAPI D} `{!StorageContract D}.
Context `{Hashes} `{RS : ReedSolomon} (k m : nat) `{!RSContract k m}.
Context (bs : nat) (bs_pos : 0 < bs) (data : bytes) (v p hv hp : string).
Context (good : nat → bool).

Let n := k + m.

(** ** Reading the latest disks *)

Lemma heal_read_lookup off chunk : ∀ ds,
  length (heal_read (D := D) ds v p off chunk).1 = length ds ∧
  length (heal_read ds v p off chunk).2 = length ds ∧
  ∀ i od, ds !! i = Some od →
    match od with
    | None => (heal_read ds v p off chunk).1 !! i = Some None ∧
              (heal_read ds v p off chunk).2 !! i = Some None
    | Some d =>
        let r := ReadFile d v p off (replicate chunk byte0) in
        (heal_read ds v p off chunk).1 !! i = Some (Some r.1) ∧
        (heal_read ds v p off chunk).2 !! i =
          Some (match r.2.2 with None => Some r.2.1.1 | Some _ => None end)
    end.
Proof.
  induction ds as [|od ds (IH1 & IH2 & IH3)]; [done|]. destruct od as [d|]; simpl.
  - destruct (ReadFile d v p off (replicate chunk byte0)) as [d' [[buf nr] e]] eqn:Hr.
    destruct (heal_read ds v p off chunk) as [ds' blocks]. simpl in *.
    split_and!; [lia|lia|]. intros [|i] od; simpl; [|apply IH3].
    intros [= <-]. by rewrite Hr.
  - destruct (heal_read ds v p off chunk) as [ds' blocks]. simpl in *.
    split_and!; [lia|lia|]. intros [|i] od; simpl; [by intros [= <-]|apply IH3].
Qed.

(** What is assumed of the latest disks: a file they hold is the shard file
    (healing does not verify checksums), and the good ones serve it. *)
Record latest_inv (ds : list (option D)) : Prop := {
  latest_len : length ds = n;
  latest_file : ∀ i d c, ds !! i = Some (Some d) → file_at d v p = Some c →
    c = shard_file k m bs data i;
  latest_good : ∀ i, i < n → good i = true →
    ∃ d, ds !! i = Some (Some d) ∧ serves d v p ∧ file_at d v p = Some (shard_file k m bs data i);
}.

(** The read of block [j] from the latest disks. *)
Definition heal_block ds j : list (option D) * list (option bytes) :=
  heal_read ds v p (Z.of_nat (j * ceil_div bs k)) (ceil_div (length (block_at bs data j)) k).

(** A good disk gives its shard and stays good. *)
Lemma heal_block_good ds j i :
  latest_inv ds → j < nblocks bs data → i < n → good i = true →
  ∃ d' b, (heal_block ds j).1 !! i = Some (Some d') ∧ serves d' v p ∧
    file_at d' v p = Some (shard_file k m bs data i) ∧ (heal_block ds j).2 !! i = Some (Some b).
Proof.
  intros [Hl Hf Hg] Hj Hi Hgi. destruct (Hg i Hi Hgi) as (d & Hd & Hs & Hfile).
  set (buf := replicate (ceil_div (length (block_at bs data j)) k) byte0).
  destruct (ReadFile_serves d v p (Z.of_nat (j * ceil_div bs k)) buf _ ltac:(lia) Hs Hfile)
    as (d' & Hr & Hs').
  destruct (heal_read_lookup (Z.of_nat (j * ceil_div bs k))
              (ceil_div (length (block_at bs data j)) k) ds) as (_ & _ & Hlk).
  destruct (Hlk i _ Hd) as [Hd' Hb]. fold buf in Hd', Hb.
  rewrite Hr, ?(shard_file_read k m bs bs_pos data i j) in Hd', Hb by (done || apply length_replicate).
  exists d', (shard k m bs data i j). split_and!; [done|done| |done].
  by rewrite (ReadFile_frame _ _ _ _ _ _ _ v p Hr).
Qed.

(** A block that is read is the shard. *)
Lemma heal_block_sound ds j i a :
  latest_inv ds → j < nblocks bs data → (heal_block ds j).2 !! i = Some a →
  a = None ∨ a = Some (shard k m bs data i j).
Proof.
  intros [Hl Hf Hg] Hj Ha.
  destruct (heal_read_lookup (Z.of_nat (j * ceil_div bs k))
              (ceil_div (length (block_at bs data j)) k) ds) as (_ & Hl2 & Hlk).
  fold (heal_block ds j) in Hl2, Hlk.
  assert (Hi : i < n) by (rewrite <- Hl, <- Hl2; by eapply lookup_lt_Some).
  destruct (lookup_lt_is_Some_2 ds i) as [[d|] Hd]; [lia| |]; destruct (Hlk i _ Hd) as [_ Hb];
    rewrite Hb in Ha; [|left; congruence].
  injection Ha as <-.
  destruct (ReadFile d v p _ _) as [d' [[buf nr] [e|]]] eqn:Hr; [by left|right].
  destruct (ReadFile_sound _ _ _ _ _ _ _ _ _ (Nat2Z.is_nonneg _) Hr (or_introl eq_refl)) as (c & Hc & Hrf).
  rewrite (Hf i d c Hd Hc), (shard_file_read k m bs bs_pos data i j) in Hrf
    by (done || apply length_replicate).
  by simplify_eq.
Qed.

Lemma heal_block_spec ds j :
  latest_inv ds → j < nblocks bs data →
  latest_inv (heal_block ds j).1 ∧
  Forall2 (λ a s, a = None ∨ a = Some s) (heal_block ds j).2 (encoded k m (block_at bs data j)) ∧
  count_good good n ≤ nsome (heal_block ds j).2.
Proof.
  intros Hinv Hj. pose proof (heal_block_good ds j) as Hgood.
  pose proof (heal_block_sound ds j) as Hblk.
  pose proof Hinv as [Hl Hf Hg].
  destruct (heal_read_lookup (Z.of_nat (j * ceil_div bs k))
              (ceil_div (length (block_at bs data j)) k) ds) as (Hl1 & Hl2 & Hlk).
  fold (heal_block ds j) in Hl1, Hl2, Hlk. split_and!.
  - split; [lia| |].
    + intros i d' c Hd' Hc. assert (Hi : i < length ds) by (rewrite <- Hl1; by eapply lookup_lt_Some).
      destruct (lookup_lt_is_Some_2 ds i Hi) as [[d|] Hd]; destruct (Hlk i _ Hd) as [Hd1 _];
        rewrite Hd1 in Hd'; simplify_eq.
      destruct (ReadFile d v p _ _) as [d' rr] eqn:Hr. simpl in Hc.
      rewrite (ReadFile_frame _ _ _ _ _ _ _ v p Hr) in Hc. by eapply Hf.
    + intros i Hi Hgi. destruct (Hgood i Hinv Hj Hi Hgi) as (d' & _ & ? & ? & ? & _). by exists d'.
  - apply Forall2_same_length_lookup. split.
    + rewrite Hl2, Hl. symmetry. by apply (encoded_ok k m (block_at bs data j)), block_at_pos.
    + intros i a s Ha Hs. assert (Hi : i < n) by (rewrite <- Hl, <- Hl2; by eapply lookup_lt_Some).
      destruct (shard_lookup k m bs bs_pos data i j Hj Hi) as [Hsh _]. simplify_eq. by apply Hblk.
  - rewrite nsome_filter. rewrite <- Hl at 1. rewrite <- Hl2. apply count_good_filter.
    intros i a Ha Hgi. assert (Hi : i < n) by (rewrite <- Hl, <- Hl2; by eapply lookup_lt_Some).
    destruct (Hgood i Hinv Hj Hi Hgi) as (_ & b & _ & _ & _ & Hb). simplify_eq. by eexists.
Qed.

(** ** Writing the outdated disks *)

Lemma heal_write_spec : ∀ ds (blocks : list bytes) hs,
  length hs = length ds → length ds ≤ length blocks →
  ∃ ds' hs' e, heal_write (D := D) ds hv hp (Some <$> blocks) hs = Ret (ds', hs', e) ∧
    length ds' = length ds ∧ length hs' = length ds ∧
    (e = None → ∀ i, 
      (∀ d b h, ds !! i = Some (Some d) → blocks !! i = Some b → hs !! i = Some h →
         ∃ d', AppendFile d hv hp b = (d', None) ∧ ds' !! i = Some (Some d') ∧
           hs' !! i = Some (h ++ b)) ∧
      (ds !! i = Some None → ds' !! i = Some None)) ∧
    ((∀ i d, ds !! i = Some (Some d) → accepts d hv hp) → e = None).
Proof.
  induction ds as [|od ds IH]; intros blocks hs Hh Hb.
  { exists [], hs, None. by split_and!. }
  destruct hs as [|h hs]; [done|]. destruct blocks as [|b blocks]; [simpl in Hb; lia|].
  destruct (IH blocks hs) as (ds' & hs' & e & Heq & Hl1 & Hl2 & Hok & Hlive); [simpl in *; lia..|].
  rewrite fmap_cons. destruct od as [d|]; cbn [heal_write tail].
  - cbv zeta. change (default [] (Some b)) with b. destruct (AppendFile d hv hp b) as [d' [e'|]] eqn:Ha.
    + eexists _, _, _. split; [done|]. split_and!; [done|simpl in *; lia|done|].
      intros Hacc. destruct (AppendFile_accepts d hv hp b (Hacc 0 d eq_refl)) as (? & Ha' & _). congruence.
    + rewrite Heq. simpl. eexists _, _, _. split; [done|]. simpl. split_and!; [lia|lia| |].
      * intros -> [|i]; [|by apply Hok]. split; [|done]. simpl. intros ? ? ? [= <-] [= <-] [= <-]. eauto.
      * intros Hacc. apply Hlive. intros i. apply (Hacc (S i)).
  - rewrite Heq. simpl. eexists _, _, _. split; [done|]. simpl. split_and!; [lia|lia| |].
    + intros -> [|i]; [|by apply Hok]. split; [|done]. simpl. by intros ? ? ? [=].
    + intros Hacc. apply Hlive. intros i. apply (Hacc (S i)).
Qed.

(** ** The block loop *)

Context (out0 : list (option D)).

(** The outdated disks have appended the shards of the first [t] blocks. *)
Record heal_inv (t : nat) (ds : list (option D)) (hs : list bytes) : Prop := {
  heal_len : length ds = n;
  heal_hashes : length hs = n;
  heal_slots : ∀ i d0, i < n → out0 !! i = Some (Some d0) →
    ∃ d, ds !! i = Some (Some d) ∧ (accepts d0 hv hp → accepts d hv hp) ∧
      default [] (file_at d hv hp) = default [] (file_at d0 hv hp) ++ shard_prefix k m bs data t i ∧
      (0 < t → is_Some (file_at d hv hp)) ∧ hs !! i = Some (shard_prefix k m bs data t i);
  heal_nil : ∀ i, out0 !! i = Some None → ds !! i = Some None;
}.

Lemma heal_inv_step t ds hs ds' hs' :
  length out0 = n → heal_inv t ds hs → t < nblocks bs data →
  length ds' = n → length hs' = n →
  (∀ i, (∀ d b h, ds !! i = Some (Some d) → encoded k m (block_at bs data t) !! i = Some b →
         hs !! i = Some h →
         ∃ d', AppendFile d hv hp b = (d', None) ∧ ds' !! i = Some (Some d') ∧
           hs' !! i = Some (h ++ b)) ∧
        (ds !! i = Some None → ds' !! i = Some None)) →
  heal_inv (S t) ds' hs'.
Proof.
  intros Ho [Hl Hh Hs Hn] Ht Hl' Hh' Hstep. split; [done|done| |].
  - intros i d0 Hi Hd0. destruct (Hs i d0 Hi Hd0) as (d & Hd & Hacc & Hf & Hex & Hhi).
    destruct (shard_lookup k m bs bs_pos data i t Ht Hi) as [Hsh _].
    destruct (proj1 (Hstep i) d _ _ Hd Hsh Hhi) as (d' & Happ & Hd' & Hhi').
    pose proof (AppendFile_appends _ _ _ _ _ Happ) as Hfile.
    exists d'. rewrite shard_prefix_S. split_and!; [done| | |by rewrite Hfile|done].
    + intros Ha0. destruct (AppendFile_accepts d hv hp (shard k m bs data i t) (Hacc Ha0))
        as (d2 & Happ2 & Ha2). rewrite Happ in Happ2. by simplify_eq.
    + rewrite Hfile. simpl. by rewrite Hf, app_assoc.
  - intros i Hi. by apply (Hstep i), Hn.
Qed.

Lemma erasureHealFile_loop_spec : length out0 = n → ∀ fuel t latest ds hs off,
  latest_inv latest → heal_inv t ds hs → t ≤ nblocks bs data → nblocks bs data - t < fuel →
  (t < nblocks bs data → off = Z.of_nat (t * ceil_div bs k)) →
  ∃ latest' ds' hs' e,
    erasureHealFile_loop fuel latest ds v p hv hp (Z.of_nat bs) k m hs off
      (Z.of_nat (length data - t * bs)) =
      Ret (latest', ds', (hs', e)) ∧
    (e = None → heal_inv (nblocks bs data) ds' hs') ∧
    (k ≤ count_good good n → (∀ i d, out0 !! i = Some (Some d) → accepts d hv hp) → e = None).
Proof.
  intros Ho. induction fuel as [|fuel IH]; intros t latest ds hs off Hlat Hinv Ht Hfuel Hoff; [lia|].
  cbn [erasureHealFile_loop]. pose proof (nblocks_lt bs bs_pos data t) as Hnb.
  destruct (_ <=? 0)%Z eqn:Erem; bool_prop.
  { assert (t = nblocks bs data) as -> by lia.
    eexists _, _, _, _. split; [done|]. split; [done|done]. }
  assert (Htlt : t < nblocks bs data) by lia. rewrite (Hoff Htlt).
  pose proof (block_at_length bs data t) as Hbl.
  assert (Hcur : (if Z.of_nat (length data - t * bs) <? Z.of_nat bs then Z.of_nat (length data - t * bs)
                  else Z.of_nat bs)%Z = Z.of_nat (length (block_at bs data t)))
    by (destruct (_ <? _)%Z eqn:E; bool_prop; lia).
  rewrite Hcur, getChunkSize_ceil by apply rs_k_pos. cbn [mbind go_bind].
  rewrite (proj2 (Z.ltb_ge _ 0)), Nat2Z.id by lia. fold (heal_block latest t).
  destruct (heal_block_spec latest t Hlat Htlt) as (Hlat' & Hav & Hcnt).
  destruct (heal_block latest t) as [latest' blocks]. simpl in Hlat', Hav, Hcnt.
  pose proof (block_at_pos bs bs_pos data t Htlt) as Hpos.
  destruct (encoded_ok k m (block_at bs data t) Hpos) as (_ & Hel & _).
  destruct (decide (k ≤ nsome blocks)) as [Hk|Hk].
  2: { destruct (decodeData_few k m blocks) as (out & e & ->); [|lia|].
       { rewrite (Forall2_length _ _ _ Hav). done. }
       eexists _, _, _, _. split; [done|]. split; [done|]. lia. }
  rewrite (encoded_reconstruct k m _ _ Hpos Hav Hk).
  destruct (heal_write_spec ds (encoded k m (block_at bs data t)) hs)
    as (ds' & hs' & e & -> & Hl1 & Hl2 & Hok & Hlive);
    [by rewrite (heal_hashes _ _ _ Hinv), (heal_len _ _ _ Hinv)|
     by rewrite (heal_len _ _ _ Hinv), Hel|].
  cbn [mbind go_bind]. destruct e as [e|].
  { eexists _, _, _, _. split; [done|]. split; [done|]. intros _ Hacc. apply Hlive.
    intros i d Hd. destruct (out0 !! i) as [[d0|]|] eqn:Hd0.
    - destruct (heal_slots _ _ _ Hinv i d0) as (d1 & Hd1 & Ha & _); [|done|].
      + rewrite <- Ho. by eapply lookup_lt_Some.
      + simplify_eq. apply Ha. by eapply Hacc.
    - apply (heal_nil _ _ _ Hinv) in Hd0. congruence.
    - apply lookup_ge_None in Hd0. apply lookup_lt_Some in Hd. rewrite (heal_len _ _ _ Hinv) in Hd. lia. }
  replace (Z.of_nat (length data - t * bs) - Z.of_nat (length (block_at bs data t)))%Z
    with (Z.of_nat (length data - S t * bs)) by lia.
  apply IH; [done| |lia|lia|].
  - apply (heal_inv_step t ds hs); try done; [by rewrite Hl1; apply Hinv|by rewrite Hl2; apply Hinv|].
    by apply Hok.
  - intros Hlt. rewrite (block_at_full bs bs_pos data t) by done. lia.
Qed.

Lemma erasureHealFile_spec fuel latest algo bitRotAlgo :
  latest_inv latest → length out0 = k + m → nblocks bs data < fuel →
  ∃ latest' out' cks e,
    erasureHealFile bitRotAlgo fuel latest out0 v p hv hp (zlen data) (Z.of_nat bs) k m algo =
      Ret (latest', out', (cks, e)) ∧
    (e = None → ∀ i d, i < k + m → out0 !! i = Some (Some d) →
       cks !! i = Some (file_checksum k m bs data bitRotAlgo i) ∧
       ∃ d', out' !! i = Some (Some d') ∧
         (0 < length data → file_at d' hv hp = Some (default [] (file_at d hv hp) ++ shard_file k m bs data i))) ∧
    (k ≤ count_good good (k + m) → (∀ i d, out0 !! i = Some (Some d) → accepts d hv hp) → e = None).
Proof.
  intros Hlat Ho Hfuel. unfold erasureHealFile.
  destruct (erasureHealFile_loop_spec Ho fuel 0 latest out0 (newHashWriters (length out0)) 0)
    as (latest' & out' & hs' & e & Heq & Hok & Hlive); [done| |lia|lia|done|].
  { split; [done|unfold newHashWriters; by rewrite length_replicate| |done].
    intros i d Hi Hd. exists d. unfold shard_prefix, newHashWriters. simpl.
    rewrite app_nil_r, lookup_replicate_2 by lia. split_and!; try done. lia. }
  replace (Z.of_nat (length data - 0 * bs)) with (zlen data) in Heq by (unfold zlen; f_equal; lia).
  rewrite Heq. cbn [mbind go_bind]. destruct e as [e|]; eexists _, _, _, _; (split; [done|]); split; try done.
  intros _ i d Hi Hd. pose proof (Hok eq_refl) as Hinv.
  destruct (heal_slots _ _ _ Hinv i d Hi Hd) as (d' & Hd' & _ & Hf & Hex & Hhi). split.
  - by rewrite lookup_zip_with, Hd', Hhi.
  - exists d'. split; [done|]. intros Hpos. destruct Hex as [c Hc].
    + apply nblocks_lt; [done|lia].
    + rewrite Hc in *. simpl in Hf. by rewrite Hf.
Qed.

(** C18.  Healing is correct: [erasureHealFile] always returns; without an
    error every outdated disk holds, after what the file had before, exactly
    its shard file, and the checksum returned for it is the one of that shard
    file under the server's default algorithm, and when as many latest disks
    as there are data blocks serve their file and the outdated disks accept
    the appends, there is no error.  An empty object is left alone. *)
Theorem erasureHealFile_correct fuel latest algo bitRotAlgo :
  latest_inv latest → length out0 = k + m → nblocks bs data < fuel →
  ∃ latest' out' cks e,
    erasureHealFile bitRotAlgo fuel latest out0 v p hv hp (zlen data) (Z.of_nat bs) k m algo =
      Ret (latest', out', (cks, e)) ∧
    (e = None → ∀ i d, i < k + m → out0 !! i = Some (Some d) →
       cks !! i = Some (file_checksum k m bs data bitRotAlgo i) ∧
       ∃ d', out' !! i = Some (Some d') ∧
         (0 < length data → file_at d' hv hp = Some (default [] (file_at d hv hp) ++ shard_file k m bs data i))) ∧
    (k ≤ count_good good (k + m) → (∀ i d, out0 !! i = Some (Some d) → accepts d hv hp) → e = None).
Proof. apply erasureHealFile_spec. Qed.

(** What the reads keep of the latest disks, and the appends of the outdated
    ones. *)
Section Keeps.
Context (Klat Kout : nat → option D → Prop).
Context (Klat_read : ∀ i d off buf, Klat i (Some d) → Klat i (Some (ReadFile d v p off buf).1)).
Context (Kout_append : ∀ i d b, Kout i (Some d) → Kout i (Some (AppendFile d hv hp b).1)).

Lemma heal_read_keeps off chunk base : ∀ ds,
  (∀ i x, ds !! i = Some x → Klat (base + i) x) →
  ∀ i x, (heal_read ds v p off chunk).1 !! i = Some x → Klat (base + i) x.
Proof.
  intros ds Hds i x Hx. destruct (heal_read_lookup off chunk ds) as (Hl & _ & Hlk).
  destruct (lookup_lt_is_Some_2 ds i) as [od Hod]; [rewrite <- Hl; by eapply lookup_lt_Some|].
  specialize (Hlk i od Hod). destruct od as [d|]; destruct Hlk as [Hd _]; rewrite Hd in Hx; injection Hx as <-.
  - by apply Klat_read, Hds.
  - by apply Hds.
Qed.

Lemma heal_write_keeps : ∀ ds blocks hs base ds' hs' e,
  heal_write ds hv hp blocks hs = Ret (ds', hs', e) →
  (∀ i x, ds !! i = Some x → Kout (base + i) x) →
  length ds' = length ds ∧ ∀ i x, ds' !! i = Some x → Kout (base + i) x.
Proof.
  induction ds as [|od ds IH]; intros blocks hs base ds' hs' e Hw HK.
  { simpl in Hw. by simplify_eq. }
  assert (HK' : ∀ i x, ds !! i = Some x → Kout (S base + i) x).
  { intros i x Hx. replace (S base + i) with (base + S i) by lia. by apply HK. }
  assert (Hcons : ∀ y l, Kout base y → length l = length ds → (∀ i x, l !! i = Some x → Kout (S base + i) x) →
    length (y :: l) = length (od :: ds) ∧ ∀ i x, (y :: l) !! i = Some x → Kout (base + i) x).
  { intros y l Hy Hl Hall. split; [simpl; lia|]. intros [|i] x Hx.
    - simpl in Hx. injection Hx as <-. by rewrite Nat.add_0_r.
    - replace (base + S i) with (S base + i) by lia. by apply Hall. }
  assert (Hod : Kout base od) by (specialize (HK 0 od eq_refl); by rewrite Nat.add_0_r in HK).
  cbn [heal_write] in Hw. destruct od as [d|], hs as [|h hs]; try done.
  - destruct blocks as [|b blocks]; [done|]. pose proof (Kout_append base d (default [] b) Hod) as Hd'.
    cbv zeta in Hw. destruct (AppendFile d hv hp (default [] b)) as [d' [e'|]].
    + simplify_eq. by apply Hcons.
    + destruct (heal_write ds hv hp blocks hs) as [[[ds1 hs1] e1]| |] eqn:E; try done.
      cbn [mbind go_bind mret go_ret] in Hw. unfold mret, go_ret in Hw. simplify_eq.
      destruct (IH _ _ (S base) _ _ _ E HK'). by apply Hcons.
  - destruct (heal_write ds hv hp (tail blocks) hs) as [[[ds1 hs1] e1]| |] eqn:E; try done.
      cbn [mbind go_bind mret go_ret] in Hw. unfold mret, go_ret in Hw. simplify_eq.
    destruct (IH _ _ (S base) _ _ _ E HK'). by apply Hcons.
Qed.

Lemma heal_loop_keeps : ∀ fuel latest out blockSize db pb hs off size latest' out' r,
  erasureHealFile_loop fuel latest out v p hv hp blockSize db pb hs off size = Ret (latest', out', r) →
  (∀ i x, latest !! i = Some x → Klat i x) → (∀ i x, out !! i = Some x → Kout i x) →
  (length latest' = length latest ∧ ∀ i x, latest' !! i = Some x → Klat i x) ∧
  (length out' = length out ∧ ∀ i x, out' !! i = Some x → Kout i x).
Proof.
  induction fuel as [|fuel IH]; intros latest out blockSize db pb hs off size latest' out' r Hh Hl Ho; [done|].
  cbn [erasureHealFile_loop] in Hh. destruct (size <=? 0)%Z; [by simplify_eq|].
  destruct (getChunkSize _ db) as [c| |]; try done. cbn [mbind go_bind] in Hh. destruct (c <? 0)%Z; [done|].
  pose proof (heal_read_keeps off (Z.to_nat c) 0 latest Hl) as Hl1.
  destruct (heal_read_lookup off (Z.to_nat c) latest) as (Hlen1 & _).
  destruct (heal_read latest v p off (Z.to_nat c)) as [lat1 blocks]. destruct (decodeData _ _ _) as [eb [e|]]; [by simplify_eq|].
  destruct (heal_write out hv hp eb hs) as [[[out1 hs1] e1]| |] eqn:E; try done. cbn [mbind go_bind] in Hh.
  destruct (heal_write_keeps _ _ _ 0 _ _ _ E Ho) as [Hlen2 Ho1]. destruct e1 as [e1|].
  - unfold mret, go_ret in Hh. by simplify_eq.
  - apply IH in Hh as [[? ?] [? ?]]; [|done..]. simpl in Hlen1. split; (split; [lia|done]).
Qed.

(** Healing with enough good disks: the outdated disks get their shards, and
    every disk keeps what the calls keep. *)
Lemma erasureHealFile_ok fuel latest algo bitRotAlgo :
  latest_inv latest → length out0 = k + m → nblocks bs data < fuel → 0 < length data →
  k ≤ count_good good (k + m) → (∀ i d, out0 !! i = Some (Some d) → accepts d hv hp) →
  (∀ i x, latest !! i = Some x → Klat i x) → (∀ i x, out0 !! i = Some x → Kout i x) →
  ∃ latest' out' cks,
    erasureHealFile bitRotAlgo fuel latest out0 v p hv hp (zlen data) (Z.of_nat bs) k m algo =
      Ret (latest', out', (cks, None)) ∧
    (length latest' = k + m ∧ ∀ i x, latest' !! i = Some x → Klat i x) ∧
    (length out' = k + m ∧ ∀ i x, out' !! i = Some x → Kout i x) ∧
    ∀ i d, i < k + m → out0 !! i = Some (Some d) →
      cks !! i = Some (file_checksum k m bs data bitRotAlgo i) ∧
      ∃ d', out' !! i = Some (Some d') ∧
        file_at d' hv hp = Some (default [] (file_at d hv hp) ++ shard_file k m bs data i).
Proof.
  intros Hlat Ho Hfuel Hpos Hk Hacc HKl HKo.
  destruct (erasureHealFile_spec fuel latest algo bitRotAlgo Hlat Ho Hfuel)
    as (latest' & out' & cks & e & Heq & Hok & Hlive).
  assert (e = None) as -> by (by apply Hlive). exists latest', out', cks. split; [done|].
  unfold erasureHealFile in Heq.
  destruct (erasureHealFile_loop _ _ _ _ _ _ _ _ _ _ _ _ _) as [[[l1 o1] [hs1 e1]]| |] eqn:E; try done.
  apply heal_loop_keeps in E as [[Hl1 HK1] [Hl2 HK2]]; [|done..].
  assert (l1 = latest' ∧ o1 = out') as [-> ->].
  { cbn [mbind go_bind] in Heq. unfold mret, go_ret in Heq. destruct e1; by simplify_eq. }
  rewrite (latest_len _ Hlat) in Hl1. rewrite Ho in Hl2. split_and!; [done|done|done|done|].
  intros i d Hi Hd. destruct (Hok eq_refl i d Hi Hd) as (Hck & d' & Hd' & Hf). split; [done|].
  exists d'. split; [done|]. by apply Hf.
Qed.

End Keeps.

End Heal.

(** ** Witness *)

(** The first disk is rebuilt from the two others; the algorithm asked for is
    SHA-256 and the checksum is BLAKE2b's. *)
Lemma erasureHealFile_correct_witness :
  ∃ latest' out' cks d',
    erasureHealFile blake2bAlgo 4 [None; Some (read_disk 1); Some (read_disk 2)]
      [Some fresh_disk; None; None] "v" "p" "v" "tmp" 12 5 2 1 sha256Algo =
      Ret (latest', out', (cks, None)) ∧
    cks !! 0 = Some (file_checksum 2 1 5 read_data blake2bAlgo 0) ∧
    out' !! 0 = Some (Some d') ∧ file_at d' "v" "tmp" = Some (read_shard 0).
Proof.
  destruct (erasureHealFile_correct (D := MemDisk) 2 1 5 ltac:(lia) read_data "v" "p" "v" "tmp"
    (λ i, (i =? 1) || (i =? 2)) [Some fresh_disk; None; None] 4
    [None; Some (read_disk 1); Some (read_disk 2)] sha256Algo blake2bAlgo)
    as (latest' & out' & cks & e & Heq & Hok & Hlive).
  - split; [done| |].
    + intros [|[|[|i]]] d c Hd Hc; try done; simpl in Hd; injection Hd as <-;
        vm_compute in Hc; injection Hc as <-; done.
    + intros [|[|[|i]]] Hi Hg; try done; eexists; (split; [done|]); split; done.
  - done.
  - apply Nat.ltb_lt. vm_compute. done.
  - assert (e = None) as ->.
    { apply Hlive; [apply Nat.leb_le; by vm_compute|].
      intros [|[|[|i]]] d Hd; try done. by injection Hd as <-. }
    destruct (Hok eq_refl 0 fresh_disk ltac:(lia) eq_refl) as (Hck & d' & Hd' & Hf).
    exists latest', out', cks, d'. split_and!; [exact Heq|done|done|].
    apply Hf. apply Nat.ltb_lt. by vm_compute.
Defined.
