(* ===== verification/Healing.v ===== *)
(** * Disks that are up to date

    The choice of the current version of an object among the disks and the
    healing decisions built on it (src/cmd/xl-v1-healing-common.go).  The map
    of occurrences is iterated in an unspecified order ([MapOrder]).  Slices
    of different lengths make the code panic. *)

From S2P Require Import Prelude.
From S2P Require Import GoErrors.
From S2P Require Import XLMeta.

Local Open Scope Z_scope.

(** ** Operations *)

(** [time.Unix(0, 0).UTC()]. *)
Definition timeSentinel : time := 0.

(** [timeOccurenceMap[time]++]; entries in insertion order. *)
Fixpoint timeOccurence_incr (t : time) (m : list (time * nat)) : list (time * nat) :=
  match m with
  | [] => [(t, 1%nat)]
  | (k, n) :: m' => if k =? t then (k, S n) :: m' else (k, n) :: timeOccurence_incr t m'
  end.

Definition timeOccurenceMap (modTimes : list time) : list (time * nat) :=
  fold_left (λ m t, if t =? timeSentinel then m else timeOccurence_incr t m) modTimes [].

(** The body of [for time, count := range timeOccurenceMap]. *)
Definition commonTime_step (acc entry : time * nat) : time * nat :=
  let '(modTime, maxima) := acc in
  let '(t, count) := entry in
  if (count =? maxima)%nat && (modTime <? t) then (t, count)
  else if (maxima <? count)%nat then (t, count)
  else acc.

(** The loop of [listObjectModtimes]: one disk; [bootModtimes] sets the time
    of a disk to the sentinel. *)
Definition object_modtime (timeNow : time) (metadata : xlMetaV1) (err : option error) : time :=
  match err with
  | None => ModTime (Stat metadata)
  | Some _ =>
      if err_eqb err (Some (errFileNotFound : error)) then timeNow else timeSentinel
  end.

Fixpoint listObjectModtimes (timeNow : time) (partsMetadata : list xlMetaV1)
    (errs : list (option error)) : go (list time) :=
  match partsMetadata, errs with
  | [], _ => Ret []
  | metadata :: partsMetadata', err :: errs' =>
      modTimes ← listObjectModtimes timeNow partsMetadata' errs';
      mret (object_modtime timeNow metadata err :: modTimes)
  | _ :: _, [] => Panic
  end.

(** The disks whose time is [modTime]. *)
Fixpoint disks_at {A} (modTime : time) (modTimes : list time) (disks : list (option A))
    : go (list (option A)) :=
  match modTimes, disks with
  | [], _ => Ret (replicate (length disks) None)
  | t :: modTimes', disk :: disks' =>
      onlineDisks ← disks_at modTime modTimes' disks';
      mret ((if t =? modTime then disk else None) :: onlineDisks)
  | _ :: _, [] => Panic
  end.

(** The loop of [outDatedDisks] over the latest disks. *)
Fixpoint outDated_from {A} (latestDisks disks : list (option A)) (errs : list (option error))
    : go (list (option A)) :=
  match latestDisks, disks, errs with
  | [], _, _ => Ret []
  | latest :: latestDisks', disk :: disks', err :: errs' =>
      outDated ← outDated_from latestDisks' disks' errs';
      mret ((if err_eqb (errorCause err) (Some (errFileNotFound : error)) then disk
             else match err with
                  | Some _ => None
                  | None => match latest with None => disk | Some _ => None end
                  end) :: outDated)
  | _, _, _ => Panic
  end.

Fixpoint shouldHeal_from (modTime : time) (partsMetadata : list xlMetaV1)
    (errs : list (option error)) : go bool :=
  match partsMetadata, errs with
  | [], _ => Ret false
  | metadata :: partsMetadata', err :: errs' =>
      if err_eqb err (Some (errDiskNotFound : error))
      then shouldHeal_from modTime partsMetadata' errs'
      else match err with
           | Some _ => Ret true
           | None =>
               if negb (modTime =? ModTime (Stat metadata)) then Ret true
               else shouldHeal_from modTime partsMetadata' errs'
           end
  | _ :: _, [] => Panic
  end.

Inductive healStatus := canHeal | corrupted | quorumUnavailable.

Record HealInfo := {
  HealStatus : healStatus;
  MissingDataCount : nat;
  MissingPartityCount : nat;
}.

(** The loop of [xlHealStat] from the disk [i] on. *)
Fixpoint missing_from (dataBlocks : Z) (distribution : list Z) (errs : list (option error))
    (missingData missingParity : nat) : go (nat * nat) :=
  match errs with
  | [] => Ret (missingData, missingParity)
  | err :: errs' =>
      let realErr := errorCause err in
      if err_eqb realErr (Some (errFileNotFound : error)) ||
         err_eqb realErr (Some (errDiskNotFound : error)) then
        match distribution with
        | [] => Panic
        | block :: distribution' =>
            if block - 1 <? dataBlocks
            then missing_from dataBlocks distribution' errs' (S missingData) missingParity
            else missing_from dataBlocks distribution' errs' missingData (S missingParity)
        end
      else missing_from dataBlocks (tail distribution) errs' missingData missingParity
  end.

Section Times.
Context `{MapOrder}.

(** Every map has an iteration order of its own in each loop; [range_order]
    stands for any of them. *)
Definition commonTime (modTimes : list time) : time * nat :=
  fold_left commonTime_step (range_order (timeOccurenceMap modTimes)) (zeroTime, 0%nat).

(** [timeNow] is [time.Now().UTC()]. *)
Definition listOnlineDisks {A} (timeNow : time) (disks : list (option A))
    (partsMetadata : list xlMetaV1) (errs : list (option error))
    : go (list (option A) * time) :=
  modTimes ← listObjectModtimes timeNow partsMetadata errs;
  let modTime := (commonTime modTimes).1 in
  onlineDisks ← disks_at modTime modTimes disks;
  mret (onlineDisks, modTime).

Definition outDatedDisks {A} (timeNow : time) (disks : list (option A))
    (partsMetadata : list xlMetaV1) (errs : list (option error)) : go (list (option A)) :=
  '(latestDisks, _) ← listOnlineDisks timeNow disks partsMetadata errs;
  outDated_from latestDisks disks errs.

Definition xlShouldHeal (timeNow : time) (partsMetadata : list xlMetaV1)
    (errs : list (option error)) : go bool :=
  modTimes ← listObjectModtimes timeNow partsMetadata errs;
  shouldHeal_from (commonTime modTimes).1 partsMetadata errs.

(** [readQuorum] and [dataBlocks] are the fields of [xl]. *)
Definition xlHealStat (readQuorum : nat) (dataBlocks : Z) (timeNow : time)
    (partsMetadata : list xlMetaV1) (errs : list (option error)) : go HealInfo :=
  modTimes ← listObjectModtimes timeNow partsMetadata errs;
  let '(modTime, count) := commonTime modTimes in
  if (count <? readQuorum)%nat then mret (Build_HealInfo quorumUnavailable 0 0)
  else
    let '(xlMeta, err) := pickValidXLMeta partsMetadata modTime in
    match err with
    | Some _ => mret (Build_HealInfo corrupted 0 0)
    | None =>
        '(missingDataCount, missingParityCount) ←
          missing_from dataBlocks (Distribution (Erasure xlMeta)) errs 0 0;
        mret (Build_HealInfo canHeal missingDataCount missingParityCount)
    end.

End Times.

(** ** Specification *)

Definition time_occ (t : time) (l : list time) : nat := length (filter (λ x, x = t) l).

(** The times that are counted. *)
Definition seen (modTimes : list time) : list time := filter (λ x, x ≠ timeSentinel) modTimes.

(** The most frequent of the counted times, the latest of them on a tie. *)
Definition is_common_time (modTimes : list time) (t : time) (n : nat) : Prop :=
  n = time_occ t (seen modTimes) ∧ (1 ≤ n)%nat ∧
  ∀ t', (time_occ t' (seen modTimes) ≤ n)%nat ∧ (time_occ t' (seen modTimes) = n → t' ≤ t).

(** ** Lemmas *)

Lemma time_occ_cons t x l : time_occ t (x :: l) = ((if (x =? t)%Z then 1 else 0) + time_occ t l)%nat.
Proof.
  unfold time_occ. rewrite filter_cons. destruct (Z.eqb_spec x t); [by rewrite decide_True|].
  by rewrite decide_False.
Qed.

Lemma time_occ_snoc t x l : time_occ t (l ++ [x]) = (time_occ t l + (if (x =? t)%Z then 1 else 0))%nat.
Proof.
  induction l as [|y l IH]; [simpl app; rewrite time_occ_cons; apply Nat.add_comm|].
  simpl app. rewrite !time_occ_cons, IH. lia.
Qed.

Lemma time_occ_pos t l : (1 ≤ time_occ t l)%nat ↔ t ∈ l.
Proof.
  induction l as [|x l IH]; [cbn; rewrite list_elem_of_In; simpl; lia|].
  rewrite time_occ_cons, elem_of_cons, <- IH. destruct (Z.eqb_spec x t); subst; split; auto; try lia.
Qed.

Lemma time_occ_le t l : (time_occ t l ≤ length l)%nat.
Proof. apply length_filter. Qed.

(** Two times cannot both occur in more than half of the list. *)
Lemma time_occ_disjoint t1 t2 l : t1 ≠ t2 → (time_occ t1 l + time_occ t2 l ≤ length l)%nat.
Proof.
  intros Hne. induction l as [|x l IH]; [done|]. rewrite !time_occ_cons. simpl.
  destruct (Z.eqb_spec x t1), (Z.eqb_spec x t2); subst; try done; lia.
Qed.

(** The map holds the number of occurrences of every time in [l]. *)
Definition times_ok (l : list time) (m : list (time * nat)) : Prop :=
  NoDup m.*1 ∧ (∀ k n, (k, n) ∈ m → n = time_occ k l) ∧ ∀ t, t ∈ m.*1 ↔ t ∈ l.

Lemma incr_keys t m t' : t' ∈ (timeOccurence_incr t m).*1 ↔ t' = t ∨ t' ∈ m.*1.
Proof.
  induction m as [|[k n] m IH]; simpl.
  - rewrite elem_of_cons. split; [intros [?|?%not_elem_of_nil]; auto; done|intros [?|?%not_elem_of_nil]; auto; done].
  - destruct (Z.eqb_spec k t) as [->|Hk]; simpl; rewrite !elem_of_cons; [tauto|]. rewrite IH. tauto.
Qed.

Lemma incr_nodup t m : NoDup m.*1 → NoDup (timeOccurence_incr t m).*1.
Proof.
  induction m as [|[k n] m IH]; simpl; intros Hm.
  - apply NoDup_singleton.
  - apply NoDup_cons in Hm as [Hk Hm]. destruct (Z.eqb_spec k t) as [->|Hne]; simpl.
    + by constructor.
    + constructor; [|auto]. rewrite incr_keys. intros [?|?]; done.
Qed.

Lemma incr_entries t m k n :
  NoDup m.*1 → (k, n) ∈ timeOccurence_incr t m →
  (k ≠ t ∧ (k, n) ∈ m) ∨ (k = t ∧ ∃ n', n = S n' ∧ ((t, n') ∈ m ∨ (n' = 0%nat ∧ t ∉ m.*1))).
Proof.
  induction m as [|[k0 n0] m IH]; simpl; intros Hm Hin.
  - apply list_elem_of_singleton in Hin as [= -> ->]. right. split; [done|]. exists 0%nat.
    split; [done|]. right. split; [done|apply not_elem_of_nil].
  - apply NoDup_cons in Hm as [Hk Hm]. destruct (Z.eqb_spec k0 t) as [->|Hne].
    + apply elem_of_cons in Hin as [[= -> ->]|Hin].
      * right. split; [done|]. exists n0. split; [done|]. left. constructor.
      * left. split; [|by constructor]. intros ->. apply Hk. by apply (list_elem_of_fmap_2 fst) in Hin.
    + apply elem_of_cons in Hin as [[= -> ->]|Hin]; [left; split; [done|constructor]|].
      destruct (IH Hm Hin) as [[? ?]|(-> & n' & -> & [Hn|[-> Hn]])].
      * left. split; [done|by constructor].
      * right. split; [done|]. exists n'. split; [done|]. left. by constructor.
      * right. split; [done|]. exists 0%nat. split; [done|]. right. split; [done|].
        rewrite elem_of_cons. intros [?|?]; done.
Qed.

Lemma times_ok_incr l t m : times_ok l m → times_ok (l ++ [t]) (timeOccurence_incr t m).
Proof.
  intros (Hnd & Hn & Hk). split_and!.
  - by apply incr_nodup.
  - intros k n Hin. rewrite time_occ_snoc.
    destruct (incr_entries t m k n Hnd Hin) as [[Hne Hm]|(-> & n' & -> & [Hm|[-> Hm]])].
    + apply Hn in Hm as ->. destruct (Z.eqb_spec t k); [by subst|lia].
    + apply Hn in Hm as ->. rewrite Z.eqb_refl. lia.
    + rewrite Z.eqb_refl. destruct (decide (t ∈ l)) as [?|Hl]; [by destruct Hm; apply Hk|].
      rewrite <- time_occ_pos in Hl. lia.
  - intros t'. rewrite incr_keys, elem_of_app, list_elem_of_singleton, Hk. tauto.
Qed.

Lemma timeOccurenceMap_ok modTimes : times_ok (seen modTimes) (timeOccurenceMap modTimes).
Proof.
  unfold timeOccurenceMap. change (seen modTimes) with ([] ++ seen modTimes).
  assert (Hgen : ∀ l m, times_ok l m → times_ok (l ++ seen modTimes)
    (fold_left (λ m t, if t =? timeSentinel then m else timeOccurence_incr t m) modTimes m)).
  { induction modTimes as [|t ts IH]; intros l m Hm; simpl; [by rewrite app_nil_r|].
    unfold seen. rewrite filter_cons. destruct (Z.eqb_spec t timeSentinel) as [->|Ht].
    - rewrite decide_False by tauto. by apply IH.
    - rewrite decide_True by done.
      replace (l ++ t :: _) with ((l ++ [t]) ++ seen ts) by (by rewrite <- app_assoc).
      apply IH. by apply times_ok_incr. }
  apply Hgen. split_and!; [constructor| |done]. intros k n Hkn. by apply not_elem_of_nil in Hkn.
Qed.

(** An entry is beaten by one with a larger count, or a later time. *)
Definition beats (a b : time * nat) : Prop := (b.2 < a.2)%nat ∨ (b.2 = a.2 ∧ b.1 ≤ a.1).

Lemma commonTime_loop es acc pre :
  (∀ e, e ∈ es → (1 ≤ e.2)%nat) →
  (pre = [] ∧ acc = (zeroTime, 0%nat)) ∨ (acc ∈ pre ∧ ∀ e, e ∈ pre → beats acc e) →
  let r := fold_left commonTime_step es acc in
  (pre ++ es = [] ∧ r = (zeroTime, 0%nat)) ∨
  (r ∈ pre ++ es ∧ ∀ e, e ∈ pre ++ es → beats r e).
Proof.
  revert acc pre. induction es as [|[t n] es IH]; intros [t0 n0] pre Hpos Hacc; simpl.
  { rewrite app_nil_r. destruct Hacc as [[-> ->]|Hacc]; auto. }
  replace (pre ++ (t, n) :: es) with ((pre ++ [(t, n)]) ++ es) by (by rewrite <- app_assoc).
  assert (Hn : (1 ≤ n)%nat) by (apply (Hpos (t, n)); constructor).
  apply IH; [intros e He; apply Hpos; by constructor|]. right.
  assert (Hlast : (t, n) ∈ pre ++ [(t, n)]) by (apply elem_of_app; right; by apply list_elem_of_singleton).
  destruct Hacc as [[-> [= -> ->]]|[Hin Hb]].
  - assert ((if (n =? 0)%nat && (zeroTime <? t) then (t, n)
             else if (0 <? n)%nat then (t, n) else (zeroTime, 0%nat)) = (t, n)) as ->.
    { destruct n; [lia|]. simpl. done. }
    split; [done|]. intros e He. apply list_elem_of_singleton in He as ->. right. simpl. lia.
  - destruct (Nat.eqb_spec n n0), (Z.ltb_spec t0 t), (Nat.ltb_spec n0 n); simpl; try lia.
    all: split; [first [done|apply elem_of_app; by left]|].
    all: intros x [Hx|Hx%list_elem_of_singleton]%elem_of_app;
      [specialize (Hb _ Hx); unfold beats in *; simpl in *; lia|subst x; unfold beats; simpl; lia].
Qed.

Section TimeFacts.
Context `{MapOrder}.

Lemma commonTime_spec modTimes :
  let '(t, n) := commonTime modTimes in
  (seen modTimes = [] ∧ t = zeroTime ∧ n = 0%nat) ∨ is_common_time modTimes t n.
Proof.
  destruct (timeOccurenceMap_ok modTimes) as (_ & Hn & Hk).
  assert (Hin : ∀ t, (1 ≤ time_occ t (seen modTimes))%nat →
            (t, time_occ t (seen modTimes)) ∈ range_order (timeOccurenceMap modTimes)).
  { intros t Ht%time_occ_pos%Hk. apply list_elem_of_fmap in Ht as ([t' n] & -> & Ht).
    simpl. rewrite <- (Hn _ _ Ht). by rewrite range_order_perm. }
  assert (Hpos : ∀ e, e ∈ range_order (timeOccurenceMap modTimes) → (1 ≤ e.2)%nat).
  { intros [k n] He. rewrite range_order_perm in He. simpl. rewrite (Hn _ _ He).
    apply time_occ_pos, Hk. by apply (list_elem_of_fmap_2 fst) in He. }
  destruct (commonTime_loop (range_order (timeOccurenceMap modTimes)) (zeroTime, 0%nat) [] Hpos)
    as [[Hnil Hr]|[Hr Hb]]; [by left|..]; unfold commonTime; simpl app in *.
  - rewrite Hr. left. split; [|done]. destruct (seen modTimes) as [|t l] eqn:Es; [done|].
    specialize (Hin t). rewrite Hnil in Hin. apply not_elem_of_nil in Hin; [done|].
    apply time_occ_pos. left.
  - destruct (fold_left _ _ _) as [t n]. right. assert (Hp := Hpos _ Hr). simpl in Hp.
    rewrite range_order_perm in Hr. assert (Hnn := Hn _ _ Hr). split_and!; [done|done|].
    intros t'. destruct (decide (1 ≤ time_occ t' (seen modTimes))%nat) as [Hge|]; [|lia].
    specialize (Hb _ (Hin t' Hge)). unfold beats in Hb. simpl in Hb. lia.
Qed.

(** More than half of the disks with the same time decide. *)
Lemma commonTime_majority modTimes t :
  t ≠ timeSentinel → (length modTimes < 2 * time_occ t modTimes)%nat →
  (commonTime modTimes).1 = t.
Proof.
  intros Ht Hmaj.
  assert (Hs : time_occ t (seen modTimes) = time_occ t modTimes).
  { unfold time_occ, seen. rewrite list_filter_filter. f_equal. apply list_filter_iff.
    intros x. split; [tauto|]. by intros ->. }
  assert (Hl : (length (seen modTimes) ≤ length modTimes)%nat) by apply length_filter.
  pose proof (commonTime_spec modTimes) as Hc. destruct (commonTime modTimes) as [t0 n0]. simpl.
  destruct Hc as [(Hnil & _)|(Hn & Hp & Hmax)].
  { rewrite Hnil in Hs. unfold time_occ at 1 in Hs. simpl in Hs. lia. }
  destruct (decide (t0 = t)) as [|Hne]; [done|].
  pose proof (time_occ_disjoint t0 t (seen modTimes) Hne). destruct (Hmax t) as [? _]. lia.
Qed.

End TimeFacts.

(** The loops over slices of the same length. *)
Lemma listObjectModtimes_ok now metas errs :
  length errs = length metas →
  listObjectModtimes now metas errs = Ret (zip_with (object_modtime now) metas errs).
Proof.
  revert errs. induction metas as [|m metas IH]; intros [|e errs] Hl; try done.
  simpl in *. by rewrite IH by lia.
Qed.

Lemma disks_at_ok {A} t modTimes (disks : list (option A)) :
  length disks = length modTimes →
  disks_at t modTimes disks = Ret (zip_with (λ t' d, if t' =? t then d else None) modTimes disks).
Proof.
  revert disks. induction modTimes as [|t' ts IH]; intros [|d ds] Hl; try done.
  simpl in *. by rewrite IH by lia.
Qed.

Lemma outDated_from_ok {A} (latest disks : list (option A)) errs :
  length disks = length latest → length errs = length latest →
  ∃ out, outDated_from latest disks errs = Ret out ∧ length out = length latest ∧
    ∀ i l d e, latest !! i = Some l → disks !! i = Some d → errs !! i = Some e →
      out !! i = Some
        (if err_eqb (errorCause e) (Some (errFileNotFound : error)) then d
         else match e with Some _ => None | None => match l with None => d | Some _ => None end end).
Proof.
  revert disks errs. induction latest as [|l latest IH]; intros [|d disks] [|e errs] Hd He; try done.
  { by exists []. }
  destruct (IH disks errs) as (out & Ho & Hlen & Hi); [simpl in *; lia..|]. simpl. rewrite Ho. simpl.
  eexists. split; [done|]. split; [simpl; lia|]. intros [|i] l' d' e'; simpl; [|apply Hi].
  by intros [= ->] [= ->] [= ->].
Qed.

(** A disk needs no healing if it is missing or has the current version. *)
Definition disk_current (t : time) (m : xlMetaV1) (e : option error) : Prop :=
  e = Some (errDiskNotFound : error) ∨ (e = None ∧ ModTime (Stat m) = t).

Lemma shouldHeal_from_ok t metas errs :
  length errs = length metas →
  ∃ b, shouldHeal_from t metas errs = Ret b ∧
    (b = false ↔ Forall2 (disk_current t) metas errs).
Proof.
  revert errs. induction metas as [|m metas IH]; intros [|e errs] Hl; try done.
  { exists false. split; [done|]. split; [constructor|done]. }
  destruct (IH errs) as (b & Hb & Hiff); [simpl in *; lia|]. simpl.
  assert (Hc : Forall2 (disk_current t) (m :: metas) (e :: errs) ↔ disk_current t m e ∧ b = false)
    by (rewrite Forall2_cons, Hiff; done).
  unfold disk_current at 2 in Hc.
  destruct (err_eqb e (Some (errDiskNotFound : error))) eqn:Ee.
  { apply err_eqb_eq in Ee as ->. exists b. split; [done|]. rewrite Hc. tauto. }
  destruct e as [e|].
  - exists true. split; [done|]. rewrite Hc. split; [done|]. intros [[[= ->]|[? _]] _]; done.
  - destruct (Z.eqb_spec t (ModTime (Stat m))) as [Et|Et]; simpl.
    + exists b. split; [done|]. rewrite Hc. split; [intros ->; split; [by right|done]|tauto].
    + exists true. split; [done|]. rewrite Hc. split; [done|]. intros [[?|[_ ?]] _]; done.
Qed.

(** A disk whose metadata was read has the version [t]. *)
Definition holds_version (t : time) (m : xlMetaV1) (e : option error) : bool :=
  match e with None => ModTime (Stat m) =? t | Some _ => false end.

(** The object is missing on a disk or has another version. *)
Definition lacks_version (t : time) (m : xlMetaV1) (e : option error) : bool :=
  match e with
  | None => negb (ModTime (Stat m) =? t)
  | Some _ => err_eqb (errorCause e) (Some (errFileNotFound : error))
  end.

Definition version_count (t : time) (metas : list xlMetaV1) (errs : list (option error)) : nat :=
  length (filter (λ b, b = true) (zip_with (holds_version t) metas errs)).

Section Versions.
Context `{MapOrder} {A : Type}.

Lemma object_modtime_eq now t m e :
  t ≠ timeSentinel → t ≠ now → (object_modtime now m e =? t) = holds_version t m e.
Proof.
  intros Ht Hn. unfold object_modtime, holds_version. destruct e as [e|]; [|done].
  destruct (err_eqb _ _); by apply Z.eqb_neq.
Qed.

Lemma version_count_occ now t metas errs :
  length errs = length metas → t ≠ timeSentinel → t ≠ now →
  time_occ t (zip_with (object_modtime now) metas errs) = version_count t metas errs.
Proof.
  unfold version_count. revert errs.
  induction metas as [|m metas IH]; intros [|e errs] Hl Ht Hn; try done.
  simpl zip_with. rewrite time_occ_cons, filter_cons, IH by (simpl in *; done || lia).
  rewrite object_modtime_eq by done. by destruct (holds_version t m e).
Qed.

Lemma listObjectModtimes_common now t metas errs :
  length errs = length metas → t ≠ timeSentinel → t ≠ now →
  (length metas < 2 * version_count t metas errs)%nat →
  (commonTime (zip_with (object_modtime now) metas errs)).1 = t.
Proof.
  intros Hl Ht Hn Hq. apply commonTime_majority; [done|].
  rewrite version_count_occ by done. rewrite length_zip_with. lia.
Qed.

Lemma listOnlineDisks_majority now t (disks : list (option A)) metas errs :
  length errs = length metas → length disks = length metas → t ≠ timeSentinel → t ≠ now →
  (length metas < 2 * version_count t metas errs)%nat →
  ∃ online, listOnlineDisks now disks metas errs = Ret (online, t) ∧
    length online = length disks ∧
    ∀ i m e d, metas !! i = Some m → errs !! i = Some e → disks !! i = Some d →
      online !! i = Some (if holds_version t m e then d else None).
Proof.
  intros Hl Hd Ht Hn Hq. unfold listOnlineDisks. rewrite listObjectModtimes_ok by done.
  cbn [mbind go_bind]. rewrite (listObjectModtimes_common now t) by done.
  rewrite disks_at_ok by (rewrite length_zip_with; lia). cbn [mbind go_bind].
  eexists. split; [done|]. split; [rewrite !length_zip_with; lia|].
  intros i m e d Hm He Hi. rewrite !lookup_zip_with, Hm, He, Hi. simpl. f_equal.
  by rewrite object_modtime_eq.
Qed.

Lemma outDatedDisks_majority now t (disks : list (option A)) metas errs :
  length errs = length metas → length disks = length metas → t ≠ timeSentinel → t ≠ now →
  (length metas < 2 * version_count t metas errs)%nat →
  ∃ out, outDatedDisks now disks metas errs = Ret out ∧ length out = length disks ∧
    ∀ i m e d, metas !! i = Some m → errs !! i = Some e → disks !! i = Some d →
      out !! i = Some (if lacks_version t m e then d else None).
Proof.
  intros Hl Hd Ht Hn Hq. unfold outDatedDisks.
  destruct (listOnlineDisks_majority now t disks metas errs) as (online & Heq & Hlen & Ho); [done..|].
  rewrite Heq. cbn [mbind go_bind].
  destruct (outDated_from_ok online disks errs) as (out & Hout & Hlo & Hi); [lia..|].
  exists out. split; [done|]. split; [lia|]. intros i m e d Hm He Hdi.
  specialize (Ho i m e d Hm He Hdi). rewrite (Hi i _ d e Ho Hdi He). f_equal.
  unfold holds_version, lacks_version. destruct e as [e|]; [done|]. simpl.
  destruct (ModTime (Stat m) =? t); simpl; [by destruct d|done].
Qed.

Lemma xlShouldHeal_majority now t metas errs :
  length errs = length metas → t ≠ timeSentinel → t ≠ now →
  (length metas < 2 * version_count t metas errs)%nat →
  ∃ b, xlShouldHeal now metas errs = Ret b ∧ (b = false ↔ Forall2 (disk_current t) metas errs).
Proof.
  intros Hl Ht Hn Hq. unfold xlShouldHeal. rewrite listObjectModtimes_ok by done.
  cbn [mbind go_bind]. rewrite (listObjectModtimes_common now t) by done.
  by apply shouldHeal_from_ok.
Qed.

(** C26.  The version of an object that more than half of the disks hold is the
    current one, whatever the other disks report and whatever order the map of
    times is iterated in: [listOnlineDisks] returns its time and exactly the
    disks that hold it, [outDatedDisks] exactly the disks where the object is
    missing or has another version, and [xlShouldHeal] is false exactly when
    every disk is missing or up to date. *)
Theorem current_version_selected now t (disks : list (option A)) metas errs :
  length errs = length metas → length disks = length metas → t ≠ timeSentinel → t ≠ now →
  (length metas < 2 * version_count t metas errs)%nat →
  ∃ online out b,
    listOnlineDisks now disks metas errs = Ret (online, t) ∧
    outDatedDisks now disks metas errs = Ret out ∧
    xlShouldHeal now metas errs = Ret b ∧
    (∀ i m e d, metas !! i = Some m → errs !! i = Some e → disks !! i = Some d →
      online !! i = Some (if holds_version t m e then d else None) ∧
      out !! i = Some (if lacks_version t m e then d else None)) ∧
    (b = false ↔ Forall2 (disk_current t) metas errs).
Proof.
  intros Hl Hd Ht Hn Hq.
  destruct (listOnlineDisks_majority now t disks metas errs) as (online & ? & _ & Ho); [done..|].
  destruct (outDatedDisks_majority now t disks metas errs) as (out & ? & _ & Hout); [done..|].
  destruct (xlShouldHeal_majority now t metas errs) as (b & ? & Hb); [done..|].
  exists online, out, b. split_and!; [done|done|done| |done].
  intros i m e d Hm He Hi. split; eauto.
Qed.

(** The time [commonTime] chooses does not depend on the iteration order
    of the map: it is the most frequent of the times, the sentinel apart, and
    the latest one on a tie; without any time it is the zero time, which no
    disk has. *)
Theorem commonTime_latest modTimes :
  let '(t, n) := commonTime modTimes in
  ((seen modTimes = [] ∧ t = zeroTime ∧ n = 0%nat) ∨ is_common_time modTimes t n) ∧
  ∀ O' : MapOrder, commonTime (H := O') modTimes = (t, n).
Proof.
  assert (Huniq : ∀ O' : MapOrder, commonTime (H := O') modTimes = commonTime (H := H) modTimes).
  { intros O'. pose proof (commonTime_spec (H := H) modTimes) as H1.
    pose proof (commonTime_spec (H := O') modTimes) as H2.
    destruct (commonTime (H := H) modTimes) as [t n], (commonTime (H := O') modTimes) as [t' n'].
    destruct H1 as [(Hs & -> & ->)|(Hn & Hp & Hm)], H2 as [(Hs' & -> & ->)|(Hn' & Hp' & Hm')].
    - done.
    - rewrite Hs in Hn'. unfold time_occ in Hn'. simpl in Hn'. lia.
    - rewrite Hs' in Hn. unfold time_occ in Hn. simpl in Hn. lia.
    - destruct (Hm t') as [? Hle], (Hm' t) as [? Hle']. assert (n = n') as -> by lia.
      f_equal. apply Z.le_antisymm; [apply Hle|apply Hle']; lia. }
  pose proof (commonTime_spec modTimes). destruct (commonTime modTimes) as [t n].
  split; [done|]. intros O'. apply Huniq.
Qed.

End Versions.

(** ** Witnesses *)

Definition demo_meta (t : time) : xlMetaV1 :=
  XLMetaV1 xlMetaVersion xlMetaFormat (StatInfo 10 t) erasureInfo_zero "" ∅ [].

(** Three of four disks have the version 7, one has the version 5. *)
Lemma current_version_selected_witness :
  ∃ online out b,
    listOnlineDisks (H := map_order_rev) 100 [Some 1; Some 2; Some 3; Some 4]
      (demo_meta <$> [7; 5; 7; 7]) [None; None; None; None] = Ret (online, 7) ∧
    outDatedDisks (H := map_order_rev) 100 [Some 1; Some 2; Some 3; Some 4]
      (demo_meta <$> [7; 5; 7; 7]) [None; None; None; None] = Ret out ∧
    online !! 0%nat = Some (Some 1) ∧ out !! 1%nat = Some (Some 2) ∧
    xlShouldHeal (H := map_order_rev) 100 (demo_meta <$> [7; 5; 7; 7]) [None; None; None; None]
      = Ret b.
Proof.
  destruct (current_version_selected (H := map_order_rev) 100 7 [Some 1; Some 2; Some 3; Some 4]
    (demo_meta <$> [7; 5; 7; 7]) [None; None; None; None]) as (online & out & b & H1 & H2 & H3 & H4 & _);
    [done|done|done|done|apply Nat.ltb_lt; by vm_compute|].
  exists online, out, b. split_and!; [done|done| | |done].
  - apply (H4 0%nat (demo_meta 7) None (Some 1)); done.
  - apply (H4 1%nat (demo_meta 5) None (Some 2)); done.
Defined.
