(* ===== verification/ObjCache.v ===== *)
(** * In-memory object cache

    The cache of whole objects and the capped writer that fills an entry
    (src/pkg/objcache/objcache.go, src/pkg/objcache/capped-writer.go).  Sizes of
    the cache are [uint64] and wrap.  The tuning of Go's garbage collector, the
    eviction callback and the goroutine that calls [gc] are left out. *)

From S2P Require Import Prelude.
From S2P Require Import GoErrors.

Local Open Scope Z_scope.

(** ** Operations *)

Definition DefaultBufferRatio : Z := 10.

Record buffer := Buffer { value : bytes; lastAccessed : Z }.

Record Cache := {
  maxSize : Z;
  maxCacheEntrySize : Z;
  currentSize : Z;
  totalEvicted : Z;
  entries : gmap string buffer;
  expiry : Z;
}.

(** [New(0, _)] panics. *)
Definition New (maxSize expiry : Z) : go Cache :=
  if maxSize =? 0 then Panic
  else
    let i := maxSize / DefaultBufferRatio in
    Ret {| maxSize := maxSize; maxCacheEntrySize := if i =? 0 then maxSize else i;
           currentSize := 0; totalEvicted := 0; entries := ∅; expiry := expiry |}.

(** The writer of an entry: its buffer has [cap] bytes, and none after
    [Reset]. *)
Record cappedWriter := CappedWriter { offset : Z; cap : Z; cbuffer : bytes }.

(** The writer is not used after [Reset], so the slice of the buffer is never
    out of range. *)
Definition capped_Write (c : cappedWriter) (b : bytes) : cappedWriter * (Z * option error) :=
  if cap c <? offset c + zlen b then (c, (0, Some (ErrExcessData : error)))
  else
    let o := Z.to_nat (offset c) in
    (CappedWriter (offset c + zlen b) (cap c)
       (take o (cbuffer c) ++ b ++ drop (o + length b) (cbuffer c)), (zlen b, None)).

Definition capped_Reset (c : cappedWriter) : cappedWriter := CappedWriter (offset c) (cap c) [].

Definition set_entries (c : Cache) (es : gmap string buffer) (size evicted : Z) : Cache :=
  {| maxSize := maxSize c; maxCacheEntrySize := maxCacheEntrySize c; currentSize := size;
     totalEvicted := evicted; entries := es; expiry := expiry c |}.

Definition Create (c : Cache) (key : string) (size : Z) : cappedWriter + error :=
  let valueLen := uint64_wrap size in
  if maxCacheEntrySize c <? valueLen then inr (ErrCacheFull : error)
  else if maxSize c <? uint64_wrap (currentSize c + valueLen) then inr (ErrCacheFull : error)
  else inl (CappedWriter 0 size (replicate (Z.to_nat size) byte0)).

(** [onClose] of the writer that [Create] returned for [key] and [size], at the
    time [now]. *)
Definition onClose (c : Cache) (key : string) (size now : Z) (cbuf : cappedWriter)
    : Cache * cappedWriter * option error :=
  if negb (size =? offset cbuf) then (c, capped_Reset cbuf, Some (io_ErrShortBuffer : error))
  else
    (set_entries c (<[key := Buffer (cbuffer cbuf) now]> (entries c))
       (uint64_wrap (currentSize c + uint64_wrap size)) (totalEvicted c), cbuf, None).

Definition cache_delete (c : Cache) (key : string) : Cache :=
  match entries c !! key with
  | None => c
  | Some buf =>
      set_entries c (delete key (entries c))
        (uint64_wrap (currentSize c - zlen (value buf))) (totalEvicted c + 1)
  end.

Definition Open (c : Cache) (key : string) (objModTime now : Z) : Cache * (bytes + error) :=
  match entries c !! key with
  | None => (c, inr (ErrKeyNotFoundInCache : error))
  | Some buf =>
      if lastAccessed buf <? objModTime then (cache_delete c key, inr (ErrKeyNotFoundInCache : error))
      else (set_entries c (<[key := Buffer (value buf) now]> (entries c)) (currentSize c)
              (totalEvicted c), inl (value buf))
  end.

Definition Delete (c : Cache) (key : string) : Cache := cache_delete c key.

Section GC.
Context `{MapOrder}.

(** A sweep at the time [now]: the expired entries are deleted. *)
Definition gc (c : Cache) (now : Z) : Cache :=
  fold_left
    (λ c' (e : string * buffer),
       if (0 <? expiry c) && (expiry c <? now - lastAccessed e.2) then cache_delete c' e.1 else c')
    (range_order (map_to_list (entries c))) c.

End GC.

(** ** Lemmas *)

(** Writing the chunks of an entry. *)
Fixpoint capped_writes (c : cappedWriter) (chunks : list bytes) : cappedWriter * option error :=
  match chunks with
  | [] => (c, None)
  | b :: chunks' =>
      let '(c', (_, err)) := capped_Write c b in
      match err with
      | Some e => (c', Some e)
      | None => capped_writes c' chunks'
      end
  end.

(** A writer that has received [b]. *)
Definition writer_has (w : cappedWriter) (b : bytes) : Prop :=
  offset w = zlen b ∧ 0 ≤ cap w ∧ (length (cbuffer w) = Z.to_nat (cap w))%nat ∧
  take (length b) (cbuffer w) = b ∧ zlen b ≤ cap w.

Lemma capped_Write_ok w b b' :
  writer_has w b → zlen (b ++ b') ≤ cap w →
  ∃ w', capped_Write w b' = (w', (zlen b', None)) ∧ writer_has w' (b ++ b') ∧ cap w' = cap w.
Proof.
  intros (Ho & Hc & Hl & Ht & Hb) Hcap. unfold capped_Write.
  assert (Hz : zlen (b ++ b') = zlen b + zlen b') by (unfold zlen; rewrite length_app; lia).
  rewrite (proj2 (Z.ltb_ge _ _)) by lia. eexists. split; [done|]. split; [|done].
  unfold writer_has. simpl. rewrite Ho. unfold zlen in *. rewrite Nat2Z.id, Ht.
  split_and!; [rewrite length_app; lia|done| | |].
  - rewrite !length_app, length_drop. rewrite length_app in Hcap. lia.
  - rewrite app_assoc. rewrite take_app_length. done.
  - lia.
Qed.

Lemma capped_writes_ok w b chunks :
  writer_has w b → zlen (b ++ concat chunks) ≤ cap w →
  ∃ w', capped_writes w chunks = (w', None) ∧ writer_has w' (b ++ concat chunks) ∧ cap w' = cap w.
Proof.
  revert w b. induction chunks as [|b' chunks IH]; intros w b Hw Hc; simpl in *.
  - rewrite app_nil_r. eauto.
  - destruct (capped_Write_ok w b b' Hw) as (w' & -> & Hw' & Hcap).
    { unfold zlen in *. rewrite !length_app in *. lia. }
    rewrite app_assoc in Hc |- *. destruct (IH w' (b ++ b') Hw') as (w'' & -> & Hw'' & Hcap'); [lia|].
    exists w''. split_and!; [done|done|lia].
Qed.

Lemma Create_inv c key size w :
  0 ≤ size → Create c key size = inl w → writer_has w [] ∧ cap w = size.
Proof.
  unfold Create. intros Hs. repeat (destruct (_ <? _); [done|]). intros [= <-].
  split; [|done]. unfold writer_has. cbn [offset cap cbuffer]. rewrite length_replicate.
  by split_and!.
Qed.

Lemma delete_lookup c key key' :
  entries (cache_delete c key) !! key' = if decide (key = key') then None else entries c !! key'.
Proof.
  unfold cache_delete. destruct (entries c !! key) eqn:E; simpl.
  - destruct (decide (key = key')) as [->|]; [by rewrite lookup_delete_eq|by rewrite lookup_delete_ne].
  - by destruct (decide (key = key')) as [<-|].
Qed.

(** ** Accounting *)

Definition total_size (es : gmap string buffer) : Z :=
  map_fold (λ _ b acc, zlen (value b) + acc) 0 es.

Definition entry_size (es : gmap string buffer) (key : string) : Z :=
  match es !! key with Some b => zlen (value b) | None => 0 end.

Lemma total_size_delete es key :
  total_size es = entry_size es key + total_size (delete key es).
Proof.
  unfold entry_size. destruct (es !! key) as [b|] eqn:E; [|by rewrite delete_id].
  unfold total_size. rewrite (map_fold_delete_L _ _ key b es); [done|intros; lia|done].
Qed.

Lemma total_size_insert es key b :
  total_size (<[key := b]> es) = zlen (value b) + total_size (delete key es).
Proof.
  rewrite (total_size_delete _ key). unfold entry_size.
  by rewrite lookup_insert_eq, delete_insert_eq.
Qed.

Lemma entry_size_nonneg es key : 0 ≤ entry_size es key.
Proof. unfold entry_size, zlen. destruct (es !! key); lia. Qed.

Lemma total_size_nonneg es : 0 ≤ total_size es.
Proof.
  induction es as [|k b es Hk IH] using map_ind; [done|].
  rewrite total_size_insert, delete_id by done. unfold zlen. lia.
Qed.

(** The size accounted for beyond the entries; the counter is in range. *)
Definition drift (c : Cache) : Z := currentSize c - total_size (entries c).
Definition counter_ok (c : Cache) : Prop := 0 ≤ drift c ∧ currentSize c < 2 ^ 64.

Lemma uint64_wrap_small z : 0 ≤ z < 2 ^ 64 → uint64_wrap z = z.
Proof. intros. by apply Z.mod_small. Qed.

Lemma cache_delete_drift c key :
  counter_ok c → counter_ok (cache_delete c key) ∧ drift (cache_delete c key) = drift c.
Proof.
  unfold counter_ok, drift, cache_delete. intros [Hd Hc].
  pose proof (total_size_delete (entries c) key) as Ht. unfold entry_size in Ht.
  destruct (entries c !! key) as [b|] eqn:E; [|done]. simpl.
  pose proof (total_size_nonneg (delete key (entries c))).
  assert (0 ≤ zlen (value b)) by (unfold zlen; lia).
  rewrite uint64_wrap_small by lia. lia.
Qed.

Lemma Open_drift c key t now :
  counter_ok c → counter_ok (Open c key t now).1 ∧ drift (Open c key t now).1 = drift c.
Proof.
  intros Hc. unfold Open. destruct (entries c !! key) as [b|] eqn:E; [|done].
  destruct (_ <? _); [by apply cache_delete_drift|]. simpl.
  unfold counter_ok, drift in *. simpl. rewrite total_size_insert. simpl.
  pose proof (total_size_delete (entries c) key) as Ht. unfold entry_size in Ht.
  rewrite E in Ht. lia.
Qed.

Lemma gc_drift `{MapOrder} c now :
  counter_ok c → counter_ok (gc c now) ∧ drift (gc c now) = drift c.
Proof.
  unfold gc. intros Hc. generalize (range_order (map_to_list (entries c))). intros es.
  assert (Hgen : ∀ c', counter_ok c' ∧ drift c' = drift c →
    let r := fold_left (λ c' (e : string * buffer),
       if (0 <? expiry c) && (expiry c <? now - lastAccessed e.2) then cache_delete c' e.1 else c')
       es c' in counter_ok r ∧ drift r = drift c); [|by apply Hgen].
  induction es as [|[k b] es IH]; intros c' [Hok Hd]; [done|]. simpl. apply IH.
  destruct (_ && _); [|done]. destruct (cache_delete_drift c' k Hok) as [? ->]. done.
Qed.

Lemma onClose_drift c key size now w :
  counter_ok c → 0 ≤ size → zlen (cbuffer w) = size → currentSize c + size < 2 ^ 64 →
  let c' := (onClose c key size now w).1.1 in
  counter_ok c' ∧
  drift c' = drift c + (if size =? offset w then entry_size (entries c) key else 0).
Proof.
  intros Hok Hs Hl Hov. unfold onClose. destruct (size =? offset w) eqn:E; simpl; [|split; [done|lia]].
  unfold counter_ok, drift in *. simpl. rewrite total_size_insert. simpl.
  pose proof (total_size_delete (entries c) key).
  pose proof (entry_size_nonneg (entries c) key).
  pose proof (total_size_nonneg (entries c)).
  rewrite (uint64_wrap_small size), uint64_wrap_small by lia. lia.
Qed.

(** ** Properties *)

(** C38.  What is written to the cache is what it serves: a writer that [Create]
    returned accepts any chunks up to the size it was created for; closed with
    all of them it stores the object, and [Open] then returns it for every
    modification time that is not after the write, while for a later one it
    drops the entry; closed before all of them it stores nothing. *)
Theorem cache_serves_written c key size w chunks now :
  0 ≤ size → Create c key size = inl w → zlen (concat chunks) ≤ size →
  ∃ w', capped_writes w chunks = (w', None) ∧
    let '(c', _, err) := onClose c key size now w' in
    (zlen (concat chunks) = size →
       err = None ∧
       ∀ t now', let '(c'', r) := Open c' key t now' in
         if now <? t then r = inr (ErrKeyNotFoundInCache : error) ∧ entries c'' !! key = None
         else r = inl (concat chunks)) ∧
    (zlen (concat chunks) < size → err = Some (io_ErrShortBuffer : error) ∧ c' = c).
Proof.
  intros Hs Hc Hl. destruct (Create_inv _ _ _ _ Hs Hc) as [Hw Hcap].
  destruct (capped_writes_ok w [] chunks Hw) as (w' & Hw' & (Ho & _ & Hbl & Hbt & _) & Hcap');
    [simpl; lia|].
  simpl app in *. exists w'. split; [done|]. unfold onClose. rewrite Ho.
  destruct (Z.eqb_spec size (zlen (concat chunks))) as [E|E]; simpl; split; try lia.
  - intros _. split; [done|]. intros t now'. unfold Open. simpl. rewrite lookup_insert_eq. simpl.
    assert (cbuffer w' = concat chunks) as Hbuf.
    { rewrite <- Hbt. symmetry. apply take_ge. unfold zlen in *. lia. }
    destruct (now <? t); simpl; [|by rewrite Hbuf].
    split; [done|]. rewrite delete_lookup. by rewrite decide_True.
  - intros _. done.
Qed.

Definition demo_cache : Cache :=
  {| maxSize := 20; maxCacheEntrySize := 10; currentSize := 0; totalEvicted := 0; entries := ∅;
     expiry := 0 |}.

Lemma cache_serves_written_witness :
  ∃ w w', Create demo_cache "b/o" 5 = inl w ∧
    capped_writes w [bytes_of_string "ab"; bytes_of_string "cde"] = (w', None) ∧
    (onClose demo_cache "b/o" 5 100 w').2 = None.
Proof.
  eexists. assert (H : Create demo_cache "b/o" 5 = inl (CappedWriter 0 5 (replicate 5 byte0))) by done.
  destruct (cache_serves_written demo_cache "b/o" 5 _ [bytes_of_string "ab"; bytes_of_string "cde"] 100
    ltac:(lia) H ltac:(by vm_compute)) as (w' & Hw & Hc).
  exists w'. split; [exact H|]. split; [exact Hw|].
  destruct (onClose demo_cache "b/o" 5 100 w') as [[c' w''] err].
  destruct Hc as [Hc _]. by apply Hc.
Defined.

(** The size counter of the cache is exact except that replacing an entry
    leaks it: with the drift the difference of the counter and the sizes of the
    entries, [Open], [Delete] and [gc] keep the drift, and closing a writer
    adds to it the size of the entry that it replaces. *)
Theorem cache_accounting `{MapOrder} c key size now t w :
  counter_ok c → 0 ≤ size → zlen (cbuffer w) = size → currentSize c + size < 2 ^ 64 →
  drift (Open c key t now).1 = drift c ∧ drift (Delete c key) = drift c ∧
  drift (gc c now) = drift c ∧
  drift (onClose c key size now w).1.1 =
    drift c + (if size =? offset w then entry_size (entries c) key else 0).
Proof.
  intros. split_and!; [by apply Open_drift|by apply cache_delete_drift|by apply gc_drift|].
  by apply onClose_drift.
Qed.

(** Two readers of the same object that both missed the cache: the second one
    to finish replaces the entry of the first. *)
Lemma cache_accounting_witness :
  let w := CappedWriter 10 10 (replicate 10 byte0) in
  let c1 := (onClose demo_cache "b/o" 10 100 w).1.1 in
  let c2 := (onClose c1 "b/o" 10 101 w).1.1 in
  drift c2 = drift c1 + 10 ∧
  entries (Delete c2 "b/o") = ∅ ∧ Create (Delete c2 "b/o") "b/p" 10 = inl (CappedWriter 0 10 (replicate 10 byte0)).
Proof.
  split_and!; [|by vm_compute|by vm_compute].
  apply (cache_accounting (H := map_order_id)
    (onClose demo_cache "b/o" 10 100 (CappedWriter 10 10 (replicate 10 byte0))).1.1
    "b/o" 10 101 0 (CappedWriter 10 10 (replicate 10 byte0)));
    [split; by vm_compute|lia|by vm_compute|by vm_compute].
Defined.

(** The leak makes the cache useless: three readers of an object miss the
    cache, [Create] gives each a writer, and all fill the same entry; once the
    entry is deleted the cache is empty and refuses every entry. *)
Theorem cache_leak_refuses :
  let data := replicate 10 "x"%char in
  let w := (capped_Write (CappedWriter 0 10 (replicate 10 byte0)) data).1 in
  let close c now := (onClose c "b/o" 10 now w).1.1 in
  let c := Delete (close (close (close demo_cache 100) 101) 102) "b/o" in
  Create demo_cache "b/o" 10 = inl (CappedWriter 0 10 (replicate 10 byte0)) ∧
  entries c = ∅ ∧ currentSize c = 20 ∧ Create c "b/p" 1 = inr (ErrCacheFull : error).
Proof. by vm_compute. Qed.
