(* ===== verification/LockServer.v ===== *)
(** * Lock server

    The RPC handlers of the distributed lock server (src/cmd/lock-rpc-server.go,
    src/cmd/lock-rpc-server-common.go).  Every handler runs under the server's
    mutex, so a handler is one step; lock maintenance takes the mutex once to
    collect old locks and once per lock it purges, so other handlers can run in
    between.

    The handlers refine an abstract lock per resource: free, held by one
    writer, or held by readers. *)

From S2P Require Import Prelude.
From S2P Require Import GoErrors.
From stdpp Require Import pretty.

(** ** Data *)

Record lockRequesterInfo := LockRequesterInfo {
  lri_writer : bool;
  lri_node : string;
  lri_rpcPath : string;
  lri_uid : string;
  lri_timestamp : Z;
  lri_timeLastCheck : Z;
}.

(** [dsync.LockArgs], with the outcome of [IsAuthenticated]. *)
Record LockArgs := {
  UID : string;
  Resource : string;
  ServerAddr : string;
  ServiceEndpoint : string;
  IsAuthenticated : option error;
}.

Abbreviation lock_map := (gmap string (list lockRequesterInfo)).

Record lockServer := LockServer { ls_rpcPath : string; lockMap : lock_map }.

Record nameLockRequesterInfoPair := { nlrip_name : string; nlrip_lri : lockRequesterInfo }.

(** ** Operations *)

Definition isWriteLock (lri : list lockRequesterInfo) : bool :=
  match lri with
  | [entry] => lri_writer entry
  | _ => false
  end.

Definition set_lockMap (l : lockServer) (m : lock_map) : lockServer :=
  LockServer (ls_rpcPath l) m.

(** The slice without the first entry of [uid], if there is one. *)
Fixpoint remove_uid (uid : string) (lri : list lockRequesterInfo)
    : option (list lockRequesterInfo) :=
  match lri with
  | [] => None
  | entry :: lri' =>
      if bool_decide (lri_uid entry = uid) then Some lri'
      else match remove_uid uid lri' with
           | Some r => Some (entry :: r)
           | None => None
           end
  end.

Definition removeEntry (l : lockServer) (name uid : string) (lri : list lockRequesterInfo)
    : lockServer * bool :=
  match remove_uid uid lri with
  | None => (l, false)
  | Some lri' =>
      if (length lri =? 1)%nat then (set_lockMap l (delete name (lockMap l)), true)
      else (set_lockMap l (<[name := lri']> (lockMap l)), true)
  end.

Definition removeEntryIfExists (l : lockServer) (nlrip : nameLockRequesterInfoPair) : lockServer :=
  match lockMap l !! nlrip_name nlrip with
  | Some lri => (removeEntry l (nlrip_name nlrip) (lri_uid (nlrip_lri nlrip)) lri).1
  | None => l
  end.

(** Handlers return the server, [*reply] (false at first) and the error;
    [now] is [time.Now().UTC()]. *)
Definition new_entry (writer : bool) (now : Z) (args : LockArgs) : lockRequesterInfo :=
  LockRequesterInfo writer (ServerAddr args) (ServiceEndpoint args) (UID args) now now.

Definition Lock (now : Z) (l : lockServer) (args : LockArgs) : lockServer * (bool * option error) :=
  match IsAuthenticated args with
  | Some err => (l, (false, Some err))
  | None =>
      match lockMap l !! Resource args with
      | Some _ => (l, (false, None))
      | None =>
          (set_lockMap l (<[Resource args := [new_entry true now args]]> (lockMap l)), (true, None))
      end
  end.

Definition Unlock (l : lockServer) (args : LockArgs) : lockServer * (bool * option error) :=
  match IsAuthenticated args with
  | Some err => (l, (false, Some err))
  | None =>
      match lockMap l !! Resource args with
      | None =>
          (l, (false, Some (ENew ("Unlock attempted on an unlocked entity: " +:+ Resource args))))
      | Some lri =>
          if negb (isWriteLock lri) then
            (l, (false, Some (ENew ("Unlock attempted on a read locked entity: " +:+ Resource args
               +:+ " (" +:+ pretty (length lri) +:+ " read locks active)"))))
          else
            let '(l', ok) := removeEntry l (Resource args) (UID args) lri in
            if negb (ok : bool)
            then (l', (true, Some (ENew ("Unlock unable to find corresponding lock for uid: "
                                          +:+ UID args))))
            else (l', (true, None))
      end
  end.

Definition RLock (now : Z) (l : lockServer) (args : LockArgs) : lockServer * (bool * option error) :=
  match IsAuthenticated args with
  | Some err => (l, (false, Some err))
  | None =>
      let lrInfo := new_entry false now args in
      match lockMap l !! Resource args with
      | Some lri =>
          if negb (isWriteLock lri)
          then (set_lockMap l (<[Resource args := lri ++ [lrInfo]]> (lockMap l)), (true, None))
          else (l, (false, None))
      | None => (set_lockMap l (<[Resource args := [lrInfo]]> (lockMap l)), (true, None))
      end
  end.

Definition RUnlock (l : lockServer) (args : LockArgs) : lockServer * (bool * option error) :=
  match IsAuthenticated args with
  | Some err => (l, (false, Some err))
  | None =>
      match lockMap l !! Resource args with
      | None =>
          (l, (false, Some (ENew ("RUnlock attempted on an unlocked entity: " +:+ Resource args))))
      | Some lri =>
          if isWriteLock lri then
            (l, (false, Some (ENew ("RUnlock attempted on a write locked entity: " +:+ Resource args))))
          else
            let '(l', ok) := removeEntry l (Resource args) (UID args) lri in
            if negb (ok : bool)
            then (l', (true, Some (ENew ("RUnlock unable to find corresponding read lock for uid: "
                                          +:+ UID args))))
            else (l', (true, None))
      end
  end.

Definition ForceUnlock (l : lockServer) (args : LockArgs) : lockServer * (bool * option error) :=
  match IsAuthenticated args with
  | Some err => (l, (false, Some err))
  | None =>
      if negb (bool_decide (UID args = ""))
      then (l, (false, Some (ENew ("ForceUnlock called with non-empty UID: " +:+ UID args))))
      else
        (match lockMap l !! Resource args with
         | Some _ => set_lockMap l (delete (Resource args) (lockMap l))
         | None => l
         end, (true, None))
  end.

Definition Expired (l : lockServer) (args : LockArgs) : lockServer * (bool * option error) :=
  match IsAuthenticated args with
  | Some err => (l, (false, Some err))
  | None =>
      match lockMap l !! Resource args with
      | Some lri =>
          if existsb (λ entry, bool_decide (lri_uid entry = UID args)) lri
          then (l, (false, None)) else (l, (true, None))
      | None => (l, (true, None))
      end
  end.

(** ** Maintenance *)

Definition is_long_lived (now interval : Z) (entry : lockRequesterInfo) : bool :=
  (interval <=? now - lri_timeLastCheck entry)%Z.

Definition touch (now interval : Z) (entry : lockRequesterInfo) : lockRequesterInfo :=
  if is_long_lived now interval entry
  then LockRequesterInfo (lri_writer entry) (lri_node entry) (lri_rpcPath entry) (lri_uid entry)
         (lri_timestamp entry) now
  else entry.

(** The old locks of one resource. *)
Definition long_lived_of (now interval : Z) (entry : string * list lockRequesterInfo)
    : list nameLockRequesterInfoPair :=
  (λ lri, {| nlrip_name := entry.1; nlrip_lri := lri |}) <$>
    filter (λ lri, is_long_lived now interval lri = true) entry.2.

Definition touch_all (now interval : Z) (lriArray : list lockRequesterInfo)
    : list lockRequesterInfo := touch now interval <$> lriArray.

Section Maintenance.
Context `{MapOrder}.

(** The pairs found, and the map with the check times written back into the
    shared slices. *)
Definition getLongLivedLocks (now : Z) (m : lock_map) (interval : Z)
    : list nameLockRequesterInfoPair * lock_map :=
  (range_order (map_to_list m) ≫= long_lived_of now interval, touch_all now interval <$> m).

(** [lockMaintenance] without interference; [expired] is the answer of the
    server that took the lock (false on an error). *)
Definition lockMaintenance (now interval : Z) (expired : nameLockRequesterInfoPair → bool)
    (l : lockServer) : lockServer :=
  let '(nlripLongLived, m) := getLongLivedLocks now (lockMap l) interval in
  fold_left (λ l nlrip, if expired nlrip then removeEntryIfExists l nlrip else l)
    nlripLongLived (set_lockMap l m).

(** ** Interleaved execution

    A server and the pairs its maintenance routine still has to check. *)
Record lock_sys := LockSys { sys_server : lockServer; sys_pending : list nameLockRequesterInfoPair }.

Inductive lock_step : lock_sys → lock_sys → Prop :=
| step_Lock now args l pend :
    lock_step (LockSys l pend) (LockSys (Lock now l args).1 pend)
| step_Unlock args l pend :
    lock_step (LockSys l pend) (LockSys (Unlock l args).1 pend)
| step_RLock now args l pend :
    lock_step (LockSys l pend) (LockSys (RLock now l args).1 pend)
| step_RUnlock args l pend :
    lock_step (LockSys l pend) (LockSys (RUnlock l args).1 pend)
| step_ForceUnlock args l pend :
    lock_step (LockSys l pend) (LockSys (ForceUnlock l args).1 pend)
| step_Expired args l pend :
    lock_step (LockSys l pend) (LockSys (Expired l args).1 pend)
| step_scan now interval l :
    lock_step (LockSys l [])
      (LockSys (set_lockMap l (getLongLivedLocks now (lockMap l) interval).2)
               (getLongLivedLocks now (lockMap l) interval).1)
| step_alive l nlrip pend :
    lock_step (LockSys l (nlrip :: pend)) (LockSys l pend)
| step_purge l nlrip pend :
    lock_step (LockSys l (nlrip :: pend)) (LockSys (removeEntryIfExists l nlrip) pend).

End Maintenance.

(** ** Specification: a lock per resource *)

Inductive abs_lock :=
| Free
| Writer (uid : string)
| Readers (uids : list string).

(** The first occurrence of [uid] removed. *)
Fixpoint remove_first (uid : string) (uids : list string) : option (list string) :=
  match uids with
  | [] => None
  | u :: uids' =>
      if bool_decide (u = uid) then Some uids' else (cons u) <$> remove_first uid uids'
  end.

Definition readers_of (uids : list string) : abs_lock :=
  match uids with [] => Free | _ => Readers uids end.

Inductive lock_op := OpLock | OpUnlock | OpRLock | OpRUnlock | OpForceUnlock | OpExpired.

(** The new state, and whether the request is granted. *)
Definition abs_op (op : lock_op) (uid : string) (a : abs_lock) : abs_lock * bool :=
  match op, a with
  | OpLock, Free => (Writer uid, true)
  | OpLock, _ => (a, false)
  | OpUnlock, Writer u => if bool_decide (u = uid) then (Free, true) else (a, false)
  | OpUnlock, _ => (a, false)
  | OpRLock, Free => (Readers [uid], true)
  | OpRLock, Readers uids => (Readers (uids ++ [uid]), true)
  | OpRLock, Writer _ => (a, false)
  | OpRUnlock, Readers uids =>
      match remove_first uid uids with
      | Some uids' => (readers_of uids', true)
      | None => (a, false)
      end
  | OpRUnlock, _ => (a, false)
  | OpForceUnlock, _ => if bool_decide (uid = "") then (Free, true) else (a, false)
  | OpExpired, Free => (a, true)
  | OpExpired, Writer u => (a, bool_decide (u ≠ uid))
  | OpExpired, Readers uids => (a, bool_decide (uid ∉ uids))
  end.

Definition handle (op : lock_op) (now : Z) (l : lockServer) (args : LockArgs)
    : lockServer * (bool * option error) :=
  match op with
  | OpLock => Lock now l args
  | OpUnlock => Unlock l args
  | OpRLock => RLock now l args
  | OpRUnlock => RUnlock l args
  | OpForceUnlock => ForceUnlock l args
  | OpExpired => Expired l args
  end.

Definition abs_entry (lri : list lockRequesterInfo) : abs_lock :=
  match lri with
  | [entry] => if lri_writer entry then Writer (lri_uid entry) else Readers [lri_uid entry]
  | _ => Readers (lri_uid <$> lri)
  end.

Definition abs_state (l : lockServer) (r : string) : abs_lock :=
  match lockMap l !! r with Some lri => abs_entry lri | None => Free end.

(** A resource is held by one writer or by readers. *)
Definition lri_wf (lri : list lockRequesterInfo) : Prop :=
  lri ≠ [] ∧ (isWriteLock lri = true ∨ Forall (λ e, lri_writer e = false) lri).

Definition lock_wf (l : lockServer) : Prop :=
  ∀ r lri, lockMap l !! r = Some lri → lri_wf lri.

(** ** Lemmas *)

Lemma remove_uid_uids uid (lri : list lockRequesterInfo) :
  remove_first uid (lri_uid <$> lri) =
    option_map (λ r : list lockRequesterInfo, lri_uid <$> r) (remove_uid uid lri).
Proof.
  induction lri as [|e lri IH]; [done|]. rewrite fmap_cons. simpl. rewrite IH.
  case_bool_decide; [done|]. by destruct (remove_uid uid lri).
Qed.

Lemma remove_uid_Some uid lri lri' :
  remove_uid uid lri = Some lri' → length lri = S (length lri') ∧ ∀ e, e ∈ lri' → e ∈ lri.
Proof.
  revert lri'. induction lri as [|e lri IH]; intros lri'; simpl; [done|].
  case_bool_decide; [intros [= <-]; split; [done|by constructor]|].
  destruct (remove_uid uid lri) as [r|]; [|done]. intros [= <-].
  destruct (IH r eq_refl) as [Hl Hin]. split; [simpl; lia|]. intros e' [->|He]%elem_of_cons; [constructor|].
  constructor. auto.
Qed.

Lemma abs_entry_read lri :
  isWriteLock lri = false → lri ≠ [] → abs_entry lri = Readers (lri_uid <$> lri).
Proof. destruct lri as [|e [|e' lri]]; simpl; [done| |done]. by intros ->. Qed.

Lemma abs_entry_write lri :
  isWriteLock lri = true → ∃ e, lri = [e] ∧ abs_entry lri = Writer (lri_uid e).
Proof. destruct lri as [|e [|e' lri]]; simpl; try done. intros ->. eauto. Qed.

Lemma readers_not_write lri :
  Forall (λ e, lri_writer e = false) lri → isWriteLock lri = false.
Proof. intros Hf. destruct lri as [|e [|e' lri]]; try done. by inversion Hf. Qed.

Lemma lock_wf_insert l r lri :
  lock_wf l → lri_wf lri → lock_wf (set_lockMap l (<[r := lri]> (lockMap l))).
Proof.
  intros Hwf Hlri r' lri'. simpl. destruct (decide (r = r')) as [<-|Hne].
  - rewrite lookup_insert_eq. by intros [= <-].
  - rewrite lookup_insert_ne by done. apply Hwf.
Qed.

Lemma lock_wf_delete l r : lock_wf l → lock_wf (set_lockMap l (delete r (lockMap l))).
Proof. intros Hwf r' lri'. simpl. intros [_ Hr]%lookup_delete_Some. by eapply Hwf. Qed.

(** Removing an entry of [name]. *)
Lemma removeEntry_spec l name uid lri :
  lock_wf l → lockMap l !! name = Some lri →
  let '(l', ok) := removeEntry l name uid lri in
  lock_wf l' ∧ (∀ r, r ≠ name → lockMap l' !! r = lockMap l !! r) ∧
  match remove_uid uid lri with
  | None => ok = false ∧ l' = l
  | Some lri' => ok = true ∧ lockMap l' !! name = match lri' with [] => None | _ => Some lri' end
  end.
Proof.
  intros Hwf Hname. unfold removeEntry. destruct (remove_uid uid lri) as [lri'|] eqn:Hrm; [|done].
  destruct (remove_uid_Some _ _ _ Hrm) as [Hlen Hin].
  destruct (length lri =? 1) eqn:E; [apply Nat.eqb_eq in E|apply Nat.eqb_neq in E].
  - assert (lri' = []) as -> by (apply length_zero_iff_nil; lia). split_and!; [by apply lock_wf_delete| |done|].
    + intros r Hr. simpl. by rewrite lookup_delete_ne.
    + simpl. by rewrite lookup_delete_eq.
  - destruct lri' as [|e lri']; [simpl in Hlen; lia|]. split_and!; [|intros r Hr; simpl; by rewrite lookup_insert_ne|done|].
    + apply lock_wf_insert; [done|]. split; [done|]. right.
      destruct (Hwf name lri Hname) as [_ [Hw|Hr]].
      * apply abs_entry_write in Hw as (e' & -> & _). simpl in Hlen. lia.
      * rewrite Forall_forall in Hr |- *. auto.
    + simpl. by rewrite lookup_insert_eq.
Qed.

(** The unlock handlers, on a resource of the right kind. *)
Lemma removeEntry_abs l name uid lri :
  lock_wf l → lockMap l !! name = Some lri →
  let '(l', ok) := removeEntry l name uid lri in
  (∀ r, r ≠ name → abs_state l' r = abs_state l r) ∧
  (isWriteLock lri = true →
     (abs_state l' name, ok) = abs_op OpUnlock uid (abs_state l name)) ∧
  (isWriteLock lri = false →
     (abs_state l' name, ok) = abs_op OpRUnlock uid (abs_state l name)).
Proof.
  intros Hwf Hname. pose proof (removeEntry_spec l name uid lri Hwf Hname) as Hspec.
  destruct (removeEntry l name uid lri) as [l' ok]. destruct Hspec as (_ & Hother & Hrm).
  destruct (Hwf _ _ Hname) as [Hne Hkind].
  split_and!; [intros r Hr; unfold abs_state; by rewrite Hother| |]; intros Hw;
    unfold abs_state; rewrite Hname.
  - destruct (abs_entry_write _ Hw) as (e & -> & ->). simpl in *. case_bool_decide.
    + destruct Hrm as [-> ->]. done.
    + destruct Hrm as [-> ->]. by rewrite Hname; simpl in *; destruct (lri_writer e).
  - rewrite (abs_entry_read lri Hw Hne). simpl. rewrite remove_uid_uids.
    destruct (remove_uid uid lri) as [lri'|] eqn:Hrem; simpl.
    + destruct Hrm as [-> ->]. destruct lri' as [|e lri']; [done|].
      destruct Hkind as [?|Hr]; [congruence|].
      rewrite abs_entry_read; [done| |done]. apply readers_not_write.
      destruct (remove_uid_Some _ _ _ Hrem) as [_ Hin]. rewrite Forall_forall in Hr |- *. auto.
    + destruct Hrm as [-> ->]. by rewrite Hname, abs_entry_read.
Qed.

Lemma abs_state_insert l r lri r' :
  abs_state (set_lockMap l (<[r := lri]> (lockMap l))) r' =
    if bool_decide (r' = r) then abs_entry lri else abs_state l r'.
Proof.
  unfold abs_state. simpl. case_bool_decide as Hr; [subst; by rewrite lookup_insert_eq|].
  by rewrite lookup_insert_ne by done.
Qed.

Lemma existsb_uid uid (lri : list lockRequesterInfo) :
  existsb (λ e, bool_decide (lri_uid e = uid)) lri = bool_decide (uid ∈ lri_uid <$> lri).
Proof.
  apply eq_bool_prop_intro. rewrite !Is_true_true, existsb_exists, bool_decide_eq_true, list_elem_of_fmap.
  split; [intros (e & He & Hu); bool_prop; exists e; split; [done|by apply list_elem_of_In]|].
  intros (e & -> & He). exists e. split; [by apply list_elem_of_In|by apply bool_decide_true].
Qed.

Lemma handle_wf op now l args : lock_wf l → lock_wf (handle op now l args).1.
Proof.
  intros Hwf. unfold handle, Lock, Unlock, RLock, RUnlock, ForceUnlock, Expired.
  destruct op, (IsAuthenticated args); try done;
    destruct (lockMap l !! Resource args) as [lri|] eqn:Hr; try done.
  - apply lock_wf_insert; [done|]. split; [done|by left].
  - destruct (isWriteLock lri); simpl; [|done].
    pose proof (removeEntry_spec l _ (UID args) lri Hwf Hr) as Hs.
    destruct (removeEntry l _ _ lri) as [l' []]; by destruct Hs.
  - destruct (isWriteLock lri) eqn:Hw; simpl; [done|]. apply lock_wf_insert; [done|].
    split; [by destruct lri|right]. destruct (Hwf _ _ Hr) as [_ [?|?]]; [congruence|].
    apply Forall_app. by repeat constructor.
  - apply lock_wf_insert; [done|]. split; [done|right]. by repeat constructor.
  - destruct (isWriteLock lri); simpl; [done|].
    pose proof (removeEntry_spec l _ (UID args) lri Hwf Hr) as Hs.
    destruct (removeEntry l _ _ lri) as [l' []]; by destruct Hs.
  - case_bool_decide; simpl; [by apply lock_wf_delete|done].
  - case_bool_decide; simpl; done.
  - by destruct (existsb _ _).
Qed.

(** What a handler does on an authenticated request. *)
Definition handler_refines (op : lock_op) (l : lockServer) (args : LockArgs)
    (res : lockServer * (bool * option error)) : Prop :=
  (∀ r, r ≠ Resource args → abs_state res.1 r = abs_state l r) ∧
  (abs_state res.1 (Resource args), res.2.1 && bool_decide (res.2.2 = None)) =
    abs_op op (UID args) (abs_state l (Resource args)).

(** An insert of the entries of the resource. *)
Lemma refines_insert op l args lri :
  abs_op op (UID args) (abs_state l (Resource args)) = (abs_entry lri, true) →
  handler_refines op l args
    (set_lockMap l (<[Resource args := lri]> (lockMap l)), (true, None)).
Proof.
  intros Hop. split; simpl.
  - intros r Hr. by rewrite abs_state_insert, bool_decide_false.
  - by rewrite abs_state_insert, bool_decide_true, Hop.
Qed.

(** A refused request. *)
Lemma refines_refused op l args reply err :
  reply && bool_decide (err = None) = false →
  abs_op op (UID args) (abs_state l (Resource args)) = (abs_state l (Resource args), false) →
  handler_refines op l args (l, (reply, err)).
Proof. intros Hr Hop. split; [done|]. simpl. by rewrite Hr, Hop. Qed.

Lemma Lock_refines now l args :
  IsAuthenticated args = None → handler_refines OpLock l args (Lock now l args).
Proof.
  intros Ha. unfold Lock. rewrite Ha. destruct (lockMap l !! Resource args) as [lri|] eqn:Hr.
  - apply refines_refused; [done|]. unfold abs_state. rewrite Hr.
    destruct lri as [|e [|]]; simpl; try done. by destruct (lri_writer e).
  - apply refines_insert. unfold abs_state. by rewrite Hr.
Qed.

Lemma RLock_refines now l args :
  lock_wf l → IsAuthenticated args = None → handler_refines OpRLock l args (RLock now l args).
Proof.
  intros Hwf Ha. unfold RLock. rewrite Ha. destruct (lockMap l !! Resource args) as [lri|] eqn:Hr.
  - destruct (isWriteLock lri) eqn:Hw; simpl.
    + apply refines_refused; [done|]. unfold abs_state. rewrite Hr.
      by destruct (abs_entry_write _ Hw) as (e & -> & ->).
    + apply refines_insert. unfold abs_state. rewrite Hr. destruct (Hwf _ _ Hr) as [Hne _].
      rewrite (abs_entry_read lri Hw Hne). simpl. rewrite abs_entry_read; [by rewrite fmap_app| |].
      * by destruct lri as [|e [|]].
      * by destruct lri.
  - apply refines_insert. unfold abs_state. by rewrite Hr.
Qed.

(** Both unlock handlers end with [removeEntry]. *)
Lemma removeEntry_refines op l args lri err :
  lock_wf l → lockMap l !! Resource args = Some lri →
  op = (if isWriteLock lri then OpUnlock else OpRUnlock) →
  handler_refines op l args
    (let '(l', ok) := removeEntry l (Resource args) (UID args) lri in
     if negb ok then (l', (true, Some err)) else (l', (true, None))).
Proof.
  intros Hwf Hr ->. pose proof (removeEntry_abs l _ (UID args) lri Hwf Hr) as Hs.
  destruct (removeEntry l (Resource args) (UID args) lri) as [l' ok]. destruct Hs as (Ho & Hw & Hrd).
  destruct ok; simpl; (split; simpl; [done|]); destruct (isWriteLock lri);
    by (apply Hw || apply Hrd).
Qed.

Lemma Unlock_refines l args :
  lock_wf l → IsAuthenticated args = None → handler_refines OpUnlock l args (Unlock l args).
Proof.
  intros Hwf Ha. unfold Unlock. rewrite Ha. destruct (lockMap l !! Resource args) as [lri|] eqn:Hr.
  - destruct (isWriteLock lri) eqn:Hw; cbn [negb].
    + apply removeEntry_refines; [done..|by rewrite Hw].
    + apply refines_refused; [done|]. unfold abs_state. rewrite Hr.
      destruct (Hwf _ _ Hr). by rewrite abs_entry_read.
  - apply refines_refused; [done|]. unfold abs_state. by rewrite Hr.
Qed.

Lemma RUnlock_refines l args :
  lock_wf l → IsAuthenticated args = None → handler_refines OpRUnlock l args (RUnlock l args).
Proof.
  intros Hwf Ha. unfold RUnlock. rewrite Ha. destruct (lockMap l !! Resource args) as [lri|] eqn:Hr.
  - destruct (isWriteLock lri) eqn:Hw.
    + apply refines_refused; [done|]. unfold abs_state. rewrite Hr.
      by destruct (abs_entry_write _ Hw) as (e & -> & ->).
    + apply removeEntry_refines; [done..|by rewrite Hw].
  - apply refines_refused; [done|]. unfold abs_state. by rewrite Hr.
Qed.

Lemma ForceUnlock_refines l args :
  IsAuthenticated args = None → handler_refines OpForceUnlock l args (ForceUnlock l args).
Proof.
  intros Ha. unfold ForceUnlock. rewrite Ha. case_bool_decide as Hu; simpl.
  - split; simpl.
    + intros r Hne. destruct (lockMap l !! Resource args); [|done].
      unfold abs_state. simpl. by rewrite lookup_delete_ne.
    + rewrite bool_decide_true by done. f_equal. unfold abs_state.
      destruct (lockMap l !! Resource args) eqn:Hr; simpl; [by rewrite lookup_delete_eq|by rewrite Hr].
  - apply refines_refused; [done|]. simpl. by rewrite bool_decide_false.
Qed.

Lemma Expired_refines l args :
  lock_wf l → IsAuthenticated args = None → handler_refines OpExpired l args (Expired l args).
Proof.
  intros Hwf Ha. unfold Expired. rewrite Ha. split.
  { intros r Hr. destruct (lockMap l !! Resource args); [|done]. by destruct (existsb _ _). }
  destruct (lockMap l !! Resource args) as [lri|] eqn:Hr; [|by unfold abs_state; simpl; rewrite Hr].
  rewrite existsb_uid. destruct (Hwf _ _ Hr) as [Hne _].
  assert (Habs : abs_state l (Resource args) = abs_entry lri) by (unfold abs_state; by rewrite Hr).
  destruct (isWriteLock lri) eqn:Hw.
  - destruct (abs_entry_write _ Hw) as (e & -> & Hab). rewrite Hab in Habs.
    change (lri_uid <$> [e]) with [lri_uid e]. case_bool_decide as Hin; simpl; rewrite Habs; simpl;
      rewrite list_elem_of_singleton in Hin; f_equal; symmetry; case_bool_decide; congruence.
  - rewrite (abs_entry_read _ Hw Hne) in Habs.
    case_bool_decide as Hin; simpl; rewrite Habs; simpl; f_equal; symmetry; case_bool_decide; done.
Qed.

Lemma handle_refines op now l args :
  lock_wf l → IsAuthenticated args = None → handler_refines op l args (handle op now l args).
Proof.
  intros Hwf Ha. destruct op; simpl.
  - by apply Lock_refines.
  - by apply Unlock_refines.
  - by apply RLock_refines.
  - by apply RUnlock_refines.
  - by apply ForceUnlock_refines.
  - by apply Expired_refines.
Qed.

(** C24.  The lock server implements a reader-writer lock per resource: on an
    authenticated request every handler takes the abstract lock of the
    resource to its next state, grants exactly what the abstract lock grants
    (the reply is true and there is no error) and leaves all other resources
    alone; an unauthenticated request changes nothing and fails.  The server
    stays well formed: every resource has one writer or only readers. *)
Theorem lockServer_refines op now l args :
  lock_wf l →
  let '(l', (reply, err)) := handle op now l args in
  lock_wf l' ∧
  match IsAuthenticated args with
  | Some e => l' = l ∧ err = Some e
  | None =>
      (∀ r, r ≠ Resource args → abs_state l' r = abs_state l r) ∧
      (abs_state l' (Resource args), reply && bool_decide (err = None)) =
        abs_op op (UID args) (abs_state l (Resource args))
  end.
Proof.
  intros Hwf. pose proof (handle_wf op now l args Hwf) as Hwf'.
  pose proof (handle_refines op now l args Hwf) as Href.
  destruct (handle op now l args) as [l' [reply err]] eqn:Hh. split; [done|].
  destruct (IsAuthenticated args) as [e|] eqn:Ha.
  - revert Hh. unfold handle, Lock, Unlock, RLock, RUnlock, ForceUnlock, Expired.
    destruct op; rewrite Ha; naive_solver.
  - by apply Href.
Qed.

(** ** Reachable states *)

Definition lock_init (rpcPath : string) : lock_sys := LockSys (LockServer rpcPath ∅) [].

Lemma touch_wf now interval lri : lri_wf lri → lri_wf (touch_all now interval lri).
Proof.
  assert (Hw : ∀ e, lri_writer (touch now interval e) = lri_writer e)
    by (intros e; unfold touch; by destruct (is_long_lived _ _ _)).
  intros [Hne Hk]. split; [by destruct lri|]. destruct Hk as [Hwr|Hr].
  - left. destruct lri as [|e [|]]; try done. simpl in *. by rewrite Hw.
  - right. unfold touch_all. rewrite Forall_fmap. eapply Forall_impl; [done|]. simpl. intros e. by rewrite Hw.
Qed.

Lemma removeEntryIfExists_wf l nlrip : lock_wf l → lock_wf (removeEntryIfExists l nlrip).
Proof.
  intros Hwf. unfold removeEntryIfExists. destruct (lockMap l !! nlrip_name nlrip) as [lri|] eqn:Hr; [|done].
  pose proof (removeEntry_spec l _ (lri_uid (nlrip_lri nlrip)) lri Hwf Hr) as Hs.
  destruct (removeEntry l _ _ lri). by destruct Hs.
Qed.

Lemma lock_step_wf `{MapOrder} s s' :
  lock_step s s' → lock_wf (sys_server s) → lock_wf (sys_server s').
Proof.
  intros Hstep Hwf. destruct Hstep; simpl in *.
  - by apply (handle_wf OpLock now).
  - by apply (handle_wf OpUnlock 0).
  - by apply (handle_wf OpRLock now).
  - by apply (handle_wf OpRUnlock 0).
  - by apply (handle_wf OpForceUnlock 0).
  - by apply (handle_wf OpExpired 0).
  - intros r lri. simpl. rewrite lookup_fmap_Some. intros (lri0 & <- & Hr). by eapply touch_wf, Hwf.
  - done.
  - by apply removeEntryIfExists_wf.
Qed.

(** Mutual exclusion: in every state the lock server can reach, through
    any interleaving of its handlers with lock maintenance, a resource that
    has an entry has one holder if that holder is a writer, and no resource
    has an empty list of holders. *)
Theorem lockServer_exclusive `{MapOrder} rpcPath s r lri e :
  rtc lock_step (lock_init rpcPath) s →
  lockMap (sys_server s) !! r = Some lri → e ∈ lri →
  (lri_writer e = true → lri = [e]) ∧ (lri_writer e = false → Forall (λ e, lri_writer e = false) lri).
Proof.
  intros Hreach Hr He.
  assert (Hwf : lock_wf (sys_server s)).
  { assert (Hinit : lock_wf (sys_server (lock_init rpcPath)))
      by (intros ? ? Hl; simpl in Hl; by rewrite lookup_empty in Hl).
    revert Hinit. clear Hr. induction Hreach as [|s1 s2 s3 Hs Hrest IH]; [done|].
    intros Hw. apply IH. by eapply lock_step_wf. }
  destruct (Hwf r lri Hr) as [_ [Hw|Hrd]].
  - destruct (abs_entry_write _ Hw) as (e' & -> & _). apply list_elem_of_singleton in He as ->.
    split; [done|]. simpl in Hw. congruence.
  - rewrite Forall_forall in Hrd. pose proof (Hrd e He). split; [congruence|].
    intros _. by rewrite Forall_forall.
Qed.

(** ** What maintenance removes *)

(** A holder list, dropped from the map when it is empty. *)
Definition nonempty {A} (l : list A) : option (list A) :=
  match l with [] => None | _ => Some l end.

(** Uids identify the holders of a resource. *)
Definition uids_unique (m : lock_map) : Prop :=
  ∀ r lri, m !! r = Some lri → NoDup (lri_uid <$> lri).

Lemma remove_uid_filter uid (lri : list lockRequesterInfo) :
  NoDup (lri_uid <$> lri) →
  match remove_uid uid lri with
  | Some lri' => lri' = filter (λ e, lri_uid e ≠ uid) lri
  | None => filter (λ e, lri_uid e ≠ uid) lri = lri
  end.
Proof.
  induction lri as [|e lri IH]; [done|]. rewrite fmap_cons, NoDup_cons. intros [Hni Hnd].
  simpl. rewrite filter_cons. destruct (decide (lri_uid e = uid)) as [Heq|Hne].
  - rewrite bool_decide_true by done. rewrite decide_False by tauto.
    symmetry. apply filter_all. intros e' He' Hu.
    apply Hni. rewrite list_elem_of_fmap. exists e'. split; [congruence|done].
  - rewrite bool_decide_false, decide_True by done. specialize (IH Hnd).
    destruct (remove_uid uid lri); by rewrite IH.
Qed.

(** Purging a list of pairs removes the uids it names from each resource. *)
Definition purged (ps : list nameLockRequesterInfoPair) (r : string) (e : lockRequesterInfo) : Prop :=
  Exists (λ p, nlrip_name p = r ∧ lri_uid (nlrip_lri p) = lri_uid e) ps.

#[export] Instance purged_dec ps r e : Decision (purged ps r e).
Proof. apply Exists_dec. intros p. apply _. Defined.

Lemma removeEntryIfExists_lookup l p r :
  lock_wf l → uids_unique (lockMap l) →
  lockMap (removeEntryIfExists l p) !! r =
    lockMap l !! r ≫= (λ lri, nonempty (filter (λ e, ¬ purged [p] r e) lri)).
Proof.
  intros Hwf Hun. unfold removeEntryIfExists.
  assert (Hsame : r ≠ nlrip_name p → ∀ lri : list lockRequesterInfo, filter (λ e, ¬ purged [p] r e) lri = lri).
  { intros Hne lri. apply filter_all. intros e _ Hp. apply Exists_cons in Hp as [[? _]|Hp]; [congruence|].
    by inversion Hp. }
  assert (Hid : ∀ lri, lockMap l !! r = Some lri → nonempty lri = Some lri)
    by (intros lri Hr; by destruct lri; [destruct (Hwf _ _ Hr)|]).
  destruct (lockMap l !! nlrip_name p) as [lri|] eqn:Hp.
  2: { destruct (lockMap l !! r) as [lri|] eqn:Hr; [|done]. simpl.
       rewrite Hsame by congruence. symmetry. by apply Hid. }
  pose proof (removeEntry_spec l _ (lri_uid (nlrip_lri p)) lri Hwf Hp) as Hs.
  destruct (removeEntry l _ _ lri) as [l' ok]. destruct Hs as (_ & Hother & Hrm). simpl.
  destruct (decide (r = nlrip_name p)) as [->|Hne].
  - rewrite Hp. simpl.
    assert (Hf : filter (λ e, ¬ purged [p] (nlrip_name p) e) lri =
                 filter (λ e, lri_uid e ≠ lri_uid (nlrip_lri p)) lri).
    { apply list_filter_iff. intros e. unfold purged. rewrite Exists_cons, Exists_nil.
      split; [intros Hn Hu; apply Hn; by left|intros Hn [[_ Hu]|[]]; congruence]. }
    rewrite Hf. pose proof (remove_uid_filter (lri_uid (nlrip_lri p)) lri (Hun _ _ Hp)) as Hru.
    destruct (remove_uid _ lri) as [lri'|].
    + destruct Hrm as [_ ->]. subst lri'. by destruct (filter _ lri).
    + destruct Hrm as [_ ->]. rewrite Hru, Hp. symmetry. by apply Hid.
  - rewrite Hother by done. destruct (lockMap l !! r) as [lri'|] eqn:Hr; [|done]. simpl.
    rewrite Hsame by done. symmetry. by apply Hid.
Qed.

Lemma removeEntryIfExists_unique l p :
  lock_wf l → uids_unique (lockMap l) → uids_unique (lockMap (removeEntryIfExists l p)).
Proof.
  intros Hwf Hun r lri. rewrite removeEntryIfExists_lookup by done.
  destruct (lockMap l !! r) as [lri0|] eqn:Hr; [|done]. simpl. intros Hlri.
  assert (lri = filter (λ e, ¬ purged [p] r e) lri0) as ->
    by (destruct (filter (λ e, ¬ purged [p] r e) lri0); simpl in Hlri; congruence).
  apply NoDup_fmap_filter. by eapply Hun.
Qed.

Lemma purge_all_lookup (expired : nameLockRequesterInfoPair → bool) ps : ∀ l r,
  lock_wf l → uids_unique (lockMap l) →
  lockMap (fold_left (λ l p, if expired p then removeEntryIfExists l p else l) ps l) !! r =
    lockMap l !! r ≫= (λ lri,
      nonempty (filter (λ e, ¬ purged (filter (λ p, expired p = true) ps) r e) lri)).
Proof.
  induction ps as [|p ps IH]; intros l r Hwf Hun; simpl.
  - destruct (lockMap l !! r) as [lri|] eqn:Hr; [|done]. simpl. rewrite filter_all; [|by inversion 2].
    by destruct lri; [destruct (Hwf _ _ Hr)|].
  - rewrite filter_cons. destruct (expired p); simpl.
    + rewrite IH by (by apply removeEntryIfExists_wf || by apply removeEntryIfExists_unique).
      rewrite removeEntryIfExists_lookup by done.
      destruct (lockMap l !! r) as [lri|]; [|done]. simpl.
      assert (Hf : filter (λ e, ¬ purged (p :: filter (λ p, expired p = true) ps) r e) lri =
        filter (λ e, ¬ purged (filter (λ p, expired p = true) ps) r e)
          (filter (λ e, ¬ purged [p] r e) lri)).
      { rewrite list_filter_filter. apply list_filter_iff. intros e. unfold purged.
        rewrite !Exists_cons, Exists_nil. tauto. }
      rewrite Hf. by destruct (filter (λ e, ¬ purged [p] r e) lri).
    + by apply IH.
Qed.

Lemma touch_uid now interval e : lri_uid (touch now interval e) = lri_uid e.
Proof. unfold touch. by destruct (is_long_lived _ _ _). Qed.

Lemma NoDup_uid_inj (lri : list lockRequesterInfo) e e' :
  NoDup (lri_uid <$> lri) → e ∈ lri → e' ∈ lri → lri_uid e = lri_uid e' → e = e'.
Proof.
  intros Hnd [i Hi]%list_elem_of_lookup [j Hj]%list_elem_of_lookup Heq.
  assert (i = j) as ->; [|congruence].
  eapply NoDup_lookup; [done|..]; rewrite list_lookup_fmap; [by rewrite Hi|rewrite Hj; simpl; by rewrite Heq].
Qed.

(** Lock maintenance removes exactly the stale locks: when uids identify
    the holders of a resource, an uninterrupted run removes from each resource
    the holders that were not checked for [interval] and whose owner answers
    that they have expired, keeps all others in order, and drops a resource
    without holders, whatever order the map is iterated in. *)
Theorem lockMaintenance_spec `{MapOrder} now interval expired l r :
  lock_wf l → uids_unique (lockMap l) →
  lockMap (lockMaintenance now interval expired l) !! r =
    lockMap l !! r ≫= (λ lri,
      nonempty (touch now interval <$>
        filter (λ e, ¬ (is_long_lived now interval e = true ∧
                        expired {| nlrip_name := r; nlrip_lri := e |} = true)) lri)).
Proof.
  intros Hwf Hun. unfold lockMaintenance, getLongLivedLocks.
  rewrite purge_all_lookup.
  - simpl. rewrite lookup_fmap. destruct (lockMap l !! r) as [lri|] eqn:Hr; [|done]. simpl. f_equal.
    unfold touch_all. rewrite filter_fmap. f_equal. apply filter_iff_in. intros e He.
    apply not_iff_compat. unfold compose, purged. rewrite Exists_exists. split.
    + intros (p & Hp & Hn & Hu). rewrite list_elem_of_filter, list_elem_of_bind in Hp.
      destruct Hp as (Hexp & [r' lri'] & Hpin & Hin). rewrite range_order_perm in Hin.
      apply elem_of_map_to_list in Hin. unfold long_lived_of in Hpin. simpl in Hpin.
      apply list_elem_of_fmap in Hpin as (e' & -> & [Hll He']%list_elem_of_filter).
      simpl in *. subst r'. rewrite Hr in Hin. simplify_eq. rewrite touch_uid in Hu.
      assert (e' = e) as -> by (by eapply NoDup_uid_inj; [by eapply Hun|..]). done.
    + intros [Hll Hexp]. exists {| nlrip_name := r; nlrip_lri := e |}. simpl. split; [|by rewrite touch_uid].
      rewrite list_elem_of_filter, list_elem_of_bind. split; [done|]. exists (r, lri).
      rewrite range_order_perm, elem_of_map_to_list. split; [|done].
      unfold long_lived_of. simpl. apply list_elem_of_fmap. exists e. split; [done|].
      by apply list_elem_of_filter.
  - intros r' lri'. simpl. rewrite lookup_fmap_Some. intros (lri0 & <- & Hr). by eapply touch_wf, Hwf.
  - intros r' lri'. simpl. rewrite lookup_fmap_Some. intros (lri0 & <- & Hr).
    unfold touch_all. rewrite <- list_fmap_compose.
    replace (lri_uid ∘ touch now interval <$> lri0) with (lri_uid <$> lri0); [by eapply Hun|].
    apply list_fmap_ext. intros i e _. simpl. by rewrite touch_uid.
Qed.

(** ** Witnesses *)

Definition demo_args (uid : string) : LockArgs :=
  {| UID := uid; Resource := "bucket/object"; ServerAddr := "node1:9000";
     ServiceEndpoint := "/lock/disk1"; IsAuthenticated := None |}.

(** A server with two readers of one resource. *)
Definition demo_server : lockServer :=
  (RLock 20 (RLock 10 (LockServer "/disk1" ∅) (demo_args "a")).1 (demo_args "b")).1.

Lemma lockServer_refines_witness :
  (lock_wf demo_server) ∧
  let '(l', (reply, err)) := handle OpRUnlock 30 demo_server (demo_args "a") in
  lock_wf l' ∧ (∀ r, r ≠ "bucket/object" → abs_state l' r = abs_state demo_server r) ∧
  (abs_state l' "bucket/object", reply && bool_decide (err = None)) = (Readers ["b"], true).
Proof.
  assert (Hwf : lock_wf demo_server).
  { apply (handle_wf OpRLock 20), (handle_wf OpRLock 10). intros r lri Hl. simpl in Hl.
    by rewrite lookup_empty in Hl. }
  split; [done|]. apply (lockServer_refines OpRUnlock 30 demo_server (demo_args "a") Hwf).
Defined.

Lemma lockServer_exclusive_witness :
  ∃ s, rtc (lock_step (H := map_order_id)) (lock_init "/disk1") s ∧
    lockMap (sys_server s) !! "bucket/object" = Some [new_entry true 10 (demo_args "w")] ∧
    ((lri_writer (new_entry true 10 (demo_args "w")) = true →
      [new_entry true 10 (demo_args "w")] = [new_entry true 10 (demo_args "w")]) ∧
     (lri_writer (new_entry true 10 (demo_args "w")) = false →
      Forall (λ e, lri_writer e = false) [new_entry true 10 (demo_args "w")])).
Proof.
  exists (LockSys (Lock 10 (LockServer "/disk1" ∅) (demo_args "w")).1 []).
  assert (Hr : rtc (lock_step (H := map_order_id)) (lock_init "/disk1")
                 (LockSys (Lock 10 (LockServer "/disk1" ∅) (demo_args "w")).1 []))
    by apply rtc_once, step_Lock.
  split; [done|]. split; [done|].
  apply (lockServer_exclusive (H := map_order_id) "/disk1" _ "bucket/object" _ _ Hr); [done|].
  constructor.
Defined.

Lemma lockMaintenance_spec_witness :
  lock_wf demo_server ∧ uids_unique (lockMap demo_server) ∧
  lockMap (lockMaintenance (H := map_order_rev) 25 10
             (λ p, bool_decide (lri_uid (nlrip_lri p) = "a")) demo_server) !! "bucket/object" =
    Some [new_entry false 20 (demo_args "b")].
Proof.
  assert (Hwf : lock_wf demo_server).
  { apply (handle_wf OpRLock 20), (handle_wf OpRLock 10). intros r lri Hl. simpl in Hl.
    by rewrite lookup_empty in Hl. }
  assert (Hun : uids_unique (lockMap demo_server)).
  { intros r lri Hr. destruct (decide (r = "bucket/object")) as [->|Hne].
    - vm_compute in Hr. injection Hr as <-. by apply (bool_decide_unpack _).
    - exfalso. assert (Hm : lockMap demo_server =
        {["bucket/object" := [new_entry false 10 (demo_args "a"); new_entry false 20 (demo_args "b")]]})
        by (vm_compute; reflexivity).
      rewrite Hm, lookup_singleton_ne in Hr; [done|congruence]. }
  split; [done|]. split; [done|].
  rewrite (lockMaintenance_spec (H := map_order_rev) 25 10 _ demo_server "bucket/object" Hwf Hun).
  vm_compute. reflexivity.
Defined.
