(* ===== verification/NsLock.v ===== *)
(** * Namespace locks

    The in-process lock manager and its instrumentation
    (src/cmd/namespace-lock.go, lock-instrument.go, lock-stat.go), for a
    server that is not distributed.

    [nsLockMap] maps a resource to a shared [nsLock] through a pointer, so
    locks live in a heap.  A thread takes a lock in three steps, because the
    map's mutex is released while the thread waits: [lock_begin] counts the
    reference, the [sync.RWMutex] is acquired, and [statusBlockedToRunning]
    updates the instrumentation.  [ns_step] interleaves any number of threads;
    a thread is identified by its operation id, which the code draws at
    random for every lock instance. *)

From S2P Require Import Prelude.
From S2P Require Import GoErrors.

(** ** sync.RWMutex *)

Record rwmutex := RWMutex { rw_writer : bool; rw_readers : nat }.

Definition rw_new : rwmutex := RWMutex false 0.

(** Acquiring blocks ([None]) while the lock is not available. *)
Definition rw_Lock (m : rwmutex) : option rwmutex :=
  if rw_writer m || negb (rw_readers m =? 0)%nat then None else Some (RWMutex true 0).

Definition rw_RLock (m : rwmutex) : option rwmutex :=
  if rw_writer m then None else Some (RWMutex false (S (rw_readers m))).

(** Releasing a mutex that is not held is a fatal error. *)
Definition rw_Unlock (m : rwmutex) : go rwmutex :=
  if rw_writer m then Ret (RWMutex false (rw_readers m)) else Panic.

Definition rw_RUnlock (m : rwmutex) : go rwmutex :=
  match rw_readers m with
  | O => Panic
  | S r => Ret (RWMutex (rw_writer m) r)
  end.

(** ** src/cmd/lock-stat.go *)

Record lockStat := LockStat { total : Z; blocked : Z; granted : Z }.

Definition lockStat_zero : lockStat := LockStat 0 0 0.

Definition lockWaiting (ls : lockStat) : lockStat :=
  LockStat (total ls + 1) (blocked ls + 1) (granted ls).

Definition lockGranted (ls : lockStat) : lockStat :=
  LockStat (total ls) (blocked ls - 1) (granted ls + 1).

Definition lockRemoved (ls : lockStat) (isGranted : bool) : lockStat :=
  if isGranted then LockStat (total ls - 1) (blocked ls) (granted ls - 1)
  else LockStat (total ls - 1) (blocked ls - 1) (granted ls).

(** ** State *)

Inductive statusType := runningStatus | blockedStatus.
Inductive lockType := debugRLockStr | debugWLockStr.

#[export] Instance statusType_eq_dec : EqDecision statusType.
Proof. solve_decision. Defined.

Record debugLockInfo := DebugLockInfo {
  lType : lockType;
  lockSource : string;
  status : statusType;
  since : Z;
}.

Record debugLockInfoPerVolumePath := DebugInfo {
  di_counters : lockStat;
  lockInfo : gmap string debugLockInfo;
}.

(** The resource: volume and path. *)
Abbreviation nsParam := (string * string)%type.

Record nsLock := NsLock { nl_mutex : rwmutex; nl_ref : nat }.

Inductive lock_info_error :=
| LockInfoOriginMismatch (param : nsParam) (opsID lockSource : string)
| LockInfoVolPathMissing (param : nsParam)
| LockInfoOpsIDNotFound (param : nsParam) (opsID : string)
| LockInfoStateNotBlocked (param : nsParam) (opsID : string).

Record nsLockMap := NsLockMap {
  counters : lockStat;
  debugLockMap : gmap nsParam debugLockInfoPerVolumePath;
  lockMap : gmap nsParam nat;
  heap : gmap nat nsLock;
}.

Definition initNSLock : nsLockMap := NsLockMap lockStat_zero ∅ ∅ ∅.

(** ** src/cmd/lock-instrument.go *)

Definition newDebugLockInfo (now : Z) (src : string) (st : statusType) (readLock : bool)
    : debugLockInfo :=
  DebugLockInfo (if readLock then debugRLockStr else debugWLockStr) src st now.

Definition initLockInfoForVolumePath (n : nsLockMap) (param : nsParam) : nsLockMap :=
  NsLockMap (counters n) (<[param := DebugInfo lockStat_zero ∅]> (debugLockMap n))
    (lockMap n) (heap n).

Definition statusNoneToBlocked (now : Z) (n : nsLockMap) (param : nsParam) (src opsID : string)
    (readLock : bool) : nsLockMap :=
  let n := match debugLockMap n !! param with
           | Some _ => n
           | None => initLockInfoForVolumePath n param
           end in
  NsLockMap (lockWaiting (counters n))
    (alter (λ di, DebugInfo (lockWaiting (di_counters di))
       (<[opsID := newDebugLockInfo now src blockedStatus readLock]> (lockInfo di)))
       param (debugLockMap n))
    (lockMap n) (heap n).

Definition statusBlockedToRunning (now : Z) (n : nsLockMap) (param : nsParam) (src opsID : string)
    (readLock : bool) : nsLockMap * option lock_info_error :=
  match debugLockMap n !! param with
  | None => (n, Some (LockInfoVolPathMissing param))
  | Some di =>
      match lockInfo di !! opsID with
      | None => (n, Some (LockInfoOpsIDNotFound param opsID))
      | Some info =>
          if negb (bool_decide (lockSource info = src))
          then (n, Some (LockInfoOriginMismatch param opsID src))
          else if negb (bool_decide (status info = blockedStatus))
          then (n, Some (LockInfoStateNotBlocked param opsID))
          else
            (NsLockMap (lockGranted (counters n))
               (<[param := DebugInfo (lockGranted (di_counters di))
                  (<[opsID := newDebugLockInfo now src runningStatus readLock]> (lockInfo di))]>
                  (debugLockMap n))
               (lockMap n) (heap n), None)
      end
  end.

(** The counters without the locks of a resource. *)
Definition lockRemoved_all (ls : lockStat) (infos : list debugLockInfo) : lockStat :=
  fold_left (λ ls info, lockRemoved ls (bool_decide (status info = runningStatus))) infos ls.

Definition deleteLockInfoEntryForVolumePath (n : nsLockMap) (param : nsParam)
    : nsLockMap * option lock_info_error :=
  match debugLockMap n !! param with
  | None => (n, Some (LockInfoVolPathMissing param))
  | Some di =>
      (NsLockMap (lockRemoved_all (counters n) (map_to_list (lockInfo di)).*2)
         (delete param (debugLockMap n)) (lockMap n) (heap n), None)
  end.

Definition deleteLockInfoEntryForOps (n : nsLockMap) (param : nsParam) (opsID : string)
    : nsLockMap * option lock_info_error :=
  match debugLockMap n !! param with
  | None => (n, Some (LockInfoVolPathMissing param))
  | Some di =>
      match lockInfo di !! opsID with
      | None => (n, Some (LockInfoOpsIDNotFound param opsID))
      | Some info =>
          let granted := bool_decide (status info = runningStatus) in
          (NsLockMap (lockRemoved (counters n) granted)
             (<[param := DebugInfo (lockRemoved (di_counters di) granted)
                (delete opsID (lockInfo di))]> (debugLockMap n))
             (lockMap n) (heap n), None)
      end
  end.

(** ** src/cmd/namespace-lock.go *)

(** [lock] up to the release of the map's mutex: the lock to wait on. *)
Definition lock_begin (now : Z) (n : nsLockMap) (param : nsParam) (src opsID : string)
    (readLock : bool) : nsLockMap * nat :=
  let '(n, l) :=
    match lockMap n !! param with
    | Some l => (n, l)
    | None =>
        let l := fresh (dom (heap n)) in
        (NsLockMap (counters n) (debugLockMap n) (<[param := l]> (lockMap n))
           (<[l := NsLock rw_new 0]> (heap n)), l)
    end in
  let n := NsLockMap (counters n) (debugLockMap n) (lockMap n)
             (alter (λ lk, NsLock (nl_mutex lk) (S (nl_ref lk))) l (heap n)) in
  (statusNoneToBlocked now n param src opsID readLock, l).

(** [nsLk.RLock()] or [nsLk.Lock()]. *)
Definition lock_acquire (n : nsLockMap) (l : nat) (readLock : bool) : option nsLockMap :=
  lk ← heap n !! l;
  m ← (if readLock then rw_RLock (nl_mutex lk) else rw_Lock (nl_mutex lk));
  Some (NsLockMap (counters n) (debugLockMap n) (lockMap n)
          (<[l := NsLock m (nl_ref lk)]> (heap n))).

(** The logged errors are returned. *)
Definition unlock (n : nsLockMap) (param : nsParam) (opsID : string) (readLock : bool)
    : go (nsLockMap * list lock_info_error) :=
  match lockMap n !! param with
  | None => Ret (n, [])
  | Some l =>
      match heap n !! l with
      | None => Panic
      | Some lk =>
          m ← (if readLock then rw_RUnlock (nl_mutex lk) else rw_Unlock (nl_mutex lk));
          let ref := pred (nl_ref lk) in
          let n := NsLockMap (counters n) (debugLockMap n) (lockMap n)
                     (<[l := NsLock m ref]> (heap n)) in
          let '(n, e1) := if (nl_ref lk =? 0)%nat then (n, None)
                          else deleteLockInfoEntryForOps n param opsID in
          let '(n, e2) :=
            if (ref =? 0)%nat then
              deleteLockInfoEntryForVolumePath
                (NsLockMap (counters n) (debugLockMap n) (delete param (lockMap n)) (heap n)) param
            else (n, None) in
          mret (n, option_list e1 ++ option_list e2)
      end
  end.

Definition ForceUnlock (n : nsLockMap) (param : nsParam) : nsLockMap :=
  match lockMap n !! param with
  | None => n
  | Some _ =>
      (deleteLockInfoEntryForVolumePath
         (NsLockMap (counters n) (debugLockMap n) (delete param (lockMap n)) (heap n)) param).1
  end.

(** ** Threads *)

Inductive phase := Waiting | Acquired | Running.

#[export] Instance phase_eq_dec : EqDecision phase.
Proof. solve_decision. Defined.

Record thread := Thread {
  th_param : nsParam;
  th_loc : nat;
  th_read : bool;
  th_src : string;
  th_phase : phase;
}.

Record ns_sys := NsSys { sys_ns : nsLockMap; sys_threads : gmap string thread }.

Definition ns_init : ns_sys := NsSys initNSLock ∅.

(** The steps of locking and unlocking; [ns_step_forced] below has [ForceUnlock]
    as well. *)
Inductive ns_step : ns_sys → ns_sys → Prop :=
| step_begin now n ths param src opsID readLock n' l :
    ths !! opsID = None →
    lock_begin now n param src opsID readLock = (n', l) →
    ns_step (NsSys n ths) (NsSys n' (<[opsID := Thread param l readLock src Waiting]> ths))
| step_acquire n ths opsID t n' :
    ths !! opsID = Some t → th_phase t = Waiting →
    lock_acquire n (th_loc t) (th_read t) = Some n' →
    ns_step (NsSys n ths)
      (NsSys n' (<[opsID := Thread (th_param t) (th_loc t) (th_read t) (th_src t) Acquired]> ths))
| step_running now n ths opsID t :
    ths !! opsID = Some t → th_phase t = Acquired →
    ns_step (NsSys n ths)
      (NsSys (statusBlockedToRunning now n (th_param t) (th_src t) opsID (th_read t)).1
         (<[opsID := Thread (th_param t) (th_loc t) (th_read t) (th_src t) Running]> ths))
| step_unlock n ths opsID t n' errs :
    ths !! opsID = Some t → th_phase t = Running →
    unlock n (th_param t) opsID (th_read t) = Ret (n', errs) →
    ns_step (NsSys n ths) (NsSys n' (delete opsID ths)).

(** Steps with a [ForceUnlock] by an operator in between. *)
Inductive ns_step_forced : ns_sys → ns_sys → Prop :=
| step_regular s s' : ns_step s s' → ns_step_forced s s'
| step_force n ths param : ns_step_forced (NsSys n ths) (NsSys (ForceUnlock n param) ths).

(** ** Counting threads *)

Definition b2n (b : bool) : nat := if b then 1 else 0.

Definition count (P : thread → bool) (m : gmap string thread) : nat :=
  size (filter (λ x, P x.2 = true) m).

Lemma count_empty P : count P ∅ = 0.
Proof. unfold count. by rewrite map_filter_empty, map_size_empty. Qed.

Lemma count_new P m o t : m !! o = None → count P (<[o := t]> m) = count P m + b2n (P t).
Proof.
  intros Ho. unfold count, b2n. destruct (P t) eqn:E.
  - rewrite map_filter_insert_True by done. rewrite map_size_insert_None; [lia|].
    apply map_lookup_filter_None. by left.
  - rewrite map_filter_insert_False by (simpl; congruence). rewrite delete_id by done. lia.
Qed.

Lemma count_split P m o t : m !! o = Some t → count P m = count P (delete o m) + b2n (P t).
Proof.
  intros Ho. rewrite <- (insert_delete_id m o t Ho) at 1.
  apply count_new, lookup_delete_eq.
Qed.

Lemma count_update P m o t t' :
  m !! o = Some t → count P (<[o := t']> m) + b2n (P t) = count P m + b2n (P t').
Proof.
  intros Ho. rewrite (count_split P m o t Ho).
  rewrite <- insert_delete_eq, count_new by apply lookup_delete_eq. lia.
Qed.

Lemma count_zero P m : count P m = 0 ↔ ∀ o t, m !! o = Some t → P t = false.
Proof.
  split.
  - intros Hc o t Ho. rewrite (count_split P m o t Ho) in Hc. unfold b2n in Hc. by destruct (P t); [lia|].
  - intros Hall. unfold count. apply map_size_empty_iff, map_empty. intros o.
    apply map_lookup_filter_None. destruct (m !! o) as [t|] eqn:Ho; [right|by left].
    intros t' [= <-]. simpl. by rewrite (Hall o t Ho).
Qed.

Lemma count_two P m o1 o2 t1 t2 :
  m !! o1 = Some t1 → m !! o2 = Some t2 → o1 ≠ o2 → P t1 = true → P t2 = true → 2 ≤ count P m.
Proof.
  intros H1 H2 Hne E1 E2. rewrite (count_split P m o1 t1 H1).
  rewrite (count_split P (delete o1 m) o2 t2) by (by rewrite lookup_delete_ne).
  rewrite E1, E2. simpl. lia.
Qed.

(** Threads of a resource, and those that hold the mutex or are running. *)
Definition on (p : nsParam) (t : thread) : bool := bool_decide (th_param t = p).
Definition holds (t : thread) : bool := negb (bool_decide (th_phase t = Waiting)).
Definition reads (p : nsParam) (t : thread) : bool := on p t && holds t && th_read t.
Definition writes (p : nsParam) (t : thread) : bool := on p t && holds t && negb (th_read t).
Definition runs (t : thread) : bool := bool_decide (th_phase t = Running).
Definition runs_on (p : nsParam) (t : thread) : bool := on p t && runs t.

(** ** Invariant *)

(** The counters count threads: all, not yet running, running. *)
Definition stat_of (all running : nat) : lockStat :=
  LockStat (Z.of_nat all) (Z.of_nat all - Z.of_nat running) (Z.of_nat running).

Definition status_of (t : thread) : statusType :=
  if runs t then runningStatus else blockedStatus.

(** The instrumentation of a resource lists its threads. *)
Definition info_ok (ths : gmap string thread) (p : nsParam) (li : gmap string debugLockInfo) : Prop :=
  ∀ o,
    match li !! o with
    | Some info => ∃ t, ths !! o = Some t ∧ th_param t = p ∧
                     lockSource info = th_src t ∧ status info = status_of t
    | None => ∀ t, ths !! o = Some t → th_param t ≠ p
    end.

Record debug_ok (ths : gmap string thread) (p : nsParam) (di : debugLockInfoPerVolumePath) : Prop := {
  debug_counters : di_counters di = stat_of (count (on p) ths) (count (runs_on p) ths);
  debug_info : info_ok ths p (lockInfo di);
}.

(** A resource with a lock: the reference count, the mutex and the
    instrumentation agree with the threads. *)
Record lock_ok (n : nsLockMap) (ths : gmap string thread) (p : nsParam) (l : nat) : Prop := {
  lock_entry : ∃ lk, heap n !! l = Some lk ∧
    nl_ref lk = count (on p) ths ∧ 0 < nl_ref lk ∧
    rw_readers (nl_mutex lk) = count (reads p) ths ∧
    b2n (rw_writer (nl_mutex lk)) = count (writes p) ths ∧
    (rw_writer (nl_mutex lk) = true → rw_readers (nl_mutex lk) = 0);
  lock_debug : ∃ di, debugLockMap n !! p = Some di ∧ debug_ok ths p di;
}.

Record ns_inv (s : ns_sys) : Prop := {
  inv_locks : ∀ p,
    match lockMap (sys_ns s) !! p with
    | Some l => lock_ok (sys_ns s) (sys_threads s) p l
    | None => count (on p) (sys_threads s) = 0 ∧ debugLockMap (sys_ns s) !! p = None
    end;
  inv_threads : ∀ o t, sys_threads s !! o = Some t →
    lockMap (sys_ns s) !! th_param t = Some (th_loc t);
  inv_distinct : ∀ p1 p2 l,
    lockMap (sys_ns s) !! p1 = Some l → lockMap (sys_ns s) !! p2 = Some l → p1 = p2;
  inv_counters : counters (sys_ns s) =
    stat_of (size (sys_threads s)) (count runs (sys_threads s));
}.

(** [ths'] is [ths] after a step of thread [o0], a thread of [p0]. *)
Record one_thread (o0 : string) (p0 : nsParam) (ths ths' : gmap string thread) : Prop := {
  one_other : ∀ o, o ≠ o0 → ths' !! o = ths !! o;
  one_before : ∀ t, ths !! o0 = Some t → th_param t = p0;
  one_after : ∀ t, ths' !! o0 = Some t → th_param t = p0;
}.

Lemma one_thread_count o0 p0 ths ths' P :
  one_thread o0 p0 ths ths' → (∀ t, th_param t = p0 → P t = false) → count P ths' = count P ths.
Proof.
  intros [Ho Hb Ha] HP.
  assert (Hside : ∀ m : gmap string thread, (∀ t, m !! o0 = Some t → th_param t = p0) →
            count P m = count P (delete o0 m)).
  { intros m Hm. destruct (m !! o0) as [t|] eqn:E; [|by rewrite delete_id].
    rewrite (count_split P m o0 t E), HP by auto. simpl. lia. }
  rewrite (Hside ths Hb), (Hside ths' Ha). f_equal. apply map_eq. intros o.
  destruct (decide (o = o0)) as [->|Hne]; [by rewrite !lookup_delete_eq|].
  rewrite !lookup_delete_ne by done. by apply Ho.
Qed.

(** The other resources are left alone. *)
Lemma lock_ok_frame n n' ths ths' p l o0 p0 :
  one_thread o0 p0 ths ths' → p ≠ p0 → lock_ok n ths p l →
  heap n' !! l = heap n !! l → debugLockMap n' !! p = debugLockMap n !! p →
  lock_ok n' ths' p l.
Proof.
  intros Hone Hne [(lk & Hlk & Href & Hpos & Hrd & Hwr & Hx) (di & Hdi & [Hc Hinfo])] Hh Hd.
  pose proof (one_thread_count o0 p0 ths ths') as Hcnt.
  assert (Hon : ∀ t, th_param t = p0 → on p t = false)
    by (intros t Ht; unfold on; apply bool_decide_false; congruence).
  split.
  - exists lk. rewrite Hh. rewrite !(Hcnt _ Hone); [done|intros t Ht..]; unfold reads, writes;
      by rewrite Hon.
  - exists di. rewrite Hd. split; [done|]. split.
    + rewrite Hc. f_equal; symmetry; apply (Hcnt _ Hone); intros t Ht; unfold runs_on; by rewrite Hon.
    + intros o. specialize (Hinfo o). destruct Hone as [Ho Hb Ha].
      destruct (decide (o = o0)) as [->|Hoo]; [|by rewrite (Ho o Hoo)].
      destruct (lockInfo di !! o0) as [info|]; [|intros t Ht; apply Ha in Ht; congruence].
      destruct Hinfo as (t & Ht & Hp & _). apply Hb in Ht. congruence.
Qed.

(** The invariant after a step of thread [o0] of [p0] that keeps the lock of
    [p0] in the map. *)
Lemma ns_inv_step n n' ths ths' o0 p0 l :
  ns_inv (NsSys n ths) → one_thread o0 p0 ths ths' →
  (∀ p, p ≠ p0 → lockMap n' !! p = lockMap n !! p) →
  (∀ p l', p ≠ p0 → lockMap n !! p = Some l' → l' ≠ l ∧ heap n' !! l' = heap n !! l') →
  (∀ p, p ≠ p0 → debugLockMap n' !! p = debugLockMap n !! p) →
  lockMap n' !! p0 = Some l → lock_ok n' ths' p0 l →
  (∀ t, ths !! o0 = Some t → th_loc t = l) → (∀ t, ths' !! o0 = Some t → th_loc t = l) →
  (∀ o t, ths !! o = Some t → th_param t = p0 → th_loc t = l) →
  counters n' = stat_of (size ths') (count runs ths') →
  ns_inv (NsSys n' ths').
Proof.
  intros [Hlocks Hths Hdist Hcnt] Hone Hlm Hheap Hdbg Hp0 Hok Hl1 Hl2 Hl3 Hc. simpl in *. split; simpl; [| | |done].
  - intros p. destruct (decide (p = p0)) as [->|Hne]; [by rewrite Hp0|].
    rewrite (Hlm p Hne). specialize (Hlocks p). destruct (lockMap n !! p) as [l'|] eqn:Hlp.
    + eapply lock_ok_frame; [done|done|done| |by apply Hdbg]. by apply (Hheap p l').
    + destruct Hlocks as [Hz Hd]. rewrite Hdbg by done. split; [|done].
      rewrite <- Hz. apply (one_thread_count _ _ _ _ _ Hone). intros t Ht. unfold on.
      apply bool_decide_false. congruence.
  - intros o t Ht. destruct (decide (o = o0)) as [->|Hoo].
    + rewrite (one_after _ _ _ _ Hone t Ht), Hp0, (Hl2 t Ht). done.
    + rewrite (one_other _ _ _ _ Hone o Hoo) in Ht.
      destruct (decide (th_param t = p0)) as [Hp|Hne].
      * by rewrite Hp, Hp0, (Hl3 o t Ht Hp).
      * rewrite (Hlm _ Hne). by apply (Hths o).
  - intros p1 p2 l' H1 H2.
    destruct (decide (p1 = p0)) as [->|N1], (decide (p2 = p0)) as [->|N2]; [done|..].
    + rewrite Hp0 in H1. simplify_eq. rewrite (Hlm _ N2) in H2. by destruct (Hheap p2 l' N2 H2).
    + rewrite Hp0 in H2. simplify_eq. rewrite (Hlm _ N1) in H1. by destruct (Hheap p1 l' N1 H1).
    + rewrite (Hlm _ N1) in H1. rewrite (Hlm _ N2) in H2. by eapply Hdist.
Qed.

(** ** Taking a lock *)

(** The lock of the resource before the step; a new one if there is none. *)
Definition old_lock (n : nsLockMap) (p : nsParam) : nsLock :=
  match lockMap n !! p with
  | Some l => default (NsLock rw_new 0) (heap n !! l)
  | None => NsLock rw_new 0
  end.

Definition old_debug (n : nsLockMap) (p : nsParam) : debugLockInfoPerVolumePath :=
  default (DebugInfo lockStat_zero ∅) (debugLockMap n !! p).

Lemma lock_begin_effect now n ths p src o rl n' l :
  ns_inv (NsSys n ths) → lock_begin now n p src o rl = (n', l) →
  counters n' = lockWaiting (counters n) ∧
  lockMap n' !! p = Some l ∧ (∀ q, q ≠ p → lockMap n' !! q = lockMap n !! q) ∧
  heap n' !! l = Some (NsLock (nl_mutex (old_lock n p)) (S (nl_ref (old_lock n p)))) ∧
  (∀ q l', q ≠ p → lockMap n !! q = Some l' → l' ≠ l ∧ heap n' !! l' = heap n !! l') ∧
  debugLockMap n' !! p = Some (DebugInfo (lockWaiting (di_counters (old_debug n p)))
     (<[o := newDebugLockInfo now src blockedStatus rl]> (lockInfo (old_debug n p)))) ∧
  (∀ q, q ≠ p → debugLockMap n' !! q = debugLockMap n !! q) ∧
  (∀ l', lockMap n !! p = Some l' → l' = l).
Proof.
  intros [Hlocks _ Hdist _] Hb. simpl in *. unfold lock_begin in Hb.
  assert (Hheap : ∀ q l', lockMap n !! q = Some l' → ∃ lk, heap n !! l' = Some lk).
  { intros q l' Hq. specialize (Hlocks q). rewrite Hq in Hlocks.
    destruct (lock_entry _ _ _ _ Hlocks) as (lk & Hlk & _). eauto. }
  assert (Hdebug : ∀ n1, debugLockMap n1 = debugLockMap n → lockMap n1 = lockMap n1 →
    let n2 := statusNoneToBlocked now n1 p src o rl in
    counters n2 = lockWaiting (counters n1) ∧ lockMap n2 = lockMap n1 ∧ heap n2 = heap n1 ∧
    debugLockMap n2 !! p = Some (DebugInfo (lockWaiting (di_counters (old_debug n p)))
      (<[o := newDebugLockInfo now src blockedStatus rl]> (lockInfo (old_debug n p)))) ∧
    (∀ q, q ≠ p → debugLockMap n2 !! q = debugLockMap n !! q)).
  { intros n1 Hd _. unfold statusNoneToBlocked, old_debug. rewrite Hd.
    destruct (debugLockMap n !! p) as [di|] eqn:Hp; simpl; rewrite ?Hd; split_and!; try done.
    - by rewrite lookup_alter_eq, Hp.
    - intros q Hq. by rewrite lookup_alter_ne.
    - by rewrite lookup_alter_eq, lookup_insert_eq.
    - intros q Hq. by rewrite lookup_alter_ne, lookup_insert_ne. }
  unfold old_lock. destruct (lockMap n !! p) as [l0|] eqn:Hp; injection Hb as <- <-.
  - destruct (Hdebug (NsLockMap (counters n) (debugLockMap n) (lockMap n)
      (alter (λ lk, NsLock (nl_mutex lk) (S (nl_ref lk))) l0 (heap n)))) as (-> & -> & -> & -> & Hq);
      [done..|]. simpl. destruct (Hheap p l0 Hp) as [lk Hlk].
    split_and!; try done.
    + by rewrite lookup_alter_eq, Hlk.
    + intros q l' Hqp Hql. assert (l' ≠ l0) by (intros ->; apply Hqp; by eapply Hdist).
      split; [done|]. by rewrite lookup_alter_ne.
    + by intros l' [= ->].
  - set (l := fresh (dom (heap n))).
    assert (Hfresh : heap n !! l = None) by (apply not_elem_of_dom, is_fresh).
    destruct (Hdebug (NsLockMap (counters n) (debugLockMap n) (<[p := l]> (lockMap n))
      (alter (λ lk, NsLock (nl_mutex lk) (S (nl_ref lk))) l (<[l := NsLock rw_new 0]> (heap n)))))
      as (-> & -> & -> & -> & Hq); [done..|]. simpl.
    split_and!; try done.
    + by rewrite lookup_insert_eq.
    + intros q Hqp. by rewrite lookup_insert_ne.
    + by rewrite lookup_alter_eq, lookup_insert_eq.
    + intros q l' Hqp Hql. destruct (Hheap q l' Hql) as [lk Hlk].
      assert (l' ≠ l) by congruence. split; [done|].
      by rewrite lookup_alter_ne, lookup_insert_ne.
Qed.

(** The counts of the resource before the step. *)
Lemma old_lock_ok n ths p :
  ns_inv (NsSys n ths) →
  nl_ref (old_lock n p) = count (on p) ths ∧
  rw_readers (nl_mutex (old_lock n p)) = count (reads p) ths ∧
  b2n (rw_writer (nl_mutex (old_lock n p))) = count (writes p) ths ∧
  (rw_writer (nl_mutex (old_lock n p)) = true → rw_readers (nl_mutex (old_lock n p)) = 0) ∧
  debug_ok ths p (old_debug n p).
Proof.
  intros [Hlocks _ _ _]. specialize (Hlocks p). simpl in Hlocks. unfold old_lock, old_debug.
  destruct (lockMap n !! p) as [l|].
  - destruct Hlocks as [(lk & Hlk & ? & ? & ? & ? & ?) (di & Hdi & ?)]. by rewrite Hlk, Hdi.
  - destruct Hlocks as [Hz Hd]. rewrite Hd. simpl. rewrite count_zero in Hz.
    assert (Hz' : ∀ P : thread → bool, (∀ t, on p t = false → P t = false) → count P ths = 0)
      by (intros P HP; apply count_zero; intros o t Ht; by eapply HP, Hz).
    rewrite !Hz'; unfold reads, writes; try (intros t Ht; by rewrite Ht).
    split_and!; try done. split; simpl.
    + rewrite !Hz'; [done|..]; unfold runs_on; intros t Ht; by rewrite Ht.
    + intros o. rewrite lookup_empty. intros t Ht Hp. apply Hz in Ht. unfold on in Ht.
      by apply bool_decide_eq_false in Ht.
Qed.

Lemma begin_inv now n ths p src o rl n' l :
  ns_inv (NsSys n ths) → ths !! o = None → lock_begin now n p src o rl = (n', l) →
  ns_inv (NsSys n' (<[o := Thread p l rl src Waiting]> ths)).
Proof.
  intros Hinv Ho Hb. destruct (lock_begin_effect _ _ _ _ _ _ _ _ _ Hinv Hb)
    as (Hc & Hlp & Hlm & Hh & Hho & Hd & Hdo & Hsame).
  destruct (old_lock_ok n ths p Hinv) as (Href & Hrd & Hwr & Hx & [Hdc Hdi]).
  set (t := Thread p l rl src Waiting).
  assert (Hon : on p t = true) by (unfold on; by apply bool_decide_true).
  assert (Hnr : reads p t = false) by (unfold reads, holds; simpl; by rewrite andb_false_r).
  assert (Hnw : writes p t = false) by (unfold writes, holds; simpl; by rewrite andb_false_r).
  assert (Hnrun : runs t = false) by done.
  assert (Hnro : runs_on p t = false) by (unfold runs_on; by rewrite Hnrun, andb_false_r).
  apply ns_inv_step with (n := n) (ths := ths) (o0 := o) (p0 := p) (l := l); try done.
  - split; [intros o' Hne; by rewrite lookup_insert_ne|congruence|].
    intros t'. rewrite lookup_insert_eq. by intros [= <-].
  - split.
    + eexists. split; [done|]. simpl. rewrite !count_new, Hon, Hnr, Hnw by done. simpl.
      split_and!; try lia. done.
    + eexists. split; [done|]. split; simpl.
      * rewrite Hdc, !count_new, Hon, Hnro by done. unfold lockWaiting, stat_of. simpl. f_equal; lia.
      * intros o'. destruct (decide (o' = o)) as [->|Hne].
        -- rewrite lookup_insert_eq. exists t. rewrite lookup_insert_eq. done.
        -- rewrite !lookup_insert_ne by done. apply Hdi.
  - congruence.
  - intros t'. rewrite lookup_insert_eq. by intros [= <-].
  - intros o' t' Ht' Hp. apply (inv_threads _ Hinv) in Ht'. simpl in Ht'. rewrite Hp in Ht'.
    by apply Hsame.
  - pose proof (inv_counters _ Hinv) as Hci. simpl in Hci. rewrite Hc, Hci, count_new, Hnrun by done. simpl.
    rewrite map_size_insert_None by done. unfold lockWaiting, stat_of. simpl. f_equal; lia.
Qed.

(** A thread of the system: its lock and what the counts say about it. *)
Lemma thread_lock n ths o t :
  ns_inv (NsSys n ths) → ths !! o = Some t →
  lockMap n !! th_param t = Some (th_loc t) ∧ lock_ok n ths (th_param t) (th_loc t).
Proof.
  intros Hinv Ht. pose proof (inv_threads _ Hinv o t Ht) as Hl. simpl in Hl. split; [done|].
  pose proof (inv_locks _ Hinv (th_param t)) as Hok. simpl in Hok. by rewrite Hl in Hok.
Qed.

(** A change of phase of thread [o]. *)
Definition set_phase (t : thread) (ph : phase) : thread :=
  Thread (th_param t) (th_loc t) (th_read t) (th_src t) ph.

Lemma phase_one_thread ths o t ph :
  ths !! o = Some t → one_thread o (th_param t) ths (<[o := set_phase t ph]> ths).
Proof.
  intros Ht. split.
  - intros o' Hne. by rewrite lookup_insert_ne.
  - intros t' Ht'. congruence.
  - intros t'. rewrite lookup_insert_eq. by intros [= <-].
Qed.

(** The invariant after a change of phase that keeps the maps. *)
Lemma phase_inv n n' ths o t ph :
  ns_inv (NsSys n ths) → ths !! o = Some t →
  lockMap n' = lockMap n →
  (∀ l, l ≠ th_loc t → heap n' !! l = heap n !! l) →
  (∀ q, q ≠ th_param t → debugLockMap n' !! q = debugLockMap n !! q) →
  lock_ok n' (<[o := set_phase t ph]> ths) (th_param t) (th_loc t) →
  counters n' = stat_of (size ths) (count runs (<[o := set_phase t ph]> ths)) →
  ns_inv (NsSys n' (<[o := set_phase t ph]> ths)).
Proof.
  intros Hinv Ht Hlm Hh Hd Hok Hc. destruct (thread_lock _ _ _ _ Hinv Ht) as [Hl _].
  apply ns_inv_step with (n := n) (ths := ths) (o0 := o) (p0 := th_param t) (l := th_loc t); try done.
  - by apply phase_one_thread.
  - intros q _. by rewrite Hlm.
  - intros q l Hq Hql. assert (l ≠ th_loc t); [|by auto].
    intros ->. apply Hq. by eapply (inv_distinct _ Hinv).
  - by rewrite Hlm.
  - congruence.
  - intros t'. rewrite lookup_insert_eq. by intros [= <-].
  - intros o' t' Ht' Hp. apply (inv_threads _ Hinv) in Ht'. simpl in Ht'. congruence.
  - rewrite Hc. f_equal. by rewrite map_size_insert_Some by eauto.
Qed.

(** Counting predicates on the thread that changes phase. *)
Lemma on_self t : on (th_param t) t = true.
Proof. unfold on. by apply bool_decide_true. Qed.

Lemma reads_self t : reads (th_param t) t = negb (bool_decide (th_phase t = Waiting)) && th_read t.
Proof. unfold reads. by rewrite on_self. Qed.

Lemma writes_self t :
  writes (th_param t) t = negb (bool_decide (th_phase t = Waiting)) && negb (th_read t).
Proof. unfold writes. by rewrite on_self. Qed.

Lemma runs_on_self t : runs_on (th_param t) t = bool_decide (th_phase t = Running).
Proof. unfold runs_on. by rewrite on_self. Qed.

(** The counts after a change of phase. *)
Lemma count_phase ths o t ph :
  ths !! o = Some t →
  let ths' := <[o := set_phase t ph]> ths in
  let h (x : phase) := negb (bool_decide (x = Waiting)) in
  let r (x : phase) := b2n (bool_decide (x = Running)) in
  count (on (th_param t)) ths' = count (on (th_param t)) ths ∧
  count (reads (th_param t)) ths' + b2n (h (th_phase t) && th_read t) =
    count (reads (th_param t)) ths + b2n (h ph && th_read t) ∧
  count (writes (th_param t)) ths' + b2n (h (th_phase t) && negb (th_read t)) =
    count (writes (th_param t)) ths + b2n (h ph && negb (th_read t)) ∧
  count (runs_on (th_param t)) ths' + r (th_phase t) = count (runs_on (th_param t)) ths + r ph ∧
  count runs ths' + r (th_phase t) = count runs ths + r ph.
Proof.
  intros Ht ths' h r.
  assert (Hu : ∀ P, count P ths' + b2n (P t) = count P ths + b2n (P (set_phase t ph)))
    by (intros P; by apply count_update).
  pose proof (Hu (on (th_param t))) as H1. pose proof (Hu (reads (th_param t))) as H2.
  pose proof (Hu (writes (th_param t))) as H3. pose proof (Hu (runs_on (th_param t))) as H4.
  pose proof (Hu runs) as H5.
  rewrite reads_self in H2. rewrite writes_self in H3. rewrite runs_on_self in H4.
  change (th_param t) with (th_param (set_phase t ph)) in H2 at 3.
  change (th_param t) with (th_param (set_phase t ph)) in H3 at 3.
  change (th_param t) with (th_param (set_phase t ph)) in H4 at 3.
  rewrite reads_self in H2. rewrite writes_self in H3. rewrite runs_on_self in H4.
  split_and!; [|exact H2|exact H3|exact H4|exact H5].
  change (on (th_param t) (set_phase t ph)) with (on (th_param t) t) in H1. lia.
Qed.

(** The instrumentation after a change of phase. *)
Lemma debug_info_phase (ths : gmap string thread) o t ph li info :
  ths !! o = Some t → info_ok ths (th_param t) li →
  lockSource info = th_src t → status info = status_of (set_phase t ph) →
  info_ok (<[o := set_phase t ph]> ths) (th_param t) (<[o := info]> li).
Proof.
  intros Ht Hli Hs Hst o'. destruct (decide (o' = o)) as [->|Hne].
  - rewrite lookup_insert_eq. exists (set_phase t ph). by rewrite lookup_insert_eq.
  - rewrite !lookup_insert_ne by done. apply (Hli o').
Qed.

Lemma acquire_inv n ths o t n' :
  ns_inv (NsSys n ths) → ths !! o = Some t → th_phase t = Waiting →
  lock_acquire n (th_loc t) (th_read t) = Some n' →
  ns_inv (NsSys n' (<[o := set_phase t Acquired]> ths)).
Proof.
  intros Hinv Ht Hph Hacq. destruct (thread_lock _ _ _ _ Hinv Ht) as [Hl Hok].
  destruct Hok as [(lk & Hlk & Href & Hpos & Hrd & Hwr & Hx) (di & Hdi & [Hdc Hinfo])].
  unfold lock_acquire in Hacq. rewrite Hlk in Hacq. simpl in Hacq.
  destruct (count_phase ths o t Acquired Ht) as (Con & Crd & Cwr & Cro & Crn).
  rewrite Hph in Crd, Cwr, Cro, Crn. simpl in Crd, Cwr, Cro, Crn.
  destruct (if th_read t then rw_RLock (nl_mutex lk) else rw_Lock (nl_mutex lk)) as [mx|] eqn:Em;
    [|done]. injection Hacq as <-.
  apply (phase_inv n _ ths o t Acquired); try done; simpl.
  - intros l Hne. by rewrite lookup_insert_ne.
  - split; simpl.
    + exists (NsLock mx (nl_ref lk)). rewrite lookup_insert_eq. simpl.
      split_and!; [done|lia|done|..]; destruct (th_read t); unfold rw_RLock, rw_Lock in Em;
        destruct (rw_writer (nl_mutex lk)), (rw_readers (nl_mutex lk)); simplify_eq/=; done || lia.
    + exists di. split; [done|]. split; [rewrite Hdc; f_equal; lia|].
      intros o'. specialize (Hinfo o'). destruct (decide (o' = o)) as [->|Hne].
      * rewrite lookup_insert_eq. destruct (lockInfo di !! o) as [info|]; [|by apply Hinfo in Ht].
        destruct Hinfo as (t' & Ht' & Hp & Hs & Hst). simplify_eq.
        eexists. split_and!; [done..|]. rewrite Hst. unfold status_of, runs. by rewrite Hph.
      * by rewrite lookup_insert_ne.
  - pose proof (inv_counters _ Hinv) as Hci. simpl in Hci. rewrite Hci. f_equal. lia.
Qed.

(** The status update of a thread that acquired its lock succeeds. *)
Lemma running_ok now n ths o t :
  ns_inv (NsSys n ths) → ths !! o = Some t → th_phase t = Acquired →
  ∃ di, debugLockMap n !! th_param t = Some di ∧
    statusBlockedToRunning now n (th_param t) (th_src t) o (th_read t) =
      (NsLockMap (lockGranted (counters n))
         (<[th_param t := DebugInfo (lockGranted (di_counters di))
            (<[o := newDebugLockInfo now (th_src t) runningStatus (th_read t)]> (lockInfo di))]>
            (debugLockMap n)) (lockMap n) (heap n), None).
Proof.
  intros Hinv Ht Hph. destruct (thread_lock _ _ _ _ Hinv Ht) as [_ [_ (di & Hdi & [_ Hinfo])]].
  exists di. split; [done|]. unfold statusBlockedToRunning. rewrite Hdi. specialize (Hinfo o).
  destruct (lockInfo di !! o) as [info|]; [|by apply Hinfo in Ht].
  destruct Hinfo as (t' & Ht' & _ & Hs & Hst). simplify_eq.
  rewrite bool_decide_true by done. simpl. unfold status_of, runs in Hst. rewrite Hph in Hst.
  rewrite Hst. done.
Qed.

Lemma running_inv now n ths o t :
  ns_inv (NsSys n ths) → ths !! o = Some t → th_phase t = Acquired →
  ns_inv (NsSys (statusBlockedToRunning now n (th_param t) (th_src t) o (th_read t)).1
            (<[o := set_phase t Running]> ths)).
Proof.
  intros Hinv Ht Hph. destruct (running_ok now n ths o t Hinv Ht Hph) as (di & Hdi & ->).
  destruct (thread_lock _ _ _ _ Hinv Ht) as [Hl [(lk & Hlk & Hlk') (di' & Hdi' & [Hdc Hinfo])]].
  simplify_eq. destruct (count_phase ths o t Running Ht) as (Con & Crd & Cwr & Cro & Crn).
  rewrite Hph in Crd, Cwr, Cro, Crn. simpl in Crd, Cwr, Cro, Crn.
  apply (phase_inv n _ ths o t Running); try done; simpl.
  - intros q Hq. by rewrite lookup_insert_ne.
  - split; simpl.
    + exists lk. destruct Hlk' as (? & ? & ? & ? & ?). split_and!; [done|lia|done|lia|lia|done].
    + eexists. rewrite lookup_insert_eq. split; [done|]. split; simpl.
      * rewrite Hdc. unfold lockGranted, stat_of. simpl. f_equal; lia.
      * by apply debug_info_phase.
  - pose proof (inv_counters _ Hinv) as Hci. simpl in Hci. rewrite Hci.
    unfold lockGranted, stat_of. simpl. f_equal; lia.
Qed.

(** ** Releasing a lock *)

Lemma delete_one_thread ths o t :
  ths !! o = Some t → one_thread o (th_param t) ths (delete o ths).
Proof.
  intros Ht. split.
  - intros o' Hne. by rewrite lookup_delete_ne.
  - congruence.
  - intros t'. by rewrite lookup_delete_eq.
Qed.

Lemma info_ok_delete ths o t li :
  ths !! o = Some t → info_ok ths (th_param t) li →
  info_ok (delete o ths) (th_param t) (delete o li).
Proof.
  intros Ht Hli o'. destruct (decide (o' = o)) as [->|Hne].
  - by rewrite !lookup_delete_eq.
  - rewrite !lookup_delete_ne by done. apply (Hli o').
Qed.

(** The mutex of a running thread can be released. *)
Lemma release_ok n ths o t lk :
  ns_inv (NsSys n ths) → ths !! o = Some t → th_phase t = Running →
  heap n !! th_loc t = Some lk →
  ∃ mx, (if th_read t then rw_RUnlock (nl_mutex lk) else rw_Unlock (nl_mutex lk)) = Ret mx ∧
    rw_readers mx = count (reads (th_param t)) (delete o ths) ∧
    b2n (rw_writer mx) = count (writes (th_param t)) (delete o ths) ∧
    (rw_writer mx = true → rw_readers mx = 0).
Proof.
  intros Hinv Ht Hph Hlk. destruct (thread_lock _ _ _ _ Hinv Ht) as [_ [(lk' & Hlk' & _ & _ & Hrd & Hwr & Hx) _]].
  simplify_eq.
  rewrite (count_split _ _ _ _ Ht) in Hrd. rewrite (count_split _ _ _ _ Ht) in Hwr.
  rewrite reads_self in Hrd. rewrite writes_self in Hwr. rewrite Hph in Hrd, Hwr. simpl in Hrd, Hwr.
  destruct (th_read t); simpl in *.
  - unfold rw_RUnlock. destruct (rw_readers (nl_mutex lk)) as [|r] eqn:Er; [lia|].
    eexists. split; [done|]. simpl. split_and!; [lia|lia|]. intros Hw. specialize (Hx Hw). lia.
  - unfold rw_Unlock. destruct (rw_writer (nl_mutex lk)) eqn:Ew; [|simpl in Hwr; lia].
    eexists. split; [done|]. simpl in *. split_and!; [lia|lia|done].
Qed.

Lemma count_delete ths o t :
  ths !! o = Some t → th_phase t = Running →
  count (on (th_param t)) ths = S (count (on (th_param t)) (delete o ths)) ∧
  count (runs_on (th_param t)) ths = S (count (runs_on (th_param t)) (delete o ths)) ∧
  count runs ths = S (count runs (delete o ths)) ∧ size ths = S (size (delete o ths)).
Proof.
  intros Ht Hph. rewrite !(count_split _ _ _ _ Ht), on_self, runs_on_self. unfold runs at 2.
  rewrite bool_decide_true by done. simpl. split_and!; try lia.
  rewrite map_size_delete_Some by eauto. assert (size ths ≠ 0); [|lia].
  rewrite map_size_non_empty_iff. intros ->. by rewrite lookup_empty in Ht.
Qed.

(** The last thread of a resource leaves and its lock goes. *)
Lemma drop_lock_inv n ths o t lk c :
  ns_inv (NsSys n ths) → ths !! o = Some t →
  count (on (th_param t)) (delete o ths) = 0 →
  c = stat_of (size (delete o ths)) (count runs (delete o ths)) →
  ns_inv (NsSys (NsLockMap c (delete (th_param t) (debugLockMap n))
                   (delete (th_param t) (lockMap n)) (<[th_loc t := lk]> (heap n)))
            (delete o ths)).
Proof.
  intros Hinv Ht Hz Hc. destruct (thread_lock _ _ _ _ Hinv Ht) as [Hl _].
  pose proof (delete_one_thread ths o t Ht) as Hone.
  destruct Hinv as [Hlocks Hths Hdist _]. simpl in *. split; simpl; [| | |done].
  - intros p. destruct (decide (p = th_param t)) as [->|Hne]; [by rewrite !lookup_delete_eq|].
    rewrite !lookup_delete_ne by done. specialize (Hlocks p).
    destruct (lockMap n !! p) as [l|] eqn:Hlp.
    + eapply lock_ok_frame; [done|done|done| |]; simpl; [|by rewrite lookup_delete_ne].
      rewrite lookup_insert_ne; [done|]. intros <-. apply Hne. by eapply Hdist.
    + destruct Hlocks as [Hz' ?]. split; [|done]. rewrite <- Hz'.
      apply (one_thread_count _ _ _ _ _ Hone). intros u Hu. unfold on. apply bool_decide_false. congruence.
  - intros o' t' [Hne Ht']%lookup_delete_Some. rewrite lookup_delete_ne; [by eapply Hths|].
    intros Hp. rewrite count_zero in Hz. specialize (Hz o' t'). rewrite lookup_delete_ne in Hz by done.
    specialize (Hz Ht'). unfold on in Hz. apply bool_decide_eq_false in Hz. congruence.
  - intros p1 p2 l [_ H1]%lookup_delete_Some [_ H2]%lookup_delete_Some. by eapply Hdist.
Qed.

(** [unlock] by a running thread: it does not panic, logs nothing, and the
    invariant holds for the remaining threads. *)
Lemma unlock_ok n ths o t :
  ns_inv (NsSys n ths) → ths !! o = Some t → th_phase t = Running →
  ∃ n', unlock n (th_param t) o (th_read t) = Ret (n', []) ∧ ns_inv (NsSys n' (delete o ths)).
Proof.
  intros Hinv Ht Hph. destruct (thread_lock _ _ _ _ Hinv Ht) as [Hl Hok].
  pose proof Hok as [(lk & Hlk & Href & Hpos & _) (di & Hdi & [Hdc Hinfo])].
  destruct (release_ok n ths o t lk Hinv Ht Hph Hlk) as (mx & Hmx & Hrd & Hwr & Hx).
  destruct (count_delete ths o t Ht Hph) as (Con & Cro & Crn & Csz).
  pose proof (delete_one_thread ths o t Ht) as Hone.
  pose proof (inv_counters _ Hinv) as Hci. simpl in Hci.
  unfold unlock. rewrite Hl, Hlk, Hmx. cbn [mbind go_bind].
  rewrite (proj2 (Nat.eqb_neq (nl_ref lk) 0)) by lia.
  unfold deleteLockInfoEntryForOps. simpl. rewrite Hdi.
  pose proof (Hinfo o) as Hi. destruct (lockInfo di !! o) as [info|] eqn:Hio; [|by apply Hi in Ht].
  destruct Hi as (t' & Ht' & _ & _ & Hst). simplify_eq.
  unfold status_of, runs in Hst. rewrite Hph in Hst. simpl in Hst. rewrite Hst. simpl.
  assert (Hinfo' : info_ok (delete o ths) (th_param t) (delete o (lockInfo di)))
    by by apply info_ok_delete.
  assert (Hcnt' : lockRemoved (counters n) true = stat_of (size (delete o ths)) (count runs (delete o ths))).
  { rewrite Hci. unfold lockRemoved, stat_of. simpl. f_equal; lia. }
  destruct (pred (nl_ref lk) =? 0) eqn:Er; [apply Nat.eqb_eq in Er|apply Nat.eqb_neq in Er].
  - assert (Hz : count (on (th_param t)) (delete o ths) = 0) by lia.
    assert (Hempty : delete o (lockInfo di) = ∅).
    { apply map_empty. intros o'. specialize (Hinfo' o'). destruct (delete o (lockInfo di) !! o'); [|done].
      destruct Hinfo' as (t' & Ht' & Hp & _). rewrite count_zero in Hz. apply Hz in Ht'.
      unfold on in Ht'. by apply bool_decide_eq_false in Ht'. }
    unfold deleteLockInfoEntryForVolumePath. simpl. rewrite lookup_insert_eq. simpl.
    rewrite Hempty, map_to_list_empty. simpl. rewrite delete_insert_eq.
    eexists. split; [done|]. by apply (drop_lock_inv n ths o t).
  - eexists. split; [done|].
    apply ns_inv_step with (n := n) (ths := ths) (o0 := o) (p0 := th_param t) (l := th_loc t); try done; simpl.
    + intros q l Hq Hql. assert (l ≠ th_loc t); [|split; [done|by rewrite lookup_insert_ne]].
      intros ->. apply Hq. by eapply (inv_distinct _ Hinv).
    + intros q Hq. by rewrite lookup_insert_ne.
    + split; simpl.
      * eexists. rewrite lookup_insert_eq. split; [done|]. simpl. split_and!; [lia|lia|lia|lia|done].
      * eexists. rewrite lookup_insert_eq. split; [done|]. split; [|done]. simpl.
        rewrite Hdc. unfold lockRemoved, stat_of. simpl. f_equal; lia.
    + congruence.
    + intros t'. by rewrite lookup_delete_eq.
    + intros o' t' Ht' Hp. apply (inv_threads _ Hinv) in Ht'. simpl in Ht'. congruence.
Qed.

Lemma ns_init_inv : ns_inv ns_init.
Proof.
  split; simpl.
  - intros p. rewrite !lookup_empty. split; [apply count_empty|done].
  - intros o t Ht. by rewrite lookup_empty in Ht.
  - intros p1 p2 l Hl. by rewrite lookup_empty in Hl.
  - by rewrite count_empty, map_size_empty.
Qed.

Lemma ns_step_inv s s' : ns_step s s' → ns_inv s → ns_inv s'.
Proof.
  intros Hstep Hinv. destruct Hstep as [now n ths p src o rl n' l Ho Hb|n ths o t n' Ht Hph Ha|
    now n ths o t Ht Hph|n ths o t n' errs Ht Hph Hu].
  - by eapply begin_inv.
  - by apply (acquire_inv n).
  - by apply running_inv.
  - destruct (unlock_ok n ths o t Hinv Ht Hph) as (n2 & Hu2 & Hinv2).
    rewrite Hu in Hu2. by injection Hu2 as <- _.
Qed.

Lemma ns_reachable_inv s : rtc ns_step ns_init s → ns_inv s.
Proof.
  intros Hr. assert (Hi := ns_init_inv). revert Hi.
  induction Hr as [|s1 s2 s3 Hs Hrest IH]; [done|]. intros Hi. apply IH. by eapply ns_step_inv.
Qed.

(** ** Properties *)

(** C23.  Mutual exclusion: in every state that any number of threads reach by
    locking and unlocking, a thread that holds a resource for writing holds it
    alone.  [ForceUnlock] is not among the steps: it breaks this, see
    [ns_force_breaks_exclusion]. *)
Theorem ns_mutual_exclusion s o1 o2 t1 t2 :
  rtc ns_step ns_init s →
  sys_threads s !! o1 = Some t1 → sys_threads s !! o2 = Some t2 → o1 ≠ o2 →
  th_param t1 = th_param t2 → holds t1 = true → holds t2 = true →
  th_read t1 = true ∧ th_read t2 = true.
Proof.
  intros Hr H1 H2 Hne Hp Hh1 Hh2. destruct s as [n ths]. simpl in *.
  pose proof (ns_reachable_inv _ Hr) as Hinv.
  destruct (thread_lock _ _ _ _ Hinv H1) as [_ [(lk & _ & _ & _ & Hrd & Hwr & Hx) _]].
  assert (Hon : on (th_param t1) t2 = true) by (unfold on; by apply bool_decide_true).
  assert (Hw : ∀ o t, ths !! o = Some t → on (th_param t1) t = true → holds t = true → th_read t = false →
             rw_writer (nl_mutex lk) = true).
  { intros o t Ht Ho Hh Hnr. destruct (rw_writer (nl_mutex lk)) eqn:E; [done|].
    simpl in Hwr. symmetry in Hwr. rewrite count_zero in Hwr. specialize (Hwr o t Ht).
    unfold writes in Hwr. rewrite Ho, Hh, Hnr in Hwr. done. }
  assert (Hr0 : ∀ o t, ths !! o = Some t → on (th_param t1) t = true → holds t = true →
             rw_writer (nl_mutex lk) = true → th_read t = false).
  { intros o t Ht Ho Hh HwT. specialize (Hx HwT). rewrite Hrd, count_zero in Hx.
    specialize (Hx o t Ht). unfold reads in Hx. rewrite Ho, Hh in Hx. done. }
  destruct (th_read t1) eqn:R1, (th_read t2) eqn:R2; try done; exfalso.
  - pose proof (Hw o2 t2 H2 Hon Hh2 R2) as HwT. pose proof (Hr0 o1 t1 H1 (on_self t1) Hh1 HwT). congruence.
  - pose proof (Hw o1 t1 H1 (on_self t1) Hh1 R1) as HwT. pose proof (Hr0 o2 t2 H2 Hon Hh2 HwT). congruence.
  - assert (2 ≤ count (writes (th_param t1)) ths).
    { apply (count_two _ _ o1 o2 t1 t2); try done; unfold writes.
      - by rewrite on_self, Hh1, R1.
      - by rewrite Hon, Hh2, R2. }
    unfold b2n in Hwr. destruct (rw_writer (nl_mutex lk)); lia.
Qed.

(** Unlocking is safe: in every reachable state a running thread can
    unlock, without a fatal error of the mutex and without an error of the
    instrumentation, and the status update after taking a lock succeeds. *)
Theorem ns_unlock_safe s o t now :
  rtc ns_step ns_init s → sys_threads s !! o = Some t →
  (th_phase t = Running → ∃ n', unlock (sys_ns s) (th_param t) o (th_read t) = Ret (n', [])) ∧
  (th_phase t = Acquired →
     (statusBlockedToRunning now (sys_ns s) (th_param t) (th_src t) o (th_read t)).2 = None).
Proof.
  intros Hr Ht. destruct s as [n ths]. simpl in *. pose proof (ns_reachable_inv _ Hr) as Hinv. split.
  - intros Hph. destruct (unlock_ok n ths o t Hinv Ht Hph) as (n' & Hu & _). eauto.
  - intros Hph. by destruct (running_ok now n ths o t Hinv Ht Hph) as (di & _ & ->).
Qed.

(** C35.  The lock statistics are exact and nothing leaks: in every state reached
    by locking and unlocking (without [ForceUnlock]) the global counters are the numbers of all, waiting and running
    threads, a resource has a lock exactly while it has threads, its
    reference count is their number, and the statistics of the resource count
    them. *)
Theorem ns_counters_exact s :
  rtc ns_step ns_init s →
  counters (sys_ns s) = stat_of (size (sys_threads s)) (count runs (sys_threads s)) ∧
  ∀ p, match lockMap (sys_ns s) !! p with
       | None => (∀ o t, sys_threads s !! o = Some t → th_param t ≠ p) ∧
                 debugLockMap (sys_ns s) !! p = None
       | Some l => ∃ lk di, heap (sys_ns s) !! l = Some lk ∧
           nl_ref lk = count (on p) (sys_threads s) ∧ 0 < nl_ref lk ∧
           debugLockMap (sys_ns s) !! p = Some di ∧
           di_counters di = stat_of (count (on p) (sys_threads s)) (count (runs_on p) (sys_threads s))
       end.
Proof.
  intros Hr. pose proof (ns_reachable_inv _ Hr) as [Hlocks _ _ Hc]. split; [done|]. intros p.
  specialize (Hlocks p). destruct (lockMap (sys_ns s) !! p) as [l|].
  - destruct Hlocks as [(lk & Hlk & Href & Hpos & _) (di & Hdi & [Hdc _])]. exists lk, di. done.
  - destruct Hlocks as [Hz Hd]. split; [|done]. intros o t Ht Hp. rewrite count_zero in Hz.
    specialize (Hz o t Ht). unfold on in Hz. apply bool_decide_eq_false in Hz. done.
Qed.

Lemma count_pos P m : count P m ≠ 0 → ∃ o t, m !! o = Some t ∧ P t = true.
Proof.
  unfold count. rewrite map_size_non_empty_iff. intros (o & t & Ht)%map_choose.
  apply map_lookup_filter_Some in Ht as [Ht HP]. eauto.
Qed.

(** C34.  Progress: no resource is stuck.  In every state reached by locking and
    unlocking (without [ForceUnlock]), for every thread that waits for or holds a
    resource, some thread of the same resource can take its next step. *)
Theorem ns_progress s o t :
  rtc ns_step ns_init s → sys_threads s !! o = Some t →
  ∃ o' t' s', sys_threads s !! o' = Some t' ∧ th_param t' = th_param t ∧
    ns_step s s' ∧ sys_threads s' !! o' ≠ Some t'.
Proof.
  intros Hr Ht. destruct s as [n ths]. simpl in *. pose proof (ns_reachable_inv _ Hr) as Hinv.
  destruct (thread_lock _ _ _ _ Hinv Ht) as [Hl [(lk & Hlk & _ & _ & Hrd & Hwr & Hx) _]].
  destruct (decide (count (λ u, on (th_param t) u && holds u) ths = 0)) as [Hz|Hnz].
  - rewrite count_zero in Hz.
    assert (Hph : th_phase t = Waiting).
    { pose proof (Hz o t Ht) as Hf. rewrite on_self in Hf. unfold holds in Hf. simpl in Hf.
      apply negb_false_iff, bool_decide_eq_true in Hf. done. }
    assert (Hr0 : count (reads (th_param t)) ths = 0)
      by (apply count_zero; intros u tu Htu; unfold reads; by rewrite (Hz u tu Htu)).
    assert (Hw0 : count (writes (th_param t)) ths = 0)
      by (apply count_zero; intros u tu Htu; unfold writes; by rewrite (Hz u tu Htu)).
    assert (Hacq : ∃ n', lock_acquire n (th_loc t) (th_read t) = Some n').
    { unfold lock_acquire. rewrite Hlk. simpl. unfold rw_RLock, rw_Lock. rewrite Hrd, Hr0.
      destruct (rw_writer (nl_mutex lk)); [simpl in Hwr; lia|]. by destruct (th_read t); eexists. }
    destruct Hacq as [n' Hacq]. exists o, t. eexists. split; [done|]. split; [done|].
    split; [by eapply step_acquire|]. simpl. rewrite lookup_insert_eq. intros [= Heq].
    rewrite <- Heq in Hph. done.
  - apply count_pos in Hnz as (o' & t' & Ht' & [Ho Hh]%andb_true_iff). unfold on in Ho.
    apply bool_decide_eq_true in Ho. destruct (th_phase t') eqn:Hph.
    + unfold holds in Hh. by rewrite Hph in Hh.
    + exists o', t'. eexists. split; [done|]. split; [done|]. split; [by apply (step_running 0)|].
      simpl. rewrite lookup_insert_eq. intros [= Heq]. rewrite <- Heq in Hph. done.
    + destruct (unlock_ok n ths o' t' Hinv Ht' Hph) as (n' & Hu & _). exists o', t'. eexists.
      split; [done|]. split; [done|]. split; [by eapply step_unlock|].
      simpl. by rewrite lookup_delete_eq.
Qed.

(** ** ForceUnlock *)

Definition obj : nsParam := ("bucket", "object").

(** Runs the next step of a concrete execution. *)
Ltac run :=
  match goal with
  | |- ?lhs = _ =>
      let x := eval vm_compute in lhs in
      transitivity x; [vm_cast_no_check (eq_refl x)|reflexivity]
  end.
Ltac begin_step o rl := eapply rtc_l; [apply step_regular, (step_begin 0 _ _ obj "src" o rl); run|].
Ltac acquire_step o := eapply rtc_l; [apply step_regular; eapply (step_acquire _ _ o); run|].
Ltac running_step o := eapply rtc_l; [apply step_regular; eapply (step_running 0 _ _ o); run|].
Ltac unlock_step o := eapply rtc_l; [apply step_regular; eapply (step_unlock _ _ o); run|].
Ltac force_step := eapply rtc_l; [apply (step_force _ _ obj)|].

(** ForceUnlock breaks mutual exclusion for good: after it, the unlock of
    the writer that was forced out releases the mutex of the next writer, so
    that two writers hold the same resource with regular locks. *)
Theorem ns_force_breaks_exclusion :
  ∃ s t2 t3, rtc ns_step_forced ns_init s ∧
    sys_threads s !! "w2" = Some t2 ∧ sys_threads s !! "w3" = Some t3 ∧
    th_param t2 = th_param t3 ∧ holds t2 = true ∧ holds t3 = true ∧
    th_read t2 = false ∧ th_read t3 = false.
Proof.
  eexists _, _, _. split.
  - begin_step "w1" false. acquire_step "w1". running_step "w1". force_step.
    begin_step "w2" false. acquire_step "w2". running_step "w2". unlock_step "w1".
    begin_step "w3" false. acquire_step "w3". apply rtc_refl.
  - split_and!; run.
Qed.

(** ForceUnlock can crash the server: when a reader was forced out and a
    writer took the resource, the reader's unlock releases a read lock of a
    mutex that has none, a fatal error of the Go runtime. *)
Theorem ns_force_panics :
  ∃ s t, rtc ns_step_forced ns_init s ∧ sys_threads s !! "r1" = Some t ∧
    th_phase t = Running ∧ unlock (sys_ns s) (th_param t) "r1" (th_read t) = Panic.
Proof.
  eexists _, _. split.
  - begin_step "r1" true. acquire_step "r1". running_step "r1". force_step.
    begin_step "w2" false. acquire_step "w2". apply rtc_refl.
  - split_and!; run.
Qed.

(** ** Witnesses *)

(** Two readers hold a resource and a writer waits. *)
Lemma two_readers_reachable :
  ∃ s, rtc ns_step ns_init s ∧
    sys_threads s !! "r1" = Some (Thread obj 0 true "src" Running) ∧
    sys_threads s !! "r2" = Some (Thread obj 0 true "src" Acquired) ∧
    sys_threads s !! "w" = Some (Thread obj 0 false "src" Waiting).
Proof.
  eexists. split.
  - eapply rtc_l; [apply (step_begin 0 _ _ obj "src" "r1" true); run|].
    eapply rtc_l; [eapply (step_acquire _ _ "r1"); run|].
    eapply rtc_l; [eapply (step_running 0 _ _ "r1"); run|].
    eapply rtc_l; [apply (step_begin 0 _ _ obj "src" "r2" true); run|].
    eapply rtc_l; [apply (step_begin 0 _ _ obj "src" "w" false); run|].
    eapply rtc_l; [eapply (step_acquire _ _ "r2"); run|].
    apply rtc_refl.
  - split_and!; run.
Qed.

Lemma ns_mutual_exclusion_witness :
  ∃ s t1 t2, sys_threads s !! "r1" = Some t1 ∧ sys_threads s !! "r2" = Some t2 ∧
    th_read t1 = true ∧ th_read t2 = true.
Proof.
  destruct two_readers_reachable as (s & Hr & H1 & H2 & _).
  exists s. eexists _, _. split; [exact H1|]. split; [exact H2|].
  apply (ns_mutual_exclusion s "r1" "r2" _ _ Hr H1 H2); done.
Defined.

Lemma ns_unlock_safe_witness :
  ∃ s n', sys_threads s !! "r1" = Some (Thread obj 0 true "src" Running) ∧
    unlock (sys_ns s) obj "r1" true = Ret (n', []).
Proof.
  destruct two_readers_reachable as (s & Hr & H1 & _).
  destruct (ns_unlock_safe s "r1" _ 0 Hr H1) as [Hu _]. destruct (Hu eq_refl) as [n' Hn'].
  exists s, n'. split; [exact H1|exact Hn'].
Defined.

Lemma ns_counters_exact_witness :
  ∃ s, rtc ns_step ns_init s ∧
    counters (sys_ns s) = stat_of (size (sys_threads s)) (count runs (sys_threads s)).
Proof.
  destruct two_readers_reachable as (s & Hr & _). exists s. split; [exact Hr|].
  apply (ns_counters_exact s Hr).
Defined.

Lemma ns_progress_witness :
  ∃ s o' t' s', sys_threads s !! o' = Some t' ∧ th_param t' = obj ∧
    ns_step s s' ∧ sys_threads s' !! o' ≠ Some t'.
Proof.
  destruct two_readers_reachable as (s & Hr & _ & _ & H3). exists s.
  apply (ns_progress s "w" _ Hr H3).
Defined.
