(* ===== verification/Wildcard.v ===== *)
(** * Wildcard matching

    [wildcard.Match] and [wildcard.MatchSimple] (src/pkg/wildcard/match.go):
    the backtracking matcher decides the declarative matching relation. *)

From S2P Require Import Prelude.

(** ** Runes

    [for _, r := range s] decodes UTF-8; an invalid byte is the rune U+FFFD. *)

Definition rune_error : Z := 65533.

Definition in_range (lo hi : Z) (b : byte) : bool := (lo <=? byte_val b)%Z && (byte_val b <=? hi)%Z.

Definition tail_bits (b : byte) : Z := Z.land (byte_val b) 63.

(** The first rune of a non-empty string and the bytes after it. *)
Definition decode_rune (b0 : byte) (rest : bytes) : Z * bytes :=
  let v := byte_val b0 in
  let bad := (rune_error, rest) in
  if (v <? 128)%Z then (v, rest)
  else if in_range 194 223 b0 then
    match rest with
    | b1 :: r => if in_range 128 191 b1
                 then (Z.lor (Z.shiftl (Z.land v 31) 6) (tail_bits b1), r) else bad
    | _ => bad
    end
  else if in_range 224 239 b0 then
    let lo := (if v =? 224 then 160 else 128)%Z in
    let hi := (if v =? 237 then 159 else 191)%Z in
    match rest with
    | b1 :: b2 :: r =>
        if in_range lo hi b1 && in_range 128 191 b2
        then (Z.lor (Z.lor (Z.shiftl (Z.land v 15) 12) (Z.shiftl (tail_bits b1) 6)) (tail_bits b2), r)
        else bad
    | _ => bad
    end
  else if in_range 240 244 b0 then
    let lo := (if v =? 240 then 144 else 128)%Z in
    let hi := (if v =? 244 then 143 else 191)%Z in
    match rest with
    | b1 :: b2 :: b3 :: r =>
        if in_range lo hi b1 && in_range 128 191 b2 && in_range 128 191 b3
        then (Z.lor (Z.lor (Z.shiftl (Z.land v 7) 18) (Z.shiftl (tail_bits b1) 12))
                (Z.lor (Z.shiftl (tail_bits b2) 6) (tail_bits b3)), r)
        else bad
    | _ => bad
    end
  else bad.

(** A rune takes at least one byte, so the length is enough fuel. *)
Fixpoint decode_runes (fuel : nat) (b : bytes) : list Z :=
  match fuel, b with
  | S fuel', b0 :: rest =>
      let '(r, rest') := decode_rune b0 rest in r :: decode_runes fuel' rest'
  | _, _ => []
  end.

Definition runes (s : string) : list Z :=
  let b := bytes_of_string s in decode_runes (length b) b.

(** ** Operations *)

Definition star : Z := 42.
Definition question : Z := 63.

(** The loop consumes the pattern; a ['*'] branches.  In simple mode a ['?']
    at the end of the text slices an empty slice, which panics. *)
Fixpoint deepMatchRune (simple : bool) (pattern str : list Z) : go bool :=
  match pattern with
  | [] => Ret (bool_decide (str = []))
  | c :: pattern' =>
      if (c =? question)%Z then
        match str with
        | [] => if simple then Panic else Ret false
        | _ :: str' => deepMatchRune simple pattern' str'
        end
      else if (c =? star)%Z then
        (fix from (str : list Z) : go bool :=
           b ← deepMatchRune simple pattern' str;
           if (b : bool) then Ret true
           else match str with
                | [] => Ret false
                | _ :: str' => from str'
                end) str
      else
        match str with
        | [] => Ret false
        | r :: str' => if (r =? c)%Z then deepMatchRune simple pattern' str' else Ret false
        end
  end.

Definition MatchSimple (pattern name : string) : go bool :=
  if bool_decide (pattern = "") then Ret (bool_decide (name = pattern))
  else if bool_decide (pattern = "*") then Ret true
  else deepMatchRune true (runes pattern) (runes name).

Definition Match (pattern name : string) : go bool :=
  if bool_decide (pattern = "") then Ret (bool_decide (name = pattern))
  else if bool_decide (pattern = "*") then Ret true
  else deepMatchRune false (runes pattern) (runes name).

(** ** Specification *)

Inductive matches : list Z → list Z → Prop :=
| matches_nil : matches [] []
| matches_question r p s : matches p s → matches (question :: p) (r :: s)
| matches_star p s1 s2 : matches p s2 → matches (star :: p) (s1 ++ s2)
| matches_literal c p s :
    c ≠ question → c ≠ star → matches p s → matches (c :: p) (c :: s).

(** ** Lemmas *)

Lemma deepMatchRune_star simple p : ∀ s,
  deepMatchRune simple (star :: p) s =
    (b ← deepMatchRune simple p s;
     if (b : bool) then Ret true
     else match s with [] => Ret false | _ :: s' => deepMatchRune simple (star :: p) s' end).
Proof. by destruct s. Qed.

Lemma matches_star_inv p s : matches (star :: p) s → ∃ s1 s2, s = s1 ++ s2 ∧ matches p s2.
Proof. inversion 1; subst; [by eexists _, _|done]. Qed.

(** The matcher decides [matches]; only a ['?'] in simple mode can panic. *)
Lemma deepMatchRune_spec simple p : ∀ s,
  (simple = true → question ∉ p) →
  ∃ b, deepMatchRune simple p s = Ret b ∧ (b = true ↔ matches p s).
Proof.
  induction p as [|c p IH]; intros s Hq.
  - eexists. split; [done|]. rewrite bool_decide_eq_true. split; [intros ->; constructor|].
    by inversion 1.
  - assert (Hq' : simple = true → question ∉ p) by (intros Hs Hin; apply (Hq Hs); by constructor).
    destruct (decide (c = question)) as [->|Hnq].
    { destruct s as [|r s]; simpl.
      - destruct simple; [destruct (Hq eq_refl); constructor|]. eexists. split; [done|].
        split; [done|]. inversion 1; done.
      - destruct (IH s Hq') as (b & -> & Hb). eexists. split; [done|]. rewrite Hb.
        split; [by constructor|]. inversion 1; done. }
    destruct (decide (c = star)) as [->|Hns].
    { induction s as [|r s IHs]; rewrite deepMatchRune_star.
      - destruct (IH [] Hq') as (b & -> & Hb). cbn [mbind go_bind]. destruct b.
        + eexists. split; [done|]. split; [|done]. intros _. apply (matches_star p []). by apply Hb.
        + eexists. split; [done|]. split; [done|]. intros (s1 & s2 & He & Hm)%matches_star_inv.
          symmetry in He. apply app_nil in He as [-> ->]. by apply Hb.
      - destruct (IH (r :: s) Hq') as (b & -> & Hb). cbn [mbind go_bind]. destruct b.
        + eexists. split; [done|]. split; [|done]. intros _. apply (matches_star p []). by apply Hb.
        + destruct IHs as (b' & Heq & Hb'). rewrite Heq. eexists. split; [done|]. rewrite Hb'. split.
          * intros (s1 & s2 & -> & Hm)%matches_star_inv. by apply (matches_star p (r :: s1)).
          * intros (s1 & s2 & He & Hm)%matches_star_inv. destruct s1 as [|r' s1].
            -- simpl in He. subst s2. exfalso. apply Hb in Hm. done.
            -- injection He as -> ->. by constructor. }
    simpl. rewrite (proj2 (Z.eqb_neq c question) Hnq), (proj2 (Z.eqb_neq c star) Hns).
    destruct s as [|r s].
    + eexists. split; [done|]. split; [done|]. inversion 1; done.
    + destruct (r =? c)%Z eqn:E; bool_prop.
      * subst r. destruct (IH s Hq') as (b & -> & Hb). eexists. split; [done|]. rewrite Hb.
        split; [by constructor|]. inversion 1; done.
      * eexists. split; [done|]. split; [done|]. inversion 1; done.
Qed.

Lemma runes_empty s : runes s = [] ↔ s = "".
Proof.
  unfold runes. destruct s as [|c s]; [done|]. simpl. split; [|done].
  by destruct (decode_rune c _).
Qed.

Lemma matches_all s : matches [star] s.
Proof. rewrite <- (app_nil_r s). constructor. constructor. Qed.

Lemma Match_spec pattern name :
  ∃ b, Match pattern name = Ret b ∧ (b = true ↔ matches (runes pattern) (runes name)).
Proof.
  unfold Match. case_bool_decide as He.
  - subst pattern. eexists. split; [done|]. rewrite bool_decide_eq_true. change (runes "") with (@nil Z).
    rewrite <- runes_empty. split; [intros ->; constructor|]. by inversion 1.
  - case_bool_decide as Hs.
    + subst pattern. eexists. split; [done|]. split; [intros _; apply matches_all|done].
    + by apply deepMatchRune_spec.
Qed.

(** C36.  [Match] is correct: it always returns, and returns true exactly when
    the text matches the pattern, where ['*'] stands for any sequence of runes
    and ['?'] for any one rune. *)
Theorem Match_correct pattern name :
  ∃ b, Match pattern name = Ret b ∧ (b = true ↔ matches (runes pattern) (runes name)).
Proof. apply Match_spec. Qed.

Lemma MatchSimple_Match pattern name :
  question ∉ runes pattern → MatchSimple pattern name = Match pattern name.
Proof.
  intros Hq. unfold MatchSimple, Match. case_bool_decide; [done|]. case_bool_decide; [done|].
  destruct (deepMatchRune_spec true (runes pattern) (runes name)) as (b1 & -> & H1); [done|].
  destruct (deepMatchRune_spec false (runes pattern) (runes name)) as (b2 & -> & H2); [done|].
  f_equal. apply eq_true_iff_eq. by rewrite H1, H2.
Qed.

(** [MatchSimple] agrees with [Match] on patterns without a ['?']. *)
Theorem MatchSimple_no_question pattern name :
  question ∉ runes pattern → MatchSimple pattern name = Match pattern name.
Proof. apply MatchSimple_Match. Qed.

Lemma MatchSimple_no_question_witness :
  (question ∉ runes "arn:aws:s3:::*") ∧
  MatchSimple "arn:aws:s3:::*" "arn:aws:s3:::bucket" = Match "arn:aws:s3:::*" "arn:aws:s3:::bucket".
Proof.
  assert (Hq : question ∉ runes "arn:aws:s3:::*") by (apply (bool_decide_unpack _); vm_compute; exact I).
  split; [exact Hq|]. apply (MatchSimple_no_question _ _ Hq).
Defined.

(** A ['?'] is not a literal in simple mode: it matches any rune, and a
    pattern that still has a ['?'] when the text ends makes [MatchSimple]
    panic. *)
Theorem MatchSimple_question :
  MatchSimple "a?" "ab" = Ret true ∧ MatchSimple "a?" "a" = Panic ∧ MatchSimple "*?a" "b" = Panic.
Proof. split_and!; reflexivity. Qed.
