(* ===== verification/Policy.v ===== *)
(** * Bucket policies

    Validation of a bucket policy and evaluation of a request against it
    (src/cmd/bucket-policy-parser.go, src/cmd/bucket-policy-handlers.go).
    String sets are finite sets; loops over them follow the unspecified map
    order.  The JSON decoder is left out: its result is an argument.  Error
    texts are abbreviated. *)

From S2P Require Import Prelude.
From S2P Require Import GoErrors.
From S2P Require Import GoStrings.
From S2P Require Import Wildcard.

(** ** Data *)

Abbreviation StringSet := (gset string).

(** A decoded JSON value of unknown type. *)
Inductive iface :=
| INil
| IString (s : string)
| IStrings (l : list string)
| IList (l : list iface)
| IMap (m : list (string * iface))
| IOther.

Record policyStatement := PolicyStatement {
  Actions : StringSet;
  Conditions : gmap string (gmap string StringSet);
  Effect : string;
  Principal : iface;
  Resources : StringSet;
  Sid : string;
}.

Record bucketPolicy := BucketPolicy { Version : string; Statements : list policyStatement }.

Inductive APIErrorCode := ErrNone | ErrMalformedPolicy | ErrPolicyNesting.

Definition bucketARNPrefix : string := "arn:aws:s3:::".

Definition supportedActionMap : StringSet :=
  list_to_set ["*"; "s3:*"; "s3:GetObject"; "s3:ListBucket"; "s3:PutObject"; "s3:GetBucketLocation";
    "s3:DeleteObject"; "s3:AbortMultipartUpload"; "s3:ListBucketMultipartUploads";
    "s3:ListMultipartUploadParts"].
Definition supportedConditionsType : StringSet := list_to_set ["StringEquals"; "StringNotEquals"].
Definition supportedConditionsKey : StringSet := list_to_set ["s3:prefix"; "s3:max-keys"].
Definition supportedEffectMap : StringSet := list_to_set ["Allow"; "Deny"].
Definition invalidPrefixActions : StringSet :=
  list_to_set ["s3:GetBucketLocation"; "s3:ListBucket"; "s3:ListBucketMultipartUploads"].

(** ** Validation *)

(** A loop that stops at the first error. *)
Fixpoint first_error {A} (f : A → option error) (l : list A) : option error :=
  match l with
  | [] => None
  | x :: l' => match f x with Some e => Some e | None => first_error f l' end
  end.

Definition isValidActions (actions : StringSet) : option error :=
  if bool_decide (actions = ∅) then Some (ENew "Action list cannot be empty")
  else if negb (bool_decide (actions ∖ supportedActionMap = ∅))
  then Some (ENew "Unsupported actions found") else None.

Definition isValidEffect (effect : string) : option error :=
  if bool_decide (effect = "") then Some (ENew "Policy effect cannot be empty")
  else if negb (bool_decide (effect ∈ supportedEffectMap))
  then Some (ENew "Unsupported Effect found") else None.

(** The strings of a principal value. *)
Definition principal_strings (p : iface) : list string :=
  match p with
  | IString s => [s]
  | IStrings l => l
  | IList l => omap (λ pa, match pa with IString s => Some s | _ => None end) l
  | _ => []
  end.

Definition parsePrincipals (principal : iface) : StringSet :=
  match principal with
  | IString s => {[s]}
  | IMap m => list_to_set (m ≫= λ kv, principal_strings kv.2)
  | _ => ∅
  end.

Definition isValidPrincipals (principal : iface) : option error :=
  let principals := parsePrincipals principal in
  if bool_decide (principals = ∅) then Some (ENew "Principal cannot be empty")
  else if negb (bool_decide (principals ∖ {["*"]} = ∅))
  then Some (ENew "Unsupported principals found") else None.

Section Order.
Context `{MapOrder}.

Definition isValidResources (resources : StringSet) : option error :=
  if bool_decide (resources = ∅) then Some (ENew "Resource list cannot be empty")
  else first_error (λ resource,
    if negb (HasPrefix resource bucketARNPrefix) then Some (ENew "Unsupported resource style found")
    else
      let resourceSuffix := default "" (SplitAfter resource bucketARNPrefix !! 1) in
      if bool_decide (resourceSuffix = "") || HasPrefix resourceSuffix "/"
      then Some (ENew "Invalid resource style found") else None)
    (range_order (elements resources)).

(** The loop over the keys of one condition type; [seen] is
    [conditionKeyVal]. *)
Fixpoint check_condition_keys (kvs : list (string * StringSet)) (seen : gmap string StringSet)
    : gmap string StringSet + error :=
  match kvs with
  | [] => inl seen
  | (key, value) :: kvs' =>
      if negb (bool_decide (key ∈ supportedConditionsKey))
      then inr (ENew "Unsupported condition key")
      else
        match seen !! key with
        | Some conditionVal =>
            if negb (bool_decide (value ∩ conditionVal = ∅))
            then inr (ENew "Ambigious condition values for key")
            else check_condition_keys kvs' (<[key := value]> seen)
        | None => check_condition_keys kvs' (<[key := value]> seen)
        end
  end.

Fixpoint check_condition_types (conds : list (string * gmap string StringSet))
    (seen : gmap string StringSet) : option error :=
  match conds with
  | [] => None
  | (conditionType, kv) :: conds' =>
      if negb (bool_decide (conditionType ∈ supportedConditionsType))
      then Some (ENew "Unsupported condition type")
      else
        match check_condition_keys (range_order (map_to_list kv)) seen with
        | inl seen' => check_condition_types conds' seen'
        | inr e => Some e
        end
  end.

Definition isValidConditions (conditions : gmap string (gmap string StringSet)) : option error :=
  check_condition_types (range_order (map_to_list conditions)) ∅.

Definition isValidStatement (statement : policyStatement) : option error :=
  match isValidEffect (Effect statement) with
  | Some e => Some e
  | None =>
      match isValidPrincipals (Principal statement) with
      | Some e => Some e
      | None =>
          match isValidActions (Actions statement) with
          | Some e => Some e
          | None =>
              match isValidResources (Resources statement) with
              | Some e => Some e
              | None => isValidConditions (Conditions statement)
              end
          end
      end
  end.

(** [decoded] is the result of the JSON decoder. *)
Definition parseBucketPolicy (decoded : bucketPolicy + error) : bucketPolicy + error :=
  match decoded with
  | inr e => inr e
  | inl policy =>
      if bool_decide (Version policy = "") then inr (ENew "Policy version cannot be empty")
      else if bool_decide (Statements policy = []) then inr (ENew "Policy statement cannot be empty")
      else
        match first_error isValidStatement (Statements policy) with
        | Some e => inr e
        | None =>
            let denyStatements := filter (λ s, Effect s = "Deny") (Statements policy) in
            let allowStatements := filter (λ s, Effect s ≠ "Deny") (Statements policy) in
            inl (BucketPolicy (Version policy) (denyStatements ++ allowStatements))
        end
  end.

(** ** Resources of a policy *)

(** [resourcePrefix]: a trailing ['*'] removed. *)
Definition resourcePrefix (resource : string) : string :=
  if HasSuffix resource "*" then TrimSuffix resource "*" else resource.

(** One action and one resource of a statement: the resource to collect, if
    any, or the error code. *)
Definition check_resource (bucket action resource : string) : go (option string + APIErrorCode) :=
  match SplitAfter resource bucketARNPrefix !! 1 with
  | None => Panic
  | Some resourcePrefix =>
      if bool_decide (action ∈ invalidPrefixActions) then
        if negb (bool_decide (resourcePrefix = bucket)) then Ret (inr ErrMalformedPolicy)
        else Ret (inl None)
      else
        match Split resourcePrefix "/" with
        | [] => Panic
        | first :: _ =>
            if negb (bool_decide (first = bucket)) then Ret (inr ErrMalformedPolicy)
            else Ret (inl (Some resourcePrefix))
        end
  end.

Fixpoint collect_resources (bucket : string) (work : list (string * string)) (resourceMap : StringSet)
    : go (StringSet + APIErrorCode) :=
  match work with
  | [] => Ret (inl resourceMap)
  | (action, resource) :: work' =>
      r ← check_resource bucket action resource;
      match r with
      | inr code => Ret (inr code)
      | inl None => collect_resources bucket work' resourceMap
      | inl (Some p) => collect_resources bucket work' ({[p]} ∪ resourceMap)
      end
  end.

(** The nested loops over statements, actions and resources. *)
Definition policy_work (policy : bucketPolicy) : list (string * string) :=
  Statements policy ≫= λ st,
    range_order (elements (Actions st)) ≫= λ action,
      (λ resource, (action, resource)) <$> range_order (elements (Resources st)).

(** The nesting check over the sorted resources. *)
Fixpoint nested (resources : list string) : bool :=
  match resources with
  | [] => false
  | resource :: rest => existsb (λ other, HasPrefix other resource) rest || nested rest
  end.

Definition checkBucketPolicyResources (bucket : string) (policy : bucketPolicy) : go APIErrorCode :=
  r ← collect_resources bucket (policy_work policy) ∅;
  match r with
  | inr code => Ret code
  | inl resourceMap =>
      let resources := sort_Strings (resourcePrefix <$> range_order (elements resourceMap)) in
      Ret (if nested resources then ErrPolicyNesting else ErrNone)
  end.

(** ** Evaluation *)

(** [set.FuncMatch(fn, s)]: the elements that match. *)
Fixpoint func_match (fn : string → string → go bool) (elems : list string) (s : string)
    : go (list string) :=
  match elems with
  | [] => Ret []
  | k :: elems' =>
      b ← fn k s;
      r ← func_match fn elems' s;
      Ret (if (b : bool) then k :: r else r)
  end.

Definition resourceMatch (pattern resource : string) : go bool := Match pattern resource.
Definition actionMatch (pattern action : string) : go bool := MatchSimple pattern action.

Definition bucketPolicyActionMatch (action : string) (statement : policyStatement) : go bool :=
  r ← func_match actionMatch (range_order (elements (Actions statement))) action;
  Ret (negb (bool_decide (r = []))).

Definition bucketPolicyResourceMatch (resource : string) (statement : policyStatement) : go bool :=
  r ← func_match resourceMatch (range_order (elements (Resources statement))) resource;
  Ret (negb (bool_decide (r = []))).

(** One condition of a statement; missing sets are empty. *)
Definition condition_match (conditions : gmap string StringSet)
    (cond : string * gmap string StringSet) : bool :=
  let '(condition, conditionKeyVal) := cond in
  let prefix_eq :=
    bool_decide (default ∅ (conditionKeyVal !! "s3:prefix") = default ∅ (conditions !! "prefix")) in
  let max_keys_eq :=
    bool_decide (default ∅ (conditionKeyVal !! "s3:max-keys") = default ∅ (conditions !! "max-keys")) in
  if bool_decide (condition = "StringEquals") then
    if negb prefix_eq then false else if negb max_keys_eq then false else true
  else if bool_decide (condition = "StringNotEquals") then
    if negb prefix_eq then false else if negb max_keys_eq then false else true
  else true.

Definition bucketPolicyConditionMatch (conditions : gmap string StringSet)
    (statement : policyStatement) : bool :=
  forallb (condition_match conditions) (range_order (map_to_list (Conditions statement))).

Definition bucketPolicyMatchStatement (action resource : string)
    (conditions : gmap string StringSet) (statement : policyStatement) : go bool :=
  a ← bucketPolicyActionMatch action statement;
  if negb (a : bool) then Ret false
  else
    r ← bucketPolicyResourceMatch resource statement;
    if negb (r : bool) then Ret false
    else Ret (bucketPolicyConditionMatch conditions statement).

Fixpoint bucketPolicyEvalStatements (action resource : string)
    (conditions : gmap string StringSet) (statements : list policyStatement) : go bool :=
  match statements with
  | [] => Ret false
  | statement :: statements' =>
      b ← bucketPolicyMatchStatement action resource conditions statement;
      if (b : bool) then Ret (bool_decide (Effect statement = "Allow"))
      else bucketPolicyEvalStatements action resource conditions statements'
  end.

End Order.

(** ** Specification *)

(** A statement applies to a request. *)
Definition applies (action resource : string) (conditions : gmap string StringSet)
    (st : policyStatement) : Prop :=
  (∃ a, a ∈ Actions st ∧ matches (runes a) (runes action)) ∧
  (∃ r, r ∈ Resources st ∧ matches (runes r) (runes resource)) ∧
  (∀ c kv, Conditions st !! c = Some kv → condition_match conditions (c, kv) = true).

(** Two of the resources are nested: one is a prefix of another. *)
Definition nesting (l : list string) : Prop :=
  ∃ a b rest, l ≡ₚ a :: b :: rest ∧ HasPrefix b a = true.

(** ** Lemmas *)

Section Eval.
Context `{MapOrder}.

Lemma func_match_spec (fn : string → string → go bool) (P : string → Prop) s elems :
  (∀ k, k ∈ elems → ∃ b, fn k s = Ret b ∧ (b = true ↔ P k)) →
  ∃ r, func_match fn elems s = Ret r ∧ (r ≠ [] ↔ ∃ k, k ∈ elems ∧ P k).
Proof.
  induction elems as [|k elems IH]; intros Hfn; simpl.
  - exists []. split; [done|]. split; [done|]. intros (k & Hk & _). by apply not_elem_of_nil in Hk.
  - destruct (Hfn k) as (b & -> & Hb); [constructor|]. simpl.
    destruct IH as (r & -> & Hr); [intros k' Hk'; apply Hfn; by constructor|]. simpl.
    eexists. split; [done|]. destruct b.
    + split; [|done]. intros _. exists k. split; [constructor|by apply Hb].
    + rewrite Hr. split.
      * intros (k' & Hk' & HP). exists k'. split; [by constructor|done].
      * intros (k' & [->|Hk']%elem_of_cons & HP); [by apply Hb in HP|by exists k'].
Qed.

Lemma func_match_set (fn : string → string → go bool) (P : string → Prop) s (X : StringSet) :
  (∀ k, k ∈ X → ∃ b, fn k s = Ret b ∧ (b = true ↔ P k)) →
  ∃ r, func_match fn (range_order (elements X)) s = Ret r ∧ (r ≠ [] ↔ ∃ k, k ∈ X ∧ P k).
Proof.
  intros Hfn. assert (Hin : ∀ k, k ∈ range_order (elements X) ↔ k ∈ X)
    by (intros k; by rewrite range_order_perm, elem_of_elements).
  destruct (func_match_spec fn P s (range_order (elements X))) as (r & Hr & Hiff).
  { intros k Hk. by apply Hfn, Hin. }
  exists r. split; [done|]. rewrite Hiff. split; intros (k & Hk & HP); exists k; split; try done; by apply Hin.
Qed.

(** Supported actions have no ['?'], so matching them cannot panic. *)
Lemma supported_no_question a : a ∈ supportedActionMap → question ∉ runes a.
Proof.
  unfold supportedActionMap. rewrite elem_of_list_to_set. intros Ha.
  assert (Hall : Forall (λ a, bool_decide (question ∈ runes a) = false)
    ["*"; "s3:*"; "s3:GetObject"; "s3:ListBucket"; "s3:PutObject"; "s3:GetBucketLocation";
     "s3:DeleteObject"; "s3:AbortMultipartUpload"; "s3:ListBucketMultipartUploads";
     "s3:ListMultipartUploadParts"]) by (repeat constructor).
  rewrite Forall_forall in Hall. specialize (Hall a Ha). by apply bool_decide_eq_false in Hall.
Qed.

Lemma isValidActions_supported actions a :
  isValidActions actions = None → a ∈ actions → a ∈ supportedActionMap.
Proof.
  unfold isValidActions. case_bool_decide; [done|]. case_bool_decide as He; [|done].
  intros _ Ha. destruct (decide (a ∈ supportedActionMap)); [done|]. set_solver.
Qed.

Lemma match_statement_spec action resource conditions st :
  isValidActions (Actions st) = None →
  ∃ b, bucketPolicyMatchStatement action resource conditions st = Ret b ∧
    (b = true ↔ applies action resource conditions st).
Proof.
  intros Hact. unfold bucketPolicyMatchStatement, bucketPolicyActionMatch, bucketPolicyResourceMatch.
  destruct (func_match_set actionMatch (λ k, matches (runes k) (runes action)) action
              (Actions st)) as (ra & -> & Ha).
  { intros k Hk. unfold actionMatch. rewrite MatchSimple_Match; [apply Match_spec|].
    by eapply supported_no_question, isValidActions_supported. }
  destruct (func_match_set resourceMatch (λ k, matches (runes k) (runes resource)) resource
              (Resources st)) as (rr & -> & Hr); [intros k _; apply Match_spec|].
  assert (Hc : bucketPolicyConditionMatch conditions st = true ↔
            ∀ c kv, Conditions st !! c = Some kv → condition_match conditions (c, kv) = true).
  { unfold bucketPolicyConditionMatch. rewrite forallb_forall. split.
    - intros Hall c kv Hc. apply Hall, list_elem_of_In. by rewrite range_order_perm, elem_of_map_to_list.
    - intros Hall [c kv] Hin. apply list_elem_of_In in Hin.
      rewrite range_order_perm, elem_of_map_to_list in Hin. by apply Hall. }
  assert (Happ : applies action resource conditions st ↔
            ra ≠ [] ∧ rr ≠ [] ∧ bucketPolicyConditionMatch conditions st = true)
    by (unfold applies; by rewrite Ha, Hr, Hc).
  cbn [mbind go_bind]. destruct (decide (ra = [])) as [Hra|Hra].
  { rewrite bool_decide_true by done. eexists. split; [done|]. rewrite Happ. by split; [|tauto]. }
  rewrite bool_decide_false by done. cbn [negb]. destruct (decide (rr = [])) as [Hrr|Hrr].
  { rewrite bool_decide_true by done. eexists. split; [done|]. rewrite Happ. by split; [|tauto]. }
  rewrite bool_decide_false by done. eexists. split; [done|]. rewrite Happ. tauto.
Qed.

(** A deny statement that applies decides; otherwise the rest does. *)
Lemma eval_deny action resource conditions deny rest :
  Forall (λ st, isValidActions (Actions st) = None ∧ Effect st ≠ "Allow") deny →
  (bucketPolicyEvalStatements action resource conditions (deny ++ rest) = Ret false ∧
     ∃ st, st ∈ deny ∧ applies action resource conditions st) ∨
  (bucketPolicyEvalStatements action resource conditions (deny ++ rest) =
     bucketPolicyEvalStatements action resource conditions rest ∧
     ∀ st, st ∈ deny → ¬ applies action resource conditions st).
Proof.
  induction 1 as [|st deny [Hst He] _ IH]; simpl.
  { right. split; [done|]. intros st Hin. by apply not_elem_of_nil in Hin. }
  destruct (match_statement_spec action resource conditions st Hst) as (b & -> & Hb). simpl. destruct b.
  - left. rewrite bool_decide_false by done. split; [done|]. exists st. split; [constructor|by apply Hb].
  - destruct IH as [[-> (st' & Hin & Ha)]|[-> Hn]].
    + left. split; [done|]. exists st'. split; [by constructor|done].
    + right. split; [done|]. intros st' [->|Hin]%elem_of_cons; [intros Ha; by apply Hb in Ha|auto].
Qed.

Lemma eval_allow action resource conditions allow :
  Forall (λ st, isValidActions (Actions st) = None ∧ Effect st = "Allow") allow →
  ∃ b, bucketPolicyEvalStatements action resource conditions allow = Ret b ∧
    (b = true ↔ ∃ st, st ∈ allow ∧ applies action resource conditions st).
Proof.
  induction 1 as [|st allow [Hst He] _ IH]; simpl.
  { eexists. split; [done|]. split; [done|]. intros (st & Hin & _). by apply not_elem_of_nil in Hin. }
  destruct (match_statement_spec action resource conditions st Hst) as (b & -> & Hb). simpl. destruct b.
  - rewrite bool_decide_true by done. eexists. split; [done|]. split; [|done]. intros _.
    exists st. split; [constructor|by apply Hb].
  - destruct IH as (b & -> & Hiff). eexists. split; [done|]. rewrite Hiff. split.
    + intros (st' & Hin & Ha). exists st'. split; [by constructor|done].
    + intros (st' & [->|Hin]%elem_of_cons & Ha); [by apply Hb in Ha|by exists st'].
Qed.

Lemma first_error_None {A} (f : A → option error) l :
  first_error f l = None ↔ Forall (λ x, f x = None) l.
Proof.
  induction l as [|x l IH]; simpl; [done|]. rewrite Forall_cons, <- IH.
  destruct (f x) as [e|]; [|tauto]. split; [done|]. by intros [? _].
Qed.

Lemma isValidStatement_parts st :
  isValidStatement st = None →
  isValidActions (Actions st) = None ∧ (Effect st = "Allow" ∨ Effect st = "Deny").
Proof.
  unfold isValidStatement, isValidEffect. case_bool_decide; [done|]. case_bool_decide as He; [|done].
  simpl. destruct (isValidPrincipals _); [done|]. destruct (isValidActions _); [done|].
  intros _. split; [done|]. unfold supportedEffectMap in He.
  rewrite elem_of_list_to_set, !elem_of_cons in He. destruct He as [He|[He|He]]; [by left|by right|].
  by apply not_elem_of_nil in He.
Qed.

(** The parsed policy: the statements of the document, deny first. *)
Lemma parse_statements decoded policy' :
  parseBucketPolicy decoded = inl policy' →
  ∃ policy, decoded = inl policy ∧
    Forall (λ st, isValidStatement st = None) (Statements policy) ∧
    Statements policy' = filter (λ s, Effect s = "Deny") (Statements policy) ++
                         filter (λ s, Effect s ≠ "Deny") (Statements policy).
Proof.
  unfold parseBucketPolicy. destruct decoded as [policy|]; [|done].
  case_bool_decide; [done|]. case_bool_decide; [done|].
  destruct (first_error _ _) eqn:He; [done|]. intros [= <-].
  exists policy. split_and!; [done| |done]. by apply first_error_None.
Qed.

(** C37.  Deny overrides allow: evaluating a request against a policy that
    passed validation always returns, and allows the request exactly when some
    Allow statement of the document applies to it and no Deny statement does,
    whatever the order of the statements in the document. *)
Theorem policy_deny_overrides policy policy' action resource conditions :
  parseBucketPolicy (inl policy) = inl policy' →
  ∃ b, bucketPolicyEvalStatements action resource conditions (Statements policy') = Ret b ∧
    (b = true ↔
       (∃ st, st ∈ Statements policy ∧ Effect st = "Allow" ∧ applies action resource conditions st) ∧
       (∀ st, st ∈ Statements policy → Effect st = "Deny" → ¬ applies action resource conditions st)).
Proof.
  intros (p & [= <-] & Hvalid & Hst)%parse_statements. rewrite Hst. clear Hst.
  set (deny := filter (λ s, Effect s = "Deny") (Statements policy)).
  set (allow := filter (λ s, Effect s ≠ "Deny") (Statements policy)).
  rewrite Forall_forall in Hvalid.
  assert (Hdeny : ∀ st, st ∈ deny ↔ st ∈ Statements policy ∧ Effect st = "Deny")
    by (intros st; unfold deny; rewrite list_elem_of_filter; tauto).
  assert (Hallow : ∀ st, st ∈ allow ↔ st ∈ Statements policy ∧ Effect st = "Allow").
  { intros st. unfold allow. rewrite list_elem_of_filter. split; [|by intros [? ->]].
    intros [Hne Hin]. split; [done|].
    by destruct (isValidStatement_parts st (Hvalid st Hin)) as [_ [?|?]]. }
  destruct (eval_deny action resource conditions deny allow) as [[-> (st & Hin & Ha)]|[-> Hn]].
  - rewrite Forall_forall. intros st [Hin He]%Hdeny. split; [|congruence].
    by apply isValidStatement_parts, Hvalid.
  - exists false. split; [done|]. split; [done|]. intros [_ Hno]. apply Hdeny in Hin as [Hin He].
    by destruct (Hno st Hin He).
  - destruct (eval_allow action resource conditions allow) as (b & -> & Hb).
    { rewrite Forall_forall. intros st [Hin He]%Hallow. split; [|done].
      by apply isValidStatement_parts, Hvalid. }
    exists b. split; [done|]. rewrite Hb. split.
    + intros (st & [Hin He]%Hallow & Ha). split; [by exists st|].
      intros d Hd Hde. apply Hn. by apply Hdeny.
    + intros [(st & Hin & He & Ha) _]. exists st. split; [by apply Hallow|done].
Qed.

End Eval.

(** ** Nesting of resources *)

Lemma nested_nesting l : nested l = true → nesting l.
Proof.
  induction l as [|x l IH]; simpl; [done|]. intros [Hx|Hl]%orb_true_iff.
  - apply existsb_exists in Hx as (y & Hy%list_elem_of_In & Hp).
    apply elem_of_Permutation in Hy as [rest Hrest]. exists x, y, rest. by rewrite Hrest.
  - destruct (IH Hl) as (a & b & rest & Hperm & Hp). exists a, b, (x :: rest). split; [|done].
    rewrite Hperm. solve_Permutation.
Qed.

Lemma nesting_nested l : StronglySorted str_le l → nesting l → nested l = true.
Proof.
  induction 1 as [|x l Hs IH Hle]; intros (a & b & rest & Hperm & Hp).
  { by apply Permutation_nil_cons in Hperm. }
  simpl. apply orb_true_iff. rewrite existsb_exists.
  assert (Hx : x ∈ a :: b :: rest) by (rewrite <- Hperm; constructor).
  rewrite !elem_of_cons in Hx. destruct Hx as [->|[->|Hx]].
  - left. exists b. split; [|done]. apply list_elem_of_In. apply Permutation_cons_inv in Hperm.
    rewrite Hperm. constructor.
  - left. exists a. rewrite (Permutation_swap b a) in Hperm. apply Permutation_cons_inv in Hperm.
    assert (Ha : a ∈ l) by (rewrite Hperm; constructor). split; [by apply list_elem_of_In|].
    rewrite Forall_forall in Hle. specialize (Hle a Ha). apply HasPrefix_le in Hp.
    assert (a = b) as -> by (by apply (anti_symm str_le)). apply HasPrefix_refl.
  - right. apply IH. apply elem_of_Permutation in Hx as [rest' Hrest]. exists a, b, rest'.
    split; [|done]. apply (Permutation_cons_inv (a := x)). rewrite Hperm, Hrest. solve_Permutation.
Qed.

(** The nesting check is exact: of the collected resources, with a
    trailing ['*'] removed, the check over the sorted list finds a nesting
    exactly when one of them is a prefix of another one. *)
Theorem nested_sorted_spec `{MapOrder} (resourceMap : StringSet) :
  nested (sort_Strings (resourcePrefix <$> range_order (elements resourceMap))) = true ↔
  nesting (resourcePrefix <$> elements resourceMap).
Proof.
  assert (Hperm : sort_Strings (resourcePrefix <$> range_order (elements resourceMap)) ≡ₚ
                  resourcePrefix <$> elements resourceMap)
    by (rewrite sort_Strings_perm; apply fmap_Permutation, range_order_perm).
  split.
  - intros (a & b & rest & Hp & Hpre)%nested_nesting. exists a, b, rest. by rewrite <- Hperm.
  - intros (a & b & rest & Hp & Hpre). apply nesting_nested; [apply sort_Strings_sorted|].
    exists a, b, rest. by rewrite Hperm.
Qed.

(** A StringNotEquals condition is evaluated as StringEquals: a statement
    with this condition applies exactly to the requests whose prefix and
    max-keys are equal to the values of the condition. *)
Theorem stringNotEquals_admits_equal `{MapOrder} conditions kv actions effect principal resources sid :
  bucketPolicyConditionMatch conditions
    (PolicyStatement actions {["StringNotEquals" := kv]} effect principal resources sid) = true ↔
  default ∅ (kv !! "s3:prefix") = default ∅ (conditions !! "prefix") ∧
  default ∅ (kv !! "s3:max-keys") = default ∅ (conditions !! "max-keys").
Proof.
  unfold bucketPolicyConditionMatch. simpl Conditions. rewrite map_to_list_singleton.
  rewrite (proj1 (Permutation_singleton_r _ _) (range_order_perm [("StringNotEquals", kv)])).
  simpl. rewrite andb_true_r.
  destruct (decide (default ∅ (kv !! "s3:prefix") = default ∅ (conditions !! "prefix"))) as [E1|E1],
    (decide (default ∅ (kv !! "s3:max-keys") = default ∅ (conditions !! "max-keys"))) as [E2|E2];
    rewrite ?(bool_decide_true _ E1), ?(bool_decide_false _ E1), ?(bool_decide_true _ E2),
      ?(bool_decide_false _ E2); simpl; split; try done; intros [? ?]; done.
Qed.

(** ** Witnesses *)

Definition demo_statement (effect action resource : string) : policyStatement :=
  PolicyStatement {[action]} ∅ effect (IString "*") {[resource]} "".

Definition demo_policy : bucketPolicy :=
  BucketPolicy "2012-10-17"
    [demo_statement "Allow" "s3:*" "arn:aws:s3:::b/*";
     demo_statement "Deny" "s3:GetObject" "arn:aws:s3:::b/secret*"].

Definition demo_parsed : bucketPolicy :=
  match parseBucketPolicy (H := map_order_id) (inl demo_policy) with inl p => p | inr _ => demo_policy end.

Lemma policy_deny_overrides_witness :
  ∃ b, bucketPolicyEvalStatements (H := map_order_id) "s3:GetObject" "arn:aws:s3:::b/secret1" ∅
         (Statements demo_parsed) = Ret b ∧
    (b = true ↔
       (∃ st, st ∈ Statements demo_policy ∧ Effect st = "Allow" ∧
          applies "s3:GetObject" "arn:aws:s3:::b/secret1" ∅ st) ∧
       (∀ st, st ∈ Statements demo_policy → Effect st = "Deny" →
          ¬ applies "s3:GetObject" "arn:aws:s3:::b/secret1" ∅ st)).
Proof.
  apply (policy_deny_overrides (H := map_order_id) demo_policy demo_parsed). vm_compute. reflexivity.
Defined.
