(* ===== verification/ObjectNames.v ===== *)
(** * Names, paths and arguments of object operations

    Validity of bucket and object names, path joining, the argument checks of
    the object layer and the size-limited reader
    (src/cmd/object-api-utils.go, src/cmd/object-api-input-checks.go). *)

From S2P Require Import Prelude.
From S2P Require Import GoErrors.
From S2P Require Import GoStrings.
From S2P Require Import Wildcard.

(** ** src/cmd/object-api-utils.go *)

Definition minioMetaBucket : string := ".minio.sys".
Definition mpartMetaPrefix : string := "multipart".
Definition minioMetaMultipartBucket : string := minioMetaBucket +:+ "/" +:+ mpartMetaPrefix.
Definition minioMetaTmpBucket : string := minioMetaBucket +:+ "/tmp".
Definition slashSeparator : string := "/".

(** [^[a-z0-9][a-z0-9\.\-]{1,61}[a-z0-9]$]. *)
Definition is_alnum (b : byte) : bool := is_lower b || is_digit b.
Definition is_bucket_char (b : byte) : bool :=
  is_alnum b || (byte_val b =? 46)%Z || (byte_val b =? 45)%Z.

Definition validBucket (b : bytes) : bool :=
  match b, last b with
  | first :: _, Some final =>
      (3 <=? length b)%nat && (length b <=? 63)%nat && is_alnum first && is_alnum final &&
      forallb is_bucket_char b
  | _, _ => false
  end.

(** [^(\d+\.){3}\d+$]. *)
Definition isIPAddress (s : string) : bool :=
  let parts := Split s "." in
  (length parts =? 4)%nat && forallb (λ p, all_digits (bytes_of_string p)) parts.

Definition isMinioMetaBucketName (bucket : string) : bool :=
  bool_decide (bucket = minioMetaBucket) || bool_decide (bucket = minioMetaMultipartBucket) ||
  bool_decide (bucket = minioMetaTmpBucket).

Definition IsValidBucketName (bucket : string) : bool :=
  let b := bytes_of_string bucket in
  if isMinioMetaBucketName bucket then true
  else if (length b <? 3)%nat || (63 <? length b)%nat then false
  else if bool_decide (head b = Some "."%char) || bool_decide (last b = Some "."%char) then false
  else validBucket b && negb (isIPAddress bucket) && negb (Contains bucket "..").

(** [utf8.ValidString]: no byte decodes to an error. *)
Fixpoint valid_utf8 (fuel : nat) (b : bytes) : bool :=
  match fuel, b with
  | S fuel', b0 :: rest =>
      let '(_, rest') := decode_rune b0 rest in
      (* a one-byte sequence is valid only if it is ASCII *)
      if (length rest' =? length rest)%nat && negb (byte_val b0 <? 128)%Z then false
      else valid_utf8 fuel' rest'
  | _, _ => true
  end.

Definition IsValidObjectPrefix (object : string) : bool :=
  let b := bytes_of_string object in
  if (1024 <? length b)%nat then false
  else if negb (valid_utf8 (length b) b) then false
  else if existsb (λ c, (byte_val c =? 92)%Z) b then false
  else true.

Definition IsValidObjectName (object : string) : bool :=
  if bool_decide (object = "") then false
  else if HasSuffix object slashSeparator then false
  else if HasPrefix object slashSeparator then false
  else IsValidObjectPrefix object.

Definition retainSlash (s : string) : string := TrimSuffix s slashSeparator +:+ slashSeparator.

Definition pathJoin (elem : list string) : string :=
  let trailingSlash :=
    match last elem with
    | Some e => if HasSuffix e slashSeparator then "/" else ""
    | None => ""
    end in
  path_Join elem +:+ trailingSlash.

(** ** rangeReader *)

Record rangeReader := RangeReader { rr_Min : Z; rr_Max : Z }.

(** [Read], given the result [(n, err)] of the underlying reader. *)
Definition rangeReader_Read (l : rangeReader) (r : Z * option error)
    : rangeReader * (Z * option error) :=
  let '(n, err) := r in
  let l' := RangeReader (rr_Min l - n) (rr_Max l - n) in
  if (rr_Max l' <? 0)%Z then (l', (0%Z, Some (errDataTooLarge : error)))
  else if err_eqb err (Some (io_EOF : error)) && (0 <? rr_Min l')%Z
  then (l', (0%Z, Some (errDataTooSmall : error)))
  else (l', (n, err)).

(** Reading until an error: the bytes delivered and the error that ends the
    reads. *)
Fixpoint rangeReader_drain (l : rangeReader) (reads : list (Z * option error)) (got : Z)
    : Z * option error :=
  match reads with
  | [] => (got, None)
  | r :: reads' =>
      let '(l', (n, err)) := rangeReader_Read l r in
      match err with
      | Some e => ((got + n)%Z, Some e)
      | None => rangeReader_drain l' reads' (got + n)
      end
  end.

(** ** src/cmd/object-api-input-checks.go *)

Section Checks.
(** [obj.GetBucketInfo(bucket)]'s error. *)
Context (GetBucketInfo : string → option error).
(** [uuid.Parse]: the error, or whether the id is zero. *)
Context (uuid_Parse : string → bool + error).

Definition checkBucketExist (bucket : string) : option error :=
  if negb (IsValidBucketName bucket) then Some (BucketNameInvalid bucket "" : error)
  else match GetBucketInfo bucket with
       | Some _ => Some (BucketNotFound bucket "" : error)
       | None => None
       end.

Definition checkBucketAndObjectNames (bucket object : string) : option error :=
  if negb (IsValidBucketName bucket)
  then traceError (Some (BucketNameInvalid bucket "" : error)) []
  else if negb (IsValidObjectName object)
  then traceError (Some (ObjectNameInvalid bucket object : error)) []
  else None.

Definition checkGetObjArgs (bucket object : string) := checkBucketAndObjectNames bucket object.
Definition checkDelObjArgs (bucket object : string) := checkBucketAndObjectNames bucket object.

Definition checkListObjsArgs (bucket prefix marker delimiter : string) : option error :=
  match checkBucketExist bucket with
  | Some err => traceError (Some err) []
  | None =>
      if negb (IsValidObjectPrefix prefix)
      then traceError (Some (ObjectNameInvalid bucket prefix : error)) []
      else if negb (bool_decide (delimiter = "")) && negb (bool_decide (delimiter = slashSeparator))
      then traceError (Some (UnsupportedDelimiter delimiter : error)) []
      else if negb (bool_decide (marker = "")) && negb (HasPrefix marker prefix)
      then traceError (Some (InvalidMarkerPrefixCombination marker prefix : error)) []
      else None
  end.

Definition checkListMultipartArgs (bucket prefix keyMarker uploadIDMarker delimiter : string)
    : option error :=
  match checkListObjsArgs bucket prefix keyMarker delimiter with
  | Some err => Some err
  | None =>
      if negb (bool_decide (uploadIDMarker = "")) then
        if HasSuffix keyMarker slashSeparator
        then traceError (Some (InvalidUploadIDKeyCombination uploadIDMarker keyMarker : error)) []
        else
          match uuid_Parse uploadIDMarker with
          | inr err => traceError (Some err) []
          | inl isZero =>
              if (isZero : bool)
              then traceError (Some (MalformedUploadID uploadIDMarker : error)) [] else None
          end
      else None
  end.

Definition checkPutObjectArgs (bucket object : string) : option error :=
  match checkBucketExist bucket with
  | Some err => traceError (Some err) []
  | None =>
      if negb (IsValidObjectName object)
      then traceError (Some (ObjectNameInvalid bucket object : error)) [] else None
  end.

Definition checkNewMultipartArgs (bucket object : string) := checkPutObjectArgs bucket object.
Definition checkPutObjectPartArgs (bucket object : string) := checkPutObjectArgs bucket object.
Definition checkListPartsArgs (bucket object : string) := checkPutObjectArgs bucket object.
Definition checkCompleteMultipartArgs (bucket object : string) := checkPutObjectArgs bucket object.
Definition checkAbortMultipartArgs (bucket object : string) := checkPutObjectArgs bucket object.

End Checks.

(** ** Path elements *)

(** A path element that [path.Clean] keeps. *)
Definition plain_elem (e : string) : Prop :=
  e ≠ "" ∧ e ≠ "." ∧ e ≠ ".." ∧ "/"%char ∉ bytes_of_string e.

(** Splitting a joined path gives its elements back. *)
Lemma split_join (es : list string) fuel :
  es ≠ [] → Forall (λ e, "/"%char ∉ bytes_of_string e) es →
  length (bytes_of_string (Join es "/")) ≤ fuel →
  split_bytes fuel (bytes_of_string (Join es "/")) ["/"%char] 0 = bytes_of_string <$> es.
Proof.
  revert fuel. induction es as [|e es IH]; intros fuel Hne Hall Hf; [done|].
  apply Forall_cons in Hall as [He Hall]. destruct es as [|e2 es].
  - simpl Join in *. destruct fuel as [|fuel]; simpl; [done|]. by rewrite (index_char_absent "/"%char).
  - change (Join (e :: e2 :: es) "/") with (e +:+ "/" +:+ Join (e2 :: es) "/") in *.
    rewrite !bytes_of_string_app in *.
    change (bytes_of_string "/" ++ ?b) with ("/"%char :: b) in *.
    rewrite length_app, length_cons in Hf. destruct fuel as [|fuel]; [lia|].
    cbn [split_bytes]. rewrite (index_char_found "/"%char) by done.
    rewrite Nat.add_0_r, take_app_length.
    change (length ["/"%char]) with 1. rewrite fmap_cons. f_equal.
    rewrite (drop_app_ge _ _ (length (bytes_of_string e) + 1)) by lia.
    replace (length (bytes_of_string e) + 1 - length (bytes_of_string e)) with 1 by lia.
    simpl drop. apply IH; [done|done|]. lia.
Qed.

Lemma Split_Join es :
  es ≠ [] → Forall (λ e, "/"%char ∉ bytes_of_string e) es → Split (Join es "/") "/" = es.
Proof.
  intros Hne Hall. unfold Split. rewrite split_join by done.
  rewrite <- list_fmap_compose. rewrite <- (list_fmap_id es) at 2. apply list_fmap_ext.
  intros i e _. simpl. apply string_bytes_string.
Qed.

Lemma clean_plain rooted stack es :
  Forall plain_elem es → clean_elems rooted stack es = rev stack ++ es.
Proof.
  revert stack. induction es as [|e es IH]; intros stack Hall; simpl; [by rewrite app_nil_r|].
  apply Forall_cons in Hall as [(H1 & H2 & H3 & _) Hall].
  rewrite !bool_decide_false by done. simpl. rewrite IH by done. simpl. by rewrite <- app_assoc.
Qed.


Lemma Join_cons e es : ∃ rest, Join (e :: es) "/" = e +:+ rest.
Proof.
  destruct es as [|e2 es]; [exists ""; symmetry; apply str_app_nil_r|].
  by exists ("/" +:+ Join (e2 :: es) "/").
Qed.

Lemma plain_no_slash e rest : plain_elem e → HasPrefix (e +:+ rest) "/" = false.
Proof.
  intros (He & _ & _ & Hs). apply bool_decide_false.
  change (bytes_of_string "/") with ["/"%char]. rewrite char_prefix_of, bytes_of_string_app.
  destruct e as [|c e]; [done|]. simpl. intros [= ->]. apply Hs. left.
Qed.

Lemma Join_last es e : ∃ front, Join (es ++ [e]) "/" = front +:+ e.
Proof.
  induction es as [|d es [front IH]]; [by exists ""|].
  exists (d +:+ "/" +:+ front). simpl app.
  assert (Join (d :: es ++ [e]) "/" = d +:+ "/" +:+ Join (es ++ [e]) "/") as ->
    by (by destruct es).
  rewrite IH. by rewrite !str_app_assoc.
Qed.

Lemma Join_no_trailing es : Forall plain_elem es → HasSuffix (Join es "/") "/" = false.
Proof.
  destruct es as [|e es _] using rev_ind; intros Hall; [done|].
  apply Forall_app in Hall as [_ He]. apply Forall_cons in He as [He _].
  destruct (Join_last es e) as [front ->]. destruct He as (He & _ & _ & Hs).
  apply bool_decide_false. intros [k Hk]. rewrite bytes_of_string_app in Hk.
  change (bytes_of_string "/") with ["/"%char] in Hk.
  destruct (bytes_of_string e) as [|c b _] eqn:E using rev_ind.
  { apply He. by apply bytes_of_string_inj. }
  rewrite app_assoc in Hk. apply app_inj_2 in Hk as [_ [= ->]]; [|done].
  apply Hs. apply elem_of_app. right. by apply list_elem_of_singleton.
Qed.

Lemma path_Clean_plain es :
  es ≠ [] → Forall plain_elem es → path_Clean (Join es "/") = Join es "/".
Proof.
  intros Hne Hall.
  assert (Hsl : Forall (λ e, "/"%char ∉ bytes_of_string e) es)
    by (eapply Forall_impl; [exact Hall|]; intros e He; apply He).
  destruct es as [|e es]; [done|]. unfold path_Clean.
  rewrite Split_Join, clean_plain by done. destruct (Join_cons e es) as [rest E]. simpl rev.
  rewrite app_nil_l, E. apply Forall_cons in Hall as [He _]. rewrite plain_no_slash by done.
  change ("" +:+ ?x) with x. rewrite bool_decide_false; [done|]. intros [-> _]%str_app_empty. by destruct He.
Qed.

(** Empty elements are dropped. *)
Lemma clean_empty rooted stack es :
  Forall (λ e, e = "" ∨ plain_elem e) es →
  clean_elems rooted stack es = rev stack ++ filter (λ e, e ≠ "") es.
Proof.
  revert stack. induction es as [|e es IH]; intros stack Hall; simpl; [by rewrite app_nil_r|].
  apply Forall_cons in Hall as [He Hall]. destruct (decide (e = "")) as [->|Hne].
  - rewrite bool_decide_true by done. simpl. rewrite IH by done. rewrite filter_cons, decide_False; [done|].
    by intros [].
  - destruct He as [?|(_ & H2 & H3 & _)]; [done|]. rewrite !bool_decide_false by done. simpl.
    rewrite IH by done. rewrite filter_cons, decide_True by done. simpl. by rewrite <- app_assoc.
Qed.

Lemma path_Clean_empty e p :
  plain_elem e → Forall (λ e, e = "" ∨ plain_elem e) (Split p "/") →
  HasPrefix p e = true →
  path_Clean p = Join (filter (λ e, e ≠ "") (Split p "/")) "/".
Proof.
  intros He Hall [r Hp]%HasPrefix_iff. subst p. unfold path_Clean. rewrite plain_no_slash by done.
  rewrite clean_empty by done. change ("" +:+ ?x) with x. simpl rev. rewrite app_nil_l.
  set (es := filter _ _). rewrite bool_decide_false; [done|].
  assert (Hf : Forall plain_elem es).
  { apply Forall_forall. intros x [Hx Hin]%list_elem_of_filter. rewrite Forall_forall in Hall.
    by destruct (Hall x Hin). }
  assert (Hne : es ≠ []).
  { assert (∃ x, x ∈ es) as [x Hx]; [|intros E; rewrite E in Hx; by apply not_elem_of_nil in Hx].
    destruct (first_elem r) as [[Hr _]|(n & r' & -> & Hn & _)].
    - exists (e +:+ r). apply list_elem_of_filter. split; [by destruct He, e|].
      rewrite Split_plain; [by apply list_elem_of_singleton|]. rewrite bytes_of_string_app, elem_of_app.
      intros [?|?]; [by apply He|done].
    - exists (e +:+ n). apply list_elem_of_filter. split; [by destruct He, e|].
      rewrite str_app_assoc, Split_slash, Split_plain; [left|]. rewrite bytes_of_string_app, elem_of_app.
      intros [?|?]; [by apply He|done]. }
  destruct es as [|x es]; [done|]. destruct (Join_cons x es) as [rest ->].
  intros [-> _]%str_app_empty. apply Forall_cons in Hf as [Hf _]. by destruct Hf.
Qed.

(** A bucket and an object of plain elements are joined as they are. *)
Lemma pathJoin_plain bucket es :
  es ≠ [] → plain_elem bucket → Forall plain_elem es →
  pathJoin [bucket; Join es "/"] = Join (bucket :: es) "/".
Proof.
  intros Hne Hb Hall. unfold pathJoin, slashSeparator. cbn [last]. rewrite Join_no_trailing by done.
  rewrite str_app_nil_r. unfold path_Join.
  assert (Hj : Join es "/" ≠ "").
  { destruct es as [|e es]; [done|]. destruct (Join_cons e es) as [rest ->].
    intros [-> _]%str_app_empty. apply Forall_cons in Hall as [He _]. by destruct He. }
  rewrite filter_all.
  - assert (Join [bucket; Join es "/"] "/" = Join (bucket :: es) "/") as -> by (by destruct es).
    apply path_Clean_plain; [done|]. by constructor.
  - intros x [->|Hx]%elem_of_cons; [by destruct Hb|].
    by apply list_elem_of_singleton in Hx as ->.
Qed.

(** ** Bucket names *)

Lemma is_bucket_char_slash : is_bucket_char "/"%char = false.
Proof. done. Qed.

Lemma IsValidBucketName_plain bucket :
  IsValidBucketName bucket = true → isMinioMetaBucketName bucket = false → plain_elem bucket.
Proof.
  unfold IsValidBucketName. intros H Hm. rewrite Hm in H.
  destruct (_ || _) eqn:Hlen in H; [done|]. destruct (_ || _) eqn:Hdot in H; [done|].
  apply andb_prop in H as [H _]. apply andb_prop in H as [H _].
  assert (Hc : Forall (λ b, is_bucket_char b = true) (bytes_of_string bucket)).
  { unfold validBucket in H. destruct (bytes_of_string bucket) as [|b0 b]; [done|].
    destruct (last _); [|done]. apply andb_prop in H as [_ H].
    apply Forall_forall. intros x Hx. rewrite forallb_forall in H. apply H.
    by apply list_elem_of_In. }
  split_and!; try (intros ->; done).
  intros Hs. rewrite Forall_forall in Hc. specialize (Hc _ Hs). done.
Qed.

(** ** The size-limited reader *)

(** A reader that returns [ns] and then ends with [final] more bytes. *)
Definition eof_reads (ns : list Z) (final : Z) : list (Z * option error) :=
  ((λ n, (n, None)) <$> ns) ++ [(final, Some (io_EOF : error))].

Definition total (ns : list Z) (final : Z) : Z := foldr Z.add final ns.

Lemma total_nonneg ns final :
  Forall (λ n, 0 ≤ n)%Z ns → (0 ≤ final)%Z → (0 ≤ total ns final)%Z.
Proof. induction 1; simpl; lia. Qed.

Lemma rangeReader_drain_ok ns final lo hi got :
  Forall (λ n, 0 ≤ n)%Z ns → (0 ≤ final)%Z → (lo ≤ hi)%Z → (0 ≤ hi)%Z →
  let t := total ns final in
  let '(n, err) := rangeReader_drain (RangeReader lo hi) (eof_reads ns final) got in
  ((lo ≤ t ≤ hi)%Z → n = (got + t)%Z ∧ err = Some (io_EOF : error)) ∧
  ((hi < t)%Z → (n ≤ got + hi)%Z ∧ err = Some (errDataTooLarge : error)) ∧
  ((t < lo)%Z → n = (got + t - final)%Z ∧ err = Some (errDataTooSmall : error)).
Proof.
  intros Hns Hf. revert lo hi got. induction Hns as [|m ns Hm Hns IH]; intros lo hi got Hlh Hh.
  - cbn. destruct (Z.ltb_spec (hi - final) 0), (Z.ltb_spec 0 (lo - final)); simpl;
      (split_and!; intros; try lia; try (split; [lia|done])).
  - assert (Ht := total_nonneg ns final Hns Hf).
    change (eof_reads (m :: ns) final) with ((m, None) :: eof_reads ns final).
    cbn [rangeReader_drain rangeReader_Read rr_Min rr_Max total foldr].
    destruct (Z.ltb_spec (hi - m) 0).
    + fold (total ns final). split_and!; intros; [lia|split; [lia|done]|lia].
    + simpl. specialize (IH (lo - m)%Z (hi - m)%Z (got + m)%Z ltac:(lia) ltac:(lia)). simpl in IH.
      fold (total ns final).
      destruct (rangeReader_drain _ _ _) as [n err]. destruct IH as (H1 & H2 & H3).
      split_and!; intros.
      * destruct H1; [lia|]. split; [lia|done].
      * destruct H2; [lia|]. split; [lia|done].
      * destruct H3; [lia|]. split; [lia|done].
Qed.

(** ** Properties *)

(** The files of an object stay in its bucket and objects have their own
    paths: for a valid bucket name that is not one of MinIO's own, and an
    object name made of path elements other than empty ones, [.] and [..],
    [pathJoin] gives the path whose elements are the bucket followed by the
    object's, so that splitting the path gives them back. *)
Theorem object_path_confined bucket es :
  IsValidBucketName bucket = true → isMinioMetaBucketName bucket = false →
  es ≠ [] → Forall plain_elem es →
  Split (pathJoin [bucket; Join es "/"]) "/" = bucket :: es.
Proof.
  intros Hv Hm Hne Hes. assert (Hb := IsValidBucketName_plain _ Hv Hm).
  rewrite pathJoin_plain by done. apply Split_Join; [done|].
  eapply Forall_impl; [by constructor; [exact Hb|exact Hes]|]. intros e He. apply He.
Qed.

Lemma object_path_confined_witness :
  IsValidBucketName "my-bucket" = true ∧ isMinioMetaBucketName "my-bucket" = false ∧
  Split (pathJoin ["my-bucket"; Join ["a"; "b.txt"] "/"]) "/" = ["my-bucket"; "a"; "b.txt"].
Proof.
  split; [by vm_compute|]. split; [by vm_compute|].
  apply (object_path_confined "my-bucket" ["a"; "b.txt"]); [by vm_compute|by vm_compute|done|].
  repeat constructor; try done; intros H; repeat (apply elem_of_cons in H as [H|H]; [done|]);
    by apply not_elem_of_nil in H.
Defined.

(** An ASCII byte in front. *)
Lemma valid_utf8_ascii p b : Forall (λ c, byte_val c < 128)%Z p → valid_utf8 (length (p ++ b)) (p ++ b) = valid_utf8 (length b) b.
Proof.
  induction 1 as [|c p Hc _ IH]; [done|]. cbn [app length valid_utf8]. unfold decode_rune.
  rewrite (proj2 (Z.ltb_lt _ _) Hc), andb_false_r. done.
Qed.

Lemma bucket_name_bytes bucket : IsValidBucketName bucket = true → isMinioMetaBucketName bucket = false →
  Forall (λ c, byte_val c < 128 ∧ byte_val c ≠ 92)%Z (bytes_of_string bucket).
Proof.
  unfold IsValidBucketName. intros H Hm. rewrite Hm in H.
  destruct (_ || _) eqn:Hlen in H; [done|]. destruct (_ || _) eqn:Hdot in H; [done|].
  apply andb_prop in H as [H _]. apply andb_prop in H as [H _]. unfold validBucket in H.
  destruct (bytes_of_string bucket) as [|b0 b]; [done|]. destruct (last _); [|done]. apply andb_prop in H as [_ H].
  apply Forall_forall. intros c Hc. rewrite forallb_forall in H. specialize (H c (proj1 (list_elem_of_In _ _) Hc)).
  unfold is_bucket_char, is_alnum, is_lower, is_digit in H. bool_prop. lia.
Qed.

(** C40.  Object names with [..] elements leave their bucket.  For a bucket, an
    object of another bucket made of plain elements, and the name that goes up
    and down to it, of at most 1024 bytes: the name is a valid object name, the
    checks of the arguments accept it, and the path that the storage is given is
    the one of the other bucket's object. *)
Theorem object_name_escapes bucket other es :
  let object := Join es "/" in
  let name := "../" +:+ other +:+ "/" +:+ object in
  IsValidBucketName bucket = true → isMinioMetaBucketName bucket = false →
  IsValidBucketName other = true → isMinioMetaBucketName other = false →
  es ≠ [] → Forall plain_elem es → IsValidObjectName object = true → length (bytes_of_string name) ≤ 1024 →
  IsValidObjectName name = true ∧ checkGetObjArgs bucket name = None ∧ checkDelObjArgs bucket name = None ∧
  pathJoin [bucket; name] = pathJoin [other; object].
Proof.
  intros object name Hb Hbm Ho Hom Hne Hes Hobj Hlen.
  assert (Hbp := IsValidBucketName_plain _ Hb Hbm). assert (Hop := IsValidBucketName_plain _ Ho Hom).
  assert (Hname : name = Join (".." :: other :: es) "/") by (unfold name, object; by destruct es).
  assert (Hsuf : HasSuffix name "/" = false).
  { apply bool_decide_false. intros [k Hk]. assert (Hno := Join_no_trailing es Hes). fold object in Hno.
    apply bool_decide_eq_false in Hno. apply Hno. unfold name in Hk. rewrite !bytes_of_string_app, !app_assoc in Hk.
    destruct (bytes_of_string object) as [|c b _] eqn:E using rev_ind.
    - assert (object = "") as E0 by (by apply bytes_of_string_inj). by rewrite E0 in Hobj.
    - rewrite app_assoc in Hk. change (bytes_of_string "/") with ["/"%char] in Hk |- *. apply app_inj_2 in Hk as [_ [= ->]]; [|done]. by exists b. }
  assert (Hvalid : IsValidObjectName name = true).
  { unfold IsValidObjectName, slashSeparator in *. rewrite Hsuf, bool_decide_false by done.
    destruct (bool_decide (object = "")); [done|]. destruct (HasSuffix object "/"); [done|]. destruct (HasPrefix object "/"); [done|].
    change (HasPrefix name "/") with false. unfold IsValidObjectPrefix in *. rewrite (proj2 (Nat.ltb_ge _ _) Hlen).
    destruct (1024 <? length (bytes_of_string object)); [done|].
    destruct (negb (valid_utf8 (length (bytes_of_string object)) (bytes_of_string object))) eqn:Eu; [done|].
    destruct (existsb _ (bytes_of_string object)) eqn:Ee; [done|].
    assert (Hpre : bytes_of_string name = (bytes_of_string "../" ++ bytes_of_string other ++ bytes_of_string "/") ++ bytes_of_string object).
    { unfold name. rewrite !bytes_of_string_app. by rewrite <- !app_assoc. }
    assert (Hbytes := bucket_name_bytes _ Ho Hom). rewrite Hpre, valid_utf8_ascii, Eu, !existsb_app, Ee.
    - assert (existsb (λ c, (byte_val c =? 92)%Z) (bytes_of_string other) = false) as ->; [|done].
      apply not_true_is_false. rewrite existsb_exists. intros (c & Hc & E).
      rewrite Forall_forall in Hbytes. apply list_elem_of_In, Hbytes in Hc as [_ Hc]. bool_prop. lia.
    - rewrite !Forall_app. split_and!; [by repeat constructor| |by repeat constructor].
      eapply Forall_impl; [exact Hbytes|]. by intros c [? _]. }
  split_and!; [done| | |].
  - unfold checkGetObjArgs, checkBucketAndObjectNames. by rewrite Hb, Hvalid.
  - unfold checkDelObjArgs, checkBucketAndObjectNames. by rewrite Hb, Hvalid.
  - unfold object at 1. rewrite (pathJoin_plain other es) by done. unfold pathJoin, slashSeparator. cbn [last]. rewrite Hsuf, str_app_nil_r.
    unfold path_Join. rewrite filter_all.
    2: { intros x [->|Hx]%elem_of_cons; [by destruct Hbp|]. apply list_elem_of_singleton in Hx as ->. done. }
    assert (Join [bucket; name] "/" = Join (bucket :: ".." :: other :: es) "/") as -> by (by rewrite Hname).
    unfold path_Clean. rewrite Split_Join.
    + destruct (Join_cons bucket (".." :: other :: es)) as [r ->]. rewrite plain_no_slash by done.
      assert (clean_elems false [] (bucket :: ".." :: other :: es) = other :: es) as ->.
      { transitivity (clean_elems false [] (other :: es)); [|apply clean_plain; by constructor]. destruct Hbp as (H1 & H2 & H3 & _).
        cbn [clean_elems]. rewrite !(bool_decide_false (bucket = _)) by done. done. }
      destruct (Join_cons other es) as [r' ->]. change ("" +:+ ?x) with x. rewrite bool_decide_false; [done|].
      intros [-> _]%str_app_empty. by destruct Hop.
    + done.
    + constructor; [apply Hbp|]. constructor; [by apply (bool_decide_unpack _); vm_compute|]. constructor; [apply Hop|].
      eapply Forall_impl; [exact Hes|]. intros e He. apply He.
Qed.

Lemma object_name_escapes_witness :
  checkGetObjArgs "my-bucket" "../other/a/b.txt" = None ∧ pathJoin ["my-bucket"; "../other/a/b.txt"] = "other/a/b.txt".
Proof.
  destruct (object_name_escapes "my-bucket" "other" ["a"; "b.txt"]) as (_ & H1 & _ & H2).
  1-5: by vm_compute.
  - apply (bool_decide_unpack _). by vm_compute.
  - by vm_compute.
  - apply Nat.leb_le. by vm_compute.
  - split; [exact H1|]. etransitivity; [exact H2|]. by vm_compute.
Defined.

(** A size-limited reader between [Min] and [Max] bytes, over a reader
    that delivers the chunks [ns] and then [final] bytes with [io.EOF]: if the
    total is in bounds every byte is delivered and the end is reported; if it
    is above [Max] the reads fail with errDataTooLarge and no more than [Max]
    bytes are delivered; if it is below [Min] they fail with errDataTooSmall. *)
Theorem rangeReader_bounds ns final lo hi :
  Forall (λ n, 0 ≤ n)%Z ns → (0 ≤ final)%Z → (lo ≤ hi)%Z → (0 ≤ hi)%Z →
  let t := total ns final in
  let '(n, err) := rangeReader_drain (RangeReader lo hi) (eof_reads ns final) 0 in
  ((lo ≤ t ≤ hi)%Z → n = t ∧ err = Some (io_EOF : error)) ∧
  ((hi < t)%Z → (n ≤ hi)%Z ∧ err = Some (errDataTooLarge : error)) ∧
  ((t < lo)%Z → n = (t - final)%Z ∧ err = Some (errDataTooSmall : error)).
Proof. intros. by apply (rangeReader_drain_ok ns final lo hi 0). Qed.

Lemma rangeReader_bounds_witness :
  rangeReader_drain (RangeReader 5 10) (eof_reads [3; 4]%Z 0) 0 = (7%Z, Some (io_EOF : error)) ∧
  (7%Z = total [3; 4]%Z 0 ∧ Some (io_EOF : error) = Some (io_EOF : error)).
Proof.
  split; [done|].
  assert (H := rangeReader_bounds [3; 4]%Z 0 5 10 ltac:(repeat constructor; lia) ltac:(lia)
                 ltac:(lia) ltac:(lia)).
  apply H. simpl. lia.
Defined.
