(* ===== verification/DiskContract.v ===== *)
(** * The contract of a disk

    What the object layer relies on when it stages, commits and deletes whole
    objects: the documented behaviour of the calls of [StorageAPI]
    (src/cmd/storage-interface.go) on a disk that is up, and on a disk that is
    down.  [MemDisk] satisfies it. *)

From S2P Require Import Prelude.
From S2P Require Import GoErrors.
From S2P Require Import GoStrings.
From S2P Require Import Quorum.
From S2P Require Import Storage.
From S2P Require Import ObjectNames.

(** A path whose elements [path.Clean] keeps. *)
Definition clean_path (p : string) : Prop := Forall plain_elem (Split p "/").

(** The volume exists. *)
Class Volumes (D : Type) := has_vol : D → string → Prop.

Section Views.
Context {D : Type} `{!StorageAPI D} `{!StorageContract D} `{!Volumes D}.

(** The volumes and the files of [P] are as before. *)
Record keeps (P : string → string → Prop) (d d' : D) : Prop := {
  keep_vols : ∀ v, has_vol d v → has_vol d' v;
  keep_files : ∀ v p, P v p → file_at d' v p = file_at d v p;
}.

Definition same_disk : D → D → Prop := keeps (λ _ _, True).

(** Every file but one is as before. *)
Definition but_file (v p : string) : D → D → Prop := keeps (λ v' p', (v', p') ≠ (v, p)).

(** The directory [s] holds a file. *)
Definition in_dir (d : D) (v s : string) : Prop := ∃ r, is_Some (file_at d v (s +:+ "/" +:+ r)).

(** The volume [v] holds a file. *)
Definition vol_used (d : D) (v : string) : Prop := ∃ p, is_Some (file_at d v p).

(** Every volume but one is as before, and every file. *)
Record but_vol (v : string) (d d' : D) : Prop := {
  but_vols : ∀ v', v' ≠ v → has_vol d' v' ↔ has_vol d v';
  but_vol_files : ∀ v' p, file_at d' v' p = file_at d v' p;
}.

(** No file of the volume is [p], above [p] or below [p]. *)
Record free_name (d : D) (v p : string) : Prop := {
  free_above : ∀ a r, p = a +:+ "/" +:+ r → file_at d v a = None;
  free_below : ¬ in_dir d v p;
}.

(** What a listing of the directory [s] shows: files, and directories with a
    slash. *)
Record dir_entries (d : D) (v s : string) (entries : list string) : Prop := {
  entry_nodup : NoDup entries;
  entry_plain : ∀ x, x ∈ entries → ∃ name, plain_elem name ∧
    ((x = name ∧ is_Some (file_at d v (s +:+ "/" +:+ name))) ∨
     (x = name +:+ "/" ∧ in_dir d v (s +:+ "/" +:+ name)));
  entry_complete : ∀ r, is_Some (file_at d v (s +:+ "/" +:+ r)) →
    r ∈ entries ∨ ∃ name r', r = name +:+ "/" +:+ r' ∧ name +:+ "/" ∈ entries;
}.

(** What a listing of the volume shows. *)
Record vol_entries (d : D) (v : string) (entries : list string) : Prop := {
  vol_nodup : NoDup entries;
  vol_plain : ∀ x, x ∈ entries → ∃ name, plain_elem name ∧
    ((x = name ∧ is_Some (file_at d v name)) ∨ (x = name +:+ "/" ∧ in_dir d v name));
  vol_complete : ∀ r, is_Some (file_at d v r) →
    r ∈ entries ∨ ∃ name r', r = name +:+ "/" +:+ r' ∧ name +:+ "/" ∈ entries;
}.

(** The files of [dst] are those that [src] had, [src] is empty and every other
    file is as before. *)
Record dir_moved (d d' : D) (sv src dv dst : string) : Prop := {
  moved_vols : ∀ v, has_vol d v → has_vol d' v;
  moved_dst : ∀ r, file_at d' dv (dst +:+ "/" +:+ r) = file_at d sv (src +:+ "/" +:+ r);
  moved_src : ¬ in_dir d' sv src;
  moved_other : ∀ v p, ¬ (v = dv ∧ HasPrefix p (dst +:+ "/") = true) →
    ¬ (v = sv ∧ HasPrefix p (src +:+ "/") = true) → file_at d' v p = file_at d v p;
}.

End Views.

(** ** Clean paths *)

Lemma clean_path_app s r : clean_path (s +:+ "/" +:+ r) ↔ clean_path s ∧ clean_path r.
Proof. unfold clean_path. by rewrite Split_slash, Forall_app. Qed.

Lemma clean_path_plain e : plain_elem e → clean_path e.
Proof.
  intros He. assert (Hs : "/"%char ∉ bytes_of_string e) by apply He.
  unfold clean_path. rewrite Split_plain by done. by constructor.
Qed.

Lemma clean_path_elem e : ("/"%char ∉ bytes_of_string e) → clean_path e → plain_elem e.
Proof. intros Hs. unfold clean_path. rewrite Split_plain by done. by intros [He _]%Forall_cons. Qed.

Lemma clean_path_first s : clean_path s → ∃ e, plain_elem e ∧ HasPrefix s e = true.
Proof.
  intros Hc. destruct (first_elem s) as [[Hs _]|(name & r & -> & Hn & _)].
  - exists s. split; [by apply clean_path_elem|]. apply HasPrefix_refl.
  - apply clean_path_app in Hc as [Hc _]. exists name. split; [by apply clean_path_elem|]. apply HasPrefix_app.
Qed.

Lemma clean_path_ne s : clean_path s → s ≠ "".
Proof. intros (e & He & [r ->]%HasPrefix_iff)%clean_path_first. by destruct He, e. Qed.

Lemma clean_no_slash s : clean_path s → HasSuffix s "/" = false.
Proof. intros Hc. rewrite <- (Join_Split s). by apply Join_no_trailing. Qed.

Lemma retainSlash_clean s : clean_path s → retainSlash s = s +:+ "/".
Proof.
  intros Hc. unfold retainSlash, TrimSuffix, slashSeparator. by rewrite clean_no_slash.
Qed.

(** Cleaning drops the empty elements of a path that starts as a clean one. *)
Lemma path_Clean_filter s r :
  clean_path s → Forall (λ e, e = "" ∨ plain_elem e) (Split r "/") →
  path_Clean (s +:+ "/" +:+ r) = Join (filter (λ e, e ≠ "") (Split s "/" ++ Split r "/")) "/".
Proof.
  intros Hs Hr. destruct (clean_path_first s Hs) as (e & He & [q Hq]%HasPrefix_iff).
  rewrite (path_Clean_empty e), Split_slash; [done|done| |].
  - rewrite Split_slash. apply Forall_app. split; [|done]. eapply Forall_impl; [exact Hs|]. auto.
  - apply HasPrefix_iff. exists (q +:+ "/" +:+ r). rewrite Hq. by rewrite !str_app_assoc.
Qed.

Lemma filter_clean s : clean_path s → filter (λ e, e ≠ "") (Split s "/") = Split s "/".
Proof. intros Hs. apply filter_all. intros e He. unfold clean_path in Hs. rewrite Forall_forall in Hs. by apply Hs. Qed.

Lemma path_Join_clean s t : clean_path s → clean_path t → path_Join [s; t] = s +:+ "/" +:+ t.
Proof.
  intros Hs Ht. unfold path_Join. rewrite filter_all.
  2: { intros x. rewrite elem_of_cons, list_elem_of_singleton. intros [->| ->]; by apply clean_path_ne. }
  change (Join [s; t] "/") with (s +:+ "/" +:+ t). rewrite path_Clean_filter; [|done|].
  - rewrite filter_app, !filter_clean by done. rewrite Join_app by apply Split_ne. by rewrite !Join_Split.
  - eapply Forall_impl; [exact Ht|]. auto.
Qed.

Lemma pathJoin_clean s t : clean_path s → clean_path t → pathJoin [s; t] = s +:+ "/" +:+ t.
Proof.
  intros Hs Ht. unfold pathJoin, slashSeparator. cbn [last]. rewrite clean_no_slash by done.
  rewrite str_app_nil_r. by apply path_Join_clean.
Qed.

Lemma Split_empty : Split "" "/" = [""].
Proof. done. Qed.

(** Entries of a directory. *)
Lemma pathJoin_entry s name :
  clean_path s → plain_elem name →
  pathJoin [s +:+ "/"; name] = s +:+ "/" +:+ name ∧
  pathJoin [s +:+ "/"; name +:+ "/"] = s +:+ "/" +:+ name +:+ "/".
Proof.
  intros Hs Hn. assert (Hns : "/"%char ∉ bytes_of_string name) by apply Hn.
  assert (Hn0 : name ≠ "") by apply Hn.
  assert (Hj : ∀ x, x ≠ "" → path_Join [s +:+ "/"; x] = path_Clean (s +:+ "/" +:+ "" +:+ "/" +:+ x)).
  { intros x Hx. unfold path_Join. rewrite filter_all.
    - change (Join [s +:+ "/"; x] "/") with ((s +:+ "/") +:+ "/" +:+ x). by rewrite <- str_app_assoc.
    - intros y. rewrite elem_of_cons, list_elem_of_singleton. intros [->| ->]; [|done].
      intros [E _]%str_app_empty. by apply clean_path_ne in Hs. }
  assert (Hres : ∀ x, x ≠ "" → Forall (λ e, e = "" ∨ plain_elem e) (Split x "/") →
            filter (λ e, e ≠ "") (Split x "/") = [name] →
            path_Join [s +:+ "/"; x] = s +:+ "/" +:+ name).
  { intros x Hx Hall Hf. rewrite Hj by done. rewrite path_Clean_filter; [|done|].
    - rewrite Split_slash, Split_empty, !filter_app, filter_clean by done. rewrite Hf.
      change (filter (λ e : string, e ≠ "") [""] ++ [name]) with [name].
      rewrite Join_app by (done || apply Split_ne). by rewrite Join_Split.
    - rewrite Split_slash. apply Forall_app. split; [by repeat constructor; left|done]. }
  unfold pathJoin, slashSeparator. cbn [last]. split.
  - rewrite clean_no_slash by (by apply clean_path_plain). rewrite str_app_nil_r.
    apply Hres; [done| |].
    + rewrite Split_plain by done. constructor; [by right|constructor].
    + rewrite Split_plain by done. by rewrite filter_cons, decide_True.
  - rewrite HasSuffix_app. rewrite (Hres (name +:+ "/")); [by rewrite <- !str_app_assoc|by destruct name| |].
    + change (name +:+ "/") with (name +:+ "/" +:+ ""). rewrite Split_slash, Split_plain, Split_empty by done.
      simpl. constructor; [by right|]. constructor; [by left|constructor].
    + change (name +:+ "/") with (name +:+ "/" +:+ ""). rewrite Split_slash, Split_plain, Split_empty by done.
      simpl. rewrite filter_cons, decide_True by done. done.
Qed.

Lemma pathJoin_single s : clean_path s → pathJoin [s] = s.
Proof.
  intros Hs. unfold pathJoin, slashSeparator. cbn [last]. rewrite clean_no_slash by done.
  rewrite str_app_nil_r. unfold path_Join. rewrite filter_all.
  - change (Join [s] "/") with s. rewrite <- (Join_Split s) at 1 2. apply path_Clean_plain; [apply Split_ne|done].
  - intros x. rewrite list_elem_of_singleton. intros ->. by apply clean_path_ne.
Qed.

(** The error of a disk that is down. *)
Definition disk_err (e : option error) : Prop := e ∈ baseErrs.

(** A disk that is up, or down.  The contract is an idealisation of posix.go, and
    [MemDisk] satisfies it: names are as long as they need to be (posix.go refuses
    a path element of more than 255 bytes), and a call for a file or directory
    that is not there leaves nothing behind (a rename of a missing source in
    posix.go first makes the directories above the destination, see
    [rename_missing_leaves_dirs] in PosixFaults).  PosixRun shows that posix.go
    behaves like [MemDisk] where neither happens. *)
Class DiskContract (D : Type) `{!StorageAPI D} `{!StorageContract D} `{!Volumes D} := {
  (** The disk is mounted and healthy, and keeps no empty directories. *)
  up : D → Prop;
  (** The disk fails its calls. *)
  down : D → Prop;

  up_serves : ∀ d v p, up d → has_vol d v → serves d v p;
  up_accepts : ∀ d v p, up d → has_vol d v → free_name d v p → accepts d v p;

  up_AppendFile : ∀ d v p b d', up d → clean_path p → AppendFile d v p b = (d', None) →
    up d' ∧ but_file v p d d';
  up_PrepareFile : ∀ d v p n d' e, up d → clean_path p → free_name d v p →
    PrepareFile d v p n = (d', e) →
    up d' ∧ but_file v p d d' ∧
    default [] (file_at d' v p) = default [] (file_at d v p);

  up_MakeVol : ∀ d v, up d → IsValidBucketName v = true →
    ∃ d' e, MakeVol d v = (d', e) ∧ up d' ∧ but_vol v d d' ∧ has_vol d' v ∧
      ((¬ has_vol d v ∧ e = None) ∨ (has_vol d v ∧ e = Some (errVolumeExists : error)));
  up_DeleteVol : ∀ d v, up d →
    ∃ d' e, DeleteVol d v = (d', e) ∧ up d' ∧ but_vol v d d' ∧
      ((has_vol d v ∧ ¬ vol_used d v ∧ ¬ has_vol d' v ∧ e = None) ∨
       (¬ has_vol d v ∧ ¬ has_vol d' v ∧ e = Some (errVolumeNotFound : error)) ∨
       (has_vol d v ∧ vol_used d v ∧ has_vol d' v ∧ e = Some (errVolumeNotEmpty : error)));

  (** Calls that change no file. *)
  up_StatVol : ∀ d v, up d → has_vol d v →
    ∃ d' i, StatVol d v = (d', (i, None)) ∧ up d' ∧ same_disk d d';
  up_StatVol_none : ∀ d v, up d → ¬ has_vol d v →
    ∃ d' i, StatVol d v = (d', (i, Some (errVolumeNotFound : error))) ∧ up d' ∧ but_vol v d d' ∧ ¬ has_vol d' v;
  up_StatFile : ∀ d v p, up d → has_vol d v →
    ∃ d' i e, StatFile d v p = (d', (i, e)) ∧ up d' ∧ same_disk d d' ∧ (e = None ↔ is_Some (file_at d v p));
  up_ReadAll : ∀ d v p, up d → has_vol d v →
    ∃ d' r, ReadAll d v p = (d', r) ∧ up d' ∧ same_disk d d' ∧
      r = match file_at d v p with
          | Some c => (c, None)
          | None => ([], Some (errFileNotFound : error))
          end;
  up_ReadAll_none : ∀ d v p, up d → ¬ has_vol d v →
    ∃ d' b, ReadAll d v p = (d', (b, Some (errVolumeNotFound : error))) ∧ up d' ∧ same_disk d d';
  up_ListVols : ∀ d, up d →
    ∃ d' vols, ListVols d = (d', (vols, None)) ∧ up d' ∧ same_disk d d';
  up_ListDir : ∀ d v s, up d → has_vol d v →
    ∃ d' entries e, ListDir d v (s +:+ "/") = (d', (entries, e)) ∧ up d' ∧ same_disk d d' ∧
      ((e = Some (errFileNotFound : error) ∧ ¬ in_dir d v s) ∨
       (e = None ∧ dir_entries d v s entries));

  up_ListDir_root : ∀ d v, up d → has_vol d v →
    ∃ d' entries, ListDir d v "" = (d', (entries, None)) ∧ up d' ∧ same_disk d d' ∧ vol_entries d v entries;

  (** The commit of an object: a directory moves to a new name. *)
  up_RenameFile : ∀ d sv src dv dst, up d → has_vol d sv → has_vol d dv → sv ≠ dv →
    clean_path src → clean_path dst → in_dir d sv src → free_name d dv dst → file_at d dv dst = None →
    ∃ d', RenameFile d sv (src +:+ "/") dv (dst +:+ "/") = (d', None) ∧ up d' ∧ dir_moved d d' sv src dv dst;
  (** There is nothing to move. *)
  up_RenameFile_none : ∀ d sv src dv dst, up d → has_vol d sv → has_vol d dv → sv ≠ dv →
    clean_path src → clean_path dst → ¬ in_dir d sv src → free_name d dv dst → file_at d dv dst = None →
    ∃ d' e, RenameFile d sv (src +:+ "/") dv (dst +:+ "/") = (d', e) ∧ up d' ∧ same_disk d d' ∧
      (e = None ∨ e = Some (errFileNotFound : error));

  (** A file moves over another one, or to a new name. *)
  up_RenameFile_over : ∀ d sv src dv dst c, up d → has_vol d sv → has_vol d dv → (sv, src) ≠ (dv, dst) →
    clean_path src → clean_path dst → file_at d sv src = Some c → is_Some (file_at d dv dst) ∨ free_name d dv dst →
    ∃ d', RenameFile d sv src dv dst = (d', None) ∧ up d' ∧
      keeps (λ v p, (v, p) ≠ (sv, src) ∧ (v, p) ≠ (dv, dst)) d d' ∧
      file_at d' dv dst = Some c ∧ file_at d' sv src = None;

  up_DeleteFile : ∀ d v p, up d → has_vol d v → is_Some (file_at d v p) →
    ∃ d', DeleteFile d v p = (d', None) ∧ up d' ∧ but_file v p d d' ∧ file_at d' v p = None;

  (** There is nothing to delete. *)
  up_DeleteFile_none : ∀ d v p, up d → has_vol d v → clean_path p → ¬ in_dir d v p → file_at d v p = None →
    ∃ d' e, DeleteFile d v p = (d', Some e) ∧ up d' ∧ same_disk d d';

  (** The delete of a directory that holds no file. *)
  up_DeleteFile_dir : ∀ d v s, up d → has_vol d v → clean_path s → ¬ in_dir d v s → file_at d v s = None →
    ∃ d' e, DeleteFile d v (s +:+ "/") = (d', e) ∧ up d' ∧ same_disk d d' ∧
      (e = None ∨ e = Some (errFileNotFound : error));
  up_ReadFile : ∀ d v p off buf d' r, up d → ReadFile d v p off buf = (d', r) → up d' ∧ same_disk d d';

  (** A disk that is down. *)
  down_MakeVol : ∀ d v, down d → ∃ d' e, MakeVol d v = (d', Some e) ∧ down d' ∧ disk_err (Some e);
  down_DeleteVol : ∀ d v, down d → ∃ d' e, DeleteVol d v = (d', Some e) ∧ down d' ∧ disk_err (Some e);
  down_StatVol : ∀ d v, down d → ∃ d' i e, StatVol d v = (d', (i, Some e)) ∧ down d' ∧ disk_err (Some e);
  down_StatFile : ∀ d v p, down d → ∃ d' i e, StatFile d v p = (d', (i, Some e)) ∧ down d';
  down_ReadAll : ∀ d v p, down d →
    ∃ d' b e, ReadAll d v p = (d', (b, Some e)) ∧ down d' ∧ disk_err (Some e);
  down_AppendFile : ∀ d v p b, down d → ∃ d' e, AppendFile d v p b = (d', e) ∧ down d';
  down_PrepareFile : ∀ d v p n, down d → ∃ d' e, PrepareFile d v p n = (d', e) ∧ down d';
  down_RenameFile : ∀ d sv sp dv dp, down d → ∃ d' e, RenameFile d sv sp dv dp = (d', e) ∧ down d';
  down_DeleteFile : ∀ d v p, down d → ∃ d' e, DeleteFile d v p = (d', e) ∧ down d';
  down_ListDir : ∀ d v p, down d →
    ∃ d' r e, ListDir d v p = (d', (r, Some e)) ∧ down d' ∧ disk_err (Some e);
}.

(** ** The in-memory disk *)

#[export] Instance MemDisk_volumes : Volumes MemDisk := λ d v, v ∈ mem_vols d.

#[export] Instance MemDisk_has_vol_dec (d : MemDisk) v : Decision (has_vol d v).
Proof. unfold has_vol, MemDisk_volumes. apply _. Defined.

Definition mem_clean (d : MemDisk) : Prop :=
  ∀ v p, is_Some (mem_files d !! (v, p)) → clean_path p.

Lemma mem_check_up d v : mem_offline d = false → v ∈ mem_vols d → mem_check d v = None.
Proof. intros Ho Hv. unfold mem_check. by rewrite Ho, bool_decide_true. Qed.

Lemma mem_under_Some v s key r :
  mem_under v s key = Some r ↔ key = (v, s +:+ r).
Proof.
  unfold mem_under. destruct key as [v' p]. simpl. case_bool_decide as Hv; simpl.
  - destruct (HasPrefix p s) eqn:E; simpl.
    + apply HasPrefix_iff in E as [r' ->]. rewrite TrimPrefix_app. split.
      * by intros [= ->]; subst.
      * intros [= _ Hr]. f_equal. by eapply str_app_inj_l.
    + split; [done|]. intros [= _ ->]. by rewrite HasPrefix_app in E.
  - split; [done|]. by intros [= -> _].
Qed.

Lemma mem_dir_elem fs v s r : r ∈ mem_dir fs v s ↔ is_Some (fs !! (v, s +:+ r)).
Proof.
  unfold mem_dir. rewrite list_elem_of_omap. split.
  - intros (key & Hk & Hu). apply mem_under_Some in Hu as ->.
    apply list_elem_of_fmap in Hk as ([k c] & Hkk & Hin). simpl in Hkk. subst k.
    apply elem_of_map_to_list in Hin. by eexists.
  - intros [c Hc]. exists (v, s +:+ r). split; [|by apply mem_under_Some].
    apply list_elem_of_fmap. exists ((v, s +:+ r), c). split; [done|]. by apply elem_of_map_to_list.
Qed.

Lemma mem_dir_nil (d : MemDisk) v s :
  mem_dir (mem_files d) v (s +:+ "/") = [] ↔ ¬ in_dir d v s.
Proof.
  split.
  - intros E [r Hr]. simpl in Hr. rewrite str_app_assoc in Hr. apply mem_dir_elem in Hr. rewrite E in Hr.
    by apply not_elem_of_nil in Hr.
  - intros Hn. destruct (mem_dir _ _ _) as [|r l] eqn:E; [done|]. exfalso. apply Hn. exists r.
    simpl. rewrite str_app_assoc. apply mem_dir_elem. rewrite E. left.
Qed.

(** The files after a directory moved to an unused name. *)
Lemma mem_moved_inj fs sv src dv dst k1 k2 :
  mem_dir fs dv dst = [] → is_Some (fs !! k1) → is_Some (fs !! k2) →
  mem_moved sv src dv dst k1 = mem_moved sv src dv dst k2 → k1 = k2.
Proof.
  intros Hd H1 H2. unfold mem_moved.
  assert (Hfree : ∀ r, fs !! (dv, dst +:+ r) = None).
  { intros r. destruct (fs !! (dv, dst +:+ r)) eqn:E; [|done].
    assert (Hin : r ∈ mem_dir fs dv dst) by (apply mem_dir_elem; by eexists).
    rewrite Hd in Hin. by apply not_elem_of_nil in Hin. }
  destruct (mem_under sv src k1) as [r1|] eqn:E1, (mem_under sv src k2) as [r2|] eqn:E2.
  - apply mem_under_Some in E1 as ->. apply mem_under_Some in E2 as ->.
    intros [= ->%str_app_inj_l]. done.
  - intros <-. rewrite Hfree in H2. by destruct H2.
  - intros ->. rewrite Hfree in H1. by destruct H1.
  - done.
Qed.

Lemma mem_move_dir_lookup fs sv src dv dst k c :
  mem_dir fs dv dst = [] →
  mem_move_dir fs sv src dv dst !! k = Some c ↔
  ∃ k0, k = mem_moved sv src dv dst k0 ∧ fs !! k0 = Some c.
Proof.
  intros Hd. unfold mem_move_dir. rewrite <- elem_of_list_to_map.
  - rewrite list_elem_of_fmap. split.
    + intros ([k0 c0] & [= -> ->] & Hin). apply elem_of_map_to_list in Hin. eauto.
    + intros (k0 & -> & Hk). exists (k0, c). split; [done|]. by apply elem_of_map_to_list.
  - rewrite <- list_fmap_compose.
    assert (NoDup (mem_moved sv src dv dst <$> (map_to_list fs).*1)) as Hnd.
    { apply NoDup_fmap_2_strong; [|apply NoDup_fst_map_to_list].
      intros k1 k2 H1 H2. apply (mem_moved_inj fs); [done| |].
      - apply list_elem_of_fmap in H1 as ([? c1] & -> & H1). apply elem_of_map_to_list in H1. by eexists.
      - apply list_elem_of_fmap in H2 as ([? c1] & -> & H2). apply elem_of_map_to_list in H2. by eexists. }
    by rewrite <- list_fmap_compose in Hnd.
Qed.

Lemma mem_move_dir_moved (d : MemDisk) sv src dv dst :
  sv ≠ dv → ¬ in_dir d dv dst →
  dir_moved d (mem_set_files d (mem_move_dir (mem_files d) sv (src +:+ "/") dv (dst +:+ "/"))) sv src dv dst.
Proof.
  intros Hv Hd. apply mem_dir_nil in Hd as Hnil.
  split.
  - done.
  - intros r. simpl. apply option_eq. intros c. rewrite mem_move_dir_lookup by done.
    rewrite !str_app_assoc. split.
    + intros ([v p] & Hk & Hc). unfold mem_moved in Hk.
      destruct (mem_under _ _ _) as [r0|] eqn:E.
      * apply mem_under_Some in E as [= -> ->]. injection Hk as ->%str_app_inj_l. done.
      * injection Hk as <- <-. exfalso. apply Hd. exists r. simpl. rewrite str_app_assoc. by rewrite Hc.
    + intros Hc. exists (sv, (src +:+ "/") +:+ r). split; [|done]. unfold mem_moved.
      by rewrite (proj2 (mem_under_Some sv (src +:+ "/") _ r)).
  - intros [r [c Hr]]. simpl in Hr. rewrite mem_move_dir_lookup in Hr by done.
    destruct Hr as (k0 & Hk & Hc). unfold mem_moved in Hk.
    destruct (mem_under _ _ _) as [r0|] eqn:E; [congruence|]. subst k0.
    rewrite str_app_assoc in E. by rewrite (proj2 (mem_under_Some sv (src +:+ "/") _ r)) in E.
  - intros v p Hdst Hsrc. simpl. apply option_eq. intros c. rewrite mem_move_dir_lookup by done. split.
    + intros ([v0 p0] & Hk & Hc). unfold mem_moved in Hk. destruct (mem_under _ _ _) as [r0|]; [|by rewrite Hk].
      injection Hk as -> ->. exfalso. apply Hdst. split; [done|]. apply HasPrefix_app.
    + intros Hc. exists (v, p). split; [|done]. unfold mem_moved.
      destruct (mem_under _ _ _) as [r0|] eqn:E; [|done]. apply mem_under_Some in E as [= -> ->].
      exfalso. apply Hsrc. split; [done|]. apply HasPrefix_app.
Qed.

Lemma mem_entry_cases r :
  (("/"%char ∉ bytes_of_string r) ∧ mem_entry r = r) ∨
  ∃ name r', r = name +:+ "/" +:+ r' ∧ ("/"%char ∉ bytes_of_string name) ∧ mem_entry r = name +:+ "/".
Proof.
  unfold mem_entry. destruct (first_elem r) as [[Hr ->]|(name & r' & -> & Hn & ->)]; [by left|].
  right. exists name, r'. split_and!; [done..|]. apply bytes_of_string_inj.
  rewrite bytes_string_bytes, !bytes_of_string_app.
  change (bytes_of_string "/" ++ ?x) with (["/"%char] ++ x). rewrite app_assoc.
  rewrite take_app_le by (rewrite length_app; simpl; lia).
  rewrite take_ge; [done|]. rewrite length_app. simpl. lia.
Qed.

Lemma mem_entries (d : MemDisk) v s :
  mem_clean d →
  dir_entries d v s (remove_dups (mem_entry <$> mem_dir (mem_files d) v (s +:+ "/"))).
Proof.
  intros Hc. split; [apply NoDup_remove_dups| |].
  - intros x Hx. rewrite elem_of_remove_dups in Hx. apply list_elem_of_fmap in Hx as (r & -> & Hr).
    apply mem_dir_elem in Hr. rewrite <- str_app_assoc in Hr.
    assert (Hcl := Hc _ _ Hr). apply clean_path_app in Hcl as [_ Hcl].
    destruct (mem_entry_cases r) as [[Hn ->]|(name & r' & -> & Hn & ->)].
    + exists r. split; [by apply clean_path_elem|]. by left.
    + apply clean_path_app in Hcl as [Hcl _]. exists name. split; [by apply clean_path_elem|].
      right. split; [done|]. exists r'. simpl. rewrite !str_app_assoc in *. done.
  - intros r Hr. simpl in Hr. rewrite str_app_assoc in Hr. apply mem_dir_elem in Hr.
    assert (Hin : mem_entry r ∈ remove_dups (mem_entry <$> mem_dir (mem_files d) v (s +:+ "/"))).
    { rewrite elem_of_remove_dups. by apply list_elem_of_fmap_2. }
    destruct (mem_entry_cases r) as [[Hn E]|(name & r' & -> & Hn & E)]; rewrite E in Hin; [by left|].
    right. eauto.
Qed.

Lemma mem_root_entries (d : MemDisk) v :
  mem_clean d → vol_entries d v (remove_dups (mem_entry <$> mem_dir (mem_files d) v "")).
Proof.
  intros Hc. split; [apply NoDup_remove_dups| |].
  - intros x Hx. rewrite elem_of_remove_dups in Hx. apply list_elem_of_fmap in Hx as (r & -> & Hr).
    apply mem_dir_elem in Hr. assert (Hcl : clean_path r) by apply (Hc _ _ Hr).
    destruct (mem_entry_cases r) as [[Hn ->]|(name & r' & -> & Hn & ->)].
    + exists r. split; [by apply clean_path_elem|]. by left.
    + apply clean_path_app in Hcl as [Hcl _]. exists name. split; [by apply clean_path_elem|].
      right. split; [done|]. by exists r'.
  - intros r Hr. assert (Hr' : r ∈ mem_dir (mem_files d) v "") by (by apply mem_dir_elem).
    assert (Hin : mem_entry r ∈ remove_dups (mem_entry <$> mem_dir (mem_files d) v "")).
    { rewrite elem_of_remove_dups. by apply list_elem_of_fmap_2. }
    destruct (mem_entry_cases r) as [[Hn E]|(name & r' & -> & Hn & E)]; rewrite E in Hin; [by left|].
    right. eauto.
Qed.

Lemma mem_clean_insert d v p c :
  mem_clean d → clean_path p → mem_clean (mem_set_files d (<[(v, p) := c]> (mem_files d))).
Proof.
  intros Hd Hp v' p' Hs. simpl in Hs. destruct (decide ((v, p) = (v', p'))) as [[= -> ->]|Hne]; [done|].
  rewrite lookup_insert_ne in Hs by done. by eapply Hd.
Qed.

#[export] Program Instance MemDisk_disk : DiskContract MemDisk := {|
  up d := mem_offline d = false ∧ mem_clean d;
  down d := mem_offline d = true;
|}.
Next Obligation. intros d v p [Ho _] Hv. by apply mem_check_up. Qed.
Next Obligation. intros d v p [Ho _] Hv _. by apply mem_check_up. Qed.
Next Obligation.
  intros d v p b d' [Ho Hc] Hp. simpl. unfold mem_AppendFile. destruct (mem_check d v); [done|].
  intros [= <-]. split; [split; [done|by apply mem_clean_insert]|]. split; [done|].
  intros v' p' Hne. simpl. by rewrite lookup_insert_ne.
Qed.
Next Obligation. intros d v p n d' e Hu _ _ [= <- _]. by split_and!; [apply Hu..| |]. Qed.
Next Obligation.
  intros d v [Ho Hc] _. simpl. rewrite Ho. case_bool_decide as Hv; eexists _, _; split_and!; try done.
  - by right.
  - split; [|done]. intros v' Hne. unfold has_vol, MemDisk_volumes. simpl. rewrite elem_of_union, elem_of_singleton. naive_solver.
  - unfold has_vol, MemDisk_volumes. simpl. by apply elem_of_union_l, elem_of_singleton.
  - by left.
Qed.
Next Obligation.
  intros d v [Ho Hc]. simpl. unfold mem_check. rewrite Ho. case_bool_decide as Hv.
  2: { eexists _, _. split_and!; try done. right. by left. }
  assert (Hu : mem_dir (mem_files d) v "" = [] ↔ ¬ vol_used d v).
  { split.
    - intros E [p Hp]. simpl in Hp. assert (Hin : p ∈ mem_dir (mem_files d) v "") by (by apply mem_dir_elem).
      rewrite E in Hin. by apply not_elem_of_nil in Hin.
    - intros Hn. destruct (mem_dir _ _ _) as [|p l] eqn:E; [done|]. exfalso. apply Hn. exists p.
      apply (mem_dir_elem (mem_files d) v "" p). rewrite E. left. }
  destruct (mem_dir _ _ _) as [|p l] eqn:E; eexists _, _; split_and!; try done.
  - split; [|done]. intros v' Hne. unfold has_vol, MemDisk_volumes. simpl. rewrite elem_of_difference, elem_of_singleton. naive_solver.
  - left. split_and!; [done|by apply Hu| |done]. unfold has_vol, MemDisk_volumes. simpl.
    rewrite elem_of_difference, elem_of_singleton. by intros [_ []].
  - right. right. split_and!; try done. exists p. apply (mem_dir_elem (mem_files d) v "" p).
    rewrite E. left.
Qed.
Next Obligation.
  intros d v [Ho Hc] Hv. simpl. rewrite mem_check_up by done. eexists _, _. by split_and!.
Qed.
Next Obligation.
  intros d v [Ho Hc] Hv. simpl. unfold mem_check. rewrite Ho, bool_decide_false by done. eexists _, _. by split_and!.
Qed.
Next Obligation.
  intros d v p [Ho Hc] Hv. simpl. rewrite mem_check_up by done. eexists _, _, _. split_and!; try done.
  destruct (mem_files d !! (v, p)); [by split; [eexists|]|]. split; [done|]. by intros [].
Qed.
Next Obligation.
  intros d v p [Ho Hc] Hv. simpl. rewrite mem_check_up by done. eexists _, _. by split_and!.
Qed.
Next Obligation.
  intros d v p [Ho Hc] Hv. simpl. unfold mem_check. rewrite Ho, bool_decide_false by done. eexists _, _. by split_and!.
Qed.
Next Obligation.
  intros d [Ho Hc]. simpl. rewrite Ho. eexists _, _. by split_and!.
Qed.
Next Obligation.
  intros d v s [Ho Hc] Hv. simpl. unfold mem_ListDir. rewrite mem_check_up by done.
  assert (Hne : s +:+ "/" ≠ "") by (by destruct s).
  rewrite HasSuffix_app, orb_true_r, (bool_decide_false (s +:+ "/" = "")) by done.
  pose proof (mem_entries d v s Hc) as He.
  destruct (mem_dir _ _ _) as [|r l] eqn:E; eexists _, _, _; split_and!; try done.
  - left. split; [done|]. by apply mem_dir_nil.
  - right. done.
Qed.
Next Obligation.
  intros d v [Ho Hc] Hv. simpl. unfold mem_ListDir. rewrite mem_check_up by done.
  pose proof (mem_root_entries d v Hc) as He. simpl.
  destruct (mem_dir _ _ _) as [|r l] eqn:E; eexists _, _; by split_and!.
Qed.
Next Obligation.
  intros d sv src dv dst [Ho Hc] Hsv Hdv Hne Hsrc Hdst Hin [_ Hfree] _. simpl. unfold mem_RenameFile.
  rewrite !mem_check_up, !HasSuffix_app by done. rewrite (proj2 (mem_dir_nil d dv dst) Hfree).
  destruct (mem_dir _ sv _) as [|r l] eqn:E; [by apply mem_dir_nil in E|].
  eexists. split_and!; [done|done| |by apply mem_move_dir_moved].
  intros v p [c Hp]. simpl in Hp. rewrite mem_move_dir_lookup in Hp by by apply mem_dir_nil.
  destruct Hp as ([v0 p0] & Hk & Hp0). unfold mem_moved in Hk. destruct (mem_under _ _ _) as [r0|] eqn:Eu.
  - apply mem_under_Some in Eu as [= -> ->]. injection Hk as -> ->.
    rewrite <- str_app_assoc in Hp0. rewrite <- str_app_assoc.
    assert (Hcl : clean_path (src +:+ "/" +:+ r0)) by (eapply Hc; by eexists).
    apply clean_path_app in Hcl as [_ Hcl]. by apply clean_path_app.
  - injection Hk as -> ->. eapply Hc. by eexists.
Qed.
Next Obligation.
  intros d sv src dv dst [Ho Hc] Hsv Hdv Hne Hsrc Hdst Hin [_ Hfree] _. simpl. unfold mem_RenameFile.
  rewrite !mem_check_up, !HasSuffix_app by done. rewrite (proj2 (mem_dir_nil d dv dst) Hfree).
  rewrite (proj2 (mem_dir_nil d sv src) Hin). eexists _, _. split_and!; try done. by right.
Qed.
Next Obligation.
  intros d sv src dv dst c [Ho Hc] Hsv Hdv Hne Hsrc Hdst Hf _. simpl in *. unfold mem_RenameFile.
  rewrite !mem_check_up, !clean_no_slash, Hf by done. eexists. split_and!; [done|done| | | |].
  - intros v p Hs. simpl in Hs. destruct (decide ((v, p) = (dv, dst))) as [E|E].
    { by injection E as -> ->. }
    rewrite lookup_insert_ne in Hs by done. apply lookup_delete_is_Some in Hs as [_ Hs]. by eapply Hc.
  - split; [done|]. intros v p [H1 H2]. simpl. by rewrite lookup_insert_ne, lookup_delete_ne.
  - apply lookup_insert_eq.
  - simpl. by rewrite lookup_insert_ne, lookup_delete_eq.
Qed.
Next Obligation.
  intros d v p [Ho Hc] Hv [c Hp]. simpl in *. rewrite mem_check_up by done. rewrite Hp.
  eexists. split_and!; [done|done| | |].
  - intros v' p' Hs. simpl in Hs. eapply (Hc v'). by apply lookup_delete_is_Some in Hs as [_ ?].
  - split; [done|]. intros v' p' Hne'. simpl. by rewrite lookup_delete_ne.
  - simpl. apply lookup_delete_eq.
Qed.
Next Obligation.
  intros d v p [Ho Hc] Hv _ _ Hp. simpl in *. rewrite mem_check_up, Hp by done. eexists _, _. by split_and!.
Qed.
Next Obligation.
  intros d v s [Ho Hc] Hv Hs _ _. simpl. rewrite mem_check_up by done.
  assert (mem_files d !! (v, s +:+ "/") = None) as ->.
  { apply eq_None_not_Some. intros Hf. apply Hc in Hf. change (s +:+ "/") with (s +:+ "/" +:+ "") in Hf.
    apply clean_path_app in Hf as [_ Hf]. by apply clean_path_ne in Hf. }
  eexists _, _. split_and!; try done. by right.
Qed.
Next Obligation. intros d v p off buf d' r Hu [= <- _]. done. Qed.
Next Obligation.
  intros d v Ho. simpl. rewrite Ho. eexists _, _. split_and!; try done. left.
Qed.
Next Obligation.
  intros d v Ho. simpl. unfold mem_check. rewrite Ho. eexists _, _. split_and!; try done.
  left.
Qed.
Next Obligation.
  intros d v Ho. simpl. unfold mem_check. rewrite Ho. eexists _, _, _. split_and!; try done.
  left.
Qed.
Next Obligation. intros d v p Ho. simpl. unfold mem_check. rewrite Ho. by eexists _, _, _. Qed.
Next Obligation.
  intros d v p Ho. simpl. unfold mem_check. rewrite Ho. eexists _, _, _. split_and!; try done. left.
Qed.
Next Obligation. intros d v p b Ho. simpl. unfold mem_AppendFile, mem_check. rewrite Ho. by eexists _, _. Qed.
Next Obligation. intros d v p n Ho. simpl. by eexists _, _. Qed.
Next Obligation. intros d sv sp dv dp Ho. simpl. unfold mem_RenameFile, mem_check. rewrite Ho. by eexists _, _. Qed.
Next Obligation. intros d v p Ho. simpl. unfold mem_check. rewrite Ho. by eexists _, _. Qed.
Next Obligation.
  intros d v p Ho. simpl. unfold mem_ListDir, mem_check. rewrite Ho. eexists _, _, _. split_and!; try done.
  left.
Qed.
