(* ===== verification/HttpRange.v ===== *)
(** * Byte ranges of GET requests

    Parsing of the [Range] header (src/cmd/httprange.go). *)

From S2P Require Import Prelude.
From S2P Require Import GoErrors.
From S2P Require Import GoStrings.

Local Open Scope Z_scope.

(** ** Operations *)

Definition byteRangePrefix : string := "bytes=".

Record httpRange := HttpRange { offsetBegin : Z; offsetEnd : Z; resourceSize : Z }.

Definition getLength (hrange : httpRange) : Z := 1 + offsetEnd hrange - offsetBegin hrange.

(** A position: -1 when it is missing, [None] when it is not a number or out
    of range. *)
Definition parse_pos (b : bytes) : option Z :=
  if (length b =? 0)%nat then Some (-1)
  else if negb (all_digits b) then None
  else ParseInt_digits b.

Definition parseRequestRange (rangeString : string) (size : Z) : httpRange + error :=
  if negb (HasPrefix rangeString byteRangePrefix)
  then inr (ENew ("'" +:+ rangeString +:+ "' does not start with 'bytes='"))
  else
    let byteRangeString := TrimPrefix rangeString byteRangePrefix in
    match Index byteRangeString "-" with
    | None => inr (ENew ("'" +:+ rangeString +:+ "' does not have a valid range value"))
    | Some sepIndex =>
        let b := bytes_of_string byteRangeString in
        match parse_pos (take sepIndex b) with
        | None => inr (ENew ("'" +:+ rangeString +:+ "' does not have a valid first byte position value"))
        | Some first =>
            match parse_pos (drop (sepIndex + 1) b) with
            | None => inr (ENew ("'" +:+ rangeString +:+ "' does not have a valid last byte position value"))
            | Some final =>
                if (-1 <? first) && (-1 <? final) then
                  if final <? first
                  then inr (ENew ("'" +:+ rangeString +:+ "' does not have valid range value"))
                  else if size <=? first then inr (errInvalidRange : error)
                  else inl (HttpRange first (if size <=? final then size - 1 else final) size)
                else if -1 <? first then
                  if size <=? first then inr (errInvalidRange : error)
                  else inl (HttpRange first (size - 1) size)
                else if -1 <? final then
                  if final =? 0 then inr (errInvalidRange : error)
                  else inl (HttpRange (if size <=? final then 0 else size - final) (size - 1) size)
                else inr (ENew ("'" +:+ rangeString +:+ "' does not have valid range value"))
            end
        end
    end.

(** ** Positions *)

Lemma digits_value_from_nonneg b acc :
  0 ≤ acc → forallb is_digit b = true →
  0 ≤ fold_left (λ acc d, acc * 10 + (byte_val d - 48)) b acc.
Proof.
  revert acc. induction b as [|d b IH]; intros acc Ha Hb; [done|]. simpl in *.
  apply andb_prop in Hb as [Hd Hb]. unfold is_digit in Hd. apply IH; [|done]. bool_prop. lia.
Qed.

Lemma digits_value_nonneg b : all_digits b = true → 0 ≤ digits_value b.
Proof. intros [_ H]%andb_prop. by apply digits_value_from_nonneg. Qed.

(** A position is missing or a number. *)
Lemma parse_pos_inv b v : parse_pos b = Some v → (b = [] ∧ v = -1) ∨ (b ≠ [] ∧ 0 ≤ v).
Proof.
  unfold parse_pos, ParseInt_digits. destruct b as [|d b]; [intros [= <-]; by left|].
  cbn [length Nat.eqb]. destruct (all_digits (d :: b)) eqn:Hd; [|done]. simpl negb. cbv iota.
  destruct (_ <? _); [|done]. intros [= <-]. right. split; [done|]. by apply digits_value_nonneg.
Qed.



(** ** The range a pair of positions selects *)








Ltac range_cases :=
  repeat match goal with
  | |- context [?a <? ?b] => destruct (Z.ltb_spec a b)
  | |- context [?a <=? ?b] => destruct (Z.leb_spec a b)
  | |- context [?a =? ?b] => destruct (Z.eqb_spec a b)
  end; cbn.



Lemma parseRequestRange_inv s size r :
  0 < size → parseRequestRange s size = inl r →
  0 ≤ offsetBegin r ≤ offsetEnd r ∧ offsetEnd r < size ∧ resourceSize r = size.
Proof.
  intros Hs. unfold parseRequestRange. destruct (negb _); [done|].
  destruct (Index _ _); [|done].
  destruct (parse_pos (take _ _)) as [first|] eqn:H1; [|done].
  destruct (parse_pos (drop _ _)) as [final|] eqn:H2; [|done].
  apply parse_pos_inv in H1, H2.
  range_cases; intros [= <-]; cbn; lia.
Qed.

(** ** Properties *)

(** A range that is accepted for a non-empty resource lies in it: whatever
    the header is, the first byte is not after the last one, both are bytes of
    the resource and the length is between one and the size. *)
Theorem parseRequestRange_bounds s size r :
  0 < size → parseRequestRange s size = inl r →
  0 ≤ offsetBegin r ≤ offsetEnd r ∧ offsetEnd r < size ∧ resourceSize r = size ∧
  1 ≤ getLength r ≤ size.
Proof.
  intros Hs H. apply parseRequestRange_inv in H; [|done]. unfold getLength. lia.
Qed.

Lemma parseRequestRange_bounds_witness :
  parseRequestRange "bytes=2-100" 10 = inl (HttpRange 2 9 10) ∧
  1 ≤ getLength (HttpRange 2 9 10) ≤ 10.
Proof.
  split; [by vm_compute|].
  apply (parseRequestRange_bounds "bytes=2-100" 10 (HttpRange 2 9 10)); [lia|by vm_compute].
Defined.





(** A suffix range of an empty resource is accepted although no byte of it
    exists: the range ends before it begins, while every other range of an
    empty resource is refused as unsatisfiable. *)
Theorem empty_resource_suffix_range :
  parseRequestRange "bytes=-5" 0 = inl (HttpRange 0 (-1) 0) ∧
  parseRequestRange "bytes=0-5" 0 = inr (errInvalidRange : error) ∧
  parseRequestRange "bytes=0-" 0 = inr (errInvalidRange : error).
Proof. by vm_compute. Qed.
