(* ===== verification/XLDisk.v ===== *)
(** * Object metadata on the disks

    The [xl.json] file of an object: parsing (src/cmd/xl-v1-utils.go), reading
    from one or all disks, writing with a write quorum and undo
    (src/cmd/xl-v1-metadata.go), and the renames that commit an object
    (src/cmd/xl-v1-object.go).  The goroutines of a parallel operation work on
    one disk and one slot each, so the loops run them in order.

    The JSON libraries are parameters: [GJson] is the part of
    [github.com/tidwall/gjson] the code uses, [json_Marshal] is
    [json.Marshal] of the metadata and [time_Parse] is [time.Parse] of an
    RFC 3339 time. *)

From S2P Require Import Prelude.
From S2P Require Import GoErrors.
From S2P Require Import GoStrings.
From S2P Require Import Quorum.
From S2P Require Import Distribution.
From S2P Require Import XLMeta.
From S2P Require Import Storage.
From S2P Require Import ObjectNames.

Local Open Scope Z_scope.

Definition xlMetaJSONFile : string := "xl.json".

(** ** JSON *)

Class GJson := {
  Result : Type;
  gjson_GetBytes : bytes → string → Result;
  gjson_Get : Result → string → Result;
  gjson_String : Result → string;
  gjson_Int : Result → Z;
  gjson_Array : Result → list Result;
  gjson_Map : Result → gmap string Result;
}.

Class MetaJson := {
  json_Marshal : xlMetaV1 → bytes + error;
  time_Parse : string → Z + error;
}.

Section Parse.
Context `{GJson, MetaJson}.

Definition parseXLStat (xlMetaBuf : bytes) : statInfo * option error :=
  match time_Parse (gjson_String (gjson_GetBytes xlMetaBuf "stat.modTime")) with
  | inr err => (statInfo_zero, Some err)
  | inl modTime => (StatInfo (gjson_Int (gjson_GetBytes xlMetaBuf "stat.size")) modTime, None)
  end.

Definition parseXLVersion (xlMetaBuf : bytes) : string :=
  gjson_String (gjson_GetBytes xlMetaBuf "version").

Definition parseXLFormat (xlMetaBuf : bytes) : string :=
  gjson_String (gjson_GetBytes xlMetaBuf "format").

Definition parseXLRelease (xlMetaBuf : bytes) : string :=
  gjson_String (gjson_GetBytes xlMetaBuf "minio.release").

Definition parse_checksum (checkSumResult : Result) : checkSumInfo :=
  CheckSumInfo (gjson_String (gjson_Get checkSumResult "name"))
    (gjson_String (gjson_Get checkSumResult "algorithm"))
    (gjson_String (gjson_Get checkSumResult "hash")).

Definition parseXLErasureInfo (xlMetaBuf : bytes) : erasureInfo :=
  let erasureResult := gjson_GetBytes xlMetaBuf "erasure" in
  ErasureInfo
    (gjson_String (gjson_Get erasureResult "algorithm"))
    (gjson_Int (gjson_Get erasureResult "data"))
    (gjson_Int (gjson_Get erasureResult "parity"))
    (gjson_Int (gjson_Get erasureResult "blockSize"))
    (gjson_Int (gjson_Get erasureResult "index"))
    (gjson_Int <$> gjson_Array (gjson_Get erasureResult "distribution"))
    (parse_checksum <$> gjson_Array (gjson_Get erasureResult "checksum")).

Definition parse_part (p : Result) : objectPartInfo :=
  ObjectPartInfo (gjson_Int (gjson_Get p "number")) (gjson_String (gjson_Get p "name"))
    (gjson_String (gjson_Get p "etag")) (gjson_Int (gjson_Get p "size")).

Definition parseXLParts (xlMetaBuf : bytes) : list objectPartInfo :=
  parse_part <$> gjson_Array (gjson_GetBytes xlMetaBuf "parts").

Definition parseXLMetaMap (xlMetaBuf : bytes) : gmap string string :=
  gjson_String <$> gjson_Map (gjson_GetBytes xlMetaBuf "meta").

Definition xlMetaV1UnmarshalJSON (xlMetaBuf : bytes) : xlMetaV1 * option error :=
  let '(stat, err) := parseXLStat xlMetaBuf in
  match err with
  | Some e => (xlMetaV1_zero, Some e)
  | None =>
      (XLMetaV1 (parseXLVersion xlMetaBuf) (parseXLFormat xlMetaBuf) stat
         (parseXLErasureInfo xlMetaBuf) (parseXLRelease xlMetaBuf) (parseXLMetaMap xlMetaBuf)
         (parseXLParts xlMetaBuf), None)
  end.

End Parse.

(** ** Reading *)

Section Disk.
Context `{GJson, MetaJson, MapOrder} {D : Type} `{!StorageAPI D}.

Definition readXLMetaParts (disk : D) (bucket object : string)
    : D * (list objectPartInfo * option error) :=
  let '(disk, (xlMetaBuf, err)) := ReadAll disk bucket (path_Join [object; xlMetaJSONFile]) in
  match err with
  | Some e => (disk, ([], traceError (Some e) []))
  | None => (disk, (parseXLParts xlMetaBuf, None))
  end.

Definition readXLMetaStat (disk : D) (bucket object : string)
    : D * (statInfo * gmap string string * option error) :=
  let '(disk, (xlMetaBuf, err)) := ReadAll disk bucket (path_Join [object; xlMetaJSONFile]) in
  match err with
  | Some e => (disk, (statInfo_zero, ∅, traceError (Some e) []))
  | None =>
      let xlMetaMap := parseXLMetaMap xlMetaBuf in
      let '(xlStat, err) := parseXLStat xlMetaBuf in
      match err with
      | Some e => (disk, (statInfo_zero, ∅, traceError (Some e) []))
      | None => (disk, (xlStat, xlMetaMap, None))
      end
  end.

Definition readXLMeta (disk : D) (bucket object : string) : D * (xlMetaV1 * option error) :=
  let '(disk, (xlMetaBuf, err)) := ReadAll disk bucket (path_Join [object; xlMetaJSONFile]) in
  match err with
  | Some e => (disk, (xlMetaV1_zero, traceError (Some e) []))
  | None =>
      let '(xlMeta, err) := xlMetaV1UnmarshalJSON xlMetaBuf in
      match err with
      | Some e => (disk, (xlMetaV1_zero, traceError (Some e) []))
      | None => (disk, (xlMeta, None))
      end
  end.

(** Returns the disks after the reads, the metadata and the errors. *)
Fixpoint readAllXLMetadata (disks : list (option D)) (bucket object : string)
    : list (option D) * (list xlMetaV1 * list (option error)) :=
  match disks with
  | [] => ([], ([], []))
  | disk :: disks' =>
      let '(disk, (meta, err)) :=
        match disk with
        | None => (None, (xlMetaV1_zero, Some (errDiskNotFound : error)))
        | Some d => let '(d, r) := readXLMeta d bucket object in (Some d, r)
        end in
      let '(disks', (metadataArray, errs)) := readAllXLMetadata disks' bucket object in
      (disk :: disks', (meta :: metadataArray, err :: errs))
  end.

Definition objMetadataOpIgnoredErrs : list (option error) :=
  baseIgnoredErrs ++
  [Some (errDiskAccessDenied : error); Some (errVolumeNotFound : error);
   Some (errFileNotFound : error); Some (errFileAccessDenied : error)].

(** The loops of [xl.readXLMetaParts], [xl.readXLMetaStat] and [getBucketInfo]
    over the load balanced disks: the first answer that is not an ignored
    error; [err] is the error of the disk before. *)
Fixpoint first_answer {A} (ignored : list (option error)) (read : D → D * (A * option error))
    (zero : A) (disks : list (option D)) (err : option error)
    : list (option D) * (A * option error) :=
  match disks with
  | [] => ([], (zero, err))
  | None :: disks' =>
      let '(disks', r) := first_answer ignored read zero disks' err in (None :: disks', r)
  | Some disk :: disks' =>
      let '(disk, (a, err)) := read disk in
      match err with
      | None => (Some disk :: disks', (a, None))
      | Some _ =>
          if isErrIgnored err ignored
          then let '(disks', r) := first_answer ignored read zero disks' err in (Some disk :: disks', r)
          else (Some disk :: disks', (zero, err))
      end
  end.

(** [disks] are the load balanced disks. *)
Definition xl_readXLMetaParts (disks : list (option D)) (bucket object : string)
    : list (option D) * (list objectPartInfo * option error) :=
  first_answer objMetadataOpIgnoredErrs (λ disk, readXLMetaParts disk bucket object) [] disks None.

Definition xl_readXLMetaStat (disks : list (option D)) (bucket object : string)
    : list (option D) * (statInfo * gmap string string * option error) :=
  first_answer objMetadataOpIgnoredErrs (λ disk, readXLMetaStat disk bucket object) (statInfo_zero, ∅) disks None.

(** ** Writing *)

Definition deleteXLMetdata (disk : D) (bucket prefix : string) : D * option error :=
  let '(disk, err) := DeleteFile disk bucket (path_Join [prefix; xlMetaJSONFile]) in
  (disk, traceError err []).

Definition writeXLMetadata (disk : D) (bucket prefix : string) (xlMeta : xlMetaV1)
    : D * option error :=
  let jsonFile := path_Join [prefix; xlMetaJSONFile] in
  match json_Marshal xlMeta with
  | inr err => (disk, traceError (Some err) [])
  | inl metadataBytes =>
      let '(disk, err) := AppendFile disk bucket jsonFile metadataBytes in
      (disk, traceError err [])
  end.

(** [errs] has an entry for every disk. *)
Fixpoint deleteAllXLMetadata (disks : list (option D)) (bucket prefix : string)
    (errs : list (option error)) : list (option D) :=
  match disks, errs with
  | Some disk :: disks', None :: errs' =>
      Some (deleteXLMetdata disk bucket prefix).1 :: deleteAllXLMetadata disks' bucket prefix errs'
  | disk :: disks', _ :: errs' => disk :: deleteAllXLMetadata disks' bucket prefix errs'
  | _, _ => disks
  end.

Definition set_index (m : xlMetaV1) (index : Z) : xlMetaV1 :=
  let e := Erasure m in
  XLMetaV1 (Version m) (Format m) (Stat m)
    (ErasureInfo (Algorithm e) (DataBlocks e) (ParityBlocks e) (BlockSize e) index
       (Distribution e) (Checksum e)) (MinioRelease m) (Meta m) (Parts m).

(** The write loop from the disk [index] on; the metadata of a disk that is
    written has its index set. *)
Fixpoint write_unique (index : Z) (disks : list (option D)) (bucket prefix : string)
    (xlMetas : list xlMetaV1) : go (list (option D) * list xlMetaV1 * list (option error)) :=
  match disks with
  | [] => Ret ([], xlMetas, [])
  | None :: disks' =>
      '(disks', metas', mErrs) ← write_unique (index + 1) disks' bucket prefix (tail xlMetas);
      mret (None :: disks', take 1 xlMetas ++ metas',
            traceError (Some (errDiskNotFound : error)) [] :: mErrs)
  | Some disk :: disks' =>
      match xlMetas with
      | [] => Panic
      | xlMeta :: xlMetas' =>
          let xlMeta := set_index xlMeta (index + 1) in
          let '(disk, err) := writeXLMetadata disk bucket prefix xlMeta in
          '(disks', metas', mErrs) ← write_unique (index + 1) disks' bucket prefix xlMetas';
          mret (Some disk :: disks', xlMeta :: metas', err :: mErrs)
      end
  end.

(** The end of both write functions. *)
Definition write_quorum_result (disks : list (option D)) (bucket prefix : string)
    (mErrs : list (option error)) (quorum : nat) : list (option D) * option error :=
  if negb (isDiskQuorum mErrs quorum)
  then (deleteAllXLMetadata disks bucket prefix mErrs, traceError (Some (errXLWriteQuorum : error)) [])
  else (disks, reduceWriteQuorumErrs mErrs objectOpIgnoredErrs quorum).

(** Returns the disks, the metadata with the indices set and the error. *)
Definition writeUniqueXLMetadata (disks : list (option D)) (bucket prefix : string)
    (xlMetas : list xlMetaV1) (quorum : nat) : go (list (option D) * list xlMetaV1 * option error) :=
  '(disks, xlMetas, mErrs) ← write_unique 0 disks bucket prefix xlMetas;
  let '(disks, err) := write_quorum_result disks bucket prefix mErrs quorum in
  mret (disks, xlMetas, err).

Fixpoint write_same (index : Z) (disks : list (option D)) (bucket prefix : string)
    (xlMeta : xlMetaV1) : list (option D) * list (option error) :=
  match disks with
  | [] => ([], [])
  | disk :: disks' =>
      let '(disk, err) :=
        match disk with
        | None => (None, traceError (Some (errDiskNotFound : error)) [])
        | Some d =>
            let '(d, err) := writeXLMetadata d bucket prefix (set_index xlMeta (index + 1)) in
            (Some d, err)
        end in
      let '(disks', mErrs) := write_same (index + 1) disks' bucket prefix xlMeta in
      (disk :: disks', err :: mErrs)
  end.

Definition writeSameXLMetadata (disks : list (option D)) (bucket prefix : string)
    (xlMeta : xlMetaV1) (writeQuorum readQuorum : nat) : list (option D) * option error :=
  let '(disks, mErrs) := write_same 0 disks bucket prefix xlMeta in
  write_quorum_result disks bucket prefix mErrs writeQuorum.

(** ** Renames *)

(** [errs] has an entry for every disk. *)
Fixpoint undoRename (disks : list (option D)) (srcBucket srcEntry dstBucket dstEntry : string)
    (isDir : bool) (errs : list (option error)) : list (option D) :=
  let src := if isDir then retainSlash srcEntry else srcEntry in
  let dst := if isDir then retainSlash dstEntry else dstEntry in
  match disks, errs with
  | Some disk :: disks', None :: errs' =>
      Some (RenameFile disk dstBucket dst srcBucket src).1 ::
        undoRename disks' srcBucket srcEntry dstBucket dstEntry isDir errs'
  | disk :: disks', _ :: errs' =>
      disk :: undoRename disks' srcBucket srcEntry dstBucket dstEntry isDir errs'
  | _, _ => disks
  end.

Fixpoint rename_all (disks : list (option D)) (srcBucket srcEntry dstBucket dstEntry : string)
    : list (option D) * list (option error) :=
  match disks with
  | [] => ([], [])
  | disk :: disks' =>
      let '(disk, err) :=
        match disk with
        | None => (None, Some (errDiskNotFound : error))
        | Some d =>
            let '(d, err) := RenameFile d srcBucket srcEntry dstBucket dstEntry in
            (Some d, if err_eqb err (Some (errFileNotFound : error)) then None
                     else traceError err [])
        end in
      let '(disks', errs) := rename_all disks' srcBucket srcEntry dstBucket dstEntry in
      (disk :: disks', err :: errs)
  end.

Definition rename (disks : list (option D)) (srcBucket srcEntry dstBucket dstEntry : string)
    (isDir : bool) (quorum : nat) : list (option D) * option error :=
  let dst := if isDir then retainSlash dstEntry else dstEntry in
  let src := if isDir then retainSlash srcEntry else srcEntry in
  let '(disks, errs) := rename_all disks srcBucket src dstBucket dst in
  if negb (isDiskQuorum errs quorum)
  then (undoRename disks srcBucket src dstBucket dst isDir errs,
        traceError (Some (errXLWriteQuorum : error)) [])
  else (disks, reduceWriteQuorumErrs errs objectOpIgnoredErrs quorum).

Definition renamePart (disks : list (option D)) (srcBucket srcPart dstBucket dstPart : string)
    (quorum : nat) : list (option D) * option error :=
  rename disks srcBucket srcPart dstBucket dstPart false quorum.

Definition renameObject (disks : list (option D)) (srcBucket srcObject dstBucket dstObject : string)
    (quorum : nat) : list (option D) * option error :=
  rename disks srcBucket srcObject dstBucket dstObject true quorum.

Definition renameXLMetadata (disks : list (option D)) (srcBucket srcEntry dstBucket dstEntry : string)
    (quorum : nat) : list (option D) * option error :=
  rename disks srcBucket (path_Join [srcEntry; xlMetaJSONFile]) dstBucket
    (path_Join [dstEntry; xlMetaJSONFile]) false quorum.

End Disk.

(** ** The contract of the JSON libraries

    What [json.Marshal] writes for a field is what gjson and [time.Parse] read
    for its path.  The libraries do this for metadata that JSON represents: text
    in valid UTF-8 (other bytes are replaced when it is written), integers that a
    float64 holds exactly (gjson reads numbers through one, so up to 2^53 in
    size) and times with a year of four digits.  The metadata of the theorems is
    taken to be of this kind. *)

Class JsonContract `{GJson, MetaJson} := {
  json_version : ∀ mt b, json_Marshal mt = inl b →
    gjson_String (gjson_GetBytes b "version") = Version mt;
  json_format : ∀ mt b, json_Marshal mt = inl b →
    gjson_String (gjson_GetBytes b "format") = Format mt;
  json_modTime : ∀ mt b, json_Marshal mt = inl b →
    time_Parse (gjson_String (gjson_GetBytes b "stat.modTime")) = inl (ModTime (Stat mt));
  json_size : ∀ mt b, json_Marshal mt = inl b →
    gjson_Int (gjson_GetBytes b "stat.size") = StatSize (Stat mt);
  json_release : ∀ mt b, json_Marshal mt = inl b →
    gjson_String (gjson_GetBytes b "minio.release") = MinioRelease mt;
  json_erasure : ∀ mt b, json_Marshal mt = inl b →
    let r := gjson_GetBytes b "erasure" in
    gjson_String (gjson_Get r "algorithm") = Algorithm (Erasure mt) ∧
    gjson_Int (gjson_Get r "data") = DataBlocks (Erasure mt) ∧
    gjson_Int (gjson_Get r "parity") = ParityBlocks (Erasure mt) ∧
    gjson_Int (gjson_Get r "blockSize") = BlockSize (Erasure mt) ∧
    gjson_Int (gjson_Get r "index") = Index (Erasure mt);
  json_distribution : ∀ mt b, json_Marshal mt = inl b →
    Forall2 (λ r n, gjson_Int r = n)
      (gjson_Array (gjson_Get (gjson_GetBytes b "erasure") "distribution")) (Distribution (Erasure mt));
  json_checksum : ∀ mt b, json_Marshal mt = inl b →
    Forall2 (λ r ck, gjson_String (gjson_Get r "name") = CkName ck ∧
                     gjson_String (gjson_Get r "algorithm") = CkAlgorithm ck ∧
                     gjson_String (gjson_Get r "hash") = CkHash ck)
      (gjson_Array (gjson_Get (gjson_GetBytes b "erasure") "checksum")) (Checksum (Erasure mt));
  json_parts : ∀ mt b, json_Marshal mt = inl b →
    Forall2 (λ r p, gjson_Int (gjson_Get r "number") = Number p ∧
                    gjson_String (gjson_Get r "name") = PartName p ∧
                    gjson_String (gjson_Get r "etag") = ETag p ∧
                    gjson_Int (gjson_Get r "size") = PartSize p)
      (gjson_Array (gjson_GetBytes b "parts")) (Parts mt);
  json_meta : ∀ mt b, json_Marshal mt = inl b →
    gjson_String <$> gjson_Map (gjson_GetBytes b "meta") = Meta mt;
}.

Lemma fmap_Forall2 {A B} (f : A → B) (P : A → B → Prop) l r :
  (∀ x y, P x y → f x = y) → Forall2 P l r → f <$> l = r.
Proof. intros HP. induction 1 as [|x y l r Hxy _ IH]; [done|]. rewrite fmap_cons, IH. f_equal. auto. Qed.

(** Parsing gives back the metadata that was written. *)
Lemma xlMetaV1UnmarshalJSON_Marshal `{JsonContract} mt b :
  json_Marshal mt = inl b → xlMetaV1UnmarshalJSON b = (mt, None).
Proof.
  intros Hb. unfold xlMetaV1UnmarshalJSON, parseXLStat.
  rewrite (json_modTime _ _ Hb), (json_size _ _ Hb). unfold parseXLVersion, parseXLFormat,
    parseXLRelease, parseXLMetaMap, parseXLParts, parseXLErasureInfo.
  rewrite (json_version _ _ Hb), (json_format _ _ Hb), (json_release _ _ Hb), (json_meta _ _ Hb).
  destruct (json_erasure _ _ Hb) as (-> & -> & -> & -> & ->).
  assert (gjson_Int <$> gjson_Array (gjson_Get (gjson_GetBytes b "erasure") "distribution") =
            Distribution (Erasure mt)) as ->
    by (eapply fmap_Forall2; [|by apply json_distribution]; done).
  assert (parse_checksum <$> gjson_Array (gjson_Get (gjson_GetBytes b "erasure") "checksum") =
            Checksum (Erasure mt)) as ->.
  { eapply fmap_Forall2; [|by apply json_checksum]. intros r [] (? & ? & ?).
    unfold parse_checksum. simpl in *. congruence. }
  assert (parse_part <$> gjson_Array (gjson_GetBytes b "parts") = Parts mt) as ->.
  { eapply fmap_Forall2; [|by apply json_parts]. intros r [] (? & ? & ? & ?).
    unfold parse_part. simpl in *. congruence. }
  by destruct mt as [? ? [] [] ? ? ?].
Qed.

(** ** A codec

    Metadata as the binary digits of its number in an enumeration, and gjson
    as the projections of the decoded value. *)

#[export] Instance xlMetaV1_dec : EqDecision xlMetaV1.
Proof.
  assert (EqDecision statInfo) by solve_decision.
  assert (EqDecision erasureInfo) by solve_decision. solve_decision.
Defined.

Definition meta_tuple : Type :=
  (string * string * (Z * Z) *
   (string * Z * Z * Z * Z * list Z * list (string * string * string)) *
   string * gmap string string * list (Z * string * string * Z)).

Definition to_tuple (mt : xlMetaV1) : meta_tuple :=
  (Version mt, Format mt, (StatSize (Stat mt), ModTime (Stat mt)),
   (Algorithm (Erasure mt), DataBlocks (Erasure mt), ParityBlocks (Erasure mt),
    BlockSize (Erasure mt), Index (Erasure mt), Distribution (Erasure mt),
    (λ c, (CkName c, CkAlgorithm c, CkHash c)) <$> Checksum (Erasure mt)),
   MinioRelease mt, Meta mt,
   (λ p, (Number p, PartName p, ETag p, PartSize p)) <$> Parts mt).

Definition of_tuple (x : meta_tuple) : xlMetaV1 :=
  let '(v, f, (sz, t), (a, k, m, bs, i, dist, cks), rel, meta, ps) := x in
  XLMetaV1 v f (StatInfo sz t)
    (ErasureInfo a k m bs i dist ((λ '(n, al, h), CheckSumInfo n al h) <$> cks)) rel meta
    ((λ '(n, nm, e, sz), ObjectPartInfo n nm e sz) <$> ps).

Lemma of_to_tuple mt : of_tuple (to_tuple mt) = mt.
Proof.
  destruct mt as [v f [sz t] [a k m bs i dist cks] rel meta ps].
  unfold of_tuple, to_tuple. cbn -[fmap]. f_equal.
  - f_equal. rewrite <- list_fmap_compose. rewrite <- (list_fmap_id cks) at 2. apply list_fmap_ext.
    by intros ? [] _.
  - rewrite <- list_fmap_compose. rewrite <- (list_fmap_id ps) at 2. apply list_fmap_ext.
    by intros ? [] _.
Qed.

#[export] Instance xlMetaV1_countable : Countable xlMetaV1 :=
  inj_countable' (A := meta_tuple) to_tuple of_tuple of_to_tuple.

Fixpoint bytes_of_positive (p : positive) : bytes :=
  match p with
  | xH => []
  | xO p' => "0"%char :: bytes_of_positive p'
  | xI p' => "1"%char :: bytes_of_positive p'
  end.

Fixpoint positive_of_bytes (b : bytes) : positive :=
  match b with
  | [] => xH
  | c :: b' => if bool_decide (c = "1"%char) then xI (positive_of_bytes b')
               else xO (positive_of_bytes b')
  end.

Lemma positive_bytes p : positive_of_bytes (bytes_of_positive p) = p.
Proof. induction p as [p IH|p IH|]; simpl; [by rewrite IH..|done]. Qed.

#[warnings="-register-all"]
Inductive json_value :=
| JNull | JString (s : string) | JNumber (z : Z) | JArray (l : list json_value)
| JObject (l : list (string * json_value)).

Definition json_get (v : json_value) (key : string) : json_value :=
  match v with
  | JObject l => default JNull ((list_to_map l : gmap string json_value) !! key)
  | _ => JNull
  end.

Definition json_string (v : json_value) : string := match v with JString s => s | _ => "" end.
Definition json_int (v : json_value) : Z := match v with JNumber z => z | _ => 0 end.
Definition json_array (v : json_value) : list json_value := match v with JArray l => l | _ => [] end.
Definition json_map (v : json_value) : gmap string json_value :=
  match v with JObject l => list_to_map l | _ => ∅ end.

Definition time_string (t : Z) : string := string_of_bytes (bytes_of_positive (encode t)).

Definition json_of_meta (mt : xlMetaV1) (path : string) : json_value :=
  default JNull ((list_to_map
    [("version", JString (Version mt)); ("format", JString (Format mt));
     ("stat.modTime", JString (time_string (ModTime (Stat mt))));
     ("stat.size", JNumber (StatSize (Stat mt)));
     ("minio.release", JString (MinioRelease mt));
     ("erasure", JObject
        [("algorithm", JString (Algorithm (Erasure mt)));
         ("data", JNumber (DataBlocks (Erasure mt)));
         ("parity", JNumber (ParityBlocks (Erasure mt)));
         ("blockSize", JNumber (BlockSize (Erasure mt)));
         ("index", JNumber (Index (Erasure mt)));
         ("distribution", JArray (JNumber <$> Distribution (Erasure mt)));
         ("checksum", JArray ((λ c, JObject [("name", JString (CkName c));
            ("algorithm", JString (CkAlgorithm c)); ("hash", JString (CkHash c))])
            <$> Checksum (Erasure mt)))]);
     ("parts", JArray ((λ p, JObject [("number", JNumber (Number p)); ("name", JString (PartName p));
        ("etag", JString (ETag p)); ("size", JNumber (PartSize p))]) <$> Parts mt));
     ("meta", JObject (map_to_list (JString <$> Meta mt)))] : gmap string json_value) !! path).

#[export] Instance demo_gjson : GJson := {|
  Result := json_value;
  gjson_GetBytes b path :=
    match decode (positive_of_bytes b) with
    | Some mt => json_of_meta mt path
    | None => JNull
    end;
  gjson_Get := json_get; gjson_String := json_string; gjson_Int := json_int;
  gjson_Array := json_array; gjson_Map := json_map;
|}.

#[export] Instance demo_json : MetaJson := {|
  json_Marshal mt := inl (bytes_of_positive (encode mt));
  time_Parse s :=
    match decode (positive_of_bytes (bytes_of_string s)) with
    | Some t => inl t
    | None => inr (ENew "parsing time")
    end;
|}.

Lemma demo_GetBytes mt b path :
  json_Marshal mt = inl b → gjson_GetBytes b path = json_of_meta mt path.
Proof. simpl. intros [= <-]. by rewrite positive_bytes, decode_encode. Qed.

#[export] Program Instance demo_json_contract : JsonContract.
Solve Obligations with try (intros mt b Hb; rewrite !(demo_GetBytes _ _ _ Hb); done).
Next Obligation.
  intros mt b Hb. rewrite (demo_GetBytes _ _ _ Hb).
  change (time_Parse (time_string (ModTime (Stat mt))) = inl (ModTime (Stat mt))).
  unfold time_string, time_Parse. cbn -[bytes_of_string string_of_bytes bytes_of_positive encode decode].
  by rewrite bytes_string_bytes, positive_bytes, decode_encode.
Qed.
Next Obligation.
  intros mt b Hb. rewrite (demo_GetBytes _ _ _ Hb).
  change (json_array (json_get (json_of_meta mt "erasure") "distribution"))
    with (JNumber <$> Distribution (Erasure mt)).
  apply Forall2_fmap_l. induction (Distribution (Erasure mt)); by constructor.
Qed.
Next Obligation.
  intros mt b Hb. rewrite (demo_GetBytes _ _ _ Hb).
  change (json_array (json_get (json_of_meta mt "erasure") "checksum"))
    with ((λ c, JObject [("name", JString (CkName c)); ("algorithm", JString (CkAlgorithm c));
                         ("hash", JString (CkHash c))]) <$> Checksum (Erasure mt)).
  apply Forall2_fmap_l. induction (Checksum (Erasure mt)); by constructor.
Qed.
Next Obligation.
  intros mt b Hb. rewrite (demo_GetBytes _ _ _ Hb).
  change (json_array (json_of_meta mt "parts"))
    with ((λ p, JObject [("number", JNumber (Number p)); ("name", JString (PartName p));
        ("etag", JString (ETag p)); ("size", JNumber (PartSize p))]) <$> Parts mt).
  apply Forall2_fmap_l. induction (Parts mt); by constructor.
Qed.
Next Obligation.
  intros mt b Hb. rewrite (demo_GetBytes _ _ _ Hb).
  change (json_string <$> (list_to_map (map_to_list (JString <$> Meta mt)) : gmap string json_value) = Meta mt).
  rewrite list_to_map_to_list, <- map_fmap_compose. rewrite <- (map_fmap_id (Meta mt)) at 2.
  by apply map_fmap_ext.
Qed.

(** ** Writing the metadata of a version *)

(** What the code relies on for whole files. *)
Class StorageFiles (D : Type) `{!StorageAPI D} `{!StorageContract D} := {
  ReadAll_serves : ∀ d v p c,
    serves d v p → file_at d v p = Some c → ∃ d', ReadAll d v p = (d', (c, None));
}.

#[export] Instance MemDisk_files : StorageFiles MemDisk.
Proof.
  split. intros d v p c Hs Hf. simpl in *. exists d. by rewrite Hs, Hf.
Qed.

(** The disks that reported no error. *)
Definition nil_at (errs : list (option error)) (i : nat) : bool :=
  match errs !! i with Some None => true | _ => false end.

Definition nil_count (errs : list (option error)) : nat :=
  length (filter (λ i, nil_at errs i = true) (seq 0 (length errs))).

Lemma nil_count_cons e errs :
  nil_count (e :: errs) = ((match e with None => 1 | Some _ => 0 end) + nil_count errs)%nat.
Proof.
  unfold nil_count. cbn [length seq]. rewrite filter_cons, <- fmap_S_seq, filter_fmap.
  change (filter (λ x, nil_at (e :: errs) (S x) = true) (seq 0 (length errs)))
    with (filter (λ i, nil_at errs i = true) (seq 0 (length errs))).
  case_decide as Hd; unfold nil_at in Hd; simpl in Hd; destruct e; try done; cbn [length];
    by rewrite length_fmap.
Qed.

Lemma occ_nil_count errs :
  (occ None (votes objectOpIgnoredErrs errs) ≤ nil_count errs)%nat.
Proof.
  induction errs as [|e errs IH]; [done|]. rewrite nil_count_cons.
  unfold votes. simpl errorsCause. rewrite filter_cons. fold (votes objectOpIgnoredErrs errs).
  case_decide; [|destruct e; lia]. rewrite occ_cons. destruct e as [e|]; [|simpl; lia].
  replace (err_eqb None _) with false; [lia|]. by destruct e.
Qed.

Section WriteFacts.
Context `{JsonContract, MapOrder} {D : Type} `{!StorageAPI D}.

(** The disk [i] after its metadata was appended. *)
Definition meta_written (disks : list (option D)) (bucket prefix : string) (xlMetas : list xlMetaV1)
    (base : Z) (i : nat) (d1 : D) : Prop :=
  ∃ d mt b, disks !! i = Some (Some d) ∧ xlMetas !! i = Some mt ∧
    json_Marshal (set_index mt (base + Z.of_nat i + 1)) = inl b ∧
    AppendFile d bucket (path_Join [prefix; xlMetaJSONFile]) b = (d1, None).

Lemma write_unique_ok disks bucket prefix xlMetas base :
  length xlMetas = length disks →
  ∃ ds metas errs, write_unique base disks bucket prefix xlMetas = Ret (ds, metas, errs) ∧
    length ds = length disks ∧ length errs = length disks ∧
    ∀ i, errs !! i = Some None →
      ∃ d1, ds !! i = Some (Some d1) ∧ meta_written disks bucket prefix xlMetas base i d1.
Proof.
  revert xlMetas base. induction disks as [|od disks IH]; intros [|mt xlMetas] base Hl; try done.
  { by exists [], [], []. }
  simpl in Hl. destruct (IH xlMetas (base + 1)) as (ds & metas & errs & Heq & Hd & He & Hi); [lia|].
  assert (Hshift : ∀ i d1, meta_written disks bucket prefix xlMetas (base + 1) i d1 →
            meta_written (od :: disks) bucket prefix (mt :: xlMetas) base (S i) d1).
  { intros i d1 (d & mt' & b & ? & ? & Hj & ?). exists d, mt', b. split_and!; try done.
    rewrite <- Hj. do 2 f_equal. lia. }
  cbn [write_unique]. destruct od as [d|].
  - destruct (writeXLMetadata d bucket prefix (set_index mt (base + 1))) as [d1 err] eqn:Hw.
    rewrite Heq. cbn [mbind go_bind]. eexists _, _, _. split; [done|]. simpl length.
    split_and!; [lia|lia|]. intros [|i]; simpl.
    + intros [= ->]. exists d1. split; [done|]. unfold writeXLMetadata in Hw.
      destruct (json_Marshal _) as [b|e] eqn:Hj; [|done].
      destruct (AppendFile _ _ _ _) as [d1' [e|]] eqn:Ha; [done|]. injection Hw as ->.
      exists d, mt, b. split_and!; try done. by rewrite Z.add_0_r.
    + intros Hn. destruct (Hi i Hn) as (d2 & ? & ?). exists d2. split; [done|]. by apply Hshift.
  - cbn [tail]. rewrite Heq. cbn [mbind go_bind]. eexists _, _, _. split; [done|]. simpl length.
    split_and!; [lia|lia|]. intros [|i]; simpl; [done|].
    intros Hn. destruct (Hi i Hn) as (d2 & ? & ?). exists d2. split; [done|]. by apply Hshift.
Qed.

Lemma deleteAll_lookup (ds : list (option D)) bucket prefix errs i d1 :
  length errs = length ds → ds !! i = Some (Some d1) → errs !! i = Some None →
  deleteAllXLMetadata ds bucket prefix errs !! i =
    Some (Some (DeleteFile d1 bucket (path_Join [prefix; xlMetaJSONFile])).1).
Proof.
  revert errs i. induction ds as [|od ds IH]; intros [|e errs] i Hl Hd He; try done.
  simpl in Hl. destruct i as [|i]; simpl in *.
  - simplify_eq. simpl. unfold deleteXLMetdata. by destruct (DeleteFile _ _ _).
  - destruct od as [d|], e as [e|]; simpl; apply IH; done || lia.
Qed.

Lemma writeUniqueXLMetadata_ok disks bucket prefix xlMetas quorum :
  length xlMetas = length disks → (2 ≤ quorum)%nat →
  ∃ ds metas err errs,
    writeUniqueXLMetadata disks bucket prefix xlMetas quorum = Ret (ds, metas, err) ∧
    length errs = length disks ∧
    (∀ i, errs !! i = Some None → ∃ d1, meta_written disks bucket prefix xlMetas 0 i d1 ∧
       ds !! i = Some (Some (if isDiskQuorum errs quorum then d1
                             else (DeleteFile d1 bucket (path_Join [prefix; xlMetaJSONFile])).1))) ∧
    (isDiskQuorum errs quorum = false → err = Some (Traced errXLWriteQuorum [])) ∧
    (err = None → isDiskQuorum errs quorum = true ∧
       (quorum ≤ nil_count errs)%nat).
Proof.
  intros Hl Hq. unfold writeUniqueXLMetadata.
  destruct (write_unique_ok disks bucket prefix xlMetas 0 Hl) as (ds & metas & errs & -> & Hd & He & Hi).
  cbn [mbind go_bind]. unfold write_quorum_result.
  destruct (isDiskQuorum errs quorum) eqn:Eq; simpl negb; cbv iota.
  - eexists _, _, _, errs. split; [done|]. split_and!; [done| |congruence|].
    + intros i Hn. destruct (Hi i Hn) as (d1 & ? & ?). rewrite Eq. eauto.
    + intros Hnone. split; [done|]. etransitivity; [|apply occ_nil_count].
      unfold reduceWriteQuorumErrs in Hnone.
      destruct (reduceQuorumErrs_decision errs objectOpIgnoredErrs quorum errXLWriteQuorum Hq)
        as [[? _]|[(e & _ & Hr)|[_ Hr]]]; [done|congruence..].
  - eexists _, _, _, errs. split; [done|]. split_and!; [done| |done|done].
    intros i Hn. destruct (Hi i Hn) as (d1 & Hds & Hm). exists d1. split; [done|]. rewrite Eq.
    apply deleteAll_lookup; [lia|done|done].
Qed.

Context `{!StorageContract D} `{!StorageFiles D}.

(** Reading back the metadata of a disk that had none. *)
Lemma meta_written_read disks bucket prefix xlMetas i d d1 mt :
  disks !! i = Some (Some d) → xlMetas !! i = Some mt →
  meta_written disks bucket prefix xlMetas 0 i d1 →
  file_at d bucket (path_Join [prefix; xlMetaJSONFile]) = None →
  serves d1 bucket (path_Join [prefix; xlMetaJSONFile]) →
  ∃ d2, readXLMeta d1 bucket prefix = (d2, (set_index mt (Z.of_nat i + 1), None)).
Proof.
  intros Hd Hm (d' & mt' & b & Hd' & Hm' & Hj & Ha) Hnone Hs. simplify_eq.
  assert (Hf := AppendFile_appends _ _ _ _ _ Ha). rewrite Hnone in Hf. simpl in Hf.
  destruct (ReadAll_serves _ _ _ _ Hs Hf) as (d2 & Hr). unfold readXLMeta. rewrite Hr.
  rewrite (xlMetaV1UnmarshalJSON_Marshal _ _ Hj). eexists. done.
Qed.

(** Writing the metadata of an object is all or nothing up to the quorum:
    [writeUniqueXLMetadata] returns; if it succeeds, the write of [xl.json]
    succeeded on a quorum of disks and reading it back from such a disk, if it
    had none before and serves it, gives the metadata with the disk's index;
    if fewer disks are usable than the quorum it fails with errXLWriteQuorum
    and deletes [xl.json] from every disk where the write succeeded. *)
Theorem writeUniqueXLMetadata_correct disks bucket prefix xlMetas quorum :
  length xlMetas = length disks → (2 ≤ quorum)%nat →
  let path := path_Join [prefix; xlMetaJSONFile] in
  ∃ ds metas err errs,
    writeUniqueXLMetadata disks bucket prefix xlMetas quorum = Ret (ds, metas, err) ∧
    (err = None →
       (quorum ≤ nil_count errs)%nat ∧
       ∀ i d mt, errs !! i = Some None → disks !! i = Some (Some d) → xlMetas !! i = Some mt →
         ∃ d1, ds !! i = Some (Some d1) ∧
           (file_at d bucket path = None → serves d1 bucket path →
            ∃ d2, readXLMeta d1 bucket prefix = (d2, (set_index mt (Z.of_nat i + 1), None)))) ∧
    (isDiskQuorum errs quorum = false →
       err = Some (Traced errXLWriteQuorum []) ∧
       ∀ i, errs !! i = Some None → ∃ d1, meta_written disks bucket prefix xlMetas 0 i d1 ∧
         ds !! i = Some (Some (DeleteFile d1 bucket path).1)).
Proof.
  intros Hl Hq path.
  destruct (writeUniqueXLMetadata_ok disks bucket prefix xlMetas quorum Hl Hq)
    as (ds & metas & err & errs & Heq & He & Hi & Hfail & Hok).
  exists ds, metas, err, errs. split; [done|]. split.
  - intros Hnone. destruct (Hok Hnone) as [Hdq Hcount]. split; [done|].
    intros i d mt Hn Hd Hm. destruct (Hi i Hn) as (d1 & Hw & Hds). rewrite Hdq in Hds.
    exists d1. split; [done|]. intros Hf Hs.
    by apply (meta_written_read disks bucket prefix xlMetas i d d1 mt).
  - intros Hdq. split; [auto|]. intros i Hn. destruct (Hi i Hn) as (d1 & Hw & Hds).
    rewrite Hdq in Hds. eauto.
Qed.

End WriteFacts.

(** The errors of [readAllXLMetadata] are traced, or errDiskNotFound for a
    missing disk: a bare errFileNotFound never occurs. *)
Lemma readAll_errs `{GJson, MetaJson} {D} `{!StorageAPI D} (disks : list (option D)) bucket object i (e : error) :
  (readAllXLMetadata disks bucket object).2.2 !! i = Some (Some e) →
  e = errDiskNotFound ∨ ∃ cause, e = Traced cause [].
Proof.
  revert i. induction disks as [|od disks IH]; intros i; [done|]. simpl.
  destruct (readAllXLMetadata disks bucket object) as [ds [metas errs]] eqn:E. simpl in IH.
  destruct od as [d|].
  - destruct (readXLMeta d bucket object) as [d1 [mt err]] eqn:Hr. destruct i as [|i]; simpl; [|apply IH].
    intros [= ->]. right. unfold readXLMeta in Hr.
    destruct (ReadAll _ _ _) as [d2 [b [e2|]]]; [simplify_eq/=; by eexists|].
    destruct (xlMetaV1UnmarshalJSON b) as [mt2 [e2|]]; [|done]. simplify_eq/=. by eexists.
  - destruct i as [|i]; simpl; [|apply IH]. intros [= <-]. by left.
Qed.

(** ** Witnesses *)

Definition demo_disk : MemDisk :=
  {| mem_files := ∅; mem_vols := {["b"]}; mem_offline := false |}.

(** Three of four disks are there: the metadata is written to them. *)
Lemma writeUniqueXLMetadata_correct_witness :
  ∃ ds metas errs,
    writeUniqueXLMetadata (H1 := map_order_id) [Some demo_disk; None; Some demo_disk; Some demo_disk]
      "b" "tmp" (replicate 4 xlMetaV1_zero) 3 = Ret (ds, metas, None) ∧
    (3 ≤ nil_count errs)%nat.
Proof.
  destruct (writeUniqueXLMetadata_correct (H2 := map_order_id)
    [Some demo_disk; None; Some demo_disk; Some demo_disk] "b" "tmp" (replicate 4 xlMetaV1_zero) 3)
    as (ds & metas & err & errs & Heq & Hok & _); [done|lia|].
  assert (err = None) as ->.
  { assert (Hr : ∃ ds metas, writeUniqueXLMetadata (H1 := map_order_id)
      [Some demo_disk; None; Some demo_disk; Some demo_disk]
      "b" "tmp" (replicate 4 xlMetaV1_zero) 3 = Ret (ds, metas, None)) by (do 2 eexists; vm_compute; reflexivity).
    destruct Hr as (ds' & metas' & Hr). rewrite Heq in Hr. by injection Hr. }
  exists ds, metas, errs. split; [done|]. by apply Hok.
Defined.
