(* ===== verification/XLCommon.v ===== *)
(** * Operations shared by the XL backend

    Load balanced reads, existence checks, the size of a file on a disk
    (src/cmd/xl-v1-common.go), the recursive delete (src/cmd/object-api-common.go:
    [cleanupDir]) and the delete on all disks (src/cmd/xl-v1-object.go:
    [deleteObject]). *)

From S2P Require Import Prelude.
From S2P Require Import GoErrors.
From S2P Require Import GoStrings.
From S2P Require Import Quorum.
From S2P Require Import Distribution.
From S2P Require Import XLMeta.
From S2P Require Import Storage.
From S2P Require Import Erasure.
From S2P Require Import ErasureSpec.
From S2P Require Import ErasureWrite.
From S2P Require Import ObjectNames.
From S2P Require Import DiskContract.
From S2P Require Import XLDisk.

Local Open Scope Z_scope.

Definition xlTreeWalkIgnoredErrs : list (option error) :=
  baseIgnoredErrs ++
  [Some (errDiskAccessDenied : error); Some (errVolumeNotFound : error);
   Some (errFileNotFound : error)].

Section Common.
Context {D : Type} `{!StorageAPI D}.

(** [f] on [xl.getLoadBalancedDisks()].  The slice holds the same disks as
    [xl.storageDisks]: they are put back in their places after the calls.
    [now] is [time.Now().UTC().String()]. *)
Definition balanced {A} (now : string) (disks : list (option D))
    (f : list (option D) → list (option D) * A) : go (list (option D) * A) :=
  order ← hashOrder now (zlen disks);
  lb ← getLoadBalancedDisks now disks;
  let '(lb, a) := f lb in
  disks ← getOrderedDisks order lb;
  mret (disks, a).

(** The loop of [isObject]: whether a disk has the file.  Errors other than the
    ignored ones are logged, and the loop goes on. *)
Fixpoint stat_any (disks : list (option D)) (bucket path : string) : list (option D) * bool :=
  match disks with
  | [] => ([], false)
  | None :: disks' => let '(disks', ok) := stat_any disks' bucket path in (None :: disks', ok)
  | Some disk :: disks' =>
      let '(disk, (_, err)) := StatFile disk bucket path in
      match err with
      | None => (Some disk :: disks', true)
      | Some _ => let '(disks', ok) := stat_any disks' bucket path in (Some disk :: disks', ok)
      end
  end.

Definition isObject (now : string) (disks : list (option D)) (bucket prefix : string)
    : go (list (option D) * bool) :=
  balanced now disks (λ lb, stat_any lb bucket (path_Join [prefix; xlMetaJSONFile])).

(** [now i] is the time of the [i]-th check. *)
Fixpoint parentDirIsObject (fuel : nat) (now : nat → string) (disks : list (option D))
    (bucket parent : string) : go (list (option D) * bool) :=
  match fuel with
  | O => Diverge
  | S fuel' =>
      if bool_decide (parent = ".") then Ret (disks, false)
      else
        '(disks, ok) ← isObject (now 0%nat) disks bucket parent;
        if (ok : bool) then mret (disks, true)
        else parentDirIsObject fuel' (λ i, now (S i)) disks bucket (path_Dir parent)
  end.

Definition sizeOnDisk (fileSize blockSize : Z) (dataBlocks : nat) : go Z :=
  if blockSize =? 0 then Panic
  else
    let numBlocks := fileSize `quot` blockSize in
    chunkSize ← getChunkSize blockSize dataBlocks;
    let sizeInDisk := int64_wrap (numBlocks * chunkSize) in
    let remaining := fileSize `rem` blockSize in
    if 0 <? remaining then
      last ← getChunkSize remaining dataBlocks;
      mret (int64_wrap (sizeInDisk + last))
    else mret sizeInDisk.

(** ** cleanupDir *)

(** The loop of [delFunc] over the entries of a directory. *)
Fixpoint del_entries (del : D → string → go (D * option error)) (disk : D) (paths : list string)
    : go (D * option error) :=
  match paths with
  | [] => Ret (disk, None)
  | p :: paths' =>
      '(disk, err) ← del disk p;
      match err with
      | Some e => mret (disk, Some e)
      | None => del_entries del disk paths'
      end
  end.

Fixpoint delFunc (fuel : nat) (volume : string) (disk : D) (entryPath : string)
    : go (D * option error) :=
  match fuel with
  | O => Diverge
  | S fuel' =>
      if negb (HasSuffix entryPath slashSeparator) then
        let '(disk, err) := DeleteFile disk volume entryPath in Ret (disk, traceError err [])
      else
        let '(disk, (entries, err)) := ListDir disk volume entryPath in
        if err_eqb err (Some (errFileNotFound : error)) then Ret (disk, None)
        else match err with
             | Some e => Ret (disk, traceError (Some e) [])
             | None =>
                 del_entries (delFunc fuel' volume) disk
                   ((λ entry, pathJoin [entryPath; entry]) <$> entries)
             end
  end.

Definition cleanupDir (fuel : nat) (disk : D) (volume dirPath : string) : go (D * option error) :=
  delFunc fuel volume disk (retainSlash (pathJoin [dirPath])).

(** ** deleteObject *)

(** The goroutines of [deleteObject]. *)
Fixpoint delete_all (fuel : nat) (disks : list (option D)) (bucket object : string)
    : go (list (option D) * list (option error)) :=
  match disks with
  | [] => Ret ([], [])
  | None :: disks' =>
      '(disks', dErrs) ← delete_all fuel disks' bucket object;
      mret (None :: disks', traceError (Some (errDiskNotFound : error)) [] :: dErrs)
  | Some disk :: disks' =>
      '(disk, err) ← cleanupDir fuel disk bucket object;
      let dErr := if err_eqb (errorCause err) (Some (errVolumeNotFound : error)) then None else err in
      '(disks', dErrs) ← delete_all fuel disks' bucket object;
      mret (Some disk :: disks', dErr :: dErrs)
  end.

Definition deleteObject (fuel : nat) (writeQuorum : nat) (disks : list (option D))
    (bucket object : string) : go (list (option D) * option error) :=
  '(disks, dErrs) ← delete_all fuel disks bucket object;
  if negb (isDiskQuorum dErrs writeQuorum)
  then mret (disks, traceError (Some (errXLWriteQuorum : error)) [])
  else mret (disks, None).

End Common.

(** ** Deleting a directory *)

(** The files that the deletion of the entry [x] removes. *)
Definition covers (x r : string) : Prop :=
  r = x ∨ (HasSuffix x "/" = true ∧ HasPrefix r x = true).

#[export] Instance covers_dec x r : Decision (covers x r).
Proof. unfold covers. apply _. Defined.

Section Cleanup.
Context {D : Type} `{!StorageAPI D} `{!StorageContract D} `{!Volumes D} `{!DiskContract D}.

(** The files below [s] are at most [n] elements deep. *)
Definition depth_le (d : D) (v s : string) (n : nat) : Prop :=
  ∀ r, is_Some (file_at d v (s +:+ "/" +:+ r)) → (length (Split r "/") ≤ n)%nat.

(** The files below [s] whose path satisfies [P] are gone, the others are as
    before. *)
Record removed (v s : string) (P : string → Prop) (d d' : D) : Prop := {
  removed_kept : keeps (λ v' p, ∀ r, P r → (v', p) ≠ (v, s +:+ "/" +:+ r)) d d';
  removed_gone : ∀ r, P r → file_at d' v (s +:+ "/" +:+ r) = None;
}.

(** An entry that is still there. *)
Definition entry_ok (d : D) (v s x : string) : Prop :=
  ∃ name, plain_elem name ∧
    ((x = name ∧ is_Some (file_at d v (s +:+ "/" +:+ name))) ∨
     (x = name +:+ "/" ∧ in_dir d v (s +:+ "/" +:+ name))).

Lemma slash_cancel s r1 r2 : s +:+ "/" +:+ r1 = s +:+ "/" +:+ r2 → r1 = r2.
Proof. rewrite !str_app_assoc. apply str_app_inj_l. Qed.

Lemma removed_shrinks v s P d d' r c `{!∀ r, Decision (P r)} :
  removed v s P d d' → file_at d' v (s +:+ "/" +:+ r) = Some c → file_at d v (s +:+ "/" +:+ r) = Some c ∧ ¬ P r.
Proof.
  intros [Hk Hg] Hc. destruct (decide (P r)) as [Hp|Hp]; [by rewrite Hg in Hc|].
  split; [|done]. rewrite <- Hc. symmetry. apply Hk. intros r' Hr' [= E%slash_cancel]. by subst r'.
Qed.

Lemma entry_slash name : plain_elem name → HasSuffix name "/" = false.
Proof. intros H. by apply clean_no_slash, clean_path_plain. Qed.

(** Two different entries cover different files. *)
Lemma covers_disjoint d v s x y r :
  entry_ok d v s x → entry_ok d v s y → x ≠ y → covers x r → ¬ covers y r.
Proof.
  intros (n & Hn & Hx) (n' & Hn' & Hy) Hne Hcx Hcy.
  assert (Hpre : ∀ a b q, ("/"%char ∉ bytes_of_string a) → ("/"%char ∉ bytes_of_string b) →
            HasPrefix q (a +:+ "/") = true → HasPrefix q (b +:+ "/") = true → a = b).
  { intros a b q Ha Hb [r1 H1]%HasPrefix_iff [r2 H2]%HasPrefix_iff.
    assert (E := H1). rewrite H2 in E. rewrite <- !str_app_assoc in E.
    apply (f_equal (λ s, Split s "/")) in E. rewrite !Split_slash, (Split_plain a), (Split_plain b) in E by done.
    simpl in E. by injection E. }
  assert (Hnp : ∀ a q, ("/"%char ∉ bytes_of_string q) → HasPrefix q (a +:+ "/") = false).
  { intros a q Hq. destruct (HasPrefix q (a +:+ "/")) eqn:E; [|done]. apply HasPrefix_iff in E as [r1 ->].
    exfalso. apply Hq. rewrite !bytes_of_string_app, !elem_of_app. left. right. by left. }
  assert (Hs : "/"%char ∉ bytes_of_string n) by apply Hn.
  assert (Hs' : "/"%char ∉ bytes_of_string n') by apply Hn'.
  destruct Hx as [[-> _]|[-> _]], Hy as [[-> _]|[-> _]]; unfold covers in Hcx, Hcy;
    rewrite ?entry_slash, ?HasSuffix_app in * by done.
  - destruct Hcx as [->|[? _]]; [|done]. by destruct Hcy as [->|[? _]].
  - destruct Hcx as [->|[? _]]; [|done]. destruct Hcy as [E|[_ E]]; [|by rewrite Hnp in E].
    apply Hs. rewrite E, bytes_of_string_app, elem_of_app. right. by left.
  - destruct Hcy as [->|[? _]]; [|done]. destruct Hcx as [E|[_ E]]; [|by rewrite Hnp in E].
    apply Hs'. rewrite E, bytes_of_string_app, elem_of_app. right. by left.
  - apply Hne. f_equal. apply (Hpre n n' r); try done.
    + destruct Hcx as [->|[_ ?]]; [|done]. apply HasPrefix_refl.
    + destruct Hcy as [->|[_ ?]]; [|done]. apply HasPrefix_refl.
Qed.

(** The deletion of one entry, given the deletion of directories. *)
Lemma delFunc_entry fuel v s d x :
  up d → has_vol d v → clean_path s → entry_ok d v s x → depth_le d v s fuel →
  (∀ s', clean_path s' → depth_le d v s' (fuel - 1) → (0 < fuel)%nat →
    ∃ d', delFunc fuel v d (s' +:+ "/") = Ret (d', None) ∧ up d' ∧ removed v s' (λ _, True) d d') →
  ∃ d', delFunc fuel v d (pathJoin [s +:+ "/"; x]) = Ret (d', None) ∧ up d' ∧
    removed v s (covers x) d d'.
Proof.
  intros Hup Hv Hs (name & Hn & Hx) Hdep IH.
  assert (Hns : "/"%char ∉ bytes_of_string name) by apply Hn.
  destruct (pathJoin_entry s name Hs Hn) as [E1 E2]. destruct Hx as [[-> Hf]|[-> [r Hr]]].
  - assert (Hpos : (0 < fuel)%nat).
    { specialize (Hdep name Hf). rewrite Split_plain in Hdep by done. simpl in Hdep. lia. }
    destruct fuel as [|fuel]; [lia|]. rewrite E1. cbn [delFunc]. unfold slashSeparator.
    rewrite (clean_no_slash (s +:+ "/" +:+ name)) by (apply clean_path_app; auto using clean_path_plain).
    cbn [negb]. destruct (up_DeleteFile d v _ Hup Hv Hf) as (d' & -> & Hup' & [Hkv Hkf] & Hgone).
    exists d'. split_and!; [done|done|]. split.
    + split; [done|]. intros v' p Hp. apply Hkf. apply Hp. by left.
    + intros r [->|[Hsl _]]; [done|]. by rewrite entry_slash in Hsl.
  - rewrite E2. replace (s +:+ "/" +:+ name +:+ "/") with ((s +:+ "/" +:+ name) +:+ "/")
      by (by rewrite <- !str_app_assoc).
    assert (Happ : ∀ r', (s +:+ "/" +:+ name) +:+ "/" +:+ r' = s +:+ "/" +:+ name +:+ "/" +:+ r')
      by (intros; by rewrite <- !str_app_assoc).
    assert (Hdep' : ∀ r', is_Some (file_at d v ((s +:+ "/" +:+ name) +:+ "/" +:+ r')) →
              (S (length (Split r' "/")) ≤ fuel)%nat).
    { intros r' Hr'. rewrite Happ in Hr'. specialize (Hdep _ Hr').
      rewrite Split_slash, Split_plain in Hdep by done. simpl in Hdep. lia. }
    destruct (IH (s +:+ "/" +:+ name)) as (d' & -> & Hup' & [[Hkv Hkf] Hg]).
    { apply clean_path_app. auto using clean_path_plain. }
    { intros r' Hr'. specialize (Hdep' r' Hr'). lia. }
    { specialize (Hdep' r Hr). lia. }
    exists d'. split_and!; [done|done|]. split.
    + split; [done|]. intros v' p Hp. apply Hkf. intros r' _. rewrite Happ. apply Hp. right.
      split; [apply HasSuffix_app|]. apply HasPrefix_iff. exists r'. by rewrite str_app_assoc.
    + intros r' [->|[_ [r2 ->]%HasPrefix_iff]].
      * specialize (Hg "" I). rewrite Happ in Hg. exact Hg.
      * specialize (Hg r2 I). rewrite Happ in Hg. rewrite <- str_app_assoc. exact Hg.
Qed.

Lemma removed_step v s x es d d1 d2 :
  removed v s (covers x) d d1 → removed v s (λ r, ∃ y, y ∈ es ∧ covers y r) d1 d2 →
  removed v s (λ r, ∃ y, y ∈ x :: es ∧ covers y r) d d2.
Proof.
  intros [[Hv1 Hf1] Hg1] [[Hv2 Hf2] Hg2]. split; [split|].
  - auto.
  - intros v' p Hp. rewrite Hf2, Hf1; [done| |].
    + intros r Hr. apply Hp. exists x. split; [left|done].
    + intros r (y & Hy & Hr). apply Hp. exists y. split; [by right|done].
  - intros r (y & [->|Hy]%elem_of_cons & Hr); [|eauto].
    destruct (decide (Exists (λ y, covers y r) es)) as [He|He].
    + apply Exists_exists in He. by apply Hg2.
    + rewrite Hf2, Hg1; [done..|]. intros r' (y & Hy & Hr') [= E%slash_cancel]. subst r'.
      apply He, Exists_exists. eauto.
Qed.

Lemma entry_ok_removed v s x y d d' :
  entry_ok d v s x → entry_ok d v s y → x ≠ y → removed v s (covers x) d d' → entry_ok d' v s y.
Proof.
  intros Hx Hy Hne [[_ Hkf] _]. assert (Hy' := Hy). destruct Hy' as (n & Hn & Hyy).
  assert (Hkeep : ∀ r, covers y r → file_at d' v (s +:+ "/" +:+ r) = file_at d v (s +:+ "/" +:+ r)).
  { intros r Hr. apply Hkf. intros r' Hr' [= E%slash_cancel]. subst r'.
    by apply (covers_disjoint d v s y x r Hy Hx). }
  exists n. split; [done|]. destruct Hyy as [[-> Hf]|[-> [r Hr]]].
  - left. split; [done|]. rewrite Hkeep; [done|by left].
  - right. split; [done|]. exists r. rewrite <- !str_app_assoc in *. rewrite Hkeep; [done|].
    right. split; [apply HasSuffix_app|]. apply HasPrefix_iff. exists r. by rewrite str_app_assoc.
Qed.

Lemma depth_le_removed v s P d d' s' n `{!∀ r, Decision (P r)} :
  removed v s P d d' → depth_le d v s' n → depth_le d' v s' n.
Proof.
  intros [[_ Hkf] Hg] Hd r [c Hr]. apply Hd. exists c. rewrite <- Hr. symmetry. apply Hkf.
  intros r' Hp [= E]. rewrite E in Hr. by rewrite Hg in Hr.
Qed.

Lemma del_entries_ok fuel v s :
  clean_path s →
  (∀ d s', up d → has_vol d v → clean_path s' → depth_le d v s' (fuel - 1) → (0 < fuel)%nat →
    ∃ d', delFunc fuel v d (s' +:+ "/") = Ret (d', None) ∧ up d' ∧ removed v s' (λ _, True) d d') →
  ∀ es d, up d → has_vol d v → NoDup es → (∀ x, x ∈ es → entry_ok d v s x) → depth_le d v s fuel →
  ∃ d', del_entries (delFunc fuel v) d ((λ x, pathJoin [s +:+ "/"; x]) <$> es) = Ret (d', None) ∧
    up d' ∧ removed v s (λ r, ∃ y, y ∈ es ∧ covers y r) d d'.
Proof.
  intros Hs IH. induction es as [|x es IHes]; intros d Hup Hv Hnd Hes Hdep.
  - exists d. split_and!; [done|done|]. split; [by split|]. intros r (y & Hy & _).
    by apply not_elem_of_nil in Hy.
  - apply NoDup_cons in Hnd as [Hx Hnd]. assert (Hxo : entry_ok d v s x) by (apply Hes; left).
    destruct (delFunc_entry fuel v s d x Hup Hv Hs Hxo Hdep) as (d1 & Heq & Hup1 & Hr1).
    { intros s' Hs' Hd' Hpos. by apply IH. }
    rewrite fmap_cons. cbn [del_entries]. rewrite Heq. cbn [mbind go_bind].
    destruct (IHes d1) as (d2 & -> & Hup2 & Hr2); [done| |done| | |].
    + by apply Hr1.
    + intros y Hy. apply (entry_ok_removed v s x y d); [done| |by intros ->|done]. apply Hes. by right.
    + exact (depth_le_removed v s (covers x) d d1 s fuel Hr1 Hdep).
    + exists d2. split_and!; [done|done|]. by eapply removed_step.
Qed.

(** A recursive delete removes the files below the directory, and nothing else. *)
Lemma delFunc_ok fuel v : ∀ d s,
  up d → has_vol d v → clean_path s → depth_le d v s (fuel - 1) → (0 < fuel)%nat →
  ∃ d', delFunc fuel v d (s +:+ "/") = Ret (d', None) ∧ up d' ∧ removed v s (λ _, True) d d'.
Proof.
  induction fuel as [|fuel IH]; intros d s Hup Hv Hs Hdep Hpos; [lia|].
  cbn [delFunc]. unfold slashSeparator. rewrite HasSuffix_app. cbn [negb].
  rewrite Nat.sub_succ, Nat.sub_0_r in Hdep.
  destruct (up_ListDir d v s Hup Hv) as (d1 & entries & e & -> & Hup1 & [Hkv Hkf] & [[-> Hno]|[-> Hent]]).
  - cbn. exists d1. split_and!; [done|done|]. split; [split; [done|]; intros; by apply Hkf|].
    intros r _. rewrite Hkf by done. apply eq_None_not_Some. intros Hr. apply Hno. by exists r.
  - cbn [err_eqb]. destruct (del_entries_ok fuel v s Hs) with (es := entries) (d := d1)
      as (d2 & -> & Hup2 & [[Hv2 Hf2] Hg2]).
    + intros d' s' ? ? ? ? ?. by apply IH.
    + done.
    + by apply Hkv.
    + apply Hent.
    + intros x Hx. destruct (entry_plain _ _ _ _ Hent x Hx) as (n & Hn & Hc). exists n. split; [done|].
      destruct Hc as [[-> Hf]|[-> [r Hr]]]; [left|right]; (split; [done|]).
      * by rewrite Hkf.
      * exists r. by rewrite Hkf.
    + intros r Hr. apply Hdep. by rewrite <- (Hkf v _ I).
    + exists d2. split_and!; [done|done|].
      assert (Hall : ∀ r, file_at d2 v (s +:+ "/" +:+ r) = None).
      { intros r. destruct (decide (Exists (λ y, covers y r) entries)) as [He|He].
        { apply Exists_exists in He. by apply Hg2. }
        rewrite Hf2, Hkf; [|done|].
        - apply eq_None_not_Some. intros Hr. apply He, Exists_exists.
          destruct (entry_complete _ _ _ _ Hent r Hr) as [Hin|(n & r' & -> & Hin)].
          + exists r. split; [done|]. by left.
          + exists (n +:+ "/"). split; [done|]. right. split; [apply HasSuffix_app|].
            apply HasPrefix_iff. exists r'. by rewrite str_app_assoc.
        - intros r' (y & Hy & Hr') [= E%slash_cancel]. subst r'. apply He, Exists_exists. eauto. }
      split; [|by intros].
      split; [by auto|]. intros v' p Hp. rewrite Hf2, Hkf; [done..|]. intros r _. by apply Hp.
Qed.

Lemma cleanupDir_ok fuel d v s :
  up d → has_vol d v → clean_path s → depth_le d v s fuel →
  ∃ d', cleanupDir (S fuel) d v s = Ret (d', None) ∧ up d' ∧ removed v s (λ _, True) d d'.
Proof.
  intros Hup Hv Hs Hdep. unfold cleanupDir. rewrite pathJoin_single, retainSlash_clean by done.
  apply delFunc_ok; [done..| |lia]. by rewrite Nat.sub_succ, Nat.sub_0_r.
Qed.

Lemma cleanupDir_down fuel d v s :
  down d → clean_path s → ∃ d' e, cleanupDir (S fuel) d v s = Ret (d', Some e) ∧ down d'.
Proof.
  intros Hd Hs. unfold cleanupDir. rewrite pathJoin_single, retainSlash_clean by done.
  cbn [delFunc]. unfold slashSeparator. rewrite HasSuffix_app. cbn [negb].
  destruct (down_ListDir d v (s +:+ "/") Hd) as (d' & r & e & -> & Hd' & He).
  destruct (err_eqb _ _) eqn:E; [|by eexists _, _].
  apply err_eqb_eq in E. injection E as ->. unfold disk_err, baseErrs in He.
  rewrite !elem_of_cons in He. destruct He as [?|[?|[?|?%not_elem_of_nil]]]; done.
Qed.

End Cleanup.

(** ** Disks by slot *)

(** Every element of a list of length [n] satisfies the predicate of its slot. *)
Definition slots {A} (R : nat → A → Prop) (l : list A) (n : nat) : Prop :=
  length l = n ∧ ∀ i x, l !! i = Some x → R i x.

(** The slot that a permutation of [1 .. n] names. *)
Definition blk (dist : list Z) (s : nat) : nat := Z.to_nat (dist !!! s - 1).

Definition onto (n : nat) (σ : nat → nat) : Prop :=
  (∀ s, (s < n)%nat → (σ s < n)%nat) ∧ ∀ i, (i < n)%nat → ∃ s, (s < n)%nat ∧ σ s = i.

Section Slots.
Context {D : Type}.

Lemma blk_onto dist n : dist ≡ₚ seqZ 1 (Z.of_nat n) → onto n (blk dist).
Proof.
  intros Hp. destruct (perm_seqZ_bounds _ _ Hp) as [Hb _].
  assert (Hl : length dist = n) by (rewrite Hp, length_seqZ; lia). split.
  - intros s Hs. destruct (lookup_lt_is_Some_2 dist s) as [b Hbs]; [lia|]. unfold blk.
    rewrite (list_lookup_total_correct _ _ _ Hbs). rewrite Forall_lookup in Hb. specialize (Hb s b Hbs). lia.
  - intros i Hi. assert (Hin : Z.of_nat i + 1 ∈ dist) by (rewrite Hp, elem_of_seqZ; lia).
    apply list_elem_of_lookup in Hin as [s Hs]. exists s. split.
    + apply lookup_lt_Some in Hs. lia.
    + unfold blk. rewrite (list_lookup_total_correct _ _ _ Hs). lia.
Qed.

(** The ordered disks. *)
Lemma ordered_slots dist (l : list (option D)) n R :
  dist ≡ₚ seqZ 1 (Z.of_nat n) → slots (λ s, R (blk dist s)) l n →
  ∃ r, getOrderedDisks dist l = Ret r ∧ slots R r n.
Proof.
  intros Hp [Hl HR]. destruct (perm_seqZ_bounds _ _ Hp) as [Hb Hnd].
  assert (Hd : length dist = n) by (rewrite Hp, length_seqZ; lia).
  unfold getOrderedDisks.
  destruct (scatter_spec dist l (replicate (length l) None)) as (r & -> & Hlr & Hin & _);
    [lia|unfold zlen; rewrite length_replicate, Hl; done|done|].
  rewrite length_replicate in Hlr. exists r. split; [done|]. split; [lia|]. intros i x Hx.
  assert (Hi : (i < n)%nat) by (rewrite <- Hl, <- Hlr; by eapply lookup_lt_Some).
  destruct (proj2 (blk_onto dist n Hp) i Hi) as (s & Hs & <-).
  destruct (lookup_lt_is_Some_2 dist s) as [b Hbs]; [lia|].
  destruct (lookup_lt_is_Some_2 l s) as [y Hy]; [lia|].
  specialize (Hin s b y Hbs Hy). unfold blk in Hx. rewrite (list_lookup_total_correct _ _ _ Hbs) in Hx.
  rewrite Hin in Hx. injection Hx as <-. by apply HR.
Qed.

(** The disks back in their places: [ordered[b-1]] for every [b] of [dist]. *)
Definition gather (dist : list Z) (ordered : list (option D)) : go (list (option D)) :=
  foldr (λ i rest, d ← disk_at ordered i; ds ← rest; mret (d :: ds)) (Ret []) dist.

Lemma gather_slots dist (l : list (option D)) n R :
  dist ≡ₚ seqZ 1 (Z.of_nat n) → slots R l n →
  ∃ r, gather dist l = Ret r ∧ slots (λ s, R (blk dist s)) r n.
Proof.
  intros Hp [Hl HR]. destruct (perm_seqZ_bounds _ _ Hp) as [Hb _].
  assert (Hd : length dist = n) by (rewrite Hp, length_seqZ; lia).
  unfold gather. rewrite disk_at_all by (unfold zlen; by rewrite Hl). eexists. split; [done|].
  split; [by rewrite length_fmap|]. intros s x Hx. rewrite list_lookup_fmap in Hx.
  destruct (dist !! s) as [b|] eqn:Hbs; [|done]. injection Hx as <-.
  unfold blk. rewrite (list_lookup_total_correct _ _ _ Hbs). apply HR.
  rewrite Forall_lookup in Hb. specialize (Hb s b Hbs). apply list_lookup_lookup_total_lt. lia.
Qed.

(** Calls on the load balanced disks keep every disk in its slot. *)
Lemma balanced_slots {A} now (disks : list (option D)) (f : list (option D) → list (option D) * A) n R R' Q :
  slots R disks n → 0 < Z.of_nat n < 2 ^ 32 →
  (∀ σ lb, onto n σ → slots (λ s, R (σ s)) lb n →
    ∃ lb' a, f lb = (lb', a) ∧ slots (λ s, R' (σ s)) lb' n ∧ Q a) →
  ∃ ds a, balanced now disks f = Ret (ds, a) ∧ slots R' ds n ∧ Q a.
Proof.
  intros HR Hn Hf. assert (Hl : zlen disks = Z.of_nat n) by (unfold zlen; f_equal; apply HR).
  unfold balanced. rewrite Hl. destruct (hashOrder_ret now (Z.of_nat n) Hn) as (order & Ho & Hp).
  rewrite Ho. cbn [mbind go_bind]. unfold getLoadBalancedDisks. rewrite Hl, Ho. cbn [mbind go_bind].
  fold (gather order disks). destruct (gather_slots order disks n R Hp HR) as (lb & -> & Hlb).
  cbn [mbind go_bind]. destruct (Hf _ lb (blk_onto order n Hp) Hlb) as (lb' & a & -> & Hlb' & Ha).
  destruct (ordered_slots order lb' n R' Hp Hlb') as (ds & -> & Hds). cbn [mbind go_bind]. eauto.
Qed.

End Slots.

(** ** Disks that are up, down and missing *)

Variant disk_state := DiskUp | DiskDown | DiskGone.

Section States.
Context {D : Type} `{!StorageAPI D} `{!StorageContract D} `{!Volumes D} `{!DiskContract D}.
Context (cls : nat → disk_state).

(** The disk of slot [i] is as [cls] says; if it is up it satisfies [P i]. *)
Definition slot_is (P : nat → D → Prop) (i : nat) (x : option D) : Prop :=
  match cls i, x with
  | DiskUp, Some d => up d ∧ P i d
  | DiskDown, Some d => down d
  | DiskGone, None => True
  | _, _ => False
  end.

Lemma slot_is_impl (P Q : nat → D → Prop) i x :
  (∀ d, P i d → Q i d) → slot_is P i x → slot_is Q i x.
Proof. unfold slot_is. intros HPQ. destruct (cls i), x; [intros [? ?]; eauto|done..]. Qed.

Lemma slots_impl (P Q : nat → D → Prop) ds n :
  (∀ i d, P i d → Q i d) → slots (slot_is P) ds n → slots (slot_is Q) ds n.
Proof. intros HPQ [Hl HR]. split; [done|]. intros i x Hx.
  apply (slot_is_impl P Q); [apply HPQ|by apply HR].
Qed.

Lemma slots_up (P : nat → D → Prop) ds n i :
  slots (slot_is P) ds n → (i < n)%nat → cls i = DiskUp → ∃ d, ds !! i = Some (Some d) ∧ up d ∧ P i d.
Proof.
  intros [Hl HR] Hi Hc. destruct (lookup_lt_is_Some_2 ds i) as [x Hx]; [lia|].
  specialize (HR i x Hx). unfold slot_is in HR. rewrite Hc in HR. destruct x as [d|]; [|done].
  exists d. by destruct HR.
Qed.

(** The predicate does not see calls that change no file. *)
Definition stable (P : nat → D → Prop) : Prop := ∀ i d d', P i d → same_disk d d' → P i d'.

End States.

Section Exists.
Context {D : Type} `{!StorageAPI D} `{!StorageContract D} `{!Volumes D} `{!DiskContract D}.

Lemma slots_cons {A} (R : nat → A → Prop) x l n :
  slots R (x :: l) (S n) ↔ R 0%nat x ∧ slots (λ i, R (S i)) l n.
Proof.
  split.
  - intros [Hl HR]. split; [by apply HR|]. split; [simpl in Hl; lia|]. intros i y Hy. by apply (HR (S i)).
  - intros [Hx [Hl HR]]. split; [simpl; lia|]. intros [|i] y Hy; [by injection Hy as <-|]. by apply HR.
Qed.

(** The inductions over the slots of a list of disks. *)
Lemma slots_nil_inv {A} (R : nat → A → Prop) n : slots R [] n → n = 0%nat.
Proof. by intros [Hl _]. Qed.

Lemma slots_cons_inv {A} (R : nat → A → Prop) x l n :
  slots R (x :: l) n → ∃ m, n = S m ∧ R 0%nat x ∧ slots (λ i, R (S i)) l m.
Proof.
  intros H. destruct n as [|n]; [by destruct H|]. exists n. split; [done|]. by apply slots_cons.
Qed.

(** [has i] tells whether the disk of slot [i] has the file. *)
Lemma stat_any_ok bucket path : ∀ lb n cls (P : nat → D → Prop) (has : nat → Prop),
  slots (slot_is cls P) lb n → stable P →
  (∀ i d, P i d → has_vol d bucket ∧ (is_Some (file_at d bucket path) ↔ has i)) →
  ∃ lb' ok, stat_any lb bucket path = (lb', ok) ∧ slots (slot_is cls P) lb' n ∧
    (ok = true ↔ ∃ i, (i < n)%nat ∧ cls i = DiskUp ∧ has i).
Proof.
  induction lb as [|x lb IH]; intros n cls P has [Hl HR] Hst Hhas.
  { exists [], false. simpl in Hl. subst n. split_and!; [done|by split|].
    split; [done|]. intros (i & Hi & _). lia. }
  simpl in Hl. destruct n as [|n]; [done|].
  assert (HR0 : slots (slot_is cls P) (x :: lb) (S n)) by (by split; simpl; lia || auto).
  apply slots_cons in HR0 as [Hx Hrest].
  destruct (IH n (λ i, cls (S i)) (λ i, P (S i)) (λ i, has (S i)) Hrest)
    as (lb' & ok & Heq & Hlb' & Hok).
  { intros i d d'. apply Hst. } { intros i d. apply Hhas. }
  assert (Hskip : ∀ y, slot_is cls P 0 y → (cls 0%nat = DiskUp → ¬ has 0%nat) →
    slots (slot_is cls P) (y :: lb') (S n) ∧
    (ok = true ↔ ∃ i, (i < S n)%nat ∧ cls i = DiskUp ∧ has i)).
  { intros y Hy Hno. split; [by apply slots_cons|]. rewrite Hok. split.
    - intros (i & ? & ? & ?). exists (S i). split_and!; [lia|done|done].
    - intros ([|i] & ? & ? & ?); [by destruct Hno|]. exists i. split_and!; [lia|done|done]. }
  cbn [stat_any]. destruct x as [d|].
  2: { rewrite Heq. eexists _, _. split; [done|]. apply Hskip; [done|].
       unfold slot_is in Hx. destruct (cls 0%nat); done. }
  unfold slot_is in Hx. destruct (cls 0%nat) eqn:Hc; [| |done].
  - destruct Hx as [Hup HP]. destruct (Hhas _ _ HP) as [Hv Hh].
    destruct (up_StatFile d bucket path Hup Hv) as (d' & i & e & -> & Hup' & Hsame & He).
    assert (Hd' : slot_is cls P 0 (Some d')) by (unfold slot_is; rewrite Hc; eauto).
    destruct e as [e|].
    + rewrite Heq. eexists _, _. split; [done|]. apply Hskip; [done|].
      intros _ Hn. apply Hh, He in Hn. done.
    + eexists _, _. split; [done|]. split; [by apply slots_cons|]. split; [|done]. intros _.
      exists 0%nat. split_and!; [lia|done|]. by apply Hh, He.
  - destruct (down_StatFile d bucket path Hx) as (d' & i & e & -> & Hd').
    rewrite Heq. eexists _, _. split; [done|]. apply Hskip; [|done]. unfold slot_is. by rewrite Hc.
Qed.

Context (cls : nat → disk_state) (n : nat) (n_pos : 0 < Z.of_nat n < 2 ^ 32).

Lemma isObject_ok now (disks : list (option D)) bucket prefix (P : nat → D → Prop) (has : nat → Prop) :
  slots (slot_is cls P) disks n → stable P →
  (∀ i d, P i d → has_vol d bucket ∧
     (is_Some (file_at d bucket (path_Join [prefix; xlMetaJSONFile])) ↔ has i)) →
  ∃ ds ok, isObject now disks bucket prefix = Ret (ds, ok) ∧ slots (slot_is cls P) ds n ∧
    (ok = true ↔ ∃ i, (i < n)%nat ∧ cls i = DiskUp ∧ has i).
Proof.
  intros HR Hst Hhas. unfold isObject.
  apply (balanced_slots now disks _ n (slot_is cls P) (slot_is cls P)); [done|done|].
  intros σ lb [Hσ1 Hσ] Hlb.
  destruct (stat_any_ok bucket (path_Join [prefix; xlMetaJSONFile]) lb n (λ s, cls (σ s)) (λ s, P (σ s))
              (λ s, has (σ s)) Hlb) as (lb' & ok & -> & Hlb' & Hok).
  { intros i d d'. apply Hst. } { intros i d. apply Hhas. }
  eexists _, _. split_and!; [done|done|]. rewrite Hok. split.
  - intros (s & Hs & ? & ?). eexists. split_and!; [|done..]. by apply Hσ1.
  - intros (i & Hi & ? & ?). destruct (Hσ i Hi) as (s & ? & <-). eauto.
Qed.

End Exists.

(** ** The first answer *)

Section FirstAnswer.
Context {D : Type} `{!StorageAPI D} `{!StorageContract D} `{!Volumes D} `{!DiskContract D} {A : Type}.
Context (ignored : list (option error)) (read : D → D * (A * option error)) (zero : A) (good : A → Prop).

(** A disk that is up answers, and the errors of the others are ignored. *)
Lemma first_answer_ok : ∀ (lb : list (option D)) err n cls (P : nat → D → Prop),
  slots (slot_is cls P) lb n → stable P →
  (∀ i d, up d → P i d → ∃ d' a, read d = (d', (a, None)) ∧ up d' ∧ same_disk d d' ∧ good a) →
  (∀ d, down d → ∃ d' a e, read d = (d', (a, Some e)) ∧ down d' ∧ isErrIgnored (Some e) ignored = true) →
  (∃ i, (i < n)%nat ∧ cls i = DiskUp) →
  ∃ lb' a, first_answer ignored read zero lb err = (lb', (a, None)) ∧ slots (slot_is cls P) lb' n ∧ good a.
Proof.
  induction lb as [|x lb IH]; intros err n cls P HR Hst Hu Hd (i & Hi & Hup).
  { apply slots_nil_inv in HR as ->. lia. }
  apply slots_cons_inv in HR as (m & -> & Hx & HR). cbn [first_answer].
  assert (Hrest : cls 0%nat ≠ DiskUp → ∀ err', ∃ lb' a, first_answer ignored read zero lb err' = (lb', (a, None)) ∧
    slots (slot_is (λ i, cls (S i)) (λ i, P (S i))) lb' m ∧ good a).
  { intros Hne err'. apply IH; [done|intros j d d'; apply Hst|intros j d; apply Hu|done|].
    destruct i as [|i]; [done|]. exists i. split; [lia|done]. }
  unfold slot_is in Hx. destruct (cls 0%nat) eqn:Hc; destruct x as [d|]; try done.
  - destruct Hx as [Hud HP]. destruct (Hu _ _ Hud HP) as (d' & a & -> & Hud' & Hs & Ha).
    eexists _, _. split_and!; [done| |done]. apply slots_cons. split; [|done]. unfold slot_is. rewrite Hc. eauto.
  - destruct (Hd d Hx) as (d' & a & e & -> & Hd' & ->).
    destruct (Hrest ltac:(done) (Some e)) as (lb' & a' & -> & Hlb' & Ha).
    eexists _, _. split_and!; [done| |done]. apply slots_cons. split; [|done]. unfold slot_is. by rewrite Hc.
  - destruct (Hrest ltac:(done) err) as (lb' & a' & -> & Hlb' & Ha).
    eexists _, _. split_and!; [done| |done]. apply slots_cons. split; [|done]. unfold slot_is. by rewrite Hc.
Qed.

Lemma balanced_first_ok now (ds : list (option D)) n cls (P : nat → D → Prop) :
  slots (slot_is cls P) ds n → stable P →
  (∀ i d, up d → P i d → ∃ d' a, read d = (d', (a, None)) ∧ up d' ∧ same_disk d d' ∧ good a) →
  (∀ d, down d → ∃ d' a e, read d = (d', (a, Some e)) ∧ down d' ∧ isErrIgnored (Some e) ignored = true) →
  (∃ i, (i < n)%nat ∧ cls i = DiskUp) → 0 < Z.of_nat n < 2 ^ 32 →
  ∃ ds' a, balanced now ds (λ lb, first_answer ignored read zero lb None) = Ret (ds', (a, None)) ∧
    slots (slot_is cls P) ds' n ∧ good a.
Proof.
  intros HR Hst Hu Hd (i & Hi & Hup) Hn.
  destruct (balanced_slots now ds (λ lb, first_answer ignored read zero lb None) n (slot_is cls P) (slot_is cls P)
    (λ a, a.2 = None ∧ good a.1) HR Hn) as (ds' & [a e] & -> & Hds & He & Ha).
  - intros σ lb [_ Hσ] Hlb. destruct (Hσ i Hi) as (s & Hs & <-).
    destruct (first_answer_ok lb None n (λ s, cls (σ s)) (λ s, P (σ s)) Hlb) as (lb' & a & -> & Hlb' & Ha);
      [intros j d d'; apply Hst|intros j d; apply Hu|done|by exists s|]. eexists _, _. by split_and!.
  - simpl in He, Ha. subst e. by eexists _, _.
Qed.

End FirstAnswer.

(** ** Parent directories *)

Lemma path_Dir_clean s e : clean_path s → plain_elem e → path_Dir (s +:+ "/" +:+ e) = s.
Proof.
  intros Hs He. unfold path_Dir, path_Split_dir.
  change (bytes_of_string "/") with ["/"%char]. rewrite !bytes_of_string_app.
  change (bytes_of_string "/" ++ ?x) with ("/"%char :: x).
  rewrite rev_app_distr. cbn [rev]. rewrite <- app_assoc. cbn [app].
  rewrite index_char_found by (rewrite list_elem_of_In, <- in_rev, <- list_elem_of_In; apply He).
  rewrite length_rev, length_app, length_cons.
  replace (length (bytes_of_string s) + S (length (bytes_of_string e)) - length (bytes_of_string e))%nat
    with (length (bytes_of_string s ++ ["/"%char])) by (rewrite length_app; simpl; lia).
  rewrite (cons_middle "/"%char _ (bytes_of_string e)), (app_assoc _ _ (bytes_of_string e)), take_app_length.
  assert (string_of_bytes (bytes_of_string s ++ ["/"%char]) = s +:+ "/" +:+ "") as ->.
  { apply bytes_of_string_inj. by rewrite bytes_string_bytes, !bytes_of_string_app. }
  rewrite path_Clean_filter; [|done|by constructor; [left|constructor]].
  rewrite filter_app, filter_clean by done. rewrite Split_empty.
  change (filter (λ e0 : string, e0 ≠ "") [""]) with (@nil string). rewrite app_nil_r. apply Join_Split.
Qed.

Lemma path_Dir_plain e : plain_elem e → path_Dir e = ".".
Proof.
  intros He. unfold path_Dir, path_Split_dir. change (bytes_of_string "/") with ["/"%char].
  rewrite index_char_absent; [done|]. rewrite list_elem_of_In, <- in_rev, <- list_elem_of_In. apply He.
Qed.

(** A clean path is an element, or a clean path and an element. *)
Lemma clean_path_last p :
  clean_path p → plain_elem p ∨ ∃ s e, p = s +:+ "/" +:+ e ∧ clean_path s ∧ plain_elem e ∧
    length (Split p "/") = S (length (Split s "/")).
Proof.
  intros Hp. destruct (Split p "/") as [|e es _] eqn:E using rev_ind; [by apply Split_ne in E|].
  assert (Hp' := Hp). unfold clean_path in Hp'. rewrite E in Hp'.
  apply Forall_app in Hp' as [Hes [He _]%Forall_cons]. destruct es as [|e1 es].
  - left. rewrite <- (Join_Split p), E. done.
  - right. exists (Join (e1 :: es) "/"), e.
    assert (Hj : p = Join (e1 :: es) "/" +:+ "/" +:+ e).
    { rewrite <- (Join_Split p), E. by rewrite Join_app. }
    split; [done|]. assert (Hc : clean_path (Join (e1 :: es) "/")).
    { rewrite Hj in Hp. by apply clean_path_app in Hp as [? _]. }
    split_and!; [done|done|]. rewrite Hj, Split_slash, (Split_plain e) in E by apply He.
    apply app_inj_2 in E as [-> _]; [|done]. rewrite length_app. simpl. lia.
Qed.

(** [a] is [p] or a directory above [p]. *)
Definition ancestor (a p : string) : Prop := a = p ∨ ∃ r, p = a +:+ "/" +:+ r.

Section Parents.
Context {D : Type} `{!StorageAPI D} `{!StorageContract D} `{!Volumes D} `{!DiskContract D}.
Context (cls : nat → disk_state) (n : nat) (n_pos : 0 < Z.of_nat n < 2 ^ 32).
Context (P : nat → D → Prop) (P_stable : stable P) (bucket : string).
Context (P_vol : ∀ i d, P i d → has_vol d bucket).

(** No directory on the way to [p] is an object. *)
Definition no_object_above (p : string) : Prop :=
  ∀ a i d, ancestor a p → P i d → file_at d bucket (a +:+ "/" +:+ xlMetaJSONFile) = None.

Lemma xlMetaJSON_plain : plain_elem xlMetaJSONFile.
Proof. unfold plain_elem. split_and!; try done. by apply (bool_decide_unpack _); vm_compute. Qed.

Lemma parentDirIsObject_step fuel now (disks : list (option D)) p :
  slots (slot_is cls P) disks n → clean_path p → no_object_above p →
  ∃ ds, slots (slot_is cls P) ds n ∧
    parentDirIsObject (S fuel) now disks bucket p =
      parentDirIsObject fuel (λ i, now (S i)) ds bucket (path_Dir p).
Proof.
  intros HR Hp Hno. cbn [parentDirIsObject]. rewrite bool_decide_false.
  2: { intros ->. by apply Forall_cons in Hp as [(_ & ? & _) _]. }
  destruct (isObject_ok cls n n_pos (now 0%nat) disks bucket p P (λ _, False) HR P_stable)
    as (ds & ok & -> & Hds & Hok).
  { intros i d HP. split; [by eapply P_vol|].
    rewrite path_Join_clean by (done || apply clean_path_plain, xlMetaJSON_plain).
    rewrite (Hno p i d) by (done || by left). split; [by intros []|done]. }
  exists ds. split; [done|]. cbn [mbind go_bind]. destruct ok; [|done].
  destruct (proj1 Hok eq_refl) as (? & _ & _ & []).
Qed.

Lemma parentDirIsObject_ok fuel : ∀ now (disks : list (option D)) p,
  slots (slot_is cls P) disks n →
  (p = "." ∧ (0 < fuel)%nat) ∨
    (clean_path p ∧ no_object_above p ∧ (length (Split p "/") < fuel)%nat) →
  ∃ ds, parentDirIsObject fuel now disks bucket p = Ret (ds, false) ∧ slots (slot_is cls P) ds n.
Proof.
  induction fuel as [|fuel IH]; intros now disks p HR Hp; [lia|].
  destruct Hp as [[-> _]|(Hp & Hno & Hf)]; [by eexists|].
  destruct (parentDirIsObject_step fuel now disks p HR Hp Hno) as (ds & Hds & ->).
  destruct (clean_path_last p Hp) as [He|(s & e & -> & Hs & He & Hlen)].
  - rewrite path_Dir_plain by done. apply IH; [done|left].
    rewrite Split_plain in Hf by apply He. simpl in Hf. split; [done|lia].
  - rewrite path_Dir_clean by done. apply IH; [done|]. right. split_and!; [done| |lia].
    intros a i d Ha HP. apply (Hno a i d); [|done]. right. destruct Ha as [->|[r ->]]; [by exists e|].
    exists (r +:+ "/" +:+ e). by rewrite <- !str_app_assoc.
Qed.

End Parents.

(** ** Operations on every disk *)

Definition is_up (c : disk_state) : bool := match c with DiskUp => true | _ => false end.

Section Every.
Context {D : Type} `{!StorageAPI D} `{!StorageContract D} `{!Volumes D} `{!DiskContract D}.

(** The disks that are up report no error. *)
Definition up_nil (cls : nat → disk_state) (errs : list (option error)) (n : nat) : Prop :=
  length errs = n ∧ ∀ i, (i < n)%nat → cls i = DiskUp → errs !! i = Some None.

Lemma up_nil_cons cls e errs n :
  (cls 0%nat = DiskUp → e = None) → up_nil (λ i, cls (S i)) errs n → up_nil cls (e :: errs) (S n).
Proof.
  intros He [Hl Hn]. split; [simpl; lia|]. intros [|i] Hi Hc; [by rewrite He|]. apply Hn; [lia|done].
Qed.

Lemma delete_all_ok fuel v s : clean_path s →
  ∀ (ds : list (option D)) n cls (P : nat → D → Prop), slots (slot_is cls P) ds n →
  (∀ i d, P i d → has_vol d v ∧ depth_le d v s fuel) →
  ∃ ds' errs, delete_all (S fuel) ds v s = Ret (ds', errs) ∧
    slots (slot_is cls (λ i d', ∃ d, P i d ∧ removed v s (λ _, True) d d')) ds' n ∧ up_nil cls errs n.
Proof.
  intros Hs. induction ds as [|x ds IH]; intros n cls P HR HP.
  { apply slots_nil_inv in HR as ->. exists [], []. split_and!; [done|by split|]. split; [done|lia]. }
  apply slots_cons_inv in HR as (m & -> & Hx & HR).
  destruct (IH m (λ i, cls (S i)) (λ i, P (S i)) HR) as (ds' & errs & Heq & Hds & Hn); [intros i d Hd; by apply (HP (S i))|].
  cbn [delete_all]. destruct x as [d|].
  2: { rewrite Heq. cbn [mbind go_bind]. eexists _, _. split; [done|]. split.
       - apply slots_cons. split; [|done]. unfold slot_is in *. by destruct (cls 0%nat).
       - apply up_nil_cons; [|done]. unfold slot_is in Hx. by destruct (cls 0%nat). }
  unfold slot_is in Hx. destruct (cls 0%nat) eqn:Hc; [| |done].
  - destruct Hx as [Hup Hd]. destruct (HP _ _ Hd) as [Hv Hdep].
    destruct (cleanupDir_ok fuel d v s Hup Hv Hs Hdep) as (d' & -> & Hup' & Hr).
    cbn [mbind go_bind]. rewrite Heq. cbn [mbind go_bind]. eexists _, _. split; [done|]. split.
    + apply slots_cons. split; [|done]. unfold slot_is. rewrite Hc. eauto.
    + by apply up_nil_cons.
  - destruct (cleanupDir_down fuel d v s Hx Hs) as (d' & e & -> & Hd').
    cbn [mbind go_bind]. rewrite Heq. cbn [mbind go_bind]. eexists _, _. split; [done|]. split.
    + apply slots_cons. split; [|done]. unfold slot_is. by rewrite Hc.
    + apply up_nil_cons; [congruence|done].
Qed.

End Every.

(** With a quorum of disks that are up, the errors are within the quorum. *)
Lemma up_quorum `{MapOrder} cls errs n wq :
  up_nil cls errs n → (2 ≤ wq)%nat → (n < 2 * wq)%nat →
  (wq ≤ count_good (λ i, is_up (cls i)) n)%nat →
  isDiskQuorum errs wq = true ∧ reduceWriteQuorumErrs errs objectOpIgnoredErrs wq = None.
Proof.
  intros [Hl Hn] Hq Hm Hc. apply (appendFile_quorum (λ i, is_up (cls i))); [done|lia|by rewrite Hl|].
  intros i Hi Hu. apply Hn; [lia|]. by destruct (cls i).
Qed.

(** ** Uniform votes

    The disks that are up report the same outcome, the others report that they
    are unavailable. *)

Definition outcome (cls : nat → disk_state) (x : option error) (i : nat) (e : option error) : Prop :=
  match cls i with
  | DiskUp => errorCause e = x
  | _ => disk_err (errorCause e)
  end.

Lemma count_good_S good n :
  count_good good (S n) = ((if good 0%nat then 1 else 0) + count_good (λ i, good (S i)) n)%nat.
Proof.
  unfold count_good. cbn [seq]. rewrite filter_cons, <- fmap_S_seq, filter_fmap.
  destruct (good 0%nat); [rewrite decide_True by done|rewrite decide_False by done]; simpl;
    by rewrite length_fmap.
Qed.

Lemma uniform_votes ign x : isErrIgnored x ign = false → errorCause x = x →
  (∀ e, disk_err e → isErrIgnored e ign = true) →
  ∀ errs n cls, slots (outcome cls x) errs n →
  votes ign errs = replicate (count_good (λ i, is_up (cls i)) n) x.
Proof.
  intros Hx Hc Hd. induction errs as [|e errs IH]; intros n cls HR.
  { by apply slots_nil_inv in HR as ->. }
  apply slots_cons_inv in HR as (m & -> & He & HR). rewrite count_good_S.
  unfold votes. change (errorsCause (e :: errs)) with
    (match e with Some _ => errorCause e | None => None end :: errorsCause errs).
  replace (match e with Some _ => errorCause e | None => None end) with (errorCause e) by (by destruct e).
  rewrite filter_cons. fold (votes ign errs).
  rewrite (IH m (λ i, cls (S i)) HR). unfold outcome in He. destruct (cls 0%nat); simpl.
  - rewrite He, decide_True by done. done.
  - rewrite decide_False by (rewrite Hd; done). done.
  - rewrite decide_False by (rewrite Hd; done). done.
Qed.

Lemma occ_replicate x n : err_eqb x x = true → occ x (replicate n x) = n.
Proof. intros Hx. induction n as [|n IH]; [done|]. simpl. rewrite occ_cons, IH, Hx. lia. Qed.

Lemma disk_err_ignored e ign :
  (∀ b, b ∈ baseErrs → b ∈ ign) → disk_err e → isErrIgnored e ign = true.
Proof.
  intros Hin He. assert (Hi : e ∈ ign) by (by apply Hin). unfold isErrIgnored.
  apply existsb_exists. exists e. split; [by apply list_elem_of_In|].
  unfold disk_err, baseErrs in He. rewrite !elem_of_cons in He.
  destruct He as [->|[->|[->|?%not_elem_of_nil]]]; done.
Qed.

Lemma base_in_quorumIgnored b : b ∈ baseErrs → b ∈ quorumIgnoredErrs.
Proof. intros Hb. apply elem_of_app. by left. Qed.

Lemma uniform_quorum x errs n cls wq :
  isErrIgnored x quorumIgnoredErrs = false → errorCause x = x → slots (outcome cls x) errs n →
  isDiskQuorum errs wq = (wq <=? count_good (λ i, is_up (cls i)) n)%nat.
Proof.
  intros Hx Hc HR. apply eq_true_iff_eq. rewrite isDiskQuorum_count, Nat.leb_le.
  rewrite (uniform_votes _ x Hx Hc) with (n := n) (cls := cls); [by rewrite length_replicate| |done].
  intros e. apply disk_err_ignored, base_in_quorumIgnored.
Qed.

(** The reduction of uniform votes is the outcome. *)
Lemma uniform_reduce `{MapOrder} ign x errs n cls wq :
  isErrIgnored x ign = false → errorCause x = x → err_eqb x x = true → (∀ b, b ∈ baseErrs → b ∈ ign) →
  slots (outcome cls x) errs n → (2 ≤ wq)%nat → (wq ≤ count_good (λ i, is_up (cls i)) n)%nat →
  reduceWriteQuorumErrs errs ign wq = match x with None => None | Some e => Some (Traced e errs) end.
Proof.
  intros Hx Hc Hr Hb HR Hq Hn. unfold reduceWriteQuorumErrs.
  assert (Hv : votes ign errs = replicate (count_good (λ i, is_up (cls i)) n) x).
  { apply uniform_votes; [done|done| |done]. intros e. by apply disk_err_ignored. }
  assert (Hocc : ∀ y, (wq ≤ occ y (votes ign errs))%nat → y = x).
  { intros y Hy. rewrite Hv in Hy. unfold occ in Hy.
    destruct (filter _ _) as [|z l] eqn:E in Hy; [simpl in Hy; lia|].
    assert (Hz : z ∈ z :: l) by left. rewrite <- E in Hz.
    apply list_elem_of_filter in Hz as [Hz [-> _]%elem_of_replicate]. by apply err_eqb_eq. }
  destruct (reduceQuorumErrs_decision errs ign wq errXLWriteQuorum Hq) as [[Ho ->]|[(e & Ho & ->)|[Ho _]]].
  - by rewrite <- (Hocc None Ho).
  - by rewrite <- (Hocc (Some e) Ho).
  - specialize (Ho x). rewrite Hv, occ_replicate in Ho by done. lia.
Qed.
