(* ===== verification/XLBucket.v ===== *)
(** * Buckets of the XL backend

    src/cmd/xl-v1-bucket.go: a bucket is a volume on every disk.  Operations
    take the disks and return them; the goroutines work on one disk and one
    slot each, so the loops run them in order. *)

From S2P Require Import Prelude.
From S2P Require Import GoErrors.
From S2P Require Import GoStrings.
From S2P Require Import Quorum.
From S2P Require Import Storage.
From S2P Require Import ErasureSpec.
From S2P Require Import ErasureWrite.
From S2P Require Import ObjectNames.
From S2P Require Import DiskContract.
From S2P Require Import XLDisk.
From S2P Require Import XLCommon.

Local Open Scope Z_scope.

Definition bucketOpIgnoredErrs : list (option error) :=
  baseIgnoredErrs ++ [Some (errDiskAccessDenied : error)].

Definition bucketMetadataOpIgnoredErrs : list (option error) :=
  bucketOpIgnoredErrs ++ [Some (errVolumeNotFound : error)].

Record BucketInfo := { BucketName : string; BucketCreated : Z }.

Definition BucketInfo_zero : BucketInfo := {| BucketName := ""; BucketCreated := 0 |}.

Section Buckets.
Context `{MapOrder} {D : Type} `{!StorageAPI D}.

(** ** MakeBucket *)

Fixpoint make_vols (disks : list (option D)) (bucket : string)
    : list (option D) * list (option error) :=
  match disks with
  | [] => ([], [])
  | disk :: disks' =>
      let '(disk, dErr) :=
        match disk with
        | None => (None, traceError (Some (errDiskNotFound : error)) [])
        | Some d => let '(d, err) := MakeVol d bucket in (Some d, traceError err [])
        end in
      let '(disks', dErrs) := make_vols disks' bucket in
      (disk :: disks', dErr :: dErrs)
  end.

Definition undoDeleteBucket (disks : list (option D)) (bucket : string) : list (option D) :=
  map (option_map (λ d : D, (MakeVol d bucket).1)) disks.

Definition undoMakeBucket (disks : list (option D)) (bucket : string) : list (option D) :=
  map (option_map (λ d : D, (DeleteVol d bucket).1)) disks.

Definition MakeBucket (writeQuorum : nat) (disks : list (option D)) (bucket : string)
    : list (option D) * option error :=
  if negb (IsValidBucketName bucket)
  then (disks, traceError (Some (BucketNameInvalid bucket "" : error)) [])
  else
    let '(disks, dErrs) := make_vols disks bucket in
    if negb (isDiskQuorum dErrs writeQuorum)
    then (undoMakeBucket disks bucket,
          toObjectErr (traceError (Some (errXLWriteQuorum : error)) []) [bucket])
    else
      match reduceWriteQuorumErrs dErrs bucketOpIgnoredErrs writeQuorum with
      | Some reducedErr => (disks, toObjectErr (Some reducedErr) [bucket])
      | None => (disks, None)
      end.

(** ** GetBucketInfo *)

Definition stat_bucket (bucketName : string) (disk : D) : D * (BucketInfo * option error) :=
  let '(disk, (volInfo, err)) := StatVol disk bucketName in
  match err with
  | None => (disk, ({| BucketName := VolName volInfo; BucketCreated := VolCreated volInfo |}, None))
  | Some e => (disk, (BucketInfo_zero, traceError (Some e) []))
  end.

Definition getBucketInfo (now : string) (disks : list (option D)) (bucketName : string)
    : go (list (option D) * (BucketInfo * option error)) :=
  balanced now disks (λ lb,
    first_answer bucketMetadataOpIgnoredErrs (stat_bucket bucketName) BucketInfo_zero lb None).

Definition GetBucketInfo (now : string) (disks : list (option D)) (bucket : string)
    : go (list (option D) * (BucketInfo * option error)) :=
  if negb (IsValidBucketName bucket)
  then Ret (disks, (BucketInfo_zero, Some (BucketNameInvalid bucket "" : error)))
  else
    '(disks, (bucketInfo, err)) ← getBucketInfo now disks bucket;
    match err with
    | Some e => mret (disks, (BucketInfo_zero, toObjectErr (Some e) [bucket]))
    | None => mret (disks, (bucketInfo, None))
    end.

(** ** ListBuckets *)

(** The buckets among the volumes of a disk. *)
Definition bucket_infos (volsInfo : list VolInfo) : list BucketInfo :=
  (λ v, {| BucketName := VolName v; BucketCreated := VolCreated v |}) <$>
    filter (λ v, IsValidBucketName (VolName v) = true ∧ VolName v ≠ minioMetaBucket) volsInfo.

Fixpoint list_buckets (disks : list (option D)) (err : option error)
    : list (option D) * (list BucketInfo * option error) :=
  match disks with
  | [] => ([], ([], err))
  | None :: disks' => let '(disks', r) := list_buckets disks' err in (None :: disks', r)
  | Some disk :: disks' =>
      let '(disk, (volsInfo, err)) := ListVols disk in
      match err with
      | None =>
          match bucket_infos volsInfo with
          | [] => let '(disks', r) := list_buckets disks' None in (Some disk :: disks', r)
          | bucketsInfo => (Some disk :: disks', (bucketsInfo, None))
          end
      | Some e =>
          if isErrIgnored err bucketMetadataOpIgnoredErrs
          then let '(disks', r) := list_buckets disks' err in (Some disk :: disks', r)
          else (Some disk :: disks', ([], err))
      end
  end.

Definition listBuckets (now : string) (disks : list (option D))
    : go (list (option D) * (list BucketInfo * option error)) :=
  balanced now disks (λ lb, list_buckets lb None).

Definition byBucketName (a b : BucketInfo) : Prop := str_le (BucketName a) (BucketName b).

#[global] Instance byBucketName_dec : RelDecision byBucketName.
Proof. intros a b. apply str_le_dec. Defined.

Definition ListBuckets (now : string) (disks : list (option D))
    : go (list (option D) * (list BucketInfo * option error)) :=
  '(disks, (bucketInfos, err)) ← listBuckets now disks;
  match err with
  | Some e => mret (disks, ([], toObjectErr (Some e) []))
  | None => mret (disks, (merge_sort byBucketName bucketInfos, None))
  end.

(** ** DeleteBucket *)

(** The goroutine of one disk: the volume, then the incomplete uploads. *)
Definition delete_vol (fuel : nat) (disk : D) (bucket : string) : go (D * option error) :=
  let '(disk, err) := DeleteVol disk bucket in
  match err with
  | Some e => Ret (disk, traceError (Some e) [])
  | None =>
      '(disk, err) ← cleanupDir fuel disk minioMetaMultipartBucket bucket;
      if err_eqb (errorCause err) (Some (errVolumeNotFound : error)) then mret (disk, None)
      else mret (disk, err)
  end.

Fixpoint delete_vols (fuel : nat) (disks : list (option D)) (bucket : string)
    : go (list (option D) * list (option error)) :=
  match disks with
  | [] => Ret ([], [])
  | None :: disks' =>
      '(disks', dErrs) ← delete_vols fuel disks' bucket;
      mret (None :: disks', traceError (Some (errDiskNotFound : error)) [] :: dErrs)
  | Some disk :: disks' =>
      '(disk, dErr) ← delete_vol fuel disk bucket;
      '(disks', dErrs) ← delete_vols fuel disks' bucket;
      mret (Some disk :: disks', dErr :: dErrs)
  end.

Definition DeleteBucket (fuel writeQuorum : nat) (disks : list (option D)) (bucket : string)
    : go (list (option D) * option error) :=
  if negb (IsValidBucketName bucket) then Ret (disks, Some (BucketNameInvalid bucket "" : error))
  else
    '(disks, dErrs) ← delete_vols fuel disks bucket;
    if negb (isDiskQuorum dErrs writeQuorum)
    then mret (undoDeleteBucket disks bucket,
               toObjectErr (traceError (Some (errXLWriteQuorum : error)) []) [bucket])
    else
      match reduceWriteQuorumErrs dErrs bucketOpIgnoredErrs writeQuorum with
      | Some reducedErr => mret (disks, toObjectErr (Some reducedErr) [bucket])
      | None => mret (disks, None)
      end.

End Buckets.

(** ** Facts *)

Section Facts.
Context `{MapOrder} {D : Type} `{!StorageAPI D} `{!StorageContract D} `{!Volumes D} `{!DiskContract D}.
Context (bucket : string) (bucket_valid : IsValidBucketName bucket = true).

Lemma but_vol_trans (d d1 d2 : D) : but_vol bucket d d1 → but_vol bucket d1 d2 → but_vol bucket d d2.
Proof.
  intros [Hv1 Hf1] [Hv2 Hf2]. split; intros.
  - rewrite Hv2, Hv1 by done. done.
  - by rewrite Hf2.
Qed.

(** [had] tells whether the disks have the bucket before. *)
Lemma make_vols_ok (had : bool) : ∀ (ds : list (option D)) n cls (P : nat → D → Prop),
  slots (slot_is cls P) ds n → (∀ i d, P i d → has_vol d bucket ↔ had = true) →
  ∃ ds' errs, make_vols ds bucket = (ds', errs) ∧
    slots (slot_is cls (λ i d', ∃ d, P i d ∧ but_vol bucket d d' ∧ has_vol d' bucket)) ds' n ∧
    slots (outcome cls (if had then Some (errVolumeExists : error) else None)) errs n.
Proof.
  induction ds as [|x ds IH]; intros n cls P HR Hhad.
  { apply slots_nil_inv in HR as ->. exists [], []. by split_and!; [|split..]. }
  apply slots_cons_inv in HR as (m & -> & Hx & HR).
  destruct (IH m (λ i, cls (S i)) (λ i, P (S i)) HR) as (ds' & errs & Heq & Hds & He).
  { intros i d. apply (Hhad (S i)). }
  assert (Hcons : ∀ y e, slot_is cls (λ i d', ∃ d, P i d ∧ but_vol bucket d d' ∧ has_vol d' bucket) 0 y →
    outcome cls (if had then Some (errVolumeExists : error) else None) 0 e →
    slots (slot_is cls (λ i d', ∃ d, P i d ∧ but_vol bucket d d' ∧ has_vol d' bucket)) (y :: ds') (S m) ∧
    slots (outcome cls (if had then Some (errVolumeExists : error) else None)) (e :: errs) (S m)).
  { intros y e Hy Hye. split; by apply slots_cons. }
  cbn [make_vols]. unfold slot_is in Hx, Hcons at 1. unfold outcome in Hcons at 1.
  destruct (cls 0%nat); destruct x as [d|]; try done.
  - destruct Hx as [Hup HP]. specialize (Hhad _ _ HP).
    destruct (up_MakeVol d bucket Hup bucket_valid) as (d' & e & -> & Hup' & Hb & Hv & Hc).
    rewrite Heq. eexists _, _. split; [done|]. apply Hcons; [by eauto|].
    destruct Hc as [[Hno ->]|[Hyes ->]], had; try done; exfalso; [apply Hno|apply Hhad in Hyes; done].
    by apply Hhad.
  - destruct (down_MakeVol d bucket Hx) as (d' & e & -> & Hd' & He').
    rewrite Heq. eexists _, _. split; [done|]. by apply Hcons.
  - rewrite Heq. eexists _, _. split; [done|]. apply Hcons; [done|].
    left.
Qed.

Lemma undoMakeBucket_ok : ∀ (ds : list (option D)) n cls (P : nat → D → Prop),
  slots (slot_is cls P) ds n →
  slots (slot_is cls (λ i d', ∃ d, P i d ∧ but_vol bucket d d' ∧
    (¬ vol_used d bucket → ¬ has_vol d' bucket))) (undoMakeBucket ds bucket) n.
Proof.
  intros ds n cls P [Hl HR]. split; [unfold undoMakeBucket; by rewrite length_map|].
  intros i x Hx. unfold undoMakeBucket in Hx. rewrite list_lookup_fmap in Hx.
  destruct (ds !! i) as [y|] eqn:Hy; [|done]. injection Hx as <-. specialize (HR i y Hy).
  unfold slot_is in *. destruct (cls i), y as [d|]; try done; simpl.
  - destruct HR as [Hup HP]. destruct (up_DeleteVol d bucket Hup) as (d' & e & -> & Hup' & Hb & Hc).
    split; [done|]. exists d. split_and!; [done|done|]. intros Hno.
    by destruct Hc as [(_ & _ & ? & _)|[(_ & ? & _)|(_ & ? & _)]].
  - by destruct (down_DeleteVol d bucket HR) as (d' & e & -> & Hd' & _).
Qed.

(** A bucket that the disks that are up have is found. *)
Lemma GetBucketInfo_ok now (ds : list (option D)) n cls (P : nat → D → Prop) :
  slots (slot_is cls P) ds n → stable P → (∀ i d, P i d → has_vol d bucket) →
  (∃ i, (i < n)%nat ∧ cls i = DiskUp) → 0 < Z.of_nat n < 2 ^ 32 →
  ∃ ds' info, GetBucketInfo now ds bucket = Ret (ds', (info, None)) ∧ slots (slot_is cls P) ds' n.
Proof.
  intros HR Hst Hv Hup Hn. unfold GetBucketInfo. rewrite bucket_valid. cbn [negb].
  unfold getBucketInfo.
  destruct (balanced_first_ok bucketMetadataOpIgnoredErrs (stat_bucket bucket) BucketInfo_zero (λ _, True)
    now ds n cls P HR Hst) as (ds' & info & -> & Hds & _); [| |done|done|].
  - intros i d Hud HP. unfold stat_bucket.
    destruct (up_StatVol d bucket Hud (Hv _ _ HP)) as (d' & info & -> & Hud' & Hs). by eexists _, _.
  - intros d Hd. unfold stat_bucket. destruct (down_StatVol d bucket Hd) as (d' & info & e & -> & Hd' & He).
    assert (∃ e', traceError (Some e) [] = Some e') as [e' Ht] by (destruct e; by eexists).
    rewrite Ht. eexists _, _, _. split_and!; [done|done|]. rewrite <- Ht.
    unfold disk_err, baseErrs in He. rewrite !elem_of_cons in He.
    destruct He as [[= ->]|[[= ->]|[[= ->]|?%not_elem_of_nil]]]; done.
  - cbn [mbind go_bind]. by eexists _, _.
Qed.

(** C27.  Creating a bucket.  With a write quorum of disks that are up (the
    others are unreachable or missing), [MakeBucket] leaves every one of them
    with the bucket and changes nothing else; it succeeds if they did not have
    the bucket and fails with BucketExists if they had it.  Without a quorum it
    fails with InsufficientWriteQuorum, and no disk that is up keeps the bucket
    unless it holds files: the undo also removes an empty bucket that was there
    before the call. *)
Theorem MakeBucket_correct (had : bool) (wq : nat) (ds : list (option D)) n cls (P : nat → D → Prop) :
  slots (slot_is cls P) ds n → (∀ i d, P i d → has_vol d bucket ↔ had = true) → (2 ≤ wq)%nat →
  ∃ ds' err, MakeBucket wq ds bucket = (ds', err) ∧
    if (wq <=? count_good (λ i, is_up (cls i)) n)%nat then
      errorCause err = (if had then Some (BucketExists bucket "" : error) else None) ∧
      slots (slot_is cls (λ i d', ∃ d, P i d ∧ but_vol bucket d d' ∧ has_vol d' bucket)) ds' n
    else
      errorCause err = Some (InsufficientWriteQuorum : error) ∧
      slots (slot_is cls (λ i d', ∃ d, P i d ∧ but_vol bucket d d' ∧
        (¬ vol_used d bucket → ¬ has_vol d' bucket))) ds' n.
Proof.
  intros HR Hhad Hq. unfold MakeBucket. rewrite bucket_valid. cbn [negb].
  destruct (make_vols_ok had ds n cls P HR Hhad) as (ds' & errs & -> & Hds & He).
  set (x := if had then Some (errVolumeExists : error) else None) in *.
  assert (Hxi : isErrIgnored x quorumIgnoredErrs = false) by (by destruct had).
  assert (Hxc : errorCause x = x) by (by destruct had).
  rewrite (uniform_quorum x errs n cls wq Hxi Hxc He).
  destruct (Nat.leb_spec wq (count_good (λ i, is_up (cls i)) n)) as [Hle|Hlt]; cbn [negb].
  - rewrite (uniform_reduce bucketOpIgnoredErrs x errs n cls wq); [|by destruct had..| | | |done].
    2: { intros b Hb. apply elem_of_app. by left. } 2: { done. } 2: { done. }
    destruct had; eexists _, _; by split.
  - eexists _, _. split; [done|]. split; [done|].
    eapply slots_impl; [|by apply undoMakeBucket_ok]. intros i d' (d1 & (d & HP & Hb & _) & Hb1 & Hno).
    exists d. split_and!; [done|by eapply but_vol_trans|]. intros Hu. apply Hno. intros [p Hp]. apply Hu.
    exists p. by rewrite <- (but_vol_files _ _ _ Hb).
Qed.

End Facts.

(** ** Witnesses *)

Definition bucket_disk (offline : bool) : MemDisk :=
  {| mem_files := ∅; mem_vols := ∅; mem_offline := offline |}.

Definition bucket_disks : list (option MemDisk) :=
  [Some (bucket_disk false); Some (bucket_disk false); Some (bucket_disk true);
   Some (bucket_disk false); None].

Definition bucket_cls (i : nat) : disk_state :=
  match i with 2%nat => DiskDown | 4%nat => DiskGone | _ => DiskUp end.

(** Three of five disks are up. *)
Lemma MakeBucket_correct_witness :
  ∃ ds', MakeBucket (H := map_order_id) 3 bucket_disks "photos" = (ds', None) ∧ length ds' = 5%nat.
Proof.
  destruct (MakeBucket_correct (H := map_order_id) "photos" eq_refl false 3 bucket_disks 5 bucket_cls
    (λ _ d, d = bucket_disk false)) as (ds' & err & Heq & Hres).
  - split; [done|]. intros i x Hx.
    assert (Hup : up (bucket_disk false)) by (split; [done|]; by intros v p [c ?]).
    destruct i as [|[|[|[|[|i]]]]]; simpl in Hx; simplify_eq; by split.
  - intros i d ->. split; [|done]. intros Hv. change ("photos" ∈ (∅ : gset string)) in Hv. by apply elem_of_empty in Hv.
  - lia.
  - assert ((3 <=? count_good (λ i, is_up (bucket_cls i)) 5)%nat = true) as Hc by (by vm_compute).
    rewrite Hc in Hres. destruct Hres as [Herr [Hl _]]. exists ds'. split; [|done].
    destruct err as [[]|]; [done..|exact Heq].
Defined.
