(* ===== verification/XLObject.v ===== *)
(** * Objects of the XL backend

    Reading an object: metadata quorum, choice of the version, parts and the
    object cache (src/cmd/xl-v1-object.go: [GetObject], [getObjectInfo],
    [GetObjectInfo]; src/cmd/xl-v1-common.go). *)

From S2P Require Import Prelude.
From S2P Require Import GoErrors.
From S2P Require Import GoStrings.
From S2P Require Import Quorum.
From S2P Require Import Distribution.
From S2P Require Import XLMeta.
From S2P Require Import Storage.
From S2P Require Import Bpool.
From S2P Require Import Erasure.
From S2P Require Import ErasureSpec.
From S2P Require Import XorCode.
From S2P Require Import ErasureRead.
From S2P Require Import Healing.
From S2P Require Import ObjCache.
From S2P Require Import ObjectNames.
From S2P Require Import XLDisk.

Local Open Scope Z_scope.

(** ** Writers *)

Section Writers.
Context {W : Type} `{!IOWriter W}.

(** The writer [mw] of [GetObject]: the client's writer, or
    [io.MultiWriter(newBuffer, writer)], which stops at the first error. *)
Definition multi_Write (mw : option cappedWriter * W) (b : bytes)
    : option cappedWriter * W * (Z * option error) :=
  let '(newBuffer, writer) := mw in
  match newBuffer with
  | None => let '(writer, r) := Write writer b in (None, writer, r)
  | Some cbuf =>
      let '(cbuf, (n, err)) := capped_Write cbuf b in
      match err with
      | Some e => (Some cbuf, writer, (n, Some e))
      | None =>
          if negb (n =? zlen b) then (Some cbuf, writer, (n, Some (io_ErrShortWrite : error)))
          else
            let '(writer, (n, err)) := Write writer b in
            match err with
            | Some e => (Some cbuf, writer, (n, Some e))
            | None =>
                if negb (n =? zlen b) then (Some cbuf, writer, (n, Some (io_ErrShortWrite : error)))
                else (Some cbuf, writer, (zlen b, None))
            end
      end
  end.

#[export] Instance multi_IOWriter : IOWriter (option cappedWriter * W) :=
  {| Write mw b := let '(newBuffer, writer, r) := multi_Write mw b in ((newBuffer, writer), r) |}.

Definition copyBufferSize : nat := Z.to_nat 32768.

(** The loop of [io.Copy] from a [LimitedReader] of [b]: chunks of 32 KiB.  A
    chunk takes a byte at least, so the length is enough fuel. *)
Fixpoint copy_loop (fuel : nat) (w : W) (b : bytes) (written : Z) : W * (Z * option error) :=
  match fuel, b with
  | S fuel', _ :: _ =>
      let chunk := take copyBufferSize b in
      let '(w, (nw, err)) := Write w chunk in
      match err with
      | Some e => (w, (written + nw, Some e))
      | None =>
          if negb (nw =? zlen chunk) then (w, (written + nw, Some (io_ErrShortWrite : error)))
          else copy_loop fuel' w (drop copyBufferSize b) (written + nw)
      end
  | _, _ => (w, (written, None))
  end.

(** [io.CopyN(w, bytes.NewReader(b), n)]. *)
Definition io_CopyN (w : W) (b : bytes) (n : Z) : W * (Z * option error) :=
  let '(w, (written, err)) := copy_loop (length b) w (take (Z.to_nat n) b) 0 in
  if written =? n then (w, (n, None))
  else match err with
       | None => (w, (written, Some (io_EOF : error)))
       | Some e => (w, (written, Some e))
       end.

End Writers.

(** ** The object layer *)

Record xlObjects {D : Type} := {
  storageDisks : list (option D);
  dataBlocks : Z;
  parityBlocks : Z;
  readQuorum : nat;
  writeQuorum : nat;
  objCache : Cache;
  objCacheEnabled : bool;
}.
Arguments xlObjects : clear implicits.

Record ObjectInfo := {
  IsDir : bool;
  Bucket : string;
  Name : string;
  Size : Z;
  ObjModTime : time;
  MD5Sum : string;
  ContentType : string;
  ContentEncoding : string;
  UserDefined : gmap string string;
  ObjHealInfo : option HealInfo;
}.

Definition set_cache {D} (xl : xlObjects D) (c : Cache) : xlObjects D :=
  {| storageDisks := storageDisks xl; dataBlocks := dataBlocks xl; parityBlocks := parityBlocks xl;
     readQuorum := readQuorum xl; writeQuorum := writeQuorum xl; objCache := c;
     objCacheEnabled := objCacheEnabled xl |}.

Section Objects.
Context `{GJson, MetaJson, MapOrder, Hashes, ReedSolomon}.
Context {D : Type} `{!StorageAPI D}.
Context {W : Type} `{!IOWriter W}.
(** The server's default bit-rot algorithm. *)
Context (bitRotAlgo : string).

(** The checksums of a part on the ordered disks, and the algorithm, which is
    only set when it is set already. *)
Fixpoint part_checksums (partName : string) (onlineDisks : list (option D)) (metaArr : list xlMetaV1)
    (ckSumAlgo : string) : go (list string * string) :=
  match onlineDisks with
  | [] => Ret ([], ckSumAlgo)
  | None :: disks' =>
      '(checkSums, algo) ← part_checksums partName disks' (tail metaArr) ckSumAlgo;
      mret ("" :: checkSums, algo)
  | Some _ :: disks' =>
      match metaArr with
      | [] => Panic
      | meta :: metaArr' =>
          let ckSumInfo := GetCheckSumInfo bitRotAlgo (Erasure meta) partName in
          let ckSumAlgo :=
            if negb (bool_decide (ckSumAlgo = "")) then CkAlgorithm ckSumInfo else ckSumAlgo in
          '(checkSums, algo) ← part_checksums partName disks' metaArr' ckSumAlgo;
          mret (CkHash ckSumInfo :: checkSums, algo)
      end
  end.

(** The loop over the parts, from [partIndex] on; [parts] bounds the number of
    parts left.  The buffer pool is shared by the reads of the parts: [pools i]
    is its state when part [i] is read, which every read resets. *)
Fixpoint read_parts (parts fuel : nat) (pools : nat → BytePool) (bucket object : string)
    (xlMeta : xlMetaV1) (metaArr : list xlMetaV1) (partIndex : nat) (partOffset length_ : Z)
    (totalBytesRead : Z) (onlineDisks : list (option D)) (mw : option cappedWriter * W)
    : go (option cappedWriter * W * option error) :=
  match parts with
  | O => Ret (mw, None)
  | S parts' =>
      if length_ =? totalBytesRead then Ret (mw, None)
      else
        match Parts xlMeta !! partIndex with
        | None => Panic
        | Some part =>
            let partName := PartName part in
            let partSize := PartSize part in
            let readSize := int64_wrap (partSize - partOffset) in
            let readSize := if length_ - totalBytesRead <? readSize
                            then length_ - totalBytesRead else readSize in
            '(checkSums, ckSumAlgo) ← part_checksums partName onlineDisks metaArr "";
            '(mw, onlineDisks, (n, err)) ←
              erasureReadFile fuel mw onlineDisks bucket (pathJoin [object; partName]) partOffset
                readSize partSize (BlockSize (Erasure xlMeta)) (Z.to_nat (DataBlocks (Erasure xlMeta)))
                (Z.to_nat (ParityBlocks (Erasure xlMeta))) checkSums ckSumAlgo (pools partIndex);
            match err with
            | Some e => mret (mw, toObjectErr (Some e) [bucket; object])
            | None =>
                read_parts parts' fuel pools bucket object xlMeta metaArr (S partIndex) 0 length_
                  (totalBytesRead + n) onlineDisks mw
            end
        end
  end.

(** The cache block of [GetObject]: a hit is [inl] of the result of the copy;
    on a miss the new buffer, if any, is in front of the writer. *)
Definition open_cache (cache : Cache) (bucket object : string)
    (modTime cacheNow startOffset length_ size : Z) (writer : W) : Cache * ((W * option error) + (option cappedWriter * W + option error)) :=
  let key := path_Join [bucket; object] in
  let '(cache, r) := Open cache key modTime cacheNow in
  match r with
  | inl value =>
      let '(writer, (_, err)) := io_CopyN writer (drop (Z.to_nat startOffset) value) length_ in
      (cache, inl (writer, traceError err []))
  | inr err =>
      if negb (err_eqb (Some err) (Some (ErrKeyNotFoundInCache : error)))
      then (cache, inr (inr (traceError (Some err) [])))
      else if (startOffset =? 0) && (length_ =? size) then
        match Create cache key length_ with
        | inl newBuffer => (cache, inr (inl (Some newBuffer, writer)))
        | inr err =>
            if negb (err_eqb (Some err) (Some (ErrCacheFull : error)))
            then (cache, inr (inr (toObjectErr (traceError (Some err) []) [bucket; object])))
            else (cache, inr (inl (None, writer)))
        end
      else (cache, inr (inl (None, writer)))
  end.

(** [defer newBuffer.Close()]. *)
Definition close_buffer (xl : xlObjects D) (key : string) (size now : Z)
    (newBuffer : option cappedWriter) : xlObjects D :=
  match newBuffer with
  | None => xl
  | Some cbuf => set_cache xl (onClose (objCache xl) key size now cbuf).1.1
  end.

(** [timeNow] is the clock of [listOnlineDisks], [cacheNow] and [closeNow] the
    clock of the cache; [writer] is nil or a writer.  Returns the object layer
    (with the cache after the call), the writer and the error. *)
Definition GetObject (fuel : nat) (pools : nat → BytePool) (timeNow cacheNow closeNow : Z)
    (xl : xlObjects D) (bucket object : string) (startOffset length_ : Z) (writer : option W)
    : go (xlObjects D * option W * option error) :=
  match checkGetObjArgs bucket object with
  | Some err => Ret (xl, writer, Some err)
  | None =>
  if startOffset <? 0 then Ret (xl, writer, traceError (Some (errUnexpected : error)) [])
  else
  match writer with
  | None => Ret (xl, None, traceError (Some (errUnexpected : error)) [])
  | Some w =>
      let '(disks, (metaArr, errs)) := readAllXLMetadata (storageDisks xl) bucket object in
      if negb (isDiskQuorum errs (readQuorum xl))
      then Ret (xl, Some w, traceError (Some (InsufficientReadQuorum : error)) errs)
      else
      match reduceReadQuorumErrs errs objectOpIgnoredErrs (readQuorum xl) with
      | Some reducedErr => Ret (xl, Some w, toObjectErr (Some reducedErr) [bucket; object])
      | None =>
          '(onlineDisks, modTime) ← listOnlineDisks timeNow disks metaArr errs;
          let '(xlMeta, err) := pickValidXLMeta metaArr modTime in
          match err with
          | Some e => mret (xl, Some w, Some e)
          | None =>
              onlineDisks ← getOrderedDisks (Distribution (Erasure xlMeta)) onlineDisks;
              metaArr ← getOrderedPartsMetadata xlMetaV1_zero (Distribution (Erasure xlMeta)) metaArr;
              let size := StatSize (Stat xlMeta) in
              let length_ := if length_ <? 0 then int64_wrap (size - startOffset) else length_ in
              let invalidRange :=
                traceError (Some (InvalidRange startOffset length_ size : error)) [] in
              if (size <? startOffset) || (size <? int64_wrap (startOffset + length_))
              then mret (xl, Some w, invalidRange)
              else
              let '(partIndex, partOffset, err) := ObjectToPartOffset xlMeta startOffset in
              match err with
              | Some _ => mret (xl, Some w, invalidRange)
              | None =>
              let '(lastPartIndex, _, err) :=
                ObjectToPartOffset xlMeta (int64_wrap (startOffset + length_ - 1)) in
              match err with
              | Some _ => mret (xl, Some w, invalidRange)
              | None =>
                  let key := path_Join [bucket; object] in
                  let read_all cache newBuffer w :=
                    _ ← getChunkSize (BlockSize (Erasure xlMeta)) (Z.to_nat (DataBlocks (Erasure xlMeta)));
                    '(newBuffer, w, err) ←
                      read_parts (Z.to_nat (lastPartIndex - partIndex + 1)) fuel pools bucket object
                        xlMeta metaArr (Z.to_nat partIndex) partOffset length_ 0 onlineDisks
                        (newBuffer, w);
                    mret (close_buffer (set_cache xl cache) key length_ closeNow newBuffer, Some w, err) in
                  if (0 <? size) && objCacheEnabled xl then
                    let '(cache, r) :=
                      open_cache (objCache xl) bucket object modTime cacheNow startOffset length_ size w in
                    match r with
                    | inl (w, err) => mret (set_cache xl cache, Some w, err)
                    | inr (inr err) => mret (set_cache xl cache, Some w, err)
                    | inr (inl (newBuffer, w)) => read_all cache newBuffer w
                    end
                  else read_all (objCache xl) None w
              end
              end
          end
      end
  end
  end.

(** [disks] are the load balanced disks. *)
Definition getObjectInfo (disks : list (option D)) (bucket object : string)
    : list (option D) * (option ObjectInfo * option error) :=
  let '(disks, (xlStat, xlMetaMap, err)) := xl_readXLMetaStat disks bucket object in
  match err with
  | Some e => (disks, (None, Some e))
  | None =>
      (disks, (Some
        {| IsDir := false; Bucket := bucket; Name := object; Size := StatSize xlStat;
           ObjModTime := ModTime xlStat;
           MD5Sum := default "" (xlMetaMap !! "md5Sum");
           ContentType := default "" (xlMetaMap !! "content-type");
           ContentEncoding := default "" (xlMetaMap !! "content-encoding");
           UserDefined := delete "md5Sum" xlMetaMap; ObjHealInfo := None |}, None))
  end.

Definition GetObjectInfo (disks : list (option D)) (bucket object : string)
    : list (option D) * (option ObjectInfo * option error) :=
  match checkGetObjArgs bucket object with
  | Some err => (disks, (None, Some err))
  | None =>
      let '(disks, (info, err)) := getObjectInfo disks bucket object in
      match err with
      | Some e => (disks, (None, toObjectErr (Some e) [bucket; object]))
      | None => (disks, (info, None))
      end
  end.

End Objects.

(** ** Contracts *)

(** Reads do not stop a disk from serving its files. *)
Class StorageReads (D : Type) `{!StorageAPI D} `{!StorageContract D} := {
  ReadFile_keeps : ∀ d v p off buf d' r v' p',
    ReadFile d v p off buf = (d', r) → serves d v' p' → serves d' v' p';
}.

#[export] Instance MemDisk_reads : StorageReads MemDisk.
Proof. split. intros d v p off buf d' r v' p' [= <- _]. done. Qed.

#[export] Program Instance multi_contract {W} `{!IOWriter W} `{!IOWriterContract W}
    : IOWriterContract (option cappedWriter * W) := {|
  written mw := written mw.2;
  w_accepts mw := mw.1 = None ∧ w_accepts mw.2;
|}.
Next Obligation.
  intros W ? ? [oc w] b [oc' w'] n e. simpl.
  destruct oc as [c|].
  - unfold capped_Write. destruct (_ <? _); simpl.
    { intros [= _ <- <- <-]. rewrite app_nil_r. unfold zlen. split_and!; [lia|lia|done|done]. }
    rewrite Z.eqb_refl. simpl. destruct (Write w b) as [w1 [n1 e1]] eqn:Hw.
    destruct (Write_spec _ _ _ _ _ Hw) as (Hn & Hwr & He). destruct e1 as [e1|].
    { by intros [= _ <- <- <-]. }
    destruct (Z.eqb_spec n1 (zlen b)) as [->|Hne]; simpl; intros [= _ <- <- <-]; [done|].
    split_and!; [lia|lia|done|done].
  - destruct (Write w b) as [w1 [n1 e1]] eqn:Hw. intros [= _ <- <- <-]. by eapply Write_spec.
Qed.
Next Obligation.
  intros W ? ? [oc w] b. simpl. intros [-> Hw]. destruct (Write_accepts w b Hw) as (w' & -> & Hw').
  by exists (None, w').
Qed.

(** ** Parts and their bytes *)

Definition part_data (p : objectPartInfo) (b : bytes) : Prop :=
  PartSize p = zlen b ∧ (0 < length b)%nat.

(** The part that holds a byte of the object. *)
Lemma part_offset_nat ps ds i off :
  Forall2 part_data ps ds → (off < length (concat ds))%nat → is_int64 (zlen (concat ds)) →
  ∃ j o b, part_offset_loop i ps (Z.of_nat off) = (i + Z.of_nat j, Z.of_nat o, None) ∧
    ds !! j = Some b ∧ (o < length b)%nat ∧ (length (concat (take j ds)) + o = off)%nat.
Proof.
  intros Hps. revert i off. induction Hps as [|p b ps ds [Hsz Hb] Hps IH]; intros i off Hoff Hint;
    [simpl in Hoff; lia|].
  simpl in Hoff. rewrite length_app in Hoff. unfold is_int64, zlen in Hint. simpl in Hint.
  rewrite length_app in Hint. simpl. rewrite Hsz. unfold zlen.
  destruct (Z.ltb_spec (Z.of_nat off) (Z.of_nat (length b))).
  - exists 0%nat, off, b. rewrite Z.add_0_r. split_and!; [done|done|lia|done].
  - rewrite int64_wrap_id by (unfold is_int64; lia). rewrite <- Nat2Z.inj_sub by lia.
    destruct (IH (i + 1) (off - length b)%nat) as (j & o & b' & -> & Hj & Ho & Hsum);
      [lia|unfold is_int64, zlen; lia|].
    exists (S j), o, b'. split_and!; [f_equal; f_equal; lia|done|done|].
    simpl. rewrite length_app. lia.
Qed.

Lemma ObjectToPartOffset_nat mt ds off :
  Forall2 part_data (Parts mt) ds → (off < length (concat ds))%nat → is_int64 (zlen (concat ds)) →
  ∃ j o b, ObjectToPartOffset mt (Z.of_nat off) = (Z.of_nat j, Z.of_nat o, None) ∧
    ds !! j = Some b ∧ (o < length b)%nat ∧ (length (concat (take j ds)) + o = off)%nat.
Proof.
  intros Hps Hoff Hint. unfold ObjectToPartOffset. destruct (Z.eqb_spec (Z.of_nat off) 0) as [E|E].
  - assert (off = 0%nat) as -> by lia. destruct Hps as [|p b ps ds [_ Hb] Hps]; [simpl in Hoff; lia|].
    by exists 0%nat, 0%nat, b.
  - by apply part_offset_nat.
Qed.

(** A slice inside a part is a slice of the object. *)
Lemma concat_part_slice (ds : list bytes) j b o q :
  ds !! j = Some b → (o + q ≤ length b)%nat →
  take q (drop (length (concat (take j ds)) + o) (concat ds)) = take q (drop o b).
Proof.
  intros Hj Hq. rewrite <- (take_drop j ds) at 2. rewrite concat_app, (drop_S _ _ _ Hj). simpl concat.
  rewrite drop_app_add', drop_app_le by lia. rewrite take_app_le by (rewrite length_drop; lia). done.
Qed.

Lemma concat_take_S (ds : list bytes) j b :
  ds !! j = Some b → length (concat (take (S j) ds)) = (length (concat (take j ds)) + length b)%nat.
Proof.
  intros Hj. rewrite (take_S_r _ _ _ Hj), concat_app, length_app. simpl. by rewrite app_nil_r.
Qed.

Lemma concat_take_le (ds : list bytes) j : (length (concat (take j ds)) ≤ length (concat ds))%nat.
Proof. rewrite <- (take_drop j ds) at 2. rewrite concat_app, length_app. lia. Qed.

Lemma concat_lookup (ds : list bytes) j :
  (length (concat (take j ds)) < length (concat ds))%nat → ∃ b, ds !! j = Some b.
Proof.
  intros Hlt. destruct (ds !! j) as [b|] eqn:E; [by exists b|].
  apply lookup_ge_None in E. rewrite take_ge in Hlt by lia. lia.
Qed.

(** The disks vote nil at least as often as they hold the version. *)
Lemma version_votes t metas errs ignoredErrs :
  isErrIgnored None ignoredErrs = false →
  (version_count t metas errs ≤ occ None (votes ignoredErrs errs))%nat ∧
  (length (votes ignoredErrs errs) ≤ length errs)%nat.
Proof.
  intros Hi. split.
  - unfold version_count. revert errs. induction metas as [|mt metas IH]; intros errs; [simpl; lia|].
    destruct errs as [|e errs]; [simpl; lia|]. simpl zip_with. rewrite filter_cons.
    unfold votes. simpl errorsCause. rewrite filter_cons. fold (votes ignoredErrs errs).
    specialize (IH errs). destruct e as [e|]; simpl holds_version.
    + rewrite decide_False by done. case_decide; [|done]. rewrite occ_cons. lia.
    + rewrite (decide_True (P := isErrIgnored None ignoredErrs = false)) by done. rewrite occ_cons. simpl.
      case_decide; simpl; lia.
  - unfold votes. rewrite length_filter. unfold errorsCause. by rewrite length_map.
Qed.

(** ** An object on the disks *)

Section Stored.
Context `{GJson, MetaJson, MapOrder, Hashes} `{RS : ReedSolomon}.
Context {D : Type} `{!StorageAPI D} `{!StorageContract D} `{!StorageReads D}.
Context {W : Type} `{!IOWriter W} `{!IOWriterContract W}.
Context (bitRotAlgo : string) (fuel : nat) (k m : nat) `{!RSContract k m} (bs : nat).
Context (bucket object : string).
(** The version, its parts and their bytes, and the order of the blocks. *)
Context (T : time) (parts : list objectPartInfo) (datas : list bytes) (dist : list Z).
(** The blocks that are intact. *)
Context (good : nat → bool).

Definition part_path (p : objectPartInfo) : string := pathJoin [object; PartName p].

Definition part_hash (mt : xlMetaV1) (p : objectPartInfo) : string :=
  CkHash (GetCheckSumInfo bitRotAlgo (Erasure mt) (PartName p)).

(** What is assumed of a disk that holds block [i] with the metadata [mt]: its
    files fit in the fuel and a file with the recorded checksum is the file
    that was written. *)
Definition shards_sane (i : nat) (mt : xlMetaV1) (d : D) : Prop :=
  ∀ j p b c, parts !! j = Some p → datas !! j = Some b → file_at d bucket (part_path p) = Some c →
    (length c < fuel)%nat ∧
    (part_hash mt p = hex_encode (newHash "" c) → c = shard_file k m bs b i).

(** A disk that serves block [i] of every part, with its checksum. *)
Definition shards_intact (i : nat) (mt : xlMetaV1) (d : D) : Prop :=
  ∀ j p b, parts !! j = Some p → datas !! j = Some b →
    serves d bucket (part_path p) ∧
    file_at d bucket (part_path p) = Some (shard_file k m bs b i) ∧
    part_hash mt p = file_checksum k m bs b "" i ∧ file_checksum k m bs b "" i ≠ "".

(** The metadata of the version. *)
Definition meta_ok (mt : xlMetaV1) : Prop :=
  IsValid mt = true ∧ ModTime (Stat mt) = T ∧ StatSize (Stat mt) = zlen (concat datas) ∧
  Parts mt = parts ∧ DataBlocks (Erasure mt) = Z.of_nat k ∧ ParityBlocks (Erasure mt) = Z.of_nat m ∧
  BlockSize (Erasure mt) = Z.of_nat bs ∧ Distribution (Erasure mt) = dist.

(** What the disks hold after their metadata was read: more than half of them
    have the version [T], their metadata agrees on everything but checksums and
    index, and the intact blocks are served. *)
Record object_version (disks : list (option D)) (metas : list xlMetaV1)
    (errs : list (option error)) : Prop := {
  ov_disks : length disks = (k + m)%nat;
  ov_metas : length metas = (k + m)%nat;
  ov_errs : length errs = (k + m)%nat;
  ov_time : T ≠ timeSentinel;
  ov_majority : (k + m < 2 * version_count T metas errs)%nat;
  ov_valid : ∀ s mt e, metas !! s = Some mt → errs !! s = Some e → holds_version T mt e = true →
    IsValid mt = true;
  ov_meta : ∀ mt, mt ∈ metas → IsValid mt = true → ModTime (Stat mt) = T → meta_ok mt;
  ov_dist : dist ≡ₚ seqZ 1 (Z.of_nat (k + m));
  ov_sane : ∀ s b d mt e, dist !! s = Some b → disks !! s = Some (Some d) →
    metas !! s = Some mt → errs !! s = Some e → holds_version T mt e = true →
    shards_sane (Z.to_nat (b - 1)) mt d;
  ov_intact : ∀ i, (i < k + m)%nat → good i = true →
    ∃ s d mt e, dist !! s = Some (Z.of_nat i + 1) ∧ disks !! s = Some (Some d) ∧
      metas !! s = Some mt ∧ errs !! s = Some e ∧ holds_version T mt e = true ∧
      shards_intact i mt d;
}.

Definition disk_kept (om : list xlMetaV1) (i : nat) (d : D) : Prop :=
  ∃ mt, om !! i = Some mt ∧ shards_sane i mt d ∧ (good i = true → shards_intact i mt d).

Lemma disk_kept_reads om i d v p off buf d' r :
  disk_kept om i d → ReadFile d v p off buf = (d', r) → disk_kept om i d'.
Proof.
  intros (mt & Hmt & Hs & Hi) Hr. exists mt. split; [done|].
  assert (Hf : ∀ v' p', file_at d' v' p' = file_at d v' p') by (intros; by eapply ReadFile_frame).
  split.
  - intros j q b c Hq Hb. rewrite Hf. by apply (Hs j).
  - intros Hg j q b Hq Hb. rewrite Hf. destruct (Hi Hg j q b Hq Hb) as (? & ? & ? & ?).
    split_and!; try done. by eapply ReadFile_keeps.
Qed.

Lemma part_checksums_ok name (disks : list (option D)) om :
  length om = length disks →
  part_checksums bitRotAlgo name disks om "" =
    Ret (zip_with (λ (d : option D) mt, match d with
                          | None => ""
                          | Some _ => CkHash (GetCheckSumInfo bitRotAlgo (Erasure mt) name)
                          end) disks om, "").
Proof.
  revert om. induction disks as [|[d|] disks IH]; intros [|mt om] Hl; try done; simpl in *;
    by rewrite IH by lia.
Qed.

Context (bs_pos : (0 < bs)%nat) (fuel_pos : (0 < fuel)%nat).
Context (parts_data : Forall2 part_data parts datas).
Context (data_int64 : is_int64 (zlen (concat datas))).
Context (pools : nat → BytePool).
Context (pools_ok : ∀ i, pool_wf (pools i) ∧ (k + m ≤ length (pool_used (pools i)))%nat ∧
                         (ceil_div bs k ≤ pool_size (pools i))%nat).

Section Loop.
Context (xlMeta : xlMetaV1) (xlMeta_ok : meta_ok xlMeta).
Context (om : list xlMetaV1) (om_len : length om = (k + m)%nat).

(** Reading one part. *)
Lemma read_part_ok j p b (disks : list (option D)) (mw : option cappedWriter * W) o len :
  parts !! j = Some p → datas !! j = Some b →
  disks_kept k m good (disk_kept om) disks →
  (0 < len)%nat → (o + len ≤ length b)%nat →
  ∃ cks, part_checksums bitRotAlgo (PartName p) disks om "" = Ret (cks, "") ∧
  ∃ mw' ds nw e,
    erasureReadFile fuel mw disks bucket (part_path p) (Z.of_nat o) (Z.of_nat len) (zlen b)
      (Z.of_nat bs) k m cks "" (pools j) = Ret (mw', ds, (nw, e)) ∧
    (∃ q, (q ≤ len)%nat ∧ written mw' = written mw ++ take q (drop o b)) ∧
    (e = None → nw = Z.of_nat len ∧ written mw' = written mw ++ take len (drop o b) ∧
       disks_kept k m good (disk_kept om) ds) ∧
    (w_accepts mw → (k ≤ good_count k m good)%nat → e = None ∧ w_accepts mw').
Proof.
  intros Hp Hb (Hl & Hk & Hg) Hlen Hle. rewrite part_checksums_ok by lia.
  eexists. split; [done|].
  set (cks := zip_with _ disks om).
  assert (Hck : ∀ i d mt, disks !! i = Some (Some d) → om !! i = Some mt →
                  cks !! i = Some (part_hash mt p)).
  { intros i d mt Hd Hm. unfold cks. rewrite lookup_zip_with, Hd, Hm. done. }
  assert (Hb63 : is_int64 (zlen b)).
  { pose proof (concat_take_S datas j b Hb). pose proof (concat_take_le datas (S j)).
    unfold is_int64, zlen in *. lia. }
  destruct (pools_ok j) as (Hpw & Hpl & Hps).
  apply (erasureReadFile_ok k m bs bs_pos b bucket (part_path p) cks "" fuel good); try done.
  - unfold cks. rewrite length_zip_with. lia.
  - intros i d v p' off buf d' r. apply disk_kept_reads.
  - intros i d Hd c Hc. destruct (Hk i d Hd) as (mt & Hm & Hs & _).
    destruct (Hs j p b c Hp Hb Hc) as [Hf Hsh]. split; [done|]. rewrite (Hck i d mt Hd Hm).
    intros [= E]. by apply Hsh.
  - intros i Hi Hgi. destruct (Hg i Hi Hgi) as [d Hd]. exists d. split; [done|].
    destruct (Hk i d Hd) as (mt & Hm & _ & Hint). destruct (Hint Hgi j p b Hp Hb) as (? & ? & Hh & ?).
    split_and!; try done. by rewrite (Hck i d mt Hd Hm), Hh.
Qed.

(** The position of the loop: [t] bytes of the range are written, the next one
    is at offset [o] of part [j], and [n] parts may still be read. *)
Definition at_part (off len n j o t : nat) : Prop :=
  (t ≤ len)%nat ∧
  ((t < len)%nat → (length (concat (take j datas)) + o = off + t)%nat ∧
     (∃ b, datas !! j = Some b ∧ (o < length b)%nat) ∧
     (off + len ≤ length (concat (take (j + n) datas)))%nat).

Lemma at_part_next off len n j o t b :
  at_part off len (S n) j o t → (t < len)%nat → datas !! j = Some b →
  (off + len ≤ length (concat datas))%nat →
  let r := Nat.min (length b - o) (len - t) in
  (0 < r)%nat ∧ (o + r ≤ length b)%nat ∧ at_part off len n (S j) 0 (t + r) ∧
  ∀ q, (q ≤ r)%nat → take q (drop o b) = take q (drop (off + t) (concat datas)).
Proof.
  intros [Ht Hat] Hlt Hb Hle r. destruct (Hat Hlt) as (Hpos & (b' & Hb' & Ho) & Hlast).
  simplify_eq. split_and!; [lia|lia| |].
  - split; [lia|]. intros Hlt'. assert (r = length b - o)%nat as Hr by lia.
    pose proof (concat_take_S datas j b Hb) as HS. split_and!; [lia| |].
    + destruct (concat_lookup datas (S j)) as [b' Hb2]; [lia|]. exists b'. split; [done|].
      destruct (Forall2_lookup_r _ _ _ _ _ parts_data Hb2) as (p & _ & [_ Hp]). done.
    + by rewrite Nat.add_succ_comm.
  - intros q Hq. rewrite <- Hpos. symmetry. apply concat_part_slice; [done|lia].
Qed.

Lemma read_parts_ok off len : (off + len ≤ length (concat datas))%nat →
  ∀ n j o t (disks : list (option D)) (mw : option cappedWriter * W),
  at_part off len n j o t → disks_kept k m good (disk_kept om) disks →
  ∃ mw' e q,
    read_parts bitRotAlgo n fuel pools bucket object xlMeta om j (Z.of_nat o) (Z.of_nat len)
      (Z.of_nat t) disks mw = Ret (mw', e) ∧
    (q ≤ len - t)%nat ∧ written mw' = written mw ++ take q (drop (off + t) (concat datas)) ∧
    (e = None → q = (len - t)%nat) ∧
    (w_accepts mw → (k ≤ good_count k m good)%nat → e = None).
Proof.
  intros Hle. induction n as [|n IH]; intros j o t disks mw Hat Hk; cbn [read_parts].
  { assert (t = len) as ->.
    { destruct Hat as [? Hat]. destruct (decide (t < len)%nat) as [Hlt|]; [|lia].
      destruct (Hat Hlt) as (? & _ & Hlast). rewrite Nat.add_0_r in Hlast. lia. }
    exists mw, None, 0%nat. rewrite take_0, app_nil_r. split_and!; try done; lia. }
  destruct (Z.eqb_spec (Z.of_nat len) (Z.of_nat t)) as [E|E].
  { exists mw, None, 0%nat. rewrite take_0, app_nil_r. split_and!; try done; lia. }
  assert (Hlt : (t < len)%nat) by (destruct Hat; lia).
  destruct Hat as [Ht Hat0] eqn:Hat'. destruct (Hat0 Hlt) as (Hpos & (b & Hb & Ho) & _).
  destruct (Forall2_lookup_r _ _ _ _ _ parts_data Hb) as (p & Hp & [Hsz _]).
  destruct xlMeta_ok as (_ & _ & _ & Hparts & Hdb & Hpb & Hbs & _).
  rewrite Hparts, Hp, Hsz, Hdb, Hpb, Hbs, !Nat2Z.id.
  destruct (at_part_next off len n j o t b) as (Hr & Hrb & Hnext & Hslice); try done.
  set (r := Nat.min (length b - o) (len - t)) in *.
  assert ((if Z.of_nat len - Z.of_nat t <? int64_wrap (zlen b - Z.of_nat o)
           then Z.of_nat len - Z.of_nat t else int64_wrap (zlen b - Z.of_nat o)) = Z.of_nat r) as ->.
  { rewrite int64_wrap_id.
    - unfold zlen. destruct (Z.ltb_spec (Z.of_nat len - Z.of_nat t) (Z.of_nat (length b) - Z.of_nat o)); lia.
    - pose proof (concat_take_S datas j b Hb). pose proof (concat_take_le datas (S j)).
      unfold is_int64, zlen in *. lia. }
  destruct (read_part_ok j p b disks mw o r Hp Hb Hk Hr Hrb)
    as (cks & -> & mw1 & ds & nw & e & Heq & (q & Hq & Hw) & Hdone & Hlive).
  cbn [mbind go_bind]. fold (part_path p). rewrite Heq. cbn [mbind go_bind].
  rewrite (Hslice q Hq) in Hw. destruct e as [e|].
  { assert (∃ e', toObjectErr (Some e) [bucket; object] = Some e') as [e' ->].
    { destruct e; simpl; try (by eexists); repeat case_match; by eexists. }
    exists mw1, (Some e'), q. split_and!; [done|lia|done|done|].
    intros Ha Hg. by destruct (Hlive Ha Hg). }
  destruct (Hdone eq_refl) as (-> & Hw1 & Hk1). rewrite <- Nat2Z.inj_add.
  destruct (IH (S j) 0%nat (t + r)%nat ds mw1 Hnext Hk1) as (mw2 & e2 & q2 & Heq2 & Hq2 & Hw2 & He2 & Hl2).
  change (Z.of_nat 0) with 0 in Heq2. rewrite Heq2.
  exists mw2, e2, (r + q2)%nat. split_and!; [done|lia| | |].
  - rewrite Hw2, Hw1, (Hslice r) by lia. rewrite <- app_assoc, Nat.add_assoc. f_equal.
    by rewrite <- take_take_drop, drop_drop.
  - intros ->. specialize (He2 eq_refl). lia.
  - intros Ha Hg. apply Hl2; [|done]. by apply Hlive.
Qed.

End Loop.

(** Every block has a disk. *)
Lemma block_disk i :
  dist ≡ₚ seqZ 1 (Z.of_nat (k + m)) → (i < k + m)%nat →
  ∃ s, dist !! s = Some (Z.of_nat i + 1) ∧ (s < k + m)%nat.
Proof.
  intros Hp Hi. assert (Hin : Z.of_nat i + 1 ∈ dist) by (rewrite Hp, elem_of_seqZ; lia).
  apply list_elem_of_lookup in Hin as [s Hs]. exists s. split; [done|].
  apply lookup_lt_Some in Hs. rewrite Hp, length_seqZ in Hs. lia.
Qed.

(** The ordered disks of the version. *)
Lemma ordered_disks_kept disks metas errs (online od : list (option D)) om :
  object_version disks metas errs →
  (∀ s mt e d, metas !! s = Some mt → errs !! s = Some e → disks !! s = Some d →
     online !! s = Some (if holds_version T mt e then d else None)) →
  length od = (k + m)%nat →
  (∀ s b x, dist !! s = Some b → online !! s = Some x → od !! Z.to_nat (b - 1) = Some x) →
  (∀ s b x, dist !! s = Some b → metas !! s = Some x → om !! Z.to_nat (b - 1) = Some x) →
  disks_kept k m good (disk_kept om) od.
Proof.
  intros [Hd Hm He _ _ _ _ Hp Hsane Hint] Hon Hlo Hod Hom.
  destruct (perm_seqZ_bounds _ _ Hp) as [_ Hnd].
  assert (Hslot : ∀ i, (i < k + m)%nat → ∃ s d mt e, dist !! s = Some (Z.of_nat i + 1) ∧
    disks !! s = Some d ∧ metas !! s = Some mt ∧ errs !! s = Some e ∧
    od !! i = Some (if holds_version T mt e then d else None) ∧ om !! i = Some mt).
  { intros i Hi. destruct (block_disk i Hp Hi) as (s & Hs & Hsl).
    destruct (lookup_lt_is_Some_2 disks s) as [d Hds]; [lia|].
    destruct (lookup_lt_is_Some_2 metas s) as [mt Hms]; [lia|].
    destruct (lookup_lt_is_Some_2 errs s) as [e Hes]; [lia|].
    exists s, d, mt, e. split_and!; try done.
    - rewrite <- (Hod s _ _ Hs (Hon s mt e d Hms Hes Hds)). f_equal. lia.
    - rewrite <- (Hom s _ _ Hs Hms). f_equal. lia. }
  assert (Hgood : ∀ i, (i < k + m)%nat → good i = true → ∃ s d mt e,
    dist !! s = Some (Z.of_nat i + 1) ∧ od !! i = Some (Some d) ∧ om !! i = Some mt ∧
    errs !! s = Some e ∧ metas !! s = Some mt ∧ shards_intact i mt d).
  { intros i Hi Hg. destruct (Hint i Hi Hg) as (s & d & mt & e & Hs & Hds & Hms & Hes & Hv & Hsh).
    destruct (Hslot i Hi) as (s' & d' & mt' & e' & Hs' & Hds' & Hms' & Hes' & Ho & Hmm).
    assert (s' = s) as -> by (eapply NoDup_lookup; done). simplify_eq. rewrite Hv in Ho.
    by exists s, d, mt, e. }
  split_and!; [done| |].
  - intros i d Hi. assert (Hlt : (i < k + m)%nat) by (rewrite <- Hlo; by eapply lookup_lt_Some).
    destruct (Hslot i Hlt) as (s & od' & mt & e & Hs & Hds & Hms & Hes & Ho & Hmm).
    rewrite Hi in Ho. destruct (holds_version T mt e) eqn:Hv; [|done]. simplify_eq.
    exists mt. split; [done|]. split.
    + pose proof (Hsane s _ d mt e Hs Hds Hms Hes Hv) as Hsn.
      by replace (Z.to_nat (Z.of_nat i + 1 - 1)) with i in Hsn by lia.
    + intros Hg. destruct (Hgood i Hlt Hg) as (s' & d' & mt' & e' & _ & Ho' & Hm' & _ & _ & Hsh).
      by simplify_eq.
  - intros i Hi Hg. destruct (Hgood i Hi Hg) as (s & d & mt & e & _ & Ho & _). by exists d.
Qed.

(** A valid metadata of the version is found. *)
Lemma version_picked disks metas errs :
  object_version disks metas errs → ∃ mt, pickValidXLMeta metas T = (mt, None) ∧ meta_ok mt.
Proof.
  intros Hov. pose proof (pickValidXLMeta_spec metas T) as Hpick.
  destruct (pickValidXLMeta metas T) as [mt [e|]].
  - exfalso. assert (∃ i b, zip_with (holds_version T) metas errs !! i = Some b ∧ b = true)
      as (i & b & Hi & ->).
    { pose proof (ov_majority _ _ _ Hov) as Hmaj. unfold version_count in Hmaj.
      destruct (filter (λ b, b = true) (zip_with (holds_version T) metas errs)) as [|b l] eqn:E;
        [simpl in Hmaj; lia|].
      assert (Hb : b ∈ b :: l) by constructor. rewrite <- E in Hb.
      apply list_elem_of_filter in Hb as [Hbt [i Hi]%list_elem_of_lookup]. eauto. }
    apply lookup_zip_with_Some in Hi as (mt' & e' & Hv & Hm & He).
    destruct Hpick as [_ Hno]. apply (Hno mt').
    + by eapply list_elem_of_lookup_2.
    + eapply ov_valid; [done|exact Hm|exact He|done].
    + unfold holds_version in Hv. destruct e'; [done|]. by apply Z.eqb_eq.
  - destruct Hpick as (Hin & Hval & Ht). exists mt. split; [done|]. by apply (ov_meta _ _ _ Hov).
Qed.

(** [GetObject] without the cache. *)
Lemma GetObject_ok timeNow cacheNow closeNow (xl : xlObjects D) disks metas errs (w : W) off len length_ :
  checkGetObjArgs bucket object = None →
  readAllXLMetadata (storageDisks xl) bucket object = (disks, (metas, errs)) →
  object_version disks metas errs → T ≠ timeNow →
  (2 ≤ readQuorum xl ≤ version_count T metas errs)%nat → objCacheEnabled xl = false →
  (0 < len)%nat → (off + len ≤ length (concat datas))%nat →
  length_ = Z.of_nat len ∨ (length_ < 0 ∧ (off + len = length (concat datas))%nat) →
  ∃ xl' w' e, GetObject bitRotAlgo fuel pools timeNow cacheNow closeNow xl bucket object
                (Z.of_nat off) length_ (Some w) = Ret (xl', Some w', e) ∧
    (∃ q, (q ≤ len)%nat ∧ written w' = written w ++ take q (drop off (concat datas))) ∧
    (e = None → written w' = written w ++ take len (drop off (concat datas))) ∧
    (w_accepts w → (k ≤ good_count k m good)%nat → e = None).
Proof.
  intros Hargs Hread Hov Hnow Hrq Hcache Hlen Hle Hl. unfold GetObject.
  rewrite Hargs, Hread, (proj2 (Z.ltb_ge (Z.of_nat off) 0)) by lia.
  assert (Hlm : length errs = length metas) by (rewrite (ov_metas _ _ _ Hov), (ov_errs _ _ _ Hov); done).
  destruct (version_votes T metas errs quorumIgnoredErrs ltac:(done)) as [Hv1 _].
  rewrite (proj2 (isDiskQuorum_count errs (readQuorum xl))).
  2: { transitivity (occ None (votes quorumIgnoredErrs errs)); [lia|]. apply length_filter. }
  cbn [negb].
  destruct (version_votes T metas errs objectOpIgnoredErrs ltac:(done)) as [Hv2 Hv3].
  pose proof (ov_majority _ _ _ Hov) as Hmaj. rewrite (ov_errs _ _ _ Hov) in Hv3.
  unfold reduceReadQuorumErrs. rewrite reduceQuorumErrs_majority by lia.
  destruct (listOnlineDisks_majority timeNow T disks metas errs) as (online & -> & Hlo & Hon);
    [done|by rewrite (ov_disks _ _ _ Hov), (ov_metas _ _ _ Hov)|apply (ov_time _ _ _ Hov)|done
    |by rewrite (ov_metas _ _ _ Hov)|].
  cbn [mbind go_bind]. destruct (version_picked _ _ _ Hov) as (mt & -> & Hmt).
  destruct Hmt as (Hval & Ht & Hsize & Hparts & Hdb & Hpb & Hbs & Hdist) eqn:Hmt'.
  rewrite Hdist. unfold getOrderedDisks, getOrderedPartsMetadata.
  destruct (scatter_perm dist _ online None (ov_dist _ _ _ Hov)) as (od & -> & Hod & Hodi);
    [by rewrite Hlo, (ov_disks _ _ _ Hov)|].
  cbn [mbind go_bind].
  destruct (scatter_perm dist _ metas xlMetaV1_zero (ov_dist _ _ _ Hov)) as (om & -> & Hom & Homi);
    [by apply (ov_metas _ _ _ Hov)|].
  cbn [mbind go_bind]. rewrite Hsize.
  assert ((if length_ <? 0 then int64_wrap (zlen (concat datas) - Z.of_nat off) else length_) =
          Z.of_nat len) as ->.
  { unfold is_int64, zlen in *. destruct Hl as [-> | [? ?]].
    - by rewrite (proj2 (Z.ltb_ge _ _)) by lia.
    - rewrite (proj2 (Z.ltb_lt _ _)) by lia. rewrite int64_wrap_id by (unfold is_int64; lia). lia. }
  cbv zeta. rewrite !int64_wrap_id by (unfold is_int64, zlen in *; lia).
  rewrite (proj2 (Z.ltb_ge _ (Z.of_nat off))), (proj2 (Z.ltb_ge _ (Z.of_nat off + _)))
    by (unfold zlen; lia).
  cbn [orb].
  assert (Hpd : Forall2 part_data (Parts mt) datas) by (by rewrite Hparts).
  destruct (ObjectToPartOffset_nat mt datas off Hpd) as (j & o & b & -> & Hb & Ho & Hpos); [lia|done|].
  replace (Z.of_nat off + Z.of_nat len - 1) with (Z.of_nat (off + len - 1)) by lia.
  destruct (ObjectToPartOffset_nat mt datas (off + len - 1) Hpd) as (j2 & o2 & b2 & -> & Hb2 & Ho2 & Hpos2);
    [lia|done|].
  rewrite Hcache, andb_false_r, Hbs, Hdb, !Nat2Z.id.
  rewrite getChunkSize_ceil by apply rs_k_pos. cbn [mbind go_bind].
  assert (Hat : at_part off len (Z.to_nat (Z.of_nat j2 - Z.of_nat j + 1)) j o 0).
  { split; [lia|]. intros _. split_and!; [lia|eauto|].
    pose proof (concat_take_S datas j2 b2 Hb2) as HS.
    assert (Hj : (j ≤ j2)%nat).
    { destruct (decide (j ≤ j2)%nat) as [|Hgt]; [done|].
      assert (Htk : (length (concat (take (S j2) datas)) ≤ length (concat (take j datas)))%nat).
      { pose proof (concat_take_le (take j datas) (S j2)) as Hc.
        rewrite take_take, Nat.min_l in Hc by lia. done. }
      lia. }
    replace (j + Z.to_nat (Z.of_nat j2 - Z.of_nat j + 1))%nat with (S j2) by lia. lia. }
  destruct (read_parts_ok mt ltac:(done) om Hom off len Hle _ j o 0%nat od (None, w) Hat)
    as (mw & e & q & Heq & Hq & Hw & He & Hlive).
  { by eapply ordered_disks_kept. }
  change (Z.of_nat 0) with 0 in Heq. rewrite Heq. destruct mw as [oc w']. cbn [mbind go_bind].
  rewrite Nat.sub_0_r, Nat.add_0_r in *. eexists _, w', e. split_and!; [done| | |].
  - exists q. done.
  - intros E. by rewrite <- (He E).
  - intros Ha Hg. by apply Hlive.
Qed.

(** C8.  Reading an object is correct.  Let more than half of the disks hold a
    version of the object, whatever the other disks report, with metadata that
    agrees on the layout, and let the cache be off.  [GetObject] of a non-empty
    range of the object always returns; what it writes to the client is a
    prefix of the range; without an error it is the whole range, across parts,
    whatever the disks hold; and with as many intact blocks as data blocks and
    a writer that accepts its input there is no error, whichever other disks
    are missing, corrupted, failing or out of date.  A negative length asks for
    the rest of the object. *)
Theorem GetObject_correct timeNow cacheNow closeNow (xl : xlObjects D) disks metas errs (w : W)
    off len length_ :
  checkGetObjArgs bucket object = None →
  readAllXLMetadata (storageDisks xl) bucket object = (disks, (metas, errs)) →
  object_version disks metas errs → T ≠ timeNow →
  (2 ≤ readQuorum xl ≤ version_count T metas errs)%nat → objCacheEnabled xl = false →
  (0 < len)%nat → (off + len ≤ length (concat datas))%nat →
  length_ = Z.of_nat len ∨ (length_ < 0 ∧ (off + len = length (concat datas))%nat) →
  ∃ xl' w' e, GetObject bitRotAlgo fuel pools timeNow cacheNow closeNow xl bucket object
                (Z.of_nat off) length_ (Some w) = Ret (xl', Some w', e) ∧
    (∃ q, (q ≤ len)%nat ∧ written w' = written w ++ take q (drop off (concat datas))) ∧
    (e = None → written w' = written w ++ take len (drop off (concat datas))) ∧
    (w_accepts w → (k ≤ good_count k m good)%nat → e = None).
Proof. apply GetObject_ok. Qed.

End Stored.

(** ** Witnesses *)

(** An object of two parts on three disks, with 2 data blocks and 1 parity
    block; the first disk is missing. *)
Definition get_datas : list bytes := [bytes_of_string "hello, world"; bytes_of_string "goodbye"].
Definition get_parts : list objectPartInfo :=
  [ObjectPartInfo 1 "part.1" "" 12; ObjectPartInfo 2 "part.2" "" 7].
Definition get_dist : list Z := [2; 3; 1].

Definition get_meta (i : nat) : xlMetaV1 :=
  XLMetaV1 xlMetaVersion xlMetaFormat (StatInfo 19 77)
    (ErasureInfo erasureAlgorithmKlauspost 2 1 5 (Z.of_nat i + 1) get_dist
       (zip_with (λ p b, CheckSumInfo (PartName p) blake2bAlgo (file_checksum 2 1 5 b "" i))
          get_parts get_datas)) "" ∅ get_parts.

Definition get_files (i : nat) : gmap (string * string) bytes :=
  list_to_map
    (zip_with (λ p b, (("bucket", pathJoin ["object"; PartName p]), shard_file 2 1 5 b i))
       get_parts get_datas ++
     [(("bucket", "object/xl.json"), bytes_of_positive (encode (get_meta i)))]).

Definition get_disk (i : nat) : MemDisk :=
  {| mem_files := get_files i; mem_vols := {["bucket"]}; mem_offline := false |}.

Definition get_xl : xlObjects MemDisk :=
  {| storageDisks := [None; Some (get_disk 2); Some (get_disk 0)]; dataBlocks := 2; parityBlocks := 1;
     readQuorum := 2; writeQuorum := 2; objCache := demo_cache; objCacheEnabled := false |}.

Definition get_metas : list xlMetaV1 := [xlMetaV1_zero; get_meta 2; get_meta 0].
Definition get_errs : list (option error) := [Some (errDiskNotFound : error); None; None].

(** The metadata file of a disk, without evaluating the codec. *)
Lemma get_meta_file i :
  get_files i !! ("bucket", "object/xl.json") = Some (bytes_of_positive (encode (get_meta i))).
Proof.
  unfold get_files. generalize (bytes_of_positive (encode (get_meta i))). intros b. by vm_compute.
Qed.

Lemma get_readXLMeta i :
  readXLMeta (get_disk i) "bucket" "object" = (get_disk i, (get_meta i, None)).
Proof.
  unfold readXLMeta. simpl ReadAll.
  change (path_Join ["object"; xlMetaJSONFile]) with "object/xl.json".
  assert (mem_check (get_disk i) "bucket" = None) as -> by (by vm_compute).
  rewrite get_meta_file.
  assert (Hj : json_Marshal (MetaJson := demo_json) (get_meta i) =
                 inl (bytes_of_positive (encode (get_meta i)))) by done.
  by rewrite (xlMetaV1UnmarshalJSON_Marshal _ _ Hj).
Qed.

Lemma get_read :
  readAllXLMetadata (storageDisks get_xl) "bucket" "object" =
    (storageDisks get_xl, (get_metas, get_errs)).
Proof.
  unfold get_xl, storageDisks. cbn [readAllXLMetadata]. by rewrite !get_readXLMeta.
Qed.

(** The files of the parts of a disk. *)
Lemma get_part_file i j p b :
  get_parts !! j = Some p → get_datas !! j = Some b →
  get_files i !! ("bucket", pathJoin ["object"; PartName p]) = Some (shard_file 2 1 5 b i) ∧
  part_hash blake2bAlgo (get_meta i) p = file_checksum 2 1 5 b "" i.
Proof.
  intros Hp Hb. split.
  - unfold get_files. cbn [get_parts get_datas zip_with app list_to_map foldr fmap list_fmap fst snd].
    destruct j as [|[|j]]; [..|done]; injection Hp as <-; injection Hb as <-.
    + by rewrite lookup_insert_eq.
    + rewrite lookup_insert_ne by (by vm_compute). by rewrite lookup_insert_eq.
  - destruct j as [|[|j]]; [..|done]; injection Hp as <-; injection Hb as <-; done.
Qed.

Lemma get_disk_sane i : (i < 3)%nat →
  shards_sane blake2bAlgo 100 2 1 5 "bucket" "object" get_parts get_datas i (get_meta i) (get_disk i).
Proof.
  intros Hi j p b c Hp Hb Hc. destruct (get_part_file i j p b Hp Hb) as [Hf _].
  unfold part_path in Hc. simpl in Hc. rewrite Hf in Hc. injection Hc as <-. split; [|done].
  apply Nat.ltb_lt. destruct j as [|[|j]]; [..|done]; injection Hb as <-.
  all: destruct i as [|[|[|i]]]; [by vm_compute..|lia].
Qed.

Lemma get_disk_intact i : (i < 3)%nat →
  shards_intact blake2bAlgo 2 1 5 "bucket" "object" get_parts get_datas i (get_meta i) (get_disk i).
Proof.
  intros Hi j p b Hp Hb. destruct (get_part_file i j p b Hp Hb) as [Hf Hh].
  split_and!; [by vm_compute|exact Hf|done|].
  destruct j as [|[|j]]; [..|done]; injection Hb as <-.
  all: destruct i as [|[|[|i]]]; [by vm_compute..|lia].
Qed.

Definition get_good (i : nat) : bool := (i =? 0)%nat || (i =? 2)%nat.

Lemma get_version :
  object_version blake2bAlgo 100 2 1 5 "bucket" "object" 77 get_parts get_datas get_dist get_good
    (storageDisks get_xl) get_metas get_errs.
Proof.
  split; try done.
  - apply Nat.ltb_lt. by vm_compute.
  - intros [|[|[|s]]] mt e; intros [= <-] [= <-] Hv; done.
  - intros mt Hm Hval Ht.
    assert (mt = xlMetaV1_zero ∨ mt = get_meta 2 ∨ mt = get_meta 0) as [-> |[-> | ->]].
    { unfold get_metas in Hm. rewrite !elem_of_cons in Hm.
      destruct Hm as [?|[?|[?|?%not_elem_of_nil]]]; auto; done. }
    all: done.
  - by apply (bool_decide_unpack _); vm_compute.
  - intros s b d mt e Hs Hd Hm He Hv.
    destruct s as [|[|[|s]]]; simplify_eq/=; apply get_disk_sane; lia.
  - intros i Hi Hg. unfold get_good in Hg.
    assert (i = 0%nat ∨ i = 2%nat) as [-> | ->].
    { apply orb_prop in Hg as [Hg|Hg]; apply Nat.eqb_eq in Hg; auto. }
    + exists 2%nat, (get_disk 0), (get_meta 0), None. split_and!; try done. by apply get_disk_intact; lia.
    + exists 1%nat, (get_disk 2), (get_meta 2), None. split_and!; try done. by apply get_disk_intact; lia.
Qed.

(** Twelve bytes across the two parts, with one disk missing. *)
Lemma GetObject_correct_witness :
  ∃ xl', GetObject (H1 := map_order_rev) blake2bAlgo 100 (λ _, NewBytePool 3 3) 1000 1000 1000 get_xl
           "bucket" "object" 3 12 (Some []) = Ret (xl', Some (bytes_of_string "lo, worldgoo"), None).
Proof.
  destruct (GetObject_correct (H1 := map_order_rev) (W := bytes) blake2bAlgo 100 2 1 5 "bucket" "object" 77 get_parts get_datas
    get_dist get_good ltac:(lia) ltac:(lia)
    ltac:(repeat constructor; simpl; lia) ltac:(by vm_compute)
    (λ _, NewBytePool 3 3)
    ltac:(intros i; split_and!; [apply NewBytePool_wf|apply Nat.leb_le; by vm_compute|apply Nat.leb_le; by vm_compute])
    1000 1000 1000 get_xl (storageDisks get_xl) get_metas get_errs [] 3 12 12)
    as (xl' & w' & e & Heq & _ & Hok & Hlive).
  - by vm_compute.
  - apply get_read.
  - apply get_version.
  - done.
  - split; apply Nat.leb_le; by vm_compute.
  - done.
  - lia.
  - apply Nat.leb_le. by vm_compute.
  - by left.
  - assert (e = None) as -> by (apply Hlive; [done|apply Nat.leb_le; by vm_compute]).
    exists xl'. specialize (Hok eq_refl). change (written w') with w' in Hok.
    rewrite Hok in Heq. exact Heq.
Defined.
