(* ===== verification/XLPut.v ===== *)
(** * Writing objects of the XL backend

    [PutObject], [DeleteObject] and [CopyObject] (src/cmd/xl-v1-object.go).  An
    object is staged under a fresh name in the volume of temporary files and
    committed by renaming its directory on every disk.

    Parameters.  [md5_Sum] is crypto/md5, [mimedb_DB] the generated table of
    src/pkg/mimedb.  The slice
    of ordered disks holds the same disks as [xl.storageDisks]; since a disk is
    a value here, [getOrderedDisks] takes the disks out of their slots and
    [gather] puts them back. *)

From S2P Require Import Prelude.
From S2P Require Import GoErrors.
From S2P Require Import GoStrings.
From S2P Require Import Quorum.
From S2P Require Import Distribution.
From S2P Require Import XLMeta.
From S2P Require Import Storage.
From S2P Require Import Bpool.
From S2P Require Import Erasure.
From S2P Require Import ErasureSpec.
From S2P Require Import XorCode.
From S2P Require Import ErasureRead.
From S2P Require Import ErasureWrite.
From S2P Require Import Healing.
From S2P Require Import ObjCache.
From S2P Require Import ObjectNames.
From S2P Require Import DiskContract.
From S2P Require Import XLDisk.
From S2P Require Import XLCommon.
From S2P Require Import XLBucket.
From S2P Require Import XLObject.

Local Open Scope Z_scope.

(** [io.LimitReader]. *)
Definition io_LimitReader (r : reader) (n : Z) : reader :=
  {| rd_data := take (Z.to_nat n) (rd_data r);
     rd_err := if n <=? zlen (rd_data r) then (io_EOF : error) else rd_err r |}.

(** What [PutObject] takes from the clock and from [mustGetUUID]. *)
Record put_env := {
  now_bucket : string;
  now_parent : nat → string;
  now_object : string;
  uniqueID : string;
  newUniqueID : string;
  put_modTime : time;
  put_cacheNow : Z;
}.

Definition ObjectInfo_zero : ObjectInfo :=
  {| IsDir := false; Bucket := ""; Name := ""; Size := 0; ObjModTime := zeroTime; MD5Sum := "";
     ContentType := ""; ContentEncoding := ""; UserDefined := ∅; ObjHealInfo := None |}.

Definition set_disks {D} (xl : xlObjects D) (disks : list (option D)) : xlObjects D :=
  {| storageDisks := disks; dataBlocks := dataBlocks xl; parityBlocks := parityBlocks xl;
     readQuorum := readQuorum xl; writeQuorum := writeQuorum xl; objCache := objCache xl;
     objCacheEnabled := objCacheEnabled xl |}.

Definition set_meta (m : xlMetaV1) (meta : gmap string string) : xlMetaV1 :=
  XLMetaV1 (Version m) (Format m) (Stat m) (Erasure m) (MinioRelease m) meta (Parts m).

Definition set_stat (m : xlMetaV1) (stat : statInfo) : xlMetaV1 :=
  XLMetaV1 (Version m) (Format m) stat (Erasure m) (MinioRelease m) (Meta m) (Parts m).

Definition set_erasure (m : xlMetaV1) (e : erasureInfo) : xlMetaV1 :=
  XLMetaV1 (Version m) (Format m) (Stat m) e (MinioRelease m) (Meta m) (Parts m).

(** The cache block: the entry is dropped and a new one is opened; a full cache
    is no error. *)
Definition put_cache (cache : Cache) (enabled : bool) (key : string) (size : Z)
    : Cache * (option cappedWriter + error) :=
  if (0 <? size) && enabled then
    let cache := Delete cache key in
    match Create cache key size with
    | inl newBuffer => (cache, inl (Some newBuffer))
    | inr err =>
        if err_eqb (Some err) (Some (ErrCacheFull : error)) then (cache, inl None)
        else (cache, inr err)
    end
  else (cache, inl None).

Section Put.
Context `{GJson, MetaJson, MapOrder, Hashes, ReedSolomon}.
Context {D : Type} `{!StorageAPI D}.
(** The server's default bit-rot algorithm and release. *)
Context (bitRotAlgo ReleaseTag : string).
Context (md5_Sum : bytes → bytes) (mimedb_DB : string → option string).

Fixpoint prepare_all (disks : list (option D)) (path : string) (size : Z) (e : erasureInfo)
    : go (list (option D)) :=
  match disks with
  | [] => Ret []
  | None :: disks' => ds ← prepare_all disks' path size e; mret (None :: ds)
  | Some disk :: disks' =>
      actualSize ← sizeOnDisk size (BlockSize e) (Z.to_nat (DataBlocks e));
      let disk := (PrepareFile disk minioMetaTmpBucket path actualSize).1 in
      ds ← prepare_all disks' path size e;
      mret (Some disk :: ds)
  end.

(** The deferred [xl.deleteObject(minioMetaTmpBucket, id)], last one first. *)
Fixpoint run_deferred (fuel : nat) (writeQuorum : nat) (disks : list (option D)) (ids : list string)
    : go (list (option D)) :=
  match ids with
  | [] => Ret disks
  | id :: ids' =>
      '(disks, _) ← deleteObject fuel writeQuorum disks minioMetaTmpBucket id;
      run_deferred fuel writeQuorum disks ids'
  end.

(** The metadata that [PutObject] stores: the md5 sum and a content type. *)
Definition fill_metadata (metadata : gmap string string) (object newMD5Hex : string)
    : gmap string string :=
  let metadata :=
    if bool_decide (default "" (metadata !! "md5Sum") = "")
    then <["md5Sum" := newMD5Hex]> metadata else metadata in
  if bool_decide (default "" (metadata !! "content-type") = "") then
    let objectExt := path_Ext object in
    if bool_decide (objectExt = "") then metadata
    else match mimedb_DB (ToLower (TrimPrefix objectExt ".")) with
         | Some content => <["content-type" := content]> metadata
         | None => metadata
         end
  else metadata.

(** The metadata of every disk: a copy with the checksum of its file. *)
Fixpoint parts_metadata (n : nat) (xlMeta : xlMetaV1) (checkSums : list string) : go (list xlMetaV1) :=
  match n with
  | O => Ret []
  | S n' =>
      match checkSums with
      | [] => Panic
      | sum :: checkSums' =>
          ms ← parts_metadata n' xlMeta checkSums';
          mret (set_erasure xlMeta (AddCheckSumInfo (Erasure xlMeta)
                                      (CheckSumInfo "part.1" bitRotAlgo sum)) :: ms)
      end
  end.

Definition put_info (bucket object : string) (m : xlMetaV1) : ObjectInfo :=
  {| IsDir := false; Bucket := bucket; Name := object; Size := StatSize (Stat m);
     ObjModTime := ModTime (Stat m); MD5Sum := default "" (Meta m !! "md5Sum");
     ContentType := default "" (Meta m !! "content-type");
     ContentEncoding := default "" (Meta m !! "content-encoding");
     UserDefined := Meta m; ObjHealInfo := None |}.

(** The return of [PutObject] with an error: the deferred deletes run. *)
Definition put_fail (fuel : nat) (xl : xlObjects D) (disks : list (option D)) (ids : list string)
    (err : option error) : go (xlObjects D * (ObjectInfo * option error)) :=
  disks ← run_deferred fuel (writeQuorum xl) disks ids;
  mret (set_disks xl disks, (ObjectInfo_zero, err)).

(** The end of [PutObject], once the data is staged and checked: the metadata
    is staged, the object is committed and the cache entry is closed. *)
Definition put_commit (fuel : nat) (env : put_env) (xl : xlObjects D) (disks : list (option D))
    (ids : list string) (bucket object : string) (size : Z) (xlMeta : xlMetaV1)
    (checkSums : list string) (newBuffer : option cappedWriter)
    : go (xlObjects D * (ObjectInfo * option error)) :=
  let tempObj := uniqueID env in
  let dist := Distribution (Erasure xlMeta) in
  partsMetadata ← parts_metadata (length (storageDisks xl)) xlMeta checkSums;
  onlineDisks ← getOrderedDisks dist disks;
  '(onlineDisks, _, err) ←
    writeUniqueXLMetadata onlineDisks minioMetaTmpBucket tempObj partsMetadata (writeQuorum xl);
  match err with
  | Some e =>
      disks ← gather dist onlineDisks;
      put_fail fuel xl disks ids (toObjectErr (Some e) [bucket; object])
  | None =>
      let '(onlineDisks, err) :=
        renameObject onlineDisks minioMetaTmpBucket tempObj bucket object (writeQuorum xl) in
      disks ← gather dist onlineDisks;
      match err with
      | Some e => put_fail fuel xl disks ids (toObjectErr (Some e) [bucket; object])
      | None =>
          let xl :=
            match newBuffer with
            | Some cbuf =>
                if 0 <? size
                then set_cache xl (onClose (objCache xl) (path_Join [bucket; object]) size
                                     (put_cacheNow env) cbuf).1.1
                else xl
            | None => xl
            end in
          disks ← run_deferred fuel (writeQuorum xl) disks ids;
          mret (set_disks xl disks, (put_info bucket object xlMeta, None))
      end
  end.

(** [PutObject] once the data is staged: the size and the digests are checked
    and an old version is moved away.  [read] is what was read from the
    client. *)
Definition put_verify (fuel : nat) (env : put_env) (xl : xlObjects D) (disks : list (option D))
    (bucket object : string) (size : Z) (read : bytes) (metadata : gmap string string)
    (sha256sum : string) (xlMeta : xlMetaV1) (sizeWritten : Z) (checkSums : list string)
    (newBuffer : option cappedWriter) : go (xlObjects D * (ObjectInfo * option error)) :=
  let tempObj := uniqueID env in
  if sizeWritten <? size
  then put_fail fuel xl disks [tempObj] (traceError (Some (IncompleteBody "" "" : error)) [])
  else
  let size := if size =? -1 then sizeWritten else size in
  let newMD5Hex := hex_encode (md5_Sum read) in
  let metadata := fill_metadata metadata object newMD5Hex in
  let md5Hex := default "" (metadata !! "md5Sum") in
  if negb (bool_decide (md5Hex = "")) && negb (bool_decide (newMD5Hex = md5Hex))
  then put_fail fuel xl disks [tempObj] (traceError (Some (BadDigest md5Hex newMD5Hex : error)) [])
  else if negb (bool_decide (sha256sum = "")) &&
          negb (bool_decide (hex_encode (sha256_Sum read) = sha256sum))
  then put_fail fuel xl disks [tempObj] (traceError (Some (SHA256Mismatch : error)) [])
  else
  '(disks, isParent) ← parentDirIsObject fuel (now_parent env) disks bucket (path_Dir object);
  if (isParent : bool)
  then put_fail fuel xl disks [tempObj]
         (toObjectErr (traceError (Some (errFileAccessDenied : error)) []) [bucket; object])
  else
  '(disks, exists_) ← isObject (now_object env) disks bucket object;
  let '(disks, err) :=
    if (exists_ : bool)
    then renameObject disks bucket object minioMetaTmpBucket (newUniqueID env) (writeQuorum xl)
    else (disks, None) in
  let ids := if (exists_ : bool) then [newUniqueID env; tempObj] else [tempObj] in
  match err with
  | Some err => put_fail fuel xl disks ids (toObjectErr (Some err) [bucket; object])
  | None =>
      let xlMeta := set_stat (set_meta xlMeta metadata) (StatInfo size (put_modTime env)) in
      let xlMeta := AddObjectPart xlMeta 1 "part.1" newMD5Hex size in
      let cbuf := (λ w, (capped_Write w read).1) <$> newBuffer in
      put_commit fuel env xl disks ids bucket object size xlMeta checkSums cbuf
  end.

(** [PutObject] from the staging of the data on; [teeReader] delivers the data
    of the client, and the hashes and the cache entry get what was read. *)
Definition put_stage (fuel : nat) (env : put_env) (xl : xlObjects D) (disks : list (option D))
    (bucket object : string) (size : Z) (teeReader : reader) (metadata : gmap string string)
    (sha256sum : string) (xlMeta : xlMetaV1) (newBuffer : option cappedWriter)
    : go (xlObjects D * (ObjectInfo * option error)) :=
  let tempErasureObj := path_Join [uniqueID env; "part.1"] in
  let e := Erasure xlMeta in
  onlineDisks ← getOrderedDisks (Distribution e) disks;
  onlineDisks ← (if 0 <? size then prepare_all onlineDisks tempErasureObj size e else mret onlineDisks);
  '(onlineDisks, (sizeWritten, checkSums, err)) ←
    erasureCreateFile fuel onlineDisks minioMetaTmpBucket tempErasureObj teeReader
      (Z.to_nat (BlockSize e)) (DataBlocks e) (ParityBlocks e) bitRotAlgo (writeQuorum xl);
  disks ← gather (Distribution e) onlineDisks;
  match err with
  | Some err =>
      put_fail fuel xl disks [uniqueID env] (toObjectErr (Some err) [minioMetaTmpBucket; tempErasureObj])
  | None =>
      put_verify fuel env xl disks bucket object size (rd_data teeReader) metadata sha256sum xlMeta
        sizeWritten checkSums newBuffer
  end.

(** The reader and the hash writers are shared by the blocks: the input of the
    hashes is what was read, and the cache entry gets it in order (the chunks
    do not matter, as the capped writer has room for all of them).  [fuel] is
    for the loop over the blocks, the parents of the object and the depth of
    the deleted directories. *)
Definition PutObject (fuel : nat) (env : put_env) (xl : xlObjects D) (bucket object : string)
    (size : Z) (data : reader) (metadata : gmap string string) (sha256sum : string)
    : go (xlObjects D * (ObjectInfo * option error)) :=
  '(disks, (_, bErr)) ← GetBucketInfo (now_bucket env) (storageDisks xl) bucket;
  match checkPutObjectArgs (λ _, bErr) bucket object with
  | Some err => mret (set_disks xl disks, (ObjectInfo_zero, Some err))
  | None =>
      let '(cache, r) :=
        put_cache (objCache xl) (objCacheEnabled xl) (path_Join [bucket; object]) size in
      let xl := set_cache xl cache in
      match r with
      | inr err =>
          mret (set_disks xl disks,
                (ObjectInfo_zero, toObjectErr (traceError (Some err) []) [bucket; object]))
      | inl newBuffer =>
          let teeReader := if 0 <? size then io_LimitReader data size else data in
          xlMeta ← newXLMetaV1 ReleaseTag object (dataBlocks xl) (parityBlocks xl);
          put_stage fuel env xl disks bucket object size teeReader metadata sha256sum xlMeta newBuffer
      end
  end.

(** ** CopyObject *)

(** What [CopyObject] takes from the clock and from [mustGetUUID]. *)
Record copy_env := {
  cp_timeNow : Z;
  cp_tempObj : string;
  cp_getTimes : Z * Z * Z;
  cp_put : put_env;
}.

(** The disks that were not online are where they were. *)
Definition merge_disks (online disks : list (option D)) : list (option D) :=
  zip_with (λ o d, match o with Some _ => o | None => d end) online disks.

(** The branch of [CopyObject] for an update of the metadata. *)
Definition copy_metadata (env : copy_env) (xl : xlObjects D) (disks onlineDisks : list (option D))
    (srcBucket srcObject : string) (xlMeta : xlMetaV1) (metadata : gmap string string)
    : go (xlObjects D * (ObjectInfo * option error)) :=
  let xlMeta := set_meta xlMeta metadata in
  let dist := Distribution (Erasure xlMeta) in
  let partsMetadata := replicate (length (storageDisks xl)) xlMeta in
  let back onlineDisks := online ← gather dist onlineDisks; mret (set_disks xl (merge_disks online disks)) in
  let tempObj := cp_tempObj env in
  '(onlineDisks, _, err) ←
    writeUniqueXLMetadata onlineDisks minioMetaTmpBucket tempObj partsMetadata (writeQuorum xl);
  match err with
  | Some e =>
      xl ← back onlineDisks; mret (xl, (ObjectInfo_zero, toObjectErr (Some e) [srcBucket; srcObject]))
  | None =>
      let '(onlineDisks, err) :=
        renameXLMetadata onlineDisks minioMetaTmpBucket tempObj srcBucket srcObject (writeQuorum xl) in
      xl ← back onlineDisks;
      match err with
      | Some e => mret (xl, (ObjectInfo_zero, toObjectErr (Some e) [srcBucket; srcObject]))
      | None =>
          let info := put_info srcBucket srcObject xlMeta in
          mret (xl,
            ({| IsDir := false; Bucket := srcBucket; Name := srcObject; Size := Size info;
                ObjModTime := ObjModTime info; MD5Sum := MD5Sum info; ContentType := ContentType info;
                ContentEncoding := ContentEncoding info; UserDefined := delete "md5Sum" (Meta xlMeta);
                ObjHealInfo := None |}, None))
      end
  end.

(** The copy of the data goes through a pipe: what [GetObject] writes is what
    [PutObject] reads, and an error of [GetObject] ends the reader.  The put only
    renames once the reader has ended, so that the get comes first here.
    [pipeWriter] is the bytes written. *)
Definition CopyObject (fuel rfuel : nat) (pools : nat → BytePool) (env : copy_env) (xl : xlObjects D)
    (srcBucket srcObject dstBucket dstObject : string) (metadata : gmap string string)
    : go (xlObjects D * (ObjectInfo * option error)) :=
  let '(disks, (metaArr, errs)) := readAllXLMetadata (storageDisks xl) srcBucket srcObject in
  let xl := set_disks xl disks in
  if negb (isDiskQuorum errs (readQuorum xl))
  then Ret (xl, (ObjectInfo_zero, traceError (Some (InsufficientReadQuorum : error)) errs))
  else
  match reduceReadQuorumErrs errs objectOpIgnoredErrs (readQuorum xl) with
  | Some reducedErr => Ret (xl, (ObjectInfo_zero, toObjectErr (Some reducedErr) [srcBucket; srcObject]))
  | None =>
      '(onlineDisks, modTime) ← listOnlineDisks (cp_timeNow env) disks metaArr errs;
      let '(xlMeta, err) := pickValidXLMeta metaArr modTime in
      match err with
      | Some e => mret (xl, (ObjectInfo_zero, toObjectErr (Some e) [srcBucket; srcObject]))
      | None =>
          onlineDisks ← getOrderedDisks (Distribution (Erasure xlMeta)) onlineDisks;
          let length_ := StatSize (Stat xlMeta) in
          if strings_EqualFold (pathJoin [srcBucket; srcObject]) (pathJoin [dstBucket; dstObject])
          then copy_metadata env xl disks onlineDisks srcBucket srcObject xlMeta metadata
          else
            let '(timeNow, cacheNow, closeNow) := cp_getTimes env in
            '(xl, pipe, gerr) ←
              GetObject (W := bytes) bitRotAlgo rfuel pools timeNow cacheNow closeNow xl srcBucket srcObject
                0 length_ (Some []);
            let pipeReader :=
              {| rd_data := default [] pipe;
                 rd_err := match gerr with
                           | None => (io_EOF : error)
                           | Some e => default e (toObjectErr (Some e) [srcBucket; srcObject])
                           end |} in
            '(xl, (objInfo, err)) ←
              PutObject fuel (cp_put env) xl dstBucket dstObject length_ pipeReader metadata "";
            match err with
            | Some e => mret (xl, (ObjectInfo_zero, toObjectErr (Some e) [dstBucket; dstObject]))
            | None => mret (xl, (objInfo, None))
            end
      end
  end.

(** ** DeleteObject *)

Definition DeleteObject (fuel : nat) (now : string) (xl : xlObjects D) (bucket object : string)
    : go (xlObjects D * option error) :=
  match checkDelObjArgs bucket object with
  | Some err => Ret (xl, Some err)
  | None =>
      '(disks, ok) ← isObject now (storageDisks xl) bucket object;
      if negb ok
      then mret (set_disks xl disks, traceError (Some (ObjectNotFound bucket object : error)) [])
      else
        '(disks, err) ← deleteObject fuel (writeQuorum xl) disks bucket object;
        match err with
        | Some e => mret (set_disks xl disks, toObjectErr (Some e) [bucket; object])
        | None =>
            let xl := set_disks xl disks in
            if objCacheEnabled xl
            then mret (set_cache xl (Delete (objCache xl) (pathJoin [bucket; object])), None)
            else mret (xl, None)
        end
  end.

End Put.
