(* ===== verification/XLStage.v ===== *)
(** * Staging and committing an object

    The state of a disk while [PutObject] writes an object: the files of the
    object, of the staging directory and of the directory that takes the old
    version.  Every call of [PutObject] is a step between such states. *)

From S2P Require Import Prelude.
From S2P Require Import GoErrors.
From S2P Require Import GoStrings.
From S2P Require Import Quorum.
From S2P Require Import Distribution.
From S2P Require Import XLMeta.
From S2P Require Import Storage.
From S2P Require Import Erasure.
From S2P Require Import ErasureSpec.
From S2P Require Import ErasureWrite.
From S2P Require Import ObjectNames.
From S2P Require Import DiskContract.
From S2P Require Import XLDisk.
From S2P Require Import XLCommon.
From S2P Require Import XLPut.

Local Open Scope Z_scope.

(** ** Paths *)

Lemma plain_slash e : plain_elem e → "/"%char ∉ bytes_of_string e.
Proof. by intros (_ & _ & _ & ?). Qed.

(** A path below a single element determines the element. *)
Lemma slash_inj a b r1 r2 : plain_elem a → plain_elem b → a +:+ "/" +:+ r1 = b +:+ "/" +:+ r2 → a = b ∧ r1 = r2.
Proof.
  intros Ha%plain_slash Hb%plain_slash E. assert (E' := E).
  apply (f_equal (λ s, Split s "/")) in E'. rewrite !Split_slash, (Split_plain a), (Split_plain b) in E' by done.
  simpl in E'. injection E' as -> _. split; [done|]. by eapply slash_cancel.
Qed.

Lemma slash_longer s r : s +:+ "/" +:+ r ≠ s.
Proof.
  intros E. apply (f_equal (λ s, length (bytes_of_string s))) in E.
  rewrite !bytes_of_string_app, !length_app in E. simpl in E. lia.
Qed.

Lemma plain_ne_slash a b r : plain_elem a → a ≠ b +:+ "/" +:+ r.
Proof.
  intros Ha%plain_slash ->. apply Ha. rewrite !bytes_of_string_app, !elem_of_app. right. left. left.
Qed.

(** An element below which there is something is followed by one element only. *)
Lemma slash_elem_inj s x a r : plain_elem s → plain_elem x → s +:+ "/" +:+ x = a +:+ "/" +:+ r → a = s ∧ r = x.
Proof.
  intros Hs Hx E. assert (E' := E). apply (f_equal (λ s, Split s "/")) in E'.
  apply plain_slash in Hs, Hx. rewrite !Split_slash, (Split_plain s), (Split_plain x) in E' by done.
  destruct (Split a "/") as [|a1 al] eqn:Ea; [by apply Split_ne in Ea|].
  destruct (Split r "/") as [|r1 rl] eqn:Er; [by apply Split_ne in Er|].
  destruct al as [|a2 al]; [|by destruct al]. simpl in E'. injection E' as <- <- <-.
  split; [by rewrite <- (Join_Split a), Ea|by rewrite <- (Join_Split r), Er].
Qed.

(** The path is below the directory. *)
Lemma below s r : HasPrefix (s +:+ "/" +:+ r) (s +:+ "/") = true.
Proof. apply HasPrefix_iff. exists r. by rewrite str_app_assoc. Qed.

(** Neither an ancestor of a path nor its metadata is below the path. *)
Lemma ancestor_not_below a p : ancestor a p → HasPrefix a (p +:+ "/") = false.
Proof.
  intros Ha. destruct (HasPrefix a (p +:+ "/")) eqn:E; [|done]. apply HasPrefix_iff in E as [q Hq].
  apply (f_equal (λ s, length (bytes_of_string s))) in Hq.
  rewrite !bytes_of_string_app, !length_app in Hq. destruct Ha as [->|[r ->]].
  - simpl in Hq. lia.
  - rewrite !bytes_of_string_app, !length_app in Hq. simpl in Hq. lia.
Qed.

Lemma sibling_not_below a r e : plain_elem e → HasPrefix (a +:+ "/" +:+ e) ((a +:+ "/" +:+ r) +:+ "/") = false.
Proof.
  intros He%plain_slash. destruct (HasPrefix _ _) eqn:E; [|done]. apply HasPrefix_iff in E as [q Hq].
  rewrite <- !str_app_assoc in Hq. apply slash_cancel in Hq. exfalso. apply He. rewrite Hq.
  rewrite !bytes_of_string_app, !elem_of_app. right. left. left.
Qed.

(** ** The state of a disk *)

Section Stage.
Context {D : Type} `{!StorageAPI D} `{!StorageContract D} `{!Volumes D} `{!DiskContract D}.
Context (bucket object id newid : string) (files0 : string → string → option bytes).

Let tmp := minioMetaTmpBucket.

(** The path is in the staging directory or in that of the old version. *)
Definition staging (v p : string) : Prop :=
  v = tmp ∧ (HasPrefix p (id +:+ "/") = true ∨ HasPrefix p (newid +:+ "/") = true).

(** [obj], [stg] and [nw] are the files of the object, of the staging directory
    and of the old version's temporary directory; every other file is as in
    [files0]. *)
Record stage (obj stg nw : string → option bytes) (d : D) : Prop := {
  stage_bucket : has_vol d bucket;
  stage_tmp : has_vol d tmp;
  stage_frame : ∀ v p, ¬ staging v p → ¬ (v = bucket ∧ HasPrefix p (object +:+ "/") = true) →
    file_at d v p = files0 v p;
  stage_obj : ∀ r, file_at d bucket (object +:+ "/" +:+ r) = obj r;
  stage_stg : ∀ r, file_at d tmp (id +:+ "/" +:+ r) = stg r;
  stage_nw : ∀ r, file_at d tmp (newid +:+ "/" +:+ r) = nw r;
  stage_ids : file_at d tmp id = None ∧ file_at d tmp newid = None;
}.

Lemma stage_ext obj obj' stg stg' nw nw' d :
  (∀ r, obj r = obj' r) → (∀ r, stg r = stg' r) → (∀ r, nw r = nw' r) →
  stage obj stg nw d → stage obj' stg' nw' d.
Proof. intros Ho Hs Hn []. split; try done; intros r; [rewrite <- Ho|rewrite <- Hs|rewrite <- Hn]; done. Qed.

Lemma stage_same obj stg nw d d' : stage obj stg nw d → same_disk d d' → stage obj stg nw d'.
Proof. intros [] [Hv Hf]. split; auto; intros; rewrite !Hf by done; auto. Qed.

Context (id_plain : plain_elem id) (newid_plain : plain_elem newid) (ids_ne : id ≠ newid).
Context (object_clean : clean_path object) (bucket_tmp : bucket ≠ tmp).

(** A file of the staging directory changes. *)
Lemma stage_update x obj stg nw d d' :
  stage obj stg nw d → but_file tmp (id +:+ "/" +:+ x) d d' →
  stage obj (λ r, if decide (r = x) then file_at d' tmp (id +:+ "/" +:+ x) else stg r) nw d'.
Proof.
  intros [Hb Ht Hfr Ho Hs Hn [Hi Hi']] [Hv Hf]. split; auto.
  - intros v p Hne Hp. rewrite Hf; [by apply Hfr|]. intros [= -> ->]. apply Hne. split; [done|left; apply below].
  - intros r. rewrite Hf; [done|]. by intros [= ? _].
  - intros r. case_decide as Hr; [by subst|]. rewrite Hf; [done|]. intros [= E%slash_cancel]. done.
  - intros r. rewrite Hf; [done|]. intros [= E]. by apply slash_inj in E as [? _].
  - split; (rewrite Hf; [done|]); intros [= E]; by apply plain_ne_slash in E.
Qed.

(** A file of the staging directory can be created. *)
Lemma stage_free x obj stg nw d :
  stage obj stg nw d → plain_elem x → (∀ r, r ≠ x → HasPrefix r x = true → stg r = None) →
  free_name d tmp (id +:+ "/" +:+ x).
Proof.
  intros [Hb Ht Hfr Ho Hs Hn [Hi Hi']] Hx Hst. split.
  - intros a r E. apply slash_elem_inj in E as [-> ->]; done.
  - intros [r [c Hr]]. rewrite <- !str_app_assoc in Hr. rewrite Hs, Hst in Hr; [done| |apply HasPrefix_app].
    intros E. assert (Hxs := plain_slash x Hx). apply Hxs. rewrite <- E.
    rewrite !bytes_of_string_app, !elem_of_app. right. left. left.
Qed.

(** The staging directory is deleted, or the old version. *)
Lemma stage_removed_id obj stg nw d d' :
  stage obj stg nw d → removed tmp id (λ _, True) d d' → stage obj (λ _, None) nw d'.
Proof.
  intros [Hb Ht Hfr Ho Hs Hn [Hi Hi']] [[Hv Hf] Hg]. split; auto.
  - intros v p Hne Hp. rewrite Hf; [by apply Hfr|]. intros r _ [= -> ->]. apply Hne. split; [done|left; apply below].
  - intros r. rewrite Hf; [done|]. intros r' _. by intros [= ? _].
  - intros r. rewrite Hf; [done|]. intros r' _ [= E]. by apply slash_inj in E as [? _].
  - split; (rewrite Hf; [done|]); intros r' _ [= E]; by apply plain_ne_slash in E.
Qed.

Lemma stage_removed_newid obj stg nw d d' :
  stage obj stg nw d → removed tmp newid (λ _, True) d d' → stage obj stg (λ _, None) d'.
Proof.
  intros [Hb Ht Hfr Ho Hs Hn [Hi Hi']] [[Hv Hf] Hg]. split; auto.
  - intros v p Hne Hp. rewrite Hf; [by apply Hfr|]. intros r _ [= -> ->]. apply Hne. split; [done|right; apply below].
  - intros r. rewrite Hf; [done|]. intros r' _. by intros [= ? _].
  - intros r. rewrite Hf; [done|]. intros r' _ [= E]. by apply slash_inj in E as [? _].
  - split; (rewrite Hf; [done|]); intros r' _ [= E]; by apply plain_ne_slash in E.
Qed.

Lemma not_below a b r : plain_elem a → plain_elem b → a ≠ b →
  ¬ (tmp = tmp ∧ HasPrefix (a +:+ "/" +:+ r) (b +:+ "/") = true).
Proof.
  intros Ha Hb Hne [_ [q E]%HasPrefix_iff]. rewrite <- str_app_assoc in E.
  by apply slash_inj in E as [? _].
Qed.

Lemma elem_not_below a b : plain_elem a → ¬ (tmp = tmp ∧ HasPrefix a (b +:+ "/") = true).
Proof.
  intros Ha [_ [q E]%HasPrefix_iff]. rewrite <- str_app_assoc in E. by apply plain_ne_slash in E.
Qed.

(** The old version moves away. *)
Lemma stage_moved_old obj stg d d' :
  stage obj stg (λ _, None) d → dir_moved d d' bucket object tmp newid → stage (λ _, None) stg obj d'.
Proof.
  intros [Hb Ht Hfr Ho Hs Hn [Hi Hi']] [Hv Hd Hsrc Hf]. split; auto.
  - intros v p Hne Hp. rewrite Hf; [by apply Hfr| |done]. intros [-> E]. apply Hne. by split; [|right].
  - intros r. apply eq_None_not_Some. intros Hr. apply Hsrc. by exists r.
  - intros r. rewrite Hf; [done|by apply not_below|]. by intros [? _].
  - intros r. by rewrite Hd.
  - split; (rewrite Hf; [done|by apply elem_not_below|]); by intros [? _].
Qed.

(** The staged version is committed. *)
Lemma stage_committed stg nw d d' :
  stage (λ _, None) stg nw d → dir_moved d d' tmp id bucket object → stage stg (λ _, None) nw d'.
Proof.
  intros [Hb Ht Hfr Ho Hs Hn [Hi Hi']] [Hv Hd Hsrc Hf]. split; auto.
  - intros v p Hne Hp. rewrite Hf; [by apply Hfr|done|]. intros [-> E]. apply Hne. by split; [|left].
  - intros r. by rewrite Hd.
  - intros r. apply eq_None_not_Some. intros Hr. apply Hsrc. by exists r.
  - intros r. rewrite Hf; [done|by intros [? _]|]. by apply not_below.
  - split; (rewrite Hf; [done|by intros [? _]|]); by apply elem_not_below.
Qed.

(** The name of the object is free once the old version is gone. *)
Lemma stage_object_free stg nw d :
  (∀ a, ancestor a object → files0 bucket a = None) →
  stage (λ _, None) stg nw d → free_name d bucket object ∧ file_at d bucket object = None.
Proof.
  intros Hanc [Hb Ht Hfr Ho Hs Hn _].
  assert (Hab : ∀ a, ancestor a object → file_at d bucket a = None).
  { intros a Ha. rewrite Hfr; [by apply Hanc|by intros [? _]|]. intros [_ E]. by rewrite ancestor_not_below in E. }
  split; [split|].
  - intros a r E. apply Hab. right. by exists r.
  - intros [r [c Hr]]. by rewrite Ho in Hr.
  - apply Hab. by left.
Qed.

Lemma stage_newid_free obj stg d :
  stage obj stg (λ _, None) d → free_name d tmp newid ∧ file_at d tmp newid = None.
Proof.
  intros [Hb Ht Hfr Ho Hs Hn [Hi Hi']]. split; [split|done].
  - intros a r E. by apply plain_ne_slash in E.
  - intros [r [c Hr]]. by rewrite Hn in Hr.
Qed.

End Stage.
