(* ===== verification/XLPutGet.v ===== *)
(** * What [PutObject] stores, [GetObject] returns

    The steps of [PutObject] on all disks, and the round trip: an object that
    was put is read back exactly, with up to [parityBlocks] disks missing. *)

From S2P Require Import Prelude.
From S2P Require Import GoErrors.
From S2P Require Import GoStrings.
From S2P Require Import Quorum.
From S2P Require Import Distribution.
From S2P Require Import XLMeta.
From S2P Require Import Storage.
From S2P Require Import Bpool.
From S2P Require Import Erasure.
From S2P Require Import ErasureSpec.
From S2P Require Import XorCode.
From S2P Require Import ErasureRead.
From S2P Require Import ErasureWrite.
From S2P Require Import Healing.
From S2P Require Import ObjCache.
From S2P Require Import ObjectNames.
From S2P Require Import DiskContract.
From S2P Require Import XLDisk.
From S2P Require Import XLCommon.
From S2P Require Import XLBucket.
From S2P Require Import XLObject.
From S2P Require Import XLPut.
From S2P Require Import XLStage.

Local Open Scope Z_scope.

(** ** Loops over the disks *)

Section Loops.
Context {D : Type} `{!StorageAPI D} `{!StorageContract D} `{!Volumes D} `{!DiskContract D}.

Lemma prepare_all_ok path size e : (0 < BlockSize e) → (0 < Z.to_nat (DataBlocks e))%nat →
  ∀ (ds : list (option D)) n cls (P Q : nat → D → Prop), slots (slot_is cls P) ds n →
  (∀ i d s d' err, up d → P i d → PrepareFile d minioMetaTmpBucket path s = (d', err) → up d' ∧ Q i d') →
  ∃ ds', prepare_all ds path size e = Ret ds' ∧ slots (slot_is cls Q) ds' n.
Proof.
  intros Hbs Hdb. assert (Hsz : ∃ s, sizeOnDisk size (BlockSize e) (Z.to_nat (DataBlocks e)) = Ret s).
  { unfold sizeOnDisk, getChunkSize. rewrite (proj2 (Z.eqb_neq (BlockSize e) 0)) by lia.
    rewrite (proj2 (Nat.eqb_neq _ 0)) by lia. cbn [mbind go_bind]. destruct (0 <? _); by eexists. }
  destruct Hsz as [s Hsz].
  induction ds as [|x ds IH]; intros n cls P Q HR Hstep.
  { apply slots_nil_inv in HR as ->. by exists []. }
  apply slots_cons_inv in HR as (m & -> & Hx & HR). cbn [prepare_all].
  destruct (IH m (λ i, cls (S i)) (λ i, P (S i)) (λ i, Q (S i)) HR) as (ds' & -> & Hds).
  { intros i. apply (Hstep (S i)). }
  rewrite Hsz. cbn [mbind go_bind]. destruct x as [d|].
  - eexists. split; [done|]. apply slots_cons. split; [|done]. unfold slot_is in *.
    destruct (cls 0%nat); [| |done].
    + destruct Hx as [Hup HP]. destruct (PrepareFile _ _ _ _) as [d' err] eqn:E. by eapply Hstep.
    + by destruct (down_PrepareFile d minioMetaTmpBucket path s Hx) as (d' & err & -> & Hd').
  - eexists. split; [done|]. apply slots_cons. split; [|done]. unfold slot_is in *. by destruct (cls 0%nat).
Qed.

Lemma rename_all_ok sv src dv dst : ∀ (ds : list (option D)) n cls (P Q : nat → D → Prop),
  slots (slot_is cls P) ds n →
  (∀ i d, up d → P i d → ∃ d' e, RenameFile d sv src dv dst = (d', e) ∧ up d' ∧ Q i d' ∧
     (e = None ∨ e = Some (errFileNotFound : error))) →
  ∃ ds' errs, rename_all ds sv src dv dst = (ds', errs) ∧ slots (slot_is cls Q) ds' n ∧ up_nil cls errs n.
Proof.
  induction ds as [|x ds IH]; intros n cls P Q HR Hstep.
  { apply slots_nil_inv in HR as ->. exists [], []. split_and!; [done|by split|]. split; [done|lia]. }
  apply slots_cons_inv in HR as (m & -> & Hx & HR). cbn [rename_all].
  destruct (IH m (λ i, cls (S i)) (λ i, P (S i)) (λ i, Q (S i)) HR) as (ds' & errs & -> & Hds & He).
  { intros i. apply (Hstep (S i)). }
  assert (Hcons : ∀ y e, slot_is cls Q 0 y → (cls 0%nat = DiskUp → e = None) →
    ∃ ds'' errs', (y :: ds', e :: errs) = (ds'', errs') ∧ slots (slot_is cls Q) ds'' (S m) ∧
      up_nil cls errs' (S m)).
  { intros y e Hy Hye. eexists _, _. split; [done|]. split; [by apply slots_cons|by apply up_nil_cons]. }
  unfold slot_is in Hx. destruct (cls 0%nat) eqn:Hc; destruct x as [d|]; try done.
  - destruct Hx as [Hup HP]. destruct (Hstep _ _ Hup HP) as (d' & e & -> & Hup' & HQ & He').
    apply Hcons; [unfold slot_is; by rewrite Hc|]. intros _. by destruct He' as [->| ->].
  - destruct (down_RenameFile d sv src dv dst Hx) as (d' & e & -> & Hd').
    apply Hcons; [unfold slot_is; by rewrite Hc|done].
  - apply Hcons; [unfold slot_is; by rewrite Hc|done].
Qed.

Lemma renameObject_ok `{MapOrder} sv src dv dst wq (ds : list (option D)) n cls (P Q : nat → D → Prop) :
  clean_path src → clean_path dst → slots (slot_is cls P) ds n →
  (2 ≤ wq)%nat → (n < 2 * wq)%nat → (wq ≤ count_good (λ i, is_up (cls i)) n)%nat →
  (∀ i d, up d → P i d → ∃ d' e, RenameFile d sv (src +:+ "/") dv (dst +:+ "/") = (d', e) ∧ up d' ∧ Q i d' ∧
     (e = None ∨ e = Some (errFileNotFound : error))) →
  ∃ ds', renameObject ds sv src dv dst wq = (ds', None) ∧ slots (slot_is cls Q) ds' n.
Proof.
  intros Hs Hd HR Hq Hm Hc Hstep. unfold renameObject, rename. rewrite !retainSlash_clean by done.
  destruct (rename_all_ok sv (src +:+ "/") dv (dst +:+ "/") ds n cls P Q HR Hstep) as (ds' & errs & -> & Hds & He).
  destruct (up_quorum cls errs n wq He Hq Hm Hc) as [-> ->]. cbn [negb]. by exists ds'.
Qed.

Lemma write_unique_slots `{MetaJson} bucket prefix : ∀ (ds : list (option D)) metas base n cls
    (P Q : nat → D → Prop), slots (slot_is cls P) ds n → length metas = n →
  (∀ i d mt, cls i = DiskUp → up d → P i d → metas !! i = Some mt →
     ∃ d', writeXLMetadata d bucket prefix (set_index mt (base + Z.of_nat i + 1)) = (d', None) ∧
       up d' ∧ Q i d') →
  ∃ ds' metas' errs, write_unique base ds bucket prefix metas = Ret (ds', metas', errs) ∧
    slots (slot_is cls Q) ds' n ∧ up_nil cls errs n.
Proof.
  induction ds as [|x ds IH]; intros metas base n cls P Q HR Hl Hstep.
  { apply slots_nil_inv in HR as ->. exists [], metas, []. split_and!; [done|by split|]. split; [done|lia]. }
  apply slots_cons_inv in HR as (m & -> & Hx & HR). destruct metas as [|mt metas]; [done|].
  destruct (IH metas (base + 1) m (λ i, cls (S i)) (λ i, P (S i)) (λ i, Q (S i)) HR)
    as (ds' & metas' & errs & Heq & Hds & He).
  { simpl in Hl. lia. }
  { intros i d mt' Hci Hup HP Hmt. destruct (Hstep (S i) d mt' Hci Hup HP Hmt) as (d' & Hw & ? & ?).
    exists d'. split_and!; try done. rewrite <- Hw. do 2 f_equal. lia. }
  cbn [write_unique]. unfold slot_is in Hx.
  destruct x as [d|]; destruct (cls 0%nat) eqn:Hc; try done.
  - destruct Hx as [Hup HP]. destruct (Hstep 0%nat d mt Hc Hup HP eq_refl) as (d' & Hw & Hup' & HQ).
    rewrite Z.add_0_r in Hw. rewrite Hw, Heq. cbn [mbind go_bind]. eexists _, _, _. split; [done|].
    split; [|by apply up_nil_cons]. apply slots_cons. split; [|done]. unfold slot_is. by rewrite Hc.
  - destruct (writeXLMetadata d bucket prefix (set_index mt (base + 1))) as [d' e] eqn:Hw.
    rewrite Heq. cbn [mbind go_bind]. eexists _, _, _. split; [done|].
    split; [|apply up_nil_cons; [congruence|done]]. apply slots_cons. split; [|done]. unfold slot_is.
    rewrite Hc. unfold writeXLMetadata in Hw. destruct (json_Marshal _) as [b|e']; [|by simplify_eq].
    destruct (down_AppendFile d bucket (path_Join [prefix; xlMetaJSONFile]) b Hx) as (d1 & e1 & Ha & Hd1).
    rewrite Ha in Hw. by simplify_eq.
  - cbn [tail]. rewrite Heq. cbn [mbind go_bind]. eexists _, _, _. split; [done|].
    split; [|apply up_nil_cons; [congruence|done]]. apply slots_cons. split; [|done]. unfold slot_is. by rewrite Hc.
Qed.

(** A missing disk is reported as such. *)
Lemma write_unique_gone `{MetaJson} bucket prefix : ∀ (ds : list (option D)) metas base ds' metas' errs i,
  write_unique base ds bucket prefix metas = Ret (ds', metas', errs) → ds !! i = Some None →
  errs !! i = Some (traceError (Some (errDiskNotFound : error)) []).
Proof.
  induction ds as [|[d|] ds IH]; intros metas base ds' metas' errs i Heq Hi; [done|..]; cbn [write_unique] in Heq.
  - destruct metas as [|mt metas]; [done|]. destruct (writeXLMetadata _ _ _ _) as [d' e].
    destruct (write_unique _ ds _ _ metas) as [[[ds1 ms1] es1]| |] eqn:E; try done.
    cbn [mbind go_bind] in Heq. unfold mret, go_ret in Heq. simplify_eq.
    destruct i as [|i]; [done|]. by eapply (IH _ _ _ _ _ i E).
  - destruct (write_unique _ ds _ _ (tail metas)) as [[[ds1 ms1] es1]| |] eqn:E; try done.
    cbn [mbind go_bind] in Heq. unfold mret, go_ret in Heq. simplify_eq.
    destruct i as [|i]; [done|]. by eapply (IH _ _ _ _ _ i E).
Qed.

Lemma deleteObject_slots fuel wq v s (ds : list (option D)) n cls (P : nat → D → Prop) :
  clean_path s → slots (slot_is cls P) ds n → (∀ i d, P i d → has_vol d v ∧ depth_le d v s fuel) →
  ∃ ds' e, deleteObject (S fuel) wq ds v s = Ret (ds', e) ∧
    slots (slot_is cls (λ i d', ∃ d, P i d ∧ removed v s (λ _, True) d d')) ds' n ∧
    ((2 ≤ wq)%nat → (n < 2 * wq)%nat → (wq ≤ count_good (λ i, is_up (cls i)) n)%nat → e = None).
Proof.
  intros Hs HR HP. unfold deleteObject.
  destruct (delete_all_ok fuel v s Hs ds n cls P HR HP) as (ds' & errs & -> & Hds & He).
  cbn [mbind go_bind]. destruct (isDiskQuorum errs wq) eqn:E; cbn [negb].
  - eexists _, _. by split_and!.
  - eexists _, _. split_and!; [done|done|]. intros Hq Hm Hc.
    by destruct (up_quorum (H := map_order_id) cls errs n wq He Hq Hm Hc) as [E' _]; rewrite E' in E.
Qed.

End Loops.

(** ** PutObject *)

Lemma count_good_ext good good' n :
  (∀ i, good i = good' i) → count_good good n = count_good good' n.
Proof. intros He. unfold count_good. f_equal. apply list_filter_iff. intros i. by rewrite He. Qed.

(** Counting by slot or by block is the same. *)
Lemma count_good_blk dist n good :
  dist ≡ₚ seqZ 1 (Z.of_nat n) → count_good (λ s, good (blk dist s)) n = count_good good n.
Proof.
  intros Hp. assert (Hl : length dist = n) by (rewrite Hp, length_seqZ; lia).
  assert (Hb : blk dist <$> seq 0 n ≡ₚ seq 0 n).
  { transitivity ((λ b, Z.to_nat (b - 1)) <$> dist).
    - apply reflexive_eq. apply list_eq. intros s. rewrite !list_lookup_fmap.
      destruct (decide (s < n)%nat).
      + rewrite lookup_seq_lt by done. simpl. unfold blk.
        destruct (lookup_lt_is_Some_2 dist s) as [b Hbs]; [lia|].
        by rewrite Hbs, (list_lookup_total_correct _ _ _ Hbs).
      + by rewrite lookup_seq_ge, (lookup_ge_None_2 dist) by lia.
    - rewrite Hp. apply reflexive_eq. apply list_eq. intros s. rewrite !list_lookup_fmap.
      destruct (decide (s < n)%nat).
      + rewrite lookup_seqZ_lt, lookup_seq_lt by lia. simpl. f_equal. lia.
      + by rewrite lookup_seqZ_ge, lookup_seq_ge by lia. }
  unfold count_good. rewrite <- Hb at 2. rewrite filter_fmap, length_fmap. done.
Qed.

Lemma part1_plain : plain_elem "part.1".
Proof. unfold plain_elem. split_and!; try done. by apply (bool_decide_unpack _); vm_compute. Qed.

Section Steps.
Context `{GJson, MetaJson, MapOrder, Hashes} `{RS : ReedSolomon}.
Context {D : Type} `{!StorageAPI D} `{!StorageContract D} `{!Volumes D} `{!DiskContract D}.
Context (k m : nat) `{!RSContract k m}.
Context (bucket object id newid : string) (files0 : nat → string → string → option bytes).
Context (cls : nat → disk_state).
Context (id_plain : plain_elem id) (newid_plain : plain_elem newid) (ids_ne : id ≠ newid).
Context (object_clean : clean_path object) (bucket_tmp : bucket ≠ minioMetaTmpBucket).

Let tmp := minioMetaTmpBucket.
Let n := (k + m)%nat.
Definition none : nat → string → option bytes := λ _ _, None.

(** The files of the old version on the disk of block [i]. *)
Definition old (i : nat) (r : string) : option bytes := files0 i bucket (object +:+ "/" +:+ r).

Definition at_stage (obj stg nw : nat → string → option bytes) (i : nat) (d : D) : Prop :=
  stage bucket object id newid (files0 i) (obj i) (stg i) (nw i) d.

Lemma at_stage_stable obj stg nw : stable (at_stage obj stg nw).
Proof. intros i d d' Hs Hd. by eapply stage_same. Qed.

(** Only [part.1] may be staged. *)
Definition part_only (stg : string → option bytes) : Prop := ∀ r, r ≠ "part.1" → stg r = None.

Definition preparing (i : nat) (d : D) : Prop :=
  accepts d tmp (id +:+ "/" +:+ "part.1") ∧
  ∃ stg, stage bucket object id newid (files0 i) (old i) stg (λ _, None) d ∧ part_only stg.

Definition prepared (i : nat) (d : D) : Prop :=
  preparing i d ∧ default [] (file_at d tmp (id +:+ "/" +:+ "part.1")) = [].

Lemma part_clean : clean_path (id +:+ "/" +:+ "part.1").
Proof. apply clean_path_app. split; apply clean_path_plain; [done|apply part1_plain]. Qed.

Lemma stage_part_free stg i d :
  stage bucket object id newid (files0 i) (old i) stg (λ _, None) d → part_only stg →
  free_name d tmp (id +:+ "/" +:+ "part.1").
Proof. intros Hs Hp. eapply stage_free; [done|done|apply part1_plain|]. intros r Hr _. by apply Hp. Qed.

Lemma stage_preparing stg i d :
  up d → stage bucket object id newid (files0 i) (old i) stg (λ _, None) d → part_only stg → preparing i d.
Proof.
  intros Hup Hs Hp. split; [|eauto]. apply up_accepts; [done|apply Hs|by eapply stage_part_free].
Qed.

Lemma part_only_update stg c : part_only stg → part_only (λ r, if decide (r = "part.1") then c else stg r).
Proof. intros Hp r Hr. rewrite decide_False by done. by apply Hp. Qed.

Lemma prepare_step i d s d' err :
  up d → at_stage old none none i d → PrepareFile d tmp (id +:+ "/" +:+ "part.1") s = (d', err) →
  up d' ∧ prepared i d'.
Proof.
  intros Hup Hs Hp.
  destruct (up_PrepareFile d tmp _ s d' err Hup part_clean (stage_part_free _ i d Hs ltac:(done)) Hp)
    as (Hup' & Hb & Hdef).
  split; [done|]. split.
  - eapply stage_preparing; [done|by eapply stage_update|]. by apply part_only_update.
  - rewrite Hdef. rewrite (stage_stg _ _ _ _ _ _ _ _ _ Hs). done.
Qed.

Lemma unprepared i d : up d → at_stage old none none i d → prepared i d.
Proof.
  intros Hup Hs. split; [by eapply stage_preparing|]. by rewrite (stage_stg _ _ _ _ _ _ _ _ _ Hs).
Qed.

(** The appends keep a disk in the state of preparation. *)
Lemma preparing_append i d b :
  slot_is cls preparing i (Some d) →
  slot_is cls preparing i (Some (AppendFile d tmp (id +:+ "/" +:+ "part.1") b).1).
Proof.
  unfold slot_is. destruct (cls i); [| |done].
  - intros (Hup & Ha & stg & Hs & Hp).
    destruct (AppendFile_accepts d _ _ b Ha) as (d' & Happ & Ha'). rewrite Happ. simpl.
    destruct (up_AppendFile _ _ _ _ _ Hup part_clean Happ) as [Hup' Hb].
    split; [done|]. split; [done|]. eexists. split; [by eapply stage_update|]. by apply part_only_update.
  - intros Hd. by destruct (down_AppendFile d tmp (id +:+ "/" +:+ "part.1") b Hd) as (d' & e & -> & Hd').
Qed.

(** The staged file of block [i]. *)
Definition staged_part (bs : nat) (data : bytes) (i : nat) (r : string) : option bytes :=
  if decide (r = "part.1") then Some (shard_file k m bs data i) else None.

Lemma create_step fuel bs data algo wq (ds : list (option D)) :
  (0 < bs)%nat → slots (slot_is cls prepared) ds n → (nblocks bs data < fuel)%nat →
  (2 ≤ wq)%nat → (n < 2 * wq)%nat → (wq ≤ count_good (λ i, is_up (cls i)) n)%nat →
  ∃ ds' cks, erasureCreateFile fuel ds tmp (id +:+ "/" +:+ "part.1")
      {| rd_data := data; rd_err := io_EOF : error |} bs (Z.of_nat k) (Z.of_nat m) algo wq =
      Ret (ds', (zlen data, cks, None)) ∧
    slots (slot_is cls (at_stage old (staged_part bs data) none)) ds' n ∧ length cks = n ∧
    ∀ i, (i < n)%nat → cls i = DiskUp → cks !! i = Some (file_checksum k m bs data algo i).
Proof.
  intros Hbs HR Hfuel Hq Hm Hc.
  assert (Hprep : ∀ i, (i < n)%nat → is_up (cls i) = true → ∃ d, ds !! i = Some (Some d) ∧ up d ∧ prepared i d).
  { intros i Hi Hu. apply (slots_up cls _ ds n); [done|done|]. by destruct (cls i). }
  destruct (erasureCreateFile_ok k m bs Hbs data tmp (id +:+ "/" +:+ "part.1") wq ds (λ i, is_up (cls i))
    (λ _, false) (slot_is cls preparing) preparing_append fuel
    {| rd_data := data; rd_err := io_EOF : error |} algo)
    as (ds' & nw & cks & e & Heq & Hok & Hlive).
  - apply HR.
  - intros i Hi Hu. destruct (Hprep i Hi Hu) as (d & Hd & _ & [[Ha _] _]). eauto.
  - done.
  - intros i x Hx. apply (slot_is_impl cls prepared); [by intros d [? _]|]. by apply HR.
  - done.
  - done.
  - assert (e = None) as ->.
    { apply Hlive; [done|done|done|]. unfold counted_disks. etransitivity; [exact Hc|].
      apply Nat.eq_le_incl, count_good_ext. intros i. by rewrite orb_false_r. }
    destruct (Hok eq_refl) as (_ & -> & Hlc & [Hld Hkp] & Hfiles).
    exists ds', cks. split_and!; [done| |done|].
    + split; [done|]. intros i x Hx. assert (Hi : (i < n)%nat) by (apply lookup_lt_Some in Hx; unfold n; lia).
      specialize (Hkp i x Hx). unfold slot_is in *. destruct (cls i) eqn:Hci; [|done..].
      destruct x as [d'|]; [|done]. destruct Hkp as (Hup & _ & stg & Hs & Hp). split; [done|].
      assert (Hu : is_up (cls i) = true) by (by rewrite Hci).
      destruct (Hprep i Hi Hu) as (d & Hd & _ & [_ Hdef]).
      destruct (Hfiles i d Hi Hu Hd) as (_ & d2 & Hd2 & Hf). rewrite Hx in Hd2. injection Hd2 as <-.
      rewrite Hdef in Hf. simpl in Hf. eapply stage_ext; [done| |done|exact Hs].
      intros r. unfold staged_part. case_decide as Hr; [|by apply Hp]. subst r.
      by rewrite <- (stage_stg _ _ _ _ _ _ _ _ _ Hs).
    + intros i Hi Hci. assert (Hu : is_up (cls i) = true) by (by rewrite Hci).
      destruct (Hprep i Hi Hu) as (d & Hd & _). by destruct (Hfiles i d Hi Hu Hd) as [Hck _].
Qed.


(** The old version moves to the temporary directory, if there is one. *)
Lemma retire_step stg i d :
  up d → at_stage old stg none i d → (∃ r, is_Some (old i r)) ∨ (∀ r, old i r = None) →
  ∃ d' e, RenameFile d bucket (object +:+ "/") tmp (newid +:+ "/") = (d', e) ∧ up d' ∧
    at_stage none stg old i d' ∧ (e = None ∨ e = Some (errFileNotFound : error)).
Proof.
  intros Hup Hs Hold. destruct (stage_newid_free _ _ _ _ _ newid_plain _ _ _ Hs) as [Hfree Hno].
  assert (Hcn : clean_path newid) by (by apply clean_path_plain). destruct Hold as [[r Hr]|Hnone].
  - destruct (up_RenameFile d bucket object tmp newid Hup) as (d' & -> & Hup' & Hmv); try done;
      [apply Hs|apply Hs| |].
    { exists r. by rewrite (stage_obj _ _ _ _ _ _ _ _ _ Hs). }
    eexists _, _. split_and!; [done|done| |by left]. eapply stage_moved_old; done.
  - destruct (up_RenameFile_none d bucket object tmp newid Hup) as (d' & e & -> & Hup' & Hsame & He); try done;
      [apply Hs|apply Hs| |].
    { intros [r Hr]. rewrite (stage_obj _ _ _ _ _ _ _ _ _ Hs), Hnone in Hr. by destruct Hr. }
    eexists _, _. split_and!; [done|done| |done]. eapply stage_same; [|done].
    eapply stage_ext; [| | |exact Hs]; intros r; simpl; [by rewrite Hnone|done|by rewrite Hnone].
Qed.

(** The files of the new version: the part and the metadata. *)
Definition version_files (bs : nat) (data : bytes) (metab : nat → bytes) (i : nat) (r : string) : option bytes :=
  if decide (r = xlMetaJSONFile) then Some (metab i) else staged_part bs data i r.

Lemma meta_step bs data nw mt b i d :
  up d → at_stage none (staged_part bs data) nw i d → json_Marshal mt = inl b →
  ∃ d', writeXLMetadata d tmp id mt = (d', None) ∧ up d' ∧
    at_stage none (version_files bs data (λ _, b)) nw i d'.
Proof.
  intros Hup Hs Hj. unfold writeXLMetadata. rewrite Hj.
  assert (Hcx : clean_path xlMetaJSONFile) by apply clean_path_plain, xlMetaJSON_plain.
  assert (Hci : clean_path id) by (by apply clean_path_plain).
  rewrite path_Join_clean by done.
  assert (Hstg : ∀ r, HasPrefix r xlMetaJSONFile = true → staged_part bs data i r = None).
  { intros r Hr. unfold staged_part. rewrite decide_False; [done|]. intros ->. done. }
  assert (Ha : accepts d tmp (id +:+ "/" +:+ xlMetaJSONFile)).
  { apply up_accepts; [done|apply Hs|]. eapply stage_free; [done|exact Hs|apply xlMetaJSON_plain|].
    intros r _. apply Hstg. }
  destruct (AppendFile_accepts d _ _ b Ha) as (d' & Happ & _). rewrite Happ.
  assert (Hcp : clean_path (id +:+ "/" +:+ xlMetaJSONFile)) by (by apply clean_path_app).
  destruct (up_AppendFile _ _ _ _ _ Hup Hcp Happ) as [Hup' Hb].
  apply AppendFile_appends in Happ. rewrite (stage_stg _ _ _ _ _ _ _ _ _ Hs), Hstg in Happ by done.
  exists d'. split_and!; [done|done|]. eapply stage_ext; [done| |done|by eapply stage_update].
  intros r. unfold version_files. simpl. case_decide; [exact Happ|done].
Qed.

(** The staged version is committed. *)
Lemma commit_step bs data metab nw i d :
  (∀ a, ancestor a object → files0 i bucket a = None) →
  up d → at_stage none (version_files bs data metab) nw i d →
  ∃ d' e, RenameFile d tmp (id +:+ "/") bucket (object +:+ "/") = (d', e) ∧ up d' ∧
    at_stage (version_files bs data metab) none nw i d' ∧ (e = None ∨ e = Some (errFileNotFound : error)).
Proof.
  intros Hanc Hup Hs.
  destruct (stage_object_free _ _ _ _ _ bucket_tmp _ _ _ Hanc Hs) as [Hfree Hno].
  destruct (up_RenameFile d tmp id bucket object Hup) as (d' & -> & Hup' & Hmv); try done;
    [apply Hs|apply Hs|by apply clean_path_plain| |].
  { exists xlMetaJSONFile. rewrite (stage_stg _ _ _ _ _ _ _ _ _ Hs). unfold version_files.
    by rewrite decide_True. }
  eexists _, _. split_and!; [done|done| |by left]. eapply stage_committed; done.
Qed.

(** ** The deferred deletes *)

Definition committed (fuel : nat) (obj : nat → string → option bytes) (i : nat) (d : D) : Prop :=
  ∃ nw, stage bucket object id newid (files0 i) (obj i) (λ _, None) nw d ∧
    ∀ r, is_Some (nw r) → (length (Split r "/") ≤ fuel)%nat.

Lemma run_deferred_ok fuel wq obj : ∀ ids (ds : list (option D)) cls' σ,
  Forall (λ x, x = id ∨ x = newid) ids →
  slots (slot_is cls' (λ s, committed fuel obj (σ s))) ds n →
  ∃ ds', run_deferred (S fuel) wq ds ids = Ret ds' ∧
    slots (slot_is cls' (λ s, committed fuel obj (σ s))) ds' n.
Proof.
  induction ids as [|x ids IH]; intros ds cls' σ Hids HR; [by exists ds|].
  apply Forall_cons in Hids as [Hx Hids]. cbn [run_deferred].
  destruct (deleteObject_slots fuel wq minioMetaTmpBucket x ds n cls' (λ s, committed fuel obj (σ s)))
    as (ds' & e & -> & Hds & _).
  - apply clean_path_plain. by destruct Hx as [->| ->].
  - done.
  - intros i d (nw & Hs & Hdep). split; [apply Hs|]. intros r Hr. destruct Hx as [->| ->].
    + rewrite (stage_stg _ _ _ _ _ _ _ _ _ Hs) in Hr. by destruct Hr.
    + rewrite (stage_nw _ _ _ _ _ _ _ _ _ Hs) in Hr. by apply Hdep.
  - cbn [mbind go_bind]. apply IH; [done|]. eapply slots_impl; [|exact Hds].
    intros i d' (d & (nw & Hs & Hdep) & Hr). destruct Hx as [->| ->].
    + exists nw. split; [|done]. eapply stage_removed_id; done.
    + exists (λ _, None). split; [|by intros r []]. eapply stage_removed_newid; done.
Qed.

End Steps.

(** ** Reading the metadata back *)

Section ReadBack.
Context `{JsonContract} {D : Type} `{!StorageAPI D} `{!StorageContract D} `{!Volumes D} `{!DiskContract D}.
Context (bucket object : string) (object_clean : clean_path object).

Lemma readXLMeta_up (d : D) mt b :
  up d → has_vol d bucket → file_at d bucket (object +:+ "/" +:+ xlMetaJSONFile) = Some b →
  json_Marshal mt = inl b →
  ∃ d', readXLMeta d bucket object = (d', (mt, None)) ∧ up d' ∧ same_disk d d'.
Proof.
  intros Hup Hv Hf Hj. unfold readXLMeta.
  rewrite path_Join_clean by (done || apply clean_path_plain, xlMetaJSON_plain).
  destruct (up_ReadAll d bucket (object +:+ "/" +:+ xlMetaJSONFile) Hup Hv) as (d' & r & -> & Hup' & Hs & ->).
  rewrite Hf. rewrite (xlMetaV1UnmarshalJSON_Marshal _ _ Hj). by exists d'.
Qed.

Lemma readXLMeta_down (d : D) :
  down d → ∃ d' e, readXLMeta d bucket object = (d', (xlMetaV1_zero, Some (Traced e []))) ∧ down d' ∧ disk_err (Some e).
Proof.
  intros Hd. unfold readXLMeta.
  destruct (down_ReadAll d bucket (path_Join [object; xlMetaJSONFile]) Hd) as (d' & b & e & -> & Hd' & He).
  exists d', e. split_and!; [|done|done]. unfold disk_err, baseErrs in He. rewrite !elem_of_cons in He.
  by destruct He as [[= ->]|[[= ->]|[[= ->]|?%not_elem_of_nil]]].
Qed.

(** The metadata and the error that slot [i] reports. *)
Definition reported (cls : nat → disk_state) (mt : nat → xlMetaV1) (i : nat)
    (r : xlMetaV1 * option error) : Prop :=
  match cls i with
  | DiskUp => r = (mt i, None)
  | _ => r.1 = xlMetaV1_zero ∧ r.2 ≠ None
  end.

(** What the disks that are up report satisfies [R]; the others report that they
    are unavailable. *)
Definition reports (cls : nat → disk_state) (R : nat → xlMetaV1 → option error → Prop) (i : nat)
    (x : xlMetaV1) (e : option error) : Prop :=
  match cls i with
  | DiskUp => R i x e
  | DiskDown => x = xlMetaV1_zero ∧ ∃ c, e = Some (Traced c []) ∧ disk_err (Some c)
  | DiskGone => x = xlMetaV1_zero ∧ e = Some (errDiskNotFound : error)
  end.

Lemma readAll_reports : ∀ (ds : list (option D)) n cls (P : nat → D → Prop) R,
  slots (slot_is cls P) ds n → stable P →
  (∀ i d, up d → P i d → ∃ d' x e, readXLMeta d bucket object = (d', (x, e)) ∧ up d' ∧ same_disk d d' ∧ R i x e) →
  ∃ ds' metas errs, readAllXLMetadata ds bucket object = (ds', (metas, errs)) ∧
    slots (slot_is cls P) ds' n ∧ length metas = n ∧ length errs = n ∧
    ∀ i x e, metas !! i = Some x → errs !! i = Some e → reports cls R i x e.
Proof.
  induction ds as [|x ds IH]; intros n cls P R HR Hst HP.
  { apply slots_nil_inv in HR as ->. exists [], [], []. by split_and!. }
  apply slots_cons_inv in HR as (m & -> & Hx & HR). cbn [readAllXLMetadata].
  destruct (IH m (λ i, cls (S i)) (λ i, P (S i)) (λ i, R (S i)) HR) as (ds' & metas & errs & -> & Hds & Hlm & Hle & Hrep).
  { intros i d d'. apply Hst. } { intros i d. apply HP. }
  assert (Hcons : ∀ y z e, slot_is cls P 0 y → reports cls R 0 z e →
    ∃ ds'' metas' errs', (y :: ds', (z :: metas, e :: errs)) = (ds'', (metas', errs')) ∧
      slots (slot_is cls P) ds'' (S m) ∧ length metas' = S m ∧ length errs' = S m ∧
      ∀ i x e, metas' !! i = Some x → errs' !! i = Some e → reports cls R i x e).
  { intros y z e Hy Hz. eexists _, _, _. split; [done|]. split; [by apply slots_cons|]. simpl.
    split_and!; [lia|lia|]. intros [|i] x' e' Hx' He'; [by simplify_eq/=|]. by apply (Hrep i). }
  unfold slot_is in Hx. destruct (cls 0%nat) eqn:Hc; destruct x as [d|]; try done.
  - destruct Hx as [Hup Hd]. destruct (HP _ _ Hup Hd) as (d' & x & e & -> & Hup' & Hs & HR0).
    apply Hcons; [unfold slot_is; rewrite Hc; eauto|]. unfold reports. by rewrite Hc.
  - destruct (readXLMeta_down d Hx) as (d' & e & -> & Hd' & He).
    apply Hcons; [unfold slot_is; by rewrite Hc|]. unfold reports. rewrite Hc. eauto.
  - apply Hcons; [unfold slot_is; by rewrite Hc|]. unfold reports. by rewrite Hc.
Qed.

Lemma readAll_slots (ds : list (option D)) n cls (P : nat → D → Prop) mt :
  slots (slot_is cls P) ds n → stable P →
  (∀ i d, P i d → has_vol d bucket ∧ ∃ b, file_at d bucket (object +:+ "/" +:+ xlMetaJSONFile) = Some b ∧
     json_Marshal (mt i) = inl b) →
  ∃ ds' metas errs, readAllXLMetadata ds bucket object = (ds', (metas, errs)) ∧
    slots (slot_is cls P) ds' n ∧ length metas = n ∧ length errs = n ∧
    ∀ i x e, metas !! i = Some x → errs !! i = Some e → reported cls mt i (x, e).
Proof.
  intros HR Hst HP.
  destruct (readAll_reports ds n cls P (λ i x e, x = mt i ∧ e = None) HR Hst)
    as (ds' & metas & errs & -> & Hds & Hlm & Hle & Hrep).
  { intros i d Hup Hd. destruct (HP _ _ Hd) as [Hv (b & Hf & Hj)].
    destruct (readXLMeta_up d (mt i) b Hup Hv Hf Hj) as (d' & -> & Hup' & Hs). eauto 10. }
  exists ds', metas, errs. split_and!; [done..|].
  intros i x e Hx He. specialize (Hrep i x e Hx He). unfold reports, reported in *.
  destruct (cls i); [by destruct Hrep as [-> ->]| |]; simpl.
  - destruct Hrep as (-> & c & -> & _). done.
  - by destruct Hrep as [-> ->].
Qed.

End ReadBack.

(** ** The round trip *)

Lemma blk_stable {D} `{!StorageAPI D} `{!StorageContract D} `{!Volumes D} (P : nat → D → Prop) σ :
  stable P → stable (λ s, P (σ s)).
Proof. intros HP i d d'. apply HP. Qed.

(** Counting the true entries of a list. *)
Lemma filter_bool_seq (f : nat → bool) (l : list bool) n :
  length l = n → (∀ s b, l !! s = Some b → b = f s) →
  length (filter (λ b, b = true) l) = length (filter (λ s, f s = true) (seq 0 n)).
Proof.
  intros <-. revert f. induction l as [|b l IH]; intros f Hl; [done|].
  assert (b = f 0%nat) as -> by (by apply (Hl 0%nat)).
  assert (IH' := IH (λ s, f (S s)) (λ s b Hs, Hl (S s) b Hs)).
  cbn [length seq]. rewrite !filter_cons, <- fmap_S_seq, filter_fmap.
  destruct (f 0%nat); simpl; rewrite ?length_fmap; [f_equal|]; exact IH'.
Qed.

(** Disks that are gone: the disks of the blocks [lost]. *)
Definition lose_disks {D} (dist : list Z) (lost : nat → bool) (ds : list (option D)) : list (option D) :=
  imap (λ s d, if lost (blk dist s) then None else d) ds.

(** Some disks go missing. *)
Lemma lose_slots {D} `{!StorageAPI D} `{!StorageContract D} `{!Volumes D} `{!DiskContract D}
    dist (lost : nat → bool) cls (P : nat → D → Prop) ds n :
  slots (λ s, slot_is cls P (blk dist s)) ds n →
  slots (λ s, slot_is (λ i, if lost i then DiskGone else cls i) P (blk dist s)) (lose_disks dist lost ds) n.
Proof.
  intros [Hl HR]. split; [by unfold lose_disks; rewrite length_imap|].
  intros s x. unfold lose_disks. rewrite list_lookup_imap.
  destruct (ds !! s) as [y|] eqn:E; [|done]. intros [= <-]. specialize (HR s y E).
  unfold slot_is in *. by destruct (lost (blk dist s)).
Qed.

Section RoundTrip.
Context `{JsonContract} `{MapOrder, Hashes} `{RS : ReedSolomon}.
Context {D : Type} `{!StorageAPI D} `{!StorageContract D} `{!StorageReads D} `{!Volumes D} `{!DiskContract D}.
Context {W : Type} `{!IOWriter W} `{!IOWriterContract W}.
Context (bitRotAlgo ReleaseTag : string).
Context (md5_Sum : bytes → bytes) (mimedb_DB : string → option string).
Context (k m : nat) `{!RSContract k m}.
Context (env : put_env) (xl : xlObjects D) (bucket object : string) (data : bytes) (fuel : nat).
Context (metadata : gmap string string) (dist : list Z).
(** The disks by block, and their files before. *)
Context (cls : nat → disk_state) (files0 : nat → string → string → option bytes).

Let n := (k + m)%nat.
Let id := uniqueID env.
Let newid := newUniqueID env.
Let old0 := old bucket object files0.
Let stg0 := at_stage (D := D) bucket object id newid files0.

(** The conditions under which a put must succeed. *)
Record put_ready : Prop := {
  pr_bucket : IsValidBucketName bucket = true;
  pr_object : IsValidObjectName object = true;
  pr_clean : clean_path object;
  pr_tmp : bucket ≠ minioMetaTmpBucket;
  (** The fresh names. *)
  pr_id : plain_elem (uniqueID env);
  pr_newid : plain_elem (newUniqueID env);
  pr_ids : uniqueID env ≠ newUniqueID env;
  (** The layout; a write quorum of disks is up, the others are unreachable or
      missing. *)
  pr_layout : dataBlocks xl = Z.of_nat k ∧ parityBlocks xl = Z.of_nat m;
  pr_range : 0 < Z.of_nat (k + m) < 2 ^ 32;
  pr_dist : hashOrder object (Z.of_nat (k + m)) = Ret dist;
  pr_quorum : (2 ≤ writeQuorum xl)%nat ∧ (k + m < 2 * writeQuorum xl)%nat ∧
    (writeQuorum xl ≤ count_good (λ i, is_up (cls i)) (k + m))%nat;
  (** The disks that are up have the volumes and do not use the fresh names. *)
  pr_disks : slots (λ s, slot_is cls (at_stage (D := D) bucket object (uniqueID env) (newUniqueID env)
      files0 (old bucket object files0) none none) (blk dist s)) (storageDisks xl) (k + m);
  (** Neither a file nor an object is above the object. *)
  pr_above : ∀ i a, ancestor a object → files0 i bucket a = None;
  pr_parents : ∀ i a r, object = a +:+ "/" +:+ r → files0 i bucket (a +:+ "/" +:+ xlMetaJSONFile) = None;
  (** The object exists, or nothing is stored under its name. *)
  pr_old : ∀ i, (∃ r, is_Some (old bucket object files0 i r)) ∨ (∀ r, old bucket object files0 i r = None);
  pr_exists : (∃ i, (i < k + m)%nat ∧ cls i = DiskUp ∧ is_Some (old bucket object files0 i xlMetaJSONFile)) ∨
    (∀ i, old bucket object files0 i = none i);
  pr_depth : ∀ i r, is_Some (old bucket object files0 i r) → (length (Split r "/") ≤ fuel)%nat;
  pr_fuel : zlen data ≤ Z.of_nat fuel * blockSizeV1 ∧ (length (Split object "/") ≤ fuel)%nat;
  pr_json : ∀ mt, ∃ b, json_Marshal mt = inl b;
}.

(** What the client announced does not match what it sent. *)
Definition rejected (size : Z) (sha256sum : string) (err : option error) : Prop :=
  (zlen data < size ∧ err = traceError (Some (IncompleteBody "" "" : error)) []) ∨
  (∃ sum, size ≤ zlen data ∧ metadata !! "md5Sum" = Some sum ∧ sum ≠ "" ∧
     hex_encode (md5_Sum data) ≠ sum ∧
     err = traceError (Some (BadDigest sum (hex_encode (md5_Sum data)) : error)) []) ∨
  ((default "" (metadata !! "md5Sum") = "" ∨ metadata !! "md5Sum" = Some (hex_encode (md5_Sum data))) ∧
     size ≤ zlen data ∧ sha256sum ≠ "" ∧ hex_encode (sha256_Sum data) ≠ sha256sum ∧
     err = traceError (Some (SHA256Mismatch : error)) []).

(** [PutObject] reads no more than the announced size. *)
Lemma PutObject_limit size stream read sha256sum : (if 0 <? size then take (Z.to_nat size) stream else stream) = read →
  PutObject bitRotAlgo ReleaseTag md5_Sum mimedb_DB (S fuel) env xl bucket object size
      {| rd_data := stream; rd_err := io_EOF : error |} metadata sha256sum =
  PutObject bitRotAlgo ReleaseTag md5_Sum mimedb_DB (S fuel) env xl bucket object size
      {| rd_data := read; rd_err := io_EOF : error |} metadata sha256sum.
Proof.
  intros <-. unfold PutObject, io_LimitReader. destruct (0 <? size); [|done]. cbn [rd_data rd_err].
  rewrite take_idemp. by destruct (size <=? zlen stream), (size <=? zlen (take (Z.to_nat size) stream)).
Qed.

Lemma limit_length size (stream read : bytes) : (if 0 <? size then take (Z.to_nat size) stream else stream) = read →
  0 < size → zlen read ≤ size.
Proof. intros <- Hs. rewrite (proj2 (Z.ltb_lt 0 size)) by done. unfold zlen. rewrite length_take. lia. Qed.

Context (Hready : put_ready).

Section BlockSize.
(** The block size, as a number that the kernel does not write out in unary. *)
Context (bs : nat) (bs_eq : Z.to_nat blockSizeV1 = bs).

Lemma dist_perm : dist ≡ₚ seqZ 1 (Z.of_nat n).
Proof.
  unfold n. destruct (hashOrder_ret object (Z.of_nat (k + m)) (pr_range Hready)) as (d & Hd & Hp).
  rewrite (pr_dist Hready) in Hd. by injection Hd as <-.
Qed.

Lemma bs_positive : (0 < bs)%nat.
Proof. rewrite <- bs_eq. change 0%nat with (Z.to_nat 0). apply Z2Nat.inj_lt; unfold blockSizeV1; lia. Qed.

Lemma bs_of_nat : Z.of_nat bs = blockSizeV1.
Proof. rewrite <- bs_eq. apply Z2Nat.id. unfold blockSizeV1. lia. Qed.

Lemma blocks_fuel : (nblocks bs data ≤ fuel)%nat.
Proof.
  destruct (pr_fuel Hready) as [Hf _]. pose proof (nblocks_lt bs bs_positive data fuel) as Hn.
  rewrite <- bs_of_nat in Hf. unfold zlen in Hf. lia.
Qed.

(** The metadata of the new version, without index and checksum. *)
Definition put_meta (size : Z) : xlMetaV1 :=
  XLMetaV1 xlMetaVersion xlMetaFormat (StatInfo size (put_modTime env))
    (ErasureInfo erasureAlgorithmKlauspost (Z.of_nat k) (Z.of_nat m) blockSizeV1 0 dist []) ReleaseTag
    (fill_metadata mimedb_DB metadata object (hex_encode (md5_Sum data)))
    [ObjectPartInfo 1 "part.1" (hex_encode (md5_Sum data)) size].

(** The metadata that the disk of block [i] gets. *)
Definition block_meta (i : nat) : xlMetaV1 :=
  let M := put_meta (zlen data) in
  set_index (set_erasure M (AddCheckSumInfo (Erasure M)
    (CheckSumInfo "part.1" bitRotAlgo (file_checksum k m bs data bitRotAlgo i)))) (Z.of_nat i + 1).

Definition block_json (i : nat) : bytes :=
  match json_Marshal (block_meta i) with inl b => b | inr _ => [] end.

Lemma block_json_ok i : json_Marshal (block_meta i) = inl (block_json i).
Proof. unfold block_json. by destruct (pr_json Hready (block_meta i)) as [b ->]. Qed.

(** The files of the new version on the disk of block [i]. *)
Definition new_files : nat → string → option bytes := version_files k m bs data block_json.

Lemma parts_metadata_ok mt : ∀ c cks, length cks = c →
  parts_metadata bitRotAlgo c mt cks =
    Ret ((λ sum, set_erasure mt (AddCheckSumInfo (Erasure mt) (CheckSumInfo "part.1" bitRotAlgo sum))) <$> cks).
Proof.
  induction c as [|c IH]; intros [|sum cks] Hl; try done. cbn [parts_metadata].
  rewrite IH by (simpl in Hl; lia). done.
Qed.

Lemma put_commit_ok disks ids cks :
  Forall (λ x, x = id ∨ x = newid) ids → length cks = n →
  (∀ i, (i < n)%nat → cls i = DiskUp → cks !! i = Some (file_checksum k m bs data bitRotAlgo i)) →
  slots (λ s, slot_is cls (stg0 none (staged_part k m bs data) old0) (blk dist s)) disks n →
  ∃ ds, put_commit bitRotAlgo (S fuel) env xl disks ids bucket object (zlen data)
          (put_meta (zlen data)) cks None =
        Ret (set_disks xl ds, (put_info bucket object (put_meta (zlen data)), None)) ∧
    slots (λ s, slot_is cls (committed bucket object id newid files0 fuel new_files) (blk dist s)) ds n.
Proof.
  intros Hids Hlc Hck HR. unfold put_commit. destruct (pr_quorum Hready) as (Hq & Hm & Hup).
  assert (Hls : length (storageDisks xl) = n) by apply (pr_disks Hready).
  rewrite Hls, parts_metadata_ok by done. go_simpl.
  change (Distribution (Erasure (put_meta (zlen data)))) with dist.
  destruct (ordered_slots dist disks n _ dist_perm HR) as (od & -> & Hod). go_simpl.
  unfold writeUniqueXLMetadata.
  set (metas := (λ sum, _) <$> cks).
  destruct (write_unique_slots minioMetaTmpBucket (uniqueID env) od metas 0 n cls
    (stg0 none (staged_part k m bs data) old0) (stg0 none new_files old0) Hod) as (od1 & ms & errs & -> & Hod1 & He).
  { unfold metas. by rewrite length_fmap. }
  { intros i d mt Hc Hd HP Hmt. unfold metas in Hmt. rewrite list_lookup_fmap in Hmt.
    destruct (cks !! i) as [sum|] eqn:Hs; [|done]. injection Hmt as <-. rewrite Z.add_0_l.
    rewrite (Hck i) in Hs; [|apply lookup_lt_Some in Hs; lia|done]. injection Hs as <-.
    destruct (meta_step k m bucket object id newid files0 (pr_id Hready) (pr_newid Hready)
      (pr_ids Hready) (pr_tmp Hready) bs data old0 _ _ i d Hd HP (block_json_ok i)) as (d' & Hw & Hd' & HP').
    exists d'. split_and!; [exact Hw|done|]. eapply stage_ext; [done| |done|exact HP'].
    intros r. unfold new_files, version_files. by case_decide. }
  go_simpl. unfold write_quorum_result.
  destruct (up_quorum cls errs n (writeQuorum xl) He Hq Hm Hup) as [-> ->]. go_simpl.
  destruct (renameObject_ok minioMetaTmpBucket (uniqueID env) bucket object (writeQuorum xl) od1 n cls
    (stg0 none new_files old0) (stg0 new_files none old0)) as (od2 & -> & Hod2); try done.
  { apply clean_path_plain, Hready. } { apply Hready. }
  { intros i d Hd HP. by apply (commit_step k m bucket object id newid files0 (pr_id Hready) (pr_newid Hready)
      (pr_ids Hready) (pr_clean Hready) (pr_tmp Hready) bs data block_json old0); [apply Hready|..]. }
  destruct (gather_slots dist od2 n _ dist_perm Hod2) as (ds & -> & Hds). go_simpl.
  destruct (run_deferred_ok k m bucket object id newid files0 (pr_id Hready) (pr_newid Hready) (pr_ids Hready)
    (pr_tmp Hready) fuel (writeQuorum xl) new_files ids ds (λ s, cls (blk dist s)) (blk dist) Hids)
    as (ds' & -> & Hds'); [|by exists ds'].
  split; [apply Hds|]. intros s x Hx. destruct Hds as [_ Hds]. specialize (Hds s x Hx).
  eapply (slot_is_impl cls _ _ (blk dist s)); [|exact Hds]. intros d Hd. exists (old0 (blk dist s)).
  split; [exact Hd|]. intros r. apply Hready.
Qed.

Lemma set_cache_id : set_cache xl (objCache xl) = xl.
Proof. by destruct xl. Qed.

Lemma fill_metadata_sum sum newMD5 :
  metadata !! "md5Sum" = Some sum → sum ≠ "" →
  default "" (fill_metadata mimedb_DB metadata object newMD5 !! "md5Sum") = sum.
Proof.
  intros Hs Hne. unfold fill_metadata. rewrite Hs. cbn [default]. rewrite (bool_decide_false (sum = "")) by done.
  repeat case_match; rewrite ?lookup_insert_ne by done; by rewrite Hs.
Qed.

Lemma fill_metadata_md5 :
  default "" (metadata !! "md5Sum") = "" ∨ metadata !! "md5Sum" = Some (hex_encode (md5_Sum data)) →
  default "" (fill_metadata mimedb_DB metadata object (hex_encode (md5_Sum data)) !! "md5Sum") =
    hex_encode (md5_Sum data).
Proof.
  intros Hmd. unfold fill_metadata.
  set (md := if bool_decide (default "" (metadata !! "md5Sum") = "") then _ else _).
  assert (Hm : default "" (md !! "md5Sum") = hex_encode (md5_Sum data)).
  { unfold md. case_bool_decide as E; [by rewrite lookup_insert_eq|].
    destruct Hmd as [?|Hmd]; [done|]. by rewrite Hmd. }
  repeat case_match; [exact Hm| |exact Hm|exact Hm]. rewrite lookup_insert_ne by done. exact Hm.
Qed.

(** The return with an error: the staged files are deleted. *)
Lemma put_fail_ok disks err :
  slots (λ s, slot_is cls (stg0 old0 (staged_part k m bs data) none) (blk dist s)) disks n →
  ∃ ds, put_fail (S fuel) xl disks [uniqueID env] err = Ret (set_disks xl ds, (ObjectInfo_zero, err)) ∧
    slots (λ s, slot_is cls (stg0 old0 none none) (blk dist s)) ds n.
Proof.
  intros HR. unfold put_fail. cbn [run_deferred].
  destruct (deleteObject_slots fuel (writeQuorum xl) minioMetaTmpBucket (uniqueID env) disks n
    (λ s, cls (blk dist s)) (λ s, stg0 old0 (staged_part k m bs data) none (blk dist s))) as (ds & e & -> & Hds & _).
  - apply clean_path_plain, Hready.
  - exact HR.
  - intros s d Hd. split; [apply Hd|]. intros r Hr. rewrite (stage_stg _ _ _ _ _ _ _ _ _ Hd) in Hr.
    unfold staged_part in Hr. case_decide; [|by destruct Hr]. subst r. destruct (pr_fuel Hready) as [_ Hf].
    pose proof (Split_ne object) as Hne. destruct (Split object "/"); [done|]. simpl in *.
    change (length (Split "part.1" "/")) with 1%nat. lia.
  - go_simpl. exists ds. split; [done|]. eapply (slots_impl (λ s, cls (blk dist s))); [|exact Hds].
    intros s d' (d & Hd & Hr). eapply stage_removed_id; [apply Hready..|exact Hd|exact Hr].
Qed.

(** Neither the object nor a parent of it can be in the way of the staged data. *)
Lemma parents_ok disks (stg : nat → string → option bytes) nw :
  slots (λ s, slot_is cls (stg0 old0 stg nw) (blk dist s)) disks n →
  ∃ ds, parentDirIsObject (S fuel) (now_parent env) disks bucket (path_Dir object) = Ret (ds, false) ∧
    slots (λ s, slot_is cls (stg0 old0 stg nw) (blk dist s)) ds n.
Proof.
  intros HR.
  apply (parentDirIsObject_ok (λ s, cls (blk dist s)) n (pr_range Hready)
    (λ s, stg0 old0 stg nw (blk dist s)) (blk_stable _ _ (at_stage_stable _ _ _ _ _ _ _ _)) bucket);
    [intros i d Hs; apply Hs|done|].
  destruct (clean_path_last object (pr_clean Hready)) as [He|(s & e & Ho & Hs & He & Hlen)].
  - left. split; [by apply path_Dir_plain|lia].
  - right. rewrite Ho, path_Dir_clean by done. split_and!; [done| |].
    + intros a i d Ha Hst. assert (∃ r, object = a +:+ "/" +:+ r) as [r Hr].
      { destruct Ha as [->|[r ->]]; [by exists e|]. exists (r +:+ "/" +:+ e). rewrite Ho.
        by rewrite <- !str_app_assoc. }
      rewrite (stage_frame _ _ _ _ _ _ _ _ _ Hst); [|intros [? _]; by apply Hready|].
      * by apply (pr_parents Hready _ a r).
      * intros [_ E]. rewrite Hr, sibling_not_below in E by apply xlMetaJSON_plain. done.
    + destruct (pr_fuel Hready) as [_ Hf]. lia.
Qed.

(** The old version is out of the way, if there is one. *)
Lemma retire_ok disks (stg : nat → string → option bytes) :
  slots (λ s, slot_is cls (stg0 old0 stg none) (blk dist s)) disks n →
  ∃ ds1 b ds2, isObject (now_object env) disks bucket object = Ret (ds1, b) ∧
    (if b then renameObject ds1 bucket object minioMetaTmpBucket (newUniqueID env) (writeQuorum xl)
     else (ds1, None)) = (ds2, None) ∧
    slots (λ s, slot_is cls (stg0 none stg old0) (blk dist s)) ds2 n.
Proof.
  intros HR. destruct (pr_quorum Hready) as (Hq & Hm & Hup).
  destruct (isObject_ok (λ s, cls (blk dist s)) n (pr_range Hready) (now_object env) disks bucket object
    (λ s, stg0 old0 stg none (blk dist s)) (λ s, is_Some (old0 (blk dist s) xlMetaJSONFile)) HR
    (blk_stable _ _ (at_stage_stable _ _ _ _ _ _ _ _))) as (ds1 & b & Heq & Hds1 & Hb).
  { intros s d Hs. split; [apply Hs|].
    rewrite path_Join_clean by (apply Hready || apply clean_path_plain, xlMetaJSON_plain).
    by rewrite (stage_obj _ _ _ _ _ _ _ _ _ Hs). }
  exists ds1, b. destruct b.
  - destruct (renameObject_ok bucket object minioMetaTmpBucket (newUniqueID env) (writeQuorum xl) ds1 n
      (λ s, cls (blk dist s)) (λ s, stg0 old0 stg none (blk dist s)) (λ s, stg0 none stg old0 (blk dist s)))
      as (ds2 & Hr & Hds2); try done.
    + apply Hready.
    + apply clean_path_plain, Hready.
    + rewrite (count_good_blk dist n (λ i, is_up (cls i)) dist_perm). done.
    + intros s d Hd HP. apply (retire_step bucket object id newid files0); try apply Hready; done.
    + by exists ds2.
  - exists ds1. split_and!; [done|done|]. destruct (pr_exists Hready) as [(i & Hi & Hc & Hx)|Hnone].
    { destruct (proj2 (blk_onto dist n dist_perm) i Hi) as (s & Hs & <-).
      assert (false = true) by (apply Hb; by exists s). done. }
    split; [apply Hds1|]. intros s x Hx. destruct Hds1 as [_ Hds1]. specialize (Hds1 s x Hx).
    eapply (slot_is_impl cls _ _ (blk dist s)); [|exact Hds1]. intros d Hd.
    eapply stage_ext; [| | |exact Hd]; intros r; unfold old0; [by rewrite Hnone|done|by rewrite Hnone].
Qed.

(** The metadata before the data is known. *)
Definition first_meta : xlMetaV1 :=
  XLMetaV1 xlMetaVersion xlMetaFormat statInfo_zero
    (ErasureInfo erasureAlgorithmKlauspost (Z.of_nat k) (Z.of_nat m) blockSizeV1 0 dist []) ReleaseTag ∅ [].

Lemma first_meta_size : Z.to_nat (BlockSize (Erasure first_meta)) = bs.
Proof. exact bs_eq. Qed.
Lemma first_meta_data : DataBlocks (Erasure first_meta) = Z.of_nat k.
Proof. reflexivity. Qed.
Lemma first_meta_parity : ParityBlocks (Erasure first_meta) = Z.of_nat m.
Proof. reflexivity. Qed.

(** ** The steps of PutObject *)

Lemma prepare_ok size od :
  slots (slot_is cls (stg0 old0 none none)) od n →
  ∃ od', (if 0 <? size then prepare_all od (id +:+ "/" +:+ "part.1") size (Erasure first_meta)
          else mret od) = Ret od' ∧
    slots (slot_is cls (prepared bucket object id newid files0)) od' n.
Proof.
  intros Hod. destruct (0 <? size).
  - eapply prepare_all_ok; [done| |exact Hod|].
    + cbn [first_meta Erasure DataBlocks]. rewrite Nat2Z.id. apply rs_k_pos.
    + intros i d s d' err Hd HP Hp. eapply prepare_step; try apply Hready; done.
  - exists od. split; [done|]. destruct Hod as [Hl Hod]. split; [done|]. intros i x Hx. specialize (Hod i x Hx).
    unfold slot_is in *. destruct (cls i), x; try exact Hod. destruct Hod as [Hd HP]. split; [exact Hd|].
    eapply unprepared; try apply Hready; done.
Qed.

(** The data is staged. *)
Lemma put_stage_verify size sha256sum disks xm :
  xm = first_meta →
  slots (λ s, slot_is cls (stg0 old0 none none) (blk dist s)) disks n →
  ∃ ds1 cks, put_stage bitRotAlgo md5_Sum mimedb_DB (S fuel) env xl disks bucket object size
      {| rd_data := data; rd_err := io_EOF : error |} metadata sha256sum xm None =
    put_verify bitRotAlgo md5_Sum mimedb_DB (S fuel) env xl ds1 bucket object size data metadata sha256sum
      first_meta (zlen data) cks None ∧
    slots (λ s, slot_is cls (stg0 old0 (staged_part k m bs data) none) (blk dist s)) ds1 n ∧ length cks = n ∧
    ∀ i, (i < n)%nat → cls i = DiskUp → cks !! i = Some (file_checksum k m bs data bitRotAlgo i).
Proof.
  intros Hxm HR. destruct (pr_quorum Hready) as (Hq & Hm & Hup). unfold put_stage.
  assert (Hci : clean_path (uniqueID env)) by apply clean_path_plain, Hready.
  rewrite path_Join_clean by (done || apply clean_path_plain, part1_plain).
  assert (Distribution (Erasure xm) = dist) as -> by (by rewrite Hxm).
  destruct (ordered_slots dist disks n (slot_is cls (stg0 old0 none none)) dist_perm HR) as (od & -> & Hod).
  go_simpl. destruct (prepare_ok size od Hod) as (od' & Hp & Hod'). rewrite <- Hxm in Hp. unfold id in Hp.
  rewrite Hp. go_simpl.
  assert (Z.to_nat (BlockSize (Erasure xm)) = bs) as -> by (rewrite Hxm; apply first_meta_size).
  assert (DataBlocks (Erasure xm) = Z.of_nat k) as -> by (by rewrite Hxm).
  assert (ParityBlocks (Erasure xm) = Z.of_nat m) as -> by (by rewrite Hxm).
  destruct (create_step k m bucket object id newid files0 cls (pr_id Hready) (pr_newid Hready) (pr_ids Hready)
    (pr_tmp Hready) (S fuel) bs data bitRotAlgo (writeQuorum xl) od' bs_positive Hod')
    as (od2 & cks & Hcr & Hod2 & Hlc & Hck); [apply Nat.lt_succ_r, blocks_fuel|done|done|done|].
  unfold id in Hcr. rewrite Hcr. go_simpl.
  destruct (gather_slots dist od2 n _ dist_perm Hod2) as (ds1 & -> & Hds1). go_simpl.
  rewrite Hxm. by exists ds1, cks.
Qed.

(** The arguments are valid and the bucket exists. *)
Lemma PutObject_stage size sha256sum :
  objCacheEnabled xl = false → (0 < size → zlen data ≤ size) →
  ∃ ds xm, xm = first_meta ∧
    PutObject bitRotAlgo ReleaseTag md5_Sum mimedb_DB (S fuel) env xl bucket object size
      {| rd_data := data; rd_err := io_EOF : error |} metadata sha256sum =
    put_stage bitRotAlgo md5_Sum mimedb_DB (S fuel) env xl ds bucket object size
      {| rd_data := data; rd_err := io_EOF : error |} metadata sha256sum xm None ∧
    slots (λ s, slot_is cls (stg0 old0 none none) (blk dist s)) ds n.
Proof.
  intros Hcache Hsize. destruct (pr_quorum Hready) as (Hq & Hm & Hup).
  destruct (pr_layout Hready) as [Hk Hpm]. unfold PutObject.
  destruct (GetBucketInfo_ok bucket (pr_bucket Hready) (now_bucket env) (storageDisks xl) n
    (λ s, cls (blk dist s)) (λ s, stg0 old0 none none (blk dist s)) (pr_disks Hready)) as (ds0 & info & -> & Hds0).
  { apply blk_stable, at_stage_stable. } { intros s d Hs. apply Hs. }
  { unfold count_good in Hup. destruct (filter _ _) as [|i l] eqn:E in Hup; [simpl in Hup; lia|].
    assert (Hi : i ∈ i :: l) by left. rewrite <- E in Hi. apply list_elem_of_filter in Hi as [Hc Hi].
    apply elem_of_seq in Hi. destruct (proj2 (blk_onto dist n dist_perm) i) as (s & Hs & <-); [unfold n; lia|].
    exists s. split; [done|]. by destruct (cls (blk dist s)). }
  { apply Hready. }
  go_simpl. unfold checkPutObjectArgs, checkBucketExist. rewrite (pr_bucket Hready), (pr_object Hready).
  go_simpl. unfold put_cache. rewrite Hcache, andb_false_r, set_cache_id.
  assert ((if 0 <? size then io_LimitReader {| rd_data := data; rd_err := io_EOF : error |} size
           else {| rd_data := data; rd_err := io_EOF : error |}) =
          {| rd_data := data; rd_err := io_EOF : error |}) as ->.
  { destruct (Z.ltb_spec 0 size) as [E|E]; [|done]. specialize (Hsize E). unfold io_LimitReader, zlen in *. simpl.
    rewrite take_ge by lia. by destruct (size <=? _). }
  unfold newXLMetaV1. rewrite Hk, Hpm, <- Nat2Z.inj_add, (pr_dist Hready). go_simpl.
  eexists _, _. split; [|split; [reflexivity|exact Hds0]]. done.
Qed.

Section Digests.
Context (size : Z) (sha256sum : string).
Context (data_pos : (0 < length data)%nat) (size_ok : size = zlen data ∨ size = -1).
Context (md5_ok : default "" (metadata !! "md5Sum") = "" ∨
                  metadata !! "md5Sum" = Some (hex_encode (md5_Sum data))).
Context (sha_ok : sha256sum = "" ∨ sha256sum = hex_encode (sha256_Sum data)).

Let put_done (res : go (xlObjects D * (ObjectInfo * option error))) : Prop :=
  ∃ ds, res = Ret (set_disks xl ds, (put_info bucket object (put_meta (zlen data)), None)) ∧
    slots (λ s, slot_is cls (committed bucket object id newid files0 fuel new_files) (blk dist s)) ds n.

Lemma put_verify_ok disks cks :
  slots (λ s, slot_is cls (stg0 old0 (staged_part k m bs data) none) (blk dist s)) disks n →
  length cks = n →
  (∀ i, (i < n)%nat → cls i = DiskUp → cks !! i = Some (file_checksum k m bs data bitRotAlgo i)) →
  put_done (put_verify bitRotAlgo md5_Sum mimedb_DB (S fuel) env xl disks bucket object size data
    metadata sha256sum first_meta (zlen data) cks None).
Proof.
  intros HR Hlc Hck. unfold put_verify.
  rewrite (proj2 (Z.ltb_ge (zlen data) size)) by (unfold zlen in *; lia).
  assert ((if size =? -1 then zlen data else size) = zlen data) as ->.
  { destruct size_ok as [->| ->]; [|done]. by destruct (_ =? -1). }
  rewrite (fill_metadata_md5 md5_ok).
  rewrite (bool_decide_true (hex_encode (md5_Sum data) = hex_encode (md5_Sum data))) by done.
  rewrite andb_false_r.
  assert (negb (bool_decide (sha256sum = "")) && negb (bool_decide (hex_encode (sha256_Sum data) = sha256sum)) =
            false) as ->.
  { destruct sha_ok as [->| ->]; [done|].
    by rewrite (bool_decide_true (hex_encode (sha256_Sum data) = hex_encode (sha256_Sum data))), andb_false_r. }
  destruct (parents_ok disks _ _ HR) as (ds2 & -> & Hds2). go_simpl.
  destruct (retire_ok ds2 _ Hds2) as (ds3 & b & ds4 & -> & Hren & Hds4). go_simpl. rewrite Hren.
  apply put_commit_ok; [|done|done|done].
  destruct b; [constructor; [by right|]|]; (constructor; [by left|constructor]).
Qed.

(** Under the conditions, [PutObject] stores the new version on every disk that
    is up. *)
Lemma PutObject_ok :
  objCacheEnabled xl = false →
  put_done (PutObject bitRotAlgo ReleaseTag md5_Sum mimedb_DB (S fuel) env xl bucket object size
    {| rd_data := data; rd_err := io_EOF : error |} metadata sha256sum).
Proof.
  intros Hcache.
  destruct (PutObject_stage size sha256sum Hcache) as (ds & xm & Hxm & -> & Hds).
  { destruct size_ok as [->| ->]; lia. }
  destruct (put_stage_verify size sha256sum ds xm Hxm Hds) as (ds1 & cks & -> & Hds1 & Hlc & Hck).
  by apply put_verify_ok.
Qed.

End Digests.

(** ** Reading the new version *)

Section Read.
(** The disks by block at the time of the read. *)
Context (rcls : nat → disk_state) (rfuel : nat).
Context (algo_ok : bitRotAlgo ≠ sha256Algo) (sums_ne : ∀ b, hex_encode (blake2b_Sum b) ≠ "").
Context (data_pos : (0 < length data)%nat) (rfuel_ok : (length data < rfuel)%nat).
Context (time_ok : put_modTime env ≠ timeSentinel).

Let part := ObjectPartInfo 1 "part.1" (hex_encode (md5_Sum data)) (zlen data).
(** The disk holds the files of the new version. *)
Definition holds_new (i : nat) (d : D) : Prop :=
  has_vol d bucket ∧ ∀ r, file_at d bucket (object +:+ "/" +:+ r) = new_files i r.

Let holds := holds_new.

Lemma committed_holds i d : committed bucket object id newid files0 fuel new_files i d → holds_new i d.
Proof. intros (nw & Hs & _). split; apply Hs. Qed.

Lemma holds_stable : stable holds.
Proof. intros i d d' [Hv Hf] [Hv' Hf']. split; [auto|]. intros r. by rewrite Hf'. Qed.

Lemma new_hash : newHash bitRotAlgo = newHash "" ∧ newHash "" = blake2b_Sum.
Proof. unfold newHash. rewrite bool_decide_false by done. by destruct (bool_decide _). Qed.

Lemma reported_holds i mt e :
  reported rcls block_meta i (mt, e) → holds_version (put_modTime env) mt e = is_up (rcls i).
Proof.
  unfold reported. destruct (rcls i).
  - intros [= -> ->]. apply Z.eqb_refl.
  - intros [_ He]. by destruct e.
  - intros [_ He]. by destruct e.
Qed.

Lemma reported_count (metas : list xlMetaV1) errs :
  length metas = n → length errs = n →
  (∀ s x e, metas !! s = Some x → errs !! s = Some e → reported rcls block_meta (blk dist s) (x, e)) →
  version_count (put_modTime env) metas errs = count_good (λ i, is_up (rcls i)) n.
Proof.
  intros Hm He Hrep. rewrite <- (count_good_blk dist n _ dist_perm).
  assert (Hlen : length (zip_with (holds_version (put_modTime env)) metas errs) = n).
  { rewrite length_zip_with. lia. }
  unfold version_count, count_good. apply filter_bool_seq; [done|].
  intros s b Hb. apply lookup_zip_with_Some in Hb as (x & e & -> & Hx & Hy).
  by apply reported_holds, (Hrep s).
Qed.

Lemma block_part_hash i : part_hash bitRotAlgo (block_meta i) part = file_checksum k m bs data "" i.
Proof.
  unfold part_hash, part, block_meta, put_meta. simpl. unfold file_checksum. by rewrite (proj1 new_hash).
Qed.

Lemma holds_part i d : holds i d → has_vol d bucket ∧
  file_at d bucket (part_path object part) = Some (shard_file k m bs data i).
Proof.
  intros [Hv Hf]. split; [done|]. unfold part_path, part. cbn [PartName].
  rewrite pathJoin_clean by (apply Hready || apply clean_path_plain, part1_plain). by rewrite Hf.
Qed.

Lemma block_meta_ok i :
  meta_ok k m bs (put_modTime env) [part] [data] dist (block_meta i).
Proof.
  unfold meta_ok, block_meta, put_meta. simpl. rewrite app_nil_r, bs_of_nat. by split_and!.
Qed.

Lemma committed_version ds :
  slots (λ s, slot_is rcls holds (blk dist s)) ds n →
  (n < 2 * count_good (λ i, is_up (rcls i)) n)%nat →
  ∃ ds' metas errs, readAllXLMetadata ds bucket object = (ds', (metas, errs)) ∧
    object_version bitRotAlgo rfuel k m bs bucket object (put_modTime env) [part] [data] dist
      (λ i, is_up (rcls i)) ds' metas errs ∧
    version_count (put_modTime env) metas errs = count_good (λ i, is_up (rcls i)) n.
Proof.
  intros HR Hmaj.
  destruct (readAll_slots bucket object (pr_clean Hready) ds n (λ s, rcls (blk dist s))
    (λ s, holds (blk dist s)) (λ s, block_meta (blk dist s)) HR) as (ds' & metas & errs & -> & Hds & Hm & He & Hrep).
  { apply blk_stable, holds_stable. }
  { intros s d [Hv Hf]. split; [done|]. exists (block_json (blk dist s)).
    split; [by rewrite Hf|apply block_json_ok]. }
  assert (Hrep' : ∀ s x e, metas !! s = Some x → errs !! s = Some e →
            reported rcls block_meta (blk dist s) (x, e)) by (intros s x e ? ?; by apply Hrep).
  pose proof (reported_count metas errs Hm He Hrep') as Hvc.
  exists ds', metas, errs. split; [done|]. split; [|done]. destruct Hds as [Hld Hds].
  split; [exact Hld|exact Hm|exact He|exact time_ok|..].
  - by rewrite Hvc.
  - intros s mt e Hmt Hes Hv. specialize (Hrep' s mt e Hmt Hes). rewrite (reported_holds _ _ _ Hrep') in Hv.
    unfold reported in Hrep'. destruct (rcls (blk dist s)); [|done..]. by injection Hrep' as -> _.
  - intros mt [s Hs]%list_elem_of_lookup Hval Ht.
    destruct (lookup_lt_is_Some_2 errs s) as [e Hes]; [apply lookup_lt_Some in Hs; lia|].
    specialize (Hrep' s mt e Hs Hes). unfold reported in Hrep'.
    destruct (rcls (blk dist s)); [injection Hrep' as -> _; apply block_meta_ok| |];
      destruct Hrep' as [E _]; simpl in E; subst mt; done.
  - apply dist_perm.
  - intros s b d mt e Hb Hd Hmt Hes Hv j p b' c Hp Hb' Hc. destruct j as [|j]; [|done].
    injection Hp as <-. injection Hb' as <-. specialize (Hrep' s mt e Hmt Hes).
    specialize (Hds s _ Hd). rewrite (reported_holds _ _ _ Hrep') in Hv. unfold slot_is in Hds. simpl in Hds.
    destruct (rcls (blk dist s)) eqn:Hcl; [|done..]. destruct Hds as [_ HP].
    destruct (holds_part _ _ HP) as [_ Hf]. rewrite Hf in Hc. injection Hc as <-.
    unfold blk. rewrite (list_lookup_total_correct _ _ _ Hb). split; [|done].
    eapply Nat.le_lt_trans; [apply (shard_file_short k m bs bs_positive)|done].
    destruct (perm_seqZ_bounds _ _ dist_perm) as [Hbd _]. rewrite Forall_lookup in Hbd.
    specialize (Hbd s b Hb). unfold n in *. lia.
  - intros i Hi Hg. destruct (block_disk rfuel k m bs dist bs_positive ltac:(lia) i dist_perm Hi) as (s & Hs & Hsl).
    assert (Hbi : blk dist s = i) by (unfold blk; rewrite (list_lookup_total_correct _ _ _ Hs); lia).
    destruct (lookup_lt_is_Some_2 metas s) as [mt Hmt]; [unfold n in *; lia|].
    destruct (lookup_lt_is_Some_2 errs s) as [e Hes]; [unfold n in *; lia|].
    destruct (slots_up (λ s, rcls (blk dist s)) (λ s, holds (blk dist s)) ds' n s) as (d & Hd & Hup & HP);
      [by split|unfold n; lia|by rewrite Hbi; destruct (rcls i)|].
    specialize (Hrep' s mt e Hmt Hes). rewrite Hbi in *.
    exists s, d, mt, e.
    split_and!; [exact Hs|exact Hd|exact Hmt|exact Hes|by rewrite (reported_holds _ _ _ Hrep')|].
    intros j p b' Hp Hb'. destruct j as [|j]; [|done]. injection Hp as <-. injection Hb' as <-.
    destruct (holds_part _ _ HP) as [Hv Hf]. unfold reported in Hrep'.
    destruct (rcls i); [|done..]. injection Hrep' as -> _.
    split_and!; [by apply up_serves|done|apply block_part_hash|].
    unfold file_checksum. rewrite (proj2 new_hash). apply sums_ne.
Qed.

Lemma GetObject_committed ds pools timeNow cacheNow closeNow (xl2 : xlObjects D) (w : W) off len length_ :
  slots (λ s, slot_is rcls holds (blk dist s)) ds n → storageDisks xl2 = ds →
  is_int64 (zlen data) → put_modTime env ≠ timeNow → objCacheEnabled xl2 = false →
  (2 ≤ readQuorum xl2)%nat → (readQuorum xl2 ≤ count_good (λ i, is_up (rcls i)) n)%nat →
  (n < 2 * count_good (λ i, is_up (rcls i)) n)%nat → (k ≤ count_good (λ i, is_up (rcls i)) n)%nat →
  (∀ i, pool_wf (pools i) ∧ (k + m ≤ length (pool_used (pools i)))%nat ∧
        blockSizeV1 ≤ Z.of_nat k * Z.of_nat (pool_size (pools i))) →
  w_accepts w → (0 < len)%nat → (off + len ≤ length data)%nat →
  length_ = Z.of_nat len ∨ (length_ < 0 ∧ (off + len = length data)%nat) →
  ∃ xl' w', GetObject bitRotAlgo rfuel pools timeNow cacheNow closeNow xl2 bucket object
              (Z.of_nat off) length_ (Some w) = Ret (xl', Some w', None) ∧
    written w' = written w ++ take len (drop off data).
Proof.
  intros HR Hd Hi Ht Hc Hq2 Hq Hmaj Hk Hpools Hw Hlen Hle Hl.
  destruct (committed_version ds HR Hmaj) as (ds' & metas & errs & Hread & Hov & Hvc).
  assert (Hdata : concat [data] = data) by apply app_nil_r.
  destruct (GetObject_ok bitRotAlgo rfuel k m bs bucket object (put_modTime env) [part] [data] dist
    (λ i, is_up (rcls i)) bs_positive ltac:(lia) ltac:(repeat constructor; done)
    ltac:(by rewrite Hdata) pools) with (timeNow := timeNow) (cacheNow := cacheNow) (closeNow := closeNow)
    (xl := xl2) (disks := ds') (metas := metas) (errs := errs) (w := w) (off := off) (len := len)
    (length_ := length_) as (xl' & w' & e & Heq & _ & Hok & Hlive); rewrite ?Hdata; try assumption.
  - intros i. destruct (Hpools i) as (? & ? & Hsz). split_and!; [done|done|].
    unfold ceil_div. apply Nat.lt_succ_r, Nat.Div0.div_lt_upper_bound.
    rewrite <- bs_of_nat in Hsz. pose proof rs_k_pos. nia.
  - unfold checkGetObjArgs, checkBucketAndObjectNames. by rewrite (pr_bucket Hready), (pr_object Hready).
  - by rewrite Hd.
  - rewrite Hvc. unfold n in *. lia.
  - rewrite Hdata in *. assert (e = None) as -> by (by apply Hlive). exists xl', w'. split; [done|]. by apply Hok.
Qed.

End Read.

Lemma put_verify_rejects disks cks size sha256sum err :
  slots (λ s, slot_is cls (stg0 old0 (staged_part k m bs data) none) (blk dist s)) disks n →
  rejected size sha256sum err →
  ∃ ds, put_verify bitRotAlgo md5_Sum mimedb_DB (S fuel) env xl disks bucket object size data
      metadata sha256sum first_meta (zlen data) cks None = Ret (set_disks xl ds, (ObjectInfo_zero, err)) ∧
    slots (λ s, slot_is cls (stg0 old0 none none) (blk dist s)) ds n.
Proof.
  intros HR Hrej. unfold put_verify. destruct (Z.ltb_spec (zlen data) size) as [Hlt|Hge].
  { destruct Hrej as [[_ ->]|[(? & Hs & _)|(? & Hs & _)]]; [by apply put_fail_ok|lia..]. }
  destruct Hrej as [[? _]|[(sum & _ & Hsum & Hne & Hbad & ->)|(Hmd & _ & Hne & Hbad & ->)]]; [lia| |].
  - rewrite fill_metadata_sum with (sum := sum) by done.
    rewrite (bool_decide_false (sum = "")), (bool_decide_false (_ = sum)) by done. by apply put_fail_ok.
  - rewrite fill_metadata_md5 by done.
    rewrite (bool_decide_true (hex_encode (md5_Sum data) = hex_encode (md5_Sum data))), andb_false_r by done.
    rewrite (bool_decide_false (sha256sum = "")), (bool_decide_false (_ = sha256sum)) by done.
    by apply put_fail_ok.
Qed.

End BlockSize.

Context (size : Z) (sha256sum : string).
Context (data_pos : (0 < length data)%nat) (size_ok : size = zlen data ∨ size = -1).
Context (md5_ok : default "" (metadata !! "md5Sum") = "" ∨
                  metadata !! "md5Sum" = Some (hex_encode (md5_Sum data))).
Context (sha_ok : sha256sum = "" ∨ sha256sum = hex_encode (sha256_Sum data)).
Context (cache_off : objCacheEnabled xl = false).

(** C9.  Storing an object.  Let a write quorum of the disks be up, the others
    unreachable or missing, and let the size and the digests that the client
    announced match the data, which is not empty.  The object cache is off.
    [PutObject] returns without an error and reports the size and the md5 sum of
    the data.  Afterwards the directory of the object on the disk of block [i],
    if that disk is up, holds exactly two files: the shards of block [i] of the
    data, and the metadata of the version with the checksum of these shards; the
    files of an earlier version are gone, the staging directory is empty, and no
    file outside the two temporary directories of the call has changed. *)
Theorem PutObject_correct :
  ∃ xl' info, PutObject bitRotAlgo ReleaseTag md5_Sum mimedb_DB (S fuel) env xl bucket object size
      {| rd_data := data; rd_err := io_EOF : error |} metadata sha256sum = Ret (xl', (info, None)) ∧
    Size info = zlen data ∧ MD5Sum info = hex_encode (md5_Sum data) ∧
    length (storageDisks xl') = (k + m)%nat ∧
    ∀ s, (s < k + m)%nat → cls (blk dist s) = DiskUp →
      ∃ d b, storageDisks xl' !! s = Some (Some d) ∧ up d ∧
        json_Marshal (block_meta (Z.to_nat blockSizeV1) (blk dist s)) = inl b ∧
        (∀ r, file_at d bucket (object +:+ "/" +:+ r) =
          if decide (r = xlMetaJSONFile) then Some b
          else if decide (r = "part.1")
          then Some (shard_file k m (Z.to_nat blockSizeV1) data (blk dist s)) else None) ∧
        (∀ r, file_at d minioMetaTmpBucket (uniqueID env +:+ "/" +:+ r) = None) ∧
        (∀ v p, ¬ staging (uniqueID env) (newUniqueID env) v p →
          ¬ (v = bucket ∧ HasPrefix p (object +:+ "/") = true) → file_at d v p = files0 (blk dist s) v p).
Proof.
  destruct (PutObject_ok _ eq_refl size sha256sum data_pos size_ok md5_ok sha_ok cache_off) as (ds & -> & Hds).
  eexists _, _. split; [done|]. split; [done|]. split; [by apply fill_metadata_md5|].
  split; [apply Hds|]. intros s Hs Hc.
  destruct (slots_up (λ s, cls (blk dist s)) (λ s, committed bucket object id newid files0 fuel
    (new_files (Z.to_nat blockSizeV1)) (blk dist s)) ds _ s Hds Hs Hc) as (d & Hd & Hup & nw & Hst & _).
  exists d, (block_json (Z.to_nat blockSizeV1) (blk dist s)). split_and!; [done|done|apply block_json_ok| | |].
  - intros r. by rewrite (stage_obj _ _ _ _ _ _ _ _ _ Hst).
  - intros r. by rewrite (stage_stg _ _ _ _ _ _ _ _ _ Hst).
  - apply Hst.
Qed.

(** C11.  Data that is too short or has another digest is not stored.  Let the
    client send any stream; [data] is what is read of it, that is, no more bytes
    than the announced size if there is one (the bytes after it are not looked
    at: a longer stream is cut off, and not refused for its length).  If fewer
    bytes than announced arrive, or the md5 or sha256 sum of [data] is not the one
    that was given, [PutObject] returns the error for it, and on every disk that
    is up the old version of the object and every other file outside the two
    temporary directories of the call are as before and the staged data is
    deleted.  The object cache is off. *)
Theorem PutObject_rejects stream err :
  (if 0 <? size then take (Z.to_nat size) stream else stream) = data → rejected size sha256sum err →
  ∃ xl', PutObject bitRotAlgo ReleaseTag md5_Sum mimedb_DB (S fuel) env xl bucket object size
      {| rd_data := stream; rd_err := io_EOF : error |} metadata sha256sum = Ret (xl', (ObjectInfo_zero, err)) ∧
    ∀ s, (s < k + m)%nat → cls (blk dist s) = DiskUp →
      ∃ d, storageDisks xl' !! s = Some (Some d) ∧ up d ∧
        (∀ r, file_at d minioMetaTmpBucket (uniqueID env +:+ "/" +:+ r) = None) ∧
        ∀ v p, ¬ staging (uniqueID env) (newUniqueID env) v p → file_at d v p = files0 (blk dist s) v p.
Proof.
  intros Hdata Hrej. rewrite (PutObject_limit size stream data sha256sum Hdata).
  destruct (PutObject_stage _ eq_refl size sha256sum cache_off (limit_length size stream data Hdata)) as (ds & xm & Hxm & -> & Hds).
  destruct (put_stage_verify _ eq_refl size sha256sum ds xm Hxm Hds) as (ds1 & cks & -> & Hds1 & _).
  destruct (put_verify_rejects _ eq_refl ds1 cks size sha256sum err Hds1 Hrej) as (ds2 & -> & Hds2).
  eexists. split; [done|]. intros s Hs Hc.
  destruct (slots_up (λ s, cls (blk dist s)) (λ s, stg0 old0 none none (blk dist s)) ds2 _ s Hds2 Hs Hc)
    as (d & Hd & Hup & Hst).
  exists d. split_and!; [done|done|apply Hst|]. intros v p Hv.
  destruct (decide (v = bucket ∧ HasPrefix p (object +:+ "/") = true)) as [[-> Hp]|Hn]; [|by apply Hst].
  apply HasPrefix_iff in Hp as [r ->]. rewrite <- str_app_assoc. by rewrite (stage_obj _ _ _ _ _ _ _ _ _ Hst).
Qed.

(** C2.  What was put is read back.  After [PutObject] as above, let any disks
    go missing, such that the others are a read quorum, more than half and as
    many as the data blocks.  [GetObject] of a non-empty range of the object
    then returns without an error and has written exactly that range of the
    data.  As above the data is not empty and the object cache is off, so that
    the read goes to the disks; the checksums are those of BLAKE2b, which
    [GetObject] always verifies with. *)
Theorem PutObject_GetObject (lost : nat → bool) (rfuel : nat) pools timeNow cacheNow closeNow
    (w : W) off len length_ :
  let left := count_good (λ i, is_up (if lost i then DiskGone else cls i)) (k + m) in
  (k ≤ left)%nat → (k + m < 2 * left)%nat → (2 ≤ readQuorum xl ≤ left)%nat →
  bitRotAlgo ≠ sha256Algo → (∀ b, hex_encode (blake2b_Sum b) ≠ "") →
  put_modTime env ≠ timeSentinel → put_modTime env ≠ timeNow →
  is_int64 (zlen data) → (length data < rfuel)%nat →
  (∀ i, pool_wf (pools i) ∧ (k + m ≤ length (pool_used (pools i)))%nat ∧
        blockSizeV1 ≤ Z.of_nat k * Z.of_nat (pool_size (pools i))) →
  w_accepts w → (0 < len)%nat → (off + len ≤ length data)%nat →
  length_ = Z.of_nat len ∨ (length_ < 0 ∧ (off + len = length data)%nat) →
  ∃ xl' info, PutObject bitRotAlgo ReleaseTag md5_Sum mimedb_DB (S fuel) env xl bucket object size
      {| rd_data := data; rd_err := io_EOF : error |} metadata sha256sum = Ret (xl', (info, None)) ∧
  ∃ xl'' w', GetObject bitRotAlgo rfuel pools timeNow cacheNow closeNow
      (set_disks xl' (lose_disks dist lost (storageDisks xl'))) bucket object
      (Z.of_nat off) length_ (Some w) = Ret (xl'', Some w', None) ∧
    written w' = written w ++ take len (drop off data).
Proof.
  intros left Hk Hmaj [Hq2 Hq] Halgo Hsums Ht1 Ht2 Hi Hrf Hpools Hw Hlen Hle Hl.
  destruct (PutObject_ok _ eq_refl size sha256sum data_pos size_ok md5_ok sha_ok cache_off) as (ds & -> & Hds).
  eexists _, _. split; [done|].
  apply (GetObject_committed _ eq_refl (λ i, if lost i then DiskGone else cls i) rfuel Halgo Hsums data_pos Hrf Ht1
    (lose_disks dist lost ds) pools); try done. apply lose_slots.
  eapply (slots_impl (λ s, cls (blk dist s))); [|exact Hds]. intros s d. by apply committed_holds.
Qed.

End RoundTrip.

(** ** Witnesses *)

(** Three disks, with 2 data blocks and 1 parity block, that hold an old version
    of the object and another object. *)
Definition put_files : gmap (string * string) bytes :=
  {[ ("bucket", "object/xl.json") := bytes_of_string "old"; ("bucket", "other/xl.json") := bytes_of_string "other" ]}.

Definition put_disk : MemDisk :=
  {| mem_files := put_files; mem_vols := {["bucket"; minioMetaTmpBucket]}; mem_offline := false |}.

Definition put_xl : xlObjects MemDisk :=
  {| storageDisks := [Some put_disk; Some put_disk; Some put_disk]; dataBlocks := 2; parityBlocks := 1;
     readQuorum := 2; writeQuorum := 2; objCache := demo_cache; objCacheEnabled := false |}.

Definition put_demo_env : put_env :=
  {| now_bucket := "1"; now_parent := λ _, "2"; now_object := "3"; uniqueID := "id-1"; newUniqueID := "id-2";
     put_modTime := 77; put_cacheNow := 5 |}.

Definition put_data : bytes := bytes_of_string "hello, world".
Definition put_before (i : nat) (v p : string) : option bytes := put_files !! (v, p).

Lemma put_files_inv v p c : put_files !! (v, p) = Some c →
  v = "bucket" ∧ (p = "object/xl.json" ∨ p = "other/xl.json").
Proof.
  intros Hc. unfold put_files in Hc. apply lookup_insert_Some in Hc as [[[= <- <-] _]|[_ Hc]]; [by auto|].
  apply lookup_singleton_Some in Hc as [[= <- <-] _]. by auto.
Qed.

Lemma put_files_tmp p : put_files !! (minioMetaTmpBucket, p) = None.
Proof. destruct (put_files !! _) eqn:E; [|done]. by apply put_files_inv in E as [? _]. Qed.

Lemma put_disk_up : up put_disk.
Proof.
  split; [done|]. intros v p [c Hc]. apply put_files_inv in Hc as [_ [-> | ->]];
    by apply (bool_decide_unpack _); vm_compute.
Qed.

Lemma put_stage0 i :
  at_stage "bucket" "object" "id-1" "id-2" put_before (old "bucket" "object" put_before) none none i put_disk.
Proof.
  split; try done; try (intros; apply put_files_tmp); try (split; apply put_files_tmp);
    by apply (bool_decide_unpack _); vm_compute.
Qed.

Lemma put_demo_ready :
  put_ready 2 1 put_demo_env put_xl "bucket" "object" put_data 3 [3; 1; 2] (λ _, DiskUp) put_before.
Proof.
  assert (Hold : ∀ i r, is_Some (old "bucket" "object" put_before i r) → r = "xl.json").
  { intros i r [c Hc]. apply put_files_inv in Hc as [_ [E|E]]; [|done].
    by apply (str_app_inj_l "object/") in E. }
  assert (Hpar : ∀ a r, "object" ≠ a +:+ "/" +:+ r).
  { intros a r E. do 6 (destruct a as [|? a]; simpl in E; [done|injection E as _ E]). by destruct a. }
  split; try done.
  1-3: by apply (bool_decide_unpack _); vm_compute.
  - split_and!; apply Nat.leb_le; by vm_compute.
  - split; [done|]. intros s x Hx. assert (x = Some put_disk) as ->.
    { destruct s as [|[|[|s]]]; simpl in Hx; by simplify_eq. }
    split; [apply put_disk_up|apply put_stage0].
  - intros i a [->|[r E]]; [done|by apply Hpar in E].
  - intros i a r E. by apply Hpar in E.
  - intros i. left. exists "xl.json". by apply (bool_decide_unpack _); vm_compute.
  - left. exists 0%nat. split_and!; [lia|done|]. by apply (bool_decide_unpack _); vm_compute.
  - intros i r Hr. apply Hold in Hr as ->. apply Nat.leb_le. by vm_compute.
  - split; [by vm_compute|]. apply Nat.leb_le. by vm_compute.
  - intros mt. by eexists.
Qed.

Lemma PutObject_correct_witness :
  ∃ xl' info, PutObject (H1 := map_order_rev) blake2bAlgo "rel" (λ b, b) (λ _, None) 4 put_demo_env put_xl "bucket" "object"
      12 {| rd_data := put_data; rd_err := io_EOF : error |} ∅ "" = Ret (xl', (info, None)) ∧ Size info = 12.
Proof.
  destruct (PutObject_correct (H2 := map_order_rev) blake2bAlgo "rel" (λ b, b) (λ _, None) 2 1 put_demo_env put_xl
    "bucket" "object" put_data 3 ∅ [3; 1; 2] (λ _, DiskUp) put_before put_demo_ready 12 "")
    as (xl' & info & Heq & Hsize & _);
    [apply Nat.leb_le; by vm_compute|by left|by left|by left|done|].
  exists xl', info. split; [exact Heq|exact Hsize].
Defined.

(** Bytes 7 to 11 are read after the disk of block 1 is lost. *)
Lemma PutObject_GetObject_witness :
  ∃ xl' info, PutObject (H1 := map_order_rev) blake2bAlgo "rel" (λ b, b) (λ _, None) 4 put_demo_env put_xl "bucket" "object"
      12 {| rd_data := put_data; rd_err := io_EOF : error |} ∅ "" = Ret (xl', (info, None)) ∧
    ∃ xl'', GetObject (H1 := map_order_rev) blake2bAlgo 20 (λ _, NewBytePool (Z.to_nat blockSizeV1) 3) 1000 1000 1000
      (set_disks xl' (lose_disks [3; 1; 2] (λ i, i =? 1)%nat (storageDisks xl'))) "bucket" "object" 7 5 (Some []) =
      Ret (xl'', Some (bytes_of_string "world"), None).
Proof.
  destruct (PutObject_GetObject (H2 := map_order_rev) (W := bytes) blake2bAlgo "rel" (λ b, b) (λ _, None) 2 1
    put_demo_env put_xl "bucket" "object" put_data 3 ∅ [3; 1; 2] (λ _, DiskUp) put_before put_demo_ready 12 ""
    ltac:(apply Nat.leb_le; by vm_compute) ltac:(by left) ltac:(by left) ltac:(by left) eq_refl
    (λ i, i =? 1)%nat 20 (λ _, NewBytePool (Z.to_nat blockSizeV1) 3) 1000 1000 1000 [] 7 5 5)
    as (xl' & info & Heq & xl'' & w' & Hget & Hw).
  1-2: apply Nat.leb_le; by vm_compute.
  - split; apply Nat.leb_le; by vm_compute.
  - done.
  - intros b. by destruct b.
  - done.
  - done.
  - by vm_compute.
  - apply Nat.leb_le; by vm_compute.
  - intros i. split_and!; [apply NewBytePool_wf|cbn [pool_used NewBytePool]; rewrite length_replicate; lia|].
    cbn [pool_size NewBytePool]. rewrite Z2Nat.id; unfold blockSizeV1; lia.
  - done.
  - lia.
  - apply Nat.leb_le; by vm_compute.
  - by left.
  - exists xl', info. split; [exact Heq|]. exists xl''. change (written w') with w' in Hw. rewrite Hw in Hget. exact Hget.
Defined.

(** Twelve of twenty announced bytes arrive; and the twelve announced bytes of a
    longer stream have another sha256 sum. *)
Lemma PutObject_rejects_witness :
  (∃ xl', PutObject (H1 := map_order_rev) blake2bAlgo "rel" (λ b, b) (λ _, None) 4 put_demo_env put_xl "bucket" "object"
      20 {| rd_data := put_data; rd_err := io_EOF : error |} ∅ "" =
    Ret (xl', (ObjectInfo_zero, traceError (Some (IncompleteBody "" "" : error)) []))) ∧
  ∃ xl', PutObject (H1 := map_order_rev) blake2bAlgo "rel" (λ b, b) (λ _, None) 4 put_demo_env put_xl "bucket" "object"
      12 {| rd_data := put_data ++ put_data; rd_err := io_EOF : error |} ∅ "bad" =
    Ret (xl', (ObjectInfo_zero, traceError (Some (SHA256Mismatch : error)) [])).
Proof.
  split.
  - destruct (PutObject_rejects (H2 := map_order_rev) blake2bAlgo "rel" (λ b, b) (λ _, None) 2 1 put_demo_env put_xl
      "bucket" "object" put_data 3 ∅ [3; 1; 2] (λ _, DiskUp) put_before put_demo_ready 20 "" eq_refl put_data
      (traceError (Some (IncompleteBody "" "" : error)) [])) as (xl' & Heq & _).
    + by vm_compute.
    + left. split; [by vm_compute|done].
    + exists xl'. exact Heq.
  - destruct (PutObject_rejects (H2 := map_order_rev) blake2bAlgo "rel" (λ b, b) (λ _, None) 2 1 put_demo_env put_xl
      "bucket" "object" put_data 3 ∅ [3; 1; 2] (λ _, DiskUp) put_before put_demo_ready 12 "bad" eq_refl (put_data ++ put_data)
      (traceError (Some (SHA256Mismatch : error)) [])) as (xl' & Heq & _).
    + by vm_compute.
    + right. right. split_and!; [by left|by vm_compute|done|by apply (bool_decide_unpack _); vm_compute|done].
    + exists xl'. exact Heq.
Defined.
