(* ===== verification/XLDelete.v ===== *)
(** * Deleting objects, and the size of their files

    [DeleteObject] (src/cmd/xl-v1-object.go) removes the directory of the object
    from every disk that can be reached; [cleanupDir] (object-api-common.go) is
    the recursive deletion of a directory; [sizeOnDisk] (xl-v1-object.go) is the
    length that is reserved for the file of a disk. *)

From S2P Require Import Prelude.
From S2P Require Import GoErrors.
From S2P Require Import GoStrings.
From S2P Require Import Quorum.
From S2P Require Import Distribution.
From S2P Require Import XLMeta.
From S2P Require Import Storage.
From S2P Require Import Erasure.
From S2P Require Import ErasureSpec.
From S2P Require Import XorCode.
From S2P Require Import ErasureWrite.
From S2P Require Import ObjCache.
From S2P Require Import ObjectNames.
From S2P Require Import DiskContract.
From S2P Require Import XLDisk.
From S2P Require Import XLCommon.
From S2P Require Import XLObject.
From S2P Require Import XLPut.
From S2P Require Import XLPutGet.

Local Open Scope Z_scope.



(** ** Deleting a directory and an object *)

Section Delete.
Context {D : Type} `{!StorageAPI D} `{!StorageContract D} `{!Volumes D} `{!DiskContract D}.

Lemma removed_below v s (d d' : D) :
  removed v s (λ _, True) d d' →
  (∀ r, file_at d' v (s +:+ "/" +:+ r) = None) ∧
  (∀ v' p, ¬ (v' = v ∧ HasPrefix p (s +:+ "/") = true) → file_at d' v' p = file_at d v' p).
Proof.
  intros [[_ Hf] Hg]. split; [by intros r; apply Hg|]. intros v' p Hn. apply Hf.
  intros r _ [= -> ->]. apply Hn. split; [done|]. apply HasPrefix_iff. exists r. by rewrite str_app_assoc.
Qed.

(** C28.  The recursive deletion of a directory terminates.  On a disk that is up,
    with fuel for the depth of the directory, [cleanupDir] returns without an
    error; no file is left below the directory and every other file is as
    before. *)
Theorem cleanupDir_terminates fuel (d : D) v s :
  up d → has_vol d v → clean_path s →
  (∀ r, is_Some (file_at d v (s +:+ "/" +:+ r)) → (length (Split r "/") ≤ fuel)%nat) →
  ∃ d', cleanupDir (S fuel) d v s = Ret (d', None) ∧ up d' ∧
    (∀ r, file_at d' v (s +:+ "/" +:+ r) = None) ∧
    (∀ v' p, ¬ (v' = v ∧ HasPrefix p (s +:+ "/") = true) → file_at d' v' p = file_at d v' p).
Proof.
  intros Hup Hv Hs Hdep. destruct (cleanupDir_ok fuel d v s Hup Hv Hs Hdep) as (d' & -> & Hup' & Hr).
  exists d'. split_and!; [done|done|by eapply removed_below..].
Qed.

Context (fuel : nat) (now : string) (xl : xlObjects D) (bucket object : string) (n : nat).
Context (cls : nat → disk_state) (files0 : nat → string → string → option bytes).

(** A disk with the given files. *)
Definition holds_files (i : nat) (d : D) : Prop :=
  has_vol d bucket ∧ ∀ v p, file_at d v p = files0 i v p.

(** The conditions of a deletion: every slot is a disk that is up and holds the
    bucket, a disk that fails, or missing. *)
Record delete_ready : Prop := {
  dr_bucket : IsValidBucketName bucket = true;
  dr_object : IsValidObjectName object = true;
  dr_clean : clean_path object;
  dr_range : 0 < Z.of_nat n < 2 ^ 32;
  dr_quorum : (2 ≤ writeQuorum xl)%nat ∧ (n < 2 * writeQuorum xl)%nat ∧
    (writeQuorum xl ≤ count_good (λ i, is_up (cls i)) n)%nat;
  dr_disks : slots (slot_is cls holds_files) (storageDisks xl) n;
  dr_depth : ∀ i r, is_Some (files0 i bucket (object +:+ "/" +:+ r)) → (length (Split r "/") ≤ fuel)%nat;
}.

(** C12.  Deleting an object.  Let a write quorum of the disks be up.  If one of
    them has the metadata of the object, [DeleteObject] returns without an error
    and no disk that is up has a file of the object left; if none has it, the
    answer is [ObjectNotFound] and no file is deleted.  Files outside the
    directory of the object are never touched, and with the cache on the entry
    of the object is dropped. *)
Theorem DeleteObject_correct :
  delete_ready →
  ∃ xl' err, DeleteObject (S fuel) now xl bucket object = Ret (xl', err) ∧
    (((∃ i, (i < n)%nat ∧ cls i = DiskUp ∧ is_Some (files0 i bucket (object +:+ "/" +:+ xlMetaJSONFile))) ∧
      err = None ∧
      (objCacheEnabled xl = true → objCache xl' = Delete (objCache xl) (pathJoin [bucket; object])) ∧
      ∀ i, (i < n)%nat → cls i = DiskUp → ∃ d, storageDisks xl' !! i = Some (Some d) ∧ up d ∧
        (∀ r, file_at d bucket (object +:+ "/" +:+ r) = None) ∧
        ∀ v p, ¬ (v = bucket ∧ HasPrefix p (object +:+ "/") = true) → file_at d v p = files0 i v p) ∨
     ((∀ i, (i < n)%nat → cls i = DiskUp → files0 i bucket (object +:+ "/" +:+ xlMetaJSONFile) = None) ∧
      err = traceError (Some (ObjectNotFound bucket object : error)) [] ∧
      ∀ i, (i < n)%nat → cls i = DiskUp → ∃ d, storageDisks xl' !! i = Some (Some d) ∧ up d ∧
        ∀ v p, file_at d v p = files0 i v p)).
Proof.
  intros [Hb Ho Hc Hrng (Hq & Hm & Hup) HR Hdep]. unfold DeleteObject, checkDelObjArgs, checkBucketAndObjectNames.
  rewrite Hb, Ho. cbn [negb].
  assert (Hst : stable holds_files).
  { intros i d d' [Hv Hf] [Hv' Hf']. split; [by apply Hv'|]. intros v p. by rewrite Hf'. }
  destruct (isObject_ok cls n Hrng now (storageDisks xl) bucket object holds_files
    (λ i, is_Some (files0 i bucket (object +:+ "/" +:+ xlMetaJSONFile))) HR Hst) as (ds & ok & -> & Hds & Hok).
  { intros i d [Hv Hf]. split; [done|].
    rewrite path_Join_clean by (done || apply clean_path_plain, xlMetaJSON_plain). by rewrite Hf. }
  go_simpl. destruct ok; go_simpl.
  - destruct (deleteObject_slots fuel (writeQuorum xl) bucket object ds n cls holds_files Hc Hds)
      as (ds2 & e & -> & Hds2 & He).
    { intros i d [Hv Hf]. split; [done|]. intros r. rewrite Hf. apply Hdep. }
    go_simpl. rewrite (He Hq Hm Hup).
    assert (Hres : ∀ i, (i < n)%nat → cls i = DiskUp → ∃ d, ds2 !! i = Some (Some d) ∧ up d ∧
      (∀ r, file_at d bucket (object +:+ "/" +:+ r) = None) ∧
      ∀ v p, ¬ (v = bucket ∧ HasPrefix p (object +:+ "/") = true) → file_at d v p = files0 i v p).
    { intros i Hi Hci. destruct (slots_up _ _ _ _ i Hds2 Hi Hci) as (d' & Hd' & Hup' & d & [_ Hf] & Hrm).
      exists d'. destruct (removed_below _ _ _ _ Hrm) as [Hno Hoth]. split_and!; [done|done|done|].
      intros v p Hp. by rewrite Hoth. }
    cbn [set_disks objCacheEnabled]. destruct (objCacheEnabled xl); eexists _, _; (split; [reflexivity|]);
      left; (split; [by apply Hok|]); split_and!; done.
  - eexists _, _. split; [done|]. right. split_and!; [|done|].
    + intros i Hi Hci. destruct (files0 i bucket _) eqn:E; [|done].
      assert (false = true) by (apply Hok; exists i; by rewrite E). done.
    + intros i Hi Hci. destruct (slots_up _ _ _ _ i Hds Hi Hci) as (d & Hd & Hud & _ & Hf). by exists d.
Qed.

End Delete.

(** ** Witnesses *)

Lemma put_disk_vol : has_vol put_disk "bucket".
Proof.
  change ("bucket" ∈ mem_vols put_disk). by apply (bool_decide_unpack _); vm_compute.
Qed.

Lemma put_depth i r :
  is_Some (put_before i "bucket" ("object" +:+ "/" +:+ r)) → (length (Split r "/") ≤ 1)%nat.
Proof.
  intros [c Hc]. apply put_files_inv in Hc as [_ [E|E]]; [|done].
  apply (str_app_inj_l "object/") in E as ->. apply Nat.leb_le. by vm_compute.
Qed.

Lemma cleanupDir_terminates_witness :
  ∃ d', cleanupDir 2 put_disk "bucket" "object" = Ret (d', None) ∧
    file_at d' "bucket" ("object" +:+ "/" +:+ "xl.json") = None ∧
    file_at d' "bucket" "other/xl.json" = Some (bytes_of_string "other").
Proof.
  destruct (cleanupDir_terminates 1 put_disk "bucket" "object" put_disk_up) as (d' & Heq & _ & Hno & Hoth).
  - apply put_disk_vol.
  - by apply (bool_decide_unpack _); vm_compute.
  - apply (put_depth 0).
  - exists d'. split_and!; [exact Heq|apply Hno|]. rewrite Hoth; [by vm_compute|]. intros [_ [=]].
Defined.

Definition delete_cls (i : nat) : disk_state := match i with 1%nat => DiskGone | _ => DiskUp end.

Definition delete_xl : xlObjects MemDisk := set_disks put_xl [Some put_disk; None; Some put_disk].

Lemma DeleteObject_correct_witness :
  ∃ xl', DeleteObject 2 "now" delete_xl "bucket" "object" = Ret (xl', None).
Proof.
  destruct (DeleteObject_correct 1 "now" delete_xl "bucket" "object" 3 delete_cls put_before)
    as (xl' & err & Heq & [(_ & -> & _)|(Hno & _)]).
  - split; try done.
    + by apply (bool_decide_unpack _); vm_compute.
    + split_and!; apply Nat.leb_le; by vm_compute.
    + split; [done|]. assert (Hd : up put_disk ∧ holds_files "bucket" put_before 0 put_disk).
      { split; [apply put_disk_up|]. split; [apply put_disk_vol|done]. }
      intros [|[|[|s]]] x Hx; simpl in Hx; simplify_eq; done.
    + apply put_depth.
  - exists xl'. exact Heq.
  - exfalso. specialize (Hno 0%nat ltac:(lia) eq_refl). by vm_compute in Hno.
Defined.
