(* ===== verification/XLCopy.v ===== *)
(** * Copying an object onto itself

    [CopyObject] (src/cmd/xl-v1-object.go) with the same source and destination
    only replaces the metadata of the object on every disk.  The theorem is what
    it stores: the checksums of one disk, on all of them. *)

From S2P Require Import Prelude.
From S2P Require Import GoErrors.
From S2P Require Import GoStrings.
From S2P Require Import Quorum.
From S2P Require Import Distribution.
From S2P Require Import XLMeta.
From S2P Require Import Storage.
From S2P Require Import Bpool.
From S2P Require Import Erasure.
From S2P Require Import ErasureSpec.
From S2P Require Import XorCode.
From S2P Require Import ErasureWrite.
From S2P Require Import Healing.
From S2P Require Import ObjCache.
From S2P Require Import ObjectNames.
From S2P Require Import DiskContract.
From S2P Require Import XLDisk.
From S2P Require Import XLCommon.
From S2P Require Import XLObject.
From S2P Require Import XLPut.
From S2P Require Import XLStage.
From S2P Require Import XLPutGet.

Local Open Scope Z_scope.

Section Copy.
Context `{JsonContract} `{MapOrder, Hashes, ReedSolomon}.
Context {D : Type} `{!StorageAPI D} `{!StorageContract D} `{!Volumes D} `{!DiskContract D}.
Context (bitRotAlgo ReleaseTag : string).
Context (md5_Sum : bytes → bytes) (mimedb_DB : string → option string).
Context (fuel rfuel : nat) (pools : nat → BytePool) (env : copy_env).
Context (xl : xlObjects D) (bucket object : string) (metadata : gmap string string).
Context (n : nat) (T : time) (dist : list Z).
(** The metadata of every block, and its JSON. *)
Context (mt : nat → xlMetaV1) (js : nat → bytes).

Let all_up : nat → disk_state := λ _, DiskUp.
Let tmp := minioMetaTmpBucket.
Let id := cp_tempObj env.
Let xlpath := object +:+ "/" +:+ xlMetaJSONFile.
Let tmppath := id +:+ "/" +:+ xlMetaJSONFile.

(** A disk with the volumes, the metadata [c] of the object and the staged
    metadata [t]. *)
Record copying (c : bytes) (t : option bytes) (d : D) : Prop := {
  cp_bucket : has_vol d bucket;
  cp_tmp : has_vol d tmp;
  cp_meta : file_at d bucket xlpath = Some c;
  cp_staged : file_at d tmp tmppath = t;
  cp_id : file_at d tmp id = None;
  cp_below : ∀ r, file_at d tmp (tmppath +:+ "/" +:+ r) = None;
}.

(** Every disk is up and holds the version [T] of the object. *)
Record copy_ready : Prop := {
  cr_clean : clean_path object;
  cr_tmp : bucket ≠ tmp;
  cr_id : plain_elem id;
  cr_dist : dist ≡ₚ seqZ 1 (Z.of_nat n);
  cr_disks : slots (λ s, slot_is all_up (λ i, copying (js i) None) (blk dist s)) (storageDisks xl) n;
  cr_json : ∀ i, json_Marshal (mt i) = inl (js i);
  cr_version : ∀ i, IsValid (mt i) = true ∧ ModTime (Stat (mt i)) = T ∧ Distribution (Erasure (mt i)) = dist;
  cr_time : T ≠ timeSentinel ∧ T ≠ cp_timeNow env;
  cr_read : (2 ≤ readQuorum xl ≤ n)%nat;
  cr_write : (2 ≤ writeQuorum xl ≤ n)%nat ∧ (n < 2 * writeQuorum xl)%nat;
  cr_marshal : ∀ m, ∃ b, json_Marshal m = inl b;
}.

Context (Hready : copy_ready).

(** The metadata of the first disk, with the new entries. *)
Definition copied : xlMetaV1 := set_meta (mt (blk dist 0)) metadata.

Definition copied_json (i : nat) : bytes :=
  match json_Marshal (set_index copied (Z.of_nat i + 1)) with inl b => b | inr _ => [] end.

Lemma copied_json_ok i : json_Marshal (set_index copied (Z.of_nat i + 1)) = inl (copied_json i).
Proof. unfold copied_json. by destruct (cr_marshal Hready (set_index copied (Z.of_nat i + 1))) as [b ->]. Qed.

Lemma copying_same c t d d' : copying c t d → same_disk d d' → copying c t d'.
Proof. intros [] [Hv Hf]. split; auto; intros; by rewrite Hf. Qed.

Lemma tmppath_clean : clean_path tmppath.
Proof. apply clean_path_app. split; apply clean_path_plain; [apply Hready|apply xlMetaJSON_plain]. Qed.

Lemma xlpath_clean : clean_path xlpath.
Proof. apply clean_path_app. split; [apply Hready|apply clean_path_plain, xlMetaJSON_plain]. Qed.

(** The new metadata is staged. *)
Lemma copy_write i c d : up d → copying c None d →
  ∃ d', writeXLMetadata d tmp id (set_index copied (Z.of_nat i + 1)) = (d', None) ∧ up d' ∧
    copying c (Some (copied_json i)) d'.
Proof.
  intros Hup [Hb Ht Hm Hs Hi Hbel]. unfold writeXLMetadata. rewrite copied_json_ok.
  rewrite path_Join_clean by (apply clean_path_plain; [apply Hready || apply xlMetaJSON_plain]).
  assert (Ha : accepts d tmp tmppath).
  { apply up_accepts; [done|done|]. split; [|by intros [r [x Hr]]; rewrite Hbel in Hr].
    intros a r E. apply slash_elem_inj in E as [-> ->]; [done|apply Hready|apply xlMetaJSON_plain]. }
  destruct (AppendFile_accepts d _ _ (copied_json i) Ha) as (d' & Happ & _). fold tmppath. rewrite Happ.
  destruct (up_AppendFile _ _ _ _ _ Hup tmppath_clean Happ) as [Hup' [Hv Hf]].
  apply AppendFile_appends in Happ. rewrite Hs in Happ. exists d'. split_and!; [done|done|].
  assert (Hne : tmp ≠ bucket) by (intros E; by apply (cr_tmp Hready)).
  split; [by apply Hv|by apply Hv| |exact Happ| |].
  - rewrite Hf; [done|]. by intros [= ? _].
  - rewrite Hf; [done|]. intros [= E]. by apply plain_ne_slash in E; [|apply Hready].
  - intros r. rewrite Hf; [apply Hbel|]. intros [= E]. by apply slash_longer in E.
Qed.

(** The staged metadata replaces that of the object. *)
Lemma copy_rename c t d : up d → copying c (Some t) d →
  ∃ d' e, RenameFile d tmp tmppath bucket xlpath = (d', e) ∧ up d' ∧ copying t None d' ∧
    (e = None ∨ e = Some (errFileNotFound : error)).
Proof.
  intros Hup [Hb Ht Hm Hs Hi Hbel].
  assert (Hne : tmp ≠ bucket) by (intros E; by apply (cr_tmp Hready)).
  destruct (up_RenameFile_over d tmp tmppath bucket xlpath t Hup Ht Hb) as (d' & -> & Hup' & [Hv Hf] & Hd & Hn);
    [by intros [= ? _]|apply tmppath_clean|apply xlpath_clean|done|left; by rewrite Hm|].
  eexists _, _. split_and!; [done|done| |by left].
  split; [by apply Hv|by apply Hv|done|done| |].
  - rewrite Hf; [done|]. split; [intros [= E]|by intros [= ? _]]. by apply plain_ne_slash in E; [|apply Hready].
  - intros r. rewrite Hf; [apply Hbel|]. split; [intros [= E]|by intros [= ? _]]. by apply slash_longer in E.
Qed.

Lemma all_up_count : count_good (λ i, is_up (all_up i)) n = n.
Proof.
  unfold count_good. transitivity (length (seq 0 n)); [|apply length_seq]. f_equal.
  induction (seq 0 n) as [|i l IH]; [done|]. by rewrite filter_cons, IH.
Qed.

Lemma merge_all (online disks : list (option D)) :
  length online = length disks → Forall is_Some online → merge_disks online disks = online.
Proof.
  revert disks. induction online as [|o online IH]; intros [|d disks] Hl Ho; try done.
  apply Forall_cons in Ho as [[x ->] Ho]. cbn. f_equal. apply IH; [simpl in Hl; lia|done].
Qed.

Lemma copying_stable t : stable (λ s, copying (js (blk dist s)) t).
Proof. intros s d d'. apply copying_same. Qed.

Lemma count_true (l : list bool) : Forall (λ b, b = true) l → length (filter (λ b, b = true) l) = length l.
Proof. induction 1 as [|b l -> _ IH]; [done|]. rewrite filter_cons. simpl. by rewrite IH. Qed.

(** All disks report the version. *)
Lemma copy_read :
  ∃ ds metas errs, readAllXLMetadata (storageDisks xl) bucket object = (ds, (metas, errs)) ∧
    slots (λ s, slot_is all_up (λ i, copying (js i) None) (blk dist s)) ds n ∧
    length metas = n ∧ length errs = n ∧
    (∀ s m, metas !! s = Some m → m = mt (blk dist s)) ∧ (∀ s e, errs !! s = Some e → e = None) ∧
    version_count T metas errs = n.
Proof.
  destruct (readAll_slots bucket object (cr_clean Hready) (storageDisks xl) n all_up
    (λ s, copying (js (blk dist s)) None) (λ s, mt (blk dist s)) (cr_disks Hready))
    as (ds & metas & errs & -> & Hds & Hm & He & Hrep).
  { apply copying_stable. }
  { intros s d Hc. split; [apply Hc|]. exists (js (blk dist s)). split; [apply Hc|apply Hready]. }
  assert (Hms : ∀ s m, metas !! s = Some m → m = mt (blk dist s)).
  { intros s m Hs. destruct (lookup_lt_is_Some_2 errs s) as [e Hes]; [apply lookup_lt_Some in Hs; lia|].
    by injection (Hrep s m e Hs Hes) as -> _. }
  assert (Hes : ∀ s e, errs !! s = Some e → e = None).
  { intros s e Hs. destruct (lookup_lt_is_Some_2 metas s) as [m Hmt]; [apply lookup_lt_Some in Hs; lia|].
    by injection (Hrep s m e Hmt Hs) as _ ->. }
  exists ds, metas, errs. split_and!; try done.
  unfold version_count. rewrite count_true; [rewrite length_zip_with; lia|].
  apply Forall_lookup. intros s b Hb. apply lookup_zip_with_Some in Hb as (m & e & -> & Hs & Hse).
  rewrite (Hms s m Hs), (Hes s e Hse). apply Z.eqb_eq. by destruct (cr_version Hready (blk dist s)) as (_ & ? & _).
Qed.

Lemma copy_metadata_ok ds od :
  slots (slot_is all_up (λ i, copying (js i) None)) od n → length ds = n →
  ∃ xl' info, copy_metadata env (set_disks xl ds) ds od bucket object (mt (blk dist 0)) metadata =
      Ret (xl', (info, None)) ∧
    ∀ s, (s < n)%nat → ∃ d d' m, storageDisks xl' !! s = Some (Some d) ∧ up d ∧
      readXLMeta d bucket object = (d', (m, None)) ∧ Meta m = metadata ∧
      Index (Erasure m) = Z.of_nat (blk dist s) + 1 ∧
      Checksum (Erasure m) = Checksum (Erasure (mt (blk dist 0))).
Proof.
  intros Hod Hl. destruct (cr_write Hready) as [[Hw1 Hw2] Hw3].
  assert (Hc : (writeQuorum xl ≤ count_good (λ i, is_up (all_up i)) n)%nat) by (by rewrite all_up_count).
  destruct (cr_version Hready (blk dist 0)) as (_ & _ & Hdist).
  unfold copy_metadata. fold copied. change (Distribution (Erasure copied)) with (Distribution (Erasure (mt (blk dist 0)))).
  rewrite Hdist. cbn [storageDisks set_disks writeQuorum]. rewrite Hl. unfold writeUniqueXLMetadata.
  destruct (write_unique_slots minioMetaTmpBucket (cp_tempObj env) od (replicate n copied) 0 n all_up
    (λ i, copying (js i) None) (λ i, copying (js i) (Some (copied_json i))) Hod) as (od1 & ms & errs & -> & Hod1 & He).
  { by rewrite length_replicate. }
  { intros i d m _ Hup HP Hm. apply lookup_replicate in Hm as [-> _]. rewrite Z.add_0_l. by apply copy_write. }
  go_simpl. unfold write_quorum_result.
  destruct (up_quorum all_up errs n (writeQuorum xl) He) as [-> ->]; [lia|done|done|]. go_simpl.
  unfold renameXLMetadata, rename. fold id.
  rewrite !path_Join_clean by (apply Hready || apply clean_path_plain; apply Hready || apply xlMetaJSON_plain).
  fold tmp tmppath xlpath.
  destruct (rename_all_ok tmp tmppath bucket xlpath od1 n all_up _ (λ i, copying (copied_json i) None) Hod1)
    as (od2 & errs2 & -> & Hod2 & He2).
  { intros i d Hup HP. by eapply copy_rename. }
  destruct (up_quorum all_up errs2 n (writeQuorum xl) He2) as [-> ->]; [lia|done|done|]. go_simpl.
  destruct (gather_slots dist od2 n _ (cr_dist Hready) Hod2) as (od3 & -> & Hod3). go_simpl.
  eexists _, _. split; [done|]. cbn [storageDisks set_disks].
  rewrite merge_all.
  2: { destruct Hod3. lia. }
  2: { apply Forall_lookup. intros s x Hx. apply Hod3 in Hx. by destruct x. }
  intros s Hs. destruct (slots_up all_up (λ s, copying (copied_json (blk dist s)) None) od3 n s Hod3 Hs eq_refl)
    as (d & Hd & Hup & HP).
  destruct (readXLMeta_up bucket object (cr_clean Hready) d (set_index copied (Z.of_nat (blk dist s) + 1))
    (copied_json (blk dist s)) Hup) as (d' & Hr & _); [apply HP|apply HP|apply copied_json_ok|].
  by exists d, d', (set_index copied (Z.of_nat (blk dist s) + 1)).
Qed.

(** A copy of an object onto itself stores the checksums of one disk on all
    disks.  Let every disk be up and hold the version.  [CopyObject] with the
    same source and destination succeeds, and afterwards the metadata that every
    disk stores is that of the first disk, with the new entries: the checksums
    in it are those of the first disk's files, whatever the files of the disk
    itself are. *)
Theorem CopyObject_one_checksum :
  ∃ xl' info, CopyObject bitRotAlgo ReleaseTag md5_Sum mimedb_DB fuel rfuel pools env xl
      bucket object bucket object metadata = Ret (xl', (info, None)) ∧
    ∀ s, (s < n)%nat → ∃ d d' m, storageDisks xl' !! s = Some (Some d) ∧ up d ∧
      readXLMeta d bucket object = (d', (m, None)) ∧ Meta m = metadata ∧
      Index (Erasure m) = Z.of_nat (blk dist s) + 1 ∧
      Checksum (Erasure m) = Checksum (Erasure (mt (blk dist 0))).
Proof.
  destruct copy_read as (ds & metas & errs & Hread & Hds & Hm & He & Hms & Hes & Hvc).
  unfold CopyObject. rewrite Hread.
  destruct (cr_read Hready) as [Hr1 Hr2]. destruct (cr_write Hready) as [[Hw1 Hw2] Hw3].
  destruct (cr_time Hready) as [Ht1 Ht2].
  destruct (version_votes T metas errs quorumIgnoredErrs eq_refl) as [Hv1 _].
  change (readQuorum (set_disks xl ds)) with (readQuorum xl).
  rewrite (proj2 (isDiskQuorum_count errs (readQuorum xl))).
  2: { transitivity (occ None (votes quorumIgnoredErrs errs)); [lia|]. apply length_filter. }
  cbn [negb]. destruct (version_votes T metas errs objectOpIgnoredErrs eq_refl) as [Hv2 Hv3].
  unfold reduceReadQuorumErrs. rewrite reduceQuorumErrs_majority by lia.
  destruct (listOnlineDisks_majority (cp_timeNow env) T ds metas errs) as (online & -> & Hlo & Hon);
    [lia|by destruct Hds; lia|done|done|lia|].
  go_simpl.
  assert (online = ds) as ->.
  { apply list_eq. intros s. destruct (decide (s < n)%nat) as [Hs|Hs].
    - destruct (lookup_lt_is_Some_2 ds s) as [d Hd]; [destruct Hds; lia|].
      destruct (lookup_lt_is_Some_2 metas s) as [m Hsm]; [lia|].
      destruct (lookup_lt_is_Some_2 errs s) as [e Hse]; [lia|].
      rewrite (Hon s m e d Hsm Hse Hd), Hd, (Hms s m Hsm), (Hes s e Hse). simpl.
      destruct (cr_version Hready (blk dist s)) as (_ & -> & _). by rewrite Z.eqb_refl.
    - rewrite !lookup_ge_None_2; [done|destruct Hds; lia|destruct Hds; lia]. }
  destruct metas as [|m0 metas]; [simpl in Hm; lia|].
  assert (m0 = mt (blk dist 0)) as -> by (by apply (Hms 0%nat)).
  destruct (cr_version Hready (blk dist 0)) as (Hval & HT & Hdist).
  cbn [pickValidXLMeta]. rewrite Hval, HT, Z.eqb_refl. cbn [andb]. rewrite Hdist.
  destruct (ordered_slots dist ds n (slot_is all_up (λ i, copying (js i) None)) (cr_dist Hready) Hds)
    as (od & -> & Hod).
  go_simpl. unfold strings_EqualFold. rewrite bool_decide_true by done.
  destruct (copy_metadata_ok ds od Hod) as (xl' & info & -> & Hres); [by destruct Hds|].
  exists xl', info. split; [done|]. exact Hres.
Qed.

End Copy.

(** ** Witness *)

Definition copy_js (i : nat) : bytes := bytes_of_positive (encode (get_meta i)).

Definition copy_disk (i : nat) : MemDisk :=
  {| mem_files := {[("bucket", "object/xl.json") := copy_js i]};
     mem_vols := {["bucket"; minioMetaTmpBucket]}; mem_offline := false |}.

Definition copy_xl : xlObjects MemDisk :=
  {| storageDisks := [Some (copy_disk 1); Some (copy_disk 2); Some (copy_disk 0)]; dataBlocks := 2;
     parityBlocks := 1; readQuorum := 2; writeQuorum := 2; objCache := demo_cache; objCacheEnabled := false |}.

Definition copy_demo_env : copy_env :=
  {| cp_timeNow := 1000; cp_tempObj := "id-1"; cp_getTimes := (1000, 1000, 1000); cp_put := put_demo_env |}.

Lemma copy_disk_tmp i p : mem_files (copy_disk i) !! (minioMetaTmpBucket, p) = None.
Proof. simpl. by rewrite lookup_singleton_ne. Qed.

Lemma copy_disk_ok i : up (copy_disk i) ∧ copying copy_demo_env "bucket" "object" (copy_js i) None (copy_disk i).
Proof.
  split.
  - split; [done|]. intros v p [c Hc]. simpl in Hc. apply lookup_singleton_Some in Hc as [[= <- <-] _].
    by apply (bool_decide_unpack _); vm_compute.
  - split; try apply copy_disk_tmp.
    1-2: by apply (bool_decide_unpack _); vm_compute.
    + apply lookup_singleton_eq.
    + intros r. apply copy_disk_tmp.
Qed.

Lemma copy_demo_ready : copy_ready copy_demo_env copy_xl "bucket" "object" 3 77 get_dist get_meta copy_js.
Proof.
  split; try done.
  1-3: by apply (bool_decide_unpack _); vm_compute.
  - split; [done|]. intros [|[|[|s]]] x Hx; simpl in Hx; simplify_eq; apply copy_disk_ok.
  - simpl. lia.
  - simpl. lia.
  - intros m. by eexists.
Qed.

(** The checksums of the second disk are lost. *)
Lemma CopyObject_one_checksum_witness :
  ∃ xl' info, CopyObject (H1 := map_order_rev) blake2bAlgo "rel" (λ b, b) (λ _, None) 4 20 (λ _, NewBytePool 3 3)
      copy_demo_env copy_xl "bucket" "object" "bucket" "object" {["md5Sum" := "m"]} = Ret (xl', (info, None)) ∧
    ∃ d d' m, storageDisks xl' !! 1%nat = Some (Some d) ∧ readXLMeta d "bucket" "object" = (d', (m, None)) ∧
      Index (Erasure m) = 3 ∧ Checksum (Erasure m) ≠ Checksum (Erasure (get_meta 2)).
Proof.
  destruct (CopyObject_one_checksum (H2 := map_order_rev) blake2bAlgo "rel" (λ b, b) (λ _, None) 4 20 (λ _, NewBytePool 3 3)
    copy_demo_env copy_xl "bucket" "object" {["md5Sum" := "m"]} 3 77 get_dist get_meta copy_js copy_demo_ready)
    as (xl' & info & Heq & Hres).
  exists xl', info. split; [exact Heq|].
  destruct (Hres 1%nat ltac:(lia)) as (d & d' & m & Hd & _ & Hr & _ & Hi & Hck).
  exists d, d', m. split_and!; [done|done|done|]. rewrite Hck. by vm_compute.
Defined.
