(* ===== verification/TreeWalk.v ===== *)
(** * The tree walk

    The recursive listing of a directory tree that object listings are built on
    (src/cmd/tree-walk.go): [listDirFactory], [doTreeWalk] and [startTreeWalk].

    The walk runs in a goroutine that sends its results over a channel.  Here it
    appends them to a list; at each send the closing of [endWalkCh] may be
    noticed instead, which the oracle [endWalk] decides from the number of
    results sent.  The calls [listDir] and [isLeaf] are closures over the disks:
    they take and return a state [St]. *)

From S2P Require Import Prelude.
From S2P Require Import GoErrors.
From S2P Require Import GoStrings.
From S2P Require Import Quorum.
From S2P Require Import Distribution.
From S2P Require Import XLMeta.
From S2P Require Import Storage.
From S2P Require Import ObjectNames.
From S2P Require Import DiskContract.

Record treeWalkResult := TreeWalkResult { tw_entry : string; tw_err : option error; tw_end : bool }.

(** ** Standard library *)

(** The loop of [sort.Search] on [i, j). *)
Fixpoint search_loop (fuel i j : nat) (f : nat → bool) : nat :=
  match fuel with
  | O => i
  | S fuel' =>
      if (i <? j)%nat then
        let h := ((i + j) / 2)%nat in
        if f h then search_loop fuel' i h f else search_loop fuel' (S h) j f
      else i
  end.

(** [sort.Search]; every round shrinks the interval, so its length is enough
    fuel. *)
Definition sort_Search (n : nat) (f : nat → bool) : nat := search_loop n 0 n f.

(** [strings.SplitN] with a one-byte separator and two parts. *)
Definition SplitN2 (s sep : string) : string * option string :=
  match index_bytes (bytes_of_string s) (bytes_of_string sep) with
  | Some i =>
      (string_of_bytes (take i (bytes_of_string s)),
       Some (string_of_bytes (drop (i + length (bytes_of_string sep)) (bytes_of_string s))))
  | None => (s, None)
  end.

(** ** Sorting and filtering a directory *)

(** The inner loop of [delayIsLeafCheck]. *)
Fixpoint delay_pair (entry next : bytes) : bool :=
  match entry, next with
  | c :: entry', n :: next' =>
      if (byte_val c <? byte_val "/"%char)%Z && bool_decide (n = "/"%char) then false
      else delay_pair entry' next'
  | _, _ => true
  end.

Fixpoint delayIsLeafCheck (entries : list string) : bool :=
  match entries with
  | entry :: ((next :: _) as entries') =>
      if delay_pair (bytes_of_string entry) (bytes_of_string next) then delayIsLeafCheck entries'
      else false
  | _ => true
  end.

(** The two loops of [filterMatchingPrefix]: from the front and from the end. *)
Fixpoint skip_unmatched (entries : list string) (prefixEntry : string) : list string :=
  match entries with
  | [] => []
  | e :: entries' => if HasPrefix e prefixEntry then entries else skip_unmatched entries' prefixEntry
  end.

Definition filterMatchingPrefix (entries : list string) (prefixEntry : string) : list string :=
  reverse (skip_unmatched (reverse (skip_unmatched entries prefixEntry)) prefixEntry).

Section Factory.
Context {D : Type} `{!StorageAPI D}.
Context (isLeaf : list (option D) → string → string → go (list (option D) * bool)).

(** The loop that removes the slash of the leaves. *)
Fixpoint trim_leaves (disks : list (option D)) (bucket prefixDir : string) (entries : list string)
    : go (list (option D) * list string) :=
  match entries with
  | [] => Ret (disks, [])
  | entry :: entries' =>
      '(disks, leaf) ← isLeaf disks bucket (pathJoin [prefixDir; entry]);
      '(disks, rest) ← trim_leaves disks bucket prefixDir entries';
      mret (disks, (if (leaf : bool) then TrimSuffix entry slashSeparator else entry) :: rest)
  end.

(** The closure of [listDirFactory]; [order] are the positions of the load
    balanced disks that it captured, [err] the error of the last disk. *)
Fixpoint listDir_loop (treeWalkIgnoredErrs : list (option error)) (order : list nat)
    (disks : list (option D)) (bucket prefixDir prefixEntry : string) (err : option error)
    : go (list (option D) * (list string * bool * option error)) :=
  match order with
  | [] => Ret (disks, ([], false, traceError err []))
  | i :: order' =>
      match disks !! i with
      | None => Panic
      | Some None => listDir_loop treeWalkIgnoredErrs order' disks bucket prefixDir prefixEntry err
      | Some (Some disk) =>
          let '(disk, (entries, err)) := ListDir disk bucket prefixDir in
          let disks := <[i := Some disk]> disks in
          match err with
          | None =>
              let entries := filterMatchingPrefix (sort_Strings entries) prefixEntry in
              if delayIsLeafCheck entries then Ret (disks, (entries, true, None))
              else
                '(disks, entries) ← trim_leaves disks bucket prefixDir entries;
                mret (disks, (sort_Strings entries, false, None))
          | Some e =>
              if isErrIgnored (Some e) treeWalkIgnoredErrs
              then listDir_loop treeWalkIgnoredErrs order' disks bucket prefixDir prefixEntry (Some e)
              else Ret (disks, ([], false, traceError (Some e) []))
          end
      end
  end.

Definition listDirFactory (treeWalkIgnoredErrs : list (option error)) (order : list nat)
    (bucket : string) (disks : list (option D)) (prefixDir prefixEntry : string) :=
  listDir_loop treeWalkIgnoredErrs order disks bucket prefixDir prefixEntry None.

End Factory.

(** ** The walk *)

(** [markerDir] and [markerBase]. *)
Definition split_marker (marker : string) : string * string :=
  if bool_decide (marker = "") then ("", "")
  else match SplitN2 marker slashSeparator with
       | (dir, Some base) => (dir +:+ slashSeparator, base)
       | (dir, None) => (dir, "")
       end.

Section Walk.
Context {St : Type}.
(** [listDir prefixDir prefixEntry] and [isLeaf path] in the bucket. *)
Context (listDir : St → string → string → go (St * (list string * bool * option error))).
Context (isLeaf : St → string → go (St * bool)).
Context (endWalk : nat → bool).

(** The state of the walk: that of the disks and the results sent. *)
Definition walk_state : Type := St * list treeWalkResult.

(** The [select] between a send and the end of the walk. *)
Definition send (st : walk_state) (r : treeWalkResult) (after : option error) : walk_state * option error :=
  if endWalk (length st.2) then (st, traceError (Some (errWalkAbort : error)) [])
  else ((st.1, st.2 ++ [r]), after).

(** The loop of [doTreeWalk] over the entries; [walk] is the recursive call and
    [first] is the test for the first entry. *)
Fixpoint walk_entries (walk : string → string → bool → walk_state → go (walk_state * option error))
    (prefixDir markerDir markerBase : string) (recursive delayIsLeaf isEnd first : bool)
    (entries : list string) (st : walk_state) : go (walk_state * option error) :=
  match entries with
  | [] => Ret (st, None)
  | entry :: entries' =>
      '(s, leaf) ← (if delayIsLeaf then isLeaf st.1 (pathJoin [prefixDir; entry]) else mret (st.1, false));
      let st := (s, st.2) in
      let entry := if (leaf : bool) then TrimSuffix entry slashSeparator else entry in
      let next := walk_entries walk prefixDir markerDir markerBase recursive delayIsLeaf isEnd false entries' in
      let isLast := bool_decide (entries' = []) in
      if first && bool_decide (markerDir = entry) && (negb recursive || negb (HasSuffix entry slashSeparator))
      then next st
      else if recursive && HasSuffix entry slashSeparator then
        let markerArg := if bool_decide (entry = markerDir) then markerBase else "" in
        '(st, tErr) ← walk (pathJoin [prefixDir; entry]) markerArg (isLast && isEnd) st;
        match tErr with
        | Some e => mret (st, Some e)
        | None => next st
        end
      else
        let '(st, err) := send st (TreeWalkResult (pathJoin [prefixDir; entry]) None (isLast && isEnd)) None in
        match err with
        | Some e => mret (st, Some e)
        | None => next st
        end
  end.

(** [fuel] is for the depth of the tree. *)
Fixpoint doTreeWalk (fuel : nat) (prefixDir entryPrefixMatch marker : string) (recursive isEnd : bool)
    (st : walk_state) : go (walk_state * option error) :=
  match fuel with
  | O => Diverge
  | S fuel' =>
      let '(markerDir, markerBase) := split_marker marker in
      '(s, (entries, delayIsLeaf, err)) ← listDir st.1 prefixDir entryPrefixMatch;
      let st := (s, st.2) in
      match err with
      | Some e => mret (send st (TreeWalkResult "" (Some e) false) (Some e))
      | None =>
          let idx := sort_Search (length entries)
                       (λ i, bool_decide (str_le markerDir (default "" (entries !! i)))) in
          walk_entries
            (λ dir marker isEnd st, doTreeWalk fuel' dir "" marker recursive isEnd st)
            prefixDir markerDir markerBase recursive delayIsLeaf isEnd true (drop idx entries) st
      end
  end.

(** The results of a walk, until the channel is closed. *)
Definition startTreeWalk (fuel : nat) (prefix marker : string) (recursive : bool) (s : St)
    : go (St * list treeWalkResult) :=
  let prefixDir := path_Split_dir prefix in
  let entryPrefixMatch := TrimPrefix prefix prefixDir in
  let marker := TrimPrefix marker prefixDir in
  '(st, _) ← doTreeWalk fuel prefixDir entryPrefixMatch marker recursive true (s, []);
  mret st.

End Walk.

(** ** The order of names *)

Definition str_lt (s t : string) : Prop := ¬ str_le t s.

#[export] Instance str_lt_dec s t : Decision (str_lt s t).
Proof. unfold str_lt. apply _. Defined.

Lemma bytes_le_app p s t : bytes_le (p ++ s) (p ++ t) = bytes_le s t.
Proof. induction p as [|c p IH]; [done|]. simpl. by rewrite Z.ltb_irrefl. Qed.

Lemma str_le_app p s t : str_le (p +:+ s) (p +:+ t) ↔ str_le s t.
Proof. unfold str_le. by rewrite !bytes_of_string_app, bytes_le_app. Qed.

Lemma str_lt_app p s t : str_lt (p +:+ s) (p +:+ t) ↔ str_lt s t.
Proof. unfold str_lt. by rewrite str_le_app. Qed.

Lemma str_lt_le s t : str_lt s t → str_le s t.
Proof. unfold str_lt. destruct (base.total str_le s t); tauto. Qed.

Lemma str_lt_ne s t : str_lt s t → s ≠ t.
Proof. intros H ->. by apply H. Qed.

Lemma str_le_lt s t : str_le s t → s ≠ t → str_lt s t.
Proof. intros H Hn H'. apply Hn. by apply (anti_symm str_le). Qed.

Lemma str_le_lt_trans s t u : str_le s t → str_lt t u → str_lt s u.
Proof. intros H1 H2 H3. apply H2. by trans s. Qed.

Lemma str_lt_le_trans s t u : str_lt s t → str_le t u → str_lt s u.
Proof. intros H1 H2 H3. apply H1. by trans u. Qed.

Lemma str_le_prefix s t : str_le s (s +:+ t).
Proof. apply HasPrefix_le, HasPrefix_app. Qed.

Lemma str_lt_append s t : t ≠ "" → str_lt s (s +:+ t).
Proof.
  intros Ht. apply str_le_lt; [apply str_le_prefix|]. intros E. apply Ht.
  apply (str_app_inj_l s). by rewrite <- E, str_app_nil_r.
Qed.

(** A smaller string is a prefix or differs at a smaller byte. *)
Lemma bytes_lt_inv s : ∀ t, bytes_le t s = false →
  (∃ r, r ≠ [] ∧ t = s ++ r) ∨
  ∃ p a b s' t', s = p ++ a :: s' ∧ t = p ++ b :: t' ∧ (byte_val a < byte_val b)%Z.
Proof.
  induction s as [|a s IH]; intros [|b t] H; simpl in H; try done.
  - left. by exists (b :: t).
  - destruct (Z.ltb_spec (byte_val b) (byte_val a)); [done|].
    destruct (Z.ltb_spec (byte_val a) (byte_val b)) as [Hab|Hab].
    + right. by exists [], a, b, s, t.
    + assert (b = a) as -> by (apply byte_val_inj; lia).
      destruct (IH t H) as [(r & Hr & ->)|(p & x & y & s' & t' & -> & -> & Hxy)].
      * left. by exists r.
      * right. by exists (a :: p), x, y, s', t'.
Qed.

Lemma bytes_diff_lt p a b s t : (byte_val a < byte_val b)%Z → bytes_le (p ++ b :: t) (p ++ a :: s) = false.
Proof.
  intros H. rewrite bytes_le_app. simpl. rewrite (proj2 (Z.ltb_ge _ _)) by lia.
  by rewrite (proj2 (Z.ltb_lt _ _)).
Qed.

(** Two strings that differ keep their order when they are extended. *)
Lemma str_lt_extend s t x y :
  str_lt s t → HasPrefix t s = false → str_lt (s +:+ x) (t +:+ y).
Proof.
  unfold str_lt, str_le. intros H Hp. apply not_true_is_false in H.
  apply bytes_lt_inv in H as [(r & _ & Ht)|(p & a & b & s' & t' & Hs & Ht & Hab)].
  - unfold HasPrefix in Hp. rewrite bool_decide_eq_false in Hp. destruct Hp. rewrite Ht. by apply prefix_app_r.
  - rewrite !bytes_of_string_app, Hs, Ht, <- !app_assoc. simpl. by rewrite bytes_diff_lt.
Qed.

(** Strings between two strings with a prefix have it. *)
Lemma bytes_prefix_between p : ∀ a b c,
  p `prefix_of` a → p `prefix_of` c → bytes_le a b = true → bytes_le b c = true → p `prefix_of` b.
Proof.
  induction p as [|x p IH]; intros a b c [a' ->] [c' ->] Hab Hbc; [apply prefix_nil|].
  destruct b as [|y b]; [done|]. simpl in Hab, Hbc.
  destruct (Z.ltb_spec (byte_val x) (byte_val y)); destruct (Z.ltb_spec (byte_val y) (byte_val x)); try done; try lia.
  assert (y = x) as -> by (apply byte_val_inj; lia).
  apply prefix_cons. apply (IH (p ++ a') b (p ++ c')); [by apply prefix_app_r|by apply prefix_app_r|done|done].
Qed.

Lemma HasPrefix_between p a b c :
  HasPrefix a p = true → HasPrefix c p = true → str_le a b → str_le b c → HasPrefix b p = true.
Proof. unfold HasPrefix. rewrite !bool_decide_eq_true. apply bytes_prefix_between. Qed.

(** Between a name and the name with a slash are its extensions by a byte below
    the slash. *)
Lemma bytes_le_slash t : ∀ a, bytes_le a (t ++ ["/"%char]) = true → bytes_le a t = false →
  ∃ c r, a = t ++ c :: r ∧ (byte_val c ≤ byte_val "/"%char)%Z ∧ (c = "/"%char → r = []).
Proof.
  induction t as [|x t IH]; intros [|c a] H1 H2; try done.
  - exists c, a. split; [done|]. cbn [app bytes_le] in H1.
    destruct (Z.ltb_spec (byte_val c) (byte_val "/"%char)) as [Hc|Hc].
    { split; [lia|]. intros ->. lia. }
    destruct (Z.ltb_spec (byte_val "/"%char) (byte_val c)) as [Hc'|Hc']; [done|].
    split; [lia|]. intros _. by destruct a.
  - cbn [app bytes_le] in H1, H2. destruct (Z.ltb_spec (byte_val c) (byte_val x)) as [?|?]; [done|].
    destruct (Z.ltb_spec (byte_val x) (byte_val c)) as [?|?]; [done|].
    assert (c = x) as -> by (apply byte_val_inj; lia).
    destruct (IH a H1 H2) as (d & r & -> & Hd). by exists d, r.
Qed.

Lemma delay_pair_slash t c r :
  delay_pair (t ++ c :: r) (t ++ ["/"%char]) = true → (byte_val "/"%char ≤ byte_val c)%Z.
Proof.
  induction t as [|x t IH]; cbn [app delay_pair].
  - rewrite bool_decide_true by done. destruct (Z.ltb_spec (byte_val c) (byte_val "/"%char)); done.
  - destruct ((byte_val x <? byte_val "/"%char)%Z && _); [done|exact IH].
Qed.

(** [delayIsLeafCheck] is sound: if it accepts two neighbours of the sorted
    listing, removing the slash of any of the two keeps them in order. *)
Lemma delay_pair_sorted a b a' b' :
  str_le a b → a ≠ b → delay_pair (bytes_of_string a) (bytes_of_string b) = true →
  a' = a ∨ a' = TrimSuffix a "/" → b' = b ∨ b' = TrimSuffix b "/" → str_le a' b'.
Proof.
  intros Hab Hne Hd Ha Hb.
  assert (Htrim : ∀ s, TrimSuffix s "/" = s ∨ s = TrimSuffix s "/" +:+ "/").
  { intros s. unfold TrimSuffix. destruct (HasSuffix s "/") eqn:E; [|by left]. right.
    unfold HasSuffix in E. rewrite bool_decide_eq_true in E. destruct E as [k Hk].
    apply bytes_of_string_inj. rewrite bytes_of_string_app, bytes_string_bytes, Hk, length_app.
    by rewrite Nat.add_sub, take_app_length. }
  assert (Haa : str_le a' a).
  { destruct Ha as [->| ->]; [done|]. destruct (Htrim a) as [->|E]; [done|].
    rewrite E at 2. apply str_le_prefix. }
  destruct Hb as [->| ->]; [by trans a|]. destruct (Htrim b) as [->|E]; [by trans a|].
  set (t := TrimSuffix b "/") in *. destruct (decide (str_le a t)) as [|Hat]; [by trans a|]. exfalso.
  unfold str_le in Hab, Hat. rewrite E, bytes_of_string_app in Hab. apply not_true_is_false in Hat.
  destruct (bytes_le_slash _ _ Hab Hat) as (c & r & Hr & Hc & Hslash).
  rewrite E, bytes_of_string_app, Hr in Hd. apply delay_pair_slash in Hd.
  assert (c = "/"%char) as -> by (apply byte_val_inj; lia). rewrite Hslash in Hr by done.
  apply Hne, bytes_of_string_inj. rewrite Hr, E, bytes_of_string_app. done.
Qed.

(** ** The two loops and the binary search *)

Lemma elem_of_concat {A} (x : A) (ls : list (list A)) : x ∈ concat ls ↔ ∃ l, x ∈ l ∧ l ∈ ls.
Proof.
  rewrite list_elem_of_In, in_concat. split; intros (l & H1 & H2); exists l; rewrite !list_elem_of_In in *; auto.
Qed.

Lemma filter_nothing {A} (P : A → Prop) `{!∀ x, Decision (P x)} (l : list A) :
  Forall (λ x, ¬ P x) l → filter P l = [].
Proof. induction 1 as [|x l Hx _ IH]; [done|]. by rewrite filter_cons, decide_False, IH. Qed.

Lemma skip_split l p h : StronglySorted str_le l → Forall (str_le h) l → HasPrefix h p = true →
  ∃ m n, l = m ++ n ∧ Forall (λ e, HasPrefix e p = true) m ∧ Forall (λ e, HasPrefix e p = false) n.
Proof.
  revert h. induction l as [|x l IH]; intros h Hs Hh Hp; [by exists [], []|].
  apply StronglySorted_inv in Hs as [Hs Hx]. apply Forall_cons in Hh as [Hhx Hh].
  destruct (HasPrefix x p) eqn:E.
  - destruct (IH x Hs Hx E) as (m & n & -> & Hm & Hn). exists (x :: m), n. split_and!; [done|by constructor|done].
  - exists [], (x :: l). split_and!; [done|constructor|]. constructor; [done|].
    eapply Forall_impl; [exact Hx|]. intros b Hb. destruct (HasPrefix b p) eqn:Eb; [|done].
    by rewrite (HasPrefix_between p h x b Hp Eb Hhx Hb) in E.
Qed.

Lemma skip_unmatched_app n l p :
  Forall (λ e, HasPrefix e p = false) n → skip_unmatched (n ++ l) p = skip_unmatched l p.
Proof. induction 1 as [|e n He _ IH]; [done|]. simpl. by rewrite He. Qed.

(** On a sorted list the two loops keep the entries with the prefix. *)
Lemma filterMatchingPrefix_filter l p :
  StronglySorted str_le l → filterMatchingPrefix l p = filter (λ e, HasPrefix e p = true) l.
Proof.
  unfold filterMatchingPrefix. induction l as [|x l IH]; intros Hs; [done|].
  apply StronglySorted_inv in Hs as [Hs Hx]. cbn [skip_unmatched]. rewrite filter_cons.
  destruct (HasPrefix x p) eqn:E; [|by rewrite decide_False, <- IH by congruence].
  rewrite decide_True by done. destruct (skip_split l p x Hs Hx E) as (m & n & -> & Hm & Hn).
  rewrite app_comm_cons, reverse_app, skip_unmatched_app by (by apply Forall_reverse).
  rewrite filter_app, (filter_nothing _ n), app_nil_r.
  2: { eapply Forall_impl; [exact Hn|]. intros e He. simpl. congruence. }
  rewrite (filter_all _ m) by (by apply Forall_forall).
  assert (Hall : Forall (λ e, HasPrefix e p = true) (reverse (x :: m))) by (apply Forall_reverse; by constructor).
  destruct (reverse (x :: m)) as [|y r] eqn:Er; [by rewrite reverse_cons in Er; destruct (reverse m)|].
  apply Forall_cons in Hall as [Hy _]. cbn [skip_unmatched]. rewrite Hy, <- Er. apply reverse_involutive.
Qed.

Lemma search_loop_spec f n : (∀ i j, i ≤ j → j < n → f i = true → f j = true) →
  ∀ fuel i j, j - i ≤ fuel → i ≤ j → j ≤ n → (∀ x, x < i → f x = false) →
  (∀ x, j ≤ x → x < n → f x = true) →
  let k := search_loop fuel i j f in
  k ≤ n ∧ (∀ x, x < k → f x = false) ∧ (∀ x, k ≤ x → x < n → f x = true).
Proof.
  intros Hmono. induction fuel as [|fuel IH]; intros i j Hf Hij Hjn Hlo Hhi; cbn [search_loop].
  - assert (i = j) as -> by lia. split_and!; [lia|done|done].
  - destruct (Nat.ltb_spec i j) as [Hlt|Hge]; [|assert (i = j) as -> by lia; split_and!; [lia|done|done]].
    assert (Hh : i ≤ (i + j) / 2 ∧ (i + j) / 2 < j).
    { split; [apply Nat.div_le_lower_bound; lia|apply Nat.Div0.div_lt_upper_bound; lia]. }
    set (h := (i + j) / 2) in *. destruct (f h) eqn:E.
    + apply IH; [lia|lia|lia|done|]. intros x Hx Hxn. by apply (Hmono h x).
    + apply IH; [lia|lia|lia| |done]. intros x Hx. destruct (f x) eqn:Ex; [|done].
      rewrite (Hmono x h) in E; [done|lia|lia|done].
Qed.

(** The search for the marker drops the entries below it. *)
Lemma search_drop es md : StronglySorted str_le es →
  let idx := sort_Search (length es) (λ i, bool_decide (str_le md (default "" (es !! i)))) in
  Forall (λ e, str_lt e md) (take idx es) ∧ Forall (str_le md) (drop idx es).
Proof.
  intros Hs idx. set (f := λ i, bool_decide (str_le md (default "" (es !! i)))) in idx.
  assert (Hmono : ∀ i j, i ≤ j → j < length es → f i = true → f j = true).
  { intros i j Hij Hj. unfold f. rewrite !bool_decide_eq_true. intros Hi.
    destruct (lookup_lt_is_Some_2 es j Hj) as [y Hy]. destruct (lookup_lt_is_Some_2 es i) as [x Hx]; [lia|].
    rewrite Hx in Hi. rewrite Hy. simpl in *. trans x; [done|].
    destruct (decide (i = j)) as [->|]; [by simplify_eq|].
    eapply (StronglySorted_app_1_elem_of str_le (take (S i) es) (drop (S i) es)).
    - by rewrite take_drop.
    - apply list_elem_of_lookup. exists i. by rewrite lookup_take_lt by lia.
    - apply list_elem_of_lookup. exists (j - S i). rewrite lookup_drop. rewrite <- Hy. f_equal. lia. }
  destruct (search_loop_spec f (length es) Hmono (length es) 0 (length es)) as (Hk & Hlo & Hhi);
    [lia|lia|lia|lia|lia|]. change (search_loop (length es) 0 (length es) f) with idx in *. split.
  - apply Forall_lookup. intros i x Hx. apply lookup_take_Some in Hx as [Hx Hi].
    specialize (Hlo i Hi). unfold f in Hlo. rewrite Hx, bool_decide_eq_false in Hlo. exact Hlo.
  - apply Forall_lookup. intros i x Hx. rewrite lookup_drop in Hx.
    specialize (Hhi _ (Nat.le_add_r _ i) (lookup_lt_Some _ _ _ Hx)). unfold f in Hhi.
    by rewrite Hx, bool_decide_eq_true in Hhi.
Qed.

(** ** Markers *)

Definition no_slash (s : string) : Prop := "/"%char ∉ bytes_of_string s.

(** An entry of a directory: a name, with a slash for a directory. *)
Definition entry_like (e : string) : Prop := ∃ n, plain_elem n ∧ (e = n ∨ e = n +:+ "/").

(** The first element of the marker, with its slash, and the rest. *)
Lemma split_marker_spec marker : let '(md, mb) := split_marker marker in
  marker = md +:+ mb ∧ ((no_slash md ∧ mb = "") ∨ ∃ c, no_slash c ∧ md = c +:+ "/").
Proof.
  unfold split_marker. case_bool_decide as E.
  { subst. split; [done|]. left. split; [|done]. intros H. by apply not_elem_of_nil in H. }
  unfold SplitN2. change (bytes_of_string slashSeparator) with ["/"%char].
  destruct (index_bytes (bytes_of_string marker) ["/"%char]) as [i|] eqn:Ei.
  - apply index_char_Some in Ei as (a & b & Hm & Ha & Hi). rewrite Hm.
    rewrite take_app_length' by done.
    replace (drop (i + length ["/"%char]) (a ++ "/"%char :: b)) with b.
    2: { rewrite drop_app_ge by (simpl; lia). replace (i + length ["/"%char] - length a) with 1 by (simpl; lia). done. }
    split.
    + apply bytes_of_string_inj. rewrite !bytes_of_string_app, !bytes_string_bytes, Hm. by rewrite <- app_assoc.
    + right. exists (string_of_bytes a). split; [|done]. unfold no_slash. by rewrite bytes_string_bytes.
  - split; [by rewrite str_app_nil_r|]. left. split; [|done]. intros Hin.
    apply list_elem_of_split_l in Hin as (a & b & Hm & Ha). rewrite Hm, index_char_found in Ei by done. done.
Qed.

Lemma no_slash_nil : no_slash "".
Proof. apply not_elem_of_nil. Qed.

Lemma no_slash_app s t : no_slash (s +:+ t) ↔ no_slash s ∧ no_slash t.
Proof. unfold no_slash. rewrite bytes_of_string_app, elem_of_app. tauto. Qed.

Lemma slash_has_slash : ¬ no_slash "/".
Proof. intros H. apply H. left. Qed.

(** The first slash of a path is where its first name ends. *)
Lemma slash_split n c r x : no_slash n → no_slash c → c +:+ "/" +:+ x = n +:+ "/" +:+ r → c = n ∧ x = r.
Proof.
  intros Hn Hc E. apply (f_equal bytes_of_string) in E. rewrite !bytes_of_string_app in E.
  change (bytes_of_string "/") with ["/"%char] in E. cbn [app] in E.
  assert (Hs := E). apply (f_equal (λ b, index_bytes b ["/"%char])) in Hs.
  cbv beta in Hs. rewrite !index_char_found in Hs by done. injection Hs as Hl.
  apply app_inj_1 in E as [E1 E2]; [|done]. simpl in E2. injection E2 as E2.
  split; by apply bytes_of_string_inj.
Qed.

Lemma slash_prefix n c r : no_slash n → no_slash c → c +:+ "/" = n +:+ "/" +:+ r → n = c ∧ r = "".
Proof. intros Hn Hc E. by destruct (slash_split n c r "" Hn Hc E) as [-> <-]. Qed.

Section Order.
Context (md mb : string) (marker_ok : (no_slash md ∧ mb = "") ∨ ∃ c, no_slash c ∧ md = c +:+ "/").

(** The paths below an entry in front of the marker are not after it. *)
Lemma order_before t x : entry_like t → str_lt t md → x = "" ∨ HasSuffix t "/" = true →
  ¬ str_lt (md +:+ mb) (t +:+ x).
Proof.
  intros (n & Hn & Ht) Hlt Hx. assert (Hns : no_slash n) by apply Hn.
  assert (Hshort : ¬ str_lt (md +:+ mb) t).
  { intros H. apply H. trans md; [by apply str_lt_le|apply str_le_prefix]. }
  destruct Hx as [->|Hx]; [by rewrite str_app_nil_r|].
  destruct Ht as [->| ->]; [by rewrite clean_no_slash in Hx by (by apply clean_path_plain)|].
  intros H. apply H. apply str_lt_le, str_lt_extend; [done|]. apply not_true_is_false. intros Hp.
  apply HasPrefix_iff in Hp as [r ->]. rewrite <- str_app_assoc in *. destruct marker_ok as [[Hmd _]|(c & Hc & E)].
  - apply no_slash_app in Hmd as [_ [Hmd _]%no_slash_app]. by apply slash_has_slash.
  - symmetry in E. apply slash_prefix in E as [-> ->]; [|done|done]. by apply str_lt_ne in Hlt.
Qed.

(** The paths below an entry behind the first element of the marker are after
    it. *)
Lemma order_after t x : entry_like t → str_lt md t → str_lt (md +:+ mb) (t +:+ x).
Proof.
  intros (n & Hn & Ht) Hlt. assert (Hns : no_slash n) by apply Hn.
  destruct marker_ok as [[_ ->]|(c & Hc & E)].
  { rewrite str_app_nil_r. eapply str_lt_le_trans; [exact Hlt|apply str_le_prefix]. }
  apply str_lt_extend; [done|]. apply not_true_is_false. intros Hp.
  apply HasPrefix_iff in Hp as [r Hr]. rewrite E, <- str_app_assoc in Hr. destruct Ht as [->| ->].
  - rewrite Hr in Hns. apply no_slash_app in Hns as [_ [Hns _]%no_slash_app]. by apply slash_has_slash.
  - apply slash_prefix in Hr as [-> ->]; [|done|done]. subst md. by apply str_lt_ne in Hlt.
Qed.

End Order.

(** ** What a walk lists *)

(** A directory of the bucket, with its slash. *)
Definition dir_ok (dir : string) : Prop := dir = "" ∨ ∃ s, clean_path s ∧ dir = s +:+ "/".

Lemma TrimSuffix_entry n : plain_elem n → TrimSuffix n "/" = n ∧ TrimSuffix (n +:+ "/") "/" = n.
Proof.
  intros Hn. split; [|apply TrimSuffix_app]. unfold TrimSuffix.
  by rewrite clean_no_slash by (by apply clean_path_plain).
Qed.

Lemma pathJoin_dir dir e : dir_ok dir → entry_like e → pathJoin [dir; e] = dir +:+ e.
Proof.
  intros Hd (n & Hn & He). destruct Hd as [->|(s & Hs & ->)].
  - assert (Hc : clean_path n) by (by apply clean_path_plain). assert (Hn0 : n ≠ "") by apply Hn.
    assert (He0 : ∀ x, pathJoin [""; x] = pathJoin [x]).
    { intros x. unfold pathJoin, path_Join. cbn [last]. by rewrite filter_cons_False by (intros H; by apply H). }
    rewrite He0. destruct He as [->| ->]; [by apply pathJoin_single|].
    unfold pathJoin, path_Join, slashSeparator. cbn [last]. rewrite HasSuffix_app.
    rewrite filter_cons_True by (by destruct n). rewrite filter_nil.
    change (Join [n +:+ "/"] "/") with (n +:+ "/" +:+ "").
    rewrite path_Clean_filter; [|done|by repeat constructor; left].
    rewrite Split_empty, filter_app, filter_clean by done.
    change (filter (λ e, e ≠ "") [""]) with (@nil string). rewrite app_nil_r. by rewrite Join_Split.
  - destruct (pathJoin_entry s n Hs Hn) as [H1 H2]. rewrite <- str_app_assoc. destruct He as [->| ->]; done.
Qed.

Lemma dir_ok_entry dir n : dir_ok dir → plain_elem n → dir_ok (dir +:+ n +:+ "/").
Proof.
  intros Hd Hn. right. destruct Hd as [->|(s & Hs & ->)].
  - exists n. split; [by apply clean_path_plain|done].
  - exists (s +:+ "/" +:+ n). split; [apply clean_path_app; split; [done|by apply clean_path_plain]|].
    by rewrite <- !str_app_assoc.
Qed.

Lemma HasSuffix_slash_app s t : t ≠ "" → HasSuffix (s +:+ t) "/" = HasSuffix t "/".
Proof.
  intros Ht. unfold HasSuffix. apply bool_decide_ext. rewrite bytes_of_string_app.
  change (bytes_of_string "/") with ["/"%char]. split; [|apply suffix_app_r].
  destruct (bytes_of_string t) as [|b l _] eqn:E using rev_ind.
  { intros _. exfalso. apply Ht. by apply bytes_of_string_inj. }
  intros [k Hk]. rewrite app_assoc in Hk. apply app_inj_tail in Hk as [_ ->]. by exists l.
Qed.

Lemma path_Split_dir_ok dir pm : dir_ok dir → no_slash pm → path_Split_dir (dir +:+ pm) = dir.
Proof.
  intros Hd Hpm. unfold path_Split_dir. change (bytes_of_string "/") with ["/"%char].
  assert (Hrev : "/"%char ∉ rev (bytes_of_string pm)) by (by rewrite list_elem_of_In, <- in_rev, <- list_elem_of_In).
  destruct Hd as [->|(s & _ & ->)].
  - change ("" +:+ pm) with pm. by rewrite index_char_absent.
  - rewrite !bytes_of_string_app. change (bytes_of_string "/") with ["/"%char].
    rewrite rev_app_distr, rev_app_distr. change (rev ["/"%char] ++ rev (bytes_of_string s)) with ("/"%char :: rev (bytes_of_string s)).
    rewrite index_char_found by done. rewrite length_rev, length_app, Nat.add_sub, take_app_length.
    apply bytes_of_string_inj. by rewrite bytes_string_bytes, bytes_of_string_app.
Qed.

Lemma sorted_filter (P : string → Prop) `{!∀ x, Decision (P x)} l :
  StronglySorted str_lt l → StronglySorted str_lt (filter P l).
Proof.
  induction 1 as [|x l Hl IH Hx]; [constructor|]. rewrite filter_cons. case_decide; [|done].
  constructor; [done|]. rewrite Forall_forall in *. intros y [_ Hy]%list_elem_of_filter. by apply Hx.
Qed.

Lemma sort_NoDup l : NoDup l → StronglySorted str_lt (sort_Strings l).
Proof.
  intros Hnd. assert (Hnd' : NoDup (sort_Strings l)) by (by rewrite sort_Strings_perm).
  assert (Hs := sort_Strings_sorted l). induction Hs as [|x k Hs IH Hx]; [constructor|].
  apply NoDup_cons in Hnd' as [Hx' Hnd']. constructor; [by apply IH|]. rewrite Forall_forall in *.
  intros y Hy. apply str_le_lt; [by apply Hx|]. by intros ->.
Qed.

Lemma sorted_lt_le l : StronglySorted str_lt l → StronglySorted str_le l.
Proof.
  induction 1 as [|x l _ IH Hx]; [constructor|]. constructor; [done|]. eapply Forall_impl; [exact Hx|]. apply str_lt_le.
Qed.

Section Listing.
(** The directories and the objects of a bucket. *)
Context (ls : string → list string) (leaf : string → bool).

(** The name under which an entry is listed. *)
Definition trim (dir e : string) : string := if leaf (dir +:+ e) then TrimSuffix e "/" else e.

(** The entries of a directory that match a prefix, in the order of the listing. *)
Definition names (dir pm : string) : list string :=
  sort_Strings (trim dir <$> filter (λ e, HasPrefix e pm = true) (ls dir)).

(** The paths of a listing. *)
Fixpoint walk_paths (fuel : nat) (recursive : bool) (dir pm : string) : list string :=
  match fuel with
  | O => []
  | S fuel' =>
      concat ((λ e, if recursive && HasSuffix e "/" then walk_paths fuel' true (dir +:+ e) ""
                    else [dir +:+ e]) <$> names dir pm)
  end.

(** The directories are at most [fuel] deep. *)
Fixpoint deep_enough (fuel : nat) (recursive : bool) (dir pm : string) : Prop :=
  match fuel with
  | O => False
  | S fuel' =>
      recursive = true → ∀ e, e ∈ names dir pm → HasSuffix e "/" = true →
        deep_enough fuel' true (dir +:+ e) ""
  end.

(** The entries are names, and no two are the same name. *)
Definition ls_ok : Prop :=
  ∀ dir, Forall entry_like (ls dir) ∧ NoDup ((λ e, TrimSuffix e "/") <$> ls dir).

Context (Hls : ls_ok).

Lemma trim_entry dir e : entry_like e → entry_like (trim dir e) ∧ TrimSuffix (trim dir e) "/" = TrimSuffix e "/".
Proof.
  intros (n & Hn & He). destruct (TrimSuffix_entry n Hn) as [H1 H2].
  assert (Hen : entry_like n) by (exists n; auto). assert (Hes : entry_like (n +:+ "/")) by (exists n; auto).
  unfold trim. destruct He as [->| ->]; destruct (leaf _); rewrite ?H1, ?H2, ?H1; auto.
Qed.

Lemma names_perm dir pm : names dir pm ≡ₚ trim dir <$> filter (λ e, HasPrefix e pm = true) (ls dir).
Proof. apply sort_Strings_perm. Qed.

Lemma names_entry dir pm e : e ∈ names dir pm → entry_like e.
Proof.
  rewrite names_perm, list_elem_of_fmap. intros (x & -> & [_ Hx]%list_elem_of_filter).
  apply trim_entry. destruct (Hls dir) as [Hf _]. rewrite Forall_forall in Hf. by apply Hf.
Qed.

Lemma names_strict dir pm : StronglySorted str_lt (names dir pm).
Proof.
  assert (Hnd : NoDup (names dir pm)).
  { rewrite names_perm. destruct (Hls dir) as [Hf Hnd].
    apply (NoDup_fmap_1 (λ e, TrimSuffix e "/")). rewrite <- list_fmap_compose.
    assert ((λ e, TrimSuffix e "/") ∘ trim dir <$> filter (λ e, HasPrefix e pm = true) (ls dir) =
            (λ e, TrimSuffix e "/") <$> filter (λ e, HasPrefix e pm = true) (ls dir)) as ->.
    { apply list_fmap_ext. intros i x Hx. simpl. apply trim_entry. apply list_elem_of_lookup_2, list_elem_of_filter in Hx as [_ Hx].
      rewrite Forall_forall in Hf. by apply Hf. }
    by apply NoDup_fmap_filter. }
  unfold names in *. apply sort_NoDup. by rewrite sort_Strings_perm in Hnd.
Qed.

(** The listing that [listDir] returns, with the leaf check done or delayed. *)
Definition listing (dir pm : string) (es : list string) (delay : bool) : Prop :=
  StronglySorted str_le es ∧ Forall entry_like es ∧ (delay = true → Forall (λ e, e ∈ ls dir) es) ∧
  (if delay then trim dir <$> es else es) = names dir pm.

(** A marker that extends an object by a slash or a smaller byte: it lies between
    the object and the name of its directory. *)
Definition shadows (p m : string) : Prop :=
  ∃ c r, m = p +:+ String c r ∧ (byte_val c ≤ byte_val "/"%char)%Z.

(** The paths of an entry. *)
Definition entry_paths (fuel : nat) (recursive : bool) (dir e : string) : list string :=
  if recursive && HasSuffix e "/" then walk_paths fuel true (dir +:+ e) "" else [dir +:+ e].

Lemma walk_paths_S fuel recursive dir pm :
  walk_paths (S fuel) recursive dir pm = concat (entry_paths fuel recursive dir <$> names dir pm).
Proof. done. Qed.

(** The paths of a directory start with it. *)
Lemma walk_paths_prefix fuel recursive dir pm p :
  p ∈ walk_paths fuel recursive dir pm → ∃ r, r ≠ "" ∧ p = dir +:+ r.
Proof.
  revert recursive dir pm. induction fuel as [|fuel IH]; intros recursive dir pm Hp.
  { by apply not_elem_of_nil in Hp. }
  rewrite walk_paths_S in Hp. apply elem_of_concat in Hp as (l & Hp & (e & -> & He)%list_elem_of_fmap).
  apply names_entry in He as (n & Hn & He). assert (Hn0 : n ≠ "") by apply Hn.
  assert (He0 : e ≠ "") by (destruct He as [->| ->]; by destruct n).
  unfold entry_paths in Hp. destruct (recursive && _).
  - apply IH in Hp as (r & Hr & ->). exists (e +:+ r). rewrite str_app_assoc. split; [|done].
    intros [? _]%str_app_empty. done.
  - apply list_elem_of_singleton in Hp as ->. by exists e.
Qed.

Lemma entry_paths_prefix fuel recursive dir e p : p ∈ entry_paths fuel recursive dir e →
  ∃ x, p = dir +:+ e +:+ x ∧ (x = "" ∨ HasSuffix e "/" = true).
Proof.
  unfold entry_paths. destruct (recursive && HasSuffix e "/") eqn:E.
  - intros (r & _ & ->)%walk_paths_prefix. exists r. rewrite str_app_assoc. split; [done|]. right.
    by apply andb_true_iff in E as [_ ?].
  - intros ->%list_elem_of_singleton. exists "". rewrite str_app_nil_r. auto.
Qed.

(** Listings are sorted, without duplicates. *)
Lemma walk_paths_sorted fuel recursive dir pm : StronglySorted str_lt (walk_paths fuel recursive dir pm).
Proof.
  revert recursive dir pm. induction fuel as [|fuel IH]; intros recursive dir pm; [constructor|].
  rewrite walk_paths_S. assert (Hent := names_entry dir pm). assert (Hs := names_strict dir pm).
  induction Hs as [|e l Hs IHl He]; [constructor|]. rewrite fmap_cons. cbn [concat].
  apply StronglySorted_app_2.
  - intros p q Hp Hq. apply elem_of_concat in Hq as (k & Hq & (e' & -> & He')%list_elem_of_fmap).
    apply entry_paths_prefix in Hp as (x & -> & Hx). apply entry_paths_prefix in Hq as (y & -> & _).
    apply str_lt_app. rewrite Forall_forall in He. specialize (He e' He').
    apply order_after; [|apply Hent; by right|done].
    destruct (Hent e ltac:(left)) as (n & Hn & [->| ->]); [left|right; exists n; split; [apply Hn|done]].
    split; [apply Hn|]. destruct Hx as [->|Hx]; [done|]. by rewrite clean_no_slash in Hx by (by apply clean_path_plain).
  - unfold entry_paths. destruct (recursive && _); [apply IH|]. by repeat constructor.
  - apply IHl. intros e' He'. apply Hent. by right.
Qed.

(** ** The walk lists the paths after the marker *)

(** Results without errors; the mark of the end is on the last one and on no
    other. *)
Definition results_ok (isEnd : bool) (rs : list treeWalkResult) : Prop :=
  Forall (λ r, tw_err r = None) rs ∧
  ∀ i r, rs !! i = Some r → tw_end r = true ↔ isEnd = true ∧ S i = length rs.

Lemma results_ok_nil isEnd : results_ok isEnd [].
Proof. by split. Qed.

Lemma results_ok_app isEnd rs1 rs2 (isLast : bool) :
  results_ok (isLast && isEnd) rs1 → results_ok isEnd rs2 → (isLast = true ↔ rs2 = []) →
  results_ok isEnd (rs1 ++ rs2).
Proof.
  intros [He1 H1] [He2 H2] Hl. split; [by apply Forall_app|]. intros i r Hr.
  rewrite length_app. apply lookup_app_Some in Hr as [Hr|[Hi Hr]].
  - rewrite (H1 i r Hr), andb_true_iff, Hl. apply lookup_lt_Some in Hr. split.
    + intros [[-> ?] ?]. simpl. split; [done|lia].
    + intros [? ?]. destruct rs2; simpl in *; [|lia]. by rewrite Nat.add_0_r in *.
  - rewrite (H2 _ r Hr). split; intros [? ?]; (split; [done|lia]).
Qed.

Section Correct.
Context {St : Type} (inv : St → Prop).
(** The directories that are listed, with the prefix of the entries. *)
Context (is_dir : string → string → Prop).
Context (listDir : St → string → string → go (St * (list string * bool * option error))).
Context (isLeaf : St → string → go (St * bool)).

(** The calls answer for the tree, in every state that satisfies [inv]. *)
Record walk_env : Prop := {
  we_dir : ∀ dir pm, is_dir dir pm → dir_ok dir;
  we_sub : ∀ dir pm e, is_dir dir pm → e ∈ names dir pm → HasSuffix e "/" = true → is_dir (dir +:+ e) "";
  we_list : ∀ s dir pm, inv s → is_dir dir pm →
    ∃ s' es delay, listDir s dir pm = Ret (s', (es, delay, None)) ∧ inv s' ∧ listing dir pm es delay;
  we_leaf : ∀ s dir pm e, inv s → is_dir dir pm → e ∈ ls dir →
    ∃ s', isLeaf s (dir +:+ e) = Ret (s', leaf (dir +:+ e)) ∧ inv s';
  (** There are no empty directories. *)
  we_full : ∀ dir pm e fuel, is_dir dir pm → e ∈ names dir pm → HasSuffix e "/" = true →
    deep_enough fuel true (dir +:+ e) "" → walk_paths fuel true (dir +:+ e) "" ≠ [];
}.

Context (Henv : walk_env).

Let no_abort : nat → bool := λ _, false.

(** The recursive call lists the paths of a directory. *)
Definition walks (fuel : nat) (walk : string → string → bool → walk_state → go (walk_state * option error))
    (dir t marker : string) : Prop :=
  ∀ isEnd s out, inv s → ∃ s' rs, walk (dir +:+ t) marker isEnd (s, out) = Ret ((s', out ++ rs), None) ∧
    inv s' ∧ results_ok isEnd rs ∧
    tw_entry <$> rs = filter (str_lt (dir +:+ t +:+ marker)) (walk_paths fuel true (dir +:+ t) "").

Lemma walk_entries_ok fuel walk dir pm md mb (recursive delay isEnd : bool) :
  is_dir dir pm → (no_slash md ∧ mb = "") ∨ (∃ c, no_slash c ∧ md = c +:+ "/") →
  let tr e := if delay then trim dir e else e in
  ∀ K (first : bool) s out, inv s → Forall entry_like K → (delay = true → Forall (λ e, e ∈ ls dir) K) →
  StronglySorted str_lt (tr <$> K) →
  Forall (λ e, str_le md (tr e)) K → (first = false → Forall (λ e, str_lt md (tr e)) K) →
  (∀ e, e ∈ K → recursive = true → HasSuffix (tr e) "/" = true →
     walk_paths fuel true (dir +:+ tr e) "" ≠ [] ∧
     (tr e = md → walks fuel walk dir (tr e) mb) ∧ (tr e ≠ md → walks fuel walk dir (tr e) "")) →
  ∃ s' rs, walk_entries isLeaf no_abort walk dir md mb recursive delay isEnd first K (s, out) =
      Ret ((s', out ++ rs), None) ∧ inv s' ∧ results_ok isEnd rs ∧
    tw_entry <$> rs =
      filter (str_lt (dir +:+ md +:+ mb)) (concat (entry_paths fuel recursive dir <$> (tr <$> K))).
Proof.
  intros Hisd Hmk tr. assert (Hdir : dir_ok dir) by (by eapply we_dir).
  induction K as [|e K IH]; intros first s out Hs Hent Hmem Hsort Hge Hgt Hwalk.
  { exists s, []. rewrite app_nil_r. split_and!; [done|done|apply results_ok_nil|done]. }
  apply Forall_cons in Hent as [He Hent]. apply Forall_cons in Hge as [Hge0 Hge].
  rewrite fmap_cons in Hsort. apply StronglySorted_inv in Hsort as [Hsort Hlt0].
  rewrite Forall_fmap in Hlt0. cbn [walk_entries].
  assert (Hleaf : ∃ s1, (if delay then isLeaf (s, out).1 (pathJoin [dir; e]) else mret ((s, out).1, false)) =
            Ret (s1, delay && leaf (dir +:+ e)) ∧ inv s1).
  { destruct delay; [|by exists s]. rewrite pathJoin_dir by done. specialize (Hmem eq_refl).
    apply Forall_cons in Hmem as [Hmem _]. by eapply we_leaf. }
  destruct Hleaf as (s1 & -> & Hs1). cbn [mbind go_bind fst snd].
  assert ((if delay && leaf (dir +:+ e) then TrimSuffix e slashSeparator else e) = tr e) as ->.
  { unfold tr, trim. by destruct delay, (leaf (dir +:+ e)). }
  assert (Htr : entry_like (tr e)) by (unfold tr; destruct delay; [by apply trim_entry|done]).
  assert (HK : Forall (λ e, str_lt md (tr e)) K).
  { eapply Forall_impl; [exact Hlt0|]. intros x Hx. by eapply str_le_lt_trans. }
  assert (Hnext : ∀ s out, inv s → ∃ s' rs,
    walk_entries isLeaf no_abort walk dir md mb recursive delay isEnd false K (s, out) = Ret ((s', out ++ rs), None) ∧
    inv s' ∧ results_ok isEnd rs ∧
    tw_entry <$> rs = filter (str_lt (dir +:+ md +:+ mb)) (concat (entry_paths fuel recursive dir <$> (tr <$> K)))).
  { intros s2 out2 Hs2. apply IH; [done|done| |done|done|done|].
    { intros Hd. specialize (Hmem Hd). by apply Forall_cons in Hmem as [_ Hmem]. }
    intros x Hx. apply Hwalk. by right. }
  clear IH.
  assert (Hdone : ∀ s2 rs1, inv s2 → results_ok (bool_decide (K = []) && isEnd) rs1 →
    tw_entry <$> rs1 = filter (str_lt (dir +:+ md +:+ mb)) (entry_paths fuel recursive dir (tr e)) →
    ∃ s' rs, walk_entries isLeaf no_abort walk dir md mb recursive delay isEnd false K (s2, out ++ rs1) =
        Ret ((s', out ++ rs), None) ∧ inv s' ∧ results_ok isEnd rs ∧
      tw_entry <$> rs = filter (str_lt (dir +:+ md +:+ mb)) (concat (entry_paths fuel recursive dir <$> (tr <$> e :: K)))).
  { intros s2 rs1 Hs2 Hok1 Hent1. destruct (Hnext s2 (out ++ rs1) Hs2) as (s3 & rs2 & -> & Hs3 & Hok2 & Hent2).
    exists s3, (rs1 ++ rs2). rewrite app_assoc. split_and!; [done|done| |].
    - eapply results_ok_app; [exact Hok1|done|]. rewrite bool_decide_eq_true. split; [intros ->; by destruct rs2|].
      intros ->. destruct K as [|f K]; [done|]. exfalso. symmetry in Hent2.
      assert (Hne : ∃ x, dir +:+ tr f +:+ x ∈ entry_paths fuel recursive dir (tr f)).
      { unfold entry_paths. destruct (recursive && HasSuffix (tr f) "/") eqn:Ef.
        - apply andb_true_iff in Ef as [Er Ef]. destruct (Hwalk f ltac:(right; left) Er Ef) as [Hne _].
          destruct (walk_paths fuel true (dir +:+ tr f) "") as [|p l] eqn:Ep; [done|].
          destruct (walk_paths_prefix fuel true (dir +:+ tr f) "" p) as (x & _ & ->); [rewrite Ep; left|].
          exists x. rewrite str_app_assoc. left.
        - exists "". rewrite str_app_nil_r. left. }
      destruct Hne as [x Hx]. apply (not_elem_of_nil (dir +:+ tr f +:+ x)). rewrite <- (fmap_nil tw_entry), <- Hent2.
      apply list_elem_of_filter. split.
      + rewrite str_lt_app. apply Forall_cons in HK as [HK _]. apply Forall_cons in Hent as [Hf _].
        apply order_after; [done| |done]. unfold tr. destruct delay; [by apply trim_entry|done].
      + apply elem_of_concat. exists (entry_paths fuel recursive dir (tr f)). split; [done|]. left.
    - rewrite fmap_app, Hent1, Hent2, !fmap_cons. cbn [concat]. by rewrite filter_app. }
  destruct (decide (tr e = md)) as [Heq|Hne].
  - destruct first; [|specialize (Hgt eq_refl); apply Forall_cons in Hgt as [Hgt _]; rewrite Heq in Hgt;
      by apply str_lt_ne in Hgt].
    rewrite (bool_decide_true (md = tr e)), (bool_decide_true (tr e = md)) by done. cbn [andb].
    destruct (recursive && HasSuffix (tr e) slashSeparator) eqn:Hrec.
    + apply andb_true_iff in Hrec as [-> Hsl]. rewrite Hsl. cbn [negb orb].
      rewrite pathJoin_dir by done.
      destruct (proj1 (proj2 (Hwalk e ltac:(left) eq_refl Hsl)) Heq (bool_decide (K = []) && isEnd) s1 out Hs1)
        as (s2 & rs1 & -> & Hs2 & Hok1 & Hent1).
      cbn [mbind go_bind]. apply Hdone; [done|done|]. unfold entry_paths. unfold slashSeparator in Hsl. rewrite Hsl.
      cbn [andb]. by rewrite Hent1, Heq.
    + assert (negb recursive || negb (HasSuffix (tr e) slashSeparator) = true) as ->.
      { by destruct recursive, (HasSuffix (tr e) slashSeparator). }
      destruct (Hdone s1 [] Hs1 (results_ok_nil _)) as (s' & rs & Hw & Hrest).
      { unfold entry_paths. unfold slashSeparator in Hrec. rewrite Hrec. symmetry. apply filter_nothing.
        constructor; [|constructor]. rewrite str_lt_app, Heq. intros H. apply H, str_le_prefix. }
      rewrite app_nil_r in Hw. exists s', rs. by rewrite Hw.
  - assert (Hmd : str_lt md (tr e)) by (apply str_le_lt; congruence).
    rewrite (bool_decide_false (md = tr e)), (bool_decide_false (tr e = md)), andb_false_r by congruence.
    cbn [andb]. destruct (recursive && HasSuffix (tr e) slashSeparator) eqn:Hrec.
    + apply andb_true_iff in Hrec as [-> Hsl]. rewrite pathJoin_dir by done.
      destruct (proj2 (proj2 (Hwalk e ltac:(left) eq_refl Hsl)) Hne (bool_decide (K = []) && isEnd) s1 out Hs1)
        as (s2 & rs1 & -> & Hs2 & Hok1 & Hent1).
      cbn [mbind go_bind]. apply Hdone; [done|done|]. unfold entry_paths. unfold slashSeparator in Hsl. rewrite Hsl.
      cbn [andb]. rewrite Hent1. rewrite !filter_all; [done| |].
      * intros p (r & _ & ->)%walk_paths_prefix. rewrite <- str_app_assoc, str_lt_app. by apply order_after.
      * intros p (r & Hr & ->)%walk_paths_prefix. rewrite str_app_nil_r. by apply str_lt_append.
    + rewrite pathJoin_dir by done. unfold send, no_abort. cbn [fst snd].
      apply Hdone; [done| |].
      * split; [by repeat constructor|]. intros [|i] r Hr; simplify_eq/=. tauto.
      * unfold entry_paths. unfold slashSeparator in Hrec. rewrite Hrec. symmetry. apply filter_all.
        intros p ->%list_elem_of_singleton. cbn [tw_entry]. rewrite str_lt_app, <- (str_app_nil_r (tr e)). by apply order_after.
Qed.

(** An entry that the search keeps is listed under a name that is not in front of
    the marker, unless the marker is in its shadow. *)
Lemma kept_entry dir md mb e :
  entry_like e → str_le md e → ¬ (HasSuffix (trim dir e) "/" = false ∧ shadows (dir +:+ trim dir e) (dir +:+ md +:+ mb)) →
  str_le md (trim dir e).
Proof.
  intros (n & Hn & He) Hle Hsh. unfold trim in *. destruct (leaf (dir +:+ e)); [|done].
  destruct (TrimSuffix_entry n Hn) as [H1 H2]. destruct He as [->| ->]; [by rewrite H1|]. rewrite H2 in *.
  destruct (decide (str_le md n)) as [|Hlt]; [done|]. exfalso. apply Hsh.
  split; [by apply clean_no_slash, clean_path_plain|].
  unfold str_le in Hle, Hlt. rewrite bytes_of_string_app in Hle. apply not_true_is_false in Hlt.
  destruct (bytes_le_slash _ _ Hle Hlt) as (c & r & Hr & Hc & _).
  exists c, (string_of_bytes r +:+ mb). split; [|done]. apply bytes_of_string_inj.
  rewrite !bytes_of_string_app, Hr. simpl. by rewrite bytes_of_string_app, bytes_string_bytes, <- !app_assoc.
Qed.

(** The same when the marker is listed. *)
Lemma kept_entry_listed dir pm md es e :
  listing dir pm es true → e ∈ es → str_le md e → md ∈ names dir pm → str_le md (trim dir e).
Proof.
  intros (Hsort & Hent & _ & Hnames) He Hle Hmd. destruct (decide (str_le md (trim dir e))) as [|Hlt]; [done|exfalso].
  assert (Hstr := names_strict dir pm). rewrite <- Hnames in Hmd, Hstr.
  apply list_elem_of_fmap in Hmd as (f & -> & Hf). rewrite Forall_forall in Hent.
  destruct (Hent e He) as (t & Ht & Het). destruct (TrimSuffix_entry t Ht) as [H1 H2].
  destruct (Hent f Hf) as (u & Hu & Hfu). destruct (TrimSuffix_entry u Hu) as [H3 H4].
  assert (Hef : str_le e f).
  { apply list_elem_of_lookup in He as [i Hi], Hf as [j Hj].
    destruct (lt_eq_lt_dec i j) as [[Hij|Hij]|Hij].
    - eapply (StronglySorted_app_1_elem_of str_le (take j es) (drop j es)); [by rewrite take_drop| |].
      + apply list_elem_of_lookup. exists i. by rewrite lookup_take_lt.
      + apply list_elem_of_lookup. exists 0. by rewrite lookup_drop, Nat.add_0_r.
    - subst j. by simplify_eq.
    - exfalso. apply Hlt, str_lt_le.
      eapply (StronglySorted_app_1_elem_of str_lt (take i (trim dir <$> es)) (drop i (trim dir <$> es)));
        [by rewrite take_drop| |]; apply list_elem_of_lookup.
      + exists j. rewrite lookup_take_lt, list_lookup_fmap, Hj by lia. done.
      + exists 0. by rewrite lookup_drop, Nat.add_0_r, list_lookup_fmap, Hi. }
  unfold trim in *. destruct (leaf (dir +:+ e)) eqn:Hle'; [|done].
  destruct Het as [->| ->]; [by rewrite H1 in Hlt|]. rewrite H2 in Hlt.
  assert (Hcase : (if leaf (dir +:+ f) then TrimSuffix f "/" else f) = f ∨
            ((if leaf (dir +:+ f) then TrimSuffix f "/" else f) = u ∧ f = u +:+ "/")).
  { destruct (leaf (dir +:+ f)); [|by left]. destruct Hfu as [->| ->]; rewrite ?H3, ?H4; [by left|by right]. }
  destruct Hcase as [E|[E Hfs]]; rewrite E in *.
  - assert (t +:+ "/" = f) as Ef by (by apply (anti_symm str_le)). rewrite <- Ef, Hle', H2 in E.
    apply (f_equal bytes_of_string) in E. rewrite bytes_of_string_app in E.
    apply (f_equal length) in E. rewrite length_app in E. simpl in E. lia.
  - unfold str_le in Hle, Hlt. rewrite bytes_of_string_app in Hle. apply not_true_is_false in Hlt.
    destruct (bytes_le_slash _ _ Hle Hlt) as (c & r & Hr & Hc & _).
    assert (Hns : "/"%char ∉ bytes_of_string u) by apply Hu. rewrite Hr in Hns.
    apply not_elem_of_app in Hns as [_ [Hns _]%not_elem_of_cons].
    rewrite Hfs in Hef. unfold str_le in Hef. rewrite !bytes_of_string_app, Hr, <- app_assoc, bytes_le_app in Hef.
    assert (byte_val c ≠ byte_val "/"%char) by (intros E'; apply Hns; symmetry; by apply byte_val_inj).
    change (bytes_le ("/"%char :: []) (c :: r ++ ["/"%char]) = true) in Hef. cbn [bytes_le] in Hef.
    destruct (Z.ltb_spec (byte_val "/"%char) (byte_val c)); [lia|].
    destruct (Z.ltb_spec (byte_val c) (byte_val "/"%char)); [done|lia].
Qed.

(** The marker is a path of the listing, or no object is in front of it in the
    way of [shadows]. *)
Definition fresh_marker (fuel : nat) (recursive : bool) (dir pm m : string) : Prop :=
  dir +:+ m ∈ walk_paths fuel recursive dir pm ∨
  ∀ p, p ∈ walk_paths fuel recursive dir pm → HasSuffix p "/" = false → ¬ shadows p (dir +:+ m).

(** A listed marker starts with an entry. *)
Lemma listed_marker fuel recursive dir pm md mb :
  (no_slash md ∧ mb = "") ∨ (∃ c, no_slash c ∧ md = c +:+ "/") →
  dir +:+ md +:+ mb ∈ walk_paths (S fuel) recursive dir pm →
  md ∈ names dir pm ∧
  (recursive = true → HasSuffix md "/" = true → (dir +:+ md) +:+ mb ∈ walk_paths fuel true (dir +:+ md) "").
Proof.
  intros Hmk Hin. rewrite walk_paths_S in Hin.
  apply elem_of_concat in Hin as (l & Hin & (t & -> & Ht)%list_elem_of_fmap).
  assert (Hen := names_entry _ _ _ Ht). destruct Hen as (n & Hn & Htn). assert (Hns : no_slash n) by apply Hn.
  unfold entry_paths in Hin. destruct (recursive && HasSuffix t "/") eqn:Hrec.
  - apply andb_true_iff in Hrec as [-> Hsl].
    destruct Htn as [->| ->]; [by rewrite clean_no_slash in Hsl by (by apply clean_path_plain)|].
    assert (Hin' := Hin). apply walk_paths_prefix in Hin as (r & Hr & E).
    rewrite <- str_app_assoc in E. apply str_app_inj_l in E. rewrite <- str_app_assoc in E.
    assert (md = n +:+ "/" ∧ mb = r) as [-> ->].
    { destruct Hmk as [[Hmd ->]|(c & Hc & ->)].
      - rewrite str_app_nil_r in E. rewrite E in Hmd. apply no_slash_app in Hmd as [_ [Hmd _]%no_slash_app].
        by apply slash_has_slash in Hmd.
      - rewrite <- str_app_assoc in E. apply slash_split in E as [-> ->]; done. }
    split; [done|]. intros _ _. by rewrite <- !str_app_assoc in *.
  - apply list_elem_of_singleton in Hin. apply str_app_inj_l in Hin. subst t.
    assert (mb = "") as ->.
    { destruct Hmk as [[_ ?]|(c & Hc & ->)]; [done|]. rewrite <- str_app_assoc in Htn. destruct Htn as [E|E].
      - rewrite <- E in Hns. apply no_slash_app in Hns as [_ [Hns _]%no_slash_app]. by apply slash_has_slash in Hns.
      - change (n +:+ "/") with (n +:+ "/" +:+ "") in E. by apply slash_split in E as [_ ?]. }
    rewrite str_app_nil_r in *. split; [done|]. intros -> Hsl. by rewrite Hsl in Hrec.
Qed.

Lemma doTreeWalk_ok : ∀ fuel dir pm marker (recursive isEnd : bool) s out,
  inv s → is_dir dir pm → deep_enough fuel recursive dir pm → fresh_marker fuel recursive dir pm marker →
  ∃ s' rs, doTreeWalk listDir isLeaf no_abort fuel dir pm marker recursive isEnd (s, out) =
      Ret ((s', out ++ rs), None) ∧ inv s' ∧ results_ok isEnd rs ∧
    tw_entry <$> rs = filter (str_lt (dir +:+ marker)) (walk_paths fuel recursive dir pm).
Proof.
  induction fuel as [|fuel IH]; intros dir pm marker recursive isEnd s out Hs Hisd Hdeep Hsh; [done|].
  assert (Hdir : dir_ok dir) by (by eapply we_dir).
  cbn [doTreeWalk fst snd]. pose proof (split_marker_spec marker) as Hmk. destruct (split_marker marker) as [md mb].
  destruct Hmk as [-> Hmk]. destruct (we_list Henv s dir pm Hs Hisd) as (s1 & es & delay & -> & Hs1 & Hsort & Hent & Hmem & Hnames).
  cbn [mbind go_bind fst snd]. destruct (search_drop es md Hsort) as [Hlo Hhi].
  set (idx := sort_Search _ _) in *. set (tr := λ e, if delay then trim dir e else e).
  assert (Htr : tr <$> es = names dir pm) by (rewrite <- Hnames; destruct delay; [done|apply list_fmap_id]).
  assert (Htd : tr <$> es = (tr <$> take idx es) ++ (tr <$> drop idx es)) by (by rewrite <- fmap_app, take_drop).
  assert (Hin : ∀ e, e ∈ es → tr e ∈ names dir pm) by (intros e He; rewrite <- Htr; by apply list_elem_of_fmap_2).
  assert (Hind : ∀ e, e ∈ drop idx es → tr e ∈ names dir pm).
  { intros e He. apply Hin. rewrite <- (take_drop idx es), elem_of_app. by right. }
  assert (Hmem' : ∀ t p, t ∈ names dir pm → p ∈ entry_paths fuel recursive dir t → p ∈ walk_paths (S fuel) recursive dir pm).
  { intros t p Ht Hp. rewrite walk_paths_S. apply elem_of_concat. exists (entry_paths fuel recursive dir t).
    split; [done|by apply list_elem_of_fmap_2]. }
  destruct (walk_entries_ok fuel (λ dir marker isEnd st, doTreeWalk listDir isLeaf no_abort fuel dir "" marker recursive isEnd st)
    dir pm md mb recursive delay isEnd Hisd Hmk (drop idx es) true s1 out Hs1) as (s2 & rs & Hw & Hs2 & Hok & Hrs).
  - by apply Forall_drop.
  - intros Hd. by apply Forall_drop, Hmem.
  - fold tr. assert (Hstr := names_strict dir pm). rewrite <- Htr, Htd in Hstr. by apply StronglySorted_app_1_r in Hstr.
  - fold tr. rewrite Forall_forall in *. intros e He. specialize (Hhi e He). unfold tr. destruct delay; [|done].
    assert (Hes : e ∈ es) by (rewrite <- (take_drop idx es), elem_of_app; by right).
    destruct Hsh as [Hsh|Hsh].
    { apply listed_marker in Hsh as [Hsh _]; [|done]. eapply kept_entry_listed; [|exact Hes|done|done].
      split_and!; [done|by apply Forall_forall| |done]. intros _. by apply Forall_forall, Hmem. }
    apply (kept_entry dir md mb); [by apply Hent|done|]. intros [Hns Hss].
    assert (Htn := Hind e He). change (tr e) with (trim dir e) in Htn.
    eapply (Hsh (dir +:+ trim dir e)); [|rewrite HasSuffix_slash_app; [done|]|done].
    + apply (Hmem' (trim dir e)); [done|]. unfold entry_paths. rewrite Hns, andb_false_r. by left.
    + apply names_entry in Htn as (n & Hn & Ht). assert (n ≠ "") by apply Hn.
      destruct Ht as [->| ->]; [done|by destruct n].
  - done.
  - fold tr. intros e He -> Hsl. change (HasSuffix (tr e) "/" = true) in Hsl. assert (Htn := Hind e He).
    assert (Hsub : ∀ m, fresh_marker fuel true (dir +:+ tr e) "" m → walks fuel
              (λ dir marker isEnd st, doTreeWalk listDir isLeaf no_abort fuel dir "" marker true isEnd st) dir (tr e) m).
    { intros m Hm isEnd' s' out' Hs'. rewrite (str_app_assoc dir (tr e) m).
      apply IH; [done|by eapply we_sub|by apply (Hdeep eq_refl)|exact Hm]. }
    split; [apply (we_full Henv dir pm); [done|done|done|by apply (Hdeep eq_refl)]|].
    split; intros Heq; [change (tr e = md) in Heq|]; apply Hsub.
    + destruct Hsh as [Hsh|Hsh].
      { apply listed_marker in Hsh as [_ Hsh]; [|done]. rewrite Heq in *. left. by apply Hsh. }
      right. intros p Hp Hns Hss. apply (Hsh p); [|done|by rewrite <- str_app_assoc, Heq in Hss].
      apply (Hmem' (tr e)); [done|]. unfold entry_paths. by rewrite Hsl.
    + right. intros p (r & Hr & ->)%walk_paths_prefix _ (c & r' & E & _). rewrite str_app_nil_r in E.
      rewrite <- !str_app_assoc in E. rewrite <- (str_app_nil_r (tr e)) in E at 1.
      apply str_app_inj_l, str_app_inj_l in E. symmetry in E. by apply str_app_empty in E as [? _].
  - rewrite Hw. exists s2, rs. split_and!; [done|done|done|]. rewrite Hrs. rewrite walk_paths_S, <- Htr, Htd.
    fold tr. rewrite fmap_app, concat_app, filter_app. rewrite (filter_nothing _ (concat (_ <$> (tr <$> take idx es)))); [done|].
    apply Forall_forall. intros p (l & Hp & (t & -> & (e & -> & He)%list_elem_of_fmap)%list_elem_of_fmap)%elem_of_concat.
    assert (Hee : entry_like e).
    { rewrite Forall_forall in Hent. apply Hent. rewrite <- (take_drop idx es), elem_of_app. by left. }
    apply entry_paths_prefix in Hp as (x & -> & Hx). rewrite str_lt_app. apply order_before; [done| | |done].
    + unfold tr. destruct delay; [by apply trim_entry|done].
    + rewrite Forall_forall in Hlo. eapply str_le_lt_trans; [|by apply Hlo].
      unfold tr, trim. destruct delay; [|done]. destruct (leaf _); [|done].
      destruct Hee as (n & Hn & He'). destruct (TrimSuffix_entry n Hn) as [H1 H2].
      destruct He' as [->| ->]; [by rewrite H1|rewrite H2; apply str_le_prefix].
Qed.

(** The tree walk is correct.  Let the calls answer for a tree of directories,
    and let the marker be a path of the listing, or let no object be a proper
    prefix of it followed by a slash or a smaller byte.  The walk of a prefix
    terminates and sends, in strictly increasing order and without errors,
    exactly the paths of the listing that come after the marker: recursively all
    objects, otherwise the objects and directories of one level.  The last result
    carries the mark of the end, and no other. *)
Lemma startTreeWalk_ok fuel dir pm m marker (recursive : bool) s :
  inv s → is_dir dir pm → no_slash pm → deep_enough fuel recursive dir pm →
  marker = dir +:+ m ∨ (marker = "" ∧ m = "") → fresh_marker fuel recursive dir pm m →
  ∃ s' rs, startTreeWalk listDir isLeaf no_abort fuel (dir +:+ pm) marker recursive s = Ret (s', rs) ∧ inv s' ∧
    tw_entry <$> rs = filter (str_lt marker) (walk_paths fuel recursive dir pm) ∧ results_ok true rs.
Proof.
  intros Hs Hisd Hpm Hdeep Hm Hsh. unfold startTreeWalk.
  assert (Hdir : dir_ok dir) by (by eapply we_dir).
  rewrite path_Split_dir_ok, TrimPrefix_app by done.
  assert (TrimPrefix marker dir = m) as ->.
  { destruct Hm as [->|[-> ->]]; [apply TrimPrefix_app|]. unfold TrimPrefix. by destruct (HasPrefix "" dir), dir. }
  destruct (doTreeWalk_ok fuel dir pm m recursive true s [] Hs Hisd Hdeep Hsh) as (s' & rs & -> & Hinv & Hok & Hrs).
  exists s', rs. assert (Hf : tw_entry <$> rs = filter (str_lt marker) (walk_paths fuel recursive dir pm)).
  { rewrite Hrs. destruct Hm as [->|[-> ->]]; [done|]. rewrite !filter_all; [done| |].
    - intros p (r & Hr & ->)%walk_paths_prefix. apply (str_lt_append "" (dir +:+ r)). intros [_ ?]%str_app_empty. done.
    - intros p (r & Hr & ->)%walk_paths_prefix. rewrite str_app_nil_r. by apply str_lt_append. }
  done.
Qed.

End Correct.

End Listing.
