(* ===== verification/TreeWalkDisks.v ===== *)
(** * The tree walk on disks

    [listDirFactory] lists a directory from the first disk that answers
    (src/cmd/tree-walk.go).  Here: its listing is what the walk relies on,
    whether or not the leaf check is delayed, and on the disks of the XL backend
    the recursive walk of a prefix sends the names of the objects. *)

From S2P Require Import Prelude.
From S2P Require Import GoErrors.
From S2P Require Import GoStrings.
From S2P Require Import Quorum.
From S2P Require Import Distribution.
From S2P Require Import XLMeta.
From S2P Require Import Storage.
From S2P Require Import ErasureSpec.
From S2P Require Import ErasureWrite.
From S2P Require Import ObjectNames.
From S2P Require Import DiskContract.
From S2P Require Import XLDisk.
From S2P Require Import XLCommon.
From S2P Require Import TreeWalk.

(** ** The listing of a directory *)

Section Sorting.
Context (ls : string → list string) (leaf : string → bool) (Hls : ls_ok ls).

Lemma sort_unique l k : StronglySorted str_le l → l ≡ₚ k → l = sort_Strings k.
Proof.
  intros Hs Hp. apply (StronglySorted_unique str_le); [done|apply sort_Strings_sorted|].
  by rewrite Hp, sort_Strings_perm.
Qed.

(** A listing whose leaf check is delayed stays in order when the slashes of the
    leaves are removed. *)
Lemma delayIsLeafCheck_sorted dir es : StronglySorted str_lt es → delayIsLeafCheck es = true →
  StronglySorted str_le (trim leaf dir <$> es).
Proof.
  intros Hs Hd. apply Sorted_StronglySorted; [by apply _|].
  induction Hs as [|e es Hs IH He]; [constructor|]. destruct es as [|f es]; [by repeat constructor|].
  cbn [delayIsLeafCheck] in Hd. destruct (delay_pair _ _) eqn:Ep; [|done].
  rewrite !fmap_cons in *. constructor; [by apply IH|]. constructor. apply Forall_cons in He as [He _].
  eapply delay_pair_sorted; [by apply str_lt_le|by apply str_lt_ne|done| |]; unfold trim; destruct (leaf _); auto.
Qed.

Lemma listing_of dir pm entries :
  entries ≡ₚ ls dir →
  let es := filterMatchingPrefix (sort_Strings entries) pm in
  es ≡ₚ filter (λ e, HasPrefix e pm = true) (ls dir) ∧ StronglySorted str_lt es.
Proof.
  intros Hp es. unfold es. rewrite filterMatchingPrefix_filter by apply sort_Strings_sorted. split.
  - by rewrite sort_Strings_perm, Hp.
  - apply sorted_filter, sort_NoDup. rewrite Hp. destruct (Hls dir) as [_ Hnd]. by eapply NoDup_fmap_1.
Qed.

Lemma listing_delayed dir pm es :
  es ≡ₚ filter (λ e, HasPrefix e pm = true) (ls dir) → StronglySorted str_lt es →
  delayIsLeafCheck es = true → listing ls leaf dir pm es true.
Proof.
  intros Hp Hs Hd. destruct (Hls dir) as [Hent _]. rewrite Forall_forall in Hent. split_and!.
  - by apply sorted_lt_le.
  - apply Forall_forall. intros e He. apply Hent. rewrite Hp in He. by apply list_elem_of_filter in He as [_ ?].
  - intros _. apply Forall_forall. intros e He. rewrite Hp in He. by apply list_elem_of_filter in He as [_ ?].
  - apply sort_unique; [by apply delayIsLeafCheck_sorted|]. by rewrite Hp.
Qed.

Lemma listing_trimmed dir pm es :
  es ≡ₚ filter (λ e, HasPrefix e pm = true) (ls dir) →
  listing ls leaf dir pm (sort_Strings (trim leaf dir <$> es)) false.
Proof.
  intros Hp. destruct (Hls dir) as [Hent _]. rewrite Forall_forall in Hent. split_and!.
  - apply sort_Strings_sorted.
  - apply Forall_forall. intros e He. rewrite sort_Strings_perm, Hp in He.
    apply list_elem_of_fmap in He as (x & -> & [_ Hx]%list_elem_of_filter). by apply trim_entry, Hent.
  - done.
  - apply sort_unique; [apply sort_Strings_sorted|]. by rewrite sort_Strings_perm, Hp.
Qed.

End Sorting.

Section FactoryOk.
Context {D : Type} `{!StorageAPI D} (ls : string → list string) (leaf : string → bool) (Hls : ls_ok ls).
Context (inv : list (option D) → Prop) (is_dir : string → string → Prop).
Context (isLeaf : list (option D) → string → string → go (list (option D) * bool)).
Context (ign : list (option error)) (order : list nat) (bucket : string).

(** The disks hold the tree: each lists the directories or reports an ignored
    error, and one of them answers. *)
Record tree_disks : Prop := {
  td_dir : ∀ dir pm, is_dir dir pm → dir_ok dir;
  td_sub : ∀ dir pm e, is_dir dir pm → e ∈ names ls leaf dir pm → HasSuffix e "/" = true → is_dir (dir +:+ e) "";
  td_leaf : ∀ ds dir pm e, inv ds → is_dir dir pm → e ∈ ls dir →
    ∃ ds', isLeaf ds bucket (dir +:+ e) = Ret (ds', leaf (dir +:+ e)) ∧ inv ds';
  td_range : ∀ ds i, inv ds → i ∈ order → is_Some (ds !! i);
  td_list : ∀ ds dir pm i d, inv ds → is_dir dir pm → i ∈ order → ds !! i = Some (Some d) →
    ∃ d' es e, ListDir d bucket dir = (d', (es, e)) ∧ inv (<[i := Some d']> ds) ∧
      match e with None => es ≡ₚ ls dir | Some _ => isErrIgnored e ign = true end;
  td_full : ∀ dir pm e fuel, is_dir dir pm → e ∈ names ls leaf dir pm → HasSuffix e "/" = true →
    deep_enough ls leaf fuel true (dir +:+ e) "" → walk_paths ls leaf fuel true (dir +:+ e) "" ≠ [];
  td_some : ∀ dir pm, is_dir dir pm → ∃ i, i ∈ order ∧
    ∀ ds, inv ds → ∃ d, ds !! i = Some (Some d) ∧ (ListDir d bucket dir).2.2 = None;
}.

Context (Htd : tree_disks).

Lemma trim_leaves_ok dir pm : is_dir dir pm → ∀ es ds, inv ds → Forall (λ e, e ∈ ls dir) es →
  ∃ ds', trim_leaves isLeaf ds bucket dir es = Ret (ds', trim leaf dir <$> es) ∧ inv ds'.
Proof.
  intros Hd. assert (Hdir := td_dir Htd _ _ Hd). induction es as [|e es IH]; intros ds Hi Hes; [by exists ds|].
  apply Forall_cons in Hes as [He Hes]. cbn [trim_leaves]. rewrite pathJoin_dir; [|done|].
  2: { destruct (Hls dir) as [Hent _]. rewrite Forall_forall in Hent. by apply Hent. }
  destruct (td_leaf Htd ds dir pm e Hi Hd He) as (ds1 & -> & Hi1). cbn [mbind go_bind].
  destruct (IH ds1 Hi1 Hes) as (ds2 & -> & Hi2). by exists ds2.
Qed.

Lemma listDir_loop_ok dir pm : is_dir dir pm → ∀ ord ds err, inv ds → ord ⊆ order →
  (∃ i, i ∈ ord ∧ ∀ ds, inv ds → ∃ d, ds !! i = Some (Some d) ∧ (ListDir d bucket dir).2.2 = None) →
  ∃ ds' es delay, listDir_loop isLeaf ign ord ds bucket dir pm err = Ret (ds', (es, delay, None)) ∧
    inv ds' ∧ listing ls leaf dir pm es delay.
Proof.
  intros Hd. induction ord as [|i ord IH]; intros ds err Hi Hord (g & Hg & Hgood).
  { by apply not_elem_of_nil in Hg. }
  assert (Hi' : i ∈ order) by (apply Hord; by left). assert (Hord' : ord ⊆ order) by set_solver.
  cbn [listDir_loop]. destruct (td_range Htd ds i Hi Hi') as [x Hx]. rewrite Hx. destruct x as [d|].
  - destruct (td_list Htd ds dir pm i d Hi Hd Hi' Hx) as (d' & entries & e & Hl & Hi1 & He). rewrite Hl.
    destruct e as [e|].
    + rewrite He. apply IH; [done|done|]. exists g. split; [|done].
      apply elem_of_cons in Hg as [->|Hg]; [|done]. exfalso.
      destruct (Hgood ds Hi) as (d0 & Hd0 & Hn). simplify_eq. by rewrite Hl in Hn.
    + destruct (listing_of ls Hls dir pm entries He) as [Hp Hs]. set (es := filterMatchingPrefix _ _) in *.
      destruct (delayIsLeafCheck es) eqn:Edl.
      { eexists _, es, true. split_and!; [done|done|by apply listing_delayed]. }
      destruct (trim_leaves_ok dir pm Hd es _ Hi1) as (ds2 & -> & Hi2).
      { apply Forall_forall. intros x. rewrite Hp. by intros [_ ?]%list_elem_of_filter. }
      cbn [mbind go_bind]. eexists _, _, false. split_and!; [done|done|by apply listing_trimmed].
  - apply IH; [done|done|]. exists g. split; [|done]. apply elem_of_cons in Hg as [->|Hg]; [|done].
    destruct (Hgood ds Hi) as (d0 & Hd0 & _). by rewrite Hx in Hd0.
Qed.

(** The closures over the disks are what the walk needs. *)
Lemma listDirFactory_env :
  walk_env ls leaf inv is_dir (λ ds dir pm, listDirFactory isLeaf ign order bucket ds dir pm)
    (λ ds p, isLeaf ds bucket p).
Proof.
  split; [apply (td_dir Htd)|apply (td_sub Htd)| |apply (td_leaf Htd)|apply (td_full Htd)].
  intros ds dir pm Hi Hd. unfold listDirFactory. apply (listDir_loop_ok dir pm Hd); [done|done|].
  by eapply (td_some Htd).
Qed.

End FactoryOk.

(** ** The names of the objects of a bucket *)

(** The elements of the path of a directory. *)
Definition elems (dir : string) : list string :=
  if bool_decide (dir = "") then [] else Split (TrimSuffix dir "/") "/".

Lemma elems_split dir r : dir_ok dir → Split (dir +:+ r) "/" = elems dir ++ Split r "/".
Proof.
  intros [->|(s & Hs & ->)]; [done|]. unfold elems. rewrite bool_decide_false by (by destruct s).
  by rewrite TrimSuffix_app, <- str_app_assoc, Split_slash.
Qed.

Lemma elems_entry dir n : dir_ok dir → plain_elem n → elems (dir +:+ n +:+ "/") = elems dir ++ [n].
Proof.
  intros Hd Hn. assert (Hns : "/"%char ∉ bytes_of_string n) by apply Hn. unfold elems at 1. rewrite bool_decide_false.
  - rewrite str_app_assoc, TrimSuffix_app, elems_split by done. by rewrite Split_plain.
  - intros [_ [_ ?]%str_app_empty]%str_app_empty. done.
Qed.

Lemma clean_rest dir r : dir_ok dir → clean_path (dir +:+ r) → clean_path r.
Proof. unfold clean_path. intros Hd. rewrite elems_split by done. by intros [_ ?]%Forall_app. Qed.

Lemma Split_inj s t : Split s "/" = Split t "/" → s = t.
Proof. intros E. by rewrite <- (Join_Split s), E, Join_Split. Qed.

(** Two ways to split a path: one directory is above the other. *)
Lemma Split_compare o r q x : o +:+ "/" +:+ r = q +:+ "/" +:+ x →
  (o = q ∧ r = x) ∨ (∃ k, q = o +:+ "/" +:+ k) ∨ (∃ k, o = q +:+ "/" +:+ k).
Proof.
  intros E. assert (E' := E). apply (f_equal (λ s, Split s "/")) in E'. rewrite !Split_slash in E'.
  assert (Hk : ∀ a b l, Split b "/" = Split a "/" ++ l → l ≠ [] → b = a +:+ "/" +:+ Join l "/").
  { intros a b l Hb Hl. rewrite <- (Join_Split b), Hb, Join_app, Join_Split by (done || apply Split_ne). done. }
  apply app_eq_inv in E' as [(k & H1 & H2)|(k & H1 & H2)].
  - destruct (decide (k = [])) as [->|Hne].
    + left. rewrite app_nil_r in H1. apply Split_inj in H1 as ->. simpl in H2. by apply Split_inj in H2 as ->.
    + right. right. eauto.
  - destruct (decide (k = [])) as [->|Hne].
    + left. rewrite app_nil_r in H1. apply Split_inj in H1 as ->. simpl in H2. by apply Split_inj in H2 as ->.
    + right. left. eauto.
Qed.

(** S3 listings: the keys with a prefix, with the part behind the first slash
    after the prefix cut off if the listing is not recursive. *)
Definition rollup (prefix o : string) : string := prefix +:+ mem_entry (TrimPrefix o prefix).

Definition keys (objects : list string) (recursive : bool) (prefix : string) : list string :=
  let matching := filter (λ o, HasPrefix o prefix = true) objects in
  sort_Strings (if recursive then matching else remove_dups (rollup prefix <$> matching)).

(** Objects have clean names, and no object is in the directory of another. *)
Record object_names (objects : list string) : Prop := {
  on_clean : Forall clean_path objects;
  on_nodup : NoDup objects;
  on_flat : ∀ a b r, a ∈ objects → b ∈ objects → a ≠ b +:+ "/" +:+ r;
}.

Section Objects.
Context (objects : list string) (Hon : object_names objects).

(** The directories that the objects make up. *)
Definition obj_ls (dir : string) : list string :=
  if bool_decide (dir = "") || HasSuffix dir "/" then
    remove_dups ((λ o, mem_entry (TrimPrefix o dir +:+ "/")) <$> filter (λ o, HasPrefix o dir = true) objects)
  else [].

Definition obj_leaf (p : string) : bool := bool_decide (TrimSuffix p "/" ∈ objects).

Lemma obj_clean o : o ∈ objects → clean_path o.
Proof. destruct Hon as [Hc _ _]. rewrite Forall_forall in Hc. apply Hc. Qed.

Lemma mem_entry_slash n r : no_slash n → mem_entry (n +:+ "/" +:+ r) = n +:+ "/".
Proof.
  intros Hn. destruct (mem_entry_cases (n +:+ "/" +:+ r)) as [[H _]|(n' & r' & E & Hn' & ->)].
  - exfalso. apply no_slash_app in H as [_ [H _]%no_slash_app]. by apply slash_has_slash in H.
  - symmetry in E. by apply slash_split in E as [-> _].
Qed.

Lemma mem_entry_name n : no_slash n → mem_entry n = n.
Proof.
  intros Hn. destruct (mem_entry_cases n) as [[_ H]|(n' & r' & E & _ & _)]; [done|].
  rewrite E in Hn. apply no_slash_app in Hn as [_ [Hn _]%no_slash_app]. by apply slash_has_slash in Hn.
Qed.

Lemma mem_entry_app pm r : no_slash pm → mem_entry (pm +:+ r) = pm +:+ mem_entry r.
Proof.
  intros Hpm. destruct (mem_entry_cases r) as [[Hn ->]|(n & r' & -> & Hn & ->)].
  - apply mem_entry_name, no_slash_app. by split.
  - rewrite str_app_assoc, mem_entry_slash by (apply no_slash_app; by split). by rewrite <- str_app_assoc.
Qed.

(** An object below a directory: the next element of its name. *)
Lemma obj_below dir r : dir_ok dir → dir +:+ r ∈ objects →
  (plain_elem r ∧ mem_entry r = r) ∨
  ∃ n r', plain_elem n ∧ r = n +:+ "/" +:+ r' ∧ mem_entry r = n +:+ "/".
Proof.
  intros Hd Ho. apply obj_clean, clean_rest in Ho; [|done].
  destruct (mem_entry_cases r) as [[Hn E]|(n & r' & -> & Hn & E)].
  - left. split; [by apply clean_path_elem|done].
  - right. apply clean_path_app in Ho as [Ho _]. exists n, r'. split; [by apply clean_path_elem|done].
Qed.

Lemma dir_ok_slash dir : dir_ok dir → bool_decide (dir = "") || HasSuffix dir "/" = true.
Proof. intros [->|(s & _ & ->)]; [done|]. by rewrite HasSuffix_app, orb_true_r. Qed.

Lemma obj_ls_elem dir e : dir_ok dir →
  e ∈ obj_ls dir ↔ ∃ n, plain_elem n ∧ e = n +:+ "/" ∧ (dir +:+ n ∈ objects ∨ ∃ r, dir +:+ n +:+ "/" +:+ r ∈ objects).
Proof.
  intros Hd. unfold obj_ls. rewrite dir_ok_slash by done. rewrite elem_of_remove_dups, list_elem_of_fmap. split.
  - intros (o & -> & [[r ->]%HasPrefix_iff Ho]%list_elem_of_filter). rewrite TrimPrefix_app.
    destruct (obj_below dir r Hd Ho) as [[Hr _]|(n & r' & Hn & -> & _)].
    + exists r. split_and!; [done| |by left]. change (r +:+ "/") with (r +:+ "/" +:+ "") at 1.
      apply mem_entry_slash, Hr.
    + exists n. split_and!; [done| |by right; exists r']. rewrite <- !str_app_assoc. apply mem_entry_slash, Hn.
  - intros (n & Hn & -> & Ho). destruct Ho as [Ho|[r Ho]].
    + exists (dir +:+ n). rewrite TrimPrefix_app. change (n +:+ "/") with (n +:+ "/" +:+ "") at 2.
      rewrite mem_entry_slash by apply Hn. split; [done|]. apply list_elem_of_filter. by rewrite HasPrefix_app.
    + exists (dir +:+ n +:+ "/" +:+ r). rewrite TrimPrefix_app, <- !str_app_assoc, mem_entry_slash by apply Hn.
      split; [done|]. apply list_elem_of_filter. by rewrite HasPrefix_app.
Qed.

Lemma obj_ls_dir dir e : e ∈ obj_ls dir → dir_ok dir.
Proof.
  unfold obj_ls. destruct (bool_decide (dir = "")) eqn:E0.
  { intros _. left. by rewrite bool_decide_eq_true in E0. }
  destruct (HasSuffix dir "/") eqn:E; [|by intros ?%not_elem_of_nil]. cbn [orb].
  rewrite elem_of_remove_dups, list_elem_of_fmap. intros (o & _ & [[r ->]%HasPrefix_iff Ho]%list_elem_of_filter).
  unfold HasSuffix in E. rewrite bool_decide_eq_true in E. destruct E as [k Hk].
  assert (dir = string_of_bytes k +:+ "/") as ->.
  { apply bytes_of_string_inj. by rewrite bytes_of_string_app, bytes_string_bytes, Hk. }
  right. eexists. split; [|done]. apply obj_clean in Ho. rewrite <- str_app_assoc in Ho.
  by apply clean_path_app in Ho as [? _].
Qed.

Lemma obj_ls_ok : ls_ok obj_ls.
Proof.
  intros dir. assert (Hel : ∀ e, e ∈ obj_ls dir → ∃ n, plain_elem n ∧ e = n +:+ "/").
  { intros e He. assert (Hd := obj_ls_dir dir e He). apply obj_ls_elem in He as (n & Hn & -> & _); [|done]. eauto. }
  split.
  - apply Forall_forall. intros e (n & Hn & ->)%Hel. exists n. auto.
  - apply NoDup_fmap_2_strong.
    + intros x y (n & Hn & ->)%Hel (n' & Hn' & ->)%Hel. by rewrite !TrimSuffix_app; intros ->.
    + unfold obj_ls. destruct (bool_decide _ || _); [apply NoDup_remove_dups|constructor].
Qed.

Lemma obj_leaf_entry dir n : obj_leaf (dir +:+ n +:+ "/") = bool_decide (dir +:+ n ∈ objects).
Proof. unfold obj_leaf. by rewrite str_app_assoc, TrimSuffix_app. Qed.

Lemma HasPrefix_no_slash pm : no_slash pm → ∀ n x, HasPrefix (n +:+ "/" +:+ x) pm = HasPrefix n pm.
Proof.
  intros Hpm n x. unfold HasPrefix. apply bool_decide_ext. unfold no_slash in Hpm. rewrite !bytes_of_string_app.
  revert Hpm. generalize (bytes_of_string pm), (bytes_of_string n). intros k. induction k as [|c k IH]; intros l Hk.
  { split; intros _; apply prefix_nil. }
  apply not_elem_of_cons in Hk as [Hc Hk]. destruct l as [|c' l]; cbn [app].
  - split; intros H; [|by apply prefix_nil_inv in H]. exfalso. by apply prefix_cons_inv_1 in H.
  - split; intros H; assert (H' := H); apply prefix_cons_inv_1 in H as ->; apply prefix_cons_inv_2 in H';
      apply prefix_cons; by apply IH.
Qed.

(** The names that are listed: objects, and directories with objects below. *)
Lemma obj_names_elem dir pm e : dir_ok dir → no_slash pm →
  e ∈ names obj_ls obj_leaf dir pm ↔
  ∃ r, dir +:+ r ∈ objects ∧ e = mem_entry r ∧ HasPrefix r pm = true.
Proof.
  intros Hd Hpm. unfold names. rewrite sort_Strings_perm, list_elem_of_fmap.
  assert (Hpre := HasPrefix_no_slash pm Hpm).
  split.
  - intros (x & -> & [Hx Hin]%list_elem_of_filter). apply obj_ls_elem in Hin as (n & Hn & -> & Ho); [|done].
    assert (Hns : no_slash n) by apply Hn. change (n +:+ "/") with (n +:+ "/" +:+ "") in Hx. rewrite Hpre in Hx by done.
    unfold trim. rewrite obj_leaf_entry. case_bool_decide as Hl.
    + exists n. rewrite TrimSuffix_app, mem_entry_name by done. done.
    + destruct Ho as [Ho|[r Ho]]; [done|]. exists (n +:+ "/" +:+ r). rewrite mem_entry_slash, Hpre by done. done.
  - intros (r & Ho & -> & Hr). destruct (obj_below dir r Hd Ho) as [[Hn E]|(n & r' & Hn & -> & E)]; rewrite E.
    + exists (r +:+ "/"). unfold trim. rewrite obj_leaf_entry, bool_decide_true, TrimSuffix_app by done. split; [done|].
      apply list_elem_of_filter. split; [|by apply obj_ls_elem; eauto].
      change (r +:+ "/") with (r +:+ "/" +:+ ""). by rewrite Hpre by apply Hn.
    + exists (n +:+ "/"). unfold trim. rewrite obj_leaf_entry, bool_decide_false.
      2: { intros H. apply (on_flat _ Hon _ _ r' Ho H). by rewrite <- str_app_assoc. }
      split; [done|]. apply list_elem_of_filter. split; [|apply obj_ls_elem; [done|]; exists n; eauto].
      change (n +:+ "/") with (n +:+ "/" +:+ ""). rewrite Hpre in * by apply Hn. done.
Qed.

(** The names below [dir] have at most [fuel] more elements. *)
Definition deep (fuel : nat) (dir : string) : Prop :=
  ∀ o, o ∈ objects → HasPrefix o dir = true → length (Split o "/") ≤ fuel + length (elems dir).

Lemma deep_elems fuel dir r : dir_ok dir → deep fuel dir → dir +:+ r ∈ objects → length (Split r "/") ≤ fuel.
Proof.
  intros Hd Hdeep Ho. specialize (Hdeep _ Ho (HasPrefix_app _ _)). rewrite elems_split, length_app in Hdeep by done. lia.
Qed.

Lemma deep_entry fuel dir n : dir_ok dir → plain_elem n → deep (S fuel) dir → deep fuel (dir +:+ n +:+ "/").
Proof.
  intros Hd Hn Hdeep o Ho [r ->]%HasPrefix_iff. rewrite elems_entry, length_app by done.
  etrans; [apply Hdeep; [done|rewrite <- str_app_assoc; apply HasPrefix_app]|]. simpl. lia.
Qed.

Lemma Split_length r : 0 < length (Split r "/").
Proof. pose proof (Split_ne r). destruct (Split r "/"); [done|simpl; lia]. Qed.

(** A listed directory has a name that is not an object. *)
Lemma obj_names_dir dir pm e : dir_ok dir → no_slash pm → e ∈ names obj_ls obj_leaf dir pm → HasSuffix e "/" = true →
  ∃ n r, plain_elem n ∧ e = n +:+ "/" ∧ dir +:+ n +:+ "/" +:+ r ∈ objects ∧ HasPrefix n pm = true.
Proof.
  intros Hd Hpm He Hsl. apply obj_names_elem in He as (r & Ho & -> & Hr); [|done|done].
  destruct (obj_below dir r Hd Ho) as [[Hn E]|(n & r' & Hn & -> & E)]; rewrite E in *.
  - by rewrite clean_no_slash in Hsl by (by apply clean_path_plain).
  - exists n, r'. rewrite HasPrefix_no_slash in Hr by done. done.
Qed.

Lemma obj_deep_enough recursive fuel dir pm : dir_ok dir → no_slash pm → 0 < fuel → deep fuel dir →
  deep_enough obj_ls obj_leaf fuel recursive dir pm.
Proof.
  revert recursive dir pm. induction fuel as [|fuel IH]; intros recursive dir pm Hd Hpm Hf Hdeep; [lia|].
  cbn [deep_enough]. intros _ e He Hsl.
  destruct (obj_names_dir dir pm e Hd Hpm He Hsl) as (n & r & Hn & -> & Ho & _).
  assert (Hl := deep_elems _ _ _ Hd Hdeep Ho). rewrite Split_slash, length_app in Hl.
  pose proof (Split_length n). pose proof (Split_length r).
  apply IH; [by apply dir_ok_entry|apply no_slash_nil|lia|by apply deep_entry].
Qed.

Lemma walk_recursive fuel dir pm p : dir_ok dir → no_slash pm → deep fuel dir →
  p ∈ walk_paths obj_ls obj_leaf fuel true dir pm ↔ p ∈ objects ∧ HasPrefix p (dir +:+ pm) = true.
Proof.
  revert dir pm. induction fuel as [|fuel IH]; intros dir pm Hd Hpm Hdeep.
  { split; [by intros ?%not_elem_of_nil|]. intros [Ho [r ->]%HasPrefix_iff]. rewrite <- str_app_assoc in Ho.
    apply (deep_elems _ _ _ Hd Hdeep) in Ho. pose proof (Split_length (pm +:+ r)). lia. }
  assert (Hnil := no_slash_nil).
  rewrite walk_paths_S, elem_of_concat. split.
  - intros (l & Hp & (e & -> & He)%list_elem_of_fmap). unfold entry_paths in Hp. destruct (HasSuffix e "/") eqn:Hsl; cbn [andb] in Hp.
    + destruct (obj_names_dir dir pm e Hd Hpm He Hsl) as (n & r & Hn & -> & _ & Hpn).
      apply IH in Hp as [Hp [x ->]%HasPrefix_iff]; [|by apply dir_ok_entry|done|by apply deep_entry].
      split; [done|]. apply HasPrefix_iff in Hpn as [k ->]. apply HasPrefix_iff. exists (k +:+ "/" +:+ "" +:+ x).
      by rewrite <- !str_app_assoc.
    + apply list_elem_of_singleton in Hp as ->. apply obj_names_elem in He as (r & Ho & -> & Hr); [|done|done].
      destruct (obj_below dir r Hd Ho) as [[Hn E]|(n & r' & Hn & -> & E)]; rewrite E in *; [|by rewrite HasSuffix_app in Hsl].
      split; [done|]. apply HasPrefix_iff in Hr as [k ->]. apply HasPrefix_iff. exists k. by rewrite <- str_app_assoc.
  - intros [Ho [r ->]%HasPrefix_iff]. rewrite <- str_app_assoc in *.
    exists (entry_paths obj_ls obj_leaf fuel true dir (mem_entry (pm +:+ r))). split.
    2: { apply list_elem_of_fmap_2, obj_names_elem; [done|done|]. exists (pm +:+ r). by rewrite HasPrefix_app. }
    unfold entry_paths. destruct (obj_below dir (pm +:+ r) Hd Ho) as [[Hn E]|(n & r' & Hn & E' & E)]; rewrite E.
    + rewrite clean_no_slash by (by apply clean_path_plain). cbn [andb]. by left.
    + rewrite HasSuffix_app. cbn [andb]. rewrite E' in *.
      apply IH; [by apply dir_ok_entry|done|by apply deep_entry|]. split; [done|]. apply HasPrefix_iff. exists r'.
      rewrite str_app_nil_r. by rewrite <- !str_app_assoc.
Qed.

(** A directory with an object below is not empty. *)
Lemma obj_full fuel dir r : dir_ok dir → dir +:+ r ∈ objects →
  deep_enough obj_ls obj_leaf fuel true dir "" → walk_paths obj_ls obj_leaf fuel true dir "" ≠ [].
Proof.
  revert dir r. induction fuel as [|fuel IH]; intros dir r Hd Ho Hdeep; [done|].
  assert (Hin : mem_entry r ∈ names obj_ls obj_leaf dir "").
  { apply obj_names_elem; [done|apply no_slash_nil|]. exists r. split_and!; [done|done|]. apply HasPrefix_iff. by exists r. }
  assert (Hp : ∃ p, p ∈ entry_paths obj_ls obj_leaf fuel true dir (mem_entry r)).
  { destruct (obj_below dir r Hd Ho) as [[Hn E]|(n & r' & Hn & -> & E)]; unfold entry_paths; rewrite E in *.
    - rewrite clean_no_slash by (by apply clean_path_plain). eexists. by left.
    - rewrite HasSuffix_app. cbn [andb]. destruct (walk_paths _ _ _ _ _ _) as [|p l] eqn:Ep; [|eexists; by left].
      exfalso. revert Ep. apply (IH _ r'); [by apply dir_ok_entry|by rewrite <- !str_app_assoc|].
      apply Hdeep; [done|done|apply HasSuffix_app]. }
  destruct Hp as [p Hp]. rewrite walk_paths_S. intros E. apply (not_elem_of_nil p). rewrite <- E.
  apply elem_of_concat. eexists. split; [done|]. by apply list_elem_of_fmap_2.
Qed.

Lemma strict_unique l k : StronglySorted str_lt l → StronglySorted str_lt k → (∀ x, x ∈ l ↔ x ∈ k) → l = k.
Proof.
  assert (Hnd : ∀ l, StronglySorted str_lt l → NoDup l).
  { induction 1 as [|x l' _ IH Hx]; constructor; [|done]. intros Hin. rewrite Forall_forall in Hx.
    by apply (str_lt_ne x x); [apply Hx|]. }
  intros Hl Hk He. apply (StronglySorted_unique str_le); [by apply sorted_lt_le|by apply sorted_lt_le|].
  apply NoDup_Permutation; [by apply Hnd..|done].
Qed.

(** The paths of a walk are the keys of the listing. *)
Lemma walk_paths_keys fuel recursive dir pm : dir_ok dir → no_slash pm → 0 < fuel → deep fuel dir →
  walk_paths obj_ls obj_leaf fuel recursive dir pm = keys objects recursive (dir +:+ pm).
Proof.
  intros Hd Hpm Hf Hdeep. apply strict_unique.
  - apply walk_paths_sorted, obj_ls_ok.
  - unfold keys. apply sort_NoDup. destruct recursive; [apply NoDup_filter, (on_nodup _ Hon)|apply NoDup_remove_dups].
  - intros p. unfold keys. rewrite sort_Strings_perm. destruct recursive.
    { rewrite walk_recursive, list_elem_of_filter by done. tauto. }
    destruct fuel as [|fuel]; [lia|]. rewrite walk_paths_S, elem_of_concat, elem_of_remove_dups, list_elem_of_fmap. split.
    + intros (l & Hp & (e & -> & He)%list_elem_of_fmap). cbn [entry_paths andb] in Hp. unfold entry_paths in Hp. cbn [andb] in Hp.
      apply list_elem_of_singleton in Hp as ->. apply obj_names_elem in He as (r & Ho & -> & [k ->]%HasPrefix_iff); [|done|done].
      exists (dir +:+ pm +:+ k). rewrite list_elem_of_filter, str_app_assoc, HasPrefix_app. split; [|by rewrite <- str_app_assoc].
      unfold rollup. rewrite TrimPrefix_app, <- str_app_assoc. f_equal. by apply mem_entry_app.
    + intros (o & -> & [[r ->]%HasPrefix_iff Ho]%list_elem_of_filter). unfold rollup. rewrite TrimPrefix_app.
      rewrite <- str_app_assoc in *. rewrite <- mem_entry_app by done.
      exists [dir +:+ mem_entry (pm +:+ r)]. split; [by left|]. apply list_elem_of_fmap. exists (mem_entry (pm +:+ r)).
      split; [done|]. apply obj_names_elem; [done|done|]. exists (pm +:+ r). by rewrite HasPrefix_app.
Qed.

End Objects.

(** ** The disks of a bucket *)

Section XLDisks.
Context {D : Type} `{!StorageAPI D} `{!StorageContract D} `{!Volumes D} `{!DiskContract D}.
Context (bucket : string) (objects : list string) (Hon : object_names objects).

(** The files of the bucket on a disk: every object has its metadata, and every
    file is in the directory of an object. *)
Record holds_objects (d : D) : Prop := {
  ho_vol : has_vol d bucket;
  ho_meta : ∀ o, o ∈ objects → is_Some (file_at d bucket (o +:+ "/" +:+ xlMetaJSONFile));
  ho_files : ∀ p, is_Some (file_at d bucket p) → ∃ o r, o ∈ objects ∧ p = o +:+ "/" +:+ r;
}.

Lemma holds_same d d' : holds_objects d → same_disk d d' → holds_objects d'.
Proof.
  intros [Hv Hm Hf] [Hkv Hkf]. split; [by apply Hkv| |].
  - intros o Ho. rewrite Hkf by done. by apply Hm.
  - intros p Hp. rewrite Hkf in Hp by done. by apply Hf.
Qed.

(** A directory with objects below, or the root of the bucket. *)
Definition obj_dir (dir pm : string) : Prop :=
  dir_ok dir ∧ no_slash pm ∧ (dir = "" ∨ ∃ r, dir +:+ r ∈ objects).

Lemma obj_dir_sub dir pm e : obj_dir dir pm → e ∈ names (obj_ls objects) (obj_leaf objects) dir pm →
  HasSuffix e "/" = true → obj_dir (dir +:+ e) "".
Proof.
  intros (Hd & Hpm & _) He Hsl. destruct (obj_names_dir objects Hon dir pm e Hd Hpm He Hsl) as (m & r & Hm & -> & Ho & _).
  split_and!; [by apply dir_ok_entry|apply no_slash_nil|]. right. exists r. by rewrite <- !str_app_assoc.
Qed.

(** A file below a directory is in an object below it. *)
Lemma file_below d dir pm q : holds_objects d → obj_dir dir pm → is_Some (file_at d bucket (dir +:+ q)) →
  ∃ k r, q = k +:+ "/" +:+ r ∧ dir +:+ k ∈ objects.
Proof.
  intros Hd (Hdir & _ & Hbelow) Hq. destruct (ho_files d Hd _ Hq) as (o & r & Ho & E).
  destruct Hdir as [->|(s & Hs & ->)]; [by exists o, r|].
  destruct Hbelow as [H|[r0 Hr0]]; [by destruct s|]. rewrite <- str_app_assoc in E, Hr0. symmetry in E.
  destruct (Split_compare _ _ _ _ E) as [[-> ->]|[[k ->]|[k ->]]].
  - exfalso. by apply (on_flat _ Hon _ _ r0 Hr0 Ho).
  - exfalso. apply (on_flat _ Hon _ _ (k +:+ "/" +:+ r0) Hr0 Ho). by rewrite <- !str_app_assoc.
  - exists k, r. rewrite <- !str_app_assoc in E |- *. split; [|done]. symmetry.
    apply str_app_inj_l in E. by apply (str_app_inj_l "/").
Qed.

(** Such a file shows its object in the listing. *)
Lemma file_entry d dir pm m t : holds_objects d → obj_dir dir pm → plain_elem m →
  is_Some (file_at d bucket (dir +:+ m +:+ "/" +:+ t)) → m +:+ "/" ∈ obj_ls objects dir.
Proof.
  intros Hd Hdir Hm Hf. destruct (file_below d dir pm _ Hd Hdir Hf) as (k & r & E & Ho).
  assert (Hd' : dir_ok dir) by apply Hdir. apply obj_ls_elem; [done|done|]. exists m. split_and!; [done|done|].
  destruct (obj_below objects Hon dir k Hd' Ho) as [[Hk _]|(n' & r' & Hn & -> & _)].
  - apply slash_split in E as [-> _]; [by left|apply Hk|apply Hm].
  - rewrite <- !str_app_assoc in E. apply slash_split in E as [-> _]; [|apply Hn|apply Hm]. right. by exists r'.
Qed.

Lemma entries_perm d dir pm entries : holds_objects d → obj_dir dir pm → NoDup entries →
  (∀ x, x ∈ entries → ∃ m, plain_elem m ∧ ((x = m ∧ is_Some (file_at d bucket (dir +:+ m))) ∨
     (x = m +:+ "/" ∧ ∃ r, is_Some (file_at d bucket (dir +:+ m +:+ "/" +:+ r))))) →
  (∀ q, is_Some (file_at d bucket (dir +:+ q)) → q ∈ entries ∨ ∃ m r, q = m +:+ "/" +:+ r ∧ m +:+ "/" ∈ entries) →
  entries ≡ₚ obj_ls objects dir.
Proof.
  intros Hd Hdir Hnd Hsound Hcomp. assert (Hd' : dir_ok dir) by apply Hdir.
  assert (Hnf : ∀ x, x ∈ entries → ∃ m, plain_elem m ∧ x = m +:+ "/" ∧
            ∃ r, is_Some (file_at d bucket (dir +:+ m +:+ "/" +:+ r))).
  { intros x (m & Hm & [[-> Hf]|[-> Hf]])%Hsound; [|eauto]. exfalso.
    destruct (file_below d dir pm m Hd Hdir Hf) as (k & r & -> & _). assert (Hns : no_slash (k +:+ "/" +:+ r)) by apply Hm.
    apply no_slash_app in Hns as [_ [Hns _]%no_slash_app]. by apply slash_has_slash in Hns. }
  apply NoDup_Permutation; [done| |].
  { unfold obj_ls. destruct (bool_decide _ || _); [apply NoDup_remove_dups|constructor]. }
  intros x. split.
  - intros (m & Hm & -> & r & Hf)%Hnf. by eapply file_entry.
  - intros (m & Hm & -> & Ho)%obj_ls_elem; [|done|done].
    assert (Hfile : ∃ t, t ≠ "" ∧ is_Some (file_at d bucket (dir +:+ m +:+ "/" +:+ t))).
    { destruct Ho as [Ho|[r Ho]]; apply (ho_meta d Hd) in Ho; rewrite <- !str_app_assoc in Ho; [by exists xlMetaJSONFile|].
      exists (r +:+ "/" +:+ xlMetaJSONFile). split; [by destruct r|done]. }
    destruct Hfile as (t & Ht & Hf). destruct (Hcomp _ Hf) as [Hin|(m' & r' & E & Hin)].
    + destruct (Hnf _ Hin) as (m' & Hm' & E & _). change (m' +:+ "/") with (m' +:+ "/" +:+ "") in E.
      by apply slash_split in E as [_ ->]; [|apply Hm'|apply Hm].
    + destruct (Hnf _ Hin) as (m2 & Hm2 & E2 & _). apply (f_equal (λ s, TrimSuffix s "/")) in E2.
      rewrite !TrimSuffix_app in E2. subst m2. by apply slash_split in E as [-> _]; [|apply Hm2|apply Hm].
Qed.

Lemma ListDir_objects d dir pm : up d → holds_objects d → obj_dir dir pm →
  ∃ d' es, ListDir d bucket dir = (d', (es, None)) ∧ up d' ∧ same_disk d d' ∧ es ≡ₚ obj_ls objects dir.
Proof.
  intros Hup Hd Hdir. assert (Hv := ho_vol d Hd). assert (Hbelow := Hdir). destruct Hbelow as ([->|(s & Hs & ->)] & _ & Hbelow).
  - destruct (up_ListDir_root d bucket Hup Hv) as (d' & es & -> & Hup' & Hsame & [Hnd Hpl Hc]).
    eexists _, _. split_and!; [done|done|done|]. eapply entries_perm; [done|done|done| |done].
    intros x (m & Hm & [[-> Hf]|[-> [r Hf]]])%Hpl; exists m; eauto.
  - destruct Hbelow as [H|[r0 Hr0]]; [by destruct s|].
    destruct (up_ListDir d bucket s Hup Hv) as (d' & es & e & -> & Hup' & Hsame & [[-> Hn]|[-> [Hnd Hpl Hc]]]).
    + exfalso. apply Hn. exists (r0 +:+ "/" +:+ xlMetaJSONFile). apply (ho_meta d Hd) in Hr0. by rewrite <- !str_app_assoc in Hr0.
    + eexists _, _. split_and!; [done|done|done|]. eapply entries_perm; [done|done|done| |].
      * intros x (m & Hm & [[-> Hf]|[-> [r Hf]]])%Hpl; exists m; rewrite <- !str_app_assoc in *; (split; [done|]);
          [by left|right; split; [done|exists r; by rewrite <- !str_app_assoc]].
      * intros q Hq. rewrite <- str_app_assoc in Hq. by apply Hc.
Qed.

(** ** The closures of the listing *)

Context (cls : nat → disk_state) (n : nat) (n_pos : (0 < Z.of_nat n < 2 ^ 32)%Z).
Context (some_up : ∃ i, i < n ∧ cls i = DiskUp).
(** What is known of the disks that are up. *)
Context (P : D → Prop) (P_same : ∀ d d', P d → same_disk d d' → P d') (P_holds : ∀ d, P d → holds_objects d).

Definition bucket_disks (ds : list (option D)) : Prop := slots (slot_is cls (λ _, P)) ds n.

(** The leaf check at the time that the clock shows. *)
Definition isLeaf_at (clock : string → string) (ds : list (option D)) (bucket p : string) :=
  isObject (clock p) ds bucket p.

Lemma bucket_disks_insert ds i d : bucket_disks ds → i < n →
  slot_is cls (λ _, P) i (Some d) → bucket_disks (<[i := Some d]> ds).
Proof.
  intros [Hl HR] Hi Hs. split; [by rewrite length_insert|]. intros j x Hx.
  destruct (decide (i = j)) as [->|Hne].
  - rewrite list_lookup_insert_eq in Hx by lia. by simplify_eq.
  - rewrite list_lookup_insert_ne in Hx by done. by apply HR.
Qed.

Lemma isLeaf_at_ok clock ds dir pm e : bucket_disks ds → obj_dir dir pm → e ∈ obj_ls objects dir →
  ∃ ds', isLeaf_at clock ds bucket (dir +:+ e) = Ret (ds', obj_leaf objects (dir +:+ e)) ∧ bucket_disks ds'.
Proof.
  intros Hds Hdir He. assert (Hd : dir_ok dir) by apply Hdir.
  apply obj_ls_elem in He as (m & Hm & -> & Hbelow); [|done|done]. assert (Hms : no_slash m) by apply Hm.
  assert (Hc : clean_path (dir +:+ m)).
  { destruct Hd as [->|(s & Hs & ->)]; [by apply clean_path_plain|]. rewrite <- str_app_assoc.
    apply clean_path_app. split; [done|by apply clean_path_plain]. }
  assert (Hj : path_Join [dir +:+ m +:+ "/"; xlMetaJSONFile] = (dir +:+ m) +:+ "/" +:+ xlMetaJSONFile).
  { rewrite str_app_assoc. destruct (pathJoin_entry (dir +:+ m) xlMetaJSONFile Hc xlMetaJSON_plain) as [H1 _].
    unfold pathJoin in H1. cbn [last] in H1. rewrite clean_no_slash, str_app_nil_r in H1 by apply clean_path_plain, xlMetaJSON_plain.
    done. }
  destruct (isObject_ok cls n n_pos (clock (dir +:+ m +:+ "/")) ds bucket (dir +:+ m +:+ "/") (λ _, P)
              (λ _, dir +:+ m ∈ objects) Hds) as (ds' & ok & Hr & Hds' & Hok).
  { intros i d d'. apply P_same. }
  { intros i d Hh%P_holds. split; [apply Hh|]. rewrite Hj. split; [|apply (ho_meta d Hh)]. intros Hf.
    rewrite <- str_app_assoc in Hf. destruct (file_below d dir pm _ Hh Hdir Hf) as (k & r & E & Ho).
    destruct (obj_below objects Hon dir k Hd Ho) as [[Hk _]|(m' & r' & Hm' & -> & _)].
    - by apply slash_split in E as [-> _]; [|apply Hk|done].
    - rewrite <- !str_app_assoc in E. apply slash_split in E as [-> E]; [|apply Hm'|done]. exfalso.
      assert (Hx : no_slash xlMetaJSONFile) by apply xlMetaJSON_plain. rewrite E in Hx.
      apply no_slash_app in Hx as [_ [Hx _]%no_slash_app]. by apply slash_has_slash in Hx. }
  exists ds'. unfold isLeaf_at. rewrite Hr. split; [|done]. rewrite obj_leaf_entry. f_equal. f_equal.
  apply Bool.eq_iff_eq_true. rewrite bool_decide_eq_true, Hok. split; [by intros (i & _ & _ & ?)|].
  destruct some_up as (i & ? & ?). eauto.
Qed.

Context (order : list nat) (Horder : ∀ i, i ∈ order ↔ i < n).

Lemma ignored_disk_err e : disk_err (Some e) → isErrIgnored (Some e) xlTreeWalkIgnoredErrs = true.
Proof.
  unfold disk_err, baseErrs. rewrite !elem_of_cons, elem_of_nil. intros H. destruct_or!; by simplify_eq.
Qed.

Lemma bucket_tree clock :
  tree_disks (obj_ls objects) (obj_leaf objects) bucket_disks obj_dir (isLeaf_at clock) xlTreeWalkIgnoredErrs order bucket.
Proof.
  split.
  - by intros dir pm [? _].
  - apply obj_dir_sub.
  - intros ds dir pm e. apply isLeaf_at_ok.
  - intros ds i [Hl _] Hi. apply lookup_lt_is_Some. rewrite Hl. by apply Horder.
  - intros ds dir pm i d Hds Hdir Hi Hx. apply Horder in Hi. assert (Hs := proj2 Hds i _ Hx).
    unfold slot_is in Hs. destruct (cls i) eqn:Hc; [| |done].
    + destruct Hs as [Hup Hh]. destruct (ListDir_objects d dir pm Hup (P_holds d Hh) Hdir) as (d' & es & Hl & Hup' & Hsame & Hes).
      exists d', es, None. split_and!; [done| |done]. apply bucket_disks_insert; [done|done|]. unfold slot_is. rewrite Hc.
      split; [done|by eapply P_same].
    + destruct (down_ListDir d bucket dir Hs) as (d' & es & e & Hl & Hdown & He).
      exists d', es, (Some e). split_and!; [done| |by apply ignored_disk_err].
      apply bucket_disks_insert; [done|done|]. unfold slot_is. by rewrite Hc.
  - intros dir pm e fuel Hdir He Hsl. destruct (obj_dir_sub dir pm e Hdir He Hsl) as (Hd & _ & [E|[r Hr]]).
    + exfalso. apply str_app_empty in E as [_ ->]. done.
    + by apply (obj_full objects Hon _ _ r).
  - intros dir pm Hdir. destruct some_up as (i & Hi & Hc). exists i. split; [by apply Horder|]. intros ds Hds.
    destruct (slots_up cls _ ds n i Hds Hi Hc) as (d & Hx & Hup & Hh). exists d. split; [done|].
    by destruct (ListDir_objects d dir pm Hup (P_holds d Hh) Hdir) as (d' & es & -> & _).
Qed.

End XLDisks.
