(* ===== verification/WalkPool.v ===== *)
(** * The pool of tree walks

    A listing that is cut off keeps its tree walk in a pool, where the request
    for the next page finds it; a timer ends a walk that nobody asks for
    (src/cmd/tree-walk-pool.go).  Listings and timers are goroutines: the system
    is a step relation over the state of the pool, its timers and the listings
    that use a walk at the moment. *)

From S2P Require Import Prelude.

Record listParams := ListParams {
  lp_bucket : string; lp_recursive : bool; lp_marker : string; lp_prefix : string; lp_heal : bool;
}.

#[export] Instance listParams_eq_dec : EqDecision listParams.
Proof. solve_decision. Defined.

#[export] Program Instance listParams_countable : Countable listParams :=
  inj_countable'
    (λ p, (lp_bucket p, lp_recursive p, lp_marker p, lp_prefix p, lp_heal p))
    (λ t, let '(b, r, m, p, h) := t in ListParams b r m p h) _.
Next Obligation. by intros []. Qed.

(** Channels are numbers, 0 is the nil channel.  The results and the end of a
    walk have the number of the walk. *)
Definition nil_chan : nat := 0.

Record treeWalk := TreeWalk { resultCh : nat; endWalkCh : nat; endTimerCh : nat }.

#[export] Instance treeWalk_eq_dec : EqDecision treeWalk.
Proof. solve_decision. Defined.

(** A timer goroutine waits in its [select], or has taken the branch of the
    timeout and waits for the lock of the pool. *)
Variant timer_phase := TimerWaits | TimerExpired.

#[export] Instance timer_phase_eq_dec : EqDecision timer_phase.
Proof. solve_decision. Defined.

Record timer := Timer { t_params : listParams; t_walk : treeWalk; t_phase : timer_phase }.

#[export] Instance timer_eq_dec : EqDecision timer.
Proof. solve_decision. Defined.

(** The pool, the timers, the timer channels that hold a message (their buffer
    has room for one), the [endWalkCh] that are closed, and the number of the
    next timer channel. *)
Record treeWalkPool := {
  pool : gmap listParams (list treeWalk);
  timers : list timer;
  signals : gset nat;
  closed : gset nat;
  next_timer : nat;
}.

Definition newTreeWalkPool : treeWalkPool :=
  {| pool := ∅; timers := []; signals := ∅; closed := ∅; next_timer := 0 |}.

(** A send on a channel whose buffer is full blocks. *)
Definition Release (t : treeWalkPool) (params : listParams) : go (treeWalkPool * option (nat * nat)) :=
  match pool t !! params with
  | Some (walk :: walks) =>
      let p := match walks with [] => delete params (pool t) | _ => <[params := walks]> (pool t) end in
      if bool_decide (endTimerCh walk ∈ signals t) then Diverge
      else Ret ({| pool := p; timers := timers t; signals := {[endTimerCh walk]} ∪ signals t;
                   closed := closed t; next_timer := next_timer t |},
                Some (resultCh walk, endWalkCh walk))
  | _ => Ret (t, None)
  end.

Definition Set_ (t : treeWalkPool) (params : listParams) (result endWalk : nat) : treeWalkPool :=
  let walkInfo := TreeWalk result endWalk (next_timer t) in
  {| pool := <[params := default [] (pool t !! params) ++ [walkInfo]]> (pool t);
     timers := timers t ++ [Timer params walkInfo TimerWaits];
     signals := signals t; closed := closed t; next_timer := S (next_timer t) |}.

(** The loop that removes a walk; no two walks of the pool are equal. *)
Fixpoint remove_walk (walks : list treeWalk) (walkInfo : treeWalk) : list treeWalk :=
  match walks with
  | [] => []
  | walk :: walks' => if bool_decide (walk = walkInfo) then walks' else walk :: remove_walk walks' walkInfo
  end.

Definition remove_timer (t : treeWalkPool) (tm : timer) : list timer := filter (λ x, x ≠ tm) (timers t).

(** The timeout: the walk is removed and ended.  Closing a closed channel
    panics, and so does closing the nil channel. *)
Definition timer_fire (t : treeWalkPool) (tm : timer) : go treeWalkPool :=
  let walkInfo := t_walk tm in
  let p :=
    match pool t !! t_params tm with
    | Some walks =>
        match remove_walk walks walkInfo with
        | [] => delete (t_params tm) (pool t)
        | walks => <[t_params tm := walks]> (pool t)
        end
    | None => pool t
    end in
  if bool_decide (endWalkCh walkInfo = nil_chan) || bool_decide (endWalkCh walkInfo ∈ closed t) then Panic
  else Ret {| pool := p; timers := remove_timer t tm; signals := signals t;
              closed := {[endWalkCh walkInfo]} ∪ closed t; next_timer := next_timer t |}.

(** The timeout elapses while the goroutine waits. *)
Definition timer_expire (t : treeWalkPool) (tm : timer) : treeWalkPool :=
  {| pool := pool t;
     timers := (λ x, if bool_decide (x = tm) then Timer (t_params x) (t_walk x) TimerExpired else x) <$> timers t;
     signals := signals t; closed := closed t; next_timer := next_timer t |}.

(** The goroutine receives from [endTimerCh] and returns. *)
Definition timer_stop (t : treeWalkPool) (tm : timer) : treeWalkPool :=
  {| pool := pool t; timers := remove_timer t tm; signals := signals t ∖ {[endTimerCh (t_walk tm)]};
     closed := closed t; next_timer := next_timer t |}.

(** ** The system *)

(** The pool, the walks that listings use, and the number of the next walk. *)
Record pool_sys := PoolSys { ps_pool : treeWalkPool; ps_users : list (nat * nat); ps_next : nat }.

Definition pool_init : pool_sys := PoolSys newTreeWalkPool [] 1.

Inductive pool_step : pool_sys → pool_sys → Prop :=
| ps_start t params t' us n :                 (* a listing starts a walk *)
    Release t params = Ret (t', None) →
    pool_step (PoolSys t us n) (PoolSys t' ((n, n) :: us) (S n))
| ps_release t params t' w us n :             (* a listing continues a walk *)
    Release t params = Ret (t', Some w) →
    pool_step (PoolSys t us n) (PoolSys t' (w :: us) n)
| ps_set t params w us1 us2 n :               (* a listing that is cut off *)
    pool_step (PoolSys t (us1 ++ w :: us2) n) (PoolSys (Set_ t params w.1 w.2) (us1 ++ us2) n)
| ps_done t w us1 us2 n :                     (* a listing that is complete *)
    pool_step (PoolSys t (us1 ++ w :: us2) n) (PoolSys t (us1 ++ us2) n)
| ps_expire t tm us n :
    tm ∈ timers t → t_phase tm = TimerWaits →
    pool_step (PoolSys t us n) (PoolSys (timer_expire t tm) us n)
| ps_stop t tm us n :
    tm ∈ timers t → t_phase tm = TimerWaits → endTimerCh (t_walk tm) ∈ signals t →
    pool_step (PoolSys t us n) (PoolSys (timer_stop t tm) us n)
| ps_fire t tm t' us n :
    tm ∈ timers t → t_phase tm = TimerExpired → timer_fire t tm = Ret t' →
    pool_step (PoolSys t us n) (PoolSys t' us n).

Definition pooled (t : treeWalkPool) (params : listParams) (w : treeWalk) : Prop :=
  w ∈ default [] (pool t !! params).

(** ** Which walks are in the pool *)

Definition walks_ok (t : treeWalkPool) : Prop :=
  ∀ params ws, pool t !! params = Some ws → NoDup ws ∧ ws ≠ [].

Lemma remove_walk_perm ws w : w ∈ ws → ws ≡ₚ w :: remove_walk ws w.
Proof.
  induction ws as [|x ws IH]; [by intros ?%not_elem_of_nil|]. intros Hw. simpl.
  case_bool_decide as E; [by subst|]. apply elem_of_cons in Hw as [->|Hw]; [done|].
  rewrite (IH Hw) at 1. constructor.
Qed.

Lemma remove_walk_absent ws w : w ∉ ws → remove_walk ws w = ws.
Proof.
  induction ws as [|x ws IH]; [done|]. intros [H1 H2]%not_elem_of_cons. simpl.
  rewrite bool_decide_false by congruence. by rewrite IH.
Qed.

Lemma remove_walk_elem ws w x : NoDup ws → x ∈ remove_walk ws w ↔ x ∈ ws ∧ x ≠ w.
Proof.
  intros Hnd. destruct (decide (w ∈ ws)) as [Hw|Hw].
  - assert (Hp := remove_walk_perm ws w Hw). assert (Hx : x ∈ ws ↔ x = w ∨ x ∈ remove_walk ws w).
    { rewrite <- elem_of_cons. by apply elem_of_Permutation_proper. }
    rewrite Hp in Hnd. apply NoDup_cons in Hnd as [Hn _]. rewrite Hx. split; [|tauto]. intros Hin.
    split; [by right|]. by intros ->.
  - rewrite remove_walk_absent by done. split; [|tauto]. intros Hx. split; [done|]. by intros ->.
Qed.

(** An entry without walks is removed from the map. *)
Definition put_walks (params : listParams) (ws : list treeWalk) (m : gmap listParams (list treeWalk)) :=
  match ws with [] => delete params m | _ => <[params := ws]> m end.

Lemma put_walks_lookup params ws m p :
  default [] (put_walks params ws m !! p) = if bool_decide (p = params) then ws else default [] (m !! p).
Proof.
  unfold put_walks. case_bool_decide as E; [subst|]; destruct ws;
    by rewrite ?lookup_delete_eq, ?lookup_insert_eq, ?lookup_delete_ne, ?lookup_insert_ne by congruence.
Qed.

Lemma put_walks_ok t params ws m :
  walks_ok t → NoDup ws → m = put_walks params ws (pool t) →
  ∀ p l, m !! p = Some l → NoDup l ∧ l ≠ [].
Proof.
  intros Hok Hnd -> p l. unfold put_walks. destruct ws as [|w ws]; intros Hl.
  - apply lookup_delete_Some in Hl as [_ Hl]. by eapply Hok.
  - apply lookup_insert_Some in Hl as [[_ <-]|[_ Hl]]; [done|]. by eapply Hok.
Qed.

Lemma Release_None t params t' : walks_ok t → Release t params = Ret (t', None) → t' = t ∧ pool t !! params = None.
Proof.
  intros Hok. unfold Release. destruct (pool t !! params) as [[|w ws]|] eqn:E; [|by case_bool_decide|by intros [= <-]].
  by destruct (Hok _ _ E).
Qed.

(** [Release] takes the first walk out of the pool. *)
Lemma Release_Some t params t' u : walks_ok t → Release t params = Ret (t', Some u) →
  ∃ w ws, pool t !! params = Some (w :: ws) ∧ u = (resultCh w, endWalkCh w) ∧ (endTimerCh w ∉ signals t) ∧
    walks_ok t' ∧ timers t' = timers t ∧ signals t' = {[endTimerCh w]} ∪ signals t ∧
    closed t' = closed t ∧ next_timer t' = next_timer t ∧
    ∀ p x, pooled t' p x ↔ pooled t p x ∧ ¬ (p = params ∧ x = w).
Proof.
  intros Hok. unfold Release. destruct (pool t !! params) as [[|w ws]|] eqn:E; [done| |done].
  case_bool_decide as Hs; [done|]. intros [= <- <-]. exists w, ws.
  destruct (Hok _ _ E) as [[Hw Hnd]%NoDup_cons _].
  split_and!; try done.
  - exact (put_walks_ok t params ws _ Hok Hnd eq_refl).
  - intros p x. unfold pooled. simpl. change (match ws with [] => _ | _ => _ end) with (put_walks params ws (pool t)).
    rewrite put_walks_lookup. case_bool_decide as Ep.
    + subst p. rewrite E. simpl. rewrite elem_of_cons. split; [|tauto]. intros Hx. split; [by right|].
      by intros [_ ->].
    + tauto.
Qed.

Lemma pooled_Set t params r e p x :
  pooled (Set_ t params r e) p x ↔ pooled t p x ∨ (p = params ∧ x = TreeWalk r e (next_timer t)).
Proof.
  unfold pooled. simpl. destruct (decide (p = params)) as [->|Hne].
  - rewrite lookup_insert_eq. simpl. rewrite elem_of_app, list_elem_of_singleton. tauto.
  - rewrite lookup_insert_ne by done. tauto.
Qed.

Lemma timer_fire_Ret t tm t' : walks_ok t → timer_fire t tm = Ret t' →
  (endWalkCh (t_walk tm) ∉ closed t) ∧ walks_ok t' ∧ timers t' = remove_timer t tm ∧ signals t' = signals t ∧
  closed t' = {[endWalkCh (t_walk tm)]} ∪ closed t ∧ next_timer t' = next_timer t ∧
  ∀ p x, pooled t' p x ↔ pooled t p x ∧ ¬ (p = t_params tm ∧ x = t_walk tm).
Proof.
  intros Hok. unfold timer_fire. case_bool_decide as Hn; [done|]. case_bool_decide as Hc; [done|]. simpl. intros [= <-]. split; [done|].
  set (m := match pool t !! _ with Some _ => _ | None => _ end).
  assert (Hm : ∃ ws, m = put_walks (t_params tm) ws (pool t) ∧ NoDup ws ∧
    ∀ x, x ∈ ws ↔ pooled t (t_params tm) x ∧ x ≠ t_walk tm).
  { unfold m, pooled. destruct (pool t !! t_params tm) as [ws|] eqn:E.
    - exists (remove_walk ws (t_walk tm)). destruct (Hok _ _ E) as [Hnd _]. split_and!.
      + unfold put_walks. by destruct (remove_walk ws (t_walk tm)).
      + destruct (decide (t_walk tm ∈ ws)) as [Hw|Hw]; [|by rewrite remove_walk_absent].
        rewrite (remove_walk_perm _ _ Hw) in Hnd. by apply NoDup_cons in Hnd as [_ ?].
      + intros x. simpl. by apply remove_walk_elem.
    - exists []. split_and!; [|constructor|].
      + simpl. by rewrite delete_id.
      + intros x. simpl. split; [by intros ?%not_elem_of_nil|]. by intros [?%not_elem_of_nil _]. }
  destruct Hm as (ws & Hm & Hnd & Hws). split_and!; try done.
  - exact (put_walks_ok t _ ws m Hok Hnd Hm).
  - intros p x. unfold pooled at 1. simpl. rewrite Hm, put_walks_lookup. case_bool_decide as Ep.
    + subst p. rewrite Hws. tauto.
    + unfold pooled. tauto.
Qed.

(** ** The invariant *)

Record pool_inv (s : pool_sys) : Prop := {
  pi_walks : walks_ok (ps_pool s);
  (** Every walk in the pool has a timer, and no message for it. *)
  pi_timer : ∀ p w, pooled (ps_pool s) p w →
    (∃ ph, Timer p w ph ∈ timers (ps_pool s)) ∧ (endTimerCh w ∉ signals (ps_pool s));
  pi_unique : ∀ tm tm', tm ∈ timers (ps_pool s) → tm' ∈ timers (ps_pool s) →
    endTimerCh (t_walk tm) = endTimerCh (t_walk tm') → tm = tm';
  pi_next : ∀ tm, tm ∈ timers (ps_pool s) → endTimerCh (t_walk tm) < next_timer (ps_pool s);
  pi_signals : ∀ c, c ∈ signals (ps_pool s) → c < next_timer (ps_pool s);
  (** A walk is in the pool once, or used by one listing. *)
  pi_users : NoDup (ps_users s);
  pi_pos : 0 < ps_next s;
  pi_users_lt : ∀ u, u ∈ ps_users s → u.1 = u.2 ∧ 0 < u.1 < ps_next s;
  pi_pooled : ∀ p w, pooled (ps_pool s) p w →
    resultCh w = endWalkCh w ∧ 0 < resultCh w < ps_next s ∧ ((resultCh w, endWalkCh w) ∉ ps_users s);
  pi_once : ∀ p w p' w', pooled (ps_pool s) p w → pooled (ps_pool s) p' w' →
    resultCh w = resultCh w' → p = p' ∧ w = w';
}.

Lemma remove_timer_elem t tm x : x ∈ remove_timer t tm ↔ x ∈ timers t ∧ x ≠ tm.
Proof. unfold remove_timer. rewrite list_elem_of_filter. tauto. Qed.

Lemma expired_elem t tm x : x ∈ timers (timer_expire t tm) ↔
  (x ∈ timers t ∧ x ≠ tm) ∨ (tm ∈ timers t ∧ x = Timer (t_params tm) (t_walk tm) TimerExpired).
Proof.
  simpl. rewrite list_elem_of_fmap. split.
  - intros (y & -> & Hy). case_bool_decide as E; [subst; by right|]. by left.
  - intros [[Hx Hne]|[Htm ->]]; eexists; (split; [|eassumption]); case_bool_decide; congruence.
Qed.

(** Two walks of the pool with one timer channel are the same. *)
Lemma pooled_timer s p w p' w' : pool_inv s → pooled (ps_pool s) p w → pooled (ps_pool s) p' w' →
  endTimerCh w = endTimerCh w' → p = p' ∧ w = w'.
Proof.
  intros Hi Hw Hw' E. destruct (pi_timer _ Hi _ _ Hw) as [[ph Ht] _]. destruct (pi_timer _ Hi _ _ Hw') as [[ph' Ht'] _].
  by assert (Timer p w ph = Timer p' w' ph') as [= -> ->] by (by apply (pi_unique _ Hi)).
Qed.

Lemma pool_init_inv : pool_inv pool_init.
Proof.
  assert (Hp : ∀ p w, ¬ pooled newTreeWalkPool p w).
  { intros p w. unfold pooled. simpl. rewrite lookup_empty. apply not_elem_of_nil. }
  split; simpl; try (intros p w **; exfalso; by apply (Hp p w)); try set_solver.
  - intros p ws H. simpl in H. by rewrite lookup_empty in H.
  - constructor.
Qed.

Lemma inv_start t us n : pool_inv (PoolSys t us n) → pool_inv (PoolSys t ((n, n) :: us) (S n)).
Proof.
  intros [H1 H2 H3 H4 H5 H6 H0 H7 H8 H9]. split; simpl in *; try done || lia.
  - apply NoDup_cons. split; [|done]. intros [_ ?]%H7. simpl in *. lia.
  - intros u [->|Hu]%elem_of_cons; simpl; [lia|]. apply H7 in Hu. lia.
  - intros p w Hw. destruct (H8 _ _ Hw) as (? & ? & ?). split; [done|]. split; [lia|].
    rewrite not_elem_of_cons. split; [|done]. intros [= ?]. lia.
Qed.

Lemma inv_release t params t' u us n : Release t params = Ret (t', Some u) →
  pool_inv (PoolSys t us n) → pool_inv (PoolSys t' (u :: us) n).
Proof.
  intros Hr Hi. assert (Hi' := Hi). destruct Hi' as [H1 H2 H3 H4 H5 H6 H0 H7 H8 H9]. simpl in *.
  destruct (Release_Some _ _ _ _ H1 Hr) as (w & ws & Hp & -> & Hsig & Hok & Ht & Hs & Hc & Hn & Hpool).
  assert (Hw : pooled t params w) by (unfold pooled; rewrite Hp; by left).
  destruct (H8 _ _ Hw) as (Hwe & Hwn & Hwu). destruct (H2 _ _ Hw) as [[ph Htm] _].
  split; simpl; rewrite ?Ht, ?Hs, ?Hn; try done.
  - intros p x [Hx Hne]%Hpool. destruct (H2 _ _ Hx) as [Htx Hsx]. split; [done|].
    rewrite not_elem_of_union, not_elem_of_singleton. split; [|done]. intros E. apply Hne.
    by apply (pooled_timer (PoolSys t us n)).
  - intros c [->%elem_of_singleton|Hc']%elem_of_union; [|by apply H5]. by apply (H4 _ Htm).
  - by apply NoDup_cons.
  - intros v [->|Hv]%elem_of_cons; [by simpl|]. by apply H7.
  - intros p x [Hx Hne]%Hpool. destruct (H8 _ _ Hx) as (? & ? & ?). split; [done|]. split; [done|].
    apply not_elem_of_cons. split; [|done]. intros [= E _]. apply Hne. by apply (H9 _ _ _ _ Hx Hw).
  - intros p x p' x' [Hx _]%Hpool [Hx' _]%Hpool. by apply H9.
Qed.

Lemma inv_done t u us1 us2 n : pool_inv (PoolSys t (us1 ++ u :: us2) n) → pool_inv (PoolSys t (us1 ++ us2) n).
Proof.
  assert (Hin : ∀ v, v ∈ us1 ++ us2 → v ∈ us1 ++ u :: us2).
  { intros v. rewrite !elem_of_app, elem_of_cons. tauto. }
  intros [H1 H2 H3 H4 H5 H6 H0 H7 H8 H9]. split; simpl in *; try done.
  - rewrite <- Permutation_middle in H6. by apply NoDup_cons in H6 as [_ ?].
  - intros v Hv. by apply H7, Hin.
  - intros p w Hw. destruct (H8 _ _ Hw) as (? & ? & Hu). split; [done|]. split; [done|]. intros Hv. by apply Hu, Hin.
Qed.

Lemma inv_set t params u us1 us2 n :
  pool_inv (PoolSys t (us1 ++ u :: us2) n) → pool_inv (PoolSys (Set_ t params u.1 u.2) (us1 ++ us2) n).
Proof.
  intros Hi. assert (Hi' := inv_done _ _ _ _ _ Hi). destruct Hi as [_ _ _ _ _ Hnd _ Hlt Hp0 _].
  destruct Hi' as [H1 H2 H3 H4 H5 H6 H0 H7 H8 H9]. simpl in *.
  assert (Hu : u ∈ us1 ++ u :: us2) by (apply elem_of_app; right; left). destruct (Hlt u Hu) as [Hu12 Hun].
  assert (Hnu : u ∉ us1 ++ us2) by (rewrite <- Permutation_middle in Hnd; by apply NoDup_cons in Hnd as [? _]).
  assert (Hup : u = (u.1, u.2)) by (by destruct u).
  set (w := TreeWalk u.1 u.2 (next_timer t)).
  split; simpl.
  - intros p ws Hp. simpl in Hp. apply lookup_insert_Some in Hp as [[<- <-]|[_ Hp]]; [|by apply (H1 p)]. split.
    + destruct (pool t !! params) as [ws|] eqn:E; simpl; [|by apply NoDup_singleton]. apply NoDup_app. split_and!.
      * by destruct (H1 _ _ E).
      * intros x Hx ->%list_elem_of_singleton. assert (Hpw : pooled t params w) by (unfold pooled; by rewrite E).
        destruct (H2 _ _ Hpw) as [[ph Ht] _]. apply H4 in Ht. simpl in Ht. lia.
      * by apply NoDup_singleton.
    + intros H. by apply app_nil in H as [_ ?].
  - intros p x [Hx|[-> ->]]%pooled_Set.
    + destruct (H2 _ _ Hx) as [[ph Ht] Hs]. split; [exists ph; by apply elem_of_app; left|done].
    + split; [exists TimerWaits; apply elem_of_app; right; by left|]. intros Hc%H5. simpl in Hc. lia.
  - intros tm tm' [Ht| ->%list_elem_of_singleton]%elem_of_app [Ht'| ->%list_elem_of_singleton]%elem_of_app; [by apply H3| | |done];
      simpl; intros E; apply H4 in Ht || apply H4 in Ht'; lia.
  - intros tm [Ht| ->%list_elem_of_singleton]%elem_of_app; [apply H4 in Ht|simpl]; lia.
  - intros c Hc%H5. lia.
  - done.
  - done.
  - done.
  - intros p x [Hx|[-> ->]]%pooled_Set; [by apply (H8 p)|]. simpl. by rewrite <- Hup.
  - intros p x p' x' [Hx|[-> ->]]%pooled_Set [Hx'|[-> ->]]%pooled_Set; [by apply H9| | |done]; simpl; intros E; exfalso.
    + destruct (Hp0 _ _ Hx) as (Ex & _ & Hnx). apply Hnx. rewrite <- Ex, E. rewrite Hu12 at 2. by rewrite <- Hup.
    + destruct (Hp0 _ _ Hx') as (Ex & _ & Hnx). apply Hnx. rewrite <- Ex, <- E. rewrite Hu12 at 2. by rewrite <- Hup.
Qed.

Lemma inv_expire t tm us n : tm ∈ timers t → pool_inv (PoolSys t us n) → pool_inv (PoolSys (timer_expire t tm) us n).
Proof.
  intros Htm [H1 H2 H3 H4 H5 H6 H0 H7 H8 H9]. simpl in *.
  assert (Hx : ∀ x, x ∈ timers (timer_expire t tm) → ∃ y, y ∈ timers t ∧ t_walk x = t_walk y ∧
            x = if bool_decide (y = tm) then Timer (t_params y) (t_walk y) TimerExpired else y).
  { intros x [[Hx Hne]|[_ ->]]%expired_elem.
    - exists x. by rewrite bool_decide_false.
    - exists tm. by rewrite bool_decide_true. }
  split; simpl; try done.
  - intros p w Hw. destruct (H2 p w Hw) as [[ph Ht] Hs]. split; [|done].
    destruct (decide (Timer p w ph = tm)) as [<-|Hne].
    + exists TimerExpired. apply expired_elem. by right.
    + exists ph. apply expired_elem. by left.
  - intros x x' (y & Hy & Ew & ->)%Hx (y' & Hy' & Ew' & ->)%Hx E. rewrite Ew, Ew' in E. by rewrite (H3 y y' Hy Hy' E).
  - intros x (y & Hy & -> & _)%Hx. by apply H4.
Qed.

(** A timer that is removed has no walk in the pool. *)
Lemma inv_remove t t' tm us n :
  pool_inv (PoolSys t us n) → tm ∈ timers t → walks_ok t' →
  (∀ p x, pooled t' p x → pooled t p x ∧ ¬ (p = t_params tm ∧ x = t_walk tm)) →
  timers t' = remove_timer t tm → signals t' ⊆ signals t → next_timer t' = next_timer t →
  pool_inv (PoolSys t' us n).
Proof.
  intros [H1 H2 H3 H4 H5 H6 H0 H7 H8 H9] Htm Hok Hpool Ht Hs Hn. simpl in *. split; simpl; rewrite ?Ht, ?Hn; try done.
  - intros p x [Hx Hne]%Hpool. destruct (H2 _ _ Hx) as [[ph Hph] Hsx]. split.
    + exists ph. apply remove_timer_elem. split; [done|]. intros <-. by apply Hne.
    + intros Hc. by apply Hsx, Hs.
  - intros x x' [Hx _]%remove_timer_elem [Hx' _]%remove_timer_elem. by apply H3.
  - intros x [Hx _]%remove_timer_elem. by apply H4.
  - intros c Hc. by apply H5, Hs.
  - intros p x [Hx _]%Hpool. by apply (H8 p).
  - intros p x p' x' [Hx _]%Hpool [Hx' _]%Hpool. by apply H9.
Qed.

Lemma pool_step_inv s s' : pool_step s s' → pool_inv s → pool_inv s'.
Proof.
  intros Hstep Hi. destruct Hstep as [t params t' us n Hr|t params t' u us n Hr|t params u us1 us2 n
    |t u us1 us2 n|t tm us n Htm _|t tm us n Htm _ Hsig|t tm t' us n Htm _ Hf].
  - destruct (Release_None _ _ _ (pi_walks _ Hi) Hr) as [-> _]. by apply inv_start.
  - by eapply inv_release.
  - by apply inv_set.
  - by eapply inv_done.
  - by apply inv_expire.
  - eapply (inv_remove t); [done|done|apply (pi_walks _ Hi)| |done| |done].
    + intros p x Hx. split; [done|]. intros [-> ->]. by destruct (pi_timer _ Hi _ _ Hx) as [_ ?].
    + simpl. apply subseteq_difference_l. done.
  - destruct (timer_fire_Ret _ _ _ (pi_walks _ Hi) Hf) as (_ & Hok & Ht & Hs & _ & Hn & Hpool).
    eapply (inv_remove t); [done|done|done| |done|by rewrite Hs|done]. intros p x. apply Hpool.
Qed.

Lemma pool_reachable_inv s : rtc pool_step pool_init s → pool_inv s.
Proof.
  intros H. assert (Hi := pool_init_inv). induction H as [|s1 s2 s3 Hs _ IH]; [done|].
  by eapply IH, pool_step_inv.
Qed.

(** [Release] does not block. *)
Lemma Release_total s params : pool_inv s → ∃ t' r, Release (ps_pool s) params = Ret (t', r).
Proof.
  intros Hi. unfold Release. destruct (pool (ps_pool s) !! params) as [[|w ws]|] eqn:Hp; [by eauto| |by eauto].
  rewrite bool_decide_false; [by eauto|]. apply (pi_timer _ Hi params). unfold pooled. rewrite Hp. by left.
Qed.

(** C31.  Walks are handed out exclusively.  In every reachable state of the
    pool, for any interleaving of listings and timers: [Release] returns without
    blocking; it hands out the walk that was set first under the parameters and
    takes it out of the pool, so the walk is used by one listing and can not be
    found again; and every walk that stays in the pool has a timer that will
    end it. *)
Theorem walk_pool_exclusive s params : rtc pool_step pool_init s →
  (∃ t' r, Release (ps_pool s) params = Ret (t', r) ∧
    match r with
    | None => pool (ps_pool s) !! params = None ∧ t' = ps_pool s
    | Some u => ∃ w ws, pool (ps_pool s) !! params = Some (w :: ws) ∧ u = (resultCh w, endWalkCh w) ∧
        (u ∉ ps_users s) ∧ ∀ p x, pooled t' p x → (resultCh x, endWalkCh x) ≠ u
    end) ∧
  ∀ p w, pooled (ps_pool s) p w → ∃ ph, Timer p w ph ∈ timers (ps_pool s).
Proof.
  intros Hi%pool_reachable_inv. split; [|intros p w Hw; apply (pi_timer _ Hi _ _ Hw)].
  destruct (Release_total s params Hi) as (t' & r & Hr). exists t', r. split; [done|]. destruct r as [u|].
  - destruct (Release_Some _ _ _ _ (pi_walks _ Hi) Hr) as (w & ws & Hp & -> & _ & _ & _ & _ & _ & _ & Hpool).
    assert (Hw : pooled (ps_pool s) params w) by (unfold pooled; rewrite Hp; by left).
    exists w, ws. split_and!; [done|done|by apply (pi_pooled _ Hi _ _ Hw)|]. intros p x [Hx Hne]%Hpool [= E _].
    apply Hne. by apply (pi_once _ Hi _ _ _ _ Hx Hw).
  - by destruct (Release_None _ _ _ (pi_walks _ Hi) Hr).
Qed.

(** ** A timer that expires while its walk is taken *)

Definition page_params (marker : string) : listParams := ListParams "bucket" true marker "" false.

(** A listing starts a walk and is cut off. *)
Definition cut_off : treeWalkPool := Set_ newTreeWalkPool (page_params "a") 1 1.

Lemma cut_off_reachable : rtc pool_step pool_init (PoolSys cut_off [] 2).
Proof.
  eapply rtc_l; [by apply (ps_start _ (page_params ""))|].
  apply rtc_once. exact (ps_set newTreeWalkPool (page_params "a") (1, 1) [] [] 2).
Qed.

Lemma walk_pool_exclusive_witness :
  (∃ t' r, Release cut_off (page_params "a") = Ret (t', r) ∧
    match r with
    | None => pool cut_off !! page_params "a" = None ∧ t' = cut_off
    | Some u => ∃ w ws, pool cut_off !! page_params "a" = Some (w :: ws) ∧ u = (resultCh w, endWalkCh w) ∧
        (u ∉ []) ∧ ∀ p x, pooled t' p x → (resultCh x, endWalkCh x) ≠ u
    end) ∧
  ∀ p w, pooled cut_off p w → ∃ ph, Timer p w ph ∈ timers cut_off.
Proof. exact (walk_pool_exclusive (PoolSys cut_off [] 2) (page_params "a") cut_off_reachable). Defined.

Definition timer0 (ph : timer_phase) : timer := Timer (page_params "a") (TreeWalk 1 1 0) ph.
Definition timer1 (ph : timer_phase) : timer := Timer (page_params "b") (TreeWalk 1 1 1) ph.

(** The timeout of the first timer, the next request, and then the rest of the
    timeout. *)
Definition ended : treeWalkPool :=
  {| pool := ∅; timers := []; signals := {[0]}; closed := {[1]}; next_timer := 1 |}.

Lemma ended_reachable : rtc pool_step pool_init (PoolSys ended [(1, 1)] 2).
Proof.
  transitivity (PoolSys cut_off [] 2); [exact cut_off_reachable|].
  eapply rtc_l; [apply (ps_expire _ (timer0 TimerWaits)); [by left|done]|].
  eapply rtc_l; [by apply (ps_release _ (page_params "a"))|].
  apply rtc_once. apply (ps_fire _ (timer0 TimerExpired)); [by left|done|]. vm_compute. reflexivity.
Qed.

(** The timer races with the next request.  A timer that has expired, but
    does not have the lock of the pool yet, ends the walk although [Release] has
    handed it to a listing in the meantime; and when that listing puts the walk
    back and is not continued, the next timer closes [endWalkCh] a second time,
    which panics. *)
Theorem walk_pool_race :
  ∃ s, rtc pool_step pool_init s ∧ (1, 1) ∈ ps_users s ∧ 1 ∈ closed (ps_pool s) ∧
  ∃ s' tm, rtc pool_step s s' ∧ tm ∈ timers (ps_pool s') ∧ t_phase tm = TimerExpired ∧
    timer_fire (ps_pool s') tm = Panic.
Proof.
  exists (PoolSys ended [(1, 1)] 2). split_and!; [apply ended_reachable|by left|cbn; by apply elem_of_singleton|].
  exists (PoolSys (timer_expire (Set_ ended (page_params "b") 1 1) (timer1 TimerWaits)) [] 2), (timer1 TimerExpired).
  split_and!; [|by left|done|by vm_compute].
  eapply rtc_l; [exact (ps_set ended (page_params "b") (1, 1) [] [] 2)|].
  apply rtc_once. apply ps_expire; [by left|done].
Qed.
