(* ===== verification/XLList.v ===== *)
(** * Listing objects

    src/cmd/xl-v1-list-objects.go: [listObjects] reads a page of results from a
    tree walk, which it starts or takes from the pool of walks.

    The walk is a goroutine that fills a channel while the listing empties it.
    Here it runs when it is started; the channel holds the results that were not
    received, and is closed behind them. *)

From S2P Require Import Prelude.
From S2P Require Import GoErrors.
From S2P Require Import GoStrings.
From S2P Require Import Quorum.
From S2P Require Import Distribution.
From S2P Require Import XLMeta.
From S2P Require Import Storage.
From S2P Require Import ErasureSpec.
From S2P Require Import ErasureWrite.
From S2P Require Import ObjectNames.
From S2P Require Import DiskContract.
From S2P Require Import XLDisk.
From S2P Require Import XLCommon.
From S2P Require Import XLBucket.
From S2P Require Import XLObject.
From S2P Require Import XLPut.
From S2P Require Import TreeWalk.
From S2P Require Import TreeWalkDisks.
From S2P Require Import WalkPool.

Local Open Scope Z_scope.

Definition maxObjectList : Z := 1000.

Record ListObjectsInfo := {
  IsTruncated : bool;
  NextMarker : string;
  Objects : list ObjectInfo;
  Prefixes : list string;
}.

Definition ListObjectsInfo_zero : ListObjectsInfo :=
  {| IsTruncated := false; NextMarker := ""; Objects := []; Prefixes := [] |}.

(** The clock of a listing: of the bucket check, of the choice of the disks, of
    the leaf checks and of the reads of the metadata. *)
Record list_env := {
  now_check : string;
  now_walk : string;
  now_leaf : string → string;
  now_info : string → string;
}.

(** The disks, the pool of walks with the results in their channels, and the
    number of the next walk. *)
Record lister (D : Type) := Lister {
  li_disks : list (option D);
  li_pool : treeWalkPool;
  li_chans : gmap nat (list treeWalkResult);
  li_next : nat;
}.
Arguments Lister {D}.
Arguments li_disks {D}.
Arguments li_pool {D}.
Arguments li_chans {D}.
Arguments li_next {D}.

Section ListObjects.
Context `{MapOrder} `{GJson, MetaJson} {D : Type} `{!StorageAPI D}.

(** The walk that [listObjects] starts. *)
Definition start_walk (fuel : nat) (env : list_env) (disks : list (option D))
    (bucket prefix marker : string) (recursive : bool) : go (list (option D) * list treeWalkResult) :=
  order ← hashOrder (now_walk env) (zlen disks);
  let order := (λ i, Z.to_nat (i - 1)) <$> order in
  startTreeWalk
    (λ ds dir pm, listDirFactory (isLeaf_at (now_leaf env)) xlTreeWalkIgnoredErrs order bucket ds dir pm)
    (λ ds p, isLeaf_at (now_leaf env) ds bucket p) (λ _, false) fuel prefix marker recursive disks.

(** The channels of the walk: from the pool, or new. *)
Definition get_walk (fuel : nat) (env : list_env) (li : lister D)
    (bucket prefix marker : string) (recursive : bool) : go (lister D * (nat * nat)) :=
  '(p, r) ← Release (li_pool li) (ListParams bucket recursive marker prefix false);
  match r with
  | Some (S _ as resultCh, endWalkCh) =>
      mret (Lister (li_disks li) p (li_chans li) (li_next li), (resultCh, endWalkCh))
  | _ =>
      '(disks, rs) ← start_walk fuel env (li_disks li) bucket prefix marker recursive;
      mret (Lister disks p (<[li_next li := rs]> (li_chans li)) (S (li_next li)), (li_next li, li_next li))
  end.

(** The loop of [listObjects]; [n] are the keys to go.  It ends with the objects,
    [eof] and the next marker, or with the values to return. *)
Fixpoint list_loop (env : list_env) (bucket prefix : string) (n : nat) (rs : list treeWalkResult)
    (disks : list (option D)) (objInfos : list ObjectInfo) (nextMarker : string)
    : go (list (option D) * list treeWalkResult *
          ((list ObjectInfo * bool * string) + (ListObjectsInfo * option error))) :=
  match n, rs with
  | O, _ => Ret (disks, rs, inl (objInfos, false, nextMarker))
  | S _, [] => Ret (disks, [], inl (objInfos, true, nextMarker))
  | S n', walkResult :: rs' =>
      match tw_err walkResult with
      | Some err =>
          Ret (disks, rs', inr (ListObjectsInfo_zero,
            if err_eqb (errorCause (Some err)) (Some (errFileNotFound : error)) then None
            else toObjectErr (Some err) [bucket; prefix]))
      | None =>
          let entry := tw_entry walkResult in
          let add disks objInfo :=
            if tw_end walkResult
            then Ret (disks, rs', inl (objInfos ++ [objInfo], true, Name objInfo))
            else list_loop env bucket prefix n' rs' disks (objInfos ++ [objInfo]) (Name objInfo) in
          if HasSuffix entry slashSeparator then
            add disks
              {| IsDir := true; Bucket := bucket; Name := entry; Size := 0; ObjModTime := zeroTime;
                 MD5Sum := ""; ContentType := ""; ContentEncoding := ""; UserDefined := ∅; ObjHealInfo := None |}
          else
            '(disks, (objInfo, err)) ← balanced (now_info env entry) disks (λ lb, getObjectInfo lb bucket entry);
            match err with
            | Some e =>
                if err_eqb (errorCause (Some e)) (Some (errFileNotFound : error))
                then list_loop env bucket prefix n rs' disks objInfos nextMarker
                else mret (disks, rs', inr (ListObjectsInfo_zero, toObjectErr (Some e) [bucket; prefix]))
            | None => add disks (default ObjectInfo_zero objInfo)
            end
      end
  end.

(** The last loop: directories are prefixes. *)
Fixpoint fill_result (result : ListObjectsInfo) (objInfos : list ObjectInfo) : ListObjectsInfo :=
  match objInfos with
  | [] => result
  | objInfo :: objInfos' =>
      fill_result
        (if IsDir objInfo
         then {| IsTruncated := IsTruncated result; NextMarker := Name objInfo; Objects := Objects result;
                 Prefixes := Prefixes result ++ [Name objInfo] |}
         else {| IsTruncated := IsTruncated result; NextMarker := Name objInfo;
                 Objects := Objects result ++ [objInfo]; Prefixes := Prefixes result |}) objInfos'
  end.

Definition listObjects (fuel : nat) (env : list_env) (li : lister D)
    (bucket prefix marker delimiter : string) (maxKeys : nat)
    : go (lister D * (ListObjectsInfo * option error)) :=
  let recursive := negb (bool_decide (delimiter = slashSeparator)) in
  '(li, (walkResultCh, endWalkCh)) ← get_walk fuel env li bucket prefix marker recursive;
  '(disks, rs, r) ←
    list_loop env bucket prefix maxKeys (default [] (li_chans li !! walkResultCh)) (li_disks li) [] "";
  let chans := <[walkResultCh := rs]> (li_chans li) in
  match r with
  | inr ret => mret (Lister disks (li_pool li) chans (li_next li), ret)
  | inl (objInfos, eof, nextMarker) =>
      let params := ListParams bucket recursive nextMarker prefix false in
      let p := if (eof : bool) then li_pool li else Set_ (li_pool li) params walkResultCh endWalkCh in
      mret (Lister disks p chans (li_next li),
            (fill_result {| IsTruncated := negb eof; NextMarker := ""; Objects := []; Prefixes := [] |} objInfos,
             None))
  end.

Definition ListObjects (fuel : nat) (env : list_env) (li : lister D)
    (bucket prefix marker delimiter : string) (maxKeys : Z)
    : go (lister D * (ListObjectsInfo * option error)) :=
  '(disks, (_, bErr)) ← GetBucketInfo (now_check env) (li_disks li) bucket;
  let li := Lister disks (li_pool li) (li_chans li) (li_next li) in
  match checkListObjsArgs (λ _, bErr) bucket prefix marker delimiter with
  | Some err => mret (li, (ListObjectsInfo_zero, Some err))
  | None =>
      if maxKeys =? 0 then mret (li, (ListObjectsInfo_zero, None))
      else if bool_decide (delimiter = slashSeparator) && bool_decide (prefix = slashSeparator)
      then mret (li, (ListObjectsInfo_zero, None))
      else
        let maxKeys := if (maxKeys <? 0) || (maxObjectList <? maxKeys) then maxObjectList else maxKeys in
        '(li, (listObjInfo, err)) ← listObjects fuel env li bucket prefix marker delimiter (Z.to_nat maxKeys);
        match err with
        | None => mret (li, (listObjInfo, None))
        | Some e => mret (li, (ListObjectsInfo_zero, toObjectErr (Some e) [bucket; prefix]))
        end
  end.

End ListObjects.

(** ** Correctness *)

Section Correct.
Context `{JsonContract} `{MapOrder} {D : Type} `{!StorageAPI D} `{!StorageContract D} `{!Volumes D} `{!DiskContract D}.
Context (cls : nat → disk_state) (n : nat) (n_pos : 0 < Z.of_nat n < 2 ^ 32).
Context (some_up : ∃ i, (i < n)%nat ∧ cls i = DiskUp).
Context (bucket : string) (bucket_valid : IsValidBucketName bucket = true).
Context (objects : list string) (Hon : object_names objects).
Context (stat : string → statInfo) (meta : string → gmap string string).

(** A disk holds the objects, with the given metadata. *)
Definition holds_infos (d : D) : Prop :=
  holds_objects bucket objects d ∧
  ∀ o, o ∈ objects → ∃ mt b, file_at d bucket (o +:+ "/" +:+ xlMetaJSONFile) = Some b ∧
    json_Marshal mt = inl b ∧ Stat mt = stat o ∧ Meta mt = meta o.

Lemma holds_infos_same d d' : holds_infos d → same_disk d d' → holds_infos d'.
Proof.
  intros [Ho Hi] Hs. split; [by eapply holds_same|]. intros o Hin. destruct (Hi o Hin) as (mt & b & Hf & Hrest).
  exists mt, b. split; [|done]. by rewrite (keep_files _ _ _ Hs).
Qed.

Abbreviation disks_ok := (bucket_disks cls n holds_infos).

Definition info_of (o : string) : ObjectInfo :=
  {| IsDir := false; Bucket := bucket; Name := o; Size := StatSize (stat o); ObjModTime := ModTime (stat o);
     MD5Sum := default "" (meta o !! "md5Sum"); ContentType := default "" (meta o !! "content-type");
     ContentEncoding := default "" (meta o !! "content-encoding"); UserDefined := delete "md5Sum" (meta o);
     ObjHealInfo := None |}.

Definition dir_info (p : string) : ObjectInfo :=
  {| IsDir := true; Bucket := bucket; Name := p; Size := 0; ObjModTime := zeroTime; MD5Sum := "";
     ContentType := ""; ContentEncoding := ""; UserDefined := ∅; ObjHealInfo := None |}.

Definition entry_info (p : string) : ObjectInfo := if HasSuffix p "/" then dir_info p else info_of p.

Lemma readXLMetaStat_up d o : up d → holds_infos d → o ∈ objects →
  ∃ d', readXLMetaStat d bucket o = (d', (stat o, meta o, None)) ∧ up d' ∧ same_disk d d'.
Proof.
  intros Hup [Hh Hi] Ho. destruct (Hi o Ho) as (mt & b & Hf & Hj & Hs & Hm). unfold readXLMetaStat.
  assert (Hc : clean_path o) by (by apply (obj_clean objects Hon)).
  rewrite path_Join_clean by (done || apply clean_path_plain, xlMetaJSON_plain).
  destruct (up_ReadAll d bucket (o +:+ "/" +:+ xlMetaJSONFile) Hup (ho_vol _ _ _ Hh)) as (d' & r & -> & Hup' & Hsm & ->).
  rewrite Hf. assert (Hu := xlMetaV1UnmarshalJSON_Marshal _ _ Hj). unfold xlMetaV1UnmarshalJSON in Hu.
  destruct (parseXLStat b) as [st [e|]]; [done|]. injection Hu as Hu. rewrite <- Hu in Hs, Hm. simpl in Hs, Hm.
  subst st. exists d'. by rewrite Hm.
Qed.

Lemma getObjectInfo_ok now ds o : disks_ok ds → o ∈ objects →
  ∃ ds', balanced now ds (λ lb, getObjectInfo lb bucket o) = Ret (ds', (Some (info_of o), None)) ∧ disks_ok ds'.
Proof.
  intros Hds Ho. destruct some_up as (i & Hi & Hup).
  destruct (balanced_slots now ds (λ lb, getObjectInfo lb bucket o) n (slot_is cls (λ _, holds_infos))
    (slot_is cls (λ _, holds_infos)) (λ a, a = (Some (info_of o), None)) Hds n_pos) as (ds' & a & -> & Hds' & ->).
  - intros σ lb [_ Hσ] Hlb. destruct (Hσ i Hi) as (s & Hs & <-). unfold getObjectInfo, xl_readXLMetaStat.
    destruct (first_answer_ok objMetadataOpIgnoredErrs (λ disk, readXLMetaStat disk bucket o) (statInfo_zero, ∅)
      (λ a, a = (stat o, meta o)) lb None n (λ s, cls (σ s)) (λ _, holds_infos) Hlb) as (lb' & a & -> & Hlb' & ->).
    + intros j d d'. apply holds_infos_same.
    + intros j d Hud Hd. destruct (readXLMetaStat_up d o Hud Hd Ho) as (d' & -> & ? & ?). by eexists _, _.
    + intros d Hd. unfold readXLMetaStat.
      destruct (down_ReadAll d bucket (path_Join [o; xlMetaJSONFile]) Hd) as (d' & b & e & -> & Hd' & He).
      assert (∃ e', traceError (Some e) [] = Some e') as [e' Ht] by (destruct e; by eexists).
      rewrite Ht. eexists _, _, _. split_and!; [done|done|]. rewrite <- Ht.
      unfold disk_err, baseErrs in He. rewrite !elem_of_cons in He.
      destruct He as [[= ->]|[[= ->]|[[= ->]|?%not_elem_of_nil]]]; done.
    + by exists s.
    + eexists _, _. by split_and!.
  - by exists ds'.
Qed.

(** The entries of a page. *)
Lemma list_loop_ok env prefix : ∀ rs k ds infos mk,
  disks_ok ds → results_ok true rs → Forall (λ p, HasSuffix p "/" = false → p ∈ objects) (tw_entry <$> rs) →
  (0 < k)%nat ∨ rs ≠ [] →
  ∃ ds', list_loop env bucket prefix k rs ds infos mk =
      Ret (ds', drop k rs, inl (infos ++ (entry_info <$> take k (tw_entry <$> rs)), bool_decide (length rs ≤ k)%nat,
                                default mk (last (take k (tw_entry <$> rs))))) ∧ disks_ok ds'.
Proof.
  induction rs as [|r rs IH]; intros k ds infos mk Hds Hok Hobj Hk.
  { destruct Hk as [Hk|?]; [|done]. destruct k as [|k]; [lia|]. exists ds. simpl. rewrite app_nil_r. done. }
  destruct k as [|k].
  { exists ds. simpl. rewrite app_nil_r. done. }
  rewrite fmap_cons in Hobj. apply Forall_cons in Hobj as [Hr Hobj]. destruct Hok as [Herr Hend].
  apply Forall_cons in Herr as [Hre Herr].
  assert (Hend0 : tw_end r = true ↔ rs = []).
  { rewrite (Hend 0%nat r eq_refl). simpl. split; [|by intros ->]. intros [_ ?]. by destruct rs. }
  assert (Hok' : results_ok true rs).
  { split; [done|]. intros i x Hx. rewrite (Hend (S i) x Hx). simpl. split; intros [_ ?]; split; done || lia. }
  assert (Hadd : ∀ ds1, disks_ok ds1 → ∃ ds',
    (if tw_end r then Ret (ds1, rs, inl (infos ++ [entry_info (tw_entry r)], true, Name (entry_info (tw_entry r))))
     else list_loop env bucket prefix k rs ds1 (infos ++ [entry_info (tw_entry r)]) (Name (entry_info (tw_entry r)))) =
    Ret (ds', drop (S k) (r :: rs),
         inl (infos ++ (entry_info <$> take (S k) (tw_entry <$> r :: rs)), bool_decide (length (r :: rs) ≤ S k)%nat,
              default mk (last (take (S k) (tw_entry <$> r :: rs))))) ∧ disks_ok ds').
  { intros ds1 Hds1. assert (Hname : Name (entry_info (tw_entry r)) = tw_entry r) by (unfold entry_info; by destruct (HasSuffix _ _)).
    rewrite Hname. destruct (tw_end r) eqn:He.
    - rewrite (proj1 Hend0 eq_refl). exists ds1. rewrite bool_decide_true by (simpl; lia). simpl. by rewrite drop_nil, take_nil.
    - assert (Hne : rs ≠ []) by (intros E; by apply Hend0 in E).
      destruct (IH k ds1 (infos ++ [entry_info (tw_entry r)]) (tw_entry r) Hds1 Hok' Hobj (or_intror Hne)) as (ds' & -> & Hds').
      exists ds'. split; [|done]. rewrite fmap_cons, firstn_cons, fmap_cons, <- app_assoc, last_cons.
      rewrite (bool_decide_ext (length (r :: rs) ≤ S k)%nat (length rs ≤ k)%nat) by (simpl; lia). by destruct (last _). }
  cbn [list_loop]. rewrite Hre. unfold slashSeparator.
  fold (dir_info (tw_entry r)). destruct (HasSuffix (tw_entry r) "/") eqn:Hsl.
  - assert (dir_info (tw_entry r) = entry_info (tw_entry r)) as -> by (unfold entry_info; by rewrite Hsl).
    by apply Hadd.
  - destruct (getObjectInfo_ok (now_info env (tw_entry r)) ds (tw_entry r) Hds (Hr eq_refl)) as (ds1 & -> & Hds1).
    cbn [mbind go_bind default from_option]. assert (info_of (tw_entry r) = entry_info (tw_entry r)) as -> by (unfold entry_info; by rewrite Hsl).
    by apply Hadd.
Qed.

(** ** The walk of a listing *)

Context (fuel : nat) (fuel_pos : (0 < fuel)%nat).
Context (fuel_deep : ∀ o, o ∈ objects → (length (Split o "/") ≤ fuel)%nat).

(** The prefix leads to a directory. *)
Definition prefix_ok (prefix : string) : Prop := ∃ dir pm, prefix = dir +:+ pm ∧ obj_dir objects dir pm.

(** The marker is a key of the listing, or is not in the shadow of an object. *)
Definition marker_ok (recursive : bool) (prefix marker : string) : Prop :=
  marker = "" ∨ HasPrefix marker prefix = true ∧
    (marker ∈ keys objects recursive prefix ∨
     ∀ p, p ∈ keys objects recursive prefix → HasSuffix p "/" = false → ¬ shadows p marker).

(** The keys that a listing still has to show. *)
Definition rest (recursive : bool) (prefix marker : string) : list string :=
  filter (str_lt marker) (keys objects recursive prefix).

Lemma keys_sorted recursive prefix : StronglySorted str_lt (keys objects recursive prefix).
Proof.
  apply sort_NoDup. destruct recursive; [apply NoDup_filter, (on_nodup _ Hon)|apply NoDup_remove_dups].
Qed.

Lemma keys_object recursive prefix p : p ∈ keys objects recursive prefix → HasSuffix p "/" = false → p ∈ objects.
Proof.
  unfold keys. rewrite sort_Strings_perm. destruct recursive.
  { by intros [_ ?]%list_elem_of_filter. }
  rewrite elem_of_remove_dups, list_elem_of_fmap. intros (o & -> & [[r ->]%HasPrefix_iff Ho]%list_elem_of_filter).
  unfold rollup. rewrite TrimPrefix_app. destruct (mem_entry_cases r) as [[_ ->]|(m & r' & -> & _ & ->)]; [done|].
  intros Hs. by rewrite str_app_assoc, HasSuffix_app in Hs.
Qed.

Lemma start_walk_ok env ds prefix marker recursive : disks_ok ds → prefix_ok prefix → marker_ok recursive prefix marker →
  ∃ ds' rs, start_walk fuel env ds bucket prefix marker recursive = Ret (ds', rs) ∧ disks_ok ds' ∧
    tw_entry <$> rs = rest recursive prefix marker ∧ results_ok true rs.
Proof.
  intros Hds (dir & pm & -> & Hdir) Hmk. assert (Hd : dir_ok dir) by apply Hdir. assert (Hpm : no_slash pm) by apply Hdir.
  assert (Hl : zlen ds = Z.of_nat n) by (unfold zlen; f_equal; apply Hds). unfold start_walk. rewrite Hl.
  destruct (hashOrder_ret (now_walk env) (Z.of_nat n) n_pos) as (order & -> & Hp). cbn [mbind go_bind].
  set (ord := (λ i, Z.to_nat (i - 1)) <$> order). assert (Hord : ∀ i, i ∈ ord ↔ (i < n)%nat).
  { intros i. unfold ord. rewrite Hp, list_elem_of_fmap. split.
    - intros (z & -> & Hz%elem_of_seqZ). lia.
    - intros Hi. exists (Z.of_nat i + 1). split; [lia|]. apply elem_of_seqZ. lia. }
  assert (Hdeep : deep objects fuel dir) by (intros o Ho _; specialize (fuel_deep o Ho); lia).
  assert (Hkeys := walk_paths_keys objects Hon fuel recursive dir pm Hd Hpm fuel_pos Hdeep).
  assert (Hm : ∃ m, (marker = dir +:+ m ∨ (marker = "" ∧ m = "")) ∧
            fresh_marker (obj_ls objects) (obj_leaf objects) fuel recursive dir pm m).
  { destruct Hmk as [->|[[r ->]%HasPrefix_iff Hmk]].
    - exists "". split; [by right|]. right. intros p (r & Hr & ->)%walk_paths_prefix _ (c & r' & E & _);
        [|by apply obj_ls_ok]. rewrite <- str_app_assoc in E. apply str_app_inj_l in E. symmetry in E.
      by apply str_app_empty in E as [? _].
    - exists (pm +:+ r). rewrite str_app_assoc. split; [by left|]. unfold fresh_marker. by rewrite Hkeys, str_app_assoc. }
  destruct Hm as (m & Hm & Hfresh).
  destruct (startTreeWalk_ok (obj_ls objects) (obj_leaf objects) (obj_ls_ok objects Hon) disks_ok (obj_dir objects) _ _
    (listDirFactory_env _ _ (obj_ls_ok objects Hon) _ _ _ _ _ _
      (bucket_tree bucket objects Hon cls n n_pos some_up holds_infos holds_infos_same (λ d, @proj1 _ _) ord Hord (now_leaf env)))
    fuel dir pm m marker recursive ds Hds Hdir Hpm) as (ds' & rs & -> & Hds' & Hrs & Hok).
  - by apply obj_deep_enough.
  - done.
  - done.
  - exists ds', rs. unfold rest. by rewrite <- Hkeys.
Qed.

(** The results in the channels of the walks that are used again. *)
Definition chan_ok (chans : gmap nat (list treeWalkResult)) (ch : nat) (recursive : bool) (prefix marker : string) : Prop :=
  ∃ rs, chans !! ch = Some rs ∧ tw_entry <$> rs = rest recursive prefix marker ∧ results_ok true rs.

Definition chans_ok (t : treeWalkPool) (chans : gmap nat (list treeWalkResult)) : Prop :=
  ∀ p w, pooled t p w → lp_bucket p = bucket → lp_heal p = false →
    chan_ok chans (resultCh w) (lp_recursive p) (lp_prefix p) (lp_marker p).

(** The state between listings. *)
Record lister_ok (li : lister D) : Prop := {
  lo_disks : disks_ok (li_disks li);
  lo_pool : pool_inv (PoolSys (li_pool li) [] (li_next li));
  lo_chans : chans_ok (li_pool li) (li_chans li);
}.

Lemma chan_ok_insert chans ch ch' rs recursive prefix marker :
  ch ≠ ch' → chan_ok chans ch' recursive prefix marker → chan_ok (<[ch := rs]> chans) ch' recursive prefix marker.
Proof. intros Hne (rs' & Hl & Hrest). exists rs'. by rewrite lookup_insert_ne. Qed.

Lemma get_walk_ok env li prefix marker recursive :
  lister_ok li → prefix_ok prefix → marker_ok recursive prefix marker →
  ∃ li' ch, get_walk fuel env li bucket prefix marker recursive = Ret (li', (ch, ch)) ∧ disks_ok (li_disks li') ∧
    pool_inv (PoolSys (li_pool li') [(ch, ch)] (li_next li')) ∧ chans_ok (li_pool li') (li_chans li') ∧
    chan_ok (li_chans li') ch recursive prefix marker.
Proof.
  intros [Hds Hinv Hch] Hpre Hmk. unfold get_walk. set (params := ListParams bucket recursive marker prefix false).
  assert (Hwok := pi_walks _ Hinv). simpl in Hwok.
  destruct (Release_total _ params Hinv) as (p & r & Hr). simpl in Hr. rewrite Hr. cbn [mbind go_bind]. destruct r as [u|].
  - destruct (Release_Some _ _ _ _ Hwok Hr) as (w & ws & Hp & -> & _ & _ & _ & _ & _ & _ & Hpool).
    assert (Hw : pooled (li_pool li) params w) by (unfold pooled; rewrite Hp; by left).
    destruct (pi_pooled _ Hinv _ _ Hw) as (Hwe & [Hpos _] & _). apply (inv_release _ _ _ _ _ _ Hr) in Hinv.
    destruct (resultCh w) as [|ch] eqn:Hrc; [lia|].
    eexists _, (S ch). rewrite <- Hwe in Hinv |- *. split_and!; [done|done|done| |by rewrite <- Hrc; apply (Hch params w)].
    intros q x [Hx _]%Hpool. by apply Hch.
  - destruct (Release_None _ _ _ Hwok Hr) as [-> _].
    destruct (start_walk_ok env (li_disks li) prefix marker recursive Hds Hpre Hmk) as (ds' & rs & -> & Hds' & Hrs & Hok).
    cbn [mbind go_bind]. eexists _, (li_next li). split_and!; [done|done|by apply inv_start| |].
    + intros q x Hx Hb Hh. simpl. apply chan_ok_insert; [|by apply Hch].
      destruct (pi_pooled _ Hinv _ _ Hx) as (_ & Hlt & _). simpl in Hlt. lia.
    + exists rs. simpl. by rewrite lookup_insert_eq.
Qed.

(** ** A page *)

Lemma rest_next recursive prefix marker P x R :
  rest recursive prefix marker = P ++ x :: R → rest recursive prefix x = R.
Proof.
  clear -Hon.
  intros E. assert (Hs := keys_sorted recursive prefix). assert (Hx : str_lt marker x).
  { assert (Hin : x ∈ rest recursive prefix marker) by (rewrite E; apply elem_of_app; right; left).
    by apply list_elem_of_filter in Hin as [? _]. }
  assert (rest recursive prefix x = filter (str_lt x) (rest recursive prefix marker)) as ->.
  { unfold rest. rewrite list_filter_filter. apply filter_iff_in. intros y _. split; [|tauto]. intros Hy. split; [done|].
    eapply str_le_lt_trans; [|done]. by apply str_lt_le. }
  assert (HsR : StronglySorted str_lt (P ++ x :: R)) by (rewrite <- E; by apply sorted_filter).
  rewrite E, filter_app, (filter_nothing _ P).
  - rewrite filter_cons, decide_False by (intros Hxx; by apply str_lt_ne in Hxx). rewrite filter_all; [done|].
    apply StronglySorted_app_1_r, StronglySorted_inv in HsR as [_ HR]. by apply Forall_forall.
  - apply Forall_forall. intros y Hy Hxy. apply Hxy, str_lt_le.
    eapply (StronglySorted_app_1_elem_of str_lt P (x :: R)); [done|done|left].
Qed.

Lemma results_ok_drop k rs : results_ok true rs → results_ok true (drop k rs).
Proof.
  clear.
  intros [He Hend]. split; [by apply Forall_drop|]. intros i r Hr. rewrite lookup_drop in Hr.
  rewrite (Hend _ _ Hr), length_drop. apply lookup_lt_Some in Hr. split; intros [_ ?]; split; done || lia.
Qed.

Lemma fill_result_ok : ∀ ps (result : ListObjectsInfo),
  fill_result result (entry_info <$> ps) =
  {| IsTruncated := IsTruncated result; NextMarker := default (NextMarker result) (last ps);
     Objects := Objects result ++ (info_of <$> filter (λ p, HasSuffix p "/" = false) ps);
     Prefixes := Prefixes result ++ filter (λ p, HasSuffix p "/" = true) ps |}.
Proof.
  induction ps as [|p ps IH]; intros [tr nm os prs]; [simpl; by rewrite !app_nil_r|].
  rewrite fmap_cons, last_cons, !filter_cons. cbn [fill_result]. rewrite IH. unfold entry_info.
  destruct (HasSuffix p "/"); simpl; f_equal; try by destruct (last ps).
  - by rewrite <- app_assoc.
  - by rewrite <- app_assoc.
Qed.

Lemma listObjects_ok env li prefix marker delimiter k :
  let recursive := negb (bool_decide (delimiter = "/")) in
  lister_ok li → prefix_ok prefix → marker_ok recursive prefix marker → (0 < k)%nat →
  let todo := rest recursive prefix marker in
  ∃ li', listObjects fuel env li bucket prefix marker delimiter k =
    Ret (li', ({| IsTruncated := bool_decide (k < length todo)%nat; NextMarker := default "" (last (take k todo));
                  Objects := info_of <$> filter (λ p, HasSuffix p "/" = false) (take k todo);
                  Prefixes := filter (λ p, HasSuffix p "/" = true) (take k todo) |}, None)) ∧ lister_ok li'.
Proof.
  intros recursive Hli Hpre Hmk Hk todo. unfold listObjects. fold slashSeparator. fold recursive.
  destruct (get_walk_ok env li prefix marker recursive Hli Hpre Hmk)
    as (li1 & ch & Hg & Hds & Hinv & Hch & (rs & Hl & Hrs & Hok)). unfold slashSeparator. fold recursive. rewrite Hg.
  cbn [mbind go_bind]. rewrite Hl. change (default [] (Some rs)) with rs.
  destruct (list_loop_ok env prefix rs k (li_disks li1) [] "" Hds Hok) as (ds' & -> & Hds'); [|by left|].
  { rewrite Hrs. apply Forall_forall. intros p [_ Hp]%list_elem_of_filter. by eapply keys_object. }
  cbn [mbind go_bind]. rewrite Hrs. fold todo. rewrite app_nil_l, fill_result_ok, !app_nil_l.
  assert (Hlen : length rs = length todo) by (unfold todo; rewrite <- Hrs; by rewrite length_fmap).
  assert (Hother : ∀ q x, pooled (li_pool li1) q x → lp_bucket q = bucket → lp_heal q = false →
    chan_ok (<[ch := drop k rs]> (li_chans li1)) (resultCh x) (lp_recursive q) (lp_prefix q) (lp_marker q)).
  { intros q x Hx Hb Hh. apply chan_ok_insert; [|by apply Hch]. intros ->.
    destruct (pi_pooled _ Hinv _ _ Hx) as (E & _ & Hu). apply Hu. simpl. rewrite <- E. left. }
  rewrite Hlen. assert (Htr : negb (bool_decide (length todo ≤ k)%nat) = bool_decide (k < length todo)%nat).
  { rewrite <- bool_decide_not. apply bool_decide_ext. lia. }
  simpl. rewrite Htr. eexists. split; [done|]. case_bool_decide as Heof; split; simpl; try done.
  - by apply (inv_done _ (ch, ch) [] []).
  - by apply (inv_set _ _ (ch, ch) [] []).
  - intros q x [Hx|[-> ->]]%pooled_Set Hb Hh; [by apply Hother|]. simpl. exists (drop k rs).
    rewrite lookup_insert_eq, fmap_drop, Hrs. fold todo. split_and!; [done| |by apply results_ok_drop].
    destruct (last (take k todo)) as [x|] eqn:Ex.
    + simpl. apply last_Some in Ex as [P E]. symmetry. apply (rest_next recursive prefix marker P).
      fold todo. rewrite <- (take_drop k todo) at 1. rewrite E, <- app_assoc. done.
    + apply last_None in Ex. exfalso. assert (Hz : length (take k todo) = 0%nat) by (by rewrite Ex).
      rewrite length_take in Hz. lia.
Qed.

(** The number of keys of a page. *)
Definition page_size (maxKeys : Z) : nat :=
  Z.to_nat (if (maxKeys <? 0) || (maxObjectList <? maxKeys) then maxObjectList else maxKeys).

Lemma prefix_not_slash : ¬ prefix_ok "/".
Proof.
  intros (dir & pm & E & [->|(s & Hs & ->)] & Hpm & _).
  - change ("" +:+ pm) with pm in E. subst pm. by apply slash_has_slash in Hpm.
  - apply clean_path_ne in Hs. destruct s as [|c s]; [done|]. injection E as _ E. symmetry in E.
    apply str_app_empty in E as [[_ ?]%str_app_empty _]. done.
Qed.

Lemma ListObjects_ok env li prefix marker delimiter maxKeys :
  let recursive := negb (bool_decide (delimiter = "/")) in
  let todo := rest recursive prefix marker in
  let page := take (page_size maxKeys) todo in
  lister_ok li → prefix_ok prefix → IsValidObjectPrefix prefix = true → delimiter = "" ∨ delimiter = "/" →
  marker_ok recursive prefix marker → maxKeys ≠ 0 →
  ∃ li', ListObjects fuel env li bucket prefix marker delimiter maxKeys =
    Ret (li', ({| IsTruncated := bool_decide (page_size maxKeys < length todo)%nat;
                  NextMarker := default "" (last page);
                  Objects := info_of <$> filter (λ p, HasSuffix p "/" = false) page;
                  Prefixes := filter (λ p, HasSuffix p "/" = true) page |}, None)) ∧ lister_ok li'.
Proof.
  intros recursive todo page [Hds Hinv Hch] Hpre Hvalid Hdel Hmk Hmax. unfold ListObjects.
  destruct (GetBucketInfo_ok bucket bucket_valid (now_check env) (li_disks li) n cls (λ _, holds_infos) Hds)
    as (ds1 & info & -> & Hds1); [intros i d d'; apply holds_infos_same|intros i d Hd; apply Hd|done|done|].
  cbn [mbind go_bind]. unfold checkListObjsArgs, checkBucketExist. rewrite bucket_valid, Hvalid. cbn [negb].
  assert (negb (bool_decide (delimiter = "")) && negb (bool_decide (delimiter = slashSeparator)) = false) as ->.
  { by destruct Hdel as [->| ->]. }
  assert (negb (bool_decide (marker = "")) && negb (HasPrefix marker prefix) = false) as ->.
  { destruct Hmk as [->|[-> _]]; [done|apply andb_false_r]. }
  rewrite (proj2 (Z.eqb_neq maxKeys 0)) by done.
  rewrite (bool_decide_false (prefix = slashSeparator)), andb_false_r by (intros ->; by apply prefix_not_slash).
  destruct (listObjects_ok env (Lister ds1 (li_pool li) (li_chans li) (li_next li)) prefix marker delimiter
    (page_size maxKeys)) as (li' & Hl & Hli'); [done|done|done| |].
  { unfold page_size, maxObjectList. destruct (_ || _) eqn:E; bool_prop; lia. }
  unfold page_size in Hl at 1. rewrite Hl. by exists li'.
Qed.


(** ** All pages *)

(** A client that asks for pages until the listing is complete. *)
Fixpoint list_pages (pages : nat) (env : nat → list_env) (li : lister D) (prefix marker : string) (maxKeys : Z)
    : go (list ObjectInfo) :=
  match pages with
  | O => Diverge
  | S pages' =>
      '(li, (r, err)) ← ListObjects fuel (env 0%nat) li bucket prefix marker "" maxKeys;
      match err with
      | Some _ => Panic
      | None =>
          if IsTruncated r then
            more ← list_pages pages' (λ i, env (S i)) li prefix (NextMarker r) maxKeys;
            mret (Objects r ++ more)
          else mret (Objects r)
      end
  end.

Lemma keys_recursive_objects prefix : Forall (λ p, HasSuffix p "/" = false) (keys objects true prefix).
Proof.
  apply Forall_forall. intros p. unfold keys. rewrite sort_Strings_perm. intros [_ Hp]%list_elem_of_filter.
  by apply clean_no_slash, (obj_clean objects Hon).
Qed.

Lemma keys_prefix prefix p : p ∈ keys objects true prefix → HasPrefix p prefix = true.
Proof. unfold keys. rewrite sort_Strings_perm. by intros [? _]%list_elem_of_filter. Qed.

Lemma list_pages_ok prefix maxKeys : prefix_ok prefix → IsValidObjectPrefix prefix = true → maxKeys ≠ 0 →
  ∀ pages env li marker, lister_ok li → marker_ok true prefix marker → (length (rest true prefix marker) < pages)%nat →
  list_pages pages env li prefix marker maxKeys = Ret (info_of <$> rest true prefix marker).
Proof.
  intros Hpre Hvalid Hmax. assert (Hps : (0 < page_size maxKeys)%nat).
  { unfold page_size, maxObjectList. destruct (_ || _) eqn:E; bool_prop; lia. }
  induction pages as [|pages IH]; intros env li marker Hli Hmk Hlen; [lia|]. cbn [list_pages].
  destruct (ListObjects_ok (env 0%nat) li prefix marker "" maxKeys Hli Hpre Hvalid (or_introl eq_refl) Hmk Hmax)
    as (li' & -> & Hli'). change (negb (bool_decide ("" = "/"))) with true. cbn [mbind go_bind IsTruncated NextMarker Objects].
  set (todo := rest true prefix marker) in *. set (k := page_size maxKeys) in *.
  rewrite filter_all.
  2: { intros p Hp. assert (Hin : p ∈ keys objects true prefix).
       { assert (Ht : p ∈ todo) by (rewrite <- (take_drop k todo); apply elem_of_app; by left).
         by apply list_elem_of_filter in Ht as [_ ?]. }
       assert (Hall := keys_recursive_objects prefix). rewrite Forall_forall in Hall. by apply Hall. }
  case_bool_decide as Hk; [|by rewrite take_ge by lia].
  destruct (last (take k todo)) as [x|] eqn:Ex.
  2: { apply last_None in Ex. assert (Hz : length (take k todo) = 0%nat) by (by rewrite Ex). rewrite length_take in Hz. lia. }
  apply last_Some in Ex as [P E]. assert (Htodo : todo = P ++ x :: drop k todo).
  { rewrite <- (take_drop k todo) at 1. rewrite E, <- app_assoc. done. }
  assert (Hnext := rest_next _ _ _ _ _ _ Htodo). cbn [default from_option id]. rewrite IH.
  - cbn [mbind go_bind]. rewrite Hnext. unfold mret, go_ret. by rewrite <- fmap_app, take_drop.
  - done.
  - assert (Hx : x ∈ keys objects true prefix).
    { assert (Ht : x ∈ todo) by (rewrite Htodo; apply elem_of_app; right; left). by apply list_elem_of_filter in Ht as [_ ?]. }
    right. split; [by apply keys_prefix|by left].
  - rewrite Hnext, length_drop. fold todo in Hlen. lia.
Qed.

(** C13.  Paging through a bucket.  A client that follows [NextMarker] until a
    page is not truncated gets every object with the prefix exactly once, in
    order, for every page size, after at most one request per object and one
    more.  Some disks are up and each of them holds all objects of the bucket; the
    others are unreachable or missing. *)
Theorem ListObjects_complete env li prefix maxKeys :
  lister_ok li → prefix_ok prefix → IsValidObjectPrefix prefix = true → maxKeys ≠ 0 →
  list_pages (S (length objects)) env li prefix "" maxKeys =
    Ret (info_of <$> sort_Strings (filter (λ o, HasPrefix o prefix = true) objects)).
Proof.
  intros Hli Hpre Hvalid Hmax. rewrite list_pages_ok; [|done|done|done|done|by left|].
  - f_equal. f_equal. unfold rest. apply filter_all. intros p Hp.
    apply (str_lt_append "" p). intros ->. assert (Hc : "" ∈ objects).
    { apply (keys_object true prefix); [exact Hp|done]. }
    by apply (obj_clean objects Hon), clean_path_ne in Hc.
  - apply Nat.lt_succ_r. unfold rest. etrans; [apply length_filter|]. unfold keys. rewrite sort_Strings_perm.
    apply length_filter.
Qed.

End Correct.

(** ** Witnesses *)

(** Two disks, one of them unreachable, with the objects a, d/b and d/c. *)
Definition demo_objects : list string := ["d/c"; "a"; "d/b"].

Definition demo_meta : xlMetaV1 := set_meta xlMetaV1_zero {["md5Sum" := "digest"]}.

Definition demo_files : gmap (string * string) bytes :=
  let b := match json_Marshal demo_meta with inl b => b | inr _ => [] end in
  <[("bucket", "a/xl.json") := b]> (<[("bucket", "d/b/xl.json") := b]> (<[("bucket", "d/b/part.1") := []]>
  (<[("bucket", "d/c/xl.json") := b]> ∅))).

Definition demo_disk : MemDisk := {| mem_files := demo_files; mem_vols := {["bucket"]}; mem_offline := false |}.
Definition demo_down : MemDisk := {| mem_files := ∅; mem_vols := ∅; mem_offline := true |}.

Definition demo_lister : lister MemDisk := Lister [Some demo_disk; Some demo_down] newTreeWalkPool ∅ 1.

Definition demo_cls (i : nat) : disk_state := match i with O => DiskUp | _ => DiskDown end.

Definition demo_env : list_env :=
  {| now_check := "t0"; now_walk := "t1"; now_leaf p := "t2" +:+ p; now_info p := "t3" +:+ p |}.

Lemma demo_names : object_names demo_objects.
Proof.
  split; [by apply (bool_decide_unpack _); vm_compute|by apply (bool_decide_unpack _); vm_compute|].
  intros a b r Ha Hb. unfold demo_objects in Ha, Hb. rewrite !elem_of_cons, elem_of_nil in Ha, Hb.
  destruct_or!; subst; try done; intros [=].
Qed.

Lemma demo_disk_files p : is_Some (mem_files demo_disk !! ("bucket", p)) →
  p ∈ ["a/xl.json"; "d/b/xl.json"; "d/b/part.1"; "d/c/xl.json"].
Proof.
  intros [c Hc]. unfold demo_disk, demo_files in Hc. simpl in Hc.
  repeat (apply lookup_insert_Some in Hc as [[[= <-] _]|[_ Hc]]; [by apply (bool_decide_unpack _); vm_compute|]).
  by rewrite lookup_empty in Hc.
Qed.

Lemma demo_disk_up : up demo_disk.
Proof.
  split; [done|]. intros v p [c Hc]. assert (v = "bucket") as ->.
  { unfold demo_disk, demo_files in Hc. simpl in Hc.
    repeat (apply lookup_insert_Some in Hc as [[[= <- _] _]|[_ Hc]]; [done|]). by rewrite lookup_empty in Hc. }
  assert (Hin := demo_disk_files p (mk_is_Some _ _ Hc)). clear Hc. rewrite !elem_of_cons, elem_of_nil in Hin.
  destruct Hin as [->|[->|[->|[->|[]]]]]; by apply (bool_decide_unpack _); vm_compute.
Qed.

Lemma demo_disk_holds : holds_infos "bucket" demo_objects (λ _, Stat demo_meta) (λ _, Meta demo_meta) demo_disk.
Proof.
  split; [split|].
  - change ("bucket" ∈ mem_vols demo_disk). by apply (bool_decide_unpack _); vm_compute.
  - intros o Ho. unfold demo_objects in Ho. rewrite !elem_of_cons, elem_of_nil in Ho.
    destruct Ho as [->|[->|[->|[]]]]; by eexists.
  - intros p Hp. apply demo_disk_files in Hp. rewrite !elem_of_cons, elem_of_nil in Hp. destruct Hp as [->|[->|[->|[->|[]]]]].
    + exists "a", "xl.json". split; [by right; left|done].
    + exists "d/b", "xl.json". split; [by right; right; left|done].
    + exists "d/b", "part.1". split; [by right; right; left|done].
    + exists "d/c", "xl.json". split; [by left|done].
  - intros o Ho. exists demo_meta. unfold demo_objects in Ho. rewrite !elem_of_cons, elem_of_nil in Ho.
    destruct Ho as [->|[->|[->|[]]]]; by eexists.
Qed.

Lemma demo_lister_ok : lister_ok demo_cls 2 "bucket" demo_objects (λ _, Stat demo_meta) (λ _, Meta demo_meta) demo_lister.
Proof.
  split.
  - split; [done|]. intros [|[|i]] x Hx; simplify_eq/=; [|done]. split; [apply demo_disk_up|apply demo_disk_holds].
  - apply pool_init_inv.
  - intros p w Hw. exfalso. revert Hw. unfold pooled. simpl. rewrite lookup_empty. apply not_elem_of_nil.
Qed.

Lemma ListObjects_complete_witness :
  list_pages "bucket" 2 4 (λ _, demo_env) demo_lister "" "" 2 =
    Ret (info_of "bucket" (λ _, Stat demo_meta) (λ _, Meta demo_meta) <$> ["a"; "d/b"; "d/c"]).
Proof.
  apply (ListObjects_complete demo_cls 2 ltac:(lia) ltac:(by exists 0%nat; split; [lia|]) "bucket" eq_refl demo_objects
    demo_names (λ _, Stat demo_meta) (λ _, Meta demo_meta) 2 ltac:(lia)).
  - intros o Ho. unfold demo_objects in Ho. rewrite !elem_of_cons, elem_of_nil in Ho.
    destruct Ho as [->|[->|[->|[]]]]; apply Nat.leb_le; by vm_compute.
  - apply demo_lister_ok.
  - exists "", "". split; [done|]. split_and!; [by left|apply no_slash_nil|by left].
  - by vm_compute.
  - done.
Defined.


(** ** Defects *)

(** A marker between an object and the name of its directory: the search of
    [doTreeWalk] compares the marker with "a/", the leaf check removes the slash
    afterwards, and the object in front of the marker is listed again. *)
Theorem ListObjects_marker_repeats :
  ∃ li' r, ListObjects 2 demo_env demo_lister "bucket" "" "a-x" "" 5 = Ret (li', (r, None)) ∧
    Name <$> Objects r = ["a"; "d/b"; "d/c"] ∧ str_lt "a" "a-x".
Proof. eexists _, _. split_and!; [by vm_compute|done|by apply (bool_decide_unpack _); vm_compute]. Qed.

(** A prefix without objects: the disk that is up says errFileNotFound, which is
    an empty listing, but the error of the last disk is returned, which is the
    one that can not be reached. *)
Theorem ListObjects_missing_prefix :
  ∃ li', ListObjects 2 demo_env demo_lister "bucket" "x/" "" "" 5 =
    Ret (li', (ListObjectsInfo_zero, traceError (Some (errDiskNotFound : error)) [])).
Proof. eexists. by vm_compute. Qed.
