(* ===== verification/XLHeal.v ===== *)
(** * Healing of buckets and objects

    src/cmd/xl-v1-healing.go: [healBucket], [healObject], [quickHeal] and the
    operations around them.  The slices [latestDisks] and [outDatedDisks] hold
    disks of the storage slice: a slot is in at most one of them, so the disks
    are put back in their places at the end ([heal_back]). *)

From S2P Require Import Prelude.
From S2P Require Import GoErrors.
From S2P Require Import GoStrings.
From S2P Require Import Quorum.
From S2P Require Import Distribution.
From S2P Require Import XLMeta.
From S2P Require Import Storage.
From S2P Require Import Erasure.
From S2P Require Import ErasureSpec.
From S2P Require Import ErasureWrite.
From S2P Require Import ErasureHeal.
From S2P Require Import Healing.
From S2P Require Import ObjectNames.
From S2P Require Import DiskContract.
From S2P Require Import XLDisk.
From S2P Require Import XLCommon.
From S2P Require Import XLBucket.
From S2P Require Import XLObject.
From S2P Require Import XLPut.

Local Open Scope Z_scope.

Definition bucketConfigPrefix : string := "buckets".
Definition bucketPolicyConfig : string := "policy.json".
Definition bucketNotificationConfig : string := "notification.xml".
Definition bucketListenerConfig : string := "listener.json".

(** What [healObject] takes from the clock ([xlShouldHeal], [listOnlineDisks],
    [outDatedDisks]) and from [mustGetUUID]. *)
Record heal_env := {
  he_should : time;
  he_online : time;
  he_outdated : time;
  he_tmpID : string;
}.

Section Heal.
Context `{MapOrder} `{GJson, MetaJson, Hashes, ReedSolomon}.
Context {D : Type} `{!StorageAPI D}.
Context (bitRotAlgo : string).

(** ** Buckets *)

(** The goroutine of [healBucket]. *)
Definition heal_vol (bucket : string) (disk : D) : D * option error :=
  let '(disk, (_, err)) := StatVol disk bucket in
  match err with
  | None => (disk, None)
  | Some e =>
      if negb (err_eqb err (Some (errVolumeNotFound : error))) then (disk, traceError (Some e) [])
      else let '(disk, err) := MakeVol disk bucket in (disk, traceError err [])
  end.

Fixpoint heal_vols (disks : list (option D)) (bucket : string) : list (option D) * list (option error) :=
  match disks with
  | [] => ([], [])
  | disk :: disks' =>
      let '(disk, dErr) :=
        match disk with
        | None => (None, traceError (Some (errDiskNotFound : error)) [])
        | Some d => let '(d, err) := heal_vol bucket d in (Some d, err)
        end in
      let '(disks', dErrs) := heal_vols disks' bucket in
      (disk :: disks', dErr :: dErrs)
  end.

Definition healBucket (disks : list (option D)) (bucket : string) (writeQuorum : nat)
    : list (option D) * option error :=
  let '(disks, dErrs) := heal_vols disks bucket in
  if negb (isDiskQuorum dErrs writeQuorum)
  then (undoMakeBucket disks bucket, toObjectErr (traceError (Some (errXLWriteQuorum : error)) []) [bucket])
  else
    match reduceWriteQuorumErrs dErrs bucketOpIgnoredErrs writeQuorum with
    | Some reducedErr => (disks, toObjectErr (Some reducedErr) [bucket])
    | None => (disks, None)
    end.

(** The names are a map in the code; here a list without duplicates. *)
Definition bucket_names (volsInfo : list VolInfo) (names : list string) : list string :=
  foldl (λ acc v, if negb (IsValidBucketName (VolName v)) then acc
                  else if isMinioMetaBucketName (VolName v) then acc
                  else if bool_decide (VolName v ∈ acc) then acc else acc ++ [VolName v]) names volsInfo.

(** [err] is the error of the last disk that was asked. *)
Fixpoint listBucketNames (disks : list (option D)) (names : list string) (err : option error)
    : list (option D) * (list string * option error) :=
  match disks with
  | [] => ([], (names, err))
  | None :: disks' => let '(disks', r) := listBucketNames disks' names err in (None :: disks', r)
  | Some disk :: disks' =>
      let '(disk, (volsInfo, err)) := ListVols disk in
      match err with
      | None => let '(disks', r) := listBucketNames disks' (bucket_names volsInfo names) None in (Some disk :: disks', r)
      | Some _ =>
          if isErrIgnored err bucketMetadataOpIgnoredErrs
          then let '(disks', r) := listBucketNames disks' names err in (Some disk :: disks', r)
          else (Some disk :: disks', (names, err))
      end
  end.

(** ** Objects *)

(** The files of an outdated version are deleted one by one. *)
Fixpoint delete_files (disk : D) (bucket : string) (paths : list string) : D * option error :=
  match paths with
  | [] => (disk, None)
  | p :: paths' =>
      let '(disk, err) := DeleteFile disk bucket p in
      match err with
      | Some e => (disk, traceError (Some e) [])
      | None => delete_files disk bucket paths'
      end
  end.

Definition version_paths (object : string) (outDatedMeta : xlMetaV1) : list string :=
  ((λ p, pathJoin [object; PartName p]) <$> Parts outDatedMeta) ++ [pathJoin [object; xlMetaJSONFile]].

(** The loop that deletes the outdated versions. *)
Fixpoint purge_outdated (outDatedDisks : list (option D)) (bucket object : string)
    (errs : list (option error)) (partsMetadata : list xlMetaV1) : go (list (option D) * option error) :=
  match outDatedDisks with
  | [] => Ret ([], None)
  | None :: ds =>
      '(ds, err) ← purge_outdated ds bucket object (tail errs) (tail partsMetadata);
      mret (None :: ds, err)
  | Some disk :: ds =>
      match errs, partsMetadata with
      | err :: errs', outDatedMeta :: metas' =>
          let '(disk, err) :=
            match err with
            | Some _ => (disk, None)
            | None => delete_files disk bucket (version_paths object outDatedMeta)
            end in
          match err with
          | Some e => mret (Some disk :: ds, Some e)
          | None =>
              '(ds, err) ← purge_outdated ds bucket object errs' metas';
              mret (Some disk :: ds, err)
          end
      | _, _ => Panic
      end
  end.

(** The checksums of a healed part are appended for the outdated disks. *)
Definition append_sums (outDatedDisks : list (option D)) (name algo : string) (checkSums : list string)
    (checkSumInfos : list (list checkSumInfo)) : list (list checkSumInfo) :=
  imap (λ index infos,
    match outDatedDisks !! index, checkSums !! index with
    | Some (Some _), Some sum => infos ++ [CheckSumInfo name algo sum]
    | _, _ => infos
    end) checkSumInfos.

(** The loop over the parts. *)
Fixpoint heal_parts (fuel : nat) (latestDisks outDatedDisks : list (option D)) (bucket object tmpID : string)
    (latestMeta : xlMetaV1) (parts : list objectPartInfo) (checkSumInfos : list (list checkSumInfo))
    : go (list (option D) * list (option D) * (list (list checkSumInfo) * option error)) :=
  match parts with
  | [] => Ret (latestDisks, outDatedDisks, (checkSumInfos, None))
  | part :: parts' =>
      let partName := PartName part in
      let erasure := Erasure latestMeta in
      let sumInfo := GetCheckSumInfo bitRotAlgo erasure partName in
      '(latestDisks, outDatedDisks, (checkSums, err)) ←
        erasureHealFile bitRotAlgo fuel latestDisks outDatedDisks bucket (pathJoin [object; partName])
          minioMetaTmpBucket (pathJoin [tmpID; partName]) (PartSize part) (BlockSize erasure)
          (Z.to_nat (DataBlocks erasure)) (Z.to_nat (ParityBlocks erasure)) (CkAlgorithm sumInfo);
      match err with
      | Some e => mret (latestDisks, outDatedDisks, (checkSumInfos, Some e))
      | None =>
          heal_parts fuel latestDisks outDatedDisks bucket object tmpID latestMeta parts'
            (append_sums outDatedDisks partName (CkAlgorithm sumInfo) checkSums checkSumInfos)
      end
  end.

Definition set_checksums (m : xlMetaV1) (cks : list checkSumInfo) : xlMetaV1 :=
  let e := Erasure m in
  set_erasure m (ErasureInfo (Algorithm e) (DataBlocks e) (ParityBlocks e) (BlockSize e) (Index e)
                   (Distribution e) cks).

(** The metadata of the outdated disks. *)
Definition healed_metas (latestMeta : xlMetaV1) (outDatedDisks : list (option D))
    (checkSumInfos : list (list checkSumInfo)) (partsMetadata : list xlMetaV1) : list xlMetaV1 :=
  imap (λ index meta,
    match outDatedDisks !! index with
    | Some (Some _) => set_checksums latestMeta (default [] (checkSumInfos !! index))
    | _ => meta
    end) partsMetadata.

(** The loop that renames the healed versions. *)
Fixpoint commit_healed (outDatedDisks : list (option D)) (bucket object tmpID : string)
    : list (option D) * option error :=
  match outDatedDisks with
  | [] => ([], None)
  | None :: ds => let '(ds, err) := commit_healed ds bucket object tmpID in (None :: ds, err)
  | Some disk :: ds =>
      let '(disk, err) := DeleteFile disk bucket (retainSlash object) in
      if negb (err_eqb err None) && negb (err_eqb err (Some (errFileNotFound : error)))
      then (Some disk :: ds, traceError err [])
      else
        let '(disk, err) := RenameFile disk minioMetaTmpBucket (retainSlash tmpID) bucket (retainSlash object) in
        match err with
        | Some e => (Some disk :: ds, traceError (Some e) [])
        | None => let '(ds, err) := commit_healed ds bucket object tmpID in (Some disk :: ds, err)
        end
  end.

(** The disks in their places: [latest] and [out] are in the order of the blocks. *)
Definition heal_back (dist : list Z) (disks latest out : list (option D)) : go (list (option D)) :=
  latest ← gather dist latest;
  out ← gather dist out;
  mret (merge_disks out (merge_disks latest disks)).

(** [healObject] once the latest metadata is known. *)
Definition heal_disks (fuel : nat) (env : heal_env) (disks latest out : list (option D)) (bucket object : string)
    (partsMetadata : list xlMetaV1) (errs : list (option error)) (latestMeta : xlMetaV1)
    : go (list (option D) * option error) :=
  '(out, err) ← purge_outdated out bucket object errs partsMetadata;
  match err with
  | Some e => mret (merge_disks out disks, Some e)
  | None =>
      let dist := Distribution (Erasure latestMeta) in
      latest ← getOrderedDisks dist latest;
      out ← getOrderedDisks dist out;
      partsMetadata ← getOrderedPartsMetadata xlMetaV1_zero dist partsMetadata;
      '(latest, out, (checkSumInfos, err)) ←
        heal_parts fuel latest out bucket object (he_tmpID env) latestMeta (Parts latestMeta)
          (replicate (length out) []);
      match err with
      | Some e => disks ← heal_back dist disks latest out; mret (disks, Some e)
      | None =>
          let partsMetadata := healed_metas latestMeta out checkSumInfos partsMetadata in
          '(out, _, err) ←
            writeUniqueXLMetadata out minioMetaTmpBucket (he_tmpID env) partsMetadata (diskCount out);
          match err with
          | Some e =>
              disks ← heal_back dist disks latest out;
              mret (disks, toObjectErr (Some e) [bucket; object])
          | None =>
              let '(out, err) := commit_healed out bucket object (he_tmpID env) in
              disks ← heal_back dist disks latest out;
              mret (disks, err)
          end
      end
  end.

Definition healObject (fuel : nat) (env : heal_env) (storageDisks : list (option D)) (bucket object : string)
    (quorum : nat) : go (list (option D) * option error) :=
  let '(disks, (partsMetadata, errs)) := readAllXLMetadata storageDisks bucket object in
  match reduceReadQuorumErrs errs [] quorum with
  | Some reducedErr => Ret (disks, toObjectErr (Some reducedErr) [bucket; object])
  | None =>
      should ← xlShouldHeal (he_should env) partsMetadata errs;
      if negb (should : bool) then mret (disks, None)
      else
        '(latest, modTime) ← listOnlineDisks (he_online env) disks partsMetadata errs;
        out ← outDatedDisks (he_outdated env) disks partsMetadata errs;
        let '(latestMeta, pErr) := pickValidXLMeta partsMetadata modTime in
        match pErr with
        | Some e => mret (disks, Some e)
        | None => heal_disks fuel env disks latest out bucket object partsMetadata errs latestMeta
        end
  end.

Definition HealObject (fuel : nat) (env : heal_env) (xl : xlObjects D) (bucket object : string)
    : go (xlObjects D * option error) :=
  match checkGetObjArgs bucket object with
  | Some err => Ret (xl, Some err)
  | None =>
      '(disks, err) ← healObject fuel env (storageDisks xl) bucket object (readQuorum xl);
      mret (set_disks xl disks, err)
  end.

(** ** Metadata of buckets *)

(** [healBucketMetaFn]. *)
Definition heal_bucket_file (fuel : nat) (env : heal_env) (disks : list (option D)) (metaPath : string)
    (readQuorum : nat) : go (list (option D) * option error) :=
  '(disks, err) ← healObject fuel env disks minioMetaBucket metaPath readQuorum;
  match err with
  | Some e => if negb (isErrObjectNotFound (Some e)) then mret (disks, Some e) else mret (disks, None)
  | None => mret (disks, None)
  end.

(** [env i] is the environment of the [i]-th file. *)
Definition healBucketMetadata (fuel : nat) (env : nat → heal_env) (disks : list (option D)) (bucket : string)
    (readQuorum : nat) : go (list (option D) * option error) :=
  '(disks, err) ←
    heal_bucket_file fuel (env 0%nat) disks (pathJoin [bucketConfigPrefix; bucket; bucketPolicyConfig]) readQuorum;
  match err with
  | Some e => mret (disks, Some e)
  | None =>
      '(disks, err) ←
        heal_bucket_file fuel (env 1%nat) disks (path_Join [bucketConfigPrefix; bucket; bucketNotificationConfig])
          readQuorum;
      match err with
      | Some e => mret (disks, Some e)
      | None =>
          heal_bucket_file fuel (env 2%nat) disks (path_Join [bucketConfigPrefix; bucket; bucketListenerConfig])
            readQuorum
      end
  end.

Definition HealBucket (fuel : nat) (now : string) (env : nat → heal_env) (xl : xlObjects D) (bucket : string)
    : go (xlObjects D * option error) :=
  '(disks, (_, bErr)) ← GetBucketInfo now (storageDisks xl) bucket;
  match checkBucketExist (λ _, bErr) bucket with
  | Some err => mret (set_disks xl disks, Some err)
  | None =>
      let '(disks, err) := healBucket disks bucket (writeQuorum xl) in
      match err with
      | Some e => mret (set_disks xl disks, Some e)
      | None =>
          '(disks, err) ← healBucketMetadata fuel env disks bucket (readQuorum xl);
          mret (set_disks xl disks, err)
      end
  end.

(** The loop of [quickHeal] over the buckets. *)
Fixpoint quick_heal_all (fuel : nat) (env : string → nat → heal_env) (disks : list (option D))
    (bucketNames : list string) (writeQuorum readQuorum : nat) : go (list (option D) * option error) :=
  match bucketNames with
  | [] => Ret (disks, None)
  | bucketName :: names =>
      let '(disks, err) := healBucket disks bucketName writeQuorum in
      match err with
      | Some e => mret (disks, Some e)
      | None =>
          '(disks, err) ← healBucketMetadata fuel (env bucketName) disks bucketName readQuorum;
          match err with
          | Some e => mret (disks, Some e)
          | None => quick_heal_all fuel env disks names writeQuorum readQuorum
          end
      end
  end.

Definition quickHeal (fuel : nat) (env : string → nat → heal_env) (disks : list (option D))
    (writeQuorum readQuorum : nat) : go (list (option D) * option error) :=
  let '(disks, (bucketNames, err)) := listBucketNames disks [] None in
  match err with
  | Some e => Ret (disks, Some e)
  | None => quick_heal_all fuel env disks (range_order bucketNames) writeQuorum readQuorum
  end.

End Heal.
