(* ===== verification/XLHealed.v ===== *)
(** * Healing restores the current version

    The steps of [healObject] as changes of the state of a disk, and its
    correctness: with enough disks that hold the current version, every disk
    that is up holds it afterwards. *)

From S2P Require Import Prelude.
From S2P Require Import GoErrors.
From S2P Require Import GoStrings.
From S2P Require Import Quorum.
From S2P Require Import Distribution.
From S2P Require Import XLMeta.
From S2P Require Import Storage.
From S2P Require Import Erasure.
From S2P Require Import ErasureSpec.
From S2P Require Import XorCode.
From S2P Require Import ErasureRead.
From S2P Require Import ErasureWrite.
From S2P Require Import ErasureHeal.
From S2P Require Import Healing.
From S2P Require Import ObjCache.
From S2P Require Import ObjectNames.
From S2P Require Import DiskContract.
From S2P Require Import XLDisk.
From S2P Require Import XLCommon.
From S2P Require Import XLBucket.
From S2P Require Import XLObject.
From S2P Require Import XLPut.
From S2P Require Import XLStage.
From S2P Require Import XLPutGet.
From S2P Require Import XLHeal.

Local Open Scope Z_scope.

(** ** The state of a disk *)

Section HealStage.
Context {D : Type} `{!StorageAPI D} `{!StorageContract D} `{!Volumes D} `{!DiskContract D}.
Context (bucket object id : string) (files0 : string → string → option bytes).

Let tmp := minioMetaTmpBucket.

(** [obj] and [stg] are the files of the object and of the staging directory;
    every other file is as in [files0]. *)
Record hstage (obj stg : string → option bytes) (d : D) : Prop := {
  hs_bucket : has_vol d bucket;
  hs_tmp : has_vol d tmp;
  hs_frame : ∀ v p, ¬ (v = bucket ∧ HasPrefix p (object +:+ "/") = true) →
    ¬ (v = tmp ∧ HasPrefix p (id +:+ "/") = true) → file_at d v p = files0 v p;
  hs_obj : ∀ r, file_at d bucket (object +:+ "/" +:+ r) = obj r;
  hs_stg : ∀ r, file_at d tmp (id +:+ "/" +:+ r) = stg r;
}.

Lemma hstage_ext obj obj' stg stg' d :
  (∀ r, obj r = obj' r) → (∀ r, stg r = stg' r) → hstage obj stg d → hstage obj' stg' d.
Proof. intros Ho Hs []. split; try done; intros r; [rewrite <- Ho|rewrite <- Hs]; done. Qed.

Lemma hstage_same obj stg d d' : hstage obj stg d → same_disk d d' → hstage obj stg d'.
Proof. intros [] [Hv Hf]. split; auto; intros; rewrite !Hf by done; auto. Qed.

Context (id_plain : plain_elem id) (object_clean : clean_path object) (bucket_tmp : bucket ≠ tmp).

(** A file of the staging directory changes. *)
Lemma hstage_update x obj stg d d' :
  hstage obj stg d → but_file tmp (id +:+ "/" +:+ x) d d' →
  hstage obj (λ r, if decide (r = x) then file_at d' tmp (id +:+ "/" +:+ x) else stg r) d'.
Proof.
  intros [Hb Ht Hfr Ho Hs] [Hv Hf]. split; auto.
  - intros v p Hp1 Hp2. rewrite Hf; [by apply Hfr|]. intros [= -> ->]. apply Hp2. split; [done|apply below].
  - intros r. rewrite Hf; [done|]. by intros [= ? _].
  - intros r. case_decide as Hr; [by subst|]. rewrite Hf; [done|]. by intros [= E%slash_cancel].
Qed.

(** A file of the object is deleted. *)
Lemma hstage_delete x obj stg d d' :
  hstage obj stg d → but_file bucket (object +:+ "/" +:+ x) d d' →
  file_at d' bucket (object +:+ "/" +:+ x) = None →
  hstage (λ r, if decide (r = x) then None else obj r) stg d'.
Proof.
  intros [Hb Ht Hfr Ho Hs] [Hv Hf] Hx. split; auto.
  - intros v p Hp1 Hp2. rewrite Hf; [by apply Hfr|]. intros [= -> ->]. apply Hp1. split; [done|apply below].
  - intros r. case_decide as Hr; [by subst|]. rewrite Hf; [done|]. by intros [= E%slash_cancel].
  - intros r. rewrite Hf; [done|]. by intros [= ? _].
Qed.

(** A file of the staging directory can be created when only plain names are
    staged. *)
Lemma hstage_free x obj stg d :
  files0 tmp id = None → hstage obj stg d → plain_elem x → (∀ r, is_Some (stg r) → plain_elem r) →
  free_name d tmp (id +:+ "/" +:+ x).
Proof.
  intros Hid [Hb Ht Hfr Ho Hs] Hx Hst. split.
  - intros a r E. apply slash_elem_inj in E as [-> ->]; [|done..]. rewrite Hfr; [done| |].
    + by intros [? _].
    + by apply elem_not_below.
  - intros [r Hr]. rewrite <- !str_app_assoc in Hr. rewrite Hs in Hr. apply Hst in Hr.
    by destruct (plain_ne_slash _ x r Hr).
Qed.

(** The staged version is committed. *)
Lemma hstage_committed stg d d' :
  hstage (λ _, None) stg d → dir_moved d d' tmp id bucket object → hstage stg (λ _, None) d'.
Proof.
  intros [Hb Ht Hfr Ho Hs] [Hv Hd Hsrc Hf]. split; auto.
  - intros v p Hp1 Hp2. rewrite Hf; [by apply Hfr|done|done].
  - intros r. by rewrite Hd.
  - intros r. apply eq_None_not_Some. intros Hr. apply Hsrc. by exists r.
Qed.

(** The name of the object is free once its files are gone. *)
Lemma hstage_object_free stg d :
  (∀ a, ancestor a object → files0 bucket a = None) → hstage (λ _, None) stg d →
  free_name d bucket object ∧ file_at d bucket object = None.
Proof.
  intros Hanc [Hb Ht Hfr Ho Hs].
  assert (Hab : ∀ a, ancestor a object → file_at d bucket a = None).
  { intros a Ha. rewrite Hfr; [by apply Hanc| |by intros [? _]]. intros [_ E]. by rewrite ancestor_not_below in E. }
  split; [split|].
  - intros a r E. apply Hab. right. by exists r.
  - intros [r [c Hr]]. by rewrite Ho in Hr.
  - apply Hab. by left.
Qed.

(** The files of a version are deleted one by one. *)
Lemma delete_files_ok stg : ∀ names obj d,
  up d → hstage obj stg d → NoDup names → (∀ x, x ∈ names → is_Some (obj x)) →
  ∃ d', delete_files d bucket ((λ x, object +:+ "/" +:+ x) <$> names) = (d', None) ∧ up d' ∧
    hstage (λ r, if decide (r ∈ names) then None else obj r) stg d'.
Proof.
  induction names as [|x names IH]; intros obj d Hup Hs Hnd Hin.
  { exists d. split_and!; [done|done|]. eapply hstage_ext; [|done|exact Hs]. intros r. by rewrite decide_False by apply not_elem_of_nil. }
  apply NoDup_cons in Hnd as [Hx Hnd]. rewrite fmap_cons. cbn [delete_files].
  destruct (up_DeleteFile d bucket (object +:+ "/" +:+ x) Hup) as (d1 & -> & Hup1 & Hb & Hg);
    [apply Hs|rewrite (hs_obj _ _ _ Hs); apply Hin; left|].
  pose proof (hstage_delete x _ _ _ _ Hs Hb Hg) as Hs1.
  destruct (IH _ d1 Hup1 Hs1 Hnd) as (d2 & -> & Hup2 & Hs2).
  { intros y Hy. simpl. rewrite decide_False by (by intros ->). apply Hin. by right. }
  exists d2. split_and!; [done|done|]. eapply hstage_ext; [|done|exact Hs2]. intros r. simpl.
  destruct (decide (r ∈ names)); [|destruct (decide (r = x))];
    (rewrite decide_True by (rewrite elem_of_cons; auto)) || (rewrite decide_False by (rewrite elem_of_cons; tauto));
    done.
Qed.

(** The commit of the healed version. *)
Lemma hstage_commit stg d :
  (∀ a, ancestor a object → files0 bucket a = None) → up d → hstage (λ _, None) stg d → (∃ r, is_Some (stg r)) →
  ∃ d1 e d2, DeleteFile d bucket (object +:+ "/") = (d1, e) ∧ (e = None ∨ e = Some (errFileNotFound : error)) ∧
    RenameFile d1 tmp (id +:+ "/") bucket (object +:+ "/") = (d2, None) ∧ up d2 ∧ hstage stg (λ _, None) d2.
Proof.
  intros Hanc Hup Hs [r Hr]. destruct (hstage_object_free _ _ Hanc Hs) as [[_ Hno] Hf].
  destruct (up_DeleteFile_dir d bucket object Hup) as (d1 & e & Hdel & Hup1 & Hsame & He); try done; [apply Hs|].
  pose proof (hstage_same _ _ _ _ Hs Hsame) as Hs1. destruct (hstage_object_free _ _ Hanc Hs1) as [Hfree1 Hf1].
  destruct (up_RenameFile d1 tmp id bucket object Hup1) as (d2 & Hren & Hup2 & Hmv); try done.
  - apply Hs1.
  - apply Hs1.
  - by apply clean_path_plain.
  - exists r. by rewrite (hs_stg _ _ _ Hs1).
  - exists d1, e, d2. split_and!; try done. by eapply hstage_committed.
Qed.

End HealStage.

(** ** The loops over the outdated disks *)

Section HealLoops.
Context {D : Type} `{!StorageAPI D} `{!StorageContract D} `{!Volumes D} `{!DiskContract D}.
Context (bucket object : string).

Lemma purge_slots : ∀ (ds : list (option D)) n cls (P Q : nat → D → Prop) errs metas,
  slots (slot_is cls P) ds n → (∀ i, cls i ≠ DiskDown) → length errs = n → length metas = n →
  (∀ i d mt e, up d → P i d → metas !! i = Some mt → errs !! i = Some e → cls i = DiskUp →
     ∃ d', match e with
           | Some _ => (d, None)
           | None => delete_files d bucket (version_paths object mt)
           end = (d', None) ∧ up d' ∧ Q i d') →
  ∃ ds', purge_outdated ds bucket object errs metas = Ret (ds', None) ∧ slots (slot_is cls Q) ds' n.
Proof.
  induction ds as [|x ds IH]; intros n cls P Q errs metas HR Hcls He Hm Hstep.
  { apply slots_nil_inv in HR as ->. by exists []. }
  apply slots_cons_inv in HR as (n' & -> & Hx & HR).
  destruct errs as [|e errs], metas as [|mt metas]; try done. cbn [purge_outdated].
  destruct (IH n' (λ i, cls (S i)) (λ i, P (S i)) (λ i, Q (S i)) errs metas HR) as (ds' & Heq & Hds);
    [auto|simpl in He; lia|simpl in Hm; lia|intros i; apply (Hstep (S i))|].
  unfold slot_is in Hx. specialize (Hcls 0%nat). destruct (cls 0%nat) eqn:Hc; destruct x as [d|]; try done.
  - destruct Hx as [Hup HP]. destruct (Hstep 0%nat d mt e Hup HP eq_refl eq_refl Hc) as (d' & -> & Hup' & HQ).
    rewrite Heq. eexists. split; [done|]. apply slots_cons. split; [|done]. unfold slot_is. by rewrite Hc.
  - cbn [tail]. rewrite Heq. eexists. split; [done|]. apply slots_cons. split; [|done]. unfold slot_is. by rewrite Hc.
Qed.

Lemma commit_slots tmpID : clean_path object → clean_path tmpID →
  ∀ (ds : list (option D)) n cls (P Q : nat → D → Prop),
  slots (slot_is cls P) ds n → (∀ i, cls i ≠ DiskDown) →
  (∀ i d, up d → P i d → ∃ d1 e d2, DeleteFile d bucket (object +:+ "/") = (d1, e) ∧
     (e = None ∨ e = Some (errFileNotFound : error)) ∧
     RenameFile d1 minioMetaTmpBucket (tmpID +:+ "/") bucket (object +:+ "/") = (d2, None) ∧ up d2 ∧ Q i d2) →
  ∃ ds', commit_healed ds bucket object tmpID = (ds', None) ∧ slots (slot_is cls Q) ds' n.
Proof.
  intros Ho Hid. induction ds as [|x ds IH]; intros n cls P Q HR Hcls Hstep.
  { apply slots_nil_inv in HR as ->. by exists []. }
  apply slots_cons_inv in HR as (n' & -> & Hx & HR). cbn [commit_healed]. rewrite !retainSlash_clean by done.
  destruct (IH n' (λ i, cls (S i)) (λ i, P (S i)) (λ i, Q (S i)) HR) as (ds' & -> & Hds);
    [auto|intros i; apply (Hstep (S i))|].
  unfold slot_is in Hx. specialize (Hcls 0%nat). destruct (cls 0%nat) eqn:Hc; destruct x as [d|]; try done.
  - destruct Hx as [Hup HP]. destruct (Hstep 0%nat d Hup HP) as (d1 & e & d2 & -> & He & Hren & Hup' & HQ).
    assert (negb (err_eqb e None) && negb (err_eqb e (Some (errFileNotFound : error))) = false) as ->
      by (by destruct He as [->| ->]).
    rewrite Hren. eexists. split; [done|]. apply slots_cons. split; [|done]. unfold slot_is. by rewrite Hc.
  - eexists. split; [done|]. apply slots_cons. split; [|done]. unfold slot_is. by rewrite Hc.
Qed.

(** Slots without a disk do not vote: a write that succeeds on every disk there
    is reaches the quorum that counts them. *)
Lemma present_quorum `{MapOrder} cls errs n :
  up_nil cls errs n → (∀ i, (i < n)%nat → cls i ≠ DiskUp →
    errs !! i = Some (traceError (Some (errDiskNotFound : error)) [])) →
  isDiskQuorum errs (count_good (λ i, is_up (cls i)) n) = true ∧
  reduceWriteQuorumErrs errs objectOpIgnoredErrs (count_good (λ i, is_up (cls i)) n) = None.
Proof.
  intros [Hl Hn] Hg.
  assert (Hvotes : ∀ ign, isErrIgnored None ign = false → isErrIgnored (Some (errDiskNotFound : error)) ign = true →
    votes ign errs = replicate (count_good (λ i, is_up (cls i)) n) None).
  { intros ign Hi1 Hi2. clear H. revert errs cls Hl Hn Hg. induction n as [|n IH]; intros [|e errs] cls Hl Hn Hg; try done.
    rewrite count_good_S. unfold votes. change (errorsCause (e :: errs)) with
      (match e with Some _ => errorCause e | None => None end :: errorsCause errs).
    rewrite filter_cons. fold (votes ign errs). rewrite (IH errs (λ i, cls (S i))).
    - destruct (cls 0%nat) eqn:Hc; [specialize (Hn 0%nat ltac:(lia) Hc); injection Hn as ->
        |specialize (Hg 0%nat ltac:(lia)); rewrite Hc in Hg; specialize (Hg ltac:(done)); injection Hg as ->..]; simpl.
      + by rewrite Hi1, decide_True.
      + by rewrite Hi2, decide_False.
      + by rewrite Hi2, decide_False.
    - simpl in Hl. lia.
    - intros i Hi. apply (Hn (S i)). lia.
    - intros i Hi. apply (Hg (S i)). lia. }
  split.
  - apply isDiskQuorum_count. rewrite Hvotes by done. by rewrite length_replicate.
  - unfold reduceWriteQuorumErrs. apply reduceQuorumErrs_all_nil; rewrite Hvotes by done.
    + apply Forall_forall. by intros e [-> _]%elem_of_replicate.
    + by rewrite length_replicate.
Qed.

Lemma diskCount_slots : ∀ (ds : list (option D)) n cls (P : nat → D → Prop),
  slots (slot_is cls P) ds n → (∀ i, cls i ≠ DiskDown) → diskCount ds = count_good (λ i, is_up (cls i)) n.
Proof.
  induction ds as [|x ds IH]; intros n cls P HR Hcls; [by apply slots_nil_inv in HR as ->|].
  apply slots_cons_inv in HR as (n' & -> & Hx & HR). rewrite count_good_S.
  rewrite <- (IH n' (λ i, cls (S i)) (λ i, P (S i)) HR) by auto. unfold slot_is in Hx. specialize (Hcls 0%nat).
  by destruct (cls 0%nat), x.
Qed.

(** The disks whose slots are in use. *)
Definition only (b : nat → bool) (i : nat) : disk_state := if b i then DiskUp else DiskGone.

Lemma only_up b i : is_up (only b i) = b i.
Proof. unfold only. by destruct (b i). Qed.

Lemma only_not_down b i : only b i ≠ DiskDown.
Proof. unfold only. by destruct (b i). Qed.

Lemma only_slot b (P : nat → D → Prop) i x :
  slot_is (only b) P i x ↔ match x with Some d => b i = true ∧ up d ∧ P i d | None => b i = false end.
Proof. unfold slot_is, only. destruct (b i), x; simpl; intuition congruence. Qed.

End HealLoops.

(** ** The parts *)

Section HealParts.
Context `{MapOrder} `{GJson, MetaJson, Hashes} `{RS : ReedSolomon}.
Context {D : Type} `{!StorageAPI D} `{!StorageContract D} `{!Volumes D} `{!DiskContract D}.
Context (bitRotAlgo : string) (k m : nat) `{!RSContract k m}.
Context (bs : nat) (bs_pos : (0 < bs)%nat).
Context (bucket object id : string) (files0 : nat → string → string → option bytes).
Context (id_plain : plain_elem id) (object_clean : clean_path object) (bucket_tmp : bucket ≠ minioMetaTmpBucket).
Context (id_free : ∀ i, files0 i minioMetaTmpBucket id = None).

Let tmp := minioMetaTmpBucket.
Let n := (k + m)%nat.

Definition hat (obj stg : nat → string → option bytes) (i : nat) (d : D) : Prop :=
  hstage bucket object id (files0 i) (obj i) (stg i) d.

Lemma hat_stable obj stg : stable (hat obj stg).
Proof. intros i d d' Hs Hd. by eapply hstage_same. Qed.

(** The part files of the disk of block [i]. *)
Fixpoint part_files (ps : list (objectPartInfo * bytes)) (i : nat) (r : string) : option bytes :=
  match ps with
  | [] => None
  | (p, b) :: ps' =>
      if decide (r = PartName p) then Some (shard_file k m bs b i) else part_files ps' i r
  end.

(** Their checksums. *)
Definition part_sums (ps : list (objectPartInfo * bytes)) (i : nat) : list checkSumInfo :=
  (λ '(p, b), CheckSumInfo (PartName p) bitRotAlgo (file_checksum k m bs b bitRotAlgo i)) <$> ps.

Definition part_ok (fuel : nat) (q : objectPartInfo * bytes) : Prop :=
  plain_elem (PartName q.1) ∧ PartName q.1 ≠ xlMetaJSONFile ∧ PartSize q.1 = zlen q.2 ∧
  (0 < length q.2)%nat ∧ (nblocks bs q.2 < fuel)%nat.

Lemma part_files_none ps i r : r ∉ PartName <$> ps.*1 → part_files ps i r = None.
Proof.
  induction ps as [|[p b] ps IH]; [done|]. simpl. rewrite not_elem_of_cons. intros [Hne Hr].
  rewrite decide_False by done. by apply IH.
Qed.

Lemma part_files_some ps i q :
  NoDup (PartName <$> ps.*1) → q ∈ ps → part_files ps i (PartName q.1) = Some (shard_file k m bs q.2 i).
Proof.
  induction ps as [|[p b] ps IH]; intros Hnd Hq; [by apply not_elem_of_nil in Hq|].
  simpl in Hnd. apply NoDup_cons in Hnd as [Hp Hnd]. simpl. apply elem_of_cons in Hq as [->|Hq].
  - by rewrite decide_True.
  - rewrite decide_False; [by apply IH|]. intros E. apply Hp. rewrite <- E.
    by apply list_elem_of_fmap_2, list_elem_of_fmap_2.
Qed.

Lemma part_files_plain fuel ps i r : Forall (part_ok fuel) ps → is_Some (part_files ps i r) → plain_elem r.
Proof.
  induction 1 as [|[p b] ps (Hp & _) _ IH]; [by intros []|]. simpl. case_decide as E; [by subst|done].
Qed.

Context (cur out : nat → bool) (enough : (k ≤ count_good cur n)%nat).
Context (Pcur : nat → D → Prop) (Pcur_stable : stable Pcur) (Pcur_vol : ∀ i d, Pcur i d → has_vol d bucket).

(** One part is healed. *)
Lemma heal_part_ok fuel p b algo (latest outd : list (option D)) stg :
  part_ok fuel (p, b) → slots (slot_is (only cur) Pcur) latest n →
  (∀ i d, Pcur i d → file_at d bucket (object +:+ "/" +:+ PartName p) = Some (shard_file k m bs b i)) →
  slots (slot_is (only out) (hat none stg)) outd n →
  (∀ i, stg i (PartName p) = None) → (∀ i r, is_Some (stg i r) → plain_elem r) →
  ∃ latest' outd' cks,
    erasureHealFile bitRotAlgo fuel latest outd bucket (object +:+ "/" +:+ PartName p) tmp
      (id +:+ "/" +:+ PartName p) (zlen b) (Z.of_nat bs) k m algo = Ret (latest', outd', (cks, None)) ∧
    slots (slot_is (only cur) Pcur) latest' n ∧
    slots (slot_is (only out) (hat none
      (λ i r, if decide (r = PartName p) then Some (shard_file k m bs b i) else stg i r))) outd' n ∧
    ∀ i, (i < n)%nat → out i = true → cks !! i = Some (file_checksum k m bs b bitRotAlgo i).
Proof.
  intros (Hp & _ & _ & Hpos & Hfuel) HL Hfile HO Hnew Hplain. simpl in *. set (x := PartName p) in *.
  assert (Hcp : clean_path (id +:+ "/" +:+ x)) by (apply clean_path_app; auto using clean_path_plain).
  assert (Hacc : ∀ i d s, up d → hstage bucket object id (files0 i) (none i) s d →
    (∀ r, is_Some (s r) → plain_elem r) → accepts d tmp (id +:+ "/" +:+ x)).
  { intros i d s Hup Hs Hpl. apply up_accepts; [done|apply Hs|]. eapply hstage_free; eauto. }
  set (healing := λ (i : nat) (d : D), ∃ s, hstage bucket object id (files0 i) (none i) s d ∧
    ∀ r, r ≠ x → s r = stg i r).
  assert (Hhp : ∀ i d s, hstage bucket object id (files0 i) (none i) s d → (∀ r, r ≠ x → s r = stg i r) →
    ∀ r, is_Some (s r) → plain_elem r).
  { intros i d s Hs Heq r Hr. destruct (decide (r = x)) as [->|Hne]; [done|]. rewrite Heq in Hr by done. by eapply Hplain. }
  assert (Hup_out : ∀ i, (i < n)%nat → out i = true → ∃ d, outd !! i = Some (Some d) ∧ up d ∧ hat none stg i d).
  { intros i Hi Hb. apply (slots_up (only out) _ outd n); [done|done|]. unfold only. by rewrite Hb. }
  destruct (erasureHealFile_ok k m bs bs_pos b bucket (object +:+ "/" +:+ x) tmp (id +:+ "/" +:+ x) cur outd
    (slot_is (only cur) Pcur) (slot_is (only out) healing)) with (fuel := fuel) (latest := latest) (algo := algo)
    (bitRotAlgo := bitRotAlgo) as (latest' & outd' & cks & -> & [HL1 HL2] & [HO1 HO2] & Hck); try done.
  - intros i d off buf. rewrite !only_slot. intros (Hi & Hup & HP).
    destruct (ReadFile d bucket _ off buf) as [d' r] eqn:E.
    destruct (up_ReadFile _ _ _ _ _ _ _ Hup E) as [Hup' Hsame]. simpl. eauto.
  - intros i d b'. rewrite !only_slot. intros (Hi & Hup & s & Hs & Heq).
    destruct (AppendFile_accepts d tmp (id +:+ "/" +:+ x) b') as (d' & Happ & _); [by eauto|].
    rewrite Happ. simpl. destruct (up_AppendFile _ _ _ _ _ Hup Hcp Happ) as [Hup' Hb].
    split_and!; [done|done|]. eexists. split; [by eapply hstage_update|]. intros r Hr. simpl.
    rewrite decide_False by done. by apply Heq.
  - split; [apply HL| |].
    + intros i d c Hd Hc. destruct HL as [_ HL]. apply HL, only_slot in Hd as (_ & _ & HP).
      apply Hfile in HP. congruence.
    + intros i Hi Hc. destruct (slots_up (only cur) Pcur latest n i HL Hi) as (d & Hd & Hup & HP);
        [unfold only; by rewrite Hc|]. exists d. split_and!; [done| |by apply Hfile]. apply up_serves; eauto.
  - apply HO.
  - intros i d Hd. destruct HO as [_ HO]. apply HO, only_slot in Hd as (_ & Hup & HP). eapply Hacc; [done|exact HP|apply Hplain].
  - apply HL.
  - intros i y Hy. apply (slot_is_impl (only out) (hat none stg)); [|by apply HO].
    intros d Hd. exists (stg i). split; [exact Hd|done].
  - exists latest', outd', cks. split; [done|]. split; [done|]. split.
    + split; [done|]. intros i y Hy. assert (Hi : (i < n)%nat) by (apply lookup_lt_Some in Hy; unfold n; lia).
      specialize (HO2 i y Hy). rewrite only_slot in *. destruct y as [d'|]; [|done].
      destruct HO2 as (Hb & Hup & s & Hs & Heq). split_and!; [done|done|].
      destruct (Hup_out i Hi Hb) as (d & Hd & _ & Hd0).
      destruct (Hck i d Hi Hd) as (_ & d2 & Hd2 & Hf). rewrite Hy in Hd2. injection Hd2 as <-.
      eapply hstage_ext; [done| |exact Hs]. intros r. simpl. case_decide as Er; [|by apply Heq]. subst r.
      rewrite <- (hs_stg _ _ _ _ _ _ _ Hs). fold tmp. rewrite Hf. unfold tmp.
      rewrite (hs_stg _ _ _ _ _ _ _ Hd0), Hnew. done.
    + intros i Hi Hb. destruct (Hup_out i Hi Hb) as (d & Hd & _). by apply (Hck i d Hi Hd).
Qed.

(** All parts are healed. *)
Lemma heal_parts_ok fuel mt0 : ∀ ps (latest outd : list (option D)) stg (csi : list (list checkSumInfo)),
  DataBlocks (Erasure mt0) = Z.of_nat k → ParityBlocks (Erasure mt0) = Z.of_nat m →
  BlockSize (Erasure mt0) = Z.of_nat bs →
  Forall (part_ok fuel) ps → NoDup (PartName <$> ps.*1) →
  (∀ q, q ∈ ps → CkAlgorithm (GetCheckSumInfo bitRotAlgo (Erasure mt0) (PartName q.1)) = bitRotAlgo) →
  slots (slot_is (only cur) Pcur) latest n →
  (∀ i d q, Pcur i d → q ∈ ps →
     file_at d bucket (object +:+ "/" +:+ PartName q.1) = Some (shard_file k m bs q.2 i)) →
  slots (slot_is (only out) (hat none stg)) outd n → length csi = n →
  (∀ i r, is_Some (stg i r) → plain_elem r ∧ r ∉ PartName <$> ps.*1) →
  ∃ latest' outd' csi',
    heal_parts bitRotAlgo fuel latest outd bucket object id mt0 ps.*1 csi = Ret (latest', outd', (csi', None)) ∧
    slots (slot_is (only cur) Pcur) latest' n ∧
    slots (slot_is (only out) (hat none
      (λ i r, match part_files ps i r with Some c => Some c | None => stg i r end))) outd' n ∧
    length csi' = n ∧
    ∀ i infos, out i = true → csi !! i = Some infos → csi' !! i = Some (infos ++ part_sums ps i).
Proof.
  induction ps as [|[p b] ps IH]; intros latest outd stg csi Hk Hm Hbs Hall Hnd Hck HL Hfile HO Hcsi Hstg.
  { exists latest, outd, csi. split_and!; [done..|]. intros i infos _ Hi. by rewrite app_nil_r. }
  apply Forall_cons in Hall as [Hpb Hall]. assert (Hpb' := Hpb). destruct Hpb' as (Hp & _ & Hsz & Hpos & _).
  simpl in Hp, Hsz, Hpos. rewrite fmap_cons in *. apply NoDup_cons in Hnd as [Hfresh Hnd].
  cbn [heal_parts fmap list_fmap fst]. rewrite Hk, Hm, Hbs, !Nat2Z.id, Hsz.
  rewrite !pathJoin_clean by auto using clean_path_plain.
  assert (Hck0 := Hck (p, b) ltac:(left)). cbn [fst] in Hck0. cbv zeta. rewrite Hck0.
  destruct (heal_part_ok fuel p b bitRotAlgo latest outd stg Hpb HL) as (latest1 & outd1 & cks & Heq & HL1 & HO1 & Hcks).
  - intros i d HP. apply (Hfile i d (p, b) HP). left.
  - done.
  - intros i. apply eq_None_not_Some. intros Hs. apply Hstg in Hs as [_ Hs]. apply Hs. left.
  - intros i r Hr. by apply Hstg in Hr as [? _].
  - unfold tmp in Heq. rewrite Heq. cbn [mbind go_bind].
    destruct (IH latest1 outd1
      (λ i r, if decide (r = PartName p) then Some (shard_file k m bs b i) else stg i r) (append_sums outd1 (PartName p) bitRotAlgo cks csi) Hk Hm Hbs Hall Hnd
      (λ q Hq, Hck q (list_elem_of_further _ _ _ Hq)) HL1) as (latest2 & outd2 & csi2 & -> & HL2 & HO2 & Hl2 & Hs2).
    + intros i d q HP Hq. apply (Hfile i d q HP). by right.
    + exact HO1.
    + unfold append_sums. by rewrite length_imap.
    + intros i r. simpl. case_decide as Er; [subst; by intros _|]. intros [Hr Hn]%Hstg. split; [done|].
      intros Hin. apply Hn. by right.
    + exists latest2, outd2, csi2. split; [done|]. split; [done|]. split; [|split; [done|]].
      * split; [apply HO2|]. intros i x Hx. destruct HO2 as [_ HO2]. eapply slot_is_impl; [|by apply HO2]. intros d Hd.
        eapply hstage_ext; [done| |exact Hd]. intros r. simpl. case_decide as Er; [|done]. subst r.
        by rewrite part_files_none.
      * intros i infos Hb Hi. assert (Hin : (i < n)%nat) by (rewrite <- Hcsi; by eapply lookup_lt_Some).
        rewrite (Hs2 i (infos ++ [CheckSumInfo (PartName p) bitRotAlgo (file_checksum k m bs b bitRotAlgo i)]) Hb).
        -- by rewrite <- app_assoc.
        -- unfold append_sums. rewrite list_lookup_imap, Hi. simpl.
           destruct (slots_up (only out) _ outd1 n i HO1 Hin) as (d & Hd & _); [unfold only; by rewrite Hb|].
           by rewrite Hd, Hcks.
Qed.

End HealParts.

(** ** healObject *)

(** What the disk of a block holds: the current version, an outdated one, or
    nothing. *)
Variant copy := Current | Stale | Missing.

Section HealObject.
Context `{JsonContract} `{MapOrder, Hashes} `{RS : ReedSolomon}.
Context {D : Type} `{!StorageAPI D} `{!StorageContract D} `{!Volumes D} `{!DiskContract D}.
Context (bitRotAlgo : string) (k m bs : nat) `{!RSContract k m}.
Context (env : heal_env) (disks : list (option D)) (bucket object : string) (quorum fuel : nat).
(** The current version: its metadata and its parts. *)
Context (mt0 : xlMetaV1) (ps : list (objectPartInfo * bytes)) (dist : list Z).
(** The disks by block: their state, what they hold of the object, the outdated
    versions, and all their files. *)
Context (cls : nat → disk_state) (role : nat → copy).
Context (smeta : nat → xlMetaV1) (sfiles : nat → string → option bytes).
Context (files0 : nat → string → string → option bytes).

Let n := (k + m)%nat.
Let T := ModTime (Stat mt0).
Let id := he_tmpID env.
Let tmp := minioMetaTmpBucket.

Definition healthy_meta (i : nat) : xlMetaV1 :=
  set_index (set_checksums mt0 (part_sums bitRotAlgo k m bs ps i)) (Z.of_nat i + 1).

Definition healthy_json (i : nat) : bytes :=
  match json_Marshal (healthy_meta i) with inl b => b | inr _ => [] end.

(** The files of the current version on the disk of block [i]. *)
Definition healthy_files (i : nat) (r : string) : option bytes :=
  if decide (r = xlMetaJSONFile) then Some (healthy_json i) else part_files k m bs ps i r.

Definition is_current (i : nat) : bool :=
  is_up (cls i) && match role i with Current => true | _ => false end.

Definition is_outdated (i : nat) : bool :=
  is_up (cls i) && match role i with Current => false | _ => true end.

Definition first_files (i : nat) : string → option bytes :=
  match role i with
  | Current => healthy_files i
  | Stale => sfiles i
  | Missing => λ _, None
  end.

(** The files of an outdated version: those its metadata names. *)
Record stale_version (mt : xlMetaV1) (fs : string → option bytes) : Prop := {
  sv_time : ModTime (Stat mt) ≠ ModTime (Stat mt0);
  sv_names : NoDup (PartName <$> Parts mt);
  sv_plain : ∀ p, p ∈ Parts mt → plain_elem (PartName p) ∧ PartName p ≠ xlMetaJSONFile;
  sv_meta : ∃ b, json_Marshal mt = inl b ∧ fs xlMetaJSONFile = Some b;
  sv_files : ∀ r, is_Some (fs r) ↔ r = xlMetaJSONFile ∨ r ∈ PartName <$> Parts mt;
}.

Record heal_ready : Prop := {
  hr_clean : clean_path object;
  hr_tmp : bucket ≠ minioMetaTmpBucket;
  hr_id : plain_elem (he_tmpID env);
  (** The current version. *)
  hr_valid : IsValid mt0 = true;
  hr_bs : (0 < bs)%nat;
  hr_layout : DataBlocks (Erasure mt0) = Z.of_nat k ∧ ParityBlocks (Erasure mt0) = Z.of_nat m ∧
    BlockSize (Erasure mt0) = Z.of_nat bs ∧ Distribution (Erasure mt0) = dist;
  hr_dist : dist ≡ₚ seqZ 1 (Z.of_nat (k + m));
  hr_parts : Parts mt0 = ps.*1;
  hr_names : NoDup (PartName <$> ps.*1);
  hr_part : Forall (part_ok bs fuel) ps;
  hr_times : let T := ModTime (Stat mt0) in
    T ≠ timeSentinel ∧ T ≠ he_should env ∧ T ≠ he_online env ∧ T ≠ he_outdated env;
  (** Enough disks hold it. *)
  hr_quorum : let c := count_good is_current (k + m) in
    (2 ≤ quorum ≤ c)%nat ∧ (k + m < 2 * c)%nat ∧ (k ≤ c)%nat;
  hr_stale : ∀ i, role i = Stale → stale_version (smeta i) (sfiles i);
  (** The disks; the fresh name is not used, and no file is above the object. *)
  hr_disks : slots (λ s, slot_is cls (hat (D := D) bucket object (he_tmpID env) files0 first_files none)
      (blk dist s)) disks (k + m);
  hr_fresh : ∀ i, files0 i minioMetaTmpBucket (he_tmpID env) = None;
  hr_above : ∀ i a, ancestor a object → files0 i bucket a = None;
  hr_json : ∀ mt, ∃ b, json_Marshal mt = inl b;
}.

Context (Hready : heal_ready).

Let hat0 := hat (D := D) bucket object id files0.

Lemma healthy_json_ok i : json_Marshal (healthy_meta i) = inl (healthy_json i).
Proof. unfold healthy_json. by destruct (hr_json Hready (healthy_meta i)) as [b ->]. Qed.

(** What the disk of block [i] reports. *)
Definition copy_report (i : nat) (x : xlMetaV1) (e : option error) : Prop :=
  match role i with
  | Current => x = healthy_meta i ∧ e = None
  | Stale => x = smeta i ∧ e = None
  | Missing => x = xlMetaV1_zero ∧ e = Some (Traced errFileNotFound [])
  end.

Lemma copy_reported i d :
  up d → hat0 first_files none i d →
  ∃ d' x e, readXLMeta d bucket object = (d', (x, e)) ∧ up d' ∧ same_disk d d' ∧ copy_report i x e.
Proof.
  intros Hup Hs. assert (Hv : has_vol d bucket) by apply Hs.
  assert (Hread : ∀ mt b, first_files i xlMetaJSONFile = Some b → json_Marshal mt = inl b →
    ∃ d', readXLMeta d bucket object = (d', (mt, None)) ∧ up d' ∧ same_disk d d').
  { intros mt b Hf Hj. apply (readXLMeta_up bucket object (hr_clean Hready) d mt b Hup Hv); [|done].
    by rewrite (hs_obj _ _ _ _ _ _ _ Hs). }
  unfold copy_report. destruct (role i) eqn:Er.
  - destruct (Hread (healthy_meta i) (healthy_json i)) as (d' & ? & ? & ?); [|apply healthy_json_ok|by eauto 10].
    unfold first_files. by rewrite Er.
  - destruct (sv_meta _ _ (hr_stale Hready i Er)) as (b & Hj & Hf).
    destruct (Hread (smeta i) b) as (d' & ? & ? & ?); [|done|by eauto 10]. unfold first_files. by rewrite Er.
  - unfold readXLMeta. rewrite path_Join_clean by (apply Hready || apply clean_path_plain, xlMetaJSON_plain).
    destruct (up_ReadAll d bucket (object +:+ "/" +:+ xlMetaJSONFile) Hup Hv) as (d' & r & -> & Hup' & Hsame & ->).
    rewrite (hs_obj _ _ _ _ _ _ _ Hs). unfold first_files. rewrite Er. by eexists _, _, _.
Qed.

Lemma report_holds i x e : reports cls copy_report i x e → holds_version T x e = is_current i.
Proof.
  unfold reports, is_current, copy_report. destruct (cls i); simpl.
  - destruct (role i) eqn:Er.
    + intros [-> ->]. apply Z.eqb_refl.
    + intros [-> ->]. apply Z.eqb_neq, (sv_time _ _ (hr_stale Hready i Er)).
    + by intros [-> ->].
  - by intros (-> & c & -> & _).
  - by intros [-> ->].
Qed.

Lemma disk_err_not_missing c : disk_err (Some c) → err_eqb (errorCause (Some (Traced c []))) (Some (errFileNotFound : error)) = false.
Proof.
  unfold disk_err, baseErrs. rewrite !elem_of_cons.
  by intros [[= ->]|[[= ->]|[[= ->]|?%not_elem_of_nil]]].
Qed.

Lemma report_lacks i x e : reports cls copy_report i x e → lacks_version T x e = is_outdated i.
Proof.
  unfold reports, is_outdated, copy_report. destruct (cls i); simpl.
  - destruct (role i) eqn:Er.
    + intros [-> ->]. unfold lacks_version. by rewrite Z.eqb_refl.
    + intros [-> ->]. unfold lacks_version, T. by rewrite (proj2 (Z.eqb_neq _ _) (sv_time _ _ (hr_stale Hready i Er))).
    + by intros [-> ->].
  - intros (-> & c & -> & Hc). by apply disk_err_not_missing.
  - by intros [-> ->].
Qed.

Lemma part_sums_algo i name :
  CkAlgorithm (GetCheckSumInfo_list bitRotAlgo (part_sums bitRotAlgo k m bs ps i) name) = bitRotAlgo.
Proof. unfold part_sums. induction ps as [|[p b] ps' IH]; [done|]. simpl. by case_bool_decide. Qed.

(** The current metadata is picked. *)
Lemma current_picked metas errs :
  length metas = n → length errs = n →
  (∀ s x e, metas !! s = Some x → errs !! s = Some e → reports cls copy_report (blk dist s) x e) →
  version_count T metas errs = count_good is_current n ∧
  ∃ i, pickValidXLMeta metas T = (healthy_meta i, None).
Proof.
  intros Hm He Hrep.
  assert (Hvc : version_count T metas errs = count_good is_current n).
  { rewrite <- (count_good_blk dist n _ (hr_dist Hready)).
    unfold version_count, count_good. apply filter_bool_seq; [rewrite length_zip_with; lia|].
    intros s b Hb. apply lookup_zip_with_Some in Hb as (x & e & -> & Hx & Hy). by apply report_holds, (Hrep s). }
  split; [done|]. destruct (hr_quorum Hready) as (_ & Hmaj & _).
  pose proof (pickValidXLMeta_spec metas T) as Hpick. destruct (pickValidXLMeta metas T) as [mt [e|]].
  - exfalso. assert (Hex : ∃ s, zip_with (holds_version T) metas errs !! s = Some true).
    { unfold version_count in Hvc.
      destruct (filter (λ b, b = true) (zip_with (holds_version T) metas errs)) as [|b l] eqn:E; [simpl in Hvc; unfold n in *; lia|].
      assert (Hb : b ∈ b :: l) by left. rewrite <- E in Hb.
      apply list_elem_of_filter in Hb as [-> [s Hs]%list_elem_of_lookup]. eauto. }
    destruct Hex as [s Hs]. apply lookup_zip_with_Some in Hs as (x & e' & Hv & Hx & Hy).
    specialize (Hrep s x e' Hx Hy). symmetry in Hv. assert (Hv' := Hv). rewrite (report_holds _ _ _ Hrep) in Hv'.
    destruct Hpick as [_ Hno]. apply (Hno x); [by eapply list_elem_of_lookup_2| |].
    + unfold is_current, reports, copy_report in *. destruct (cls (blk dist s)); [|done..].
      destruct (role (blk dist s)); try done. destruct Hrep as [-> _]. apply Hready.
    + unfold holds_version in Hv. destruct e'; [done|]. by apply Z.eqb_eq.
  - destruct Hpick as ([s Hs]%list_elem_of_lookup & Hval & Ht).
    destruct (lookup_lt_is_Some_2 errs s) as [e He']; [apply lookup_lt_Some in Hs; lia|].
    specialize (Hrep s mt e Hs He'). exists (blk dist s). f_equal. unfold reports, copy_report in Hrep.
    destruct (cls (blk dist s)); [|by destruct Hrep as [-> _]..].
    destruct (role (blk dist s)) eqn:Er; [by destruct Hrep as [-> _]| |by destruct Hrep as [-> _]].
    destruct Hrep as [-> _]. by destruct (sv_time _ _ (hr_stale Hready _ Er)).
Qed.

(** The disks back in their places. *)
Lemma merge_slots (σ : nat → nat) (P Q : nat → D → Prop) (ds lat out : list (option D)) :
  slots (λ s, slot_is cls P (σ s)) ds n → slots (λ s, slot_is (only is_current) Q (σ s)) lat n →
  slots (λ s, slot_is (only is_outdated) Q (σ s)) out n →
  slots (λ s, slot_is cls Q (σ s)) (merge_disks out (merge_disks lat ds)) n.
Proof.
  intros [Hl1 HR1] [Hl2 HR2] [Hl3 HR3]. unfold merge_disks. split; [rewrite !length_zip_with; lia|].
  intros s x Hx. apply lookup_zip_with_Some in Hx as (o & y & -> & Ho & Hy).
  apply lookup_zip_with_Some in Hy as (l & d & -> & Hla & Hd).
  specialize (HR1 s d Hd). apply HR2, only_slot in Hla. apply HR3, only_slot in Ho.
  unfold is_current, is_outdated, slot_is in *. destruct (cls (σ s)); simpl in *.
  - destruct o as [o|]; [by destruct Ho as (_ & ? & ?)|]. destruct l as [l|]; [by destruct Hla as (_ & ? & ?)|].
    by destruct (role (σ s)).
  - destruct o; [by destruct Ho|]. by destruct l; [destruct Hla|].
  - destruct o; [by destruct Ho|]. by destruct l; [destruct Hla|].
Qed.

(** The outdated version is deleted. *)
Lemma purge_step i d x e :
  up d → hat0 first_files none i d → is_outdated i = true → reports cls copy_report i x e →
  ∃ d', match e with
        | Some _ => (d, None)
        | None => delete_files d bucket (version_paths object x)
        end = (d', None) ∧ up d' ∧ hat0 none none i d'.
Proof.
  intros Hup Hs Ho Hrep. unfold is_outdated, reports, copy_report in *. unfold hat0, hat, first_files in Hs.
  destruct (cls i); [|done..]. destruct (role i) eqn:Er; [done| |].
  - destruct Hrep as [-> ->]. destruct (hr_stale Hready i Er) as [_ Hnd Hpl _ Hfiles].
    assert (Hpaths : version_paths object (smeta i) =
      (λ x, object +:+ "/" +:+ x) <$> ((PartName <$> Parts (smeta i)) ++ [xlMetaJSONFile])).
    { unfold version_paths. rewrite fmap_app, <- list_fmap_compose.
      rewrite pathJoin_clean by (apply Hready || apply clean_path_plain, xlMetaJSON_plain).
      f_equal. apply list_fmap_ext. intros j p Hp. simpl.
      apply pathJoin_clean; [apply Hready|]. apply clean_path_plain, Hpl. by eapply list_elem_of_lookup_2. }
    rewrite Hpaths.
    destruct (delete_files_ok bucket object id (files0 i) (hr_tmp Hready) (λ _, None)
      ((PartName <$> Parts (smeta i)) ++ [xlMetaJSONFile]) (sfiles i) d Hup Hs) as (d' & -> & Hup' & Hs').
    + apply NoDup_app. split_and!; [done| |apply NoDup_singleton].
      intros x (p & -> & Hp)%list_elem_of_fmap Hx%list_elem_of_singleton. by apply (Hpl p Hp).
    + intros x Hx. apply Hfiles. rewrite elem_of_app, list_elem_of_singleton in Hx. tauto.
    + exists d'. split_and!; [done|done|]. eapply hstage_ext; [|done|exact Hs'].
      intros r. simpl. case_decide as Hr; [done|]. apply eq_None_not_Some. intros Hr'%Hfiles. apply Hr.
      rewrite elem_of_app, list_elem_of_singleton. tauto.
  - destruct Hrep as [-> ->]. exists d. by split_and!.
Qed.

Lemma healthy_meta_set i j :
  set_index (set_checksums (healthy_meta j) (part_sums bitRotAlgo k m bs ps i)) (Z.of_nat i + 1) = healthy_meta i.
Proof. done. Qed.

(** The metadata of a healed disk is staged. *)
Lemma healed_meta_step i d :
  up d → hat0 none (part_files k m bs ps) i d →
  ∃ d', writeXLMetadata d tmp id (healthy_meta i) = (d', None) ∧ up d' ∧ hat0 none healthy_files i d'.
Proof.
  intros Hup Hs. unfold writeXLMetadata. rewrite healthy_json_ok.
  assert (Hcx : clean_path xlMetaJSONFile) by apply clean_path_plain, xlMetaJSON_plain.
  assert (Hci : clean_path id) by apply clean_path_plain, Hready. rewrite path_Join_clean by done.
  assert (Hno : part_files k m bs ps i xlMetaJSONFile = None).
  { apply part_files_none. intros (q & E & (p & -> & Hp)%list_elem_of_fmap)%list_elem_of_fmap.
    pose proof (hr_part Hready) as Hall. rewrite Forall_forall in Hall. by destruct (Hall p Hp) as (_ & ? & _). }
  assert (Ha : accepts d tmp (id +:+ "/" +:+ xlMetaJSONFile)).
  { apply up_accepts; [done|apply Hs|]. eapply hstage_free; [apply Hready|apply Hready|apply Hready|exact Hs|apply xlMetaJSON_plain|].
    intros r. apply part_files_plain with (fuel := fuel), Hready. }
  destruct (AppendFile_accepts d _ _ (healthy_json i) Ha) as (d' & Happ & _). rewrite Happ.
  assert (Hcp : clean_path (id +:+ "/" +:+ xlMetaJSONFile)) by (by apply clean_path_app).
  destruct (up_AppendFile _ _ _ _ _ Hup Hcp Happ) as [Hup' Hb].
  apply AppendFile_appends in Happ. unfold tmp in Happ. rewrite (hs_stg _ _ _ _ _ _ _ Hs), Hno in Happ.
  exists d'. split_and!; [done|done|]. eapply hstage_ext; [done| |eapply hstage_update; [apply Hready|exact Hs|exact Hb]].
  intros r. unfold healthy_files. simpl. case_decide; [exact Happ|done].
Qed.

(** The healed versions are committed. *)
Lemma heal_finish i0 (out : list (option D)) csi metas :
  slots (slot_is (only is_outdated) (hat0 none (part_files k m bs ps))) out n → length metas = n →
  (∀ i, (i < n)%nat → is_outdated i = true → csi !! i = Some (part_sums bitRotAlgo k m bs ps i)) →
  ∃ out1 ms out2,
    writeUniqueXLMetadata out minioMetaTmpBucket (he_tmpID env) (healed_metas (healthy_meta i0) out csi metas)
      (diskCount out) = Ret (out1, ms, None) ∧
    commit_healed out1 bucket object (he_tmpID env) = (out2, None) ∧
    slots (slot_is (only is_outdated) (hat0 healthy_files none)) out2 n.
Proof.
  intros HO Hm Hcsi. unfold writeUniqueXLMetadata.
  set (ms0 := healed_metas (healthy_meta i0) out csi metas).
  assert (Hms : length ms0 = n) by (unfold ms0, healed_metas; by rewrite length_imap).
  destruct (write_unique_slots minioMetaTmpBucket (he_tmpID env) out ms0 0 n (only is_outdated)
    (hat0 none (part_files k m bs ps)) (hat0 none healthy_files) HO Hms) as (out1 & ms & errs & Hw & HO1 & Hnil).
  { intros i d mt Hc Hup HP Hmt. assert (Hi : (i < n)%nat) by (rewrite <- Hms; by eapply lookup_lt_Some).
    assert (Hb : is_outdated i = true) by (unfold only in Hc; by destruct (is_outdated i)).
    destruct (slots_up (only is_outdated) _ out n i HO Hi Hc) as (d0 & Hd0 & _).
    unfold ms0, healed_metas in Hmt. rewrite list_lookup_imap in Hmt.
    destruct (metas !! i) as [mt'|]; [|done]. simpl in Hmt. rewrite Hd0, (Hcsi i Hi Hb) in Hmt. simpl in Hmt.
    injection Hmt as <-. rewrite Z.add_0_l. rewrite healthy_meta_set. by apply healed_meta_step. }
  rewrite Hw. cbn [mbind go_bind]. unfold write_quorum_result.
  rewrite (diskCount_slots out n _ _ HO (only_not_down _)).
  destruct (present_quorum (only is_outdated) errs n Hnil) as [-> ->].
  { intros i Hi Hc. apply (write_unique_gone _ _ _ _ _ _ _ _ i Hw).
    destruct (lookup_lt_is_Some_2 out i) as [x Hx]; [destruct HO; lia|]. rewrite Hx.
    destruct HO as [_ HO]. specialize (HO i x Hx). unfold slot_is in HO.
    destruct (only is_outdated i) eqn:E; [done|by destruct (only_not_down is_outdated i)|by destruct x]. }
  cbn [negb]. destruct (commit_slots bucket object (he_tmpID env) (hr_clean Hready)
    (clean_path_plain _ (hr_id Hready)) out1 n (only is_outdated) (hat0 none healthy_files)
    (hat0 healthy_files none) HO1 (only_not_down _)) as (out2 & Hc & HO2).
  { intros i d Hup HP. apply (hstage_commit bucket object id (files0 i)); try apply Hready; try done.
    exists xlMetaJSONFile. unfold healthy_files. by rewrite decide_True. }
  exists out1, ms, out2. by split_and!.
Qed.

(** The disks that hold the current version, and the outdated ones. *)
Lemma heal_split (ds online outd : list (option D)) (metas : list xlMetaV1) (errs : list (option error)) :
  slots (λ s, slot_is cls (hat0 first_files none) (blk dist s)) ds n → length metas = n → length errs = n →
  (∀ s x e, metas !! s = Some x → errs !! s = Some e → reports cls copy_report (blk dist s) x e) →
  length online = length ds → length outd = length ds →
  (∀ i m e d, metas !! i = Some m → errs !! i = Some e → ds !! i = Some d →
     online !! i = Some (if holds_version T m e then d else None)) →
  (∀ i m e d, metas !! i = Some m → errs !! i = Some e → ds !! i = Some d →
     outd !! i = Some (if lacks_version T m e then d else None)) →
  slots (λ s, slot_is (only is_current) (hat0 healthy_files none) (blk dist s)) online n ∧
  slots (λ s, slot_is (only is_outdated) (hat0 first_files none) (blk dist s)) outd n.
Proof.
  intros [Hl Hds] Hm He Hrep Hlo Hlout Hon Hout.
  assert (Hlk : ∀ s, (s < n)%nat → ∃ mt e d, metas !! s = Some mt ∧ errs !! s = Some e ∧ ds !! s = Some d).
  { intros s Hs. destruct (lookup_lt_is_Some_2 metas s) as [mt Hmt]; [lia|].
    destruct (lookup_lt_is_Some_2 errs s) as [e Hes]; [lia|].
    destruct (lookup_lt_is_Some_2 ds s) as [d Hd]; [lia|]. eauto 10. }
  split; (split; [lia|]); intros s x Hx; (destruct (Hlk s) as (mt & e & d & Hmt & Hes & Hd);
    [apply lookup_lt_Some in Hx; lia|]); specialize (Hrep s mt e Hmt Hes); specialize (Hds s d Hd).
  - rewrite (Hon s mt e d Hmt Hes Hd), (report_holds _ _ _ Hrep) in Hx. injection Hx as <-. apply only_slot.
    unfold slot_is, is_current, hat0, hat, first_files in *.
    destruct (cls (blk dist s)), (role (blk dist s)); simpl in *; try done. by destruct d.
  - rewrite (Hout s mt e d Hmt Hes Hd), (report_lacks _ _ _ Hrep) in Hx. injection Hx as <-. apply only_slot.
    unfold slot_is, is_outdated in *. destruct (cls (blk dist s)); simpl; [|done..].
    destruct (role (blk dist s)); simpl in *; try done; by destruct d.
Qed.

(** The outdated disks are healed. *)
Lemma heal_outdated i0 (ds online outd : list (option D)) metas errs :
  slots (λ s, slot_is cls (hat0 first_files none) (blk dist s)) ds n → length metas = n → length errs = n →
  (∀ s x e, metas !! s = Some x → errs !! s = Some e → reports cls copy_report (blk dist s) x e) →
  slots (λ s, slot_is (only is_current) (hat0 healthy_files none) (blk dist s)) online n →
  slots (λ s, slot_is (only is_outdated) (hat0 first_files none) (blk dist s)) outd n →
  ∃ ds', heal_disks bitRotAlgo fuel env ds online outd bucket object metas errs (healthy_meta i0) = Ret (ds', None) ∧
    slots (λ s, slot_is cls (hat0 healthy_files none) (blk dist s)) ds' n.
Proof.
  intros Hds Hm He Hrep HL HO. unfold heal_disks. destruct (hr_quorum Hready) as (_ & _ & Hk).
  destruct (hr_layout Hready) as (HL1 & HL2 & HL3 & HL4). pose proof (hr_dist Hready) as Hp. fold n in Hp.
  destruct (purge_slots bucket object outd n (λ s, only is_outdated (blk dist s)) _
    (λ s, hat0 none none (blk dist s)) errs metas HO) as (outd1 & -> & HO1); [by intros; apply only_not_down|done|done| |].
  { intros s d mt e Hup HP Hmt Hes Hc. apply (purge_step _ d mt e Hup HP); [|by apply Hrep].
    rewrite <- only_up. by rewrite Hc. }
  cbn [mbind go_bind]. change (Distribution (Erasure (healthy_meta i0))) with (Distribution (Erasure mt0)). rewrite HL4.
  destruct (ordered_slots dist online n _ Hp HL) as (lat & -> & HL'). cbn [mbind go_bind].
  destruct (ordered_slots dist outd1 n (slot_is (only is_outdated) (hat0 none none)) Hp HO1) as (od & -> & HO').
  cbn [mbind go_bind]. unfold getOrderedPartsMetadata.
  destruct (scatter_perm dist n metas xlMetaV1_zero Hp) as (om & -> & Hom & _); [by rewrite Hm|]. cbn [mbind go_bind].
  change (Parts (healthy_meta i0)) with (Parts mt0). rewrite (hr_parts Hready).
  destruct (heal_parts_ok bitRotAlgo k m bs (hr_bs Hready) bucket object id files0 (hr_id Hready) (hr_clean Hready)
    (hr_tmp Hready) (hr_fresh Hready) is_current is_outdated Hk (hat0 healthy_files none)) with (fuel := fuel)
    (mt0 := healthy_meta i0) (ps := ps) (latest := lat) (outd := od) (stg := none) (csi := replicate (length od) ([] : list checkSumInfo))
    as (lat1 & od1 & csi & Hh & HL1' & HO1' & Hcl & Hcs); try done; try apply Hready.
  { apply hat_stable. } { intros i d HP. apply HP. }
  { intros q _. apply part_sums_algo. }
  { intros i d q HP Hq. rewrite (hs_obj _ _ _ _ _ _ _ HP). unfold healthy_files. rewrite decide_False.
    - apply part_files_some; [apply Hready|done].
    - pose proof (hr_part Hready) as Hall. rewrite Forall_forall in Hall. by destruct (Hall q Hq) as (_ & ? & _). }
  { rewrite length_replicate. apply HO'. } { by intros i r []. }
  unfold id in Hh. rewrite Hh. cbn [mbind go_bind].
  destruct (heal_finish i0 od1 csi om) as (out1 & ms & out2 & Hw & Hc & HO2).
  { eapply slots_impl; [|exact HO1']. intros i d Hd. eapply hstage_ext; [done| |exact Hd]. intros r. simpl.
    by destruct (part_files k m bs ps i r). }
  { unfold n in *. lia. }
  { intros i Hi Hb. rewrite (Hcs i [] Hb); [done|]. apply lookup_replicate_2. destruct HO'. lia. }
  rewrite Hw. cbn [mbind go_bind]. rewrite Hc. unfold heal_back.
  destruct (gather_slots dist lat1 n _ Hp HL1') as (lat2 & -> & HL2'). cbn [mbind go_bind].
  destruct (gather_slots dist out2 n _ Hp HO2) as (out3 & -> & HO3). cbn [mbind go_bind].
  eexists. split; [done|]. by eapply merge_slots.
Qed.

Lemma healObject_ok :
  ∃ ds, healObject bitRotAlgo fuel env disks bucket object quorum = Ret (ds, None) ∧
    slots (λ s, slot_is cls (hat0 healthy_files none) (blk dist s)) ds n.
Proof.
  unfold healObject. destruct (hr_quorum Hready) as ([Hq2 Hq] & Hmaj & Hk). fold n in Hq, Hmaj, Hk.
  destruct (hr_times Hready) as (Ht0 & Ht1 & Ht2 & Ht3). fold T in Ht0, Ht1, Ht2, Ht3.
  destruct (hr_layout Hready) as (HL1 & HL2 & HL3 & HL4).
  destruct (readAll_reports bucket object disks n (λ s, cls (blk dist s))
    (λ s, hat0 first_files none (blk dist s)) (λ s, copy_report (blk dist s)) (hr_disks Hready))
    as (ds & metas & errs & -> & Hds & Hm & He & Hrep).
  { apply blk_stable, hat_stable. } { intros s d. apply copy_reported. }
  assert (Hrep' : ∀ s x e, metas !! s = Some x → errs !! s = Some e →
    reports cls copy_report (blk dist s) x e) by (intros; by apply Hrep).
  clear Hrep. destruct (current_picked metas errs Hm He Hrep') as (Hvc & i0 & Hpick).
  assert (Hlm : length errs = length metas) by lia.
  assert (Hld : length ds = length metas) by (rewrite Hm; apply Hds).
  assert (Hmaj' : (length metas < 2 * version_count T metas errs)%nat) by lia.
  destruct (version_votes T metas errs [] ltac:(done)) as [Hv1 Hv2].
  unfold reduceReadQuorumErrs. rewrite reduceQuorumErrs_majority by lia.
  destruct (xlShouldHeal_majority (he_should env) T metas errs) as (b & -> & Hb); [done..|].
  cbn [mbind go_bind]. destruct b; cbn [negb].
  2: { eexists. split; [done|]. split; [apply Hds|]. intros s x Hx.
       destruct (lookup_lt_is_Some_2 metas s) as [mt Hmt]; [apply lookup_lt_Some in Hx; lia|].
       destruct (lookup_lt_is_Some_2 errs s) as [e Hes]; [apply lookup_lt_Some in Hx; lia|].
       pose proof (Forall2_lookup_lr _ _ _ _ _ _ (proj1 Hb eq_refl) Hmt Hes) as Hcur.
       specialize (Hrep' s mt e Hmt Hes). destruct Hds as [_ Hds]. specialize (Hds s x Hx).
       unfold slot_is, reports in *. destruct (cls (blk dist s)); [|done..]. destruct x as [d|]; [|done].
       destruct Hds as [Hup HP]. split; [done|]. unfold copy_report in Hrep'.
       unfold hat0, hat, first_files in *. destruct (role (blk dist s)) eqn:Er; [done| |].
       - destruct Hrep' as [-> ->]. destruct Hcur as [?|[_ Ht]]; [done|]. by destruct (sv_time _ _ (hr_stale Hready _ Er)).
       - destruct Hrep' as [-> ->]. by destruct Hcur as [?|[? _]]. }
  destruct (listOnlineDisks_majority (he_online env) T ds metas errs) as (online & -> & Hlo & Hon); [done..|].
  cbn [mbind go_bind].
  destruct (outDatedDisks_majority (he_outdated env) T ds metas errs) as (outd & -> & Hlout & Hout); [done..|].
  cbn [mbind go_bind]. rewrite Hpick.
  destruct (heal_split ds online outd metas errs) as [HL HO]; [done..|]. by apply heal_outdated.
Qed.

End HealObject.

(** ** Correctness *)

Section Theorems.
Context `{JsonContract} `{MapOrder, Hashes} `{RS : ReedSolomon}.
Context {D : Type} `{!StorageAPI D} `{!StorageContract D} `{!Volumes D} `{!DiskContract D}.

(** C7.  Healing restores the redundancy.  Let the disks that are up hold the
    current version of the object (more than half of all disks, at least as many
    as there are data blocks, and the read quorum), an outdated version or
    nothing; the others are unreachable or missing.  [HealObject] then returns
    without an error, and every disk that is up holds exactly the files of the
    current version for its block: the shards of every part, rebuilt from the
    other disks, and the metadata with their checksums.  The staging directory is
    empty and no other file has changed on any disk. *)
Theorem HealObject_correct (bitRotAlgo : string) (k m bs : nat) `{!RSContract k m} (env : heal_env) (xl : xlObjects D)
    (bucket object : string) (fuel : nat) mt0 ps dist cls role smeta sfiles files0 :
  checkGetObjArgs bucket object = None →
  heal_ready bitRotAlgo k m bs env (storageDisks xl) bucket object (readQuorum xl) fuel mt0 ps dist cls role
    smeta sfiles files0 →
  ∃ xl', HealObject bitRotAlgo fuel env xl bucket object = Ret (xl', None) ∧
    length (storageDisks xl') = (k + m)%nat ∧
    ∀ s, (s < k + m)%nat → cls (blk dist s) = DiskUp →
      ∃ d b, storageDisks xl' !! s = Some (Some d) ∧ up d ∧
        json_Marshal (healthy_meta bitRotAlgo k m bs mt0 ps (blk dist s)) = inl b ∧
        (∀ r, file_at d bucket (object +:+ "/" +:+ r) =
          if decide (r = xlMetaJSONFile) then Some b else part_files k m bs ps (blk dist s) r) ∧
        (∀ r, file_at d minioMetaTmpBucket (he_tmpID env +:+ "/" +:+ r) = None) ∧
        ∀ v p, ¬ (v = bucket ∧ HasPrefix p (object +:+ "/") = true) →
          ¬ (v = minioMetaTmpBucket ∧ HasPrefix p (he_tmpID env +:+ "/") = true) →
          file_at d v p = files0 (blk dist s) v p.
Proof.
  intros Hargs Hready. unfold HealObject. rewrite Hargs.
  destruct (healObject_ok bitRotAlgo k m bs env _ bucket object _ fuel mt0 ps dist cls role smeta sfiles files0 Hready)
    as (ds & -> & Hds). cbn [mbind go_bind]. eexists. split; [done|]. split; [apply Hds|]. intros s Hs Hc.
  destruct (slots_up (λ s, cls (blk dist s)) _ ds _ s Hds Hs Hc) as (d & Hd & Hup & Hst).
  exists d, (healthy_json bitRotAlgo k m bs mt0 ps (blk dist s)).
  split_and!; [done|done|by eapply healthy_json_ok| | |]; apply Hst.
Qed.

(** Every disk that is up gets the bucket. *)
Lemma heal_vols_ok bucket : IsValidBucketName bucket = true →
  ∀ (ds : list (option D)) n cls (P : nat → D → Prop),
  slots (slot_is cls P) ds n → (∀ i d, P i d → has_vol d bucket ∨ ¬ has_vol d bucket) →
  ∃ ds' errs, heal_vols ds bucket = (ds', errs) ∧
    slots (slot_is cls (λ i d', ∃ d, P i d ∧ has_vol d' bucket ∧ ∀ v, (has_vol d v → has_vol d' v) ∧
      ∀ p, file_at d' v p = file_at d v p)) ds' n ∧
    slots (outcome cls None) errs n.
Proof.
  intros Hval. induction ds as [|x ds IH]; intros n cls P HR Hdec.
  { apply slots_nil_inv in HR as ->. exists [], []. by split_and!. }
  apply slots_cons_inv in HR as (m & -> & Hx & HR). cbn [heal_vols].
  destruct (IH m (λ i, cls (S i)) (λ i, P (S i)) HR) as (ds' & errs & -> & Hds & He); [intros i d; apply Hdec|].
  unfold slot_is in Hx. destruct x as [d|]; destruct (cls 0%nat) eqn:Hc; try done.
  - destruct Hx as [Hup HP]. unfold heal_vol. destruct (Hdec _ _ HP) as [Hv|Hv].
    + destruct (up_StatVol d bucket Hup Hv) as (d' & i & -> & Hup' & [Hkv Hkf]). eexists _, _. split; [done|].
      split; apply slots_cons; (split; [|done]); [unfold slot_is|unfold outcome]; rewrite Hc; [|done].
      split; [done|]. exists d. split_and!; [done|by apply Hkv|]. intros v. split; [apply Hkv|]. intros p. by apply Hkf.
    + destruct (up_StatVol_none d bucket Hup Hv) as (d1 & i & -> & Hup1 & [Hkv Hkf] & Hv1). cbn [negb err_eqb].
      destruct (up_MakeVol d1 bucket Hup1 Hval) as (d2 & e & -> & Hup2 & [Hkv2 Hkf2] & Hhas & [[_ ->]|[? _]]); [|done].
      eexists _, _. split; [done|].
      split; apply slots_cons; (split; [|done]); [unfold slot_is|unfold outcome]; rewrite Hc; [|done].
      split; [done|]. exists d. split_and!; [done|done|]. intros v. split.
      * intros Hd. destruct (decide (v = bucket)) as [->|Hne]; [done|]. by apply Hkv2, Hkv.
      * intros p. by rewrite Hkf2, Hkf.
  - unfold heal_vol. destruct (down_StatVol d bucket Hx) as (d' & i & e & -> & Hd' & He').
    assert (Hbase : err_eqb (Some e) (Some (errVolumeNotFound : error)) = false ∧ disk_err (errorCause (traceError (Some e) []))).
    { unfold disk_err, baseErrs in *. rewrite !elem_of_cons in He'.
      destruct He' as [[= ->]|[[= ->]|[[= ->]|?%not_elem_of_nil]]]; [..|done]; (split; [done|]); simpl;
        rewrite !elem_of_cons; auto. }
    destruct Hbase as [-> Hde]. cbn [negb]. eexists _, _. split; [done|].
    split; apply slots_cons; (split; [|done]); [unfold slot_is|unfold outcome]; by rewrite Hc.
  - eexists _, _. split; [done|]. split; apply slots_cons; (split; [|done]); [unfold slot_is|unfold outcome]; rewrite Hc; [done|].
    unfold disk_err, baseErrs. simpl. rewrite !elem_of_cons. auto.
Qed.

(** Healing a bucket.  With a write quorum of disks that are up,
    [healBucket] succeeds and every one of them has the bucket, with its files
    as before; a disk that was unreachable is left alone.  Without a quorum it
    fails with InsufficientWriteQuorum. *)
Theorem healBucket_correct bucket (wq : nat) (ds : list (option D)) n cls (P : nat → D → Prop) :
  IsValidBucketName bucket = true → slots (slot_is cls P) ds n →
  (∀ i d, P i d → has_vol d bucket ∨ ¬ has_vol d bucket) → (2 ≤ wq)%nat →
  ∃ ds' err, healBucket ds bucket wq = (ds', err) ∧
    if (wq <=? count_good (λ i, is_up (cls i)) n)%nat then
      err = None ∧
      slots (slot_is cls (λ i d', ∃ d, P i d ∧ has_vol d' bucket ∧ ∀ v, (has_vol d v → has_vol d' v) ∧
        ∀ p, file_at d' v p = file_at d v p)) ds' n
    else errorCause err = Some (InsufficientWriteQuorum : error).
Proof.
  intros Hval HR Hdec Hq. unfold healBucket.
  destruct (heal_vols_ok bucket Hval ds n cls P HR Hdec) as (ds' & errs & -> & Hds & He).
  rewrite (uniform_quorum None errs n cls wq) by done.
  destruct (Nat.leb_spec wq (count_good (λ i, is_up (cls i)) n)) as [Hle|Hlt]; cbn [negb].
  - rewrite (uniform_reduce bucketOpIgnoredErrs None errs n cls wq); try done; [by eexists _, _|].
    intros b Hb. apply elem_of_app. by left.
  - by eexists _, _.
Qed.

End Theorems.

(** ** Witnesses *)

(** Three disks with 2 data blocks and 1 parity block: the disks of the blocks 0
    and 1 hold the current version, that of block 2 an outdated one. *)
Definition heal_data : bytes := bytes_of_string "hello, world".
Definition heal_part : objectPartInfo := ObjectPartInfo 1 "part.1" "" 12.

Definition heal_meta (t : time) : xlMetaV1 :=
  XLMetaV1 xlMetaVersion xlMetaFormat (StatInfo 12 t)
    (ErasureInfo erasureAlgorithmKlauspost 2 1 5 0 [3; 1; 2] []) "rel" ∅ [heal_part].

Definition heal_json (mt : xlMetaV1) : bytes := match json_Marshal mt with inl b => b | inr _ => [] end.

Definition object_files (b c : bytes) : gmap (string * string) bytes :=
  {[ ("bucket", "object/xl.json") := b; ("bucket", "object/part.1") := c ]}.

Definition heal_disk_files (i : nat) : gmap (string * string) bytes :=
  if (i =? 2)%nat then object_files (heal_json (heal_meta 5)) (bytes_of_string "old")
  else object_files (healthy_json blake2bAlgo 2 1 5 (heal_meta 77) [(heal_part, heal_data)] i)
         (shard_file 2 1 5 heal_data i).

Definition heal_disk (i : nat) : MemDisk :=
  {| mem_files := heal_disk_files i; mem_vols := {["bucket"; minioMetaTmpBucket]}; mem_offline := false |}.

Definition heal_xl : xlObjects MemDisk :=
  {| storageDisks := [Some (heal_disk 2); Some (heal_disk 0); Some (heal_disk 1)]; dataBlocks := 2; parityBlocks := 1;
     readQuorum := 2; writeQuorum := 2; objCache := demo_cache; objCacheEnabled := false |}.

Definition heal_demo_env : heal_env :=
  {| he_should := 1000; he_online := 1001; he_outdated := 1002; he_tmpID := "tmp-1" |}.

Definition heal_role (i : nat) : copy := if (i =? 2)%nat then Stale else Current.

Definition old_files (r : string) : option bytes :=
  if decide (r = xlMetaJSONFile) then Some (heal_json (heal_meta 5))
  else if decide (r = "part.1") then Some (bytes_of_string "old") else None.

Lemma object_files_lookup b c r :
  object_files b c !! ("bucket", "object" +:+ "/" +:+ r) =
    if decide (r = xlMetaJSONFile) then Some b else if decide (r = "part.1") then Some c else None.
Proof.
  unfold object_files. destruct (decide (r = xlMetaJSONFile)) as [->|H1]; [by rewrite lookup_insert_eq|].
  rewrite lookup_insert_ne by (intros [= E]; by apply H1).
  destruct (decide (r = "part.1")) as [->|H2]; [by rewrite lookup_singleton_eq|].
  rewrite lookup_singleton_ne; [done|]. intros [= E]. by apply H2.
Qed.

Lemma object_files_inv b c v p x : object_files b c !! (v, p) = Some x →
  v = "bucket" ∧ (p = "object/xl.json" ∨ p = "object/part.1").
Proof.
  intros Hc. unfold object_files in Hc. apply lookup_insert_Some in Hc as [[[= <- <-] _]|[_ Hc]]; [by auto|].
  apply lookup_singleton_Some in Hc as [[= <- <-] _]. by auto.
Qed.

Lemma heal_files_inv i v p x : heal_disk_files i !! (v, p) = Some x →
  v = "bucket" ∧ (p = "object/xl.json" ∨ p = "object/part.1").
Proof. unfold heal_disk_files. destruct (i =? 2)%nat; apply object_files_inv. Qed.

Lemma heal_files_tmp i p : heal_disk_files i !! (minioMetaTmpBucket, p) = None.
Proof. destruct (heal_disk_files i !! _) eqn:E; [|done]. by apply heal_files_inv in E as [? _]. Qed.

Lemma heal_disk_up i : up (heal_disk i).
Proof.
  split; [done|]. intros v p [c Hc]. apply heal_files_inv in Hc as [_ [-> | ->]];
    by apply (bool_decide_unpack _); vm_compute.
Qed.

Lemma heal_disk_stage i :
  hat "bucket" "object" "tmp-1" (λ i v p, heal_disk_files i !! (v, p))
    (first_files blake2bAlgo 2 1 5 (heal_meta 77) [(heal_part, heal_data)] heal_role (λ _, old_files)) none i (heal_disk i).
Proof.
  split; try done; [by apply (bool_decide_unpack _); vm_compute..| |].
  - intros r. unfold first_files, heal_role. change (file_at (heal_disk i)) with (λ v p, heal_disk_files i !! (v, p)).
    cbv beta. unfold heal_disk_files. destruct (i =? 2)%nat; rewrite object_files_lookup; [done|].
    unfold healthy_files. simpl. done.
  - intros r. apply heal_files_tmp.
Qed.

Lemma heal_demo_ready :
  heal_ready blake2bAlgo 2 1 5 heal_demo_env (storageDisks heal_xl) "bucket" "object" 2 4 (heal_meta 77)
    [(heal_part, heal_data)] [3; 1; 2] (λ _, DiskUp) heal_role (λ _, heal_meta 5) (λ _, old_files)
    (λ i v p, heal_disk_files i !! (v, p)).
Proof.
  split; try done.
  1-2: by apply (bool_decide_unpack _); vm_compute.
  - lia.
  - change [3; 1; 2] with ([3] ++ [1; 2]). rewrite Permutation_app_comm. done.
  - apply NoDup_singleton.
  - constructor; [|constructor]. split_and!; try done.
    + apply part1_plain.
    + apply Nat.ltb_lt. by vm_compute.
    + apply Nat.ltb_lt. by vm_compute.
  - split_and!; apply Nat.leb_le; by vm_compute.
  - intros i _. split; [done|apply NoDup_singleton| | |].
    + intros p ->%list_elem_of_singleton. split; [apply part1_plain|done].
    + eexists. split; [done|]. unfold old_files. by rewrite decide_True.
    + intros r. unfold old_files. simpl. rewrite list_elem_of_singleton. repeat case_decide; subst; split; eauto; by intros [].
  - split; [done|]. intros s x Hx.
    destruct s as [|[|[|s]]]; simpl in Hx; simplify_eq; (split; [apply heal_disk_up|apply heal_disk_stage]).
  - intros i. apply heal_files_tmp.
  - intros i a Ha. destruct (heal_disk_files i !! _) eqn:E; [|done]. exfalso.
    apply heal_files_inv in E as [_ E].
    destruct Ha as [->|[r Hr]]; [by destruct E|].
    destruct E as [-> | ->]; apply (f_equal bytes_of_string) in Hr; vm_compute in Hr; done.
  - intros mt. by eexists.
Qed.

Lemma HealObject_correct_witness :
  ∃ xl' d, HealObject (H := map_order_rev) blake2bAlgo 4 heal_demo_env heal_xl "bucket" "object" = Ret (xl', None) ∧
    storageDisks xl' !! 0%nat = Some (Some d) ∧
    file_at d "bucket" "object/part.1" = Some (shard_file 2 1 5 heal_data 2).
Proof.
  destruct (HealObject_correct (H2 := map_order_rev) blake2bAlgo 2 1 5 heal_demo_env heal_xl "bucket" "object" 4
    (heal_meta 77) [(heal_part, heal_data)] [3; 1; 2] (λ _, DiskUp) heal_role (λ _, heal_meta 5) (λ _, old_files)
    (λ i v p, heal_disk_files i !! (v, p)) ltac:(by vm_compute) heal_demo_ready) as (xl' & Heq & _ & Hd).
  destruct (Hd 0%nat ltac:(lia) eq_refl) as (d & b & Hs & _ & _ & Hf & _).
  exists xl', d. split_and!; [exact Heq|exact Hs|exact (Hf "part.1")].
Defined.

(** Two of three disks are up, one of them without the bucket. *)
Lemma healBucket_correct_witness :
  ∃ ds', healBucket (H := map_order_id) [Some (heal_disk 0); Some (bucket_disk false); None] "photos" 2 = (ds', None) ∧
    length ds' = 3%nat.
Proof.
  destruct (healBucket_correct (H2 := map_order_id) (D := MemDisk) "photos" 2
    [Some (heal_disk 0); Some (bucket_disk false); None] 3
    (λ i, match i with 2%nat => DiskGone | _ => DiskUp end) (λ _ _, True)) as (ds' & err & Heq & Hres).
  - by vm_compute.
  - split; [done|]. intros s x Hx. assert (Hup : up (bucket_disk false)) by (split; [done|]; by intros v p [c ?]).
    pose proof (heal_disk_up 0). destruct s as [|[|[|s]]]; simpl in Hx; simplify_eq; by split.
  - intros i d _. destruct (decide (has_vol d "photos")); auto.
  - lia.
  - assert ((2 <=? count_good (λ i, is_up (match i with 2%nat => DiskGone | _ => DiskUp end)) 3)%nat = true) as Hc
      by (by vm_compute).
    rewrite Hc in Hres. destruct Hres as [-> [Hl _]]. by exists ds'.
Defined.
