(* ===== verification/XLRedundancy.v ===== *)
(** * Redundancy is restored

    The composition of [PutObject], [HealObject] and [GetObject]: disks are
    replaced by empty ones after an object was stored, the object is healed, and
    then the data survives the loss of other disks. *)

From S2P Require Import Prelude.
From S2P Require Import GoErrors.
From S2P Require Import GoStrings.
From S2P Require Import Quorum.
From S2P Require Import Distribution.
From S2P Require Import XLMeta.
From S2P Require Import Storage.
From S2P Require Import Bpool.
From S2P Require Import Erasure.
From S2P Require Import ErasureSpec.
From S2P Require Import XorCode.
From S2P Require Import ErasureRead.
From S2P Require Import ErasureWrite.
From S2P Require Import Healing.
From S2P Require Import ObjectNames.
From S2P Require Import DiskContract.
From S2P Require Import XLDisk.
From S2P Require Import XLCommon.
From S2P Require Import XLBucket.
From S2P Require Import XLObject.
From S2P Require Import XLPut.
From S2P Require Import XLStage.
From S2P Require Import XLPutGet.
From S2P Require Import XLHeal.
From S2P Require Import XLHealed.

Local Open Scope Z_scope.

(** The disks of some blocks are replaced by new ones. *)
Definition replace_disks {D} (dist : list Z) (fresh : nat → option D) (ds : list (option D)) : list (option D) :=
  imap (λ s d, match fresh (blk dist s) with Some f => Some f | None => d end) ds.

(** The disk of a block. *)
Lemma block_disks {A} (dist : list Z) n (ds : list (option A)) :
  dist ≡ₚ seqZ 1 (Z.of_nat n) → length ds = n →
  ∃ g : nat → option A, ∀ s x, ds !! s = Some x → g (blk dist s) = x.
Proof.
  intros Hp Hl. destruct (scatter_perm dist n ds None Hp Hl) as (r & _ & _ & Hr).
  exists (λ i, default None (r !! i)). intros s x Hx.
  destruct (lookup_lt_is_Some_2 dist s) as [b Hb].
  { rewrite Hp, length_seqZ, Nat2Z.id. rewrite <- Hl. by eapply lookup_lt_Some. }
  unfold blk. by rewrite (list_lookup_total_correct _ _ _ Hb), (Hr s b x Hb Hx).
Qed.

Section Restore.
Context `{JsonContract} `{MapOrder, Hashes} `{RS : ReedSolomon}.
Context {D : Type} `{!StorageAPI D} `{!StorageContract D} `{!StorageReads D} `{!Volumes D} `{!DiskContract D}.
Context {W : Type} `{!IOWriter W} `{!IOWriterContract W}.
Context (bitRotAlgo ReleaseTag : string).
Context (md5_Sum : bytes → bytes) (mimedb_DB : string → option string).
Context (k m : nat) `{!RSContract k m}.
Context (env : put_env) (xl : xlObjects D) (bucket object : string) (data : bytes) (fuel : nat).
Context (metadata : gmap string string) (dist : list Z).
Context (cls : nat → disk_state) (files0 : nat → string → string → option bytes).
Context (Hready : put_ready k m env xl bucket object data fuel dist cls files0).
(** The healing, and the new disks by block. *)
Context (henv : heal_env) (fresh : nat → option D).

Let n := (k + m)%nat.

(** A new disk has the volumes, and nothing of the object. *)
Record fresh_disk (d : D) : Prop := {
  fd_up : up d;
  fd_bucket : has_vol d bucket;
  fd_tmp : has_vol d minioMetaTmpBucket;
  fd_object : ∀ r, file_at d bucket (object +:+ "/" +:+ r) = None;
  fd_above : ∀ a, ancestor a object → file_at d bucket a = None;
  fd_staging : ∀ r, file_at d minioMetaTmpBucket (he_tmpID henv +:+ "/" +:+ r) = None;
  fd_id : file_at d minioMetaTmpBucket (he_tmpID henv) = None;
}.

(** The conditions of the healing. *)
Record restore_ready : Prop := {
  rr_id : plain_elem (he_tmpID henv);
  rr_ids : he_tmpID henv ≠ uniqueID env ∧ he_tmpID henv ≠ newUniqueID env;
  rr_unused : ∀ i, files0 i minioMetaTmpBucket (he_tmpID henv) = None ∧
    ∀ r, files0 i minioMetaTmpBucket (he_tmpID henv +:+ "/" +:+ r) = None;
  rr_fresh : ∀ i d, fresh i = Some d → fresh_disk d;
  rr_times : put_modTime env ≠ timeSentinel ∧ put_modTime env ≠ he_should henv ∧
    put_modTime env ≠ he_online henv ∧ put_modTime env ≠ he_outdated henv;
  rr_kept : let kept := count_good (λ i, is_up (cls i) && negb (bool_decide (is_Some (fresh i)))) (k + m) in
    (2 ≤ readQuorum xl ≤ kept)%nat ∧ (k + m < 2 * kept)%nat ∧ (k ≤ kept)%nat;
}.

Context (Hrestore : restore_ready) (data_pos : (0 < length data)%nat).

Definition cls_after (i : nat) : disk_state := match fresh i with Some _ => DiskUp | None => cls i end.
Definition role_after (i : nat) : copy := match fresh i with Some _ => Missing | None => Current end.

Section BlockSize.
Context (bs : nat) (bs_eq : Z.to_nat blockSizeV1 = bs).

Let part := ObjectPartInfo 1 "part.1" (hex_encode (md5_Sum data)) (zlen data).
Let meta := put_meta ReleaseTag md5_Sum mimedb_DB k m env object data metadata dist (zlen data).
Let files := new_files bitRotAlgo ReleaseTag md5_Sum mimedb_DB k m env object data metadata dist bs.
Let holds := holds_new (D := D) bitRotAlgo ReleaseTag md5_Sum mimedb_DB k m env bucket object data metadata dist bs.
Let hfiles := healthy_files bitRotAlgo k m bs meta [(part, data)].

Lemma healthy_block_meta i :
  healthy_meta bitRotAlgo k m bs meta [(part, data)] i =
    block_meta bitRotAlgo ReleaseTag md5_Sum mimedb_DB k m env object data metadata dist bs i.
Proof. done. Qed.

Lemma healthy_new_files i r : hfiles i r = files i r.
Proof. unfold hfiles, files, healthy_files, new_files, version_files, staged_part. simpl. done. Qed.

(** A disk after the put, as the healing finds it. *)
Lemma committed_hstage i d fs :
  committed bucket object (uniqueID env) (newUniqueID env) files0 fuel files i d → (∀ v p, file_at d v p = fs v p) →
  hstage bucket object (he_tmpID henv) fs (hfiles i) (λ _, None) d ∧
  fs minioMetaTmpBucket (he_tmpID henv) = None ∧ ∀ a, ancestor a object → fs bucket a = None.
Proof.
  intros (nw & Hs & _) Hfs. destruct (rr_ids Hrestore) as [Hid1 Hid2].
  assert (Hframe : ∀ p, HasPrefix p (uniqueID env +:+ "/") = false → HasPrefix p (newUniqueID env +:+ "/") = false →
    file_at d minioMetaTmpBucket p = files0 i minioMetaTmpBucket p).
  { intros p H1' H2'. apply (stage_frame _ _ _ _ _ _ _ _ _ Hs).
    - intros [_ [E|E]]; congruence.
    - intros [E _]. by apply Hready. }
  assert (Hnb : ∀ e r, plain_elem e → he_tmpID henv ≠ e → HasPrefix (he_tmpID henv +:+ "/" +:+ r) (e +:+ "/") = false).
  { intros e r He Hne. destruct (HasPrefix _ _) eqn:E; [|done]. by destruct (not_below (he_tmpID henv) e r (rr_id Hrestore) He Hne). }
  assert (Hne : ∀ e, HasPrefix (he_tmpID henv) (e +:+ "/") = false).
  { intros e. destruct (HasPrefix _ _) eqn:E; [|done]. by destruct (elem_not_below (he_tmpID henv) e (rr_id Hrestore)). }
  split_and!.
  - split; [apply Hs|apply Hs|done| |].
    + intros r. rewrite (stage_obj _ _ _ _ _ _ _ _ _ Hs). symmetry. apply healthy_new_files.
    + intros r. rewrite Hframe by (apply Hnb; [apply Hready|done]). apply (rr_unused Hrestore).
  - rewrite <- Hfs, Hframe by apply Hne. apply (rr_unused Hrestore).
  - intros a Ha. rewrite <- Hfs. rewrite (stage_frame _ _ _ _ _ _ _ _ _ Hs).
    + by apply Hready.
    + intros [E _]. by apply Hready.
    + intros [_ E]. by rewrite ancestor_not_below in E.
Qed.

(** The files of the disks that are up, by block. *)
Definition files_after (g : nat → option D) (i : nat) (v p : string) : option bytes :=
  if (i <? n)%nat then match cls_after i, g i with DiskUp, Some d => file_at d v p | _, _ => None end else None.

Lemma replaced_slot (ds : list (option D)) g s x :
  slots (λ s, slot_is cls (committed bucket object (uniqueID env) (newUniqueID env) files0 fuel files) (blk dist s)) ds n →
  replace_disks dist fresh ds !! s = Some x → g (blk dist s) = x → (blk dist s < n)%nat →
  let fs := files_after g in
  slot_is cls_after (hat bucket object (he_tmpID henv) fs
    (first_files bitRotAlgo k m bs meta [(part, data)] role_after (λ _ _, None)) none) (blk dist s) x ∧
  fs (blk dist s) minioMetaTmpBucket (he_tmpID henv) = None ∧
  ∀ a, ancestor a object → fs (blk dist s) bucket a = None.
Proof.
  intros [_ HR] Hx Hg Hs fs. unfold replace_disks in Hx. rewrite list_lookup_imap in Hx.
  destruct (ds !! s) as [y|] eqn:Hy; [|done]. specialize (HR s y Hy). simpl in Hx. injection Hx as Hx.
  set (i := blk dist s) in *. unfold slot_is, hat, first_files, role_after.
  assert (Hfs : ∀ v p, fs i v p = match cls_after i, x with DiskUp, Some d => file_at d v p | _, _ => None end).
  { intros v p. unfold fs, files_after. by rewrite (proj2 (Nat.ltb_lt _ _) Hs), Hg. }
  unfold cls_after in *. destruct (fresh i) as [f|] eqn:Ef.
  - subst x. destruct (rr_fresh Hrestore i f Ef). split_and!; [done| | |].
    + by split.
    + by rewrite Hfs.
    + intros a Ha. rewrite Hfs. auto.
  - rewrite <- Hx in *. unfold slot_is in HR. destruct (cls i), y as [d|]; try done.
    destruct HR as [Hup HP]. destruct (committed_hstage i d (fs i) HP) as (? & ? & ?); [by intros; rewrite Hfs|].
    by split_and!.
Qed.

Lemma heal_after_put ds :
  slots (λ s, slot_is cls (committed bucket object (uniqueID env) (newUniqueID env) files0 fuel files) (blk dist s)) ds n →
  ∃ fs, heal_ready bitRotAlgo k m bs henv (replace_disks dist fresh ds) bucket object (readQuorum xl) (S fuel) meta
    [(part, data)] dist cls_after role_after (λ _, xlMetaV1_zero) (λ _ _, None) fs.
Proof.
  intros HR. set (rds := replace_disks dist fresh ds).
  pose proof (dist_perm k m env xl bucket object data fuel dist cls files0 Hready) as Hp. fold n in Hp.
  assert (Hlr : length rds = n) by (unfold rds, replace_disks; rewrite length_imap; apply HR).
  destruct (block_disks dist n rds Hp Hlr) as [g Hg]. destruct (blk_onto dist n Hp) as [Hon1 Hon2].
  assert (Hslot : ∀ s x, rds !! s = Some x → _) by
    (intros s x Hx; exact (replaced_slot ds g s x HR Hx (Hg s x Hx)
       (Hon1 s ltac:(rewrite <- Hlr; by eapply lookup_lt_Some)))).
  assert (Hfs : ∀ i, files_after g i minioMetaTmpBucket (he_tmpID henv) = None ∧
    ∀ a, ancestor a object → files_after g i bucket a = None).
  { intros i. destruct (Nat.ltb_spec i n) as [Hi|Hi].
    - destruct (Hon2 i Hi) as (s & Hs & <-). destruct (lookup_lt_is_Some_2 rds s) as [x Hx]; [lia|].
      by destruct (Hslot s x Hx) as [_ ?].
    - unfold files_after. by rewrite (proj2 (Nat.ltb_ge _ _) Hi). }
  exists (files_after g). pose proof (bs_of_nat k m bs bs_eq) as Hbz. destruct (rr_kept Hrestore) as (Hq & Hmaj & Hk).
  assert (Hcount : count_good (is_current cls_after role_after) (k + m) =
    count_good (λ i, is_up (cls i) && negb (bool_decide (is_Some (fresh i)))) (k + m)).
  { apply count_good_ext. intros i. unfold is_current, cls_after, role_after.
    destruct (fresh i) as [f|]; [rewrite bool_decide_true by eauto|rewrite bool_decide_false by (by intros [])];
      by destruct (is_up (cls i)). }
  split; try done; try apply Hready; try apply Hrestore.
  - apply (bs_positive k m bs bs_eq).
  - repeat constructor. apply not_elem_of_nil.
  - constructor; [|constructor]. split_and!; simpl; [apply part1_plain|done|done|done|].
    pose proof (blocks_fuel k m env xl bucket object data fuel dist cls files0 Hready bs bs_eq). lia.
  - by rewrite Hcount.
  - intros i. unfold role_after. by destruct (fresh i).
  - split; [done|]. intros s x Hx. by destruct (Hslot s x Hx) as [? _].
  - intros i. apply Hfs.
  - intros i. apply Hfs.
Qed.

(** The healed disks hold the new version. *)
Lemma HealObject_after_put ds :
  slots (λ s, slot_is cls (committed bucket object (uniqueID env) (newUniqueID env) files0 fuel files) (blk dist s)) ds n →
  ∃ ds', HealObject bitRotAlgo (S fuel) henv (set_disks xl (replace_disks dist fresh ds)) bucket object =
      Ret (set_disks xl ds', None) ∧
    slots (λ s, slot_is cls_after holds (blk dist s)) ds' n.
Proof.
  intros HR. destruct (heal_after_put ds HR) as [fs Hheal]. unfold HealObject.
  assert (checkGetObjArgs bucket object = None) as ->.
  { unfold checkGetObjArgs, checkBucketAndObjectNames.
    assert (Hb : IsValidBucketName bucket = true) by apply Hready.
    assert (Ho : IsValidObjectName object = true) by apply Hready. by rewrite Hb, Ho. }
  destruct (healObject_ok bitRotAlgo k m bs henv _ bucket object _ (S fuel) meta [(part, data)] dist cls_after role_after
    _ _ fs Hheal) as (ds' & Heq & Hds).
  cbn [storageDisks readQuorum set_disks]. rewrite Heq. cbn [mbind go_bind]. exists ds'. split; [done|].
  eapply (slots_impl (λ s, cls_after (blk dist s))); [|exact Hds]. intros s d Hd. split; [apply Hd|].
  intros r. rewrite (hs_obj _ _ _ _ _ _ _ Hd). apply healthy_new_files.
Qed.

End BlockSize.

Context (size : Z) (sha256sum : string).
Context (size_ok : size = zlen data ∨ size = -1).
Context (md5_ok : default "" (metadata !! "md5Sum") = "" ∨
                  metadata !! "md5Sum" = Some (hex_encode (md5_Sum data))).
Context (sha_ok : sha256sum = "" ∨ sha256sum = hex_encode (sha256_Sum data)).
Context (cache_off : objCacheEnabled xl = false).

(** C1.  The data survives more failures than the code has parity blocks when the
    object is healed in between.  An object is stored; the disks of some blocks
    are then replaced by empty ones, such that the others are a read quorum, more
    than half and as many as the data blocks; [HealObject] rebuilds the object on
    the new disks.  Now any disks go missing, under the same conditions on those
    that are left, the new ones included: [GetObject] of a non-empty range
    returns exactly that range of the data.  The data is not empty and matches
    its announced size and digests, the checksums are those of BLAKE2b, which
    [GetObject] always verifies with, and the object cache is off, so that the
    read goes to the disks. *)
Theorem PutObject_HealObject_GetObject (lost : nat → bool) (rfuel : nat) pools timeNow cacheNow closeNow
    (w : W) off len length_ :
  let left := count_good (λ i, is_up (if lost i then DiskGone else cls_after i)) (k + m) in
  (k ≤ left)%nat → (k + m < 2 * left)%nat → (readQuorum xl ≤ left)%nat →
  bitRotAlgo ≠ sha256Algo → (∀ b, hex_encode (blake2b_Sum b) ≠ "") → put_modTime env ≠ timeNow →
  is_int64 (zlen data) → (length data < rfuel)%nat →
  (∀ i, pool_wf (pools i) ∧ (k + m ≤ length (pool_used (pools i)))%nat ∧
        blockSizeV1 ≤ Z.of_nat k * Z.of_nat (pool_size (pools i))) →
  w_accepts w → (0 < len)%nat → (off + len ≤ length data)%nat →
  length_ = Z.of_nat len ∨ (length_ < 0 ∧ (off + len = length data)%nat) →
  ∃ xl1 info, PutObject bitRotAlgo ReleaseTag md5_Sum mimedb_DB (S fuel) env xl bucket object size
      {| rd_data := data; rd_err := io_EOF : error |} metadata sha256sum = Ret (xl1, (info, None)) ∧
  ∃ xl2, HealObject bitRotAlgo (S fuel) henv
      (set_disks xl1 (replace_disks dist fresh (storageDisks xl1))) bucket object = Ret (xl2, None) ∧
  ∃ xl3 w', GetObject bitRotAlgo rfuel pools timeNow cacheNow closeNow
      (set_disks xl2 (lose_disks dist lost (storageDisks xl2))) bucket object
      (Z.of_nat off) length_ (Some w) = Ret (xl3, Some w', None) ∧
    written w' = written w ++ take len (drop off data).
Proof.
  intros left Hk Hmaj Hq Halgo Hsums Ht Hi Hrf Hpools Hw Hlen Hle Hl.
  destruct (PutObject_ok bitRotAlgo ReleaseTag md5_Sum mimedb_DB k m env xl bucket object data fuel metadata dist cls
    files0 Hready _ eq_refl size sha256sum data_pos size_ok md5_ok sha_ok cache_off) as (ds & -> & Hds).
  eexists _, _. split; [done|]. destruct (HealObject_after_put _ eq_refl ds Hds) as (ds2 & Hheal & Hds2).
  exists (set_disks xl ds2). split; [exact Hheal|].
  apply (GetObject_committed bitRotAlgo ReleaseTag md5_Sum mimedb_DB k m env xl bucket object data fuel metadata dist cls
    files0 Hready _ eq_refl (λ i, if lost i then DiskGone else cls_after i) rfuel Halgo Hsums data_pos Hrf
    (proj1 (rr_times Hrestore)) (lose_disks dist lost ds2) pools); try done.
  - by apply lose_slots.
  - apply (rr_kept Hrestore).
Qed.

End Restore.

(** ** Witness *)

(** The disk of block 0 is replaced and the object healed; then the disk of
    block 1 is lost. *)
Definition empty_disk : MemDisk :=
  {| mem_files := ∅; mem_vols := {["bucket"; minioMetaTmpBucket]}; mem_offline := false |}.

Definition demo_fresh (i : nat) : option MemDisk := if (i =? 0)%nat then Some empty_disk else None.

Lemma demo_restore :
  restore_ready 2 1 put_demo_env put_xl "bucket" "object" (λ _, DiskUp) put_before heal_demo_env demo_fresh.
Proof.
  split; try done.
  - by apply (bool_decide_unpack _); vm_compute.
  - intros i d Hd. unfold demo_fresh in Hd. destruct (i =? 0)%nat; [|done]. injection Hd as <-.
    split; try done; try (by apply (bool_decide_unpack _); vm_compute). split; [done|]. by intros v p [c ?].
  - split_and!; apply Nat.leb_le; by vm_compute.
Qed.

Lemma PutObject_HealObject_GetObject_witness :
  ∃ xl1 info, PutObject (H1 := map_order_rev) blake2bAlgo "rel" (λ b, b) (λ _, None) 4 put_demo_env put_xl "bucket" "object"
      12 {| rd_data := put_data; rd_err := io_EOF : error |} ∅ "" = Ret (xl1, (info, None)) ∧
  ∃ xl2, HealObject (H := map_order_rev) blake2bAlgo 4 heal_demo_env
      (set_disks xl1 (replace_disks [3; 1; 2] demo_fresh (storageDisks xl1))) "bucket" "object" = Ret (xl2, None) ∧
  ∃ xl3, GetObject (H1 := map_order_rev) blake2bAlgo 20 (λ _, NewBytePool (Z.to_nat blockSizeV1) 3) 1000 1000 1000
      (set_disks xl2 (lose_disks [3; 1; 2] (λ i, i =? 1)%nat (storageDisks xl2))) "bucket" "object" 7 5 (Some []) =
      Ret (xl3, Some (bytes_of_string "world"), None).
Proof.
  destruct (PutObject_HealObject_GetObject (H2 := map_order_rev) (W := bytes) blake2bAlgo "rel" (λ b, b) (λ _, None) 2 1
    put_demo_env put_xl "bucket" "object" put_data 3 ∅ [3; 1; 2] (λ _, DiskUp) put_before put_demo_ready
    heal_demo_env demo_fresh demo_restore ltac:(apply Nat.leb_le; by vm_compute) 12 "" ltac:(by left) ltac:(by left)
    ltac:(by left) eq_refl
    (λ i, i =? 1)%nat 20 (λ _, NewBytePool (Z.to_nat blockSizeV1) 3) 1000 1000 1000 [] 7 5 5)
    as (xl1 & info & Hput & xl2 & Hheal & xl3 & w' & Hget & Hw).
  1-3: apply Nat.leb_le; by vm_compute.
  - done.
  - intros b. by destruct b.
  - done.
  - by vm_compute.
  - apply Nat.leb_le; by vm_compute.
  - intros i. split_and!; [apply NewBytePool_wf|cbn [pool_used NewBytePool]; rewrite length_replicate; lia|].
    cbn [pool_size NewBytePool]. rewrite Z2Nat.id; unfold blockSizeV1; lia.
  - done.
  - lia.
  - apply Nat.leb_le; by vm_compute.
  - by left.
  - exists xl1, info. split; [exact Hput|]. exists xl2. split; [exact Hheal|]. exists xl3.
    change (written w') with w' in Hw. rewrite Hw in Hget. exact Hget.
Defined.

(** The disk of block 0 holds the current version, but its part has rotted. *)
Definition rot_disk : MemDisk :=
  {| mem_files := <[("bucket", "object/part.1") := bytes_of_string "HEL, WL"]> (heal_disk_files 0);
     mem_vols := {["bucket"; minioMetaTmpBucket]}; mem_offline := false |}.

Definition rot_xl : xlObjects MemDisk := set_disks heal_xl [Some (heal_disk 2); Some rot_disk; Some (heal_disk 1)].

Definition rot_read (xl : xlObjects MemDisk) : option (bytes * option error) :=
  match GetObject (H1 := map_order_rev) blake2bAlgo 20 (λ _, NewBytePool 5 3) 1000 1000 1000 xl
          "bucket" "object" 0 12 (Some ([] : bytes)) with
  | Ret (_, Some w, e) => Some (w, e)
  | _ => None
  end.

(** Healing turns corruption that is detected into corruption that is not:
    [erasureHealFile] does not verify the checksums of the shards it reads, and
    writes the shards it computes from them with checksums that match.  Of three
    disks, one holds the current version, one holds it with a rotted part and one
    is outdated.  [GetObject] fails; [HealObject] succeeds, and [GetObject] then
    returns other data than was stored, without an error. *)
Theorem HealObject_spreads_bitrot :
  heal_data = bytes_of_string "hello, world" ∧
  rot_read rot_xl = Some ([], Some (Traced InsufficientReadQuorum [])) ∧
  match HealObject (H := map_order_rev) blake2bAlgo 4 heal_demo_env rot_xl "bucket" "object" with
  | Ret (xl', err) => err = None ∧ rot_read xl' = Some (bytes_of_string "HELlo, WorLd", None)
  | _ => False
  end.
Proof. split_and!; [done|by vm_compute|]. vm_compute. by split. Qed.
