(* ===== verification/Format.v ===== *)
(** * The disk format

    The file format.json that gives every disk its place (src/cmd/format-config-v1.go),
    the healing of missing formats, and the decisions of the start-up
    (src/cmd/prepare-storage.go).

    A slice of disks that is built from another one holds references: it is a
    list of positions in the slice of disks ([refs]), so that writes through it
    change the disks themselves. *)

From S2P Require Import Prelude.
From S2P Require Import GoErrors.
From S2P Require Import GoStrings.
From S2P Require Import XLMeta.
From S2P Require Import Storage.
From S2P Require Import ObjectNames.
From S2P Require Import XLDisk.

Definition formatConfigFile : string := "format.json".
Definition formatConfigFileTmp : string := "format.json.tmp".

Record fsFormat := { FSVersion : string }.

Record xlFormat := {
  XLVersion : string;
  XLDiskID : string;
  JBOD : list string;
}.

(** The fields FS and XL are pointers. *)
Record formatConfigV1 := {
  FmtVersion : string;
  FmtFormat : string;
  FmtFS : option fsFormat;
  FmtXL : option xlFormat;
}.

(** [json.Marshal] of a pointer and [json.Unmarshal] into a new value. *)
Class FormatJson := {
  format_Marshal : option formatConfigV1 → bytes + error;
  format_Unmarshal : bytes → formatConfigV1 + error;
}.

(** [format.XL], dereferenced. *)
Definition xl_of (format : formatConfigV1) : go xlFormat :=
  match FmtXL format with Some xl => Ret xl | None => Panic end.

Definition count_err (e : option error) (errs : list (option error)) : nat :=
  length (filter (λ x, err_eqb x e = true) errs).

(** ** Decisions on errors *)

Definition reduceFormatErrs (errs : list (option error)) (diskCount : nat) : option error :=
  let errUnformattedDiskCount := count_err (Some (errUnformattedDisk : error)) errs in
  let errDiskNotFoundCount := count_err (Some (errDiskNotFound : error)) errs in
  let errCorruptedFormatCount := count_err (Some (errCorruptedFormat : error)) errs in
  if (0 <? errCorruptedFormatCount)%nat then Some (errCorruptedFormat : error)
  else if (0 <? errUnformattedDiskCount)%nat then
    if (errUnformattedDiskCount <? diskCount)%nat then
      if (0 <? errDiskNotFoundCount)%nat then Some (errSomeDiskOffline : error)
      else Some (errSomeDiskUnformatted : error)
    else Some (errUnformattedDisk : error)
  else None.

(** ** Consistency of the formats *)

(** -1 is [None]. *)
Fixpoint findDiskIndex (disk : string) (jbod : list string) : option nat :=
  match jbod with
  | [] => None
  | uuid :: jbod' => if bool_decide (uuid = disk) then Some 0 else S <$> findDiskIndex disk jbod'
  end.

(** The first format that is there. *)
Fixpoint first_format (formats : list (option formatConfigV1)) : option formatConfigV1 :=
  match formats with
  | [] => None
  | Some format :: _ => Some format
  | None :: formats' => first_format formats'
  end.

(** The first loop of [isSavedUUIDInOrder]; [None]: the uuid is not found. *)
Fixpoint order_indexes (uuid : string) (formatConfigs : list (option formatConfigV1)) : go (option (list nat)) :=
  match formatConfigs with
  | [] => Ret (Some [])
  | None :: formats => order_indexes uuid formats
  | Some formatConfig :: formats =>
      xl ← xl_of formatConfig;
      match findDiskIndex uuid (JBOD xl) with
      | None => mret None
      | Some uuidIndex =>
          rest ← order_indexes uuid formats;
          mret ((λ l, S uuidIndex :: l) <$> rest)
      end
  end.

Definition isSavedUUIDInOrder (uuid : string) (formatConfigs : list (option formatConfigV1)) : go bool :=
  orderIndexes ← order_indexes uuid formatConfigs;
  match orderIndexes with
  | None => mret false
  | Some [] => Panic
  | Some ((prevOrderIndex :: _) as l) => mret (forallb (λ i, (prevOrderIndex =? i)%nat) l)
  end.

Fixpoint disk_uuids (formatConfigs : list (option formatConfigV1)) : go (list string) :=
  match formatConfigs with
  | [] => Ret []
  | None :: formats => rest ← disk_uuids formats; mret ("" :: rest)
  | Some formatConfig :: formats =>
      xl ← xl_of formatConfig;
      rest ← disk_uuids formats;
      mret (XLDiskID xl :: rest)
  end.

Fixpoint uuids_in_order (disks : list string) (formatConfigs : list (option formatConfigV1)) : go (option error) :=
  match disks with
  | [] => Ret None
  | uuid :: disks' =>
      if bool_decide (uuid = "") then uuids_in_order disks' formatConfigs
      else
        ok ← isSavedUUIDInOrder uuid formatConfigs;
        if negb (ok : bool) then mret (Some (ENew (uuid +:+ " disk not found in JBOD")))
        else uuids_in_order disks' formatConfigs
  end.

Definition checkDisksConsistency (formatConfigs : list (option formatConfigV1)) : go (option error) :=
  disks ← disk_uuids formatConfigs;
  uuids_in_order disks formatConfigs.

(** The second loop of [checkJBODConsistency]. *)
Fixpoint same_jbod (sentinelJBOD : list string) (formatConfigs : list (option formatConfigV1)) : go (option error) :=
  match formatConfigs with
  | [] => Ret None
  | None :: formats => same_jbod sentinelJBOD formats
  | Some format :: formats =>
      xl ← xl_of format;
      if bool_decide (sentinelJBOD = JBOD xl) then same_jbod sentinelJBOD formats
      else mret (Some (ENew "Inconsistent JBOD found"))
  end.

(** The first JBOD, as in [checkJBODConsistency] and [reorderDisks]. *)
Definition first_jbod (formatConfigs : list (option formatConfigV1)) : go (list string) :=
  match first_format formatConfigs with
  | None => Ret []
  | Some format => xl ← xl_of format; mret (JBOD xl)
  end.

Definition checkJBODConsistency (formatConfigs : list (option formatConfigV1)) : go (option error) :=
  sentinelJBOD ← first_jbod formatConfigs;
  same_jbod sentinelJBOD formatConfigs.

(** The loop of [checkFormatXLValues]; [n] is the number of formats. *)
Fixpoint format_values (n : nat) (formatConfigs : list (option formatConfigV1)) : go (option error) :=
  match formatConfigs with
  | [] => Ret None
  | None :: formats => format_values n formats
  | Some formatXL :: formats =>
      if negb (bool_decide (FmtVersion formatXL = "1"))
      then Ret (Some (ENew "Unsupported version of backend format found"))
      else if negb (bool_decide (FmtFormat formatXL = "xl"))
      then Ret (Some (ENew "Unsupported backend format found"))
      else
        xl ← xl_of formatXL;
        if negb (bool_decide (XLVersion xl = "1"))
        then mret (Some (ENew "Unsupported XL backend format found"))
        else if negb (n =? length (JBOD xl))%nat
        then mret (Some (ENew "Number of disks did not match the backend format"))
        else format_values n formats
  end.

Definition checkFormatXLValues (formatConfigs : list (option formatConfigV1)) : go (option error) :=
  format_values (length formatConfigs) formatConfigs.

Definition checkFormatXL (formatConfigs : list (option formatConfigV1)) : go (option error) :=
  err ← checkFormatXLValues formatConfigs;
  match err with
  | Some e => mret (Some e)
  | None =>
      err ← checkJBODConsistency formatConfigs;
      match err with
      | Some e => mret (Some e)
      | None => checkDisksConsistency formatConfigs
      end
  end.

Definition isFormatNotFound (formats : list (option formatConfigV1)) : bool :=
  forallb (λ f, match f with None => true | Some _ => false end) formats.

Definition isFormatFound (formats : list (option formatConfigV1)) : bool :=
  forallb (λ f, match f with None => false | Some _ => true end) formats.

Definition genericFormatCheckXL (formatConfigs : list (option formatConfigV1)) (sErrs : list (option error))
    : go (option error) :=
  let good e := err_eqb e None || err_eqb e (Some (errUnformattedDisk : error)) || err_eqb e (Some (errVolumeNotFound : error)) in
  let errCorruptFormatCount := count_err (Some (errCorruptedFormat : error)) sErrs in
  let errCount := length (filter (λ e, good e = false ∧ err_eqb e (Some (errCorruptedFormat : error)) = false) sErrs) in
  let readQuorum := length formatConfigs / 2 in
  if (length formatConfigs - readQuorum <? errCount)%nat then Ret (Some (errXLReadQuorum : error))
  else if (length formatConfigs - readQuorum <? errCorruptFormatCount)%nat then Ret (Some (errCorruptedFormat : error))
  else checkFormatXL formatConfigs.

(** ** References to disks *)

(** The references of a slice of disks to itself. *)
Definition refs {D} (disks : list (option D)) : list (option nat) :=
  imap (λ i d, match d with Some _ => Some i | None => None end) disks.

(** The disks that are referred to. *)
Definition deref {D} (disks : list (option D)) (ordered : list (option nat)) : list (option D) :=
  (λ r, r ≫= λ j, mjoin (disks !! j)) <$> ordered.

(** The loop of [reorderDisks]. *)
Fixpoint place_disks (savedJBOD : list string) (index : nat) (formats : list (option formatConfigV1))
    (refs newDisks : list (option nat)) : go (list (option nat) + error) :=
  match formats with
  | [] => Ret (inl newDisks)
  | None :: formats' => place_disks savedJBOD (S index) formats' refs newDisks
  | Some format :: formats' =>
      xl ← xl_of format;
      match findDiskIndex (XLDiskID xl) savedJBOD with
      | None => mret (inr (ENew ("Unrecognized uuid " +:+ XLDiskID xl +:+ " found")))
      | Some jIndex =>
          match refs !! index with
          | None => Panic
          | Some r =>
              if (jIndex <? length newDisks)%nat
              then place_disks savedJBOD (S index) formats' refs (<[jIndex := r]> newDisks)
              else Panic
          end
      end
  end.

(** [disks] are the references of the bootstrap disks. *)
Definition reorderDisks (disks : list (option nat)) (formatConfigs : list (option formatConfigV1))
    : go (list (option nat) + error) :=
  savedJBOD ← first_jbod formatConfigs;
  place_disks savedJBOD 0 formatConfigs disks (replicate (length disks) None).

Section Format.
Context `{FormatJson} {D : Type} `{!StorageAPI D}.

(** ** Loading *)

Definition loadFormat (disk : D) : D * (option formatConfigV1 * option error) :=
  let '(disk, (buf, err)) := ReadAll disk minioMetaBucket formatConfigFile in
  match err with
  | Some _ =>
      if err_eqb err (Some (errFileNotFound : error)) || err_eqb err (Some (errVolumeNotFound : error)) then
        let '(disk, (vols, err)) := ListVols disk in
        match err with
        | Some e => (disk, (None, Some e))
        | None =>
            if (1 <? length vols)%nat then (disk, (None, Some (errCorruptedFormat : error)))
            else (disk, (None, Some (errUnformattedDisk : error)))
        end
      else (disk, (None, err))
  | None =>
      match format_Unmarshal buf with
      | inr e => (disk, (None, Some e))
      | inl format => (disk, (Some format, None))
      end
  end.

Fixpoint loadAllFormats (disks : list (option D))
    : list (option D) * (list (option formatConfigV1) * list (option error)) :=
  match disks with
  | [] => ([], ([], []))
  | None :: disks' =>
      let '(disks', (formats, sErrs)) := loadAllFormats disks' in
      (None :: disks', (None :: formats, Some (errDiskNotFound : error) :: sErrs))
  | Some disk :: disks' =>
      let '(disk, (formatConfig, lErr)) := loadFormat disk in
      let '(disks', (formats, sErrs)) := loadAllFormats disks' in
      (Some disk :: disks',
       ((match lErr with None => formatConfig | Some _ => None end) :: formats, lErr :: sErrs))
  end.

(** ** Saving *)

(** Calls on the disks of a slice of references, in the order of the slice. *)
Fixpoint each_disk (f : nat → D → D * option error) (index : nat) (ordered : list (option nat))
    (disks : list (option D)) : list (option D) * list (option error) :=
  match ordered with
  | [] => (disks, [])
  | r :: ordered' =>
      let '(disks, err) :=
        match r with
        | None => (disks, None)
        | Some j =>
            match disks !! j with
            | Some (Some d) => let '(d, err) := f index d in (<[j := Some d]> disks, err)
            | _ => (disks, None)
            end
        end in
      let '(disks, errs) := each_disk f (S index) ordered' disks in
      (disks, err :: errs)
  end.

(** The first error of a slice. *)
Fixpoint first_err (errs : list (option error)) : option error :=
  match errs with
  | [] => None
  | Some e :: _ => Some e
  | None :: errs' => first_err errs'
  end.

Definition initMetaVolIgnoredErrs : list (option error) := baseIgnoredErrs ++ [Some (errVolumeExists : error)].

(** The volumes one after the other; the first error that counts ends it. *)
Fixpoint make_meta_vols (disk : D) (vols : list string) : D * option error :=
  match vols with
  | [] => (disk, None)
  | v :: vols' =>
      let '(disk, err) := MakeVol disk v in
      match err with
      | Some _ => if negb (isErrIgnored err initMetaVolIgnoredErrs) then (disk, err) else make_meta_vols disk vols'
      | None => make_meta_vols disk vols'
      end
  end.

Definition initMetaVolume (ordered : list (option nat)) (disks : list (option D)) : list (option D) * option error :=
  let '(disks, errs) :=
    each_disk (λ _ d, make_meta_vols d [minioMetaBucket; minioMetaTmpBucket; minioMetaMultipartBucket]) 0 ordered disks in
  (disks, toObjectErr (first_err errs) [minioMetaBucket]).

(** The goroutine of [saveFormatXL]. *)
Definition save_format (format : option formatConfigV1) (disk : D) : D * option error :=
  match format_Marshal format with
  | inr err => (disk, Some err)
  | inl formatBytes =>
      let '(disk, _) := DeleteFile disk minioMetaBucket formatConfigFileTmp in
      let '(disk, err) := AppendFile disk minioMetaBucket formatConfigFileTmp formatBytes in
      match err with
      | Some e => (disk, Some e)
      | None => RenameFile disk minioMetaBucket formatConfigFileTmp minioMetaBucket formatConfigFile
      end
  end.

(** [formats] has an entry for every reference. *)
Definition saveFormatXL (ordered : list (option nat)) (disks : list (option D)) (formats : list (option formatConfigV1))
    : list (option D) * option error :=
  let '(disks, errs) := each_disk (λ index, save_format (mjoin (formats !! index))) 0 ordered disks in
  (disks, first_err errs).

(** [uuid i] is the uuid that [mustGetUUID] gives for the position [i]. *)
Definition initFormatXL (uuid : nat → string) (disks : list (option D)) : list (option D) * option error :=
  let jbod := imap (λ i (d : option D), match d with Some _ => uuid i | None => "" end) disks in
  let formats := imap (λ i (d : option D),
    match d with
    | Some _ => Some {| FmtVersion := "1"; FmtFormat := "xl"; FmtFS := None;
                        FmtXL := Some {| XLVersion := "1"; XLDiskID := uuid i; JBOD := jbod |} |}
    | None => None
    end) disks in
  let '(disks, err) := initMetaVolume (refs disks) disks in
  match err with
  | Some _ => (disks, Some (ENew "Unable to initialize '.minio.sys' meta volume"))
  | None => saveFormatXL (refs disks) disks formats
  end.


(** ** Loading the format *)

(** The counts of [loadFormatXL]. *)
Record format_counts := {
  unformattedDisksFoundCnt : Z;
  diskNotFoundCount : Z;
  corruptedDisksFoundCnt : Z;
}.

(** The loop of [loadFormatXL]; an error that is not counted ends it. *)
Fixpoint load_formats_counted (disks : list (option D)) (c : format_counts)
    : list (option D) * ((list (option formatConfigV1) * format_counts) + error) :=
  match disks with
  | [] => ([], inl ([], c))
  | None :: disks' =>
      let '(disks', r) := load_formats_counted disks'
        {| unformattedDisksFoundCnt := unformattedDisksFoundCnt c;
           diskNotFoundCount := diskNotFoundCount c + 1;
           corruptedDisksFoundCnt := corruptedDisksFoundCnt c |} in
      (None :: disks', match r with inl (formats, c) => inl (None :: formats, c) | inr e => inr e end)
  | Some disk :: disks' =>
      let '(disk, (formatXL, err)) := loadFormat disk in
      match err with
      | None =>
          let '(disks', r) := load_formats_counted disks' c in
          (Some disk :: disks', match r with inl (formats, c) => inl (formatXL :: formats, c) | inr e => inr e end)
      | Some e =>
          let count :=
            if err_eqb err (Some (errUnformattedDisk : error)) then
              Some {| unformattedDisksFoundCnt := unformattedDisksFoundCnt c + 1;
                      diskNotFoundCount := diskNotFoundCount c;
                      corruptedDisksFoundCnt := corruptedDisksFoundCnt c |}
            else if err_eqb err (Some (errDiskNotFound : error)) then
              Some {| unformattedDisksFoundCnt := unformattedDisksFoundCnt c;
                      diskNotFoundCount := diskNotFoundCount c + 1;
                      corruptedDisksFoundCnt := corruptedDisksFoundCnt c |}
            else if err_eqb err (Some (errCorruptedFormat : error)) then
              Some {| unformattedDisksFoundCnt := unformattedDisksFoundCnt c;
                      diskNotFoundCount := diskNotFoundCount c;
                      corruptedDisksFoundCnt := corruptedDisksFoundCnt c + 1 |}
            else None in
          match count with
          | None => (Some disk :: disks', inr e)
          | Some c =>
              let '(disks', r) := load_formats_counted disks' c in
              (Some disk :: disks', match r with inl (formats, c) => inl (None :: formats, c) | inr e => inr e end)
          end
      end
  end.

(** The disks after the reads, and the slice of references in JBOD order. *)
Definition loadFormatXL (bootstrapDisks : list (option D)) (readQuorum : Z)
    : go (list (option D) * (list (option nat) + error)) :=
  let n := zlen bootstrapDisks in
  let boot := refs bootstrapDisks in
  let '(disks, r) := load_formats_counted bootstrapDisks
    {| unformattedDisksFoundCnt := 0; diskNotFoundCount := 0; corruptedDisksFoundCnt := 0 |} in
  match r with
  | inr e => mret (disks, inr e)
  | inl (formatConfigs, c) =>
      if (n - readQuorum <? unformattedDisksFoundCnt c)%Z then mret (disks, inr (errUnformattedDisk : error))
      else if (n - readQuorum <? corruptedDisksFoundCnt c)%Z then mret (disks, inr (errCorruptedFormat : error))
      else if (diskNotFoundCount c =? n)%Z then mret (disks, inr (errDiskNotFound : error))
      else if (n - readQuorum <? diskNotFoundCount c)%Z then mret (disks, inr (errXLReadQuorum : error))
      else
        err ← checkFormatXL formatConfigs;
        match err with
        | Some e => mret (disks, inr e)
        | None => r ← reorderDisks boot formatConfigs; mret (disks, r)
        end
  end.

(** ** Healing the format *)

(** The loop of the two healers that loads the formats: an error of [missing]
    leaves the format out, every other one ends the healing with its result. *)
Fixpoint load_formats_heal (missing : list (option error)) (disks : list (option D))
    : list (option D) * (list (option formatConfigV1) + option error) :=
  match disks with
  | [] => ([], inl [])
  | None :: disks' => (None :: disks', inr None)
  | Some disk :: disks' =>
      let '(disk, (formatXL, err)) := loadFormat disk in
      let next :=
        match err with
        | None => inl formatXL
        | Some e =>
            if existsb (err_eqb err) missing then inl None
            else if err_eqb err (Some (errDiskNotFound : error)) then inr None
            else inr (Some e)
        end in
      match next with
      | inr res => (Some disk :: disks', inr res)
      | inl format =>
          let '(disks', r) := load_formats_heal missing disks' in
          (Some disk :: disks', match r with inl formats => inl (format :: formats) | inr res => inr res end)
      end
  end.

(** The new uuids of the free positions; [uuid i] is what [mustGetUUID] gives
    for the position [i]. *)
Fixpoint fill_uuids (uuid : nat → string) (index : nat) (orderedDisks : list (option nat)) (newJBOD : list string)
    : go (list string) :=
  match orderedDisks with
  | [] => Ret newJBOD
  | Some _ :: ordered => fill_uuids uuid (S index) ordered newJBOD
  | None :: ordered =>
      if (index <? length newJBOD)%nat then fill_uuids uuid (S index) ordered (<[index := uuid index]> newJBOD)
      else Panic
  end.

(** The loop that collects the new format configs. *)
Fixpoint new_configs (referenceConfig : formatConfigV1) (newJBOD : list string) (index count : nat)
    : go (list (option formatConfigV1)) :=
  match count with
  | O => Ret []
  | S count' =>
      xl ← xl_of referenceConfig;
      match newJBOD !! index with
      | None => Panic
      | Some disk =>
          rest ← new_configs referenceConfig newJBOD (S index) count';
          mret (Some {| FmtVersion := FmtVersion referenceConfig; FmtFormat := FmtFormat referenceConfig;
                        FmtFS := None;
                        FmtXL := Some {| XLVersion := XLVersion xl; XLDiskID := disk; JBOD := newJBOD |} |} :: rest)
      end
  end.

(** The inner loop that puts a fresh disk: the first free position gets [r]. *)
Fixpoint put_first (r : option nat) (orderedDisks : list (option nat)) : list (option nat) :=
  match orderedDisks with
  | [] => []
  | None :: ordered => r :: ordered
  | Some j :: ordered => Some j :: put_first r ordered
  end.

(** The loop that fills in the fresh disks. *)
Fixpoint put_fresh (storageDisks : list (option nat)) (index : nat) (formats : list (option formatConfigV1))
    (orderedDisks : list (option nat)) : go (list (option nat)) :=
  match formats with
  | [] => Ret orderedDisks
  | Some _ :: formats' => put_fresh storageDisks (S index) formats' orderedDisks
  | None :: formats' =>
      match storageDisks !! index with
      | None => Panic
      | Some r => put_fresh storageDisks (S index) formats' (put_first r orderedDisks)
      end
  end.

Definition healFormatXLFreshDisks (uuid : nat → string) (storageDisks : list (option D))
    : go (list (option D) * option error) :=
  let storage := refs storageDisks in
  let '(disks, r) := load_formats_heal [Some (errUnformattedDisk : error)] storageDisks in
  match r with
  | inr err => mret (disks, err)
  | inl formatConfigs =>
      if isFormatFound formatConfigs then mret (disks, None)
      else if isFormatNotFound formatConfigs then mret (initFormatXL uuid disks)
      else
        err ← checkFormatXL formatConfigs;
        match err, first_format formatConfigs with
        | Some e, _ => mret (disks, Some e)
        | None, None => Panic
        | None, Some referenceConfig =>
            xl ← xl_of referenceConfig;
            ordered ← reorderDisks storage formatConfigs;
            match ordered with
            | inr e => mret (disks, Some e)
            | inl orderedDisks =>
                newJBOD ← fill_uuids uuid 0 orderedDisks (JBOD xl);
                newFormatConfigs ← new_configs referenceConfig newJBOD 0 (length orderedDisks);
                orderedDisks ← put_fresh storage 0 formatConfigs orderedDisks;
                let '(disks, err) := initMetaVolume orderedDisks disks in
                match err with
                | Some _ => mret (disks, Some (ENew "Unable to initialize '.minio.sys' meta volume"))
                | None => mret (saveFormatXL orderedDisks disks newFormatConfigs)
                end
            end
        end
  end.

(** The disks of [storageDisks] that are in [orderedDisks], and the others. *)
Definition splitDisksByUse (storageDisks orderedDisks : list (option nat)) : list (option nat) * list (option nat) :=
  (filter (λ r, r ∈ orderedDisks) storageDisks, filter (λ r, r ∉ orderedDisks) storageDisks).

(** The position of the index in the distribution: the last match. *)
Definition last_index (index : Z) (distribution : list Z) : option nat :=
  foldl (λ acc '(i, d), if (d =? index)%Z then Some i else acc) None (imap (λ i d, (i, d)) distribution).

(** What one disk tells of its position: nothing ([inl None]), its position, or
    an error. *)
Definition inspect_disk `{GJson, MetaJson} (disk : D) : D * (option nat + error) :=
  let '(disk, (vols, err)) := ListVols disk in
  match err with
  | Some e => (disk, inr e)
  | None =>
      match filter (λ v, VolName v ≠ minioMetaBucket) vols with
      | [] => (disk, inl None)
      | v :: _ =>
          let volName := VolName v in
          if bool_decide (volName = "") then (disk, inl None)
          else
            let '(disk, (objects, err)) := ListDir disk volName "" in
            match err, objects with
            | Some e, _ => (disk, inr e)
            | None, [] => (disk, inl None)
            | None, object :: _ =>
                let '(disk, (xlData, err)) := readXLMeta disk volName object in
                match err with
                | Some e =>
                    if err_eqb err (Some (errFileNotFound : error)) then (disk, inl None) else (disk, inr e)
                | None =>
                    match last_index (XLMeta.Index (Erasure xlData)) (Distribution (Erasure xlData)) with
                    | None => (disk, inr (errCorruptedFormat : error))
                    | Some diskIndex => (disk, inl (Some diskIndex))
                    end
                end
            end
      end
  end.

Fixpoint reorderDisksByInspection `{GJson, MetaJson} (orderedDisks : list (option nat)) (index : nat)
    (formatConfigs : list (option formatConfigV1)) (disks : list (option D))
    : go (list (option D) * (list (option nat) + error)) :=
  match formatConfigs with
  | [] => Ret (disks, inl orderedDisks)
  | Some _ :: formats => reorderDisksByInspection orderedDisks (S index) formats disks
  | None :: formats =>
      match disks !! index with
      | Some (Some disk) =>
          let '(disk, r) := inspect_disk disk in
          let disks := <[index := Some disk]> disks in
          match r with
          | inr e => mret (disks, inr e)
          | inl None => reorderDisksByInspection orderedDisks (S index) formats disks
          | inl (Some diskIndex) =>
              match orderedDisks !! diskIndex with
              | None => Panic
              | Some (Some _) => mret (disks, inr (errCorruptedFormat : error))
              | Some None =>
                  reorderDisksByInspection (<[diskIndex := Some index]> orderedDisks) (S index) formats disks
              end
          end
      | _ => Panic
      end
  end.

(** The unassigned disks take the free positions. *)
Fixpoint assign_free (orderedDisks unAssignedDisks : list (option nat)) : list (option nat) :=
  match orderedDisks, unAssignedDisks with
  | None :: ordered, r :: unAssigned => r :: assign_free ordered unAssigned
  | r :: ordered, _ => r :: assign_free ordered unAssignedDisks
  | [], _ => []
  end.

Definition healFormatXLCorruptedDisks `{GJson, MetaJson} (uuid : nat → string) (storageDisks : list (option D))
    : go (list (option D) * option error) :=
  let storage := refs storageDisks in
  let '(disks, r) :=
    load_formats_heal [Some (errUnformattedDisk : error); Some (errCorruptedFormat : error)] storageDisks in
  match r with
  | inr err => mret (disks, err)
  | inl formatConfigs =>
      if isFormatFound formatConfigs then mret (disks, None)
      else if isFormatNotFound formatConfigs then mret (initFormatXL uuid disks)
      else
        err ← checkFormatXL formatConfigs;
        match err, first_format formatConfigs with
        | Some e, _ => mret (disks, Some e)
        | None, None => Panic
        | None, Some referenceConfig =>
            xl ← xl_of referenceConfig;
            ordered ← reorderDisks storage formatConfigs;
            match ordered with
            | inr e => mret (disks, Some e)
            | inl orderedDisks =>
                newJBOD ← fill_uuids uuid 0 orderedDisks (JBOD xl);
                inspected ← reorderDisksByInspection orderedDisks 0 formatConfigs disks;
                let '(disks, ordered) := inspected in
                match ordered with
                | inr e => mret (disks, Some e)
                | inl orderedDisks =>
                    let '(_, unAssignedDisks) := splitDisksByUse storage orderedDisks in
                    let orderedDisks := assign_free orderedDisks unAssignedDisks in
                    newFormatConfigs ← new_configs referenceConfig newJBOD 0 (length orderedDisks);
                    mret (saveFormatXL orderedDisks disks newFormatConfigs)
                end
            end
        end
  end.

Definition healFormatXL `{GJson, MetaJson} (uuid : nat → string) (storageDisks : list (option D))
    : go (list (option D) * option error) :=
  let '(disks, (formatConfigs, sErrs)) := loadAllFormats storageDisks in
  err ← genericFormatCheckXL formatConfigs sErrs;
  match err with
  | Some e => mret (disks, Some e)
  | None =>
      let reduced := reduceFormatErrs sErrs (length storageDisks) in
      if err_eqb reduced (Some (errCorruptedFormat : error)) then
        r ← healFormatXLCorruptedDisks uuid disks;
        let '(disks, err) := r in
        mret (disks, match err with Some _ => Some (ENew "Unable to repair corrupted format") | None => None end)
      else if err_eqb reduced (Some (errSomeDiskUnformatted : error)) then
        r ← healFormatXLFreshDisks uuid disks;
        let '(disks, err) := r in
        mret (disks, match err with Some _ => Some (ENew "Unable to heal backend") | None => None end)
      else if err_eqb reduced (Some (errSomeDiskOffline : error)) then
        mret (disks, Some (ENew "Unable to initialize format"))
      else mret (disks, None)
  end.

End Format.
