(* ===== verification/FormatSpec.v ===== *)
(** * The places of the disks

    What the format of the disks is for: a format that was written once gives
    every disk its place, in whatever order the disks are found, and healing
    keeps the places (src/cmd/format-config-v1.go). *)

From S2P Require Import Prelude.
From S2P Require Import GoErrors.
From S2P Require Import GoStrings.
From S2P Require Import Storage.
From S2P Require Import ObjectNames.
From S2P Require Import DiskContract.
From S2P Require Import Format.

(** The format of the disk at the position [i] of [jbod]. *)
Record in_place (jbod : list string) (i : nat) (f : formatConfigV1) (xl : xlFormat) : Prop := {
  ip_version : FmtVersion f = "1";
  ip_format : FmtFormat f = "xl";
  ip_xl : FmtXL f = Some xl;
  ip_xl_version : XLVersion xl = "1";
  ip_jbod : JBOD xl = jbod;
  ip_disk : jbod !! i = Some (XLDiskID xl);
}.

(** [place !! k = Some (Some i)]: the format of the disk [k] gives it the
    position [i]; [None] is a disk without a format. *)
Definition fits (jbod : list string) (p : option nat) (f : option formatConfigV1) : Prop :=
  match p, f with
  | Some i, Some f => ∃ xl, in_place jbod i f xl
  | None, None => True
  | _, _ => False
  end.

(** No two disks have the same position. *)
Definition injective (place : list (option nat)) : Prop :=
  ∀ k k' i, place !! k = Some (Some i) → place !! k' = Some (Some i) → k = k'.

Lemma injective_cons p place : injective (p :: place) → injective place.
Proof. intros Hi k k' i H1 H2. assert (S k = S k') by (by eapply Hi). lia. Qed.

(** The number of disks without a position. *)
Fixpoint missing {A} (l : list (option A)) : nat :=
  match l with
  | [] => 0
  | None :: l' => S (missing l')
  | Some _ :: l' => missing l'
  end.

(** ** The checks *)

Lemma findDiskIndex_lookup jbod i uuid : NoDup jbod → jbod !! i = Some uuid → findDiskIndex uuid jbod = Some i.
Proof.
  revert i. induction jbod as [|u jbod IH]; intros i Hn Hi; [done|]. apply NoDup_cons in Hn as [Hu Hn]. simpl.
  destruct i as [|i]; simplify_eq/=; [by rewrite bool_decide_true|].
  rewrite bool_decide_false, (IH i) by (done || by intros ->; apply Hu, list_elem_of_lookup; eauto). done.
Qed.

Section Checks.
Context (jbod : list string).

Lemma values_ok place formats :
  Forall2 (fits jbod) place formats → format_values (length jbod) formats = Ret None.
Proof.
  intros HF. induction HF as [|p f place formats Hf HF IH]; [done|]. destruct p as [i|], f as [f|]; try done.
  destruct Hf as (xl & [Hv Hfo Hx Hxv Hj _]). simpl. rewrite Hv, Hfo. simpl. unfold xl_of. rewrite Hx. go_simpl.
  rewrite Hxv, Hj. simpl. by rewrite Nat.eqb_refl.
Qed.

Lemma same_jbod_ok place formats : Forall2 (fits jbod) place formats → same_jbod jbod formats = Ret None.
Proof.
  intros HF. induction HF as [|p f place formats Hf HF IH]; [done|]. destruct p as [i|], f as [f|]; try done.
  destruct Hf as (xl & [Hv Hfo Hx Hxv Hj _]). simpl. unfold xl_of. rewrite Hx. go_simpl.
  by rewrite Hj, bool_decide_true.
Qed.

Lemma first_jbod_ok place formats :
  Forall2 (fits jbod) place formats → first_jbod formats = Ret jbod ∨ Forall (eq None) formats.
Proof.
  intros HF. induction HF as [|p f place formats Hf HF IH]; [by right|]. destruct p as [i|], f as [f|]; try done.
  - left. destruct Hf as (xl & [Hv Hfo Hx Hxv Hj _]). unfold first_jbod, xl_of. simpl. rewrite Hx. go_simpl.
    by rewrite Hj.
  - destruct IH as [IH|IH]; [by left|right]. by constructor.
Qed.

Lemma order_indexes_ok place formats i uuid :
  NoDup jbod → jbod !! i = Some uuid → Forall2 (fits jbod) place formats →
  ∃ l, order_indexes uuid formats = Ret (Some l) ∧ Forall (eq (S i)) l ∧ (Forall (eq None) formats ∨ l ≠ []).
Proof.
  intros Hn Hi HF. induction HF as [|p f place formats Hf HF (l & Hl & Ha & Hne)].
  { exists []. by split_and!; [| |left]. }
  destruct p as [j|], f as [f|]; try done.
  - destruct Hf as (xl & [_ _ Hx _ Hj _]). exists (S i :: l). simpl. unfold xl_of. rewrite Hx. go_simpl.
    rewrite Hj, (findDiskIndex_lookup _ _ _ Hn Hi), Hl. go_simpl. split_and!; [done|by constructor|by right].
  - exists l. split_and!; [done..|]. destruct Hne as [?|?]; [left; by constructor|by right].
Qed.

(** The uuid of a place is in order. *)
Lemma saved_in_order place formats i uuid :
  NoDup jbod → jbod !! i = Some uuid → Forall2 (fits jbod) place formats → ¬ Forall (eq None) formats →
  isSavedUUIDInOrder uuid formats = Ret true.
Proof.
  intros Hn Hi HF Hsome. destruct (order_indexes_ok _ _ _ _ Hn Hi HF) as (l & Hl & Ha & [?|Hne]); [done|].
  unfold isSavedUUIDInOrder. rewrite Hl. go_simpl. destruct l as [|x l]; [done|].
  assert (E : forallb (λ j, (x =? j)%nat) (x :: l) = true).
  { apply forallb_forall. intros j Hj. apply list_elem_of_In in Hj. apply Forall_cons in Ha as [<- Ha].
    apply elem_of_cons in Hj as [->|Hj]; [apply Nat.eqb_refl|]. rewrite Forall_forall in Ha.
    rewrite <- (Ha _ Hj). apply Nat.eqb_refl. }
  exact (f_equal Ret E).
Qed.

Lemma disk_uuids_ok place formats :
  Forall2 (fits jbod) place formats →
  ∃ uuids, disk_uuids formats = Ret uuids ∧ Forall (λ u, u = "" ∨ u ∈ jbod) uuids ∧
    (Forall (eq None) formats → Forall (eq "") uuids).
Proof.
  intros HF. induction HF as [|p f place formats Hf HF (us & Hu & Ha & Hnone)]; [by exists []|].
  destruct p as [j|], f as [f|]; try done.
  - destruct Hf as (xl & [_ _ Hx _ _ Hd]). exists (XLDiskID xl :: us). simpl. unfold xl_of. rewrite Hx. go_simpl.
    rewrite Hu. go_simpl. split_and!; [done| |by intros [? _]%Forall_cons].
    constructor; [right|done]. apply list_elem_of_lookup. eauto.
  - exists ("" :: us). simpl. rewrite Hu. split_and!; [done|constructor; [by left|done]|].
    intros [_ ?]%Forall_cons. constructor; auto.
Qed.

Lemma in_order_ok place formats uuids :
  NoDup jbod → Forall2 (fits jbod) place formats → Forall (λ u, u = "" ∨ u ∈ jbod) uuids →
  (Forall (eq None) formats → Forall (eq "") uuids) → uuids_in_order uuids formats = Ret None.
Proof.
  intros Hn HF Ha Hnone. induction uuids as [|u us IH]; [done|].
  apply Forall_cons in Ha as [Hu Ha]. simpl.
  assert (IH' : uuids_in_order us formats = Ret None).
  { apply IH; [done|]. intros [_ ?]%Hnone%Forall_cons. done. }
  case_bool_decide as E; [done|]. destruct Hu as [?|[i Hi]%list_elem_of_lookup]; [done|].
  rewrite (saved_in_order _ _ _ _ Hn Hi HF); [go_simpl; done|]. by intros [? _]%Hnone%Forall_cons.
Qed.

Lemma first_jbod_none formats : Forall (eq None) formats → first_jbod formats = Ret [].
Proof. intros Hnone. induction Hnone as [|f formats <- Hnone IH]; [done|]. exact IH. Qed.

Lemma same_jbod_none s formats : Forall (eq None) formats → same_jbod s formats = Ret None.
Proof. intros Hnone. induction Hnone as [|f formats <- Hnone IH]; [done|]. exact IH. Qed.

(** Formats that agree pass the checks. *)
Lemma checkFormatXL_ok place formats :
  NoDup jbod → length formats = length jbod → Forall2 (fits jbod) place formats →
  checkFormatXL formats = Ret None.
Proof.
  intros Hn Hl HF. unfold checkFormatXL, checkFormatXLValues. rewrite Hl, (values_ok _ _ HF). go_simpl.
  assert (checkJBODConsistency formats = Ret None) as ->.
  { unfold checkJBODConsistency. destruct (first_jbod_ok _ _ HF) as [->|Hnone]; [by apply (same_jbod_ok place)|].
    rewrite first_jbod_none by done. by apply same_jbod_none. }
  go_simpl. unfold checkDisksConsistency. destruct (disk_uuids_ok _ _ HF) as (us & -> & Ha & Hnone).
  by apply (in_order_ok place).
Qed.

End Checks.

(** ** The order *)

(** The disks go to their places, and nowhere else. *)
Lemma place_disks_ok jbod place formats index rs new :
  NoDup jbod → length new = length jbod → injective place → Forall2 (fits jbod) place formats →
  length rs = index + length formats →
  ∃ new', place_disks jbod index formats rs new = Ret (inl new') ∧ length new' = length new ∧
    (∀ k i, place !! k = Some (Some i) → new' !! i = rs !! (index + k)) ∧
    (∀ i, (∀ k, place !! k ≠ Some (Some i)) → new' !! i = new !! i).
Proof.
  intros Hn. revert place index new. induction formats as [|f formats IH]; intros place index new Hlen Hinj HF Hrs;
    apply Forall2_cons_inv_r in HF || apply Forall2_nil_inv_r in HF.
  { subst place. by exists new. }
  destruct HF as (p & place' & Hf & HF & ->). simpl in Hrs.
  assert (Hrs' : length rs = S index + length formats) by lia.
  destruct p as [i|], f as [f|]; try done.
  - destruct Hf as (xl & [_ _ Hx _ _ Hd]). simpl. unfold xl_of. rewrite Hx. go_simpl.
    rewrite (findDiskIndex_lookup _ _ _ Hn Hd).
    destruct (rs !! index) as [r|] eqn:Hr; [|apply lookup_ge_None in Hr; lia].
    assert (Hi : (i < length new)%nat) by (rewrite Hlen; by eapply lookup_lt_Some).
    assert ((i <? length new)%nat = true) as -> by (by apply Nat.ltb_lt).
    destruct (IH place' (S index) (<[i := r]> new)) as (new' & -> & Hl & Hp & Ho);
      [by rewrite length_insert|by eapply injective_cons|done|done|].
    rewrite length_insert in Hl.
    assert (Hfree : ∀ k, place' !! k ≠ Some (Some i)).
    { intros k Hk. assert (0 = S k) by (by eapply (Hinj 0 (S k))). lia. }
    exists new'. split_and!; [done|done| |].
    + intros [|k] j Hk; simplify_eq/=.
      * rewrite Ho, list_lookup_insert_eq by done. by rewrite Nat.add_0_r.
      * rewrite (Hp _ _ Hk). f_equal. lia.
    + intros j Hj. rewrite Ho by (intros k Hk; by apply (Hj (S k))).
      rewrite list_lookup_insert_ne; [done|]. intros ->. by apply (Hj 0).
  - simpl. destruct (IH place' (S index) new) as (new' & -> & Hl & Hp & Ho);
      [done|by eapply injective_cons|done|done|]. exists new'. split_and!; [done|done| |].
    + intros [|k] j Hk; simplify_eq/=. rewrite (Hp _ _ Hk). f_equal. lia.
    + intros j Hj. apply Ho. intros k Hk. by apply (Hj (S k)).
Qed.

Lemma reorderDisks_ok jbod place formats rs :
  NoDup jbod → length formats = length jbod → injective place → Forall2 (fits jbod) place formats →
  length rs = length formats →
  ∃ ordered, reorderDisks rs formats = Ret (inl ordered) ∧ length ordered = length jbod ∧
    (∀ k i, place !! k = Some (Some i) → ordered !! i = rs !! k) ∧
    (∀ i, (i < length jbod)%nat → (∀ k, place !! k ≠ Some (Some i)) → ordered !! i = Some None).
Proof.
  intros Hn Hl Hinj HF Hrs. unfold reorderDisks.
  destruct (place_disks_ok jbod place formats 0 rs (replicate (length rs) None)) as (new & Hp & Hlen & Hk & Ho);
    [done|rewrite length_replicate; lia|done|done|lia|]. rewrite length_replicate in Hlen.
  assert (Hfree : ∀ i, (i < length jbod)%nat → (∀ k, place !! k ≠ Some (Some i)) → new !! i = Some None).
  { intros i Hi Hno. rewrite Ho by done. apply lookup_replicate. split; [done|lia]. }
  exists new. split_and!; [|lia|done|done].
  destruct (first_jbod_ok _ _ _ HF) as [->|Hnone]; [exact Hp|]. rewrite first_jbod_none by done. go_simpl.
  rewrite <- Hp. clear -Hnone. generalize (replicate (length rs) (@None nat)) as l. generalize 0.
  induction Hnone as [|f formats <- Hnone IH]; intros index l; [done|]. simpl. apply IH.
Qed.

(** ** Disks *)

(** [utf8.ValidString]. *)
Definition valid_text (s : string) : Prop :=
  valid_utf8 (length (bytes_of_string s)) (bytes_of_string s) = true.

Definition format_text (f : formatConfigV1) : Prop :=
  valid_text (FmtVersion f) ∧ valid_text (FmtFormat f) ∧
  (∀ fs, FmtFS f = Some fs → valid_text (FSVersion fs)) ∧
  (∀ xl, FmtXL f = Some xl → valid_text (XLVersion xl) ∧ valid_text (XLDiskID xl) ∧ Forall valid_text (JBOD xl)).

(** A text goes through JSON and back. *)
Class FormatJsonContract `{FormatJson} : Prop := {
  format_json_back : ∀ f, format_text f → ∃ b, format_Marshal (Some f) = inl b ∧ format_Unmarshal b = inl f;
}.

Section Disks.
Context `{FormatJsonContract} {D : Type} `{DiskContract D}.

Abbreviation meta := minioMetaBucket.

(** A disk to which a format can be written. *)
Record ready (d : D) : Prop := {
  ready_up : up d;
  ready_tmp : ¬ in_dir d meta formatConfigFileTmp;
  ready_dst : ¬ in_dir d meta formatConfigFile;
}.

(** A disk with a format. *)
Record formatted (d : D) (f : formatConfigV1) : Prop := {
  fmt_ready : ready d;
  fmt_vol : has_vol d meta;
  fmt_file : ∃ b, file_at d meta formatConfigFile = Some b ∧ format_Unmarshal b = inl f;
}.

(** A disk that reports that it has no format, every time it is asked: it is in
    a set of such disks. *)
Definition fresh (d : D) : Prop :=
  ∃ P : D → Prop, P d ∧ ∀ d, P d →
    ready d ∧ ∃ d', loadFormat d = (d', (None, Some (errUnformattedDisk : error))) ∧ P d'.

(** A slot of the slice of disks that is not there, and stays so. *)
Definition offline (slot : option D) : Prop :=
  match slot with
  | None => True
  | Some d => ∃ P : D → Prop, P d ∧ ∀ d, P d →
      ∃ d' b, ReadAll d meta formatConfigFile = (d', (b, Some (errDiskNotFound : error))) ∧ P d'
  end.

Lemma format_names_free d p :
  p = formatConfigFile ∨ p = formatConfigFileTmp → ¬ in_dir d meta p → free_name d meta p.
Proof.
  intros Hp Hd. split; [|done]. intros a r E. exfalso. assert (Hs : "/"%char ∈ bytes_of_string p).
  { rewrite E, !bytes_of_string_app. apply elem_of_app. right. apply elem_of_app. left. left. }
  destruct Hp as [->| ->]; revert Hs; by apply (bool_decide_unpack (_ ∉ _)).
Qed.

Lemma format_names_clean : clean_path formatConfigFile ∧ clean_path formatConfigFileTmp.
Proof. split; apply clean_path_plain; repeat split; by apply (bool_decide_unpack (_ ∉ _)) || done. Qed.

Lemma ready_keeps (P : string → string → Prop) d d' :
  (∀ p r, p = formatConfigFile ∨ p = formatConfigFileTmp → P meta (p +:+ "/" +:+ r)) →
  up d' → keeps P d d' → ready d → ready d'.
Proof.
  intros HP Hup [_ Hf] [_ Ht Hd]. split; [done|..]; intros [r Hr]; rewrite Hf in Hr by auto;
    [apply Ht|apply Hd]; by exists r.
Qed.

Lemma ready_same d d' : up d' → same_disk d d' → ready d → ready d'.
Proof. intros Hup Hs. by apply (ready_keeps (λ _ _, True)). Qed.

(** A format is read back. *)
Lemma loadFormat_formatted d f :
  formatted d f → ∃ d', loadFormat d = (d', (Some f, None)) ∧ formatted d' f.
Proof.
  intros [Hr Hv (b & Hb & Hj)]. destruct (up_ReadAll d meta formatConfigFile (ready_up _ Hr) Hv) as (d' & r & Hra & Hup & Hs & ->).
  unfold loadFormat. rewrite Hra, Hb, Hj. exists d'. split; [done|]. split; [by eapply ready_same|by apply Hs|].
  exists b. split; [|done]. by rewrite (keep_files _ _ _ Hs).
Qed.

Lemma loadFormat_offline d :
  offline (Some d) → ∃ d', loadFormat d = (d', (None, Some (errDiskNotFound : error))) ∧ offline (Some d').
Proof.
  intros (P & Hd & HP). destruct (HP _ Hd) as (d' & b & Hr & Hd'). unfold loadFormat. rewrite Hr. simpl.
  exists d'. split; [done|]. by exists P.
Qed.

Lemma loadFormat_fresh d :
  fresh d → ready d ∧ ∃ d', loadFormat d = (d', (None, Some (errUnformattedDisk : error))) ∧ fresh d'.
Proof.
  intros (P & Hd & HP). destruct (HP _ Hd) as (Hr & d' & Hl & Hd'). split; [done|]. exists d'.
  split; [done|]. by exists P.
Qed.

(** ** Writing *)

Lemma make_meta_vols_ready d vols :
  Forall (λ v, IsValidBucketName v = true) vols → ready d →
  ∃ d', make_meta_vols d vols = (d', None) ∧ ready d' ∧ Forall (has_vol d') vols ∧
    keeps (λ _ _, True) d d'.
Proof.
  revert d. induction vols as [|v vols IH]; intros d Hval Hr.
  { exists d. by split_and!; [| | |split]. }
  apply Forall_cons in Hval as [Hv Hval].
  destruct (up_MakeVol d v (ready_up _ Hr) Hv) as (d1 & e & Hm & Hup1 & [Hbv Hbf] & Hv1 & He).
  assert (Hk1 : keeps (λ _ _, True) d d1).
  { split; [|intros; apply Hbf]. intros v' Hv'. destruct (decide (v' = v)) as [->|Hne]; [done|by apply Hbv]. }
  assert (Hr1 : ready d1) by (by apply (ready_keeps (λ _ _, True) d)).
  destruct (IH d1 Hval Hr1) as (d' & Hmm & Hr' & Hvs & Hk). exists d'. split_and!; [|done| |].
  - simpl. rewrite Hm. destruct He as [[_ ->]|[_ ->]]; exact Hmm.
  - constructor; [by apply Hk|done].
  - split; [intros v' Hv'; by apply Hk, Hk1|]. intros v' p _. by rewrite (keep_files _ _ _ Hk), (keep_files _ _ _ Hk1).
Qed.

(** A saved format is the format of the disk. *)
Lemma save_format_ready f d :
  format_text f → ready d → has_vol d meta →
  ∃ d', save_format (Some f) d = (d', None) ∧ formatted d' f ∧
    keeps (λ v p, (v, p) ≠ (meta, formatConfigFile) ∧ (v, p) ≠ (meta, formatConfigFileTmp)) d d'.
Proof.
  intros Ht Hr Hv. unfold save_format. destruct (format_json_back f Ht) as (b & -> & Hj).
  set (K := keeps (λ v p, (v, p) ≠ (meta, formatConfigFile) ∧ (v, p) ≠ (meta, formatConfigFileTmp))).
  assert (HP : ∀ p r, p = formatConfigFile ∨ p = formatConfigFileTmp →
    (meta, p +:+ "/" +:+ r) ≠ (meta, formatConfigFile) ∧ (meta, p +:+ "/" +:+ r) ≠ (meta, formatConfigFileTmp)).
  { intros p r [->| ->]; split; intros [= E]; discriminate. }
  assert (HrK : ∀ d d', up d' → K d d' → ready d → ready d') by (intros d0 d0'; by apply ready_keeps).
  destruct format_names_clean as [Hcd Hct].
  assert (Hdel : ∃ d1 e, DeleteFile d meta formatConfigFileTmp = (d1, e) ∧ ready d1 ∧ K d d1 ∧
             file_at d1 meta formatConfigFileTmp = None).
  { destruct (file_at d meta formatConfigFileTmp) as [c|] eqn:Hf.
    - destruct (up_DeleteFile d meta formatConfigFileTmp (ready_up _ Hr) Hv ltac:(by eexists)) as (d1 & -> & Hup & [Hkv Hkf] & Hn).
      assert (HK : K d d1) by (split; [done|]; intros v p [_ Hne]; by apply Hkf).
      exists d1, None. split_and!; [done|by eapply HrK|done|done].
    - destruct (up_DeleteFile_none d meta formatConfigFileTmp (ready_up _ Hr) Hv Hct (ready_tmp _ Hr) Hf) as (d1 & e & -> & Hup & [Hkv Hkf]).
      eexists d1, _. split_and!; [done|by eapply ready_same; [| |exact Hr]|by split; [|intros; apply Hkf]|by rewrite Hkf]. }
  destruct Hdel as (d1 & e1 & -> & Hr1 & HK1 & Hn1).
  assert (Hv1 : has_vol d1 meta) by by apply HK1.
  assert (Ha : accepts d1 meta formatConfigFileTmp).
  { apply up_accepts; [apply Hr1|done|]. apply format_names_free; [by right|apply Hr1]. }
  destruct (AppendFile_accepts d1 _ _ b Ha) as (d2 & Happ & _). rewrite Happ.
  destruct (up_AppendFile _ _ _ _ _ (ready_up _ Hr1) Hct Happ) as [Hup2 [Hkv2 Hkf2]].
  apply AppendFile_appends in Happ. rewrite Hn1 in Happ. simpl in Happ.
  assert (HK2 : K d1 d2) by (split; [done|]; intros v p [_ Hne]; by apply Hkf2).
  assert (Hr2 : ready d2) by (by eapply HrK).
  destruct (up_RenameFile_over d2 meta formatConfigFileTmp meta formatConfigFile b) as (d3 & -> & Hup3 & [Hkv3 Hkf3] & Hd3 & _);
    [done|by apply Hkv2|by apply Hkv2|done|done|done|done|right; apply format_names_free; [by left|apply Hr2]|].
  assert (HK3 : K d2 d3) by (split; [done|]; intros v p []; by apply Hkf3).
  exists d3. split_and!; [done| |].
  - split; [by eapply HrK|by apply Hkv3, Hkv2|by exists b].
  - split; [intros; by apply HK3, HK2, HK1|]. intros v p Hne.
    by rewrite (keep_files _ _ _ HK3), (keep_files _ _ _ HK2), (keep_files _ _ _ HK1).
Qed.

(** Calls on disks of which no two are the same. *)
Lemma each_disk_ok (f : nat → D → D * option error) (P : nat → D → D → Prop) index ordered disks :
  injective ordered →
  (∀ k j, ordered !! k = Some (Some j) →
     ∃ d, disks !! j = Some (Some d) ∧ ∃ d', f (index + k) d = (d', None) ∧ P (index + k) d d') →
  ∃ disks' errs, each_disk f index ordered disks = (disks', errs) ∧ first_err errs = None ∧
    length disks' = length disks ∧
    (∀ k j d, ordered !! k = Some (Some j) → disks !! j = Some (Some d) →
       ∃ d', disks' !! j = Some (Some d') ∧ P (index + k) d d') ∧
    (∀ j, (∀ k, ordered !! k ≠ Some (Some j)) → disks' !! j = disks !! j).
Proof.
  revert index disks. induction ordered as [|r ordered IH]; intros index disks Hinj Hf.
  { exists disks, []. split_and!; done. }
  assert (Hinj' := injective_cons _ _ Hinj).
  destruct r as [j|].
  - destruct (Hf 0 j eq_refl) as (d & Hd & d' & Hfd & HP). rewrite Nat.add_0_r in *.
    assert (Hfree : ∀ k, ordered !! k ≠ Some (Some j)).
    { intros k Hk. assert (0 = S k) by (by eapply (Hinj 0 (S k))). lia. }
    destruct (IH (S index) (<[j := Some d']> disks)) as (disks' & errs & He & Hn & Hl & Hp & Ho); [done| |].
    { intros k j' Hk. destruct (Hf (S k) j' Hk) as (d0 & Hd0 & d0' & Hf0 & HP0).
      rewrite Nat.add_succ_r in *. exists d0. split; [|by exists d0'].
      rewrite list_lookup_insert_ne; [done|]. intros ->. by apply (Hfree k). }
    rewrite length_insert in Hl. exists disks', (None :: errs). simpl. rewrite Hd, Hfd, He.
    split_and!; [done|done|done| |].
    + intros [|k] j' d0 Hk Hd0; simplify_eq/=.
      * exists d'. rewrite Nat.add_0_r. split; [|done]. rewrite Ho by done.
        apply list_lookup_insert_eq. by eapply lookup_lt_Some.
      * rewrite Nat.add_succ_r. apply (Hp k j' d0 Hk). rewrite list_lookup_insert_ne; [done|].
        intros ->. by apply (Hfree k).
    + intros j' Hj'. rewrite Ho by (intros k Hk; by apply (Hj' (S k))).
      apply list_lookup_insert_ne. intros ->. by apply (Hj' 0).
  - destruct (IH (S index) disks) as (disks' & errs & He & Hn & Hl & Hp & Ho); [done| |].
    { intros k j' Hk. destruct (Hf (S k) j' Hk) as (d0 & Hd0 & d0' & Hf0 & HP0).
      rewrite Nat.add_succ_r in *. eauto. }
    exists disks', (None :: errs). simpl. rewrite He. split_and!; [done|done|done| |].
    + intros [|k] j' d0 Hk Hd0; simplify_eq/=. rewrite Nat.add_succ_r. eauto.
    + intros j' Hj'. apply Ho. intros k Hk. by apply (Hj' (S k)).
Qed.

(** ** Loading *)

(** What [loadFormat] finds in a slot. *)
Definition reads (slot : option D) (f : option formatConfigV1) : Prop :=
  match f with
  | Some f => ∃ d, slot = Some d ∧ formatted d f
  | None => offline slot
  end.

Lemma load_counted_ok slots formats c :
  Forall2 reads slots formats →
  ∃ slots', load_formats_counted slots c =
    (slots', inl (formats, {| unformattedDisksFoundCnt := unformattedDisksFoundCnt c;
                              diskNotFoundCount := diskNotFoundCount c + Z.of_nat (missing formats);
                              corruptedDisksFoundCnt := corruptedDisksFoundCnt c |})).
Proof.
  intros HF. revert c. induction HF as [|slot f slots formats Hf HF IH]; intros c.
  { exists []. simpl. rewrite Z.add_0_r. by destruct c. }
  destruct f as [f|].
  - destruct Hf as (d & -> & Hd). destruct (loadFormat_formatted _ _ Hd) as (d' & Hld & _). simpl. rewrite Hld.
    destruct (IH c) as (slots' & ->). by eexists.
  - set (c' := {| unformattedDisksFoundCnt := unformattedDisksFoundCnt c;
                  diskNotFoundCount := diskNotFoundCount c + 1;
                  corruptedDisksFoundCnt := corruptedDisksFoundCnt c |}).
    destruct (IH c') as (slots' & Hl).
    assert (Hc : (diskNotFoundCount c' + Z.of_nat (missing formats) =
      diskNotFoundCount c + Z.of_nat (S (missing formats)))%Z) by (simpl; lia).
    rewrite Hc in Hl. simpl in Hl. destruct slot as [d|]; simpl.
    + destruct (loadFormat_offline _ Hf) as (d' & -> & _). simpl. fold c'. rewrite Hl. by eexists.
    + fold c'. rewrite Hl. by eexists.
Qed.

Lemma refs_lookup {A} (l : list (option A)) k x : l !! k = Some (Some x) → refs l !! k = Some (Some k).
Proof. intros Hk. unfold refs. by rewrite list_lookup_imap, Hk. Qed.

Lemma length_refs {A} (l : list (option A)) : length (refs l) = length l.
Proof. apply length_imap. Qed.

(** Formats that agree give every disk its place. *)
Lemma loadFormatXL_ok jbod place formats slots rq :
  NoDup jbod → length formats = length jbod → injective place →
  Forall2 (fits jbod) place formats → Forall2 reads slots formats →
  (Z.of_nat (missing place) ≤ zlen jbod - rq)%Z → (0 ≤ zlen jbod - rq)%Z → (missing place < length jbod)%nat →
  ∃ slots' ordered, loadFormatXL slots rq = Ret (slots', inl ordered) ∧ length ordered = length jbod ∧
    (∀ k i, place !! k = Some (Some i) → ordered !! i = Some (Some k)) ∧
    (∀ i, (i < length jbod)%nat → (∀ k, place !! k ≠ Some (Some i)) → ordered !! i = Some None).
Proof.
  intros Hn Hl Hinj HF HR Hq Hq0 Hlt. unfold loadFormatXL.
  assert (Hm : missing formats = missing place).
  { clear -HF. induction HF as [|p f place formats Hf HF IH]; [done|]. destruct p, f; simpl; by rewrite ?IH. }
  destruct (load_counted_ok slots formats
    {| unformattedDisksFoundCnt := 0; diskNotFoundCount := 0; corruptedDisksFoundCnt := 0 |} HR) as (slots' & ->).
  assert (Hz : zlen slots = zlen jbod) by (unfold zlen; f_equal; rewrite <- Hl; by eapply Forall2_length).
  rewrite Hz, Hm. simpl. unfold zlen in *.
  rewrite !(proj2 (Z.ltb_ge _ _)), (proj2 (Z.eqb_neq _ _)) by lia.
  rewrite (checkFormatXL_ok jbod place formats) by done. go_simpl.
  destruct (reorderDisks_ok jbod place formats (refs slots)) as (ordered & -> & Hlo & Hp & Ho);
    [done..|rewrite length_refs; by eapply Forall2_length|].
  go_simpl. exists slots', ordered. split_and!; [done|done| |done].
  intros k i Hk. rewrite (Hp _ _ Hk).
  destruct (Forall2_lookup_l _ _ _ _ _ HF Hk) as (f & Hf & Hfit). destruct f as [f|]; [|done].
  destruct (Forall2_lookup_r _ _ _ _ _ HR Hf) as (slot & Hs & d & -> & _). by apply (refs_lookup _ _ d).
Qed.

(** ** Formatting *)

(** Disks that are all there. *)
Lemma refs_Some (disks : list D) k j :
  refs (Some <$> disks) !! k = Some (Some j) ↔ k = j ∧ (k < length disks)%nat.
Proof.
  unfold refs. rewrite list_lookup_imap, list_lookup_fmap. destruct (disks !! k) as [d|] eqn:E; simpl.
  - apply lookup_lt_Some in E. split; [by intros [= ->]|by intros [-> _]].
  - apply lookup_ge_None in E. split; [done|]. lia.
Qed.

Lemma refs_injective (disks : list D) : injective (refs (Some <$> disks)).
Proof. intros k k' i [-> _]%refs_Some [-> _]%refs_Some. done. Qed.

Lemma all_Some (disks : list (option D)) :
  (∀ j, (j < length disks)%nat → ∃ d, disks !! j = Some (Some d)) →
  ∃ ds, disks = Some <$> ds.
Proof.
  induction disks as [|o disks IH]; intros Hall; [by exists []|].
  destruct (Hall 0) as [d [= ->]]; [simpl; lia|]. destruct IH as [ds ->].
  { intros j Hj. apply (Hall (S j)). simpl. lia. }
  by exists (d :: ds).
Qed.

Definition meta_vols : list string := [minioMetaBucket; minioMetaTmpBucket; minioMetaMultipartBucket].

(** The meta volumes are made on every disk of the slice. *)
Lemma initMetaVolume_ok ordered disks :
  injective ordered →
  (∀ k j, ordered !! k = Some (Some j) → ∃ d, disks !! j = Some (Some d) ∧ ready d) →
  ∃ disks', initMetaVolume ordered disks = (disks', None) ∧ length disks' = length disks ∧
    (∀ k j d, ordered !! k = Some (Some j) → disks !! j = Some (Some d) →
       ∃ d', disks' !! j = Some (Some d') ∧ ready d' ∧ has_vol d' meta ∧ same_disk d d') ∧
    (∀ j, (∀ k, ordered !! k ≠ Some (Some j)) → disks' !! j = disks !! j).
Proof.
  intros Hinj Hr. unfold initMetaVolume.
  destruct (each_disk_ok (λ _ d, make_meta_vols d meta_vols)
    (λ _ d d', ready d' ∧ has_vol d' meta ∧ same_disk d d') 0 ordered disks Hinj)
    as (disks' & errs & He & Hn & Hl & Hp & Ho).
  { intros k j Hk. destruct (Hr _ _ Hk) as (d & Hd & Hrd). exists d. split; [done|].
    destruct (make_meta_vols_ready d meta_vols) as (d' & Hm & Hr' & Hvs & Hk'); [by repeat constructor|done|].
    exists d'. split; [done|]. apply Forall_cons in Hvs as [Hv _]. by split_and!. }
  fold meta_vols. rewrite He, Hn. exists disks'. by split_and!.
Qed.

(** The formats are saved on every disk of the slice. *)
Lemma saveFormatXL_ok ordered disks formats :
  injective ordered →
  (∀ k j, ordered !! k = Some (Some j) →
     ∃ d f, disks !! j = Some (Some d) ∧ ready d ∧ has_vol d meta ∧ formats !! k = Some (Some f) ∧ format_text f) →
  ∃ disks', saveFormatXL ordered disks formats = (disks', None) ∧ length disks' = length disks ∧
    (∀ k j f d, ordered !! k = Some (Some j) → formats !! k = Some (Some f) → disks !! j = Some (Some d) →
       ∃ d', disks' !! j = Some (Some d') ∧ formatted d' f ∧
         keeps (λ v p, (v, p) ≠ (meta, formatConfigFile) ∧ (v, p) ≠ (meta, formatConfigFileTmp)) d d').
Proof.
  intros Hinj Hr. unfold saveFormatXL.
  set (K := keeps (λ v p, (v, p) ≠ (meta, formatConfigFile) ∧ (v, p) ≠ (meta, formatConfigFileTmp))).
  destruct (each_disk_ok (λ index, save_format (mjoin (formats !! index)))
    (λ k d d', ∀ f, formats !! k = Some (Some f) → formatted d' f ∧ K d d') 0 ordered disks Hinj)
    as (disks' & errs & He & Hn & Hl & Hp & Ho).
  { intros k j Hk. destruct (Hr _ _ Hk) as (d & f & Hd & Hrd & Hv & Hf & Ht). exists d. split; [done|].
    simpl. rewrite Hf. simpl. destruct (save_format_ready f d Ht Hrd Hv) as (d' & -> & Hfd & Hk').
    exists d'. split; [done|]. by intros f' [= <-]. }
  rewrite He, Hn. exists disks'. split_and!; [done|done|].
  intros k j f d Hk Hf Hd. destruct (Hp _ _ _ Hk Hd) as (d' & Hd' & HP). exists d'. split; [done|]. by apply HP.
Qed.

End Disks.
