(* ===== verification/FormatPlaces.v ===== *)
(** * Formatting and healing the format

    A format that is written once gives every disk its place, whatever the order
    in which the disks are found and as long as enough of them are; healing
    gives the fresh disks the places that are free and keeps the others. *)

From S2P Require Import Prelude.
From S2P Require Import GoErrors.
From S2P Require Import GoStrings.
From S2P Require Import Storage.
From S2P Require Import ObjectNames.
From S2P Require Import DiskContract.
From S2P Require Import XLDisk.
From S2P Require Import Format.
From S2P Require Import FormatSpec.

Section Places.
Context `{FormatJsonContract} {D : Type} `{DiskContract D}.

Abbreviation meta := minioMetaBucket.

(** The format that [initFormatXL] and the healers write to the position [i]. *)
Definition new_format (jbod : list string) (disk : string) : formatConfigV1 :=
  {| FmtVersion := "1"; FmtFormat := "xl"; FmtFS := None;
     FmtXL := Some {| XLVersion := "1"; XLDiskID := disk; JBOD := jbod |} |}.

Lemma new_format_place jbod i disk :
  jbod !! i = Some disk → in_place jbod i (new_format jbod disk) {| XLVersion := "1"; XLDiskID := disk; JBOD := jbod |}.
Proof. by split. Qed.

Lemma new_format_text jbod i disk :
  jbod !! i = Some disk → Forall valid_text jbod → format_text (new_format jbod disk).
Proof.
  intros Hi Hj. unfold format_text. simpl. split_and!; [done|done|by intros ?|]. intros xl [= <-]. simpl.
  split_and!; [done| |done]. rewrite Forall_lookup in Hj. by eapply Hj.
Qed.

(** The disks are found again. *)
Definition found (σ : list nat) (lost : nat → bool) (disks boot : list (option D)) : Prop :=
  length boot = length disks ∧
  ∀ k i slot, σ !! k = Some i → boot !! k = Some slot →
    if lost i then offline slot else disks !! i = Some slot.

Lemma missing_fmap (lost : nat → bool) σ :
  missing ((λ i, if lost i then None else Some i) <$> σ) = length (filter (λ i, lost i = true) σ).
Proof.
  induction σ as [|i σ IH]; [done|]. rewrite fmap_cons, filter_cons. simpl. destruct (lost i); simpl; by rewrite IH.
Qed.

Lemma lost_perm (lost : nat → bool) (σ σ' : list nat) :
  σ ≡ₚ σ' → length (filter (λ i, lost i = true) σ) = length (filter (λ i, lost i = true) σ').
Proof. intros Hp. by rewrite Hp. Qed.

(** What is found on disks that are formatted in order. *)
Lemma found_formats jbod disks σ lost boot :
  length disks = length jbod →
  (∀ i uuid, jbod !! i = Some uuid → ∃ d, disks !! i = Some (Some d) ∧ formatted d (new_format jbod uuid)) →
  σ ≡ₚ seq 0 (length jbod) → found σ lost disks boot →
  let place := (λ i, if lost i then None else Some i) <$> σ in
  let formats := (λ i, if lost i then None else new_format jbod <$> jbod !! i) <$> σ in
  length formats = length jbod ∧ injective place ∧ Forall2 (fits jbod) place formats ∧ Forall2 reads boot formats ∧
  missing place = length (filter (λ i, lost i = true) (seq 0 (length jbod))) ∧
  ∀ k i, place !! k = Some (Some i) ↔ σ !! k = Some i ∧ lost i = false.
Proof.
  intros Hl Hd Hσ [Hlb Hb] place formats.
  assert (Hls : length σ = length jbod) by (by rewrite Hσ, length_seq).
  assert (Hplace : ∀ k i, place !! k = Some (Some i) ↔ σ !! k = Some i ∧ lost i = false).
  { intros k i. unfold place. rewrite list_lookup_fmap. destruct (σ !! k) as [j|]; simpl;
      [|by split; [|intros [? _]]].
    destruct (lost j) eqn:E; (split; [by intros [= <-]|]); intros [[= <-] ?]; congruence. }
  assert (HN : NoDup σ) by (rewrite Hσ; apply NoDup_seq).
  assert (Hin : ∀ k i, σ !! k = Some i → is_Some (jbod !! i)).
  { intros k i Hk. apply lookup_lt_is_Some. assert (Hi : i ∈ seq 0 (length jbod)).
    { rewrite <- Hσ. apply list_elem_of_lookup. eauto. } apply elem_of_seq in Hi. lia. }
  split_and!.
  - unfold formats. by rewrite length_fmap.
  - intros k k' i [H1' _]%Hplace [H2' _]%Hplace. by eapply NoDup_lookup.
  - apply Forall2_fmap, Forall_Forall2_diag. apply Forall_lookup. intros k i Hk. destruct (lost i); [done|].
    destruct (Hin _ _ Hk) as [u Hu]. rewrite Hu. simpl. eexists. by apply new_format_place.
  - apply Forall2_same_length_lookup. split; [unfold formats; by rewrite length_fmap, Hlb, Hl|]. intros k slot f Hk Hf.
    unfold formats in Hf. rewrite list_lookup_fmap in Hf. destruct (σ !! k) as [i|] eqn:Hi; [|done].
    simpl in Hf. specialize (Hb _ _ _ Hi Hk). destruct (lost i); simplify_eq/=; [done|].
    destruct (Hin _ _ Hi) as [u Hu]. rewrite Hu. simpl. destruct (Hd _ _ Hu) as (d & Hdi & Hfd).
    exists d. split; [congruence|done].
  - unfold place. by rewrite missing_fmap, (lost_perm _ _ _ Hσ).
  - done.
Qed.

(** The order of the disks that are found. *)
Lemma found_order (jbod : list string) σ (lost : nat → bool) (place : list (option nat)) (ordered : list (option nat)) :
  σ ≡ₚ seq 0 (length jbod) →
  (∀ k i, place !! k = Some (Some i) ↔ σ !! k = Some i ∧ lost i = false) →
  (∀ k i, place !! k = Some (Some i) → ordered !! i = Some (Some k)) →
  (∀ i, (i < length jbod)%nat → (∀ k, place !! k ≠ Some (Some i)) → ordered !! i = Some None) →
  ∀ k i, σ !! k = Some i → ordered !! i = Some (if lost i then None else Some k).
Proof.
  intros Hσ Hplace Hp Ho k i Hk. destruct (lost i) eqn:Hlost.
  - apply Ho; [|by intros k' [_ ?]%Hplace; congruence].
    assert (Hi : i ∈ seq 0 (length jbod)) by (rewrite <- Hσ; apply list_elem_of_lookup; eauto).
    apply elem_of_seq in Hi. lia.
  - apply Hp. by apply Hplace.
Qed.

(** Disks that are formatted in order are found in whatever order. *)
Lemma formatted_found jbod disks σ lost boot rq :
  NoDup jbod → length disks = length jbod →
  (∀ i uuid, jbod !! i = Some uuid → ∃ d, disks !! i = Some (Some d) ∧ formatted d (new_format jbod uuid)) →
  σ ≡ₚ seq 0 (length jbod) → found σ lost disks boot →
  (Z.of_nat (length (filter (λ i, lost i = true) (seq 0 (length jbod)))) ≤ zlen jbod - rq)%Z →
  (length (filter (λ i, lost i = true) (seq 0 (length jbod))) < length jbod)%nat →
  ∃ boot' ordered, loadFormatXL boot rq = Ret (boot', inl ordered) ∧ length ordered = length jbod ∧
    ∀ k i, σ !! k = Some i → ordered !! i = Some (if lost i then None else Some k).
Proof.
  intros Hn Hl Hd Hσ Hfound Hq Hlt.
  destruct (found_formats jbod disks σ lost boot Hl Hd Hσ Hfound) as (Hlf & Hinj & HF & HR & Hm & Hplace).
  rewrite <- Hm in Hq, Hlt. edestruct (loadFormatXL_ok jbod) as (boot' & ordered & Hload & Hlo & Hp & Ho);
    [done|exact Hlf|exact Hinj|exact HF|exact HR|done|unfold zlen in *; lia|done|].
  exists boot', ordered. split_and!; [done|done|]. by eapply found_order.
Qed.

(** What [initFormatXL] leaves on the disks. *)
Lemma initFormatXL_ok uuid disks :
  let jbod := uuid <$> seq 0 (length disks) in
  Forall ready disks → Forall valid_text jbod →
  ∃ disks', initFormatXL uuid (Some <$> disks) = (disks', None) ∧ length disks' = length disks ∧
    ∀ i d, disks !! i = Some d → ∃ d', disks' !! i = Some (Some d') ∧
      formatted d' (new_format jbod (uuid i)) ∧
      keeps (λ v p, (v, p) ≠ (meta, formatConfigFile) ∧ (v, p) ≠ (meta, formatConfigFileTmp)) d d'.
Proof.
  intros jbod Hr Ht. unfold initFormatXL.
  assert (Hj : imap (λ i (d : option D), match d with Some _ => uuid i | None => "" end) (Some <$> disks) = jbod).
  { apply list_eq. intros i. rewrite list_lookup_imap, list_lookup_fmap. unfold jbod. rewrite list_lookup_fmap.
    destruct (disks !! i) as [d|] eqn:E; simpl.
    - rewrite lookup_seq_lt by (by eapply lookup_lt_Some). done.
    - by rewrite lookup_seq_ge by (by apply lookup_ge_None). }
  rewrite Hj. rewrite Forall_lookup in Hr.
  destruct (initMetaVolume_ok (refs (Some <$> disks)) (Some <$> disks) (refs_injective _))
    as (disks1 & Hm & Hl1 & Hp1 & _).
  { intros k j [-> Hlt]%refs_Some. destruct (lookup_lt_is_Some_2 _ _ Hlt) as [d Hd]. exists d.
    rewrite list_lookup_fmap, Hd. split; [done|]. by eapply Hr. }
  rewrite Hm. rewrite length_fmap in Hl1.
  set (formats := imap _ (Some <$> disks)).
  assert (Hf : ∀ i d, disks !! i = Some d → formats !! i = Some (Some (new_format jbod (uuid i)))).
  { intros i d Hd. unfold formats. rewrite list_lookup_imap, list_lookup_fmap, Hd. done. }
  assert (Hall : ∀ i d, disks !! i = Some d →
            ∃ d1, disks1 !! i = Some (Some d1) ∧ ready d1 ∧ has_vol d1 meta ∧ same_disk d d1).
  { intros i d Hd. apply (Hp1 i i d); [|by rewrite list_lookup_fmap, Hd].
    apply refs_Some. split; [done|]. by eapply lookup_lt_Some. }
  assert (Hjb : ∀ i, (i < length disks)%nat → jbod !! i = Some (uuid i)).
  { intros i Hi. unfold jbod. by rewrite list_lookup_fmap, lookup_seq_lt. }
  assert (Hrefs : refs disks1 = refs (Some <$> disks)).
  { apply list_eq. intros i. unfold refs. rewrite !list_lookup_imap, list_lookup_fmap.
    destruct (disks !! i) as [d|] eqn:E; simpl.
    - by destruct (Hall _ _ E) as (d1 & -> & _).
    - apply lookup_ge_None in E. by rewrite lookup_ge_None_2 by (rewrite Hl1; done). }
  rewrite Hrefs. destruct (saveFormatXL_ok (refs (Some <$> disks)) disks1 formats (refs_injective _))
    as (disks2 & Hs & Hl2 & Hp2).
  { intros k j [-> Hlt]%refs_Some. destruct (lookup_lt_is_Some_2 _ _ Hlt) as [d Hd].
    destruct (Hall _ _ Hd) as (d1 & Hd1 & Hr1 & Hv1 & _). eexists d1, _. split_and!; [done|done|done|by eapply Hf|].
    by eapply new_format_text; [apply Hjb|]. }
  rewrite Hs. exists disks2. split_and!; [done|lia|]. intros i d Hd.
  destruct (Hall _ _ Hd) as (d1 & Hd1 & _ & _ & Hs1). destruct (Hp2 i i (new_format jbod (uuid i)) d1) as (d2 & Hd2 & Hfd & Hk);
    [apply refs_Some; split; [done|by eapply lookup_lt_Some]|by eapply Hf|done|].
  exists d2. split_and!; [done|done|]. split; [intros v Hv; by apply Hk, Hs1|]. intros v p Hne.
  by rewrite (keep_files _ _ _ Hk), (keep_files _ _ _ Hs1).
Qed.

(** Formatting gives every disk its place for good.  If [n] usable disks
    are formatted with distinct uuids, [initFormatXL] succeeds and touches only
    the format file; and when the disks are found later in any order [σ], with
    some of them lost (nil, or not found) but more than none and at most
    [n - readQuorum], [loadFormatXL] returns them in the order in which they were
    formatted, with nil for the lost ones. *)
Theorem initFormatXL_loadFormatXL (uuid : nat → string) (disks : list D) :
  Forall ready disks → NoDup (uuid <$> seq 0 (length disks)) →
  Forall valid_text (uuid <$> seq 0 (length disks)) →
  ∃ disks', initFormatXL uuid (Some <$> disks) = (disks', None) ∧
    (∀ i d, disks !! i = Some d → ∃ d', disks' !! i = Some (Some d') ∧
       keeps (λ v p, (v, p) ≠ (meta, formatConfigFile) ∧ (v, p) ≠ (meta, formatConfigFileTmp)) d d') ∧
    ∀ σ lost boot readQuorum,
      σ ≡ₚ seq 0 (length disks) → found σ lost disks' boot →
      (Z.of_nat (length (filter (λ i, lost i = true) (seq 0 (length disks)))) ≤ zlen disks - readQuorum)%Z →
      (length (filter (λ i, lost i = true) (seq 0 (length disks))) < length disks)%nat →
      ∃ boot' ordered, loadFormatXL boot readQuorum = Ret (boot', inl ordered) ∧ length ordered = length disks ∧
        ∀ k i, σ !! k = Some i → ordered !! i = Some (if lost i then None else Some k).
Proof.
  intros Hr Hn Ht. destruct (initFormatXL_ok uuid disks Hr Ht) as (disks' & Hi & Hl & Hd).
  exists disks'. split_and!; [done| |].
  - intros i d Hid. destruct (Hd _ _ Hid) as (d' & Hd' & _ & Hk). eauto.
  - intros σ lost boot rq Hσ Hfound Hq Hlt. set (jbod := uuid <$> seq 0 (length disks)) in *.
    assert (Hlj : length jbod = length disks) by (unfold jbod; by rewrite length_fmap, length_seq).
    unfold zlen in Hq. rewrite <- Hlj in *. apply (formatted_found jbod disks'); try done.
    intros i u Hu. assert (Hlt' : (i < length disks)%nat) by (rewrite <- Hlj; by eapply lookup_lt_Some).
    destruct (lookup_lt_is_Some_2 _ _ Hlt') as [d Hid]. destruct (Hd _ _ Hid) as (d' & Hd' & Hf & _).
    exists d'. split; [done|]. unfold jbod in Hu. rewrite list_lookup_fmap, lookup_seq_lt in Hu by done.
    by injection Hu as <-.
Qed.

(** ** Healing *)

(** A disk with its place, or a fresh disk. *)
Definition placed (jbod : list string) (d : D) (p : option nat) : Prop :=
  match p with
  | Some i => ∃ f xl, formatted d f ∧ in_place jbod i f xl
  | None => fresh d
  end.

Lemma load_heal_ok errs jbod disks place :
  existsb (err_eqb (Some (errUnformattedDisk : error))) errs = true →
  Forall2 (placed jbod) disks place →
  ∃ disks' formats, load_formats_heal errs (Some <$> disks) = (Some <$> disks', inl formats) ∧
    Forall2 (fits jbod) place formats ∧ Forall ready disks' ∧ length disks' = length disks.
Proof.
  intros He HF. induction HF as [|d p disks place Hd HF (disks' & formats & Hl & Hfit & Hr & Hlen)].
  { exists [], []. by split_and!. }
  destruct p as [i|].
  - destruct Hd as (f & xl & Hfd & Hp). destruct (loadFormat_formatted _ _ Hfd) as (d' & Hld & Hfd').
    exists (d' :: disks'), (Some f :: formats). rewrite fmap_cons. simpl. rewrite Hld, Hl.
    split_and!; [done|constructor; [by exists xl|done]|constructor; [apply Hfd'|done]|by rewrite Hlen].
  - destruct (loadFormat_fresh _ Hd) as (_ & d' & Hld & [Hr' _]%loadFormat_fresh). exists (d' :: disks'), (None :: formats). rewrite fmap_cons. simpl.
    rewrite Hld. rewrite He, Hl.
    split_and!; [done|by constructor|by constructor|by rewrite Hlen].
Qed.

Lemma fill_uuids_ok uuid index ordered jbod :
  (index + length ordered ≤ length jbod)%nat →
  ∃ jbod', fill_uuids uuid index ordered jbod = Ret jbod' ∧ length jbod' = length jbod ∧
    (∀ k, (k < length ordered)%nat →
       jbod' !! (index + k) = match ordered !! k with Some None => Some (uuid (index + k)) | _ => jbod !! (index + k) end) ∧
    (∀ i, (i < index ∨ index + length ordered ≤ i)%nat → jbod' !! i = jbod !! i).
Proof.
  revert index jbod. induction ordered as [|r ordered IH]; intros index jbod Hl.
  { exists jbod. simpl. split_and!; [done|done|lia|done]. }
  simpl in *. destruct r as [j|].
  - destruct (IH (S index) jbod) as (jbod' & Hf & Hl' & Hk & Ho); [lia|]. exists jbod'.
    split_and!; [done|done| |intros i Hi; apply Ho; lia].
    intros [|k] Hlt; simpl; [|rewrite Nat.add_succ_r; apply Hk; lia].
    by rewrite Nat.add_0_r, Ho by lia.
  - rewrite (proj2 (Nat.ltb_lt _ _)) by lia.
    destruct (IH (S index) (<[index := uuid index]> jbod)) as (jbod' & Hf & Hl' & Hk & Ho);
      [rewrite length_insert; lia|]. rewrite length_insert in Hl'. exists jbod'.
    split_and!; [done|done| |].
    + intros [|k] Hlt; simpl.
      * rewrite Nat.add_0_r, Ho, list_lookup_insert_eq by lia. done.
      * rewrite Nat.add_succ_r. specialize (Hk k ltac:(lia)). simpl in Hk. rewrite Hk.
        by rewrite list_lookup_insert_ne by lia.
    + intros i Hi. rewrite Ho by lia. apply list_lookup_insert_ne. lia.
Qed.

Lemma new_configs_ok ref xl jbod0 i0 jbod index count :
  in_place jbod0 i0 ref xl → (index + count ≤ length jbod)%nat →
  ∃ configs, new_configs ref jbod index count = Ret configs ∧ length configs = count ∧
    ∀ k, (k < count)%nat → configs !! k = (λ u, Some (new_format jbod u)) <$> jbod !! (index + k).
Proof.
  intros [Hv Hf Hx Hxv _ _]. revert index. induction count as [|count IH]; intros index Hl.
  { exists []. split_and!; [done|done|lia]. }
  simpl. unfold xl_of. rewrite Hx. go_simpl.
  destruct (lookup_lt_is_Some_2 jbod index) as [u Hu]; [lia|]. rewrite Hu.
  destruct (IH (S index)) as (configs & -> & Hlc & Hk); [lia|]. go_simpl. rewrite Hv, Hf, Hxv.
  eexists. split_and!; [done|simpl; by rewrite Hlc|]. intros [|k] Hlt; simpl.
  - by rewrite Nat.add_0_r, Hu.
  - rewrite Nat.add_succ_r. apply Hk. lia.
Qed.

(** The positions of the fresh disks. *)
Fixpoint frees {A} (index : nat) (formats : list (option A)) : list nat :=
  match formats with
  | [] => []
  | None :: formats' => index :: frees (S index) formats'
  | Some _ :: formats' => frees (S index) formats'
  end.

Lemma elem_of_frees {A} index (formats : list (option A)) j :
  j ∈ frees index formats ↔ ∃ k, j = index + k ∧ formats !! k = Some None.
Proof.
  revert index. induction formats as [|f formats IH]; intros index; simpl.
  { split; [by intros ?%not_elem_of_nil|]. by intros (k & _ & ?). }
  assert (Hs : (∃ k, j = S index + k ∧ formats !! k = Some None) ↔
               ∃ k, j = index + S k ∧ (f :: formats) !! S k = Some None).
  { split; intros (k & -> & Hk); exists k; (split; [lia|done]). }
  destruct f as [f|]; rewrite ?elem_of_cons, IH, Hs.
  - split; [intros (k & ?); by exists (S k)|]. intros ([|k] & -> & Hk); [done|eauto].
  - split.
    + intros [->|(k & ?)]; [exists 0; split; [lia|done]|by exists (S k)].
    + intros ([|k] & -> & Hk); [left; lia|right; eauto].
Qed.

Lemma NoDup_frees {A} index (formats : list (option A)) : NoDup (frees index formats).
Proof.
  revert index. induction formats as [|f formats IH]; intros index; simpl; [constructor|].
  destruct f; [done|]. constructor; [|done]. intros (k & E & _)%elem_of_frees. lia.
Qed.

Lemma assign_free_put j l ordered : assign_free (put_first (Some j) ordered) l = assign_free ordered (Some j :: l).
Proof. induction ordered as [|[i|] ordered IH]; simpl; [done| |done]. by rewrite IH. Qed.

Lemma put_fresh_ok storage index formats ordered :
  (∀ j, j ∈ frees index formats → storage !! j = Some (Some j)) →
  put_fresh storage index formats ordered = Ret (assign_free ordered (Some <$> frees index formats)).
Proof.
  revert index ordered. induction formats as [|f formats IH]; intros index ordered Hs; simpl.
  { f_equal. induction ordered as [|[] ordered IHo]; simpl; by rewrite <- ?IHo. }
  destruct f as [f|]; [by apply IH|]. simpl in *. rewrite (Hs index) by left.
  rewrite IH by (intros; apply Hs; by right). by rewrite assign_free_put.
Qed.

Lemma assign_free_keeps ordered l i j :
  ordered !! i = Some (Some j) → assign_free ordered l !! i = Some (Some j).
Proof.
  revert i l. induction ordered as [|r ordered IH]; intros i l Hi; [done|].
  destruct i as [|i], r as [r|], l as [|x l]; simplify_eq/=; auto.
Qed.

Lemma assign_free_perm ordered (l : list nat) :
  missing ordered = length l →
  assign_free ordered (Some <$> l) ≡ₚ Some <$> (omap id ordered ++ l).
Proof.
  revert l. induction ordered as [|r ordered IH]; intros l Hl; [by destruct l|]. destruct r as [j|]; simpl in *.
  - by rewrite IH.
  - destruct l as [|x l]; [done|]. simpl. injection Hl as Hl. rewrite IH, !fmap_app by done.
    simpl. apply Permutation_middle.
Qed.

Lemma missing_omap {A} (l : list (option A)) : missing l + length (omap id l) = length l.
Proof. induction l as [|[x|] l IH]; cbn [missing length]; [done| |exact (f_equal S IH)]. change (omap id (Some x :: l)) with (x :: omap id l). simpl. lia. Qed.

Lemma elem_of_omap_id {A} (l : list (option A)) x : x ∈ omap id l ↔ ∃ i, l !! i = Some (Some x).
Proof.
  rewrite list_elem_of_omap. split.
  - intros (y & Hy & Hx). simpl in Hx. subst y. by apply list_elem_of_lookup in Hy.
  - intros (i & Hi). exists (Some x). split; [|done]. apply list_elem_of_lookup. eauto.
Qed.

Lemma NoDup_omap_id {A} (l : list (option A)) :
  (∀ i i' x, l !! i = Some (Some x) → l !! i' = Some (Some x) → i = i') → NoDup (omap id l).
Proof.
  induction l as [|o l IH]; intros Hinj; [constructor|].
  assert (IH' : NoDup (omap id l)).
  { apply IH. intros i i' x H1' H2'. assert (S i = S i') by (by eapply Hinj). lia. }
  destruct o as [x|]; simpl; [|done]. constructor; [|done].
  intros [i Hi]%elem_of_omap_id. assert (0 = S i) by (by eapply (Hinj 0 (S i))). lia.
Qed.

(** The fresh disks fill the places that are free. *)
Lemma assign_free_all place formats ordered jbod :
  Forall2 (fits jbod) place formats → injective place → length ordered = length place →
  (∀ k i, place !! k = Some (Some i) → ordered !! i = Some (Some k)) →
  (∀ i k, ordered !! i = Some (Some k) → place !! k = Some (Some i)) →
  assign_free ordered (Some <$> frees 0 formats) ≡ₚ Some <$> seq 0 (length place).
Proof.
  intros HF Hinj Hl Hp Ho.
  assert (Hall : omap id ordered ++ frees 0 formats ≡ₚ seq 0 (length place)).
  { apply NoDup_Permutation; [|apply NoDup_seq|].
    - apply NoDup_app. split_and!; [|  |apply NoDup_frees].
      + apply NoDup_omap_id. intros i i' k H1' H2'. apply Ho in H1', H2'. congruence.
      + intros k (i & Hi%Ho)%elem_of_omap_id (k' & -> & Hk')%elem_of_frees. simpl in Hk'.
        destruct (Forall2_lookup_l _ _ _ _ _ HF Hi) as (f & Hf & Hfit). simpl in *. simplify_eq. done.
    - intros k. rewrite elem_of_app, elem_of_omap_id, elem_of_frees, elem_of_seq. split.
      + intros [(i & Hi%Ho%lookup_lt_Some)|(k' & -> & Hk'%lookup_lt_Some)]; [lia|].
        apply Forall2_length in HF. simpl. lia.
      + intros [_ Hk]. destruct (lookup_lt_is_Some_2 _ _ Hk) as [[i|] Hpk].
        * left. exists i. by apply Hp.
        * right. exists k. split; [done|]. destruct (Forall2_lookup_l _ _ _ _ _ HF Hpk) as ([f|] & Hf & Hfit); done. }
  rewrite assign_free_perm; [by rewrite Hall|].
  apply Permutation_length in Hall. rewrite length_app, length_seq in Hall.
  pose proof (missing_omap ordered). lia.
Qed.

Lemma missing_Some {A B} (f : A → B) (l : list A) : missing ((λ x, Some (f x)) <$> l) = 0.
Proof. by induction l. Qed.

(** Disks that are formatted in an order are loaded in that order. *)
Lemma formatted_loaded jbod disks ordered rq :
  NoDup jbod → length disks = length jbod → ordered ≡ₚ Some <$> seq 0 (length jbod) → (0 < length jbod)%nat →
  (∀ i k u, ordered !! i = Some (Some k) → jbod !! i = Some u →
     ∃ d, disks !! k = Some (Some d) ∧ formatted d (new_format jbod u)) →
  (rq ≤ zlen jbod)%Z →
  ∃ disks', loadFormatXL disks rq = Ret (disks', inl ordered).
Proof.
  intros Hn Hl Hperm Hpos Hd Hq. set (n := length jbod) in *.
  assert (HN : NoDup ordered) by (rewrite Hperm; apply NoDup_fmap_2, NoDup_seq; apply _).
  assert (Hlo : length ordered = n) by (by rewrite Hperm, length_fmap, length_seq).
  set (pos k := default 0 (fst <$> list_find (λ r, r = Some k) ordered)).
  assert (Hpk : ∀ k, (k < n)%nat → ordered !! pos k = Some (Some k)).
  { intros k Hk. assert (Hin : Some k ∈ ordered).
    { rewrite Hperm. apply list_elem_of_fmap_2, elem_of_seq. lia. }
    destruct (list_find_elem_of (λ r, r = Some k) _ _ Hin eq_refl) as [[i r] Hf]. unfold pos. rewrite Hf. simpl.
    by apply list_find_Some in Hf as (Hi & -> & _). }
  set (place := (λ k, Some (pos k)) <$> seq 0 n).
  assert (Hplace : ∀ k i, place !! k = Some (Some i) ↔ (k < n)%nat ∧ i = pos k).
  { intros k i. unfold place. rewrite list_lookup_fmap. destruct (decide (k < n)%nat) as [Hk|Hk].
    - rewrite lookup_seq_lt by done. simpl. split; [by intros [= <-]|by intros [_ ->]].
    - rewrite lookup_seq_ge by lia. simpl. split; [done|lia]. }
  assert (Hjp : ∀ k, (k < n)%nat → ∃ u, jbod !! pos k = Some u).
  { intros k Hk. apply lookup_lt_is_Some_2. fold n. rewrite <- Hlo. by eapply lookup_lt_Some, Hpk. }
  destruct (loadFormatXL_ok jbod place ((λ k, new_format jbod <$> jbod !! pos k) <$> seq 0 n) disks rq)
    as (disks' & ordered' & Hload & Hlo' & Hp & _).
  - done.
  - by rewrite length_fmap, length_seq.
  - intros k k' i [Hk ->]%Hplace [Hk' E]%Hplace. apply Hpk in Hk, Hk'. rewrite <- E in Hk'. congruence.
  - apply Forall2_fmap, Forall_Forall2_diag, Forall_seq. intros k Hk. destruct (Hjp k) as [u Hu]; [lia|].
    rewrite Hu. simpl. eexists. by apply new_format_place.
  - apply Forall2_same_length_lookup. split; [by rewrite length_fmap, length_seq|]. intros k slot f Hslot Hf.
    assert (Hk : (k < n)%nat) by (rewrite <- Hl; by eapply lookup_lt_Some).
    rewrite list_lookup_fmap, lookup_seq_lt in Hf by done. destruct (Hjp k Hk) as [u Hu]. simpl in Hf.
    rewrite Hu in Hf. injection Hf as <-. destruct (Hd _ _ _ (Hpk _ Hk) Hu) as (d & Hdk & Hfd).
    exists d. split; [congruence|done].
  - unfold place. rewrite missing_Some. unfold zlen in *. lia.
  - lia.
  - unfold place. by rewrite missing_Some.
  - exists disks'. rewrite Hload. do 3 f_equal. apply list_eq. intros i.
    destruct (decide (i < n)%nat) as [Hi|Hi].
    + destruct (lookup_lt_is_Some_2 ordered i) as [r Hr]; [lia|].
      assert (Hin : r ∈ ordered) by (apply list_elem_of_lookup; eauto). rewrite Hperm in Hin.
      apply list_elem_of_fmap in Hin as (k & -> & Hk%elem_of_seq).
      assert (i = pos k) as -> by (eapply NoDup_lookup; [exact HN|exact Hr|apply Hpk; lia]).
      rewrite Hr. apply Hp. apply Hplace. split; [lia|done].
    + rewrite !lookup_ge_None_2 by (fold n in Hlo'; lia). done.
Qed.

(** Formats that are saved in an order are loaded in that order. *)
Lemma save_all_ok jbod disks ordered configs :
  NoDup jbod → Forall valid_text jbod → Forall ready disks → length disks = length jbod → (0 < length jbod)%nat →
  ordered ≡ₚ Some <$> seq 0 (length jbod) →
  (∀ k, (k < length jbod)%nat → ∃ u, jbod !! k = Some u ∧ configs !! k = Some (Some (new_format jbod u))) →
  ∃ disks1 disks2, initMetaVolume ordered (Some <$> disks) = (disks1, None) ∧
    saveFormatXL ordered disks1 configs = (disks2, None) ∧
    ∀ rq, (rq ≤ zlen jbod)%Z → ∃ disks', loadFormatXL disks2 rq = Ret (disks', inl ordered).
Proof.
  intros HNj Htj Hr Hl Hpos Hperm Hcfg.
  assert (HN : NoDup ordered) by (rewrite Hperm; apply NoDup_fmap_2, NoDup_seq; apply _).
  assert (Hinj : injective ordered) by (intros a b x Ha Hb; by eapply NoDup_lookup).
  assert (Hin : ∀ k j, ordered !! k = Some (Some j) → ∃ d, disks !! j = Some d ∧ ready d ∧ (k < length jbod)%nat).
  { intros k j Hk. assert (Hj : Some j ∈ ordered) by (apply list_elem_of_lookup; eauto).
    rewrite Hperm in Hj. apply list_elem_of_fmap in Hj as (x & [= <-] & Hx%elem_of_seq).
    destruct (lookup_lt_is_Some_2 disks j) as [d Hd]; [lia|]. exists d. rewrite Forall_lookup in Hr.
    split_and!; [done|by eapply Hr|]. apply lookup_lt_Some in Hk. apply Permutation_length in Hperm.
    rewrite length_fmap, length_seq in Hperm. lia. }
  destruct (initMetaVolume_ok ordered (Some <$> disks) Hinj) as (disks1 & Hm & Hl1 & Hp1 & _).
  { intros k j Hk. destruct (Hin _ _ Hk) as (d & Hd & Hrd & _). exists d. by rewrite list_lookup_fmap, Hd. }
  assert (Hd1 : ∀ k j, ordered !! k = Some (Some j) →
            (k < length jbod)%nat ∧ ∃ d, disks1 !! j = Some (Some d) ∧ ready d ∧ has_vol d meta).
  { intros k j Hk. destruct (Hin _ _ Hk) as (d & Hd & Hrd & Hlt). split; [done|].
    destruct (Hp1 k j d Hk) as (d1 & Hd1 & Hr1 & Hv1 & _); [by rewrite list_lookup_fmap, Hd|]. by exists d1. }
  destruct (saveFormatXL_ok ordered disks1 configs Hinj) as (disks2 & Hs & Hl2 & Hp2).
  { intros k j Hk. destruct (Hd1 _ _ Hk) as (Hlt & d & Hd & Hrd & Hv). destruct (Hcfg k Hlt) as (u & Hju & Hcu).
    exists d, (new_format jbod u). split_and!; [done..|]. by eapply new_format_text. }
  rewrite length_fmap in Hl1. exists disks1, disks2. split_and!; [done|done|]. intros rq Hrq.
  apply (formatted_loaded jbod); [done|lia|done|done| |done].
  intros i k u Hi Hju. destruct (Hd1 _ _ Hi) as (Hlt & d & Hd & _). destruct (Hcfg i Hlt) as (u' & Hju' & Hcu).
  simplify_eq. destruct (Hp2 _ _ _ _ Hi Hcu Hd) as (d3 & Hd3 & Hf3 & _). by exists d3.
Qed.

(** What the healer of fresh disks starts from. *)
Record healable (uuid : nat → string) (jbod : list string) (disks : list D) (place : list (option nat)) : Prop := {
  hl_length : length disks = length jbod;
  hl_jbod : NoDup jbod;
  hl_text : Forall valid_text jbod;
  hl_placed : Forall2 (placed jbod) disks place;
  hl_inj : injective place;
  hl_some : ∃ k i, place !! k = Some (Some i);
  hl_fresh : ∃ k, place !! k = Some None;
  hl_uuid : ∀ i j, uuid i = uuid j → i = j;
  hl_new : ∀ i, uuid i ∉ jbod;
  hl_uuid_text : ∀ i, valid_text (uuid i);
}.

Lemma isFormat_mixed jbod place formats k i k' :
  Forall2 (fits jbod) place formats → place !! k = Some (Some i) → place !! k' = Some None →
  isFormatFound formats = false ∧ isFormatNotFound formats = false ∧
  ∃ ref xl i0, first_format formats = Some ref ∧ in_place jbod i0 ref xl.
Proof.
  intros HF Hk Hk'. destruct (Forall2_lookup_l _ _ _ _ _ HF Hk) as ([f|] & Hf & Hfit); [|done].
  destruct (Forall2_lookup_l _ _ _ _ _ HF Hk') as ([f'|] & Hf' & Hfit'); [done|].
  split_and!.
  - apply not_true_iff_false. unfold isFormatFound, isFormatNotFound. intros E. rewrite forallb_forall in E.
    specialize (E None). apply list_elem_of_lookup_2, list_elem_of_In, E in Hf'. done.
  - apply not_true_iff_false. unfold isFormatFound, isFormatNotFound. intros E. rewrite forallb_forall in E.
    specialize (E (Some f)). apply list_elem_of_lookup_2, list_elem_of_In, E in Hf. done.
  - clear -HF Hf. revert k Hf. induction HF as [|p [f0|] place formats Hp HF IH]; intros k Hf; [done|..]; simpl.
    + destruct p as [i0|]; [|done]. destruct Hp as (xl & Hp). eauto 6.
    + destruct k as [|k]; [done|]. by apply (IH k).
Qed.

(** The uuids of the new JBOD are distinct. *)
Lemma new_jbod_NoDup (uuid : nat → string) (jbod jbod' : list string) (free : nat → bool) :
  NoDup jbod → (∀ i j, uuid i = uuid j → i = j) → (∀ i, uuid i ∉ jbod) → length jbod' = length jbod →
  (∀ i, (i < length jbod)%nat → jbod' !! i = if free i then Some (uuid i) else jbod !! i) →
  NoDup jbod'.
Proof.
  intros Hn Hu Hnew Hl Hj. apply NoDup_alt. intros i j u Hi Hj'.
  assert (Hi' := lookup_lt_Some _ _ _ Hi). assert (Hj'' := lookup_lt_Some _ _ _ Hj'). rewrite Hl in *.
  rewrite Hj in Hi, Hj' by done. destruct (free i), (free j); simplify_eq.
  - symmetry. by apply Hu.
  - exfalso. apply (Hnew i), list_elem_of_lookup. eauto.
  - exfalso. apply (Hnew j), list_elem_of_lookup. eauto.
  - by eapply NoDup_lookup.
Qed.

(** The references to all of the disks. *)
Lemma refs_all (disks : list D) k : (k < length disks)%nat → refs (Some <$> disks) !! k = Some (Some k).
Proof. intros Hk. by apply refs_Some. Qed.

Lemma reorder_healable uuid jbod disks place formats :
  healable uuid jbod disks place → Forall2 (fits jbod) place formats →
  ∃ ordered, reorderDisks (refs (Some <$> disks)) formats = Ret (inl ordered) ∧ length ordered = length jbod ∧
    (∀ k i, place !! k = Some (Some i) → ordered !! i = Some (Some k)) ∧
    (∀ i k, ordered !! i = Some (Some k) → place !! k = Some (Some i)).
Proof.
  intros [Hl Hn _ Hpl Hinj _ _ _ _ _] HF.
  assert (Hlp : length place = length jbod) by (rewrite <- Hl; symmetry; by eapply Forall2_length).
  assert (Hlf : length formats = length jbod) by (rewrite <- Hlp; symmetry; by eapply Forall2_length).
  destruct (reorderDisks_ok jbod place formats (refs (Some <$> disks))) as (ordered & Hr & Hlo & Hp & Ho);
    [done..|by rewrite length_refs, length_fmap, Hlf|].
  exists ordered. split_and!; [done|done| |].
  - intros k i Hk. rewrite (Hp _ _ Hk). apply refs_all. rewrite Hl, <- Hlp. by eapply lookup_lt_Some.
  - intros i k Hi. assert (Hlt : (i < length jbod)%nat) by (rewrite <- Hlo; by eapply lookup_lt_Some).
    destruct (decide (Some i ∈ place)) as [[k' Hk']%list_elem_of_lookup|Hno].
    + rewrite (Hp _ _ Hk'), refs_all in Hi by (rewrite Hl, <- Hlp; by eapply lookup_lt_Some).
      by injection Hi as ->.
    + rewrite Ho in Hi; [done|done|]. intros k' Hk'. apply Hno, list_elem_of_lookup. eauto.
Qed.

(** C20.  Healing fresh disks keeps the places.  If the disks are all there,
    some of them formatted consistently and the others fresh, and the new uuids
    are new and distinct, [healFormatXLFreshDisks] succeeds; afterwards
    [loadFormatXL] returns every disk exactly once, the disks that were
    formatted at the positions they had, the fresh ones at the free ones. *)
Theorem healFormatXLFreshDisks_correct (uuid : nat → string) (jbod : list string) (disks : list D)
    (place : list (option nat)) :
  healable uuid jbod disks place →
  ∃ disks' ordered, healFormatXLFreshDisks uuid (Some <$> disks) = Ret (disks', None) ∧
    ordered ≡ₚ Some <$> seq 0 (length disks) ∧
    (∀ k i, place !! k = Some (Some i) → ordered !! i = Some (Some k)) ∧
    ∀ readQuorum, (readQuorum ≤ zlen disks)%Z →
      ∃ disks'', loadFormatXL disks' readQuorum = Ret (disks'', inl ordered).
Proof.
  intros Hh. unfold healFormatXLFreshDisks. assert (Hh' := Hh).
  destruct Hh' as [Hl Hn Ht Hpl Hinj (k0 & i0 & Hk0) (k1 & Hk1) Hu Hnew Hut].
  destruct (load_heal_ok [Some (errUnformattedDisk : error)] jbod disks place eq_refl Hpl)
    as (disks1 & formats & -> & HF & Hr1 & Hl1).
  destruct (isFormat_mixed _ _ _ _ _ _ HF Hk0 Hk1) as (-> & -> & ref & xl & ip & Href & Hip).
  assert (Hlp : length place = length jbod) by (rewrite <- Hl; symmetry; by eapply Forall2_length).
  assert (Hlf : length formats = length jbod) by (rewrite <- Hlp; symmetry; by eapply Forall2_length).
  rewrite (checkFormatXL_ok jbod place formats) by done. go_simpl. rewrite Href.
  assert (xl_of ref = Ret xl) as -> by (unfold xl_of; by rewrite (ip_xl _ _ _ _ Hip)). go_simpl.
  destruct (reorder_healable _ _ _ _ _ Hh HF) as (ordered & -> & Hlo & Hp & Ho). go_simpl.
  rewrite (ip_jbod _ _ _ _ Hip).
  destruct (fill_uuids_ok uuid 0 ordered jbod) as (jbod' & -> & Hlj & Hjk & _); [lia|]. go_simpl.
  destruct (new_configs_ok ref xl jbod ip jbod' 0 (length ordered) Hip) as (configs & -> & Hlc & Hck); [lia|]. go_simpl.
  rewrite put_fresh_ok.
  2: { intros j (k & -> & Hk%lookup_lt_Some)%elem_of_frees. apply refs_all. simpl. lia. }
  go_simpl. set (ordered' := assign_free ordered (Some <$> frees 0 formats)).
  assert (Hperm : ordered' ≡ₚ Some <$> seq 0 (length jbod)).
  { rewrite <- Hlp. apply (assign_free_all place formats ordered jbod); [done|done|lia|done|done]. }
  assert (Hjf : ∀ i, (i < length jbod)%nat →
    jbod' !! i = if match ordered !! i with Some None => true | _ => false end then Some (uuid i) else jbod !! i).
  { intros i Hi. specialize (Hjk i ltac:(lia)). simpl in Hjk. rewrite Hjk. by destruct (ordered !! i) as [[]|]. }
  assert (HNj : NoDup jbod') by (by apply (new_jbod_NoDup uuid jbod jbod' (λ i, match ordered !! i with Some None => true | _ => false end))).
  assert (Htj : Forall valid_text jbod').
  { apply Forall_lookup. intros i u Hi. assert (Hlt := lookup_lt_Some _ _ _ Hi). rewrite Hlj in Hlt.
    rewrite Hjf in Hi by done. rewrite Forall_lookup in Ht. destruct (ordered !! i) as [[]|].
    - by eapply Ht.
    - by injection Hi as <-.
    - by eapply Ht. }
  assert (Hcfg : ∀ k, (k < length jbod)%nat → ∃ u, jbod' !! k = Some u ∧ configs !! k = Some (Some (new_format jbod' u))).
  { intros k Hk. destruct (lookup_lt_is_Some_2 jbod' k) as [u Hju]; [lia|]. exists u. split; [done|].
    rewrite Hck by lia. simpl. by rewrite Hju. }
  destruct (save_all_ok jbod' disks1 ordered' configs) as (disks2 & disks3 & -> & -> & Hload); try done; [lia|..].
  { apply lookup_lt_Some in Hk0. lia. }
  { by rewrite Hlj. }
  { by rewrite Hlj. }
  go_simpl. exists disks3, ordered'. split_and!; [done|by rewrite Hl| |].
  - intros k i Hk. by apply assign_free_keeps, Hp.
  - intros rq Hrq. apply Hload. unfold zlen in *. lia.
Qed.

End Places.

(** ** A JSON instance

    Lengths are written in unary. *)

Definition enc_nat (n : nat) : bytes := replicate n "1"%char ++ ["0"%char].

Fixpoint dec_nat (b : bytes) : nat * bytes :=
  match b with
  | "1"%char :: b' => let '(n, r) := dec_nat b' in (S n, r)
  | _ :: b' => (0, b')
  | [] => (0, [])
  end.

Definition enc_str (s : string) : bytes := enc_nat (length (bytes_of_string s)) ++ bytes_of_string s.

Definition dec_str (b : bytes) : string * bytes :=
  let '(n, r) := dec_nat b in (string_of_bytes (take n r), drop n r).

Definition enc_strs (l : list string) : bytes := enc_nat (length l) ++ (l ≫= enc_str).

Fixpoint dec_strs (n : nat) (b : bytes) : list string * bytes :=
  match n with
  | 0 => ([], b)
  | S n => let '(s, r) := dec_str b in let '(l, r) := dec_strs n r in (s :: l, r)
  end.

Definition enc_format (f : formatConfigV1) : bytes :=
  enc_str (FmtVersion f) ++ enc_str (FmtFormat f) ++
  enc_strs (match FmtFS f with Some fs => [FSVersion fs] | None => [] end) ++
  enc_strs (match FmtXL f with Some xl => XLVersion xl :: XLDiskID xl :: JBOD xl | None => [] end).

Definition dec_format (b : bytes) : formatConfigV1 :=
  let '(v, b) := dec_str b in
  let '(fm, b) := dec_str b in
  let '(n, b) := dec_nat b in
  let '(fs, b) := dec_strs n b in
  let '(n, b) := dec_nat b in
  let '(xl, b) := dec_strs n b in
  {| FmtVersion := v; FmtFormat := fm; FmtFS := (λ x, {| FSVersion := x |}) <$> head fs;
     FmtXL := match xl with
              | v :: d :: jbod => Some {| XLVersion := v; XLDiskID := d; JBOD := jbod |}
              | _ => None
              end |}.

Lemma dec_enc_nat n r : dec_nat (enc_nat n ++ r) = (n, r).
Proof. unfold enc_nat. induction n as [|n IH]; [done|]. simpl in *. by rewrite IH. Qed.

Lemma dec_enc_str s r : dec_str (enc_str s ++ r) = (s, r).
Proof.
  unfold dec_str, enc_str. rewrite <- app_assoc, dec_enc_nat, take_app_length, drop_app_length.
  f_equal. unfold string_of_bytes, bytes_of_string. apply String.string_of_list_ascii_of_string.
Qed.

Lemma dec_enc_strs l r : dec_strs (length l) ((l ≫= enc_str) ++ r) = (l, r).
Proof.
  induction l as [|s l IH]; [done|]. cbn [length dec_strs]. rewrite bind_cons, <- app_assoc, dec_enc_str. by rewrite IH.
Qed.

#[export] Instance demo_format_json : FormatJson := {|
  format_Marshal f := match f with Some f => inl (enc_format f) | None => inl [] end;
  format_Unmarshal b := inl (dec_format b);
|}.

#[export] Instance demo_format_contract : FormatJsonContract.
Proof.
  split. intros f _. eexists. split; [done|]. simpl. f_equal. unfold enc_format, dec_format, enc_strs.
  rewrite <- (app_nil_r (_ ++ _)), <- !app_assoc, !dec_enc_str, dec_enc_nat, dec_enc_strs, dec_enc_nat, dec_enc_strs.
  destruct f as [v fm [fs|] [xl|]]; simpl; by try destruct fs; try destruct xl.
Qed.

(** ** Witnesses *)

Definition demo_uuid (i : nat) : string := string_of_bytes [ascii_of_nat (97 + i)].

Definition empty_disk : MemDisk := {| mem_vols := ∅; mem_files := ∅; mem_offline := false |}.

Lemma empty_ready : ready empty_disk.
Proof.
  split; [split; [done|]|..].
  - intros v p [x Hx]. simpl in Hx. by rewrite lookup_empty in Hx.
  - intros [r [x Hx]]. simpl in Hx. by rewrite lookup_empty in Hx.
  - intros [r [x Hx]]. simpl in Hx. by rewrite lookup_empty in Hx.
Qed.

Lemma initFormatXL_loadFormatXL_witness :
  Forall (ready (D := MemDisk)) [empty_disk; empty_disk; empty_disk] ∧
  ∃ disks', initFormatXL demo_uuid (Some <$> [empty_disk; empty_disk; empty_disk]) = (disks', None) ∧
    ∃ boot' ordered, loadFormatXL [disks' !!! 2; None; disks' !!! 0] 1 = Ret (boot', inl ordered) ∧
      ordered = [Some 2; None; Some 0].
Proof.
  assert (Hr : Forall (ready (D := MemDisk)) [empty_disk; empty_disk; empty_disk])
    by (repeat constructor; apply empty_ready).
  split; [done|].
  destruct (initFormatXL_loadFormatXL demo_uuid [empty_disk; empty_disk; empty_disk] Hr) as (disks' & Hi & Hk & Hload).
  - apply (bool_decide_unpack _). by vm_compute.
  - repeat constructor.
  - exists disks'. split; [done|].
    destruct (Hload [2; 1; 0] (λ i, bool_decide (i = 1)) [disks' !!! 2; None; disks' !!! 0] 1%Z) as (boot' & ordered & Hl & Hlen & Hp).
    + apply (bool_decide_unpack _). by vm_compute.
    + destruct (Hk 0 empty_disk eq_refl) as (d0 & Hd0 & _). destruct (Hk 2 empty_disk eq_refl) as (d2 & Hd2 & _).
      destruct (Hk 1 empty_disk eq_refl) as (d1 & Hd1 & _).
      assert (Hlen : length disks' = 3) by (injection Hi as <-; by vm_compute).
      split; [by rewrite Hlen|]. intros [|[|[|k]]] i slot Hσ Hs; simplify_eq/=; try done.
      * by apply list_lookup_lookup_total.
      * by apply list_lookup_lookup_total.
    + by vm_compute.
    + vm_compute. lia.
    + exists boot', ordered. split; [done|]. destruct ordered as [|o0 [|o1 [|o2 [|]]]]; try done.
      assert (H0 := Hp 2 0 eq_refl). assert (H1 := Hp 1 1 eq_refl). assert (H2 := Hp 0 2 eq_refl).
      by simplify_eq/=.
Defined.

Definition demo_jbod : list string := ["a"; "b"; "c"].

Definition demo_formatted (disk : string) : MemDisk :=
  {| mem_vols := {[ minioMetaBucket ]};
     mem_files := {[ (minioMetaBucket, formatConfigFile) := enc_format (new_format demo_jbod disk) ]};
     mem_offline := false |}.

Lemma demo_formatted_ok disk :
  disk ∈ demo_jbod → formatted (demo_formatted disk) (new_format demo_jbod disk).
Proof.
  intros Hd. assert (Hdir : ∀ p, p = formatConfigFile ∨ p = formatConfigFileTmp →
            ¬ in_dir (demo_formatted disk) minioMetaBucket p).
  { intros p Hp [r [x Hx]]. simpl in Hx. apply lookup_singleton_Some in Hx as [[= Hx] _].
    by destruct Hp as [->| ->]. }
  split.
  - split; [split; [done|]|apply Hdir; by right|apply Hdir; by left].
    intros v p [x Hx]. simpl in Hx. apply lookup_singleton_Some in Hx as [[= <- <-] _].
    apply format_names_clean.
  - unfold has_vol, MemDisk_volumes. simpl. by apply elem_of_singleton.
  - eexists. split; [by simpl; rewrite lookup_singleton_eq|]. simpl. f_equal.
    unfold demo_jbod in Hd. rewrite !elem_of_cons, elem_of_nil in Hd.
    destruct Hd as [->|[->|[->|[]]]]; by vm_compute.
Qed.

Lemma empty_fresh : fresh empty_disk.
Proof.
  exists (eq empty_disk). split; [done|]. intros d <-. split; [apply empty_ready|]. exists empty_disk.
  split; [by vm_compute|done].
Qed.

Definition demo_new_uuid (i : nat) : string := string_of_bytes (replicate (2 + i) "n"%char).

Lemma demo_healable :
  healable demo_new_uuid demo_jbod [demo_formatted "c"; empty_disk; demo_formatted "a"] [Some 2; None; Some 0].
Proof.
  split.
  - done.
  - apply (bool_decide_unpack _). by vm_compute.
  - repeat constructor.
  - constructor; [|constructor; [|constructor; [|constructor]]].
    + eexists _, _. split; [apply demo_formatted_ok; set_solver|by apply new_format_place].
    + apply empty_fresh.
    + eexists _, _. split; [apply demo_formatted_ok; set_solver|by apply new_format_place].
  - intros [|[|[|k]]] [|[|[|k']]] i H1 H2; simplify_eq/=; done.
  - by exists 0, 2.
  - by exists 1.
  - intros i j E. apply (f_equal bytes_of_string) in E. unfold demo_new_uuid in E.
    rewrite !bytes_string_bytes in E. apply (f_equal length) in E. rewrite !length_replicate in E. lia.
  - intros i Hi. unfold demo_jbod in Hi. rewrite !elem_of_cons, elem_of_nil in Hi.
    destruct Hi as [E|[E|[E|[]]]]; by apply (f_equal bytes_of_string) in E.
  - intros i. unfold valid_text, demo_new_uuid. rewrite bytes_string_bytes, length_replicate.
    generalize (2 + i) as n. induction n as [|n IH]; [done|].
    cbn. change (Wildcard.decode_rune "n" ?r) with (110%Z, r). cbn. by rewrite andb_false_r.
Qed.

Lemma healFormatXLFreshDisks_witness :
  healable demo_new_uuid demo_jbod [demo_formatted "c"; empty_disk; demo_formatted "a"] [Some 2; None; Some 0] ∧
  ∃ disks' ordered,
    healFormatXLFreshDisks demo_new_uuid (Some <$> [demo_formatted "c"; empty_disk; demo_formatted "a"]) =
      Ret (disks', None) ∧
    ordered !! 2 = Some (Some 0) ∧ ordered !! 0 = Some (Some 2) ∧
    ∃ disks'', loadFormatXL disks' 1 = Ret (disks'', inl ordered).
Proof.
  split; [apply demo_healable|].
  destruct (healFormatXLFreshDisks_correct _ _ _ _ demo_healable) as (disks' & ordered & Hh & _ & Hp & Hl).
  exists disks', ordered. split_and!; [exact Hh|by apply Hp|by apply (Hp 2)|]. by apply Hl.
Defined.

(** Two disks with the same uuid pass the checks, and one of them is dropped. *)
Lemma loadFormatXL_duplicate_uuid :
  ∃ disks', loadFormatXL [Some (demo_formatted "a"); Some (demo_formatted "b"); Some (demo_formatted "a")] 1 =
    Ret (disks', inl [Some 2; Some 1; None]).
Proof. eexists. by vm_compute. Qed.
