(* ===== verification/RetryStorage.v ===== *)
(** * The retrying storage

    src/cmd/retry-storage.go: a disk that, when it is not found, connects again
    and repeats the call.  [retryStorage] is an implementation of [StorageAPI]
    over another one; where calls that fail have no effect, it satisfies the
    contract of a disk whenever the other one does, so what is proved of the
    object layer holds over it. *)

From S2P Require Import Prelude.
From S2P Require Import GoErrors.
From S2P Require Import Storage.
From S2P Require Import ObjectNames.
From S2P Require Import DiskContract.
From S2P Require Import Format.
From S2P Require Import FormatPlaces.

Definition globalStorageInitRetryThreshold : nat := 4.
Definition globalStorageRetryThreshold : nat := 1.

(** Times are in nanoseconds. *)
Record retryStorage {D : Type} := RetryStorage {
  remoteStorage : D;
  maxRetryAttempts : nat;
  retryUnit : Z;
  retryCap : Z;
}.
Arguments retryStorage : clear implicits.

Section Retry.
Context `{FormatJson} {D : Type} `{!StorageAPI D}.

Definition set_remote (f : retryStorage D) (d : D) : retryStorage D :=
  {| remoteStorage := d; maxRetryAttempts := maxRetryAttempts f; retryUnit := retryUnit f; retryCap := retryCap f |}.

(** The loop of [reInit]; [left] attempts may still fail. *)
Fixpoint reInit_attempts (left : nat) (d : D) : D * option error :=
  let '(d, err) := Init d in
  match err with
  | Some e => match left with O => (d, Some e) | S left' => reInit_attempts left' d end
  | None =>
      let '(d, (_, err)) := loadFormat d in
      match err with
      | Some e => match left with O => (d, Some e) | S left' => reInit_attempts left' d end
      | None => (d, None)
      end
  end.

Definition reInit (f : retryStorage D) : retryStorage D * option error :=
  let '(d, _) := Close (remoteStorage f) in
  let '(d, err) := reInit_attempts (maxRetryAttempts f) d in
  (set_remote f d, err).

(** A call with a result. *)
Definition retry {A} (f : retryStorage D) (call : D → D * (A * option error)) : retryStorage D * (A * option error) :=
  let '(d, (a, err)) := call (remoteStorage f) in
  let f := set_remote f d in
  if err_eqb err (Some (errDiskNotFound : error)) then
    let '(f, err) := reInit f in
    match err with
    | None => let '(d, r) := call (remoteStorage f) in (set_remote f d, r)
    | Some _ => (f, (a, err))
    end
  else (f, (a, err)).

(** A call without a result. *)
Definition retry_err (f : retryStorage D) (call : D → D * option error) : retryStorage D * option error :=
  let '(d, err) := call (remoteStorage f) in
  let f := set_remote f d in
  if err_eqb err (Some (errDiskNotFound : error)) then
    let '(f, err) := reInit f in
    match err with
    | None => let '(d, err) := call (remoteStorage f) in (set_remote f d, err)
    | Some _ => (f, err)
    end
  else (f, err).

Definition retry_Init (f : retryStorage D) : retryStorage D * option error :=
  let '(d, err) := Init (remoteStorage f) in (set_remote f d, err).
Definition retry_Close (f : retryStorage D) : retryStorage D * option error :=
  let '(d, err) := Close (remoteStorage f) in (set_remote f d, err).
Definition retry_DiskInfo (f : retryStorage D) := retry f DiskInfo.
Definition retry_MakeVol (f : retryStorage D) (volume : string) := retry_err f (λ d, MakeVol d volume).
Definition retry_ListVols (f : retryStorage D) := retry f ListVols.
Definition retry_StatVol (f : retryStorage D) (volume : string) := retry f (λ d, StatVol d volume).
Definition retry_DeleteVol (f : retryStorage D) (volume : string) := retry_err f (λ d, DeleteVol d volume).
Definition retry_PrepareFile (f : retryStorage D) (volume path : string) (length : Z) :=
  retry_err f (λ d, PrepareFile d volume path length).
Definition retry_AppendFile (f : retryStorage D) (volume path : string) (buffer : bytes) :=
  retry_err f (λ d, AppendFile d volume path buffer).
Definition retry_StatFile (f : retryStorage D) (volume path : string) := retry f (λ d, StatFile d volume path).
Definition retry_ReadAll (f : retryStorage D) (volume path : string) := retry f (λ d, ReadAll d volume path).
Definition retry_ListDir (f : retryStorage D) (volume path : string) := retry f (λ d, ListDir d volume path).
Definition retry_DeleteFile (f : retryStorage D) (volume path : string) := retry_err f (λ d, DeleteFile d volume path).
Definition retry_RenameFile (f : retryStorage D) (srcVolume srcPath dstVolume dstPath : string) :=
  retry_err f (λ d, RenameFile d srcVolume srcPath dstVolume dstPath).

(** The second read goes into the buffer that the first one left. *)
Definition retry_ReadFile (f : retryStorage D) (volume path : string) (offset : Z) (buffer : bytes)
    : retryStorage D * (bytes * Z * option error) :=
  let '(d, (buffer, m, err)) := ReadFile (remoteStorage f) volume path offset buffer in
  let f := set_remote f d in
  if err_eqb err (Some (errDiskNotFound : error)) then
    let '(f, err) := reInit f in
    match err with
    | None => let '(d, r) := ReadFile (remoteStorage f) volume path offset buffer in (set_remote f d, r)
    | Some _ => (f, (buffer, m, err))
    end
  else (f, (buffer, m, err)).

#[export] Instance retryStorage_StorageAPI : StorageAPI (retryStorage D) := {|
  Init := retry_Init;
  Close := retry_Close;
  DiskInfo := retry_DiskInfo;
  MakeVol := retry_MakeVol;
  ListVols := retry_ListVols;
  StatVol := retry_StatVol;
  DeleteVol := retry_DeleteVol;
  ListDir := retry_ListDir;
  ReadFile := retry_ReadFile;
  PrepareFile := retry_PrepareFile;
  AppendFile := retry_AppendFile;
  RenameFile := retry_RenameFile;
  StatFile := retry_StatFile;
  DeleteFile := retry_DeleteFile;
  ReadAll := retry_ReadAll;
|}.

End Retry.

(** ** The contract

    What the retries rely on: connecting and reading touch no file, a disk
    that is up is found, and a call that does not find the disk has had no
    effect. *)

Class RetryContract `{FormatJson} (D : Type) `{DiskContract D} : Prop := {
  Init_frame : ∀ d d' e v p, Init d = (d', e) → file_at d' v p = file_at d v p;
  Close_frame : ∀ d d' e v p, Close d = (d', e) → file_at d' v p = file_at d v p;
  ReadAll_frame : ∀ d v0 p0 d' r v p, ReadAll d v0 p0 = (d', r) → file_at d' v p = file_at d v p;
  ListVols_frame : ∀ d d' r v p, ListVols d = (d', r) → file_at d' v p = file_at d v p;

  (** The errors of connecting are not the end of a file. *)
  Init_not_eof : ∀ d d' e, Init d = (d', e) → is_eof e = false;
  ReadAll_not_eof : ∀ d v p d' b e, ReadAll d v p = (d', (b, e)) → is_eof e = false;
  ListVols_not_eof : ∀ d d' l e, ListVols d = (d', (l, e)) → is_eof e = false;
  Unmarshal_not_eof : ∀ b e, format_Unmarshal b = inr e → is_eof (Some e) = false;

  AppendFile_notfound : ∀ d v p b d' v' p', AppendFile d v p b = (d', Some (errDiskNotFound : error)) →
    file_at d' v' p' = file_at d v' p';
  ReadFile_notfound : ∀ d v p off buf d' buf' n,
    ReadFile d v p off buf = (d', (buf', n, Some (errDiskNotFound : error))) → buf' = buf;

  up_AppendFile_found : ∀ d v p b d' e, up d → AppendFile d v p b = (d', e) → e ≠ Some (errDiskNotFound : error);
  up_PrepareFile_found : ∀ d v p n d' e, up d → PrepareFile d v p n = (d', e) → e ≠ Some (errDiskNotFound : error);
  up_ReadFile_found : ∀ d v p off buf d' b n e, up d → ReadFile d v p off buf = (d', (b, n, e)) →
    e ≠ Some (errDiskNotFound : error);
  up_StatFile_found : ∀ d v p d' i e, up d → StatFile d v p = (d', (i, e)) → e ≠ Some (errDiskNotFound : error);
  up_DeleteFile_found : ∀ d v p d' e, up d → DeleteFile d v p = (d', e) → e ≠ Some (errDiskNotFound : error);

  down_Init : ∀ d, down d → ∃ d' e, Init d = (d', Some e) ∧ down d' ∧ disk_err (Some e);
  down_Close : ∀ d, down d → ∃ d' e, Close d = (d', e) ∧ down d';
}.

Section Contract.
Context `{FormatJson} {D : Type} `{!StorageAPI D, !StorageContract D, !Volumes D, !DiskContract D, !RetryContract D}.

Abbreviation R := (retryStorage D).
Abbreviation notfound := (Some (errDiskNotFound : error)).

Lemma err_eqb_notfound e : e ≠ notfound → err_eqb e notfound = false.
Proof. intros He. destruct (err_eqb e notfound) eqn:E; [|done]. by apply err_eqb_eq in E. Qed.

(** A call that finds the disk is the call. *)
Lemma retry_found {A} (f : R) (call : D → D * (A * option error)) d' a e :
  call (remoteStorage f) = (d', (a, e)) → e ≠ notfound → retry f call = (set_remote f d', (a, e)).
Proof. intros Hc He. unfold retry. by rewrite Hc, err_eqb_notfound. Qed.

Lemma retry_err_found (f : R) (call : D → D * option error) d' e :
  call (remoteStorage f) = (d', e) → e ≠ notfound → retry_err f call = (set_remote f d', e).
Proof. intros Hc He. unfold retry_err. by rewrite Hc, err_eqb_notfound. Qed.

(** Connecting touches no file. *)
Lemma loadFormat_frame (d d' : D) r v p : loadFormat d = (d', r) → file_at d' v p = file_at d v p.
Proof.
  unfold loadFormat. destruct (ReadAll d _ _) as [d1 [b e]] eqn:Hr. apply (ReadAll_frame _ _ _ _ _ v p) in Hr.
  destruct e as [e|].
  - destruct (_ || _); [|by intros [= <- _]]. destruct (ListVols d1) as [d2 [vols e2]] eqn:Hl.
    apply (ListVols_frame _ _ _ v p) in Hl. destruct e2; [by intros [= <- _]; congruence|].
    destruct (_ <? _)%nat; intros [= <- _]; congruence.
  - destruct (format_Unmarshal b); by intros [= <- _].
Qed.

Lemma loadFormat_not_eof (d d' : D) f e : loadFormat d = (d', (f, e)) → is_eof e = false.
Proof.
  unfold loadFormat. destruct (ReadAll d _ _) as [d1 [b e1]] eqn:Hr. apply ReadAll_not_eof in Hr.
  destruct e1 as [e1|].
  - destruct (_ || _); [|by intros [= _ _ <-]]. destruct (ListVols d1) as [d2 [vols e2]] eqn:Hl.
    apply ListVols_not_eof in Hl. destruct e2; [by intros [= _ _ <-]|]. destruct (_ <? _)%nat; by intros [= _ _ <-].
  - destruct (format_Unmarshal b) as [|e2] eqn:Hu; [by intros [= _ _ <-]|]. apply Unmarshal_not_eof in Hu.
    by intros [= _ _ <-].
Qed.

Lemma reInit_attempts_not_eof left (d d' : D) e : reInit_attempts left d = (d', e) → is_eof e = false.
Proof.
  revert d. induction left as [|left IH]; intros d; simpl;
    (destruct (Init d) as [d1 e1] eqn:Hi; apply Init_not_eof in Hi;
     destruct e1 as [e1|]; [try (by intros [= _ <-]); try (by intros ?%IH)|];
     destruct (loadFormat d1) as [d2 [f2 e2]] eqn:Hl; apply loadFormat_not_eof in Hl;
     destruct e2 as [e2|]; try (by intros [= _ <-]); by intros ?%IH).
Qed.

Lemma reInit_not_eof (f f' : R) e : reInit f = (f', e) → is_eof e = false.
Proof.
  unfold reInit. destruct (Close _) as [d1 e1]. destruct (reInit_attempts _ d1) as [d2 e2] eqn:Hr.
  apply reInit_attempts_not_eof in Hr. by intros [= _ <-].
Qed.

Lemma reInit_attempts_frame left (d d' : D) e v p :
  reInit_attempts left d = (d', e) → file_at d' v p = file_at d v p.
Proof.
  revert d. induction left as [|left IH]; intros d; simpl;
    (destruct (Init d) as [d1 e1] eqn:Hi; apply (Init_frame _ _ _ v p) in Hi;
     destruct e1 as [e1|]; [try (intros [= <- _]; done); try (intros ?%IH; congruence)|];
     destruct (loadFormat d1) as [d2 [f2 e2]] eqn:Hl; apply (loadFormat_frame _ _ _ v p) in Hl;
     destruct e2 as [e2|]; try (intros [= <- _]; congruence); intros ?%IH; congruence).
Qed.

Lemma reInit_frame (f f' : R) e v p :
  reInit f = (f', e) → file_at (remoteStorage f') v p = file_at (remoteStorage f) v p.
Proof.
  unfold reInit. destruct (Close _) as [d1 e1] eqn:Hc. apply (Close_frame _ _ _ v p) in Hc.
  destruct (reInit_attempts _ d1) as [d2 e2] eqn:Hr. apply (reInit_attempts_frame _ _ _ _ v p) in Hr.
  intros [= <- _]. simpl. congruence.
Qed.

(** A disk that is down stays down. *)
Lemma reInit_down (f : R) :
  down (remoteStorage f) → ∃ f' e, reInit f = (f', Some e) ∧ down (remoteStorage f') ∧ disk_err (Some e).
Proof.
  intros Hd. unfold reInit. destruct (down_Close _ Hd) as (d1 & e1 & -> & Hd1).
  assert (Ha : ∀ left d, down d → ∃ d' e, reInit_attempts left d = (d', Some e) ∧ down d' ∧ disk_err (Some e)).
  { clear -RetryContract0. induction left as [|left IH]; intros d Hd; simpl; destruct (down_Init _ Hd) as (d' & e & -> & Hd' & He); eauto. }
  destruct (Ha (maxRetryAttempts f) d1 Hd1) as (d2 & e2 & -> & Hd2 & He2). by eexists _, _.
Qed.

Lemma retry_down {A} (f : R) (call : D → D * (A * option error)) d' a e :
  call (remoteStorage f) = (d', (a, Some e)) → down d' →
  ∃ f' e', retry f call = (f', (a, Some e')) ∧ down (remoteStorage f') ∧ (disk_err (Some e) → disk_err (Some e')).
Proof.
  intros Hc Hd. unfold retry. rewrite Hc. destruct (err_eqb (Some e) notfound) eqn:E.
  - destruct (reInit_down (set_remote f d') Hd) as (f' & e' & -> & Hf' & He'). eauto 6.
  - by eexists _, _.
Qed.

Lemma retry_err_down (f : R) (call : D → D * option error) d' e :
  call (remoteStorage f) = (d', e) → down d' →
  ∃ f' e', retry_err f call = (f', e') ∧ down (remoteStorage f') ∧ (is_Some e → is_Some e') ∧ (disk_err e → disk_err e').
Proof.
  intros Hc Hd. unfold retry_err. rewrite Hc. destruct (err_eqb e notfound) eqn:E.
  - destruct (reInit_down (set_remote f d') Hd) as (f' & e' & -> & Hf' & He'). eauto 10.
  - by eexists _, _.
Qed.

#[export] Program Instance retryStorage_contract : StorageContract R := {|
  file_at f := file_at (remoteStorage f);
  serves f := serves (remoteStorage f);
  accepts f := accepts (remoteStorage f);
|}.
Next Obligation.
  intros f v p b f'. simpl. unfold retry_AppendFile, retry_err.
  destruct (AppendFile _ _ _ _) as [d1 e1] eqn:Ha. destruct (err_eqb e1 notfound) eqn:E.
  - apply err_eqb_eq in E as ->. destruct (reInit _) as [f2 e2] eqn:Hr. apply (reInit_frame _ _ _ v p) in Hr.
    simpl in Hr. destruct e2; [done|]. destruct (AppendFile (remoteStorage f2) _ _ _) as [d3 e3] eqn:Ha3.
    intros [= <- ->]. apply AppendFile_appends in Ha3. simpl. rewrite Ha3, Hr.
    by rewrite (AppendFile_notfound _ _ _ _ _ v p Ha).
  - intros [= <- ->]. by apply AppendFile_appends in Ha.
Qed.
Next Obligation.
  intros f v p b Ha. destruct (AppendFile_accepts _ _ _ b Ha) as (d' & Hd & Ha').
  exists (set_remote f d'). split; [|done]. by apply retry_err_found.
Qed.
Next Obligation.
  intros f v p off buf f' r v' p'. simpl. unfold retry_ReadFile.
  destruct (ReadFile (remoteStorage f) _ _ _ _) as [d1 [[b1 n1] e1]] eqn:Hr1.
  apply (ReadFile_frame _ _ _ _ _ _ _ v' p') in Hr1. destruct (err_eqb e1 notfound); [|by intros [= <- _]].
  destruct (reInit _) as [f2 e2] eqn:Hr. apply (reInit_frame _ _ _ v' p') in Hr. simpl in Hr.
  destruct e2; [intros [= <- _]; simpl; congruence|].
  destruct (ReadFile (remoteStorage f2) _ _ _ _) as [d3 r3] eqn:Hr3.
  apply (ReadFile_frame _ _ _ _ _ _ _ v' p') in Hr3. intros [= <- _]. simpl. congruence.
Qed.
Next Obligation.
  intros f v p off buf f' buf' n e. simpl. unfold retry_ReadFile.
  destruct (ReadFile (remoteStorage f) _ _ _ _) as [d1 [[b1 n1] e1]] eqn:Hr1.
  apply ReadFile_buf in Hr1. destruct (err_eqb e1 notfound); [|by intros [= _ <- _ _]].
  destruct (reInit _) as [f2 [e2|]] eqn:Hr; [by intros [= _ <- _ _]|].
  destruct (ReadFile (remoteStorage f2) _ _ _ _) as [d3 [[b3 n3] e3]] eqn:Hr3.
  apply ReadFile_buf in Hr3. intros [= _ <- _ _]. congruence.
Qed.
Next Obligation.
  intros f v p off buf f' buf' n e Hoff. simpl. unfold retry_ReadFile.
  destruct (ReadFile (remoteStorage f) _ _ _ _) as [d1 [[b1 n1] e1]] eqn:Hr1.
  destruct (err_eqb e1 notfound) eqn:E.
  2: { intros [= _ <- <- <-]. by eapply ReadFile_sound. }
  apply err_eqb_eq in E as ->. assert (Hb := ReadFile_notfound _ _ _ _ _ _ _ _ Hr1). subst b1.
  apply (ReadFile_frame _ _ _ _ _ _ _ v p) in Hr1.
  destruct (reInit _) as [f2 e2] eqn:Hr. assert (Hne := reInit_not_eof _ _ _ Hr).
  apply (reInit_frame _ _ _ v p) in Hr. simpl in Hr.
  destruct e2 as [e2|]; [intros [= _ <- <- <-] [?|?]; congruence|].
  destruct (ReadFile (remoteStorage f2) _ _ _ _) as [d3 [[b3 n3] e3]] eqn:Hr3.
  intros [= _ <- <- <-] He. rewrite <- Hr1, <- Hr. by eapply ReadFile_sound.
Qed.
Next Obligation.
  intros f v p off buf c Hoff Hs Hf. destruct (ReadFile_serves _ _ _ off buf c Hoff Hs Hf) as (d' & Hr & Hs').
  exists (set_remote f d'). split; [|done]. simpl. unfold retry_ReadFile. rewrite Hr.
  unfold readFull. destruct (_ =? _)%nat; [done|]. by destruct (_ =? _)%nat.
Qed.

(** ** The contract of a disk *)

#[export] Instance retryStorage_volumes : Volumes R := λ f v, has_vol (remoteStorage f) v.

(** The views of a disk are those of the disk behind. *)
Lemma keeps_remote P (f f' : R) : keeps P f f' ↔ keeps P (remoteStorage f) (remoteStorage f').
Proof. split; intros [Hv Hf]; by split. Qed.

Lemma but_vol_remote v (f f' : R) : but_vol v f f' ↔ but_vol v (remoteStorage f) (remoteStorage f').
Proof. split; intros [Hv Hf]; by split. Qed.

Lemma free_name_remote (f : R) v p : free_name f v p ↔ free_name (remoteStorage f) v p.
Proof. split; intros [Ha Hb]; by split. Qed.

Lemma dir_entries_remote (f : R) v s l : dir_entries (remoteStorage f) v s l → dir_entries f v s l.
Proof. intros [Hn Hp Hc]; by split. Qed.

Lemma vol_entries_remote (f : R) v l : vol_entries (remoteStorage f) v l → vol_entries f v l.
Proof. intros [Hn Hp Hc]; by split. Qed.

Lemma dir_moved_remote (f f' : R) sv src dv dst :
  dir_moved (remoteStorage f) (remoteStorage f') sv src dv dst → dir_moved f f' sv src dv dst.
Proof. intros [Hv Hd Hs Ho]; by split. Qed.

#[export] Program Instance retryStorage_disk : DiskContract R := {|
  up f := up (remoteStorage f);
  down f := down (remoteStorage f);
|}.
Next Obligation. intros f v p Hu Hv. by apply (up_serves (D := D)). Qed.
Next Obligation. intros f v p Hu Hv Hn%free_name_remote. by apply (up_accepts (D := D)). Qed.
Next Obligation.
  intros f v p b f' Hu Hp Ha. simpl in *. unfold retry_AppendFile in Ha.
  destruct (AppendFile (remoteStorage f) v p b) as [d e] eqn:E. assert (He := up_AppendFile_found _ _ _ _ _ _ Hu E).
  rewrite (retry_err_found _ _ _ _ E He) in Ha. injection Ha as <- ->.
  destruct (up_AppendFile _ _ _ _ _ Hu Hp E). split; [done|]. by apply keeps_remote.
Qed.
Next Obligation.
  intros f v p n f' e Hu Hp Hn%free_name_remote Ha. simpl in *. unfold retry_PrepareFile in Ha.
  destruct (PrepareFile (remoteStorage f) v p n) as [d e'] eqn:E. assert (He := up_PrepareFile_found _ _ _ _ _ _ Hu E).
  rewrite (retry_err_found _ _ _ _ E He) in Ha. injection Ha as <- ->.
  destruct (up_PrepareFile _ _ _ _ _ _ Hu Hp Hn E) as (? & ? & ?). split_and!; [done| |done]. by apply keeps_remote.
Qed.
Next Obligation.
  intros f v Hu Hv. destruct (up_MakeVol _ _ Hu Hv) as (d & e & Hc & Hu' & Hb & Hv' & He).
  exists (set_remote f d), e. split_and!; [|done|by apply but_vol_remote|done|done].
  apply retry_err_found; [done|]. by destruct He as [[_ ->]|[_ ->]].
Qed.
Next Obligation.
  intros f v Hu. destruct (up_DeleteVol _ v Hu) as (d & e & Hc & Hu' & Hb & He).
  exists (set_remote f d), e. split_and!; [|done|by apply but_vol_remote|done].
  apply retry_err_found; [done|]. by destruct He as [(_ & _ & _ & ->)|[(_ & _ & ->)|(_ & _ & _ & ->)]].
Qed.
Next Obligation.
  intros f v Hu Hv. destruct (up_StatVol _ _ Hu Hv) as (d & i & Hc & Hu' & Hs).
  exists (set_remote f d), i. split_and!; [by apply retry_found|done|by apply keeps_remote].
Qed.
Next Obligation.
  intros f v Hu Hv. destruct (up_StatVol_none _ _ Hu Hv) as (d & i & Hc & Hu' & Hs & Hn).
  exists (set_remote f d), i. split_and!; [by apply retry_found|done|by apply but_vol_remote|done].
Qed.
Next Obligation.
  intros f v p Hu Hv. destruct (up_StatFile _ _ p Hu Hv) as (d & i & e & Hc & Hu' & Hs & He).
  assert (Hf := up_StatFile_found _ _ _ _ _ _ Hu Hc).
  exists (set_remote f d), i, e. split_and!; [by apply retry_found|done|by apply keeps_remote|done].
Qed.
Next Obligation.
  intros f v p Hu Hv. destruct (up_ReadAll _ _ p Hu Hv) as (d & r & Hc & Hu' & Hs & Hr).
  exists (set_remote f d), r. split_and!; [|done|by apply keeps_remote|done]. destruct r as [b e].
  apply retry_found; [done|]. simpl in Hr. destruct (file_at _ _ _); by simplify_eq.
Qed.
Next Obligation.
  intros f v p Hu Hv. destruct (up_ReadAll_none _ _ p Hu Hv) as (d & b & Hc & Hu' & Hs).
  exists (set_remote f d), b. split_and!; [by apply retry_found|done|by apply keeps_remote].
Qed.
Next Obligation.
  intros f Hu. destruct (up_ListVols _ Hu) as (d & l & Hc & Hu' & Hs).
  exists (set_remote f d), l. split_and!; [by apply retry_found|done|by apply keeps_remote].
Qed.
Next Obligation.
  intros f v s Hu Hv. destruct (up_ListDir _ _ s Hu Hv) as (d & l & e & Hc & Hu' & Hs & He).
  exists (set_remote f d), l, e. split_and!; [|done|by apply keeps_remote|].
  - apply retry_found; [done|]. by destruct He as [[-> _]|[-> _]].
  - destruct He as [?|[-> He]]; [by left|right]. split; [done|]. by apply dir_entries_remote.
Qed.
Next Obligation.
  intros f v Hu Hv. destruct (up_ListDir_root _ _ Hu Hv) as (d & l & Hc & Hu' & Hs & He).
  exists (set_remote f d), l. split_and!; [by apply retry_found|done|by apply keeps_remote|by apply vol_entries_remote].
Qed.
Next Obligation.
  intros f sv src dv dst Hu Hsv Hdv Hne Hs Hd Hin Hn%free_name_remote Hf.
  destruct (up_RenameFile _ _ _ _ _ Hu Hsv Hdv Hne Hs Hd Hin Hn Hf) as (d & Hc & Hu' & Hm).
  exists (set_remote f d). split_and!; [by apply retry_err_found|done|by apply dir_moved_remote].
Qed.
Next Obligation.
  intros f sv src dv dst Hu Hsv Hdv Hne Hs Hd Hin Hn%free_name_remote Hf.
  destruct (up_RenameFile_none _ _ _ _ _ Hu Hsv Hdv Hne Hs Hd Hin Hn Hf) as (d & e & Hc & Hu' & Hm & He).
  exists (set_remote f d), e. split_and!; [|done|by apply keeps_remote|done].
  apply retry_err_found; [done|]. by destruct He as [->| ->].
Qed.
Next Obligation.
  intros f sv src dv dst c Hu Hsv Hdv Hne Hs Hd Hf Hn.
  destruct (up_RenameFile_over (remoteStorage f) sv src dv dst c) as (d & Hc & Hu' & Hm & Hd' & Hs'); try done.
  { destruct Hn as [?|?%free_name_remote]; [by left|by right]. }
  exists (set_remote f d). split_and!; [by apply retry_err_found|done|by apply keeps_remote|done|done].
Qed.
Next Obligation.
  intros f v p Hu Hv Hp. destruct (up_DeleteFile _ _ _ Hu Hv Hp) as (d & Hc & Hu' & Hk & Hn).
  exists (set_remote f d). split_and!; [by apply retry_err_found|done|by apply keeps_remote|done].
Qed.
Next Obligation.
  intros f v p Hu Hv Hp Hi Hf. destruct (up_DeleteFile_none _ _ _ Hu Hv Hp Hi Hf) as (d & e & Hc & Hu' & Hk).
  assert (He := up_DeleteFile_found _ _ _ _ _ Hu Hc).
  exists (set_remote f d), e. split_and!; [by apply retry_err_found|done|by apply keeps_remote].
Qed.
Next Obligation.
  intros f v s Hu Hv Hp Hi Hf. destruct (up_DeleteFile_dir _ _ _ Hu Hv Hp Hi Hf) as (d & e & Hc & Hu' & Hk & He).
  exists (set_remote f d), e. split_and!; [|done|by apply keeps_remote|done].
  apply retry_err_found; [done|]. by destruct He as [->| ->].
Qed.
Next Obligation.
  intros f v p off buf f' r Hu Hc. simpl in Hc. unfold retry_ReadFile in Hc.
  destruct (ReadFile (remoteStorage f) v p off buf) as [d [[b n] e]] eqn:E.
  rewrite (err_eqb_notfound e) in Hc by exact (up_ReadFile_found _ _ _ _ _ _ _ _ _ Hu E). injection Hc as <- _.
  destruct (up_ReadFile _ _ _ _ _ _ _ Hu E). split; [done|]. by apply keeps_remote.
Qed.
Next Obligation.
  intros f v Hd. destruct (down_MakeVol _ v Hd) as (d & e & Hc & Hd' & He).
  destruct (retry_err_down f (λ d, MakeVol d v) _ _ Hc Hd') as (f' & e' & Hr & Hf & Hs & Hde).
  destruct Hs as [e2 ->]; [done|]. exists f', e2. split_and!; [done|done|by apply Hde].
Qed.
Next Obligation.
  intros f v Hd. destruct (down_DeleteVol _ v Hd) as (d & e & Hc & Hd' & He).
  destruct (retry_err_down f (λ d, DeleteVol d v) _ _ Hc Hd') as (f' & e' & Hr & Hf & Hs & Hde).
  destruct Hs as [e2 ->]; [done|]. exists f', e2. split_and!; [done|done|by apply Hde].
Qed.
Next Obligation.
  intros f v Hd. destruct (down_StatVol _ v Hd) as (d & i & e & Hc & Hd' & He).
  destruct (retry_down f (λ d, StatVol d v) _ _ _ Hc Hd') as (f' & e' & Hr & Hf & Hde). exists f', i, e'. split_and!; [done|done|by apply Hde].
Qed.
Next Obligation.
  intros f v p Hd. destruct (down_StatFile _ v p Hd) as (d & i & e & Hc & Hd').
  destruct (retry_down f (λ d, StatFile d v p) _ _ _ Hc Hd') as (f' & e' & Hr & Hf & _). by exists f', i, e'.
Qed.
Next Obligation.
  intros f v p Hd. destruct (down_ReadAll _ v p Hd) as (d & i & e & Hc & Hd' & He).
  destruct (retry_down f (λ d, ReadAll d v p) _ _ _ Hc Hd') as (f' & e' & Hr & Hf & Hde). exists f', i, e'. split_and!; [done|done|by apply Hde].
Qed.
Next Obligation.
  intros f v p b Hd. destruct (down_AppendFile _ v p b Hd) as (d & e & Hc & Hd').
  destruct (retry_err_down f (λ d, AppendFile d v p b) _ _ Hc Hd') as (f' & e' & Hr & Hf & _). by exists f', e'.
Qed.
Next Obligation.
  intros f v p n Hd. destruct (down_PrepareFile _ v p n Hd) as (d & e & Hc & Hd').
  destruct (retry_err_down f (λ d, PrepareFile d v p n) _ _ Hc Hd') as (f' & e' & Hr & Hf & _). by exists f', e'.
Qed.
Next Obligation.
  intros f sv sp dv dp Hd. destruct (down_RenameFile _ sv sp dv dp Hd) as (d & e & Hc & Hd').
  destruct (retry_err_down f (λ d, RenameFile d sv sp dv dp) _ _ Hc Hd') as (f' & e' & Hr & Hf & _). by exists f', e'.
Qed.
Next Obligation.
  intros f v p Hd. destruct (down_DeleteFile _ v p Hd) as (d & e & Hc & Hd').
  destruct (retry_err_down f (λ d, DeleteFile d v p) _ _ Hc Hd') as (f' & e' & Hr & Hf & _). by exists f', e'.
Qed.
Next Obligation.
  intros f v p Hd. destruct (down_ListDir _ v p Hd) as (d & i & e & Hc & Hd' & He).
  destruct (retry_down f (λ d, ListDir d v p) _ _ _ Hc Hd') as (f' & e' & Hr & Hf & Hde). exists f', i, e'. split_and!; [done|done|by apply Hde].
Qed.

End Contract.

(** ** What a retried call does *)

Section Outcome.
Context `{FormatJson} {D : Type} `{!StorageAPI D}.

(** A login, and the check that the disk is formatted. *)
Definition login (d : D) : D * option error :=
  let '(d, err) := Init d in
  match err with
  | Some _ => (d, err)
  | None => let '(d, (_, err)) := loadFormat d in (d, err)
  end.

(** The disk after [k] logins. *)
Fixpoint logins (k : nat) (d : D) : D :=
  match k with
  | 0 => d
  | S k => logins k (login d).1
  end.

Lemma reInit_attempts_login left (d : D) :
  reInit_attempts left d =
    match login d with
    | (d', None) => (d', None)
    | (d', Some e) => match left with 0 => (d', Some e) | S left' => reInit_attempts left' d' end
    end.
Proof.
  destruct left; simpl; unfold login; destruct (Init d) as [d1 [e1|]]; try done;
    by destruct (loadFormat d1) as [d2 [f2 [e2|]]].
Qed.

Lemma reInit_attempts_ends left (d : D) :
  ∃ k, (k ≤ left)%nat ∧ (∀ j, (j < k)%nat → is_Some (login (logins j d)).2) ∧
    reInit_attempts left d = login (logins k d) ∧ ((login (logins k d)).2 = None ∨ k = left).
Proof.
  revert d. induction left as [|left IH]; intros d; rewrite reInit_attempts_login;
    destruct (login d) as [d' [e|]] eqn:E.
  - exists 0. simpl. rewrite E. split_and!; [lia|lia|done|by right].
  - exists 0. simpl. rewrite E. split_and!; [lia|lia|done|by left].
  - destruct (IH d') as (k & Hk & Hf & Hr & Hend). exists (S k). simpl. rewrite E. simpl. split_and!; [lia| |done|].
    + intros [|j] Hj; simpl; rewrite E; [done|]. apply Hf. lia.
    + destruct Hend as [?| ->]; [by left|by right].
  - exists 0. simpl. rewrite E. split_and!; [lia|lia|done|by left].
Qed.

(** C33.  What a call on a retrying disk does when the disk is not found: the
    connection is closed and at most [maxRetryAttempts + 1] logins are tried,
    each one followed by a load of the format; the first one that succeeds is the
    last, and the call is repeated once on that connection; if all of them fail
    the call returns the error of the last one. *)
Theorem retry_outcome {A} (f : retryStorage D) (call : D → D * (A * option error)) d1 a :
  call (remoteStorage f) = (d1, (a, Some (errDiskNotFound : error))) →
  ∃ k, (k ≤ maxRetryAttempts f)%nat ∧
    let d2 := (Close d1).1 in
    (∀ j, (j < k)%nat → is_Some (login (logins j d2)).2) ∧
    ((∃ d3, login (logins k d2) = (d3, None) ∧
        retry f call = (set_remote f (call d3).1, (call d3).2)) ∨
     (∃ d3 e, k = maxRetryAttempts f ∧ login (logins k d2) = (d3, Some e) ∧
        retry f call = (set_remote f d3, (a, Some e)))).
Proof.
  intros Hc. unfold retry. rewrite Hc. simpl. unfold reInit. simpl. destruct (Close d1) as [d2 e2]. simpl.
  destruct (reInit_attempts_ends (maxRetryAttempts f) d2) as (k & Hk & Hf & -> & Hend). exists k.
  split_and!; [done|done|]. destruct (login (logins k d2)) as [d3 [e3|]] eqn:E.
  - right. destruct Hend as [?| ->]; [done|]. by exists d3, e3.
  - left. exists d3. split; [done|]. simpl. by destruct (call d3).
Qed.

End Outcome.

(** An append that was done before the connection was lost is done again: the
    call succeeds and the bytes are twice in the file. *)
Section Twice.
Context `{FormatJson} {D : Type} `{StorageContract D}.

(** Retried appends are not exactly-once.  If the disk has written the bytes
    but the answer was lost, and the connection comes back, an append through
    [retryStorage] reports success and leaves the bytes twice in the file. *)
Theorem retry_AppendFile_twice (f f2 : retryStorage D) v p b c d1 d3 :
  AppendFile (remoteStorage f) v p b = (d1, Some (errDiskNotFound : error)) →
  file_at d1 v p = Some (c ++ b) →
  reInit (set_remote f d1) = (f2, None) → file_at (remoteStorage f2) v p = file_at d1 v p →
  AppendFile (remoteStorage f2) v p b = (d3, None) →
  ∃ f', AppendFile f v p b = (f', None) ∧ file_at (remoteStorage f') v p = Some (c ++ b ++ b).
Proof.
  intros Ha Hf Hr Hs Ha2. exists (set_remote f2 d3). simpl. unfold retry_AppendFile, retry_err. rewrite Ha. simpl.
  rewrite Hr, Ha2. split; [done|]. simpl. apply AppendFile_appends in Ha2. rewrite Hs, Hf in Ha2.
  simpl in Ha2. rewrite Ha2. by rewrite <- app_assoc.
Qed.

End Twice.

(** ** Instances *)

#[export] Program Instance MemDisk_retry : RetryContract MemDisk.
Next Obligation. by intros d d' e v p [= <- _]. Qed.
Next Obligation. by intros d d' e v p [= <- _]. Qed.
Next Obligation. by intros d v0 p0 d' r v p [= <- _]. Qed.
Next Obligation. intros d d' r v p. simpl. destruct (mem_offline d); by intros [= <- _]. Qed.
Next Obligation. intros d d' e. simpl. destruct (mem_offline d); by intros [= _ <-]. Qed.
Next Obligation.
  intros d v p d' b e. simpl. pose proof (mem_check_not_eof d v). destruct (mem_check d v); [by intros [= _ _ <-]|].
  destruct (mem_files d !! _); by intros [= _ _ <-].
Qed.
Next Obligation. intros d d' l e. simpl. destruct (mem_offline d); by intros [= _ _ <-]. Qed.
Next Obligation. by intros b e. Qed.
Next Obligation. intros d v p b d' v' p'. simpl. unfold mem_AppendFile. destruct (mem_check d v); [by intros [= <- _]|done]. Qed.
Next Obligation.
  intros d v p off buf d' buf' n. simpl. unfold mem_ReadFile. destruct (mem_check d v); [by intros [= _ <- _ _]|].
  destruct (mem_files d !! _); [|done]. destruct (_ <? _)%Z; [done|]. unfold readFull.
  destruct (_ =? _)%nat; [done|]. by destruct (_ =? _)%nat.
Qed.
Next Obligation.
  intros d v p b d' e [Ho _]. simpl. unfold mem_AppendFile, mem_check. rewrite Ho.
  case_bool_decide; by intros [= _ <-].
Qed.
Next Obligation. intros d v p n d' e [Ho _]. simpl. unfold mem_check. rewrite Ho. case_bool_decide; by intros [= _ <-]. Qed.
Next Obligation.
  intros d v p off buf d' b n e [Ho _]. simpl. unfold mem_ReadFile, mem_check. rewrite Ho.
  case_bool_decide; [|by intros [= _ _ _ <-]]. destruct (mem_files d !! _); [|by intros [= _ _ _ <-]].
  destruct (_ <? _)%Z; [by intros [= _ _ _ <-]|]. unfold readFull. intros [= _ _ _ <-].
  destruct (_ =? _)%nat; [done|]. by destruct (_ =? _)%nat.
Qed.
Next Obligation.
  intros d v p d' i e [Ho _]. simpl. unfold mem_check. rewrite Ho.
  case_bool_decide; [|by intros [= _ _ <-]]. destruct (mem_files d !! _); by intros [= _ _ <-].
Qed.
Next Obligation.
  intros d v p d' e [Ho _]. simpl. unfold mem_check. rewrite Ho.
  case_bool_decide; [|by intros [= _ <-]]. destruct (mem_files d !! _); by intros [= _ <-].
Qed.
Next Obligation. intros d Ho. simpl in *. rewrite Ho. eexists _, _. split_and!; [done|done|]. left. Qed.
Next Obligation. intros d Ho. simpl. by eexists _, _. Qed.

(** A disk behind a connection that can be lost: [fl_down] logins fail before it
    comes back, and [fl_lossy] loses the answer to the next append. *)
Record FlakyDisk := { fl_disk : MemDisk; fl_down : nat; fl_lossy : bool }.

Definition fl_set (f : FlakyDisk) (d : MemDisk) : FlakyDisk :=
  {| fl_disk := d; fl_down := fl_down f; fl_lossy := fl_lossy f |}.

Definition fl_call {A} (zero : A) (g : MemDisk → MemDisk * (A * option error)) (f : FlakyDisk)
    : FlakyDisk * (A * option error) :=
  match fl_down f with
  | 0 => let '(d, r) := g (fl_disk f) in (fl_set f d, r)
  | S _ => (f, (zero, Some (errDiskNotFound : error)))
  end.

Definition fl_call_err (g : MemDisk → MemDisk * option error) (f : FlakyDisk) : FlakyDisk * option error :=
  match fl_down f with
  | 0 => let '(d, e) := g (fl_disk f) in (fl_set f d, e)
  | S _ => (f, Some (errDiskNotFound : error))
  end.

#[export] Instance FlakyDisk_StorageAPI : StorageAPI FlakyDisk := {|
  Init f :=
    match fl_down f with
    | 0 | 1 => ({| fl_disk := fl_disk f; fl_down := 0; fl_lossy := fl_lossy f |}, None)
    | S n => ({| fl_disk := fl_disk f; fl_down := n; fl_lossy := fl_lossy f |}, Some (errDiskNotFound : error))
    end;
  Close f := (f, None);
  DiskInfo := fl_call {| DiskTotal := 0; DiskFree := 0; DiskFiles := 0; DiskFfree := 0; DiskFSType := "" |} DiskInfo;
  MakeVol f v := fl_call_err (λ d, MakeVol d v) f;
  ListVols := fl_call [] ListVols;
  StatVol f v := fl_call {| VolName := ""; VolCreated := 0 |} (λ d, StatVol d v) f;
  DeleteVol f v := fl_call_err (λ d, DeleteVol d v) f;
  ListDir f v p := fl_call [] (λ d, ListDir d v p) f;
  ReadFile f v p off buf :=
    match fl_down f with
    | 0 => let '(d, r) := ReadFile (fl_disk f) v p off buf in (fl_set f d, r)
    | S _ => (f, (buf, 0%Z, Some (errDiskNotFound : error)))
    end;
  PrepareFile f v p n := fl_call_err (λ d, PrepareFile d v p n) f;
  AppendFile f v p b :=
    let '(f', e) := fl_call_err (λ d, AppendFile d v p b) f in
    if fl_lossy f then ({| fl_disk := fl_disk f'; fl_down := 1; fl_lossy := false |}, Some (errDiskNotFound : error))
    else (f', e);
  RenameFile f sv sp dv dp := fl_call_err (λ d, RenameFile d sv sp dv dp) f;
  StatFile f v p :=
    fl_call {| FileVolume := ""; FileName := ""; FileModTime := 0; FileSize := 0; FileMode := 0 |} (λ d, StatFile d v p) f;
  DeleteFile f v p := fl_call_err (λ d, DeleteFile d v p) f;
  ReadAll f v p := fl_call [] (λ d, ReadAll d v p) f;
|}.

(** The disk comes back at the third login. *)
Definition demo_flaky : retryStorage FlakyDisk :=
  {| remoteStorage := {| fl_disk := demo_formatted "a"; fl_down := 3; fl_lossy := false |};
     maxRetryAttempts := globalStorageInitRetryThreshold; retryUnit := 1000000000; retryCap := 30000000000 |}.

Lemma retry_outcome_witness :
  ReadAll (remoteStorage demo_flaky) minioMetaBucket formatConfigFile =
    (remoteStorage demo_flaky, ([], Some (errDiskNotFound : error))) ∧
  ∃ f', ReadAll demo_flaky minioMetaBucket formatConfigFile =
    (f', (enc_format (new_format demo_jbod "a"), None)).
Proof.
  split; [by vm_compute|].
  destruct (retry_outcome demo_flaky (λ d, ReadAll d minioMetaBucket formatConfigFile)
              (remoteStorage demo_flaky) [] ltac:(by vm_compute))
    as (k & Hk & Hfail & [(d3 & Hl & Hr)|(d3 & e & -> & Hl & Hr)]).
  - exists (retry_ReadAll demo_flaky minioMetaBucket formatConfigFile).1. by vm_compute.
  - by vm_compute in Hl.
Defined.

#[export] Program Instance FlakyDisk_contract : StorageContract FlakyDisk := {|
  file_at f := file_at (fl_disk f);
  serves f v p := fl_down f = 0 ∧ serves (fl_disk f) v p;
  accepts f v p := fl_down f = 0 ∧ fl_lossy f = false ∧ accepts (fl_disk f) v p;
|}.
Next Obligation.
  intros f v p b f'. simpl. unfold fl_call_err.
  destruct (fl_down f); [|by destruct (fl_lossy f)]. destruct (mem_AppendFile (fl_disk f) v p b) as [d e] eqn:E.
  destruct (fl_lossy f); [done|]. intros [= <- ->].
  exact (AppendFile_appends (D := MemDisk) _ _ _ _ _ E).
Qed.
Next Obligation.
  intros f v p b (Hd & Hl & Ha). destruct (AppendFile_accepts (D := MemDisk) _ _ _ b Ha) as (d & E & Ha').
  exists (fl_set f d). simpl in *. unfold fl_call_err. rewrite Hl, Hd, E. done.
Qed.
Next Obligation.
  intros f v p off buf f' r v' p'. simpl. destruct (fl_down f); by intros [= <- _].
Qed.
Next Obligation.
  intros f v p off buf f' buf' n e. simpl. destruct (fl_down f); [|by intros [= _ <- _ _]].
  intros [= _ E]. refine (ReadFile_buf (D := MemDisk) (fl_disk f) v p off buf (fl_disk f) buf' n e _).
  simpl. unfold mem_ReadFile. by rewrite E.
Qed.
Next Obligation.
  intros f v p off buf f' buf' n e Hoff. simpl. destruct (fl_down f).
  - intros [= _ E] He. refine (ReadFile_sound (D := MemDisk) (fl_disk f) v p off buf (fl_disk f) buf' n e Hoff _ He).
    simpl. unfold mem_ReadFile. by rewrite E.
  - by intros [= _ <- <- <-] [?|?].
Qed.
Next Obligation.
  intros f v p off buf c Hoff [Hd Hs] Hf. destruct (ReadFile_serves (D := MemDisk) _ _ _ _ buf _ Hoff Hs Hf) as (d & E & Hs').
  exists (fl_set f d). simpl. rewrite Hd. simpl in E. unfold mem_ReadFile in E. injection E as <- E. rewrite E.
  by split_and!.
Qed.

(** The answer to the append is lost, and the connection comes back. *)
Definition demo_lossy : retryStorage FlakyDisk :=
  {| remoteStorage := {| fl_disk := demo_formatted "a"; fl_down := 0; fl_lossy := true |};
     maxRetryAttempts := globalStorageRetryThreshold; retryUnit := 1000000; retryCap := 5000000 |}.

Definition demo_appended : FlakyDisk := (AppendFile (remoteStorage demo_lossy) minioMetaBucket "x" ["b"%char]).1.

Lemma retry_AppendFile_twice_witness :
  ∃ f', AppendFile demo_lossy minioMetaBucket "x" ["b"%char] = (f', None) ∧
    file_at (remoteStorage f') minioMetaBucket "x" = Some ["b"%char; "b"%char].
Proof.
  apply (retry_AppendFile_twice demo_lossy (reInit (set_remote demo_lossy demo_appended)).1
    minioMetaBucket "x" ["b"%char] [] demo_appended
    (AppendFile (remoteStorage (reInit (set_remote demo_lossy demo_appended)).1) minioMetaBucket "x" ["b"%char]).1);
    by vm_compute.
Defined.
