(* ===== verification/Startup.v ===== *)
(** * Start-up

    The decisions at the start of a server (src/cmd/prepare-storage.go), the
    construction of the object layer and its storage information
    (src/cmd/xl-v1.go). *)

From S2P Require Import Prelude.
From S2P Require Import GoErrors.
From S2P Require Import GoStrings.
From S2P Require Import Storage.
From S2P Require Import Erasure.
From S2P Require Import ObjCache.
From S2P Require Import ObjectNames.
From S2P Require Import DiskContract.
From S2P Require Import XLDisk.
From S2P Require Import XLObject.
From S2P Require Import XLHeal.
From S2P Require Import Format.
From S2P Require Import FormatSpec.
From S2P Require Import FormatPlaces.
From S2P Require Import RetryStorage.

(** ** Decisions *)

Inductive InitActions :=
| FormatDisks | WaitForHeal | WaitForQuorum | WaitForAll | WaitForFormatting | WaitForConfig | InitObjectLayer | Abort.

#[export] Instance InitActions_dec : EqDecision InitActions.
Proof. solve_decision. Defined.

(** [errMap] counts the errors; the zero value of [InitActions] is [FormatDisks]. *)
Definition quickErrToActions (errMap : option error → nat) : InitActions :=
  if (0 <? errMap (Some (errInvalidAccessKeyID : error)))%nat || (0 <? errMap (Some (errAuthentication : error)))%nat ||
     (0 <? errMap (Some (errServerVersionMismatch : error)))%nat ||
     (0 <? errMap (Some (errServerTimeMismatch : error)))%nat
  then WaitForConfig else FormatDisks.

Definition prepForInitXL (firstDisk : bool) (sErrs : list (option error)) (diskCount : nat) : InitActions :=
  let errMap e := count_err e sErrs in
  if bool_decide (quickErrToActions errMap = WaitForConfig) then WaitForConfig
  else
    let quorum := diskCount / 2 + 1 in
    let disksOffline := errMap (Some (errDiskNotFound : error)) in
    let disksFormatted := errMap None in
    let disksUnformatted := errMap (Some (errUnformattedDisk : error)) in
    let disksCorrupted := errMap (Some (errCorruptedFormat : error)) in
    if (quorum <=? disksOffline)%nat then WaitForQuorum
    else if (quorum <=? disksCorrupted)%nat then Abort
    else if (disksUnformatted =? diskCount)%nat then
      if firstDisk then FormatDisks else WaitForFormatting
    else if (quorum <=? disksUnformatted)%nat then
      if (disksUnformatted + disksFormatted + disksOffline =? diskCount)%nat then WaitForAll else Abort
    else if (quorum <=? disksFormatted)%nat then
      if (disksFormatted + disksOffline =? diskCount)%nat then InitObjectLayer else WaitForHeal
    else WaitForQuorum.

(** ** The retry loop *)

Section Loop.
Context `{FormatJson} {D : Type} `{!StorageAPI D}.

(** What the loop waits for: the timer, before which the disks may have
    changed, or the stop of the service. *)
Inductive init_event :=
| RetryTimer (world : list (option D) → list (option D))
| ServiceDone.

(** One turn of the loop; [None]: it goes on. *)
Definition retry_tick (uuid : nat → string) (firstDisk : bool) (storageDisks : list (option D))
    : go (list (option D) * option (option error)) :=
  let '(disks, (formatConfigs, sErrs)) := loadAllFormats storageDisks in
  err ← checkFormatXLValues formatConfigs;
  match err with
  | Some e => mret (disks, Some (Some e))
  | None =>
      match prepForInitXL firstDisk sErrs (length storageDisks) with
      | Abort => mret (disks, Some (Some (errCorruptedFormat : error)))
      | FormatDisks => let '(disks, err) := initFormatXL uuid disks in mret (disks, Some err)
      | InitObjectLayer => err ← genericFormatCheckXL formatConfigs sErrs; mret (disks, Some err)
      | WaitForHeal => err ← genericFormatCheckXL formatConfigs sErrs; mret (disks, Some err)
      | WaitForQuorum => mret (disks, None)
      | WaitForConfig => mret (disks, None)
      | WaitForAll => mret (disks, None)
      | WaitForFormatting => mret (disks, None)
      end
  end.

Fixpoint retry_loop (uuid : nat → string) (firstDisk : bool) (events : list init_event) (storageDisks : list (option D))
    : go (list (option D) * option (option error)) :=
  match events with
  | [] => Ret (storageDisks, None)
  | ServiceDone :: _ => Ret (storageDisks, Some (Some (ENew "Initializing data volumes gracefully stopped")))
  | RetryTimer world :: events' =>
      r ← retry_tick uuid firstDisk (world storageDisks);
      match r with
      | (disks, Some err) => mret (disks, Some err)
      | (disks, None) => retry_loop uuid firstDisk events' disks
      end
  end.

(** A nil slice of disks is [None]; the result is [None] while the loop waits. *)
Definition retryFormattingXLDisks (uuid : nat → string) (firstDisk : bool) (endpoints : list (option string))
    (storageDisks : option (list (option D))) (events : list init_event)
    : go (list (option D) * option (option error)) :=
  match endpoints, storageDisks with
  | [], _ => Ret (default [] storageDisks, Some (Some (errInvalidArgument : error)))
  | _, None => Ret ([], Some (Some (errInvalidArgument : error)))
  | _, Some disks => retry_loop uuid firstDisk events disks
  end.

(** [newStorageAPI] gives the storage of an endpoint, and an error. *)
Fixpoint initStorageDisks (newStorageAPI : string → option D * option error) (endpoints : list (option string))
    : list (option D) + error :=
  match endpoints with
  | [] => inl []
  | None :: _ => inr (errInvalidArgument : error)
  | Some ep :: endpoints' =>
      let '(storage, err) := newStorageAPI ep in
      match err with
      | Some e =>
          if negb (err_eqb err (Some (errDiskNotFound : error))) then inr e
          else match initStorageDisks newStorageAPI endpoints' with inl disks => inl (storage :: disks) | inr e => inr e end
      | None => match initStorageDisks newStorageAPI endpoints' with inl disks => inl (storage :: disks) | inr e => inr e end
      end
  end.

End Loop.
Arguments init_event : clear implicits.

Section Wait.
Context `{FormatJson} {D : Type} `{!StorageAPI D}.

Definition retry_disk (attempts : nat) (unit cap : Z) (storage : D) : retryStorage D :=
  {| remoteStorage := storage; maxRetryAttempts := attempts; retryUnit := unit; retryCap := cap |}.

(** The remote storages of a slice of retrying disks. *)
Definition remotes (disks : list (option (retryStorage D))) : list (option D) :=
  (λ o, match o with Some f => Some (remoteStorage f) | None => None end) <$> disks.

(** A retrying disk over a nil storage is not nil: the first call on it panics. *)
Definition waitForFormatXLDisks (uuid : nat → string) (firstDisk : bool) (endpoints : list (option string))
    (storageDisks : option (list (option D))) (events : list (init_event (retryStorage D)))
    : go (list (option D) * option (list (option (retryStorage D)) + error)) :=
  match endpoints, storageDisks with
  | [], _ | None :: _, _ => Ret (default [] storageDisks, Some (inr (errInvalidArgument : error)))
  | _, None => Ret ([], Some (inr (errInvalidArgument : error)))
  | _, Some disks =>
      match mapM id disks, events with
      | None, RetryTimer _ :: _ => Panic
      | None, ServiceDone :: _ => Ret (disks, Some (inr (ENew "Initializing data volumes gracefully stopped")))
      | None, [] => Ret (disks, None)
      | Some storages, _ =>
          let retryDisks := (λ d, Some (retry_disk globalStorageInitRetryThreshold 1000000000 30000000000 d)) <$> storages in
          r ← retryFormattingXLDisks uuid firstDisk endpoints (Some retryDisks) events;
          match r with
          | (retryDisks, None) => mret (remotes retryDisks, None)
          | (retryDisks, Some (Some err)) => mret (remotes retryDisks, Some (inr err))
          | (retryDisks, Some None) =>
              mret (remotes retryDisks,
                    Some (inl ((λ o, match o with
                                     | Some d => Some (retry_disk globalStorageRetryThreshold 1000000 5000000 d)
                                     | None => None
                                     end) <$> remotes retryDisks)))
          end
      end
  end.

End Wait.

(** ** The object layer *)

Definition zero_cache : Cache :=
  {| maxSize := 0; maxCacheEntrySize := 0; currentSize := 0; totalEvicted := 0; entries := ∅; expiry := 0 |}.

Section Layer.
Context `{FormatJson} `{MapOrder} `{GJson, MetaJson, Hashes, ReedSolomon}.
Context {D : Type} `{!StorageAPI D}.
Context (bitRotAlgo : string).

(** [objCacheDisabled] comes from the environment; [fuel] and [env] are those of
    [quickHeal].  The disks that the format drops are not in the layer. *)
Definition newXLObjects (fuel : nat) (env : string → nat → heal_env) (objCacheDisabled : bool)
    (globalMaxCacheSize globalCacheExpiry : Z) (storageDisks : option (list (option D)))
    : go (option (xlObjects D) * option error) :=
  match storageDisks with
  | None => Ret (None, Some (errInvalidArgument : error))
  | Some storageDisks =>
      let n := length storageDisks in
      let readQuorum := n / 2 in
      let writeQuorum := n / 2 + 1 in
      '(disks, loaded) ← loadFormatXL storageDisks (Z.of_nat readQuorum);
      match loaded with
      | inr _ => mret (None, Some (ENew "Unable to recognize backend format"))
      | inl ordered =>
          let blocks := Z.of_nat (length ordered / 2) in
          let objCacheEnabled := negb objCacheDisabled && (0 <? globalMaxCacheSize)%Z in
          objCache ← (if objCacheEnabled then New globalMaxCacheSize globalCacheExpiry else Ret zero_cache);
          let '(disks, err) := initMetaVolume (refs storageDisks) disks in
          match err with
          | Some _ => mret (None, Some (ENew "Unable to initialize '.minio.sys' meta volume"))
          | None =>
              '(newStorageDisks, err) ← quickHeal bitRotAlgo fuel env (deref disks ordered) writeQuorum readQuorum;
              mret (Some {| XLObject.storageDisks := newStorageDisks; dataBlocks := blocks; parityBlocks := blocks;
                            XLObject.readQuorum := readQuorum; XLObject.writeQuorum := writeQuorum;
                            XLObject.objCache := objCache; XLObject.objCacheEnabled := objCacheEnabled |}, err)
          end
      end
  end.

End Layer.

(** ** Storage information *)

Inductive BackendType := Unknown | FS | XL.

Record StorageInfo := {
  InfoTotal : Z;
  InfoFree : Z;
  InfoType : BackendType;
  InfoOnlineDisks : Z;
  InfoOfflineDisks : Z;
  InfoReadQuorum : Z;
  InfoWriteQuorum : Z;
}.

Definition DiskStat_zero : DiskStat :=
  {| DiskTotal := 0; DiskFree := 0; DiskFiles := 0; DiskFfree := 0; DiskFSType := "" |}.

Section Info.
Context {D : Type} `{!StorageAPI D}.

(** [sort.Sort] of the valid disks by their total. *)
Context (sort_by_total : list DiskStat → list DiskStat).

(** The disks after the calls, the infos, and the numbers of disks online and
    offline. *)
Fixpoint getDisksInfo (disks : list (option D)) : list (option D) * (list DiskStat * Z * Z) :=
  match disks with
  | [] => ([], ([], 0, 0))%Z
  | None :: disks' =>
      let '(disks', (infos, online, offline)) := getDisksInfo disks' in
      (None :: disks', (DiskStat_zero :: infos, online, offline + 1))%Z
  | Some d :: disks' =>
      let '(d, (info, err)) := DiskInfo d in
      let '(disks', (infos, online, offline)) := getDisksInfo disks' in
      match err with
      | Some _ =>
          if isErr err baseErrs then (Some d :: disks', (DiskStat_zero :: infos, online, offline + 1))%Z
          else (Some d :: disks', (info :: infos, online + 1, offline))%Z
      | None => (Some d :: disks', (info :: infos, online + 1, offline))%Z
      end
  end.

Definition sortValidDisksInfo (disksInfo : list DiskStat) : list DiskStat :=
  sort_by_total (filter (λ i, DiskTotal i ≠ 0%Z) disksInfo).

(** The products are [int64]s, and the division truncates. *)
Definition getStorageInfo (disks : list (option D)) : list (option D) * StorageInfo :=
  let '(disks, (disksInfo, onlineDisks, offlineDisks)) := getDisksInfo disks in
  match sortValidDisksInfo disksInfo with
  | [] => (disks, {| InfoTotal := -1; InfoFree := -1; InfoType := Unknown; InfoOnlineDisks := 0;
                     InfoOfflineDisks := 0; InfoReadQuorum := 0; InfoWriteQuorum := 0 |})
  | smallest :: _ =>
      (disks, {| InfoTotal := Z.quot (int64_wrap (DiskTotal smallest * onlineDisks)) 2;
                 InfoFree := Z.quot (int64_wrap (DiskFree smallest * onlineDisks)) 2;
                 InfoType := XL; InfoOnlineDisks := onlineDisks; InfoOfflineDisks := offlineDisks;
                 InfoReadQuorum := 0; InfoWriteQuorum := 0 |})
  end.

Definition xl_StorageInfo (xl : xlObjects D) : list (option D) * StorageInfo :=
  let '(disks, i) := getStorageInfo (XLObject.storageDisks xl) in
  (disks, {| InfoTotal := InfoTotal i; InfoFree := InfoFree i; InfoType := InfoType i;
             InfoOnlineDisks := InfoOnlineDisks i; InfoOfflineDisks := InfoOfflineDisks i;
             InfoReadQuorum := Z.of_nat (XLObject.readQuorum xl);
             InfoWriteQuorum := Z.of_nat (XLObject.writeQuorum xl) |}).

End Info.

(** ** The decision to format *)

Lemma count_err_le e errs : (count_err e errs ≤ length errs)%nat.
Proof. apply length_filter. Qed.

Lemma count_err_all e errs : err_eqb e e = true → Forall (eq e) errs → count_err e errs = length errs.
Proof.
  intros He Ha. unfold count_err. f_equal. apply filter_all. intros x Hx. rewrite Forall_forall in Ha.
  by rewrite <- (Ha _ Hx).
Qed.

Lemma count_err_none e e' errs : err_eqb e' e = false → Forall (eq e') errs → count_err e errs = 0.
Proof.
  intros He Ha. unfold count_err. induction Ha as [|x errs <- Ha IH]; [done|].
  rewrite filter_cons, decide_False by congruence. done.
Qed.

Lemma count_err_full e errs : count_err e errs = length errs → Forall (eq e) errs.
Proof.
  unfold count_err. induction errs as [|x errs IH]; [constructor|]. rewrite filter_cons.
  pose proof (length_filter (λ x, err_eqb x e = true) errs).
  destruct (decide (err_eqb x e = true)) as [E|E]; simpl; intros Hl; [|lia].
  constructor; [symmetry; by apply err_eqb_eq|]. apply IH. lia.
Qed.

Lemma prep_formats (firstDisk : bool) (sErrs : list (option error)) :
  sErrs ≠ [] →
  prepForInitXL firstDisk sErrs (length sErrs) = FormatDisks ↔
  firstDisk = true ∧ Forall (eq (Some (errUnformattedDisk : error))) sErrs.
Proof.
  intros Hne. assert (Hpos : (0 < length sErrs)%nat) by (destruct sErrs; [done|simpl; lia]).
  pose proof (Nat.div_lt (length sErrs) 2 Hpos ltac:(lia)). split.
  - unfold prepForInitXL. case_bool_decide; [done|]. destruct (_ <=? _)%nat; [done|]. destruct (_ <=? _)%nat; [done|].
    destruct (_ =? _)%nat eqn:E.
    + apply Nat.eqb_eq in E. destruct firstDisk; [|done]. intros _. split; [done|]. by apply count_err_full.
    + by repeat case_match.
  - intros [-> Ha]. unfold prepForInitXL, quickErrToActions.
    assert (H0 : ∀ e, err_eqb (Some (errUnformattedDisk : error)) (Some e) = false → count_err (Some e) sErrs = 0)
      by (intros e He; by apply (count_err_none _ _ _ He)).
    rewrite (H0 errInvalidAccessKeyID), (H0 errAuthentication), (H0 errServerVersionMismatch),
      (H0 errServerTimeMismatch), (H0 errDiskNotFound), (H0 errCorruptedFormat) by done.
    rewrite bool_decide_false by done.
    rewrite (count_err_all (Some (errUnformattedDisk : error)) sErrs eq_refl Ha), Nat.eqb_refl.
    by rewrite !(proj2 (Nat.leb_gt _ _)) by lia.
Qed.

(** C32.  When a server formats its disks: exactly when it is the first server
    and every disk reports that it is unformatted.  So one disk that is
    formatted, corrupted, offline or failing is enough to keep the start-up
    from formatting. *)
Theorem prepForInitXL_formats (firstDisk : bool) (sErrs : list (option error)) :
  sErrs ≠ [] →
  prepForInitXL firstDisk sErrs (length sErrs) = FormatDisks ↔
  firstDisk = true ∧ Forall (eq (Some (errUnformattedDisk : error))) sErrs.
Proof. apply prep_formats. Qed.

Lemma prepForInitXL_formats_witness :
  [Some (errUnformattedDisk : error); None] ≠ [] ∧
  prepForInitXL true [Some (errUnformattedDisk : error); None] 2 ≠ FormatDisks.
Proof.
  split; [done|]. intros [_ Ha]%(prepForInitXL_formats true [Some (errUnformattedDisk : error); None] ltac:(done)).
  by apply Forall_cons in Ha as [_ [? _]%Forall_cons].
Defined.

(** The comparisons of sentinel errors, evaluated. *)
Ltac eval_errs :=
  repeat match goal with
  | |- context [err_eqb ?a ?b] =>
      let x := eval vm_compute in (err_eqb a b) in change (err_eqb a b) with x
  end; cbn match.

(** ** Restart *)

Section Restart.
Context `{FormatJsonContract} {D : Type} `{DiskContract D}.

Definition slot_err (f : option formatConfigV1) : option error :=
  match f with Some _ => None | None => Some (errDiskNotFound : error) end.

Lemma loadAllFormats_reads (slots : list (option D)) formats :
  Forall2 reads slots formats →
  ∃ slots', loadAllFormats slots = (slots', (formats, slot_err <$> formats)) ∧ Forall2 reads slots' formats.
Proof.
  intros HF. induction HF as [|slot f slots formats Hf HF (slots' & Hl & HF')]; [by exists []|].
  destruct f as [f|].
  - destruct Hf as (d & -> & Hd). destruct (loadFormat_formatted _ _ Hd) as (d' & Hld & Hd'). simpl. rewrite Hld, Hl.
    eexists. split; [done|]. constructor; [by exists d'|done].
  - destruct slot as [d|]; simpl.
    + destruct (loadFormat_offline _ Hf) as (d' & -> & Hd'). rewrite Hl. eexists. split; [done|]. by constructor.
    + rewrite Hl. eexists. split; [done|]. by constructor.
Qed.

Lemma missing_length {A} (l : list (option A)) : (missing l ≤ length l)%nat.
Proof. induction l as [|[] l IH]; simpl; lia. Qed.

(** The errors of a slice in which every slot succeeds or fails with [e0]. *)
Lemma count_err_slots {A} (l : list (option A)) (g : option A → option error) e0 e :
  (∀ x, g (Some x) = None) → g None = Some e0 →
  count_err e (g <$> l) =
    if err_eqb None e then length l - missing l else if err_eqb (Some e0) e then missing l else 0.
Proof.
  intros Hs Hn. unfold count_err. induction l as [|[x|] l IH]; [by repeat case_match|..];
    pose proof (missing_length l); rewrite fmap_cons, filter_cons, ?Hs, ?Hn.
  - destruct (decide _) as [E|E]; cbn [length missing]; rewrite IH.
    + rewrite E. lia.
    + apply not_true_is_false in E. by rewrite E.
  - destruct (err_eqb None e) eqn:E0.
    + destruct e; [done|]. destruct (decide _) as [E|E]; [by destruct e0|]. cbn [length missing]. rewrite IH. lia.
    + destruct (decide _) as [E|E]; cbn [length missing]; rewrite IH; [by rewrite E|].
      apply not_true_is_false in E. by rewrite E.
Qed.

Lemma fits_missing jbod place formats : Forall2 (fits jbod) place formats → missing formats = missing place.
Proof. intros HF. induction HF as [|p f place formats Hf HF IH]; [done|]. destruct p, f; simpl; by rewrite ?IH. Qed.

(** Formats that agree, with few disks lost, pass the check. *)
Lemma genericFormatCheckXL_ok jbod place formats :
  NoDup jbod → length formats = length jbod → Forall2 (fits jbod) place formats →
  (missing formats ≤ length formats - length formats / 2)%nat →
  genericFormatCheckXL formats (slot_err <$> formats) = Ret None.
Proof.
  intros Hn Hl HF Hm. unfold genericFormatCheckXL.
  rewrite (count_err_slots formats slot_err errDiskNotFound) by done. eval_errs.
  set (errCount := length (filter _ _)).
  assert (Hc : (errCount ≤ missing formats)%nat).
  { unfold errCount. clear. induction formats as [|[f|] formats IH]; [done|..]; rewrite fmap_cons, filter_cons; simpl.
    - exact IH.
    - lia. }
  rewrite !(proj2 (Nat.ltb_ge _ _)) by lia. by apply (checkFormatXL_ok jbod place).
Qed.

Lemma half_lt n : (0 < n)%nat → (n / 2 < n)%nat ∧ (n - (n / 2 + 1) < n / 2 + 1)%nat.
Proof.
  intros Hn. pose proof (Nat.div_mod n 2 ltac:(lia)). pose proof (Nat.mod_upper_bound n 2 ltac:(lia)). lia.
Qed.

Lemma retry_tick_found uuid firstDisk jbod place formats slots :
  NoDup jbod → (0 < length jbod)%nat → length formats = length jbod →
  Forall2 (fits jbod) place formats → Forall2 reads slots formats →
  (missing place ≤ length jbod - (length jbod / 2 + 1))%nat →
  ∃ slots', retry_tick uuid firstDisk slots = Ret (slots', Some None) ∧ Forall2 reads slots' formats.
Proof.
  intros Hn Hpos Hl HF HR Hm. rewrite <- (fits_missing _ _ _ HF) in Hm. destruct (half_lt _ Hpos) as [Hh1 Hh2].
  unfold retry_tick. destruct (loadAllFormats_reads _ _ HR) as (slots' & -> & HR'). exists slots'. split; [|done].
  assert (checkFormatXLValues formats = Ret None) as ->.
  { unfold checkFormatXLValues. rewrite Hl. by apply (values_ok jbod place). }
  go_simpl. rewrite (Forall2_length _ _ _ HR). unfold prepForInitXL, quickErrToActions.
  rewrite !(count_err_slots formats slot_err errDiskNotFound) by done. eval_errs. rewrite Hl.
  pose proof (missing_length formats) as Hle. rewrite Hl in Hle.
  cbn [Nat.ltb Nat.leb orb]. rewrite bool_decide_false by done.
  rewrite (proj2 (Nat.leb_gt (length jbod / 2 + 1) (missing formats))) by lia.
  rewrite (proj2 (Nat.leb_gt (length jbod / 2 + 1) 0)) by lia.
  rewrite (proj2 (Nat.eqb_neq 0 (length jbod))) by lia.
  rewrite (proj2 (Nat.leb_le (length jbod / 2 + 1) (length jbod - missing formats))) by lia.
  rewrite (proj2 (Nat.eqb_eq (length jbod - missing formats + missing formats) (length jbod))) by lia.
  rewrite (genericFormatCheckXL_ok jbod place) by (done || rewrite Hl; lia). done.
Qed.

(** Fresh disks are formatted. *)
Lemma retry_tick_fresh uuid (disks : list D) :
  Forall fresh disks → disks ≠ [] →
  ∃ disks1, length disks1 = length disks ∧ Forall ready disks1 ∧
    retry_tick uuid true (Some <$> disks) =
      Ret (let '(disks, err) := initFormatXL uuid (Some <$> disks1) in (disks, Some err)).
Proof.
  intros Hf Hne. unfold retry_tick.
  assert (Hl : ∃ disks1, loadAllFormats (Some <$> disks) =
     (Some <$> disks1, ((λ _, None) <$> disks, (λ _, Some (errUnformattedDisk : error)) <$> disks)) ∧
     length disks1 = length disks ∧ Forall ready disks1).
  { clear Hne. induction Hf as [|d disks Hd Hf (disks1 & Hl & Hlen & Hr)]; [by exists []|].
    destruct (loadFormat_fresh _ Hd) as (_ & d' & Hld & [Hr' _]%loadFormat_fresh). exists (d' :: disks1).
    rewrite !fmap_cons. simpl. rewrite Hld, Hl. split_and!; [done|by rewrite Hlen|by constructor]. }
  destruct Hl as (disks1 & -> & Hlen & Hr). exists disks1. split_and!; [done|done|].
  assert (checkFormatXLValues ((λ _, None) <$> disks) = Ret None) as ->.
  { unfold checkFormatXLValues. generalize (length ((λ _ : D, @None formatConfigV1) <$> disks)) as n. intros n.
    clear. by induction disks. }
  go_simpl. set (errs := (λ _, Some (errUnformattedDisk : error)) <$> disks).
  assert (prepForInitXL true errs (length (Some <$> disks)) = FormatDisks) as ->.
  { assert (length (Some <$> disks) = length errs) as -> by (unfold errs; by rewrite !length_fmap).
    apply prep_formats; [by destruct disks|]. split; [done|]. apply Forall_fmap. by apply Forall_true. }
  by destruct (initFormatXL uuid (Some <$> disks1)).
Qed.

(** C19.  A server that is started again finds its disks.  If all disks are
    fresh the first server formats them; whatever the order in which they are
    found later, and with a write quorum of them there, the start-up goes on
    without formatting, and loading the format gives every disk the place it
    had, with nil for the disks that are not found. *)
Theorem startup_restart (uuid uuid' : nat → string) (disks : list D) :
  Forall fresh disks → disks ≠ [] → NoDup (uuid <$> seq 0 (length disks)) →
  Forall valid_text (uuid <$> seq 0 (length disks)) →
  ∃ disks', retry_tick uuid true (Some <$> disks) = Ret (disks', Some None) ∧
    ∀ σ lost boot firstDisk,
      σ ≡ₚ seq 0 (length disks) → found σ lost disks' boot →
      (length (filter (λ i, lost i = true) (seq 0 (length disks))) ≤ length disks - (length disks / 2 + 1))%nat →
      ∃ boot' boot'' ordered,
        retry_tick uuid' firstDisk boot = Ret (boot', Some None) ∧
        loadFormatXL boot' (Z.of_nat (length disks / 2)) = Ret (boot'', inl ordered) ∧ length ordered = length disks ∧
        ∀ k i, σ !! k = Some i → ordered !! i = Some (if lost i then None else Some k).
Proof.
  intros Hf Hne Hn Ht. assert (Hpos : (0 < length disks)%nat) by (destruct disks; [done|simpl; lia]).
  destruct (retry_tick_fresh uuid disks Hf Hne) as (disks1 & Hl1 & Hr1 & ->). rewrite <- Hl1 in *.
  destruct (initFormatXL_ok uuid disks1 Hr1 Ht) as (disks' & -> & Hl & Hd). exists disks'. split; [done|].
  intros σ lost boot fd Hσ Hfound Hlost. set (jbod := uuid <$> seq 0 (length disks1)) in *.
  assert (Hlj : length jbod = length disks1) by (unfold jbod; by rewrite length_fmap, length_seq).
  destruct (half_lt _ Hpos) as [Hh1 Hh2]. rewrite <- Hlj in *.
  destruct (found_formats jbod disks' σ lost boot) as (Hlf & Hinj & HF & HR & Hm & Hplace); [done| |done|done|].
  { intros i u Hu. destruct (lookup_lt_is_Some_2 disks1 i) as [d Hid]; [rewrite <- Hlj; by eapply lookup_lt_Some|].
    destruct (Hd _ _ Hid) as (d' & Hd' & Hfd & _). exists d'. split; [done|]. unfold jbod in Hu.
    rewrite list_lookup_fmap, lookup_seq_lt in Hu by (by eapply lookup_lt_Some). by injection Hu as <-. }
  rewrite <- Hm in Hlost.
  destruct (retry_tick_found uuid' fd _ _ _ _ Hn Hpos Hlf HF HR Hlost) as (boot' & Htick & HR').
  edestruct (loadFormatXL_ok jbod) as (boot'' & ordered & Hload & Hlo & Hp & Ho);
    [done|exact Hlf|exact Hinj|exact HF|exact HR'| | | |].
  4: { exists boot', boot'', ordered. split_and!; [done|exact Hload|done|]. by eapply found_order. }
  all: unfold zlen; lia.
Qed.

(** ** A majority of unformatted disks *)

Definition mixed_err (p : option nat) : option error :=
  match p with Some _ => None | None => Some (errUnformattedDisk : error) end.

Lemma loadAllFormats_mixed jbod (disks : list D) place :
  Forall2 (placed jbod) disks place →
  ∃ disks' formats, loadAllFormats (Some <$> disks) = (Some <$> disks', (formats, mixed_err <$> place)) ∧
    Forall2 (placed jbod) disks' place ∧ Forall2 (fits jbod) place formats.
Proof.
  intros HF. induction HF as [|d p disks place Hd HF (disks' & formats & Hl & HP & Hfit)]; [by exists [], []|].
  destruct p as [i|].
  - destruct Hd as (f & xl & Hfd & Hip). destruct (loadFormat_formatted _ _ Hfd) as (d' & Hld & Hfd').
    exists (d' :: disks'), (Some f :: formats). rewrite !fmap_cons. simpl. rewrite Hld, Hl.
    split_and!; [done| |]; (constructor; [|done]); [by exists f, xl|by exists xl].
  - destruct (loadFormat_fresh _ Hd) as (_ & d' & Hld & Hfd'). exists (d' :: disks'), (None :: formats).
    rewrite !fmap_cons. simpl. rewrite Hld, Hl. split_and!; [done|by constructor|by constructor].
Qed.

(** A majority of unformatted disks keeps the start-up waiting for ever: if
    all disks are there, most of them fresh and at least one formatted, then
    every turn of the loop ends in [WaitForAll], although no disk is missing. *)
Theorem startup_waits_forever (uuid : nat → string) (firstDisk : bool) (jbod : list string) (disks : list D)
    (place : list (option nat)) (k : nat) :
  Forall2 (placed jbod) disks place → length jbod = length disks →
  (length disks / 2 + 1 ≤ missing place < length disks)%nat →
  ∃ disks', retry_loop uuid firstDisk (replicate k (RetryTimer id)) (Some <$> disks) = Ret (disks', None).
Proof.
  intros HP Hl Hm. revert disks HP Hl Hm. induction k as [|k IH]; intros disks HP Hl Hm; [by eexists|].
  cbn [replicate retry_loop]. unfold retry_tick, id.
  destruct (loadAllFormats_mixed _ _ _ HP) as (disks' & formats & -> & HP' & HF).
  assert (Hlp : length place = length disks) by (symmetry; by eapply Forall2_length).
  assert (checkFormatXLValues formats = Ret None) as ->.
  { unfold checkFormatXLValues. rewrite <- (Forall2_length _ _ _ HF), Hlp, <- Hl. by apply (values_ok jbod place). }
  go_simpl. rewrite length_fmap. unfold prepForInitXL, quickErrToActions.
  rewrite !(count_err_slots place mixed_err errUnformattedDisk) by done. eval_errs. rewrite Hlp. cbn [Nat.ltb orb].
  rewrite (proj2 (Nat.leb_gt (length disks / 2 + 1) 0)) by lia.
  rewrite (proj2 (Nat.eqb_neq (missing place) (length disks))) by lia.
  rewrite (proj2 (Nat.leb_le (length disks / 2 + 1) (missing place))) by lia.
  rewrite (proj2 (Nat.eqb_eq (missing place + (length disks - missing place) + 0) (length disks))) by lia.
  go_simpl. assert (Hl' : length disks' = length disks) by (rewrite <- Hlp; by eapply Forall2_length).
  apply IH; [done|by rewrite Hl'|by rewrite Hl'].
Qed.

End Restart.

(** ** Witnesses *)

Lemma startup_restart_witness :
  ∃ disks', retry_tick demo_uuid true (Some <$> [empty_disk; empty_disk; empty_disk]) = Ret (disks', Some None) ∧
    ∃ boot' boot'' ordered,
      retry_tick demo_new_uuid false [disks' !!! 2; None; disks' !!! 0] = Ret (boot', Some None) ∧
      loadFormatXL boot' 1 = Ret (boot'', inl ordered) ∧ ordered !! 0 = Some (Some 2) ∧ ordered !! 1 = Some None.
Proof.
  destruct (startup_restart demo_uuid demo_new_uuid [empty_disk; empty_disk; empty_disk]) as (disks' & Ht & Hr).
  - repeat constructor; apply empty_fresh.
  - done.
  - apply (bool_decide_unpack _). by vm_compute.
  - repeat constructor.
  - exists disks'. split; [done|].
    destruct (Hr [2; 1; 0] (λ i, bool_decide (i = 1)) [disks' !!! 2; None; disks' !!! 0] false)
      as (boot' & boot'' & ordered & Htick & Hload & _ & Hp).
    + apply (bool_decide_unpack _). by vm_compute.
    + assert (Hd : ∀ i, (i < 3)%nat → disks' !! i = Some (disks' !!! i)).
      { intros i Hi. apply list_lookup_lookup_total_lt.
        assert (length disks' = 3) as ->; [|done]. injection Ht as <-. by vm_compute. }
      split; [injection Ht as <-; by vm_compute|].
      intros [|[|[|k]]] i slot Hσ Hs; simplify_eq/=; try done; apply Hd; lia.
    + vm_compute. lia.
    + exists boot', boot'', ordered. split_and!; [done|done|by apply (Hp 2 0)|by apply (Hp 1 1)].
Defined.

Lemma startup_waits_forever_witness :
  (3 / 2 + 1 ≤ missing [Some 0; None; @None nat] < 3)%nat ∧
  ∃ disks', retry_loop demo_uuid true (replicate 100 (RetryTimer id))
    (Some <$> [demo_formatted "a"; empty_disk; empty_disk]) = Ret (disks', None).
Proof.
  assert (Hm : (3 / 2 + 1 ≤ missing [Some 0; None; @None nat] < 3)%nat) by (vm_compute; lia).
  split; [done|]. apply (startup_waits_forever demo_uuid true demo_jbod _ [Some 0; None; None] 100); [|done|done].
  constructor; [|constructor; [apply empty_fresh|constructor; [apply empty_fresh|constructor]]].
  eexists _, _. split; [apply demo_formatted_ok; set_solver|by apply new_format_place].
Defined.
