(* ===== verification/XLMultipart.v ===== *)
(** * Multipart uploads

    src/cmd/xl-v1-multipart.go, xl-v1-multipart-common.go and
    object-api-multipart-common.go.  An upload has a directory
    bucket/object/uploadID in the volume of multipart uploads, with an xl.json
    that lists the parts uploaded so far; the file uploads.json beside it lists
    the uploads of the object.

    The disks of a slice [onlineDisks] are disks of [xl.storageDisks]: they are
    put back in their slots ([put_back]) where the code goes on with
    [xl.storageDisks].  The namespace locks are left out. *)

From stdpp Require Import pretty.
From S2P Require Import Prelude.
From S2P Require Import GoErrors.
From S2P Require Import GoStrings.
From S2P Require Import Quorum.
From S2P Require Import Distribution.
From S2P Require Import XLMeta.
From S2P Require Import Storage.
From S2P Require Import Erasure.
From S2P Require Import Healing.
From S2P Require Import ObjCache.
From S2P Require Import ObjectNames.
From S2P Require Import XLDisk.
From S2P Require Import XLCommon.
From S2P Require Import XLBucket.
From S2P Require Import XLObject.
From S2P Require Import XLPut.
From S2P Require Import TreeWalk.
From S2P Require Import WalkPool.
From S2P Require Import XLList.

Local Open Scope Z_scope.

Definition uploadsJSONFile : string := "uploads.json".
Definition maxPartsList : Z := 1000.
Definition minPartSize : Z := 5 * 1024 * 1024.

Definition isMinAllowedPartSize (size : Z) : bool := minPartSize <=? size.

(** ** uploads.json *)

Record uploadInfo := {
  UploadID : string;
  Deleted : bool;
  Initiated : time;
}.

Record uploadsV1 := {
  UpVersion : string;
  UpFormat : string;
  Uploads : list uploadInfo;
}.

Record uploadMetadata := {
  UmObject : string;
  UmUploadID : string;
  UmInitiated : time;
}.

Definition uploadsV1_zero : uploadsV1 := {| UpVersion := ""; UpFormat := ""; Uploads := [] |}.

(** [json.Marshal] and [json.Unmarshal] into a zero value. *)
Class UploadsJson := {
  uploads_Marshal : uploadsV1 → bytes + error;
  uploads_Unmarshal : bytes → uploadsV1 + error;
}.

(** [sort.Sort(byInitiatedTime)]: the order of equal times is not specified. *)
Class UploadsSort := {
  sort_uploads : list uploadInfo → list uploadInfo;
  sort_uploads_perm : ∀ l, sort_uploads l ≡ₚ l;
  sort_uploads_sorted : ∀ l, StronglySorted (λ a b, Initiated a ≤ Initiated b) (sort_uploads l);
}.

Definition newUploadsV1 (format : string) : uploadsV1 :=
  {| UpVersion := "1.0.0"; UpFormat := format; Uploads := [] |}.

Definition AddUploadID `{UploadsSort} (u : uploadsV1) (uploadID : string) (initiated : time) : uploadsV1 :=
  {| UpVersion := UpVersion u; UpFormat := UpFormat u;
     Uploads := sort_uploads (Uploads u ++ [{| UploadID := uploadID; Deleted := false; Initiated := initiated |}]) |}.

(** The first entry with the id is removed. *)
Fixpoint remove_upload (uploadID : string) (l : list uploadInfo) : list uploadInfo :=
  match l with
  | [] => []
  | uInfo :: l' => if bool_decide (UploadID uInfo = uploadID) then l' else uInfo :: remove_upload uploadID l'
  end.

Definition RemoveUploadID (u : uploadsV1) (uploadID : string) : uploadsV1 :=
  {| UpVersion := UpVersion u; UpFormat := UpFormat u; Uploads := remove_upload uploadID (Uploads u) |}.

(** The index after the marker, or the end. *)
Fixpoint upload_index (uploadIDMarker : string) (l : list uploadInfo) : nat :=
  match l with
  | [] => 0
  | uInfo :: l' => if bool_decide (UploadID uInfo = uploadIDMarker) then 1 else S (upload_index uploadIDMarker l')
  end.

(** The last loop of [listMultipartUploadIDs] stops when [count] reaches 0: a
    count that is not positive never does. *)
Fixpoint take_uploads (objectName : string) (count : Z) (l : list uploadInfo) : list uploadMetadata * bool :=
  match l with
  | [] => ([], true)
  | uInfo :: l' =>
      let u := {| UmObject := objectName; UmUploadID := UploadID uInfo; UmInitiated := Initiated uInfo |} in
      if count - 1 =? 0 then ([u], match l' with [] => true | _ => false end)
      else let '(us, end_) := take_uploads objectName (count - 1) l' in (u :: us, end_)
  end.

(** ** MD5 of an upload *)

Record completePart := {
  cp_PartNumber : Z;
  cp_ETag : string;
}.

(** [hex.DecodeString]. *)
Definition hex_value (b : byte) : option Z :=
  let v := byte_val b in
  if (48 <=? v) && (v <=? 57) then Some (v - 48)
  else if (97 <=? v) && (v <=? 102) then Some (v - 87)
  else if (65 <=? v) && (v <=? 70) then Some (v - 55)
  else None.

Fixpoint hex_DecodeString (b : bytes) : bytes + error :=
  match b with
  | [] => inl []
  | [_] => inr (ENew "encoding/hex: odd length hex string")
  | hi :: lo :: b' =>
      match hex_value hi, hex_value lo with
      | Some h, Some l =>
          match hex_DecodeString b' with
          | inl r => inl (ascii_of_N (Z.to_N (16 * h + l)) :: r)
          | inr e => inr e
          end
      | _, _ => inr (ENew "encoding/hex: invalid byte")
      end
  end.

Fixpoint part_md5s (parts : list completePart) : bytes + error :=
  match parts with
  | [] => inl []
  | part :: parts' =>
      match hex_DecodeString (bytes_of_string (cp_ETag part)) with
      | inr err => inr err
      | inl md5Bytes =>
          match part_md5s parts' with
          | inl r => inl (md5Bytes ++ r)
          | inr err => inr err
          end
      end
  end.

Definition getCompleteMultipartMD5 (md5_Sum : bytes → bytes) (parts : list completePart) : string * option error :=
  match part_md5s parts with
  | inr err => ("", traceError (Some err) [])
  | inl finalMD5Bytes => (hex_encode (md5_Sum finalMD5Bytes) +:+ "-" +:+ pretty (zlen parts), None)
  end.

(** [fmt.Sprintf("part.%d", partID)]. *)
Definition part_name (partID : Z) : string := "part." +:+ pretty partID.

Section Multipart.
Context `{GJson, MetaJson, UploadsJson, UploadsSort, MapOrder, Hashes, ReedSolomon}.
Context {D : Type} `{!StorageAPI D}.
Context (bitRotAlgo ReleaseTag : string).
Context (md5_Sum : bytes → bytes) (mimedb_DB : string → option string).

Definition readUploadsJSON (bucket object : string) (disk : D) : D * (uploadsV1 * option error) :=
  let uploadJSONPath := path_Join [bucket; object; uploadsJSONFile] in
  let '(disk, (buf, err)) := ReadAll disk minioMetaMultipartBucket uploadJSONPath in
  match err with
  | Some _ => (disk, (uploadsV1_zero, traceError err []))
  | None =>
      match uploads_Unmarshal buf with
      | inr e => (disk, (uploadsV1_zero, traceError (Some e) []))
      | inl uploadIDs => (disk, (uploadIDs, None))
      end
  end.

Definition writeUploadJSON (u : uploadsV1) (uploadsPath tmpPath : string) (disk : D) : D * option error :=
  match uploads_Marshal u with
  | inr wErr => (disk, traceError (Some wErr) [])
  | inl uplBytes =>
      let '(disk, wErr) := AppendFile disk minioMetaTmpBucket tmpPath uplBytes in
      match wErr with
      | Some _ => (disk, traceError wErr [])
      | None =>
          let '(disk, wErr) := RenameFile disk minioMetaTmpBucket tmpPath minioMetaMultipartBucket uploadsPath in
          match wErr with
          | Some _ =>
              let '(disk, dErr) := DeleteFile disk minioMetaTmpBucket tmpPath in
              match dErr with
              | Some _ => (disk, traceError dErr [])
              | None => (disk, traceError wErr [])
              end
          | None => (disk, None)
          end
      end
  end.

(** The goroutine of [updateUploadJSON]: the error, and whether the file is
    deleted. *)
Definition update_uploads (bucket object uploadID : string) (initiated : time) (isRemove : bool)
    (tmpUploadsPath : string) (disk : D) : D * (bool * option error) :=
  let uploadsPath := path_Join [bucket; object; uploadsJSONFile] in
  let '(disk, (uploadsJSON, err)) := readUploadsJSON bucket object disk in
  let '(uploadsJSON, err) :=
    if err_eqb (errorCause err) (Some (errFileNotFound : error)) then (newUploadsV1 "xl", None) else (uploadsJSON, err) in
  match err with
  | Some _ => (disk, (false, err))
  | None =>
      let uploadsJSON :=
        if isRemove then RemoveUploadID uploadsJSON uploadID else AddUploadID uploadsJSON uploadID initiated in
      let isDelete := isRemove && match Uploads uploadsJSON with [] => true | _ => false end in
      if negb isDelete
      then let '(disk, err) := writeUploadJSON uploadsJSON uploadsPath tmpUploadsPath disk in (disk, (false, err))
      else
        let '(disk, wErr) := RenameFile disk minioMetaMultipartBucket uploadsPath minioMetaTmpBucket tmpUploadsPath in
        (disk, (true, traceError wErr []))
  end.

Fixpoint update_all (bucket object uploadID : string) (initiated : time) (isRemove : bool)
    (tmpUploadsPath : string) (disks : list (option D)) : list (option D) * (list bool * list (option error)) :=
  match disks with
  | [] => ([], ([], []))
  | disk :: disks' =>
      let '(disk, (isDelete, err)) :=
        match disk with
        | None => (None, (false, traceError (Some (errDiskNotFound : error)) []))
        | Some d =>
            let '(d, r) := update_uploads bucket object uploadID initiated isRemove tmpUploadsPath d in (Some d, r)
        end in
      let '(disks', (isDeletes, errs)) :=
        update_all bucket object uploadID initiated isRemove tmpUploadsPath disks' in
      (disk :: disks', (isDelete :: isDeletes, err :: errs))
  end.

(** Without a quorum the disks that succeeded delete the file, or take it back. *)
Fixpoint undo_uploads (uploadsPath tmpUploadsPath : string) (disks : list (option D)) (isDelete : list bool)
    (errs : list (option error)) : list (option D) :=
  match disks, isDelete, errs with
  | Some disk :: disks', del :: isDelete', None :: errs' =>
      Some (if negb del then (DeleteFile disk minioMetaMultipartBucket uploadsPath).1
            else (RenameFile disk minioMetaTmpBucket tmpUploadsPath minioMetaMultipartBucket uploadsPath).1) ::
        undo_uploads uploadsPath tmpUploadsPath disks' isDelete' errs'
  | disk :: disks', _ :: isDelete', _ :: errs' =>
      disk :: undo_uploads uploadsPath tmpUploadsPath disks' isDelete' errs'
  | _, _, _ => disks
  end.

(** With a quorum the deleted files are purged. *)
Fixpoint purge_uploads (tmpUploadsPath : string) (disks : list (option D)) (isDelete : list bool) : list (option D) :=
  match disks, isDelete with
  | Some disk :: disks', true :: isDelete' =>
      Some (DeleteFile disk minioMetaTmpBucket tmpUploadsPath).1 :: purge_uploads tmpUploadsPath disks' isDelete'
  | disk :: disks', _ :: isDelete' => disk :: purge_uploads tmpUploadsPath disks' isDelete'
  | _, _ => disks
  end.

(** [tmpUploadsPath] is the uuid. *)
Definition updateUploadJSON (tmpUploadsPath : string) (disks : list (option D)) (writeQuorum : nat)
    (bucket object uploadID : string) (initiated : time) (isRemove : bool) : list (option D) * option error :=
  let uploadsPath := path_Join [bucket; object; uploadsJSONFile] in
  let '(disks, (isDelete, errs)) := update_all bucket object uploadID initiated isRemove tmpUploadsPath disks in
  if negb (isDiskQuorum errs writeQuorum)
  then (undo_uploads uploadsPath tmpUploadsPath disks isDelete errs, traceError (Some (errXLWriteQuorum : error)) [])
  else
    let disks := purge_uploads tmpUploadsPath disks isDelete in
    (disks, reduceWriteQuorumErrs errs objectOpIgnoredErrs writeQuorum).

Definition addUploadID (tmpUploadsPath : string) (disks : list (option D)) (writeQuorum : nat)
    (bucket object uploadID : string) (initiated : time) :=
  updateUploadJSON tmpUploadsPath disks writeQuorum bucket object uploadID initiated false.

Definition removeUploadID (tmpUploadsPath : string) (disks : list (option D)) (writeQuorum : nat)
    (bucket object uploadID : string) :=
  updateUploadJSON tmpUploadsPath disks writeQuorum bucket object uploadID zeroTime true.

(** The loop of [isMultipartUpload]. *)
Fixpoint stat_uploads (disks : list (option D)) (bucket path : string) : list (option D) * bool :=
  match disks with
  | [] => ([], false)
  | None :: disks' => let '(disks', ok) := stat_uploads disks' bucket path in (None :: disks', ok)
  | Some disk :: disks' =>
      let '(disk, (_, err)) := StatFile disk bucket path in
      match err with
      | None => (Some disk :: disks', true)
      | Some _ =>
          if isErrIgnored err objMetadataOpIgnoredErrs
          then let '(disks', ok) := stat_uploads disks' bucket path in (Some disk :: disks', ok)
          else (Some disk :: disks', false)
      end
  end.

Definition isMultipartUpload (now : string) (disks : list (option D)) (bucket prefix : string)
    : go (list (option D) * bool) :=
  balanced now disks (λ lb, stat_uploads lb bucket (pathJoin [prefix; uploadsJSONFile])).

Definition isUploadIDExists (now : string) (disks : list (option D)) (bucket object uploadID : string)
    : go (list (option D) * bool) :=
  isObject now disks minioMetaMultipartBucket (path_Join [bucket; object; uploadID]).

Definition removeObjectPart (disks : list (option D)) (bucket object uploadID partName : string)
    : list (option D) :=
  let curpartPath := path_Join [bucket; object; uploadID; partName] in
  (λ o, match o with
        | Some disk => Some (DeleteFile disk minioMetaMultipartBucket curpartPath).1
        | None => None
        end) <$> disks.

Definition FileInfo_zero : FileInfo :=
  {| FileVolume := ""; FileName := ""; FileModTime := zeroTime; FileSize := 0; FileMode := 0 |}.

Definition statPart (now : string) (disks : list (option D)) (bucket object uploadID partName : string)
    : go (list (option D) * (FileInfo * option error)) :=
  let partNamePath := path_Join [bucket; object; uploadID; partName] in
  balanced now disks (λ lb,
    first_answer objMetadataOpIgnoredErrs
      (λ disk, let '(disk, (fileInfo, err)) := StatFile disk minioMetaMultipartBucket partNamePath in
               (disk, (fileInfo, traceError err []))) FileInfo_zero lb None).

(** The goroutines of [commitXLMetadata]. *)
Fixpoint commit_metas (disks : list (option D)) (srcBucket srcPrefix dstBucket dstPrefix : string)
    : list (option D) * list (option error) :=
  match disks with
  | [] => ([], [])
  | disk :: disks' =>
      let '(disk, err) :=
        match disk with
        | None => (None, traceError (Some (errDiskNotFound : error)) [])
        | Some d =>
            let '(d, rErr) := RenameFile d srcBucket (path_Join [srcPrefix; xlMetaJSONFile])
                                dstBucket (path_Join [dstPrefix; xlMetaJSONFile]) in
            let d := (DeleteFile d srcBucket srcPrefix).1 in
            (Some d, traceError rErr [])
        end in
      let '(disks', mErrs) := commit_metas disks' srcBucket srcPrefix dstBucket dstPrefix in
      (disk :: disks', err :: mErrs)
  end.

Definition commitXLMetadata (disks : list (option D)) (srcBucket srcPrefix dstBucket dstPrefix : string)
    (quorum : nat) : list (option D) * option error :=
  let '(disks, mErrs) := commit_metas disks srcBucket srcPrefix dstBucket dstPrefix in
  write_quorum_result disks dstBucket dstPrefix mErrs quorum.

(** The first error of [cleanupUploadedParts] is returned. *)
Fixpoint cleanup_all (fuel : nat) (uploadIDPath : string) (disks : list (option D))
    : go (list (option D) * list (option error)) :=
  match disks with
  | [] => Ret ([], [])
  | None :: disks' =>
      '(disks', errs) ← cleanup_all fuel uploadIDPath disks';
      mret (None :: disks', traceError (Some (errDiskNotFound : error)) [] :: errs)
  | Some disk :: disks' =>
      '(disk, err) ← cleanupDir fuel disk minioMetaMultipartBucket uploadIDPath;
      '(disks', errs) ← cleanup_all fuel uploadIDPath disks';
      mret (Some disk :: disks', err :: errs)
  end.

Definition cleanupUploadedParts (fuel : nat) (bucket object uploadID : string) (disks : list (option D))
    : go (list (option D) * option error) :=
  '(disks, errs) ← cleanup_all fuel (path_Join [bucket; object; uploadID]) disks;
  mret (disks, from_option id None (head (filter (λ e, is_Some e) errs))).

(** ** Slices of disks *)

(** The ordered disks [online] go back to their slots; the others are where
    they were. *)
Definition put_back (dist : list Z) (online disks : list (option D)) : go (list (option D)) :=
  o ← gather dist online; mret (merge_disks o disks).

(** The disks of the slots of [online], in order. *)
Definition take_online (dist : list Z) (online disks : list (option D)) : go (list (option D)) :=
  getOrderedDisks dist (zip_with (λ o d, match o with Some _ => d | None => None end) online disks).

(** ** NewMultipartUpload *)

(** What [NewMultipartUpload] takes from the clock and from [mustGetUUID]. *)
Record new_env := {
  ne_bucket : string;
  ne_modTime : time;
  ne_uploadID : string;
  ne_initiated : time;
  ne_tmpUploads : string;
}.

(** The content type defaults to that of the extension of the name. *)
Definition upload_metadata (meta : gmap string string) (object : string) : gmap string string :=
  if bool_decide (default "" (meta !! "content-type") = "") then
    let objectExt := path_Ext object in
    <["content-type" :=
        if bool_decide (objectExt = "") then "application/octet-stream"
        else default "application/octet-stream" (mimedb_DB (ToLower (TrimPrefix objectExt ".")))]> meta
  else meta.

(** The result is the disks, the upload id and the error. *)
Definition newMultipartUpload (fuel : nat) (env : new_env) (xl : xlObjects D) (disks : list (option D))
    (bucket object : string) (meta : gmap string string) : go (list (option D) * (string * option error)) :=
  xlMeta ← newXLMetaV1 ReleaseTag object (dataBlocks xl) (parityBlocks xl);
  let meta := upload_metadata meta object in
  let xlMeta := set_meta (set_stat xlMeta (StatInfo (StatSize (Stat xlMeta)) (ne_modTime env))) meta in
  let uploadID := ne_uploadID env in
  let uploadIDPath := path_Join [bucket; object; uploadID] in
  let tempUploadIDPath := uploadID in
  let '(disks, err) :=
    writeSameXLMetadata disks minioMetaTmpBucket tempUploadIDPath xlMeta (writeQuorum xl) (readQuorum xl) in
  match err with
  | Some _ => mret (disks, ("", toObjectErr err [minioMetaTmpBucket; tempUploadIDPath]))
  | None =>
      let '(disks, rErr) :=
        renameObject disks minioMetaTmpBucket tempUploadIDPath minioMetaMultipartBucket uploadIDPath (writeQuorum xl) in
      match rErr with
      | Some _ =>
          disks ← run_deferred fuel (writeQuorum xl) disks [tempUploadIDPath];
          mret (disks, ("", toObjectErr rErr [minioMetaMultipartBucket; uploadIDPath]))
      | None =>
          let '(disks, err) :=
            addUploadID (ne_tmpUploads env) disks (writeQuorum xl) bucket object uploadID (ne_initiated env) in
          disks ← run_deferred fuel (writeQuorum xl) disks [tempUploadIDPath];
          mret (disks, (match err with Some _ => "" | None => uploadID end, err))
      end
  end.

Definition NewMultipartUpload (fuel : nat) (env : new_env) (xl : xlObjects D) (bucket object : string)
    (meta : option (gmap string string)) : go (xlObjects D * (string * option error)) :=
  '(disks, (_, bErr)) ← GetBucketInfo (ne_bucket env) (storageDisks xl) bucket;
  match checkNewMultipartArgs (λ _, bErr) bucket object with
  | Some err => mret (set_disks xl disks, ("", Some err))
  | None =>
      '(disks, r) ← newMultipartUpload fuel env xl disks bucket object (default ∅ meta);
      mret (set_disks xl disks, r)
  end.

(** ** PutObjectPart *)

(** What [PutObjectPart] takes from the clock and from [mustGetUUID]. *)
Record part_env := {
  pe_bucket : string;
  pe_exists : string;
  pe_again : string;
  pe_online : time;
  pe_online2 : time;
  pe_modTime : time;
  pe_tmpPart : string;
  pe_tempXLMeta : string;
}.

(** The return of [PutObjectPart]: the temporary part is deleted. *)
Definition part_done (fuel : nat) (env : part_env) (xl : xlObjects D) (disks : list (option D)) (md5 : string)
    (err : option error) : go (xlObjects D * (string * option error)) :=
  disks ← run_deferred fuel (writeQuorum xl) disks [pe_tmpPart env];
  mret (set_disks xl disks, (md5, err)).

(** The metadata of the disks that are online gets the parts and a checksum. *)
Fixpoint part_metas {A} (onlineDisks : list (option A)) (partsMetadata : list xlMetaV1) (checkSums : list string)
    (parts : list objectPartInfo) (partSuffix : string) : go (list xlMetaV1) :=
  match onlineDisks, partsMetadata with
  | [], _ => Ret partsMetadata
  | _, [] => Panic
  | disk :: disks', m :: metas' =>
      let next := part_metas disks' metas' (tail checkSums) parts partSuffix in
      match disk with
      | None => ms ← next; mret (m :: ms)
      | Some _ =>
          match checkSums with
          | [] => Panic
          | sum :: _ =>
              ms ← next;
              mret (set_erasure (set_parts m parts)
                      (AddCheckSumInfo (Erasure m) (CheckSumInfo partSuffix bitRotAlgo sum)) :: ms)
          end
      end
  end.

(** The end of [PutObjectPart], once the part is at its place: the metadata is
    read again and written with the part.  The new modification time of [xlMeta]
    is not written: only its parts go to the disks. *)
Definition part_commit (fuel : nat) (env : part_env) (xl : xlObjects D) (disks : list (option D)) (dist : list Z)
    (onlineDisks : list (option D)) (bucket object uploadIDPath partSuffix newMD5Hex : string) (partID size : Z)
    (checkSums : list string) : go (xlObjects D * (string * option error)) :=
  let '(onlineDisks, (partsMetadata, errs)) := readAllXLMetadata onlineDisks minioMetaMultipartBucket uploadIDPath in
  if negb (isDiskQuorum errs (writeQuorum xl)) then
    disks ← put_back dist onlineDisks disks;
    part_done fuel env xl disks "" (toObjectErr (traceError (Some (errXLWriteQuorum : error)) []) [bucket; object])
  else
    '(online2, modTime) ← listOnlineDisks (pe_online2 env) onlineDisks partsMetadata errs;
    let '(xlMeta, err) := pickValidXLMeta partsMetadata modTime in
    match err with
    | Some _ =>
        disks ← put_back dist onlineDisks disks;
        part_done fuel env xl disks "" err
    | None =>
        let xlMeta := set_stat xlMeta (StatInfo (StatSize (Stat xlMeta)) (pe_modTime env)) in
        let xlMeta := AddObjectPart xlMeta partID partSuffix newMD5Hex size in
        partsMetadata ← part_metas online2 partsMetadata checkSums (Parts xlMeta) partSuffix;
        '(online2, _, err) ←
          writeUniqueXLMetadata online2 minioMetaTmpBucket (pe_tempXLMeta env) partsMetadata (writeQuorum xl);
        match err with
        | Some _ =>
            disks ← put_back dist (merge_disks online2 onlineDisks) disks;
            part_done fuel env xl disks "" (toObjectErr err [minioMetaTmpBucket; pe_tempXLMeta env])
        | None =>
            let '(online2, rErr) :=
              commitXLMetadata online2 minioMetaTmpBucket (pe_tempXLMeta env) minioMetaMultipartBucket uploadIDPath
                (writeQuorum xl) in
            disks ← put_back dist (merge_disks online2 onlineDisks) disks;
            match rErr with
            | Some _ => part_done fuel env xl disks "" (toObjectErr rErr [minioMetaMultipartBucket; uploadIDPath])
            | None => part_done fuel env xl disks newMD5Hex None
            end
        end
    end.

(** [PutObjectPart] once the data is staged: the checks and the rename of the
    part.  [online] are the slots of the disks in use, [read] is what was read
    from the client. *)
Definition part_verify (fuel : nat) (env : part_env) (xl : xlObjects D) (disks online : list (option D))
    (bucket object uploadID : string) (partID size : Z) (read : bytes) (md5Hex sha256sum : string) (dist : list Z)
    (sizeWritten : Z) (checkSums : list string) : go (xlObjects D * (string * option error)) :=
  let uploadIDPath := pathJoin [bucket; object; uploadID] in
  let partSuffix := part_name partID in
  let tmpPartPath := path_Join [pe_tmpPart env; partSuffix] in
  if sizeWritten <? size
  then part_done fuel env xl disks "" (traceError (Some (IncompleteBody "" "" : error)) [])
  else
  let size := if size =? -1 then sizeWritten else size in
  let newMD5Hex := hex_encode (md5_Sum read) in
  if negb (bool_decide (md5Hex = "")) && negb (bool_decide (newMD5Hex = md5Hex))
  then part_done fuel env xl disks "" (traceError (Some (BadDigest md5Hex newMD5Hex : error)) [])
  else if negb (bool_decide (sha256sum = "")) && negb (bool_decide (hex_encode (sha256_Sum read) = sha256sum))
  then part_done fuel env xl disks "" (traceError (Some (SHA256Mismatch : error)) [])
  else
  '(disks, ok) ← isUploadIDExists (pe_again env) disks bucket object uploadID;
  if negb (ok : bool)
  then part_done fuel env xl disks "" (traceError (Some (InvalidUploadID uploadID : error)) [])
  else
  let partPath := path_Join [uploadIDPath; partSuffix] in
  onlineDisks ← take_online dist online disks;
  let '(onlineDisks, err) :=
    renamePart onlineDisks minioMetaTmpBucket tmpPartPath minioMetaMultipartBucket partPath (writeQuorum xl) in
  match err with
  | Some _ =>
      disks ← put_back dist onlineDisks disks;
      part_done fuel env xl disks "" (toObjectErr err [minioMetaMultipartBucket; partPath])
  | None =>
      part_commit fuel env xl disks dist onlineDisks bucket object uploadIDPath partSuffix newMD5Hex partID size checkSums
  end.

Definition PutObjectPart (fuel : nat) (env : part_env) (xl : xlObjects D) (bucket object uploadID : string)
    (partID size : Z) (data : reader) (md5Hex sha256sum : string) : go (xlObjects D * (string * option error)) :=
  '(disks, (_, bErr)) ← GetBucketInfo (pe_bucket env) (storageDisks xl) bucket;
  match checkPutObjectPartArgs (λ _, bErr) bucket object with
  | Some err => mret (set_disks xl disks, ("", Some err))
  | None =>
      let uploadIDPath := pathJoin [bucket; object; uploadID] in
      '(disks, ok) ← isUploadIDExists (pe_exists env) disks bucket object uploadID;
      if negb (ok : bool)
      then mret (set_disks xl disks, ("", traceError (Some (InvalidUploadID uploadID : error)) []))
      else
      let '(disks, (partsMetadata, errs)) := readAllXLMetadata disks minioMetaMultipartBucket uploadIDPath in
      if negb (isDiskQuorum errs (writeQuorum xl))
      then mret (set_disks xl disks,
             ("", toObjectErr (traceError (Some (errXLWriteQuorum : error)) []) [bucket; object]))
      else
      '(online, modTime) ← listOnlineDisks (pe_online env) disks partsMetadata errs;
      let '(xlMeta, err) := pickValidXLMeta partsMetadata modTime in
      match err with
      | Some _ => mret (set_disks xl disks, ("", err))
      | None =>
          let e := Erasure xlMeta in
          let dist := Distribution e in
          onlineDisks ← getOrderedDisks dist online;
          _ ← getOrderedPartsMetadata xlMetaV1_zero dist partsMetadata;
          let tmpPartPath := path_Join [pe_tmpPart env; part_name partID] in
          let teeReader := if 0 <? size then io_LimitReader data size else data in
          onlineDisks ← (if 0 <? size then prepare_all onlineDisks tmpPartPath size e else mret onlineDisks);
          '(onlineDisks, (sizeWritten, checkSums, err)) ←
            erasureCreateFile fuel onlineDisks minioMetaTmpBucket tmpPartPath teeReader
              (Z.to_nat (BlockSize e)) (dataBlocks xl) (parityBlocks xl) bitRotAlgo (writeQuorum xl);
          disks ← put_back dist onlineDisks disks;
          match err with
          | Some _ => part_done fuel env xl disks "" (toObjectErr err [bucket; object])
          | None =>
              part_verify fuel env xl disks online bucket object uploadID partID size (rd_data teeReader) md5Hex
                sha256sum dist sizeWritten checkSums
          end
      end
  end.

(** ** ListObjectParts *)

Record partInfo := {
  pi_PartNumber : Z;
  pi_LastModified : time;
  pi_ETag : string;
  pi_Size : Z;
}.

Record ListPartsInfo := {
  lp_Bucket : string;
  lp_Object : string;
  lp_UploadID : string;
  lp_NextPartNumberMarker : Z;
  lp_MaxParts : Z;
  lp_IsTruncated : bool;
  lp_Parts : list partInfo;
}.

Definition ListPartsInfo_zero : ListPartsInfo :=
  {| lp_Bucket := ""; lp_Object := ""; lp_UploadID := ""; lp_NextPartNumberMarker := 0; lp_MaxParts := 0;
     lp_IsTruncated := false; lp_Parts := [] |}.

(** The loop over the parts; [now i] is the time of the [i]-th call of
    [statPart]. *)
Fixpoint list_parts (now : nat → string) (disks : list (option D)) (bucket object uploadID : string) (count : Z)
    (parts : list objectPartInfo) : go (list (option D) * (list partInfo + error)) :=
  match parts with
  | [] => Ret (disks, inl [])
  | part :: parts' =>
      '(disks, (fi, err)) ← statPart (now 0%nat) disks bucket object uploadID (PartName part);
      match err with
      | Some _ =>
          mret (disks, inr (default (errUnexpected : error)
            (toObjectErr err [minioMetaBucket; path_Join [uploadID; PartName part]])))
      | None =>
          let p := {| pi_PartNumber := Number part; pi_LastModified := FileModTime fi;
                      pi_ETag := ETag part; pi_Size := PartSize part |} in
          if count - 1 =? 0 then mret (disks, inl [p])
          else
            '(disks, r) ← list_parts (λ i, now (S i)) disks bucket object uploadID (count - 1) parts';
            mret (disks, match r with inl ps => inl (p :: ps) | inr e => inr e end)
      end
  end.

Definition listObjectParts (now : string) (now_stat : nat → string) (disks : list (option D))
    (bucket object uploadID : string) (partNumberMarker maxParts : Z)
    : go (list (option D) * (ListPartsInfo * option error)) :=
  let uploadIDPath := path_Join [bucket; object; uploadID] in
  '(disks, (xlParts, err)) ← balanced now disks (λ lb, xl_readXLMetaParts lb minioMetaMultipartBucket uploadIDPath);
  match err with
  | Some _ => mret (disks, (ListPartsInfo_zero, toObjectErr err [minioMetaMultipartBucket; uploadIDPath]))
  | None =>
      let result next truncated parts :=
        {| lp_Bucket := bucket; lp_Object := object; lp_UploadID := uploadID; lp_NextPartNumberMarker := next;
           lp_MaxParts := maxParts; lp_IsTruncated := truncated; lp_Parts := parts |} in
      if (zlen xlParts =? 0) || (maxParts =? 0) then mret (disks, (result 0 false [], None))
      else
        let maxParts := if maxPartsList <? maxParts then maxPartsList else maxParts in
        let partIdx := objectPartIndex xlParts partNumberMarker in
        let parts := if partIdx =? -1 then xlParts else drop (Z.to_nat (partIdx + 1)) xlParts in
        '(disks, r) ← list_parts now_stat disks bucket object uploadID maxParts parts;
        match r with
        | inr e => mret (disks, (ListPartsInfo_zero, Some e))
        | inl listed =>
            if (length listed <? length parts)%nat then
              match last listed with
              | None => Panic
              | Some p => mret (disks, (result (pi_PartNumber p) true listed, None))
              end
            else mret (disks, (result 0 false listed, None))
        end
  end.

Definition ListObjectParts (now_bucket now_exists now : string) (now_stat : nat → string) (xl : xlObjects D)
    (bucket object uploadID : string) (partNumberMarker maxParts : Z)
    : go (xlObjects D * (ListPartsInfo * option error)) :=
  '(disks, (_, bErr)) ← GetBucketInfo now_bucket (storageDisks xl) bucket;
  match checkListPartsArgs (λ _, bErr) bucket object with
  | Some err => mret (set_disks xl disks, (ListPartsInfo_zero, Some err))
  | None =>
      '(disks, ok) ← isUploadIDExists now_exists disks bucket object uploadID;
      if negb (ok : bool)
      then mret (set_disks xl disks, (ListPartsInfo_zero, traceError (Some (InvalidUploadID uploadID : error)) []))
      else
        '(disks, r) ← listObjectParts now now_stat disks bucket object uploadID partNumberMarker maxParts;
        mret (set_disks xl disks, r)
  end.

(** ** CompleteMultipartUpload *)

(** What [CompleteMultipartUpload] takes from the clock and from
    [mustGetUUID]. *)
Record complete_env := {
  ce_bucket : string;
  ce_exists : string;
  ce_online : time;
  ce_parent : nat → string;
  ce_modTime : time;
  ce_object : string;
  ce_uniqueID : string;
  ce_tmpUploads : string;
}.

(** The validation loop: the parts of the object and its size, or an error. *)
Fixpoint complete_parts (current : list objectPartInfo) (parts : list completePart) (objectSize : Z)
    : (list objectPartInfo * Z) + error :=
  match parts with
  | [] => inl ([], objectSize)
  | part :: parts' =>
      let isLast := match parts' with [] => true | _ => false end in
      let partIdx := objectPartIndex current (cp_PartNumber part) in
      if partIdx =? -1 then inr (InvalidPart : error)
      else
      match current !! Z.to_nat partIdx with
      | None => inr (errUnexpected : error)
      | Some cur =>
          if negb (bool_decide (ETag cur = cp_ETag part)) then inr (BadDigest "" "" : error)
          else if negb isLast && negb (isMinAllowedPartSize (PartSize cur))
          then inr (PartTooSmall (PartSize cur) (cp_PartNumber part) (cp_ETag part) : error)
          else if isLast && (PartSize cur =? 0) then inl ([], objectSize)
          else
            match complete_parts current parts' (int64_wrap (objectSize + PartSize cur)) with
            | inr e => inr e
            | inl (ps, size) =>
                inl (ObjectPartInfo (cp_PartNumber part) (part_name (cp_PartNumber part)) (cp_ETag part) (PartSize cur) :: ps,
                     size)
            end
      end
  end.

(** The parts that the request does not name are removed. *)
Fixpoint remove_parts (disks : list (option D)) (bucket object uploadID : string)
    (kept current : list objectPartInfo) : list (option D) :=
  match current with
  | [] => disks
  | curpart :: current' =>
      let disks :=
        if objectPartIndex kept (Number curpart) =? -1
        then removeObjectPart disks bucket object uploadID (PartName curpart) else disks in
      remove_parts disks bucket object uploadID kept current'
  end.

Definition complete_metas (xlMeta : xlMetaV1) (partsMetadata : list xlMetaV1) : list xlMetaV1 :=
  (λ m, set_parts (set_meta (set_stat m (Stat xlMeta)) (Meta xlMeta)) (Parts xlMeta)) <$> partsMetadata.

(** The deferred function drops the cache entry; it also starts a read of the
    object that fills the cache, which is a [GetObject] of its own. *)
Definition complete_done (xl : xlObjects D) (disks : list (option D)) (bucket object : string)
    (r : ObjectInfo * option error) : xlObjects D * (ObjectInfo * option error) :=
  let xl := set_disks xl disks in
  (if objCacheEnabled xl then set_cache xl (Delete (objCache xl) (path_Join [bucket; object])) else xl, r).

(** The end of [CompleteMultipartUpload]: the object takes the place of an old
    version.  [online] are the slots of the disks in use. *)
Definition complete_commit (fuel : nat) (env : complete_env) (xl : xlObjects D) (disks online : list (option D))
    (dist : list Z) (bucket object uploadID : string) (xlMeta : xlMetaV1) (current : list objectPartInfo)
    : go (xlObjects D * (ObjectInfo * option error)) :=
  let uploadIDPath := path_Join [bucket; object; uploadID] in
  '(disks, exists_) ← isObject (ce_object env) disks bucket object;
  let '(disks, err) :=
    if (exists_ : bool)
    then renameObject disks bucket object minioMetaTmpBucket (ce_uniqueID env) (writeQuorum xl)
    else (disks, None) in
  match err with
  | Some _ => mret (complete_done xl disks bucket object (ObjectInfo_zero, toObjectErr err [bucket; object]))
  | None =>
      let disks := remove_parts disks bucket object uploadID (Parts xlMeta) current in
      onlineDisks ← take_online dist online disks;
      let '(onlineDisks, err) :=
        renameObject onlineDisks minioMetaMultipartBucket uploadIDPath bucket object (writeQuorum xl) in
      disks ← put_back dist onlineDisks disks;
      match err with
      | Some _ => mret (complete_done xl disks bucket object (ObjectInfo_zero, toObjectErr err [bucket; object]))
      | None =>
          '(disks, _) ← deleteObject fuel (writeQuorum xl) disks minioMetaTmpBucket (ce_uniqueID env);
          let '(disks, err) := removeUploadID (ce_tmpUploads env) disks (writeQuorum xl) bucket object uploadID in
          match err with
          | Some _ =>
              mret (complete_done xl disks bucket object
                (ObjectInfo_zero, toObjectErr err [minioMetaMultipartBucket; path_Join [bucket; object]]))
          | None => mret (complete_done xl disks bucket object (put_info bucket object xlMeta, None))
          end
      end
  end.

Definition CompleteMultipartUpload (fuel : nat) (env : complete_env) (xl : xlObjects D)
    (bucket object uploadID : string) (parts : list completePart) : go (xlObjects D * (ObjectInfo * option error)) :=
  '(disks, (_, bErr)) ← GetBucketInfo (ce_bucket env) (storageDisks xl) bucket;
  match checkCompleteMultipartArgs (λ _, bErr) bucket object with
  | Some err => mret (set_disks xl disks, (ObjectInfo_zero, Some err))
  | None =>
      let fail disks err := mret (set_disks xl disks, (ObjectInfo_zero, err)) in
      '(disks, ok) ← isUploadIDExists (ce_exists env) disks bucket object uploadID;
      if negb (ok : bool) then fail disks (traceError (Some (InvalidUploadID uploadID : error)) [])
      else
      match getCompleteMultipartMD5 md5_Sum parts with
      | (_, (Some _) as err) => fail disks err
      | (s3MD5, None) =>
          let uploadIDPath := pathJoin [bucket; object; uploadID] in
          let '(disks, (partsMetadata, errs)) := readAllXLMetadata disks minioMetaMultipartBucket uploadIDPath in
          if negb (isDiskQuorum errs (writeQuorum xl))
          then fail disks (toObjectErr (traceError (Some (errXLWriteQuorum : error)) []) [bucket; object])
          else
          '(online, modTime) ← listOnlineDisks (ce_online env) disks partsMetadata errs;
          let '(xlMeta, err) := pickValidXLMeta partsMetadata modTime in
          match err with
          | Some _ => fail disks err
          | None =>
              let dist := Distribution (Erasure xlMeta) in
              onlineDisks ← getOrderedDisks dist online;
              partsMetadata ← getOrderedPartsMetadata xlMetaV1_zero dist partsMetadata;
              let current := Parts xlMeta in
              match complete_parts current parts 0 with
              | inr err => fail disks (traceError (Some err) [])
              | inl (newParts, objectSize) =>
                  '(disks, isParent) ← parentDirIsObject fuel (ce_parent env) disks bucket (path_Dir object);
                  if (isParent : bool)
                  then fail disks (toObjectErr (traceError (Some (errFileAccessDenied : error)) []) [bucket; object])
                  else
                  let xlMeta :=
                    set_parts (set_meta (set_stat xlMeta (StatInfo objectSize (ce_modTime env)))
                                 (<["md5Sum" := s3MD5]> (Meta xlMeta))) newParts in
                  let uploadIDPath := path_Join [bucket; object; uploadID] in
                  let tempUploadIDPath := uploadID in
                  onlineDisks ← take_online dist online disks;
                  '(onlineDisks, _, err) ←
                    writeUniqueXLMetadata onlineDisks minioMetaTmpBucket tempUploadIDPath
                      (complete_metas xlMeta partsMetadata) (writeQuorum xl);
                  match err with
                  | Some _ =>
                      disks ← put_back dist onlineDisks disks;
                      fail disks (toObjectErr err [minioMetaTmpBucket; tempUploadIDPath])
                  | None =>
                      let '(onlineDisks, rErr) :=
                        commitXLMetadata onlineDisks minioMetaTmpBucket tempUploadIDPath minioMetaMultipartBucket
                          uploadIDPath (writeQuorum xl) in
                      disks ← put_back dist onlineDisks disks;
                      match rErr with
                      | Some _ => fail disks (toObjectErr rErr [minioMetaMultipartBucket; uploadIDPath])
                      | None => complete_commit fuel env xl disks online dist bucket object uploadID xlMeta current
                      end
                  end
              end
          end
      end
  end.

(** ** AbortMultipartUpload *)

Definition abortMultipartUpload (fuel : nat) (tmpUploads : string) (xl : xlObjects D) (disks : list (option D))
    (bucket object uploadID : string) : go (list (option D) * option error) :=
  '(disks, err) ← cleanupUploadedParts fuel bucket object uploadID disks;
  match err with
  | Some _ => mret (disks, toObjectErr err [bucket; object])
  | None =>
      let '(disks, err) := removeUploadID tmpUploads disks (writeQuorum xl) bucket object uploadID in
      mret (disks, match err with Some _ => toObjectErr err [bucket; object] | None => None end)
  end.

Definition AbortMultipartUpload (fuel : nat) (now_bucket now_exists tmpUploads : string) (xl : xlObjects D)
    (bucket object uploadID : string) : go (xlObjects D * option error) :=
  '(disks, (_, bErr)) ← GetBucketInfo now_bucket (storageDisks xl) bucket;
  match checkAbortMultipartArgs (λ _, bErr) bucket object with
  | Some err => mret (set_disks xl disks, Some err)
  | None =>
      '(disks, ok) ← isUploadIDExists now_exists disks bucket object uploadID;
      if negb (ok : bool)
      then mret (set_disks xl disks, traceError (Some (InvalidUploadID uploadID : error)) [])
      else
        '(disks, err) ← abortMultipartUpload fuel tmpUploads xl disks bucket object uploadID;
        mret (set_disks xl disks, err)
  end.

(** ** ListMultipartUploads *)

Record ListMultipartsInfo := {
  lm_KeyMarker : string;
  lm_UploadIDMarker : string;
  lm_NextKeyMarker : string;
  lm_NextUploadIDMarker : string;
  lm_MaxUploads : Z;
  lm_IsTruncated : bool;
  lm_Uploads : list uploadMetadata;
  lm_Prefix : string;
  lm_Delimiter : string;
  lm_CommonPrefixes : list string;
}.

Definition ListMultipartsInfo_zero : ListMultipartsInfo :=
  {| lm_KeyMarker := ""; lm_UploadIDMarker := ""; lm_NextKeyMarker := ""; lm_NextUploadIDMarker := "";
     lm_MaxUploads := 0; lm_IsTruncated := false; lm_Uploads := []; lm_Prefix := ""; lm_Delimiter := "";
     lm_CommonPrefixes := [] |}.

Definition listMultipartUploadIDs (bucketName objectName uploadIDMarker : string) (count : Z) (disk : D)
    : D * (list uploadMetadata * bool * option error) :=
  let '(disk, (uploadsJSON, err)) := readUploadsJSON bucketName objectName disk in
  match err with
  | Some _ => (disk, ([], false, err))
  | None =>
      let index := if bool_decide (uploadIDMarker = "") then 0%nat else upload_index uploadIDMarker (Uploads uploadsJSON) in
      (disk, (take_uploads objectName count (drop index (Uploads uploadsJSON)), None))
  end.

(** The clock of a listing: of the bucket check, of the choice of the disks for
    the marker and for the walk, of the leaf checks, and of the choice of the
    disks for an entry. *)
Record uploads_env := {
  ue_check : string;
  ue_marker : string;
  ue_walk : string;
  ue_leaf : string → string;
  ue_entry : string → string;
}.

(** The loop over the disks; [err] is the variable of [listMultipartUploads]. *)
Definition ids_of_object (now : string) (disks : list (option D)) (bucket object uploadIDMarker : string)
    (maxUploads : Z) (err : option error) : go (list (option D) * (list uploadMetadata * bool * option error)) :=
  balanced now disks (λ lb,
    first_answer objMetadataOpIgnoredErrs (listMultipartUploadIDs bucket object uploadIDMarker maxUploads)
      ([], false) lb err).

Definition start_upload_walk (fuel : nat) (env : uploads_env) (disks : list (option D))
    (prefix marker : string) (recursive : bool) : go (list (option D) * list treeWalkResult) :=
  order ← hashOrder (ue_walk env) (zlen disks);
  let order := (λ i, Z.to_nat (i - 1)) <$> order in
  let isLeaf ds bucket p := isMultipartUpload (ue_leaf env p) ds bucket p in
  startTreeWalk
    (λ ds dir pm, listDirFactory isLeaf xlTreeWalkIgnoredErrs order minioMetaMultipartBucket ds dir pm)
    (λ ds p, isLeaf ds minioMetaMultipartBucket p) (λ _, false) fuel prefix marker recursive disks.

Definition get_upload_walk (fuel : nat) (env : uploads_env) (li : lister D)
    (prefix marker : string) (recursive : bool) : go (lister D * (nat * nat)) :=
  '(p, r) ← Release (li_pool li) (ListParams minioMetaMultipartBucket recursive marker prefix false);
  match r with
  | Some (S _ as resultCh, endWalkCh) =>
      mret (Lister (li_disks li) p (li_chans li) (li_next li), (resultCh, endWalkCh))
  | _ =>
      '(disks, rs) ← start_upload_walk fuel env (li_disks li) prefix marker recursive;
      mret (Lister disks p (<[li_next li := rs]> (li_chans li)) (S (li_next li)), (li_next li, li_next li))
  end.

(** The loop over the results of the walk.  It ends with the uploads and [eof],
    or with the error to return. *)
Fixpoint uploads_loop (env : uploads_env) (bucket : string) (maxUploads : Z) (rs : list treeWalkResult)
    (disks : list (option D)) (uploads : list uploadMetadata) (err : option error)
    : go (list (option D) * list treeWalkResult * ((list uploadMetadata * bool) + option error)) :=
  if maxUploads <=? 0 then Ret (disks, rs, inl (uploads, false))
  else
  match rs with
  | [] => Ret (disks, [], inl (uploads, true))
  | walkResult :: rs' =>
      match tw_err walkResult with
      | Some wErr =>
          if isErrIgnored (Some wErr) xlTreeWalkIgnoredErrs
          then uploads_loop env bucket maxUploads rs' disks uploads err
          else Ret (disks, rs', inr err)
      | None =>
          let entry := TrimPrefix (tw_entry walkResult) (retainSlash bucket) in
          if HasSuffix (tw_entry walkResult) slashSeparator then
            let uploads := uploads ++ [{| UmObject := entry; UmUploadID := ""; UmInitiated := zeroTime |}] in
            if maxUploads - 1 =? 0 then Ret (disks, rs', inl (uploads, true))
            else uploads_loop env bucket (maxUploads - 1) rs' disks uploads err
          else
            '(disks, (newUploads, end_, err)) ← ids_of_object (ue_entry env entry) disks bucket entry "" maxUploads err;
            match err with
            | Some _ =>
                if isErrIgnored err xlTreeWalkIgnoredErrs
                then uploads_loop env bucket maxUploads rs' disks uploads err
                else mret (disks, rs', inr err)
            | None =>
                let uploads := uploads ++ newUploads in
                if end_ && tw_end walkResult then mret (disks, rs', inl (uploads, true))
                else uploads_loop env bucket (maxUploads - zlen newUploads) rs' disks uploads err
            end
      end
  end.

(** The result of the uploads: directories are prefixes, and the markers are
    those of the last entry. *)
Fixpoint fill_uploads (result : ListMultipartsInfo) (uploads : list uploadMetadata) : ListMultipartsInfo :=
  match uploads with
  | [] => result
  | upload :: uploads' =>
      let isPrefix := HasSuffix (UmObject upload) slashSeparator in
      fill_uploads
        {| lm_KeyMarker := lm_KeyMarker result; lm_UploadIDMarker := lm_UploadIDMarker result;
           lm_NextKeyMarker := UmObject upload;
           lm_NextUploadIDMarker := if isPrefix then "" else UmUploadID upload;
           lm_MaxUploads := lm_MaxUploads result; lm_IsTruncated := lm_IsTruncated result;
           lm_Uploads := if isPrefix then lm_Uploads result else lm_Uploads result ++ [upload];
           lm_Prefix := lm_Prefix result; lm_Delimiter := lm_Delimiter result;
           lm_CommonPrefixes :=
             if isPrefix then lm_CommonPrefixes result ++ [UmObject upload] else lm_CommonPrefixes result |} uploads'
  end.

(** The end of [listMultipartUploads]; the channels are nil when no walk was
    started. *)
Definition uploads_done (li : lister D) (bucket prefix keyMarker delimiter : string) (recursive : bool)
    (maxUploads : Z) (uploads : list uploadMetadata) (eof : bool) (chs : nat * nat)
    : lister D * (ListMultipartsInfo * option error) :=
  let result := fill_uploads
    {| lm_KeyMarker := keyMarker; lm_UploadIDMarker := ""; lm_NextKeyMarker := ""; lm_NextUploadIDMarker := "";
       lm_MaxUploads := maxUploads; lm_IsTruncated := true; lm_Uploads := []; lm_Prefix := prefix;
       lm_Delimiter := delimiter; lm_CommonPrefixes := [] |} uploads in
  let p :=
    if eof then li_pool li
    else Set_ (li_pool li) (ListParams bucket recursive (lm_NextKeyMarker result) prefix false) chs.1 chs.2 in
  (Lister (li_disks li) p (li_chans li) (li_next li),
   ({| lm_KeyMarker := lm_KeyMarker result; lm_UploadIDMarker := lm_UploadIDMarker result;
       lm_NextKeyMarker := if eof then "" else lm_NextKeyMarker result;
       lm_NextUploadIDMarker := if eof then "" else lm_NextUploadIDMarker result;
       lm_MaxUploads := lm_MaxUploads result; lm_IsTruncated := negb eof; lm_Uploads := lm_Uploads result;
       lm_Prefix := lm_Prefix result; lm_Delimiter := lm_Delimiter result;
       lm_CommonPrefixes := lm_CommonPrefixes result |}, None)).

Definition set_li_disks (li : lister D) (disks : list (option D)) : lister D :=
  Lister disks (li_pool li) (li_chans li) (li_next li).

Definition listMultipartUploads (fuel : nat) (env : uploads_env) (li : lister D)
    (bucket prefix keyMarker uploadIDMarker delimiter : string) (maxUploads : Z)
    : go (lister D * (ListMultipartsInfo * option error)) :=
  let recursive := negb (bool_decide (delimiter = slashSeparator)) in
  let multipartPrefixPath :=
    if bool_decide (prefix = "") then pathJoin [bucket; prefix] +:+ slashSeparator else pathJoin [bucket; prefix] in
  let multipartMarkerPath := if bool_decide (keyMarker = "") then "" else pathJoin [bucket; keyMarker] in
  '(disks, (uploads, _, err)) ←
    (if bool_decide (uploadIDMarker = "") then mret (li_disks li, ([], false, None))
     else ids_of_object (ue_marker env) (li_disks li) bucket keyMarker uploadIDMarker maxUploads None);
  let li := set_li_disks li disks in
  match err with
  | Some _ => mret (li, (ListMultipartsInfo_zero, err))
  | None =>
      let left_ := maxUploads - zlen uploads in
      let done_ li := uploads_done li bucket prefix keyMarker delimiter recursive maxUploads in
      if left_ <=? 0 then mret (done_ li uploads false (nil_chan, nil_chan))
      else
        '(li, (walkerCh, walkerDoneCh)) ← get_upload_walk fuel env li multipartPrefixPath multipartMarkerPath recursive;
        '(disks, rs, r) ←
          uploads_loop env bucket left_ (default [] (li_chans li !! walkerCh)) (li_disks li) uploads None;
        let li := Lister disks (li_pool li) (<[walkerCh := rs]> (li_chans li)) (li_next li) in
        match r with
        | inr err => mret (li, (ListMultipartsInfo_zero, err))
        | inl (uploads, eof) => mret (done_ li uploads eof (walkerCh, walkerDoneCh))
        end
  end.

(** [uuid_Parse] is the package of uuids. *)
Definition ListMultipartUploads (uuid_Parse : string → bool + error) (fuel : nat) (env : uploads_env) (li : lister D)
    (bucket prefix keyMarker uploadIDMarker delimiter : string) (maxUploads : Z)
    : go (lister D * (ListMultipartsInfo * option error)) :=
  '(disks, (_, bErr)) ← GetBucketInfo (ue_check env) (li_disks li) bucket;
  let li := set_li_disks li disks in
  match checkListMultipartArgs (λ _, bErr) uuid_Parse bucket prefix keyMarker uploadIDMarker delimiter with
  | Some err => mret (li, (ListMultipartsInfo_zero, Some err))
  | None => listMultipartUploads fuel env li bucket prefix keyMarker uploadIDMarker delimiter maxUploads
  end.

End Multipart.
