(* ===== verification/XLFiles.v ===== *)
(** * Disks by their files

    A disk that is up is described by the function of its files; the calls of a
    storage and the loops over the disks update this function.  The operations of
    multipart uploads are proved against this view. *)

From S2P Require Import Prelude.
From S2P Require Import GoErrors.
From S2P Require Import GoStrings.
From S2P Require Import Quorum.
From S2P Require Import Distribution.
From S2P Require Import XLMeta.
From S2P Require Import Storage.
From S2P Require Import Erasure.
From S2P Require Import ErasureSpec.
From S2P Require Import ErasureWrite.
From S2P Require Import Healing.
From S2P Require Import ObjectNames.
From S2P Require Import DiskContract.
From S2P Require Import XLDisk.
From S2P Require Import XLCommon.
From S2P Require Import XLObject.
From S2P Require Import XLPut.
From S2P Require Import XLStage.
From S2P Require Import XLPutGet.
From S2P Require Import XLMultipart.

Local Open Scope Z_scope.

(** The files by volume and path. *)
Definition files : Type := string → string → option bytes.

(** One file changes. *)
Definition fset (F : files) (v p : string) (c : option bytes) : files :=
  λ v' p', if decide ((v', p') = (v, p)) then c else F v' p'.

(** The directory [src] moves to the empty [dst]. *)
Definition fmove (F : files) (sv src dv dst : string) : files :=
  λ v p,
    if decide (v = dv ∧ HasPrefix p (dst +:+ "/") = true) then F sv (src +:+ "/" +:+ TrimPrefix p (dst +:+ "/"))
    else if decide (v = sv ∧ HasPrefix p (src +:+ "/") = true) then None else F v p.

(** The directory [s] is emptied. *)
Definition fclear (F : files) (v s : string) : files :=
  λ v' p, if decide (v' = v ∧ HasPrefix p (s +:+ "/") = true) then None else F v' p.

(** The name is free: no file is above or below it. *)
Definition ffree (F : files) (v p : string) : Prop :=
  (∀ a r, p = a +:+ "/" +:+ r → F v a = None) ∧ (∀ r, F v (p +:+ "/" +:+ r) = None).

Lemma fset_eq F v p c : fset F v p c v p = c.
Proof. unfold fset. by rewrite decide_True. Qed.

Lemma fset_ne F v p c v' p' : (v', p') ≠ (v, p) → fset F v p c v' p' = F v' p'.
Proof. intros Hne. unfold fset. by rewrite decide_False. Qed.

Lemma fset_vol F v p c v' p' : v' ≠ v → fset F v p c v' p' = F v' p'.
Proof. intros Hne. apply fset_ne. congruence. Qed.

Lemma fset_path F v p c p' : p' ≠ p → fset F v p c v p' = F v p'.
Proof. intros Hne. apply fset_ne. congruence. Qed.

Lemma fset_fset F v p c c' v' p' : fset (fset F v p c) v p c' v' p' = fset F v p c' v' p'.
Proof. unfold fset. by case_decide. Qed.

Lemma fmove_dst F sv src dv dst r : fmove F sv src dv dst dv (dst +:+ "/" +:+ r) = F sv (src +:+ "/" +:+ r).
Proof.
  unfold fmove. rewrite decide_True by (split; [done|apply below]).
  by rewrite (str_app_assoc dst "/" r), TrimPrefix_app.
Qed.

Lemma fmove_src F sv src dv dst r : sv ≠ dv → fmove F sv src dv dst sv (src +:+ "/" +:+ r) = None.
Proof.
  intros Hne. unfold fmove. rewrite decide_False by tauto. by rewrite decide_True by (split; [done|apply below]).
Qed.

Lemma fmove_other F sv src dv dst v p :
  ¬ (v = dv ∧ HasPrefix p (dst +:+ "/") = true) → ¬ (v = sv ∧ HasPrefix p (src +:+ "/") = true) →
  fmove F sv src dv dst v p = F v p.
Proof. intros H1 H2. unfold fmove. by rewrite !decide_False. Qed.

Section Files.
Context {D : Type} `{!StorageAPI D} `{!StorageContract D} `{!Volumes D} `{!DiskContract D}.
Context (vols : list string).

(** The disk has the volumes and the files. *)
Record disk_has (F : files) (d : D) : Prop := {
  dh_vols : ∀ v, v ∈ vols → has_vol d v;
  dh_files : ∀ v p, file_at d v p = F v p;
}.

Lemma disk_has_ext F F' d : (∀ v p, F v p = F' v p) → disk_has F d → disk_has F' d.
Proof. intros He [Hv Hf]. split; [done|]. intros v p. by rewrite Hf. Qed.

Lemma disk_has_same F d d' : disk_has F d → same_disk d d' → disk_has F d'.
Proof. intros [Hv Hf] [Hv' Hf']. split; [auto|]. intros v p. by rewrite Hf'. Qed.

Lemma disk_has_stable (F : nat → files) : stable (λ i, disk_has (F i)).
Proof. intros i d d'. apply disk_has_same. Qed.

Lemma disk_has_free F d v p : disk_has F d → ffree F v p → free_name d v p.
Proof.
  intros [_ Hf] [Ha Hb]. split.
  - intros a r E. rewrite Hf. by eapply Ha.
  - intros [r Hr]. rewrite Hf, Hb in Hr. by destruct Hr.
Qed.

Lemma disk_has_but F d d' v p c : disk_has F d → but_file v p d d' → file_at d' v p = c → disk_has (fset F v p c) d'.
Proof.
  intros [Hv Hf] [Hv' Hf'] Hc. split; [auto|]. intros v' p'. unfold fset. case_decide as E; [by simplify_eq|].
  by rewrite Hf'.
Qed.

Lemma disk_has_append F d v p b : up d → disk_has F d → v ∈ vols → clean_path p → ffree F v p →
  ∃ d', AppendFile d v p b = (d', None) ∧ up d' ∧ disk_has (fset F v p (Some (default [] (F v p) ++ b))) d'.
Proof.
  intros Hup Hd Hv Hc Hfree.
  destruct (AppendFile_accepts d v p b) as (d' & Ha & _); [apply up_accepts; [done|by apply (dh_vols _ _ Hd)|]|].
  { by eapply disk_has_free. }
  destruct (up_AppendFile _ _ _ _ _ Hup Hc Ha) as [Hup' Hb]. exists d'. split_and!; [done|done|].
  eapply disk_has_but; [done|done|]. by rewrite (AppendFile_appends _ _ _ _ _ Ha), (dh_files _ _ Hd).
Qed.

Lemma disk_has_rename F d sv src dv dst c : up d → disk_has F d → sv ∈ vols → dv ∈ vols → sv ≠ dv →
  clean_path src → clean_path dst → F sv src = Some c → is_Some (F dv dst) ∨ ffree F dv dst →
  ∃ d', RenameFile d sv src dv dst = (d', None) ∧ up d' ∧ disk_has (fset (fset F sv src None) dv dst (Some c)) d'.
Proof.
  intros Hup Hd Hsv Hdv Hne Hcs Hcd Hc Hdst.
  destruct (up_RenameFile_over d sv src dv dst c Hup) as (d' & -> & Hup' & [Hkv Hkf] & Hn & Ho);
    try done; try by apply (dh_vols _ _ Hd).
  - congruence.
  - by rewrite (dh_files _ _ Hd).
  - destruct Hdst as [Hs|Hfree]; [left; by rewrite (dh_files _ _ Hd)|right; by eapply disk_has_free].
  - exists d'. split_and!; [done|done|]. split.
    + intros v Hv. apply Hkv. by apply (dh_vols _ _ Hd).
    + intros v p. unfold fset. case_decide as E; [by simplify_eq|]. case_decide as E'; [by simplify_eq|].
      rewrite Hkf by done. apply (dh_files _ _ Hd).
Qed.

Lemma disk_has_rename_dir F d sv src dv dst : up d → disk_has F d → sv ∈ vols → dv ∈ vols → sv ≠ dv →
  clean_path src → clean_path dst → (∃ r, is_Some (F sv (src +:+ "/" +:+ r))) → ffree F dv dst → F dv dst = None →
  ∃ d', RenameFile d sv (src +:+ "/") dv (dst +:+ "/") = (d', None) ∧ up d' ∧ disk_has (fmove F sv src dv dst) d'.
Proof.
  intros Hup Hd Hsv Hdv Hne Hcs Hcd [r Hr] Hfree Hno.
  destruct (up_RenameFile d sv src dv dst Hup) as (d' & -> & Hup' & [Hmv Hmd Hms Hmo]);
    try done; try by apply (dh_vols _ _ Hd).
  - exists r. by rewrite (dh_files _ _ Hd).
  - by eapply disk_has_free.
  - by rewrite (dh_files _ _ Hd).
  - exists d'. split_and!; [done|done|]. split.
    + intros v Hv. by apply Hmv, (dh_vols _ _ Hd).
    + intros v p. unfold fmove. case_decide as E; [|case_decide as E'].
      * destruct E as [-> [q ->]%HasPrefix_iff]. rewrite TrimPrefix_app, <- str_app_assoc, Hmd. apply (dh_files _ _ Hd).
      * destruct E' as [-> [q ->]%HasPrefix_iff]. rewrite <- str_app_assoc. destruct (file_at d' sv _) eqn:Ef; [|done].
        exfalso. apply Hms. by exists q.
      * rewrite Hmo by done. apply (dh_files _ _ Hd).
Qed.

(** A directory that may be missing moves to a free name. *)
Lemma disk_has_retire F d sv src dv dst : up d → disk_has F d → sv ∈ vols → dv ∈ vols → sv ≠ dv →
  clean_path src → clean_path dst → (∃ r, is_Some (F sv (src +:+ "/" +:+ r))) ∨ (∀ r, F sv (src +:+ "/" +:+ r) = None) →
  ffree F dv dst → F dv dst = None →
  ∃ d' e, RenameFile d sv (src +:+ "/") dv (dst +:+ "/") = (d', e) ∧ up d' ∧ disk_has (fmove F sv src dv dst) d' ∧
    (e = None ∨ e = Some (errFileNotFound : error)).
Proof.
  intros Hup Hd Hsv Hdv Hne Hcs Hcd [Hr|Hnone] Hfree Hno.
  - destruct (disk_has_rename_dir F d sv src dv dst) as (d' & -> & ? & ?); try done. eauto 10.
  - destruct (up_RenameFile_none d sv src dv dst Hup) as (d' & e & -> & Hup' & Hs & He);
      try done; try by apply (dh_vols _ _ Hd).
    + intros [r Hr]. rewrite (dh_files _ _ Hd), Hnone in Hr. by destruct Hr.
    + by eapply disk_has_free.
    + by rewrite (dh_files _ _ Hd).
    + eexists _, _. split_and!; [done|done| |done]. eapply disk_has_ext; [|by eapply disk_has_same].
      intros v p. unfold fmove. case_decide as E; [|case_decide as E'; [|done]].
      * destruct E as [-> [q ->]%HasPrefix_iff]. rewrite TrimPrefix_app, <- str_app_assoc, Hnone. apply Hfree.
      * destruct E' as [-> [q ->]%HasPrefix_iff]. rewrite <- str_app_assoc. apply Hnone.
Qed.

Lemma disk_has_delete F d v p : up d → disk_has F d → v ∈ vols → is_Some (F v p) →
  ∃ d', DeleteFile d v p = (d', None) ∧ up d' ∧ disk_has (fset F v p None) d'.
Proof.
  intros Hup Hd Hv Hs. destruct (up_DeleteFile d v p Hup) as (d' & -> & Hup' & Hb & Hn).
  - by apply (dh_vols _ _ Hd).
  - by rewrite (dh_files _ _ Hd).
  - exists d'. split_and!; [done|done|]. by eapply disk_has_but.
Qed.

Lemma disk_has_delete_none F d v p : up d → disk_has F d → v ∈ vols → clean_path p → F v p = None →
  (∀ r, F v (p +:+ "/" +:+ r) = None) →
  ∃ d' e, DeleteFile d v p = (d', Some e) ∧ up d' ∧ disk_has F d'.
Proof.
  intros Hup Hd Hv Hc Hn Hb. destruct (up_DeleteFile_none d v p Hup) as (d' & e & -> & Hup' & Hs).
  - by apply (dh_vols _ _ Hd).
  - done.
  - intros [r Hr]. rewrite (dh_files _ _ Hd), Hb in Hr. by destruct Hr.
  - by rewrite (dh_files _ _ Hd).
  - eexists _, _. split_and!; [done|done|]. by eapply disk_has_same.
Qed.

(** A file is gone after a delete, whether it was there or not. *)
Lemma disk_has_delete_any F d v p : up d → disk_has F d → v ∈ vols → clean_path p →
  (∀ r, F v (p +:+ "/" +:+ r) = None) →
  up (DeleteFile d v p).1 ∧ disk_has (fset F v p None) (DeleteFile d v p).1.
Proof.
  intros Hup Hd Hv Hc Hb. destruct (F v p) as [c|] eqn:E.
  - destruct (disk_has_delete F d v p) as (d' & -> & ? & ?); try done.
  - destruct (disk_has_delete_none F d v p) as (d' & e & -> & ? & ?); try done. split; [done|].
    eapply disk_has_ext; [|done]. intros v' p'. unfold fset. case_decide as E'; [|done]. by injection E' as -> ->.
Qed.

Lemma disk_has_removed F d d' v s : disk_has F d → removed v s (λ _, True) d d' → disk_has (fclear F v s) d'.
Proof.
  intros [Hv Hf] [[Hkv Hkf] Hg]. split; [auto|]. intros v' p. unfold fclear. case_decide as E.
  - destruct E as [-> [r ->]%HasPrefix_iff]. rewrite <- str_app_assoc. by apply Hg.
  - rewrite Hkf; [apply Hf|]. intros r _ [= -> ->]. apply E. split; [done|apply below].
Qed.

(** ** Writing a file of blocks *)

Section Create.
Context `{MapOrder, Hashes} `{RS : ReedSolomon} (k m : nat) `{!RSContract k m}.
Context (cls : nat → disk_state) (F : nat → files) (path : string).
Context (tmp_vol : minioMetaTmpBucket ∈ vols) (path_clean : clean_path path).
Context (path_free : ∀ i, ffree (F i) minioMetaTmpBucket path) (path_none : ∀ i, F i minioMetaTmpBucket path = None).

Let tmp := minioMetaTmpBucket.
Let n := (k + m)%nat.

(** The file is being written. *)
Definition filling (i : nat) (d : D) : Prop :=
  accepts d tmp path ∧ ∃ c, disk_has (fset (F i) tmp path c) d.

Definition empty_yet (i : nat) (d : D) : Prop := filling i d ∧ default [] (file_at d tmp path) = [].

Lemma fset_free i c : ffree (fset (F i) tmp path c) tmp path.
Proof.
  destruct (path_free i) as [Ha Hb]. split.
  - intros a r E. rewrite fset_path; [by apply (Ha a r)|]. intros ->. by apply (slash_longer path r).
  - intros r. rewrite fset_path; [apply Hb|apply slash_longer].
Qed.

Lemma filling_intro i d c : up d → disk_has (fset (F i) tmp path c) d → filling i d.
Proof.
  intros Hup Hd. split; [|by exists c]. apply up_accepts; [done|by apply (dh_vols _ _ Hd)|].
  eapply disk_has_free; [done|apply fset_free].
Qed.

Lemma filling_append i d b :
  slot_is cls filling i (Some d) → slot_is cls filling i (Some (AppendFile d tmp path b).1).
Proof.
  unfold slot_is. destruct (cls i); [| |done].
  - intros (Hup & _ & c & Hd).
    destruct (disk_has_append _ d tmp path b Hup Hd tmp_vol path_clean (fset_free i c)) as (d' & -> & Hup' & Hd').
    split; [done|]. eapply filling_intro; [done|]. eapply disk_has_ext; [|exact Hd']. apply fset_fset.
  - intros Hd. by destruct (down_AppendFile d tmp path b Hd) as (d' & e & -> & Hd').
Qed.

Lemma empty_prepare i d s d' err : up d → disk_has (F i) d → PrepareFile d tmp path s = (d', err) →
  up d' ∧ empty_yet i d'.
Proof.
  intros Hup Hd Hp.
  destruct (up_PrepareFile d tmp path s d' err Hup path_clean) as (Hup' & Hb & Hdef); [|done|].
  { eapply disk_has_free; [done|apply path_free]. }
  split; [done|]. split.
  - eapply filling_intro; [done|]. by eapply disk_has_but.
  - by rewrite Hdef, (dh_files _ _ Hd), path_none.
Qed.

Lemma empty_unprepared i d : up d → disk_has (F i) d → empty_yet i d.
Proof.
  intros Hup Hd. split.
  - apply (filling_intro i d None Hup). eapply disk_has_ext; [|done]. intros v p. unfold fset.
    case_decide as E; [|done]. injection E as -> ->. apply path_none.
  - by rewrite (dh_files _ _ Hd), path_none.
Qed.

Lemma prepare_files size e (ds : list (option D)) :
  0 < BlockSize e → (0 < Z.to_nat (DataBlocks e))%nat → slots (slot_is cls (λ i, disk_has (F i))) ds n →
  ∃ ds', (if 0 <? size then prepare_all ds path size e else mret ds) = Ret ds' ∧ slots (slot_is cls empty_yet) ds' n.
Proof.
  intros Hbs Hdb HR. destruct (0 <? size).
  - eapply prepare_all_ok; [done|done|exact HR|]. intros i d s d' err. apply empty_prepare.
  - exists ds. split; [done|]. destruct HR as [Hl HR]. split; [done|]. intros i x Hx. specialize (HR i x Hx).
    unfold slot_is in *. destruct (cls i), x; try exact HR. destruct HR as [Hup Hd]. split; [done|].
    by apply empty_unprepared.
Qed.

Lemma create_files fuel bs data algo wq (ds : list (option D)) :
  (0 < bs)%nat → slots (slot_is cls empty_yet) ds n → (nblocks bs data < fuel)%nat →
  (2 ≤ wq)%nat → (n < 2 * wq)%nat → (wq ≤ count_good (λ i, is_up (cls i)) n)%nat →
  ∃ ds' cks, erasureCreateFile fuel ds tmp path {| rd_data := data; rd_err := io_EOF : error |} bs
      (Z.of_nat k) (Z.of_nat m) algo wq = Ret (ds', (zlen data, cks, None)) ∧
    slots (slot_is cls (λ i, disk_has (fset (F i) tmp path (Some (shard_file k m bs data i))))) ds' n ∧
    length cks = n ∧
    ∀ i, (i < n)%nat → cls i = DiskUp → cks !! i = Some (file_checksum k m bs data algo i).
Proof.
  intros Hbs HR Hfuel Hq Hm Hc.
  assert (Hprep : ∀ i, (i < n)%nat → is_up (cls i) = true → ∃ d, ds !! i = Some (Some d) ∧ up d ∧ empty_yet i d).
  { intros i Hi Hu. apply (slots_up cls _ ds n); [done|done|]. by destruct (cls i). }
  destruct (erasureCreateFile_ok k m bs Hbs data tmp path wq ds (λ i, is_up (cls i))
    (λ _, false) (slot_is cls filling) filling_append fuel {| rd_data := data; rd_err := io_EOF : error |} algo)
    as (ds' & nw & cks & e & Heq & Hok & Hlive).
  - apply HR.
  - intros i Hi Hu. destruct (Hprep i Hi Hu) as (d & Hd & _ & [[Ha _] _]). eauto.
  - done.
  - intros i x Hx. apply (slot_is_impl cls empty_yet); [by intros d [? _]|]. by apply HR.
  - done.
  - done.
  - assert (e = None) as ->.
    { apply Hlive; [done|done|done|]. unfold counted_disks. etransitivity; [exact Hc|].
      apply Nat.eq_le_incl, count_good_ext. intros i. by rewrite orb_false_r. }
    destruct (Hok eq_refl) as (_ & -> & Hlc & [Hld Hkp] & Hfiles).
    exists ds', cks. split_and!; [done| |done|].
    + split; [done|]. intros i x Hx. assert (Hi : (i < n)%nat) by (apply lookup_lt_Some in Hx; unfold n; lia).
      specialize (Hkp i x Hx). unfold slot_is in *. destruct (cls i) eqn:Hci; [|done..].
      destruct x as [d'|]; [|done]. destruct Hkp as (Hup & _ & c & Hd'). split; [done|].
      assert (Hu : is_up (cls i) = true) by (by rewrite Hci).
      destruct (Hprep i Hi Hu) as (d & Hd & _ & [_ Hdef]).
      destruct (Hfiles i d Hi Hu Hd) as (_ & d2 & Hd2 & Hf). rewrite Hx in Hd2. injection Hd2 as <-.
      rewrite Hdef in Hf. simpl in Hf. rewrite (dh_files _ _ Hd'), fset_eq in Hf. by subst c.
    + intros i Hi Hci. assert (Hu : is_up (cls i) = true) by (by rewrite Hci).
      destruct (Hprep i Hi Hu) as (d & Hd & _). by destruct (Hfiles i d Hi Hu Hd) as [Hck _].
Qed.

End Create.

End Files.

(** ** Slices of the disks in use *)

(** Of the disks in use only those that are up remain. *)
Definition online_cls (cls : nat → disk_state) (i : nat) : disk_state :=
  match cls i with DiskUp => DiskUp | _ => DiskGone end.

Lemma online_up cls i : is_up (online_cls cls i) = is_up (cls i).
Proof. unfold online_cls. by destruct (cls i). Qed.

Lemma online_DiskUp cls i : online_cls cls i = DiskUp ↔ cls i = DiskUp.
Proof. unfold online_cls. by destruct (cls i). Qed.

Lemma online_count cls n : count_good (λ i, is_up (online_cls cls i)) n = count_good (λ i, is_up (cls i)) n.
Proof. apply count_good_ext. apply online_up. Qed.

Section Slices.
Context {D : Type} `{!StorageAPI D} `{!StorageContract D} `{!Volumes D} `{!DiskContract D}.
Context (cls : nat → disk_state).

Lemma merge_at_slots σ (P Q : nat → D → Prop) online ds n :
  slots (λ s, slot_is (online_cls cls) Q (σ s)) online n → slots (λ s, slot_is cls P (σ s)) ds n →
  slots (λ s, slot_is cls Q (σ s)) (merge_disks online ds) n.
Proof.
  intros [Hl1 H1] [Hl2 H2]. unfold merge_disks. split; [rewrite length_zip_with; lia|].
  intros s x Hx. apply lookup_zip_with_Some in Hx as (o & d & -> & Ho & Hd).
  specialize (H1 s o Ho). specialize (H2 s d Hd). unfold slot_is, online_cls in *.
  by destruct (cls (σ s)), o, d.
Qed.

Context (dist : list Z) (n : nat) (dist_ok : dist ≡ₚ seqZ 1 (Z.of_nat n)).

Lemma put_back_ok (P Q : nat → D → Prop) od ds :
  slots (slot_is (online_cls cls) Q) od n → slots (λ s, slot_is cls P (blk dist s)) ds n →
  ∃ ds', put_back dist od ds = Ret ds' ∧ slots (λ s, slot_is cls Q (blk dist s)) ds' n.
Proof.
  intros Hod Hds. unfold put_back. destruct (gather_slots dist od n _ dist_ok Hod) as (o & -> & Ho). go_simpl.
  eexists. split; [done|]. by apply (merge_at_slots _ P).
Qed.

Lemma take_online_ok (P Q : nat → D → Prop) online ds :
  slots (λ s, slot_is (online_cls cls) P (blk dist s)) online n → slots (λ s, slot_is cls Q (blk dist s)) ds n →
  ∃ od, take_online dist online ds = Ret od ∧ slots (slot_is (online_cls cls) Q) od n.
Proof.
  intros [Hl1 H1] [Hl2 H2]. unfold take_online. apply ordered_slots; [done|]. split; [rewrite length_zip_with; lia|].
  intros s x Hx. apply lookup_zip_with_Some in Hx as (o & d & -> & Ho & Hd).
  specialize (H1 s o Ho). specialize (H2 s d Hd). unfold slot_is, online_cls in *.
  by destruct (cls (blk dist s)), o, d.
Qed.

End Slices.

(** ** Reading the metadata of a version *)

Section Select.
Context `{JsonContract} `{MapOrder}.
Context {D : Type} `{!StorageAPI D} `{!StorageContract D} `{!Volumes D} `{!DiskContract D}.
Context (cls : nat → disk_state) (σ : nat → nat) (n : nat) (bucket prefix : string) (prefix_clean : clean_path prefix).
Context (P : nat → D → Prop) (P_stable : stable P) (mt : nat → xlMetaV1) (T : time).
Context (P_meta : ∀ i d, P i d → has_vol d bucket ∧
  ∃ b, file_at d bucket (prefix +:+ "/" +:+ xlMetaJSONFile) = Some b ∧ json_Marshal (mt i) = inl b).
Context (mt_time : ∀ i, ModTime (Stat (mt i)) = T) (mt_valid : ∀ i, IsValid (mt i) = true).
Context (T_ok : T ≠ timeSentinel).

(** A majority of disks that are up decides: the metadata that is picked is that
    of a disk that is up, and these are the disks in use. *)
Lemma read_select (ds : list (option D)) wq :
  slots (λ s, slot_is cls P (σ s)) ds n →
  (2 ≤ wq)%nat → (n < 2 * wq)%nat → (wq ≤ count_good (λ s, is_up (cls (σ s))) n)%nat →
  ∃ ds' metas errs, readAllXLMetadata ds bucket prefix = (ds', (metas, errs)) ∧
    slots (λ s, slot_is cls P (σ s)) ds' n ∧ isDiskQuorum errs wq = true ∧
    (∀ now, now ≠ T → ∃ online, listOnlineDisks now ds' metas errs = Ret (online, T) ∧
       slots (λ s, slot_is (online_cls cls) P (σ s)) online n) ∧
    (∃ i, pickValidXLMeta metas T = (mt i, None)) ∧ length metas = n ∧
    (∀ s, (s < n)%nat → cls (σ s) = DiskUp → metas !! s = Some (mt (σ s))).
Proof.
  intros HR Hq Hm Hc.
  destruct (readAll_slots bucket prefix prefix_clean ds n (λ s, cls (σ s)) (λ s, P (σ s)) (λ s, mt (σ s)) HR)
    as (ds' & metas & errs & -> & Hds & Hlm & Hle & Hrep).
  { intros i d d'. apply P_stable. } { intros s d. apply P_meta. }
  assert (Hup : ∀ s, (s < n)%nat → cls (σ s) = DiskUp → metas !! s = Some (mt (σ s)) ∧ errs !! s = Some None).
  { intros s Hs Hu. destruct (lookup_lt_is_Some_2 metas s) as [x Hx]; [lia|].
    destruct (lookup_lt_is_Some_2 errs s) as [e He]; [lia|]. specialize (Hrep s x e Hx He).
    unfold reported in Hrep. rewrite Hu in Hrep. injection Hrep as -> ->. done. }
  assert (Hholds : ∀ s x e, metas !! s = Some x → errs !! s = Some e → holds_version T x e = is_up (cls (σ s))).
  { intros s x e Hx He. specialize (Hrep s x e Hx He). unfold reported in Hrep.
    destruct (cls (σ s)); [injection Hrep as -> ->; simpl; by rewrite mt_time, Z.eqb_refl| |];
      destruct Hrep as [_ Hne]; simpl in Hne; by destruct e. }
  assert (Hvc : version_count T metas errs = count_good (λ s, is_up (cls (σ s))) n).
  { unfold version_count, count_good. apply filter_bool_seq; [rewrite length_zip_with; lia|].
    intros s b Hb. apply lookup_zip_with_Some in Hb as (x & e & -> & Hx & Hy). by apply Hholds. }
  exists ds', metas, errs. split; [done|]. split; [done|]. split.
  { apply (up_quorum (λ s, cls (σ s)) errs n wq); [|done|done|done]. split; [done|]. intros s Hs Hu. by apply Hup. }
  split.
  { intros now Hnow.
    destruct (listOnlineDisks_majority now T ds' metas errs) as (online & -> & Hlo & Hon);
      [lia|rewrite Hlm; apply Hds|done|done|lia|].
    exists online. split; [done|]. split; [rewrite Hlo; apply Hds|]. intros s x Hx.
    assert (Hs : (s < n)%nat) by (apply lookup_lt_Some in Hx; rewrite Hlo in Hx; destruct Hds; lia).
    destruct (lookup_lt_is_Some_2 metas s) as [y Hy]; [lia|]. destruct (lookup_lt_is_Some_2 errs s) as [e He]; [lia|].
    destruct (lookup_lt_is_Some_2 ds' s) as [d Hd]; [destruct Hds; lia|].
    rewrite (Hon s y e d Hy He Hd), (Hholds s y e Hy He) in Hx. injection Hx as <-.
    destruct Hds as [_ Hds]. specialize (Hds s d Hd). unfold slot_is, online_cls in *. by destruct (cls (σ s)), d. }
  assert (∃ s, (s < n)%nat ∧ cls (σ s) = DiskUp) as (s & Hs & Hu).
  { unfold count_good in Hc. destruct (filter _ _) as [|s l] eqn:E in Hc; [simpl in Hc; lia|].
    assert (Hi : s ∈ s :: l) by left. rewrite <- E in Hi. apply list_elem_of_filter in Hi as [Hcs Hi].
    apply elem_of_seq in Hi. exists s. split; [lia|]. by destruct (cls (σ s)). }
  split; [|split; [done|intros s' ? ?; by apply Hup]].
  pose proof (pickValidXLMeta_spec metas T) as Hpick. destruct (pickValidXLMeta metas T) as [x [e|]].
  - destruct Hpick as [_ Hno]. exfalso. apply (Hno (mt (σ s))); [|done|done].
    apply list_elem_of_lookup. exists s. by apply Hup.
  - destruct Hpick as (Hin & Hval & _). apply list_elem_of_lookup in Hin as [s' Hs'].
    destruct (lookup_lt_is_Some_2 errs s') as [e' He']; [apply lookup_lt_Some in Hs'; lia|].
    specialize (Hrep s' x e' Hs' He'). unfold reported in Hrep. destruct (cls (σ s')).
    + injection Hrep as -> _. by exists (σ s').
    + destruct Hrep as [E _]. simpl in E. by subst x.
    + destruct Hrep as [E _]. simpl in E. by subst x.
Qed.

End Select.

(** ** Loops that change the files *)

Section Commit.
Context `{JsonContract} `{MapOrder}.
Context {D : Type} `{!StorageAPI D} `{!StorageContract D} `{!Volumes D} `{!DiskContract D}.
Context (vols : list string) (cls : nat → disk_state) (n wq : nat).
Context (quorum : (2 ≤ wq)%nat ∧ (n < 2 * wq)%nat ∧ (wq ≤ count_good (λ i, is_up (cls i)) n)%nat).

Abbreviation with_files F := (slots (slot_is (D := D) cls (λ i, disk_has vols (F i)))) (only parsing).

Lemma renamePart_files (F : nat → files) (c : nat → bytes) sv src dv dst (ds : list (option D)) :
  sv ∈ vols → dv ∈ vols → sv ≠ dv → clean_path src → clean_path dst → with_files F ds n →
  (∀ i, F i sv src = Some (c i) ∧ (is_Some (F i dv dst) ∨ ffree (F i) dv dst)) →
  ∃ ds', renamePart ds sv src dv dst wq = (ds', None) ∧
    with_files (λ i, fset (fset (F i) sv src None) dv dst (Some (c i))) ds' n.
Proof.
  intros Hsv Hdv Hne Hcs Hcd HR HF. destruct quorum as (Hq & Hm & Hc). unfold renamePart, rename.
  destruct (rename_all_ok sv src dv dst ds n cls _ (λ i, disk_has vols (fset (fset (F i) sv src None) dv dst (Some (c i)))) HR)
    as (ds' & errs & -> & Hds & He).
  { intros i d Hup Hd. destruct (HF i) as [Hs Hdst].
    destruct (disk_has_rename vols (F i) d sv src dv dst (c i)) as (d' & -> & ? & ?); try done. eauto 10. }
  destruct (up_quorum cls errs n wq He Hq Hm Hc) as [-> ->]. by exists ds'.
Qed.

Lemma renameObject_files (F : nat → files) sv src dv dst (ds : list (option D)) :
  sv ∈ vols → dv ∈ vols → sv ≠ dv → clean_path src → clean_path dst → with_files F ds n →
  (∀ i, (∃ r, is_Some (F i sv (src +:+ "/" +:+ r))) ∧ ffree (F i) dv dst ∧ F i dv dst = None) →
  ∃ ds', renameObject ds sv src dv dst wq = (ds', None) ∧ with_files (λ i, fmove (F i) sv src dv dst) ds' n.
Proof.
  intros Hsv Hdv Hne Hcs Hcd HR HF. destruct quorum as (Hq & Hm & Hc).
  apply (renameObject_ok sv src dv dst wq ds n cls (λ i, disk_has vols (F i))); try done.
  intros i d Hup Hd. destruct (HF i) as (Hr & Hfree & Hno).
  destruct (disk_has_rename_dir vols (F i) d sv src dv dst) as (d' & -> & ? & ?); try done. eauto 10.
Qed.

(** The metadata of every disk goes to the temporary volume. *)
Lemma writeUnique_files (F : nat → files) (js : nat → bytes) prefix metas (ds : list (option D)) :
  minioMetaTmpBucket ∈ vols → plain_elem prefix → with_files F ds n → length metas = n →
  (∀ i mt, cls i = DiskUp → metas !! i = Some mt → json_Marshal (set_index mt (Z.of_nat i + 1)) = inl (js i)) →
  (∀ i, F i minioMetaTmpBucket prefix = None ∧ ∀ r, F i minioMetaTmpBucket (prefix +:+ "/" +:+ r) = None) →
  ∃ ds' ms, writeUniqueXLMetadata ds minioMetaTmpBucket prefix metas wq = Ret (ds', ms, None) ∧
    with_files (λ i, fset (F i) minioMetaTmpBucket (prefix +:+ "/" +:+ xlMetaJSONFile) (Some (js i))) ds' n.
Proof.
  intros Hv Hp HR Hl Hjs HF. destruct quorum as (Hq & Hm & Hc). unfold writeUniqueXLMetadata.
  destruct (write_unique_slots minioMetaTmpBucket prefix ds metas 0 n cls _
    (λ i, disk_has vols (fset (F i) minioMetaTmpBucket (prefix +:+ "/" +:+ xlMetaJSONFile) (Some (js i)))) HR Hl)
    as (ds' & ms & errs & -> & Hds & He).
  { intros i d mt Hci Hup Hd Hmt. rewrite Z.add_0_l. unfold writeXLMetadata. rewrite (Hjs i mt Hci Hmt).
    assert (Hcx : clean_path xlMetaJSONFile) by apply clean_path_plain, xlMetaJSON_plain.
    assert (Hcp : clean_path prefix) by (by apply clean_path_plain).
    rewrite path_Join_clean by done. destruct (HF i) as [Hno Hbelow].
    destruct (disk_has_append vols (F i) d minioMetaTmpBucket (prefix +:+ "/" +:+ xlMetaJSONFile) (js i) Hup Hd Hv)
      as (d' & -> & Hup' & Hd').
    - by apply clean_path_app.
    - split.
      + intros a r E. apply slash_elem_inj in E as [-> _]; [done|done|apply xlMetaJSON_plain].
      + intros r. rewrite <- str_app_assoc. apply Hbelow.
    - exists d'. split_and!; [done|done|]. by rewrite Hbelow in Hd'. }
  go_simpl. unfold write_quorum_result. destruct (up_quorum cls errs n wq He Hq Hm Hc) as [-> ->]. go_simpl. eauto.
Qed.

Lemma commit_metas_ok sb sp db dp : ∀ (ds : list (option D)) n cls (P Q : nat → D → Prop),
  slots (slot_is cls P) ds n →
  (∀ i d, up d → P i d → ∃ d' d'' e, RenameFile d sb (path_Join [sp; xlMetaJSONFile]) db (path_Join [dp; xlMetaJSONFile]) = (d', None) ∧
     DeleteFile d' sb sp = (d'', e) ∧ up d'' ∧ Q i d'') →
  ∃ ds' errs, commit_metas ds sb sp db dp = (ds', errs) ∧ slots (slot_is cls Q) ds' n ∧ up_nil cls errs n.
Proof.
  induction ds as [|x ds IH]; intros c cl P Q HR Hstep.
  { apply slots_nil_inv in HR as ->. exists [], []. split_and!; [done|by split|]. split; [done|lia]. }
  apply slots_cons_inv in HR as (c' & -> & Hx & HR). cbn [commit_metas].
  destruct (IH c' (λ i, cl (S i)) (λ i, P (S i)) (λ i, Q (S i)) HR) as (ds' & errs & -> & Hds & He).
  { intros i. apply (Hstep (S i)). }
  assert (Hcons : ∀ y e, slot_is cl Q 0 y → (cl 0%nat = DiskUp → e = None) →
    ∃ ds'' errs', (y :: ds', e :: errs) = (ds'', errs') ∧ slots (slot_is cl Q) ds'' (S c') ∧ up_nil cl errs' (S c')).
  { intros y e Hy Hye. eexists _, _. split; [done|]. split; [by apply slots_cons|by apply up_nil_cons]. }
  unfold slot_is in Hx. destruct (cl 0%nat) eqn:Hc; destruct x as [d|]; try done.
  - destruct Hx as [Hup HP]. destruct (Hstep _ _ Hup HP) as (d' & d'' & e & -> & -> & Hup' & HQ).
    apply Hcons; [unfold slot_is; by rewrite Hc|done].
  - destruct (down_RenameFile d sb (path_Join [sp; xlMetaJSONFile]) db (path_Join [dp; xlMetaJSONFile]) Hx)
      as (d1 & e1 & -> & Hd1). destruct (down_DeleteFile d1 sb sp Hd1) as (d2 & e2 & -> & Hd2).
    apply Hcons; [|done]. unfold slot_is. by rewrite Hc.
  - apply Hcons; [unfold slot_is; by rewrite Hc|done].
Qed.

(** xl.json moves from the temporary volume over the one of the upload. *)
Lemma commit_files (F : nat → files) (c : nat → bytes) prefix dv dst (ds : list (option D)) :
  minioMetaTmpBucket ∈ vols → dv ∈ vols → minioMetaTmpBucket ≠ dv → plain_elem prefix → clean_path dst →
  with_files F ds n →
  (∀ i, F i minioMetaTmpBucket (prefix +:+ "/" +:+ xlMetaJSONFile) = Some (c i) ∧
     F i minioMetaTmpBucket prefix = None ∧
     (∀ r, r ≠ xlMetaJSONFile → F i minioMetaTmpBucket (prefix +:+ "/" +:+ r) = None) ∧
     is_Some (F i dv (dst +:+ "/" +:+ xlMetaJSONFile))) →
  ∃ ds', commitXLMetadata ds minioMetaTmpBucket prefix dv dst wq = (ds', None) ∧
    with_files (λ i, fset (fset (F i) minioMetaTmpBucket (prefix +:+ "/" +:+ xlMetaJSONFile) None)
                       dv (dst +:+ "/" +:+ xlMetaJSONFile) (Some (c i))) ds' n.
Proof.
  intros Hv Hdv Hne Hp Hcd HR HF. destruct quorum as (Hq & Hm & Hc). unfold commitXLMetadata.
  assert (Hcx : clean_path xlMetaJSONFile) by apply clean_path_plain, xlMetaJSON_plain.
  assert (Hcp : clean_path prefix) by (by apply clean_path_plain).
  destruct (commit_metas_ok minioMetaTmpBucket prefix dv dst ds n cls _
    (λ i, disk_has vols (fset (fset (F i) minioMetaTmpBucket (prefix +:+ "/" +:+ xlMetaJSONFile) None)
                       dv (dst +:+ "/" +:+ xlMetaJSONFile) (Some (c i)))) HR) as (ds' & errs & -> & Hds & He).
  { intros i d Hup Hd. rewrite !path_Join_clean by done. destruct (HF i) as (Hs & Hno & Hbelow & Hdst).
    destruct (disk_has_rename vols (F i) d minioMetaTmpBucket (prefix +:+ "/" +:+ xlMetaJSONFile) dv
      (dst +:+ "/" +:+ xlMetaJSONFile) (c i)) as (d' & -> & Hup' & Hd'); try done;
      try (by apply clean_path_app); [by left|].
    destruct (disk_has_delete_none vols _ d' minioMetaTmpBucket prefix Hup' Hd' Hv Hcp) as (d'' & e & Hdel & ? & ?).
    - rewrite fset_vol by done. rewrite fset_path; [done|]. intros E. symmetry in E. by apply slash_longer in E.
    - intros r. rewrite fset_vol by done. destruct (decide (r = xlMetaJSONFile)) as [->|Hr]; [apply fset_eq|].
      rewrite fset_path; [by apply Hbelow|]. by intros ?%slash_cancel.
    - exists d', d'', (Some e). by split_and!. }
  unfold write_quorum_result. destruct (up_quorum cls errs n wq He Hq Hm Hc) as [-> ->]. go_simpl. eauto.
Qed.

(** A directory that is deleted. *)
Lemma deleteObject_files (F : nat → files) fuel v s (ds : list (option D)) :
  v ∈ vols → clean_path s → with_files F ds n →
  (∀ i r, is_Some (F i v (s +:+ "/" +:+ r)) → (length (Split r "/") ≤ fuel)%nat) →
  ∃ ds' e, deleteObject (S fuel) wq ds v s = Ret (ds', e) ∧ with_files (λ i, fclear (F i) v s) ds' n.
Proof.
  intros Hv Hs HR HF.
  destruct (deleteObject_slots fuel wq v s ds n cls (λ i, disk_has vols (F i)) Hs HR) as (ds' & e & -> & Hds & _).
  { intros i d Hd. split; [by apply (dh_vols _ _ _ Hd)|]. intros r Hr. rewrite (dh_files _ _ _ Hd) in Hr. by eapply HF. }
  exists ds', e. split; [done|]. eapply slots_impl; [|exact Hds]. intros i d' (d & Hd & Hrem). by eapply disk_has_removed.
Qed.

End Commit.
