(* ===== verification/XLUpload.v ===== *)
(** * A part of an upload is stored

    The state of an upload on the disks, as the map from part numbers to their
    data, and [PutObjectPart]: with a write quorum of disks it adds the part to
    the upload on every disk that is up and changes nothing else. *)

From stdpp Require Import pretty.
From S2P Require Import Prelude.
From S2P Require Import GoErrors.
From S2P Require Import GoStrings.
From S2P Require Import Quorum.
From S2P Require Import Distribution.
From S2P Require Import XLMeta.
From S2P Require Import Storage.
From S2P Require Import Erasure.
From S2P Require Import ErasureSpec.
From S2P Require Import ErasureWrite.
From S2P Require Import Healing.
From S2P Require Import ObjCache.
From S2P Require Import ObjectNames.
From S2P Require Import DiskContract.
From S2P Require Import XLDisk.
From S2P Require Import XLCommon.
From S2P Require Import XLBucket.
From S2P Require Import XLObject.
From S2P Require Import XLPut.
From S2P Require Import XLStage.
From S2P Require Import XLPutGet.
From S2P Require Import XLMultipart.
From S2P Require Import XLFiles.

Local Open Scope Z_scope.

(** ** Names of parts *)

Lemma pretty_N_char_slash x : pretty_N_char x ≠ "/"%char.
Proof. unfold pretty_N_char. by repeat case_match. Qed.

Lemma pretty_go_slash x s : "/"%char ∉ bytes_of_string s → "/"%char ∉ bytes_of_string (pretty_N_go x s).
Proof.
  revert s. induction (N.lt_wf_0 x) as [x _ IH]. intros s Hs.
  assert (x = 0 ∨ 0 < x)%N as [->|?] by lia; [by rewrite pretty_N_go_0|].
  rewrite pretty_N_go_step by done. apply IH; [by apply N.div_lt|].
  change (bytes_of_string (String ?c s)) with (c :: bytes_of_string s).
  apply not_elem_of_cons. split; [|done]. intros E. by apply (pretty_N_char_slash (x `mod` 10)).
Qed.

Lemma pretty_Z_slash (z : Z) : "/"%char ∉ bytes_of_string (pretty z).
Proof.
  assert (Hp : ∀ x, "/"%char ∉ bytes_of_string (pretty_N_go x "")).
  { intros x. apply pretty_go_slash. apply not_elem_of_nil. }
  destruct z as [|z|z]; unfold pretty, pretty_Z.
  - apply (bool_decide_unpack _). by vm_compute.
  - apply Hp.
  - rewrite bytes_of_string_app, not_elem_of_app. split; [|apply Hp]. apply (bool_decide_unpack _). by vm_compute.
Qed.

Lemma part_name_plain N : plain_elem (part_name N).
Proof.
  unfold part_name. split_and!; try done. rewrite bytes_of_string_app, not_elem_of_app.
  split; [|apply pretty_Z_slash]. apply (bool_decide_unpack _). by vm_compute.
Qed.

Lemma part_name_inj N N' : part_name N = part_name N' → N = N'.
Proof. unfold part_name. intros E%str_app_inj_l. by apply (inj pretty). Qed.

Lemma part_name_meta N : part_name N ≠ xlMetaJSONFile.
Proof. done. Qed.

Lemma path_Join3_clean a b c : clean_path a → clean_path b → clean_path c →
  path_Join [a; b; c] = a +:+ "/" +:+ b +:+ "/" +:+ c.
Proof.
  intros Ha Hb Hc. rewrite <- path_Join_clean by (done || by apply clean_path_app).
  unfold path_Join. rewrite !filter_all; [done| |].
  - intros x. rewrite elem_of_cons, list_elem_of_singleton.
    intros [->| ->]; apply clean_path_ne; [done|by apply clean_path_app].
  - intros x. rewrite !elem_of_cons, elem_of_nil. intros [->|[->|[->|[]]]]; by apply clean_path_ne.
Qed.

Lemma pathJoin3_clean a b c : clean_path a → clean_path b → clean_path c →
  pathJoin [a; b; c] = a +:+ "/" +:+ b +:+ "/" +:+ c.
Proof.
  intros Ha Hb Hc. unfold pathJoin, slashSeparator. cbn [last]. rewrite clean_no_slash by done.
  rewrite str_app_nil_r. by apply path_Join3_clean.
Qed.

(** What is above a file is the directory of the file, or above it. *)
Lemma slash_ancestor s x a r : plain_elem x → s +:+ "/" +:+ x = a +:+ "/" +:+ r → ancestor a s.
Proof.
  intros Hx%plain_slash E. apply (f_equal (λ s, Split s "/")) in E. rewrite !Split_slash, (Split_plain x) in E by done.
  destruct (exists_last (Split_ne r)) as (l & y & Er). rewrite Er, app_assoc in E.
  apply app_inj_tail in E as [E _]. destruct (decide (l = [])) as [->|Hl].
  - left. rewrite app_nil_r in E. by rewrite <- (Join_Split a), <- E, Join_Split.
  - right. exists (Join l "/"). rewrite <- (Join_Split s), E, Join_app by (done || apply Split_ne). by rewrite Join_Split.
Qed.

(** ** The state of an upload *)

Section Upload.
Context `{JsonContract} `{MapOrder, Hashes} `{RS : ReedSolomon}.
Context {D : Type} `{!StorageAPI D} `{!StorageContract D} `{!Volumes D} `{!DiskContract D}.
Context (bitRotAlgo : string) (md5_Sum : bytes → bytes).
Context (k m : nat) `{!RSContract k m} (bs : nat) (bs_pos : (0 < bs)%nat).
Context (bucket object uploadID : string) (T : time) (dist : list Z) (cls : nat → disk_state).

Let n := (k + m)%nat.
Let tmp := minioMetaTmpBucket.
Let mpv := minioMetaMultipartBucket.

Definition upload_vols : list string := [bucket; minioMetaTmpBucket; minioMetaMultipartBucket].

(** The directory of the upload. *)
Definition upload_dir : string := bucket +:+ "/" +:+ object +:+ "/" +:+ uploadID.

Definition part_info (N : Z) (data : bytes) : objectPartInfo :=
  ObjectPartInfo N (part_name N) (hex_encode (md5_Sum data)) (zlen data).

(** The metadata of block [i] for the parts. *)
Record upload_meta (parts : gmap Z bytes) (i : nat) (mt : xlMetaV1) : Prop := {
  um_valid : IsValid mt = true;
  um_time : ModTime (Stat mt) = T;
  um_wf : parts_wf (Parts mt);
  um_parts : ∀ N, find_part (Parts mt) N = part_info N <$> parts !! N;
  um_data : DataBlocks (Erasure mt) = Z.of_nat k;
  um_parity : ParityBlocks (Erasure mt) = Z.of_nat m;
  um_block : BlockSize (Erasure mt) = Z.of_nat bs;
  um_dist : Distribution (Erasure mt) = dist;
  um_sums : ∀ N data, parts !! N = Some data →
    CkHash (GetCheckSumInfo bitRotAlgo (Erasure mt) (part_name N)) = file_checksum k m bs data bitRotAlgo i;
}.

(** The files of block [i]. *)
Record upload_files (parts : gmap Z bytes) (i : nat) (mt : xlMetaV1) (F : files) : Prop := {
  uf_meta : upload_meta parts i mt;
  uf_json : ∃ b, F minioMetaMultipartBucket (upload_dir +:+ "/" +:+ xlMetaJSONFile) = Some b ∧ json_Marshal mt = inl b;
  uf_parts : ∀ N data, parts !! N = Some data →
    F minioMetaMultipartBucket (upload_dir +:+ "/" +:+ part_name N) = Some (shard_file k m bs data i);
  uf_flat : ∀ r r', F minioMetaMultipartBucket (upload_dir +:+ "/" +:+ r +:+ "/" +:+ r') = None;
  uf_above : ∀ a, ancestor a upload_dir → F minioMetaMultipartBucket a = None;
}.

(** Nothing in the temporary volume uses the name. *)
Definition fresh_name (F : files) (id : string) : Prop :=
  F minioMetaTmpBucket id = None ∧ ∀ r, F minioMetaTmpBucket (id +:+ "/" +:+ r) = None.

(** What an upload needs of the disks and of the server. *)
Record upload_ready (xl : xlObjects D) : Prop := {
  ur_bucket : IsValidBucketName bucket = true;
  ur_plain : isMinioMetaBucketName bucket = false;
  ur_object : IsValidObjectName object = true;
  ur_clean : clean_path object;
  ur_id : plain_elem uploadID;
  ur_layout : dataBlocks xl = Z.of_nat k ∧ parityBlocks xl = Z.of_nat m;
  ur_range : 0 < Z.of_nat (k + m) < 2 ^ 32;
  ur_dist : dist ≡ₚ seqZ 1 (Z.of_nat (k + m));
  ur_quorum : (2 ≤ writeQuorum xl)%nat ∧ (k + m < 2 * writeQuorum xl)%nat ∧
    (writeQuorum xl ≤ count_good (λ i, is_up (cls i)) (k + m))%nat;
  ur_time : T ≠ timeSentinel;
  ur_marshal : ∀ mt, ∃ b, json_Marshal mt = inl b;
}.

Abbreviation by_slot F := (slots (λ s, slot_is (D := D) cls (λ i, disk_has upload_vols (F i)) (blk dist s))) (only parsing).
Abbreviation by_block c F := (slots (slot_is (D := D) c (λ i, disk_has upload_vols (F i)))) (only parsing).

Section Ready.
Context (xl : xlObjects D) (Hready : upload_ready xl).

Lemma bucket_plain : plain_elem bucket.
Proof. apply IsValidBucketName_plain; apply Hready. Qed.

Lemma bucket_ne : bucket ≠ tmp ∧ bucket ≠ mpv.
Proof. split; intros E; pose proof (ur_plain _ Hready) as Hp; rewrite E in Hp; by vm_compute in Hp. Qed.

Lemma tmp_in : tmp ∈ upload_vols.
Proof. right. left. Qed.

Lemma mpv_in : mpv ∈ upload_vols.
Proof. right. right. left. Qed.

Lemma upload_dir_clean : clean_path upload_dir.
Proof.
  unfold upload_dir. apply clean_path_app. split; [apply clean_path_plain, bucket_plain|].
  apply clean_path_app. split; [apply Hready|apply clean_path_plain, Hready].
Qed.

Lemma upload_dir_path : path_Join [bucket; object; uploadID] = upload_dir ∧ pathJoin [bucket; object; uploadID] = upload_dir.
Proof.
  assert (clean_path bucket) by apply clean_path_plain, bucket_plain.
  assert (clean_path uploadID) by apply clean_path_plain, Hready.
  split; [apply path_Join3_clean|apply pathJoin3_clean]; try done; apply Hready.
Qed.

Lemma upload_file_clean r : plain_elem r → clean_path (upload_dir +:+ "/" +:+ r).
Proof. intros Hr. apply clean_path_app. split; [apply upload_dir_clean|by apply clean_path_plain]. Qed.

Lemma some_slot_up : ∃ s, (s < n)%nat ∧ cls (blk dist s) = DiskUp.
Proof.
  destruct (ur_quorum _ Hready) as (Hq & _ & Hup). unfold count_good in Hup.
  destruct (filter _ _) as [|i l] eqn:E in Hup; [simpl in Hup; lia|].
  assert (Hi : i ∈ i :: l) by left. rewrite <- E in Hi. apply list_elem_of_filter in Hi as [Hc Hi].
  apply elem_of_seq in Hi. destruct (proj2 (blk_onto dist n (ur_dist _ Hready)) i) as (s & Hs & <-); [unfold n; lia|].
  exists s. split; [done|]. by destruct (cls (blk dist s)).
Qed.

Lemma slot_quorum : (writeQuorum xl ≤ count_good (λ s, is_up (cls (blk dist s))) n)%nat.
Proof. rewrite (count_good_blk dist n (λ i, is_up (cls i)) (ur_dist _ Hready)). apply (ur_quorum _ Hready). Qed.

Lemma by_slot_stable F : stable (λ s, disk_has (D := D) upload_vols (F (blk dist s) : files)).
Proof. intros s d d'. apply disk_has_same. Qed.

(** The files below the directory of an upload. *)
Lemma upload_free parts i mt F r : upload_files parts i mt F → plain_elem r →
  ffree F minioMetaMultipartBucket (upload_dir +:+ "/" +:+ r).
Proof.
  intros HF Hr. split.
  - intros a q E. apply (uf_above _ _ _ _ HF). by apply (slash_ancestor upload_dir r a q).
  - intros r'. rewrite <- !str_app_assoc. apply (uf_flat _ _ _ _ HF).
Qed.

Context (parts : gmap Z bytes) (mt : nat → xlMetaV1) (F : nat → files).
Context (HF : ∀ i, upload_files parts i (mt i) (F i)).

(** Files of the upload other than xl.json and the parts do not matter to its
    state. *)
Lemma uploads_exists now G ds : by_slot G ds n →
  (∀ i, G i minioMetaMultipartBucket (upload_dir +:+ "/" +:+ xlMetaJSONFile) =
        F i minioMetaMultipartBucket (upload_dir +:+ "/" +:+ xlMetaJSONFile)) →
  ∃ ds', isUploadIDExists now ds bucket object uploadID = Ret (ds', true) ∧ by_slot G ds' n.
Proof.
  intros HR HG. unfold isUploadIDExists. rewrite (proj1 upload_dir_path).
  destruct (isObject_ok (λ s, cls (blk dist s)) n (ur_range _ Hready) now ds mpv upload_dir
    (λ s, disk_has upload_vols (G (blk dist s))) (λ _, True) HR (by_slot_stable G)) as (ds' & ok & Heq & Hds & Hok).
  { intros s d Hd. split; [apply (dh_vols _ _ _ Hd), mpv_in|].
    rewrite path_Join_clean by (apply upload_dir_clean || apply clean_path_plain, xlMetaJSON_plain).
    rewrite (dh_files _ _ _ Hd). destruct (uf_json _ _ _ _ (HF (blk dist s))) as (b & Hb & _).
    unfold mpv. rewrite HG, Hb. by split. }
  exists ds'. assert (ok = true) as -> by (apply Hok; destruct some_slot_up as (s & ? & ?); eauto). done.
Qed.

Lemma bucket_exists now G ds : by_slot G ds n →
  ∃ ds' info, GetBucketInfo now ds bucket = Ret (ds', (info, None)) ∧ by_slot G ds' n.
Proof.
  intros HR. apply (GetBucketInfo_ok bucket (ur_bucket _ Hready) now ds n (λ s, cls (blk dist s))
    (λ s, disk_has upload_vols (G (blk dist s)))); [done|apply by_slot_stable| |apply some_slot_up|apply Hready].
  intros s d Hd. apply (dh_vols _ _ _ Hd). left.
Qed.

Lemma args_ok : checkPutObjectArgs (λ _, None) bucket object = None.
Proof. unfold checkPutObjectArgs, checkBucketExist. by rewrite (ur_bucket _ Hready), (ur_object _ Hready). Qed.

(** The deferred delete of a name that is not in use. *)
Lemma deferred_none fuel G id ds : plain_elem id → by_slot G ds n → (∀ i, fresh_name (G i) id) →
  ∃ ds', run_deferred (S fuel) (writeQuorum xl) ds [id] = Ret ds' ∧ by_slot G ds' n.
Proof.
  intros Hid HR Hfr. cbn [run_deferred].
  destruct (deleteObject_files upload_vols (λ s, cls (blk dist s)) n (writeQuorum xl) (λ s, G (blk dist s)) fuel
    minioMetaTmpBucket id ds tmp_in (clean_path_plain _ Hid) HR) as (ds' & e & -> & Hds).
  { intros i r. rewrite (proj2 (Hfr _)). by intros []. }
  go_simpl. exists ds'. split; [done|]. eapply (slots_impl (λ s, cls (blk dist s))); [|exact Hds].
  intros s d Hd. eapply disk_has_ext; [|exact Hd]. intros v p. unfold fclear. case_decide as E; [|done].
  destruct E as [-> [r ->]%HasPrefix_iff]. rewrite <- str_app_assoc. by rewrite (proj2 (Hfr _)).
Qed.

(** ** The commit of a part *)

(** The metadata of block [i] with the part, when the list of parts becomes
    [ps]. *)
Definition meta_with (ps : list objectPartInfo) (N : Z) (data : bytes) (i : nat) : xlMetaV1 :=
  set_index (set_erasure (set_parts (mt i) ps)
    (AddCheckSumInfo (Erasure (mt i)) (CheckSumInfo (part_name N) bitRotAlgo (file_checksum k m bs data bitRotAlgo i))))
    (Z.of_nat i + 1).

Definition json_of (x : xlMetaV1) : bytes := match json_Marshal x with inl b => b | inr _ => [] end.

Lemma json_of_ok x : json_Marshal x = inl (json_of x).
Proof. unfold json_of. by destruct (ur_marshal _ Hready x) as [b ->]. Qed.

(** The files with the part in place, and with the new metadata. *)
Definition with_part (N : Z) (data : bytes) (i : nat) : files :=
  fset (F i) minioMetaMultipartBucket (upload_dir +:+ "/" +:+ part_name N) (Some (shard_file k m bs data i)).

Definition with_meta (ps : list objectPartInfo) (N : Z) (data : bytes) (i : nat) : files :=
  fset (with_part N data i) minioMetaMultipartBucket (upload_dir +:+ "/" +:+ xlMetaJSONFile)
    (Some (json_of (meta_with ps N data i))).

Definition add_part (x : xlMetaV1) (N : Z) (data : bytes) : list objectPartInfo :=
  Parts (AddObjectPart x N (part_name N) (hex_encode (md5_Sum data)) (zlen data)).

Lemma upload_file_ne r r' : r ≠ r' → upload_dir +:+ "/" +:+ r ≠ upload_dir +:+ "/" +:+ r'.
Proof. intros Hne ?%slash_cancel. done. Qed.

Lemma ancestor_file_ne a r : ancestor a upload_dir → a ≠ upload_dir +:+ "/" +:+ r.
Proof.
  intros Ha ->. pose proof (ancestor_not_below _ _ Ha) as Hb. by rewrite below in Hb.
Qed.

(** The part is added to the upload. *)
Lemma with_meta_files j N data i :
  upload_files (<[N := data]> parts) i (meta_with (add_part (mt j) N data) N data i) (with_meta (add_part (mt j) N data) N data i).
Proof.
  destruct (HF i) as [[Hv Ht Hw Hp Hd Hpa Hb Hdi Hs] Hj Hfp Hflat Habove].
  destruct (HF j) as [[_ _ Hwj Hpj _ _ _ _ _] _ _ _ _].
  split.
  - split; try done.
    + by apply AddObjectPart_wf.
    + intros N'. unfold meta_with, add_part. simpl. rewrite AddObjectPart_find, Hpj by done.
      case_bool_decide as E; [subst N'; by rewrite lookup_insert_eq|]. by rewrite lookup_insert_ne.
    + intros N' data' Hl. unfold meta_with.
      change (Erasure (set_index ?x ?y)) with
        (ErasureInfo (Algorithm (Erasure x)) (DataBlocks (Erasure x)) (ParityBlocks (Erasure x)) (BlockSize (Erasure x)) y
           (Distribution (Erasure x)) (Checksum (Erasure x))).
      change (GetCheckSumInfo bitRotAlgo (ErasureInfo _ _ _ _ _ _ (Checksum ?e)) ?p) with (GetCheckSumInfo bitRotAlgo e p).
      cbn [set_erasure Erasure]. rewrite AddCheckSumInfo_get. cbn [CkName]. case_bool_decide as E.
      * apply part_name_inj in E. subst N'. rewrite lookup_insert_eq in Hl. by injection Hl as <-.
      * rewrite lookup_insert_ne in Hl by congruence. by apply Hs.
  - exists (json_of (meta_with (add_part (mt j) N data) N data i)). split; [apply fset_eq|apply json_of_ok].
  - intros N' data' Hl. unfold with_meta, with_part. rewrite fset_path by (apply upload_file_ne; done).
    destruct (decide (N' = N)) as [->|Hne].
    + rewrite lookup_insert_eq in Hl. injection Hl as <-. apply fset_eq.
    + rewrite lookup_insert_ne in Hl by done. rewrite fset_path; [by apply Hfp|]. apply upload_file_ne. by intros ?%part_name_inj.
  - intros r r'. unfold with_meta, with_part. rewrite !fset_path; [apply Hflat| |]; intros E%slash_cancel.
    + symmetry in E. by apply plain_ne_slash in E; [|apply part_name_plain].
    + symmetry in E. by apply plain_ne_slash in E; [|apply xlMetaJSON_plain].
  - intros a Ha. unfold with_meta, with_part. rewrite !fset_path by (by apply ancestor_file_ne). by apply Habove.
Qed.

Lemma part_metas_ok {A} ps suffix : ∀ (ds : list (option A)) metas sums,
  length metas = length ds → length sums = length ds →
  ∃ ms, part_metas bitRotAlgo ds metas sums ps suffix = Ret ms ∧ length ms = length ds ∧
    ∀ i d x sum, ds !! i = Some (Some d) → metas !! i = Some x → sums !! i = Some sum →
      ms !! i = Some (set_erasure (set_parts x ps) (AddCheckSumInfo (Erasure x) (CheckSumInfo suffix bitRotAlgo sum))).
Proof.
  induction ds as [|o ds IH]; intros [|x metas] [|sum sums] Hm Hs; try done.
  { exists []. done. }
  simpl in Hm, Hs. destruct (IH metas sums) as (ms & Heq & Hl & Hms); [lia|lia|]. cbn [part_metas tail]. rewrite Heq.
  destruct o as [o|]; go_simpl; eexists; (split; [done|]); (split; [simpl; lia|]).
  - intros [|i] d x' sum' Hd Hx Hsum; simplify_eq/=; [done|]. by eapply Hms.
  - intros [|i] d x' sum' Hd Hx Hsum; simplify_eq/=. by eapply Hms.
Qed.

Lemma add_part_stat x st N data :
  Parts (AddObjectPart (set_stat x st) N (part_name N) (hex_encode (md5_Sum data)) (zlen data)) = add_part x N data.
Proof. unfold add_part, AddObjectPart. simpl. by destruct (replace_part _ _). Qed.

Lemma with_part_meta N data i :
  with_part N data i mpv (upload_dir +:+ "/" +:+ xlMetaJSONFile) = F i mpv (upload_dir +:+ "/" +:+ xlMetaJSONFile).
Proof. apply fset_path, upload_file_ne. done. Qed.

Lemma fresh_with_part N data i id : fresh_name (F i) id → fresh_name (with_part N data i) id.
Proof. intros [Ha Hb]. split; intros; unfold with_part; by rewrite fset_vol. Qed.

Lemma fresh_with_meta ps N data i id : fresh_name (F i) id → fresh_name (with_meta ps N data i) id.
Proof. intros [Ha Hb]%(fresh_with_part N data). split; intros; unfold with_meta; by rewrite fset_vol. Qed.

Context (env : part_env) (N : Z) (data : bytes).
Context (tmp_plain : plain_elem (pe_tmpPart env)) (meta_plain : plain_elem (pe_tempXLMeta env)).
Context (tmp_fresh : ∀ i, fresh_name (F i) (pe_tmpPart env)) (meta_fresh : ∀ i, fresh_name (F i) (pe_tempXLMeta env)).
Context (later : pe_online env ≠ T ∧ pe_online2 env ≠ T).

Lemma online_quorum : (2 ≤ writeQuorum xl)%nat ∧ (n < 2 * writeQuorum xl)%nat ∧
  (writeQuorum xl ≤ count_good (λ i, is_up (online_cls cls i)) n)%nat.
Proof. rewrite online_count. apply Hready. Qed.

Lemma part_commit_ok fuel disks od cks P0 :
  by_block (online_cls cls) (with_part N data) od n → slots (λ s, slot_is cls P0 (blk dist s)) disks n →
  length cks = n → (∀ i, (i < n)%nat → cls i = DiskUp → cks !! i = Some (file_checksum k m bs data bitRotAlgo i)) →
  ∃ ds j, part_commit bitRotAlgo (S fuel) env xl disks dist od bucket object upload_dir (part_name N)
      (hex_encode (md5_Sum data)) N (zlen data) cks = Ret (set_disks xl ds, (hex_encode (md5_Sum data), None)) ∧
    by_slot (with_meta (add_part (mt j) N data) N data) ds n.
Proof.
  intros Hod Hdisks Hlc Hck. destruct online_quorum as (Hq & Hm & Hup). unfold part_commit.
  destruct (read_select (online_cls cls) (λ s, s) n minioMetaMultipartBucket upload_dir upload_dir_clean
    (λ i, disk_has upload_vols (with_part N data i)) (disk_has_stable _ _) mt T) with (ds := od) (wq := writeQuorum xl)
    as (od1 & metas & errs & -> & Hod1 & -> & Hlist & (j & Hpick) & Hlm & Hmetas); try done.
  { intros i d Hd. split; [apply (dh_vols _ _ _ Hd), mpv_in|].
    destruct (uf_json _ _ _ _ (HF i)) as (b & Hb & Hj). exists b. split; [|done].
    rewrite (dh_files _ _ _ Hd). fold mpv. by rewrite with_part_meta. }
  { intros i. apply HF. } { intros i. apply HF. } { apply Hready. }
  go_simpl. destruct (Hlist (pe_online2 env) (proj2 later)) as (online2 & -> & Hon2). go_simpl. rewrite Hpick.
  rewrite add_part_stat. set (ps := add_part (mt j) N data).
  destruct (part_metas_ok ps (part_name N) online2 metas cks) as (ms & -> & Hlms & Hms);
    [rewrite (proj1 Hon2); exact Hlm|rewrite (proj1 Hon2); exact Hlc|].
  go_simpl.
  assert (Hjson : ∀ i x, online_cls (online_cls cls) i = DiskUp → ms !! i = Some x →
    json_Marshal (set_index x (Z.of_nat i + 1)) = inl (json_of (meta_with ps N data i))).
  { intros i x Hc Hx. assert (Hi : (i < n)%nat) by (apply lookup_lt_Some in Hx; rewrite <- (proj1 Hon2); lia).
    pose proof (proj1 (online_DiskUp cls i) (proj1 (online_DiskUp (online_cls cls) i) Hc)) as Hu.
    destruct (slots_up (online_cls (online_cls cls)) _ online2 n i Hon2 Hi Hc) as (d & Hd & _).
    rewrite (Hms i d (mt i) _ Hd (Hmetas i Hi (proj2 (online_DiskUp cls i) Hu)) (Hck i Hi Hu)) in Hx.
    injection Hx as <-. apply json_of_ok. }
  assert (Hq2 : (2 ≤ writeQuorum xl)%nat ∧ (n < 2 * writeQuorum xl)%nat ∧
    (writeQuorum xl ≤ count_good (λ i, is_up (online_cls (online_cls cls) i)) n)%nat) by (by rewrite online_count).
  destruct (writeUnique_files upload_vols (online_cls (online_cls cls)) n (writeQuorum xl) Hq2 (with_part N data)
    (λ i, json_of (meta_with ps N data i)) (pe_tempXLMeta env) ms online2 tmp_in meta_plain Hon2)
    as (on3 & ms' & -> & Hon3); [rewrite Hlms; apply Hon2|done| |].
  { intros i. by apply fresh_with_part. }
  go_simpl.
  destruct (commit_files upload_vols (online_cls (online_cls cls)) n (writeQuorum xl) Hq2
    (λ i, fset (with_part N data i) minioMetaTmpBucket (pe_tempXLMeta env +:+ "/" +:+ xlMetaJSONFile)
            (Some (json_of (meta_with ps N data i))))
    (λ i, json_of (meta_with ps N data i)) (pe_tempXLMeta env) minioMetaMultipartBucket upload_dir on3 tmp_in mpv_in)
    as (on4 & -> & Hon4); [done|done|apply upload_dir_clean|exact Hon3| |].
  { intros i. destruct (fresh_with_part N data i _ (meta_fresh i)) as [Hno Hbelow]. split_and!.
    - apply fset_eq.
    - rewrite fset_path; [done|]. intros E. symmetry in E. by apply slash_longer in E.
    - intros r Hr. rewrite fset_path; [done|]. by intros ?%slash_cancel.
    - rewrite fset_vol by done. fold mpv. rewrite with_part_meta. destruct (uf_json _ _ _ _ (HF i)) as (b & Hb & _).
      unfold mpv. rewrite Hb. by eexists. }
  destruct (put_back_ok cls dist n (ur_dist _ Hready) P0 (λ i, disk_has upload_vols (with_meta ps N data i))
    (merge_disks on4 od1) disks) as (ds & -> & Hds); [|done|].
  { apply (merge_at_slots (online_cls cls) (λ s, s) (λ i, disk_has upload_vols (with_part N data i))); [|done].
    eapply slots_impl; [|exact Hon4]. intros i d Hd. eapply disk_has_ext; [|exact Hd].
    intros v p. unfold with_meta. unfold fset at 1 4. case_decide; [done|]. unfold fset at 1. case_decide as E.
    - injection E as -> ->. symmetry. by apply fresh_with_part.
    - unfold fset at 1. by rewrite decide_False. }
  go_simpl. unfold part_done.
  destruct (deferred_none fuel (with_meta ps N data) (pe_tmpPart env) ds tmp_plain Hds) as (ds' & -> & Hds').
  { intros i. by apply fresh_with_meta. }
  go_simpl. by exists ds', j.
Qed.

(** ** Staging a part *)

Definition tmp_part : string := pe_tmpPart env +:+ "/" +:+ part_name N.

(** The files while the part is staged. *)
Definition with_staged (i : nat) : files :=
  fset (F i) minioMetaTmpBucket tmp_part (Some (shard_file k m bs data i)).

Lemma tmp_part_clean : clean_path tmp_part.
Proof. apply clean_path_app. split; apply clean_path_plain; [done|apply part_name_plain]. Qed.

Lemma tmp_part_none i : F i tmp tmp_part = None.
Proof. apply tmp_fresh. Qed.

Lemma tmp_part_free i : ffree (F i) tmp tmp_part.
Proof.
  split.
  - intros a r E. apply slash_elem_inj in E as [-> _]; [apply tmp_fresh|done|apply part_name_plain].
  - intros r. unfold tmp_part. rewrite <- str_app_assoc. apply tmp_fresh.
Qed.

Context (size : Z) (md5Hex sha256sum : string).
Context (size_ok : size = zlen data ∨ size = -1).
Context (md5_ok : md5Hex = "" ∨ md5Hex = hex_encode (md5_Sum data)).
Context (sha_ok : sha256sum = "" ∨ sha256sum = hex_encode (sha256_Sum data)).

Lemma part_verify_ok fuel disks online P0 cks :
  by_slot with_staged disks n → slots (λ s, slot_is (online_cls cls) P0 (blk dist s)) online n →
  length cks = n → (∀ i, (i < n)%nat → cls i = DiskUp → cks !! i = Some (file_checksum k m bs data bitRotAlgo i)) →
  ∃ ds j, part_verify bitRotAlgo md5_Sum (S fuel) env xl disks online bucket object uploadID N size data md5Hex
      sha256sum dist (zlen data) cks = Ret (set_disks xl ds, (hex_encode (md5_Sum data), None)) ∧
    by_slot (with_meta (add_part (mt j) N data) N data) ds n.
Proof.
  intros Hdisks Honline Hlc Hck. unfold part_verify. rewrite (proj2 upload_dir_path).
  rewrite (proj2 (Z.ltb_ge (zlen data) size)) by (unfold zlen in *; lia).
  assert ((if size =? -1 then zlen data else size) = zlen data) as ->.
  { destruct size_ok as [->| ->]; [|done]. by destruct (_ =? -1). }
  assert (negb (bool_decide (md5Hex = "")) && negb (bool_decide (hex_encode (md5_Sum data) = md5Hex)) = false) as ->.
  { destruct md5_ok as [->| ->]; [done|].
    by rewrite (bool_decide_true (hex_encode (md5_Sum data) = hex_encode (md5_Sum data))), andb_false_r. }
  assert (negb (bool_decide (sha256sum = "")) && negb (bool_decide (hex_encode (sha256_Sum data) = sha256sum)) =
            false) as ->.
  { destruct sha_ok as [->| ->]; [done|].
    by rewrite (bool_decide_true (hex_encode (sha256_Sum data) = hex_encode (sha256_Sum data))), andb_false_r. }
  destruct (uploads_exists (pe_again env) with_staged disks Hdisks) as (ds1 & -> & Hds1).
  { intros i. unfold with_staged. by rewrite fset_vol. }
  go_simpl. destruct (take_online_ok cls dist n (ur_dist _ Hready) P0 _ online ds1 Honline Hds1) as (od & -> & Hod).
  go_simpl.
  rewrite !path_Join_clean by (apply upload_dir_clean || apply clean_path_plain; (apply part_name_plain || done)).
  fold tmp_part.
  destruct (renamePart_files upload_vols (online_cls cls) n (writeQuorum xl) online_quorum with_staged
    (shard_file k m bs data) minioMetaTmpBucket tmp_part minioMetaMultipartBucket
    (upload_dir +:+ "/" +:+ part_name N) od tmp_in mpv_in) as (od1 & -> & Hod1);
    [done|apply tmp_part_clean|apply upload_file_clean, part_name_plain|exact Hod| |].
  { intros i. split; [apply fset_eq|]. right.
    destruct (upload_free _ _ _ _ _ (HF i) (part_name_plain N)) as [Ha Hb]. unfold with_staged. split.
    - intros a r E. rewrite fset_vol by done. by apply (Ha a r).
    - intros r. rewrite fset_vol by done. apply Hb. }
  apply (part_commit_ok fuel ds1 od1 cks (λ i, disk_has upload_vols (with_staged i))); [|done|done|done].
  eapply slots_impl; [|exact Hod1]. intros i d Hd. eapply disk_has_ext; [|exact Hd]. intros v p.
  unfold with_part, with_staged, fset. case_decide; [done|]. case_decide as E; [|done]. injection E as -> ->.
  symmetry. apply tmp_part_none.
Qed.

(** With a write quorum of disks the part is added to the upload on all disks
    that are up. *)
Lemma PutObjectPart_ok fuel :
  by_slot F (storageDisks xl) n → (nblocks bs data < S fuel)%nat →
  ∃ ds j, PutObjectPart bitRotAlgo md5_Sum (S fuel) env xl bucket object uploadID N size
      {| rd_data := data; rd_err := io_EOF : error |} md5Hex sha256sum =
      Ret (set_disks xl ds, (hex_encode (md5_Sum data), None)) ∧
    by_slot (with_meta (add_part (mt j) N data) N data) ds n.
Proof.
  intros HR Hfuel. destruct (ur_quorum _ Hready) as (Hq & Hm & Hup). unfold PutObjectPart.
  destruct (bucket_exists (pe_bucket env) F _ HR) as (ds0 & info & -> & Hds0). go_simpl.
  change (checkPutObjectPartArgs ?f bucket object) with (checkPutObjectArgs f bucket object). rewrite args_ok.
  destruct (uploads_exists (pe_exists env) F ds0 Hds0 ltac:(done)) as (ds1 & -> & Hds1). go_simpl.
  rewrite (proj2 upload_dir_path).
  destruct (read_select cls (blk dist) n minioMetaMultipartBucket upload_dir upload_dir_clean
    (λ i, disk_has upload_vols (F i)) (disk_has_stable _ _) mt T) with (ds := ds1) (wq := writeQuorum xl)
    as (ds2 & metas & errs & -> & Hds2 & -> & Hlist & (j & Hpick) & Hlm & Hmetas); try done.
  { intros i d Hd. split; [apply (dh_vols _ _ _ Hd), mpv_in|].
    destruct (uf_json _ _ _ _ (HF i)) as (b & Hb & Hj). exists b. split; [|done]. by rewrite (dh_files _ _ _ Hd). }
  { intros i. apply HF. } { intros i. apply HF. } { apply Hready. } { apply slot_quorum. }
  go_simpl. destruct (Hlist (pe_online env) (proj1 later)) as (online & -> & Hon). go_simpl. rewrite Hpick.
  destruct (uf_meta _ _ _ _ (HF j)) as [_ _ _ _ Hdb _ Hbs Hdist _]. rewrite Hdist, Hbs, Nat2Z.id.
  destruct (ordered_slots dist online n _ (ur_dist _ Hready) Hon) as (od & -> & Hod). go_simpl.
  unfold getOrderedPartsMetadata.
  destruct (scatter_perm dist n metas xlMetaV1_zero (ur_dist _ Hready) Hlm) as (om & -> & _). go_simpl.
  rewrite path_Join_clean by (apply clean_path_plain; (apply part_name_plain || done)). fold tmp_part.
  assert ((if 0 <? size then io_LimitReader {| rd_data := data; rd_err := io_EOF : error |} size
           else {| rd_data := data; rd_err := io_EOF : error |}) =
          {| rd_data := data; rd_err := io_EOF : error |}) as ->.
  { destruct (Z.ltb_spec 0 size) as [E|E]; [|done]. unfold io_LimitReader, zlen in *. simpl.
    rewrite take_ge by lia. by destruct (size <=? _). }
  destruct (prepare_files upload_vols k m (online_cls cls) F tmp_part tmp_in tmp_part_clean tmp_part_free tmp_part_none
    size (Erasure (mt j)) od) as (od1 & Hprep & Hod1); [rewrite Hbs; lia|rewrite Hdb, Nat2Z.id; apply rs_k_pos|done|].
  rewrite Hprep. go_simpl. destruct (ur_layout _ Hready) as [-> ->].
  destruct online_quorum as (_ & _ & Hupo).
  destruct (create_files upload_vols k m (online_cls cls) F tmp_part tmp_in tmp_part_clean tmp_part_free
    (S fuel) bs data bitRotAlgo (writeQuorum xl) od1 bs_pos Hod1 Hfuel Hq Hm Hupo) as (od2 & cks & -> & Hod2 & Hlc & Hck).
  go_simpl.
  destruct (put_back_ok cls dist n (ur_dist _ Hready) _ _ od2 ds2 Hod2 Hds2) as (ds3 & -> & Hds3). go_simpl.
  apply (part_verify_ok fuel ds3 online (λ i, disk_has upload_vols (F i))); [done|done|done|].
  intros i Hi Hc. apply Hck; [done|]. by apply online_DiskUp.
Qed.

End Ready.

End Upload.
