(* ===== verification/XLUploads.v ===== *)
(** * uploads.json on the disks

    [updateUploadJSON] with a write quorum of disks: on every disk that is up
    uploads.json gains or loses the upload, it is removed with its last upload,
    and no other file changes. *)

From stdpp Require Import pretty.
From S2P Require Import Prelude.
From S2P Require Import GoErrors.
From S2P Require Import GoStrings.
From S2P Require Import Quorum.
From S2P Require Import Distribution.
From S2P Require Import XLMeta.
From S2P Require Import Storage.
From S2P Require Import ErasureSpec.
From S2P Require Import ErasureWrite.
From S2P Require Import ObjectNames.
From S2P Require Import DiskContract.
From S2P Require Import XLDisk.
From S2P Require Import XLCommon.
From S2P Require Import XLObject.
From S2P Require Import XLPut.
From S2P Require Import XLStage.
From S2P Require Import XLPutGet.
From S2P Require Import XLMultipart.
From S2P Require Import XLFiles.
From S2P Require Import XLUpload.

Local Open Scope Z_scope.

(** What is relied on of the encoding: it is total, and it is read back.  This is
    so for identifiers in valid UTF-8, which those of [mustGetUUID] are, and times
    with a year of four digits; the uploads of the theorems are taken to be of
    this kind. *)
Class UploadsContract `{UploadsJson} : Prop := {
  uploads_total : ∀ u, ∃ b, uploads_Marshal u = inl b;
  uploads_back : ∀ u b, uploads_Marshal u = inl b → uploads_Unmarshal b = inl u;
}.

Lemma uploadsJSON_plain : plain_elem uploadsJSONFile.
Proof. split_and!; try done. by apply (bool_decide_unpack _); vm_compute. Qed.

Section Uploads.
Context `{UC : UploadsContract} `{!UploadsSort, !MapOrder}.
Context {D : Type} `{!StorageAPI D} `{!StorageContract D} `{!Volumes D} `{!DiskContract D}.
Context (bucket object uploadID tmpUploads : string) (initiated : time) (isRemove : bool).
Context (bucket_plain : plain_elem bucket) (object_clean : clean_path object) (tmp_plain : plain_elem tmpUploads).
Context (cls : nat → disk_state) (n wq : nat).
Context (quorum : (2 ≤ wq)%nat ∧ (n < 2 * wq)%nat ∧ (wq ≤ count_good (λ i, is_up (cls i)) n)%nat).

Let tmp := minioMetaTmpBucket.
Let mpv := minioMetaMultipartBucket.

Definition uploads_path : string := bucket +:+ "/" +:+ object +:+ "/" +:+ uploadsJSONFile.

(** The uploads of the object on a disk. *)
Definition uploads_of (c : option bytes) : option uploadsV1 :=
  match c with
  | None => Some (newUploadsV1 "xl")
  | Some b => match uploads_Unmarshal b with inl u => Some u | inr _ => None end
  end.

(** uploads.json after the update. *)
Definition updated (u : uploadsV1) : uploadsV1 :=
  if isRemove then RemoveUploadID u uploadID else AddUploadID u uploadID initiated.

Definition emptied (u : uploadsV1) : bool := isRemove && match Uploads (updated u) with [] => true | _ => false end.

Definition uploads_json (u : uploadsV1) : option bytes :=
  if emptied u then None else match uploads_Marshal (updated u) with inl b => Some b | inr _ => None end.

Context (F : nat → files) (u : nat → uploadsV1).
Context (F_uploads : ∀ i, uploads_of (F i minioMetaMultipartBucket uploads_path) = Some (u i)).
Context (F_present : ∀ i, isRemove = true → is_Some (F i minioMetaMultipartBucket uploads_path)).
Context (F_free : ∀ i, ffree (F i) minioMetaMultipartBucket uploads_path).
Context (F_fresh : ∀ i, fresh_name (F i) tmpUploads).

Lemma uploads_path_ok : path_Join [bucket; object; uploadsJSONFile] = uploads_path ∧ clean_path uploads_path.
Proof.
  assert (clean_path bucket) by (by apply clean_path_plain).
  assert (clean_path uploadsJSONFile) by apply clean_path_plain, uploadsJSON_plain.
  split; [by apply path_Join3_clean|]. apply clean_path_app. split; [done|by apply clean_path_app].
Qed.

Lemma tmp_free i : ffree (F i) tmp tmpUploads.
Proof. split; [|apply F_fresh]. intros a r E. by apply plain_ne_slash in E. Qed.

(** The files after the update of a disk; a deleted file waits in the temporary
    volume. *)
Definition after_update (i : nat) : files :=
  fset (fset (F i) minioMetaMultipartBucket uploads_path (uploads_json (u i))) minioMetaTmpBucket tmpUploads
    (if emptied (u i) then F i minioMetaMultipartBucket uploads_path else None).

Context (vols : list string) (tmp_vol : minioMetaTmpBucket ∈ vols) (mpv_vol : minioMetaMultipartBucket ∈ vols).

Lemma writeUploadJSON_ok i (d : D) : up d → disk_has vols (F i) d → emptied (u i) = false →
  ∃ d', writeUploadJSON (updated (u i)) uploads_path tmpUploads d = (d', None) ∧ up d' ∧ disk_has vols (after_update i) d'.
Proof.
  intros Hup Hd He. unfold writeUploadJSON. destruct (uploads_total (updated (u i))) as [b Hb]. rewrite Hb.
  destruct (disk_has_append vols (F i) d tmp tmpUploads b Hup Hd tmp_vol (clean_path_plain _ tmp_plain) (tmp_free i))
    as (d1 & Ha & Hup1 & Hd1). unfold tmp in Ha. rewrite Ha. destruct uploads_path_ok as [_ Hc].
  destruct (disk_has_rename vols _ d1 tmp tmpUploads mpv uploads_path b Hup1 Hd1 tmp_vol mpv_vol) as (d2 & Hr & Hup2 & Hd2).
  - done.
  - by apply clean_path_plain.
  - done.
  - rewrite fset_eq. f_equal. unfold tmp. by rewrite (proj1 (F_fresh i)).
  - right. destruct (F_free i) as [Ha' Hb']. split; intros; unfold mpv; rewrite fset_vol by done; [by eapply Ha'|apply Hb'].
  - unfold tmp, mpv in Hr. rewrite Hr. exists d2. split_and!; [done|done|]. eapply disk_has_ext; [|exact Hd2].
    intros v p. unfold after_update, uploads_json, fset. rewrite He, Hb. fold mpv tmp.
    repeat case_decide; simplify_eq; done.
Qed.

Lemma deleteUploads_ok i (d : D) : up d → disk_has vols (F i) d → emptied (u i) = true →
  ∃ d', RenameFile d minioMetaMultipartBucket uploads_path minioMetaTmpBucket tmpUploads = (d', None) ∧ up d' ∧
    disk_has vols (after_update i) d'.
Proof.
  intros Hup Hd He. destruct uploads_path_ok as [_ Hc]. assert (Hrem : isRemove = true) by (unfold emptied in He; by destruct isRemove).
  destruct (F_present i Hrem) as [c Hp].
  destruct (disk_has_rename vols (F i) d mpv uploads_path tmp tmpUploads c Hup Hd mpv_vol tmp_vol) as (d2 & Hr & Hup2 & Hd2);
    [done|done|by apply clean_path_plain|done|right; apply tmp_free|].
  exists d2. split_and!; [done|done|]. eapply disk_has_ext; [|exact Hd2].
  intros v p. unfold after_update, uploads_json, fset. rewrite He, Hp. fold mpv tmp.
  repeat case_decide; simplify_eq; done.
Qed.

Lemma update_uploads_ok i (d : D) : up d → disk_has vols (F i) d →
  ∃ d', update_uploads bucket object uploadID initiated isRemove tmpUploads d = (d', (emptied (u i), None)) ∧
    up d' ∧ disk_has vols (after_update i) d'.
Proof.
  intros Hup Hd. unfold update_uploads, readUploadsJSON. destruct uploads_path_ok as [-> Hc].
  destruct (up_ReadAll d minioMetaMultipartBucket uploads_path Hup (dh_vols _ _ _ Hd _ mpv_vol))
    as (d1 & r & -> & Hup1 & Hs & ->). rewrite (dh_files _ _ _ Hd).
  apply (disk_has_same _ _ _ _ Hd) in Hs as Hd1. pose proof (F_uploads i) as Hu.
  assert (Hend : ∃ d',
    (let uploadsJSON := if isRemove then RemoveUploadID (u i) uploadID else AddUploadID (u i) uploadID initiated in
     let isDelete := isRemove && match Uploads uploadsJSON with [] => true | _ => false end in
     if negb isDelete
     then let '(disk, err) := writeUploadJSON uploadsJSON uploads_path tmpUploads d1 in (disk, (false, err))
     else let '(disk, wErr) := RenameFile d1 minioMetaMultipartBucket uploads_path minioMetaTmpBucket tmpUploads in
          (disk, (true, traceError wErr []))) = (d', (emptied (u i), None)) ∧ up d' ∧ disk_has vols (after_update i) d').
  { cbv zeta. fold (updated (u i)). fold (emptied (u i)). destruct (emptied (u i)) eqn:He; cbn [negb].
    - destruct (deleteUploads_ok i d1 Hup1 Hd1 He) as (d' & -> & ? & ?). eauto.
    - destruct (writeUploadJSON_ok i d1 Hup1 Hd1 He) as (d' & -> & ? & ?). eauto. }
  destruct (F i minioMetaMultipartBucket uploads_path) as [b|]; simpl in Hu.
  - destruct (uploads_Unmarshal b) as [u'|]; [|done]. injection Hu as ->. exact Hend.
  - injection Hu as Hu. destruct Hend as (d' & Heq & Hrest). exists d'. split; [|exact Hrest]. by rewrite <- Heq, <- Hu.
Qed.

(** A disk that is down stays down and is not deleted from. *)
Lemma update_uploads_down (d : D) : down d →
  ∃ d' e, update_uploads bucket object uploadID initiated isRemove tmpUploads d = (d', (false, Some e)) ∧ down d'.
Proof.
  intros Hd. unfold update_uploads, readUploadsJSON. destruct uploads_path_ok as [-> _].
  destruct (down_ReadAll d minioMetaMultipartBucket uploads_path Hd) as (d' & b & e & -> & Hd' & He).
  unfold disk_err, baseErrs in He. rewrite !elem_of_cons in He.
  destruct He as [[= ->]|[[= ->]|[[= ->]|[]%not_elem_of_nil]]]; (eexists d', _; split; [reflexivity|exact Hd']).
Qed.

(** The purge of the deleted files. *)
Definition purged (i : nat) : files := fset (F i) minioMetaMultipartBucket uploads_path (uploads_json (u i)).

Lemma update_all_ok : ∀ (ds : list (option D)) c cl (P Q : nat → D → Prop) (del : nat → bool),
  slots (slot_is cl P) ds c →
  (∀ i d, up d → P i d → ∃ d', update_uploads bucket object uploadID initiated isRemove tmpUploads d = (d', (del i, None)) ∧
     up d' ∧ Q i d') →
  ∃ ds' dels errs, update_all bucket object uploadID initiated isRemove tmpUploads ds = (ds', (dels, errs)) ∧
    slots (slot_is cl Q) ds' c ∧ up_nil cl errs c ∧ length dels = c ∧
    ∀ i b, dels !! i = Some b → b = match cl i with DiskUp => del i | _ => false end.
Proof.
  induction ds as [|x ds IH]; intros c cl P Q del HR Hstep.
  { apply slots_nil_inv in HR as ->. exists [], [], []. split_and!; [done|by split| |done|done]. split; [done|lia]. }
  apply slots_cons_inv in HR as (c' & -> & Hx & HR). cbn [update_all].
  destruct (IH c' (λ i, cl (S i)) (λ i, P (S i)) (λ i, Q (S i)) (λ i, del (S i)) HR)
    as (ds' & dels & errs & -> & Hds & He & Hl & Hdel).
  { intros i. apply (Hstep (S i)). }
  assert (Hcons : ∀ y b e, slot_is cl Q 0 y → (cl 0%nat = DiskUp → e = None) →
    b = match cl 0%nat with DiskUp => del 0%nat | _ => false end →
    ∃ ds'' dels' errs', (y :: ds', (b :: dels, e :: errs)) = (ds'', (dels', errs')) ∧ slots (slot_is cl Q) ds'' (S c') ∧
      up_nil cl errs' (S c') ∧ length dels' = S c' ∧
      ∀ i b, dels' !! i = Some b → b = match cl i with DiskUp => del i | _ => false end).
  { intros y b e Hy Hye Hb. eexists _, _, _. split; [done|]. split; [by apply slots_cons|].
    split; [by apply up_nil_cons|]. split; [simpl; lia|]. intros [|i] b' Hb'; [by simplify_eq/=|]. by apply Hdel. }
  unfold slot_is in Hx. destruct (cl 0%nat) eqn:Hc; destruct x as [d|]; try done.
  - destruct Hx as [Hup HP]. destruct (Hstep _ _ Hup HP) as (d' & -> & Hup' & HQ).
    apply Hcons; [unfold slot_is; by rewrite Hc|done|done].
  - destruct (update_uploads_down d Hx) as (d' & e & -> & Hd'). apply Hcons; [unfold slot_is; by rewrite Hc|done|done].
  - apply Hcons; [unfold slot_is; by rewrite Hc|done|done].
Qed.

Lemma purge_uploads_ok : ∀ (ds : list (option D)) c cl (P Q : nat → D → Prop) dels,
  slots (slot_is cl P) ds c → length dels = c →
  (∀ i d, up d → P i d → dels !! i = Some true → up (DeleteFile d minioMetaTmpBucket tmpUploads).1 ∧
     Q i (DeleteFile d minioMetaTmpBucket tmpUploads).1) →
  (∀ i d, P i d → cl i = DiskUp → dels !! i = Some false → Q i d) →
  slots (slot_is cl Q) (purge_uploads tmpUploads ds dels) c.
Proof.
  induction ds as [|x ds IH]; intros c cl P Q dels HR Hl Hdel Hkeep.
  { apply slots_nil_inv in HR as ->. by destruct dels. }
  apply slots_cons_inv in HR as (c' & -> & Hx & HR). destruct dels as [|b dels]; [done|].
  assert (Hrest : slots (slot_is (λ i, cl (S i)) (λ i, Q (S i))) (purge_uploads tmpUploads ds dels) c').
  { apply (IH c' (λ i, cl (S i)) (λ i, P (S i))); [done|simpl in Hl; lia| |].
    - intros i d Hup HP Hd. by apply (Hdel (S i)).
    - intros i d HP Hc Hd. by apply (Hkeep (S i)). }
  assert (Hy : slot_is cl Q 0 (match x, b with Some d, true => Some (DeleteFile d minioMetaTmpBucket tmpUploads).1 | _, _ => x end)).
  { unfold slot_is in *. destruct (cl 0%nat) eqn:Hc, x as [d|]; try done; destruct b.
    - destruct Hx as [Hup HP]. by apply Hdel.
    - destruct Hx as [Hup HP]. split; [done|]. by apply Hkeep.
    - destruct (down_DeleteFile d minioMetaTmpBucket tmpUploads Hx) as (d' & e & -> & Hd'). exact Hd'.
    - done. }
  destruct x as [d|]; [destruct b|]; cbn [purge_uploads]; by apply slots_cons.
Qed.

(** The files of the disks after the update. *)
Lemma updateUploadJSON_ok (ds : list (option D)) :
  slots (slot_is cls (λ i, disk_has vols (F i))) ds n →
  ∃ ds', updateUploadJSON tmpUploads ds wq bucket object uploadID initiated isRemove = (ds', None) ∧
    slots (slot_is cls (λ i, disk_has vols (purged i))) ds' n.
Proof.
  intros HR. destruct quorum as (Hq & Hm & Hc). unfold updateUploadJSON.
  destruct (update_all_ok ds n cls _ (λ i, disk_has vols (after_update i)) (λ i, emptied (u i)) HR)
    as (ds1 & dels & errs & -> & Hds1 & He & Hl & Hdels).
  { intros i d. apply update_uploads_ok. }
  destruct (up_quorum cls errs n wq He Hq Hm Hc) as [-> ->]. cbn [negb]. eexists. split; [done|].
  apply (purge_uploads_ok ds1 n cls (λ i, disk_has vols (after_update i))); [done|done| |].
  - intros i d Hup Hd Hdel. apply Hdels in Hdel. assert (Hem : emptied (u i) = true) by (by destruct (cls i)).
    assert (Hrem : isRemove = true) by (unfold emptied in Hem; by destruct isRemove).
    destruct (F_present i Hrem) as [c Hp].
    destruct (disk_has_delete vols _ d tmp tmpUploads Hup Hd tmp_vol) as (d' & Hd' & Hup' & Hh').
    { unfold after_update. rewrite Hem. fold tmp. rewrite fset_eq, Hp. by eexists. }
    unfold tmp in Hd'. rewrite Hd'. split; [done|]. eapply disk_has_ext; [|exact Hh'].
    intros v p. unfold after_update, purged. fold tmp. rewrite fset_fset. unfold fset at 1. case_decide as E; [|done].
    injection E as -> ->. rewrite fset_vol by done. symmetry. apply F_fresh.
  - intros i d Hd Hci Hdel. apply Hdels in Hdel. rewrite Hci in Hdel. eapply disk_has_ext; [|exact Hd].
    intros v p. unfold after_update, purged. rewrite <- Hdel. unfold fset at 1. case_decide as E; [|done].
    injection E as -> ->. rewrite fset_vol by done. symmetry. apply F_fresh.
Qed.

End Uploads.
