(* ===== verification/XLComplete.v ===== *)
(** * A completed upload is an object

    [CompleteMultipartUpload]: with a write quorum of disks the named parts of an
    upload, in the order of the request, become the object, whatever was stored
    under its name before, and [GetObject] returns their data one after the
    other. *)

From stdpp Require Import pretty.
From S2P Require Import Prelude.
From S2P Require Import GoErrors.
From S2P Require Import GoStrings.
From S2P Require Import Quorum.
From S2P Require Import Distribution.
From S2P Require Import XLMeta.
From S2P Require Import Storage.
From S2P Require Import Bpool.
From S2P Require Import Erasure.
From S2P Require Import ErasureSpec.
From S2P Require Import ErasureRead.
From S2P Require Import ErasureWrite.
From S2P Require Import Healing.
From S2P Require Import ObjCache.
From S2P Require Import ObjectNames.
From S2P Require Import DiskContract.
From S2P Require Import XLDisk.
From S2P Require Import XLCommon.
From S2P Require Import XLBucket.
From S2P Require Import XLObject.
From S2P Require Import XLPut.
From S2P Require Import XLStage.
From S2P Require Import XLPutGet.
From S2P Require Import XLMultipart.
From S2P Require Import XLFiles.
From S2P Require Import XLUpload.
From S2P Require Import XLUploads.

Local Open Scope Z_scope.

(** ** The checksum of the upload *)

Lemma hex_byte_back (c : byte) :
  match hex_value (hex_digit (N_of_ascii c / 16)%N), hex_value (hex_digit (N_of_ascii c `mod` 16)%N) with
  | Some h, Some l => ascii_of_N (Z.to_N (16 * h + l)) = c
  | _, _ => False
  end.
Proof. by destruct c as [[] [] [] [] [] [] [] []]. Qed.

(** Decoding the hexadecimal form gives the bytes back. *)
Lemma hex_round_trip b : hex_DecodeString (bytes_of_string (hex_encode b)) = inl b.
Proof.
  induction b as [|c b IH]; [done|]. cbn [hex_encode].
  change (bytes_of_string (String ?x (String ?y ?s))) with (x :: y :: bytes_of_string s). cbn [hex_DecodeString].
  pose proof (hex_byte_back c) as Hc. destruct (hex_value _) as [h|]; [|done].
  destruct (hex_value (hex_digit (N_of_ascii c `mod` 16)%N)) as [l|]; [|done]. by rewrite IH, Hc.
Qed.

Section Parts.
Context (md5_Sum : bytes → bytes).

(** The request for a part. *)
Definition req_part (r : Z * bytes) : completePart :=
  {| cp_PartNumber := r.1; cp_ETag := hex_encode (md5_Sum r.2) |}.

Lemma part_md5s_ok reqs : part_md5s (req_part <$> reqs) = inl (concat ((λ r : Z * bytes, md5_Sum r.2) <$> reqs)).
Proof. induction reqs as [|r reqs IH]; [done|]. cbn -[hex_DecodeString bytes_of_string]. by rewrite hex_round_trip, IH. Qed.

Lemma objectPartIndex_from_find l N p : ∀ j, find_part l N = Some p →
  ∃ i, objectPartIndex_from j l N = j + Z.of_nat i ∧ l !! i = Some p.
Proof.
  unfold find_part. induction l as [|q l IH]; intros j Hf; [done|]. cbn [objectPartIndex_from list_find] in *.
  destruct (decide (Number q = N)) as [E|E].
  - injection Hf as <-. rewrite (proj2 (Z.eqb_eq N (Number q))) by done.
    exists 0%nat. split; [lia|done].
  - rewrite (proj2 (Z.eqb_neq N (Number q))) by done.
    destruct (list_find _ l) as [[i' q']|] eqn:El; [|done]. simpl in Hf. injection Hf as ->.
    destruct (IH (j + 1)) as (i & Hi & Hl); [done|]. exists (S i). split; [lia|done].
Qed.

Lemma objectPartIndex_find l N p : find_part l N = Some p →
  ∃ i, objectPartIndex l N = Z.of_nat i ∧ l !! i = Some p.
Proof. intros Hf. destruct (objectPartIndex_from_find l N p 0 Hf) as (i & Hi & Hl). exists i. by rewrite Z.add_0_l in Hi. Qed.

(** The parts of a request exist, are not empty and, but for the last, big
    enough. *)
Definition req_ok (parts : gmap Z bytes) (reqs : list (Z * bytes)) : Prop :=
  Forall (λ r, parts !! r.1 = Some r.2 ∧ (0 < length r.2)%nat) reqs ∧
  ∀ i r, reqs !! i = Some r → (S i < length reqs)%nat → minPartSize ≤ zlen r.2.

Lemma complete_parts_ok parts current :
  (∀ N, find_part current N = part_info md5_Sum N <$> parts !! N) →
  ∀ reqs sz, req_ok parts reqs → 0 ≤ sz → is_int64 (sz + zlen (concat reqs.*2)) →
  complete_parts current (req_part <$> reqs) sz =
    inl ((λ r, part_info md5_Sum r.1 r.2) <$> reqs, sz + zlen (concat reqs.*2)).
Proof.
  intros Hfind. induction reqs as [|[N data] reqs IH]; intros sz [Hall Hbig] Hsz Hi.
  { simpl. by rewrite Z.add_0_r. }
  apply Forall_cons in Hall as [[Hp Hpos] Hall]. simpl in Hp, Hpos. rewrite !fmap_cons. cbn [complete_parts].
  assert (Hf : find_part current N = Some (part_info md5_Sum N data)) by (by rewrite Hfind, Hp).
  destruct (objectPartIndex_find _ _ _ Hf) as (i & Hidx & Hl). cbn [req_part cp_PartNumber cp_ETag fst snd].
  rewrite Hidx.
  rewrite (proj2 (Z.eqb_neq (Z.of_nat i) (-1))), Nat2Z.id, Hl by lia. cbn [part_info ETag PartSize].
  rewrite (bool_decide_true (hex_encode (md5_Sum data) = _)) by done. cbn [negb].
  assert (Hlast : match req_part <$> reqs with [] => true | _ => false end = bool_decide (reqs = [])).
  { by destruct reqs. }
  rewrite Hlast.
  assert (negb (bool_decide (reqs = [])) && negb (isMinAllowedPartSize (zlen data)) = false) as ->.
  { case_bool_decide as E; [done|]. unfold isMinAllowedPartSize. rewrite (proj2 (Z.leb_le _ _)); [done|].
    apply (Hbig 0%nat (N, data)); [done|]. destruct reqs; [done|simpl; lia]. }
  rewrite (proj2 (Z.eqb_neq (zlen data) 0)), andb_false_r by (unfold zlen; lia).
  cbn [concat fmap list_fmap snd] in Hi |- *. unfold zlen in *. rewrite length_app, Nat2Z.inj_add in Hi |- *.
  rewrite int64_wrap_id by (unfold is_int64 in *; lia). rewrite IH.
  - rewrite Z.add_assoc. done.
  - split; [done|]. intros i' r Hr Hlt. apply (Hbig (S i') r); [done|simpl; lia].
  - lia.
  - by rewrite <- Z.add_assoc.
Qed.

End Parts.

(** ** The commit of an upload *)

Section Complete.
Context `{JsonContract} `{UC : UploadsContract} `{!UploadsSort, !MapOrder} `{Hashes} `{RS : ReedSolomon}.
Context {D : Type} `{!StorageAPI D} `{!StorageContract D} `{!Volumes D} `{!DiskContract D}.
Context (bitRotAlgo : string) (md5_Sum : bytes → bytes).
Context (k m : nat) `{!RSContract k m} (bs : nat) (bs_pos : (0 < bs)%nat).
Context (bucket object uploadID : string) (T : time) (dist : list Z) (cls : nat → disk_state).

Let n := (k + m)%nat.
Let tmp := minioMetaTmpBucket.
Let mpv := minioMetaMultipartBucket.
Let dir := upload_dir bucket object uploadID.

(** What the completion needs besides the upload: nothing is in the way of the
    object, uploads.json is there and the names are fresh. *)
Record complete_ready (fuel : nat) (env : complete_env) (F : nat → files) (u : nat → uploadsV1) : Prop := {
  cr_above : ∀ i a, ancestor a object → F i bucket a = None;
  cr_parents : ∀ i a r, object = a +:+ "/" +:+ r → F i bucket (a +:+ "/" +:+ xlMetaJSONFile) = None;
  cr_old : ∀ i, (∃ r, is_Some (F i bucket (object +:+ "/" +:+ r))) ∨ (∀ r, F i bucket (object +:+ "/" +:+ r) = None);
  cr_exists : (∃ i, (i < k + m)%nat ∧ cls i = DiskUp ∧ is_Some (F i bucket (object +:+ "/" +:+ xlMetaJSONFile))) ∨
    (∀ i r, F i bucket (object +:+ "/" +:+ r) = None);
  cr_depth : ∀ i r, is_Some (F i bucket (object +:+ "/" +:+ r)) → (length (Split r "/") ≤ fuel)%nat;
  cr_fuel : (length (Split object "/") ≤ fuel)%nat;
  cr_uploads : ∀ i, uploads_of (F i minioMetaMultipartBucket (uploads_path bucket object)) = Some (u i);
  cr_present : ∀ i, is_Some (F i minioMetaMultipartBucket (uploads_path bucket object));
  cr_below : ∀ i r, F i minioMetaMultipartBucket (uploads_path bucket object +:+ "/" +:+ r) = None;
  cr_id : uploadID ≠ uploadsJSONFile;
  cr_plain : plain_elem (ce_uniqueID env) ∧ plain_elem (ce_tmpUploads env);
  cr_fresh : ∀ i, fresh_name (F i) uploadID ∧ fresh_name (F i) (ce_uniqueID env) ∧ fresh_name (F i) (ce_tmpUploads env);
  cr_time : ce_online env ≠ T;
}.

Abbreviation by_slot F :=
  (slots (λ s, slot_is (D := D) cls (λ i, disk_has (upload_vols bucket) (F i)) (blk dist s))) (only parsing).
Abbreviation by_block c F := (slots (slot_is (D := D) c (λ i, disk_has (upload_vols bucket) (F i)))) (only parsing).

Context (xl : xlObjects D) (Hready : upload_ready (D := D) k m bucket object uploadID T dist cls xl).
Context (parts : gmap Z bytes) (mt : nat → xlMetaV1) (F : nat → files) (u : nat → uploadsV1).
Context (HF : ∀ i, upload_files bitRotAlgo md5_Sum k m bs bucket object uploadID T dist parts i (mt i) (F i)).
Context (fuel : nat) (env : complete_env) (Hcr : complete_ready fuel env F u).

(** The files of the upload with the final metadata [js]. *)
Definition with_final (js : nat → bytes) (i : nat) : files :=
  fset (F i) minioMetaMultipartBucket (upload_dir bucket object uploadID +:+ "/" +:+ xlMetaJSONFile) (Some (js i)).

(** The old version is moved away. *)
Definition retired (js : nat → bytes) (i : nat) : files :=
  fmove (with_final js i) bucket object minioMetaTmpBucket (ce_uniqueID env).

Lemma dir_clean : clean_path dir.
Proof. by apply (upload_dir_clean k m bucket object uploadID T dist cls xl). Qed.

Lemma bucket_in : bucket ∈ upload_vols bucket.
Proof. left. Qed.

Lemma names_ne : bucket ≠ tmp ∧ bucket ≠ mpv.
Proof. by apply (bucket_ne k m bucket object uploadID T dist cls xl). Qed.

Lemma retire_complete js now ds : by_slot (with_final js) ds n →
  ∃ ds1 b ds2, isObject now ds bucket object = Ret (ds1, b) ∧
    (if b then renameObject ds1 bucket object minioMetaTmpBucket (ce_uniqueID env) (writeQuorum xl) else (ds1, None)) =
      (ds2, None) ∧ by_slot (retired js) ds2 n.
Proof.
  intros HR. destruct (ur_quorum _ _ _ _ _ _ _ _ _ Hready) as (Hq & Hm & _). destruct names_ne as [Hbt Hbm].
  pose proof (slot_quorum k m bucket object uploadID T dist cls xl Hready) as Hup.
  assert (Hcn : clean_path (ce_uniqueID env)) by apply clean_path_plain, Hcr.
  assert (Hc : clean_path object) by apply Hready.
  assert (Hb : ∀ i p, with_final js i bucket p = F i bucket p) by (intros; by apply fset_vol).
  assert (Ht : ∀ i p, with_final js i tmp p = F i tmp p) by (intros; by apply fset_vol).
  destruct (isObject_ok (λ s, cls (blk dist s)) n (ur_range _ _ _ _ _ _ _ _ _ Hready) now ds bucket object
    (λ s, disk_has (upload_vols bucket) (with_final js (blk dist s)))
    (λ s, is_Some (F (blk dist s) bucket (object +:+ "/" +:+ xlMetaJSONFile))) HR (by_slot_stable bucket dist _))
    as (ds1 & b & Heq & Hds1 & Hok).
  { intros s d Hd. split; [by apply (dh_vols _ _ _ Hd), bucket_in|].
    rewrite path_Join_clean by (done || apply clean_path_plain, xlMetaJSON_plain).
    by rewrite (dh_files _ _ _ Hd), Hb. }
  exists ds1, b. destruct b.
  - destruct (renameObject_ok bucket object minioMetaTmpBucket (ce_uniqueID env) (writeQuorum xl) ds1 n
      (λ s, cls (blk dist s)) (λ s, disk_has (upload_vols bucket) (with_final js (blk dist s)))
      (λ s, disk_has (upload_vols bucket) (retired js (blk dist s)))) as (ds2 & Hr & Hds2); try done.
    + intros s d Hd HP. apply disk_has_retire; try done; [apply bucket_in|apply tmp_in| | |].
      * destruct (cr_old _ _ _ _ Hcr (blk dist s)) as [[r Hr]|Hn]; [left; exists r; by rewrite Hb|].
        right. intros r. by rewrite Hb.
      * destruct (cr_fresh _ _ _ _ Hcr (blk dist s)) as (_ & [_ Hfr] & _). split.
        -- intros a r E. exfalso. revert E. by apply plain_ne_slash, Hcr.
        -- intros r. fold tmp. by rewrite Ht.
      * fold tmp. rewrite Ht. apply (cr_fresh _ _ _ _ Hcr).
    + by exists ds2.
  - exists ds1. split_and!; [done|done|]. destruct (cr_exists _ _ _ _ Hcr) as [(i & Hi & Hci & Hx)|Hnone].
    { destruct (proj2 (blk_onto dist n (ur_dist _ _ _ _ _ _ _ _ _ Hready)) i Hi) as (s & Hs & <-).
      assert (false = true) by (apply Hok; by exists s). done. }
    eapply (slots_impl (λ s, cls (blk dist s))); [|exact Hds1]. intros s d Hd. eapply disk_has_ext; [|exact Hd].
    intros v p. unfold retired, fmove. case_decide as E; [|case_decide as E'; [|done]].
    + destruct E as [-> [q ->]%HasPrefix_iff]. rewrite TrimPrefix_app, Hb, Hnone. fold tmp. rewrite Ht, <- str_app_assoc.
      apply (cr_fresh _ _ _ _ Hcr).
    + destruct E' as [-> [q ->]%HasPrefix_iff]. rewrite Hb, <- str_app_assoc. apply Hnone.
Qed.

(** ** Parts that are left out *)

Lemma part_file_path N : path_Join [bucket; object; uploadID; part_name N] = dir +:+ "/" +:+ part_name N.
Proof.
  assert (Hb : clean_path bucket) by (by apply clean_path_plain, (bucket_plain k m bucket object uploadID T dist cls xl)).
  assert (Ho : clean_path object) by apply Hready.
  assert (Hu : clean_path uploadID) by apply clean_path_plain, Hready.
  assert (Hp : clean_path (part_name N)) by apply clean_path_plain, part_name_plain.
  assert (Hup : clean_path (uploadID +:+ "/" +:+ part_name N)) by (by apply clean_path_app).
  transitivity (path_Join [bucket; object; uploadID +:+ "/" +:+ part_name N]).
  - unfold path_Join. rewrite !filter_all; [done| |]; intros x; rewrite !elem_of_cons, elem_of_nil;
      intros Hx; apply clean_path_ne; naive_solver.
  - rewrite path_Join3_clean by done. unfold dir, upload_dir. by rewrite <- !str_app_assoc.
Qed.

(** The files [G'] are those of [G], less parts that are not in [kept]. *)
Definition fewer_parts (kept : list objectPartInfo) (G G' : nat → files) : Prop :=
  ∀ i v p, G' i v p = G i v p ∨
    (v = minioMetaMultipartBucket ∧ ∃ N, objectPartIndex kept N = -1 ∧ p = upload_dir bucket object uploadID +:+ "/" +:+ part_name N).

Lemma remove_parts_ok kept : ∀ current G ds, by_slot G ds n →
  (∀ i r r', G i minioMetaMultipartBucket (upload_dir bucket object uploadID +:+ "/" +:+ r +:+ "/" +:+ r') = None) →
  Forall (λ p, PartName p = part_name (Number p)) current →
  ∃ G', by_slot G' (remove_parts ds bucket object uploadID kept current) n ∧ fewer_parts kept G G'.
Proof.
  induction current as [|p current IH]; intros G ds HR Hflat Hcur.
  { exists G. split; [done|]. by left. }
  apply Forall_cons in Hcur as [Hp Hcur]. cbn [remove_parts]. destruct (Z.eqb_spec (objectPartIndex kept (Number p)) (-1)) as [E|E].
  - set (G1 := λ i, fset (G i) mpv (dir +:+ "/" +:+ part_name (Number p)) None).
    destruct (IH G1 (removeObjectPart ds bucket object uploadID (PartName p))) as (G' & HR' & Hf).
    + unfold removeObjectPart. rewrite Hp, part_file_path. destruct HR as [Hl HR]. split; [by rewrite length_fmap|].
      intros s x Hx. rewrite list_lookup_fmap in Hx. destruct (ds !! s) as [y|] eqn:Hy; [|done]. injection Hx as <-.
      specialize (HR s y Hy). unfold slot_is in *. destruct (cls (blk dist s)), y as [d|]; try done.
      * destruct HR as [Hup Hd]. apply (disk_has_delete_any (upload_vols bucket)); [done|done|apply mpv_in| |].
        -- apply clean_path_app. split; [apply dir_clean|apply clean_path_plain, part_name_plain].
        -- intros r. rewrite <- !str_app_assoc. apply Hflat.
      * destruct (down_DeleteFile d minioMetaMultipartBucket (dir +:+ "/" +:+ part_name (Number p)) HR) as (d' & e & -> & ?).
        done.
    + intros i r r'. unfold G1. rewrite fset_path; [apply Hflat|]. intros E'%slash_cancel. symmetry in E'.
      by apply plain_ne_slash in E'; [|apply part_name_plain].
    + done.
    + exists G'. split; [done|]. intros i v q. destruct (Hf i v q) as [->|?]; [|by right]. unfold G1, fset.
      case_decide as E'; [|by left]. injection E' as -> ->. right. split; [done|]. by exists (Number p).
  - by apply IH.
Qed.

(** ** The object takes its place *)

(** The files at the end: those of the upload are below the object. *)
Definition completed (js : nat → bytes) (kept : list objectPartInfo) (G : nat → files) : Prop :=
  ∀ i r, (∀ N, r = part_name N → objectPartIndex kept N ≠ -1) →
    G i bucket (object +:+ "/" +:+ r) = with_final js i minioMetaMultipartBucket (upload_dir bucket object uploadID +:+ "/" +:+ r).

Lemma retired_mpv js i p : retired js i mpv p = with_final js i mpv p.
Proof. destruct names_ne. unfold retired. rewrite fmove_other; [done|by intros []|by intros [? _]; congruence]. Qed.

(** uploads.json is beside the directory of the upload. *)
Lemma uploads_below_outside r : HasPrefix (uploads_path bucket object +:+ "/" +:+ r) (dir +:+ "/") = false.
Proof.
  destruct (HasPrefix _ _) eqn:E; [|done]. apply HasPrefix_iff in E as [q E]. exfalso.
  unfold uploads_path, dir, upload_dir in E. rewrite <- !str_app_assoc in E. do 2 apply slash_cancel in E.
  apply slash_inj in E as [E _]; [|apply uploadsJSON_plain|apply Hready].
  by apply (cr_id _ _ _ _ Hcr).
Qed.

Lemma uploads_outside : HasPrefix (uploads_path bucket object) (dir +:+ "/") = false.
Proof.
  destruct (HasPrefix _ _) eqn:E; [|done]. apply HasPrefix_iff in E as [q E]. exfalso.
  unfold uploads_path, dir, upload_dir in E. rewrite <- !str_app_assoc in E. do 2 apply slash_cancel in E.
  revert E. apply plain_ne_slash, uploadsJSON_plain.
Qed.

Lemma uploads_above a r : uploads_path bucket object = a +:+ "/" +:+ r → ancestor a (upload_dir bucket object uploadID).
Proof.
  intros E. unfold uploads_path in E. rewrite (str_app_assoc bucket), (str_app_assoc _ object) in E.
  apply slash_ancestor in E; [|apply uploadsJSON_plain].
  unfold upload_dir. rewrite (str_app_assoc bucket), (str_app_assoc _ object).
  right. destruct E as [->|[q ->]]; [by exists uploadID|]. exists (q +:+ "/" +:+ uploadID). by rewrite <- !str_app_assoc.
Qed.

Lemma complete_commit_ok js ds online P0 xlMeta current :
  objCacheEnabled xl = false → by_slot (with_final js) ds n →
  slots (λ s, slot_is (online_cls cls) P0 (blk dist s)) online n →
  Forall (λ p, PartName p = part_name (Number p)) current →
  ∃ ds' G, complete_commit (S fuel) env xl ds online dist bucket object uploadID xlMeta current =
      Ret (set_disks xl ds', (put_info bucket object xlMeta, None)) ∧
    by_slot G ds' n ∧ completed js (Parts xlMeta) G.
Proof.
  intros Hcache HR Hon Hcur. destruct (ur_quorum _ _ _ _ _ _ _ _ _ Hready) as (Hq & Hm & Hupq).
  destruct names_ne as [Hbt Hbm]. unfold complete_commit.
  destruct (retire_complete js (ce_object env) ds HR) as (ds1 & b & ds2 & -> & Hren & Hds2). go_simpl. rewrite Hren.
  destruct (remove_parts_ok (Parts xlMeta) current (retired js) ds2 Hds2) as (G3 & HR3 & Hfew); [|done|].
  { intros i r r'. fold mpv. rewrite retired_mpv. unfold with_final. rewrite fset_path; [apply HF|].
    intros E%slash_cancel. symmetry in E. by apply plain_ne_slash in E; [|apply xlMetaJSON_plain]. }
  assert (Hf3 : ∀ i v p, v ≠ mpv → G3 i v p = retired js i v p).
  { intros i v p Hv. by destruct (Hfew i v p) as [->|[-> _]]. }
  destruct (take_online_ok cls dist n (ur_dist _ _ _ _ _ _ _ _ _ Hready) P0 _ online _ Hon HR3) as (od & -> & Hod).
  go_simpl. rewrite (proj1 (upload_dir_path k m bucket object uploadID T dist cls xl Hready)).
  assert (Hqo : (2 ≤ writeQuorum xl)%nat ∧ (n < 2 * writeQuorum xl)%nat ∧
    (writeQuorum xl ≤ count_good (λ i, is_up (online_cls cls i)) n)%nat) by (by rewrite online_count).
  destruct (renameObject_files (upload_vols bucket) (online_cls cls) n (writeQuorum xl) Hqo G3 minioMetaMultipartBucket
    (upload_dir bucket object uploadID) bucket object od (mpv_in bucket) bucket_in) as (od1 & -> & Hod1);
    [done|apply dir_clean|apply Hready|exact Hod| |].
  { intros i. split_and!.
    - exists xlMetaJSONFile. destruct (Hfew i minioMetaMultipartBucket (dir +:+ "/" +:+ xlMetaJSONFile)) as [Hx|(_ & N & _ & E)].
      + fold dir. rewrite Hx. fold mpv. rewrite retired_mpv. unfold with_final. fold dir. fold mpv. rewrite fset_eq. by eexists.
      + fold dir in E. by apply slash_cancel in E.
    - split.
      + intros a r E. rewrite Hf3 by done. unfold retired. rewrite fmove_other; [|by intros [? _]|].
        * unfold with_final. rewrite fset_vol by done. apply (cr_above _ _ _ _ Hcr). right. by exists r.
        * intros [_ Hp]. rewrite ancestor_not_below in Hp; [done|]. right. by exists r.
      + intros r. rewrite Hf3 by done. unfold retired. by rewrite fmove_src.
    - rewrite Hf3 by done. unfold retired. rewrite fmove_other; [|by intros [? _]|].
      + unfold with_final. rewrite fset_vol by done. apply (cr_above _ _ _ _ Hcr). by left.
      + intros [_ Hp]. rewrite ancestor_not_below in Hp; [done|]. by left. }
  destruct (put_back_ok cls dist n (ur_dist _ _ _ _ _ _ _ _ _ Hready) _ _ od1 _ Hod1 HR3) as (ds4 & -> & Hds4). go_simpl.
  set (G4 := λ i, fmove (G3 i) minioMetaMultipartBucket (upload_dir bucket object uploadID) bucket object).
  assert (Ht4 : ∀ i p, G4 i tmp p = retired js i tmp p).
  { intros i p. unfold G4. rewrite fmove_other; [by apply Hf3| |by intros [? _]]. intros [E _]. by apply Hbt. }
  destruct (deleteObject_files (upload_vols bucket) (λ s, cls (blk dist s)) n (writeQuorum xl) (λ s, G4 (blk dist s)) fuel
    minioMetaTmpBucket (ce_uniqueID env) ds4 (tmp_in bucket)) as (ds5 & e & -> & Hds5);
    [apply clean_path_plain, Hcr|exact Hds4| |].
  { intros s r. fold tmp. rewrite Ht4. unfold retired. fold tmp. rewrite fmove_dst. unfold with_final.
    rewrite fset_vol by done. apply (cr_depth _ _ _ _ Hcr). }
  go_simpl. set (G5 := λ i, fclear (G4 i) minioMetaTmpBucket (ce_uniqueID env)).
  assert (Hm5 : ∀ i p, HasPrefix p (dir +:+ "/") = false → G5 i mpv p = F i mpv p).
  { intros i p Hp. unfold G5, fclear. rewrite decide_False by (by intros [? _]). unfold G4.
    rewrite fmove_other; [|by intros [? _]|fold dir; rewrite Hp; by intros [_ ?]].
    destruct (Hfew i mpv p) as [Hx|(_ & N & _ & ->)]; [|by rewrite below in Hp].
    fold mpv. rewrite Hx, retired_mpv. unfold with_final. fold dir mpv. rewrite fset_path; [done|].
    intros ->. by rewrite below in Hp. }
  assert (Ht5 : ∀ i p, HasPrefix p (ce_uniqueID env +:+ "/") = false → G5 i tmp p = F i tmp p).
  { intros i p Hp. unfold G5, fclear. rewrite decide_False by (rewrite Hp; by intros [_ ?]). fold tmp. rewrite Ht4.
    unfold retired. fold tmp. rewrite fmove_other; [by apply fset_vol|rewrite Hp; by intros [_ ?]|by intros [? _]; congruence]. }
  destruct (updateUploadJSON_ok bucket object uploadID (ce_tmpUploads env) zeroTime true) with
    (cls := λ s, cls (blk dist s)) (n := n) (wq := writeQuorum xl) (F := λ s, G5 (blk dist s)) (u := λ s, u (blk dist s))
    (vols := upload_vols bucket) (ds := ds5) as (ds6 & Hrem & Hds6).
  { by apply (bucket_plain k m bucket object uploadID T dist cls xl). }
  { apply Hready. } { apply Hcr. }
  { split_and!; [done|done|by apply (slot_quorum k m bucket object uploadID T dist cls xl)]. }
  { intros s. fold mpv. rewrite Hm5 by apply uploads_outside. apply (cr_uploads _ _ _ _ Hcr). }
  { intros s _. fold mpv. rewrite Hm5 by apply uploads_outside. apply (cr_present _ _ _ _ Hcr). }
  { intros s. fold mpv. split.
    - intros a r E. assert (Ha : ancestor a (upload_dir bucket object uploadID)) by (by eapply uploads_above).
      rewrite Hm5 by (by apply ancestor_not_below). by apply (uf_above _ _ _ _ _ _ _ _ _ _ _ _ _ _ (HF (blk dist s))).
    - intros r. rewrite Hm5 by apply uploads_below_outside. apply (cr_below _ _ _ _ Hcr). }
  { intros s. destruct (cr_fresh _ _ _ _ Hcr (blk dist s)) as (_ & [_ Hun] & Hfr1 & Hfr2). split.
    - fold tmp. rewrite Ht5; [done|]. destruct (HasPrefix (ce_tmpUploads env) _) eqn:E; [|done].
      apply HasPrefix_iff in E as [q E]. rewrite <- str_app_assoc in E. exfalso. revert E. apply plain_ne_slash, Hcr.
    - intros r. fold tmp. unfold G5, fclear. case_decide as E; [done|]. fold tmp. rewrite Ht4. unfold retired. fold tmp.
      rewrite fmove_other; [by unfold with_final; rewrite fset_vol|done|by intros [? _]; congruence]. }
  { apply tmp_in. } { apply mpv_in. } { exact Hds5. }
  unfold removeUploadID. rewrite Hrem. unfold complete_done.
  change (objCacheEnabled (set_disks xl ds6)) with (objCacheEnabled xl). rewrite Hcache.
  exists ds6, (λ i, fset (G5 i) minioMetaMultipartBucket (uploads_path bucket object)
                  (uploads_json uploadID zeroTime true (u i))). split_and!; [done|exact Hds6|].
  intros i r Hr. rewrite fset_vol by done. unfold G5, fclear. rewrite decide_False by (by intros [? _]).
  unfold G4. rewrite fmove_dst. destruct (Hfew i mpv (dir +:+ "/" +:+ r)) as [Hx|(_ & N & HN & E)].
  - fold dir. fold mpv. by rewrite Hx, retired_mpv.
  - apply slash_cancel in E. exfalso. by apply (Hr N).
Qed.

(** ** The whole operation *)

Lemma parents_complete ds : by_slot F ds n →
  ∃ ds', parentDirIsObject (S fuel) (ce_parent env) ds bucket (path_Dir object) = Ret (ds', false) ∧ by_slot F ds' n.
Proof.
  intros HR.
  apply (parentDirIsObject_ok (λ s, cls (blk dist s)) n (ur_range _ _ _ _ _ _ _ _ _ Hready)
    (λ s, disk_has (upload_vols bucket) (F (blk dist s))) (by_slot_stable bucket dist F) bucket);
    [intros s d Hd; apply (dh_vols _ _ _ Hd), bucket_in|done|].
  pose proof (cr_fuel _ _ _ _ Hcr) as Hf.
  destruct (clean_path_last object (ur_clean _ _ _ _ _ _ _ _ _ Hready)) as [He|(s & e & Ho & Hs & He & Hlen)].
  - left. split; [by apply path_Dir_plain|lia].
  - right. rewrite Ho, path_Dir_clean by done. split_and!; [done| |lia].
    intros a i d Ha Hd. rewrite (dh_files _ _ _ Hd). assert (∃ r, object = a +:+ "/" +:+ r) as [r Hr].
    { destruct Ha as [->|[r ->]]; [by exists e|]. exists (r +:+ "/" +:+ e). rewrite Ho. by rewrite <- !str_app_assoc. }
    by apply (cr_parents _ _ _ _ Hcr _ a r).
Qed.

Context (reqs : list (Z * bytes)) (Hreq : req_ok parts reqs) (Hsize : is_int64 (zlen (concat reqs.*2))).

Definition upload_md5 : string :=
  hex_encode (md5_Sum (concat ((λ r : Z * bytes, md5_Sum r.2) <$> reqs))) +:+ "-" +:+ pretty (zlen reqs).

Definition new_parts : list objectPartInfo := (λ r, part_info md5_Sum r.1 r.2) <$> reqs.

(** The metadata of the object, from the metadata that was picked. *)
Definition object_meta (x : xlMetaV1) : xlMetaV1 :=
  set_parts (set_meta (set_stat x (StatInfo (zlen (concat reqs.*2)) (ce_modTime env)))
               (<["md5Sum" := upload_md5]> (Meta x))) new_parts.

(** The metadata of block [i]. *)
Definition final_meta (j i : nat) : xlMetaV1 :=
  set_index (set_parts (set_meta (set_stat (mt i) (Stat (object_meta (mt j)))) (Meta (object_meta (mt j))))
               (Parts (object_meta (mt j)))) (Z.of_nat i + 1).

Lemma parts_named x : (∀ N, find_part (Parts x) N = part_info md5_Sum N <$> parts !! N) → parts_wf (Parts x) →
  Forall (λ p, PartName p = part_name (Number p)) (Parts x).
Proof.
  intros Hfind Hwf. apply parts_wf_alt in Hwf as [_ Hnd]. apply Forall_forall. intros p Hp.
  assert (Hf : find_part (Parts x) (Number p) = Some p) by (by apply find_part_Some).
  rewrite Hfind in Hf. destruct (parts !! Number p) as [b|]; [|done]. injection Hf as Hf.
  assert (PartName (part_info md5_Sum (Number p) b) = PartName p) as <- by (by rewrite Hf). done.
Qed.

Lemma CompleteMultipartUpload_ok : by_slot F (storageDisks xl) n → objCacheEnabled xl = false →
  ∃ ds G j, CompleteMultipartUpload md5_Sum (S fuel) env xl bucket object uploadID (req_part md5_Sum <$> reqs) =
      Ret (set_disks xl ds, (put_info bucket object (object_meta (mt j)), None)) ∧
    by_slot G ds n ∧ completed (λ i, json_of (final_meta j i)) new_parts G.
Proof.
  intros HR Hcache. destruct (ur_quorum _ _ _ _ _ _ _ _ _ Hready) as (Hq & Hm & Hup).
  pose proof (ur_dist _ _ _ _ _ _ _ _ _ Hready) as Hdist. unfold CompleteMultipartUpload.
  destruct (bucket_exists k m bs bs_pos bucket object uploadID T dist cls xl Hready (ce_bucket env) F _ HR) as (ds0 & info & -> & Hds0).
  go_simpl. change (checkCompleteMultipartArgs ?f bucket object) with (checkPutObjectArgs f bucket object).
  rewrite (args_ok k m bucket object uploadID T dist cls xl Hready).
  destruct (uploads_exists bitRotAlgo md5_Sum k m bs bs_pos bucket object uploadID T dist cls xl Hready parts mt F HF
    (ce_exists env) F ds0 Hds0 ltac:(done)) as (ds1 & -> & Hds1). go_simpl.
  unfold getCompleteMultipartMD5. rewrite part_md5s_ok.
  destruct (upload_dir_path k m bucket object uploadID T dist cls xl Hready) as [Hj1 Hj2]. rewrite Hj1, Hj2.
  destruct (read_select cls (blk dist) n minioMetaMultipartBucket dir dir_clean
    (λ i, disk_has (upload_vols bucket) (F i)) (disk_has_stable _ _) mt T) with (ds := ds1) (wq := writeQuorum xl)
    as (ds2 & metas & errs & Hread & Hds2 & Hdq & Hlist & (j & Hpick) & Hlm & Hmetas); try done.
  { intros i d Hd. split; [apply (dh_vols _ _ _ Hd), mpv_in|].
    destruct (uf_json _ _ _ _ _ _ _ _ _ _ _ _ _ _ (HF i)) as (b & Hb & Hj). exists b. split; [|done]. by rewrite (dh_files _ _ _ Hd). }
  { intros i. apply HF. } { intros i. apply HF. } { apply Hready. }
  { by apply (slot_quorum k m bucket object uploadID T dist cls xl). }
  unfold dir in Hread. rewrite Hread, Hdq. go_simpl.
  destruct (Hlist (ce_online env) (cr_time _ _ _ _ Hcr)) as (online & -> & Hon). go_simpl. rewrite Hpick.
  destruct (uf_meta _ _ _ _ _ _ _ _ _ _ _ _ _ _ (HF j)) as [_ _ Hwf Hfind _ _ _ Hdj _]. rewrite Hdj.
  destruct (ordered_slots dist online n _ Hdist Hon) as (od & -> & Hod). go_simpl.
  unfold getOrderedPartsMetadata.
  destruct (scatter_perm dist n metas xlMetaV1_zero Hdist Hlm) as (om & -> & Hlom & Hom). go_simpl.
  rewrite (complete_parts_ok md5_Sum parts (Parts (mt j)) Hfind reqs 0 Hreq ltac:(done) ltac:(by rewrite Z.add_0_l)).
  rewrite Z.add_0_l.
  destruct (parents_complete ds2 Hds2) as (ds3 & -> & Hds3). go_simpl.
  destruct (take_online_ok cls dist n Hdist _ _ online ds3 Hon Hds3) as (od2 & -> & Hod2). go_simpl.
  assert (Hzl : zlen (req_part md5_Sum <$> reqs) = zlen reqs) by (unfold zlen; by rewrite length_fmap).
  rewrite Hzl. fold upload_md5. fold new_parts. fold (object_meta (mt j)).
  assert (Hqo : (2 ≤ writeQuorum xl)%nat ∧ (n < 2 * writeQuorum xl)%nat ∧
    (writeQuorum xl ≤ count_good (λ i, is_up (online_cls cls i)) n)%nat) by (by rewrite online_count).
  destruct (writeUnique_files (upload_vols bucket) (online_cls cls) n (writeQuorum xl) Hqo F
    (λ i, json_of (final_meta j i)) uploadID (complete_metas (object_meta (mt j)) om) od2 (tmp_in bucket)
    (ur_id _ _ _ _ _ _ _ _ _ Hready) Hod2) as (od3 & ms & -> & Hod3).
  { unfold complete_metas. by rewrite length_fmap. }
  { intros i x Hc Hx. unfold complete_metas in Hx. rewrite list_lookup_fmap in Hx.
    destruct (om !! i) as [y|] eqn:Hy; [|done]. injection Hx as <-.
    assert (Hi : (i < n)%nat) by (apply lookup_lt_Some in Hy; lia). apply (proj1 (online_DiskUp cls i)) in Hc.
    destruct (proj2 (blk_onto dist n Hdist) i Hi) as (s & Hs & Hbs). rewrite <- Hbs in Hc.
    assert (Hld : length dist = n) by (rewrite Hdist, length_seqZ; lia).
    destruct (lookup_lt_is_Some_2 dist s) as [b Hb]; [lia|].
    assert (Hy' := Hom s b _ Hb (Hmetas s Hs Hc)). unfold blk in Hbs, Hy'.
    rewrite (list_lookup_total_correct _ _ _ Hb) in Hbs, Hy'. rewrite Hbs, Hy in Hy'. injection Hy' as ->.
    by apply (json_of_ok k m bucket object uploadID T dist cls xl). }
  { intros i. apply (cr_fresh _ _ _ _ Hcr i). }
  go_simpl.
  destruct (commit_files (upload_vols bucket) (online_cls cls) n (writeQuorum xl) Hqo
    (λ i, fset (F i) minioMetaTmpBucket (uploadID +:+ "/" +:+ xlMetaJSONFile) (Some (json_of (final_meta j i))))
    (λ i, json_of (final_meta j i)) uploadID minioMetaMultipartBucket dir od3 (tmp_in bucket) (mpv_in bucket))
    as (od4 & Hcommit & Hod4); [done|apply Hready|apply dir_clean|exact Hod3| |].
  { intros i. destruct (cr_fresh _ _ _ _ Hcr i) as ([Hno Hbelow] & _). split_and!.
    - apply fset_eq.
    - rewrite fset_path; [done|]. intros E. symmetry in E. by apply slash_longer in E.
    - intros r Hr. rewrite fset_path; [done|]. by intros ?%slash_cancel.
    - rewrite fset_vol by done. destruct (uf_json _ _ _ _ _ _ _ _ _ _ _ _ _ _ (HF i)) as (b & Hb & _).
      unfold dir. rewrite Hb. by eexists. }
  unfold dir in Hcommit. rewrite Hcommit.
  destruct (put_back_ok cls dist n Hdist (λ i, disk_has (upload_vols bucket) (F i))
    (λ i, disk_has (upload_vols bucket) (with_final (λ i, json_of (final_meta j i)) i))
    od4 ds3) as (ds4 & -> & Hds4); [|exact Hds3|].
  { eapply slots_impl; [|exact Hod4]. intros i d Hd. eapply disk_has_ext; [|exact Hd]. intros v p.
    unfold with_final, fset. fold dir. case_decide; [done|]. case_decide as E; [|done]. injection E as -> ->. symmetry.
    apply (cr_fresh _ _ _ _ Hcr i). }
  go_simpl.
  destruct (complete_commit_ok (λ i, json_of (final_meta j i)) ds4 online _ (object_meta (mt j)) (Parts (mt j)) Hcache Hds4 Hon)
    as (ds5 & G & -> & HG & Hdone); [by apply parts_named|]. by exists ds5, G, j.
Qed.

(** ** Reading the object *)

Section Read.
Context `{!StorageReads D} {W : Type} `{!IOWriter W} `{!IOWriterContract W}.
(** The disks by block at the time of the read. *)
Context (rcls : nat → disk_state) (rfuel : nat) (j : nat).
Context (algo_ok : bitRotAlgo ≠ sha256Algo) (sums_ne : ∀ b, hex_encode (blake2b_Sum b) ≠ "").
Context (rfuel_ok : Forall (λ r : Z * bytes, (length r.2 < rfuel)%nat) reqs).
Context (time_ok : ce_modTime env ≠ timeSentinel).

(** The disk holds the files of the object. *)
Definition holds_object (i : nat) (d : D) : Prop :=
  has_vol d bucket ∧
  file_at d bucket (object +:+ "/" +:+ xlMetaJSONFile) = Some (json_of (final_meta j i)) ∧
  ∀ r, r ∈ reqs → file_at d bucket (object +:+ "/" +:+ part_name r.1) = Some (shard_file k m bs r.2 i).

Lemma new_parts_index N data : (N, data) ∈ reqs → objectPartIndex new_parts N ≠ -1.
Proof.
  intros Hin. assert (Hf : is_Some (find_part new_parts N)).
  { destruct (find_part new_parts N) eqn:E; [by eexists|]. pose proof (proj1 (find_part_None _ _) E) as Hn. exfalso.
    apply (Hn (part_info md5_Sum N data)); [|done]. apply list_elem_of_fmap. by exists (N, data). }
  destruct Hf as [p Hf]. destruct (objectPartIndex_find _ _ _ Hf) as (i & -> & _). lia.
Qed.

Lemma completed_holds G i d : completed (λ i, json_of (final_meta j i)) new_parts G →
  disk_has (upload_vols bucket) (G i) d → holds_object i d.
Proof.
  intros HG Hd. split_and!.
  - apply (dh_vols _ _ _ Hd), bucket_in.
  - rewrite (dh_files _ _ _ Hd), HG; [|by intros N E]. apply fset_eq.
  - intros [N data] Hr. rewrite (dh_files _ _ _ Hd), HG.
    + unfold with_final. rewrite fset_path.
      * apply (uf_parts _ _ _ _ _ _ _ _ _ _ _ _ _ _ (HF i)). destruct Hreq as [Hall _].
        rewrite Forall_forall in Hall. by apply (Hall (N, data)).
      * intros E%slash_cancel. done.
    + intros N' E%part_name_inj. simpl in E. subst N'. by eapply new_parts_index.
Qed.

Lemma holds_object_stable : stable holds_object.
Proof. intros i d d' (Hv & Hm & Hf) [Hv' Hf']. split_and!; [auto|by rewrite Hf'|]. intros r Hr. rewrite Hf' by done. by apply Hf. Qed.

Lemma algo_hash : newHash bitRotAlgo = newHash "" ∧ newHash "" = blake2b_Sum.
Proof. unfold newHash. rewrite bool_decide_false by done. by destruct (bool_decide _). Qed.

Lemma final_meta_ok i : meta_ok k m bs (ce_modTime env) new_parts reqs.*2 dist (final_meta j i).
Proof.
  destruct (uf_meta _ _ _ _ _ _ _ _ _ _ _ _ _ _ (HF i)) as [Hv _ _ _ Hd Hp Hb Hdi _].
  unfold meta_ok. by split_and!.
Qed.

Lemma final_part_hash i r : r ∈ reqs →
  part_hash bitRotAlgo (final_meta j i) (part_info md5_Sum r.1 r.2) = file_checksum k m bs r.2 "" i.
Proof.
  intros Hr. destruct Hreq as [Hall _]. rewrite Forall_forall in Hall. destruct (Hall r Hr) as [Hp _].
  unfold part_hash.
  change (CkHash (GetCheckSumInfo bitRotAlgo (Erasure (mt i)) (part_name r.1)) = file_checksum k m bs r.2 "" i).
  rewrite (um_sums _ _ _ _ _ _ _ _ _ _ (uf_meta _ _ _ _ _ _ _ _ _ _ _ _ _ _ (HF i)) _ _ Hp).
  unfold file_checksum. by rewrite (proj1 algo_hash).
Qed.

Lemma new_part_at q p b : new_parts !! q = Some p → reqs.*2 !! q = Some b →
  ∃ r, r ∈ reqs ∧ p = part_info md5_Sum r.1 r.2 ∧ b = r.2.
Proof.
  unfold new_parts. rewrite !list_lookup_fmap. destruct (reqs !! q) as [r|] eqn:E; [|done].
  intros [= <-] [= <-]. exists r. split_and!; [|done|done]. by eapply list_elem_of_lookup_2.
Qed.

Lemma holds_part_file i d r : holds_object i d → r ∈ reqs →
  file_at d bucket (part_path object (part_info md5_Sum r.1 r.2)) = Some (shard_file k m bs r.2 i).
Proof.
  intros (_ & _ & Hf) Hr. unfold part_path. cbn [part_info PartName].
  rewrite pathJoin_clean by (apply Hready || apply clean_path_plain, part_name_plain). by apply Hf.
Qed.

Lemma object_completed ds :
  slots (λ s, slot_is rcls holds_object (blk dist s)) ds n →
  (n < 2 * count_good (λ i, is_up (rcls i)) n)%nat →
  ∃ ds' metas errs, readAllXLMetadata ds bucket object = (ds', (metas, errs)) ∧
    object_version bitRotAlgo rfuel k m bs bucket object (ce_modTime env) new_parts reqs.*2 dist
      (λ i, is_up (rcls i)) ds' metas errs ∧
    version_count (ce_modTime env) metas errs = count_good (λ i, is_up (rcls i)) n.
Proof.
  intros HR Hmaj. pose proof (ur_dist _ _ _ _ _ _ _ _ _ Hready) as Hdist.
  destruct (readAll_slots bucket object (ur_clean _ _ _ _ _ _ _ _ _ Hready) ds n (λ s, rcls (blk dist s))
    (λ s, holds_object (blk dist s)) (λ s, final_meta j (blk dist s)) HR) as (ds' & metas & errs & -> & Hds & Hm & He & Hrep).
  { apply blk_stable, holds_object_stable. }
  { intros s d (Hv & Hf & _). split; [done|]. exists (json_of (final_meta j (blk dist s))).
    split; [done|by apply (json_of_ok k m bucket object uploadID T dist cls xl)]. }
  assert (Hhv : ∀ s x e, metas !! s = Some x → errs !! s = Some e → holds_version (ce_modTime env) x e = is_up (rcls (blk dist s))).
  { intros s x e Hx Hes. specialize (Hrep s x e Hx Hes). unfold reported in Hrep.
    destruct (rcls (blk dist s)); [injection Hrep as -> ->; apply Z.eqb_refl| |]; destruct Hrep as [_ Hne]; by destruct e. }
  assert (Hvc : version_count (ce_modTime env) metas errs = count_good (λ i, is_up (rcls i)) n).
  { rewrite <- (count_good_blk dist n _ Hdist). unfold version_count, count_good.
    apply filter_bool_seq; [rewrite length_zip_with; lia|].
    intros s b Hb. apply lookup_zip_with_Some in Hb as (x & e & -> & Hx & Hy). by apply Hhv. }
  exists ds', metas, errs. split; [done|]. split; [|done]. destruct Hds as [Hld Hds].
  split; [exact Hld|exact Hm|exact He|exact time_ok|by rewrite Hvc|..].
  - intros s x e Hx Hes Hv. rewrite (Hhv s x e Hx Hes) in Hv. specialize (Hrep s x e Hx Hes). unfold reported in Hrep.
    destruct (rcls (blk dist s)); [|done..]. injection Hrep as -> _. apply final_meta_ok.
  - intros x [s Hs]%list_elem_of_lookup Hval Ht.
    destruct (lookup_lt_is_Some_2 errs s) as [e Hes]; [apply lookup_lt_Some in Hs; lia|].
    specialize (Hrep s x e Hs Hes). unfold reported in Hrep.
    destruct (rcls (blk dist s)); [injection Hrep as -> _; apply final_meta_ok| |];
      destruct Hrep as [E _]; simpl in E; subst x; done.
  - done.
  - intros s b d x e Hb Hd Hx Hes Hv q p b' c Hp Hb' Hc. destruct (new_part_at q p b' Hp Hb') as (r & Hr & -> & ->).
    specialize (Hds s _ Hd). rewrite (Hhv s x e Hx Hes) in Hv. unfold slot_is in Hds.
    destruct (rcls (blk dist s)) eqn:Hcl; [|done..]. destruct Hds as [_ HP].
    rewrite (holds_part_file _ _ _ HP Hr) in Hc. injection Hc as <-.
    unfold blk. rewrite (list_lookup_total_correct _ _ _ Hb). split; [|done].
    rewrite Forall_forall in rfuel_ok. eapply Nat.le_lt_trans; [apply (shard_file_short k m bs bs_pos)|by apply rfuel_ok].
    destruct (perm_seqZ_bounds _ _ Hdist) as [Hbd _]. rewrite Forall_lookup in Hbd. specialize (Hbd s b Hb). lia.
  - intros i Hi Hg. destruct (proj2 (blk_onto dist n Hdist) i Hi) as (s & Hs & Hbi).
    destruct (lookup_lt_is_Some_2 metas s) as [x Hx]; [lia|]. destruct (lookup_lt_is_Some_2 errs s) as [e Hes]; [lia|].
    assert (Hldist : length dist = n) by (rewrite Hdist, length_seqZ; lia).
    destruct (lookup_lt_is_Some_2 dist s) as [b Hb]; [lia|].
    assert (Hb' : b = Z.of_nat i + 1).
    { destruct (perm_seqZ_bounds _ _ Hdist) as [Hbd _]. rewrite Forall_lookup in Hbd. specialize (Hbd s b Hb).
      unfold blk in Hbi. rewrite (list_lookup_total_correct _ _ _ Hb) in Hbi. lia. }
    destruct (slots_up (λ s, rcls (blk dist s)) (λ s, holds_object (blk dist s)) ds' n s) as (d & Hd & Hup & HP);
      [by split|done|by rewrite Hbi; destruct (rcls i)|].
    pose proof (Hhv s x e Hx Hes) as Hv. specialize (Hrep s x e Hx Hes). unfold reported in Hrep. rewrite Hbi in *.
    exists s, d, x, e. split_and!; [by subst b|done|done|done|by rewrite Hv|].
    intros q p b' Hp Hbq. destruct (new_part_at q p b' Hp Hbq) as (r & Hr & -> & ->).
    destruct (rcls i); [|done..]. injection Hrep as -> _.
    split_and!; [apply up_serves; [done|apply HP]|by apply holds_part_file|by apply final_part_hash|].
    unfold file_checksum. rewrite (proj2 algo_hash). apply sums_ne.
Qed.

End Read.

End Complete.
