(* ===== verification/XLNewUpload.v ===== *)
(** * A new upload

    [NewMultipartUpload]: with a write quorum of disks the upload exists on every
    disk that is up, without parts, and uploads.json names it. *)

From stdpp Require Import pretty.
From S2P Require Import Prelude.
From S2P Require Import GoErrors.
From S2P Require Import GoStrings.
From S2P Require Import Quorum.
From S2P Require Import Distribution.
From S2P Require Import XLMeta.
From S2P Require Import Storage.
From S2P Require Import Erasure.
From S2P Require Import ErasureSpec.
From S2P Require Import ErasureWrite.
From S2P Require Import Healing.
From S2P Require Import ObjCache.
From S2P Require Import ObjectNames.
From S2P Require Import DiskContract.
From S2P Require Import XLDisk.
From S2P Require Import XLCommon.
From S2P Require Import XLBucket.
From S2P Require Import XLObject.
From S2P Require Import XLPut.
From S2P Require Import XLStage.
From S2P Require Import XLPutGet.
From S2P Require Import XLMultipart.
From S2P Require Import XLFiles.
From S2P Require Import XLUpload.
From S2P Require Import XLUploads.

Local Open Scope Z_scope.

(** ** Slots of blocks *)

(** The slot whose disk holds block [i]. *)
Definition slot_of (dist : list Z) (i : nat) : nat :=
  match list_find (λ b, b = Z.of_nat i + 1) dist with Some (s, _) => s | None => 0%nat end.

Lemma slot_of_blk dist n s : dist ≡ₚ seqZ 1 (Z.of_nat n) → (s < n)%nat → slot_of dist (blk dist s) = s.
Proof.
  intros Hp Hs. assert (Hl : length dist = n) by (rewrite Hp, length_seqZ; lia).
  assert (Hnd : NoDup dist) by (rewrite Hp; apply NoDup_seqZ).
  destruct (lookup_lt_is_Some_2 dist s) as [b Hb]; [lia|].
  destruct (perm_seqZ_bounds _ _ Hp) as [Hbd _]. rewrite Forall_lookup in Hbd. specialize (Hbd s b Hb).
  unfold slot_of, blk. rewrite (list_lookup_total_correct _ _ _ Hb). replace (Z.of_nat _ + 1) with b by lia.
  destruct (list_find _ dist) as [[s' b']|] eqn:E.
  - apply list_find_Some in E as (Hs' & -> & _). by eapply NoDup_lookup.
  - apply list_find_None in E. rewrite Forall_lookup in E. by destruct (E s b Hb).
Qed.

(** ** The same metadata on all disks *)

Section Same.
Context `{JsonContract} `{MapOrder}.
Context {D : Type} `{!StorageAPI D} `{!StorageContract D} `{!Volumes D} `{!DiskContract D}.

Lemma write_same_slots bucket prefix mt : ∀ (ds : list (option D)) base n cls (P Q : nat → D → Prop),
  slots (slot_is cls P) ds n →
  (∀ i d, up d → P i d →
     ∃ d', writeXLMetadata d bucket prefix (set_index mt (base + Z.of_nat i + 1)) = (d', None) ∧ up d' ∧ Q i d') →
  ∃ ds' errs, write_same base ds bucket prefix mt = (ds', errs) ∧ slots (slot_is cls Q) ds' n ∧ up_nil cls errs n.
Proof.
  induction ds as [|x ds IH]; intros base n cls P Q HR Hstep.
  { apply slots_nil_inv in HR as ->. exists [], []. split_and!; [done|by split|]. split; [done|lia]. }
  apply slots_cons_inv in HR as (c & -> & Hx & HR). cbn [write_same].
  destruct (IH (base + 1) c (λ i, cls (S i)) (λ i, P (S i)) (λ i, Q (S i)) HR) as (ds' & errs & -> & Hds & He).
  { intros i d Hup HP. destruct (Hstep (S i) d Hup HP) as (d' & Hw & ? & ?). exists d'. split_and!; try done.
    rewrite <- Hw. do 2 f_equal. lia. }
  assert (Hcons : ∀ y e, slot_is cls Q 0 y → (cls 0%nat = DiskUp → e = None) →
    ∃ ds'' errs', (y :: ds', e :: errs) = (ds'', errs') ∧ slots (slot_is cls Q) ds'' (S c) ∧ up_nil cls errs' (S c)).
  { intros y e Hy Hye. eexists _, _. split; [done|]. split; [by apply slots_cons|by apply up_nil_cons]. }
  unfold slot_is in Hx. destruct (cls 0%nat) eqn:Hc; destruct x as [d|]; try done.
  - destruct Hx as [Hup HP]. destruct (Hstep _ _ Hup HP) as (d' & Hw & Hup' & HQ). rewrite Z.add_0_r in Hw. rewrite Hw.
    apply Hcons; [unfold slot_is; by rewrite Hc|done].
  - destruct (writeXLMetadata d bucket prefix (set_index mt (base + 1))) as [d' e] eqn:Hw.
    apply Hcons; [|congruence]. unfold slot_is. rewrite Hc. unfold writeXLMetadata in Hw.
    destruct (json_Marshal _) as [b|e']; [|by simplify_eq].
    destruct (down_AppendFile d bucket (path_Join [prefix; xlMetaJSONFile]) b Hx) as (d1 & e1 & Ha & Hd1).
    rewrite Ha in Hw. by simplify_eq.
  - apply Hcons; [unfold slot_is; by rewrite Hc|congruence].
Qed.

Context (vols : list string) (cls : nat → disk_state) (n wq rq : nat).
Context (quorum : (2 ≤ wq)%nat ∧ (n < 2 * wq)%nat ∧ (wq ≤ count_good (λ i, is_up (cls i)) n)%nat).

Lemma writeSame_files (F : nat → files) (js : nat → bytes) prefix mt (ds : list (option D)) :
  minioMetaTmpBucket ∈ vols → plain_elem prefix → slots (slot_is cls (λ i, disk_has vols (F i))) ds n →
  (∀ i, json_Marshal (set_index mt (Z.of_nat i + 1)) = inl (js i)) → (∀ i, fresh_name (F i) prefix) →
  ∃ ds', writeSameXLMetadata ds minioMetaTmpBucket prefix mt wq rq = (ds', None) ∧
    slots (slot_is cls (λ i, disk_has vols
      (fset (F i) minioMetaTmpBucket (prefix +:+ "/" +:+ xlMetaJSONFile) (Some (js i))))) ds' n.
Proof.
  intros Hv Hp HR Hjs HF. destruct quorum as (Hq & Hm & Hc). unfold writeSameXLMetadata.
  destruct (write_same_slots minioMetaTmpBucket prefix mt ds 0 n cls _
    (λ i, disk_has vols (fset (F i) minioMetaTmpBucket (prefix +:+ "/" +:+ xlMetaJSONFile) (Some (js i)))) HR)
    as (ds' & errs & -> & Hds & He).
  { intros i d Hup Hd. rewrite Z.add_0_l. unfold writeXLMetadata. rewrite Hjs.
    rewrite path_Join_clean by (apply clean_path_plain; (done || apply xlMetaJSON_plain)). destruct (HF i) as [Hno Hbelow].
    destruct (disk_has_append vols (F i) d minioMetaTmpBucket (prefix +:+ "/" +:+ xlMetaJSONFile) (js i) Hup Hd Hv)
      as (d' & -> & Hup' & Hd').
    - apply clean_path_app. split; apply clean_path_plain; [done|apply xlMetaJSON_plain].
    - split.
      + intros a r E. apply slash_elem_inj in E as [-> _]; [done|done|apply xlMetaJSON_plain].
      + intros r. rewrite <- str_app_assoc. apply Hbelow.
    - exists d'. split_and!; [done|done|]. by rewrite Hbelow in Hd'. }
  unfold write_quorum_result. destruct (up_quorum cls errs n wq He Hq Hm Hc) as [-> ->]. by exists ds'.
Qed.

End Same.

(** ** NewMultipartUpload *)

Section New.
Context `{JsonContract} `{UC : UploadsContract} `{!UploadsSort, !MapOrder} `{Hashes}.
Context {D : Type} `{!StorageAPI D} `{!StorageContract D} `{!Volumes D} `{!DiskContract D}.
Context (bitRotAlgo ReleaseTag : string) (md5_Sum : bytes → bytes) (mimedb_DB : string → option string).
Context `{RS : ReedSolomon} (k m : nat) `{!RSContract k m} (bs : nat) (bs_eq : Z.to_nat blockSizeV1 = bs).
Context (bucket object : string) (env : new_env) (dist : list Z) (cls : nat → disk_state).

Let n := (k + m)%nat.
Let tmp := minioMetaTmpBucket.
Let mpv := minioMetaMultipartBucket.
Let uploadID := ne_uploadID env.
Let T := ne_modTime env.
Let dir := upload_dir bucket object uploadID.

(** What a new upload needs of the files: its directory and its temporary names
    are not in use, and uploads.json is absent or readable. *)
Record new_ready (F : nat → files) (u : nat → uploadsV1) : Prop := {
  nr_above : ∀ i a, ancestor a (upload_dir bucket object (ne_uploadID env)) → F i minioMetaMultipartBucket a = None;
  nr_below : ∀ i r, F i minioMetaMultipartBucket (upload_dir bucket object (ne_uploadID env) +:+ "/" +:+ r) = None;
  nr_uploads : ∀ i, uploads_of (F i minioMetaMultipartBucket (uploads_path bucket object)) = Some (u i);
  nr_uploads_below : ∀ i r, F i minioMetaMultipartBucket (uploads_path bucket object +:+ "/" +:+ r) = None;
  nr_id : ne_uploadID env ≠ uploadsJSONFile;
  nr_plain : plain_elem (ne_tmpUploads env);
  nr_fresh : ∀ i, fresh_name (F i) (ne_uploadID env) ∧ fresh_name (F i) (ne_tmpUploads env);
  nr_names : ne_uploadID env ≠ ne_tmpUploads env;
  nr_dist : hashOrder object (Z.of_nat (k + m)) = Ret dist;
}.

Abbreviation by_slot F :=
  (slots (λ s, slot_is (D := D) cls (λ i, disk_has (upload_vols bucket) (F i)) (blk dist s))) (only parsing).

Context (xl : xlObjects D) (Hready : upload_ready (D := D) k m bucket object (ne_uploadID env) T dist cls xl).
Context (F : nat → files) (u : nat → uploadsV1) (Hnew : new_ready F u) (meta : gmap string string).

(** The metadata of an upload without parts. *)
Definition first_upload_meta : xlMetaV1 :=
  XLMetaV1 xlMetaVersion xlMetaFormat (StatInfo 0 (ne_modTime env))
    (ErasureInfo erasureAlgorithmKlauspost (Z.of_nat k) (Z.of_nat m) blockSizeV1 0 dist []) ReleaseTag
    (upload_metadata mimedb_DB meta object) [].

Definition new_meta (i : nat) : xlMetaV1 := set_index first_upload_meta (Z.of_nat (slot_of dist i) + 1).

(** The files with the upload. *)
Definition with_upload (i : nat) : files :=
  fset (fset (F i) minioMetaMultipartBucket (upload_dir bucket object (ne_uploadID env) +:+ "/" +:+ xlMetaJSONFile)
          (Some (json_of (new_meta i))))
    minioMetaMultipartBucket (uploads_path bucket object)
    (uploads_json (ne_uploadID env) (ne_initiated env) false (u i)).

Lemma uploads_path_outside r : uploads_path bucket object ≠ dir +:+ "/" +:+ r.
Proof.
  unfold uploads_path, dir, upload_dir. rewrite <- !str_app_assoc. intros E. do 2 apply slash_cancel in E.
  revert E. apply plain_ne_slash, uploadsJSON_plain.
Qed.

Lemma uploads_below_ne r r' : uploads_path bucket object +:+ "/" +:+ r ≠ dir +:+ "/" +:+ r'.
Proof.
  unfold uploads_path, dir, upload_dir. rewrite <- !str_app_assoc. intros E. do 2 apply slash_cancel in E.
  apply slash_inj in E as [E _]; [by apply (nr_id _ _ Hnew)|apply uploadsJSON_plain|apply Hready].
Qed.

Lemma with_upload_files i :
  upload_files bitRotAlgo md5_Sum k m bs bucket object (ne_uploadID env) T dist ∅ i (new_meta i) (with_upload i).
Proof.
  assert (Hup : ∀ a, ancestor a dir → a ≠ uploads_path bucket object).
  { intros a Ha ->. unfold dir, upload_dir, uploads_path in Ha. destruct Ha as [E|[r E]].
    - do 2 apply slash_cancel in E. by apply (nr_id _ _ Hnew).
    - rewrite <- !str_app_assoc in E. do 2 apply slash_cancel in E. revert E. apply plain_ne_slash, Hready. }
  split.
  - split; try done.
    { repeat constructor. }
    simpl. rewrite <- bs_eq, Z2Nat.id; [done|]. unfold blockSizeV1. lia.
  - exists (json_of (new_meta i)). split; [|by apply (json_of_ok k m bucket object uploadID T dist cls xl)].
    unfold with_upload. rewrite fset_path by (intros E; symmetry in E; by apply uploads_path_outside in E). apply fset_eq.
  - done.
  - intros r r'. unfold with_upload.
    rewrite fset_path by (intros E; symmetry in E; by apply (uploads_path_outside (r +:+ "/" +:+ r')) in E).
    rewrite fset_path; [apply (nr_below _ _ Hnew)|]. intros E%slash_cancel. symmetry in E.
    by apply plain_ne_slash in E; [|apply xlMetaJSON_plain].
  - intros a Ha. unfold with_upload. rewrite fset_path by (by apply Hup).
    rewrite fset_path; [by apply (nr_above _ _ Hnew)|]. by apply (ancestor_file_ne bucket object uploadID).
Qed.

Lemma uploads_path_free i : ffree (F i) minioMetaMultipartBucket (uploads_path bucket object).
Proof.
  split; [|apply (nr_uploads_below _ _ Hnew)]. intros a r E. apply (nr_above _ _ Hnew).
  unfold uploads_path in E. rewrite (str_app_assoc bucket), (str_app_assoc _ object) in E.
  apply slash_ancestor in E; [|apply uploadsJSON_plain].
  unfold upload_dir. rewrite (str_app_assoc bucket), (str_app_assoc _ object).
  right. destruct E as [->|[q ->]]; [by exists uploadID|]. exists (q +:+ "/" +:+ uploadID). by rewrite <- !str_app_assoc.
Qed.

Lemma newMultipartUpload_ok fuel (ds : list (option D)) : by_slot F ds n →
  ∃ ds', newMultipartUpload ReleaseTag mimedb_DB (S fuel) env xl ds bucket object meta =
      Ret (ds', (ne_uploadID env, None)) ∧ by_slot with_upload ds' n.
Proof.
  intros HR. destruct (ur_quorum _ _ _ _ _ _ _ _ _ Hready) as (Hq & Hm & Hup).
  pose proof (ur_dist _ _ _ _ _ _ _ _ _ Hready) as Hdist.
  pose proof (slot_quorum k m bucket object (ne_uploadID env) T dist cls xl Hready) as Hups.
  pose proof (ur_id _ _ _ _ _ _ _ _ _ Hready) as Hid.
  unfold newMultipartUpload, newXLMetaV1. destruct (ur_layout _ _ _ _ _ _ _ _ _ Hready) as [-> ->].
  rewrite <- Nat2Z.inj_add, (nr_dist _ _ Hnew). go_simpl.
  change (set_meta (set_stat _ _) _) with first_upload_meta.
  rewrite (proj1 (upload_dir_path k m bucket object (ne_uploadID env) T dist cls xl Hready)).
  destruct (writeSame_files (upload_vols bucket) (λ s, cls (blk dist s)) n (writeQuorum xl) (readQuorum xl)
    ltac:(done) (λ s, F (blk dist s)) (λ s, json_of (set_index first_upload_meta (Z.of_nat s + 1))) (ne_uploadID env)
    first_upload_meta ds (tmp_in bucket) Hid HR) as (ds1 & -> & Hds1).
  { intros i. by apply (json_of_ok k m bucket object (ne_uploadID env) T dist cls xl). }
  { intros i. apply (nr_fresh _ _ Hnew). }
  set (F1 := λ i, fset (F i) minioMetaTmpBucket (ne_uploadID env +:+ "/" +:+ xlMetaJSONFile) (Some (json_of (new_meta i)))).
  assert (Hds1' : by_slot F1 ds1 n).
  { destruct Hds1 as [Hl Hx]. split; [done|]. intros s x Hs. specialize (Hx s x Hs). unfold slot_is, F1, new_meta in *.
    rewrite (slot_of_blk dist n s Hdist); [exact Hx|]. apply lookup_lt_Some in Hs. lia. }
  destruct (renameObject_files (upload_vols bucket) (λ s, cls (blk dist s)) n (writeQuorum xl) ltac:(done)
    (λ s, F1 (blk dist s)) minioMetaTmpBucket (ne_uploadID env) minioMetaMultipartBucket
    (upload_dir bucket object (ne_uploadID env)) ds1 (tmp_in bucket) (mpv_in bucket)) as (ds2 & -> & Hds2);
    [done|by apply clean_path_plain|by apply (upload_dir_clean k m bucket object (ne_uploadID env) T dist cls xl)|exact Hds1'| |].
  { intros s. unfold F1. split_and!.
    - exists xlMetaJSONFile. rewrite fset_eq. by eexists.
    - split; intros; rewrite fset_vol by done; [|apply (nr_below _ _ Hnew)].
      apply (nr_above _ _ Hnew). right. by eexists.
    - rewrite fset_vol by done. apply (nr_above _ _ Hnew). by left. }
  set (F2 := λ i, fset (F i) minioMetaMultipartBucket (upload_dir bucket object (ne_uploadID env) +:+ "/" +:+ xlMetaJSONFile)
               (Some (json_of (new_meta i)))).
  assert (Hds2' : by_slot F2 ds2 n).
  { eapply (slots_impl (λ s, cls (blk dist s))); [|exact Hds2]. intros s d Hd. eapply disk_has_ext; [|exact Hd].
    intros v p. unfold F2, F1, fmove. case_decide as E; [|case_decide as E'].
    - destruct E as [-> [q ->]%HasPrefix_iff]. rewrite TrimPrefix_app, <- str_app_assoc.
      destruct (decide (q = xlMetaJSONFile)) as [->|Hne]; [by rewrite !fset_eq|].
      rewrite !fset_path by (by intros ?%slash_cancel). rewrite (nr_below _ _ Hnew). apply (nr_fresh _ _ Hnew).
    - destruct E' as [-> [q ->]%HasPrefix_iff]. rewrite fset_vol, <- str_app_assoc by done. symmetry. apply (nr_fresh _ _ Hnew).
    - assert (Hno : ∀ c, fset (F (blk dist s)) minioMetaTmpBucket (ne_uploadID env +:+ "/" +:+ xlMetaJSONFile) c v p = F (blk dist s) v p).
      { intros c. apply fset_ne. intros [= -> ->]. apply E'. split; [done|apply below]. }
      rewrite Hno. symmetry. apply fset_ne. intros [= -> ->]. apply E. split; [done|apply below]. }
  unfold addUploadID.
  destruct (updateUploadJSON_ok bucket object (ne_uploadID env) (ne_tmpUploads env) (ne_initiated env) false) with
    (cls := λ s, cls (blk dist s)) (n := n) (wq := writeQuorum xl) (F := λ s, F2 (blk dist s)) (u := λ s, u (blk dist s))
    (vols := upload_vols bucket) (ds := ds2) as (ds3 & -> & Hds3); try done.
  { by apply (bucket_plain k m bucket object (ne_uploadID env) T dist cls xl). }
  { apply Hready. } { apply Hnew. }
  { intros s. unfold F2. rewrite fset_path by apply uploads_path_outside. apply (nr_uploads _ _ Hnew). }
  { intros s. destruct (uploads_path_free (blk dist s)) as [Ha Hb]. unfold F2. split.
    - intros a r E. rewrite fset_path; [by eapply Ha|]. intros ->. apply (uploads_path_outside (xlMetaJSONFile +:+ "/" +:+ r)).
      rewrite E. unfold dir. by rewrite <- !str_app_assoc.
    - intros r. rewrite fset_path; [apply Hb|]. apply uploads_below_ne. }
  { intros s. destruct (nr_fresh _ _ Hnew (blk dist s)) as [_ [Ha Hb]]. unfold F2. split; intros; by rewrite fset_vol. }
  { apply tmp_in. } { apply mpv_in. }
  destruct (deferred_none k m bucket dist cls xl fuel with_upload (ne_uploadID env) ds3 Hid Hds3)
    as (ds4 & -> & Hds4); [|by exists ds4].
  intros i. destruct (nr_fresh _ _ Hnew i) as [[Ha Hb] _]. unfold with_upload. split; intros; by rewrite !fset_vol.
Qed.

Lemma NewMultipartUpload_ok fuel : by_slot F (storageDisks xl) n →
  ∃ ds, NewMultipartUpload ReleaseTag mimedb_DB (S fuel) env xl bucket object (Some meta) =
      Ret (set_disks xl ds, (ne_uploadID env, None)) ∧ by_slot with_upload ds n.
Proof.
  intros HR. unfold NewMultipartUpload. assert (Hbs : (0 < bs)%nat) by (rewrite <- bs_eq; unfold blockSizeV1; lia).
  destruct (bucket_exists k m bs Hbs bucket object (ne_uploadID env) T dist cls xl Hready (ne_bucket env) F _ HR) as (ds0 & info & -> & Hds0).
  go_simpl. change (checkNewMultipartArgs ?f bucket object) with (checkPutObjectArgs f bucket object).
  rewrite (args_ok k m bucket object (ne_uploadID env) T dist cls xl Hready).
  destruct (newMultipartUpload_ok fuel ds0 Hds0) as (ds & Heq & Hds). change (default ∅ (Some meta)) with meta. rewrite Heq. go_simpl. by exists ds.
Qed.

End New.
