(* ===== verification/XLMultipartFaults.v ===== *)
(** * Where multipart uploads go wrong

    Runs of the operations of [XLMultipart] that end badly: on concrete disks,
    and in general where the fault does not depend on the disks. *)

From S2P Require Import Prelude.
From S2P Require Import GoErrors.
From S2P Require Import GoStrings.
From S2P Require Import Quorum.
From S2P Require Import Distribution.
From S2P Require Import XLMeta.
From S2P Require Import Storage.
From S2P Require Import Erasure.
From S2P Require Import XorCode.
From S2P Require Import ErasureWrite.
From S2P Require Import Healing.
From S2P Require Import ObjCache.
From S2P Require Import ObjectNames.
From S2P Require Import DiskContract.
From S2P Require Import XLDisk.
From S2P Require Import XLCommon.
From S2P Require Import XLBucket.
From S2P Require Import XLObject.
From S2P Require Import XLPut.
From S2P Require Import XLPutGet.
From S2P Require Import TreeWalk.
From S2P Require Import WalkPool.
From S2P Require Import XLList.
From S2P Require Import XLMultipart.

Local Open Scope Z_scope.

(** ** Instances *)

#[export] Program Instance uploadInfo_eq_dec : EqDecision uploadInfo.
Next Obligation. solve_decision. Defined.

#[export] Program Instance uploadInfo_countable : Countable uploadInfo :=
  inj_countable' (λ u, (UploadID u, Deleted u, Initiated u))
    (λ t, let '(i, d, n) := t in {| UploadID := i; Deleted := d; Initiated := n |}) _.
Next Obligation. by intros []. Qed.

#[export] Program Instance uploadsV1_eq_dec : EqDecision uploadsV1.
Next Obligation. solve_decision. Defined.

#[export] Program Instance uploadsV1_countable : Countable uploadsV1 :=
  inj_countable' (λ u, (UpVersion u, UpFormat u, Uploads u))
    (λ t, let '(v, f, l) := t in {| UpVersion := v; UpFormat := f; Uploads := l |}) _.
Next Obligation. by intros []. Qed.

#[export] Instance demo_uploads_json : UploadsJson := {|
  uploads_Marshal u := inl (bytes_of_positive (encode u));
  uploads_Unmarshal b :=
    match decode (positive_of_bytes b) with Some u => inl u | None => inr (ENew "unexpected end of JSON input") end;
|}.

Definition initiated_le (a b : uploadInfo) : Prop := Initiated a ≤ Initiated b.

#[export] Instance initiated_le_dec a b : Decision (initiated_le a b).
Proof. unfold initiated_le. apply _. Defined.

#[export] Instance initiated_le_total : Total initiated_le.
Proof. intros a b. unfold initiated_le. lia. Qed.

#[export] Instance initiated_le_trans : Transitive initiated_le.
Proof. intros a b c. unfold initiated_le. lia. Qed.

#[export] Program Instance merge_sort_uploads : UploadsSort := {| sort_uploads l := merge_sort initiated_le l |}.
Next Obligation. intros l. apply merge_sort_Permutation. Qed.
Next Obligation. intros l. apply (StronglySorted_merge_sort initiated_le). Qed.

#[local] Existing Instance map_order_rev.

(** ** A run on three disks *)

Definition mp_disk : MemDisk :=
  {| mem_files := ∅; mem_vols := {["bucket"; minioMetaTmpBucket; minioMetaMultipartBucket]}; mem_offline := false |}.

Definition mp_xl : xlObjects MemDisk := set_disks put_xl [Some mp_disk; Some mp_disk; Some mp_disk].

Definition mp_new_env : new_env :=
  {| ne_bucket := "1"; ne_modTime := 70; ne_uploadID := "upload"; ne_initiated := 71; ne_tmpUploads := "tmp-1" |}.

Definition mp_part_env (id : string) : part_env :=
  {| pe_bucket := "1"; pe_exists := "2"; pe_again := "3"; pe_online := 80; pe_online2 := 81; pe_modTime := 82;
     pe_tmpPart := id +:+ "-part"; pe_tempXLMeta := id +:+ "-meta" |}.

Definition mp_complete_env : complete_env :=
  {| ce_bucket := "1"; ce_exists := "2"; ce_online := 90; ce_parent := λ _, "3"; ce_modTime := 91; ce_object := "4";
     ce_uniqueID := "id-9"; ce_tmpUploads := "tmp-2" |}.

Definition mp_new (xl : xlObjects MemDisk) :=
  NewMultipartUpload "rel" (λ _, None) 10 mp_new_env xl "bucket" "object" None.

Definition mp_put (xl : xlObjects MemDisk) (id : string) (partID : Z) (data : string) :=
  PutObjectPart blake2bAlgo (λ b, b) 20 (mp_part_env id) xl "bucket" "object" "upload" partID
    (zlen (bytes_of_string data)) {| rd_data := bytes_of_string data; rd_err := io_EOF : error |} "" "".

Definition mp_complete (xl : xlObjects MemDisk) (parts : list completePart) :=
  CompleteMultipartUpload (λ b, b) 20 mp_complete_env xl "bucket" "object" "upload" parts.

Definition mp_part (partID : Z) (data : string) : completePart :=
  {| cp_PartNumber := partID; cp_ETag := hex_encode (bytes_of_string data) |}.

(** The disk of slot [i] goes offline. *)
Definition take_off (i : nat) (xl : xlObjects MemDisk) : xlObjects MemDisk :=
  set_disks xl (<[i := None]> (storageDisks xl)).

(** The disk of slot [i] is back, as it was in [xl0]. *)
Definition come_back (i : nat) (xl0 xl : xlObjects MemDisk) : xlObjects MemDisk :=
  set_disks xl (<[i := default None (storageDisks xl0 !! i)]> (storageDisks xl)).

Definition mp_list_parts (xl : xlObjects MemDisk) :=
  ListObjectParts "1" "2" "3" (λ _, "4") xl "bucket" "object" "upload" 0 1000.

(** An acknowledged part is forgotten.  [PutObjectPart] gives the
    metadata that it writes the new list of parts but not the new modification
    time.  A disk that is offline during the upload of part 1 therefore comes
    back with metadata that counts as current; the upload of part 2 picks it,
    and writes a list without part 1 to all disks.  Both uploads were
    successful; afterwards only part 2 is listed, and the upload can not be
    completed with part 1. *)
Theorem PutObjectPart_forgets_part :
  ('(xl1, created) ← mp_new mp_xl;
   '(xl2, put1) ← mp_put (take_off 1 xl1) "a" 1 "hello";
   '(xl3, put2) ← mp_put (come_back 1 xl1 xl2) "b" 2 "world";
   '(_, (listed, _)) ← mp_list_parts xl3;
   '(_, (_, err)) ← mp_complete xl3 [mp_part 1 "hello"; mp_part 2 "world"];
   mret (created, put1, put2, pi_PartNumber <$> lp_Parts listed, err)) =
  Ret (("upload", None), (cp_ETag (mp_part 1 "hello"), None), (cp_ETag (mp_part 2 "world"), None), [2],
       traceError (Some (InvalidPart : error)) []).
Proof. match goal with |- _ = ?r => vm_cast_no_check (eq_refl r) end. Qed.

(** ** Abort *)

Section Abort.
Context `{GJson, MetaJson, UploadsJson, UploadsSort, MapOrder}.
Context {D : Type} `{!StorageAPI D}.

Lemma cleanup_all_offline fuel path : ∀ (disks disks' : list (option D)) errs,
  cleanup_all fuel path disks = Ret (disks', errs) → None ∈ disks →
  ∃ e, Some e ∈ errs.
Proof.
  induction disks as [|d disks IH]; intros disks' errs Hc Hin; [by apply not_elem_of_nil in Hin|].
  destruct d as [d|]; cbn [cleanup_all] in Hc.
  - apply elem_of_cons in Hin as [?|Hin]; [done|].
    destruct (cleanupDir fuel d _ path) as [[d' e']| |]; try done. cbn [mbind go_bind] in Hc.
    destruct (cleanup_all fuel path disks) as [[ds' es]| |] eqn:E; try done. cbn in Hc. injection Hc as <- <-.
    destruct (IH _ _ eq_refl Hin) as [e He]. exists e. by right.
  - destruct (cleanup_all fuel path disks) as [[ds' es]| |] eqn:E; try done. cbn in Hc. injection Hc as <- <-.
    eexists. by left.
Qed.

Lemma toObjectErr_is_Some e bucket object : is_Some (toObjectErr (Some e) [bucket; object]).
Proof. destruct e; repeat (simpl; case_match); by eexists. Qed.

(** An upload can not be aborted while a disk is offline.
    [cleanupUploadedParts] returns the first error, also that of a slot without
    a disk: however many disks have removed the parts, the abort fails and
    uploads.json keeps the upload. *)
Theorem abortMultipartUpload_offline fuel tmp (xl : xlObjects D) disks bucket object uploadID disks' err :
  None ∈ disks → abortMultipartUpload fuel tmp xl disks bucket object uploadID = Ret (disks', err) →
  is_Some err ∧ ∃ errs, cleanup_all fuel (path_Join [bucket; object; uploadID]) disks = Ret (disks', errs).
Proof.
  intros Hin. unfold abortMultipartUpload, cleanupUploadedParts.
  destruct (cleanup_all _ _ disks) as [[ds errs]| |] eqn:Hc; try done. cbn [mbind go_bind].
  destruct (cleanup_all_offline _ _ _ _ _ Hc Hin) as [e He].
  assert (Hf : Some e ∈ filter (λ e, is_Some e) errs) by (by apply list_elem_of_filter; split; [eexists|]).
  destruct (filter _ errs) as [|[e'|] fs] eqn:E; cbn [mbind go_bind].
  - by apply not_elem_of_nil in Hf.
  - intros [= <- <-]. split; [apply toObjectErr_is_Some|by exists errs].
  - assert (Hx : None ∈ filter (λ e : option error, is_Some e) errs) by (rewrite E; left).
    by apply list_elem_of_filter in Hx as [[] _].
Qed.

End Abort.

Lemma abortMultipartUpload_offline_witness :
  ∃ disks' err, abortMultipartUpload 10 "tmp" mp_xl [Some mp_disk; None; Some mp_disk] "bucket" "object" "upload" =
    Ret (disks', err) ∧ is_Some err.
Proof.
  destruct (abortMultipartUpload 10 "tmp" mp_xl [Some mp_disk; None; Some mp_disk] "bucket" "object" "upload")
    as [[ds e]| |] eqn:E; [|by vm_compute in E|by vm_compute in E].
  exists ds, e. split; [done|].
  apply (abortMultipartUpload_offline 10 "tmp" mp_xl [Some mp_disk; None; Some mp_disk] "bucket" "object" "upload" ds e
    ltac:(right; left) E).
Defined.

(** ** Listing uploads *)

Section List_.
Context `{GJson, MetaJson, UploadsJson, UploadsSort, MapOrder} {D : Type} `{!StorageAPI D}.

(** Listing no uploads ends the server.  A request with a maximum of 0, or
    for a page that the uploads behind the upload id marker fill, starts no walk,
    and puts the nil channels in the pool of walks.  The request succeeds; when
    the timer of the pool expires it closes the nil channel, which panics in a
    goroutine without recovery. *)
Theorem listMultipartUploads_timer_panics fuel env (li : lister D) bucket prefix keyMarker uploadIDMarker delimiter
    maxUploads disks uploads end_ :
  (if bool_decide (uploadIDMarker = "") then mret (li_disks li, ([], false, None))
   else ids_of_object (ue_marker env) (li_disks li) bucket keyMarker uploadIDMarker maxUploads None) =
    Ret (disks, (uploads, end_, None)) →
  maxUploads ≤ zlen uploads →
  ∃ li' r tm, listMultipartUploads fuel env li bucket prefix keyMarker uploadIDMarker delimiter maxUploads =
      Ret (li', (r, None)) ∧
    lm_IsTruncated r = true ∧ tm ∈ timers (li_pool li') ∧ t_phase tm = TimerWaits ∧
    timer_fire (timer_expire (li_pool li') tm) (Timer (t_params tm) (t_walk tm) TimerExpired) = Panic.
Proof.
  intros Hu Hm. unfold listMultipartUploads. rewrite Hu. cbn [mbind go_bind].
  assert ((maxUploads - zlen uploads <=? 0) = true) as -> by lia.
  eexists _, _, _. split; [done|]. split; [done|]. split.
  { simpl. apply elem_of_app. right. left. }
  split; [done|]. unfold timer_fire. by rewrite bool_decide_true.
Qed.

End List_.

Lemma listMultipartUploads_timer_panics_witness :
  ∃ li' r tm, listMultipartUploads 5 {| ue_check := ""; ue_marker := ""; ue_walk := ""; ue_leaf := λ _, ""; ue_entry := λ _, "" |}
      (Lister [Some mp_disk] newTreeWalkPool ∅ 1) "bucket" "" "" "" "" 0 = Ret (li', (r, None)) ∧
    lm_IsTruncated r = true ∧ tm ∈ timers (li_pool li') ∧ t_phase tm = TimerWaits ∧
    timer_fire (timer_expire (li_pool li') tm) (Timer (t_params tm) (t_walk tm) TimerExpired) = Panic.
Proof. by eapply (listMultipartUploads_timer_panics 5). Defined.
