(* ===== verification/XLMultipartGet.v ===== *)
(** * A multipart upload is read back

    The operations of an upload one after the other: what the parts of a request
    hold is what [GetObject] returns for the completed object, after disks have
    gone missing. *)

From stdpp Require Import pretty.
From S2P Require Import Prelude.
From S2P Require Import GoErrors.
From S2P Require Import GoStrings.
From S2P Require Import Quorum.
From S2P Require Import Distribution.
From S2P Require Import XLMeta.
From S2P Require Import Storage.
From S2P Require Import Bpool.
From S2P Require Import Erasure.
From S2P Require Import ErasureSpec.
From S2P Require Import XorCode.
From S2P Require Import ErasureRead.
From S2P Require Import ErasureWrite.
From S2P Require Import Healing.
From S2P Require Import ObjCache.
From S2P Require Import ObjectNames.
From S2P Require Import DiskContract.
From S2P Require Import XLDisk.
From S2P Require Import XLCommon.
From S2P Require Import XLBucket.
From S2P Require Import XLObject.
From S2P Require Import XLPut.
From S2P Require Import XLStage.
From S2P Require Import XLPutGet.
From S2P Require Import XLMultipart.
From S2P Require Import XLFiles.
From S2P Require Import XLUpload.
From S2P Require Import XLUploads.
From S2P Require Import XLComplete.
From S2P Require Import XLNewUpload.
From S2P Require Import XLMultipartFaults.

Local Open Scope Z_scope.

Section Part.
Context `{JsonContract} `{MapOrder, Hashes} `{RS : ReedSolomon}.
Context {D : Type} `{!StorageAPI D} `{!StorageContract D} `{!Volumes D} `{!DiskContract D}.
Context (bitRotAlgo : string) (md5_Sum : bytes → bytes).
Context (k m : nat) `{!RSContract k m} (bs : nat) (bs_pos : (0 < bs)%nat).
Context (bucket object uploadID : string) (T : time) (dist : list Z) (cls : nat → disk_state).

(** Only files of the upload differ. *)
Definition same_outside (F F' : nat → files) : Prop := ∀ i v p,
  v ≠ minioMetaMultipartBucket ∨ HasPrefix p (upload_dir bucket object uploadID +:+ "/") = false → F' i v p = F i v p.

Lemma with_meta_outside (mt : nat → xlMetaV1) F ps N data :
  same_outside F (with_meta bitRotAlgo k m bs bucket object uploadID mt F ps N data).
Proof.
  intros i v p Hp. unfold with_meta, with_part. rewrite !fset_ne; [done| |];
    intros [= -> ->]; destruct Hp as [?|Hp]; try done; by rewrite below in Hp.
Qed.

(** C10.  A part is added to the upload.  With a write quorum of disks and an
    upload whose parts are [parts], [PutObjectPart] succeeds when the size and
    the digests match the data; it returns the checksum of the data, and on every
    disk that is up the upload then has the part with its data in the place of
    any part of that number, and all other parts as they were.  No file outside
    of the directory of the upload is changed. *)
Theorem PutObjectPart_correct (xl : xlObjects D) (parts : gmap Z bytes) (mt : nat → xlMetaV1) (F : nat → files)
    (env : part_env) (N : Z) (data : bytes) (size : Z) (md5Hex sha256sum : string) (fuel : nat) :
  upload_ready k m bucket object uploadID T dist cls xl →
  (∀ i, upload_files bitRotAlgo md5_Sum k m bs bucket object uploadID T dist parts i (mt i) (F i)) →
  slots (λ s, slot_is cls (λ i, disk_has (upload_vols bucket) (F i)) (blk dist s)) (storageDisks xl) (k + m) →
  plain_elem (pe_tmpPart env) → plain_elem (pe_tempXLMeta env) →
  (∀ i, fresh_name (F i) (pe_tmpPart env)) → (∀ i, fresh_name (F i) (pe_tempXLMeta env)) →
  pe_online env ≠ T ∧ pe_online2 env ≠ T →
  size = zlen data ∨ size = -1 → md5Hex = "" ∨ md5Hex = hex_encode (md5_Sum data) →
  sha256sum = "" ∨ sha256sum = hex_encode (sha256_Sum data) → (nblocks bs data < S fuel)%nat →
  ∃ xl' mt' F', PutObjectPart bitRotAlgo md5_Sum (S fuel) env xl bucket object uploadID N size
      {| rd_data := data; rd_err := io_EOF : error |} md5Hex sha256sum =
      Ret (xl', (hex_encode (md5_Sum data), None)) ∧
    upload_ready k m bucket object uploadID T dist cls xl' ∧
    (∀ i, upload_files bitRotAlgo md5_Sum k m bs bucket object uploadID T dist (<[N := data]> parts) i (mt' i) (F' i)) ∧
    slots (λ s, slot_is cls (λ i, disk_has (upload_vols bucket) (F' i)) (blk dist s)) (storageDisks xl') (k + m) ∧
    same_outside F F'.
Proof.
  intros Hready HF HR Hp1 Hp2 Hf1 Hf2 Hl Hs Hm5 Hsh Hfuel.
  destruct (PutObjectPart_ok bitRotAlgo md5_Sum k m bs bs_pos bucket object uploadID T dist cls xl Hready parts mt F HF env N
    data Hp1 Hp2 Hf1 Hf2 Hl size md5Hex sha256sum Hs Hm5 Hsh fuel HR Hfuel) as (ds & j & -> & Hds).
  eexists _, _, _. split; [done|]. split; [by destruct Hready|]. split; [|split; [exact Hds|apply with_meta_outside]].
  intros i. by apply (with_meta_files bitRotAlgo md5_Sum k m bs bucket object uploadID T dist cls xl Hready parts mt F HF).
Qed.

End Part.

(** ** The completed object *)

Section Get.
Context `{JsonContract} `{UC : UploadsContract} `{!UploadsSort, !MapOrder} `{Hashes} `{RS : ReedSolomon}.
Context {D : Type} `{!StorageAPI D} `{!StorageContract D} `{!StorageReads D} `{!Volumes D} `{!DiskContract D}.
Context {W : Type} `{!IOWriter W} `{!IOWriterContract W}.
Context (bitRotAlgo ReleaseTag : string) (md5_Sum : bytes → bytes) (mimedb_DB : string → option string).
Context (k m : nat) `{!RSContract k m} (bs : nat) (bs_pos : (0 < bs)%nat).
Context (bucket object uploadID : string) (T : time) (dist : list Z) (cls : nat → disk_state).

Abbreviation by_slot F :=
  (slots (λ s, slot_is (D := D) cls (λ i, disk_has (upload_vols bucket) (F i)) (blk dist s))) (only parsing).

(** What a read of the object needs, when the disks of the blocks [lost] are
    missing. *)
Record read_ready (xl : xlObjects D) (modTime : time) (reqs : list (Z * bytes)) (lost : nat → bool) (rfuel : nat)
    (pools : nat → BytePool) (timeNow : time) : Prop := {
  rr_left : let left := count_good (λ i, is_up (if lost i then DiskGone else cls i)) (k + m) in
    (k ≤ left)%nat ∧ (k + m < 2 * left)%nat ∧ (2 ≤ readQuorum xl ≤ left)%nat;
  rr_algo : bitRotAlgo ≠ sha256Algo;
  rr_sums : ∀ b, hex_encode (blake2b_Sum b) ≠ "";
  rr_time : modTime ≠ timeSentinel ∧ modTime ≠ timeNow;
  rr_size : is_int64 (zlen (concat reqs.*2));
  rr_fuel : Forall (λ r : Z * bytes, (length r.2 < rfuel)%nat) reqs;
  rr_pools : ∀ i, pool_wf (pools i) ∧ (k + m ≤ length (pool_used (pools i)))%nat ∧
    Z.of_nat bs ≤ Z.of_nat k * Z.of_nat (pool_size (pools i));
}.

Lemma CompleteMultipartUpload_read (xl : xlObjects D) parts mt F u fuel env reqs lost rfuel pools timeNow cacheNow closeNow
    (w : W) off len length_ :
  upload_ready k m bucket object uploadID T dist cls xl →
  (∀ i, upload_files bitRotAlgo md5_Sum k m bs bucket object uploadID T dist parts i (mt i) (F i)) →
  complete_ready k m bucket object uploadID T cls fuel env F u →
  by_slot F (storageDisks xl) (k + m) → objCacheEnabled xl = false →
  req_ok parts reqs → read_ready xl (ce_modTime env) reqs lost rfuel pools timeNow →
  w_accepts w → (0 < len)%nat → (off + len ≤ length (concat reqs.*2))%nat →
  length_ = Z.of_nat len ∨ (length_ < 0 ∧ (off + len = length (concat reqs.*2))%nat) →
  ∃ xl' info, CompleteMultipartUpload md5_Sum (S fuel) env xl bucket object uploadID (req_part md5_Sum <$> reqs) =
      Ret (xl', (info, None)) ∧
    Size info = zlen (concat reqs.*2) ∧ MD5Sum info = upload_md5 md5_Sum reqs ∧
    ∃ xl'' w', GetObject bitRotAlgo rfuel pools timeNow cacheNow closeNow
        (set_disks xl' (lose_disks dist lost (storageDisks xl'))) bucket object
        (Z.of_nat off) length_ (Some w) = Ret (xl'', Some w', None) ∧
      written w' = written w ++ take len (drop off (concat reqs.*2)).
Proof.
  intros Hready HF Hcr HR Hcache Hreq Hrr Hw Hlen Hle Hl.
  destruct (rr_left _ _ _ _ _ _ _ Hrr) as (Hk & Hmaj & Hq2). destruct (rr_time _ _ _ _ _ _ _ Hrr) as [Ht1 Ht2].
  destruct (CompleteMultipartUpload_ok bitRotAlgo md5_Sum k m bs bs_pos bucket object uploadID T dist cls xl Hready parts mt F u
    HF fuel env Hcr reqs Hreq (rr_size _ _ _ _ _ _ _ Hrr) HR Hcache) as (ds & G & j & -> & HG & Hdone).
  eexists _, _. split; [done|]. split; [done|]. split.
  { simpl. by rewrite lookup_insert_eq. }
  cbn [storageDisks set_disks].
  set (rcls := λ i, if lost i then DiskGone else cls i).
  destruct (object_completed bitRotAlgo md5_Sum k m bs bs_pos bucket object uploadID T dist cls xl Hready parts mt F HF env reqs
    Hreq rcls rfuel j (rr_algo _ _ _ _ _ _ _ Hrr) (rr_sums _ _ _ _ _ _ _ Hrr) (rr_fuel _ _ _ _ _ _ _ Hrr) Ht1
    (lose_disks dist lost ds)) as (ds' & metas & errs & Hread & Hov & Hvc).
  { apply lose_slots. eapply (slots_impl (λ s, cls (blk dist s))); [|exact HG]. intros s d Hd. by eapply completed_holds. }
  { exact Hmaj. }
  destruct (GetObject_ok bitRotAlgo rfuel k m bs bucket object (ce_modTime env) (new_parts md5_Sum reqs) reqs.*2 dist
    (λ i, is_up (rcls i)) bs_pos) with (pools := pools) (timeNow := timeNow) (cacheNow := cacheNow) (closeNow := closeNow)
    (xl := set_disks (set_disks xl ds) (lose_disks dist lost ds)) (disks := ds') (metas := metas) (errs := errs) (w := w)
    (off := off) (len := len) (length_ := length_) as (xl' & w' & e & Heq & _ & Hok & Hlive); try done.
  - destruct reqs as [|r reqs]; [simpl in Hle; lia|].
    pose proof (rr_fuel _ _ _ _ _ _ _ Hrr) as Hf. apply Forall_cons in Hf as [Hf _]. lia.
  - destruct Hreq as [Hall _]. unfold new_parts. apply Forall2_fmap_2, Forall2_same_length_lookup. split; [done|].
    intros i r r' Hr Hr'. rewrite Hr in Hr'. injection Hr' as <-. rewrite Forall_lookup in Hall.
    by destruct (Hall i r Hr) as [_ ?].
  - apply Hrr.
  - intros i. destruct (rr_pools _ _ _ _ _ _ _ Hrr i) as (? & ? & Hsz). split_and!; [done|done|].
    unfold ceil_div. apply Nat.lt_succ_r, Nat.Div0.div_lt_upper_bound. pose proof rs_k_pos. nia.
  - unfold checkGetObjArgs, checkBucketAndObjectNames. destruct Hready. by rewrite ur_bucket, ur_object.
  - rewrite Hvc. exact Hq2.
  - assert (e = None) as -> by (by apply Hlive). exists xl', w'. split; [done|]. by apply Hok.
Qed.

(** ** A whole upload *)

(** A client that uploads parts, each with the names and times of its request. *)
Fixpoint put_parts (fuel : nat) (xl : xlObjects D) (puts : list (part_env * (Z * bytes)))
    : go (xlObjects D * list (string * option error)) :=
  match puts with
  | [] => mret (xl, [])
  | (env, (N, data)) :: puts' =>
      '(xl, r) ← PutObjectPart bitRotAlgo md5_Sum fuel env xl bucket object uploadID N (zlen data)
         {| rd_data := data; rd_err := io_EOF : error |} "" "";
      '(xl, rs) ← put_parts fuel xl puts';
      mret (xl, r :: rs)
  end.

(** The parts after the requests: the last one for a number counts. *)
Definition parts_of (parts : gmap Z bytes) (puts : list (part_env * (Z * bytes))) : gmap Z bytes :=
  foldl (λ ps p, <[p.2.1 := p.2.2]> ps) parts puts.

(** The names that a request for a part makes up are not in use. *)
Definition names_fresh (F : nat → files) (T : time) (env : part_env) : Prop :=
  plain_elem (pe_tmpPart env) ∧ plain_elem (pe_tempXLMeta env) ∧
  (∀ i, fresh_name (F i) (pe_tmpPart env) ∧ fresh_name (F i) (pe_tempXLMeta env)) ∧
  pe_online env ≠ T ∧ pe_online2 env ≠ T.

Lemma fresh_outside F F' i id : same_outside bucket object uploadID F F' → fresh_name (F i) id → fresh_name (F' i) id.
Proof. intros Hs [Ha Hb]. split; intros; by rewrite Hs by (by left). Qed.

Lemma same_outside_trans F1 F2 F3 : same_outside bucket object uploadID F1 F2 →
  same_outside bucket object uploadID F2 F3 → same_outside bucket object uploadID F1 F3.
Proof. intros H12 H23 i v p Hp. by rewrite H23, H12. Qed.

Lemma put_parts_ok fuel : ∀ puts xl parts mt F,
  upload_ready k m bucket object uploadID T dist cls xl →
  (∀ i, upload_files bitRotAlgo md5_Sum k m bs bucket object uploadID T dist parts i (mt i) (F i)) →
  by_slot F (storageDisks xl) (k + m) →
  Forall (λ p, names_fresh F T p.1 ∧ (nblocks bs p.2.2 < S fuel)%nat) puts →
  ∃ ds mt' F', put_parts (S fuel) xl puts =
      Ret (set_disks xl ds, (λ p : part_env * (Z * bytes), (hex_encode (md5_Sum p.2.2), None)) <$> puts) ∧
    (∀ i, upload_files bitRotAlgo md5_Sum k m bs bucket object uploadID T dist (parts_of parts puts) i (mt' i) (F' i)) ∧
    by_slot F' ds (k + m) ∧ same_outside bucket object uploadID F F'.
Proof.
  induction puts as [|[env [N data]] puts IH]; intros xl parts mt F Hready HF HR Hfr.
  { exists (storageDisks xl), mt, F. split_and!; [by destruct xl|done|done|by intros ?]. }
  apply Forall_cons in Hfr as [[(Hp1 & Hp2 & Hf & Ht) Hn] Hfr]. simpl in Hp1, Hp2, Hf, Ht, Hn. cbn [put_parts].
  destruct (PutObjectPart_ok bitRotAlgo md5_Sum k m bs bs_pos bucket object uploadID T dist cls xl Hready parts mt F HF env N
    data Hp1 Hp2 ltac:(intros i; apply (Hf i)) ltac:(intros i; apply (Hf i)) Ht (zlen data) "" "" ltac:(by left) ltac:(by left)
    ltac:(by left) fuel HR Hn) as (ds & j & -> & Hds).
  go_simpl. set (F1 := with_meta bitRotAlgo k m bs bucket object uploadID mt F _ N data) in Hds.
  assert (Hout : same_outside bucket object uploadID F F1) by apply with_meta_outside.
  destruct (IH (set_disks xl ds) (<[N := data]> parts)
    (meta_with bitRotAlgo k m bs mt (add_part md5_Sum (mt j) N data) N data) F1) as (ds' & mt' & F' & -> & HF' & HR' & Hout').
  - by destruct Hready.
  - intros i. by apply (with_meta_files bitRotAlgo md5_Sum k m bs bucket object uploadID T dist cls xl Hready parts mt F HF).
  - exact Hds.
  - eapply Forall_impl; [exact Hfr|]. intros [e q] [(? & ? & Hf' & ?) ?]. split; [|done].
    do 2 (split; [done|]). split; [|done]. intros i. split; eapply fresh_outside; [done|apply Hf'|done|apply Hf'].
  - go_simpl. exists ds', mt', F'. split_and!; [done|done|done|by eapply same_outside_trans].
Qed.

End Get.

Section Whole.
Context `{JsonContract} `{UC : UploadsContract} `{!UploadsSort, !MapOrder} `{Hashes} `{RS : ReedSolomon}.
Context {D : Type} `{!StorageAPI D} `{!StorageContract D} `{!StorageReads D} `{!Volumes D} `{!DiskContract D}.
Context {W : Type} `{!IOWriter W} `{!IOWriterContract W}.
Context (bitRotAlgo ReleaseTag : string) (md5_Sum : bytes → bytes) (mimedb_DB : string → option string).
Context (k m : nat) `{!RSContract k m} (bucket object : string) (dist : list Z) (cls : nat → disk_state).
Context (nenv : new_env) (cenv : complete_env).

Let uploadID := ne_uploadID nenv.
Let T := ne_modTime nenv.

(** Nothing is in the way of the object, and the names of the completion are
    not in use. *)
Record place_ready (fuel : nat) (F : nat → files) : Prop := {
  pl_above : ∀ i a, ancestor a object → F i bucket a = None;
  pl_parents : ∀ i a r, object = a +:+ "/" +:+ r → F i bucket (a +:+ "/" +:+ xlMetaJSONFile) = None;
  pl_old : ∀ i, (∃ r, is_Some (F i bucket (object +:+ "/" +:+ r))) ∨ (∀ r, F i bucket (object +:+ "/" +:+ r) = None);
  pl_exists : (∃ i, (i < k + m)%nat ∧ cls i = DiskUp ∧ is_Some (F i bucket (object +:+ "/" +:+ xlMetaJSONFile))) ∨
    (∀ i r, F i bucket (object +:+ "/" +:+ r) = None);
  pl_depth : ∀ i r, is_Some (F i bucket (object +:+ "/" +:+ r)) → (length (Split r "/") ≤ fuel)%nat;
  pl_fuel : (length (Split object "/") ≤ fuel)%nat;
  pl_plain : plain_elem (ce_uniqueID cenv) ∧ plain_elem (ce_tmpUploads cenv);
  pl_fresh : ∀ i, fresh_name (F i) (ce_uniqueID cenv) ∧ fresh_name (F i) (ce_tmpUploads cenv);
  pl_time : ce_online cenv ≠ ne_modTime nenv;
}.

Section Steps.
Context (xl : xlObjects D) (Hready : upload_ready (D := D) k m bucket object (ne_uploadID nenv) (ne_modTime nenv) dist cls xl).
Context (F : nat → files) (u : nat → uploadsV1) (meta : gmap string string).
Context (Hnew : new_ready k m bucket object nenv dist F u).

Let F1 := with_upload ReleaseTag mimedb_DB k m bucket object nenv dist F u meta.

Lemma F1_vol i v p : v ≠ minioMetaMultipartBucket → F1 i v p = F i v p.
Proof. intros Hv. unfold F1, with_upload. by rewrite !fset_vol. Qed.

(** What the upload leaves as it was is what its completion needs. *)
Lemma complete_ready_later fuel F2 : same_outside bucket object (ne_uploadID nenv) F1 F2 → place_ready fuel F →
  complete_ready k m bucket object (ne_uploadID nenv) (ne_modTime nenv) cls fuel cenv F2
    (λ i, updated (ne_uploadID nenv) (ne_initiated nenv) false (u i)).
Proof.
  intros Hs [Habove Hpar Hold Hex Hdepth Hfuel Hplain Hfresh Htime].
  destruct (bucket_ne k m bucket object _ _ dist cls xl Hready) as [_ Hbm].
  assert (Hb : ∀ i p, F2 i bucket p = F i bucket p) by (intros; rewrite Hs by (by left); by apply F1_vol).
  assert (Hfr : ∀ i id, fresh_name (F i) id → fresh_name (F2 i) id).
  { intros i id [Ha Hb']. split; intros; rewrite Hs by (by left); by rewrite F1_vol. }
  assert (Hout : ∀ p, (∀ r, p ≠ upload_dir bucket object (ne_uploadID nenv) +:+ "/" +:+ r) →
    HasPrefix p (upload_dir bucket object (ne_uploadID nenv) +:+ "/") = false).
  { intros p Hp. destruct (HasPrefix p _) eqn:E; [|done]. apply HasPrefix_iff in E as [r ->].
    destruct (Hp r). by rewrite <- str_app_assoc. }
  assert (Hup : ∀ i, F2 i minioMetaMultipartBucket (uploads_path bucket object) =
    uploads_json (ne_uploadID nenv) (ne_initiated nenv) false (u i)).
  { intros i. rewrite Hs by (right; apply Hout; intros r; apply uploads_path_outside). unfold F1, with_upload. apply fset_eq. }
  assert (Hjson : ∀ i, ∃ b, uploads_json (ne_uploadID nenv) (ne_initiated nenv) false (u i) = Some b ∧
    uploads_Unmarshal b = inl (updated (ne_uploadID nenv) (ne_initiated nenv) false (u i))).
  { intros i. unfold uploads_json, emptied. cbn [andb].
    destruct (uploads_total (updated (ne_uploadID nenv) (ne_initiated nenv) false (u i))) as [b Hb']. rewrite Hb'.
    exists b. split; [done|]. by apply uploads_back. }
  split; try done.
  - intros i a Ha. rewrite Hb. by apply Habove.
  - intros i a r E. rewrite Hb. by apply (Hpar i a r).
  - intros i. setoid_rewrite Hb. apply Hold.
  - setoid_rewrite Hb. apply Hex.
  - intros i r. rewrite Hb. apply Hdepth.
  - intros i. rewrite Hup. destruct (Hjson i) as (b & -> & Hb'). simpl. by rewrite Hb'.
  - intros i. rewrite Hup. destruct (Hjson i) as (b & -> & _). by eexists.
  - intros i r. rewrite Hs.
    + unfold F1, with_upload. rewrite fset_path by apply slash_longer.
      rewrite fset_path; [apply (nr_uploads_below _ _ _ _ _ _ _ _ Hnew)|].
      by eapply (uploads_below_ne k m bucket object nenv dist cls xl Hready F u Hnew).
    + right. apply Hout. by eapply (uploads_below_ne k m bucket object nenv dist cls xl Hready F u Hnew).
  - apply Hnew.
  - intros i. destruct (nr_fresh _ _ _ _ _ _ _ _ Hnew i) as [? _]. destruct (Hfresh i). by split_and!; apply Hfr.
Qed.

End Steps.

(** C3.  What is uploaded in parts is read back.  On disks with a write quorum
    where nothing is in the way of the object, [NewMultipartUpload], any number
    of uploads of parts and [CompleteMultipartUpload] with a list of the parts
    (not empty and, but for the last, of the minimal size; the last data uploaded
    for a number counts) succeed, and the result has the length of the parts
    together and the checksum of their checksums.  Let then any disks go missing
    such that the others are a read quorum, more than half and as many as the
    data blocks: [GetObject] writes exactly the requested range of the parts of
    the list one after the other.  The object cache is off, and the checksums are
    those of BLAKE2b. *)
Theorem multipart_round_trip (xl : xlObjects D) (F : nat → files) (u : nat → uploadsV1) (meta : gmap string string)
    (puts : list (part_env * (Z * bytes))) (reqs : list (Z * bytes)) (fuel : nat)
    (lost : nat → bool) (rfuel : nat) pools timeNow cacheNow closeNow (w : W) off len length_ :
  upload_ready k m bucket object (ne_uploadID nenv) (ne_modTime nenv) dist cls xl →
  new_ready k m bucket object nenv dist F u → place_ready fuel F → objCacheEnabled xl = false →
  slots (λ s, slot_is cls (λ i, disk_has (upload_vols bucket) (F i)) (blk dist s)) (storageDisks xl) (k + m) →
  Forall (λ p : part_env * (Z * bytes), names_fresh F (ne_modTime nenv) p.1 ∧ zlen p.2.2 ≤ Z.of_nat fuel * blockSizeV1) puts →
  req_ok (parts_of ∅ puts) reqs →
  read_ready bitRotAlgo k m (Z.to_nat blockSizeV1) cls xl (ce_modTime cenv) reqs lost rfuel pools timeNow →
  w_accepts w → (0 < len)%nat → (off + len ≤ length (concat reqs.*2))%nat →
  length_ = Z.of_nat len ∨ (length_ < 0 ∧ (off + len = length (concat reqs.*2))%nat) →
  ∃ xl1 xl2 xl3 info,
    NewMultipartUpload ReleaseTag mimedb_DB (S fuel) nenv xl bucket object (Some meta) =
      Ret (xl1, (ne_uploadID nenv, None)) ∧
    put_parts bitRotAlgo md5_Sum bucket object (ne_uploadID nenv) (S fuel) xl1 puts =
      Ret (xl2, (λ p : part_env * (Z * bytes), (hex_encode (md5_Sum p.2.2), None)) <$> puts) ∧
    CompleteMultipartUpload md5_Sum (S fuel) cenv xl2 bucket object (ne_uploadID nenv) (req_part md5_Sum <$> reqs) =
      Ret (xl3, (info, None)) ∧
    Size info = zlen (concat reqs.*2) ∧ MD5Sum info = upload_md5 md5_Sum reqs ∧
    ∃ xl4 w', GetObject bitRotAlgo rfuel pools timeNow cacheNow closeNow
        (set_disks xl3 (lose_disks dist lost (storageDisks xl3))) bucket object
        (Z.of_nat off) length_ (Some w) = Ret (xl4, Some w', None) ∧
      written w' = written w ++ take len (drop off (concat reqs.*2)).
Proof.
  intros Hready Hnew Hplace Hcache HR Hputs Hreq Hrr Hw Hlen Hle Hl.
  remember (Z.to_nat blockSizeV1) as bs eqn:Hbs. symmetry in Hbs. 
  assert (Hbz : Z.of_nat bs = blockSizeV1) by (rewrite <- Hbs; apply Z2Nat.id; unfold blockSizeV1; lia).
  assert (bs_pos : (0 < bs)%nat) by (unfold blockSizeV1 in Hbz; lia).
  destruct (NewMultipartUpload_ok ReleaseTag mimedb_DB k m bs Hbs bucket object nenv dist cls xl Hready F u Hnew meta fuel HR)
    as (ds1 & -> & Hds1).
  destruct (put_parts_ok bitRotAlgo md5_Sum k m bs bs_pos bucket object (ne_uploadID nenv) (ne_modTime nenv) dist cls fuel puts
    (set_disks xl ds1) ∅ (new_meta ReleaseTag mimedb_DB k m object nenv dist meta)
    (with_upload ReleaseTag mimedb_DB k m bucket object nenv dist F u meta)) as (ds2 & mt & F2 & Hput & HF2 & Hds2 & Hout).
  { by destruct Hready. }
  { intros i. by eapply (with_upload_files bitRotAlgo ReleaseTag md5_Sum mimedb_DB k m bs Hbs bucket object nenv dist cls xl). }
  { exact Hds1. }
  { eapply Forall_impl; [exact Hputs|]. intros [e [N data]] [(? & ? & Hf & ?) Hz]. cbn [fst snd] in *. split.
    - do 2 (split; [done|]). split; [|done]. intros i. destruct (Hf i) as [[Ha Hb] [Hc Hd]].
      split; split; intros; rewrite F1_vol; done.
    - pose proof (nblocks_lt bs bs_pos data fuel) as Hn. rewrite <- Hbz in Hz. unfold zlen in Hz. lia. }
  assert (Hready2 : upload_ready (D := D) k m bucket object (ne_uploadID nenv) (ne_modTime nenv) dist cls
    (set_disks (set_disks xl ds1) ds2)) by (by destruct Hready).
  assert (Hrr2 : read_ready (D := D) bitRotAlgo k m bs cls (set_disks (set_disks xl ds1) ds2) (ce_modTime cenv) reqs lost rfuel
    pools timeNow) by (by destruct Hrr).
  destruct (CompleteMultipartUpload_read bitRotAlgo md5_Sum k m bs bs_pos bucket object (ne_uploadID nenv) (ne_modTime nenv)
    dist cls (set_disks (set_disks xl ds1) ds2) (parts_of ∅ puts) mt F2
    (λ i, updated (ne_uploadID nenv) (ne_initiated nenv) false (u i)) fuel cenv reqs lost rfuel pools timeNow
    cacheNow closeNow w off len length_ Hready2 HF2) as (xl3 & info & Hc & Hsz & Hm5 & Hget);
    [by eapply complete_ready_later|exact Hds2|exact Hcache|exact Hreq|exact Hrr2|exact Hw|exact Hlen|exact Hle|exact Hl|].
  eexists _, _, xl3, info. split; [done|]. split; [exact Hput|]. by split_and!.
Qed.

End Whole.

(** ** Witnesses *)

#[export] Instance demo_uploads_contract : UploadsContract.
Proof.
  split.
  - intros u. by eexists.
  - intros u b [= <-]. simpl. by rewrite positive_bytes, decode_encode.
Qed.

#[local] Existing Instance map_order_rev.

Definition no_files (_ : nat) : files := λ _ _, None.

Lemma mp_disk_up : up mp_disk.
Proof. split; [done|]. by intros v p [c Hc]. Qed.

Lemma mp_disk_has i : disk_has (upload_vols "bucket") (no_files i) mp_disk.
Proof.
  split; [|done]. intros v Hv. unfold upload_vols in Hv. rewrite !elem_of_cons, elem_of_nil in Hv.
  destruct Hv as [->|[->|[->|[]]]]; by apply (bool_decide_unpack _); vm_compute.
Qed.

Lemma mp_slots :
  slots (λ s, slot_is (λ _, DiskUp) (λ i, disk_has (upload_vols "bucket") (no_files i)) (blk [3; 1; 2] s)) (storageDisks mp_xl) (2 + 1).
Proof.
  split; [done|]. intros s x Hx. assert (x = Some mp_disk) as ->.
  { destruct s as [|[|[|s]]]; simpl in Hx; by simplify_eq. }
  split; [apply mp_disk_up|apply mp_disk_has].
Qed.

Lemma mp_ready : upload_ready 2 1 "bucket" "object" "upload" 70 [3; 1; 2] (λ _, DiskUp) mp_xl.
Proof.
  split; try done.
  1-2: by apply (bool_decide_unpack _); vm_compute.
  - apply (bool_decide_unpack _); by vm_compute.
  - split_and!; apply Nat.leb_le; by vm_compute.
  - intros mt. by eexists.
Qed.

(** An upload without parts, with blocks of 4 bytes. *)
Definition up_meta : xlMetaV1 :=
  XLMetaV1 xlMetaVersion xlMetaFormat (StatInfo 0 70)
    (ErasureInfo erasureAlgorithmKlauspost 2 1 4 0 [3; 1; 2] []) "rel" ∅ [].

Definition up_file : string := "bucket/object/upload/xl.json".

Definition up_files (_ : nat) : files := fset (no_files 0) minioMetaMultipartBucket up_file (Some (json_of up_meta)).

Definition up_disk : MemDisk :=
  {| mem_files := {[ (minioMetaMultipartBucket, up_file) := json_of up_meta ]};
     mem_vols := {["bucket"; minioMetaTmpBucket; minioMetaMultipartBucket]}; mem_offline := false |}.

Definition up_xl : xlObjects MemDisk := set_disks mp_xl [Some up_disk; Some up_disk; Some up_disk].

Lemma up_disk_has i : up up_disk ∧ disk_has (upload_vols "bucket") (up_files i) up_disk.
Proof.
  split.
  - split; [done|]. intros v p [c Hc]. cbn [mem_files up_disk] in Hc. apply lookup_singleton_Some in Hc as [[= <- <-] _].
    by apply (bool_decide_unpack _); vm_compute.
  - split.
    + apply (dh_vols _ _ _ (mp_disk_has i)).
    + intros v p. change (file_at up_disk v p) with (({[ (minioMetaMultipartBucket, up_file) := json_of up_meta ]} : gmap _ _) !! (v, p)).
      unfold up_files, fset. case_decide as E; [rewrite E; by rewrite lookup_singleton_eq|].
      by rewrite lookup_singleton_ne.
Qed.

Lemma up_state i : upload_files blake2bAlgo (λ b, b) 2 1 4 "bucket" "object" "upload" 70 [3; 1; 2] ∅ i up_meta (up_files i).
Proof.
  split.
  - split; try done. repeat constructor.
  - exists (json_of up_meta). split; [apply fset_eq|done].
  - done.
  - intros r r'. unfold up_files. apply fset_path. unfold up_file.
    change "bucket/object/upload/xl.json" with ("bucket/object/upload" +:+ "/" +:+ xlMetaJSONFile).
    intros E%slash_cancel. symmetry in E. by apply plain_ne_slash in E; [|apply xlMetaJSON_plain].
  - intros a Ha. unfold up_files. apply fset_path. by apply (ancestor_file_ne "bucket" "object" "upload" a xlMetaJSONFile).
Qed.

Lemma PutObjectPart_correct_witness :
  ∃ xl', PutObjectPart blake2bAlgo (λ b, b) 20 (mp_part_env "a") up_xl "bucket" "object" "upload" 3 5
      {| rd_data := bytes_of_string "hello"; rd_err := io_EOF : error |} "" "" =
      Ret (xl', (hex_encode (bytes_of_string "hello"), None)).
Proof.
  destruct (PutObjectPart_correct blake2bAlgo (λ b, b) 2 1 4 ltac:(lia) "bucket" "object" "upload" 70 [3; 1; 2] (λ _, DiskUp)
    up_xl ∅ (λ _, up_meta) up_files (mp_part_env "a") 3 (bytes_of_string "hello") 5 "" "" 19) as (xl' & _ & _ & Heq & _).
  - by destruct mp_ready.
  - apply up_state.
  - split; [done|]. intros s x Hx. assert (x = Some up_disk) as ->.
    { destruct s as [|[|[|s]]]; simpl in Hx; by simplify_eq. }
    apply up_disk_has.
  - split_and!; try done; by apply (bool_decide_unpack _); vm_compute.
  - split_and!; try done; by apply (bool_decide_unpack _); vm_compute.
  - done.
  - done.
  - done.
  - by left.
  - by left.
  - by left.
  - apply Nat.leb_le; by vm_compute.
  - by exists xl'.
Defined.

Lemma object_no_slash a r : "object" ≠ a +:+ "/" +:+ r.
Proof. intros E. do 6 (destruct a as [|? a]; simpl in E; [done|injection E as _ E]). by destruct a. Qed.

Definition mp_puts : list (part_env * (Z * bytes)) :=
  [(mp_part_env "a", (1, bytes_of_string "first")); (mp_part_env "b", (2, bytes_of_string "hello"));
   (mp_part_env "c", (2, bytes_of_string "world"))].

Lemma mp_plain id : id ∈ ["a"; "b"; "c"] → names_fresh no_files 70 (mp_part_env id).
Proof.
  rewrite !elem_of_cons, elem_of_nil. intros [->|[->|[->|[]]]];
    (split; [split_and!; try done; by apply (bool_decide_unpack _); vm_compute|];
     split; [split_and!; try done; by apply (bool_decide_unpack _); vm_compute|]; done).
Qed.

(** Part 1 is left out, part 2 is uploaded twice; a disk is lost before the
    read. *)
Lemma multipart_round_trip_witness :
  ∃ xl1 xl2 xl3 info,
    NewMultipartUpload "rel" (λ _, None) 10 mp_new_env mp_xl "bucket" "object" (Some ∅) = Ret (xl1, ("upload", None)) ∧
    put_parts blake2bAlgo (λ b, b) "bucket" "object" "upload" 10 xl1 mp_puts =
      Ret (xl2, (λ p : part_env * (Z * bytes), (hex_encode p.2.2, None)) <$> mp_puts) ∧
    CompleteMultipartUpload (λ b, b) 10 mp_complete_env xl2 "bucket" "object" "upload" [mp_part 2 "world"] =
      Ret (xl3, (info, None)) ∧ Size info = 5 ∧
    ∃ xl4, GetObject blake2bAlgo 20 (λ _, NewBytePool (Z.to_nat blockSizeV1) 3) 1000 1000 1000
      (set_disks xl3 (lose_disks [3; 1; 2] (λ i, i =? 1)%nat (storageDisks xl3))) "bucket" "object" 1 4 (Some []) =
      Ret (xl4, Some (bytes_of_string "orld"), None).
Proof.
  destruct (multipart_round_trip (W := bytes) blake2bAlgo "rel" (λ b, b) (λ _, None) 2 1 "bucket" "object" [3; 1; 2]
    (λ _, DiskUp) mp_new_env mp_complete_env mp_xl no_files (λ _, newUploadsV1 "xl") ∅ mp_puts [(2, bytes_of_string "world")] 9
    (λ i, i =? 1)%nat 20 (λ _, NewBytePool (Z.to_nat blockSizeV1) 3) 1000 1000 1000 [] 1 4 4)
    as (xl1 & xl2 & xl3 & info & Hn & Hp & Hc & Hs & _ & xl4 & w' & Hg & Hw).
  - apply mp_ready.
  - split; try done. split_and!; try done; by apply (bool_decide_unpack _); vm_compute.
  - split; try done.
    + intros i. by right.
    + by right.
    + intros i r []. done.
    + apply Nat.leb_le; by vm_compute.
    + split; (split_and!; try done; by apply (bool_decide_unpack _); vm_compute).
  - done.
  - apply mp_slots.
  - unfold mp_puts. repeat apply Forall_cons_2; [| | |by apply Forall_nil_2];
      (split; [apply mp_plain, (bool_decide_unpack _); by vm_compute|by vm_compute]).
  - split; [apply Forall_singleton; split; [done|apply Nat.leb_le; by vm_compute]|].
    intros [|i] r Hr Hi; simpl in Hi; lia.
  - split.
    + split_and!; apply Nat.leb_le; by vm_compute.
    + done.
    + intros b. by destruct b.
    + done.
    + by vm_compute.
    + apply Forall_singleton, Nat.leb_le. by vm_compute.
    + intros i. split_and!; [apply NewBytePool_wf|cbn [pool_used NewBytePool]; rewrite length_replicate; lia|].
      cbn [pool_size NewBytePool]. rewrite Z2Nat.id; unfold blockSizeV1; lia.
  - done.
  - lia.
  - apply Nat.leb_le; by vm_compute.
  - by left.
  - exists xl1, xl2, xl3, info. split; [exact Hn|]. split; [exact Hp|]. split; [exact Hc|]. split; [exact Hs|].
    exists xl4. change (written w') with w' in Hw. rewrite Hw in Hg. exact Hg.
Defined.
