(* ===== verification/OSFiles.v ===== *)
(** * Files of the operating system

    What the storage backends use of Go's [os], [io/ioutil] and [syscall]: a
    tree of directories and regular files, and the calls on it with the errors
    of Linux.  A call can fail at any time: the faults of a run are a list, one
    for each call to come, and a call that fails changes nothing (a write may
    have written some bytes, and the removal of a directory may have removed
    some of its names). *)

From S2P Require Import Prelude.
From S2P Require Import GoErrors.
From S2P Require Import GoStrings.
From S2P Require Import Storage.
From S2P Require Import ObjectNames.

Local Open Scope Z_scope.

(** ** Errors *)

Inductive errno :=
| EPERM | ENOENT | EIO | EACCES | EEXIST | ENOTDIR | EISDIR | EINVAL | ENOSPC | EROFS | ENAMETOOLONG | ENOSYS
| ENOTEMPTY | EOPNOTSUPP | EBUSY.

#[export] Instance errno_dec : EqDecision errno.
Proof. solve_decision. Defined.

(** An error of [os]: a [*os.PathError], a [*os.LinkError] or a bare
    [syscall.Errno]. *)
Inductive os_error :=
| PathError (e : errno)
| LinkError (e : errno)
| Errno (e : errno).

Definition underlying (e : os_error) : errno := match e with PathError e | LinkError e | Errno e => e end.

Definition os_IsNotExist (e : os_error) : bool := bool_decide (underlying e = ENOENT).
Definition os_IsExist (e : os_error) : bool :=
  bool_decide (underlying e = EEXIST) || bool_decide (underlying e = ENOTEMPTY).
Definition os_IsPermission (e : os_error) : bool :=
  bool_decide (underlying e = EACCES) || bool_decide (underlying e = EPERM).

(** The message of the error, as far as it matters. *)
Definition errno_msg (e : errno) : string :=
  match e with
  | EPERM => "operation not permitted" | ENOENT => "no such file or directory" | EIO => "input/output error"
  | EACCES => "permission denied" | EEXIST => "file exists" | ENOTDIR => "not a directory" | EISDIR => "is a directory"
  | EINVAL => "invalid argument" | ENOSPC => "no space left on device" | EROFS => "read-only file system"
  | ENAMETOOLONG => "file name too long" | ENOSYS => "function not implemented" | ENOTEMPTY => "directory not empty"
  | EOPNOTSUPP => "operation not supported" | EBUSY => "device or resource busy"
  end.

(** The error as an [error] of the server: an error value of its own. *)
Definition os_err (e : os_error) : error := ENew (errno_msg (underlying e)).

(** ** The tree *)

Inductive node := NDir | NFile (content : bytes).

#[export] Instance node_dec : EqDecision node.
Proof. solve_decision. Defined.

(** A name is a list of elements from the root. *)
Abbreviation tree := (gmap (list string) node).

(** A fault of a call; a write has written that many bytes before, and a
    removal of a directory has removed that many names. *)
Abbreviation fault := (option (errno * nat)).

Record osfs := OSFS {
  os_tree : tree;
  os_faults : list fault;
  (** The answer of statfs. *)
  os_statfs : DiskStat;
}.

Definition set_tree (o : osfs) (t : tree) : osfs := OSFS t (os_faults o) (os_statfs o).

(** The modification times that the system reports. *)
Class OSTimes := os_mtime : tree → list string → Z.

Definition NAME_MAX : Z := 255.
Definition PATH_MAX : Z := 4096.

(** The elements of a path, and whether it must name a directory. *)
Definition path_elems (p : string) : list string :=
  filter (λ e, e ≠ "" ∧ e ≠ ".") (Split p "/").

(** The walk from directory [dir] down the elements [rest]. *)
Fixpoint walk (t : tree) (dir rest : list string) : node + errno :=
  match rest with
  | [] => match t !! dir with Some n => inl n | None => inr ENOENT end
  | x :: rest' =>
      match t !! dir with
      | None => inr ENOENT
      | Some (NFile _) => inr ENOTDIR
      | Some NDir => walk t (dir ++ [x]) rest'
      end
  end.

Definition name_ok (p : string) : bool :=
  (zlen (bytes_of_string p) <? PATH_MAX) && forallb (λ e, zlen (bytes_of_string e) <=? NAME_MAX) (path_elems p).

(** The node that a path names. *)
Definition lookup_node (t : tree) (p : string) : node + errno :=
  if negb (name_ok p) then inr ENAMETOOLONG else
  match walk t [] (path_elems p) with
  | inl (NFile c) => if HasSuffix p "/" then inr ENOTDIR else inl (NFile c)
  | r => r
  end.

(** The directory in which a path names an entry. *)
Definition lookup_parent (t : tree) (p : string) : option errno :=
  if negb (name_ok p) then Some ENAMETOOLONG else
  match walk t [] (removelast (path_elems p)) with
  | inl NDir => None
  | inl (NFile _) => Some ENOTDIR
  | inr e => Some e
  end.

(** [k] is below [dir]. *)
Definition below_dir (dir k : list string) : option (list string) :=
  if decide (dir `prefix_of` k) then Some (drop (length dir) k) else None.

(** The names of the entries of a directory, with the type. *)
Definition entries_of (t : tree) (dir : list string) : list (string * node) :=
  omap (λ '(k, n), match below_dir dir k with Some [x] => Some (x, n) | _ => None end) (map_to_list t).

(** ** System calls *)

(** A call either fails with the next fault or does its work. *)
Definition syscall {A} (o : osfs) (f : tree → tree * (A + errno)) : osfs * (A + errno) :=
  match os_faults o with
  | Some (e, _) :: fs => (OSFS (os_tree o) fs (os_statfs o), inr e)
  | fs => let '(t, r) := f (os_tree o) in (OSFS t (tail fs) (os_statfs o), r)
  end.

Section Calls.
Context `{OSTimes, MapOrder}.

Record FInfo := {
  fi_Name : string;
  fi_IsDir : bool;
  fi_Size : Z;
  fi_ModTime : Z;
}.

(** [path.Base]. *)
Definition path_Base (p : string) : string :=
  if bool_decide (p = "") then "."
  else match last (filter (λ e, e ≠ "") (Split p "/")) with None => "/" | Some e => e end.

Definition finfo (t : tree) (p : string) (n : node) : FInfo :=
  {| fi_Name := path_Base p; fi_IsDir := bool_decide (n = NDir);
     fi_Size := match n with NDir => 4096 | NFile c => zlen c end; fi_ModTime := os_mtime t (path_elems p) |}.

Definition sys_stat (p : string) (t : tree) : tree * (FInfo + errno) :=
  (t, match lookup_node t p with inl n => inl (finfo t p n) | inr e => inr e end).

Definition sys_mkdir (p : string) (t : tree) : tree * (unit + errno) :=
  match lookup_parent t p with
  | Some e => (t, inr e)
  | None =>
      match t !! path_elems p with
      | Some _ => (t, inr EEXIST)
      | None => (<[path_elems p := NDir]> t, inl ())
      end
  end.

(** A path with a slash at the end does not name a file. *)
Definition sys_unlink (p : string) (t : tree) : tree * (unit + errno) :=
  match lookup_parent t p with
  | Some e => (t, inr e)
  | None =>
      match lookup_node t p with
      | inr e => (t, inr e)
      | inl NDir => (t, inr EISDIR)
      | inl (NFile _) => (delete (path_elems p) t, inl ())
      end
  end.

Definition sys_rmdir (p : string) (t : tree) : tree * (unit + errno) :=
  match lookup_node t p with
  | inr e => (t, inr e)
  | inl (NFile _) => (t, inr ENOTDIR)
  | inl NDir =>
      match path_elems p, entries_of t (path_elems p) with
      | [], _ => (t, inr EBUSY)
      | _, [] => (delete (path_elems p) t, inl ())
      | _, _ :: _ => (t, inr ENOTEMPTY)
      end
  end.

(** The name of a node after directory [src] is moved to [dst]. *)
Definition moved_key (src dst k : list string) : list string :=
  match below_dir src k with Some r => dst ++ r | None => k end.

Definition move_tree (t : tree) (src dst : list string) : tree :=
  list_to_map (prod_map (moved_key src dst) id <$> map_to_list (delete dst t)).

Definition sys_rename (src dst : string) (t : tree) : tree * (unit + errno) :=
  let s := path_elems src in let d := path_elems dst in
  match lookup_parent t src, lookup_parent t dst with
  | Some e, _ | None, Some e => (t, inr e)
  | None, None =>
      match lookup_node t src with
      | inr e => (t, inr e)
      | inl n =>
          if decide (s = d) then (t, inl ())
          else if bool_decide (n = NDir) && bool_decide (s `prefix_of` d) then (t, inr EINVAL)
          else
            match n, t !! d with
            | NFile _, Some NDir => (t, inr EISDIR)
            | NFile _, _ => if HasSuffix dst "/" then (t, inr ENOTDIR) else (move_tree t s d, inl ())
            | NDir, Some (NFile _) => (t, inr ENOTDIR)
            | NDir, None => (move_tree t s d, inl ())
            | NDir, Some NDir =>
                match entries_of t d with
                | [] => (move_tree t s d, inl ())
                | _ :: _ => (t, inr ENOTEMPTY)
                end
            end
      end
  end.

(** [open] for reading; the descriptor is the name. *)
Definition sys_open (p : string) (t : tree) : tree * (list string + errno) :=
  (t, match lookup_node t p with inl _ => inl (path_elems p) | inr e => inr e end).

(** [open] for writing; a missing file is created if [creat]. *)
Definition sys_open_write (p : string) (creat : bool) (t : tree) : tree * (list string + errno) :=
  match lookup_parent t p with
  | Some e => (t, inr e)
  | None =>
      match lookup_node t p with
      | inl NDir => (t, inr EISDIR)
      | inl (NFile _) => (t, inl (path_elems p))
      | inr ENOENT =>
          if negb creat then (t, inr ENOENT)
          else if HasSuffix p "/" then (t, inr EISDIR)
          else (<[path_elems p := NFile []]> t, inl (path_elems p))
      | inr e => (t, inr e)
      end
  end.

Definition sys_getdents (fd : list string) (t : tree) : tree * (list (string * node) + errno) :=
  (t, match t !! fd with
      | Some NDir => inl (range_order (entries_of t fd))
      | Some (NFile _) => inr ENOTDIR
      | None => inl []
      end).

Definition sys_read (fd : list string) (t : tree) : tree * (bytes + errno) :=
  (t, match t !! fd with Some (NFile c) => inl c | Some NDir => inr EISDIR | None => inl [] end).

(** A write at offset [off]; the error of a write that failed comes after some
    bytes were written. *)
Definition write_at (c : bytes) (off : nat) (b : bytes) : bytes :=
  take off c ++ replicate (off - length c) byte0 ++ b ++ drop (off + length b) c.

Definition put_bytes (t : tree) (fd : list string) (f : bytes → bytes) : tree :=
  match t !! fd with Some (NFile c) => <[fd := NFile (f c)]> t | _ => t end.

(** ** The functions of Go *)

Definition path_error {A} (r : osfs * (A + errno)) : osfs * (A + os_error) :=
  (r.1, match r.2 with inl a => inl a | inr e => inr (PathError e) end).

Definition os_Stat (o : osfs) (p : string) : osfs * (FInfo + os_error) := path_error (syscall o (sys_stat p)).
Definition os_Mkdir (o : osfs) (p : string) : osfs * (unit + os_error) := path_error (syscall o (sys_mkdir p)).

(** [os.Remove]: unlink, then rmdir. *)
Definition os_Remove (o : osfs) (p : string) : osfs * (unit + os_error) :=
  match syscall o (sys_unlink p) with
  | (o, inl _) => (o, inl ())
  | (o, inr e) =>
      match syscall o (sys_rmdir p) with
      | (o, inl _) => (o, inl ())
      | (o, inr e1) => (o, inr (PathError (if bool_decide (e1 = ENOTDIR) then e else e1)))
      end
  end.

Definition os_Rename (o : osfs) (src dst : string) : osfs * (unit + os_error) :=
  let '(o, r) := syscall o (sys_rename src dst) in
  (o, match r with inl _ => inl () | inr e => inr (LinkError e) end).

Definition os_Open (o : osfs) (p : string) : osfs * (list string + os_error) := path_error (syscall o (sys_open p)).

Definition os_OpenFile (o : osfs) (p : string) (creat : bool) : osfs * (list string + os_error) :=
  path_error (syscall o (sys_open_write p creat)).

(** The path of the first [i] elements, as [os.MkdirAll] cuts it. *)
Definition abs_path (es : list string) : string := "/" +:+ Join es "/".

(** [os.MkdirAll] of an absolute path, with the elements that are left in
    reverse. *)
Fixpoint mkdir_all (o : osfs) (rev_elems : list string) : osfs * (unit + os_error) :=
  let p := abs_path (rev rev_elems) in
  match os_Stat o p with
  | (o, inl fi) => (o, if fi_IsDir fi then inl () else inr (PathError ENOTDIR))
  | (o, inr _) =>
      let mk (o : osfs) :=
        match os_Mkdir o p with
        | (o, inl _) => (o, inl ())
        | (o, inr e) =>
            match os_Stat o p with
            | (o, inl fi) => (o, if fi_IsDir fi then inl () else inr e)
            | (o, inr _) => (o, inr e)
            end
        end in
      match rev_elems with
      | [] | [_] => mk o
      | _ :: parent =>
          match mkdir_all o parent with
          | (o, inr e) => (o, inr e)
          | (o, inl _) => mk o
          end
      end
  end.

Definition os_MkdirAll (o : osfs) (p : string) : osfs * (unit + os_error) := mkdir_all o (rev (path_elems p)).

(** [os.RemoveAll]; nothing is there is a success. *)
Definition sys_remove_all (p : string) (t : tree) : tree * (unit + errno) :=
  match lookup_node t p with
  | inr ENOENT => (t, inl ())
  | inr e => (t, inr e)
  | inl _ => (filter (λ kn, ¬ path_elems p `prefix_of` kn.1) t, inl ())
  end.

Definition deeper (a b : list string) : Prop := (length b ≤ length a)%nat.

#[export] Instance deeper_dec : RelDecision deeper := λ a b, decide (length b ≤ length a)%nat.

(** The names that [os.RemoveAll] removes, the deepest first. *)
Definition removal_order (p : string) (t : tree) : list (list string) :=
  merge_sort deeper (filter (λ k, path_elems p `prefix_of` k) (map_to_list t).*1).

(** The fault of a removal comes after that many names were removed. *)
Definition os_RemoveAll (o : osfs) (p : string) : osfs * (unit + os_error) :=
  match os_faults o with
  | Some (e, n) :: fs =>
      (OSFS (foldr delete (os_tree o) (take n (removal_order p (os_tree o)))) fs (os_statfs o), inr (PathError e))
  | _ => path_error (syscall o (sys_remove_all p))
  end.

(** The Stat of an open file. *)
Definition file_Stat (o : osfs) (fd : list string) (p : string) : osfs * (FInfo + os_error) :=
  path_error (syscall o (λ t, (t, match t !! fd with Some n => inl (finfo t p n) | None => inl (finfo t p (NFile [])) end))).

Definition file_read (o : osfs) (fd : list string) : osfs * (bytes + os_error) := path_error (syscall o (sys_read fd)).

(** [ioutil.ReadFile]. *)
Definition ioutil_ReadFile (o : osfs) (p : string) : osfs * (bytes + os_error) :=
  match os_Open o p with
  | (o, inr e) => (o, inr e)
  | (o, inl fd) => file_read o fd
  end.

(** A write to the file: [f] is the content after the given bytes. *)
Definition file_write (o : osfs) (fd : list string) (f : bytes → bytes → bytes) (b : bytes) : osfs * (Z + os_error) :=
  match os_faults o with
  | Some (e, k) :: fs =>
      (OSFS (put_bytes (os_tree o) fd (λ c, f c (take k b))) fs (os_statfs o), inr (PathError e))
  | fs => (OSFS (put_bytes (os_tree o) fd (λ c, f c b)) (tail fs) (os_statfs o), inl (zlen b))
  end.

Definition file_append (o : osfs) (fd : list string) (b : bytes) : osfs * (Z + os_error) := file_write o fd (λ c b, c ++ b) b.

End Calls.

(** ** Paths *)

(** An element that a name can have. *)
Definition os_elem (e : string) : Prop := plain_elem e ∧ zlen (bytes_of_string e) ≤ NAME_MAX.

(** The length of the path with these elements. *)
Definition path_len (es : list string) : Z := foldr (λ e n, 1 + zlen (bytes_of_string e) + n) 0 es.

(** A name that fits; a slash may follow. *)
Definition os_name (es : list string) : Prop := Forall os_elem es ∧ path_len es + 1 < PATH_MAX.

Lemma path_len_app es fs : path_len (es ++ fs) = path_len es + path_len fs.
Proof. induction es as [|e es IH]; [done|]. simpl. rewrite IH. lia. Qed.

Lemma path_len_nonneg es : 0 ≤ path_len es.
Proof. induction es as [|e es IH]; [done|]. simpl. unfold zlen in *. lia. Qed.

Lemma os_name_app_l es fs : os_name (es ++ fs) → os_name es.
Proof.
  intros [Hall Hlen]. apply Forall_app in Hall as [H1 _]. split; [done|]. rewrite path_len_app in Hlen.
  pose proof (path_len_nonneg fs). lia.
Qed.

Lemma os_name_plain es : os_name es → Forall plain_elem es.
Proof. intros [Hall _]. eapply Forall_impl; [exact Hall|]. by intros e [He _]. Qed.

Lemma Split_lead s : Split ("/" +:+ s) "/" = "" :: Split s "/".
Proof. change ("/" +:+ s) with ("" +:+ "/" +:+ s). by rewrite Split_slash. Qed.

Lemma Split_trail s : Split (s +:+ "/") "/" = Split s "/" ++ [""].
Proof. change (s +:+ "/") with (s +:+ "/" +:+ ""). by rewrite Split_slash. Qed.

Lemma path_elems_abs es : Forall plain_elem es → path_elems (abs_path es) = es ∧ path_elems (abs_path es +:+ "/") = es.
Proof.
  intros Hes. assert (Hf : filter (λ e, e ≠ "" ∧ e ≠ ".") es = es).
  { apply filter_all. rewrite Forall_forall in Hes. intros e He. destruct (Hes e He) as (? & ? & _). done. }
  unfold path_elems, abs_path. assert (Hs : filter (λ e, e ≠ "" ∧ e ≠ ".") (Split (Join es "/") "/") = es).
  { destruct es as [|e es]; [done|]. rewrite Split_Join; [done|done|].
    eapply Forall_impl; [exact Hes|]. by intros x (_ & _ & _ & ?). }
  split.
  - rewrite Split_lead, filter_cons, decide_False by (by intros [? _]). done.
  - rewrite <- str_app_assoc. rewrite Split_lead, Split_trail, filter_cons, decide_False by (by intros [? _]).
    rewrite filter_app, Hs. rewrite filter_cons, decide_False by (by intros [? _]). by rewrite app_nil_r.
Qed.

(** A rooted path is cleaned to its elements. *)
Lemma path_Clean_abs p : HasPrefix p "/" = true → Forall (λ e, e = "" ∨ plain_elem e) (Split p "/") →
  path_Clean p = abs_path (filter (λ e, e ≠ "") (Split p "/")).
Proof.
  intros Hp Hall. unfold path_Clean. rewrite Hp, clean_empty by done. simpl rev. rewrite app_nil_l.
  by rewrite bool_decide_false.
Qed.

Lemma Split_abs es : Forall plain_elem es →
  Forall (λ e, e = "" ∨ plain_elem e) (Split (abs_path es) "/") ∧ filter (λ e, e ≠ "") (Split (abs_path es) "/") = es.
Proof.
  intros Hes. unfold abs_path. rewrite Split_lead.
  assert (Hne : filter (λ e, e ≠ "") es = es).
  { apply filter_all. rewrite Forall_forall in Hes. intros e He. by destruct (Hes e He). }
  destruct es as [|e es].
  - split; [by repeat constructor; left|done].
  - rewrite Split_Join; [|done|eapply Forall_impl; [exact Hes|]; by intros x (_ & _ & _ & ?)]. split.
    + constructor; [by left|]. eapply Forall_impl; [exact Hes|]. auto.
    + rewrite filter_cons, decide_False by (intros Hx; by apply Hx). done.
Qed.

Lemma Split_rel es : Forall plain_elem es →
  Forall (λ e, e = "" ∨ plain_elem e) (Split (Join es "/") "/") ∧ filter (λ e, e ≠ "") (Split (Join es "/") "/") = es.
Proof.
  intros Hes. pose proof (Split_abs es Hes) as [H1 H2]. unfold abs_path in H1, H2. rewrite Split_lead in H1, H2.
  apply Forall_cons in H1 as [_ H1]. rewrite filter_cons, decide_False in H2 by (intros Hx; by apply Hx). done.
Qed.

(** Two paths that are joined: the second may end in a slash. *)
Lemma path_Join_abs es p : Forall plain_elem es → Forall (λ e, e = "" ∨ plain_elem e) (Split p "/") → p ≠ "" →
  path_Join [abs_path es; p] = abs_path (es ++ filter (λ e, e ≠ "") (Split p "/")).
Proof.
  intros Hes Hp Hne. unfold path_Join. rewrite filter_all.
  2: { intros x. rewrite elem_of_cons, list_elem_of_singleton. intros [->| ->]; done. }
  change (Join [abs_path es; p] "/") with (abs_path es +:+ "/" +:+ p). destruct (Split_abs es Hes) as [H1 H2].
  rewrite path_Clean_abs.
  - rewrite Split_slash, filter_app, H2. done.
  - unfold abs_path. rewrite <- str_app_assoc. apply HasPrefix_app.
  - rewrite Split_slash. by apply Forall_app.
Qed.

Lemma pathJoin_abs es fs : Forall plain_elem es → Forall plain_elem fs → fs ≠ [] →
  pathJoin [abs_path es; Join fs "/"] = abs_path (es ++ fs) ∧
  pathJoin [abs_path es; Join fs "/" +:+ "/"] = abs_path (es ++ fs) +:+ "/".
Proof.
  intros Hes Hfs Hne. destruct (Split_rel fs Hfs) as [H1 H2].
  assert (Hj : Join fs "/" ≠ "").
  { intros E. rewrite E in H2. cbn in H2. by destruct fs. }
  unfold pathJoin, slashSeparator. cbn [last]. split.
  - rewrite Join_no_trailing, str_app_nil_r by done. by rewrite path_Join_abs, H2.
  - rewrite HasSuffix_app. rewrite path_Join_abs; [|done| |by destruct (Join fs "/")].
    + rewrite Split_trail, filter_app, H2. by rewrite filter_cons, decide_False, app_nil_r by (intros Hx; by apply Hx).
    + rewrite Split_trail. apply Forall_app. split; [done|]. by repeat constructor; left.
Qed.

Lemma path_Split_dir_slash s x : ("/"%char ∉ bytes_of_string x) → path_Split_dir (s +:+ "/" +:+ x) = s +:+ "/".
Proof.
  intros Hx. unfold path_Split_dir. change (bytes_of_string "/") with ["/"%char]. rewrite !bytes_of_string_app.
  change (bytes_of_string "/" ++ ?y) with ("/"%char :: y). rewrite rev_app_distr. cbn [rev]. rewrite <- app_assoc. cbn [app].
  rewrite index_char_found by (by rewrite list_elem_of_In, <- in_rev, <- list_elem_of_In).
  rewrite length_rev, length_app, length_cons.
  replace (length (bytes_of_string s) + S (length (bytes_of_string x)) - length (bytes_of_string x))%nat
    with (length (bytes_of_string s ++ ["/"%char])) by (rewrite length_app; simpl; lia).
  rewrite (cons_middle "/"%char _ (bytes_of_string x)), (app_assoc _ _ (bytes_of_string x)), take_app_length.
  apply bytes_of_string_inj. by rewrite bytes_string_bytes, !bytes_of_string_app.
Qed.

Lemma abs_path_snoc es x : ∃ pre, abs_path (es ++ [x]) = pre +:+ "/" +:+ x ∧
  (es = [] ∧ pre = "" ∨ es ≠ [] ∧ pre = abs_path es).
Proof.
  destruct (decide (es = [])) as [->|Hne].
  - exists "". auto.
  - exists (abs_path es). unfold abs_path. rewrite Join_app by done. rewrite <- str_app_assoc. auto.
Qed.

(** The directory of a path is the path of its directory. *)
Lemma path_Dir_abs es x : Forall plain_elem (es ++ [x]) → path_Dir (abs_path (es ++ [x])) = abs_path es.
Proof.
  intros [Hes Hx]%Forall_app. apply Forall_cons in Hx as [Hx _]. unfold path_Dir.
  destruct (abs_path_snoc es x) as (pre & -> & Hpre). rewrite path_Split_dir_slash by apply Hx.
  destruct Hpre as [[-> ->]|[_ ->]]; [done|]. destruct (Split_abs es Hes) as [H1 H2].
  rewrite path_Clean_abs.
  - rewrite Split_trail, filter_app, H2, filter_cons, decide_False by (intros Hn; by apply Hn). by rewrite app_nil_r.
  - unfold abs_path. rewrite <- str_app_assoc. apply HasPrefix_app.
  - rewrite Split_trail. apply Forall_app. split; [done|]. by repeat constructor; left.
Qed.

Lemma path_Dir_abs_slash es : Forall plain_elem es → path_Dir (abs_path es +:+ "/") = abs_path es.
Proof.
  intros Hes. unfold path_Dir. change (abs_path es +:+ "/") with (abs_path es +:+ "/" +:+ "").
  rewrite path_Split_dir_slash by apply not_elem_of_nil. destruct (Split_abs es Hes) as [H1 H2]. rewrite path_Clean_abs.
  - rewrite Split_trail, filter_app, H2, filter_cons, decide_False by (intros Hn; by apply Hn). by rewrite app_nil_r.
  - unfold abs_path. rewrite <- str_app_assoc. apply HasPrefix_app.
  - rewrite Split_trail. apply Forall_app. split; [done|]. by repeat constructor; left.
Qed.

Lemma abs_path_no_slash es : Forall plain_elem es → es ≠ [] → HasSuffix (abs_path es) "/" = false.
Proof.
  intros Hes Hne. destruct (exists_last Hne) as (fs & x & ->). destruct (abs_path_snoc fs x) as (pre & -> & _).
  apply Forall_app in Hes as [_ Hx]. apply Forall_cons in Hx as [Hx _].
  pose proof (Join_no_trailing [x] ltac:(by constructor)) as Hj. change (Join [x] "/") with x in Hj.
  unfold HasSuffix in *. apply bool_decide_eq_false in Hj. apply bool_decide_eq_false. intros [k Hk]. apply Hj.
  rewrite !bytes_of_string_app in Hk. destruct (bytes_of_string x) as [|c b] eqn:Eb using rev_ind.
  { destruct Hx as [Hx _]. destruct Hx. by apply bytes_of_string_inj. }
  rewrite !app_assoc in Hk. apply app_inj_tail in Hk as [_ ->]. by exists b.
Qed.

Lemma abs_path_len es : zlen (bytes_of_string (abs_path es)) ≤ Z.max 1 (path_len es).
Proof.
  unfold abs_path. rewrite bytes_of_string_app. unfold zlen. rewrite length_app. change (length (bytes_of_string "/")) with 1%nat.
  destruct es as [|e es]; [simpl; lia|].
  assert (Hj : ∀ es e, Z.of_nat (length (bytes_of_string (Join (e :: es) "/"))) = path_len (e :: es) - 1).
  { clear. induction es as [|e' es IH]; intros e; [simpl; unfold zlen; lia|].
    rewrite Join_cons_ne by done. rewrite !bytes_of_string_app, !length_app, !Nat2Z.inj_add, IH. simpl. unfold zlen. lia. }
  rewrite Nat2Z.inj_add, Hj. lia.
Qed.

Lemma name_ok_abs es : os_name es → name_ok (abs_path es) = true ∧ name_ok (abs_path es +:+ "/") = true.
Proof.
  intros [Hall Hlen]. assert (Hp : Forall plain_elem es) by (by apply os_name_plain).
  destruct (path_elems_abs es Hp) as [E1 E2]. pose proof (abs_path_len es) as Hl. pose proof (path_len_nonneg es).
  assert (Hf : forallb (λ e, zlen (bytes_of_string e) <=? NAME_MAX) es = true).
  { apply forallb_forall. intros e He%list_elem_of_In. rewrite Forall_forall in Hall. apply Z.leb_le. by apply Hall. }
  unfold name_ok. rewrite E1, E2, Hf, !andb_true_r. split; apply Z.ltb_lt; unfold PATH_MAX in *; [lia|].
  rewrite bytes_of_string_app. unfold zlen in *. rewrite length_app. change (length (bytes_of_string "/")) with 1%nat. lia.
Qed.

(** ** Trees *)

(** Every node is in a directory. *)
Record tree_ok (t : tree) : Prop := {
  tok_root : t !! [] = Some NDir;
  tok_parent : ∀ k x, is_Some (t !! (k ++ [x])) → t !! k = Some NDir;
}.

Lemma tree_above t k r : tree_ok t → is_Some (t !! (k ++ r)) → r ≠ [] → t !! k = Some NDir.
Proof.
  intros Ht. induction r as [|x r IH] using rev_ind; intros Hk Hr; [done|]. rewrite app_assoc in Hk.
  apply (tok_parent _ Ht) in Hk. destruct (decide (r = [])) as [->|Hne]; [by rewrite app_nil_r in Hk|].
  apply IH; [by eexists|done].
Qed.

Lemma walk_some t dir rest n : tree_ok t → t !! (dir ++ rest) = Some n → walk t dir rest = inl n.
Proof.
  intros Ht. revert dir. induction rest as [|x rest IH]; intros dir Hn; cbn [walk].
  - rewrite app_nil_r in Hn. by rewrite Hn.
  - rewrite (tree_above t dir (x :: rest) Ht) by (by eexists || done). apply IH. by rewrite <- app_assoc.
Qed.

(** A missing node: a file is above it, or it does not exist. *)
Lemma walk_none t dir rest : t !! (dir ++ rest) = None →
  (∀ a r, rest = a ++ r → r ≠ [] → ∀ c, t !! (dir ++ a) ≠ Some (NFile c)) → walk t dir rest = inr ENOENT.
Proof.
  revert dir. induction rest as [|x rest IH]; intros dir Hn Hf; cbn [walk].
  - rewrite app_nil_r in Hn. by rewrite Hn.
  - pose proof (Hf [] (x :: rest) eq_refl ltac:(done)) as H0. rewrite app_nil_r in H0.
    destruct (t !! dir) as [[|c]|]; [|by destruct (H0 c)|done]. apply IH.
    + by rewrite <- app_assoc.
    + intros a r E Hr c. rewrite <- app_assoc. apply (Hf (x :: a) r); [by rewrite E|done].
Qed.

Lemma walk_inv t dir rest n : walk t dir rest = inl n → t !! (dir ++ rest) = Some n.
Proof.
  revert dir. induction rest as [|x rest IH]; intros dir; cbn [walk].
  - rewrite app_nil_r. destruct (t !! dir); [by intros [= ->]|done].
  - destruct (t !! dir) as [[|c]|]; [|done..]. intros Hw. apply IH in Hw. by rewrite <- app_assoc in Hw.
Qed.

(** No file is above the name. *)
Definition no_file_above (t : tree) (es : list string) : Prop :=
  ∀ a r c, es = a ++ r → r ≠ [] → t !! a ≠ Some (NFile c).

Lemma no_file_above_dir t es : tree_ok t → t !! removelast es = Some NDir → no_file_above t es.
Proof.
  intros Ht Hp a r c -> Hr Hc. destruct (exists_last Hr) as (r' & x & ->). rewrite app_assoc, removelast_last in Hp.
  destruct (decide (r' = [])) as [->|Hne].
  - rewrite app_nil_r in Hp. congruence.
  - rewrite (tree_above t a r' Ht) in Hc; [done|by eexists|done].
Qed.

Lemma lookup_node_abs t es (slash : bool) : tree_ok t → os_name es → no_file_above t es →
  lookup_node t (if slash then abs_path es +:+ "/" else abs_path es) =
  match t !! es with
  | Some NDir => inl NDir
  | Some (NFile c) => if slash then inr ENOTDIR else inl (NFile c)
  | None => inr ENOENT
  end.
Proof.
  intros Ht Hes Hf. destruct (name_ok_abs es Hes) as [N1 N2]. pose proof (os_name_plain _ Hes) as Hp.
  destruct (path_elems_abs es Hp) as [E1 E2]. unfold lookup_node.
  assert (Hn : name_ok (if slash then abs_path es +:+ "/" else abs_path es) = true) by (by destruct slash).
  assert (He : path_elems (if slash then abs_path es +:+ "/" else abs_path es) = es) by (by destruct slash).
  rewrite Hn, He. cbn [negb]. destruct (t !! es) as [n|] eqn:E.
  - rewrite (walk_some t [] es n) by done. destruct n as [|c]; [done|]. destruct slash.
    + by rewrite HasSuffix_app.
    + rewrite abs_path_no_slash; [done|done|]. intros ->. by rewrite (tok_root _ Ht) in E.
  - rewrite (walk_none t [] es); [done|done|]. intros a r Ea Hr c. by apply (Hf a r c).
Qed.

Lemma lookup_parent_abs t es (slash : bool) : tree_ok t → os_name es → t !! removelast es = Some NDir →
  lookup_parent t (if slash then abs_path es +:+ "/" else abs_path es) = None.
Proof.
  intros Ht Hes Hp. destruct (name_ok_abs es Hes) as [N1 N2]. pose proof (os_name_plain _ Hes) as Hpl.
  destruct (path_elems_abs es Hpl) as [E1 E2]. unfold lookup_parent.
  assert (Hn : name_ok (if slash then abs_path es +:+ "/" else abs_path es) = true) by (by destruct slash).
  assert (He : path_elems (if slash then abs_path es +:+ "/" else abs_path es) = es) by (by destruct slash).
  rewrite Hn, He. cbn [negb]. by rewrite (walk_some t [] (removelast es) NDir).
Qed.
