(* ===== verification/OSTrees.v ===== *)
(** * Operations on trees of files

    What the calls of [OSFiles] do to the tree, as lookups. *)

From S2P Require Import Prelude.
From S2P Require Import GoErrors.
From S2P Require Import GoStrings.
From S2P Require Import Storage.
From S2P Require Import ObjectNames.
From S2P Require Import OSFiles.

Local Open Scope Z_scope.

Lemma below_dir_Some dir k r : below_dir dir k = Some r ↔ k = dir ++ r.
Proof.
  unfold below_dir. case_decide as Hp.
  - destruct Hp as [r' ->]. rewrite drop_app_length. split; [by intros [= ->]|by intros ->%app_inv_head].
  - split; [done|]. intros ->. destruct Hp. by exists r.
Qed.

Lemma below_dir_None dir k : below_dir dir k = None ↔ ¬ dir `prefix_of` k.
Proof. unfold below_dir. case_decide; naive_solver. Qed.

(** ** Entries *)

Lemma entries_of_elem t dir x n : (x, n) ∈ entries_of t dir ↔ t !! (dir ++ [x]) = Some n.
Proof.
  unfold entries_of. rewrite list_elem_of_omap. split.
  - intros ([k n'] & Hin & Hk). apply elem_of_map_to_list in Hin. destruct (below_dir dir k) as [[|y [|]]|] eqn:E; try done.
    injection Hk as -> ->. apply below_dir_Some in E as ->. done.
  - intros Hk. exists (dir ++ [x], n). split; [by apply elem_of_map_to_list|]. by rewrite (proj2 (below_dir_Some dir (dir ++ [x]) [x])).
Qed.

Lemma entries_of_nil t dir : entries_of t dir = [] ↔ ∀ x, t !! (dir ++ [x]) = None.
Proof.
  split.
  - intros E x. destruct (t !! (dir ++ [x])) as [n|] eqn:En; [|done]. apply entries_of_elem in En. rewrite E in En.
    by apply not_elem_of_nil in En.
  - intros Hn. destruct (entries_of t dir) as [|[x n] l] eqn:E; [done|].
    assert (Hin : (x, n) ∈ entries_of t dir) by (rewrite E; left). apply entries_of_elem in Hin. by rewrite Hn in Hin.
Qed.

Lemma entries_of_nodup t dir : NoDup (entries_of t dir).*1.
Proof.
  assert (Hg : ∀ l : list (list string * node), NoDup l.*1 → NoDup
    (omap (λ '(k, n), match below_dir dir k with Some [x] => Some (x, n) | _ => None end) l).*1 ∧
    ∀ x, x ∈ (omap (λ '(k, n), match below_dir dir k with Some [x] => Some (x, n) | _ => None end) l).*1 → dir ++ [x] ∈ l.*1).
  { induction l as [|[k n] l IH]; intros Hnd; [split; [constructor|by intros x ?%not_elem_of_nil]|].
    apply NoDup_cons in Hnd as [Hk Hnd]. destruct (IH Hnd) as [IH1 IH2]. simpl.
    destruct (below_dir dir k) as [[|x [|]]|] eqn:E; try (split; [done|]; intros y Hy; right; by apply IH2).
    apply below_dir_Some in E as ->. simpl. split.
    - constructor; [|done]. intros Hx. by apply Hk, IH2.
    - intros y [->|Hy]%elem_of_cons; [left|right; by apply IH2]. }
  apply Hg, NoDup_fst_map_to_list.
Qed.

(** A directory below which every directory has an entry holds a file. *)
Lemma dir_has_file (t : tree) dir : is_Some (t !! dir) →
  (∀ r, t !! (dir ++ r) = Some NDir → ∃ x, is_Some (t !! (dir ++ r ++ [x]))) →
  ∃ r c, t !! (dir ++ r) = Some (NFile c).
Proof.
  intros Hd Hne. set (l := filter (λ k, dir `prefix_of` k) (map_to_list t).*1).
  assert (Hl : ∀ k, k ∈ l ↔ dir `prefix_of` k ∧ is_Some (t !! k)).
  { intros k. unfold l. rewrite list_elem_of_filter. f_equiv. split.
    - intros ([k' n] & -> & Hin)%list_elem_of_fmap. apply elem_of_map_to_list in Hin. by eexists.
    - intros [n Hn]. apply list_elem_of_fmap. exists (k, n). split; [done|]. by apply elem_of_map_to_list. }
  assert (Hmax : ∀ l : list (list string), l ≠ [] → ∃ k, k ∈ l ∧ ∀ k', k' ∈ l → (length k' ≤ length k)%nat).
  { clear. induction l as [|k l IH]; [done|]. intros _. destruct l as [|k0 l].
    - exists k. split; [left|]. intros k' ->%list_elem_of_singleton. done.
    - destruct IH as (m & Hm & Hle); [done|]. destruct (decide (length m ≤ length k)%nat) as [Hc|Hc].
      + exists k. split; [left|]. intros k' [->|Hk']%elem_of_cons; [done|]. specialize (Hle k' Hk'). lia.
      + exists m. split; [by right|]. intros k' [->|Hk']%elem_of_cons; [lia|]. by apply Hle. }
  destruct (Hmax l) as (k & Hk & Hle).
  { intros E. assert (Hin : dir ∈ l) by (by apply Hl). rewrite E in Hin. by apply not_elem_of_nil in Hin. }
  apply Hl in Hk as [[r ->] [[|c] Hn]]; [|by exists r, c].
  destruct (Hne r Hn) as [x Hx]. assert (Hin : dir ++ r ++ [x] ∈ l) by (apply Hl; split; [by exists (r ++ [x])|done]).
  apply Hle in Hin. rewrite !length_app in Hin. simpl in Hin. lia.
Qed.

(** ** New directories *)

(** A directory and all directories above it. *)
Definition dirs_map (es : list string) : tree := list_to_map ((λ i, (take i es, NDir)) <$> seq 0 (S (length es))).

Lemma dirs_map_lookup es k : dirs_map es !! k = if decide (k `prefix_of` es) then Some NDir else None.
Proof.
  unfold dirs_map. assert (Hk : ∀ (l : list nat) n, (list_to_map ((λ i, (take i es, NDir)) <$> l) : tree) !! k = Some n ↔
    n = NDir ∧ ∃ i, i ∈ l ∧ k = take i es).
  { induction l as [|i l IH]; intros n; simpl.
    - rewrite lookup_empty. split; [done|]. by intros (_ & i & ?%not_elem_of_nil & _).
    - destruct (decide (take i es = k)) as [<-|Hne].
      + rewrite lookup_insert_eq. split; [intros [= <-]; split; [done|]; exists i; split; [left|done]|by intros [-> _]].
      + rewrite lookup_insert_ne, IH by done. f_equiv. split; intros (j & Hj & ->); exists j; (split; [|done]); [by right|].
        by apply elem_of_cons in Hj as [->|?]. }
  apply option_eq. intros n. rewrite Hk. destruct (decide (k `prefix_of` es)) as [[r ->]|Hn].
  - split; [by intros [-> _]|]. intros [= <-]. split; [done|]. exists (length k).
    rewrite elem_of_seq, length_app, take_app_length. split; [lia|done].
  - split; [|done]. intros (_ & i & _ & ->). destruct Hn. apply prefix_take.
Qed.

(** No element of the path is a file. *)
Definition no_file_on (t : tree) (es : list string) : Prop := ∀ a c, a `prefix_of` es → t !! a ≠ Some (NFile c).

Lemma add_dirs_lookup t es k : (t ∪ dirs_map es) !! k =
  match t !! k with Some n => Some n | None => if decide (k `prefix_of` es) then Some NDir else None end.
Proof. rewrite lookup_union, dirs_map_lookup. destruct (t !! k), (decide _); done. Qed.

Lemma add_dirs_ok t es : tree_ok t → no_file_on t es → tree_ok (t ∪ dirs_map es).
Proof.
  intros [Hroot Hpar] Hno. split.
  - by rewrite add_dirs_lookup, Hroot.
  - intros k x. rewrite !add_dirs_lookup. intros Hs. destruct (t !! (k ++ [x])) as [n|] eqn:En.
    + by rewrite (Hpar k x) by (by eexists).
    + destruct (decide (k ++ [x] `prefix_of` es)) as [Hp|Hp]; [|by destruct Hs].
      assert (Hk : k `prefix_of` es) by (etransitivity; [|exact Hp]; by exists [x]).
      destruct (t !! k) as [[|c]|] eqn:Ek; [done|by destruct (Hno k c Hk)|by rewrite decide_True].
Qed.

Lemma add_dirs_id t es : tree_ok t → t !! es = Some NDir → t ∪ dirs_map es = t.
Proof.
  intros Ht Hes. apply map_eq. intros k. rewrite add_dirs_lookup. destruct (t !! k) eqn:Ek; [done|].
  rewrite decide_False; [done|]. intros [r ->]. destruct (decide (r = [])) as [->|Hr]; [rewrite app_nil_r in Hes; congruence|].
  rewrite (tree_above t k r Ht) in Ek; [done|by eexists|done].
Qed.

Lemma add_dirs_snoc t es x : t !! (es ++ [x]) = None →
  <[es ++ [x] := NDir]> (t ∪ dirs_map es) = t ∪ dirs_map (es ++ [x]).
Proof.
  intros Hn. apply map_eq. intros k. rewrite add_dirs_lookup. destruct (decide (k = es ++ [x])) as [->|Hne].
  - by rewrite lookup_insert_eq, Hn, decide_True.
  - rewrite lookup_insert_ne, add_dirs_lookup by done. destruct (t !! k); [done|]. apply decide_ext. split.
    + intros Hp. by apply prefix_app_r.
    + intros [r E]. destruct r as [|y r] using rev_ind.
      * rewrite app_nil_r in E. congruence.
      * rewrite app_assoc in E. apply app_inj_tail in E as [-> _]. by exists r.
Qed.

(** ** Removal *)

Lemma delete_ok t es : tree_ok t → es ≠ [] → (∀ x, t !! (es ++ [x]) = None) → tree_ok (delete es t).
Proof.
  intros [Hroot Hpar] Hne Hempty. split.
  - by rewrite lookup_delete_ne.
  - intros k x [Hk Hs]%lookup_delete_is_Some. rewrite lookup_delete_ne; [by apply (Hpar k x)|].
    intros ->. by rewrite Hempty in Hs; destruct Hs.
Qed.

(** ** Renames *)

Lemma move_tree_lookup t s d k : ¬ s `prefix_of` d → (∀ r, r ≠ [] → t !! (d ++ r) = None) →
  is_Some (t !! s) → 
  move_tree t s d !! k =
    match below_dir d k with
    | Some r => t !! (s ++ r)
    | None => match below_dir s k with Some _ => None | None => t !! k end
    end.
Proof.
  intros Hsd Hd Hs. assert (Hds : ¬ d `prefix_of` s).
  { intros [r ->]. destruct (decide (r = [])) as [->|Hr]; [apply Hsd; by rewrite app_nil_r|].
    rewrite Hd in Hs by done. by destruct Hs. }
  assert (Hlook : ∀ n, move_tree t s d !! k = Some n ↔ ∃ k0, k = moved_key s d k0 ∧ delete d t !! k0 = Some n).
  { intros n. unfold move_tree. rewrite <- elem_of_list_to_map.
    - rewrite list_elem_of_fmap. split.
      + intros ([k0 n0] & [= -> ->] & Hin). apply elem_of_map_to_list in Hin. eauto.
      + intros (k0 & -> & Hk). exists (k0, n). split; [done|]. by apply elem_of_map_to_list.
    - rewrite <- list_fmap_compose.
      assert (Hnd : NoDup (moved_key s d <$> (map_to_list (delete d t)).*1)); [|by rewrite <- list_fmap_compose in Hnd].
      apply NoDup_fmap_2_strong; [|apply NoDup_fst_map_to_list]. intros k1 k2 H1 H2.
      assert (Hfree : ∀ k', k' ∈ (map_to_list (delete d t)).*1 → ¬ d `prefix_of` k').
      { intros k' ([? n'] & -> & Hin)%list_elem_of_fmap [r Hr]. apply elem_of_map_to_list in Hin. simpl in Hr. subst.
        apply lookup_delete_Some in Hin as [Hne Hin]. destruct (decide (r = [])) as [->|Hr]; [by rewrite app_nil_r in Hne|].
        by rewrite Hd in Hin. }
      unfold moved_key. destruct (below_dir s k1) as [r1|] eqn:E1, (below_dir s k2) as [r2|] eqn:E2.
      + apply below_dir_Some in E1 as ->. apply below_dir_Some in E2 as ->. by intros ->%app_inv_head.
      + intros <-. destruct (Hfree _ H2). by exists r1.
      + intros ->. destruct (Hfree _ H1). by exists r2.
      + done. }
  apply option_eq. intros n. rewrite Hlook. unfold moved_key. destruct (below_dir d k) as [r|] eqn:Ed.
  - apply below_dir_Some in Ed as ->. split.
    + intros (k0 & E & Hk). destruct (below_dir s k0) as [r0|] eqn:E0.
      * apply app_inv_head in E as ->. apply below_dir_Some in E0 as ->. by apply lookup_delete_Some in Hk as [_ ?].
      * subst k0. apply lookup_delete_Some in Hk as [Hne Hk]. destruct (decide (r = [])) as [->|Hr]; [by rewrite app_nil_r in Hne|].
        by rewrite Hd in Hk.
    + intros Hk. exists (s ++ r). rewrite (proj2 (below_dir_Some s (s ++ r) r)) by done. split; [done|].
      rewrite lookup_delete_ne; [done|]. intros E. destruct Hsd. rewrite E. by exists r.
  - apply below_dir_None in Ed. destruct (below_dir s k) as [r|] eqn:Es.
    + split; [|done]. intros (k0 & E & Hk). destruct (below_dir s k0) as [r0|] eqn:E0.
      * subst k. destruct Ed. by exists r0.
      * congruence.
    + split.
      * intros (k0 & E & Hk). destruct (below_dir s k0) as [r0|] eqn:E0; [subst k; destruct Ed; by exists r0|].
        subst. by apply lookup_delete_Some in Hk as [_ ?].
      * intros Hk. exists k. rewrite Es. split; [done|]. rewrite lookup_delete_ne; [done|]. intros <-. by destruct Ed.
Qed.
