(* ===== verification/Posix.v ===== *)
(** * POSIX storage

    The disk of a node on its file system (src/cmd/posix.go,
    posix-list-dir-nix.go, posix-errors.go, posix-utils_common.go,
    posix-utils_nix.go, fallocate_linux.go), as built on Linux: the branches for
    other systems are left out.  An operation is a computation on the disk that
    returns a value or an error, an error of the server or of [os]. *)

From Stdlib Require Import SpecFloat.
From S2P Require Import Prelude.
From S2P Require Import GoErrors.
From S2P Require Import GoStrings.
From S2P Require Import Storage.
From S2P Require Import ObjectNames.
From S2P Require Import OSFiles.

Local Open Scope Z_scope.

Definition fsMinFreeSpace : Z := 1024 * 1024 * 1024.
Definition fsMinFreeInodes : Z := 10000.
Definition maxAllowedIOError : Z := 5.

Record posix := Posix {
  ioErrCount : Z;
  diskPath : string;
  px_minFreeSpace : Z;
  px_minFreeInodes : Z;
  (** The files of the system. *)
  px_os : osfs;
}.

Definition set_os (s : posix) (o : osfs) : posix :=
  Posix (ioErrCount s) (diskPath s) (px_minFreeSpace s) (px_minFreeInodes s) o.

Definition inc_ioErrCount (s : posix) : posix :=
  Posix (ioErrCount s + 1) (diskPath s) (px_minFreeSpace s) (px_minFreeInodes s) (px_os s).

(** ** Computations *)

(** An error of the server, or one of the system that is passed on. *)
Abbreviation perr := (error + os_error)%type.

Definition px (A : Type) : Type := posix → posix * (A + perr).

#[export] Instance px_ret : MRet px := λ A a s, (s, inl a).
#[export] Instance px_bind : MBind px := λ A B f m s,
  match m s with
  | (s, inl a) => f a s
  | (s, inr e) => (s, inr e)
  end.

Definition px_fail {A} (e : perr) : px A := λ s, (s, inr e).

Definition server_err (e : error) : perr := inl e.
Definition system_err (e : os_error) : perr := inr e.

(** A call of the system, with its errors translated. *)
Definition px_call {A} (f : osfs → osfs * (A + os_error)) (conv : os_error → perr) : px A := λ s,
  let '(o, r) := f (px_os s) in
  (set_os s o, match r with inl a => inl a | inr e => inr (conv e) end).

(** A call whose error the code looks at. *)
Definition px_try {A} (f : osfs → osfs * (A + os_error)) : px (A + os_error) := λ s,
  let '(o, r) := f (px_os s) in (set_os s o, inl r).

(** A computation whose error is not looked at. *)
Definition px_ignore {A} (m : px A) : px unit := λ s, ((m s).1, inl ()).

(** A computation whose every error becomes [e]. *)
Definition px_mask {A} (e : perr) (m : px A) : px A := λ s,
  match m s with (s, inr _) => (s, inr e) | r => r end.

(** A call of [syscall] itself: its errors are bare. *)
Definition px_raw {A} (f : tree → tree * (A + errno)) : osfs → osfs * (A + os_error) := λ o,
  let '(o, r) := syscall o f in (o, match r with inl a => inl a | inr e => inr (Errno e) end).

Definition px_get : px posix := λ s, (s, inl s).

(** The deferred count of input/output errors: it sees bare [syscall.EIO]
    only. *)
Definition counting {A} (m : px A) : px A := λ s,
  match m s with
  | (s, inr (inr (Errno EIO))) => (inc_ioErrCount s, inr (inr (Errno EIO)))
  | r => r
  end.

Definition perr_err (e : perr) : error := match e with inl e => e | inr e => os_err e end.

(** The results of the interface. *)
Definition px_err (r : posix * (unit + perr)) : posix * option error :=
  (r.1, match r.2 with inl _ => None | inr e => Some (perr_err e) end).

Definition px_val {A} (dflt : A) (r : posix * (A + perr)) : posix * (A * option error) :=
  (r.1, match r.2 with inl a => (a, None) | inr e => (dflt, Some (perr_err e)) end).

(** ** Errors of the system *)

Definition isSysErrNoSys (e : errno) : bool := bool_decide (e = ENOSYS).
Definition isSysErrOpNotSupported (e : errno) : bool := bool_decide (e = EOPNOTSUPP).
Definition isSysErrNoSpace (e : errno) : bool := bool_decide (e = ENOSPC).
Definition isSysErrIO (e : errno) : bool := bool_decide (e = EIO).

Definition path_err_is (want : errno) (e : os_error) : bool :=
  match e with PathError e => bool_decide (e = want) | _ => false end.

Definition isSysErrIsDir : os_error → bool := path_err_is EISDIR.
Definition isSysErrNotDir : os_error → bool := path_err_is ENOTDIR.
Definition isSysErrTooLong : os_error → bool := path_err_is ENAMETOOLONG.
Definition isSysErrNotEmpty : os_error → bool := path_err_is ENOTEMPTY.

(** ** Names *)

(** The length of every element is checked, from the last to the first; the
    path gets shorter in every round. *)
Fixpoint checkPathLength_loop (fuel : nat) (pathName : string) : option error :=
  match fuel with
  | O => None
  | S fuel' =>
      if bool_decide (pathName = "") || bool_decide (pathName = ".") || bool_decide (pathName = "/") then None
      else
        let dir := path_Dir pathName in
        let file := path_Base pathName in
        if 255 <? zlen (bytes_of_string file) then Some (errFileNameTooLong : error)
        else checkPathLength_loop fuel' dir
  end.

Definition checkPathLength (pathName : string) : option error :=
  checkPathLength_loop (S (length (bytes_of_string pathName))) pathName.

Definition isValidVolname (volname : string) : bool :=
  negb ((zlen (bytes_of_string volname) <? 3) || (63 <? zlen (bytes_of_string volname))).

Definition posixReservedPrefix : list string := ["$tmpfile"].

Definition hasPosixReservedPrefix (name : string) : bool := existsb (λ key, HasPrefix name key) posixReservedPrefix.

Section Posix.
Context `{OSTimes, MapOrder}.
(** [filepath.Abs] asks for the working directory. *)
Context (filepath_Abs : string → string + perr).

Definition px_checkPathLength (p : string) : px unit :=
  match checkPathLength p with None => mret () | Some e => px_fail (server_err e) end.

(** ** Directories *)

Definition isDirEmpty (dirname : string) : px bool :=
  r ← px_try (λ o, os_Open o dirname);
  match r with
  | inr _ => mret false
  | inl fd =>
      (* One entry is read; the end of the directory is io.EOF. *)
      r ← px_try (λ o, path_error (syscall o (sys_getdents fd)));
      mret (match r with inl [] => true | _ => false end)
  end.

(** The entries of the directory, without those that are not shown. *)
Definition parseDirents (ents : list (string * node)) : list string :=
  omap (λ '(name, n),
    if bool_decide (name = ".") || bool_decide (name = "..") then None
    else if hasPosixReservedPrefix name then None
    else Some (match n with NDir => name +:+ slashSeparator | NFile _ => name end)) ents.

(** The error text holds the path. *)
Definition open_msg (p : string) (e : os_error) : string := "open " +:+ p +:+ ": " +:+ errno_msg (underlying e).

(** The entries come with the first call here, and the next one finds the end. *)
Definition readDir (dirPath : string) : px (list string) :=
  d ← px_call (λ o, os_Open o dirPath) (λ err,
    if os_IsNotExist err then server_err errFileNotFound
    else if os_IsPermission err then server_err errFileAccessDenied
    else if Contains (open_msg dirPath err) "not a directory" then server_err errFileNotFound
    else system_err err);
  ents ← px_call (px_raw (sys_getdents d)) system_err;
  _ ← px_call (px_raw (λ t, (t, inl ()))) system_err;
  mret (parseDirents ents).

(** ** The disk *)

(** [int64(float64(free) * 0.95)] in binary64; the constant is
    8556839292003942 / 2^53. *)
Definition trunc_float (f : spec_float) : Z :=
  match f with
  | S754_finite s m e => (if s then -1 else 1) * Z.shiftl (Z.pos m) e
  | _ => 0
  end.

Definition availableDiskSpace (free : Z) : Z :=
  trunc_float (SFmul 53 1024 (binary_normalize 53 1024 free 0 false) (S754_finite false 8556839292003942 (-53))).

Definition disk_GetInfo (path : string) : osfs → osfs * (DiskStat + os_error) := λ o,
  px_raw (λ t, (t, match lookup_node t path with inl _ => inl (os_statfs o) | inr e => inr e end)) o.

(** The type of the file system is asked for with a call of its own. *)
Definition getDiskInfo (path : string) : px DiskStat :=
  _ ← px_checkPathLength path;
  let conv err := if os_IsNotExist err then server_err errDiskNotFound else system_err err in
  di ← px_call (disk_GetInfo path) conv;
  _ ← px_call (disk_GetInfo path) conv;
  mret di.

Definition checkDiskFree : px unit :=
  s ← px_get;
  di ← getDiskInfo (diskPath s);
  if availableDiskSpace (DiskFree di) <=? px_minFreeSpace s then px_fail (server_err errDiskFull)
  else if negb (DiskFiles di =? 0) && (DiskFfree di <=? px_minFreeInodes s) then px_fail (server_err errDiskFull)
  else mret ().

Definition newPosix (o : osfs) (path : string) : osfs * (posix + perr) :=
  if bool_decide (path = "") then (o, inr (server_err errInvalidArgument)) else
  match filepath_Abs path with
  | inr e => (o, inr e)
  | inl diskPath =>
      let finish (o : osfs) :=
        match checkDiskFree (Posix 0 diskPath fsMinFreeSpace fsMinFreeInodes o) with
        | (fs, inl _) => (px_os fs, inl fs)
        | (fs, inr e) => (px_os fs, inr e)
        end in
      match os_Stat o diskPath with
      | (o, inl fi) => if negb (fi_IsDir fi) then (o, inr (system_err (Errno ENOTDIR))) else finish o
      | (o, inr err) =>
          if os_IsNotExist err then
            match os_MkdirAll o diskPath with
            | (o, inr e) => (o, inr (system_err e))
            | (o, inl _) => finish o
            end
          else finish o
      end
  end.

Definition px_DiskInfo : px DiskStat := s ← px_get; getDiskInfo (diskPath s).

Definition getVolDir (volume : string) : px string :=
  s ← px_get;
  if negb (isValidVolname volume) then px_fail (server_err errInvalidArgument)
  else mret (pathJoin [diskPath s; volume]).

Definition checkDiskFound : px unit :=
  s ← px_get;
  _ ← px_call (λ o, os_Stat o (diskPath s)) (λ err,
    if os_IsNotExist err then server_err errDiskNotFound
    else if isSysErrTooLong err then server_err errFileNameTooLong
    else system_err err);
  mret ().

(** What every operation starts with: a disk with too many errors is given up,
    and the disk has to be there. *)
Definition px_begin : px unit :=
  s ← px_get;
  if maxAllowedIOError <? ioErrCount s then px_fail (server_err errFaultyDisk) else checkDiskFound.

(** The directory of a volume that has to exist. *)
Definition px_statVol (volumeDir : string) : px FInfo :=
  px_call (λ o, os_Stat o volumeDir)
    (λ err, if os_IsNotExist err then server_err errVolumeNotFound else system_err err).

Definition px_volume (volume : string) : px string :=
  _ ← px_begin;
  volumeDir ← getVolDir volume;
  _ ← px_statVol volumeDir;
  mret volumeDir.

(** ** Volumes *)

Definition px_MakeVol (volume : string) : px unit := counting (
  _ ← px_begin;
  volumeDir ← getVolDir volume;
  px_call (λ o, os_Mkdir o volumeDir) (λ err,
    if os_IsExist err then server_err errVolumeExists
    else if os_IsPermission err then server_err errDiskAccessDenied
    else system_err err)).

Fixpoint listVols_entries (dirPath : string) (entries : list string) : px (list VolInfo) :=
  match entries with
  | [] => mret []
  | entry :: entries' =>
      if negb (HasSuffix entry slashSeparator) || negb (isValidVolname (path_Clean entry))
      then listVols_entries dirPath entries'
      else
        r ← px_try (λ o, os_Stat o (pathJoin [dirPath; entry]));
        match r with
        | inr err => if os_IsNotExist err then listVols_entries dirPath entries' else px_fail (system_err err)
        | inl fi =>
            vols ← listVols_entries dirPath entries';
            mret ({| VolName := fi_Name fi; VolCreated := fi_ModTime fi |} :: vols)
        end
  end.

(** Every error of the listing is [errDiskNotFound]. *)
Definition listVols (dirPath : string) : px (list VolInfo) :=
  _ ← px_checkPathLength dirPath;
  entries ← px_mask (server_err errDiskNotFound) (readDir dirPath);
  listVols_entries dirPath entries.

Definition px_ListVols : px (list VolInfo) := counting (
  _ ← px_begin;
  s ← px_get;
  listVols (diskPath s)).

Definition px_StatVol (volume : string) : px VolInfo := counting (
  _ ← px_begin;
  volumeDir ← getVolDir volume;
  st ← px_statVol volumeDir;
  mret {| VolName := volume; VolCreated := fi_ModTime st |}).

Definition px_DeleteVol (volume : string) : px unit := counting (
  _ ← px_begin;
  volumeDir ← getVolDir volume;
  px_call (λ o, os_Remove o volumeDir) (λ err,
    if os_IsNotExist err then server_err errVolumeNotFound
    else if isSysErrNotEmpty err then server_err errVolumeNotEmpty
    else system_err err)).

Definition px_ListDir (volume dirPath : string) : px (list string) := counting (
  volumeDir ← px_volume volume;
  readDir (pathJoin [volumeDir; dirPath])).

(** ** Reading *)

Definition px_ReadAll (volume path : string) : px bytes := counting (
  volumeDir ← px_volume volume;
  let filePath := pathJoin [volumeDir; path] in
  _ ← px_checkPathLength filePath;
  px_call (λ o, ioutil_ReadFile o filePath) (λ err,
    if os_IsNotExist err then server_err errFileNotFound
    else if os_IsPermission err then server_err errFileAccessDenied
    else if isSysErrNotDir err || isSysErrIsDir err then server_err errFileNotFound
    else system_err err)).

(** [io.ReadFull] from an offset of an open file.  When the reads fail with a
    fault [(e, k)], [k] bytes at most were read before: they are in the buffer and
    are counted, and if they fill it, the call has succeeded. *)
Definition file_ReadFull (o : osfs) (fd : list string) (offset : Z) (buf : bytes) : osfs * (bytes * Z * option error + os_error) :=
  let '(o', r) := file_read o fd in
  (o', match os_faults o, r with
       | Some (e, k) :: _, _ =>
           let c := match os_tree o !! fd with Some (NFile c) => c | _ => [] end in
           let got := take k (take (length buf) (drop (Z.to_nat offset) c)) in
           inl (got ++ drop (length got) buf, zlen got, if (length got =? length buf)%nat then None else Some (os_err (PathError e)))
       | _, inl c => inl (readFull c offset buf)
       | _, inr e => inr e
       end).

(** The buffer after the call and the number of bytes are in the result also
    when the end of the file or an error is met. *)
Definition px_ReadFile (volume path : string) (offset : Z) (buf : bytes) : px (bytes * Z * option error) := counting (
  volumeDir ← px_volume volume;
  let filePath := pathJoin [volumeDir; path] in
  _ ← px_checkPathLength filePath;
  file ← px_call (λ o, os_Open o filePath) (λ err,
    if os_IsNotExist err then server_err errFileNotFound
    else if os_IsPermission err then server_err errFileAccessDenied
    else if isSysErrNotDir err then server_err errFileAccessDenied
    else system_err err);
  st ← px_call (λ o, file_Stat o file filePath) system_err;
  if fi_IsDir st then px_fail (server_err errIsNotRegular) else
  _ ← px_call (λ o, path_error (syscall o (λ t, (t, if offset <? 0 then inr EINVAL else inl ())))) system_err;
  px_call (λ o, file_ReadFull o file offset buf) system_err).

(** ** Writing *)

Definition createFile (volume path : string) : px (list string) := counting (
  volumeDir ← px_volume volume;
  let filePath := pathJoin [volumeDir; path] in
  _ ← px_checkPathLength filePath;
  r ← px_try (λ o, os_Stat o filePath);
  _ ← match r with
      | inl st => if fi_IsDir st then px_fail (server_err errIsNotRegular) else mret ()
      | inr _ =>
          px_call (λ o, os_MkdirAll o (path_Dir filePath)) (λ err,
            if isSysErrNotDir err then server_err errFileAccessDenied else system_err err)
      end;
  px_call (λ o, os_OpenFile o filePath true) (λ err,
    if isSysErrNotDir err then server_err errFileAccessDenied else system_err err)).

(** The space is allocated without a change of the size. *)
Definition Fallocate (len : Z) : px (option errno) :=
  if len =? 0 then mret None
  else r ← px_try (px_raw (λ t, (t, inl ())));
       mret (match r with inl _ => None | inr e => Some (underlying e) end).

Definition px_PrepareFile (volume path : string) (fileSize : Z) : px unit :=
  if fileSize <=? 0 then px_fail (server_err errInvalidArgument) else counting (
    s ← px_get;
    if maxAllowedIOError <? ioErrCount s then px_fail (server_err errFaultyDisk) else
    _ ← checkDiskFree;
    _ ← createFile volume path;
    e ← Fallocate fileSize;
    match e with
    | Some e =>
        if isSysErrNoSys e || isSysErrOpNotSupported e then mret ()
        else if isSysErrNoSpace e then px_fail (server_err errDiskFull)
        else if isSysErrIO e then px_fail (system_err (Errno e))
        else px_fail (server_err errUnexpected)
    | None => mret ()
    end).

(** The reader writes itself: one write, and none of no bytes. *)
Definition px_AppendFile (volume path : string) (buf : bytes) : px unit := counting (
  s ← px_get;
  if maxAllowedIOError <? ioErrCount s then px_fail (server_err errFaultyDisk) else
  w ← createFile volume path;
  match buf with
  | [] => mret ()
  | _ => _ ← px_call (λ o, file_append o w buf) system_err; mret ()
  end).

Definition px_StatFile (volume path : string) : px FileInfo := counting (
  volumeDir ← px_volume volume;
  let filePath := path_Join [volumeDir; path] in
  _ ← px_checkPathLength filePath;
  st ← px_call (λ o, os_Stat o filePath) (λ err,
    if os_IsNotExist err then server_err errFileNotFound
    else if isSysErrNotDir err then server_err errFileNotFound
    else system_err err);
  if fi_IsDir st then px_fail (server_err errFileNotFound)
  else mret {| FileVolume := volume; FileName := path; FileModTime := fi_ModTime st; FileSize := fi_Size st; FileMode := 0 |}).

(** ** Deleting and renaming *)

(** The path is removed, and the directories above it while they are empty;
    every round works on a shorter path. *)
Fixpoint deleteFile (fuel : nat) (basePath deletePath : string) : px unit :=
  match fuel with
  | O => px_fail (server_err errUnexpected)
  | S fuel' =>
      if bool_decide (basePath = deletePath) then mret () else
      pathSt ← px_call (λ o, os_Stat o deletePath) (λ err,
        if os_IsNotExist err then server_err errFileNotFound
        else if os_IsPermission err then server_err errFileAccessDenied
        else system_err err);
      notEmpty ← (if fi_IsDir pathSt then e ← isDirEmpty deletePath; mret (negb e) else mret false);
      if (notEmpty : bool) then mret () else
      _ ← px_call (λ o, os_Remove o deletePath) (λ err,
        if os_IsNotExist err then server_err errFileNotFound
        else if os_IsPermission err then server_err errFileAccessDenied
        else system_err err);
      deleteFile fuel' basePath (path_Dir deletePath)
  end.

(** One round for the path and each of its elements. *)
Definition delete_fuel (p : string) : nat := S (S (length (path_elems p))).

Definition px_DeleteFile (volume path : string) : px unit := counting (
  volumeDir ← px_volume volume;
  let filePath := pathJoin [volumeDir; path] in
  _ ← px_checkPathLength filePath;
  deleteFile (delete_fuel filePath) volumeDir filePath).

Definition px_RenameFile (srcVolume srcPath dstVolume dstPath : string) : px unit := counting (
  _ ← px_begin;
  srcVolumeDir ← getVolDir srcVolume;
  dstVolumeDir ← getVolDir dstVolume;
  _ ← px_statVol srcVolumeDir;
  r ← px_try (λ o, os_Stat o dstVolumeDir);
  _ ← match r with
      | inr err => if os_IsNotExist err then px_fail (server_err errVolumeNotFound) else mret ()
      | inl _ => mret ()
      end;
  let srcIsDir := HasSuffix srcPath slashSeparator in
  let dstIsDir := HasSuffix dstPath slashSeparator in
  if negb (srcIsDir && dstIsDir || negb srcIsDir && negb dstIsDir) then px_fail (server_err errFileAccessDenied) else
  let srcFilePath := path_Join [srcVolumeDir; srcPath] in
  _ ← px_checkPathLength srcFilePath;
  let dstFilePath := path_Join [dstVolumeDir; dstPath] in
  _ ← px_checkPathLength dstFilePath;
  _ ← (if srcIsDir then
         r ← px_try (λ o, os_Stat o dstFilePath);
         match r with
         | inl _ => px_fail (server_err errFileAccessDenied)
         | inr err => if os_IsNotExist err then mret () else px_fail (system_err err)
         end
       else mret ());
  _ ← px_call (λ o, os_MkdirAll o (path_Dir dstFilePath)) (λ err,
    if isSysErrNotDir err then server_err errFileAccessDenied else system_err err);
  _ ← px_call (λ o, os_Rename o srcFilePath dstFilePath) (λ err,
    if os_IsNotExist err then server_err errFileNotFound else system_err err);
  let parentDir := path_Dir srcFilePath in
  empty ← isDirEmpty parentDir;
  if (empty : bool) then
    px_ignore (deleteFile (delete_fuel parentDir) srcVolumeDir parentDir)
  else mret ()).

(** ** The interface *)

Definition no_FileInfo : FileInfo := {| FileVolume := ""; FileName := ""; FileModTime := 0; FileSize := 0; FileMode := 0 |}.
Definition no_DiskStat : DiskStat := {| DiskTotal := 0; DiskFree := 0; DiskFiles := 0; DiskFfree := 0; DiskFSType := "" |}.

#[export] Instance posix_StorageAPI : StorageAPI posix := {|
  Init s := (s, None);
  Close s := (s, None);
  DiskInfo s := px_val no_DiskStat (px_DiskInfo s);
  MakeVol s v := px_err (px_MakeVol v s);
  ListVols s := px_val [] (px_ListVols s);
  StatVol s v := px_val {| VolName := ""; VolCreated := 0 |} (px_StatVol v s);
  DeleteVol s v := px_err (px_DeleteVol v s);
  ListDir s v p := px_val [] (px_ListDir v p s);
  ReadFile s v p off buf :=
    match px_ReadFile v p off buf s with
    | (s, inl r) => (s, r)
    | (s, inr e) => (s, (buf, 0, Some (perr_err e)))
    end;
  PrepareFile s v p n := px_err (px_PrepareFile v p n s);
  AppendFile s v p b := px_err (px_AppendFile v p b s);
  RenameFile s sv sp dv dp := px_err (px_RenameFile sv sp dv dp s);
  StatFile s v p := px_val no_FileInfo (px_StatFile v p s);
  DeleteFile s v p := px_err (px_DeleteFile v p s);
  ReadAll s v p := px_val [] (px_ReadAll v p s);
|}.

End Posix.

(** A disk of 100 GiB at /disk. *)
Definition demo_times : OSTimes := λ _ _, 0.
Definition demo_os : osfs :=
  OSFS {[ [] := NDir; ["disk"] := NDir ]} []
    {| DiskTotal := 107374182400; DiskFree := 107374182400; DiskFiles := 0; DiskFfree := 0; DiskFSType := "EXT4" |}.
Definition demo_posix : posix := Posix 0 "/disk" fsMinFreeSpace fsMinFreeInodes demo_os.

#[local] Existing Instances demo_times map_order_rev.

(** A run: a volume, two files, a rename of the directory, a delete. *)
Definition demo_run : list (option error) * list (list string) * list (bytes * option error) :=
  let d := demo_posix in
  let '(d, e1) := MakeVol d "bucket" in
  let '(d, e2) := AppendFile d "bucket" "a/b/x" (bytes_of_string "hello") in
  let '(d, e3) := AppendFile d "bucket" "a/b/x" (bytes_of_string ", world") in
  let '(d, e4) := AppendFile d "bucket" "a/y" (bytes_of_string "y") in
  let '(d, (l1, e5)) := ListDir d "bucket" "a/" in
  let '(d, e6) := RenameFile d "bucket" "a/b/" "bucket" "c/d/" in
  let '(d, (l2, e7)) := ListDir d "bucket" "" in
  let '(d, r1) := ReadAll d "bucket" "c/d/x" in
  let '(d, r2) := ReadAll d "bucket" "a/b/x" in
  let '(d, e8) := DeleteFile d "bucket" "c/d/x" in
  let '(d, e9) := DeleteFile d "bucket" "a/y" in
  let '(d, (l3, e10)) := ListDir d "bucket" "" in
  let '(d, e11) := DeleteVol d "bucket" in
  ([e1; e2; e3; e4; e5; e6; e7; e8; e9; e10; e11], [l1; l2; l3], [r1; r2]).

Example demo_run_ok : demo_run =
  (replicate 11 None, [["b/"; "y"]; ["a/"; "c/"]; []],
   [(bytes_of_string "hello, world", None); ([], Some (errFileNotFound : error))]).
Proof. by vm_compute. Qed.

Example availableDiskSpace_1 : availableDiskSpace 1130254552 = 1073741824 ∧ availableDiskSpace 1130254551 = 1073741823 ∧ availableDiskSpace 0 = 0.
Proof. by vm_compute. Qed.
