(* ===== verification/PosixSpec.v ===== *)
(** * POSIX storage is a disk

    On a file system without faults the operations of [posix] do what those of
    the in-memory disk of [Storage] do. *)

From S2P Require Import Prelude.
From S2P Require Import GoErrors.
From S2P Require Import GoStrings.
From S2P Require Import Storage.
From S2P Require Import ObjectNames.
From S2P Require Import DiskContract.
From S2P Require Import OSFiles.
From S2P Require Import OSTrees.
From S2P Require Import Posix.

Local Open Scope Z_scope.

(** ** Lengths *)

Lemma path_Base_abs es x : Forall plain_elem (es ++ [x]) →
  path_Base (abs_path (es ++ [x])) = x ∧ path_Base (abs_path (es ++ [x]) +:+ "/") = x.
Proof.
  intros Hes. destruct (Split_abs _ Hes) as [_ H2]. unfold path_Base.
  rewrite !bool_decide_false by done. rewrite H2, last_snoc. split; [done|].
  rewrite Split_trail, filter_app, H2, (filter_cons _ ""), decide_False by (intros Hn; by apply Hn).
  by rewrite app_nil_r, last_snoc.
Qed.

Lemma abs_path_root es : Forall plain_elem es → es ≠ [] → abs_path es ≠ "/" ∧ abs_path es ≠ "." ∧ abs_path es ≠ "".
Proof.
  intros Hes Hne. split_and!; [|done..]. intros E. pose proof (abs_path_no_slash es Hes Hne) as Hs. rewrite E in Hs. done.
Qed.

Lemma checkPathLength_abs es : os_name es → ∀ fuel, checkPathLength_loop fuel (abs_path es) = None.
Proof.
  induction es as [|x es IH] using rev_ind; intros Hes fuel.
  { by destruct fuel. }
  pose proof (os_name_plain _ Hes) as Hp. destruct fuel as [|fuel]; [done|]. cbn [checkPathLength_loop].
  destruct (abs_path_root (es ++ [x]) Hp) as (N1 & N2 & N3); [by destruct es|].
  rewrite !bool_decide_false by done. cbn [orb]. rewrite (proj1 (path_Base_abs es x Hp)), path_Dir_abs by done.
  rewrite (proj2 (Z.ltb_ge 255 (zlen (bytes_of_string x)))); [by apply IH, (os_name_app_l _ [x])|].
  destruct Hes as [Hall _]. apply Forall_app in Hall as [_ Hx]. apply Forall_cons in Hx as [[_ Hx] _]. exact Hx.
Qed.

Lemma px_checkPathLength_abs es (slash : bool) s : os_name es → es ≠ [] →
  px_checkPathLength (if slash then abs_path es +:+ "/" else abs_path es) s = (s, inl ()).
Proof.
  intros Hes Hne. unfold px_checkPathLength, checkPathLength. destruct slash.
  2: { by rewrite checkPathLength_abs. }
  pose proof (os_name_plain _ Hes) as Hp. cbn [checkPathLength_loop].
  destruct (exists_last Hne) as (fs & x & ->). rewrite !bool_decide_false.
  - cbn [orb]. rewrite (proj2 (path_Base_abs fs x Hp)), path_Dir_abs_slash, checkPathLength_abs by done.
    rewrite (proj2 (Z.ltb_ge 255 (zlen (bytes_of_string x)))); [done|].
    destruct Hes as [Hall _]. apply Forall_app in Hall as [_ Hx]. apply Forall_cons in Hx as [[_ Hx] _]. exact Hx.
  - unfold abs_path. intros E. apply (f_equal (λ s, length (bytes_of_string s))) in E.
    rewrite !bytes_of_string_app, !length_app in E. simpl in E. lia.
  - done.
  - done.
Qed.

(** ** Calls without faults *)

Section Calls.
Context `{OSTimes, MapOrder}.

Lemma syscall_ok {A} (o : osfs) (f : tree → tree * (A + errno)) : os_faults o = [] →
  syscall o f = (set_tree o (f (os_tree o)).1, (f (os_tree o)).2).
Proof. intros Ho. unfold syscall, set_tree. rewrite Ho. by destruct (f (os_tree o)). Qed.

Lemma set_tree_id (o : osfs) : set_tree o (os_tree o) = o.
Proof. by destruct o. Qed.

Lemma set_os_id s : set_os s (px_os s) = s.
Proof. by destruct s. Qed.

(** The calls on the file of an absolute path. *)
Section At.
Context (o : osfs) (es : list string) (Ho : os_faults o = []) (Ht : tree_ok (os_tree o)) (Hes : os_name es).

Let t := os_tree o.

Lemma es_plain : Forall plain_elem es.
Proof. by apply os_name_plain. Qed.

Lemma elems_at : path_elems (abs_path es) = es.
Proof. by apply path_elems_abs, es_plain. Qed.

Lemma no_file_removelast : no_file_above t es → es ≠ [] → ∀ c, t !! removelast es ≠ Some (NFile c).
Proof.
  intros Hf Hne c. destruct (exists_last Hne) as (r & x & E). rewrite E at 1. rewrite removelast_last.
  by apply (Hf r [x]).
Qed.

Lemma os_Stat_ok (slash : bool) : no_file_above t es →
  os_Stat o (if slash then abs_path es +:+ "/" else abs_path es) =
  (o, match t !! es with
      | Some NDir => inl (finfo t (if slash then abs_path es +:+ "/" else abs_path es) NDir)
      | Some (NFile c) => if slash then inr (PathError ENOTDIR) else inl (finfo t (abs_path es) (NFile c))
      | None => inr (PathError ENOENT)
      end).
Proof.
  intros Hf. unfold os_Stat, path_error. rewrite syscall_ok by done. unfold sys_stat. cbn [fst snd].
  rewrite set_tree_id, lookup_node_abs by done. fold t. destruct (t !! es) as [[|c]|]; [done| |done]. by destruct slash.
Qed.

Lemma os_Open_ok (slash : bool) : no_file_above t es →
  os_Open o (if slash then abs_path es +:+ "/" else abs_path es) =
  (o, match t !! es with
      | Some NDir => inl es
      | Some (NFile c) => if slash then inr (PathError ENOTDIR) else inl es
      | None => inr (PathError ENOENT)
      end).
Proof.
  intros Hf. unfold os_Open, path_error. rewrite syscall_ok by done. unfold sys_open. cbn [fst snd].
  assert (He : path_elems (if slash then abs_path es +:+ "/" else abs_path es) = es)
    by (destruct slash; apply path_elems_abs, es_plain).
  rewrite set_tree_id, lookup_node_abs, He by done. fold t. destruct (t !! es) as [[|c]|]; [done| |done]. by destruct slash.
Qed.

(** A file above the name: the call fails, and says so. *)
Lemma file_above_err : (∃ a r c, es = a ++ r ∧ r ≠ [] ∧ t !! a = Some (NFile c)) → walk t [] es = inr ENOTDIR.
Proof.
  intros (a & r & c & E & Hr & Hc). assert (Hw : ∀ a dir, t !! (dir ++ a) = Some (NFile c) → walk t dir (a ++ r) = inr ENOTDIR).
  { clear a E Hc. induction a as [|x a IH]; intros dir Hc.
    - rewrite app_nil_r in Hc. destruct r as [|y r]; [done|]. simpl. by rewrite Hc.
    - simpl. rewrite (tree_above t dir (x :: a) Ht) by (by eexists || done). apply IH. by rewrite <- app_assoc. }
  rewrite E. by apply (Hw a []).
Qed.

Lemma os_Mkdir_ok : es ≠ [] → t !! removelast es = Some NDir →
  os_Mkdir o (abs_path es) =
    match t !! es with
    | Some _ => (o, inr (PathError EEXIST))
    | None => (set_tree o (<[es := NDir]> t), inl ())
    end.
Proof.
  intros Hne Hp. unfold os_Mkdir, path_error. rewrite syscall_ok by done. unfold sys_mkdir.
  rewrite (lookup_parent_abs _ es false) by done. rewrite elems_at. fold t.
  destruct (t !! es); cbn [fst snd]; [by unfold t; rewrite set_tree_id|done].
Qed.

Lemma os_OpenFile_ok : es ≠ [] → t !! removelast es = Some NDir → t !! es ≠ Some NDir →
  os_OpenFile o (abs_path es) true =
    (match t !! es with Some _ => o | None => set_tree o (<[es := NFile []]> t) end, inl es).
Proof.
  intros Hne Hp Hnd. unfold os_OpenFile, path_error. rewrite syscall_ok by done. unfold sys_open_write.
  rewrite (lookup_parent_abs _ es false), (lookup_node_abs _ es false) by (done || by apply no_file_above_dir). fold t.
  rewrite elems_at. destruct (t !! es) as [[|c]|] eqn:E; cbn [fst snd negb].
  - done.
  - unfold t. by rewrite set_tree_id.
  - rewrite abs_path_no_slash by (done || apply es_plain). done.
Qed.

Lemma os_Remove_ok : es ≠ [] → t !! removelast es = Some NDir →
  os_Remove o (abs_path es) =
    match t !! es with
    | None => (o, inr (PathError ENOENT))
    | Some (NFile _) => (set_tree o (delete es t), inl ())
    | Some NDir =>
        match entries_of t es with
        | [] => (set_tree o (delete es t), inl ())
        | _ :: _ => (o, inr (PathError ENOTEMPTY))
        end
    end.
Proof.
  intros Hne Hp. assert (Hf : no_file_above (os_tree o) es) by (by apply no_file_above_dir).
  unfold os_Remove. rewrite syscall_ok by done. unfold sys_unlink.
  rewrite (lookup_parent_abs _ es false), (lookup_node_abs _ es false) by done. fold t. rewrite elems_at.
  assert (Hrm : sys_rmdir (abs_path es) t = match t !! es with
    | None => (t, inr ENOENT) | Some (NFile _) => (t, inr ENOTDIR)
    | Some NDir => match entries_of t es with [] => (delete es t, inl ()) | _ :: _ => (t, inr ENOTEMPTY) end end).
  { unfold sys_rmdir. rewrite (lookup_node_abs _ es false) by done. rewrite elems_at. destruct (t !! es) as [[|c]|]; [|done..]. by destruct es. }
  destruct (t !! es) as [[|c]|] eqn:E; cbn [fst snd].
  - unfold t. rewrite set_tree_id. rewrite syscall_ok by done. fold t. rewrite Hrm.
    destruct (entries_of t es); cbn [fst snd]; [done|]. unfold t. by rewrite set_tree_id.
  - done.
  - unfold t. rewrite set_tree_id. rewrite syscall_ok by done. fold t. rewrite Hrm. cbn [fst snd]. unfold t. by rewrite set_tree_id.
Qed.

Lemma file_read_ok c : t !! es = Some (NFile c) → file_read o es = (o, inl c).
Proof.
  intros Hc. unfold file_read, path_error. rewrite syscall_ok by done. unfold sys_read. fold t. rewrite Hc. cbn [fst snd].
  unfold t. by rewrite set_tree_id.
Qed.

End At.

(** [os.MkdirAll] adds the missing directories. *)
Lemma mkdir_all_ok : ∀ es (o : osfs), os_faults o = [] → tree_ok (os_tree o) → os_name es → no_file_on (os_tree o) es →
  mkdir_all o (rev es) = (set_tree o (os_tree o ∪ dirs_map es), inl ()).
Proof.
  induction es as [|x es IH] using rev_ind; intros o Ho Ht Hes Hno.
  { cbn [rev mkdir_all].
    rewrite (os_Stat_ok o [] Ho Ht Hes false) by (intros a r c E Hr; symmetry in E; by apply app_eq_nil in E as [_ ?]).
    rewrite (tok_root _ Ht). cbn [fi_IsDir finfo]. rewrite bool_decide_true by done. rewrite add_dirs_id by (done || apply (tok_root _ Ht)). by rewrite set_tree_id. }
  assert (Hf : no_file_above (os_tree o) (es ++ [x])) by (intros a r c E Hr; apply Hno; by exists r).
  rewrite rev_app_distr. simpl (rev [x] ++ rev es). cbn [mkdir_all]. simpl (rev (x :: rev es)). rewrite rev_involutive.
  rewrite (os_Stat_ok o (es ++ [x]) Ho Ht Hes false Hf).
  destruct (os_tree o !! (es ++ [x])) as [[|c]|] eqn:E.
  - cbn [fi_IsDir finfo]. rewrite bool_decide_true by done. rewrite add_dirs_id by done. by rewrite set_tree_id.
  - destruct (Hno (es ++ [x]) c); done.
  - assert (Hes' : os_name es) by (by apply (os_name_app_l es [x])).
    assert (Hno' : no_file_on (os_tree o) es) by (intros a c Ha; apply Hno; by apply prefix_app_r).
    set (o1 := set_tree o (os_tree o ∪ dirs_map es)).
    assert (Hmk : os_Mkdir o1 (abs_path (es ++ [x])) = (set_tree o (os_tree o ∪ dirs_map (es ++ [x])), inl ())).
    { rewrite (os_Mkdir_ok o1 (es ++ [x])); [|done|by apply add_dirs_ok|done|by destruct es|].
      - unfold o1. cbn [os_tree set_tree]. rewrite add_dirs_lookup, E, decide_False.
        + rewrite add_dirs_snoc by done. done.
        + intros Hp%prefix_length. rewrite length_app in Hp. simpl in Hp. lia.
      - unfold o1. cbn [os_tree set_tree]. rewrite removelast_last, add_dirs_lookup.
        destruct (os_tree o !! es) as [[|c]|] eqn:Ee; [done|by destruct (Hno' es c)|by rewrite decide_True]. }
    destruct (rev es) as [|y l] eqn:Er.
    + assert (es = []) as -> by (by apply (f_equal (@rev _)) in Er; rewrite rev_involutive in Er).
      assert (o1 = o) as Ho1. { unfold o1. rewrite add_dirs_id by (done || apply (tok_root _ Ht)). apply set_tree_id. }
      rewrite Ho1 in Hmk. by rewrite Hmk.
    + rewrite (IH o Ho Ht Hes' Hno'). fold o1. by rewrite Hmk.
Qed.

Lemma os_MkdirAll_ok es (o : osfs) : os_faults o = [] → tree_ok (os_tree o) → os_name es → no_file_on (os_tree o) es →
  os_MkdirAll o (abs_path es) = (set_tree o (os_tree o ∪ dirs_map es), inl ()).
Proof.
  intros Ho Ht Hes Hno. unfold os_MkdirAll. rewrite elems_at by done. by apply mkdir_all_ok.
Qed.

Lemma os_Rename_ok (o : osfs) s d n : os_faults o = [] → tree_ok (os_tree o) → os_name s → os_name d → s ≠ [] → d ≠ [] →
  os_tree o !! s = Some n → os_tree o !! removelast d = Some NDir → ¬ s `prefix_of` d →
  os_tree o !! d = None ∨ (∃ c c', n = NFile c ∧ os_tree o !! d = Some (NFile c')) →
  os_Rename o (abs_path s) (abs_path d) = (set_tree o (move_tree (os_tree o) s d), inl ()).
Proof.
  intros Ho Ht Hs Hd Hsne Hdne Hn Hpd Hsd Hdst. unfold os_Rename. rewrite syscall_ok by done. unfold sys_rename. cbv zeta.
  assert (Hps : os_tree o !! removelast s = Some NDir).
  { destruct (exists_last Hsne) as (r & x & ->). rewrite removelast_last. apply (tok_parent _ Ht r x). by eexists. }
  rewrite (lookup_parent_abs _ s false), (lookup_parent_abs _ d false) by done.
  rewrite (lookup_node_abs _ s false), Hn by (done || by apply no_file_above_dir). rewrite !elems_at by done.
  assert (Hslash : HasSuffix (abs_path d) "/" = false) by (apply abs_path_no_slash; [by apply os_name_plain|done]).
  assert (Hsne' : s ≠ d) by (intros ->; by apply Hsd).
  destruct n as [|c]; destruct Hdst as [->|(c1 & c2 & E & ->)]; try done;
    rewrite !decide_False, (bool_decide_false (s `prefix_of` d)), ?andb_false_r, ?Hslash by done; done.
Qed.

(** ** Computations of a healthy disk *)

Context (base : list string).

Record healthy (s : posix) : Prop := {
  h_count : ioErrCount s ≤ maxAllowedIOError;
  h_path : diskPath s = abs_path base;
  h_faults : os_faults (px_os s) = [];
  h_tree : tree_ok (os_tree (px_os s));
  h_disk : os_tree (px_os s) !! base = Some NDir;
}.

Definition px_tree (s : posix) : tree := os_tree (px_os s).

(** The disk with another tree. *)
Definition with_tree (s : posix) (t : tree) : posix := set_os s (set_tree (px_os s) t).

Lemma with_tree_id s : with_tree s (px_tree s) = s.
Proof. unfold with_tree, px_tree. by rewrite set_tree_id, set_os_id. Qed.

Lemma healthy_with s t : healthy s → tree_ok t → t !! base = Some NDir → healthy (with_tree s t).
Proof. intros [Hc Hp Hf _ _] Ht Hb. by split. Qed.

Lemma counting_ok {A} (m : px A) s s' r : m s = (s', inl r) → counting m s = (s', inl r).
Proof. intros E. unfold counting. by rewrite E. Qed.

Lemma counting_err {A} (m : px A) s s' e : m s = (s', inr (inl e)) → counting m s = (s', inr (inl e)).
Proof. intros E. unfold counting. by rewrite E. Qed.

Section Healthy.
Context (s : posix) (Hh : healthy s) (base_ok : os_name base) (base_ne : base ≠ []).

Lemma stat_base : os_Stat (px_os s) (diskPath s) = (px_os s, inl (finfo (px_tree s) (abs_path base) NDir)).
Proof.
  destruct Hh as [_ Hp Hf Ht Hd]. rewrite Hp. rewrite (os_Stat_ok (px_os s) base Hf Ht base_ok false).
  - by rewrite Hd.
  - apply no_file_above_dir; [done|]. destruct (exists_last base_ne) as (r & x & E). rewrite E in Hd |- *.
    rewrite removelast_last. apply (tok_parent _ Ht r x). by eexists.
Qed.

Lemma px_begin_ok : px_begin s = (s, inl ()).
Proof.
  unfold px_begin, checkDiskFound, px_get, px_call. unfold mbind, px_bind.
  rewrite (proj2 (Z.ltb_ge maxAllowedIOError (ioErrCount s))) by apply Hh. rewrite stat_base. by rewrite set_os_id.
Qed.

(** The directory of a volume. *)
Definition vol_dir (v : string) : list string := base ++ Split v "/".

Definition vol_name (v : string) : Prop := clean_path v ∧ isValidVolname v = true ∧ os_name (vol_dir v).

Lemma vol_dir_path v : vol_name v → getVolDir v s = (s, inl (abs_path (vol_dir v))).
Proof.
  intros (Hc & Hv & Hn). unfold getVolDir, px_get, mbind, px_bind. rewrite Hv. cbn [negb]. rewrite (h_path _ Hh).
  rewrite <- (Join_Split v) at 1. rewrite (proj1 (pathJoin_abs base (Split v "/") (os_name_plain _ base_ok) Hc (Split_ne v))).
  done.
Qed.

(** Nothing above the directory of a volume is a file. *)
Lemma vol_no_file v : vol_name v → px_tree s !! vol_dir v = Some NDir → no_file_above (px_tree s) (vol_dir v).
Proof.
  intros _ Hd. apply no_file_above_dir; [apply Hh|].
  assert (Hne : vol_dir v ≠ []) by (unfold vol_dir; by destruct base).
  destruct (exists_last Hne) as (r & x & E). rewrite E in Hd |- *. rewrite removelast_last.
  apply (tok_parent _ (h_tree _ Hh) r x). by eexists.
Qed.

Lemma px_volume_ok v : vol_name v → px_tree s !! vol_dir v = Some NDir →
  px_volume v s = (s, inl (abs_path (vol_dir v))).
Proof.
  intros Hv Hd. unfold px_volume, mbind, px_bind. rewrite px_begin_ok, vol_dir_path by done.
  unfold px_statVol, px_call. rewrite (os_Stat_ok (px_os s) (vol_dir v) (h_faults _ Hh) (h_tree _ Hh) (proj2 (proj2 Hv)) false).
  - unfold px_tree in Hd. rewrite Hd. by rewrite set_os_id.
  - by apply vol_no_file.
Qed.

Lemma px_volume_none v : vol_name v → px_tree s !! vol_dir v = None → no_file_above (px_tree s) (vol_dir v) →
  px_volume v s = (s, inr (server_err errVolumeNotFound)).
Proof.
  intros Hv Hd Hf. unfold px_volume, mbind, px_bind. rewrite px_begin_ok, vol_dir_path by done.
  unfold px_statVol, px_call. rewrite (os_Stat_ok (px_os s) (vol_dir v) (h_faults _ Hh) (h_tree _ Hh) (proj2 (proj2 Hv)) false Hf).
  unfold px_tree in Hd. rewrite Hd. by rewrite set_os_id.
Qed.

(** The name of a file of a volume. *)
Definition file_key (v p : string) : list string := vol_dir v ++ Split p "/".

Definition file_name (v p : string) : Prop := clean_path p ∧ os_name (file_key v p).

Lemma file_path v p : vol_name v → file_name v p →
  pathJoin [abs_path (vol_dir v); p] = abs_path (file_key v p) ∧
  pathJoin [abs_path (vol_dir v); p +:+ "/"] = abs_path (file_key v p) +:+ "/" ∧
  path_Join [abs_path (vol_dir v); p] = abs_path (file_key v p) ∧
  path_Join [abs_path (vol_dir v); p +:+ "/"] = abs_path (file_key v p).
Proof.
  intros (Hc & _ & Hn) [Hp _]. pose proof (os_name_plain _ Hn) as Hpl.
  destruct (pathJoin_abs (vol_dir v) (Split p "/") Hpl Hp (Split_ne p)) as [E1 E2]. rewrite Join_Split in E1, E2.
  destruct (Split_rel (Split p "/") Hp) as [F1 F2]. rewrite Join_Split in F1, F2. split_and!; [done|done| |].
  - rewrite path_Join_abs; [by rewrite F2|done|done|by apply clean_path_ne].
  - rewrite path_Join_abs; [|done| |by destruct p].
    + rewrite Split_trail, filter_app, F2, (filter_cons _ ""), decide_False by (intros Hx; by apply Hx). by rewrite app_nil_r.
    + rewrite Split_trail. apply Forall_app. split; [done|]. by repeat constructor; left.
Qed.

Lemma file_key_ne v p : file_key v p ≠ [].
Proof. unfold file_key, vol_dir. by destruct base. Qed.

Lemma isDirEmpty_ok es : os_name es → no_file_above (px_tree s) es → px_tree s !! es = Some NDir →
  isDirEmpty (abs_path es) s = (s, inl (bool_decide (entries_of (px_tree s) es = []))).
Proof.
  intros Hes Hf Hd. unfold px_tree in *. unfold isDirEmpty, px_try, mbind, px_bind.
  rewrite (os_Open_ok (px_os s) es (h_faults _ Hh) (h_tree _ Hh) Hes false Hf), Hd, set_os_id.
  unfold path_error. rewrite syscall_ok by apply Hh. unfold sys_getdents. rewrite Hd. cbn [fst snd].
  rewrite set_tree_id, set_os_id. pose proof (range_order_perm (entries_of (os_tree (px_os s)) es)) as Hp.
  destruct (entries_of (os_tree (px_os s)) es) as [|e l] eqn:E.
  - apply Permutation_nil_r in Hp. rewrite Hp. by rewrite bool_decide_true.
  - destruct (range_order (e :: l)) eqn:Er; [by apply Permutation_nil_cons in Hp|]. by rewrite bool_decide_false.
Qed.

End Healthy.

(** ** Deleting *)

(** What is left of the tree when [r] below [bs] is deleted, with the
    directories above it that become empty. *)
Record pruned (bs r : list string) (t t' : tree) : Prop := {
  pr_ok : tree_ok t';
  pr_other : ∀ k, (∀ a, a ≠ [] → a `prefix_of` r → k ≠ bs ++ a) → t' !! k = t !! k;
  pr_sub : ∀ k n, t' !! k = Some n → t !! k = Some n;
  pr_full : ∀ a, a ≠ [] → a `prefix_of` r → t' !! (bs ++ a) = Some NDir → ∃ x, is_Some (t' !! (bs ++ a ++ [x]));
}.

Lemma pruned_full bs r t : tree_ok t → t !! (bs ++ r) = Some NDir → entries_of t (bs ++ r) ≠ [] → pruned bs r t t.
Proof.
  intros Ht Hd He. split; [done..|]. intros a _ [q ->] _. destruct q as [|x q].
  - rewrite app_nil_r in *. destruct (entries_of t (bs ++ a)) as [|[x n] l] eqn:E; [done|]. exists x.
    assert (Hin : (x, n) ∈ entries_of t (bs ++ a)) by (rewrite E; left). apply entries_of_elem in Hin.
    rewrite <- app_assoc in Hin. by eexists.
  - exists x. destruct (decide (q = [])) as [->|Hq]; [by eexists|].
    eexists. apply (tree_above t _ q Ht); [|done]. rewrite <- !app_assoc. simpl. by eexists.
Qed.

Lemma pruned_snoc bs r x t t' : bs ++ r ++ [x] ≠ [] →
  pruned bs r (delete (bs ++ r ++ [x]) t) t' → pruned bs (r ++ [x]) t t' ∧ t' !! (bs ++ r ++ [x]) = None.
Proof.
  intros _ [Ht Ho Hs Hf]. assert (Hnone : t' !! (bs ++ r ++ [x]) = None).
  { destruct (t' !! _) as [n|] eqn:E; [|done]. apply Hs in E. by rewrite lookup_delete_eq in E. }
  split; [|done]. split; [done| | |].
  - intros k Hk. rewrite Ho.
    + apply lookup_delete_ne. intros <-. destruct (Hk (r ++ [x])); [by destruct r|done|done].
    + intros a Ha Hp. apply Hk; [done|]. by apply prefix_app_r.
  - intros k n Hn. apply Hs in Hn. by apply lookup_delete_Some in Hn as [_ ?].
  - intros a Ha [q E] Hd. destruct q as [|y q] using rev_ind.
    + rewrite app_nil_r in E. subst a. congruence.
    + rewrite app_assoc in E. apply app_inj_tail in E as [-> _]. apply Hf; [done|by exists q|done].
Qed.

Lemma deleteFile_ok bs : ∀ r s fuel n, healthy s → os_name (bs ++ r) → bs ≠ [] →
  px_tree s !! (bs ++ r) = Some n → (r = [] → n = NDir) → (length r < fuel)%nat → base `prefix_of` bs →
  ∃ t', deleteFile fuel (abs_path bs) (abs_path (bs ++ r)) s = (with_tree s t', inl ()) ∧ pruned bs r (px_tree s) t' ∧
    (r ≠ [] → (n = NDir → entries_of (px_tree s) (bs ++ r) = []) → t' !! (bs ++ r) = None).
Proof.
  induction r as [|x r IH] using rev_ind; intros s fuel n Hh Hn Hbs Hk Hr Hfuel Hpre.
  { destruct fuel as [|fuel]; [simpl in Hfuel; lia|]. cbn [deleteFile]. rewrite app_nil_r, bool_decide_true by done.
    exists (px_tree s). split; [by rewrite with_tree_id|]. split; [|done]. split; [apply Hh|done|done|].
    intros a Ha Hp. by apply prefix_nil_inv in Hp. }
  destruct fuel as [|fuel]; [lia|]. rewrite length_app in Hfuel. simpl in Hfuel.
  pose proof (os_name_plain _ Hn) as Hpl. assert (Hkne : bs ++ r ++ [x] ≠ []) by (by destruct bs).
  assert (Habs : abs_path bs ≠ abs_path (bs ++ r ++ [x])).
  { intros E. apply (f_equal path_elems) in E. rewrite (proj1 (path_elems_abs (bs ++ r ++ [x]) Hpl)) in E.
    apply Forall_app in Hpl as [Hpl _]. rewrite (proj1 (path_elems_abs bs Hpl)) in E.
    apply (f_equal length) in E. rewrite !length_app in E. simpl in E. lia. }
  cbn [deleteFile]. rewrite bool_decide_false by done.
  assert (Hpar : px_tree s !! (bs ++ r) = Some NDir).
  { apply (tok_parent _ (h_tree _ Hh) _ x). rewrite <- app_assoc. by eexists. }
  assert (Hrl : px_tree s !! removelast (bs ++ r ++ [x]) = Some NDir) by (by rewrite app_assoc, removelast_last).
  assert (Hf : no_file_above (px_tree s) (bs ++ r ++ [x])) by (apply no_file_above_dir; [apply Hh|done]).
  (* The rounds that are left once the entry is removed. *)
  set (t1 := delete (bs ++ r ++ [x]) (px_tree s)).
  assert (Hrest : (∀ y, px_tree s !! ((bs ++ r ++ [x]) ++ [y]) = None) →
    ∃ t', deleteFile fuel (abs_path bs) (path_Dir (abs_path (bs ++ r ++ [x]))) (with_tree s t1) = (with_tree s t', inl ()) ∧
      pruned bs (r ++ [x]) (px_tree s) t' ∧ t' !! (bs ++ r ++ [x]) = None).
  { intros Hempty. rewrite app_assoc in Hpl. rewrite (app_assoc bs r [x]), path_Dir_abs by done. rewrite <- app_assoc.
    assert (Hlen : bs ++ r ++ [x] ≠ base).
    { intros E. destruct Hpre as [q ->]. apply (f_equal length) in E. rewrite !length_app in E. simpl in E. lia. }
    destruct (IH (with_tree s t1) fuel NDir) as (t' & Hrun & Hpr & _).
    - apply healthy_with; [done|by apply delete_ok; [apply Hh|..]|]. unfold t1. rewrite lookup_delete_ne by done. apply Hh.
    - rewrite app_assoc in Hn. by apply (os_name_app_l _ [x]).
    - done.
    - unfold px_tree at 1. cbn. unfold t1. rewrite lookup_delete_ne; [done|]. intros E%(f_equal length).
      rewrite !length_app in E. simpl in E. lia.
    - done.
    - lia.
    - done.
    - exists t'. split; [done|]. by apply pruned_snoc. }
  unfold mbind, px_bind, px_call. rewrite (os_Stat_ok (px_os s) _ (h_faults _ Hh) (h_tree _ Hh) Hn false Hf).
  fold (px_tree s). rewrite Hk, set_os_id.
  destruct n as [|c].
  - cbn [fi_IsDir finfo]. rewrite bool_decide_true by done. rewrite isDirEmpty_ok by done. cbn [mret px_ret].
    destruct (entries_of (px_tree s) (bs ++ r ++ [x])) as [|e l] eqn:Ee.
    + rewrite bool_decide_true by done. cbn [negb].
      rewrite (os_Remove_ok (px_os s) _ (h_faults _ Hh) (h_tree _ Hh) Hn Hkne Hrl).
      fold (px_tree s). rewrite Hk, Ee. fold t1. destruct Hrest as (t' & H1 & H2 & H3); [by apply entries_of_nil|].
      exists t'. split; [exact H1|]. by split.
    + rewrite bool_decide_false by done. cbn [negb]. exists (px_tree s). split; [by rewrite with_tree_id|].
      split; [by apply pruned_full; [apply Hh|done|rewrite Ee]|]. intros _ HH. by specialize (HH eq_refl).
  - cbn [fi_IsDir finfo]. rewrite bool_decide_false by done. cbn [mret px_ret].
    rewrite (os_Remove_ok (px_os s) _ (h_faults _ Hh) (h_tree _ Hh) Hn Hkne Hrl).
    fold (px_tree s). rewrite Hk. fold t1. destruct Hrest as (t' & H1 & H2 & H3).
    { intros y. destruct (px_tree s !! ((bs ++ r ++ [x]) ++ [y])) as [n|] eqn:E; [|done].
      assert (px_tree s !! (bs ++ r ++ [x]) = Some NDir) as E2 by (apply (tok_parent _ (h_tree _ Hh) _ y); by eexists).
      congruence. }
    exists t'. split; [exact H1|]. by split.
Qed.

End Calls.
