(* ===== verification/PosixOps.v ===== *)
(** * What the operations of POSIX storage do to the tree

    The operations of [Posix] on a disk without faults, as changes of the tree
    of files. *)

From S2P Require Import Prelude.
From S2P Require Import GoErrors.
From S2P Require Import GoStrings.
From S2P Require Import Storage.
From S2P Require Import ObjectNames.
From S2P Require Import DiskContract.
From S2P Require Import OSFiles.
From S2P Require Import OSTrees.
From S2P Require Import Posix.
From S2P Require Import PosixSpec.

Local Open Scope Z_scope.

(** The content of the file with this name. *)
Definition files (t : tree) (k : list string) : option bytes :=
  match t !! k with Some (NFile c) => Some c | _ => None end.

(** A file with the directories above it. *)
Definition put_file (t : tree) (k : list string) (c : bytes) : tree := <[k := NFile c]> (t ∪ dirs_map (removelast k)).

Lemma files_Some t k c : files t k = Some c ↔ t !! k = Some (NFile c).
Proof. unfold files. split; [|by intros ->]. by destruct (t !! k) as [[|c']|]; intros [= ->]. Qed.

(** A name that is not there: nothing, or a file above it. *)
Lemma walk_missing t : ∀ rest dir, t !! (dir ++ rest) = None → walk t dir rest = inr ENOENT ∨ walk t dir rest = inr ENOTDIR.
Proof.
  induction rest as [|x rest IH]; intros dir Hn; cbn [walk].
  - rewrite app_nil_r in Hn. rewrite Hn. by left.
  - destruct (t !! dir) as [[|c]|]; [|by right|by left]. apply IH. by rewrite <- app_assoc.
Qed.

Lemma lookup_node_missing t es : os_name es → t !! es = None →
  lookup_node t (abs_path es) = inr ENOENT ∨ lookup_node t (abs_path es) = inr ENOTDIR.
Proof.
  intros Hes Hn. unfold lookup_node. rewrite (proj1 (name_ok_abs es Hes)). cbn [negb].
  rewrite (proj1 (path_elems_abs es (os_name_plain _ Hes))). destruct (walk_missing t es [] Hn) as [-> | ->]; auto.
Qed.

Lemma lookup_node_there t es n : tree_ok t → os_name es → es ≠ [] → t !! es = Some n → lookup_node t (abs_path es) = inl n.
Proof.
  intros Ht Hes Hne Hn. rewrite (lookup_node_abs t es false Ht Hes), Hn; [by destruct n|].
  apply no_file_above_dir; [done|]. destruct (exists_last Hne) as (r & x & ->). rewrite removelast_last.
  apply (tok_parent _ Ht r x). by eexists.
Qed.

Lemma prefix_removelast (k es : list string) : es ≠ [] → k `prefix_of` removelast es → k ≠ es ∧ k `prefix_of` es.
Proof.
  intros Hne Hp. destruct (exists_last Hne) as (r & x & ->). rewrite removelast_last in Hp. split; [|by apply prefix_app_r].
  intros ->. apply prefix_length in Hp. rewrite length_app in Hp. simpl in Hp. lia.
Qed.

Lemma no_file_above_on t es : es ≠ [] → no_file_above t es → no_file_on t (removelast es).
Proof.
  intros Hne Hf a c Hp. destruct (prefix_removelast a es Hne Hp) as [Hne' [r ->]]. apply (Hf a r c); [done|].
  intros ->. by rewrite app_nil_r in Hne'.
Qed.

(** ** Files that are put *)

Lemma put_file_lookup t es c k : es ≠ [] → put_file t es c !! k =
  if decide (k = es) then Some (NFile c) else
  match t !! k with Some n => Some n | None => if decide (k `prefix_of` es) then Some NDir else None end.
Proof.
  intros Hne. unfold put_file. destruct (decide (k = es)) as [->|Hk]; [apply lookup_insert_eq|].
  rewrite lookup_insert_ne, add_dirs_lookup by done. destruct (t !! k); [done|]. apply decide_ext. split.
  - by intros [_ ?]%prefix_removelast.
  - intros [r ->]. destruct r as [|x r] using rev_ind; [by rewrite app_nil_r in Hk|].
    rewrite app_assoc, removelast_last. by exists r.
Qed.

Lemma put_file_files t es c k : es ≠ [] → files (put_file t es c) k = if decide (k = es) then Some c else files t k.
Proof.
  intros Hne. unfold files. rewrite put_file_lookup by done. destruct (decide (k = es)); [done|].
  destruct (t !! k) as [[|]|]; [done..|]. by destruct (decide _).
Qed.

Lemma put_file_ok t es c : es ≠ [] → tree_ok t → no_file_above t es → t !! es ≠ Some NDir → tree_ok (put_file t es c).
Proof.
  intros Hne Ht Hf Hnd. pose proof (add_dirs_ok t (removelast es) Ht (no_file_above_on t es Hne Hf)) as [Hroot Hpar].
  unfold put_file. split; [by rewrite lookup_insert_ne|]. intros k x Hs.
  destruct (decide (es = k)) as [->|Hk].
  - exfalso. rewrite lookup_insert_ne in Hs by (intros E%(f_equal length); rewrite length_app in E; simpl in E; lia).
    specialize (Hpar k x Hs). rewrite add_dirs_lookup in Hpar. destruct (t !! k) as [[|c']|] eqn:E; [done..|].
    destruct (decide _) as [Hp|]; [|done]. by apply prefix_removelast in Hp as [? _].
  - rewrite lookup_insert_ne by done. destruct (decide (es = k ++ [x])) as [->|Hk'].
    + rewrite add_dirs_lookup, removelast_last. destruct (t !! k) as [[|c']|] eqn:E; [done| |by rewrite decide_True].
      by destruct (Hf k [x] c').
    + rewrite lookup_insert_ne in Hs by done. by apply (Hpar k x).
Qed.

(** A directory of the new tree has an entry, if it had one. *)
Lemma put_file_full t es c k : es ≠ [] → (t !! k = Some NDir → ∃ x, is_Some (t !! (k ++ [x]))) →
  put_file t es c !! k = Some NDir → ∃ x, is_Some (put_file t es c !! (k ++ [x])).
Proof.
  intros Hne Hfull. rewrite put_file_lookup by done. destruct (decide (k = es)) as [|Hk]; [done|].
  intros Hd. destruct (decide (k `prefix_of` es)) as [[r ->]|Hn].
  - destruct r as [|x r]; [by rewrite app_nil_r in Hk|]. exists x. rewrite put_file_lookup by done.
    destruct (decide _); [by eexists|]. destruct (t !! (k ++ [x])); [by eexists|]. rewrite decide_True; [by eexists|].
    exists r. by rewrite <- app_assoc.
  - destruct (t !! k) as [n|] eqn:E; [|done]. injection Hd as ->. destruct (Hfull eq_refl) as [x [n Hx]]. exists x.
    rewrite put_file_lookup, Hx by done. destruct (decide _); by eexists.
Qed.

Lemma put_file_same t es c : tree_ok t → es ≠ [] → t !! es = Some (NFile c) → put_file t es c = t.
Proof.
  intros Ht Hne Hc. unfold put_file. rewrite add_dirs_id; [by rewrite insert_id|done|].
  destruct (exists_last Hne) as (r & x & ->). rewrite removelast_last. apply (tok_parent _ Ht r x). by eexists.
Qed.

Lemma put_file_twice t es c c' : <[es := NFile c']> (put_file t es c) = put_file t es c'.
Proof. unfold put_file. by rewrite insert_insert_eq. Qed.

(** A result that is not counted. *)
Definition quiet {A} (r : A + perr) : Prop := match r with inr (inr (Errno EIO)) => False | _ => True end.

Lemma counting_quiet {A} (m : px A) s s' r : m s = (s', r) → quiet r → counting m s = (s', r).
Proof.
  intros E Hq. unfold counting. rewrite E. destruct r as [a|[e|[e|e|e]]]; [done..|]. by destruct e.
Qed.

Section Ops.
Context `{OSTimes, MapOrder} (base : list string) (base_ok : os_name base) (base_ne : base ≠ []).

Abbreviation vol_dir := (vol_dir base).
Abbreviation vol_name := (vol_name base).
Abbreviation file_key := (file_key base).
Abbreviation file_name := (file_name base).
Abbreviation healthy := (healthy base).

Section File.
Context (s : posix) (Hh : healthy s) (v p : string) (Hv : vol_name v) (Hd : px_tree s !! vol_dir v = Some NDir)
  (Hp : file_name v p).

Let t := px_tree s.
Let k := file_key v p.

Lemma key_ne : k ≠ [].
Proof. by apply file_key_ne. Qed.

Lemma key_name : os_name k.
Proof. apply Hp. Qed.

Lemma px_file_ok : px_volume v s = (s, inl (abs_path (vol_dir v))) ∧
  pathJoin [abs_path (vol_dir v); p] = abs_path k ∧ path_Join [abs_path (vol_dir v); p] = abs_path k ∧
  px_checkPathLength (abs_path k) s = (s, inl ()).
Proof.
  destruct (file_path base v p Hv Hp) as (E1 & _ & E2 & _). split_and!; [|done|done|].
  - by apply px_volume_ok.
  - apply (px_checkPathLength_abs k false s key_name key_ne).
Qed.

Lemma px_ReadAll_ok : px_ReadAll v p s =
  (s, match files t k with Some c => inl c | None => inr (server_err errFileNotFound) end).
Proof.
  apply counting_quiet; [|by destruct (files t k)]. destruct px_file_ok as (E1 & E2 & _ & E3).
  unfold mbind, px_bind. rewrite E1, E2, E3. unfold px_call, ioutil_ReadFile, os_Open, path_error.
  rewrite syscall_ok by apply Hh. unfold sys_open. cbn [fst snd]. rewrite set_tree_id.
  fold (px_tree s) t. unfold files. destruct (t !! k) as [n|] eqn:E.
  2: { destruct (lookup_node_missing t k key_name E) as [-> | ->]; by rewrite set_os_id. }
  rewrite (lookup_node_there t k n (h_tree _ _ Hh) key_name key_ne E), elems_at by apply key_name.
  destruct n as [|c]; [|rewrite (file_read_ok (px_os s) k (h_faults _ _ Hh) c E); by rewrite set_os_id].
  unfold file_read, path_error. rewrite syscall_ok by apply Hh. unfold sys_read. fold (px_tree s) t. rewrite E.
  cbn [fst snd]. unfold t, px_tree. by rewrite set_tree_id, set_os_id.
Qed.

Lemma px_StatFile_ok : px_StatFile v p s =
  (s, match files t k with
      | Some c => inl {| FileVolume := v; FileName := p; FileModTime := os_mtime t k; FileSize := zlen c; FileMode := 0 |}
      | None => inr (server_err errFileNotFound)
      end).
Proof.
  apply counting_quiet; [|by destruct (files t k)]. destruct px_file_ok as (E1 & _ & E2 & E3).
  unfold mbind, px_bind. rewrite E1, E2, E3. unfold px_call, os_Stat, path_error.
  rewrite syscall_ok by apply Hh. unfold sys_stat. cbn [fst snd]. rewrite set_tree_id, set_os_id.
  fold (px_tree s) t. unfold files. destruct (t !! k) as [n|] eqn:E.
  2: { by destruct (lookup_node_missing t k key_name E) as [-> | ->]. }
  rewrite (lookup_node_there t k n (h_tree _ _ Hh) key_name key_ne E). destruct n as [|c]; [done|].
  unfold finfo. rewrite elems_at by apply key_name. done.
Qed.

(** A name at which a file can be. *)
Context (Hfree : no_file_above t k) (Hnd : t !! k ≠ Some NDir).

Lemma px_ReadFile_ok off buf : 0 ≤ off → px_ReadFile v p off buf s =
  (s, match files t k with Some c => inl (readFull c off buf) | None => inr (server_err errFileNotFound) end).
Proof.
  intros Hoff. apply counting_quiet; [|by destruct (files t k)]. destruct px_file_ok as (E1 & E2 & _ & E3).
  unfold mbind, px_bind. rewrite E1, E2, E3. unfold px_call.
  rewrite (os_Open_ok (px_os s) k (h_faults _ _ Hh) (h_tree _ _ Hh) key_name false Hfree). fold (px_tree s) t.
  unfold files. destruct (t !! k) as [[|c]|] eqn:E; [done| |by rewrite set_os_id].
  rewrite set_os_id. unfold file_Stat, path_error. rewrite syscall_ok by apply Hh. fold (px_tree s) t. rewrite E.
  cbn [fst snd finfo fi_IsDir]. rewrite bool_decide_false by done. unfold t, px_tree. rewrite set_tree_id, set_os_id.
  rewrite syscall_ok by apply Hh. cbn [fst snd]. rewrite set_tree_id, set_os_id. rewrite (proj2 (Z.ltb_ge off 0)) by lia.
  unfold file_ReadFull. rewrite (file_read_ok (px_os s) k (h_faults _ _ Hh) c E), (h_faults _ _ Hh). by rewrite set_os_id.
Qed.

Lemma createFile_ok : createFile v p s = (with_tree s (put_file t k (default [] (files t k))), inl k).
Proof.
  apply counting_quiet; [|done]. destruct px_file_ok as (E1 & E2 & _ & E3).
  unfold mbind, px_bind. rewrite E1, E2, E3. unfold px_try, px_call.
  rewrite (os_Stat_ok (px_os s) k (h_faults _ _ Hh) (h_tree _ _ Hh) key_name false Hfree). fold (px_tree s) t.
  rewrite set_os_id. unfold files. destruct (t !! k) as [[|c]|] eqn:E; [done| |].
  - cbn [fi_IsDir finfo]. rewrite bool_decide_false by done. cbn [mret px_ret].
    rewrite os_OpenFile_ok; [|apply Hh|apply Hh|apply key_name|apply key_ne| |by fold (px_tree s) t; rewrite E].
    + fold (px_tree s) t. rewrite E. rewrite put_file_same; [|apply Hh|apply key_ne|done]. unfold t. by rewrite with_tree_id, set_os_id.
    + fold (px_tree s) t. destruct (exists_last key_ne) as (r & x & Er). rewrite Er in E |- *. rewrite removelast_last.
      apply (tok_parent _ (h_tree _ _ Hh) r x). by eexists.
  - destruct (exists_last key_ne) as (r & x & Er). pose proof (os_name_plain _ key_name) as Hpl.
    assert (Hdir : path_Dir (abs_path k) = abs_path (removelast k)).
    { rewrite Er in Hpl |- *. rewrite removelast_last. by apply path_Dir_abs. }
    assert (Hrn : os_name (removelast k)). { pose proof key_name as Hn. rewrite Er in Hn |- *. rewrite removelast_last. by apply (os_name_app_l _ [x]). }
    rewrite Hdir. rewrite os_MkdirAll_ok; [|apply Hh|apply Hh|done|by apply no_file_above_on; [apply key_ne|]].
    fold (px_tree s) t. set (t1 := t ∪ dirs_map (removelast k)). cbn [set_os px_os].
    assert (Ht1 : t1 !! k = None).
    { unfold t1. rewrite add_dirs_lookup, E, decide_False; [done|]. by intros [? _]%prefix_removelast; [|apply key_ne]. }
    rewrite os_OpenFile_ok; [|apply Hh| |apply key_name|apply key_ne| |by cbn; rewrite Ht1].
    + cbn [os_tree set_tree]. rewrite Ht1. done.
    + apply add_dirs_ok; [apply Hh|]. by apply no_file_above_on; [apply key_ne|].
    + cbn [os_tree set_tree]. unfold t1. rewrite add_dirs_lookup. destruct (t !! removelast k) as [[|c]|] eqn:Ed; [done| |by rewrite decide_True].
      destruct (Hfree (removelast k) [x] c); [|done|done]. rewrite Er at 1. by rewrite Er, removelast_last.
Qed.

Lemma px_AppendFile_ok b : px_AppendFile v p b s = (with_tree s (put_file t k (default [] (files t k) ++ b)), inl ()).
Proof.
  apply counting_quiet; [|done]. unfold mbind, px_bind, px_get. rewrite (proj2 (Z.ltb_ge maxAllowedIOError (ioErrCount s))) by apply Hh.
  rewrite createFile_ok. destruct b as [|c b]; [by rewrite app_nil_r|]. unfold px_call, file_append, file_write.
  cbn [px_os with_tree set_os os_faults set_tree]. rewrite (h_faults _ _ Hh). cbn [tail os_tree].
  unfold put_bytes. cbn [os_tree set_tree]. rewrite (put_file_lookup _ _ _ _ key_ne), decide_True by done. rewrite put_file_twice.
  unfold with_tree, set_os, set_tree. by rewrite (h_faults _ _ Hh).
Qed.

(** There is space on the disk. *)
Definition roomy (s : posix) : Prop :=
  px_minFreeSpace s < availableDiskSpace (DiskFree (os_statfs (px_os s))) ∧
  (DiskFiles (os_statfs (px_os s)) = 0 ∨ px_minFreeInodes s < DiskFfree (os_statfs (px_os s))).

Lemma checkDiskFree_ok : roomy s → checkDiskFree s = (s, inl ()).
Proof.
  intros [H1 H2]. unfold checkDiskFree, mbind, px_bind, px_get, getDiskInfo. unfold mbind, px_bind.
  rewrite (h_path _ _ Hh), (px_checkPathLength_abs base false s base_ok base_ne).
  assert (Hinfo : px_raw (λ t0, (t0, match lookup_node t0 (abs_path base) with inl _ => inl (os_statfs (px_os s)) | inr e => inr e end)) (px_os s) =
    (px_os s, inl (os_statfs (px_os s)))).
  { unfold px_raw. rewrite syscall_ok by apply Hh. cbn [fst snd]. rewrite set_tree_id.
    by rewrite (lookup_node_there _ base NDir (h_tree _ _ Hh) base_ok base_ne (h_disk _ _ Hh)). }
  unfold px_call, disk_GetInfo. rewrite Hinfo, set_os_id, Hinfo, set_os_id. cbn [mret px_ret].
  rewrite (proj2 (Z.leb_gt _ _) H1). destruct H2 as [-> | H2]; [done|].
  rewrite (proj2 (Z.leb_gt _ _) H2). by rewrite andb_false_r.
Qed.

Lemma px_PrepareFile_ok n : roomy s → 0 < n →
  px_PrepareFile v p n s = (with_tree s (put_file t k (default [] (files t k))), inl ()).
Proof.
  intros Hr Hn. unfold px_PrepareFile. rewrite (proj2 (Z.leb_gt n 0)) by lia. apply counting_quiet; [|done].
  unfold mbind, px_bind, px_get. rewrite (proj2 (Z.ltb_ge maxAllowedIOError (ioErrCount s))) by apply Hh.
  rewrite checkDiskFree_ok, createFile_ok by done. unfold Fallocate. rewrite (proj2 (Z.eqb_neq n 0)) by lia.
  unfold mbind, px_bind, px_try, px_raw. rewrite syscall_ok by apply Hh. cbn [fst snd mret px_ret].
  by rewrite set_tree_id, set_os_id.
Qed.

End File.

(** ** Deletes and renames *)

Lemma removelast_prefix (es : list string) : removelast es `prefix_of` es.
Proof.
  destruct (decide (es = [])) as [->|Hne]; [done|]. destruct (exists_last Hne) as (r & x & ->). rewrite removelast_last.
  by exists [x].
Qed.

Lemma removelast_key v p : removelast (file_key v p) = vol_dir v ++ removelast (Split p "/").
Proof. unfold file_key. by rewrite removelast_app by apply Split_ne. Qed.

Lemma path_Dir_name es : os_name es → es ≠ [] → path_Dir (abs_path es) = abs_path (removelast es) ∧ os_name (removelast es).
Proof.
  intros Hn Hne. pose proof (os_name_plain _ Hn) as Hpl. destruct (exists_last Hne) as (r & x & ->). rewrite removelast_last.
  split; [by apply path_Dir_abs|]. by apply (os_name_app_l _ [x]).
Qed.

Lemma tree_parent t es : tree_ok t → es ≠ [] → is_Some (t !! es) → t !! removelast es = Some NDir.
Proof. intros Ht Hne Hs. destruct (exists_last Hne) as (r & x & ->). rewrite removelast_last. by apply (tok_parent _ Ht r x). Qed.

Lemma vol_dir_ne v : vol_dir v ≠ [].
Proof. unfold PosixSpec.vol_dir. by destruct base. Qed.

Section Delete.
Context (s : posix) (Hh : healthy s) (v p : string) (Hv : vol_name v) (Hd : px_tree s !! vol_dir v = Some NDir)
  (Hp : file_name v p).

Lemma px_DeleteFile_ok c : files (px_tree s) (file_key v p) = Some c →
  ∃ t', px_DeleteFile v p s = (with_tree s t', inl ()) ∧ pruned (vol_dir v) (Split p "/") (px_tree s) t' ∧
    t' !! file_key v p = None.
Proof.
  intros Hc%files_Some. destruct (px_file_ok s Hh v p Hv Hd Hp) as (E1 & E2 & _ & E3).
  destruct (deleteFile_ok base (vol_dir v) (Split p "/") s (delete_fuel (abs_path (file_key v p))) (NFile c))
    as (t' & Hrun & Hpr & Hgone).
  - done.
  - apply Hp.
  - apply vol_dir_ne.
  - done.
  - by intros ?%Split_ne.
  - unfold delete_fuel. rewrite elems_at by apply Hp. unfold file_key. rewrite length_app. lia.
  - by exists (Split v "/").
  - exists t'. split_and!; [|done|]; [|by apply Hgone; [apply Split_ne|]].
    apply counting_quiet; [|done]. unfold mbind, px_bind. rewrite E1, E2, E3. exact Hrun.
Qed.

Lemma px_DeleteFile_none : no_file_above (px_tree s) (file_key v p) → px_tree s !! file_key v p = None →
  px_DeleteFile v p s = (s, inr (server_err errFileNotFound)).
Proof.
  intros Hf Hn. destruct (px_file_ok s Hh v p Hv Hd Hp) as (E1 & E2 & _ & E3). apply counting_quiet; [|done].
  unfold mbind, px_bind. rewrite E1, E2, E3. unfold delete_fuel. cbn [deleteFile]. rewrite bool_decide_false.
  - unfold mbind, px_bind, px_call. rewrite (os_Stat_ok (px_os s) _ (h_faults _ _ Hh) (h_tree _ _ Hh) (proj2 Hp) false Hf).
    fold (px_tree s). rewrite Hn. by rewrite set_os_id.
  - intros E%(f_equal path_elems). rewrite !elems_at in E by (apply Hp || apply Hv). by rewrite <- E, Hd in Hn.
Qed.

End Delete.

Lemma pruned_cases (bs r k : list string) :
  (∃ a q, r = a ++ q ∧ a ≠ [] ∧ k = bs ++ a) ∨ (∀ a, a ≠ [] → a `prefix_of` r → k ≠ bs ++ a).
Proof.
  destruct (decide (bs `prefix_of` k)) as [[a ->]|Hn].
  - destruct (decide (a = [])) as [->|Ha].
    + right. intros a Ha _ E. apply app_inv_head in E. congruence.
    + destruct (decide (a `prefix_of` r)) as [[q ->]|Hq]; [left; eauto 10|]. right. intros a' _ Hp E.
      by apply app_inv_head in E as ->.
  - right. intros a _ _ ->. destruct Hn. by exists a.
Qed.

Lemma pruned_files bs r t t' n : pruned bs r t t' → tree_ok t → t !! (bs ++ r) = Some n →
  (r ≠ [] → n ≠ NDir → t' !! (bs ++ r) = None) → (r = [] → n = NDir) → ∀ k, files t' k = if decide (k = bs ++ r) then None else files t k.
Proof.
  intros [Ht' Ho Hs Hf] Ht Hn Hgone Hr k. unfold files. destruct (decide (k = bs ++ r)) as [->|Hk].
  - destruct (t' !! (bs ++ r)) as [n'|] eqn:E; [|done]. pose proof (Hs _ _ E) as E'. rewrite Hn in E'. injection E' as <-.
    destruct n; [done|]. destruct (decide (r = [])) as [->|Hr']; [discriminate (Hr eq_refl)|]. by specialize (Hgone Hr' ltac:(done)).
  - destruct (pruned_cases bs r k) as [(a & q & -> & Ha & ->)|Hn'].
    + assert (Hd : t !! (bs ++ a) = Some NDir).
      { apply (tree_above t _ q Ht); [rewrite <- app_assoc; by eexists|]. intros ->. by rewrite app_nil_r in Hk. }
      rewrite Hd. destruct (t' !! (bs ++ a)) as [n'|] eqn:E; [|done]. apply Hs in E. rewrite Hd in E. by injection E as <-.
    + by rewrite Ho.
Qed.

(** A directory that is left has an entry, if it had one. *)
Lemma pruned_dirs bs r t t' k : pruned bs r t t' → k ≠ bs → t' !! k = Some NDir →
  ((∀ a, a ≠ [] → a `prefix_of` r → k ≠ bs ++ a) → t !! k = Some NDir → ∃ x, is_Some (t !! (k ++ [x]))) →
  ∃ x, is_Some (t' !! (k ++ [x])).
Proof.
  intros [Ht' Ho Hs Hf] Hk Hd Hfull. destruct (pruned_cases bs r k) as [(a & q & -> & Ha & ->)|Hn].
  - destruct (Hf a Ha ltac:(by exists q) Hd) as [x Hx]. exists x. by rewrite <- app_assoc.
  - destruct (Hfull Hn (Hs _ _ Hd)) as [x Hx]. exists x. rewrite Ho; [done|]. intros a Ha [q ->] E.
    destruct (exists_last Ha) as (a' & y & ->). rewrite app_assoc in E. apply app_inj_tail in E as [-> _].
    destruct (decide (a' = [])) as [->|Ha']; [by rewrite app_nil_r in Hk|].
    apply (Hn a' Ha'); [|done]. exists (y :: q). by rewrite <- app_assoc.
Qed.

(** ** Renames *)

Lemma move_tree_ok t ks kd : tree_ok t → ks ≠ [] → kd ≠ [] → is_Some (t !! ks) → t !! removelast kd = Some NDir → ¬ ks `prefix_of` kd →
  (∀ r, r ≠ [] → t !! (kd ++ r) = None) → tree_ok (move_tree t ks kd).
Proof.
  intros Ht Hks Hkd Hs Hpar Hsd Hno. split.
  - rewrite move_tree_lookup by done. rewrite !(proj2 (below_dir_None _ _)); [apply Ht|..]; by intros ?%prefix_nil_inv.
  - intros k x. rewrite !move_tree_lookup by done. destruct (below_dir kd (k ++ [x])) as [r|] eqn:E.
    + apply below_dir_Some in E. intros Hx. destruct r as [|y r _] using rev_ind.
      * rewrite app_nil_r in E. subst kd. rewrite removelast_last in Hpar.
        rewrite (proj2 (below_dir_None (k ++ [x]) k)) by (intros Hp%prefix_length; rewrite length_app in Hp; simpl in Hp; lia).
        rewrite (proj2 (below_dir_None ks k)); [done|]. intros Hp. apply Hsd. by apply prefix_app_r.
      * rewrite app_assoc in E. apply app_inj_tail in E as [-> ->]. rewrite (proj2 (below_dir_Some kd (kd ++ r) r)) by done.
        apply (tok_parent _ Ht _ y). by rewrite <- app_assoc.
    + apply below_dir_None in E. destruct (below_dir ks (k ++ [x])) as [r|] eqn:E'; [by intros [? ?]|]. apply below_dir_None in E'.
      intros Hx. rewrite !(proj2 (below_dir_None _ k)); [by apply (tok_parent _ Ht _ x)|..]; intros Hp; [destruct E'|destruct E]; by apply prefix_app_r.
Qed.

Lemma move_tree_files t ks kd k : is_Some (t !! ks) → ¬ ks `prefix_of` kd → (∀ r, r ≠ [] → t !! (kd ++ r) = None) →
  files (move_tree t ks kd) k =
    match below_dir kd k with
    | Some r => files t (ks ++ r)
    | None => match below_dir ks k with Some _ => None | None => files t k end
    end.
Proof. intros Hs Hsd Hno. unfold files. rewrite move_tree_lookup by done. destruct (below_dir kd k); [done|]. by destruct (below_dir ks k). Qed.

Lemma add_dirs_files t es k : files (t ∪ dirs_map es) k = files t k.
Proof. unfold files. rewrite add_dirs_lookup. destruct (t !! k); [done|]. by destruct (decide _). Qed.

(** What a rename starts with. *)
Lemma rename_begin s (Hh : healthy s) sv dv : vol_name sv → vol_name dv →
  px_tree s !! vol_dir sv = Some NDir → px_tree s !! vol_dir dv = Some NDir →
  px_begin s = (s, inl ()) ∧ getVolDir sv s = (s, inl (abs_path (vol_dir sv))) ∧ getVolDir dv s = (s, inl (abs_path (vol_dir dv))) ∧
  px_statVol (abs_path (vol_dir sv)) s = (s, inl (finfo (px_tree s) (abs_path (vol_dir sv)) NDir)) ∧
  px_try (λ o, os_Stat o (abs_path (vol_dir dv))) s = (s, inl (inl (finfo (px_tree s) (abs_path (vol_dir dv)) NDir))).
Proof.
  intros Hsv Hdv Hds Hdd. split_and!.
  - by apply (px_begin_ok base).
  - by apply (vol_dir_path base s Hh).
  - by apply (vol_dir_path base s Hh).
  - unfold px_statVol, px_call. rewrite (os_Stat_ok (px_os s) _ (h_faults _ _ Hh) (h_tree _ _ Hh) (proj2 (proj2 Hsv)) false) by (by apply (vol_no_file base)).
    fold (px_tree s). rewrite Hds. by rewrite set_os_id.
  - unfold px_try. rewrite (os_Stat_ok (px_os s) _ (h_faults _ _ Hh) (h_tree _ _ Hh) (proj2 (proj2 Hdv)) false) by (by apply (vol_no_file base)).
    fold (px_tree s). rewrite Hdd. by rewrite set_os_id.
Qed.

Section Rename.
Context (s : posix) (Hh : healthy s) (sv src dv dst : string) (Hsv : vol_name sv) (Hdv : vol_name dv)
  (Hds : px_tree s !! vol_dir sv = Some NDir) (Hdd : px_tree s !! vol_dir dv = Some NDir)
  (Hsrc : file_name sv src) (Hdst : file_name dv dst).

Let t := px_tree s.
Let ks := file_key sv src.
Let kd := file_key dv dst.
Let t1 := t ∪ dirs_map (removelast kd).
Let t2 := move_tree t1 ks kd.

Context (n : node) (Hn : t !! ks = Some n) (Hfree : no_file_above t kd) (Hsd : ¬ ks `prefix_of` kd)
  (Hover : t !! kd = None ∨ ∃ c c', n = NFile c ∧ t !! kd = Some (NFile c')).

Lemma dst_below r : r ≠ [] → t1 !! (kd ++ r) = None.
Proof.
  intros Hr. unfold t1. rewrite add_dirs_lookup. destruct (t !! (kd ++ r)) as [n'|] eqn:E.
  - assert (Hkd : t !! kd = Some NDir) by (apply (tree_above t kd r (h_tree _ _ Hh)); [by eexists|done]).
    destruct Hover as [?|(c & c' & _ & ?)]; congruence.
  - rewrite decide_False; [done|]. intros Hp%prefix_length. pose proof (prefix_length _ _ (removelast_prefix kd)) as Hl.
    rewrite length_app in Hp. destruct r; [done|]. simpl in Hp. lia.
Qed.

Lemma t1_ok : tree_ok t1.
Proof. apply add_dirs_ok; [apply Hh|]. by apply no_file_above_on; [apply file_key_ne|]. Qed.

Lemma t1_src : t1 !! ks = Some n.
Proof. unfold t1. by rewrite add_dirs_lookup, Hn. Qed.

Lemma t1_parent : t1 !! removelast kd = Some NDir.
Proof.
  unfold t1. rewrite add_dirs_lookup. destruct (t !! removelast kd) as [[|c]|] eqn:E; [done| |by rewrite decide_True].
  by destruct (no_file_above_on t kd (file_key_ne base base_ok base_ne dv dst) Hfree (removelast kd) c).
Qed.

Lemma t1_dst : t1 !! kd = t !! kd.
Proof.
  unfold t1. rewrite add_dirs_lookup. destruct (t !! kd); [done|]. rewrite decide_False; [done|].
  by intros [? _]%prefix_removelast; [|apply file_key_ne].
Qed.

Lemma t2_ok : tree_ok t2.
Proof.
  apply move_tree_ok; [apply t1_ok|by apply file_key_ne..|rewrite t1_src; by eexists|apply t1_parent|done|apply dst_below].
Qed.

Lemma t2_lookup k : ¬ kd `prefix_of` k → ¬ ks `prefix_of` k → t2 !! k = t1 !! k.
Proof.
  intros H1 H2. unfold t2. rewrite move_tree_lookup; [|done|apply dst_below|rewrite t1_src; by eexists].
  by rewrite !(proj2 (below_dir_None _ k)).
Qed.

Lemma t2_dir k : t !! k = Some NDir → k `prefix_of` ks → k ≠ ks → t2 !! k = Some NDir.
Proof.
  intros Hk Hp Hne. rewrite t2_lookup.
  - unfold t1. by rewrite add_dirs_lookup, Hk.
  - intros Hq. destruct Hq as [r ->]. destruct (decide (r = [])) as [->|Hr].
    + rewrite app_nil_r in *. destruct Hover as [?|(c & c' & _ & ?)]; congruence.
    + pose proof (dst_below r Hr) as E. unfold t1 in E. by rewrite add_dirs_lookup, Hk in E.
  - intros Hq. apply Hne. by apply (anti_symm prefix).
Qed.

(** The tree after the rename: the entry moved, and the directories it leaves
    empty are gone. *)
Lemma rename_tail : ∃ t', pruned (vol_dir sv) (removelast (Split src "/")) t2 t' ∧
  (empty ← isDirEmpty (path_Dir (abs_path ks));
   if (empty : bool) then px_ignore (deleteFile (delete_fuel (path_Dir (abs_path ks))) (abs_path (vol_dir sv)) (path_Dir (abs_path ks)))
   else mret ()) (with_tree s t2) = (with_tree s t', inl ()).
Proof.
  assert (Hksne : ks ≠ []) by (by apply file_key_ne). destruct (path_Dir_name ks (proj2 Hsrc) Hksne) as [-> Hrn].
  assert (Hr : removelast ks = vol_dir sv ++ removelast (Split src "/")) by apply removelast_key.
  assert (Hdir : t2 !! removelast ks = Some NDir).
  { apply t2_dir; [apply tree_parent; [apply Hh|done|by eexists]|apply removelast_prefix|].
    intros E%(f_equal length). destruct (exists_last Hksne) as (q & x & Eq). rewrite Eq, removelast_last, length_app in E. simpl in E. lia. }
  assert (Hh2 : healthy (with_tree s t2)).
  { apply healthy_with; [done|apply t2_ok|]. apply t2_dir; [apply Hh|by exists (Split sv "/" ++ Split src "/"); unfold ks, file_key, PosixSpec.vol_dir; rewrite app_assoc|].
    intros E%(f_equal length). unfold ks, file_key, PosixSpec.vol_dir in E. rewrite !length_app in E. pose proof (Split_ne src). destruct (Split src "/"); [done|]. simpl in E. lia. }
  unfold mbind, px_bind. rewrite (isDirEmpty_ok base _ Hh2 _ Hrn); [|apply no_file_above_dir; [apply t2_ok|]|done].
  2: { destruct (decide (removelast ks = [])) as [->|Hne]; [apply t2_ok|]. apply tree_parent; [apply t2_ok|done|by eexists]. }
  change (px_tree (with_tree s t2)) with t2. case_bool_decide as He.
  - rewrite Hr in *. destruct (deleteFile_ok base (vol_dir sv) (removelast (Split src "/")) (with_tree s t2)
      (delete_fuel (abs_path (vol_dir sv ++ removelast (Split src "/")))) NDir) as (t' & Hrun & Hpr & _); try done.
    + apply vol_dir_ne.
    + unfold delete_fuel. rewrite elems_at by done. rewrite length_app. lia.
    + by exists (Split sv "/").
    + exists t'. split; [done|]. unfold px_ignore. by rewrite Hrun.
  - exists t2. split; [|done]. rewrite Hr in *. apply pruned_full; [apply t2_ok|done|done].
Qed.

Lemma rename_run : ∃ t', pruned (vol_dir sv) (removelast (Split src "/")) t2 t' ∧
  (_ ← px_call (λ o, os_MkdirAll o (path_Dir (abs_path kd))) (λ err,
     if isSysErrNotDir err then server_err errFileAccessDenied else system_err err);
   _ ← px_call (λ o, os_Rename o (abs_path ks) (abs_path kd)) (λ err,
     if os_IsNotExist err then server_err errFileNotFound else system_err err);
   empty ← isDirEmpty (path_Dir (abs_path ks));
   if (empty : bool) then px_ignore (deleteFile (delete_fuel (path_Dir (abs_path ks))) (abs_path (vol_dir sv)) (path_Dir (abs_path ks)))
   else mret ()) s = (with_tree s t', inl ()).
Proof.
  destruct rename_tail as (t' & Hpr & Htail). exists t'. split; [done|].
  assert (Hksne : ks ≠ []) by (by apply file_key_ne). assert (Hkdne : kd ≠ []) by (by apply file_key_ne).
  unfold mbind at 1, px_bind at 1, px_call at 1. rewrite (proj1 (path_Dir_name kd (proj2 Hdst) Hkdne)).
  rewrite os_MkdirAll_ok; [|apply Hh|apply Hh|by apply path_Dir_name; [apply Hdst|]|by apply no_file_above_on].
  fold (px_tree s) t t1. unfold mbind at 1, px_bind at 1, px_call at 1. cbn [px_os set_os].
  rewrite (os_Rename_ok _ ks kd n); [exact Htail|apply Hh|apply t1_ok|apply Hsrc|apply Hdst|done|done|apply t1_src|apply t1_parent|done|].
  cbn [os_tree set_tree]. by rewrite t1_dst.
Qed.

(** The checks before the rename of a file, and of a directory. *)
Lemma px_RenameFile_file : (∃ c, n = NFile c) → ∃ t', pruned (vol_dir sv) (removelast (Split src "/")) t2 t' ∧
  px_RenameFile sv src dv dst s = (with_tree s t', inl ()).
Proof.
  intros [c Hc]. destruct rename_run as (t' & Hpr & Hrun). exists t'. split; [done|]. apply counting_quiet; [|done].
  destruct (rename_begin s Hh sv dv Hsv Hdv Hds Hdd) as (E1 & E2 & E3 & E4 & E5).
  destruct (px_file_ok s Hh sv src Hsv Hds Hsrc) as (_ & _ & F1 & F2).
  destruct (px_file_ok s Hh dv dst Hdv Hdd Hdst) as (_ & _ & G1 & G2).
  unfold mbind, px_bind in *. rewrite E1, E2, E3, E4, E5. cbn [mret px_ret]. unfold slashSeparator. rewrite !clean_no_slash by (apply Hsrc || apply Hdst).
  cbn [negb andb orb]. rewrite F1, G1, F2, G2. exact Hrun.
Qed.

Lemma px_RenameFile_dir : n = NDir → t !! kd = None → ∃ t', pruned (vol_dir sv) (removelast (Split src "/")) t2 t' ∧
  px_RenameFile sv (src +:+ "/") dv (dst +:+ "/") s = (with_tree s t', inl ()).
Proof.
  intros Hc Hkd. destruct rename_run as (t' & Hpr & Hrun). exists t'. split; [done|]. apply counting_quiet; [|done].
  destruct (rename_begin s Hh sv dv Hsv Hdv Hds Hdd) as (E1 & E2 & E3 & E4 & E5).
  destruct (px_file_ok s Hh sv src Hsv Hds Hsrc) as (_ & _ & _ & F2). destruct (px_file_ok s Hh dv dst Hdv Hdd Hdst) as (_ & _ & _ & G2).
  destruct (file_path base sv src Hsv Hsrc) as (_ & _ & _ & F1). destruct (file_path base dv dst Hdv Hdst) as (_ & _ & _ & G1).
  unfold mbind, px_bind in *. rewrite E1, E2, E3, E4, E5. cbn [mret px_ret]. unfold slashSeparator. rewrite !HasSuffix_app.
  cbn [negb andb orb]. rewrite F1, G1, F2, G2. unfold px_try.
  rewrite (os_Stat_ok (px_os s) kd (h_faults _ _ Hh) (h_tree _ _ Hh) (proj2 Hdst) false Hfree). fold (px_tree s) t. rewrite Hkd.
  rewrite set_os_id. exact Hrun.
Qed.

End Rename.

(** A directory is not moved over another. *)
Lemma px_RenameFile_exists s sv src dv dst : healthy s → vol_name sv → vol_name dv → px_tree s !! vol_dir sv = Some NDir →
  px_tree s !! vol_dir dv = Some NDir → file_name sv src → file_name dv dst → px_tree s !! file_key dv dst = Some NDir →
  px_RenameFile sv (src +:+ "/") dv (dst +:+ "/") s = (s, inr (server_err errFileAccessDenied)).
Proof.
  intros Hh Hsv Hdv Hds Hdd Hsrc Hdst Hd. apply counting_quiet; [|done].
  destruct (rename_begin s Hh sv dv Hsv Hdv Hds Hdd) as (E1 & E2 & E3 & E4 & E5).
  destruct (px_file_ok s Hh sv src Hsv Hds Hsrc) as (_ & _ & _ & F2). destruct (px_file_ok s Hh dv dst Hdv Hdd Hdst) as (_ & _ & _ & G2).
  destruct (file_path base sv src Hsv Hsrc) as (_ & _ & _ & F1). destruct (file_path base dv dst Hdv Hdst) as (_ & _ & _ & G1).
  unfold mbind, px_bind in *. rewrite E1, E2, E3, E4, E5. cbn [mret px_ret]. unfold slashSeparator. rewrite !HasSuffix_app.
  cbn [negb andb orb]. rewrite F1, G1, F2, G2. unfold px_try.
  rewrite (os_Stat_ok (px_os s) _ (h_faults _ _ Hh) (h_tree _ _ Hh) (proj2 Hdst) false).
  - fold (px_tree s). rewrite Hd. by rewrite set_os_id.
  - apply no_file_above_dir; [apply Hh|]. apply tree_parent; [apply Hh|by apply file_key_ne|by eexists].
Qed.

(** A volume is missing. *)
Lemma px_RenameFile_novol s sv sp dv dp : healthy s → vol_name sv → vol_name dv →
  no_file_above (px_tree s) (vol_dir sv) → no_file_above (px_tree s) (vol_dir dv) →
  (px_tree s !! vol_dir sv = None ∨ px_tree s !! vol_dir sv = Some NDir ∧ px_tree s !! vol_dir dv = None) →
  px_RenameFile sv sp dv dp s = (s, inr (server_err errVolumeNotFound)).
Proof.
  intros Hh Hsv Hdv Hns Hnd Hnone. apply counting_quiet; [|done]. unfold mbind, px_bind.
  rewrite (px_begin_ok base s Hh base_ok base_ne), !(vol_dir_path base s Hh base_ok) by done.
  unfold px_statVol, px_call. rewrite (os_Stat_ok (px_os s) (vol_dir sv) (h_faults _ _ Hh) (h_tree _ _ Hh) (proj2 (proj2 Hsv)) false Hns).
  fold (px_tree s). destruct Hnone as [->|[-> Hn]]; [by rewrite set_os_id|].
  rewrite set_os_id. unfold px_try. rewrite (os_Stat_ok (px_os s) (vol_dir dv) (h_faults _ _ Hh) (h_tree _ _ Hh) (proj2 (proj2 Hdv)) false Hnd).
  fold (px_tree s). rewrite Hn. by rewrite set_os_id.
Qed.

(** ** Listings *)

Lemma index_bytes_app a b : is_Some (index_bytes (a ++ b) b).
Proof.
  induction a as [|x a IH].
  - rewrite app_nil_l. destruct b; cbn [index_bytes]; rewrite bool_decide_true by done; by eexists.
  - rewrite <- app_comm_cons. cbn [index_bytes]. destruct (bool_decide _); [by eexists|]. by apply fmap_is_Some.
Qed.

Lemma Contains_suffix a b : Contains (a +:+ b) b = true.
Proof. apply bool_decide_true. unfold Index. rewrite bytes_of_string_app. apply index_bytes_app. Qed.

Lemma readDir_dir s es (slash : bool) : healthy s → os_name es → es ≠ [] → px_tree s !! es = Some NDir →
  readDir (if slash then abs_path es +:+ "/" else abs_path es) s =
  (s, inl (parseDirents (range_order (entries_of (px_tree s) es)))).
Proof.
  intros Hh Hes Hne Hd. unfold readDir, mbind, px_bind, px_call.
  rewrite (os_Open_ok (px_os s) es (h_faults _ _ Hh) (h_tree _ _ Hh) Hes slash).
  2: { apply no_file_above_dir; [apply Hh|]. apply tree_parent; [apply Hh|done|by eexists]. }
  fold (px_tree s). rewrite Hd. rewrite set_os_id. unfold px_raw. rewrite syscall_ok by apply Hh. unfold sys_getdents.
  fold (px_tree s). rewrite Hd. cbn [fst snd]. rewrite set_tree_id, set_os_id. rewrite syscall_ok by apply Hh. cbn [fst snd].
  by rewrite set_tree_id, set_os_id.
Qed.

Lemma readDir_none s es : healthy s → os_name es → px_tree s !! es ≠ Some NDir →
  readDir (abs_path es +:+ "/") s = (s, inr (server_err errFileNotFound)).
Proof.
  intros Hh Hes Hd. unfold readDir, mbind, px_bind, px_call, os_Open, path_error. rewrite syscall_ok by apply Hh.
  unfold sys_open. cbn [fst snd]. rewrite set_tree_id, set_os_id. fold (px_tree s).
  assert (lookup_node (px_tree s) (abs_path es +:+ "/") = inr ENOENT ∨ lookup_node (px_tree s) (abs_path es +:+ "/") = inr ENOTDIR) as [-> | ->].
  - unfold lookup_node. rewrite (proj2 (name_ok_abs es Hes)), (proj2 (path_elems_abs es (os_name_plain _ Hes))), HasSuffix_app. cbn [negb].
    destruct (px_tree s !! es) as [[|c]|] eqn:E; [done| |].
    + rewrite (walk_some _ [] es (NFile c)) by (apply Hh || done). by right.
    + destruct (walk_missing (px_tree s) es [] E) as [-> | ->]; auto.
  - done.
  - cbn [os_IsNotExist underlying]. unfold open_msg. cbn [underlying errno_msg]. by rewrite !str_app_assoc, Contains_suffix.
Qed.

(** ** Volumes *)

Section Volume.
Context (s : posix) (Hh : healthy s) (v : string) (Hv : vol_name v) (Hpar : px_tree s !! removelast (vol_dir v) = Some NDir).

Let t := px_tree s.

Lemma px_begin_vol : px_begin s = (s, inl ()) ∧ getVolDir v s = (s, inl (abs_path (vol_dir v))).
Proof. split; [by apply (px_begin_ok base)|by apply (vol_dir_path base s Hh)]. Qed.

Lemma px_MakeVol_ok : px_MakeVol v s =
  match t !! vol_dir v with
  | Some _ => (s, inr (server_err errVolumeExists))
  | None => (with_tree s (<[vol_dir v := NDir]> t), inl ())
  end.
Proof.
  destruct px_begin_vol as [E1 E2]. unfold t, px_tree.
  assert (Hmk := os_Mkdir_ok (px_os s) _ (h_faults _ _ Hh) (h_tree _ _ Hh) (proj2 (proj2 Hv)) (vol_dir_ne v) Hpar).
  destruct (os_tree (px_os s) !! vol_dir v); (apply counting_quiet; [|done]); unfold mbind, px_bind, px_call; rewrite E1, E2, Hmk.
  - by rewrite set_os_id.
  - done.
Qed.

Lemma px_StatVol_ok : t !! vol_dir v = Some NDir →
  px_StatVol v s = (s, inl {| VolName := v; VolCreated := os_mtime t (vol_dir v) |}).
Proof.
  intros Hd. destruct px_begin_vol as [E1 E2]. apply counting_quiet; [|done]. unfold mbind, px_bind. rewrite E1, E2.
  unfold px_statVol, px_call. rewrite (os_Stat_ok (px_os s) _ (h_faults _ _ Hh) (h_tree _ _ Hh) (proj2 (proj2 Hv)) false) by (by apply (vol_no_file base)).
  fold (px_tree s) t. rewrite Hd, set_os_id. unfold finfo. cbn [fi_ModTime]. by rewrite elems_at by apply Hv.
Qed.

Lemma px_StatVol_none : t !! vol_dir v = None → px_StatVol v s = (s, inr (server_err errVolumeNotFound)).
Proof.
  intros Hd. destruct px_begin_vol as [E1 E2]. apply counting_quiet; [|done]. unfold mbind, px_bind. rewrite E1, E2.
  unfold px_statVol, px_call. rewrite (os_Stat_ok (px_os s) _ (h_faults _ _ Hh) (h_tree _ _ Hh) (proj2 (proj2 Hv)) false) by (apply no_file_above_dir; [apply Hh|done]).
  fold (px_tree s) t. by rewrite Hd, set_os_id.
Qed.

Lemma px_DeleteVol_ok : (∀ c, t !! vol_dir v ≠ Some (NFile c)) → px_DeleteVol v s =
  match t !! vol_dir v with
  | None => (s, inr (server_err errVolumeNotFound))
  | Some _ =>
      match entries_of t (vol_dir v) with
      | [] => (with_tree s (delete (vol_dir v) t), inl ())
      | _ :: _ => (s, inr (server_err errVolumeNotEmpty))
      end
  end.
Proof.
  intros Hnf. destruct px_begin_vol as [E1 E2]. unfold t, px_tree in *.
  assert (Hrm := os_Remove_ok (px_os s) _ (h_faults _ _ Hh) (h_tree _ _ Hh) (proj2 (proj2 Hv)) (vol_dir_ne v) Hpar).
  destruct (os_tree (px_os s) !! vol_dir v) as [[|c]|]; [|by destruct (Hnf c)|].
  - destruct (entries_of _ _); (apply counting_quiet; [|done]); unfold mbind, px_bind, px_call; rewrite E1, E2, Hrm; [done|].
    by rewrite set_os_id.
  - apply counting_quiet; [|done]. unfold mbind, px_bind, px_call. rewrite E1, E2, Hrm. by rewrite set_os_id.
Qed.

End Volume.

(** An operation on a file of a volume that is missing. *)
Lemma px_volume_missing {A} s v (f : string → px A) : healthy s → vol_name v → px_tree s !! removelast (vol_dir v) = Some NDir →
  px_tree s !! vol_dir v = None → counting (px_volume v ≫= f) s = (s, inr (server_err errVolumeNotFound)).
Proof.
  intros Hh Hv Hpar Hn. apply counting_quiet; [|done]. unfold mbind, px_bind.
  rewrite (px_volume_none base s Hh base_ok base_ne v Hv Hn); [done|]. apply no_file_above_dir; [apply Hh|done].
Qed.

End Ops.
