(* ===== verification/PosixRefines.v ===== *)
(** * POSIX storage refines the disk in memory

    A disk without faults and with enough space, on which the server keeps its
    own files, answers a run of operations as the in-memory disk of [Storage]
    does: the files and volumes are the same after every operation. *)

From S2P Require Import Prelude.
From S2P Require Import GoErrors.
From S2P Require Import GoStrings.
From S2P Require Import Storage.
From S2P Require Import ObjectNames.
From S2P Require Import DiskContract.
From S2P Require Import OSFiles.
From S2P Require Import OSTrees.
From S2P Require Import Posix.
From S2P Require Import PosixSpec.
From S2P Require Import PosixOps.

Local Open Scope Z_scope.

(** An element of a path that listings show. *)
Definition visible (x : string) : Prop := plain_elem x ∧ hasPosixReservedPrefix x = false.

Section Refines.
Context `{OSTimes, MapOrder} (base : list string) (base_ok : os_name base) (base_ne : base ≠ []).

Abbreviation vol_dir := (vol_dir base).
Abbreviation vol_name := (vol_name base).
Abbreviation file_key := (file_key base).
Abbreviation file_name := (file_name base).

(** The volumes in use; none is inside another. *)
Context (V : string → Prop) (V_name : ∀ v, V v → vol_name v)
  (V_apart : ∀ v v', V v → V v' → vol_dir v `prefix_of` vol_dir v' → v = v').

Definition good_file (v p : string) : Prop :=
  file_name v p ∧ Forall (λ e, hasPosixReservedPrefix e = false) (Split p "/").

Record rel (s : posix) (m : MemDisk) : Prop := {
  rl_healthy : healthy base s;
  rl_room : roomy s;
  rl_online : mem_offline m = false;
  rl_parent : ∀ v, V v → px_tree s !! removelast (vol_dir v) = Some NDir;
  rl_vol : ∀ v, V v → px_tree s !! vol_dir v = if decide (v ∈ mem_vols m) then Some NDir else None;
  rl_file : ∀ v r, V v → r ≠ [] → Forall plain_elem r →
    files (px_tree s) (vol_dir v ++ r) = mem_files m !! (v, Join r "/");
  rl_names : ∀ v p, is_Some (mem_files m !! (v, p)) → V v ∧ good_file v p;
  rl_elems : ∀ v r, V v → is_Some (px_tree s !! (vol_dir v ++ r)) → Forall visible r;
  (** No directory inside a volume is empty. *)
  rl_full : ∀ v r, V v → r ≠ [] → px_tree s !! (vol_dir v ++ r) = Some NDir →
    ∃ x, is_Some (px_tree s !! ((vol_dir v ++ r) ++ [x]));
}.

(** ** Names *)

Lemma Split_Join_plain r : r ≠ [] → Forall plain_elem r → Split (Join r "/") "/" = r.
Proof. intros Hr Hp. apply Split_Join; [done|]. eapply Forall_impl; [exact Hp|]. by intros x (_ & _ & _ & ?). Qed.

Lemma vol_key_inj v v' r r' : V v → V v' → vol_dir v ++ r = vol_dir v' ++ r' → v = v' ∧ r = r'.
Proof.
  intros Hv Hv' E. assert (v = v') as <-.
  { destruct (prefix_weak_total (vol_dir v) (vol_dir v') (vol_dir v ++ r)) as [Hp|Hp].
    - by exists r.
    - rewrite E. by exists r'.
    - by apply V_apart.
    - symmetry. by apply V_apart. }
  by apply app_inv_head in E.
Qed.

Lemma visible_plain r : Forall visible r → Forall plain_elem r.
Proof. intros Hr. eapply Forall_impl; [exact Hr|]. by intros x [? _]. Qed.

Lemma good_visible v p : good_file v p → Forall visible (Split p "/").
Proof.
  intros [[Hc _] Hr]. unfold clean_path in Hc. rewrite Forall_forall in *. intros x Hx. split; [by apply Hc|by apply Hr].
Qed.

(** A name strictly inside a volume. *)
Definition inside (m : MemDisk) (k : list string) : Prop :=
  ∃ v r, V v ∧ v ∈ mem_vols m ∧ r ≠ [] ∧ k = vol_dir v ++ r.

Lemma vol_dir_long v : (length base < length (vol_dir v))%nat.
Proof. unfold PosixSpec.vol_dir. rewrite length_app. pose proof (Split_ne v). destruct (Split v "/"); [done|]. simpl. lia. Qed.

Section Rel.
Context (s : posix) (m : MemDisk) (HR : rel s m).

Let t := px_tree s.

Lemma rel_has v : V v → v ∈ mem_vols m → t !! vol_dir v = Some NDir.
Proof. intros Hv Hin. unfold t. rewrite (rl_vol _ _ HR v Hv). by rewrite decide_True. Qed.

Lemma rel_file_at v p : V v → clean_path p → files t (file_key v p) = mem_files m !! (v, p).
Proof. intros Hv Hc. unfold t, file_key. rewrite (rl_file _ _ HR v _ Hv (Split_ne p) Hc). by rewrite Join_Split. Qed.

Lemma rel_file_vol v p : is_Some (mem_files m !! (v, p)) → v ∈ mem_vols m.
Proof.
  intros Hs. destruct (rl_names _ _ HR v p Hs) as [Hv [[Hc _] _]]. rewrite <- rel_file_at in Hs by done.
  destruct Hs as [c Hc'%files_Some]. assert (Hd : t !! vol_dir v = Some NDir).
  { apply (tree_above t _ (Split p "/") (h_tree _ _ (rl_healthy _ _ HR))); [by eexists|apply Split_ne]. }
  unfold t in Hd. rewrite (rl_vol _ _ HR v Hv) in Hd. by destruct (decide _).
Qed.

(** The directories inside a volume are those that hold a file. *)
Lemma rel_dir v r : V v → r ≠ [] → Forall plain_elem r → t !! (vol_dir v ++ r) = Some NDir ↔ in_dir m v (Join r "/").
Proof.
  intros Hv Hr Hpl. split.
  - intros Hd. destruct (dir_has_file t (vol_dir v ++ r)) as (q & c & Hc).
    + by eexists.
    + intros q Hq. rewrite <- app_assoc in Hq. destruct (rl_full _ _ HR v (r ++ q) Hv) as [x Hx]; [by destruct r|done|].
      exists x. rewrite <- !app_assoc in Hx. by rewrite <- !app_assoc.
    + assert (Hq : q ≠ []) by (intros ->; rewrite app_nil_r in Hc; congruence).
      rewrite <- app_assoc in Hc. pose proof (rl_elems _ _ HR v (r ++ q) Hv ltac:(by eexists)) as Hvis%visible_plain.
      apply files_Some in Hc. unfold t in Hc. rewrite (rl_file _ _ HR v (r ++ q) Hv) in Hc; [|by destruct r|done].
      rewrite Join_app in Hc by done. exists (Join q "/"). simpl. by eexists.
  - intros [q Hq]. simpl in Hq. destruct (rl_names _ _ HR _ _ Hq) as [_ [[Hc _] _]].
    rewrite <- rel_file_at in Hq by done. destruct Hq as [c Hq%files_Some]. unfold file_key in Hq.
    rewrite Split_slash, Split_Join_plain in Hq by done. rewrite app_assoc in Hq.
    apply (tree_above t _ (Split q "/") (h_tree _ _ (rl_healthy _ _ HR))); [by eexists|apply Split_ne].
Qed.

Lemma rel_dir_at v p : V v → clean_path p → t !! file_key v p = Some NDir ↔ in_dir m v p.
Proof. intros Hv Hc. unfold file_key. rewrite rel_dir; [by rewrite Join_Split|done|apply Split_ne|done]. Qed.

(** A free name has no file above it, and is no directory. *)
Lemma rel_free v p : V v → v ∈ mem_vols m → clean_path p → free_name m v p →
  no_file_above t (file_key v p) ∧ t !! file_key v p ≠ Some NDir.
Proof.
  intros Hv Hin Hc [Ha Hb]. split; [|by rewrite rel_dir_at].
  intros a q c E Hq Hf. unfold file_key in E. pose proof (rel_has v Hv Hin) as Hd.
  destruct (prefix_weak_total a (vol_dir v) (file_key v p)) as [[r Er]|[r Er]].
  - unfold file_key. rewrite E. by exists q.
  - by exists (Split p "/").
  - destruct (decide (r = [])) as [->|Hr]; [rewrite app_nil_r in Er; congruence|].
    rewrite Er in Hd. rewrite (tree_above t a r (h_tree _ _ (rl_healthy _ _ HR))) in Hf; [done|by eexists|done].
  - subst a. rewrite <- app_assoc in E. apply app_inv_head in E. destruct (decide (r = [])) as [->|Hr].
    { rewrite app_nil_r in Hf. congruence. }
    unfold clean_path in Hc. rewrite E in Hc. apply Forall_app in Hc as [Hcr Hcq].
    apply files_Some in Hf. unfold t in Hf. rewrite (rl_file _ _ HR v r Hv Hr Hcr) in Hf.
    specialize (Ha (Join r "/") (Join q "/")). simpl in Ha. rewrite Ha in Hf; [done|].
    rewrite <- Join_app by done. by rewrite <- E, Join_Split.
Qed.

(** A change inside the volumes. *)
Lemma rel_with t' fs : tree_ok t' → (∀ k, ¬ inside m k → t' !! k = t !! k) →
  (∀ v r, V v → r ≠ [] → is_Some (t' !! (vol_dir v ++ r)) → Forall visible r) →
  (∀ v r, V v → r ≠ [] → t' !! (vol_dir v ++ r) = Some NDir → ∃ x, is_Some (t' !! ((vol_dir v ++ r) ++ [x]))) →
  (∀ v r, V v → r ≠ [] → Forall plain_elem r → files t' (vol_dir v ++ r) = fs !! (v, Join r "/")) →
  (∀ v p, is_Some (fs !! (v, p)) → V v ∧ good_file v p) →
  rel (with_tree s t') (mem_set_files m fs).
Proof.
  intros Ht' Hout Hvis Hfull Hfile Hnames.
  assert (Hshort : ∀ v k, V v → (length k ≤ length (vol_dir v))%nat → k `prefix_of` vol_dir v → t' !! k = t !! k).
  { intros v k Hv Hl Hp. apply Hout. intros (v' & r & Hv' & _ & Hr & ->).
    assert (v' = v) as -> by (apply V_apart; [done..|]; etransitivity; [|exact Hp]; by exists r).
    rewrite length_app in Hl. destruct r; [done|]. simpl in Hl. lia. }
  split; try done.
  - apply healthy_with; [apply HR|done|]. rewrite Hout; [apply (h_disk _ _ (rl_healthy _ _ HR))|].
    intros (v & r & _ & _ & _ & E%(f_equal length)). rewrite length_app in E. pose proof (vol_dir_long v). lia.
  - apply HR.
  - apply HR.
  - intros v Hv. change (t' !! removelast (vol_dir v) = Some NDir). rewrite (Hshort v); [by apply HR|done| |apply removelast_prefix].
    apply prefix_length, removelast_prefix.
  - intros v Hv. change (t' !! vol_dir v = if decide (v ∈ mem_vols m) then Some NDir else None). rewrite (Hshort v) by done. by apply HR.
  - intros v r Hv Hs. destruct (decide (r = [])) as [->|Hr]; [constructor|]. by apply (Hvis v).
Qed.

(** Directories on the way to a name in a volume. *)
Lemma on_the_way v r k : V v → v ∈ mem_vols m → ¬ inside m k → k `prefix_of` vol_dir v ++ r → t !! k = Some NDir.
Proof.
  intros Hv Hin Hk Hp. pose proof (rel_has v Hv Hin) as Hd.
  destruct (prefix_weak_total k (vol_dir v) (vol_dir v ++ r)) as [[q E]|[q E]]; [done|by exists r| |].
  - destruct (decide (q = [])) as [->|Hq]; [rewrite app_nil_r in E; congruence|]. rewrite E in Hd.
    apply (tree_above t k q (h_tree _ _ (rl_healthy _ _ HR))); [by eexists|done].
  - destruct (decide (q = [])) as [->|Hq]; [rewrite app_nil_r in E; congruence|]. destruct Hk. by exists v, q.
Qed.

Lemma inside_key v p : V v → v ∈ mem_vols m → inside m (file_key v p).
Proof. intros Hv Hin. exists v, (Split p "/"). split_and!; try done. apply Split_ne. Qed.

Lemma rel_put v p c : V v → v ∈ mem_vols m → good_file v p → free_name m v p →
  rel (with_tree s (put_file t (file_key v p) c)) (mem_set_files m (<[(v, p) := c]> (mem_files m))).
Proof.
  intros Hv Hin Hg Hfree. destruct (rel_free v p Hv Hin (proj1 (proj1 Hg)) Hfree) as [Hf Hnd].
  pose proof (file_key_ne base base_ok base_ne v p) as Hkne. pose proof (inside_key v p Hv Hin) as Hik.
  apply rel_with.
  - apply put_file_ok; [done|apply HR|done|done].
  - intros k Hk. rewrite put_file_lookup by done. rewrite decide_False by (by intros ->).
    destruct (t !! k) eqn:E; [done|]. rewrite decide_False; [done|]. intros Hp.
    rewrite (on_the_way v (Split p "/") k) in E; done.
  - intros v' r Hv' Hr Hs. rewrite put_file_lookup in Hs by done. destruct (decide _) as [E|Hne].
    { apply vol_key_inj in E as [-> ->]; [|done..]. by apply (good_visible v). }
    destruct (t !! (vol_dir v' ++ r)) as [n|] eqn:E; [apply (rl_elems _ _ HR v'); [done|by eexists]|].
    destruct (decide _) as [[q Eq]|]; [|by destruct Hs]. unfold file_key in Eq. rewrite <- app_assoc in Eq.
    apply vol_key_inj in Eq as [-> Eq]; [|done..]. pose proof (good_visible _ _ Hg) as Hvis. rewrite Eq in Hvis.
    by apply Forall_app in Hvis as [? _].
  - intros v' r Hv' Hr. apply put_file_full; [done|]. by apply (rl_full _ _ HR).
  - intros v' r Hv' Hr Hpl. rewrite put_file_files by done. destruct (decide _) as [E|Hne].
    + apply vol_key_inj in E as [-> ->]; [|done..]. rewrite Join_Split. by rewrite lookup_insert_eq.
    + rewrite lookup_insert_ne; [by apply (rl_file _ _ HR)|]. intros [= <- ->]. apply Hne. unfold file_key. by rewrite Split_Join_plain.
  - intros v' p' Hs. destruct (decide ((v, p) = (v', p'))) as [[= <- <-]|Hne]; [done|]. rewrite lookup_insert_ne in Hs by done. by apply (rl_names _ _ HR).
Qed.

(** ** Deletes *)

Lemma rel_delete v p c t' : V v → v ∈ mem_vols m → good_file v p → mem_files m !! (v, p) = Some c →
  pruned (vol_dir v) (Split p "/") t t' → t' !! file_key v p = None →
  rel (with_tree s t') (mem_set_files m (delete (v, p) (mem_files m))).
Proof.
  intros Hv Hin Hg Hc Hpr Hgone. pose proof (rel_file_at v p Hv (proj1 (proj1 Hg))) as Hf. rewrite Hc in Hf. apply files_Some in Hf.
  assert (Hfiles := pruned_files _ _ _ _ _ Hpr (h_tree _ _ (rl_healthy _ _ HR)) Hf (λ _ _, Hgone) (λ E, False_rect _ (Split_ne p E))).
  apply rel_with.
  - apply Hpr.
  - intros k Hk. apply (pr_other _ _ _ _ Hpr). intros a Ha _ ->. apply Hk. by exists v, a.
  - intros v' r Hv' Hr [n Hn]. apply (pr_sub _ _ _ _ Hpr) in Hn. apply (rl_elems _ _ HR v'); [done|by eexists].
  - intros v' r Hv' Hr Hd. apply (pruned_dirs _ _ _ _ _ Hpr); [|done|].
    + intros E. rewrite <- (app_nil_r (vol_dir v)) in E. by apply vol_key_inj in E as [_ ->].
    + intros _ Hd'. by apply (rl_full _ _ HR).
  - intros v' r Hv' Hr Hpl. rewrite Hfiles. destruct (decide _) as [E|Hne].
    + apply vol_key_inj in E as [-> ->]; [|done..]. rewrite Join_Split. by rewrite lookup_delete_eq.
    + rewrite lookup_delete_ne; [by apply (rl_file _ _ HR)|]. intros [= <- ->]. apply Hne. by rewrite Split_Join_plain.
  - intros v' p' Hs. apply lookup_delete_is_Some in Hs as [_ Hs]. by apply (rl_names _ _ HR).
Qed.

(** ** Renames *)

Section Move.
Context (sv src dv dst : string) (Hsv : V sv) (Hdv : V dv) (Hsin : sv ∈ mem_vols m) (Hdin : dv ∈ mem_vols m)
  (Hsrc : good_file sv src) (Hdst : good_file dv dst).

Let ks := file_key sv src.
Let kd := file_key dv dst.
Let t1 := t ∪ dirs_map (removelast kd).
Let t2 := move_tree t1 ks kd.

Context (n : node) (Hn : t !! ks = Some n) (Hfree : no_file_above t kd) (Hsd : ¬ ks `prefix_of` kd)
  (Hover : t !! kd = None ∨ ∃ c c', n = NFile c ∧ t !! kd = Some (NFile c')).

Lemma mv_dst_below r : r ≠ [] → t1 !! (kd ++ r) = None.
Proof. by apply (dst_below base s (rl_healthy _ _ HR) dv dst n). Qed.

Lemma mv_lookup k : t2 !! k =
  match below_dir kd k with Some r => t1 !! (ks ++ r) | None => match below_dir ks k with Some _ => None | None => t1 !! k end end.
Proof.
  unfold t2. apply move_tree_lookup; [done|apply mv_dst_below|]. unfold t1. rewrite add_dirs_lookup, Hn. by eexists.
Qed.

Lemma mv_src r : t1 !! (ks ++ r) = t !! (ks ++ r).
Proof.
  unfold t1. rewrite add_dirs_lookup. destruct (t !! (ks ++ r)); [done|]. rewrite decide_False; [done|]. intros Hp.
  apply Hsd. etransitivity; [by exists r|]. etransitivity; [exact Hp|]. apply removelast_prefix.
Qed.

Lemma mv_elems v r : V v → is_Some (t2 !! (vol_dir v ++ r)) → Forall visible r.
Proof.
  intros Hv. rewrite mv_lookup. destruct (below_dir kd (vol_dir v ++ r)) as [q|] eqn:E.
  - apply below_dir_Some in E. unfold kd, file_key in E. rewrite <- app_assoc in E. apply vol_key_inj in E as [-> ->]; [|done..].
    rewrite mv_src. unfold ks, file_key. rewrite <- app_assoc. intros Hs%(rl_elems _ _ HR sv); [|done].
    apply Forall_app in Hs as [_ Hs]. apply Forall_app. split; [by apply (good_visible dv)|done].
  - destruct (below_dir ks _); [by intros [? ?]|]. unfold t1. rewrite add_dirs_lookup.
    destruct (t !! (vol_dir v ++ r)) as [n'|] eqn:En; [intros _; apply (rl_elems _ _ HR v); [done|by eexists]|].
    destruct (decide _) as [Hp|]; [|by intros [? ?]]. intros _.
    assert (Hp' : vol_dir v ++ r `prefix_of` kd) by (etransitivity; [exact Hp|apply removelast_prefix]). destruct Hp' as [q Eq].
    unfold kd, file_key in Eq. rewrite <- app_assoc in Eq. apply vol_key_inj in Eq as [-> Eq]; [|done..].
    pose proof (good_visible _ _ Hdst) as Hvis. rewrite Eq in Hvis. by apply Forall_app in Hvis as [? _].
Qed.

(** An entry that is not the one that moved is kept. *)
Lemma mv_kept k : is_Some (t1 !! k) → (∀ q, q ≠ [] → k ≠ kd ++ q) → ¬ ks `prefix_of` k → is_Some (t2 !! k).
Proof.
  intros Hs Hd Hk. rewrite mv_lookup. destruct (below_dir kd k) as [q|] eqn:E.
  - apply below_dir_Some in E. destruct (decide (q = [])) as [->|Hq]; [|by destruct (Hd q Hq)].
    rewrite app_nil_r, <- (app_nil_r ks), mv_src, app_nil_r, Hn. by eexists.
  - by rewrite (proj2 (below_dir_None ks k)).
Qed.

Lemma mv_full v r : V v → r ≠ [] → vol_dir v ++ r ≠ removelast ks → t2 !! (vol_dir v ++ r) = Some NDir →
  ∃ x, is_Some (t2 !! ((vol_dir v ++ r) ++ [x])).
Proof.
  intros Hv Hr Hne. rewrite mv_lookup. destruct (below_dir kd (vol_dir v ++ r)) as [q|] eqn:E.
  - apply below_dir_Some in E. rewrite E, mv_src. unfold ks, file_key. rewrite <- app_assoc. intros Hd.
    destruct (rl_full _ _ HR sv (Split src "/" ++ q) Hsv) as [x Hx]; [pose proof (Split_ne src); by destruct (Split src "/")|done|].
    exists x. rewrite mv_lookup, (proj2 (below_dir_Some kd _ (q ++ [x]))) by (by rewrite <- app_assoc). rewrite mv_src.
    unfold ks, file_key. rewrite <- !app_assoc in Hx. by rewrite <- !app_assoc.
  - apply below_dir_None in E. destruct (below_dir ks _) as [|] eqn:E'; [done|]. apply below_dir_None in E'. intros Hd1.
    assert (Hchild : ∃ x, is_Some (t1 !! ((vol_dir v ++ r) ++ [x])) ∧ ¬ ks `prefix_of` (vol_dir v ++ r) ++ [x] ∨ (vol_dir v ++ r) ++ [x] = kd).
    { unfold t1 in Hd1. rewrite add_dirs_lookup in Hd1. destruct (t !! (vol_dir v ++ r)) as [n'|] eqn:En.
      - injection Hd1 as ->. destruct (rl_full _ _ HR v r Hv Hr En) as [x [n' Hx]]. exists x. left. split.
        + unfold t1. rewrite add_dirs_lookup. fold t in Hx. rewrite Hx. by eexists.
        + intros [q Eq]. destruct q as [|y q _] using rev_ind.
          * rewrite app_nil_r in Eq. apply Hne. by rewrite <- Eq, removelast_last.
          * rewrite app_assoc in Eq. apply app_inj_tail in Eq as [Eq _]. apply E'. by exists q.
      - destruct (decide _) as [Hp|]; [|done]. destruct (prefix_removelast _ kd (file_key_ne base base_ok base_ne dv dst) Hp) as [Hk [q Eq]].
        destruct q as [|x q]; [by rewrite app_nil_r in Eq|]. exists x. destruct (decide (q = [])) as [->|Hq]; [by right|].
        left. split.
        + unfold t1. rewrite add_dirs_lookup. destruct (t !! ((vol_dir v ++ r) ++ [x])); [by eexists|]. rewrite decide_True; [by eexists|].
          destruct (exists_last Hq) as (q' & y & ->). rewrite Eq. exists q'. rewrite app_comm_cons, app_assoc, removelast_last. by rewrite <- !app_assoc.
        + intros Hp'. apply Hsd. etransitivity; [exact Hp'|]. rewrite Eq. exists q. by rewrite <- !app_assoc. }
    destruct Hchild as [x [[H1 H2]|Hk]]; exists x.
    + apply mv_kept; [done| |done]. intros q Hq Eq. destruct (exists_last Hq) as (q' & y & ->). rewrite app_assoc in Eq.
      apply app_inj_tail in Eq as [Eq _]. apply E. by exists q'.
    + rewrite Hk, mv_lookup, (proj2 (below_dir_Some kd kd [])) by (by rewrite app_nil_r). rewrite mv_src, app_nil_r, Hn. by eexists.
Qed.

Lemma mv_files k : files t2 k = match below_dir kd k with
  | Some r => files t (ks ++ r) | None => match below_dir ks k with Some _ => None | None => files t k end end.
Proof.
  unfold t2. rewrite move_tree_files; [|unfold t1; rewrite add_dirs_lookup, Hn; by eexists|done|apply mv_dst_below].
  destruct (below_dir kd k); [apply add_dirs_files|]. destruct (below_dir ks k); [done|apply add_dirs_files].
Qed.

Lemma rel_moved t' fs : pruned (vol_dir sv) (removelast (Split src "/")) t2 t' →
  (∀ v r, V v → r ≠ [] → Forall plain_elem r → files t2 (vol_dir v ++ r) = fs !! (v, Join r "/")) →
  (∀ v p, is_Some (fs !! (v, p)) → V v ∧ good_file v p) →
  rel (with_tree s t') (mem_set_files m fs).
Proof.
  intros Hpr Hfile Hnames. assert (Hdir : t2 !! (vol_dir sv ++ removelast (Split src "/")) = Some NDir).
  { rewrite <- removelast_key. pose proof (file_key_ne base base_ok base_ne sv src) as Hksne.
    apply (t2_dir base s (rl_healthy _ _ HR) sv src dv dst n Hn Hsd Hover).
    - apply tree_parent; [apply HR|done|by eexists].
    - apply removelast_prefix.
    - intros E%(f_equal length). destruct (exists_last Hksne) as (q & x & Eq). rewrite Eq, removelast_last, length_app in E. simpl in E. lia. }
  assert (Ht2 : tree_ok t2) by (by apply (t2_ok base base_ok base_ne s (rl_healthy _ _ HR) sv src dv dst n)).
  assert (Hfiles : ∀ k, files t' k = files t2 k).
  { intros k. rewrite (pruned_files _ _ _ _ NDir Hpr Ht2 Hdir) by done. destruct (decide _) as [->|]; [|done].
    unfold files. by rewrite Hdir. }
  apply rel_with.
  - apply Hpr.
  - intros k Hk. rewrite (pr_other _ _ _ _ Hpr).
    2: { intros a Ha _ ->. apply Hk. by exists sv, a. }
    rewrite mv_lookup. rewrite (proj2 (below_dir_None kd k)), (proj2 (below_dir_None ks k)).
    + unfold t1. rewrite add_dirs_lookup. destruct (t !! k) eqn:E; [done|]. rewrite decide_False; [done|]. intros Hp.
      rewrite (on_the_way dv (Split dst "/") k) in E; try done. etransitivity; [exact Hp|apply removelast_prefix].
    + intros [q ->]. apply Hk. exists sv, (Split src "/" ++ q). unfold ks, file_key. rewrite app_assoc. split_and!; try done.
      pose proof (Split_ne src). by destruct (Split src "/").
    + intros [q ->]. apply Hk. exists dv, (Split dst "/" ++ q). unfold kd, file_key. rewrite app_assoc. split_and!; try done.
      pose proof (Split_ne dst). by destruct (Split dst "/").
  - intros v r Hv Hr [n' Hs]. apply (pr_sub _ _ _ _ Hpr) in Hs. apply (mv_elems v); [done|by eexists].
  - intros v r Hv Hr Hd. apply (pruned_dirs _ _ _ _ _ Hpr); [|done|].
    + intros E. rewrite <- (app_nil_r (vol_dir sv)) in E. by apply vol_key_inj in E as [_ ->].
    + intros Hnot Hd'. apply mv_full; [done|done| |done]. intros E. unfold ks in E. rewrite removelast_key in E.
      apply vol_key_inj in E as [-> E]; [|done..]. apply (Hnot r Hr); [by rewrite E|done].
  - intros v r Hv Hr Hpl. rewrite Hfiles. by apply Hfile.
  - done.
Qed.

(** The keys below the source and the destination. *)
Lemma below_key v p v' r q : V v → V v' → below_dir (file_key v p) (vol_dir v' ++ r) = Some q → v' = v ∧ r = Split p "/" ++ q.
Proof.
  intros Hv Hv' E%below_dir_Some. unfold file_key in E. rewrite <- app_assoc in E. by apply vol_key_inj in E.
Qed.

Lemma below_key_string (v p : string) r q : q ≠ [] → r = Split p "/" ++ q → (v, Join r "/") = (v, p +:+ "/" +:+ Join q "/").
Proof. intros Hq ->. rewrite Join_app by (done || apply Split_ne). by rewrite Join_Split. Qed.

Lemma file_moved_files c : n = NFile c → (sv, src) ≠ (dv, dst) → ¬ in_dir m dv dst →
  ∀ v r, V v → r ≠ [] → Forall plain_elem r →
    files t2 (vol_dir v ++ r) = <[(dv, dst) := c]> (delete (sv, src) (mem_files m)) !! (v, Join r "/").
Proof.
  intros Hc Hne Hnin v r Hv Hr Hpl. rewrite mv_files.
  assert (Hbelow : ∀ q, q ≠ [] → files t (ks ++ q) = None).
  { intros q Hq. unfold files. destruct (t !! (ks ++ q)) as [n'|] eqn:E; [|done].
    rewrite (tree_above t ks q (h_tree _ _ (rl_healthy _ _ HR))) in Hn by (by eexists || done). congruence. }
  destruct (below_dir kd (vol_dir v ++ r)) as [q|] eqn:E.
  - apply below_key in E as [-> ->]; [|done..]. destruct (decide (q = [])) as [->|Hq].
    + rewrite !app_nil_r, Join_Split, lookup_insert_eq. by apply files_Some; rewrite Hn, Hc.
    + rewrite Hbelow by done. rewrite (below_key_string dv dst _ q Hq eq_refl). symmetry.
      assert (Hnone : mem_files m !! (dv, dst +:+ "/" +:+ Join q "/") = None).
      { apply eq_None_not_Some. intros Hs. apply Hnin. by exists (Join q "/"). }
      rewrite lookup_insert_ne.
      * destruct (decide ((sv, src) = (dv, dst +:+ "/" +:+ Join q "/"))) as [->|Hne']; [by rewrite lookup_delete_eq|by rewrite lookup_delete_ne].
      * intros [= E]. apply (f_equal (λ s, length (bytes_of_string s))) in E. rewrite !bytes_of_string_app, !length_app in E. simpl in E. lia.
  - apply below_dir_None in E.
    assert (Hdk : (dv, dst) ≠ (v, Join r "/")).
    { intros [= <- Ed]. apply E. exists []. unfold kd, file_key. by rewrite Ed, Split_Join_plain, app_nil_r. }
    rewrite lookup_insert_ne by done. destruct (below_dir ks (vol_dir v ++ r)) as [q|] eqn:E'.
    + apply below_key in E' as [-> ->]; [|done..]. destruct (decide (q = [])) as [->|Hq].
      * by rewrite app_nil_r, Join_Split, lookup_delete_eq.
      * rewrite lookup_delete_ne.
        -- rewrite <- (rl_file _ _ HR sv (Split src "/" ++ q)) by done. fold t. rewrite app_assoc. symmetry. by apply Hbelow.
        -- rewrite (below_key_string sv src _ q Hq eq_refl). intros [= E']. apply (f_equal (λ s, length (bytes_of_string s))) in E'.
           rewrite !bytes_of_string_app, !length_app in E'. simpl in E'. lia.
    + apply below_dir_None in E'. rewrite lookup_delete_ne; [by apply (rl_file _ _ HR)|].
      intros [= <- Es]. apply E'. exists []. unfold ks, file_key. by rewrite Es, Split_Join_plain, app_nil_r.
Qed.

Lemma dir_moved_files : n = NDir → t !! kd = None → ¬ in_dir m dv dst →
  ∀ v r, V v → r ≠ [] → Forall plain_elem r →
    files t2 (vol_dir v ++ r) = mem_move_dir (mem_files m) sv (src +:+ "/") dv (dst +:+ "/") !! (v, Join r "/").
Proof.
  intros Hd Hkd Hnin v r Hv Hr Hpl. rewrite mv_files. pose proof (proj2 (mem_dir_nil m dv dst) Hnin) as Hnil.
  assert (Hin : ∀ q c, mem_files m !! (dv, (dst +:+ "/") +:+ q) = Some c → False).
  { intros q c Hc. apply Hnin. exists q. simpl. rewrite str_app_assoc. by eexists. }
  (* A file of the destination directory, by its name in the volume. *)
  assert (Hbel : ∀ w p x, V w → v = w → Join r "/" = (p +:+ "/") +:+ x → file_key w p `prefix_of` vol_dir v ++ r).
  { intros w p x Hw -> Ej. exists (Split x "/"). rewrite <- str_app_assoc in Ej. apply (f_equal (λ s, Split s "/")) in Ej.
    rewrite Split_Join_plain, Split_slash in Ej by done. unfold file_key. by rewrite Ej, app_assoc. }
  apply option_eq. intros c. rewrite mem_move_dir_lookup by done. unfold mem_moved.
  destruct (below_dir kd (vol_dir v ++ r)) as [q|] eqn:E.
  - apply below_key in E as [-> ->]; [|done..]. apply Forall_app in Hpl as [_ Hplq]. destruct (decide (q = [])) as [->|Hq].
    + rewrite !app_nil_r, Join_Split. unfold files. rewrite Hn, Hd. split; [done|]. intros (k0 & Hk & Hc). exfalso.
      destruct (mem_under sv (src +:+ "/") k0) as [r0|].
      * injection Hk as E. apply (f_equal (λ s, length (bytes_of_string s))) in E. rewrite !bytes_of_string_app, !length_app in E. simpl in E. lia.
      * subst k0. rewrite <- (rel_file_at dv dst Hdv (proj1 (proj1 Hdst))) in Hc. apply files_Some in Hc. fold kd in Hc. congruence.
    + rewrite (below_key_string dv dst _ q Hq eq_refl).
      assert (Hsf : files t (ks ++ q) = mem_files m !! (sv, src +:+ "/" +:+ Join q "/")).
      { unfold t, ks, file_key. rewrite <- app_assoc. rewrite (rl_file _ _ HR sv (Split src "/" ++ q) Hsv).
        - by rewrite (below_key_string sv src _ q Hq eq_refl).
        - pose proof (Split_ne src). by destruct (Split src "/").
        - apply Forall_app. split; [apply Hsrc|done]. }
      rewrite Hsf. split.
      * intros Hc. exists (sv, src +:+ "/" +:+ Join q "/"). split; [|done].
        rewrite (proj2 (mem_under_Some sv (src +:+ "/") _ (Join q "/"))); by rewrite str_app_assoc.
      * intros (k0 & Hk & Hc). destruct (mem_under sv (src +:+ "/") k0) as [r0|] eqn:Eu.
        -- apply mem_under_Some in Eu as ->. rewrite str_app_assoc in Hk. injection Hk as Hk%str_app_inj_l. subst r0. by rewrite str_app_assoc.
        -- subst k0. rewrite str_app_assoc in Hc. by apply Hin in Hc.
  - apply below_dir_None in E. destruct (below_dir ks (vol_dir v ++ r)) as [q|] eqn:E'.
    + split; [done|]. intros (k0 & Hk & Hc). exfalso. destruct (mem_under sv (src +:+ "/") k0) as [r0|] eqn:Eu.
      * injection Hk as Hk1 Hk2. by apply E, (Hbel dv dst r0).
      * subst k0. apply below_key in E' as [-> ->]; [|done..]. destruct (decide (q = [])) as [->|Hq].
        -- rewrite app_nil_r, Join_Split, <- (rel_file_at sv src Hsv (proj1 (proj1 Hsrc))) in Hc. apply files_Some in Hc. fold ks in Hc. congruence.
        -- rewrite (below_key_string sv src _ q Hq eq_refl) in Eu. by rewrite (proj2 (mem_under_Some sv (src +:+ "/") _ (Join q "/"))) in Eu by (by rewrite str_app_assoc).
    + apply below_dir_None in E'. unfold t; rewrite (rl_file _ _ HR v r Hv Hr Hpl). split.
      * intros Hc. exists (v, Join r "/"). split; [|done]. destruct (mem_under _ _ _) as [r0|] eqn:Eu; [|done].
        apply mem_under_Some in Eu as [= Ev Ej]. exfalso. by apply E', (Hbel sv src r0).
      * intros (k0 & Hk & Hc). destruct (mem_under sv (src +:+ "/") k0) as [r0|] eqn:Eu; [|by subst k0].
        injection Hk as Hk1 Hk2. exfalso. by apply E, (Hbel dv dst r0).
Qed.

End Move.

(** ** Volumes *)

Lemma insert_dir_ok (t0 : tree) es : tree_ok t0 → es ≠ [] → t0 !! removelast es = Some NDir → t0 !! es = None → tree_ok (<[es := NDir]> t0).
Proof.
  intros Ht0 Hne Hpar Hno. split; [rewrite lookup_insert_ne by done; apply Ht0|]. intros k x Hs.
  destruct (decide (es = k)) as [->|Hk]; [by rewrite lookup_insert_eq|]. rewrite lookup_insert_ne by done.
  destruct (decide (es = k ++ [x])) as [->|Hk']; [by rewrite removelast_last in Hpar|]. rewrite lookup_insert_ne in Hs by done.
  by apply (tok_parent _ Ht0 k x).
Qed.

Lemma not_vol_dir v v' r : V v → V v' → r ≠ [] → vol_dir v ≠ vol_dir v' ++ r.
Proof. intros Hv Hv' Hr E. rewrite <- (app_nil_r (vol_dir v)) in E. apply vol_key_inj in E as [_ E]; [|done..]. by subst r. Qed.

Lemma vol_dir_inj v v' : V v → V v' → vol_dir v = vol_dir v' → v = v'.
Proof. intros Hv Hv' E. apply V_apart; [done..|]. by rewrite E. Qed.

Lemma not_parent v v' : V v → V v' → vol_dir v ≠ removelast (vol_dir v').
Proof.
  intros Hv Hv' E. assert (v = v') as <- by (apply V_apart; [done..|]; rewrite E; apply removelast_prefix).
  apply (f_equal length) in E. pose proof (vol_dir_ne base base_ok base_ne v) as Hne. destruct (exists_last Hne) as (r & x & Er).
  rewrite Er, removelast_last, length_app in E. simpl in E. lia.
Qed.

Lemma base_not_vol v : base ≠ vol_dir v.
Proof. intros E%(f_equal length). pose proof (vol_dir_long v). lia. Qed.

Lemma rel_make v : V v → v ∉ mem_vols m →
  rel (with_tree s (<[vol_dir v := NDir]> t)) (mem_set_vols m ({[v]} ∪ mem_vols m)).
Proof.
  intros Hv Hno. assert (Hnone : t !! vol_dir v = None) by (unfold t; rewrite (rl_vol _ _ HR v Hv); by rewrite decide_False).
  split; try apply HR.
  - apply healthy_with; [apply HR| |].
    + apply insert_dir_ok; [apply HR|apply (vol_dir_ne base base_ok base_ne)|by apply HR|done].
    + rewrite lookup_insert_ne by (intros E; by apply (base_not_vol v)). apply HR.
  - intros v' Hv'. change (<[vol_dir v := NDir]> t !! removelast (vol_dir v') = Some NDir).
    rewrite lookup_insert_ne by (by apply not_parent). by apply HR.
  - intros v' Hv'. change (<[vol_dir v := NDir]> t !! vol_dir v' = if decide (v' ∈ {[v]} ∪ mem_vols m) then Some NDir else None).
    destruct (decide (v = v')) as [<-|Hne]; [rewrite lookup_insert_eq, decide_True; [done|set_solver]|].
    rewrite lookup_insert_ne by (intros E; by apply Hne, vol_dir_inj). unfold t. rewrite (rl_vol _ _ HR v' Hv').
    apply decide_ext. set_solver.
  - intros v' r Hv' Hr Hpl. change (files (<[vol_dir v := NDir]> t) (vol_dir v' ++ r) = mem_files m !! (v', Join r "/")).
    unfold files. rewrite lookup_insert_ne by (by apply not_vol_dir). by apply (rl_file _ _ HR).
  - intros v' r Hv' Hs. change (is_Some (<[vol_dir v := NDir]> t !! (vol_dir v' ++ r))) in Hs.
    destruct (decide (r = [])) as [->|Hr]; [constructor|]. rewrite lookup_insert_ne in Hs by (by apply not_vol_dir). by apply (rl_elems _ _ HR v').
  - intros v' r Hv' Hr. change (<[vol_dir v := NDir]> t !! (vol_dir v' ++ r) = Some NDir → ∃ x, is_Some (<[vol_dir v := NDir]> t !! ((vol_dir v' ++ r) ++ [x]))).
    rewrite lookup_insert_ne by (by apply not_vol_dir). intros Hd. destruct (rl_full _ _ HR v' r Hv' Hr Hd) as [x Hx]. exists x.
    rewrite lookup_insert_ne; [done|]. rewrite <- app_assoc. apply not_vol_dir; [done..|by destruct r].
Qed.

Lemma rel_drop v : V v → entries_of t (vol_dir v) = [] →
  rel (with_tree s (delete (vol_dir v) t)) (mem_set_vols m (mem_vols m ∖ {[v]})).
Proof.
  intros Hv He. split; try apply HR.
  - apply healthy_with; [apply HR| |].
    + apply delete_ok; [apply HR|apply (vol_dir_ne base base_ok base_ne)|by apply entries_of_nil].
    + rewrite lookup_delete_ne by (intros E; by apply (base_not_vol v)). apply HR.
  - intros v' Hv'. change (delete (vol_dir v) t !! removelast (vol_dir v') = Some NDir).
    rewrite lookup_delete_ne by (by apply not_parent). by apply HR.
  - intros v' Hv'. change (delete (vol_dir v) t !! vol_dir v' = if decide (v' ∈ mem_vols m ∖ {[v]}) then Some NDir else None).
    destruct (decide (v = v')) as [<-|Hne]; [rewrite lookup_delete_eq, decide_False; [done|set_solver]|].
    rewrite lookup_delete_ne by (intros E; by apply Hne, vol_dir_inj). unfold t. rewrite (rl_vol _ _ HR v' Hv').
    apply decide_ext. set_solver.
  - intros v' r Hv' Hr Hpl. change (files (delete (vol_dir v) t) (vol_dir v' ++ r) = mem_files m !! (v', Join r "/")).
    unfold files. rewrite lookup_delete_ne by (by apply not_vol_dir). by apply (rl_file _ _ HR).
  - intros v' r Hv' [n Hs]. change (delete (vol_dir v) t !! (vol_dir v' ++ r) = Some n) in Hs. apply lookup_delete_Some in Hs as [_ Hs].
    apply (rl_elems _ _ HR v'); [done|by eexists].
  - intros v' r Hv' Hr. change (delete (vol_dir v) t !! (vol_dir v' ++ r) = Some NDir → ∃ x, is_Some (delete (vol_dir v) t !! ((vol_dir v' ++ r) ++ [x]))).
    rewrite lookup_delete_ne by (by apply not_vol_dir). intros Hd. destruct (rl_full _ _ HR v' r Hv' Hr Hd) as [x Hx]. exists x.
    rewrite lookup_delete_ne; [done|]. rewrite <- app_assoc. apply not_vol_dir; [done..|by destruct r].
Qed.

(** A volume without entries is one without files. *)
Lemma rel_empty v : V v → v ∈ mem_vols m → entries_of t (vol_dir v) = [] ↔ mem_dir (mem_files m) v "" = [].
Proof.
  intros Hv Hin. split.
  - intros He. destruct (mem_dir (mem_files m) v "") as [|p l] eqn:E; [done|]. exfalso.
    assert (Hp : p ∈ mem_dir (mem_files m) v "") by (rewrite E; left). apply mem_dir_elem in Hp. change ("" +:+ p) with p in Hp.
    destruct (rl_names _ _ HR v p Hp) as [_ [[Hc _] _]]. rewrite <- rel_file_at in Hp by done. destruct Hp as [c Hp%files_Some].
    unfold file_key in Hp. pose proof (Split_ne p) as Hne. destruct (Split p "/") as [|x r]; [done|].
    assert (Hx : is_Some (t !! (vol_dir v ++ [x]))).
    { destruct (decide (r = [])) as [->|Hr]; [by eexists|]. eexists. apply (tree_above t _ r (h_tree _ _ (rl_healthy _ _ HR))); [|done].
      rewrite <- app_assoc. by eexists. }
    rewrite (proj1 (entries_of_nil t (vol_dir v)) He x) in Hx. by destruct Hx.
  - intros Hnil. apply entries_of_nil. intros x. destruct (t !! (vol_dir v ++ [x])) as [n|] eqn:E; [|done]. exfalso.
    pose proof (visible_plain _ (rl_elems _ _ HR v [x] Hv ltac:(by eexists))) as Hpl.
    assert (∃ p, is_Some (mem_files m !! (v, p))) as [p Hp].
    { destruct n as [|c].
      - apply (rel_dir v [x]) in E as [q Hq]; [|done..]. eexists. exact Hq.
      - apply files_Some in E. unfold t in E. rewrite (rl_file _ _ HR v [x]) in E by done. eexists. by eexists. }
    change p with ("" +:+ p) in Hp. apply mem_dir_elem in Hp. rewrite Hnil in Hp. by apply not_elem_of_nil in Hp.
Qed.

(** ** Listings *)

(** The entry as it is shown. *)
Definition shown (xn : string * node) : string := match xn.2 with NDir => xn.1 +:+ "/" | NFile _ => xn.1 end.

Lemma parseDirents_shown l : (∀ x, x ∈ l.*1 → visible x) → parseDirents l = shown <$> l.
Proof.
  induction l as [|[x n] l IH]; intros Hl; [done|]. cbn [parseDirents omap list_omap].
  destruct (Hl x ltac:(left)) as [(H1 & H2 & H3 & _) Hr].
  rewrite (bool_decide_false (x = ".")), (bool_decide_false (x = "..")), Hr by done. cbn [orb].
  change (shown <$> (x, n) :: l) with (shown (x, n) :: (shown <$> l)). rewrite <- IH by (intros y Hy; apply Hl; by right).
  unfold shown, slashSeparator. by destruct n.
Qed.

(** The directory [de] of a volume, as a prefix of the names in it. *)
Definition dir_prefix (de : list string) : string := match de with [] => "" | _ => Join de "/" +:+ "/" end.

Lemma dir_prefix_app de r : r ≠ [] → Join (de ++ r) "/" = dir_prefix de +:+ Join r "/".
Proof. intros Hr. destruct de as [|e de]; [done|]. rewrite Join_app by done. unfold dir_prefix. by rewrite str_app_assoc. Qed.

Lemma dir_prefix_split de x : Forall plain_elem de → Split (dir_prefix de +:+ x) "/" = de ++ Split x "/".
Proof.
  intros Hde. destruct de as [|e de]; [done|]. unfold dir_prefix. rewrite <- str_app_assoc, Split_slash.
  by rewrite Split_Join_plain.
Qed.

Lemma mem_entry_plain x : ("/"%char ∉ bytes_of_string x) → mem_entry x = x ∧ ∀ q, mem_entry (x +:+ "/" +:+ q) = x +:+ "/".
Proof.
  intros Hx. split.
  - destruct (mem_entry_cases x) as [[_ ?]|(name & r & -> & _)]; [done|]. exfalso. apply Hx. rewrite !bytes_of_string_app.
    apply elem_of_app. right. left.
  - intros q. destruct (mem_entry_cases (x +:+ "/" +:+ q)) as [[Hn _]|(name & r & E & Hn & ->)].
    + exfalso. apply Hn. rewrite !bytes_of_string_app. apply elem_of_app. right. left.
    + apply (f_equal (λ s, Split s "/")) in E. rewrite !Split_slash, (Split_plain x), (Split_plain name) in E by done. cbn [app] in E. by injection E as ->.
Qed.

Section List.
Context (v : string) (de : list string) (Hv : V v) (Hde : Forall plain_elem de) (Hdir : t !! (vol_dir v ++ de) = Some NDir).

Lemma list_visible x n : t !! ((vol_dir v ++ de) ++ [x]) = Some n → visible x.
Proof.
  intros Hx. rewrite <- app_assoc in Hx. pose proof (rl_elems _ _ HR v _ Hv ltac:(by eexists)) as Hvis.
  apply Forall_app in Hvis as [_ Hvis]. by apply Forall_cons in Hvis as [? _].
Qed.

Lemma list_elem y : y ∈ (shown <$> entries_of t (vol_dir v ++ de)) ↔
  y ∈ remove_dups (mem_entry <$> mem_dir (mem_files m) v (dir_prefix de)).
Proof.
  rewrite elem_of_remove_dups, !list_elem_of_fmap. split.
  - intros ([x n] & -> & Hin%entries_of_elem). destruct (list_visible x n Hin) as [Hpx _].
    assert (Hns : "/"%char ∉ bytes_of_string x) by apply Hpx. rewrite <- app_assoc in Hin.
    assert (Hpl : Forall plain_elem (de ++ [x])) by (apply Forall_app; split; [done|by constructor]).
    assert (Hne : de ++ [x] ≠ []) by (by destruct de). destruct n as [|c]; unfold shown; cbn [fst snd].
    + apply (rel_dir v (de ++ [x])) in Hin as [q Hq]; [|done..]. simpl in Hq. exists (x +:+ "/" +:+ q).
      split; [symmetry; by apply mem_entry_plain|]. apply mem_dir_elem. rewrite dir_prefix_app in Hq by done.
      by rewrite <- str_app_assoc in Hq.
    + exists x. split; [symmetry; by apply mem_entry_plain|]. apply mem_dir_elem. apply files_Some in Hin. unfold t in Hin.
      rewrite (rl_file _ _ HR v (de ++ [x])) in Hin by done. rewrite dir_prefix_app in Hin by done. by eexists.
  - intros (r & -> & Hr%mem_dir_elem). destruct (rl_names _ _ HR _ _ Hr) as [_ [[Hc _] _]].
    rewrite <- rel_file_at in Hr by done. destruct Hr as [c Hf%files_Some]. unfold file_key in Hf.
    rewrite dir_prefix_split, app_assoc in Hf by done. destruct (mem_entry_cases r) as [[Hn ->]|(name & r' & -> & Hn & ->)].
    + rewrite Split_plain in Hf by done. exists (r, NFile c). split; [done|]. by apply entries_of_elem.
    + rewrite Split_slash, Split_plain, app_assoc in Hf by done. exists (name, NDir). split; [done|]. apply entries_of_elem.
      apply (tree_above t _ (Split r' "/") (h_tree _ _ (rl_healthy _ _ HR))); [by eexists|apply Split_ne].
Qed.

Lemma list_nodup : NoDup (shown <$> entries_of t (vol_dir v ++ de)).
Proof.
  apply NoDup_fmap_2_strong; [|apply (NoDup_fmap_1 fst), entries_of_nodup].
  intros [x n] [x' n'] Hx%entries_of_elem Hx'%entries_of_elem E.
  destruct (list_visible x n Hx) as [(_ & _ & _ & Hn) _]. destruct (list_visible x' n' Hx') as [(_ & _ & _ & Hn') _].
  assert (Hbad : ∀ y z, ("/"%char ∉ bytes_of_string y) → y ≠ z +:+ "/").
  { intros y z Hy ->. apply Hy. rewrite bytes_of_string_app. apply elem_of_app. right. left. }
  unfold shown in E. cbn [fst snd] in E. destruct n, n'; try (by destruct (Hbad _ _ Hn E)); try (by destruct (Hbad _ _ Hn' (eq_sym E))).
  - apply (f_equal bytes_of_string) in E. rewrite !bytes_of_string_app in E. apply app_inv_tail, bytes_of_string_inj in E as ->. done.
  - subst x'. congruence.
Qed.

Lemma list_perm : parseDirents (range_order (entries_of t (vol_dir v ++ de))) ≡ₚ
  remove_dups (mem_entry <$> mem_dir (mem_files m) v (dir_prefix de)).
Proof.
  pose proof (range_order_perm (entries_of t (vol_dir v ++ de))) as Hp. rewrite parseDirents_shown.
  - rewrite Hp. apply NoDup_Permutation; [apply list_nodup|apply NoDup_remove_dups|apply list_elem].
  - intros x Hx. rewrite Hp in Hx. apply list_elem_of_fmap in Hx as ([x' n] & -> & Hin%entries_of_elem). by apply list_visible in Hin.
Qed.

End List.

End Rel.
End Refines.
