(* ===== verification/PosixRun.v ===== *)
(** * Runs of POSIX storage

    Operations of a disk as data, their runs on any [StorageAPI], and the
    theorem that a run on POSIX storage answers as the same run on the
    in-memory disk. *)

From S2P Require Import Prelude.
From S2P Require Import GoErrors.
From S2P Require Import GoStrings.
From S2P Require Import Storage.
From S2P Require Import ObjectNames.
From S2P Require Import DiskContract.
From S2P Require Import OSFiles.
From S2P Require Import OSTrees.
From S2P Require Import Posix.
From S2P Require Import PosixSpec.
From S2P Require Import PosixOps.
From S2P Require Import PosixRefines.

Local Open Scope Z_scope.

(** ** Operations and answers *)

Inductive op :=
| OMakeVol (v : string)
| ODeleteVol (v : string)
| OStatVol (v : string)
| OListVol (v : string)
| OListDir (v dir : string)
| OReadFile (v p : string) (off : Z) (buf : bytes)
| OReadAll (v p : string)
| OStatFile (v p : string)
| OPrepareFile (v p : string) (size : Z)
| OAppendFile (v p : string) (b : bytes)
| ODeleteFile (v p : string)
| ORenameFile (sv src dv dst : string)
| ORenameDir (sv src dv dst : string).

Inductive answer :=
| AErr (e : option error)
| ANames (names : list string) (e : option error)
| ARead (buf : bytes) (n : Z) (e : option error)
| AAll (b : bytes) (e : option error)
| ASize (size : option Z) (e : option error).

(** The same answer; a listing comes in any order. *)
Definition same_answer (a b : answer) : Prop :=
  match a, b with
  | ANames l e, ANames l' e' => l ≡ₚ l' ∧ e = e'
  | _, _ => a = b
  end.

(** The disk after the operation, and what it answers; times are left out. *)
Definition run_op {D : Type} `{StorageAPI D} (d : D) (o : op) : D * answer :=
  match o with
  | OMakeVol v => let '(d, e) := MakeVol d v in (d, AErr e)
  | ODeleteVol v => let '(d, e) := DeleteVol d v in (d, AErr e)
  | OStatVol v => let '(d, (_, e)) := StatVol d v in (d, AErr e)
  | OListVol v => let '(d, (l, e)) := ListDir d v "" in (d, ANames l e)
  | OListDir v dir => let '(d, (l, e)) := ListDir d v (dir +:+ "/") in (d, ANames l e)
  | OReadFile v p off buf => let '(d, (buf, n, e)) := ReadFile d v p off buf in (d, ARead buf n e)
  | OReadAll v p => let '(d, (b, e)) := ReadAll d v p in (d, AAll b e)
  | OStatFile v p =>
      let '(d, (i, e)) := StatFile d v p in (d, ASize (match e with None => Some (FileSize i) | Some _ => None end) e)
  | OPrepareFile v p n => let '(d, e) := PrepareFile d v p n in (d, AErr e)
  | OAppendFile v p b => let '(d, e) := AppendFile d v p b in (d, AErr e)
  | ODeleteFile v p => let '(d, e) := DeleteFile d v p in (d, AErr e)
  | ORenameFile sv src dv dst => let '(d, e) := RenameFile d sv src dv dst in (d, AErr e)
  | ORenameDir sv src dv dst => let '(d, e) := RenameFile d sv (src +:+ "/") dv (dst +:+ "/") in (d, AErr e)
  end.

(** The reference: preparing a file makes it exist. *)
Definition ref_op (m : MemDisk) (o : op) : MemDisk * answer :=
  match o with
  | OPrepareFile v p n => run_op m (OAppendFile v p [])
  | _ => run_op m o
  end.

Fixpoint run_ops {S : Type} (step : S → op → S * answer) (s : S) (ops : list op) : S * list answer :=
  match ops with
  | [] => (s, [])
  | o :: ops' => let '(s, a) := step s o in let '(s, l) := run_ops step s ops' in (s, a :: l)
  end.

Section Run.
Context `{OSTimes, MapOrder} (base : list string) (base_ok : os_name base) (base_ne : base ≠ []).
Context (V : string → Prop) (V_name : ∀ v, V v → vol_name base v)
  (V_apart : ∀ v v', V v → V v' → vol_dir base v `prefix_of` vol_dir base v' → v = v').

Abbreviation good_file := (good_file base).
Abbreviation rel := (rel base V).

(** What the server asks of the disk: names that fit, no file where a directory
    is needed and the reverse, and something to rename. *)
Definition allowed_op (m : MemDisk) (o : op) : Prop :=
  match o with
  | OMakeVol v | ODeleteVol v | OStatVol v | OListVol v => V v
  | OListDir v p | OReadAll v p | OStatFile v p => V v ∧ good_file v p
  | OReadFile v p off _ => V v ∧ good_file v p ∧ 0 ≤ off ∧ free_name m v p
  | OPrepareFile v p n => V v ∧ good_file v p ∧ free_name m v p ∧ 0 < n
  | OAppendFile v p _ | ODeleteFile v p => V v ∧ good_file v p ∧ free_name m v p
  | ORenameFile sv src dv dst =>
      V sv ∧ V dv ∧ good_file sv src ∧ good_file dv dst ∧
      (sv ∈ mem_vols m → dv ∈ mem_vols m →
       is_Some (mem_files m !! (sv, src)) ∧ free_name m dv dst ∧ (sv, src) ≠ (dv, dst))
  | ORenameDir sv src dv dst =>
      V sv ∧ V dv ∧ good_file sv src ∧ good_file dv dst ∧
      (sv ∈ mem_vols m → dv ∈ mem_vols m → ¬ in_dir m dv dst →
       in_dir m sv src ∧ free_name m dv dst ∧ mem_files m !! (dv, dst) = None ∧
       ¬ (sv = dv ∧ HasPrefix dst (src +:+ "/") = true) ∧
       ∀ r, is_Some (mem_files m !! (sv, src +:+ "/" +:+ r)) → good_file dv (dst +:+ "/" +:+ r))
  end.

Fixpoint allowed (m : MemDisk) (ops : list op) : Prop :=
  match ops with
  | [] => True
  | o :: ops' => allowed_op m o ∧ allowed (ref_op m o).1 ops'
  end.

Section Step.
Context (s : posix) (m : MemDisk) (HR : rel s m).

Let Hh := rl_healthy _ _ _ _ HR.

Lemma mem_check_rel v : mem_check m v = if decide (v ∈ mem_vols m) then None else Some (errVolumeNotFound : error).
Proof. unfold mem_check. rewrite (rl_online _ _ _ _ HR). destruct (decide _); [by rewrite bool_decide_true|by rewrite bool_decide_false]. Qed.

Lemma rel_missing v : V v → v ∉ mem_vols m → px_tree s !! vol_dir base v = None.
Proof. intros Hv Hn. rewrite (rl_vol _ _ _ _ HR v Hv). by rewrite decide_False. Qed.

(** An operation on a file of a volume that does not exist. *)
Lemma missing_vol {A} v (f : string → px A) : V v → v ∉ mem_vols m →
  counting (px_volume v ≫= f) s = (s, inr (server_err errVolumeNotFound)).
Proof.
  intros Hv Hn. apply (px_volume_missing base base_ok base_ne); [done|by apply V_name|by apply (rl_parent _ _ _ _ HR)|by apply rel_missing].
Qed.

Definition refines_step (r : posix * answer) (r' : MemDisk * answer) : Prop := rel r.1 r'.1 ∧ same_answer r.2 r'.2.

Lemma step_MakeVol v : V v → refines_step (run_op s (OMakeVol v)) (run_op m (OMakeVol v)).
Proof.
  intros Hv. cbn -[decide]. rewrite (rl_online _ _ _ _ HR).
  rewrite (px_MakeVol_ok base base_ok base_ne s Hh v (V_name v Hv) (rl_parent _ _ _ _ HR v Hv)), (rl_vol _ _ _ _ HR v Hv).
  destruct (decide (v ∈ mem_vols m)) as [Hin|Hn].
  - rewrite bool_decide_true by done. by split.
  - rewrite bool_decide_false by done. split; [|done]. by apply rel_make.
Qed.

Lemma step_DeleteVol v : V v → refines_step (run_op s (ODeleteVol v)) (run_op m (ODeleteVol v)).
Proof.
  intros Hv. cbn -[decide]. rewrite mem_check_rel.
  rewrite (px_DeleteVol_ok base base_ok base_ne s Hh v (V_name v Hv) (rl_parent _ _ _ _ HR v Hv)), (rl_vol _ _ _ _ HR v Hv).
  2: { intros c. rewrite (rl_vol _ _ _ _ HR v Hv). by destruct (decide _). }
  destruct (decide (v ∈ mem_vols m)) as [Hin|Hn]; [|by split].
  pose proof (rel_empty base V s m HR v Hv Hin) as He.
  destruct (entries_of (px_tree s) (vol_dir base v)) as [|e l] eqn:Ee.
  - rewrite (proj1 He eq_refl). split; [|done]. by apply rel_drop.
  - destruct (mem_dir (mem_files m) v "") eqn:Em; [by specialize (proj2 He eq_refl)|]. by split.
Qed.

Lemma step_StatVol v : V v → refines_step (run_op s (OStatVol v)) (run_op m (OStatVol v)).
Proof.
  intros Hv. cbn -[decide]. rewrite mem_check_rel. pose proof (rl_vol _ _ _ _ HR v Hv) as Hvol.
  destruct (decide (v ∈ mem_vols m)) as [Hin|Hn].
  - rewrite (px_StatVol_ok base base_ok base_ne s Hh v (V_name v Hv) Hvol). by split.
  - rewrite (px_StatVol_none base base_ok base_ne s Hh v (V_name v Hv) (rl_parent _ _ _ _ HR v Hv) Hvol). by split.
Qed.

Lemma step_ReadAll v p : V v → good_file v p → refines_step (run_op s (OReadAll v p)) (run_op m (OReadAll v p)).
Proof.
  intros Hv Hg. cbn -[decide]. rewrite mem_check_rel. destruct (decide (v ∈ mem_vols m)) as [Hin|Hn].
  - rewrite (px_ReadAll_ok base base_ok base_ne s Hh v p (V_name v Hv) (rel_has _ _ _ _ HR v Hv Hin) (proj1 Hg)).
    rewrite (rel_file_at _ _ _ _ HR v p Hv (proj1 (proj1 Hg))). by destruct (mem_files m !! (v, p)).
  - unfold px_ReadAll. rewrite missing_vol by done. by split.
Qed.

Lemma step_StatFile v p : V v → good_file v p → refines_step (run_op s (OStatFile v p)) (run_op m (OStatFile v p)).
Proof.
  intros Hv Hg. cbn -[decide]. rewrite mem_check_rel. destruct (decide (v ∈ mem_vols m)) as [Hin|Hn].
  - rewrite (px_StatFile_ok base base_ok base_ne s Hh v p (V_name v Hv) (rel_has _ _ _ _ HR v Hv Hin) (proj1 Hg)).
    rewrite (rel_file_at _ _ _ _ HR v p Hv (proj1 (proj1 Hg))). by destruct (mem_files m !! (v, p)).
  - unfold px_StatFile. rewrite missing_vol by done. by split.
Qed.

Section Free.
Context (v p : string) (Hv : V v) (Hg : good_file v p) (Hfree : free_name m v p).

Lemma step_ReadFile off buf : 0 ≤ off → refines_step (run_op s (OReadFile v p off buf)) (run_op m (OReadFile v p off buf)).
Proof.
  intros Hoff. cbn -[decide readFull Z.ltb]. unfold mem_ReadFile. rewrite mem_check_rel. destruct (decide (v ∈ mem_vols m)) as [Hin|Hn].
  - destruct (rel_free _ _ _ _ HR v p Hv Hin (proj1 (proj1 Hg)) Hfree) as [Hf Hnd].
    rewrite (px_ReadFile_ok base base_ok base_ne s Hh v p (V_name v Hv) (rel_has _ _ _ _ HR v Hv Hin) (proj1 Hg) Hf Hnd off buf Hoff).
    rewrite (rel_file_at _ _ _ _ HR v p Hv (proj1 (proj1 Hg))). destruct (mem_files m !! (v, p)) as [c|]; [|by split].
    rewrite (proj2 (Z.ltb_ge off 0)) by lia. destruct (readFull c off buf) as [[b n] e]. by split.
  - unfold px_ReadFile. rewrite missing_vol by done. by split.
Qed.

Lemma step_AppendFile b : refines_step (run_op s (OAppendFile v p b)) (run_op m (OAppendFile v p b)).
Proof.
  cbn -[decide]. unfold mem_AppendFile. rewrite mem_check_rel. destruct (decide (v ∈ mem_vols m)) as [Hin|Hn].
  - destruct (rel_free _ _ _ _ HR v p Hv Hin (proj1 (proj1 Hg)) Hfree) as [Hf Hnd].
    rewrite (px_AppendFile_ok base base_ok base_ne s Hh v p (V_name v Hv) (rel_has _ _ _ _ HR v Hv Hin) (proj1 Hg) Hf Hnd b).
    rewrite (rel_file_at _ _ _ _ HR v p Hv (proj1 (proj1 Hg))). split; [|done]. by apply rel_put.
  - assert (E : px_AppendFile v p b s = (s, inr (server_err errVolumeNotFound))).
    { apply counting_quiet; [|done]. unfold mbind, px_bind, px_get. rewrite (proj2 (Z.ltb_ge maxAllowedIOError (ioErrCount s))) by apply Hh.
      unfold createFile. by rewrite missing_vol. }
    rewrite E. by split.
Qed.

Lemma step_PrepareFile n : 0 < n → refines_step (run_op s (OPrepareFile v p n)) (run_op m (OAppendFile v p [])).
Proof.
  intros Hn'. cbn -[decide]. unfold mem_AppendFile. rewrite mem_check_rel. destruct (decide (v ∈ mem_vols m)) as [Hin|Hn].
  - destruct (rel_free _ _ _ _ HR v p Hv Hin (proj1 (proj1 Hg)) Hfree) as [Hf Hnd].
    rewrite (px_PrepareFile_ok base base_ok base_ne s Hh v p (V_name v Hv) (rel_has _ _ _ _ HR v Hv Hin) (proj1 Hg) Hf Hnd n (rl_room _ _ _ _ HR) Hn').
    rewrite (rel_file_at _ _ _ _ HR v p Hv (proj1 (proj1 Hg))), app_nil_r. split; [|done]. by apply rel_put.
  - assert (E : px_PrepareFile v p n s = (s, inr (server_err errVolumeNotFound))).
    { unfold px_PrepareFile. rewrite (proj2 (Z.leb_gt n 0)) by lia. apply counting_quiet; [|done].
      unfold mbind, px_bind, px_get. rewrite (proj2 (Z.ltb_ge maxAllowedIOError (ioErrCount s))) by apply Hh.
      rewrite (checkDiskFree_ok base base_ok base_ne s Hh (rl_room _ _ _ _ HR)). unfold createFile. by rewrite missing_vol. }
    rewrite E. by split.
Qed.

Lemma step_DeleteFile : refines_step (run_op s (ODeleteFile v p)) (run_op m (ODeleteFile v p)).
Proof.
  cbn -[decide]. rewrite mem_check_rel. destruct (decide (v ∈ mem_vols m)) as [Hin|Hn].
  - destruct (rel_free _ _ _ _ HR v p Hv Hin (proj1 (proj1 Hg)) Hfree) as [Hf Hnd].
    pose proof (rel_file_at _ _ _ _ HR v p Hv (proj1 (proj1 Hg))) as Hfile. destruct (mem_files m !! (v, p)) as [c|] eqn:E.
    + destruct (px_DeleteFile_ok base base_ok base_ne s Hh v p (V_name v Hv) (rel_has _ _ _ _ HR v Hv Hin) (proj1 Hg) c Hfile) as (t' & -> & Hpr & Hgone).
      split; [|done]. by apply (rel_delete base V V_apart s m HR v p c).
    + rewrite (px_DeleteFile_none base base_ok base_ne s Hh v p (V_name v Hv) (rel_has _ _ _ _ HR v Hv Hin) (proj1 Hg) Hf); [by split|].
      unfold files in Hfile. by destruct (px_tree s !! file_key base v p) as [[|]|].
  - unfold px_DeleteFile. rewrite missing_vol by done. by split.
Qed.

End Free.

Lemma pathJoin_root es : Forall plain_elem es → pathJoin [abs_path es; ""] = abs_path es.
Proof.
  intros Hes. unfold pathJoin, path_Join, slashSeparator. cbn [last]. change (HasSuffix "" "/") with false. rewrite str_app_nil_r.
  rewrite filter_cons_True by done. rewrite filter_cons_False by (intros Hx; by apply Hx). change (Join (abs_path es :: filter _ []) "/") with (abs_path es).
  destruct (Split_abs es Hes) as [H1 H2]. rewrite path_Clean_abs; [by rewrite H2|apply HasPrefix_app|done].
Qed.

Lemma step_ListVol v : V v → refines_step (run_op s (OListVol v)) (run_op m (OListVol v)).
Proof.
  intros Hv. cbn -[decide]. unfold mem_ListDir. rewrite mem_check_rel. destruct (decide (v ∈ mem_vols m)) as [Hin|Hn].
  2: { unfold px_ListDir. rewrite missing_vol by done. by split. }
  pose proof (rel_has _ _ _ _ HR v Hv Hin) as Hd. destruct (V_name v Hv) as (Hc & Hvn & Hos).
  assert (E : px_ListDir v "" s = (s, inl (parseDirents (range_order (entries_of (px_tree s) (vol_dir base v)))))).
  { apply counting_quiet; [|done]. unfold mbind, px_bind. rewrite (px_volume_ok base s Hh base_ok base_ne v (V_name v Hv) Hd).
    rewrite pathJoin_root by (by apply os_name_plain). apply (readDir_dir base s (vol_dir base v) false); try done.
    by apply vol_dir_ne. }
  rewrite E. rewrite (bool_decide_true ("" = "")) by done. cbn [orb].
  pose proof (list_perm base V s m HR v [] Hv ltac:(constructor) ltac:(by rewrite app_nil_r)) as Hp. rewrite app_nil_r in Hp. cbn [dir_prefix] in Hp.
  destruct (mem_dir (mem_files m) v "") as [|r l] eqn:El; by split.
Qed.

Lemma step_ListDir v p : V v → good_file v p → refines_step (run_op s (OListDir v p)) (run_op m (OListDir v p)).
Proof.
  intros Hv Hg. cbn -[decide]. unfold mem_ListDir. rewrite mem_check_rel. destruct (decide (v ∈ mem_vols m)) as [Hin|Hn].
  2: { unfold px_ListDir. rewrite missing_vol by done. by split. }
  pose proof (rel_has _ _ _ _ HR v Hv Hin) as Hd. destruct (file_path base v p (V_name v Hv) (proj1 Hg)) as (_ & Ej & _).
  assert (Hne : p +:+ "/" ≠ "") by (by destruct p). rewrite (bool_decide_false (p +:+ "/" = "")), HasSuffix_app by done. cbn [orb].
  pose proof (rel_dir_at _ _ _ _ HR v p Hv (proj1 (proj1 Hg))) as Hdir. pose proof (mem_dir_nil m v p) as Hnil.
  assert (Hbody : ∀ r, readDir (abs_path (file_key base v p) +:+ "/") s = (s, r) → quiet r → px_ListDir v (p +:+ "/") s = (s, r)).
  { intros r Hr Hq. apply counting_quiet; [|done]. unfold mbind, px_bind.
    by rewrite (px_volume_ok base s Hh base_ok base_ne v (V_name v Hv) Hd), Ej, Hr. }
  destruct (decide (px_tree s !! file_key base v p = Some NDir)) as [Hk|Hk].
  - rewrite (Hbody _ (readDir_dir base s _ true Hh (proj2 (proj1 Hg)) (file_key_ne base base_ok base_ne v p) Hk) I).
    pose proof (list_perm base V s m HR v (Split p "/") Hv (proj1 (proj1 Hg)) Hk) as Hp. unfold dir_prefix in Hp.
    pose proof (Split_ne p) as Hsn. destruct (Split p "/") as [|x q] eqn:Es; [done|]. rewrite <- Es, Join_Split in Hp.
    destruct (mem_dir (mem_files m) v (p +:+ "/")) as [|r l] eqn:El; [by destruct (proj1 Hnil eq_refl); apply Hdir|].
    unfold file_key. by split.
  - rewrite (Hbody _ (readDir_none base s _ Hh (proj2 (proj1 Hg)) Hk) I). rewrite (proj2 Hnil) by (by rewrite <- Hdir). by split.
Qed.

(** ** Renames *)

Lemma rename_missing sv sp dv dp : V sv → V dv → sv ∉ mem_vols m ∨ dv ∉ mem_vols m →
  px_RenameFile sv sp dv dp s = (s, inr (server_err errVolumeNotFound)) ∧
  mem_RenameFile m sv sp dv dp = (m, Some (errVolumeNotFound : error)).
Proof.
  intros Hsv Hdv Hno. split.
  - apply (px_RenameFile_novol base base_ok base_ne); [done|by apply V_name|by apply V_name|..].
    + apply no_file_above_dir; [apply Hh|]. by apply (rl_parent _ _ _ _ HR).
    + apply no_file_above_dir; [apply Hh|]. by apply (rl_parent _ _ _ _ HR).
    + destruct (decide (sv ∈ mem_vols m)) as [Hin|Hn]; [right; split; [by apply (rel_has _ _ _ _ HR)|]|left; by apply rel_missing].
      apply rel_missing; [done|]. by destruct Hno.
  - unfold mem_RenameFile. rewrite !mem_check_rel. destruct (decide (sv ∈ mem_vols m)); [|done].
    rewrite decide_False; [done|]. by destruct Hno.
Qed.

Lemma step_RenameFile sv src dv dst : allowed_op m (ORenameFile sv src dv dst) →
  refines_step (run_op s (ORenameFile sv src dv dst)) (run_op m (ORenameFile sv src dv dst)).
Proof.
  intros (Hsv & Hdv & Hgs & Hgd & Hpre). cbn -[decide].
  destruct (decide (sv ∈ mem_vols m ∧ dv ∈ mem_vols m)) as [[Hsin Hdin]|Hno].
  2: { destruct (rename_missing sv src dv dst Hsv Hdv) as [-> ->]; [|by split].
       destruct (decide (sv ∈ mem_vols m)); [right; naive_solver|by left]. }
  destruct (Hpre Hsin Hdin) as ([c Hc] & Hfree & Hne). unfold mem_RenameFile.
  rewrite !mem_check_rel, !decide_True, !clean_no_slash, Hc by (done || apply Hgs || apply Hgd).
  destruct (rel_free _ _ _ _ HR dv dst Hdv Hdin (proj1 (proj1 Hgd)) Hfree) as [Hf Hnd].
  assert (Hn : px_tree s !! file_key base sv src = Some (NFile c)).
  { apply files_Some. by rewrite (rel_file_at _ _ _ _ HR sv src Hsv (proj1 (proj1 Hgs))). }
  assert (Hsd : ¬ file_key base sv src `prefix_of` file_key base dv dst).
  { intros [q E]. destruct (decide (q = [])) as [->|Hq]; [|by apply (Hf _ q c E Hq)].
    rewrite app_nil_r in E. apply vol_key_inj with (V := V) in E as [-> E]; [|done..]. apply Hne.
    by rewrite <- (Join_Split src), <- E, Join_Split. }
  assert (Hover : px_tree s !! file_key base dv dst = None ∨ ∃ c0 c', NFile c = NFile c0 ∧ px_tree s !! file_key base dv dst = Some (NFile c')).
  { destruct (px_tree s !! file_key base dv dst) as [[|c']|]; [done|right; eauto|by left]. }
  destruct (px_RenameFile_file base base_ok base_ne s Hh sv src dv dst (V_name sv Hsv) (V_name dv Hdv) (rel_has _ _ _ _ HR sv Hsv Hsin)
    (rel_has _ _ _ _ HR dv Hdv Hdin) (proj1 Hgs) (proj1 Hgd) _ Hn Hf Hsd Hover ltac:(by eexists)) as (t' & Hpr & ->).
  split; [|done]. apply (rel_moved base base_ok base_ne V V_apart s m HR sv src dv dst Hsv Hdv Hsin Hdin Hgd _ Hn Hf Hsd Hover t' _ Hpr).
  - by apply (file_moved_files base V V_apart s m HR sv src dv dst Hsv Hdv _ Hn Hsd Hover); [..|apply Hfree].
  - intros v p Hs. destruct (decide ((dv, dst) = (v, p))) as [[= <- <-]|Hne']; [done|]. rewrite lookup_insert_ne in Hs by done.
    apply lookup_delete_is_Some in Hs as [_ Hs]. by apply (rl_names _ _ _ _ HR).
Qed.

Lemma step_RenameDir sv src dv dst : allowed_op m (ORenameDir sv src dv dst) →
  refines_step (run_op s (ORenameDir sv src dv dst)) (run_op m (ORenameDir sv src dv dst)).
Proof.
  intros (Hsv & Hdv & Hgs & Hgd & Hpre). cbn -[decide].
  destruct (decide (sv ∈ mem_vols m ∧ dv ∈ mem_vols m)) as [[Hsin Hdin]|Hno].
  2: { destruct (rename_missing sv (src +:+ "/") dv (dst +:+ "/") Hsv Hdv) as [-> ->]; [|by split].
       destruct (decide (sv ∈ mem_vols m)); [right; naive_solver|by left]. }
  unfold mem_RenameFile. rewrite !mem_check_rel, !decide_True, !HasSuffix_app by done.
  pose proof (rel_dir_at _ _ _ _ HR dv dst Hdv (proj1 (proj1 Hgd))) as Hdir. pose proof (mem_dir_nil m dv dst) as Hnil.
  destruct (mem_dir (mem_files m) dv (dst +:+ "/")) as [|r l] eqn:El.
  2: { rewrite (px_RenameFile_exists base base_ok base_ne s sv src dv dst Hh (V_name sv Hsv) (V_name dv Hdv) (rel_has _ _ _ _ HR sv Hsv Hsin)
         (rel_has _ _ _ _ HR dv Hdv Hdin) (proj1 Hgs) (proj1 Hgd)); [by split|]. apply Hdir.
       exists r. simpl. rewrite str_app_assoc. apply mem_dir_elem. rewrite El. left. }
  pose proof (proj1 Hnil eq_refl) as Hnin. destruct (Hpre Hsin Hdin Hnin) as (Hin & Hfree & Hnf & Hapart & Hgood).
  destruct (rel_free _ _ _ _ HR dv dst Hdv Hdin (proj1 (proj1 Hgd)) Hfree) as [Hf Hnd].
  assert (Hn : px_tree s !! file_key base sv src = Some NDir) by (by apply (rel_dir_at _ _ _ _ HR sv src Hsv (proj1 (proj1 Hgs)))).
  assert (Hkd : px_tree s !! file_key base dv dst = None).
  { pose proof (rel_file_at _ _ _ _ HR dv dst Hdv (proj1 (proj1 Hgd))) as Hfile. rewrite Hnf in Hfile. unfold files in Hfile.
    by destruct (px_tree s !! file_key base dv dst) as [[|]|]. }
  assert (Hsd : ¬ file_key base sv src `prefix_of` file_key base dv dst).
  { intros [q E]. unfold file_key in E. rewrite <- app_assoc in E. apply vol_key_inj with (V := V) in E as [<- E]; [|done..].
    destruct (decide (q = [])) as [->|Hq].
    - apply Hnin. rewrite app_nil_r in E. by rewrite <- (Join_Split dst), E, Join_Split.
    - apply Hapart. split; [done|]. apply HasPrefix_iff. exists (Join q "/"). rewrite <- str_app_assoc.
      rewrite <- (Join_Split dst), E, Join_app by (done || apply Split_ne). by rewrite Join_Split. }
  destruct (mem_dir (mem_files m) sv (src +:+ "/")) as [|r l] eqn:Es; [by apply mem_dir_nil in Es|].
  destruct (px_RenameFile_dir base base_ok base_ne s Hh sv src dv dst (V_name sv Hsv) (V_name dv Hdv) (rel_has _ _ _ _ HR sv Hsv Hsin)
    (rel_has _ _ _ _ HR dv Hdv Hdin) (proj1 Hgs) (proj1 Hgd) _ Hn Hf Hsd (or_introl Hkd) eq_refl Hkd) as (t' & Hpr & ->).
  split; [|done]. apply (rel_moved base base_ok base_ne V V_apart s m HR sv src dv dst Hsv Hdv Hsin Hdin Hgd _ Hn Hf Hsd (or_introl Hkd) t' _ Hpr).
  - by apply (dir_moved_files base V V_apart s m HR sv src dv dst Hsv Hdv Hgs Hgd _ Hn Hsd (or_introl Hkd)).
  - intros v p [c Hs]. rewrite mem_move_dir_lookup in Hs by done. destruct Hs as ([v0 p0] & Hk & Hp0). unfold mem_moved in Hk.
    destruct (mem_under sv (src +:+ "/") (v0, p0)) as [r0|] eqn:Eu.
    + apply mem_under_Some in Eu as [= -> ->]. injection Hk as -> ->. split; [done|]. rewrite <- str_app_assoc. apply Hgood.
      rewrite <- str_app_assoc in Hp0. by eexists.
    + injection Hk as -> ->. apply (rl_names _ _ _ _ HR). by eexists.
Qed.

Lemma step_refines o : allowed_op m o → refines_step (run_op s o) (ref_op m o).
Proof.
  destruct o; intros Ho; cbn [ref_op].
  - by apply step_MakeVol.
  - by apply step_DeleteVol.
  - by apply step_StatVol.
  - by apply step_ListVol.
  - destruct Ho. by apply step_ListDir.
  - destruct Ho as (? & ? & ? & ?). by apply step_ReadFile.
  - destruct Ho. by apply step_ReadAll.
  - destruct Ho. by apply step_StatFile.
  - destruct Ho as (? & ? & ? & ?). by apply step_PrepareFile.
  - destruct Ho as (? & ? & ?). by apply step_AppendFile.
  - destruct Ho as (? & ? & ?). by apply step_DeleteFile.
  - by apply step_RenameFile.
  - by apply step_RenameDir.
Qed.

End Step.

(** C4.  POSIX storage refines the in-memory disk: from related states, a run
    of allowed operations (volumes made and deleted, files prepared, appended
    to, read, listed, renamed and deleted; the names fit, no file is in the place
    of a directory or the reverse, and what is renamed is there) gives the same answers on both, up
    to the order of listings, and ends in related states: the same volumes and
    files, and no empty directory left behind. *)
Theorem posix_refines : ∀ ops s m, rel s m → allowed m ops →
  rel (run_ops run_op s ops).1 (run_ops ref_op m ops).1 ∧
  Forall2 same_answer (run_ops run_op s ops).2 (run_ops ref_op m ops).2.
Proof.
  induction ops as [|o ops IH]; intros s m HR Ha; [by split|]. destruct Ha as [Ho Ha]. cbn [run_ops].
  destruct (step_refines s m HR o Ho) as [HR1 Hans]. destruct (run_op s o) as [s1 a], (ref_op m o) as [m1 b]. cbn [fst snd] in *.
  destruct (IH s1 m1 HR1 Ha) as [HR2 Hl]. destruct (run_ops run_op s1 ops), (run_ops ref_op m1 ops). cbn [fst snd] in *.
  split; [done|]. by constructor.
Qed.

End Run.

(** ** Checks of the conditions *)

#[export] Instance plain_elem_dec e : Decision (plain_elem e).
Proof. unfold plain_elem. apply _. Defined.

#[export] Instance os_name_dec es : Decision (os_name es).
Proof. unfold os_name, os_elem. apply _. Defined.

#[export] Instance vol_name_dec base v : Decision (vol_name base v).
Proof. unfold vol_name, clean_path. apply _. Defined.

#[export] Instance good_file_dec base v p : Decision (good_file base v p).
Proof. unfold good_file, file_name, clean_path. apply _. Defined.

(** The property of every file of the disk. *)
Definition all_files (m : MemDisk) (P : string → string → bool) : bool :=
  forallb (λ kc, P kc.1.1 kc.1.2) (map_to_list (mem_files m)).

Lemma all_files_ok m P v p : all_files m P = true → is_Some (mem_files m !! (v, p)) → P v p = true.
Proof.
  unfold all_files. rewrite forallb_forall. intros Ha [c Hc]. apply (Ha ((v, p), c)).
  by apply list_elem_of_In, elem_of_map_to_list.
Qed.

Definition in_dirb (m : MemDisk) (v s : string) : bool := negb (all_files m (λ v' p', negb (bool_decide (v' = v) && HasPrefix p' (s +:+ "/")))).

Lemma in_dirb_ok m v s : in_dirb m v s = true ↔ in_dir m v s.
Proof.
  unfold in_dirb. rewrite negb_true_iff. split.
  - unfold all_files. rewrite <- not_true_iff_false, forallb_forall. intros Hn.
    destruct (mem_dir (mem_files m) v (s +:+ "/")) as [|r l] eqn:E.
    + exfalso. apply Hn. intros [[v' p'] c] Hin%list_elem_of_In%elem_of_map_to_list. cbn [fst snd]. apply negb_true_iff.
      case_bool_decide as Hv; [|done]. subst v'. cbn [andb]. apply not_true_iff_false. intros [r ->]%HasPrefix_iff.
      assert (Hr : r ∈ mem_dir (mem_files m) v (s +:+ "/")) by (apply mem_dir_elem; by eexists). rewrite E in Hr. by apply not_elem_of_nil in Hr.
    + exists r. simpl. rewrite str_app_assoc. apply mem_dir_elem. rewrite E. left.
  - intros [r Hr]. simpl in Hr. apply not_true_iff_false. intros Ha. pose proof (all_files_ok _ _ _ _ Ha Hr) as Hb. cbn beta in Hb.
    rewrite bool_decide_true, str_app_assoc, HasPrefix_app in Hb by done. done.
Qed.

Definition free_nameb (m : MemDisk) (v p : string) : bool :=
  all_files m (λ v' p', negb (bool_decide (v' = v) && HasPrefix p (p' +:+ "/"))) && negb (in_dirb m v p).

Lemma free_nameb_ok m v p : free_nameb m v p = true → free_name m v p.
Proof.
  intros [H1 H2]%andb_true_iff. split.
  - intros a r ->. simpl. apply eq_None_not_Some. intros Hs. pose proof (all_files_ok _ _ _ _ H1 Hs) as Hb. cbn beta in Hb.
    rewrite bool_decide_true, str_app_assoc, HasPrefix_app in Hb by done. done.
  - rewrite <- in_dirb_ok. by apply negb_true_iff in H2 as ->.
Qed.

Section Allowed.
Context (base : list string) (vols : list string).

Definition nameb (v p : string) : bool := bool_decide (v ∈ vols) && bool_decide (good_file base v p).

(** The conditions of [allowed_op], for a disk with all the volumes. *)
Definition allowed_opb (m : MemDisk) (o : op) : bool :=
  match o with
  | OMakeVol v | ODeleteVol v | OStatVol v | OListVol v => bool_decide (v ∈ vols)
  | OListDir v p | OReadAll v p | OStatFile v p => nameb v p
  | OReadFile v p off _ => nameb v p && (0 <=? off) && free_nameb m v p
  | OPrepareFile v p n => nameb v p && free_nameb m v p && (0 <? n)
  | OAppendFile v p _ | ODeleteFile v p => nameb v p && free_nameb m v p
  | ORenameFile sv src dv dst =>
      nameb sv src && nameb dv dst && bool_decide (is_Some (mem_files m !! (sv, src))) && free_nameb m dv dst &&
      bool_decide ((sv, src) ≠ (dv, dst))
  | ORenameDir sv src dv dst =>
      nameb sv src && nameb dv dst && in_dirb m sv src && free_nameb m dv dst &&
      bool_decide (mem_files m !! (dv, dst) = None) && negb (bool_decide (sv = dv) && HasPrefix dst (src +:+ "/")) &&
      all_files m (λ v p, negb (bool_decide (v = sv)) || negb (HasPrefix p (src +:+ "/")) ||
        bool_decide (good_file base dv (dst +:+ "/" +:+ TrimPrefix p (src +:+ "/"))))
  end.

Fixpoint allowedb (m : MemDisk) (ops : list op) : bool :=
  match ops with [] => true | o :: ops' => allowed_opb m o && allowedb (ref_op m o).1 ops' end.

Lemma allowed_opb_ok m o : allowed_opb m o = true → allowed_op base (λ v, v ∈ vols) m o.
Proof.
  assert (Hn : ∀ v p, nameb v p = true → v ∈ vols ∧ good_file base v p).
  { intros v p [H1 H2]%andb_true_iff. by apply bool_decide_eq_true in H1, H2. }
  destruct o; cbn [allowed_opb allowed_op]; rewrite ?andb_true_iff, ?bool_decide_eq_true; intros Ho;
    repeat match goal with H : _ ∧ _ |- _ => destruct H end;
    repeat match goal with H : nameb _ _ = true |- _ => apply Hn in H as [? ?] end; bool_prop; split_and?; try done; try lia;
    try (by apply free_nameb_ok).
  - intros _ _. split_and!; [done|by apply free_nameb_ok|done].
  - intros _ _ _. split_and!; [by apply in_dirb_ok|by apply free_nameb_ok|done| |].
    + intros [E1 E2]. destruct H1 as [H1|H1]; [by apply bool_decide_eq_false in H1|congruence].
    + intros r Hr.
      match goal with H : all_files _ _ = true |- _ => pose proof (all_files_ok _ _ _ _ H Hr) as Hb end. cbn beta in Hb.
      rewrite bool_decide_true, str_app_assoc, HasPrefix_app, TrimPrefix_app in Hb by done. cbn [negb orb] in Hb. by apply bool_decide_eq_true in Hb.
Qed.

Lemma allowedb_ok ops m : allowedb m ops = true → allowed base (λ v, v ∈ vols) m ops.
Proof.
  revert m. induction ops as [|o ops IH]; intros m; [done|]. cbn [allowedb allowed]. rewrite andb_true_iff. intros [H1 H2].
  split; [by apply allowed_opb_ok|by apply IH].
Qed.

End Allowed.

(** ** A run *)

(** The disk /disk with an empty .minio.sys; the volumes of a bucket and of the
    files that are being written. *)
Definition run_os : osfs :=
  OSFS {[ [] := NDir; ["disk"] := NDir; ["disk"; ".minio.sys"] := NDir ]} [] (os_statfs demo_os).
Definition run_posix : posix := Posix 0 "/disk" fsMinFreeSpace fsMinFreeInodes run_os.
Definition run_mem : MemDisk := {| mem_files := ∅; mem_vols := ∅; mem_offline := false |}.
Definition run_vols : list string := ["photos"; ".minio.sys/tmp"].

(** An object is written to a temporary directory and committed, read, renamed
    and deleted. *)
Definition demo_ops : list op :=
  [OReadAll "photos" "a/b/part.1"; OMakeVol "photos"; OMakeVol "photos"; OMakeVol ".minio.sys/tmp";
   OPrepareFile ".minio.sys/tmp" "u1/part.1" 5; OAppendFile ".minio.sys/tmp" "u1/part.1" (bytes_of_string "hel");
   OAppendFile ".minio.sys/tmp" "u1/part.1" (bytes_of_string "lo"); OAppendFile ".minio.sys/tmp" "u1/xl.json" (bytes_of_string "{}");
   ORenameDir ".minio.sys/tmp" "u1" "photos" "a/b"; OListDir "photos" "a/b"; OListVol ".minio.sys/tmp";
   OReadFile "photos" "a/b/part.1" 3 (bytes_of_string "...."); OStatFile "photos" "a/b/part.1";
   ORenameFile "photos" "a/b/xl.json" "photos" "xl.json"; ODeleteVol "photos"; ODeleteFile "photos" "a/b/part.1";
   OListVol "photos"; ODeleteFile "photos" "xl.json"; ODeleteVol "photos"; OStatVol "photos"].

#[local] Existing Instances demo_times map_order_rev.

(** The same answers, computed. *)
Example demo_ops_answers : (run_ops run_op run_posix demo_ops).2 =
  [AAll [] (Some (errVolumeNotFound : error)); AErr None; AErr (Some (errVolumeExists : error)); AErr None;
   AErr None; AErr None; AErr None; AErr None;
   AErr None; ANames ["part.1"; "xl.json"] None; ANames [] None;
   ARead (bytes_of_string "lo..") 2 (Some (io_ErrUnexpectedEOF : error)); ASize (Some 5) None;
   AErr None; AErr (Some (errVolumeNotEmpty : error)); AErr None;
   ANames ["xl.json"] None; AErr None; AErr None; AErr (Some (errVolumeNotFound : error))].
Proof. by vm_compute. Qed.

Lemma run_base_ok : os_name ["disk"].
Proof. by apply (bool_decide_unpack _). Qed.

Lemma run_vols_ok v : v ∈ run_vols → vol_name ["disk"] v.
Proof.
  intros [->|[->|[]%not_elem_of_nil]%elem_of_cons]%elem_of_cons; by apply (bool_decide_unpack _).
Qed.

Lemma run_vols_apart v v' : v ∈ run_vols → v' ∈ run_vols → vol_dir ["disk"] v `prefix_of` vol_dir ["disk"] v' → v = v'.
Proof.
  intros [->|[->|[]%not_elem_of_nil]%elem_of_cons]%elem_of_cons [->|[->|[]%not_elem_of_nil]%elem_of_cons]%elem_of_cons Hp; try done;
    destruct Hp as [r Hp]; discriminate Hp.
Qed.

Lemma run_tree_Some k n : os_tree run_os !! k = Some n → n = NDir ∧ (k = [] ∨ k = ["disk"] ∨ k = ["disk"; ".minio.sys"]).
Proof.
  unfold run_os. cbn [os_tree]. rewrite !lookup_insert_Some, lookup_singleton_Some. naive_solver.
Qed.

Lemma run_rel : rel ["disk"] (λ v, v ∈ run_vols) run_posix run_mem.
Proof.
  assert (Hno : ∀ v r, v ∈ run_vols → px_tree run_posix !! (vol_dir ["disk"] v ++ r) = None).
  { intros v r Hv. destruct (px_tree run_posix !! _) as [n|] eqn:E; [|done]. apply run_tree_Some in E as [_ E].
    apply elem_of_cons in Hv as [->|[->|[]%not_elem_of_nil]%elem_of_cons]; destruct E as [E|[E|E]]; discriminate E. }
  split.
  - split; [done|done|done| |done]. split; [done|]. intros k x [n Hn]. apply run_tree_Some in Hn as [_ [E|[E|E]]].
    + by destruct k.
    + apply (app_inj_tail k []) in E as [-> _]. done.
    + apply (app_inj_tail k ["disk"]) in E as [-> _]. done.
  - split; [by vm_compute|by left].
  - done.
  - intros v [->|[->|[]%not_elem_of_nil]%elem_of_cons]%elem_of_cons; done.
  - intros v Hv. rewrite <- (app_nil_r (vol_dir ["disk"] v)), Hno by done. rewrite decide_False; [done|]. apply not_elem_of_empty.
  - intros v r Hv Hr _. unfold files. by rewrite Hno.
  - intros v p Hs. simpl in Hs. rewrite lookup_empty in Hs. by destruct Hs.
  - intros v r Hv [n Hs]. by rewrite Hno in Hs.
  - intros v r Hv Hr Hs. by rewrite Hno in Hs.
Qed.

Lemma posix_refines_witness :
  rel ["disk"] (λ v, v ∈ run_vols) run_posix run_mem ∧ allowed ["disk"] (λ v, v ∈ run_vols) run_mem demo_ops ∧
  rel ["disk"] (λ v, v ∈ run_vols) (run_ops run_op run_posix demo_ops).1 (run_ops ref_op run_mem demo_ops).1 ∧
  Forall2 same_answer (run_ops run_op run_posix demo_ops).2 (run_ops ref_op run_mem demo_ops).2.
Proof.
  assert (Ha : allowed ["disk"] (λ v, v ∈ run_vols) run_mem demo_ops) by (apply allowedb_ok; by vm_compute).
  split; [apply run_rel|]. split; [exact Ha|].
  apply (posix_refines ["disk"] run_base_ok ltac:(done) (λ v, v ∈ run_vols) run_vols_ok run_vols_apart demo_ops run_posix run_mem).
  - apply run_rel.
  - exact Ha.
Defined.
