(* ===== verification/PosixFaults.v ===== *)
(** * POSIX storage under faults

    Any call of the system may fail.  Whatever fails, the tree stays a tree,
    and an operation changes no file that it does not name; an append that
    fails has added the first bytes of what it was given, if any. *)

From S2P Require Import Prelude.
From S2P Require Import GoErrors.
From S2P Require Import GoStrings.
From S2P Require Import Storage.
From S2P Require Import ObjectNames.
From S2P Require Import DiskContract.
From S2P Require Import OSFiles.
From S2P Require Import OSTrees.
From S2P Require Import Posix.
From S2P Require Import PosixSpec.
From S2P Require Import PosixOps.
From S2P Require Import PosixRefines.
From S2P Require Import PosixRun.

Local Open Scope Z_scope.

Implicit Types F : list string → Prop.

(** ** Changes of the tree *)

(** From [t] to [t'], the files of [F] apart. *)
Record tree_step (F : list string → Prop) (t t' : tree) : Prop := {
  ts_ok : tree_ok t';
  ts_files : ∀ k, ¬ F k → files t' k = files t k;
}.

Lemma tree_step_refl F t : tree_ok t → tree_step F t t.
Proof. by split. Qed.

Lemma tree_step_trans F t1 t2 t3 : tree_step F t1 t2 → tree_step F t2 t3 → tree_step F t1 t3.
Proof. intros [_ H1] [? H2]. split; [done|]. intros k Hk. by rewrite H2, H1. Qed.

(** A call of the system that keeps what is not in [F]. *)
Definition call_keeps (F : list string → Prop) {A} (f : osfs → osfs * A) : Prop :=
  ∀ o, tree_ok (os_tree o) → tree_step F (os_tree o) (os_tree (f o).1).

Section Faults.
Context `{OSTimes, MapOrder}.

Lemma syscall_tree {A} (o : osfs) (f : tree → tree * (A + errno)) :
  (os_tree (syscall o f).1 = os_tree o ∧ ∃ e, (syscall o f).2 = inr e) ∨
  (os_tree (syscall o f).1 = (f (os_tree o)).1 ∧ (syscall o f).2 = (f (os_tree o)).2).
Proof.
  unfold syscall. destruct (os_faults o) as [|[[e j]|] fs]; [right|left; split; [done|by eexists]|right];
    by destruct (f (os_tree o)).
Qed.

Lemma syscall_keeps F {A} (f : tree → tree * (A + errno)) :
  (∀ t, tree_ok t → tree_step F t (f t).1) → call_keeps F (λ o, syscall o f).
Proof. intros Hf o Ho. destruct (syscall_tree o f) as [[-> _]|[-> _]]; [by apply tree_step_refl|by apply Hf]. Qed.

Lemma syscall_reads F {A} (f : tree → tree * (A + errno)) : (∀ t, (f t).1 = t) → call_keeps F (λ o, syscall o f).
Proof. intros Hf. apply syscall_keeps. intros t Ht. rewrite Hf. by apply tree_step_refl. Qed.

Lemma path_error_keeps F {A} (f : osfs → osfs * (A + errno)) : call_keeps F f → call_keeps F (λ o, path_error (f o)).
Proof. intros Hf o Ho. exact (Hf o Ho). Qed.

Lemma os_Stat_keeps F p : call_keeps F (λ o, os_Stat o p).
Proof. by apply path_error_keeps, syscall_reads. Qed.

Lemma os_Open_keeps F p : call_keeps F (λ o, os_Open o p).
Proof. by apply path_error_keeps, syscall_reads. Qed.

(** What a lookup tells about the tree. *)
Lemma lookup_node_inl t p n : lookup_node t p = inl n → t !! path_elems p = Some n.
Proof.
  unfold lookup_node. destruct (negb (name_ok p)); [done|]. destruct (walk t [] (path_elems p)) as [[|c]|e] eqn:E; [|destruct (HasSuffix p "/")|]; try done;
    intros [= <-]; by apply walk_inv in E.
Qed.

Lemma lookup_parent_None t p : lookup_parent t p = None → t !! removelast (path_elems p) = Some NDir.
Proof.
  unfold lookup_parent. destruct (negb (name_ok p)); [done|]. destruct (walk t [] (removelast (path_elems p))) as [[|c]|e] eqn:E; try done.
  intros _. by apply walk_inv in E.
Qed.

Lemma lookup_node_ENOENT t p : tree_ok t → lookup_node t p = inr ENOENT → t !! path_elems p = None.
Proof.
  intros Ht. unfold lookup_node. destruct (negb (name_ok p)); [done|]. destruct (t !! path_elems p) as [n|] eqn:E; [|done].
  rewrite (walk_some t [] _ n) by done. destruct n; [done|]. by destruct (HasSuffix p "/").
Qed.

Lemma insert_dir_keeps F t es : tree_ok t → t !! removelast es = Some NDir → t !! es = None → tree_step F t (<[es := NDir]> t).
Proof.
  intros Ht Hpar Hno. assert (Hne : es ≠ []) by (intros ->; by rewrite (tok_root _ Ht) in Hno).
  split; [by apply insert_dir_ok|]. intros k _. unfold files. destruct (decide (es = k)) as [->|Hk].
  - by rewrite lookup_insert_eq, Hno.
  - by rewrite lookup_insert_ne.
Qed.

Lemma os_Mkdir_keeps F p : call_keeps F (λ o, os_Mkdir o p).
Proof.
  apply path_error_keeps, syscall_keeps. intros t Ht. unfold sys_mkdir. destruct (lookup_parent t p) eqn:Ep; [by apply tree_step_refl|].
  destruct (t !! path_elems p) eqn:E; [by apply tree_step_refl|]. apply insert_dir_keeps; [done|by apply lookup_parent_None|done].
Qed.

(** The last directory of [os.MkdirAll]. *)
Definition mkdir_last (p : string) (o : osfs) : osfs * (unit + os_error) :=
  match os_Mkdir o p with
  | (o, inl _) => (o, inl ())
  | (o, inr e) => match os_Stat o p with (o, inl fi) => (o, if fi_IsDir fi then inl () else inr e) | (o, inr _) => (o, inr e) end
  end.

Lemma mkdir_last_keeps F p : call_keeps F (mkdir_last p).
Proof.
  intros o Ho. unfold mkdir_last. pose proof (os_Mkdir_keeps F p o Ho) as H1; cbv beta in H1. destruct (os_Mkdir o p) as [o1 [?|e]]; cbn [fst] in *; [done|].
  pose proof (os_Stat_keeps F p o1 (ts_ok _ _ _ H1)) as H2; cbv beta in H2. destruct (os_Stat o1 p) as [o2 [?|?]]; (eapply tree_step_trans; [exact H1|exact H2]).
Qed.

Lemma mkdir_all_keeps F l : call_keeps F (λ o, mkdir_all o l).
Proof.
  induction l as [|x l IH]; intros o Ho; cbn [mkdir_all]; set (p := abs_path _); fold (mkdir_last p);
    pose proof (os_Stat_keeps F p o Ho) as Hs; cbv beta in Hs; destruct (os_Stat o p) as [o1 [fi|e]]; try exact Hs; cbn [fst] in Hs.
  - eapply tree_step_trans; [exact Hs|]. apply mkdir_last_keeps, Hs.
  - destruct l as [|y l]; [eapply tree_step_trans; [exact Hs|]; apply mkdir_last_keeps, Hs|].
    pose proof (IH o1 (ts_ok _ _ _ Hs)) as Hr; cbv beta in Hr. destruct (mkdir_all o1 (y :: l)) as [o2 [?|e2]]; cbn [fst] in *.
    + eapply tree_step_trans; [exact Hs|]. eapply tree_step_trans; [exact Hr|]. apply mkdir_last_keeps, Hr.
    + eapply tree_step_trans; [exact Hs|exact Hr].
Qed.

Lemma os_MkdirAll_keeps F p : call_keeps F (λ o, os_MkdirAll o p).
Proof. apply mkdir_all_keeps. Qed.

Lemma os_OpenFile_keeps F p : F (path_elems p) → call_keeps F (λ o, os_OpenFile o p true).
Proof.
  intros HF. apply path_error_keeps, syscall_keeps. intros t Ht. unfold sys_open_write.
  destruct (lookup_parent t p) eqn:Ep; [by apply tree_step_refl|]. destruct (lookup_node t p) as [[|c]|e] eqn:En; [by apply tree_step_refl..|].
  destruct e; try by apply tree_step_refl. cbn [negb]. destruct (HasSuffix p "/"); [by apply tree_step_refl|]. cbn [fst].
  apply lookup_node_ENOENT in En; [|done]. apply lookup_parent_None in Ep. assert (Hne : path_elems p ≠ []) by (intros E; by rewrite E, (tok_root _ Ht) in En).
  assert (Hp : put_file t (path_elems p) [] = <[path_elems p := NFile []]> t) by (unfold put_file; by rewrite add_dirs_id).
  rewrite <- Hp. split.
  - apply put_file_ok; [done|done|by apply no_file_above_dir|by rewrite En].
  - intros k Hk. rewrite put_file_files, decide_False by (done || by intros ->). done.
Qed.

Lemma put_bytes_keeps F t fd g : tree_ok t → F fd → tree_step F t (put_bytes t fd g).
Proof.
  intros Ht HF. unfold put_bytes. destruct (t !! fd) as [[|c]|] eqn:E; [by apply tree_step_refl| |by apply tree_step_refl].
  assert (Hne : fd ≠ []) by (intros ->; by rewrite (tok_root _ Ht) in E).
  assert (Hp : put_file t fd (g c) = <[fd := NFile (g c)]> t).
  { unfold put_file. rewrite add_dirs_id; [done|done|]. apply tree_parent; [done|done|by eexists]. }
  rewrite <- Hp. split.
  - apply put_file_ok; [done|done| |by rewrite E]. apply no_file_above_dir; [done|]. apply tree_parent; [done|done|by eexists].
  - intros k Hk. rewrite put_file_files, decide_False by (done || by intros ->). done.
Qed.

Lemma file_append_keeps F fd b : F fd → call_keeps F (λ o, file_append o fd b).
Proof.
  intros HF o Ho. unfold file_append, file_write. destruct (os_faults o) as [|[[e j]|] fs]; by apply put_bytes_keeps.
Qed.

(** What a removal does, if anything. *)
Record removed (t t' : tree) (es : list string) (n : node) : Prop := {
  rm_was : t !! es = Some n;
  rm_root : es ≠ [];
  rm_tree : t' = delete es t;
  rm_empty : ∀ x, t !! (es ++ [x]) = None;
}.

Lemma sys_unlink_cases o p : tree_ok (os_tree o) →
  (os_tree (syscall o (sys_unlink p)).1 = os_tree o ∧ ∃ e, (syscall o (sys_unlink p)).2 = inr e) ∨
  (∃ c, removed (os_tree o) (os_tree (syscall o (sys_unlink p)).1) (path_elems p) (NFile c)) ∧ (syscall o (sys_unlink p)).2 = inl ().
Proof.
  intros Ht. destruct (syscall_tree o (sys_unlink p)) as [[-> ?]|[-> ->]]; [by left|]. unfold sys_unlink.
  destruct (lookup_parent (os_tree o) p); [left; split; [done|by eexists]|].
  destruct (lookup_node (os_tree o) p) as [[|c]|e] eqn:En; [left; split; [done|by eexists]| |left; split; [done|by eexists]].
  right. split; [|done]. exists c. apply lookup_node_inl in En. split; [done| |done|].
  - intros E. by rewrite E, (tok_root _ Ht) in En.
  - intros x. destruct (os_tree o !! (path_elems p ++ [x])) as [n|] eqn:E; [|done].
    rewrite (tok_parent _ Ht (path_elems p) x) in En by (by eexists). done.
Qed.

Lemma sys_rmdir_cases o p : tree_ok (os_tree o) →
  (os_tree (syscall o (sys_rmdir p)).1 = os_tree o ∧ ∃ e, (syscall o (sys_rmdir p)).2 = inr e) ∨
  removed (os_tree o) (os_tree (syscall o (sys_rmdir p)).1) (path_elems p) NDir.
Proof.
  intros Ht. destruct (syscall_tree o (sys_rmdir p)) as [[-> ?]|[-> ->]]; [by left|]. unfold sys_rmdir.
  destruct (lookup_node (os_tree o) p) as [[|c]|e] eqn:En; [|left; split; [done|by eexists]..].
  destruct (path_elems p) as [|x l] eqn:Ex; [left; split; [done|by eexists]|]. rewrite <- Ex.
  destruct (entries_of (os_tree o) (path_elems p)) eqn:Ee; [right|left; split; [done|by eexists]].
  apply lookup_node_inl in En. split; [done|by rewrite Ex|done|]. by apply entries_of_nil.
Qed.

Lemma os_Remove_cases o p : tree_ok (os_tree o) →
  (os_tree (os_Remove o p).1 = os_tree o ∧ ∃ e, (os_Remove o p).2 = inr e) ∨
  ∃ n, removed (os_tree o) (os_tree (os_Remove o p).1) (path_elems p) n.
Proof.
  intros Ht. unfold os_Remove. destruct (sys_unlink_cases o p Ht) as [[H1 [e He]]|[[c H1] H2]].
  - destruct (syscall o (sys_unlink p)) as [o1 r]. cbn [fst snd] in *. subst r. rewrite <- H1 in Ht |- *.
    destruct (sys_rmdir_cases o1 p Ht) as [[H2 [e2 H3]]|H2]; destruct (syscall o1 (sys_rmdir p)) as [o2 r2]; cbn [fst snd] in *.
    + left. subst r2. split; [done|by eexists].
    + right. exists NDir. by destruct r2.
  - right. exists (NFile c). destruct (syscall o (sys_unlink p)) as [o1 r]. cbn [fst snd] in *. by subst r.
Qed.

Lemma removed_keeps F t t' es n : tree_ok t → removed t t' es n → (n ≠ NDir → F es) → tree_step F t t'.
Proof.
  intros Ht [Hw Hr -> He] HF. split; [by apply delete_ok|]. intros k Hk. unfold files. destruct (decide (es = k)) as [->|Hne].
  - rewrite lookup_delete_eq, Hw. destruct n; [done|]. destruct Hk. by apply HF.
  - by rewrite lookup_delete_ne.
Qed.

Lemma os_Remove_keeps F p : F (path_elems p) → call_keeps F (λ o, os_Remove o p).
Proof.
  intros HF o Ho. destruct (os_Remove_cases o p Ho) as [[-> _]|[n Hr]]; [by apply tree_step_refl|]. by eapply removed_keeps.
Qed.

(** ** Computations *)

Context (base : list string) (base_plain : Forall plain_elem base).

Definition sound (s : posix) : Prop := tree_ok (px_tree s) ∧ diskPath s = abs_path base.

(** The computation keeps the files that are not in [F], and returns values of
    [Q] only. *)
Definition spec F {A} (m : px A) (Q : A → Prop) : Prop := ∀ s, sound s →
  sound (m s).1 ∧ tree_step F (px_tree s) (px_tree (m s).1) ∧ (∀ a, (m s).2 = inl a → Q a).

Definition kept F (s s' : posix) : Prop := sound s' ∧ tree_step F (px_tree s) (px_tree s').

Lemma spec_kept F {A} (m : px A) : (∀ s, sound s → kept F s (m s).1) → spec F m (λ _, True).
Proof. intros Hm s Hs. destruct (Hm s Hs). by split_and!. Qed.

Lemma spec_run F {A} (m : px A) Q s : spec F m Q → sound s → kept F s (m s).1.
Proof. intros Hm Hs. by destruct (Hm s Hs) as (H1 & H2 & _). Qed.

Lemma spec_ret F {A} (a : A) (Q : A → Prop) : Q a → spec F (mret a) Q.
Proof. intros Ha s Hs. split_and!; [done|apply tree_step_refl, Hs|]. by intros a' [= <-]. Qed.

Lemma spec_fail F {A} e (Q : A → Prop) : spec F (px_fail e) Q.
Proof. intros s Hs. split_and!; [done|apply tree_step_refl, Hs|done]. Qed.

Lemma spec_bind F {A B} (m : px A) (f : A → px B) P Q : spec F m P → (∀ a, P a → spec F (f a) Q) → spec F (m ≫= f) Q.
Proof.
  intros Hm Hf s Hs. unfold mbind, px_bind. destruct (Hm s Hs) as (H1 & H2 & H3). destruct (m s) as [s1 [a|e]]; cbn [fst snd] in *.
  - destruct (Hf a (H3 a eq_refl) s1 H1) as (H4 & H5 & H6). split_and!; [done|by eapply tree_step_trans|done].
  - split_and!; [done|done|done].
Qed.

Lemma spec_bind_any F {A B} (m : px A) (f : A → px B) Q : spec F m (λ _, True) → (∀ a, spec F (f a) Q) → spec F (m ≫= f) Q.
Proof. intros Hm Hf. eapply spec_bind; [exact Hm|]. intros a _. apply Hf. Qed.

Lemma spec_weaken F {A} (m : px A) P Q : spec F m P → (∀ a, P a → Q a) → spec F m Q.
Proof. intros Hm HPQ s Hs. destruct (Hm s Hs) as (H1 & H2 & H3). split_and!; [done|done|]. intros a Ha. by apply HPQ, H3. Qed.

Lemma spec_call F {A} (f : osfs → osfs * (A + os_error)) conv : call_keeps F f → spec F (px_call f conv) (λ _, True).
Proof.
  intros Hf s [Hs Hd]. unfold px_call. pose proof (Hf (px_os s) Hs) as Hst. destruct (f (px_os s)) as [o r]. cbn [fst snd] in *.
  split_and!; [split; [apply Hst|done]|done|done].
Qed.

Lemma spec_try F {A} (f : osfs → osfs * (A + os_error)) : call_keeps F f → spec F (px_try f) (λ _, True).
Proof.
  intros Hf s [Hs Hd]. unfold px_try. pose proof (Hf (px_os s) Hs) as Hst. destruct (f (px_os s)) as [o r]. cbn [fst snd] in *.
  split_and!; [split; [apply Hst|done]|done|done].
Qed.

Lemma spec_get F {A} (f : posix → px A) Q : (∀ s, diskPath s = abs_path base → spec F (f s) Q) → spec F (px_get ≫= f) Q.
Proof. intros Hf s Hs. unfold mbind, px_bind, px_get. apply Hf; [apply Hs|done]. Qed.

Lemma spec_counting F {A} (m : px A) Q : spec F m Q → spec F (counting m) Q.
Proof.
  intros Hm s Hs. unfold counting. destruct (Hm s Hs) as (H1 & H2 & H3). destruct (m s) as [s1 [a|[e|[e|e|e]]]]; try done. by destruct e.
Qed.

Lemma spec_ignore F {A} (m : px A) P : spec F m P → spec F (px_ignore m) (λ _, True).
Proof. intros Hm s Hs. destruct (Hm s Hs) as (H1 & H2 & _). by split_and!. Qed.

Lemma spec_if F {A} (b : bool) (m1 m2 : px A) Q : spec F m1 Q → spec F m2 Q → spec F (if b then m1 else m2) Q.
Proof. by destruct b. Qed.

Lemma spec_length F p : spec F (px_checkPathLength p) (λ _, True).
Proof. unfold px_checkPathLength. destruct (checkPathLength p); [apply spec_fail|by apply spec_ret]. Qed.

Lemma raw_keeps F {A} (f : tree → tree * (A + errno)) : (∀ t, (f t).1 = t) → call_keeps F (px_raw f).
Proof.
  intros Hf o Ho. unfold px_raw. pose proof (syscall_reads F f Hf o Ho) as Hs. cbv beta in Hs. by destruct (syscall o f).
Qed.

Lemma spec_begin F : spec F px_begin (λ _, True).
Proof.
  apply spec_get. intros s Hs. apply spec_if; [apply spec_fail|]. apply spec_get. intros s' Hs'.
  apply spec_bind_any; [apply spec_call, os_Stat_keeps|]. intros a. by apply spec_ret.
Qed.

Lemma spec_getVolDir F v : clean_path v → spec F (getVolDir v) (λ d, d = abs_path (vol_dir base v)).
Proof.
  intros Hc. apply spec_get. intros s Hs. apply spec_if; [apply spec_fail|]. apply spec_ret. rewrite Hs.
  rewrite <- (Join_Split v) at 1. by rewrite (proj1 (pathJoin_abs base (Split v "/") base_plain Hc (Split_ne v))).
Qed.

Lemma spec_volume F v : clean_path v → spec F (px_volume v) (λ d, d = abs_path (vol_dir base v)).
Proof.
  intros Hc. apply spec_bind_any; [apply spec_begin|]. intros _. eapply spec_bind; [by apply spec_getVolDir|]. intros d ->.
  apply spec_bind_any; [apply spec_call, os_Stat_keeps|]. intros a. by apply spec_ret.
Qed.

Lemma vol_plain v : clean_path v → Forall plain_elem (vol_dir base v).
Proof. intros Hv. unfold vol_dir. by apply Forall_app. Qed.

(** The name of a file, of any length. *)
Lemma key_plain v p : clean_path v → clean_path p → Forall plain_elem (file_key base v p).
Proof. intros Hv Hp. unfold file_key, vol_dir. rewrite !Forall_app. by split_and!. Qed.

Lemma key_path v p : clean_path v → clean_path p →
  pathJoin [abs_path (vol_dir base v); p] = abs_path (file_key base v p) ∧
  path_Join [abs_path (vol_dir base v); p] = abs_path (file_key base v p) ∧
  path_Join [abs_path (vol_dir base v); p +:+ "/"] = abs_path (file_key base v p).
Proof.
  intros Hv Hp. assert (Hvol : Forall plain_elem (vol_dir base v)) by (unfold vol_dir; by apply Forall_app).
  destruct (pathJoin_abs (vol_dir base v) (Split p "/") Hvol Hp (Split_ne p)) as [E1 _]. rewrite Join_Split in E1.
  destruct (Split_rel (Split p "/") Hp) as [F1 F2]. rewrite Join_Split in F1, F2. split_and!; [done| |].
  - rewrite path_Join_abs; [by rewrite F2|done|done|by apply clean_path_ne].
  - rewrite path_Join_abs; [|done| |by destruct p].
    + rewrite Split_trail, filter_app, F2, (filter_cons _ ""), decide_False by (intros Hx; by apply Hx). by rewrite app_nil_r.
    + rewrite Split_trail. apply Forall_app. split; [done|]. by repeat constructor; left.
Qed.

(** ** Operations *)

Lemma spec_isDirEmpty F d : spec F (isDirEmpty d) (λ _, True).
Proof.
  apply spec_bind_any; [apply spec_try, os_Open_keeps|]. intros [fd|e]; [|by apply spec_ret].
  apply spec_bind_any; [by apply spec_try, path_error_keeps, syscall_reads|]. intros r. by apply spec_ret.
Qed.

Lemma spec_createFile F v p : clean_path v → clean_path p → F (file_key base v p) →
  spec F (createFile v p) (λ fd, fd = file_key base v p).
Proof.
  intros Hv Hp HF. apply spec_counting. eapply spec_bind; [by apply spec_volume|]. intros d ->.
  destruct (key_path v p Hv Hp) as (-> & _). apply spec_bind_any; [apply spec_length|]. intros _.
  apply spec_bind_any; [apply spec_try, os_Stat_keeps|]. intros r. apply spec_bind_any.
  { destruct r as [st|e]; [apply spec_if; [apply spec_fail|by apply spec_ret]|]. apply spec_call, os_MkdirAll_keeps. }
  intros _. pose proof (proj1 (path_elems_abs _ (key_plain v p Hv Hp))) as He. intros s Hs.
  destruct (spec_call F (λ o, os_OpenFile o (abs_path (file_key base v p)) true) (λ err, if isSysErrNotDir err then server_err errFileAccessDenied else system_err err)
    (os_OpenFile_keeps F _ ltac:(by rewrite He)) s Hs) as (H1 & H2 & _). split_and!; [done|done|].
  intros a. unfold px_call, os_OpenFile, path_error.
  destruct (syscall_tree (px_os s) (sys_open_write (abs_path (file_key base v p)) true)) as [[_ [e E]]|[_ E]];
    destruct (syscall _ _) as [o r']; cbn [fst snd] in *; subst r'; [done|]. unfold sys_open_write.
  repeat case_match; simplify_eq/=; try done; by intros [= <-].
Qed.

Lemma spec_AppendFile F v p b : clean_path v → clean_path p → F (file_key base v p) → spec F (px_AppendFile v p b) (λ _, True).
Proof.
  intros Hv Hp HF. apply spec_counting, spec_get. intros s _. apply spec_if; [apply spec_fail|].
  eapply spec_bind; [by apply spec_createFile|]. intros fd ->. destruct b; [by apply spec_ret|].
  apply spec_bind_any; [by apply spec_call, file_append_keeps|]. intros _. by apply spec_ret.
Qed.

Lemma spec_DiskInfo F p : spec F (getDiskInfo p) (λ _, True).
Proof.
  apply spec_bind_any; [apply spec_length|]. intros _.
  assert (Hi : ∀ conv, spec F (px_call (disk_GetInfo p) conv) (λ _, True)).
  { intros conv. apply spec_call. intros o Ho. apply (raw_keeps F (λ t, (t, match lookup_node t p with inl _ => inl (os_statfs o) | inr e => inr e end))); done. }
  apply spec_bind_any; [apply Hi|]. intros di. apply spec_bind_any; [apply Hi|]. intros _. by apply spec_ret.
Qed.

Lemma spec_PrepareFile F v p n : clean_path v → clean_path p → F (file_key base v p) → spec F (px_PrepareFile v p n) (λ _, True).
Proof.
  intros Hv Hp HF. apply spec_if; [apply spec_fail|]. apply spec_counting, spec_get. intros s _. apply spec_if; [apply spec_fail|].
  apply spec_bind_any.
  { apply spec_get. intros s' _. apply spec_bind_any; [apply spec_DiskInfo|]. intros di.
    repeat first [apply spec_if | apply spec_fail | by apply spec_ret]. }
  intros _. eapply spec_bind; [by apply spec_createFile|]. intros fd _. apply spec_bind_any.
  { apply spec_if; [by apply spec_ret|]. apply spec_bind_any; [by apply spec_try, raw_keeps|]. intros r. by apply spec_ret. }
  intros [e|]; [|by apply spec_ret]. repeat first [apply spec_if | apply spec_fail | by apply spec_ret].
Qed.

(** A delete removes a file of [F], and directories. *)
Lemma deleteFile_keeps F bs : ∀ fuel r s, sound s → Forall plain_elem (bs ++ r) → (F (bs ++ r) ∨ files (px_tree s) (bs ++ r) = None) →
  kept F s (deleteFile fuel (abs_path bs) (abs_path (bs ++ r)) s).1.
Proof.
  induction fuel as [|fuel IH]; intros r s Hs Hpl HF; cbn [deleteFile]; [split; [done|apply tree_step_refl, Hs]|].
  destruct (bool_decide _) eqn:Eb; [split; [done|apply tree_step_refl, Hs]|].
  destruct r as [|x r _] using rev_ind; [apply bool_decide_eq_false in Eb; by rewrite app_nil_r in Eb|].
  assert (Hnone : ∀ s1, tree_step (λ _, False) (px_tree s) (px_tree s1) → F (bs ++ r ++ [x]) ∨ files (px_tree s1) (bs ++ r ++ [x]) = None).
  { intros s1 H1. destruct HF as [HF|HF]; [by left|right]. by rewrite (ts_files _ _ _ H1 _ (λ f, f)). }
  assert (Hsub : ∀ t t', tree_step (λ _, False) t t' → tree_step F t t') by (intros t t' [H1 H2]; split; [done|]; intros k _; exact (H2 k (λ f, f))).
  set (p := abs_path (bs ++ r ++ [x])). unfold mbind at 1, px_bind at 1.
  match goal with |- context [px_call ?f ?c s] => destruct (spec_call (λ _, False) f c (os_Stat_keeps _ p) s Hs) as (H1 & H2 & _);
    destruct (px_call f c s) as [s1 [st|e]] end; cbn [fst snd] in *; [|split; [done|by apply Hsub]].
  unfold mbind at 1, px_bind at 1.
  match goal with |- context [(if fi_IsDir st then ?m1 else ?m2) s1] =>
    assert (Hm : spec (λ _, False) (if fi_IsDir st then m1 else m2) (λ _ : bool, True)); [|set (m := if fi_IsDir st then m1 else m2) in *] end.
  { apply spec_if; [|by apply spec_ret]. apply spec_bind_any; [apply spec_isDirEmpty|]. intros b. by apply spec_ret. }
  destruct (Hm s1 H1) as (H3 & H4 & _). destruct (m s1) as [s2 [ne|e]]; cbn [fst snd] in *.
  2: { split; [done|]. apply Hsub. by eapply tree_step_trans. }
  assert (H5 : tree_step (λ _, False) (px_tree s) (px_tree s2)) by (by eapply tree_step_trans).
  destruct ne; [split; [done|by apply Hsub]|].
  unfold mbind at 1, px_bind at 1, px_call at 1. destruct H3 as [Ht2 Hd2].
  pose proof (os_Remove_cases (px_os s2) p Ht2) as Hrm. destruct (os_Remove (px_os s2) p) as [o3 r3] eqn:E3. cbn [fst snd] in Hrm.
  assert (Hel : path_elems p = bs ++ r ++ [x]) by (by apply (path_elems_abs _ Hpl)). rewrite Hel in Hrm.
  destruct Hrm as [[Ht3 [e ->]]|[n Hrm]].
  { split; [split; [|done]; change (tree_ok (os_tree o3)); by rewrite Ht3|]. apply Hsub. change (tree_step (λ _, False) (px_tree s) (os_tree o3)). by rewrite Ht3. }
  assert (H6 : tree_step F (px_tree s) (os_tree o3)).
  { eapply tree_step_trans; [by apply Hsub|]. eapply (removed_keeps F _ _ _ n Ht2 Hrm). intros Hn.
    destruct (Hnone s2 H5) as [?|Hno]; [done|]. unfold files, px_tree in Hno. rewrite (rm_was _ _ _ _ Hrm) in Hno. by destruct n. }
  destruct r3 as [[]|e]; [|split; [split; [apply H6|done]|exact H6]].
  unfold p. rewrite (app_assoc bs r [x]), path_Dir_abs by (by rewrite <- app_assoc).
  destruct (IH r (set_os s2 o3)) as [H7 H8].
  - split; [apply H6|done].
  - rewrite app_assoc in Hpl. by apply Forall_app in Hpl as [? _].
  - right. unfold files. change (px_tree (set_os s2 o3)) with (os_tree o3). rewrite (rm_tree _ _ _ _ Hrm), lookup_delete_ne.
    + fold (px_tree s2). rewrite (tok_parent _ Ht2 (bs ++ r) x); [done|]. rewrite <- app_assoc. eexists. apply Hrm.
    + intros E%(f_equal length). rewrite !length_app in E. simpl in E. lia.
  - split; [done|]. eapply tree_step_trans; [exact H6|exact H8].
Qed.

Lemma spec_DeleteFile F v p : clean_path v → clean_path p → F (file_key base v p) → spec F (px_DeleteFile v p) (λ _, True).
Proof.
  intros Hv Hp HF. apply spec_counting. eapply spec_bind; [by apply spec_volume|]. intros d ->.
  destruct (key_path v p Hv Hp) as (-> & _). apply spec_bind_any; [apply spec_length|]. intros _ s Hs.
  destruct (deleteFile_keeps F (vol_dir base v) (delete_fuel (abs_path (file_key base v p))) (Split p "/") s Hs (key_plain v p Hv Hp) (or_introl HF)) as [H1 H2].
  by split_and!.
Qed.

(** A rename moves what is at and below the source. *)
Lemma os_Rename_cases o s d : tree_ok (os_tree o) → path_elems (abs_path s) = s → path_elems (abs_path d) = d →
  tree_step (λ k, s `prefix_of` k ∨ d `prefix_of` k) (os_tree o) (os_tree (os_Rename o (abs_path s) (abs_path d)).1) ∧
  ((os_Rename o (abs_path s) (abs_path d)).2 = inl () → is_Some (os_tree o !! s)).
Proof.
  intros Ht Es Ed. unfold os_Rename. pose proof (syscall_tree o (sys_rename (abs_path s) (abs_path d))) as Hsys.
  destruct (syscall o _) as [o' r]. cbn [fst snd] in *. destruct Hsys as [[-> [e ->]]|[-> ->]]; [split; [by apply tree_step_refl|done]|].
  unfold sys_rename. rewrite Es, Ed. set (t := os_tree o) in *.
  assert (Hsame : ∀ e, tree_step (λ k, s `prefix_of` k ∨ d `prefix_of` k) t (t, inr e : unit + errno).1 ∧
    (match (t, inr e : unit + errno).2 with inl _ => inl () | inr e => inr (LinkError e) end = inl () → is_Some (t !! s)))
    by (intros e; split; [by apply tree_step_refl|done]).
  destruct (lookup_parent t (abs_path s)) as [e|] eqn:Eps; [apply Hsame|].
  destruct (lookup_parent t (abs_path d)) as [e|] eqn:Epd; [apply Hsame|].
  apply lookup_parent_None in Eps, Epd. rewrite Es in Eps. rewrite Ed in Epd.
  destruct (lookup_node t (abs_path s)) as [n|e] eqn:En; [|apply Hsame]. apply lookup_node_inl in En. rewrite Es in En.
  case_decide as Hsd; [split; [by apply tree_step_refl|by eexists]|].
  destruct (bool_decide (n = NDir) && bool_decide (s `prefix_of` d)) eqn:Einv; [apply Hsame|].
  assert (Hpre : ¬ s `prefix_of` d).
  { intros [q Hq]. destruct n as [|c]; [by rewrite !bool_decide_true in Einv by (done || by exists q)|].
    destruct q as [|y q _] using rev_ind; [by rewrite app_nil_r in Hq|]. rewrite Hq, app_assoc, removelast_last in Epd.
    destruct (decide (q = [])) as [->|Hne]; [rewrite app_nil_r in Epd; congruence|].
    rewrite (tree_above t s q Ht) in En; [done|by eexists|done]. }
  assert (Hmove : (∀ r, r ≠ [] → t !! (d ++ r) = None) → s ≠ [] → d ≠ [] →
    tree_step (λ k, s `prefix_of` k ∨ d `prefix_of` k) t (move_tree t s d)).
  { intros Hno Hs Hd. split; [by apply move_tree_ok|]. intros k Hk. rewrite move_tree_files by done.
    rewrite !(proj2 (below_dir_None _ k)); [done|..]; intros Hp; apply Hk; auto. }
  assert (Hleaf : t !! d ≠ Some NDir → ∀ r, r ≠ [] → t !! (d ++ r) = None).
  { intros Hd r Hr. destruct (t !! (d ++ r)) as [n'|] eqn:E; [|done]. destruct Hd. apply (tree_above t d r Ht); [by eexists|done]. }
  assert (Hsne : s ≠ []) by (intros ->; apply Hpre, prefix_nil).
  assert (Hdne : t !! d ≠ Some NDir → d ≠ []) by (intros Hd ->; by rewrite (tok_root _ Ht) in Hd).
  assert (Hdone : tree_step (λ k, s `prefix_of` k ∨ d `prefix_of` k) t (move_tree t s d) →
    tree_step (λ k, s `prefix_of` k ∨ d `prefix_of` k) t (move_tree t s d, inl () : unit + errno).1 ∧
    (match (move_tree t s d, inl () : unit + errno).2 with inl _ => inl () | inr e => inr (LinkError e) end = inl () → is_Some (t !! s)))
    by (intros Hm; split; [done|by eexists]).
  destruct n as [|c], (t !! d) as [[|c']|] eqn:Edn; try apply Hsame.
  - destruct (entries_of t d) as [|[x nx] l] eqn:Ee; [|apply Hsame]. apply Hdone, Hmove; [|done|].
    + intros r Hr. destruct (t !! (d ++ r)) as [n'|] eqn:E; [|done]. destruct r as [|y r]; [done|].
      assert (Hy : is_Some (t !! (d ++ [y]))).
      { destruct (decide (r = [])) as [->|Hr']; [by eexists|]. eexists. apply (tree_above t _ r Ht); [|done]. rewrite <- app_assoc. by eexists. }
      rewrite (proj1 (entries_of_nil t d) Ee y) in Hy. by destruct Hy.
    + intros ->. destruct s as [|y s]; [done|]. assert (Hy : is_Some (t !! ([] ++ [y]))).
      { destruct (decide (s = [])) as [->|Hr']; [by eexists|]. eexists. apply (tree_above t [y] s Ht); [by eexists|done]. }
      rewrite (proj1 (entries_of_nil t []) Ee y) in Hy. by destruct Hy.
  - apply Hdone, Hmove; [by apply Hleaf|done|by apply Hdne].
  - destruct (HasSuffix (abs_path d) "/"); [apply Hsame|]. apply Hdone, Hmove; [by apply Hleaf|done|by apply Hdne].
  - destruct (HasSuffix (abs_path d) "/"); [apply Hsame|]. apply Hdone, Hmove; [by apply Hleaf|done|by apply Hdne].
Qed.

Section Rename.
Context (sv src dv dst : string) (Hsv : clean_path sv) (Hsrc : clean_path src) (Hdv : clean_path dv) (Hdst : clean_path dst).

Let ks := file_key base sv src.
Let kd := file_key base dv dst.
Let F : list string → Prop := λ k, ks `prefix_of` k ∨ kd `prefix_of` k.

Lemma src_parent : path_Dir (abs_path ks) = abs_path (vol_dir base sv ++ removelast (Split src "/")) ∧ 
  Forall plain_elem (vol_dir base sv ++ removelast (Split src "/")) ∧ ¬ ks `prefix_of` vol_dir base sv ++ removelast (Split src "/") ∧
  ∃ x, ks = (vol_dir base sv ++ removelast (Split src "/")) ++ [x].
Proof.
  pose proof (key_plain sv src Hsv Hsrc) as Hpl. fold ks in Hpl. unfold ks in *. unfold file_key in *.
  destruct (exists_last (Split_ne src)) as (q & x & E). rewrite E, removelast_last in *. rewrite app_assoc in *. split_and!.
  - by apply path_Dir_abs.
  - by apply Forall_app in Hpl as [? _].
  - intros Hp%prefix_length. rewrite !length_app in Hp. simpl in Hp. lia.
  - by exists x.
Qed.

(** The rename, and the removal of the directories that it left empty. *)
Lemma spec_moved : spec F
  (_ ← px_call (λ o, os_Rename o (abs_path ks) (abs_path kd)) (λ err,
     if os_IsNotExist err then server_err errFileNotFound else system_err err);
   empty ← isDirEmpty (path_Dir (abs_path ks));
   if (empty : bool) then px_ignore (deleteFile (delete_fuel (path_Dir (abs_path ks))) (abs_path (vol_dir base sv)) (path_Dir (abs_path ks)))
   else mret ()) (λ _, True).
Proof.
  apply spec_kept. intros s [Ht Hd]. unfold mbind at 1, px_bind at 1, px_call at 1.
  destruct (os_Rename_cases (px_os s) ks kd Ht) as [H1 H2]; [by apply path_elems_abs, key_plain..|].
  destruct (os_Rename (px_os s) (abs_path ks) (abs_path kd)) as [o [[]|e]]; cbn [fst snd] in *; [|split; [split; [apply H1|done]|exact H1]].
  destruct src_parent as (-> & Hpl & Hnk & x & Ex). set (kp := vol_dir base sv ++ removelast (Split src "/")) in *.
  assert (Hs1 : sound (set_os s o)) by (split; [apply H1|done]).
  assert (Hnone : F kp ∨ files (px_tree (set_os s o)) kp = None).
  { destruct (decide (kd `prefix_of` kp)) as [Hp|Hp]; [left; by right|]. right. change (px_tree (set_os s o)) with (os_tree o).
    rewrite (ts_files _ _ _ H1) by (by intros [?|?]). unfold files. change (os_tree (px_os s)) with (px_tree s).
    rewrite (tok_parent _ Ht kp x); [done|]. rewrite <- Ex. by apply H2. }
  assert (Hrest : kept F (set_os s o) ((empty ← isDirEmpty (abs_path kp);
    if (empty : bool) then px_ignore (deleteFile (delete_fuel (abs_path kp)) (abs_path (vol_dir base sv)) (abs_path kp)) else mret ()) (set_os s o)).1).
  { unfold mbind, px_bind. destruct (spec_isDirEmpty (λ _, False) (abs_path kp) _ Hs1) as (H3 & H4 & _).
    destruct (isDirEmpty (abs_path kp) (set_os s o)) as [s2 [[|]|e]]; cbn [fst snd] in *.
    - destruct (deleteFile_keeps F (vol_dir base sv) (delete_fuel (abs_path kp)) (removelast (Split src "/")) s2 H3 Hpl) as [H5 H6].
      + destruct Hnone as [?|Hn]; [by left|right]. by rewrite (ts_files _ _ _ H4 _ (λ f, f)).
      + split; [done|]. eapply tree_step_trans; [|exact H6]. split; [apply H4|]. intros k _. exact (ts_files _ _ _ H4 k (λ f, f)).
    - split; [done|]. split; [apply H4|]. intros k _. exact (ts_files _ _ _ H4 k (λ f, f)).
    - split; [done|]. split; [apply H4|]. intros k _. exact (ts_files _ _ _ H4 k (λ f, f)). }
  destruct Hrest as [H3 H4]. split; [done|]. eapply tree_step_trans; [exact H1|exact H4].
Qed.

Lemma spec_RenameFile (slash : bool) : spec F
  (px_RenameFile sv (if slash then src +:+ "/" else src) dv (if slash then dst +:+ "/" else dst)) (λ _, True).
Proof.
  destruct (key_path sv src Hsv Hsrc) as (_ & S1 & S2). destruct (key_path dv dst Hdv Hdst) as (_ & D1 & D2).
  assert (Es : path_Join [abs_path (vol_dir base sv); if slash then src +:+ "/" else src] = abs_path ks) by (by destruct slash).
  assert (Ed : path_Join [abs_path (vol_dir base dv); if slash then dst +:+ "/" else dst] = abs_path kd) by (by destruct slash).
  apply spec_counting. apply spec_bind_any; [apply spec_begin|]. intros _.
  eapply spec_bind; [by apply spec_getVolDir|]. intros d1 ->. eapply spec_bind; [by apply spec_getVolDir|]. intros d2 ->.
  apply spec_bind_any; [apply spec_call, os_Stat_keeps|]. intros _. apply spec_bind_any; [apply spec_try, os_Stat_keeps|]. intros r.
  apply spec_bind_any; [destruct r; [by apply spec_ret|apply spec_if; [apply spec_fail|by apply spec_ret]]|]. intros _.
  apply spec_if; [apply spec_fail|]. rewrite Es, Ed. apply spec_bind_any; [apply spec_length|]. intros _.
  apply spec_bind_any; [apply spec_length|]. intros _. apply spec_bind_any.
  { apply spec_if; [|by apply spec_ret]. apply spec_bind_any; [apply spec_try, os_Stat_keeps|]. intros r'.
    destruct r'; [apply spec_fail|]. apply spec_if; [by apply spec_ret|apply spec_fail]. }
  intros _. apply spec_bind_any; [apply spec_call, os_MkdirAll_keeps|]. intros _. apply spec_moved.
Qed.

End Rename.

Lemma spec_readDir F p : spec F (readDir p) (λ _, True).
Proof.
  apply spec_bind_any; [apply spec_call, os_Open_keeps|]. intros d. apply spec_bind_any; [by apply spec_call, raw_keeps|]. intros l.
  apply spec_bind_any; [by apply spec_call, raw_keeps|]. intros _. by apply spec_ret.
Qed.

Lemma spec_volume_reads F {A} v (f : string → px A) Q : clean_path v → (∀ d, spec F (f d) Q) → spec F (counting (px_volume v ≫= f)) Q.
Proof. intros Hv Hf. apply spec_counting. eapply spec_bind; [by apply spec_volume|]. intros d _. apply Hf. Qed.

Lemma file_read_keeps F fd : call_keeps F (λ o, file_read o fd).
Proof. by apply path_error_keeps, syscall_reads. Qed.

Lemma file_ReadFull_keeps F fd off buf : call_keeps F (λ o, file_ReadFull o fd off buf).
Proof.
  intros o Ho. unfold file_ReadFull. pose proof (file_read_keeps F fd o Ho) as Hr; cbv beta in Hr.
  destruct (file_read o fd) as [o' r]. exact Hr.
Qed.

Lemma ReadFile_keeps F p : call_keeps F (λ o, ioutil_ReadFile o p).
Proof.
  intros o Ho. unfold ioutil_ReadFile. pose proof (os_Open_keeps F p o Ho) as H1; cbv beta in H1.
  destruct (os_Open o p) as [o1 [fd|e]]; [|exact H1]. pose proof (file_read_keeps F fd o1 (ts_ok _ _ _ H1)) as H2; cbv beta in H2.
  eapply tree_step_trans; [exact H1|exact H2].
Qed.

(** The files that an operation may change. *)
Definition footprint (o : op) (k : list string) : Prop :=
  match o with
  | ODeleteVol v => k = vol_dir base v
  | OPrepareFile v p _ | OAppendFile v p _ | ODeleteFile v p => k = file_key base v p
  | ORenameFile sv src dv dst | ORenameDir sv src dv dst => file_key base sv src `prefix_of` k ∨ file_key base dv dst `prefix_of` k
  | _ => False
  end.

Definition op_names (o : op) : Prop :=
  match o with
  | OMakeVol v | ODeleteVol v | OStatVol v | OListVol v | OListDir v _ => clean_path v
  | OReadFile v p _ _ | OReadAll v p | OStatFile v p | OPrepareFile v p _ | OAppendFile v p _ | ODeleteFile v p => clean_path v ∧ clean_path p
  | ORenameFile sv src dv dst | ORenameDir sv src dv dst => clean_path sv ∧ clean_path src ∧ clean_path dv ∧ clean_path dst
  end.

(** The disk after an operation. *)
Lemma run_op_disk s o : (run_op s o).1 =
  match o with
  | OMakeVol v => (px_MakeVol v s).1
  | ODeleteVol v => (px_DeleteVol v s).1
  | OStatVol v => (px_StatVol v s).1
  | OListVol v => (px_ListDir v "" s).1
  | OListDir v dir => (px_ListDir v (dir +:+ "/") s).1
  | OReadFile v p off buf => (px_ReadFile v p off buf s).1
  | OReadAll v p => (px_ReadAll v p s).1
  | OStatFile v p => (px_StatFile v p s).1
  | OPrepareFile v p n => (px_PrepareFile v p n s).1
  | OAppendFile v p b => (px_AppendFile v p b s).1
  | ODeleteFile v p => (px_DeleteFile v p s).1
  | ORenameFile sv src dv dst => (px_RenameFile sv src dv dst s).1
  | ORenameDir sv src dv dst => (px_RenameFile sv (src +:+ "/") dv (dst +:+ "/") s).1
  end.
Proof.
  destruct o as [v|v|v|v|v p|v p off buf|v p|v p|v p n|v p b|v p|sv src dv dst|sv src dv dst]; cbn; try done.
  - by destruct (px_StatVol v s) as [s' [a|e]].
  - by destruct (px_ListDir v "" s) as [s' [a|e]].
  - by destruct (px_ListDir v (p +:+ "/") s) as [s' [a|e]].
  - by destruct (px_ReadFile v p off buf s) as [s' [[[b n] e]|e]].
  - by destruct (px_ReadAll v p s) as [s' [a|e]].
  - by destruct (px_StatFile v p s) as [s' [a|e]].
Qed.

Lemma run_op_keeps s o : sound s → op_names o → kept (footprint o) s (run_op s o).1.
Proof.
  intros Hs Ho. rewrite run_op_disk.
  destruct o as [v|v|v|v|v p|v p off buf|v p|v p|v p n|v p b|v p|sv src dv dst|sv src dv dst]; cbn [footprint op_names] in *; (eapply spec_run; [|done]).
  - apply spec_counting, spec_bind_any; [apply spec_begin|]. intros _.
    eapply spec_bind; [by apply spec_getVolDir|]. intros d _. apply spec_call, os_Mkdir_keeps.
  - apply spec_counting, spec_bind_any; [apply spec_begin|]. intros _.
    eapply spec_bind; [by apply spec_getVolDir|]. intros d ->. apply spec_call. by apply os_Remove_keeps, path_elems_abs, vol_plain.
  - apply spec_counting, spec_bind_any; [apply spec_begin|]. intros _. eapply spec_bind; [by apply spec_getVolDir|]. intros d _.
    apply spec_bind_any; [apply spec_call, os_Stat_keeps|]. intros st. by apply (spec_ret _ _ (λ _, True)).
  - apply spec_volume_reads; [done|]. intros d. apply spec_readDir.
  - apply spec_volume_reads; [done|]. intros d. apply spec_readDir.
  - apply (spec_volume_reads _ _ _ (λ _, True)); [apply Ho|]. intros d. apply spec_bind_any; [apply spec_length|]. intros _.
    apply spec_bind_any; [apply spec_call, os_Open_keeps|]. intros fd. apply spec_bind_any; [by apply spec_call, path_error_keeps, syscall_reads|]. intros st.
    apply spec_if; [apply spec_fail|]. apply spec_bind_any; [by apply spec_call, path_error_keeps, syscall_reads|]. intros _.
    apply spec_call, file_ReadFull_keeps.
  - apply spec_volume_reads; [apply Ho|]. intros d. apply spec_bind_any; [apply spec_length|]. intros _. apply spec_call, ReadFile_keeps.
  - apply (spec_volume_reads _ _ _ (λ _, True)); [apply Ho|]. intros d. apply spec_bind_any; [apply spec_length|]. intros _.
    apply spec_bind_any; [apply spec_call, os_Stat_keeps|]. intros st. apply spec_if; [apply spec_fail|by apply spec_ret].
  - destruct Ho. by apply spec_PrepareFile.
  - destruct Ho. by apply spec_AppendFile.
  - destruct Ho. by apply spec_DeleteFile.
  - destruct Ho as (H1 & H2 & H3 & H4). apply (spec_RenameFile sv src dv dst H1 H2 H3 H4 false).
  - destruct Ho as (H1 & H2 & H3 & H4). apply (spec_RenameFile sv src dv dst H1 H2 H3 H4 true).
Qed.

(** C21.  Whatever calls of the system fail, an operation on POSIX storage keeps
    the directory tree well formed and leaves every file alone that it does not
    name: only the file it appends to, prepares or deletes, and what is at and
    below the two names of a rename, can change. *)
Theorem posix_faults_keep_files : ∀ s o, sound s → op_names o →
  tree_ok (px_tree (run_op s o).1) ∧
  ∀ k, ¬ footprint o k → files (px_tree (run_op s o).1) k = files (px_tree s) k.
Proof. intros s o Hs Ho. destruct (run_op_keeps s o Hs Ho) as [[Ht _] [_ Hf]]. by split. Qed.

(** ** Appends *)

Lemma spec_False_files {A} (m : px A) Q s : spec (λ _, False) m Q → sound s →
  sound (m s).1 ∧ ∀ k, files (px_tree (m s).1) k = files (px_tree s) k.
Proof. intros Hm Hs. destruct (Hm s Hs) as (H1 & H2 & _). split; [done|]. intros k. exact (ts_files _ _ _ H2 k (λ f, f)). Qed.

(** The file is there once it is open, with what it had. *)
Lemma os_OpenFile_files o es : tree_ok (os_tree o) → path_elems (abs_path es) = es →
  (files (os_tree (os_OpenFile o (abs_path es) true).1) es = files (os_tree o) es ∨
   files (os_tree o) es = None ∧ files (os_tree (os_OpenFile o (abs_path es) true).1) es = Some []) ∧
  (∀ fd, (os_OpenFile o (abs_path es) true).2 = inl fd →
    fd = es ∧ files (os_tree (os_OpenFile o (abs_path es) true).1) es = Some (default [] (files (os_tree o) es))).
Proof.
  intros Ht He. unfold os_OpenFile, path_error. pose proof (syscall_tree o (sys_open_write (abs_path es) true)) as Hsys.
  destruct (syscall o _) as [o' r]. cbn [fst snd] in *. destruct Hsys as [[-> [e ->]]|[-> ->]]; [split; [by left|done]|].
  unfold sys_open_write. rewrite He. destruct (lookup_parent (os_tree o) (abs_path es)); [split; [by left|done]|].
  destruct (lookup_node (os_tree o) (abs_path es)) as [[|c]|e] eqn:En.
  - split; [by left|done].
  - split; [by left|]. intros fd [= <-]. apply lookup_node_inl in En. rewrite He in En. split; [done|]. cbn [fst].
    unfold files. by rewrite En.
  - destruct e; try (split; [by left|done]). cbn [negb]. destruct (HasSuffix (abs_path es) "/"); [split; [by left|done]|].
    apply lookup_node_ENOENT in En; [|done]. rewrite He in En. cbn [fst snd]. unfold files. rewrite lookup_insert_eq, En.
    split; [by right|]. by intros fd [= <-].
Qed.

(** A computation that changes no file, and then another. *)
Lemma bind_quiet {A B} (m : px A) (f : A → px B) P s (R : posix * (B + perr) → Prop) : spec (λ _, False) m P → sound s →
  (∀ s1 a, sound s1 → (∀ k, files (px_tree s1) k = files (px_tree s) k) → P a → R (f a s1)) →
  (∀ s1 e, sound s1 → (∀ k, files (px_tree s1) k = files (px_tree s) k) → R (s1, inr e)) → R ((m ≫= f) s).
Proof.
  intros Hm Hs Hok Herr. unfold mbind, px_bind. destruct (Hm s Hs) as (H1 & H2 & H3). destruct (m s) as [s1 [a|e]]; cbn [fst snd] in *.
  - apply Hok; [done| |by apply H3]. intros k. exact (ts_files _ _ _ H2 k (λ f, f)).
  - apply Herr; [done|]. intros k. exact (ts_files _ _ _ H2 k (λ f, f)).
Qed.

(** What opening the file [k] for writing leaves. *)
Record opened (k : list string) (t : tree) (r : posix * (list string + perr)) : Prop := {
  op_sound : sound r.1;
  op_file : files (px_tree r.1) k = files t k ∨ files t k = None ∧ files (px_tree r.1) k = Some [];
  op_done : ∀ fd, r.2 = inl fd → fd = k ∧ files (px_tree r.1) k = Some (default [] (files t k));
}.

Lemma createFile_faults v p s : clean_path v → clean_path p → sound s → opened (file_key base v p) (px_tree s) (createFile v p s).
Proof.
  intros Hv Hp Hs. set (k := file_key base v p).
  assert (Herr : ∀ s1 e, sound s1 → (∀ k, files (px_tree s1) k = files (px_tree s) k) → opened k (px_tree s) (s1, inr e)).
  { intros s1 e H1 H2. split; [done|left; apply H2|done]. }
  assert (Hcount : ∀ m : px (list string), opened k (px_tree s) (m s) → opened k (px_tree s) (counting m s)).
  { intros m Hm. unfold counting. destruct (m s) as [s1 [a|[e|[e|e|e]]]]; try done. destruct e; try done. destruct Hm as [H1 H2 H3]. by split. }
  apply Hcount. eapply bind_quiet; [by apply spec_volume|done| |done]. intros s1 d H1 E1 ->. cbv beta zeta.
  destruct (key_path v p Hv Hp) as (-> & _). fold k.
  eapply bind_quiet; [apply spec_length|done| |intros s2 e H2 E2; apply Herr; [done|]; intros k'; by rewrite E2].
  intros s2 _ H2 E2 _. eapply bind_quiet; [apply spec_try, os_Stat_keeps|done| |intros s3 e H3 E3; apply Herr; [done|]; intros k'; by rewrite E3, E2].
  intros s3 r H3 E3 _. eapply (bind_quiet _ _ (λ _, True)); [|done| |intros s4 e H4 E4; apply Herr; [done|]; intros k'; by rewrite E4, E3, E2].
  { destruct r as [st|e]; [apply spec_if; [apply spec_fail|by apply spec_ret]|]. apply spec_call, os_MkdirAll_keeps. }
  intros s4 _ H4 E4 _. assert (E : ∀ k', files (px_tree s4) k' = files (px_tree s) k') by (intros k'; by rewrite E4, E3, E2).
  pose proof (proj1 (path_elems_abs k (key_plain v p Hv Hp))) as He. destruct (os_OpenFile_files (px_os s4) k (proj1 H4) He) as [F1 F2].
  pose proof (os_OpenFile_keeps (λ _, True) (abs_path k) I (px_os s4) (proj1 H4)) as F3. cbv beta in F3. unfold px_call.
  destruct (os_OpenFile (px_os s4) (abs_path k) true) as [o r']. cbn [fst snd] in *. change (os_tree (px_os s4)) with (px_tree s4) in *.
  rewrite E in F1, F2. split.
  - split; [apply F3|apply H4].
  - exact F1.
  - intros fd. destruct r' as [fd'|e]; [|done]. intros [= ->]. by apply F2.
Qed.

(** C22.  An append to POSIX storage under any faults: the file has what it had
    and then the first bytes of the data, all of them if the append succeeds;
    no other file changes. *)
Theorem posix_append_faults : ∀ s v p b, sound s → clean_path v → clean_path p →
  let k := file_key base v p in
  let s' := (px_AppendFile v p b s).1 in
  (∀ k', k' ≠ k → files (px_tree s') k' = files (px_tree s) k') ∧
  (files (px_tree s') k = files (px_tree s) k ∨
   ∃ n, files (px_tree s') k = Some (default [] (files (px_tree s) k) ++ take n b)) ∧
  ((px_AppendFile v p b s).2 = inl () → files (px_tree s') k = Some (default [] (files (px_tree s) k) ++ b)).
Proof.
  intros s v p b Hs Hv Hp k. cbv zeta. split.
  { intros k' Hk. destruct (spec_AppendFile (λ k', k' = k) v p b Hv Hp eq_refl s Hs) as (_ & H2 & _). by apply (ts_files _ _ _ H2). }
  set (R := λ r : posix * (unit + perr), (files (px_tree r.1) k = files (px_tree s) k ∨
    ∃ n, files (px_tree r.1) k = Some (default [] (files (px_tree s) k) ++ take n b)) ∧
    (r.2 = inl () → files (px_tree r.1) k = Some (default [] (files (px_tree s) k) ++ b))).
  change (R (px_AppendFile v p b s)).
  assert (Hcount : ∀ m : px unit, R (m s) → R (counting m s)).
  { intros m Hm. unfold counting. destruct (m s) as [s1 [a|[e|[e|e|e]]]]; try done. destruct e; try done. }
  apply Hcount. unfold mbind, px_bind, px_get. destruct (maxAllowedIOError <? ioErrCount s); [split; [by left|done]|].
  destruct (createFile_faults v p s Hv Hp Hs) as [H1 H2 H3]. destruct (createFile v p s) as [s1 [fd|e]]; cbn [fst snd] in *.
  2: { split; [|done]. cbn [fst]. fold k in H2. destruct H2 as [H2|[H2 H2']]; [by left|right]. exists 0%nat. rewrite H2, H2'. done. }
  destruct (H3 fd eq_refl) as [-> H4]. fold k in H4 |- *. destruct b as [|x b'].
  { split; [right; by exists 0%nat; rewrite app_nil_r|]. intros _. by rewrite app_nil_r. }
  set (b := x :: b') in *. apply files_Some in H4 as H5. unfold px_call, file_append, file_write.
  assert (Hput : ∀ d, files (put_bytes (px_tree s1) k (λ c, c ++ d)) k = Some (default [] (files (px_tree s) k) ++ d)).
  { intros d. unfold put_bytes, files at 1. rewrite H5, lookup_insert_eq. done. }
  unfold px_tree in Hput. destruct (os_faults (px_os s1)) as [|[[e n]|] fs]; split; cbn [fst snd]; unfold px_tree; cbn [px_os set_os os_tree].
  - right. exists (length b). rewrite take_ge by done. apply Hput.
  - intros _. apply Hput.
  - right. exists n. apply Hput.
  - done.
  - right. exists (length b). rewrite take_ge by done. apply Hput.
  - intros _. apply Hput.
Qed.

End Faults.

(** ** Runs with faults *)

#[local] Existing Instances demo_times map_order_rev.

#[export] Instance op_names_dec o : Decision (op_names o).
Proof. destruct o; unfold op_names, clean_path; apply _. Defined.

Lemma run_ops_sound (base : list string) : Forall plain_elem base → ∀ ops s, sound base s → Forall op_names ops → sound base (run_ops run_op s ops).1.
Proof.
  intros Hb. induction ops as [|o ops IH]; intros s Hs Ho; [done|]. apply Forall_cons in Ho as [Ho Hops]. cbn [run_ops].
  destruct (run_op_keeps base Hb s o Hs Ho) as [Hs1 _]. destruct (run_op s o) as [s1 a]. specialize (IH s1 Hs1 Hops).
  by destruct (run_ops run_op s1 ops).
Qed.

(** The disk of a run, and then with faults. *)
Definition with_faults (s : posix) (fs : list fault) : posix := set_os s (OSFS (os_tree (px_os s)) fs (os_statfs (px_os s))).

Definition prep_ops : list op :=
  [OMakeVol "photos"; OMakeVol ".minio.sys/tmp"; OAppendFile "photos" "a/x" (bytes_of_string "hello"); OAppendFile "photos" "y" (bytes_of_string "y")].

(** The write of an append stops after two bytes: the disk is full. *)
Definition full_disk : posix := with_faults (run_ops run_op run_posix prep_ops).1 [None; None; None; None; Some (ENOSPC, 2%nat)].

Lemma disk_plain : Forall plain_elem ["disk"].
Proof. by apply (bool_decide_unpack _). Qed.

Lemma run_posix_sound : sound ["disk"] run_posix.
Proof. split; [apply (h_tree _ _ (rl_healthy _ _ _ _ run_rel))|done]. Qed.

Lemma sound_with_faults base s fs : sound base s → sound base (with_faults s fs).
Proof. intros [Ht Hd]. by split. Qed.

Lemma full_disk_sound : sound ["disk"] full_disk.
Proof.
  apply sound_with_faults, run_ops_sound; [apply disk_plain|apply run_posix_sound|]. by apply (bool_decide_unpack _).
Qed.

Lemma posix_faults_keep_files_witness : sound ["disk"] full_disk ∧
  files (px_tree (run_op full_disk (OAppendFile "photos" "a/x" (bytes_of_string "world"))).1) ["disk"; "photos"; "y"] = Some (bytes_of_string "y").
Proof.
  split; [apply full_disk_sound|].
  destruct (posix_faults_keep_files ["disk"] disk_plain full_disk
    (OAppendFile "photos" "a/x" (bytes_of_string "world")) full_disk_sound) as [_ Hf].
  - by apply (bool_decide_unpack _).
  - rewrite Hf; [by vm_compute|]. intros E. vm_compute in E. discriminate E.
Defined.

Lemma posix_append_faults_witness :
  (px_AppendFile "photos" "a/x" (bytes_of_string "world") full_disk).2 = inr (system_err (PathError ENOSPC)) ∧
  files (px_tree (px_AppendFile "photos" "a/x" (bytes_of_string "world") full_disk).1) ["disk"; "photos"; "a"; "x"] = Some (bytes_of_string "hellowo") ∧
  files (px_tree (px_AppendFile "photos" "a/x" (bytes_of_string "world") full_disk).1) ["disk"; "photos"; "y"] = files (px_tree full_disk) ["disk"; "photos"; "y"].
Proof.
  destruct (posix_append_faults ["disk"] disk_plain full_disk "photos" "a/x" (bytes_of_string "world")
    full_disk_sound) as (Hother & _ & _).
  - by apply (bool_decide_unpack _).
  - by apply (bool_decide_unpack _).
  - split; [by vm_compute|]. split; [by vm_compute|]. apply Hother. intros E. vm_compute in E. discriminate E.
Defined.

(** ** What the runs show *)

(** A rename of a directory that does not exist leaves the directories it made
    for the destination: after it, the directory "a" cannot be the destination
    of a rename. *)
Example rename_missing_leaves_dirs :
  (run_ops run_op run_posix
    [OMakeVol "photos"; OMakeVol ".minio.sys/tmp"; ORenameDir ".minio.sys/tmp" "u0" "photos" "a/b"; OListVol "photos";
     OAppendFile ".minio.sys/tmp" "u1/xl.json" (bytes_of_string "{}"); ORenameDir ".minio.sys/tmp" "u1" "photos" "a"]).2 =
  [AErr None; AErr None; AErr (Some (errFileNotFound : error)); ANames ["a/"] None; AErr None; AErr (Some (errFileAccessDenied : error))].
Proof. by vm_compute. Qed.

(** An input/output error of [os.Stat] is not counted: it is a
    [*os.PathError].  One of the directory read is. *)
Example io_errors_not_counted :
  let d := (run_ops run_op run_posix [OMakeVol "photos"]).1 in
  ioErrCount (run_op (with_faults d [Some (EIO, 0%nat)]) (OStatVol "photos")).1 = 0 ∧
  ioErrCount (run_op (with_faults d [None; None; None; Some (EIO, 0%nat)]) (OListVol "photos")).1 = 1.
Proof. by vm_compute. Qed.

(** A read that fails after two of five bytes: they are in the buffer and are
    counted. *)
Example read_fails_midway :
  let d := (run_ops run_op run_posix [OMakeVol "photos"; OAppendFile "photos" "a" (bytes_of_string "hello")]).1 in
  (ReadFile (with_faults d [None; None; None; None; None; Some (EIO, 2%nat)]) "photos" "a" 0 (bytes_of_string ".....")).2 =
  (bytes_of_string "he...", 2, Some (os_err (PathError EIO))).
Proof. by vm_compute. Qed.

(** The delete of an empty directory, given with its slash, removes it and
    reports that it was not found. *)
Example delete_slash_not_found :
  let d := (run_ops run_op run_posix [OMakeVol "photos"; OMakeVol ".minio.sys/tmp"; ORenameDir ".minio.sys/tmp" "u0" "photos" "a/b"]).1 in
  let '(d', e) := DeleteFile d "photos" "a/" in
  e = Some (errFileNotFound : error) ∧ (run_op d (OListVol "photos")).2 = ANames ["a/"] None ∧ (run_op d' (OListVol "photos")).2 = ANames [] None.
Proof. by vm_compute. Qed.

(** A file whose name starts with "$tmpfile" is kept, and not listed. *)
Example reserved_not_listed :
  (run_ops run_op run_posix [OMakeVol "photos"; OAppendFile "photos" "$tmpfile.jpg" (bytes_of_string "x"); OListVol "photos"; OReadAll "photos" "$tmpfile.jpg";
     ODeleteVol "photos"]).2 =
  [AErr None; AErr None; ANames [] None; AAll (bytes_of_string "x") None; AErr (Some (errVolumeNotEmpty : error))].
Proof. by vm_compute. Qed.
