(* ===== verification/FSFiles.v ===== *)
(** * Files of the FS backend

    The helpers of the FS backend (src/cmd/fs-v1-helpers.go), the locked files
    it opens (src/pkg/lock) and the metadata of an object (src/cmd/fs-v1-metadata.go),
    as built on Linux.  The helpers are functions of the package, not methods:
    like [readDir] and [isDirEmpty] they use nothing of the [px] state but the
    files of the system. *)

From S2P Require Import Prelude.
From S2P Require Import GoErrors.
From S2P Require Import GoStrings.
From S2P Require Import XLMeta.
From S2P Require Import Storage.
From S2P Require Import Erasure.
From S2P Require Import Healing.
From S2P Require Import ObjectNames.
From S2P Require Import XLDisk.
From S2P Require Import XLObject.
From S2P Require Import XLPut.
From S2P Require Import Format.
From S2P Require Import OSFiles.
From S2P Require Import Posix.

Local Open Scope Z_scope.

(** A computation with its errors of the system translated. *)
Definition px_conv {A} (conv : os_error → perr) (m : px A) : px A := λ s,
  match m s with
  | (s, inr (inr e)) => (s, inr (conv e))
  | r => r
  end.

(** A computation whose error the code looks at. *)
Definition px_catch {A} (m : px A) : px (A + perr) := λ s, let '(s, r) := m s in (s, inl r).

Definition is_server_err (e : perr) (want : error) : bool :=
  match e with inl e => err_eqb (Some e) (Some want) | inr _ => false end.

(** A call of the system that looks at nothing: [flock], [lseek], [fallocate]. *)
Definition sys_nop (t : tree) : tree * (unit + errno) := (t, inl ()).

(** ** src/pkg/lock *)

(** The flags that [LockedOpenFile] supports. *)
Inductive lock_flag := O_RDONLY | O_WRONLY | O_RDWR | O_WRONLY_CREAT | O_RDWR_CREAT.

Record LockedFile := { lk_fd : list string; lk_size : Z }.

(** The fd is closed and the locks are gone when there are no references. *)
Record RLockedFile := { rlk_file : LockedFile; rlk_refs : Z }.

Definition IsClosed (r : RLockedFile) : bool := rlk_refs r =? 0.

Definition IncLockRef (r : RLockedFile) : RLockedFile := {| rlk_file := rlk_file r; rlk_refs := rlk_refs r + 1 |}.

Definition RLocked_Close (r : RLockedFile) : RLockedFile :=
  if rlk_refs r =? 0 then r else {| rlk_file := rlk_file r; rlk_refs := rlk_refs r - 1 |}.

Definition newRLockedFile (lkFile : LockedFile) : RLockedFile := {| rlk_file := lkFile; rlk_refs := 1 |}.

Section Files.
Context `{OSTimes, MapOrder}.

(** The lock is taken at once: waiting for other holders of it is not part of
    this model. *)
Definition LockedOpenFile (path : string) (flag : lock_flag) : px LockedFile :=
  f ← px_call (λ o,
        match flag with
        | O_RDONLY => os_Open o path
        | O_WRONLY | O_RDWR => os_OpenFile o path false
        | O_WRONLY_CREAT | O_RDWR_CREAT => os_OpenFile o path true
        end) system_err;
  _ ← px_call (px_raw sys_nop) system_err;
  st ← px_call (λ o, os_Stat o path) system_err;
  if fi_IsDir st then px_fail (system_err (PathError EISDIR))
  else mret {| lk_fd := f; lk_size := fi_Size st |}.

Definition RLockedOpenFile (path : string) : px RLockedFile :=
  lkFile ← LockedOpenFile path O_RDONLY; mret (newRLockedFile lkFile).

(** ** src/cmd/fs-v1-helpers.go *)

Definition fsRemoveFile (filePath : string) : px unit :=
  if bool_decide (filePath = "") then px_fail (server_err errInvalidArgument) else
  _ ← px_checkPathLength filePath;
  px_call (λ o, os_Remove o filePath) (λ err,
    if os_IsNotExist err then server_err errFileNotFound
    else if os_IsPermission err then server_err errFileAccessDenied
    else system_err err).

Definition fsRemoveAll (dirPath : string) : px unit :=
  if bool_decide (dirPath = "") then px_fail (server_err errInvalidArgument) else
  _ ← px_checkPathLength dirPath;
  px_call (λ o, os_RemoveAll o dirPath) (λ err,
    if os_IsPermission err then server_err errVolumeAccessDenied else system_err err).

Definition fsRemoveDir (dirPath : string) : px unit :=
  if bool_decide (dirPath = "") then px_fail (server_err errInvalidArgument) else
  _ ← px_checkPathLength dirPath;
  px_call (λ o, os_Remove o dirPath) (λ err,
    if os_IsNotExist err then server_err errVolumeNotFound
    else if isSysErrNotEmpty err then server_err errVolumeNotEmpty
    else system_err err).

(** An error that is none of the listed ones is dropped. *)
Definition fsMkdir (dirPath : string) : px unit :=
  if bool_decide (dirPath = "") then px_fail (server_err errInvalidArgument) else
  _ ← px_checkPathLength dirPath;
  r ← px_try (λ o, os_Mkdir o dirPath);
  match r with
  | inr err =>
      if os_IsExist err then px_fail (server_err errVolumeExists)
      else if os_IsPermission err then px_fail (server_err errDiskAccessDenied)
      else if isSysErrNotDir err then px_fail (server_err errDiskAccessDenied)
      else mret ()
  | inl _ => mret ()
  end.

Definition fsStatDir (statDir : string) : px FInfo :=
  if bool_decide (statDir = "") then px_fail (server_err errInvalidArgument) else
  _ ← px_checkPathLength statDir;
  fi ← px_call (λ o, os_Stat o statDir) (λ err,
    if os_IsNotExist err then server_err errVolumeNotFound
    else if os_IsPermission err then server_err errVolumeAccessDenied
    else system_err err);
  if negb (fi_IsDir fi) then px_fail (server_err errVolumeAccessDenied) else mret fi.

Definition fsStatFile (statFile : string) : px FInfo :=
  if bool_decide (statFile = "") then px_fail (server_err errInvalidArgument) else
  _ ← px_checkPathLength statFile;
  fi ← px_call (λ o, os_Stat o statFile) (λ err,
    if os_IsNotExist err then server_err errFileNotFound
    else if os_IsPermission err then server_err errFileAccessDenied
    else if isSysErrNotDir err then server_err errFileAccessDenied
    else system_err err);
  if fi_IsDir fi then px_fail (server_err errFileNotFound) else mret fi.

(** The open file, which is read from [offset] on, and its size. *)
Definition fsOpenFile (readPath : string) (offset : Z) : px (list string * Z) :=
  if bool_decide (readPath = "") || (offset <? 0) then px_fail (server_err errInvalidArgument) else
  _ ← px_checkPathLength readPath;
  fr ← px_call (λ o, os_Open o readPath) (λ err,
    if os_IsNotExist err then server_err errFileNotFound
    else if os_IsPermission err then server_err errFileAccessDenied
    else if isSysErrNotDir err then server_err errFileAccessDenied
    else system_err err);
  st ← px_call (λ o, file_Stat o fr readPath) system_err;
  if fi_IsDir st then px_fail (server_err errIsNotRegular) else
  _ ← (if 0 <? offset then px_call (λ o, path_error (syscall o sys_nop)) system_err else mret ());
  mret (fr, fi_Size st).

(** [io.CopyBuffer] to the open file: a chunk of the buffer's size is read and
    written where the last one ended.  A chunk takes a byte at least, so the
    length of the data is enough fuel. *)
Fixpoint copy_file (fuel : nat) (fd : list string) (off : nat) (r : reader) (bufSize : nat) : px Z :=
  match rd_data r, fuel with
  | [], _ =>
      if err_eqb (Some (rd_err r)) (Some (io_EOF : error)) then mret (Z.of_nat off)
      else px_fail (server_err (rd_err r))
  | _ :: _, O => px_fail (server_err errUnexpected)
  | _ :: _, S fuel' =>
      let chunk := take bufSize (rd_data r) in
      _ ← px_call (λ o, file_write o fd (λ c b, write_at c off b) chunk) system_err;
      copy_file fuel' fd (off + length chunk) {| rd_data := drop bufSize (rd_data r); rd_err := rd_err r |} bufSize
  end.

Definition fsFAllocate (len : Z) : px unit :=
  e ← Fallocate len;
  match e with
  | Some e =>
      if negb (isSysErrNoSys e) && negb (isSysErrOpNotSupported e) then
        if isSysErrNoSpace e then px_fail (server_err errDiskFull)
        else if isSysErrIO e then px_fail (system_err (Errno e))
        else px_fail (server_err errUnexpected)
      else mret ()
  | None => mret ()
  end.

(** The reader and the buffer are not nil.  The file is not truncated. *)
Definition fsCreateFile (tempObjPath : string) (r : reader) (bufSize : nat) (fallocSize : Z) : px Z :=
  if bool_decide (tempObjPath = "") then px_fail (server_err errInvalidArgument) else
  _ ← px_checkPathLength tempObjPath;
  _ ← px_call (λ o, os_MkdirAll o (path_Dir tempObjPath)) system_err;
  writer ← px_call (λ o, os_OpenFile o tempObjPath true) (λ err,
    if isSysErrNotDir err then server_err errFileAccessDenied else system_err err);
  _ ← (if 0 <? fallocSize then fsFAllocate fallocSize else mret ());
  copy_file (length (rd_data r)) writer 0 r bufSize.

Definition fsRenameFile (sourcePath destPath : string) : px unit :=
  let traced err := match err with inl e => inl (Traced e []) | inr e => inl (Traced (os_err e) []) end : perr in
  _ ← px_call (λ o, os_MkdirAll o (path_Dir destPath)) (λ err, traced (system_err err));
  px_call (λ o, os_Rename o sourcePath destPath) (λ err, traced (system_err err)).

(** Every round works on a shorter path. *)
Fixpoint fsDeleteFile_loop (fuel : nat) (basePath deletePath : string) : px unit :=
  match fuel with
  | O => px_fail (server_err errUnexpected)
  | S fuel' =>
      _ ← px_checkPathLength basePath;
      _ ← px_checkPathLength deletePath;
      if bool_decide (basePath = deletePath) then mret () else
      pathSt ← px_call (λ o, os_Stat o deletePath) (λ err,
        if os_IsNotExist err then server_err errFileNotFound
        else if os_IsPermission err then server_err errFileAccessDenied
        else system_err err);
      notEmpty ← (if fi_IsDir pathSt then e ← isDirEmpty deletePath; mret (negb e) else mret false);
      if (notEmpty : bool) then mret () else
      _ ← px_call (λ o, os_Remove o deletePath) (λ err,
        if os_IsNotExist err then server_err errFileNotFound
        else if os_IsPermission err then server_err errFileAccessDenied
        else if isSysErrNotEmpty err then server_err errVolumeNotEmpty
        else system_err err);
      fsDeleteFile_loop fuel' basePath (path_Dir deletePath)
  end.

Definition fsDeleteFile (basePath deletePath : string) : px unit :=
  fsDeleteFile_loop (delete_fuel deletePath) basePath deletePath.

Fixpoint delete_entries (basePath uploadIDPath : string) (entries : list string) : px unit :=
  match entries with
  | [] => mret ()
  | entryPath :: entries' =>
      r ← px_catch (fsDeleteFile basePath (pathJoin [uploadIDPath; entryPath]));
      match r with
      | inr err =>
          if is_server_err err errFileNotFound then delete_entries basePath uploadIDPath entries' else px_fail err
      | inl _ => delete_entries basePath uploadIDPath entries'
      end
  end.

Definition fsRemoveUploadIDPath (basePath uploadIDPath : string) : px unit :=
  if bool_decide (basePath = "") || bool_decide (uploadIDPath = "") then px_fail (server_err errInvalidArgument) else
  r ← px_catch (readDir uploadIDPath);
  match r with
  | inr err => if is_server_err err errFileNotFound then mret () else px_fail err
  | inl entries => delete_entries basePath uploadIDPath entries
  end.

End Files.

(** ** src/cmd/fs-v1-metadata.go *)

Definition fsMetaJSONFile : string := "fs.json".
Definition fsFormatJSONFile : string := "format.json".
Definition bucketMetaPrefix : string := "buckets".
Definition fsMetaVersion : string := "1.0.0".
Definition fsMetaFormat : string := "fs".

Record fsMetaV1 := FSMetaV1 {
  fsm_Version : string;
  fsm_Format : string;
  fsm_Release : string;
  fsm_Meta : gmap string string;
  fsm_Parts : list objectPartInfo;
}.

Definition fsMetaV1_zero : fsMetaV1 := FSMetaV1 "" "" "" ∅ [].

Definition fsm_set_Meta (m : fsMetaV1) (meta : gmap string string) : fsMetaV1 :=
  FSMetaV1 (fsm_Version m) (fsm_Format m) (fsm_Release m) meta (fsm_Parts m).
Definition fsm_set_Parts (m : fsMetaV1) (parts : list objectPartInfo) : fsMetaV1 :=
  FSMetaV1 (fsm_Version m) (fsm_Format m) (fsm_Release m) (fsm_Meta m) parts.

(** [json.Marshal], and [json.Unmarshal] into a value. *)
Class FSJson := {
  fs_Marshal : fsMetaV1 → bytes + error;
  fs_Unmarshal : bytes → fsMetaV1 → fsMetaV1 * option error;
}.

Definition newFSMetaV1 (ReleaseTag : string) : fsMetaV1 := FSMetaV1 fsMetaVersion fsMetaFormat ReleaseTag ∅ [].

Definition newFSFormatV1 : formatConfigV1 :=
  {| FmtVersion := "1"; FmtFormat := "fs"; FmtFS := Some {| FSVersion := "1" |}; FmtXL := None |}.

(** The map of the metadata is a reference: the content type that is set and
    the md5 sum that is deleted are so in the map of the caller also, which no
    caller looks at afterwards. *)
Definition ToObjectInfo (mimedb_DB : string → option string) (m : fsMetaV1) (bucket object : string) (fi : option FInfo) : ObjectInfo :=
  let meta := fsm_Meta m in
  let meta :=
    if bool_decide (default "" (meta !! "content-type") = "") then
      let objectExt := path_Ext object in
      if bool_decide (objectExt = "") then meta
      else match mimedb_DB (ToLower (TrimPrefix objectExt ".")) with
           | Some content => <["content-type" := content]> meta
           | None => meta
           end
    else meta in
  {| IsDir := match fi with Some fi => fi_IsDir fi | None => false end;
     Bucket := bucket; Name := object;
     Size := match fi with Some fi => fi_Size fi | None => 0 end;
     ObjModTime := match fi with Some fi => fi_ModTime fi | None => timeSentinel end;
     MD5Sum := default "" (meta !! "md5Sum");
     ContentType := default "" (meta !! "content-type");
     ContentEncoding := default "" (meta !! "content-encoding");
     UserDefined := delete "md5Sum" meta; ObjHealInfo := None |}.

Definition fs_ObjectPartIndex (m : fsMetaV1) (partNumber : Z) : Z := objectPartIndex (fsm_Parts m) partNumber.

Definition fs_AddObjectPart (m : fsMetaV1) (partNumber : Z) (partName partETag : string) (partSize : Z) : fsMetaV1 :=
  let partInfo := ObjectPartInfo partNumber partName partETag partSize in
  fsm_set_Parts m
    match replace_part (fsm_Parts m) partInfo with
    | Some parts => parts
    | None => sort_parts (fsm_Parts m ++ [partInfo])
    end.

Section Meta.
Context `{OSTimes, MapOrder, FSJson, FormatJson}.

Definition traced_err (e : perr) : perr := inl (Traced (perr_err e) []).

(** [Truncate(0)] of the open file. *)
Definition file_Truncate (o : osfs) (fd : list string) : osfs * (unit + os_error) :=
  path_error (syscall o (λ t, (put_bytes t fd (λ _, []), inl ()))).

(** The open file is at its start. *)
Definition WriteTo (m : fsMetaV1) (lk : LockedFile) : px Z :=
  match fs_Marshal m with
  | inr err => px_fail (server_err (Traced err []))
  | inl metadataBytes =>
      _ ← px_call (λ o, file_Truncate o (lk_fd lk)) (λ e, traced_err (system_err e));
      _ ← px_call (λ o, file_write o (lk_fd lk) (λ c b, write_at c 0 b) metadataBytes) (λ e, traced_err (system_err e));
      mret (zlen metadataBytes)
  end.

(** [ioutil.ReadAll] of the first [size] bytes of an open file. *)
Definition read_section (lk : LockedFile) : px bytes :=
  if lk_size lk =? 0 then mret []
  else c ← px_call (λ o, file_read o (lk_fd lk)) system_err; mret (take (Z.to_nat (lk_size lk)) c).

(** Read into [m]; the reader is a section of the file. *)
Definition ReadFrom (m : fsMetaV1) (lk : LockedFile) : px fsMetaV1 :=
  metadataBytes ← px_conv (λ e, traced_err (system_err e)) (read_section lk);
  if bool_decide (metadataBytes = []) then px_fail (server_err (Traced io_EOF [])) else
  match fs_Unmarshal metadataBytes m with
  | (m, None) => mret m
  | (_, Some err) => px_fail (server_err (Traced err []))
  end.

Definition loadFormatFS (fsPath : string) : px formatConfigV1 :=
  rlk ← px_conv (λ err, if os_IsNotExist err then server_err errUnformattedDisk else system_err err)
         (RLockedOpenFile (pathJoin [fsPath; minioMetaBucket; fsFormatJSONFile]));
  formatBytes ← px_call (λ o, file_read o (lk_fd (rlk_file rlk))) system_err;
  match format_Unmarshal formatBytes with
  | inr err => px_fail (server_err err)
  | inl format => mret format
  end.

Definition saveFormatFS (formatPath : string) (format : formatConfigV1) : px unit :=
  match format_Marshal (Some format) with
  | inr err => px_fail (server_err err)
  | inl metadataBytes =>
      lk ← LockedOpenFile formatPath O_WRONLY_CREAT;
      _ ← px_call (λ o, file_write o (lk_fd lk) (λ c b, write_at c 0 b) metadataBytes) system_err;
      mret ()
  end.

End Meta.
