(* ===== verification/FSObjects.v ===== *)
(** * The FS backend

    Objects as files of one file system (src/cmd/fs-v1.go) and the pool of the
    metadata files that are open for reading (src/cmd/fs-v1-rwpool.go).  An object
    is the file at its name in the directory of the bucket; its metadata is the
    file fs.json below .minio.sys/buckets.  The operations of this file run one
    after the other; [FSPool] has the pool with readers that overlap. *)

From S2P Require Import Prelude.
From S2P Require Import GoErrors.
From S2P Require Import GoStrings.
From S2P Require Import XLMeta.
From S2P Require Import Storage.
From S2P Require Import Erasure.
From S2P Require Import XorCode.
From S2P Require Import ObjectNames.
From S2P Require Import XLDisk.
From S2P Require Import XLBucket.
From S2P Require Import XLObject.
From S2P Require Import XLPut.
From S2P Require Import Format.
From S2P Require Import OSFiles.
From S2P Require Import Posix.
From S2P Require Import FSFiles.

Local Open Scope Z_scope.

Record fsObjects := FSObjects {
  fsPath : string;
  fsUUID : string;
  fs_minFreeSpace : Z;
  fs_minFreeInodes : Z;
  (** [rwPool.readersMap]. *)
  readersMap : gmap string RLockedFile;
  (** The files of the system. *)
  fs_os : osfs;
}.

Definition fs_set_os (s : fsObjects) (o : osfs) : fsObjects :=
  FSObjects (fsPath s) (fsUUID s) (fs_minFreeSpace s) (fs_minFreeInodes s) (readersMap s) o.

Definition set_readers (s : fsObjects) (m : gmap string RLockedFile) : fsObjects :=
  FSObjects (fsPath s) (fsUUID s) (fs_minFreeSpace s) (fs_minFreeInodes s) m (fs_os s).

(** ** Methods *)

Definition fsx (A : Type) : Type := fsObjects → fsObjects * (A + error).

#[export] Instance fsx_ret : MRet fsx := λ A a s, (s, inl a).
#[export] Instance fsx_bind : MBind fsx := λ A B f m s,
  match m s with
  | (s, inl a) => f a s
  | (s, inr e) => (s, inr e)
  end.

Definition fs_fail {A} (e : error) : fsx A := λ s, (s, inr e).

Definition fs_get : fsx fsObjects := λ s, (s, inl s).

(** A change of the map of readers. *)
Definition fs_readers (f : gmap string RLockedFile → gmap string RLockedFile) : fsx unit := λ s,
  (set_readers s (f (readersMap s)), inl ()).

Definition fs_px (s : fsObjects) : posix := Posix 0 (fsPath s) (fs_minFreeSpace s) (fs_minFreeInodes s) (fs_os s).

(** A helper on the files of the system, with its error. *)
Definition fs_try {A} (m : px A) : fsx (A + error) := λ s,
  let '(p, r) := m (fs_px s) in
  (fs_set_os s (px_os p), inl (match r with inl a => inl a | inr e => inr (perr_err e) end)).

(** A helper whose error the method returns, translated. *)
Definition fs_call {A} (m : px A) (conv : error → error) : fsx A :=
  r ← fs_try m; match r with inl a => mret a | inr e => fs_fail (conv e) end.

(** A method whose error the caller looks at. *)
Definition fs_catch {A} (m : fsx A) : fsx (A + error) := λ s, let '(s, r) := m s in (s, inl r).

(** A method with a deferred call, whose error is dropped. *)
Definition fs_defer {A B} (m : fsx A) (d : fsx B) : fsx A := λ s,
  let '(s, r) := m s in ((d s).1, r).

(** [toObjectErr] and [traceError] of an error that is not nil. *)
Definition objErr (e : error) (params : list string) : error := default e (toObjectErr (Some e) params).
Definition traced (e : error) : error := Traced e [].

Definition lift_err (e : option error) : fsx unit := match e with None => mret () | Some e => fs_fail e end.

Section FS.
Context `{OSTimes, MapOrder, FSJson, FormatJson, Hashes}.
(** The server's release, crypto/md5, the table of src/pkg/mimedb and
    [filepath.Abs]. *)
Context (ReleaseTag : string) (md5_Sum : bytes → bytes) (mimedb_DB : string → option string).
Context (filepath_Abs : string → string + perr).

Abbreviation ToObjectInfo := (ToObjectInfo mimedb_DB).

(** ** src/cmd/fs-v1-rwpool.go *)

Definition rwPool_Open (path : string) : fsx RLockedFile :=
  _ ← lift_err (checkPathLength path);
  s ← fs_get;
  known ← match readersMap s !! path with
          | Some rlkFile =>
              if IsClosed rlkFile then
                _ ← fs_readers (delete path); mret None
              else
                _ ← fs_readers (<[path := IncLockRef rlkFile]>); mret (Some (IncLockRef rlkFile))
          | None => mret None
          end;
  match known with
  | Some rlkFile => mret rlkFile
  | None =>
      rlkFile ← fs_call (px_conv (λ err,
        if os_IsNotExist err then server_err errFileNotFound
        else if os_IsPermission err then server_err errFileAccessDenied
        else if isSysErrIsDir err then server_err errIsNotRegular
        else if isSysErrNotDir err then server_err errFileAccessDenied
        else system_err err) (RLockedOpenFile path)) id;
      _ ← fs_readers (<[path := rlkFile]>);
      mret rlkFile
  end.

Definition rwPool_Write (path : string) : fsx LockedFile :=
  _ ← lift_err (checkPathLength path);
  fs_call (px_conv (λ err,
    if os_IsNotExist err then server_err errFileNotFound
    else if os_IsPermission err then server_err errFileAccessDenied
    else if isSysErrIsDir err then server_err errIsNotRegular
    else system_err err) (LockedOpenFile path O_RDWR)) id.

Definition rwPool_Create (path : string) : fsx LockedFile :=
  _ ← lift_err (checkPathLength path);
  _ ← fs_call (px_call (λ o, os_MkdirAll o (path_Dir path)) (λ err,
    if os_IsPermission err then server_err errFileAccessDenied
    else if isSysErrNotDir err then server_err errFileAccessDenied
    else system_err err)) id;
  fs_call (px_conv (λ err,
    if os_IsPermission err then server_err errFileAccessDenied
    else if isSysErrIsDir err then server_err errIsNotRegular
    else system_err err) (LockedOpenFile path O_RDWR_CREAT)) id.

Definition rwPool_Close (path : string) : fsx unit :=
  _ ← lift_err (checkPathLength path);
  s ← fs_get;
  match readersMap s !! path with
  | None => mret ()
  | Some rlkFile =>
      let rlkFile := RLocked_Close rlkFile in
      fs_readers (if IsClosed rlkFile then delete path else <[path := rlkFile]>)
  end.

(** ** The layer *)

Definition initMetaVolumeFS (fsPath fsUUID : string) : px unit :=
  let mk p := px_call (λ o, os_MkdirAll o p) system_err in
  _ ← mk (pathJoin [fsPath; minioMetaBucket]);
  _ ← mk (pathJoin [fsPath; minioMetaTmpBucket; fsUUID]);
  mk (pathJoin [fsPath; minioMetaMultipartBucket]).

Definition fs_checkDiskFree : fsx unit :=
  s ← fs_get;
  di ← fs_call (getDiskInfo (fsPath s)) id;
  if availableDiskSpace (DiskFree di) <=? fs_minFreeSpace s then fs_fail errDiskFull
  else if negb (DiskFiles di =? 0) && (DiskFfree di <=? fs_minFreeInodes s) then fs_fail errDiskFull
  else mret ().

(** The layer up to the check of the disk; the bucket policies and the event
    notifier are set up after it.  [uuid] is that of [mustGetUUID]. *)
Definition newFSObjectLayer (uuid : string) (path : string) (o : osfs) : osfs * (fsObjects + error) :=
  if bool_decide (path = "") then (o, inr (errInvalidArgument : error)) else
  match filepath_Abs path with
  | inr e => (o, inr (perr_err e))
  | inl path =>
      let init : px (option formatConfigV1) :=
        r ← px_try (λ o, os_Stat o path);
        _ ← match r with
            | inl fi => if negb (fi_IsDir fi) then px_fail (system_err (Errno ENOTDIR)) else mret ()
            | inr err => if os_IsNotExist err then px_call (λ o, os_MkdirAll o path) system_err else mret ()
            end;
        _ ← px_mask (server_err (ENew "Unable to initialize '.minio.sys' meta volume")) (initMetaVolumeFS path uuid);
        r ← px_catch (loadFormatFS path);
        match r with
        | inl format =>
            if negb (bool_decide (FmtFormat format = "fs"))
            then px_fail (server_err (ENew "Unable to recognize backend format, Disk is not in FS format."))
            else mret (Some format)
        | inr err =>
            if is_server_err err errUnformattedDisk then
              _ ← px_mask (server_err (ENew "Unable to initialize 'format.json'"))
                    (saveFormatFS (pathJoin [path; minioMetaBucket; fsFormatJSONFile]) newFSFormatV1);
              mret None
            else px_fail (server_err (ENew "Unable to load 'format.json'"))
        end in
      match init (Posix 0 path fsMinFreeSpace fsMinFreeInodes o) with
      | (p, inr e) => (px_os p, inr (perr_err e))
      | (p, inl _) =>
          match fs_checkDiskFree (FSObjects path uuid fsMinFreeSpace fsMinFreeInodes ∅ (px_os p)) with
          | (fs, inr e) => (fs_os fs, inr e)
          | (fs, inl _) => (fs_os fs, inl fs)
          end
      end
  end.

Definition fs_Shutdown : fsx unit :=
  s ← fs_get;
  fs_call (fsRemoveAll (pathJoin [fsPath s; minioMetaTmpBucket; fsUUID s])) id.

(** ** Buckets *)

Definition getBucketDir (bucket : string) : fsx string :=
  if negb (IsValidBucketName bucket) then fs_fail (traced (BucketNameInvalid bucket ""))
  else s ← fs_get; mret (pathJoin [fsPath s; bucket]).

Definition statBucketDir (bucket : string) : fsx FInfo :=
  bucketDir ← getBucketDir bucket;
  fs_call (fsStatDir bucketDir) traced.

(** The errors of a method, translated. *)
Definition fs_err {A} (conv : error → error) (m : fsx A) : fsx A := λ s,
  match m s with (s, inr e) => (s, inr (conv e)) | r => r end.

Definition fs_MakeBucket (bucket : string) : fsx unit :=
  bucketDir ← fs_err (λ e, objErr e [bucket]) (getBucketDir bucket);
  fs_call (fsMkdir bucketDir) (λ e, objErr (traced e) [bucket]).

Definition fs_GetBucketInfo (bucket : string) : fsx BucketInfo :=
  st ← fs_err (λ e, objErr e [bucket]) (statBucketDir bucket);
  mret {| BucketName := bucket; BucketCreated := fi_ModTime st |}.

Fixpoint listBuckets_entries (entries : list string) : fsx (list BucketInfo) :=
  match entries with
  | [] => mret []
  | entry :: entries' =>
      if bool_decide (entry = minioMetaBucket +:+ "/") || negb (HasSuffix entry slashSeparator)
      then listBuckets_entries entries'
      else
        s ← fs_get;
        r ← fs_try (fsStatDir (pathJoin [fsPath s; entry]));
        match r with
        | inr err =>
            if err_eqb (Some err) (Some (errVolumeNotFound : error)) || err_eqb (Some err) (Some (errVolumeAccessDenied : error))
            then listBuckets_entries entries' else fs_fail err
        | inl fi =>
            if negb (IsValidBucketName (fi_Name fi)) then listBuckets_entries entries'
            else
              bucketInfos ← listBuckets_entries entries';
              mret ({| BucketName := fi_Name fi; BucketCreated := fi_ModTime fi |} :: bucketInfos)
        end
  end.

Definition fs_ListBuckets : fsx (list BucketInfo) :=
  s ← fs_get;
  _ ← lift_err (checkPathLength (fsPath s));
  entries ← fs_call (readDir (fsPath s)) (λ _, objErr (traced errDiskNotFound) []);
  bucketInfos ← listBuckets_entries entries;
  mret (merge_sort byBucketName bucketInfos).

Definition fs_DeleteBucket (bucket : string) : fsx unit :=
  bucketDir ← fs_err (λ e, objErr e [bucket]) (getBucketDir bucket);
  _ ← fs_call (fsRemoveDir bucketDir) (λ e, objErr e [bucket]);
  s ← fs_get;
  _ ← fs_call (fsRemoveAll (pathJoin [fsPath s; minioMetaMultipartBucket; bucket])) (λ e, objErr e [bucket]);
  fs_call (fsRemoveAll (pathJoin [fsPath s; minioMetaBucket; bucketMetaPrefix; bucket])) (λ e, objErr e [bucket]).

(** ** Objects *)

Definition readSizeV1 : Z := 1024 * 1024.

(** The path of an object and of its metadata. *)
Definition fsObjPath (s : fsObjects) (bucket object : string) : string := pathJoin [fsPath s; bucket; object].
Definition fsMetaPath (s : fsObjects) (bucket object : string) : string :=
  pathJoin [fsPath s; minioMetaBucket; bucketMetaPrefix; bucket; object; fsMetaJSONFile].

(** What the checks of the arguments ask of the backend. *)
Definition bucket_err (bucket : string) : fsx (option error) :=
  r ← fs_catch (fs_GetBucketInfo bucket);
  mret (match r with inl _ => None | inr e => Some e end).

(** A read of the open file at its offset. *)
Definition file_pread (o : osfs) (fd : list string) (off n : nat) : osfs * (bytes + os_error) :=
  path_error (syscall o (λ t, (t, match sys_read fd t with (_, inl c) => inl (take n (drop off c)) | (_, inr e) => inr e end))).

Section Get.
Context {W : Type} `{!IOWriter W}.

(** [io.CopyBuffer] of the [left] next bytes of the open file to the writer; a
    round takes a byte at least, so [left] rounds are enough fuel. *)
Fixpoint copy_out (fuel : nat) (fd : list string) (off left bufSize : nat) (w : W) : px (W * option error) :=
  match fuel, left with
  | S fuel', S _ =>
      r ← px_try (λ o, file_pread o fd off (bufSize `min` left));
      match r with
      | inr e => mret (w, Some (os_err e))
      | inl [] => mret (w, None)
      | inl chunk =>
          let '(w, (nw, err)) := Write w chunk in
          match err with
          | Some e => mret (w, Some e)
          | None =>
              if negb (nw =? zlen chunk) then mret (w, Some (io_ErrShortWrite : error))
              else copy_out fuel' fd (off + length chunk) (left - length chunk) bufSize w
          end
      end
  | _, _ => mret (w, None)
  end.

(** [GetObject] after the read lock is taken. *)
Definition get_read (bucket object : string) (offset length_ : Z) (w : W) : fsx (W * option error) :=
  s ← fs_get;
  '(fr, size) ← fs_call (fsOpenFile (fsObjPath s bucket object) offset) (λ e, objErr (traced e) [bucket; object]);
  let bufSize := if (0 <? length_) && (length_ <? readSizeV1) then length_ else readSizeV1 in
  let length_ := if length_ <? 0 then int64_wrap (size - offset) else length_ in
  if (size <? offset) || (size <? int64_wrap (offset + length_))
  then fs_fail (traced (InvalidRange offset length_ size))
  else
    '(w, err) ← fs_call (copy_out (Z.to_nat length_) fr (Z.to_nat offset) (Z.to_nat length_) (Z.to_nat bufSize) w) id;
    mret (w, toObjectErr (traceError err []) [bucket; object]).

(** Returns the writer, and the error if it came from the copy; an error before
    the copy leaves the writer alone. *)
Definition fs_GetObject (bucket object : string) (offset length_ : Z) (writer : option W) : fsx (option W * option error) :=
  _ ← lift_err (checkGetObjArgs bucket object);
  _ ← fs_err (λ e, objErr e [bucket]) (statBucketDir bucket);
  if offset <? 0 then fs_fail (objErr (traced errUnexpected) [bucket; object]) else
  match writer with
  | None => fs_fail (objErr (traced errUnexpected) [bucket; object])
  | Some w =>
      let read := '(w, err) ← get_read bucket object offset length_ w; mret (Some w, err) in
      if negb (bool_decide (bucket = minioMetaBucket)) then
        s ← fs_get;
        r ← fs_catch (rwPool_Open (fsMetaPath s bucket object));
        match r with
        | inr e =>
            if negb (err_eqb (Some e) (Some (errFileNotFound : error)))
            then fs_fail (objErr (traced e) [bucket; object])
            else fs_defer read (rwPool_Close (fsMetaPath s bucket object))
        | inl _ => fs_defer read (rwPool_Close (fsMetaPath s bucket object))
        end
      else read
  end.

End Get.

Definition fs_getObjectInfo (bucket object : string) : fsx ObjectInfo :=
  s ← fs_get;
  let path := fsMetaPath s bucket object in
  let finish fsMeta :=
    fi ← fs_call (fsStatFile (fsObjPath s bucket object)) (λ e, objErr (traced e) [bucket; object]);
    mret (ToObjectInfo fsMeta bucket object (Some fi)) in
  r ← fs_catch (rwPool_Open path);
  match r with
  | inl rlk =>
      fs_defer (
        fsMeta ← fs_call (ReadFrom fsMetaV1_zero (rlk_file rlk)) (λ e, objErr e [bucket; object]);
        finish fsMeta) (rwPool_Close path)
  | inr err =>
      if negb (err_eqb (Some err) (Some (errFileNotFound : error)))
      then fs_fail (objErr (traced err) [bucket; object])
      else finish fsMetaV1_zero
  end.

Definition fs_GetObjectInfo (bucket object : string) : fsx ObjectInfo :=
  _ ← lift_err (checkGetObjArgs bucket object);
  _ ← fs_err (λ e, objErr e [bucket]) (statBucketDir bucket);
  fs_getObjectInfo bucket object.

(** [PutObject] once the data is in the temporary file: the digests are
    checked, the file is renamed and the metadata is written. *)
Definition put_finish (bucket object tmpPath : string) (read : bytes) (metadata : gmap string string) (sha256sum : string)
    (wlk : option LockedFile) : fsx ObjectInfo :=
  let newMD5Hex := hex_encode (md5_Sum read) in
  let metadata := if bool_decide (default "" (metadata !! "md5Sum") = "") then <["md5Sum" := newMD5Hex]> metadata else metadata in
  let fsMeta := fsm_set_Meta (newFSMetaV1 ReleaseTag) metadata in
  let md5Hex := default "" (metadata !! "md5Sum") in
  if negb (bool_decide (md5Hex = "")) && negb (bool_decide (newMD5Hex = md5Hex))
  then fs_fail (traced (BadDigest md5Hex newMD5Hex))
  else if negb (bool_decide (sha256sum = "")) && negb (bool_decide (hex_encode (sha256_Sum read) = sha256sum))
  then fs_fail (traced SHA256Mismatch)
  else
    s ← fs_get;
    _ ← fs_call (fsRenameFile tmpPath (fsObjPath s bucket object)) (λ e, objErr e [bucket; object]);
    _ ← match wlk with
        | Some lk => fs_call (WriteTo fsMeta lk) (λ e, objErr e [bucket; object])
        | None => mret 0
        end;
    fi ← fs_call (fsStatFile (fsObjPath s bucket object)) (λ e, objErr (traced e) [bucket; object]);
    mret (ToObjectInfo fsMeta bucket object (Some fi)).

(** [tempObj] is the UUID of the temporary file. *)
Definition fs_PutObject (tempObj : string) (bucket object : string) (size : Z) (data : reader)
    (metadata : gmap string string) (sha256sum : string) : fsx ObjectInfo :=
  bErr ← bucket_err bucket;
  _ ← lift_err (checkPutObjectArgs (λ _, bErr) bucket object);
  _ ← fs_err (λ e, objErr e [bucket]) (statBucketDir bucket);
  s ← fs_get;
  wlk ← (if negb (bool_decide (bucket = minioMetaBucket))
         then lk ← fs_err (λ e, objErr e [bucket; object]) (rwPool_Create (fsMetaPath s bucket object)); mret (Some lk)
         else mret None);
  let limitDataReader := if 0 <? size then io_LimitReader data size else data in
  let bufSize := if (0 <? size) && (size <? readSizeV1) then size else readSizeV1 in
  let tmpPath := pathJoin [fsPath s; minioMetaTmpBucket; fsUUID s; tempObj] in
  r ← fs_try (fsCreateFile tmpPath limitDataReader (Z.to_nat bufSize) size);
  match r with
  | inr err => _ ← fs_try (fsRemoveFile tmpPath); fs_fail (objErr err [bucket; object])
  | inl bytesWritten =>
      if bytesWritten <? size then _ ← fs_try (fsRemoveFile tmpPath); fs_fail (traced (IncompleteBody "" ""))
      else
        fs_defer (put_finish bucket object tmpPath (rd_data limitDataReader) metadata sha256sum wlk)
          (fs_try (fsRemoveFile tmpPath))
  end.

(** The data goes through a pipe: what [GetObject] writes is what [PutObject]
    reads, and an error of [GetObject] ends it.  The put only renames once the
    pipe has ended, so that the get comes first here. *)
Definition fs_CopyObject (tempObj srcBucket srcObject dstBucket dstObject : string) (metadata : gmap string string) : fsx ObjectInfo :=
  _ ← fs_err (λ e, objErr e [srcBucket]) (statBucketDir srcBucket);
  s ← fs_get;
  fi ← fs_call (fsStatFile (fsObjPath s srcBucket srcObject)) (λ e, objErr (traced e) [srcBucket; srcObject]);
  if strings_EqualFold (pathJoin [srcBucket; srcObject]) (pathJoin [dstBucket; dstObject]) then
    wlk ← fs_err (λ e, objErr e [srcBucket; srcObject]) (rwPool_Write (fsMetaPath s srcBucket srcObject));
    let fsMeta := fsm_set_Meta (newFSMetaV1 ReleaseTag) metadata in
    _ ← fs_call (WriteTo fsMeta wlk) (λ e, objErr e [srcBucket; srcObject]);
    mret (ToObjectInfo fsMeta srcBucket srcObject (Some fi))
  else
    let length_ := fi_Size fi in
    r ← fs_catch (fs_GetObject (W := bytes) srcBucket srcObject 0 length_ (Some []));
    let pipeReader :=
      match r with
      | inr gerr => {| rd_data := []; rd_err := gerr |}
      | inl (w, gerr) => {| rd_data := default [] w; rd_err := default (io_EOF : error) gerr |}
      end in
    fs_err (λ e, objErr e [dstBucket; dstObject]) (fs_PutObject tempObj dstBucket dstObject length_ pipeReader metadata "").

Definition fs_DeleteObject (bucket object : string) : fsx unit :=
  _ ← lift_err (checkDelObjArgs bucket object);
  _ ← fs_err (λ e, objErr e [bucket]) (statBucketDir bucket);
  s ← fs_get;
  let path := fsMetaPath s bucket object in
  _ ← (if negb (bool_decide (bucket = minioMetaBucket)) then
         r ← fs_catch (rwPool_Write path);
         match r with
         | inr lerr => if negb (err_eqb (Some lerr) (Some (errFileNotFound : error))) then fs_fail (objErr lerr [bucket; object]) else mret ()
         | inl _ => mret ()
         end
       else mret ());
  _ ← fs_call (fsDeleteFile (pathJoin [fsPath s; bucket]) (fsObjPath s bucket object)) (λ e, objErr (traced e) [bucket; object]);
  if negb (bool_decide (bucket = minioMetaBucket)) then
    r ← fs_try (fsDeleteFile (pathJoin [fsPath s; minioMetaBucket]) path);
    match r with
    | inr err => if negb (err_eqb (Some err) (Some (errFileNotFound : error))) then fs_fail (objErr (traced err) [bucket; object]) else mret ()
    | inl _ => mret ()
    end
  else mret ().

End FS.
