(* ===== verification/FSSpec.v ===== *)
(** * What the helpers of the FS backend do without faults

    The helpers of [FSFiles] on a file system whose calls succeed, as changes of
    the tree of files. *)

From S2P Require Import Prelude.
From S2P Require Import GoErrors.
From S2P Require Import GoStrings.
From S2P Require Import XLMeta.
From S2P Require Import Storage.
From S2P Require Import Erasure.
From S2P Require Import XorCode.
From S2P Require Import ErasureSpec.
From S2P Require Import ObjectNames.
From S2P Require Import XLObject.
From S2P Require Import XLPut.
From S2P Require Import Format.
From S2P Require Import OSFiles.
From S2P Require Import OSTrees.
From S2P Require Import Posix.
From S2P Require Import PosixSpec.
From S2P Require Import PosixOps.
From S2P Require Import FSFiles.
From S2P Require Import FSObjects.

Local Open Scope Z_scope.

(** No call will fail. *)
Record calm (p : posix) : Prop := {
  calm_faults : os_faults (px_os p) = [];
  calm_tree : tree_ok (px_tree p);
}.

Lemma calm_with p t : calm p → tree_ok t → calm (with_tree p t).
Proof. by intros [Hf _] Ht. Qed.

Lemma with_twice p t t' : with_tree (with_tree p t) t' = with_tree p t'.
Proof. done. Qed.

Lemma tree_with p t : px_tree (with_tree p t) = t.
Proof. done. Qed.

(** What goes on after a call. *)
Lemma px_bind_run {A B} (m : px A) (f : A → px B) p p' a : m p = (p', inl a) → (m ≫= f) p = f a p'.
Proof. intros E. unfold mbind, px_bind. by rewrite E. Qed.

Lemma px_bind_fail {A B} (m : px A) (f : A → px B) p p' e : m p = (p', inr e) → (m ≫= f) p = (p', inr e).
Proof. intros E. unfold mbind, px_bind. by rewrite E. Qed.

Lemma px_call_run {A} (f : osfs → osfs * (A + os_error)) conv p t r : f (px_os p) = (set_tree (px_os p) t, inl r) →
  px_call f conv p = (with_tree p t, inl r).
Proof. intros E. unfold px_call. by rewrite E. Qed.

Lemma px_call_same {A} (f : osfs → osfs * (A + os_error)) conv p r : f (px_os p) = (px_os p, inl r) →
  px_call f conv p = (p, inl r).
Proof. intros E. unfold px_call. by rewrite E, set_os_id. Qed.

Lemma px_call_err {A} (f : osfs → osfs * (A + os_error)) conv p e : f (px_os p) = (px_os p, inr e) →
  px_call f conv p = (p, inr (conv e)).
Proof. intros E. unfold px_call. by rewrite E, set_os_id. Qed.

Section Helpers.
Context `{OSTimes, MapOrder}.
Context (p : posix) (Hp : calm p).

Let t := px_tree p.

Lemma abs_ne es : bool_decide (abs_path es = "") = false.
Proof. by apply bool_decide_false. Qed.

Lemma nop_ok conv : px_call (px_raw sys_nop) conv p = (p, inl ()).
Proof. apply px_call_same. unfold px_raw. rewrite syscall_ok by apply Hp. simpl. by rewrite set_tree_id. Qed.

Section At.
Context (es : list string) (Hes : os_name es) (Hne : es ≠ []).

Lemma length_ok : px_checkPathLength (abs_path es) p = (p, inl ()).
Proof. by apply (px_checkPathLength_abs es false). Qed.

Lemma there_parent n : t !! es = Some n → t !! removelast es = Some NDir.
Proof. intros Hn. apply tree_parent; [apply Hp|done|by eexists]. Qed.

Lemma there_free n : t !! es = Some n → no_file_above t es.
Proof. intros Hn. apply no_file_above_dir; [apply Hp|by eapply there_parent]. Qed.

Lemma stat_ok n : t !! es = Some n → os_Stat (px_os p) (abs_path es) = (px_os p, inl (finfo t (abs_path es) n)).
Proof.
  intros Hn. rewrite (os_Stat_ok _ es (calm_faults _ Hp) (calm_tree _ Hp) Hes false (there_free n Hn)). unfold t, px_tree in Hn.
  rewrite Hn. by destruct n.
Qed.

Lemma stat_none : no_file_above t es → t !! es = None → os_Stat (px_os p) (abs_path es) = (px_os p, inr (PathError ENOENT)).
Proof.
  intros Hf Hn. rewrite (os_Stat_ok _ es (calm_faults _ Hp) (calm_tree _ Hp) Hes false Hf). unfold t, px_tree in Hn. by rewrite Hn.
Qed.

Lemma open_ok n : t !! es = Some n → os_Open (px_os p) (abs_path es) = (px_os p, inl es).
Proof.
  intros Hn. rewrite (os_Open_ok _ es (calm_faults _ Hp) (calm_tree _ Hp) Hes false (there_free n Hn)). unfold t, px_tree in Hn.
  rewrite Hn. by destruct n.
Qed.

Lemma open_none : no_file_above t es → t !! es = None → os_Open (px_os p) (abs_path es) = (px_os p, inr (PathError ENOENT)).
Proof.
  intros Hf Hn. rewrite (os_Open_ok _ es (calm_faults _ Hp) (calm_tree _ Hp) Hes false Hf). unfold t, px_tree in Hn. by rewrite Hn.
Qed.

Lemma fsStatDir_ok : t !! es = Some NDir → fsStatDir (abs_path es) p = (p, inl (finfo t (abs_path es) NDir)).
Proof.
  intros Hn. unfold fsStatDir. rewrite abs_ne. erewrite px_bind_run by apply length_ok.
  erewrite px_bind_run by (apply px_call_same, (stat_ok _ Hn)). done.
Qed.

Lemma fsStatFile_ok c : t !! es = Some (NFile c) → fsStatFile (abs_path es) p = (p, inl (finfo t (abs_path es) (NFile c))).
Proof.
  intros Hn. unfold fsStatFile. rewrite abs_ne. erewrite px_bind_run by apply length_ok.
  erewrite px_bind_run by (apply px_call_same, (stat_ok _ Hn)). done.
Qed.

(** A file that is there, opened with a lock. *)
Lemma RLockedOpenFile_ok c : t !! es = Some (NFile c) →
  RLockedOpenFile (abs_path es) p = (p, inl (newRLockedFile {| lk_fd := es; lk_size := zlen c |})).
Proof.
  intros Hn. unfold RLockedOpenFile, LockedOpenFile. erewrite px_bind_run; [done|].
  erewrite px_bind_run by (apply px_call_same, (open_ok _ Hn)). erewrite px_bind_run by apply nop_ok.
  erewrite px_bind_run by (apply px_call_same, (stat_ok _ Hn)). done.
Qed.

Lemma RLockedOpenFile_none : no_file_above t es → t !! es = None →
  RLockedOpenFile (abs_path es) p = (p, inr (system_err (PathError ENOENT))).
Proof.
  intros Hf Hn. unfold RLockedOpenFile, LockedOpenFile. erewrite px_bind_fail; [done|].
  erewrite px_bind_fail; [done|]. by apply px_call_err, open_none.
Qed.

Lemma fsRemoveFile_none : t !! removelast es = Some NDir → t !! es = None →
  fsRemoveFile (abs_path es) p = (p, inr (server_err errFileNotFound)).
Proof.
  intros Hd Hn. unfold fsRemoveFile. rewrite abs_ne. erewrite px_bind_run by apply length_ok.
  erewrite px_call_err; [|rewrite (os_Remove_ok _ es (calm_faults _ Hp) (calm_tree _ Hp) Hes Hne Hd); unfold t, px_tree in Hn; by rewrite Hn]. done.
Qed.

Lemma fsOpenFile_ok off c : 0 ≤ off → t !! es = Some (NFile c) → fsOpenFile (abs_path es) off p = (p, inl (es, zlen c)).
Proof.
  intros Hoff Hn. unfold fsOpenFile. rewrite abs_ne. destruct (off <? 0) eqn:E; [apply Z.ltb_lt in E; lia|]. cbn [orb].
  erewrite px_bind_run by apply length_ok. erewrite px_bind_run by (apply px_call_same, (open_ok _ Hn)).
  erewrite px_bind_run.
  2: { apply px_call_same. unfold file_Stat, path_error. rewrite syscall_ok by apply Hp. unfold t, px_tree in Hn. rewrite Hn. cbn [fst snd]. by rewrite set_tree_id. }
  cbn [fi_IsDir finfo]. rewrite bool_decide_false by done. destruct (0 <? off); erewrite px_bind_run; try done.
  apply px_call_same. unfold path_error. rewrite syscall_ok by apply Hp. simpl. by rewrite set_tree_id.
Qed.

(** The directories above a name, and the file. *)
Lemma MkdirAll_ok : no_file_above t es →
  os_MkdirAll (px_os p) (path_Dir (abs_path es)) = (set_tree (px_os p) (t ∪ dirs_map (removelast es)), inl ()).
Proof.
  intros Hf. destruct (path_Dir_name es Hes Hne) as [-> Hrn]. apply os_MkdirAll_ok; [apply Hp|apply Hp|done|].
  by apply no_file_above_on.
Qed.

Lemma dirs_tree_ok : no_file_above t es → tree_ok (t ∪ dirs_map (removelast es)).
Proof. intros Hf. apply add_dirs_ok; [apply Hp|]. by apply no_file_above_on. Qed.

Lemma dirs_parent : no_file_above t es → (t ∪ dirs_map (removelast es)) !! removelast es = Some NDir.
Proof.
  intros Hf. rewrite add_dirs_lookup. destruct (t !! removelast es) as [[|c]|] eqn:Ed; [done| |by rewrite decide_True].
  by destruct (no_file_removelast (px_os p) es Hf Hne c).
Qed.

Lemma dirs_same : (t ∪ dirs_map (removelast es)) !! es = t !! es.
Proof. rewrite add_dirs_lookup. destruct (t !! es); [done|]. rewrite decide_False; [done|]. by intros [? _]%prefix_removelast. Qed.

Lemma OpenFile_ok : no_file_above t es → t !! es ≠ Some NDir →
  os_OpenFile (set_tree (px_os p) (t ∪ dirs_map (removelast es))) (abs_path es) true =
    (set_tree (px_os p) (put_file t es (default [] (files t es))), inl es).
Proof.
  intros Hf Hnd. pose proof dirs_same as Hs. pose proof (dirs_parent Hf) as Hpar. pose proof (dirs_tree_ok Hf) as Hok.
  rewrite os_OpenFile_ok; [|apply Hp|done|done|done|done|by cbn [os_tree set_tree]; rewrite Hs]. cbn [os_tree set_tree]. rewrite Hs.
  unfold files, put_file. destruct (t !! es) as [[|c]|] eqn:E; [done| |done]. simpl default. rewrite insert_id; [done|]. by rewrite Hs.
Qed.

End At.
End Helpers.

Section Writes.
Context `{OSTimes, MapOrder}.
Context (p : posix) (Hp : calm p).

Let t := px_tree p.

Section At.
Context (es : list string) (Hes : os_name es) (Hne : es ≠ []).

(** A write to an open file. *)
Lemma file_write_ok f b c : t !! es = Some (NFile c) →
  file_write (px_os p) es f b = (set_tree (px_os p) (<[es := NFile (f c b)]> t), inl (zlen b)).
Proof.
  intros Hc. unfold file_write, put_bytes, set_tree. rewrite (calm_faults _ Hp). unfold t, px_tree in *. rewrite Hc.
  done.
Qed.

Lemma put_bytes_ok c c' : t !! es = Some (NFile c) → tree_ok (<[es := NFile c']> t).
Proof.
  intros Hc. assert (Hd : t !! removelast es = Some NDir) by (apply tree_parent; [apply Hp|done|by eexists]).
  rewrite <- (put_file_same t es c), put_file_twice by (apply Hp || done).
  apply put_file_ok; [done|apply Hp| |by rewrite Hc]. apply no_file_above_dir; [apply Hp|done].
Qed.

End At.
End Writes.

(** The copy of the data, in chunks of the buffer. *)
Lemma write_at_end c b : write_at c (length c) b = c ++ b.
Proof. unfold write_at. rewrite take_ge, Nat.sub_diag, drop_ge by lia. by rewrite app_nil_r. Qed.

Section Copy.
Context `{OSTimes, MapOrder} (es : list string) (Hes : os_name es) (Hne : es ≠ []) (bufSize : nat) (Hbuf : (0 < bufSize)%nat).

Lemma copy_file_ok : ∀ fuel p done_ data, calm p → px_tree p !! es = Some (NFile done_) → (length data ≤ fuel)%nat →
  copy_file fuel es (length done_) {| rd_data := data; rd_err := io_EOF |} bufSize p =
    (with_tree p (<[es := NFile (done_ ++ data)]> (px_tree p)), inl (zlen (done_ ++ data))).
Proof.
  induction fuel as [|fuel IH]; intros p done_ data Hp Hd Hlen; (destruct data as [|x data]; [|try (simpl in Hlen; lia)]).
  1, 2: cbn [copy_file rd_data rd_err]; rewrite app_nil_r, insert_id by done; by rewrite with_tree_id.
  cbn [copy_file rd_data rd_err]. set (data' := x :: data) in *. set (chunk := take bufSize data').
  erewrite px_bind_run by (apply px_call_run, (file_write_ok p Hp es _ _ _ Hd)). cbv beta. rewrite write_at_end, <- length_app.
  pose proof (put_bytes_ok p Hp es Hne done_ (done_ ++ chunk) Hd) as Hok.
  rewrite IH; [|by apply calm_with|apply lookup_insert_eq|].
  - unfold chunk. rewrite <- app_assoc, take_drop, with_twice, tree_with. by rewrite insert_insert_eq.
  - rewrite length_drop. simpl in Hlen |- *. lia.
Qed.

Lemma fsCreateFile_ok p data fallocSize : calm p → no_file_above (px_tree p) es → px_tree p !! es = None →
  fsCreateFile (abs_path es) {| rd_data := data; rd_err := io_EOF |} bufSize fallocSize p =
    (with_tree p (put_file (px_tree p) es data), inl (zlen data)).
Proof.
  intros Hp Hf Hn. unfold fsCreateFile. rewrite abs_ne. erewrite px_bind_run by (by apply length_ok).
  erewrite px_bind_run by (by apply px_call_run, MkdirAll_ok).
  erewrite px_bind_run.
  2: { apply (px_call_run _ _ (with_tree p _) (put_file (px_tree p) es (default [] (files (px_tree p) es)))).
       apply (OpenFile_ok p Hp es Hes Hne Hf). by rewrite Hn. }
  assert (E0 : files (px_tree p) es = None) by (unfold files; by rewrite Hn). rewrite E0. simpl default.
  set (p1 := with_tree _ _). assert (Hp1 : calm p1).
  { apply calm_with; [apply calm_with; [done|by apply dirs_tree_ok]|]. apply put_file_ok; [done|apply Hp|done|by rewrite Hn]. }
  assert (Hrun : (if 0 <? fallocSize then fsFAllocate fallocSize else mret ()) p1 = (p1, inl ())).
  { destruct (0 <? fallocSize) eqn:E; [|done]. apply Z.ltb_lt in E. unfold fsFAllocate, Fallocate.
    rewrite (proj2 (Z.eqb_neq _ _)) by lia. unfold mbind, px_bind, px_try, px_raw. rewrite syscall_ok by apply Hp1. cbn [fst snd].
    rewrite set_tree_id, set_os_id. done. }
  erewrite px_bind_run by apply Hrun. cbn [rd_data].
  assert (Ht1 : px_tree p1 = put_file (px_tree p) es []) by done.
  change 0%nat with (length ([] : bytes)). rewrite copy_file_ok; [|done| |done].
  - rewrite Ht1, put_file_twice. done.
  - rewrite Ht1. unfold put_file. apply lookup_insert_eq.
Qed.

End Copy.

(** ** Files that are moved *)

(** What a change of files does to the directories: none goes, and a new one is
    above the name [k]. *)
Record dirs_grow (k : list string) (t t' : tree) : Prop := {
  dg_ok : tree_ok t';
  dg_old : ∀ k', t !! k' = Some NDir → t' !! k' = Some NDir;
  dg_new : ∀ k', t' !! k' = Some NDir → t !! k' = Some NDir ∨ k' `prefix_of` k ∧ k' ≠ k;
}.

Lemma dirs_grow_put t k c : tree_ok t → k ≠ [] → no_file_above t k → t !! k ≠ Some NDir → dirs_grow k t (put_file t k c).
Proof.
  intros Ht Hne Hf Hnd. split; [by apply put_file_ok|intros k'|intros k']; rewrite put_file_lookup by done.
  - intros Hd. rewrite decide_False by (intros ->; done). by rewrite Hd.
  - destruct (decide (k' = k)) as [|Hk]; [done|]. destruct (t !! k'); [by left|]. destruct (decide _); [|done]. by right.
Qed.

Section Move.
Context (t : tree) (Ht : tree_ok t) (s d : list string) (Hs : s ≠ []) (Hd : d ≠ []) (c : bytes) (Hc : t !! s = Some (NFile c)).
Context (Hf : no_file_above t d) (Hnd : t !! d ≠ Some NDir) (Hsd : ¬ s `prefix_of` d).

Definition moved : tree := move_tree (t ∪ dirs_map (removelast d)) s d.

Let t1 := t ∪ dirs_map (removelast d).

Lemma mv_t1_ok : tree_ok t1.
Proof. apply add_dirs_ok; [done|]. by apply no_file_above_on. Qed.

Lemma mv_t1_src : t1 !! s = Some (NFile c).
Proof. unfold t1. by rewrite add_dirs_lookup, Hc. Qed.

Lemma mv_t1_dst : t1 !! d = t !! d.
Proof. unfold t1. rewrite add_dirs_lookup. destruct (t !! d); [done|]. rewrite decide_False; [done|]. by intros [? _]%prefix_removelast. Qed.

Lemma mv_t1_parent : t1 !! removelast d = Some NDir.
Proof.
  unfold t1. rewrite add_dirs_lookup. destruct (t !! removelast d) as [[|c']|] eqn:E; [done| |by rewrite decide_True].
  destruct (exists_last Hd) as (r & x & Ed). rewrite Ed, removelast_last in E. by destruct (Hf r [x] c').
Qed.

Lemma mv_t1_below r : r ≠ [] → t1 !! (d ++ r) = None.
Proof.
  intros Hr. destruct (t1 !! (d ++ r)) as [n|] eqn:E; [|done]. destruct Hnd. rewrite <- mv_t1_dst.
  apply (tree_above t1 d r mv_t1_ok); [by eexists|done].
Qed.

Lemma mv_src_below r : r ≠ [] → t1 !! (s ++ r) = None.
Proof.
  intros Hr. destruct (t1 !! (s ++ r)) as [n|] eqn:E; [|done].
  pose proof mv_t1_src as Hs'. rewrite (tree_above t1 s r mv_t1_ok) in Hs'; [done|by eexists|done].
Qed.

Lemma moved_lookup k : moved !! k = if decide (k = d) then Some (NFile c) else if decide (k = s) then None else t1 !! k.
Proof.
  unfold moved. rewrite move_tree_lookup; [|done|apply mv_t1_below|exists (NFile c); apply mv_t1_src]. fold t1.
  destruct (below_dir d k) as [r|] eqn:E1.
  - apply below_dir_Some in E1 as ->. destruct (decide (r = [])) as [->|Hr].
    + rewrite !app_nil_r, decide_True by done. apply mv_t1_src.
    + rewrite mv_src_below, decide_False by (done || (intros E; apply Hr; by apply (app_inv_head d); rewrite app_nil_r)).
      rewrite mv_t1_below by done. by destruct (decide _).
  - apply below_dir_None in E1. rewrite decide_False by (intros ->; by destruct E1).
    destruct (below_dir s k) as [r|] eqn:E2.
    + apply below_dir_Some in E2 as ->. destruct (decide (s ++ r = s)) as [|Hr]; [done|].
      rewrite mv_src_below; [done|]. intros ->. by rewrite app_nil_r in Hr.
    + apply below_dir_None in E2. rewrite decide_False by (intros ->; by destruct E2). done.
Qed.

Lemma moved_ok : tree_ok moved.
Proof.
  apply move_tree_ok; [apply mv_t1_ok|done|done|exists (NFile c); apply mv_t1_src|apply mv_t1_parent|done|apply mv_t1_below].
Qed.

Lemma moved_files k : files moved k = if decide (k = d) then Some c else if decide (k = s) then None else files t k.
Proof.
  unfold files at 1. rewrite moved_lookup. destruct (decide (k = d)); [done|]. destruct (decide (k = s)); [done|].
  rewrite <- (add_dirs_files t (removelast d) k). done.
Qed.

Lemma moved_dirs : dirs_grow d t moved.
Proof.
  split; [apply moved_ok|intros k Hk|intros k]; rewrite moved_lookup.
  - rewrite !decide_False by (intros ->; congruence). unfold t1. by rewrite add_dirs_lookup, Hk.
  - destruct (decide (k = d)); [done|]. destruct (decide (k = s)); [done|]. unfold t1. rewrite add_dirs_lookup.
    destruct (t !! k); [by left|]. destruct (decide _) as [Hp|]; [|done]. right. by apply prefix_removelast in Hp as [? ?].
Qed.

End Move.

Section Renames.
Context `{OSTimes, MapOrder, FSJson}.
Context (p : posix) (Hp : calm p).

Let t := px_tree p.

Lemma fsRenameFile_ok s d c : os_name s → os_name d → s ≠ [] → d ≠ [] → t !! s = Some (NFile c) → no_file_above t d →
  t !! d ≠ Some NDir → ¬ s `prefix_of` d → fsRenameFile (abs_path s) (abs_path d) p = (with_tree p (moved t s d), inl ()).
Proof.
  intros Hs Hd Hsne Hdne Hc Hf Hnd Hsd. unfold fsRenameFile. erewrite px_bind_run by (by apply px_call_run, MkdirAll_ok).
  apply (px_call_run _ _ (with_tree p _)). pose proof (mv_t1_dst t d Hdne Hnd) as Hdst.
  rewrite (os_Rename_ok _ s d (NFile c)); try done.
  - apply Hp.
  - by apply (mv_t1_ok t (calm_tree _ Hp) d Hdne Hf).
  - by apply mv_t1_src.
  - by apply mv_t1_parent.
  - cbn [os_tree set_tree px_os with_tree set_os]. fold t. rewrite Hdst. destruct (t !! d) as [[|c']|]; [done| |by left]. right. by exists c, c'.
Qed.

(** The metadata replaces what was in the file. *)
Lemma WriteTo_ok m js es c size : fs_Marshal m = inl js → es ≠ [] → t !! es = Some (NFile c) →
  WriteTo m {| lk_fd := es; lk_size := size |} p = (with_tree p (<[es := NFile js]> t), inl (zlen js)).
Proof.
  intros Hjs Hne Hc. unfold WriteTo. rewrite Hjs. cbn [lk_fd].
  erewrite px_bind_run.
  2: { apply (px_call_run _ _ p (<[es := NFile []]> t)). unfold file_Truncate, path_error. rewrite syscall_ok by apply Hp.
       unfold put_bytes. cbn [fst snd]. unfold t, px_tree in Hc |- *. by rewrite Hc. }
  assert (Hp1 : calm (with_tree p (<[es := NFile []]> t))) by (apply calm_with; [done|by eapply put_bytes_ok]).
  erewrite px_bind_run by (apply px_call_run, (file_write_ok _ Hp1 es _ _ []); by rewrite tree_with, lookup_insert_eq).
  rewrite with_twice, tree_with, insert_insert_eq. unfold write_at. simpl. by rewrite drop_nil, app_nil_r.
Qed.

Lemma ReadFrom_ok m0 m js es : fs_Unmarshal js m0 = (m, None) → js ≠ [] → t !! es = Some (NFile js) →
  ReadFrom m0 {| lk_fd := es; lk_size := zlen js |} p = (p, inl m).
Proof.
  intros Hu Hne Hc. unfold ReadFrom, read_section. cbn [lk_size lk_fd].
  rewrite (proj2 (Z.eqb_neq _ _)) by (unfold zlen; destruct js; [done|simpl; lia]).
  erewrite px_bind_run.
  2: { unfold px_conv. erewrite px_bind_run; [done|]. apply px_call_same. by apply file_read_ok; [apply Hp|]. }
  rewrite take_ge by (unfold zlen; lia). by rewrite bool_decide_false, Hu.
Qed.

End Renames.
