(* ===== verification/FSPut.v ===== *)
(** * Putting and getting objects of the FS backend

    What [PutObject] stores, [GetObject] and [GetObjectInfo] return, when no
    call of the system fails. *)

From S2P Require Import Prelude.
From S2P Require Import GoErrors.
From S2P Require Import GoStrings.
From S2P Require Import XLMeta.
From S2P Require Import Storage.
From S2P Require Import Erasure.
From S2P Require Import XorCode.
From S2P Require Import ErasureSpec.
From S2P Require Import ObjectNames.
From S2P Require Import DiskContract.
From S2P Require Import XLObject.
From S2P Require Import XLPut.
From S2P Require Import Format.
From S2P Require Import OSFiles.
From S2P Require Import OSTrees.
From S2P Require Import Posix.
From S2P Require Import PosixSpec.
From S2P Require Import PosixOps.
From S2P Require Import FSFiles.
From S2P Require Import FSObjects.
From S2P Require Import FSSpec.

Local Open Scope Z_scope.

(** ** Paths *)

Lemma Join_parts parts : Forall clean_path parts → Join parts "/" = Join (concat ((λ q, Split q "/") <$> parts)) "/".
Proof.
  induction parts as [|q parts IH]; intros Hall; [done|]. apply Forall_cons in Hall as [Hq Hall]. cbn [fmap list_fmap concat].
  destruct parts as [|q2 parts]; [cbn [concat fmap list_fmap]; rewrite app_nil_r; by rewrite Join_Split|].
  rewrite Join_cons_ne, IH by done. rewrite Join_app; [by rewrite Join_Split|apply Split_ne|].
  cbn. intros [E _]%app_eq_nil. by apply (Split_ne q2).
Qed.

Lemma parts_plain parts : Forall clean_path parts → Forall plain_elem (concat ((λ q, Split q "/") <$> parts)).
Proof.
  induction parts as [|q parts IH]; intros Hall; [constructor|]. apply Forall_cons in Hall as [Hq Hall]. cbn.
  apply Forall_app. split; [exact Hq|by apply IH].
Qed.

(** A path below an absolute one, given in parts. *)
Lemma pathJoin_parts es parts : Forall plain_elem es → Forall clean_path parts → parts ≠ [] →
  pathJoin (abs_path es :: parts) = abs_path (es ++ concat ((λ q, Split q "/") <$> parts)).
Proof.
  intros Hes Hall Hne. pose proof (parts_plain parts Hall) as Hpl.
  assert (Hc : concat ((λ q, Split q "/") <$> parts) ≠ []).
  { destruct parts as [|q parts]; [done|]. cbn. intros [E _]%app_eq_nil. by apply (Split_ne q). }
  rewrite <- (proj1 (pathJoin_abs es _ Hes Hpl Hc)), <- Join_parts by done. unfold pathJoin, slashSeparator. f_equal.
  - unfold path_Join. rewrite (filter_all _ [_; _]), (filter_all _ (_ :: parts)).
    + rewrite (Join_cons_ne _ parts) by done. done.
    + intros x [->|Hx]%elem_of_cons; [done|]. rewrite Forall_forall in Hall. by apply clean_path_ne, Hall.
    + intros x. rewrite elem_of_cons, list_elem_of_singleton. intros [->| ->]; [done|]. rewrite Join_parts by done. intros E.
      pose proof (Split_rel _ Hpl) as [_ E2]. rewrite E in E2. by destruct (concat _).
  - destruct (exists_last Hne) as (fs & x & ->). rewrite app_comm_cons, last_snoc. cbn [last].
    apply Forall_app in Hall as [Hf Hx]. apply Forall_cons in Hx as [Hx _]. rewrite (clean_no_slash x Hx).
    rewrite Join_parts by (apply Forall_app; by repeat constructor). by rewrite Join_no_trailing.
Qed.

(** ** JSON *)

Definition utf8 (s : string) : Prop := valid_utf8 (length (bytes_of_string s)) (bytes_of_string s) = true.

(** JSON keeps strings of UTF-8. *)
Definition meta_utf8 (m : fsMetaV1) : Prop :=
  utf8 (fsm_Version m) ∧ utf8 (fsm_Format m) ∧ utf8 (fsm_Release m) ∧ map_Forall (λ k v, utf8 k ∧ utf8 v) (fsm_Meta m) ∧
  Forall (λ p, utf8 (PartName p) ∧ utf8 (ETag p)) (fsm_Parts m).

Class FSJsonContract `{FSJson} : Prop := {
  fs_json_ok : ∀ m, meta_utf8 m → ∃ js, fs_Marshal m = inl js ∧ js ≠ [] ∧ fs_Unmarshal js fsMetaV1_zero = (m, None);
}.

(** ** Methods *)

Definition fs_tree (s : fsObjects) : tree := os_tree (fs_os s).
Definition fs_with (s : fsObjects) (t : tree) : fsObjects := fs_set_os s (set_tree (fs_os s) t).

Lemma fs_with_id s : fs_with s (fs_tree s) = s.
Proof. destruct s as [? ? ? ? ? []]. done. Qed.

Lemma fs_with_twice s t t' : fs_with (fs_with s t) t' = fs_with s t'.
Proof. done. Qed.

Lemma fs_bind_run {A B} (m : fsx A) (f : A → fsx B) s s' a : m s = (s', inl a) → (m ≫= f) s = f a s'.
Proof. intros E. unfold mbind, fsx_bind. by rewrite E. Qed.

Lemma fs_try_run {A} (m : px A) s t r : m (fs_px s) = (with_tree (fs_px s) t, r) →
  fs_try m s = (fs_with s t, inl (match r with inl a => inl a | inr e => inr (perr_err e) end)).
Proof. intros E. unfold fs_try. by rewrite E. Qed.

Lemma fs_call_run {A} (m : px A) conv s t a : m (fs_px s) = (with_tree (fs_px s) t, inl a) → fs_call m conv s = (fs_with s t, inl a).
Proof. intros E. unfold fs_call. erewrite fs_bind_run by (by apply fs_try_run). done. Qed.

Lemma fs_call_same {A} (m : px A) conv s a : m (fs_px s) = (fs_px s, inl a) → fs_call m conv s = (s, inl a).
Proof.
  intros E. rewrite (fs_call_run m conv s (fs_tree s) a); [by rewrite fs_with_id|]. rewrite E. f_equal. symmetry.
  apply (with_tree_id (fs_px s)).
Qed.

Lemma fs_err_run {A} conv (m : fsx A) s s' a : m s = (s', inl a) → fs_err conv m s = (s', inl a).
Proof. intros E. unfold fs_err. by rewrite E. Qed.

Lemma fs_catch_run {A} (m : fsx A) s s' r : m s = (s', r) → fs_catch m s = (s', inl r).
Proof. intros E. unfold fs_catch. by rewrite E. Qed.

Lemma fs_defer_run {A B} (m : fsx A) (d : fsx B) s s1 s2 r b : m s = (s1, r) → d s1 = (s2, b) → fs_defer m d s = (s2, r).
Proof. intros E1 E2. unfold fs_defer. by rewrite E1, E2. Qed.

(** No call will fail, and the layer is at [base]. *)
Record fs_calm (base : list string) (s : fsObjects) : Prop := {
  fc_path : fsPath s = abs_path base;
  fc_calm : calm (fs_px s);
}.

Lemma fs_calm_with base s t : fs_calm base s → tree_ok t → fs_calm base (fs_with s t).
Proof. intros [Hp [Hf _]] Ht. by split. Qed.

(** ** Names *)

Section Names.
Context (base : list string) (bucket object : string).

Definition bucket_key : list string := base ++ [bucket].
Definition object_key : list string := base ++ bucket :: Split object "/".
Definition meta_key : list string := base ++ [minioMetaBucket; bucketMetaPrefix; bucket] ++ Split object "/" ++ [fsMetaJSONFile].
Definition tmp_key (uuid temp : string) : list string := base ++ [minioMetaBucket; "tmp"; uuid; temp].

(** Names of a bucket and an object that fit in the file system. *)
Record fs_names : Prop := {
  fn_base : Forall plain_elem base;
  fn_bucket : IsValidBucketName bucket = true ∧ plain_elem bucket ∧ bucket ≠ minioMetaBucket;
  fn_object : IsValidObjectName object = true ∧ clean_path object;
  fn_names : os_name object_key ∧ os_name meta_key;
}.

Context (Hn : fs_names).

Lemma bucket_name : os_name bucket_key.
Proof. unfold bucket_key. apply (os_name_app_l _ (Split object "/")). rewrite <- app_assoc. apply Hn. Qed.

Lemma fs_consts_clean : clean_path minioMetaBucket ∧ clean_path bucketMetaPrefix ∧ clean_path fsMetaJSONFile ∧ clean_path minioMetaTmpBucket.
Proof. split_and!; by apply (bool_decide_unpack _). Qed.

Lemma bucket_clean : clean_path bucket.
Proof. apply clean_path_plain, Hn. Qed.

Lemma bucket_path : pathJoin [abs_path base; bucket] = abs_path bucket_key.
Proof.
  rewrite (pathJoin_parts base [bucket]); [|apply Hn|repeat constructor; apply bucket_clean|done]. cbn.
  by rewrite Split_plain by apply Hn.
Qed.

Lemma object_path : pathJoin [abs_path base; bucket; object] = abs_path object_key.
Proof.
  rewrite (pathJoin_parts base [bucket; object]); [|apply Hn|repeat constructor; [apply bucket_clean|apply Hn]|done]. cbn.
  by rewrite Split_plain, app_nil_r by apply Hn.
Qed.

Lemma meta_path : pathJoin [abs_path base; minioMetaBucket; bucketMetaPrefix; bucket; object; fsMetaJSONFile] = abs_path meta_key.
Proof.
  destruct fs_consts_clean as (H1 & H2 & H3 & _).
  rewrite (pathJoin_parts base); [|apply Hn|rewrite !Forall_cons; split_and!; [done|done|apply bucket_clean|apply Hn|done|by apply Forall_nil]|done].
  cbn [fmap list_fmap concat]. rewrite (Split_plain bucket) by apply Hn. done.
Qed.

Lemma tmp_path uuid temp : plain_elem uuid → plain_elem temp →
  pathJoin [abs_path base; minioMetaTmpBucket; uuid; temp] = abs_path (tmp_key uuid temp).
Proof.
  intros Hu Ht. destruct fs_consts_clean as (_ & _ & _ & H4).
  rewrite (pathJoin_parts base); [|apply Hn|rewrite !Forall_cons; split_and!; [done|by apply clean_path_plain|by apply clean_path_plain|by apply Forall_nil]|done].
  cbn [fmap list_fmap concat]. by rewrite (Split_plain uuid), (Split_plain temp) by (apply Hu || apply Ht).
Qed.

(** The names are apart. *)
Lemma object_not_meta r : object_key ≠ base ++ minioMetaBucket :: r.
Proof. unfold object_key. intros E%app_inv_head. injection E as E _. by apply Hn in E. Qed.

Lemma meta_not_tmp uuid temp : meta_key ≠ tmp_key uuid temp ∧ ¬ tmp_key uuid temp `prefix_of` object_key.
Proof.
  split; [by intros E%app_inv_head|]. intros [r E]. unfold tmp_key in E. rewrite <- app_assoc in E. by apply object_not_meta in E.
Qed.

End Names.

(** ** Names that are apart *)

Definition apart (a b : list string) : Prop := ¬ a `prefix_of` b ∧ ¬ b `prefix_of` a.

Lemma apart_at (pre : list string) x y ra rb : x ≠ y → apart (pre ++ x :: ra) (pre ++ y :: rb).
Proof. intros Hne. split; intros [r E]; rewrite <- app_assoc in E; apply app_inv_head in E; simplify_eq/=. Qed.

Lemma apart_ne a b : apart a b → a ≠ b.
Proof. intros [Ha _] ->. by apply Ha. Qed.

Lemma put_file_apart t k c q : k ≠ [] → apart k q → put_file t k c !! q = t !! q.
Proof.
  intros Hk Ha. rewrite put_file_lookup, decide_False by (done || intros ->; by apply (apart_ne _ _ Ha)).
  destruct (t !! q); [done|]. rewrite decide_False by apply Ha. done.
Qed.

(** A file that is put at a name apart does not get in the way. *)
Lemma free_stays t t' k q : (∀ a, a ≠ k → files t' a = files t a) → ¬ k `prefix_of` q → no_file_above t q → no_file_above t' q.
Proof.
  intros Hf Hk Hq a r c -> Hr Hc. apply (Hq a r c eq_refl Hr). apply files_Some. rewrite <- Hf; [by apply files_Some|].
  intros ->. apply Hk. by exists r.
Qed.

Lemma free_put t k c q : k ≠ [] → apart k q → no_file_above t q → no_file_above (put_file t k c) q.
Proof.
  intros Hk [Ha _] Hq. apply (free_stays t _ k q); [|done|done]. intros a Hne. by rewrite put_file_files, decide_False.
Qed.

Lemma moved_apart t s d c q : tree_ok t → s ≠ [] → d ≠ [] → t !! s = Some (NFile c) → no_file_above t d → t !! d ≠ Some NDir →
  ¬ s `prefix_of` d → apart s q → apart d q → moved t s d !! q = t !! q.
Proof.
  intros Ht Hs Hd Hc Hf Hnd Hsd Has Had. rewrite (moved_lookup t Ht s d Hd c Hc Hf Hnd Hsd).
  rewrite decide_False by (intros E; by apply (apart_ne _ _ Had)). rewrite decide_False by (intros E; by apply (apart_ne _ _ Has)).
  rewrite add_dirs_lookup. destruct (t !! q); [done|].
  rewrite decide_False; [done|]. intros [_ Hp]%prefix_removelast; [|done]. by apply Had.
Qed.

(** ** PutObject *)

Section Put.
Context `{OSTimes, MapOrder, FSJson, Hashes} `{!FSJsonContract}.
Context (ReleaseTag : string) (md5_Sum : bytes → bytes) (mimedb_DB : string → option string).
Context (base : list string) (bucket object : string) (Hn : fs_names base bucket object).

Abbreviation ko := (object_key base bucket object).
Abbreviation mk := (meta_key base bucket object).
Abbreviation kb := (bucket_key base bucket).

Lemma ko_ne : ko ≠ [].
Proof. unfold object_key. by destruct base. Qed.

Lemma mk_ne : mk ≠ [].
Proof. unfold meta_key. by destruct base. Qed.

Lemma kb_ne : kb ≠ [].
Proof. unfold bucket_key. by destruct base. Qed.

Lemma ko_mk_apart : apart ko mk.
Proof. apply apart_at. apply Hn. Qed.

Section State.
Context (s : fsObjects) (Hs : fs_calm base s).

Lemma fsObjPath_ok : fsObjPath s bucket object = abs_path ko.
Proof. unfold fsObjPath. rewrite (fc_path _ _ Hs). by apply object_path. Qed.

Lemma fsMetaPath_ok : fsMetaPath s bucket object = abs_path mk.
Proof. unfold fsMetaPath. rewrite (fc_path _ _ Hs). by apply meta_path. Qed.

Lemma statBucketDir_ok : fs_tree s !! kb = Some NDir → ∃ fi, statBucketDir bucket s = (s, inl fi).
Proof.
  intros Hd. eexists. unfold statBucketDir. erewrite fs_bind_run.
  2: { unfold getBucketDir. rewrite (proj1 (fn_bucket _ _ _ Hn)). cbn [negb]. unfold fs_get. by erewrite fs_bind_run. }
  rewrite (fc_path _ _ Hs), (bucket_path _ _ _ Hn). apply fs_call_same.
  apply (fsStatDir_ok (fs_px s) (fc_calm _ _ Hs) kb (bucket_name _ _ _ Hn) kb_ne Hd).
Qed.

(** The metadata file is created, or is there. *)
Lemma rwPool_Create_ok : no_file_above (fs_tree s) mk → fs_tree s !! mk ≠ Some NDir →
  ∃ size, rwPool_Create (abs_path mk) s =
    (fs_with s (put_file (fs_tree s) mk (default [] (files (fs_tree s) mk))), inl {| lk_fd := mk; lk_size := size |}).
Proof.
  intros Hf Hnd. pose proof (fc_calm _ _ Hs) as Hc. pose proof (proj2 (fn_names _ _ _ Hn)) as Hname. pose proof mk_ne as Hne.
  set (t1 := put_file _ _ _). assert (Ht1 : tree_ok t1) by (apply put_file_ok; [done|apply Hc|done|done]).
  assert (Hmk : t1 !! mk = Some (NFile (default [] (files (fs_tree s) mk)))) by apply lookup_insert_eq.
  eexists. unfold rwPool_Create, checkPathLength. rewrite checkPathLength_abs by done. erewrite fs_bind_run by done.
  erewrite fs_bind_run by (apply fs_call_run, px_call_run, (MkdirAll_ok (fs_px s) Hc mk Hname Hne Hf)).
  apply (fs_call_run _ _ (fs_with s _) t1). unfold px_conv, LockedOpenFile.
  erewrite px_bind_run.
  2: { apply (px_call_run _ _ (fs_px (fs_with s _)) t1). apply (OpenFile_ok (fs_px s) Hc mk Hname Hne Hf Hnd). }
  assert (Hc1 : calm (with_tree (fs_px s) t1)) by (by apply calm_with).
  erewrite px_bind_run by (apply (nop_ok (with_tree (fs_px s) t1) Hc1)).
  erewrite px_bind_run by (apply px_call_same, (stat_ok (with_tree (fs_px s) t1) Hc1 mk Hname Hne _ Hmk)).
  done.
Qed.

End State.

(** What is stored with the object. *)
Definition put_metadata (content : bytes) (metadata : gmap string string) : gmap string string :=
  if bool_decide (default "" (metadata !! "md5Sum") = "") then <["md5Sum" := hex_encode (md5_Sum content)]> metadata else metadata.

Definition put_fsMeta (content : bytes) (metadata : gmap string string) : fsMetaV1 :=
  fsm_set_Meta (newFSMetaV1 ReleaseTag) (put_metadata content metadata).

(** The digests that the client gave are those of the content. *)
Definition digests_ok (content : bytes) (metadata : gmap string string) (sha256sum : string) : Prop :=
  default "" (put_metadata content metadata !! "md5Sum") = hex_encode (md5_Sum content) ∧
  (sha256sum = "" ∨ sha256sum = hex_encode (sha256_Sum content)).

(** The object can be put under the temporary name [temp]: its name, that of
    its metadata and the temporary one are free. *)
Record put_ready (s : fsObjects) (temp : string) : Prop := {
  pr_calm : fs_calm base s;
  pr_bucket : fs_tree s !! kb = Some NDir;
  pr_object : no_file_above (fs_tree s) ko ∧ fs_tree s !! ko ≠ Some NDir;
  pr_meta : no_file_above (fs_tree s) mk ∧ fs_tree s !! mk ≠ Some NDir;
  pr_ids : plain_elem (fsUUID s) ∧ plain_elem temp;
  pr_tmp : os_name (tmp_key base (fsUUID s) temp) ∧ no_file_above (fs_tree s) (tmp_key base (fsUUID s) temp) ∧
    fs_tree s !! tmp_key base (fsUUID s) temp = None;
}.

(** The tree after a put. *)
Record put_done (t t' : tree) (content js : bytes) : Prop := {
  pd_ok : tree_ok t';
  pd_object : t' !! ko = Some (NFile content);
  pd_meta : t' !! mk = Some (NFile js);
  pd_other : ∀ k, k ≠ ko → k ≠ mk → files t' k = files t k;
  pd_dirs : ∀ k, t !! k = Some NDir → t' !! k = Some NDir;
}.

Section Run.
Context (s : fsObjects) (temp : string) (Hr : put_ready s temp).
Context (content js : bytes) (metadata : gmap string string) (sha256sum : string).
Context (Hdig : digests_ok content metadata sha256sum) (Hjs : fs_Marshal (put_fsMeta content metadata) = inl js).

Abbreviation kt := (tmp_key base (fsUUID s) temp).

Let t := fs_tree s.
Let t1 := put_file t mk (default [] (files t mk)).
Let t2 := put_file t1 kt content.
Let t3 := moved t2 kt ko.
Let t4 := <[mk := NFile js]> t3.

Lemma kt_ne : kt ≠ [].
Proof. unfold tmp_key. by destruct base. Qed.

Lemma kt_apart : apart kt ko ∧ apart kt mk.
Proof.
  split; [apply apart_at; intros E; by apply (fn_bucket _ _ _ Hn)|]. 
  pose proof (apart_at (base ++ [minioMetaBucket]) "tmp" bucketMetaPrefix [fsUUID s; temp] (bucket :: Split object "/" ++ [fsMetaJSONFile]) ltac:(done)) as Ha.
  by rewrite <- !app_assoc in Ha.
Qed.

Lemma run_tree : tree_ok t.
Proof. apply (calm_tree _ (fc_calm _ _ (pr_calm _ _ Hr))). Qed.

Lemma t1_facts : tree_ok t1 ∧ dirs_grow mk t t1 ∧ t1 !! kt = None ∧ no_file_above t1 kt ∧ no_file_above t1 ko ∧ t1 !! ko ≠ Some NDir.
Proof.
  destruct (pr_meta _ _ Hr) as [Hf Hnd], kt_apart as [_ Hkm], (pr_tmp _ _ Hr) as (_ & Hft & Hnt), ko_mk_apart as [Ha Hb].
  pose proof mk_ne as Hmk. assert (Hd : dirs_grow mk t t1) by (by apply dirs_grow_put; [apply run_tree| | |]).
  assert (Hmt : apart mk kt) by (split; apply Hkm). split_and!; [apply Hd|done| | | |].
  - unfold t1. by rewrite put_file_apart.
  - by apply free_put.
  - apply free_put; [done|by split|apply Hr].
  - unfold t1. rewrite put_file_apart; [apply Hr|done|by split].
Qed.

Lemma t2_facts : tree_ok t2 ∧ dirs_grow kt t1 t2 ∧ t2 !! kt = Some (NFile content) ∧ no_file_above t2 ko ∧ t2 !! ko ≠ Some NDir ∧
  t2 !! mk = t1 !! mk.
Proof.
  destruct t1_facts as (Ht1 & _ & Hn1 & Hf1 & Hfo & Hno), kt_apart as [Hko Hkm]. pose proof kt_ne as Hkt.
  assert (Hd : dirs_grow kt t1 t2) by (by apply dirs_grow_put; [| | |rewrite Hn1]). split_and!; [apply Hd|done| | | |].
  - apply lookup_insert_eq.
  - by apply free_put.
  - unfold t2. by rewrite put_file_apart.
  - unfold t2. by rewrite put_file_apart.
Qed.

Lemma t3_facts : tree_ok t3 ∧ dirs_grow ko t2 t3 ∧ t3 !! ko = Some (NFile content) ∧ t3 !! kt = None ∧ is_Some (files t3 mk).
Proof.
  destruct t2_facts as (Ht2 & _ & Hc & Hf & Hnd & Hm), kt_apart as [Hko Hkm]. pose proof kt_ne as Hkt. pose proof ko_ne as Hkone.
  assert (Hd : dirs_grow ko t2 t3) by (eapply moved_dirs; [done..|apply Hko]).
  split_and!; [apply Hd|done| | |].
  - unfold t3. erewrite moved_lookup by (done || apply Hko). by rewrite decide_True.
  - unfold t3. erewrite moved_lookup by (done || apply Hko). rewrite decide_False by (by apply apart_ne). by rewrite decide_True.
  - unfold t3, files. erewrite moved_apart; [rewrite Hm|done..|apply Hko|done|apply ko_mk_apart].
    unfold t1, put_file. rewrite lookup_insert_eq. by eexists.
Qed.

Lemma t4_done : put_done t t4 content js ∧ t4 !! kt = None ∧ t4 !! removelast kt = Some NDir.
Proof.
  destruct t1_facts as (Ht1 & Hd1 & _), t2_facts as (Ht2 & Hd2 & Hc & Hf & Hnd & _), t3_facts as (Ht3 & Hd3 & Hko & Hkt & [c Hmk]).
  apply files_Some in Hmk. destruct kt_apart as [Hto Htm]. pose proof ko_mk_apart as Hom. pose proof mk_ne as Hmne.
  assert (Hkeep : ∀ k, t3 !! k = Some NDir → t4 !! k = Some NDir).
  { intros k Hk. unfold t4. rewrite lookup_insert_ne; [done|]. intros <-. congruence. }
  split_and!; [split| |].
  - unfold t4. rewrite <- (put_file_same t3 mk c), put_file_twice by done. apply put_file_ok; [done|done| |by rewrite Hmk].
    apply no_file_above_dir; [done|]. apply tree_parent; [done|done|by eexists].
  - unfold t4. rewrite lookup_insert_ne; [done|]. intros E. by apply (apart_ne _ _ Hom).
  - apply lookup_insert_eq.
  - intros k Hk1 Hk2. unfold files at 1. unfold t4. rewrite lookup_insert_ne by done. change (files t3 k = files t k).
    unfold t3. erewrite moved_files by (done || apply kt_ne || apply ko_ne || apply Hto). rewrite decide_False by done.
    destruct (decide (k = kt)) as [->|Hkt'].
    + unfold files, t. by rewrite (proj2 (proj2 (pr_tmp _ _ Hr))).
    + unfold t2. rewrite put_file_files, decide_False by (done || apply kt_ne). unfold t1.
      by rewrite put_file_files, decide_False.
  - intros k Hk. apply Hkeep, Hd3, Hd2, Hd1, Hk.
  - unfold t4. rewrite lookup_insert_ne; [done|]. intros E. by apply (apart_ne _ _ Htm).
  - apply Hkeep, Hd3. apply tree_parent; [done|apply kt_ne|]. by eexists.
Qed.

(** A new directory is above one of the names. *)
Lemma t4_dirs k : t4 !! k = Some NDir → t !! k = Some NDir ∨ k `prefix_of` ko ∧ k ≠ ko ∨ k `prefix_of` mk ∨ k `prefix_of` kt.
Proof.
  destruct t1_facts as (_ & Hd1 & _), t2_facts as (_ & Hd2 & _), t3_facts as (_ & Hd3 & _). unfold t4. intros Hk.
  apply lookup_insert_Some in Hk as [[_ ?]|[_ Hk]]; [done|].
  apply (dg_new _ _ _ Hd3) in Hk as [Hk|?]; [|tauto]. apply (dg_new _ _ _ Hd2) in Hk as [Hk|[? _]]; [|tauto].
  apply (dg_new _ _ _ Hd1) in Hk as [Hk|[? _]]; tauto.
Qed.

Definition put_result : ObjectInfo :=
  ToObjectInfo mimedb_DB (put_fsMeta content metadata) bucket object (Some (finfo t4 (abs_path ko) (NFile content))).

Lemma run_calm t' : tree_ok t' → calm (fs_px (fs_with s t')) ∧ fs_calm base (fs_with s t').
Proof. intros Ht'. split; [by apply (calm_with (fs_px s)); [apply (pr_calm _ _ Hr)|]|]. apply fs_calm_with; [apply Hr|done]. Qed.

(** The data is in the temporary file. *)
Lemma put_finish_ok size : put_finish ReleaseTag md5_Sum mimedb_DB bucket object (abs_path kt) content metadata sha256sum
    (Some {| lk_fd := mk; lk_size := size |}) (fs_with s t2) = (fs_with s t4, inl put_result).
Proof.
  destruct t2_facts as (Ht2 & _ & Hc & Hf & Hnd & _), t3_facts as (Ht3 & _ & _ & _ & [c Hmk]), t4_done as ([Ht4 Hobj _ _ _] & _).
  apply files_Some in Hmk. destruct Hdig as [Hmd Hsha]. unfold put_finish. fold (put_metadata content metadata).
  rewrite Hmd, (bool_decide_true (hex_encode (md5_Sum content) = hex_encode (md5_Sum content))) by done. cbn [negb]. rewrite andb_false_r.
  assert (Hs2 : negb (bool_decide (sha256sum = "")) && negb (bool_decide (hex_encode (sha256_Sum content) = sha256sum)) = false).
  { destruct Hsha as [-> | ->]; [done|].
    rewrite (bool_decide_true (hex_encode (sha256_Sum content) = hex_encode (sha256_Sum content))) by done. by rewrite andb_false_r. }
  rewrite Hs2. destruct (run_calm t2 Ht2) as [Hc2 Hfc2], (run_calm t3 Ht3) as [Hc3 Hfc3], (run_calm t4 Ht4) as [Hc4 Hfc4].
  erewrite fs_bind_run by done. rewrite (fsObjPath_ok _ Hfc2).
  erewrite fs_bind_run.
  2: { apply (fs_call_run _ _ (fs_with s t2) t3). apply (fsRenameFile_ok (fs_px (fs_with s t2)) Hc2 kt ko content); try done.
       - apply Hr. - apply Hn. - apply kt_ne. - apply ko_ne. - apply kt_apart. }
  erewrite fs_bind_run.
  2: { apply (fs_call_run _ _ (fs_with s t3) t4). by apply (WriteTo_ok (fs_px (fs_with s t3)) Hc3 _ js mk c size Hjs mk_ne Hmk). }
  erewrite fs_bind_run; [done|]. apply (fs_call_same _ _ (fs_with s t4)).
  by apply (fsStatFile_ok (fs_px (fs_with s t4)) Hc4 ko (proj1 (fn_names _ _ _ Hn)) ko_ne content).
Qed.

Section Data.
Context (size : Z) (data : reader) (Heof : rd_err (if 0 <? size then io_LimitReader data size else data) = io_EOF).
Context (Hcontent : rd_data (if 0 <? size then io_LimitReader data size else data) = content) (Hsize : size ≤ zlen content).

Lemma bucket_err_ok : bucket_err bucket s = (s, inl None).
Proof.
  destruct (statBucketDir_ok s (pr_calm _ _ Hr) (pr_bucket _ _ Hr)) as [fi Hfi]. unfold bucket_err.
  erewrite fs_bind_run; [|apply fs_catch_run; unfold fs_GetBucketInfo; by erewrite fs_bind_run by (by apply fs_err_run)]. done.
Qed.

Lemma fs_PutObject_ok : fs_PutObject ReleaseTag md5_Sum mimedb_DB temp bucket object size data metadata sha256sum s =
  (fs_with s t4, inl put_result).
Proof.
  destruct t1_facts as (Ht1 & _ & Hn1 & Hf1 & _), t4_done as ([Ht4 _ _ _ _] & Hgone & Hpar).
  destruct (statBucketDir_ok s (pr_calm _ _ Hr) (pr_bucket _ _ Hr)) as [fi Hfi].
  destruct (run_calm t1 Ht1) as [Hc1 Hfc1], (run_calm t4 Ht4) as [Hc4 Hfc4]. destruct (pr_ids _ _ Hr) as [Hu Hid].
  unfold fs_PutObject. erewrite fs_bind_run by apply bucket_err_ok.
  assert (Hargs : checkPutObjectArgs (λ _, None) bucket object = None).
  { unfold checkPutObjectArgs, checkBucketExist. rewrite (proj1 (fn_bucket _ _ _ Hn)). cbn [negb].
    by rewrite (proj1 (fn_object _ _ _ Hn)). }
  rewrite Hargs. erewrite fs_bind_run by done. erewrite fs_bind_run by (by apply fs_err_run). erewrite fs_bind_run by done.
  rewrite (bool_decide_false (bucket = minioMetaBucket)) by apply Hn. cbn [negb].
  destruct (rwPool_Create_ok s (pr_calm _ _ Hr) (proj1 (pr_meta _ _ Hr)) (proj2 (pr_meta _ _ Hr))) as [lks Hcreate].
  rewrite (fsMetaPath_ok _ (pr_calm _ _ Hr)).
  erewrite fs_bind_run by (by erewrite fs_bind_run by (apply fs_err_run, Hcreate)). fold t t1.
  rewrite (fc_path _ _ (pr_calm _ _ Hr)), (tmp_path _ _ _ Hn (fsUUID s) temp Hu Hid).
  set (limited := if 0 <? size then io_LimitReader data size else data) in *.
  assert (Hlim : limited = {| rd_data := content; rd_err := io_EOF |}) by (rewrite <- Heof, <- Hcontent; by destruct limited).
  rewrite Hlim. set (bufSize := Z.to_nat _). assert (Hbuf : (0 < bufSize)%nat).
  { unfold bufSize. destruct (0 <? size) eqn:E0, (size <? readSizeV1) eqn:E1; cbn [andb]; unfold readSizeV1; lia. }
  erewrite fs_bind_run.
  2: { apply (fs_try_run _ (fs_with s t1) t2). apply fsCreateFile_ok; [apply Hr|apply kt_ne|done|done|done|done]. }
  cbn [rd_data]. rewrite (proj2 (Z.ltb_ge _ _) Hsize).
  eapply fs_defer_run; [apply put_finish_ok|].
  erewrite (fs_try_run _ (fs_with s t4) t4); [reflexivity|].
  rewrite (fsRemoveFile_none (fs_px (fs_with s t4)) Hc4 kt (proj1 (pr_tmp _ _ Hr)) kt_ne Hpar Hgone). reflexivity.
Qed.

End Data.
End Run.
End Put.
