(* ===== verification/FSGet.v ===== *)
(** * Getting objects of the FS backend

    [GetObject] and [GetObjectInfo] on a file system whose calls succeed, and the
    round trip of a put and a get. *)

From S2P Require Import Prelude.
From S2P Require Import GoErrors.
From S2P Require Import GoStrings.
From S2P Require Import XLMeta.
From S2P Require Import Storage.
From S2P Require Import Erasure.
From S2P Require Import XorCode.
From S2P Require Import ErasureSpec.
From S2P Require Import ObjectNames.
From S2P Require Import DiskContract.
From S2P Require Import XLDisk.
From S2P Require Import XLObject.
From S2P Require Import XLPut.
From S2P Require Import Format.
From S2P Require Import OSFiles.
From S2P Require Import OSTrees.
From S2P Require Import Posix.
From S2P Require Import PosixSpec.
From S2P Require Import PosixOps.
From S2P Require Import FSFiles.
From S2P Require Import FSObjects.
From S2P Require Import FSSpec.
From S2P Require Import FSPut.

Local Open Scope Z_scope.

Section Get.
Context `{OSTimes, MapOrder, FSJson, Hashes} `{!FSJsonContract}.
Context (mimedb_DB : string → option string).
Context (base : list string) (bucket object : string) (Hn : fs_names base bucket object).

Abbreviation ko := (object_key base bucket object).
Abbreviation mk := (meta_key base bucket object).
Abbreviation kb := (bucket_key base bucket).

(** The copy delivers the bytes of the range. *)
Lemma copy_out_ok p es c bufSize : calm p → px_tree p !! es = Some (NFile c) → (0 < bufSize)%nat →
  ∀ fuel off left (w : bytes), (left ≤ fuel)%nat → (off + left ≤ length c)%nat →
  copy_out fuel es off left bufSize w p = (p, inl (w ++ take left (drop off c), None)).
Proof.
  intros Hp Hc Hbuf. induction fuel as [|fuel IH]; intros off left w Hf Hl; (destruct left as [|left]; [|try lia]).
  1, 2: simpl; by rewrite app_nil_r.
  cbn [copy_out]. set (n := (bufSize `min` S left)%nat). assert (Hn1 : (0 < n ≤ S left)%nat) by (unfold n; lia).
  assert (Hread : file_pread (px_os p) es off n = (px_os p, inl (take n (drop off c)))).
  { unfold file_pread, path_error. rewrite syscall_ok by apply Hp. unfold sys_read. unfold px_tree in Hc. rewrite Hc. cbn [fst snd].
    by rewrite set_tree_id. }
  erewrite px_bind_run by (unfold px_try; rewrite Hread, set_os_id; reflexivity).
  assert (Hlen : length (take n (drop off c)) = n) by (rewrite length_take, length_drop; lia).
  destruct (take n (drop off c)) as [|x chunk] eqn:E; [simpl in Hlen; lia|]. cbn [Write bytes_writer].
  rewrite Z.eqb_refl. cbn [negb]. rewrite Hlen, IH by lia. f_equal. f_equal. f_equal. rewrite <- app_assoc. f_equal.
  rewrite <- E. replace (take (S left) (drop off c)) with (take (n + (S left - n)) (drop off c)) by (f_equal; lia).
  by rewrite <- take_take_drop, drop_drop.
Qed.

Section State.
Context (s : fsObjects) (Hs : fs_calm base s) (Hb : fs_tree s !! kb = Some NDir).
Context (content : bytes) (Ho : fs_tree s !! ko = Some (NFile content)) (Hsize : zlen content < 2 ^ 63).

Lemma get_args : checkGetObjArgs bucket object = None.
Proof.
  unfold checkGetObjArgs, checkBucketAndObjectNames. rewrite (proj1 (fn_bucket _ _ _ Hn)), (proj1 (fn_object _ _ _ Hn)). done.
Qed.

Lemma get_read_ok readers off len (w : bytes) : 0 ≤ off → 0 ≤ len → off + len ≤ zlen content →
  get_read bucket object off len w (set_readers s readers) =
    (set_readers s readers, inl (w ++ take (Z.to_nat len) (drop (Z.to_nat off) content), None)).
Proof.
  intros Hoff Hlen Hend. set (s' := set_readers s readers). assert (Hs' : fs_calm base s') by (by destruct Hs).
  unfold get_read. erewrite fs_bind_run by done. rewrite (fsObjPath_ok _ _ _ Hn s' Hs').
  erewrite fs_bind_run by (apply fs_call_same, (fsOpenFile_ok (fs_px s') (fc_calm _ _ Hs') ko (proj1 (fn_names _ _ _ Hn)) (ko_ne _ _ _ Hn) off content Hoff Ho)).
  rewrite (proj2 (Z.ltb_ge len 0)) by lia. rewrite (proj2 (Z.ltb_ge (zlen content) off)) by lia.
  assert (Hw : int64_wrap (off + len) = off + len) by (unfold int64_wrap; rewrite Z.mod_small; lia).
  rewrite Hw, (proj2 (Z.ltb_ge (zlen content) (off + len))) by lia. cbn [orb]. set (bufSize := Z.to_nat (if (0 <? len) && (len <? readSizeV1) then len else readSizeV1)).
  assert (Hbuf : (0 < bufSize)%nat).
  { unfold bufSize. destruct (0 <? len) eqn:E0, (len <? readSizeV1) eqn:E1; cbn [andb]; unfold readSizeV1; lia. }
  erewrite fs_bind_run by (apply fs_call_same, (copy_out_ok (fs_px s') ko content bufSize (fc_calm _ _ Hs') Ho Hbuf); unfold zlen in *; lia).
  done.
Qed.

(** The pool has no reader of the metadata, and so again afterwards. *)
Context (Hidle : readersMap s !! abs_path mk = None).

Lemma rwPool_Open_ok js : fs_tree s !! mk = Some (NFile js) →
  rwPool_Open (abs_path mk) s =
    (set_readers s (<[abs_path mk := newRLockedFile {| lk_fd := mk; lk_size := zlen js |}]> (readersMap s)),
     inl (newRLockedFile {| lk_fd := mk; lk_size := zlen js |})).
Proof.
  intros Hm. unfold rwPool_Open, checkPathLength. rewrite checkPathLength_abs by apply Hn. erewrite fs_bind_run by done.
  erewrite fs_bind_run by done. rewrite Hidle. erewrite fs_bind_run by done. cbv beta iota.
  erewrite fs_bind_run.
  2: { apply fs_call_same. unfold px_conv.
       by rewrite (RLockedOpenFile_ok (fs_px s) (fc_calm _ _ Hs) mk (proj2 (fn_names _ _ _ Hn)) (mk_ne _ _ _ Hn) js Hm). }
  by erewrite fs_bind_run by done.
Qed.

Lemma rwPool_Close_ok lk : rwPool_Close (abs_path mk) (set_readers s (<[abs_path mk := newRLockedFile lk]> (readersMap s))) = (s, inl ()).
Proof.
  unfold rwPool_Close, checkPathLength. rewrite checkPathLength_abs by apply Hn. erewrite fs_bind_run by done.
  erewrite fs_bind_run by done. cbn [readersMap set_readers]. rewrite lookup_insert_eq. unfold fs_readers.
  change (IsClosed (RLocked_Close (newRLockedFile lk))) with true. cbv iota. cbn [readersMap set_readers].
  rewrite delete_insert_id by done. by destruct s.
Qed.

Lemma set_readers_id : set_readers s (readersMap s) = s.
Proof. by destruct s. Qed.

Lemma rwPool_Close_idle : rwPool_Close (abs_path mk) s = (s, inl ()).
Proof.
  unfold rwPool_Close, checkPathLength. rewrite checkPathLength_abs by apply Hn. erewrite fs_bind_run by done.
  erewrite fs_bind_run by done. by rewrite Hidle.
Qed.

Lemma fs_GetObject_ok js off len (w : bytes) : fs_tree s !! mk = Some (NFile js) → 0 ≤ off → 0 ≤ len → off + len ≤ zlen content →
  fs_GetObject bucket object off len (Some w) s = (s, inl (Some (w ++ take (Z.to_nat len) (drop (Z.to_nat off) content)), None)).
Proof.
  intros Hm Hoff Hlen Hend. unfold fs_GetObject. rewrite get_args. erewrite fs_bind_run by done.
  destruct (statBucketDir_ok _ _ _ Hn s Hs Hb) as [fi Hfi]. erewrite fs_bind_run by (apply fs_err_run, Hfi).
  rewrite (proj2 (Z.ltb_ge off 0)) by lia. rewrite (bool_decide_false (bucket = minioMetaBucket)) by apply Hn. cbn [negb].
  erewrite fs_bind_run by done. rewrite (fsMetaPath_ok _ _ _ Hn s Hs).
  erewrite fs_bind_run by (apply fs_catch_run, rwPool_Open_ok, Hm).
  eapply fs_defer_run; [|apply rwPool_Close_ok]. by erewrite fs_bind_run by (by apply get_read_ok).
Qed.

Lemma fs_GetObjectInfo_ok m js : fs_tree s !! mk = Some (NFile js) → js ≠ [] → fs_Unmarshal js fsMetaV1_zero = (m, None) →
  fs_GetObjectInfo mimedb_DB bucket object s =
    (s, inl (ToObjectInfo mimedb_DB m bucket object (Some (finfo (fs_tree s) (abs_path ko) (NFile content))))).
Proof.
  intros Hm Hne Hu. unfold fs_GetObjectInfo. rewrite get_args. erewrite fs_bind_run by done.
  destruct (statBucketDir_ok _ _ _ Hn s Hs Hb) as [fi Hfi]. erewrite fs_bind_run by (apply fs_err_run, Hfi).
  unfold fs_getObjectInfo. erewrite fs_bind_run by done. rewrite (fsMetaPath_ok _ _ _ Hn s Hs), (fsObjPath_ok _ _ _ Hn s Hs).
  erewrite fs_bind_run by (apply fs_catch_run, rwPool_Open_ok, Hm). set (s1 := set_readers _ _).
  assert (Hs1 : fs_calm base s1) by (by destruct Hs).
  eapply fs_defer_run; [|apply rwPool_Close_ok]. cbn [rlk_file newRLockedFile].
  erewrite fs_bind_run by (apply (fs_call_same _ _ s1), (ReadFrom_ok (fs_px s1) (fc_calm _ _ Hs1) _ m js mk Hu Hne Hm)).
  by erewrite fs_bind_run by (apply (fs_call_same _ _ s1),
    (fsStatFile_ok (fs_px s1) (fc_calm _ _ Hs1) ko (proj1 (fn_names _ _ _ Hn)) (ko_ne _ _ _ Hn) content Ho)).
Qed.

End State.
End Get.

(** ** The round trip *)

Section RoundTrip.
Context `{OSTimes, MapOrder, FSJson, Hashes} `{!FSJsonContract}.
Context (ReleaseTag : string) (md5_Sum : bytes → bytes) (mimedb_DB : string → option string).
Context (base : list string) (bucket object : string) (Hn : fs_names base bucket object).

Abbreviation ko := (object_key base bucket object).
Abbreviation mk := (meta_key base bucket object).

Lemma ToObjectInfo_fields m fi : Size (ToObjectInfo mimedb_DB m bucket object (Some fi)) = fi_Size fi ∧
  MD5Sum (ToObjectInfo mimedb_DB m bucket object (Some fi)) = default "" (fsm_Meta m !! "md5Sum").
Proof.
  unfold ToObjectInfo. cbn [Size MD5Sum]. split; [done|]. repeat case_match; try done. by rewrite lookup_insert_ne.
Qed.

(** C5.  FS backend: a put that is not disturbed by faults succeeds, also over
    an older version; after it every range of the object reads back as the bytes
    that were given, the object's information is the one that the put returned,
    with the size and the md5 sum of the content, and no other file has changed. *)
Theorem fs_put_get : ∀ s temp size data metadata sha256sum,
  let limited := if 0 <? size then io_LimitReader data size else data in
  let content := rd_data limited in
  put_ready base bucket object s temp → readersMap s !! abs_path mk = None →
  rd_err limited = io_EOF → size ≤ zlen content < 2 ^ 63 →
  digests_ok md5_Sum content metadata sha256sum → meta_utf8 (put_fsMeta ReleaseTag md5_Sum content metadata) →
  ∃ s' info,
    fs_PutObject ReleaseTag md5_Sum mimedb_DB temp bucket object size data metadata sha256sum s = (s', inl info) ∧
    Size info = zlen content ∧ MD5Sum info = hex_encode (md5_Sum content) ∧
    (∀ off len (w : bytes), 0 ≤ off → 0 ≤ len → off + len ≤ zlen content →
      fs_GetObject bucket object off len (Some w) s' =
        (s', inl (Some (w ++ take (Z.to_nat len) (drop (Z.to_nat off) content)), None))) ∧
    fs_GetObjectInfo mimedb_DB bucket object s' = (s', inl info) ∧
    (∀ k, k ≠ ko → k ≠ mk → files (fs_tree s') k = files (fs_tree s) k).
Proof.
  intros s temp size data metadata sha256sum limited content Hr Hidle Heof [Hsize Hmax] Hdig Hutf.
  destruct (fs_json_ok _ Hutf) as (js & Hjs & Hne & Hun).
  destruct (t4_done _ _ _ Hn s temp Hr content js) as ([Ht4 Hobj Hmeta Hother Hdirs] & _).
  pose proof (fs_PutObject_ok ReleaseTag md5_Sum mimedb_DB _ _ _ Hn s temp Hr content js metadata sha256sum Hdig Hjs size data Heof eq_refl Hsize) as Hput.
  eexists _, _. split; [exact Hput|]. set (s' := fs_with _ _).
  assert (Hs' : fs_calm base s') by (apply fs_calm_with; [apply Hr|done]).
  assert (Hb : fs_tree s' !! bucket_key base bucket = Some NDir) by (apply Hdirs, Hr).
  split_and!.
  - by destruct (ToObjectInfo_fields (put_fsMeta ReleaseTag md5_Sum content metadata) (finfo (fs_tree s') (abs_path ko) (NFile content))).
  - destruct (ToObjectInfo_fields (put_fsMeta ReleaseTag md5_Sum content metadata) (finfo (fs_tree s') (abs_path ko) (NFile content))) as [_ E].
    etransitivity; [exact E|]. apply Hdig.
  - intros off len w Hoff Hlen Hend. by apply (fs_GetObject_ok _ _ _ Hn s' Hs' Hb content Hobj Hmax Hidle js).
  - by apply (fs_GetObjectInfo_ok mimedb_DB _ _ _ Hn s' Hs' Hb content Hobj Hidle _ js).
  - exact Hother.
Qed.

End RoundTrip.

(** ** A codec for the metadata *)

#[export] Instance fsMetaV1_dec : EqDecision fsMetaV1.
Proof. solve_decision. Defined.

Definition fsm_tuple : Type := (string * string * string * gmap string string * list (Z * string * string * Z)).

Definition fsm_to (m : fsMetaV1) : fsm_tuple :=
  (fsm_Version m, fsm_Format m, fsm_Release m, fsm_Meta m,
   (λ p, (Number p, PartName p, ETag p, PartSize p)) <$> fsm_Parts m).

Definition fsm_of (x : fsm_tuple) : fsMetaV1 :=
  let '(v, f, r, meta, parts) := x in
  FSMetaV1 v f r meta ((λ '(n, name, etag, size), ObjectPartInfo n name etag size) <$> parts).

Lemma fsm_of_to m : fsm_of (fsm_to m) = m.
Proof.
  destruct m as [v f r meta parts]. unfold fsm_of, fsm_to. cbn. f_equal. rewrite <- list_fmap_compose.
  rewrite <- (list_fmap_id parts) at 2. apply list_fmap_ext. by intros i [].
Qed.

#[export] Instance fsMetaV1_countable : Countable fsMetaV1 := inj_countable' (A := fsm_tuple) fsm_to fsm_of fsm_of_to.

Definition demo_fsjson : FSJson := {|
  fs_Marshal m := inl ("{"%char :: bytes_of_positive (encode m));
  fs_Unmarshal b m :=
    match decode (positive_of_bytes (tail b)) with
    | Some m => (m, None)
    | None => (m, Some (ENew "unexpected end of JSON input"))
    end;
|}.

Lemma demo_fsjson_ok : @FSJsonContract demo_fsjson.
Proof.
  split. intros m _. eexists. split; [done|]. split; [done|]. cbn [fs_Unmarshal demo_fsjson tail].
  by rewrite positive_bytes, decode_encode.
Qed.

(** ** A run *)

#[local] Existing Instances demo_times map_order_rev demo_fsjson demo_fsjson_ok.

(** Hashes that tell the length and the first bytes. *)
Definition demo_digest (b : bytes) : bytes := ascii_of_nat (length b) :: take 3 b.
#[local] Instance demo_hashes : Hashes := {| sha256_Sum := demo_digest; blake2b_Sum := demo_digest |}.

Definition demo_mime (ext : string) : option string := if bool_decide (ext = "txt") then Some "text/plain" else None.

(** The bucket "photos" holds an older version of "a/x.txt", and "y". *)
Definition fs_demo_tree : tree := list_to_map [
  ([], NDir); (["disk"], NDir); (["disk"; "photos"], NDir); (["disk"; ".minio.sys"], NDir); (["disk"; ".minio.sys"; "tmp"], NDir);
  (["disk"; ".minio.sys"; "tmp"; "u-1"], NDir); (["disk"; "photos"; "a"], NDir);
  (["disk"; "photos"; "a"; "x.txt"], NFile (bytes_of_string "old")); (["disk"; "photos"; "y"], NFile (bytes_of_string "y"))].

Definition fs_demo : fsObjects :=
  FSObjects "/disk" "u-1" fsMinFreeSpace fsMinFreeInodes ∅ (OSFS fs_demo_tree [] (os_statfs demo_os)).

Definition fs_demo_put : fsObjects * (ObjectInfo + error) :=
  fs_PutObject "dev" demo_digest demo_mime "t-1" "photos" "a/x.txt" 5 {| rd_data := bytes_of_string "hello, world"; rd_err := io_EOF |}
    {[ "x-amz-meta-k" := "v" ]} "" fs_demo.

(** Decisions on concrete trees. *)
Lemma tree_okb t : bool_decide (t !! [] = Some NDir) && bool_decide (map_Forall (λ k _, k = [] ∨ t !! removelast k = Some NDir) t) = true → tree_ok t.
Proof.
  intros [H1 H2]%andb_true_iff. apply bool_decide_eq_true in H1, H2. split; [done|]. intros k x [n Hk].
  destruct (H2 _ _ Hk) as [E|E]; [by destruct k|]. by rewrite removelast_last in E.
Qed.

Lemma no_file_aboveb t k : bool_decide (map_Forall (λ k' n, n = NDir ∨ k' = k ∨ ¬ k' `prefix_of` k) t) = true → no_file_above t k.
Proof.
  intros Hb%bool_decide_eq_true a r c -> Hr Ha. destruct (Hb _ _ Ha) as [?|[E|E]]; [done| |apply E; by exists r].
  apply Hr. apply (app_inv_head a). by rewrite app_nil_r.
Qed.

Lemma fs_demo_names : fs_names ["disk"] "photos" "a/x.txt".
Proof. split; [|split_and!|split_and!|split_and!]; by apply (bool_decide_unpack _). Qed.

Lemma fs_demo_ready : put_ready ["disk"] "photos" "a/x.txt" fs_demo "t-1".
Proof.
  split.
  - split; [done|]. split; [done|]. by apply tree_okb.
  - done.
  - split; [by apply no_file_aboveb|done].
  - split; [by apply no_file_aboveb|done].
  - split; by apply (bool_decide_unpack _).
  - split_and!; [by apply (bool_decide_unpack _)|by apply no_file_aboveb|done].
Qed.

Lemma fs_put_get_witness : ∃ s' info, fs_demo_put = (s', inl info) ∧ Size info = 5 ∧ ContentType info = "text/plain" ∧
  fs_GetObject "photos" "a/x.txt" 1 3 (Some []) s' = (s', inl (Some (bytes_of_string "ell"), None)) ∧
  fs_GetObjectInfo demo_mime "photos" "a/x.txt" s' = (s', inl info) ∧
  files (fs_tree s') ["disk"; "photos"; "y"] = Some (bytes_of_string "y").
Proof.
  destruct (fs_put_get "dev" demo_digest demo_mime ["disk"] "photos" "a/x.txt" fs_demo_names fs_demo "t-1" 5
    {| rd_data := bytes_of_string "hello, world"; rd_err := io_EOF |} {[ "x-amz-meta-k" := "v" ]} "" fs_demo_ready eq_refl eq_refl)
    as (s' & info & Hput & Hsz & _ & Hget & Hinfo & Hother).
  - by vm_compute.
  - split; [by vm_compute|by left].
  - split_and!; [by vm_compute|by vm_compute|by vm_compute|apply (bool_decide_unpack _); by vm_compute|by vm_compute].
  - exists s', info. split_and!; [exact Hput|by rewrite Hsz| | |exact Hinfo|].
    + assert (E : ContentType <$> (match fs_demo_put.2 with inl i => Some i | inr _ => None end) = Some "text/plain") by (by vm_compute).
      change (fs_PutObject _ _ _ _ _ _ _ _ _ _ _) with fs_demo_put in Hput. rewrite Hput in E. by injection E.
    + exact (Hget 1 3 [] ltac:(done) ltac:(done) ltac:(done)).
    + etransitivity; [apply Hother; intros E; vm_compute in E; discriminate E|]. by vm_compute.
Defined.
