(* ===== verification/FSFaults.v ===== *)
(** * The FS backend under faults

    Any call of the system may fail.  A put replaces the object as a whole or
    not at all: the data goes to a temporary file that is renamed. *)

From S2P Require Import Prelude.
From S2P Require Import GoErrors.
From S2P Require Import GoStrings.
From S2P Require Import XLMeta.
From S2P Require Import Storage.
From S2P Require Import Erasure.
From S2P Require Import XorCode.
From S2P Require Import ObjectNames.
From S2P Require Import DiskContract.
From S2P Require Import XLObject.
From S2P Require Import XLPut.
From S2P Require Import Format.
From S2P Require Import OSFiles.
From S2P Require Import OSTrees.
From S2P Require Import Posix.
From S2P Require Import PosixSpec.
From S2P Require Import PosixOps.
From S2P Require Import PosixFaults.
From S2P Require Import FSFiles.
From S2P Require Import FSObjects.
From S2P Require Import FSSpec.
From S2P Require Import FSPut.
From S2P Require Import FSGet.

Local Open Scope Z_scope.

(** ** Assertions on trees *)

(** An assertion on the tree. *)
Definition asn : Type := tree → Prop.

(** Only the files matter. *)
Definition stable (P : asn) : Prop := ∀ t t', (∀ k, files t' k = files t k) → P t → P t'.

Section Triples.
Context (base : list string).

(** From [P], the computation ends in [Q] of its value, or in [E] with an error. *)
Definition ptri {A : Type} (P : asn) (m : px A) (Q : A → asn) (E : asn) : Prop := ∀ p,
  sound base p → P (px_tree p) → sound base (m p).1 ∧ match (m p).2 with inl a => Q a (px_tree (m p).1) | inr _ => E (px_tree (m p).1) end.

Lemma ptri_ret {A : Type} (a : A) (P : asn) (Q : A → asn) E : (∀ t, P t → Q a t) → ptri P (mret a) Q E.
Proof. intros HQ p Hs HP. split; [done|]. by apply HQ. Qed.

Lemma ptri_fail {A : Type} e (P : asn) (Q : A → asn) (E : asn) : (∀ t, P t → E t) → ptri P (px_fail e) Q E.
Proof. intros HE p Hs HP. split; [done|]. by apply HE. Qed.

Lemma ptri_bind {A B : Type} (m : px A) (f : A → px B) P R Q E : ptri P m R E → (∀ a, ptri (R a) (f a) Q E) → ptri P (m ≫= f) Q E.
Proof.
  intros Hm Hf p Hs HP. unfold mbind, px_bind. destruct (Hm p Hs HP) as [H1 H2]. destruct (m p) as [p1 [a|e]]; cbn [fst snd] in *.
  - exact (Hf a p1 H1 H2).
  - by split.
Qed.

Lemma ptri_weaken {A : Type} (m : px A) (P P' : asn) (Q Q' : A → asn) (E E' : asn) : ptri P m Q E →
  (∀ t, P' t → P t) → (∀ a t, Q a t → Q' a t) → (∀ t, E t → E' t) → ptri P' m Q' E'.
Proof.
  intros Hm HP HQ HE p Hs Hp. destruct (Hm p Hs (HP _ Hp)) as [H1 H2]. split; [done|].
  destruct (m p).2; [by apply HQ|by apply HE].
Qed.

(** A computation that changes no file. *)
Lemma ptri_quiet {A : Type} (m : px A) (P : asn) : spec base (λ _, False) m (λ _, True) → stable P → ptri P m (λ _, P) P.
Proof.
  intros Hm HP p Hs Hp. destruct (Hm p Hs) as (H1 & H2 & _). split; [done|].
  assert (Hq : P (px_tree (m p).1)) by (eapply HP; [|exact Hp]; intros k; exact (ts_files _ _ _ H2 k (λ f, f))). by destruct (m p).2.
Qed.

(** A call of the system, with what it does to the tree. *)
Lemma ptri_call {A : Type} (f : osfs → osfs * (A + os_error)) conv (P : asn) (Q : A → asn) (E : asn) :
  (∀ o, tree_ok (os_tree o) → P (os_tree o) → tree_ok (os_tree (f o).1) ∧
    match (f o).2 with inl a => Q a (os_tree (f o).1) | inr _ => E (os_tree (f o).1) end) → ptri P (px_call f conv) Q E.
Proof.
  intros Hf p [Ht Hd] HP. unfold px_call. destruct (Hf (px_os p) Ht HP) as [H1 H2]. destruct (f (px_os p)) as [o [a|e]]; cbn [fst snd] in *.
  - split; [by split|exact H2].
  - split; [by split|exact H2].
Qed.

Lemma ptri_conv {A : Type} conv (m : px A) P Q E : ptri P m Q E → ptri P (px_conv conv m) Q E.
Proof. intros Hm p Hs HP. specialize (Hm p Hs HP). unfold px_conv. by destruct (m p) as [p1 [a|[e|e]]]. Qed.

Lemma ptri_if {A : Type} (b : bool) (m1 m2 : px A) P Q E : ptri P m1 Q E → ptri P m2 Q E → ptri P (if b then m1 else m2) Q E.
Proof. by destruct b. Qed.

(** The same for methods; they keep the identity of the layer. *)
Definition fs_sound (uuid : string) (s : fsObjects) : Prop := tree_ok (fs_tree s) ∧ fsPath s = abs_path base ∧ fsUUID s = uuid.

Context (uuid : string).

Definition ftri {A : Type} (P : asn) (m : fsx A) (Q : A → asn) (E : asn) : Prop := ∀ s,
  fs_sound uuid s → P (fs_tree s) → fs_sound uuid (m s).1 ∧ match (m s).2 with inl a => Q a (fs_tree (m s).1) | inr _ => E (fs_tree (m s).1) end.

Lemma ftri_ret {A : Type} (a : A) (P : asn) (Q : A → asn) E : (∀ t, P t → Q a t) → ftri P (mret a) Q E.
Proof. intros HQ s Hs HP. split; [done|]. by apply HQ. Qed.

Lemma ftri_fail {A : Type} e (P : asn) (Q : A → asn) (E : asn) : (∀ t, P t → E t) → ftri P (fs_fail e) Q E.
Proof. intros HE s Hs HP. split; [done|]. by apply HE. Qed.

Lemma ftri_bind {A B : Type} (m : fsx A) (f : A → fsx B) P R Q E : ftri P m R E → (∀ a, ftri (R a) (f a) Q E) → ftri P (m ≫= f) Q E.
Proof.
  intros Hm Hf s Hs HP. unfold mbind, fsx_bind. destruct (Hm s Hs HP) as [H1 H2]. destruct (m s) as [s1 [a|e]]; cbn [fst snd] in *.
  - exact (Hf a s1 H1 H2).
  - by split.
Qed.

Lemma ftri_weaken {A : Type} (m : fsx A) (P P' : asn) (Q Q' : A → asn) (E E' : asn) : ftri P m Q E →
  (∀ t, P' t → P t) → (∀ a t, Q a t → Q' a t) → (∀ t, E t → E' t) → ftri P' m Q' E'.
Proof.
  intros Hm HP HQ HE s Hs Hp. destruct (Hm s Hs (HP _ Hp)) as [H1 H2]. split; [done|].
  destruct (m s).2; [by apply HQ|by apply HE].
Qed.

Lemma ftri_get {A : Type} (f : fsObjects → fsx A) P Q E : (∀ s, fsPath s = abs_path base → fsUUID s = uuid → ftri P (f s) Q E) → ftri P (fs_get ≫= f) Q E.
Proof. intros Hf s Hs HP. destruct Hs as (H1 & H2 & H3). unfold mbind, fsx_bind, fs_get. by apply Hf. Qed.

Lemma ftri_try {A : Type} (m : px A) P Q E : ptri P m Q E → ftri P (fs_try m) (λ r t, match r with inl a => Q a t | inr _ => E t end) (λ _, False).
Proof.
  intros Hm s (Ht & Hp & Hu) HP. destruct (Hm (fs_px s) (conj Ht Hp) HP) as [[H1 _] H2]. unfold fs_try.
  destruct (m (fs_px s)) as [p [a|e]]; cbn [fst snd] in *; by split.
Qed.

Lemma ftri_call {A : Type} (m : px A) conv P Q E : ptri P m Q E → ftri P (fs_call m conv) Q E.
Proof.
  intros Hm. eapply ftri_bind; [eapply ftri_weaken; [by apply ftri_try|done|done|done]|]. intros [a|e]; [by apply ftri_ret|by apply ftri_fail].
Qed.

Lemma ftri_err {A : Type} conv (m : fsx A) P Q E : ftri P m Q E → ftri P (fs_err conv m) Q E.
Proof. intros Hm s Hs HP. specialize (Hm s Hs HP). unfold fs_err. by destruct (m s) as [s1 [a|e]]. Qed.

Lemma ftri_catch {A : Type} (m : fsx A) P Q E : ftri P m Q E → ftri P (fs_catch m) (λ r t, match r with inl a => Q a t | inr _ => E t end) (λ _, False).
Proof. intros Hm s Hs HP. specialize (Hm s Hs HP). unfold fs_catch. destruct (m s) as [s1 [a|e]]; exact Hm. Qed.

Lemma ftri_defer {A B : Type} (m : fsx A) (d : fsx B) P Q (E : asn) Q' (E' : asn) : ftri P m Q E →
  (∀ a, ftri (Q a) d (λ _, Q' a) (Q' a)) → ftri E d (λ _, E') E' → ftri P (fs_defer m d) Q' E'.
Proof.
  intros Hm HQ HE s Hs HP. unfold fs_defer. destruct (Hm s Hs HP) as [H1 H2]. destruct (m s) as [s1 [a|e]]; cbn [fst snd] in *.
  - destruct (HQ a s1 H1 H2) as [H3 H4]. split; [done|]. by destruct (d s1).2.
  - destruct (HE s1 H1 H2) as [H3 H4]. split; [done|]. by destruct (d s1).2.
Qed.

Lemma ftri_lift (e : option error) (P : asn) : ftri P (lift_err e) (λ _, P) P.
Proof. destruct e; [by apply ftri_fail|by apply ftri_ret]. Qed.

(** A fact before that does not mention the tree. *)
Lemma ftri_pure {A : Type} (φ : Prop) (m : fsx A) (P : asn) Q E : (φ → ftri P m Q E) → ftri (λ t, φ ∧ P t) m Q E.
Proof. intros Hm s Hs [Hφ HP]. by apply Hm. Qed.

End Triples.

(** ** What calls do to files *)

Lemma put_bytes_files t fd g c k : files t fd = Some c → files (put_bytes t fd g) k = if decide (k = fd) then Some (g c) else files t k.
Proof.
  intros Hc%files_Some. unfold put_bytes. rewrite Hc. unfold files. destruct (decide (k = fd)) as [->|Hk].
  - by rewrite lookup_insert_eq.
  - by rewrite lookup_insert_ne.
Qed.

Lemma put_bytes_tree t fd g : tree_ok t → tree_ok (put_bytes t fd g).
Proof. intros Ht. apply (put_bytes_keeps (λ _, True) t fd g Ht I). Qed.

Section Calls.
Context `{OSTimes, MapOrder}.

(** A write leaves the first bytes of the data, all of them on success. *)
Lemma file_write_cases o fd f b c : tree_ok (os_tree o) → files (os_tree o) fd = Some c →
  tree_ok (os_tree (file_write o fd f b).1) ∧
  ∃ n, (∀ k, files (os_tree (file_write o fd f b).1) k = if decide (k = fd) then Some (f c (take n b)) else files (os_tree o) k) ∧
    (∀ x, (file_write o fd f b).2 = inl x → take n b = b).
Proof.
  intros Ht Hc. unfold file_write. destruct (os_faults o) as [|[[e j]|] fs]; cbn [fst snd os_tree];
    (split; [by apply put_bytes_tree|]).
  - exists (length b). split; [intros k; rewrite take_ge by done; by rewrite (put_bytes_files _ _ _ c)|]. intros x _. by apply take_ge.
  - exists j. split; [intros k; by rewrite (put_bytes_files _ _ _ c)|done].
  - exists (length b). split; [intros k; rewrite take_ge by done; by rewrite (put_bytes_files _ _ _ c)|]. intros x _. by apply take_ge.
Qed.

(** The rename of a file: nothing, or the file is at the new name. *)
Lemma os_Rename_file o s d c : tree_ok (os_tree o) → Forall plain_elem s → Forall plain_elem d → s ≠ [] →
  os_tree o !! s = Some (NFile c) → ¬ s `prefix_of` d →
  let '(o', r) := os_Rename o (abs_path s) (abs_path d) in
  (os_tree o' = os_tree o ∧ ∃ e, r = inr e) ∨
  (r = inl () ∧ tree_ok (os_tree o') ∧
   ∀ k, files (os_tree o') k = if decide (k = d) then Some c else if decide (k = s) then None else files (os_tree o) k).
Proof.
  intros Ht Hs Hd Hsne Hc Hsd. unfold os_Rename. pose proof (syscall_tree o (sys_rename (abs_path s) (abs_path d))) as Hsys.
  destruct (syscall o _) as [o' r]. cbn [fst snd] in Hsys. destruct Hsys as [[-> [e ->]]|[-> ->]]; [left; split; [done|by eexists]|].
  unfold sys_rename. rewrite (proj1 (path_elems_abs s Hs)), (proj1 (path_elems_abs d Hd)).
  destruct (lookup_parent (os_tree o) (abs_path s)) as [e|]; [left; split; [done|by eexists]|].
  destruct (lookup_parent (os_tree o) (abs_path d)) as [e|] eqn:Ep; [left; split; [done|by eexists]|].
  apply lookup_parent_None in Ep. rewrite (proj1 (path_elems_abs d Hd)) in Ep.
  destruct (lookup_node (os_tree o) (abs_path s)) as [n|e] eqn:En; [|left; split; [done|by eexists]].
  apply lookup_node_inl in En. rewrite (proj1 (path_elems_abs s Hs)), Hc in En. injection En as <-.
  rewrite decide_False by (intros ->; by apply Hsd). rewrite (bool_decide_false (NFile c = NDir)) by done. cbn [andb].
  assert (Hmove : os_tree o !! d ≠ Some NDir → tree_ok (move_tree (os_tree o) s d) ∧
    ∀ k, files (move_tree (os_tree o) s d) k = if decide (k = d) then Some c else if decide (k = s) then None else files (os_tree o) k).
  { intros Hnd. assert (Hdne : d ≠ []) by (intros ->; by rewrite (tok_root _ Ht) in Hnd).
    assert (Hf : no_file_above (os_tree o) d) by (by apply no_file_above_dir).
    assert (Em : moved (os_tree o) s d = move_tree (os_tree o) s d) by (unfold moved; by rewrite add_dirs_id).
    rewrite <- Em. split; [by eapply moved_ok|]. intros k. by apply moved_files. }
  destruct (os_tree o !! d) as [[|c']|]; [left; split; [done|by eexists]|..];
    (destruct (HasSuffix (abs_path d) "/"); [left; split; [done|by eexists]|right; split; [done|by apply Hmove]]).
Qed.

End Calls.

(** ** Helpers that change no file *)

Section Quiet.
Context `{OSTimes, MapOrder} (base : list string).

Abbreviation silent m := (spec base (λ _, False) m (λ _, True)).

Lemma silent_stat p conv : silent (px_call (λ o, os_Stat o p) conv).
Proof. apply spec_call, os_Stat_keeps. Qed.

Lemma silent_mkdirs p conv : silent (px_call (λ o, os_MkdirAll o p) conv).
Proof. apply spec_call, os_MkdirAll_keeps. Qed.

Lemma silent_nop conv : silent (px_call (px_raw sys_nop) conv).
Proof. by apply spec_call, raw_keeps. Qed.

Lemma silent_fsStatDir p : silent (fsStatDir p).
Proof.
  apply spec_if; [apply spec_fail|]. apply spec_bind_any; [apply spec_length|]. intros _. apply spec_bind_any; [apply silent_stat|]. intros fi.
  apply spec_if; [apply spec_fail|by apply spec_ret].
Qed.

Lemma silent_fsStatFile p : silent (fsStatFile p).
Proof.
  apply spec_if; [apply spec_fail|]. apply spec_bind_any; [apply spec_length|]. intros _. apply spec_bind_any; [apply silent_stat|]. intros fi.
  apply spec_if; [apply spec_fail|by apply spec_ret].
Qed.

Lemma silent_falloc n : silent (fsFAllocate n).
Proof.
  apply spec_bind_any.
  - unfold Fallocate. apply spec_if; [by apply spec_ret|]. apply spec_bind_any; [by apply spec_try, raw_keeps|]. intros r. by apply spec_ret.
  - intros [e|]; [|by apply spec_ret]. repeat first [apply spec_if | apply spec_fail | by apply spec_ret].
Qed.

Lemma ftri_bucket uuid bucket (P : asn) : stable P → ftri base uuid P (statBucketDir bucket) (λ _, P) P.
Proof.
  intros HP. eapply ftri_bind.
  - unfold getBucketDir. destruct (negb (IsValidBucketName bucket)); [by apply ftri_fail|]. apply ftri_get. intros s Hs _. by apply (ftri_ret _ _ _ _ (λ _, P)).
  - intros d. apply ftri_call, ptri_quiet; [apply silent_fsStatDir|done].
Qed.

End Quiet.

(** ** PutObject *)

Section Put.
Context `{OSTimes, MapOrder, FSJson, Hashes}.
Context (ReleaseTag : string) (md5_Sum : bytes → bytes) (mimedb_DB : string → option string).
Context (base : list string) (bucket object : string) (Hn : fs_names base bucket object).
Context (uuid temp : string) (Hids : plain_elem uuid ∧ plain_elem temp).
(** The files before. *)
Context (f0 : list string → option bytes).

Abbreviation ko := (object_key base bucket object).
Abbreviation mk := (meta_key base bucket object).
Abbreviation kt := (tmp_key base uuid temp).

Context (Hfresh : f0 kt = None).

(** The file of the metadata while the object is the old one: as it was, or
    new and empty. *)
Definition meta_old (m : option bytes) : Prop := m = f0 mk ∨ f0 mk = None ∧ m = Some [].

Definition others (t : tree) : Prop := ∀ k, k ≠ ko → k ≠ mk → k ≠ kt → files t k = f0 k.

(** The object is the old one; [x] is the temporary file. *)
Record before (m x : option bytes) (t : tree) : Prop := {
  bf_others : others t;
  bf_object : files t ko = f0 ko;
  bf_meta : files t mk = m;
  bf_tmp : files t kt = x;
}.

(** The object is the new one. *)
Record after (content : bytes) (m : option bytes) (t : tree) : Prop := {
  af_others : others t;
  af_object : files t ko = Some content;
  af_meta : files t mk = m;
  af_tmp : files t kt = None;
}.

Lemma before_stable m x : stable (before m x).
Proof. intros t t' E [B1 B2 B3 B4]. split; try by rewrite E. intros k ? ? ?. rewrite E. by apply B1. Qed.

Lemma after_stable c m : stable (after c m).
Proof. intros t t' E [B1 B2 B3 B4]. split; try by rewrite E. intros k ? ? ?. rewrite E. by apply B1. Qed.

Lemma key_facts : kt ≠ ko ∧ kt ≠ mk ∧ ko ≠ mk ∧ ¬ kt `prefix_of` ko ∧ kt ≠ [] ∧ Forall plain_elem kt ∧ Forall plain_elem ko ∧ Forall plain_elem mk.
Proof.
  assert (Hab : apart kt ko) by (apply apart_at; intros E; by apply (fn_bucket _ _ _ Hn)).
  pose proof (ko_mk_apart _ _ _ Hn) as Hom. destruct fs_consts_clean as (C1 & C2 & C3 & C4).
  assert (Hb : Forall plain_elem base) by apply Hn.
  split_and!; [by apply apart_ne|by intros E%app_inv_head|by apply apart_ne|apply Hab|by unfold tmp_key; destruct base| | |].
  - unfold tmp_key. rewrite !Forall_app, !Forall_cons. split_and!; [done|..|apply Hids|apply Hids|constructor]; by apply (bool_decide_unpack _).
  - apply os_name_plain, Hn.
  - apply os_name_plain, Hn.
Qed.

(** The metadata file is opened, and made if it is missing. *)
Lemma tri_Create : ftri base uuid (before (f0 mk) None) (rwPool_Create (abs_path mk)) (λ lk t, lk_fd lk = mk ∧ before (Some (default [] (f0 mk))) None t)
  (λ t, ∃ m, meta_old m ∧ before m None t).
Proof.
  destruct key_facts as (K1 & K2 & K3 & _ & _ & _ & _ & Hpl). unfold rwPool_Create.
  assert (Hold : ∀ t, before (f0 mk) None t → ∃ m, meta_old m ∧ before m None t) by (intros t Ht; exists (f0 mk); split; [by left|done]).
  eapply ftri_bind; [eapply ftri_weaken; [apply ftri_lift|done|done|done]|]; intros [].
  eapply ftri_bind; [apply ftri_call; eapply ptri_weaken; [apply ptri_quiet; [apply silent_mkdirs|apply before_stable]|done|done|done]|]; intros [].
  apply ftri_call, ptri_conv. unfold LockedOpenFile.
  eapply (ptri_bind _ _ _ _ (λ fd t, fd = mk ∧ before (Some (default [] (f0 mk))) None t)).
  - apply ptri_call. intros o Ho Hb. destruct (os_OpenFile_files o mk Ho) as [F1 F2]; [by apply path_elems_abs|].
    pose proof (os_OpenFile_keeps (λ k, k = mk) (abs_path mk) (proj1 (path_elems_abs mk Hpl)) o Ho) as [F3 F4]. cbv beta in F3, F4.
    destruct (os_OpenFile o (abs_path mk) true) as [o' [fd|e]]; cbn [fst snd] in *; (split; [done|]); destruct Hb as [B1 B2 B3 B4].
    + destruct (F2 fd eq_refl) as [-> F5]. rewrite B3 in F5. split; [done|]. split; [|rewrite F4 by done..|done|].
      * intros k ? ? ?. rewrite F4 by done. by apply B1.
      * done.
      * by rewrite F4.
    + assert (Hm : meta_old (files (os_tree o') mk)) by (unfold meta_old; rewrite B3 in F1; destruct F1 as [->|[-> ->]]; [by left|by right]).
      exists (files (os_tree o') mk). split; [done|]. split; [|rewrite F4 by done..|done|].
      * intros k ? ? ?. rewrite F4 by done. by apply B1.
      * done.
      * by rewrite F4.
  - intros fd.
    assert (Hst : stable (λ t, fd = mk ∧ before (Some (default [] (f0 mk))) None t)) by (intros t t' E [? Hb]; split; [done|by eapply before_stable]).
    assert (Herr : ∀ t, (fd = mk ∧ before (Some (default [] (f0 mk))) None t) → ∃ m, meta_old m ∧ before m None t).
    { intros t [_ Hb]. eexists. split; [|exact Hb]. unfold meta_old. destruct (f0 mk); [by left|by right]. }
    eapply ptri_bind; [eapply ptri_weaken; [apply ptri_quiet; [apply silent_nop|exact Hst]|done|done|exact Herr]|]; intros [].
    eapply ptri_bind; [eapply ptri_weaken; [apply ptri_quiet; [apply silent_stat|exact Hst]|done|done|exact Herr]|]. intros st.
    apply ptri_if; [by apply ptri_fail|]. by apply ptri_ret.
Qed.

(** The temporary file is written. *)
Lemma tri_copy m data_err bufSize : ∀ fuel d data,
  ptri base (before m (Some d)) (copy_file fuel kt (length d) {| rd_data := data; rd_err := data_err |} bufSize)
    (λ n t, n = zlen (d ++ data) ∧ err_eqb (Some data_err) (Some (io_EOF : error)) = true ∧ before m (Some (d ++ data)) t)
    (λ t, ∃ x, before m x t).
Proof.
  destruct key_facts as (K1 & K2 & K3 & _).
  induction fuel as [|fuel IH]; intros d data; (destruct data as [|y data]; cbn [copy_file rd_data rd_err]).
  1, 3: destruct (err_eqb _ _) eqn:Ee; [apply ptri_ret; rewrite app_nil_r; done|apply ptri_fail; eauto].
  { apply ptri_fail. eauto. }
  set (data' := y :: data). set (chunk := take bufSize data').
  eapply (ptri_bind _ _ _ _ (λ _ t, before m (Some (d ++ chunk)) t)).
  - apply ptri_call. intros o Ho [B1 B2 B3 B4].
    destruct (file_write_cases o kt (λ c b, write_at c (length d) b) chunk d Ho B4) as (F1 & n & F2 & F3).
    assert (Hb : before m (Some (d ++ take n chunk)) (os_tree (file_write o kt (λ c b, write_at c (length d) b) chunk).1)).
    { split; [intros k ? ? ?|..]; rewrite F2.
      - rewrite decide_False by done. by apply B1.
      - rewrite decide_False by done. done.
      - rewrite decide_False by done. done.
      - rewrite decide_True by done. by rewrite write_at_end. }
    split; [done|]. destruct (file_write o kt _ chunk).2 as [x|e]; [|by eexists]. rewrite (F3 x eq_refl) in Hb. exact Hb.
  - intros _. rewrite <- length_app. replace (d ++ data') with ((d ++ chunk) ++ drop bufSize data') by (unfold chunk; by rewrite <- app_assoc, take_drop).
    apply IH.
Qed.

Lemma tri_fsCreateFile m r bufSize size : ptri base (before m None) (fsCreateFile (abs_path kt) r bufSize size)
  (λ n t, n = zlen (rd_data r) ∧ err_eqb (Some (rd_err r)) (Some (io_EOF : error)) = true ∧ before m (Some (rd_data r)) t)
  (λ t, ∃ x, before m x t).
Proof.
  destruct key_facts as (K1 & K2 & K3 & _ & _ & Hpl & _). unfold fsCreateFile.
  assert (Herr : ∀ x t, before m x t → ∃ x, before m x t) by eauto.
  apply ptri_if; [apply ptri_fail, Herr|].
  eapply ptri_bind; [eapply ptri_weaken; [apply ptri_quiet; [apply spec_length|apply before_stable]|done|done|apply Herr]|]; intros [].
  eapply ptri_bind; [eapply ptri_weaken; [apply ptri_quiet; [apply silent_mkdirs|apply before_stable]|done|done|apply Herr]|]; intros [].
  eapply (ptri_bind _ _ _ _ (λ fd t, fd = kt ∧ before m (Some []) t)).
  - apply ptri_call. intros o Ho Hb. destruct (os_OpenFile_files o kt Ho) as [F1 F2]; [by apply path_elems_abs|].
    pose proof (os_OpenFile_keeps (λ k, k = kt) (abs_path kt) (proj1 (path_elems_abs kt Hpl)) o Ho) as [F3 F4]. cbv beta in F3, F4.
    assert (Hb' : before m (files (os_tree (os_OpenFile o (abs_path kt) true).1) kt) (os_tree (os_OpenFile o (abs_path kt) true).1)).
    { destruct Hb as [B1 B2 B3 B4]. split; [intros k ? ? ?|..]; try (rewrite F4 by done); [by apply B1|done|done|done]. }
    split; [done|]. destruct (os_OpenFile o (abs_path kt) true) as [o' [fd|e]]; cbn [fst snd] in *; [|by eapply Herr].
    destruct (F2 fd eq_refl) as [-> F5]. rewrite (bf_tmp _ _ _ Hb) in F5. rewrite F5 in Hb'. by split.
  - intros fd. eapply (ptri_bind _ _ _ _ (λ _ t, fd = kt ∧ before m (Some []) t)).
    + assert (Hst : stable (λ t, fd = kt ∧ before m (Some []) t)) by (intros t t' E [? Hb]; split; [done|by eapply before_stable]).
      apply ptri_if; [|by apply (ptri_ret _ _ _ (λ _, _))].
      eapply ptri_weaken; [apply ptri_quiet; [apply silent_falloc|exact Hst]|done|done|]. intros t [_ Hb]. by eapply Herr.
    + intros _ p Hs [-> Hb]. destruct r as [data e]. cbn [rd_data rd_err]. exact (tri_copy m e bufSize (length data) [] data p Hs Hb).
Qed.

(** The commit. *)
Lemma tri_rename m content : ptri base (before m (Some content)) (fsRenameFile (abs_path kt) (abs_path ko))
  (λ _, after content m) (before m (Some content)).
Proof.
  destruct key_facts as (K1 & K2 & K3 & Hpre & Hne & Hpt & Hpo & _). unfold fsRenameFile.
  eapply ptri_bind; [apply ptri_quiet; [apply silent_mkdirs|apply before_stable]|]; intros [].
  apply ptri_call. intros o Ho Hb. pose proof Hb as [B1 B2 B3 B4]. apply files_Some in B4 as Hc.
  pose proof (os_Rename_file o kt ko content Ho Hpt Hpo Hne Hc Hpre) as Hr.
  destruct (os_Rename o (abs_path kt) (abs_path ko)) as [o' r]. cbn [fst snd]. destruct Hr as [[-> [e ->]]|(-> & F1 & F2)]; [by split|].
  split; [done|]. split; [intros k ? ? ?|..]; rewrite F2.
    - rewrite !decide_False by done. by apply B1.
    - by rewrite decide_True.
    - rewrite !decide_False by done. done.
    - rewrite decide_False, decide_True by done. done.
Qed.

(** The metadata of the new object. *)
Lemma tri_WriteTo content c mt lk : lk_fd lk = mk → ptri base (after content (Some c)) (WriteTo mt lk)
  (λ _ t, ∃ js, fs_Marshal mt = inl js ∧ after content (Some js) t)
  (λ t, after content (Some c) t ∨ ∃ js n, fs_Marshal mt = inl js ∧ after content (Some (take n js)) t).
Proof.
  destruct key_facts as (K1 & K2 & K3 & _). intros Hlk. unfold WriteTo. rewrite Hlk.
  destruct (fs_Marshal mt) as [js|e] eqn:Ejs; [|apply ptri_fail; by left].
  assert (Hput : ∀ t t' c' b, after content (Some c') t → (∀ k, files t' k = if decide (k = mk) then Some b else files t k) → after content (Some b) t').
  { intros t t' c' b [B1 B2 B3 B4] E. split; [intros k ? ? ?|..]; rewrite E.
    - rewrite decide_False by done. by apply B1.
    - by rewrite decide_False.
    - by rewrite decide_True.
    - by rewrite decide_False. }
  eapply (ptri_bind _ _ _ _ (λ _ t, after content (Some []) t)).
  - apply ptri_call. intros o Ho Ha. unfold file_Truncate, path_error.
    pose proof (syscall_tree o (λ t, (put_bytes t mk (λ _, []), inl () : unit + errno))) as Hsys. destruct (syscall o _) as [o' r]. cbn [fst snd] in *.
    destruct Hsys as [[-> [e ->]]|[-> ->]]; [split; [done|by left]|]. split; [by apply put_bytes_tree|].
    eapply Hput; [exact Ha|]. intros k. by rewrite (put_bytes_files _ _ _ c) by apply Ha.
  - intros _. eapply (ptri_bind _ _ _ _ (λ _ t, after content (Some js) t)).
    + apply ptri_call. intros o Ho Ha.
      destruct (file_write_cases o mk (λ c b, write_at c 0 b) js [] Ho (af_meta _ _ _ Ha)) as (F1 & n & F2 & F3).
      assert (Hb : after content (Some (take n js)) (os_tree (file_write o mk (λ c b, write_at c 0 b) js).1)).
      { eapply Hput; [exact Ha|]. intros k. rewrite F2. by rewrite (write_at_end []). }
      split; [done|]. destruct (file_write o mk _ js).2 as [x|e]; [rewrite (F3 x eq_refl) in Hb; exact Hb|]. right. by exists js, n.
    + intros _. apply ptri_ret. intros t Ht. by exists js.
Qed.

(** The temporary file goes, if it is there. *)
Lemma tri_remove (P : asn) : (∀ t t', P t → (∀ k, k ≠ kt → files t' k = files t k) → (files t' kt = files t kt ∨ files t' kt = None) → P t') →
  ptri base P (fsRemoveFile (abs_path kt)) (λ _, P) P.
Proof.
  destruct key_facts as (_ & _ & _ & _ & _ & Hpl & _). intros HP. assert (Hst : stable P) by (intros t t' E Ht; eapply HP; [exact Ht|done|by left]).
  unfold fsRemoveFile. apply ptri_if; [by apply ptri_fail|].
  eapply ptri_bind; [apply ptri_quiet; [apply spec_length|exact Hst]|]; intros [].
  apply ptri_call. intros o Ho Ht. pose proof (proj1 (path_elems_abs kt Hpl)) as He.
  pose proof (os_Remove_keeps (λ k, k = kt) (abs_path kt) He o Ho) as [F1 F2]. cbv beta in F1, F2. split; [done|].
  assert (Hq : P (os_tree (os_Remove o (abs_path kt)).1)).
  { eapply HP; [exact Ht|exact F2|]. destruct (os_Remove_cases o (abs_path kt) Ho) as [[-> _]|[n Hr]]; [by left|right].
    rewrite He in Hr. unfold files. by rewrite (rm_tree _ _ _ _ Hr), lookup_delete_eq. }
  by destruct (os_Remove o (abs_path kt)).2.
Qed.

(** ** The outcomes *)

Section Outcome.
Context (size : Z) (data : reader) (metadata : gmap string string) (sha256sum : string).

Let limited := if 0 <? size then io_LimitReader data size else data.
Let content := rd_data limited.
Let mt := put_fsMeta ReleaseTag md5_Sum content metadata.
Let c0 := default [] (f0 mk).

(** What was read is what was announced. *)
Definition verified : Prop := rd_err limited = io_EOF ∧ size ≤ zlen content ∧ digests_ok md5_Sum content metadata sha256sum.

Definition put_old (t : tree) : Prop := ∃ m x, meta_old m ∧ before m x t.

(** The new object with the old metadata, or some of the new. *)
Definition put_new (t : tree) : Prop := verified ∧
  (after content (Some c0) t ∨ ∃ js n, fs_Marshal mt = inl js ∧ after content (Some (take n js)) t).

Definition put_all (t : tree) : Prop := verified ∧ ∃ js, fs_Marshal mt = inl js ∧ after content (Some js) t.

Lemma c0_old : meta_old (Some c0).
Proof. unfold meta_old, c0. destruct (f0 mk); [by left|by right]. Qed.

Lemma before_removed m x t t' : before m x t → (∀ k, k ≠ kt → files t' k = files t k) → ∃ x', before m x' t'.
Proof.
  destruct key_facts as (K1 & K2 & K3 & _). intros [B1 B2 B3 B4] E. exists (files t' kt).
  split; [intros k ? ? ?; rewrite E by done; by apply B1|by rewrite E..|done].
Qed.

Lemma after_removed c m t t' : after c m t → (∀ k, k ≠ kt → files t' k = files t k) → (files t' kt = files t kt ∨ files t' kt = None) → after c m t'.
Proof.
  destruct key_facts as (K1 & K2 & K3 & _). intros [B1 B2 B3 B4] E Ek.
  split; [intros k ? ? ?; rewrite E by done; by apply B1|by rewrite E..|by destruct Ek as [->|]].
Qed.

Lemma put_old_removed t t' : put_old t → (∀ k, k ≠ kt → files t' k = files t k) → put_old t'.
Proof. intros (m & x & Hm & Hb) E. destruct (before_removed m x t t' Hb E) as [x' Hb']. by exists m, x'. Qed.

Lemma put_new_removed t t' : put_new t → (∀ k, k ≠ kt → files t' k = files t k) → (files t' kt = files t kt ∨ files t' kt = None) → put_new t'.
Proof.
  intros [Hv Ha] E Ek. split; [done|]. destruct Ha as [Ha|(js & n & Hjs & Ha)]; [left; by eapply after_removed|].
  right. exists js, n. split; [done|by eapply after_removed].
Qed.

Lemma put_all_removed t t' : put_all t → (∀ k, k ≠ kt → files t' k = files t k) → (files t' kt = files t kt ∨ files t' kt = None) → put_all t'.
Proof. intros [Hv (js & Hjs & Ha)] E Ek. split; [done|]. exists js. split; [done|by eapply after_removed]. Qed.

Lemma filled_md5 : default "" (put_metadata md5_Sum content metadata !! "md5Sum") = hex_encode (md5_Sum content) ∨
  default "" (put_metadata md5_Sum content metadata !! "md5Sum") ≠ "".
Proof. unfold put_metadata. case_bool_decide; [left; by rewrite lookup_insert_eq|by right]. Qed.

(** The digests are checked before the rename. *)
Lemma tri_finish lk : lk_fd lk = mk → rd_err limited = io_EOF → size ≤ zlen content →
  ftri base uuid (before (Some c0) (Some content)) (put_finish ReleaseTag md5_Sum mimedb_DB bucket object (abs_path kt) content metadata sha256sum (Some lk))
    (λ _, put_all) (λ t, put_old t ∨ put_new t).
Proof.
  intros Hlk Heof Hsize. unfold put_finish. fold (put_metadata md5_Sum content metadata).
  assert (Hold : ∀ t, before (Some c0) (Some content) t → put_old t ∨ put_new t) by (intros t Ht; left; eexists _, _; split; [apply c0_old|exact Ht]).
  destruct (negb (bool_decide (default "" (put_metadata md5_Sum content metadata !! "md5Sum") = "")) && _) eqn:E1; [by apply ftri_fail|].
  destruct (negb (bool_decide (sha256sum = "")) && _) eqn:E2; [by apply ftri_fail|].
  assert (Hv : verified).
  { split_and!; [done|done|]. split.
    - pose proof filled_md5 as Hfill. apply andb_false_iff in E1 as [E1|E1]; apply negb_false_iff, bool_decide_eq_true in E1; [by destruct Hfill|done].
    - apply andb_false_iff in E2 as [E2|E2]; apply negb_false_iff, bool_decide_eq_true in E2; [by left|by right]. }
  apply ftri_get. intros s Hs _. assert (Hpath : fsObjPath s bucket object = abs_path ko) by (unfold fsObjPath; rewrite Hs; by apply object_path).
  rewrite Hpath. eapply (ftri_bind _ _ _ _ _ (λ _, after content (Some c0))).
  { apply ftri_call. eapply ptri_weaken; [apply tri_rename|done|done|exact Hold]. }
  intros _. eapply (ftri_bind _ _ _ _ _ (λ _ t, ∃ js, fs_Marshal mt = inl js ∧ after content (Some js) t)).
  { apply ftri_call. eapply ptri_weaken; [by apply (tri_WriteTo content c0 mt lk)|done|done|]. intros t Ht. right. by split. }
  intros _. eapply (ftri_bind _ _ _ _ _ (λ _, put_all)).
  - apply ftri_call. eapply (ptri_weaken _ _ (λ t, ∃ js, fs_Marshal mt = inl js ∧ after content (Some js) t)); [apply ptri_quiet; [apply silent_fsStatFile|]|done|by split|].
    + intros t t' E (js & Hjs & Ha). exists js. split; [done|by eapply after_stable].
    + intros t (js & Hjs & Ha). right. split; [done|]. right. exists js, (length js). by rewrite take_ge.
  - intros fi. by apply (ftri_ret _ _ _ _ (λ _, put_all)).
Qed.

(** The whole put. *)
Lemma tri_PutObject : ftri base uuid (before (f0 mk) None)
  (fs_PutObject ReleaseTag md5_Sum mimedb_DB temp bucket object size data metadata sha256sum)
  (λ _, put_all) (λ t, put_old t ∨ put_new t).
Proof.
  assert (Hold : ∀ m x t, meta_old m → before m x t → put_old t ∨ put_new t) by (intros m x t Hm Ht; left; by exists m, x).
  assert (Hpre : ∀ t, before (f0 mk) None t → put_old t ∨ put_new t) by (intros t; apply Hold; by left).
  unfold fs_PutObject. eapply (ftri_bind _ _ _ _ _ (λ _, before (f0 mk) None)).
  { unfold bucket_err. eapply ftri_bind; [eapply ftri_weaken; [apply ftri_catch|done|done|done]|].
    - unfold fs_GetBucketInfo. eapply ftri_bind; [apply ftri_err, ftri_bucket, before_stable|]. intros st.
      by apply (ftri_ret _ _ _ _ (λ _, before (f0 mk) None)).
    - intros r. apply ftri_ret. by destruct r. }
  intros bErr. eapply (ftri_bind _ _ _ _ _ (λ _, before (f0 mk) None)).
  { eapply ftri_weaken; [apply ftri_lift|done|done|exact Hpre]. }
  intros _. eapply (ftri_bind _ _ _ _ _ (λ _, before (f0 mk) None)).
  { eapply ftri_weaken; [apply ftri_err, ftri_bucket, before_stable|done|done|exact Hpre]. }
  intros _. apply ftri_get. intros s Hp Hu.
  assert (Em : fsMetaPath s bucket object = abs_path mk) by (unfold fsMetaPath; rewrite Hp; by apply meta_path).
  assert (Et : pathJoin [fsPath s; minioMetaTmpBucket; fsUUID s; temp] = abs_path kt) by (rewrite Hp, Hu; by apply (tmp_path _ _ _ Hn); apply Hids).
  rewrite Em, Et. rewrite (bool_decide_false (bucket = minioMetaBucket)) by apply Hn. cbn [negb].
  eapply (ftri_bind _ _ _ _ _ (λ wlk t, (∃ lk, wlk = Some lk ∧ lk_fd lk = mk) ∧ before (Some c0) None t)).
  { eapply ftri_bind; [eapply ftri_weaken; [apply ftri_err, tri_Create|done|done|]|].
    - intros t (m & Hm & Hb). by eapply Hold.
    - intros lk. apply ftri_ret. intros t [Hlk Hb]. split; [by exists lk|done]. }
  intros wlk. fold limited. set (bufSize := Z.to_nat _).
  assert (Hrm : ∀ (B : Type) (e : error), ftri base uuid (λ t, put_old t ∨ put_new t) (_ ← fs_try (fsRemoveFile (abs_path kt)); fs_fail e : fsx B)
    (λ _, put_all) (λ t, put_old t ∨ put_new t)).
  { intros B e. eapply ftri_bind; [eapply ftri_weaken; [apply ftri_try, (tri_remove (λ t, put_old t ∨ put_new t))|done|done|done]|].
    - intros t t' [Ht|Ht] E Ek; [left; by eapply put_old_removed|right; by eapply put_new_removed].
    - intros r. apply ftri_fail. by destruct r. }
  apply ftri_pure. intros (lk & -> & Hlk).
  eapply ftri_bind; [eapply ftri_weaken; [apply ftri_try, (tri_fsCreateFile (Some c0) limited bufSize size)|done|done|done]|].
  intros [n|e].
  - apply ftri_pure. intros ->. apply ftri_pure. intros Heof. fold content. destruct (zlen content <? size) eqn:Esz.
    { eapply ftri_weaken; [apply Hrm| |done|done]. intros t Ht. eapply Hold; [apply c0_old|exact Ht]. }
    eapply ftri_defer; [apply tri_finish; [done| |by apply Z.ltb_ge]| |].
    + apply err_eqb_eq in Heof. congruence.
    + intros a. eapply ftri_weaken; [apply ftri_try, (tri_remove put_all); intros t t'; apply put_all_removed|done|by intros [?|?] ?|done].
    + eapply ftri_weaken; [apply ftri_try, (tri_remove (λ t, put_old t ∨ put_new t))|done|by intros [?|?] ?|done].
      intros t t' [Ht|Ht] E Ek; [left; by eapply put_old_removed|right; by eapply put_new_removed].
  - eapply ftri_weaken; [apply Hrm| |done|done]. intros t [x Ht]. eapply Hold; [apply c0_old|exact Ht].
Qed.

End Outcome.
End Put.

(** ** The theorem *)

Section Theorem_.
Context `{OSTimes, MapOrder, FSJson, Hashes}.
Context (ReleaseTag : string) (md5_Sum : bytes → bytes) (mimedb_DB : string → option string).
Context (base : list string) (bucket object : string) (Hn : fs_names base bucket object).

(** C6.  FS backend: whatever calls of the system fail, a put replaces the
    object as a whole or not at all.  If it succeeds, the object is the data that
    was read, which ended normally, has the announced size and the announced
    digests, its metadata is complete and the temporary file is gone.  If it
    fails, the object is what it was, or it is the whole new data, verified, and
    only the metadata is missing.  No other file changes. *)
Theorem fs_put_atomic : ∀ uuid temp s size data metadata sha256sum,
  let limited := if 0 <? size then io_LimitReader data size else data in
  let content := rd_data limited in
  let ko := object_key base bucket object in
  let mk := meta_key base bucket object in
  let kt := tmp_key base uuid temp in
  let old := files (fs_tree s) in
  plain_elem uuid ∧ plain_elem temp → fs_sound base uuid s → old kt = None →
  let '(s', r) := fs_PutObject ReleaseTag md5_Sum mimedb_DB temp bucket object size data metadata sha256sum s in
  let new := files (fs_tree s') in
  let ok := rd_err limited = io_EOF ∧ size ≤ zlen content ∧ digests_ok md5_Sum content metadata sha256sum in
  tree_ok (fs_tree s') ∧ (∀ k, k ≠ ko → k ≠ mk → k ≠ kt → new k = old k) ∧
  match r with
  | inl _ => ok ∧ new ko = Some content ∧ new kt = None ∧
      ∃ js, fs_Marshal (put_fsMeta ReleaseTag md5_Sum content metadata) = inl js ∧ new mk = Some js
  | inr _ => new ko = old ko ∧ (new mk = old mk ∨ old mk = None ∧ new mk = Some []) ∨ ok ∧ new ko = Some content
  end.
Proof.
  intros uuid temp s size data metadata sha256sum limited content ko mk kt old Hids Hs Hfresh.
  pose proof (tri_PutObject ReleaseTag md5_Sum mimedb_DB base bucket object Hn uuid temp Hids old Hfresh size data metadata sha256sum s Hs) as Htri.
  destruct (fs_PutObject _ _ _ _ _ _ _ _ _ _ s) as [s' r]. cbn [fst snd] in Htri.
  destruct Htri as [[Ht _] Hr]; [by split|]. split; [done|]. destruct r as [info|e].
  - destruct Hr as [Hv (js & Hjs & [A1 A2 A3 A4])]. split; [done|]. split_and!; [apply Hv|apply Hv|apply Hv|done|done|]. by exists js.
  - destruct Hr as [(m & x & Hm & [B1 B2 B3 B4])|[Hv Ha]].
    + split; [done|]. left. split; [done|]. rewrite <- B3 in Hm. exact Hm.
    + destruct Ha as [[A1 A2 A3 A4]|(js & n & Hjs & [A1 A2 A3 A4])]; (split; [done|]); right; (split; [exact Hv|done]).
Qed.

End Theorem_.

(** ** Runs with faults *)

#[local] Existing Instances demo_times map_order_rev demo_fsjson demo_fsjson_ok demo_hashes.

Definition fs_with_faults (s : fsObjects) (fs : list fault) : fsObjects := fs_set_os s (OSFS (fs_tree s) fs (os_statfs (fs_os s))).

(** The put of "hello" over "old", with the given faults. *)
Definition demo_put (fs : list fault) : fsObjects * (ObjectInfo + error) :=
  fs_PutObject "dev" demo_digest demo_mime "t-1" "photos" "a/x.txt" 5 {| rd_data := bytes_of_string "hello, world"; rd_err := io_EOF |}
    ∅ "" (fs_with_faults fs_demo fs).

(** The disk is full when the first bytes of the metadata are written: the
    object is the new one, and the put has failed. *)
Lemma fs_put_atomic_witness :
  let s := fs_with_faults fs_demo (replicate 21 None ++ [Some (ENOSPC, 2%nat)]) in
  let '(s', r) := demo_put (replicate 21 None ++ [Some (ENOSPC, 2%nat)]) in
  fs_sound ["disk"] "u-1" s ∧ tree_ok (fs_tree s') ∧ (∃ e, r = inr e) ∧
  files (fs_tree s') ["disk"; "photos"; "y"] = Some (bytes_of_string "y") ∧
  files (fs_tree s') ["disk"; "photos"; "a"; "x.txt"] = Some (bytes_of_string "hello") ∧
  length <$> files (fs_tree s') (meta_key ["disk"] "photos" "a/x.txt") = Some 2%nat.
Proof.
  set (fs := replicate 21 None ++ [Some (ENOSPC, 2%nat)]). cbv zeta.
  assert (Hs : fs_sound ["disk"] "u-1" (fs_with_faults fs_demo fs)) by (split; [apply fs_demo_ready|done]).
  assert (Hy : files (fs_tree (demo_put fs).1) ["disk"; "photos"; "a"; "x.txt"] = Some (bytes_of_string "hello") ∧
    length <$> files (fs_tree (demo_put fs).1) (meta_key ["disk"] "photos" "a/x.txt") = Some 2%nat ∧
    match (demo_put fs).2 with inl _ => false | inr _ => true end = true) by (by vm_compute).
  pose proof (fs_put_atomic "dev" demo_digest demo_mime ["disk"] "photos" "a/x.txt" fs_demo_names "u-1" "t-1" (fs_with_faults fs_demo fs) 5
    {| rd_data := bytes_of_string "hello, world"; rd_err := io_EOF |} ∅ "" (pr_ids _ _ _ _ _ fs_demo_ready) Hs) as Hput.
  cbv zeta in Hput. fold (demo_put fs) in Hput.
  destruct (demo_put fs) as [s' r]. cbn [fst snd] in Hy. destruct Hy as (H1 & H2 & H3).
  destruct Hput as (Ht & Hother & _); [by vm_compute|]. split_and!; [done|done| | |done|done].
  - destruct r as [i|e]; [done|by exists e].
  - etransitivity; [apply Hother; intros E; vm_compute in E; discriminate E|]. by vm_compute.
Defined.

(** ** What the runs show *)

Definition put_bytes_as (object : string) (content md5 : string) : fsx ObjectInfo :=
  fs_PutObject "dev" demo_digest demo_mime "t-1" "photos" object (Z.of_nat (String.length content))
    {| rd_data := bytes_of_string content; rd_err := io_EOF |} (if bool_decide (md5 = "") then ∅ else {[ "md5Sum" := md5 ]}) "".

(** A put that is rejected leaves an empty fs.json: the object, which does not
    exist, is reported with the error of the end of the file. *)
Example rejected_put_leaves_metadata :
  let '(s, r) := put_bytes_as "new.txt" "hello" "0badd1ce" fs_demo in
  match r with inr (Traced (ObjErr (BadDigest _ _)) _) => True | _ => False end ∧
  (fs_GetObjectInfo demo_mime "photos" "new.txt" s).2 = inr (Traced io_EOF []) ∧
  (fs_GetObjectInfo demo_mime "photos" "new.txt" fs_demo).2 = inr (Traced (ObjectNotFound "photos" "new.txt") []).
Proof. by vm_compute. Qed.

(** A bucket that could not be made, since the disk is full, is reported as
    made. *)
Example make_bucket_drops_error :
  let '(s, r) := fs_MakeBucket "new-bucket" (fs_with_faults fs_demo [Some (ENOSPC, 0%nat)]) in
  r = inl () ∧ fs_tree s !! ["disk"; "new-bucket"] = None.
Proof. by vm_compute. Qed.

(** The source of a copy may be a path out of the bucket, and out of the
    directory that is exported. *)
Example copy_from_outside :
  let s := fs_set_os fs_demo (set_tree (fs_os fs_demo) (<[["secret"] := NFile (bytes_of_string "key")]> fs_demo_tree)) in
  let '(s', r) := fs_CopyObject "dev" demo_digest demo_mime "t-1" "photos" "../../secret" "photos" "copy" ∅ s in
  match r with inl info => Size info = 3 | inr _ => False end ∧
  files (fs_tree s') ["disk"; "photos"; "copy"] = Some (bytes_of_string "key").
Proof. by vm_compute. Qed.

(** A copy of an object onto itself, which is how its metadata is replaced,
    loses the md5 sum, since the metadata comes without it. *)
Example copy_drops_md5 :
  let '(s, r) := put_bytes_as "a/x.txt" "hello" "" fs_demo in
  let '(s', r') := fs_CopyObject "dev" demo_digest demo_mime "t-2" "photos" "a/x.txt" "photos" "a/x.txt" {[ "x-amz-meta-k" := "v" ]} s in
  match r, (fs_GetObjectInfo demo_mime "photos" "a/x.txt" s').2 with
  | inl i, inl j => MD5Sum i ≠ "" ∧ MD5Sum j = ""
  | _, _ => False
  end.
Proof. vm_compute. by split. Qed.
