(* ===== verification/FSPool.v ===== *)
(** * The pool of read locks, with readers that overlap

    [fsIOPool] (src/cmd/fs-v1-rwpool.go) keeps one open file with a shared lock
    for all readers of a metadata file, with a count of references
    (src/pkg/lock).  [Open] holds the mutex of the pool while it looks a path up
    and while it saves a file, and not while it opens the file in between: here
    these are steps of their own, and readers take turns in any order. *)

From S2P Require Import Prelude.
From S2P Require Import FSFiles.

Local Open Scope Z_scope.

(** The files that were opened, by number: their path and references.  The map
    of the pool holds pointers to them. *)
Record rfile := RFile { rf_path : string; rf_refs : Z }.

Record fsIOPool := FsIOPool {
  fsi_readersMap : gmap string nat;
  fsi_files : list rfile;
}.

Definition newPool : fsIOPool := FsIOPool ∅ [].

(** [rlkFile.IsClosed()]; a file that is not there is closed. *)
Definition file_closed (p : fsIOPool) (id : nat) : bool :=
  match fsi_files p !! id with Some f => rf_refs f =? 0 | None => true end.

(** The first section of [Open] under the mutex: the file that is open, with one
    reference more. *)
Definition Open_lookup (p : fsIOPool) (path : string) : fsIOPool * option nat :=
  match fsi_readersMap p !! path with
  | Some id =>
      if file_closed p id then (FsIOPool (delete path (fsi_readersMap p)) (fsi_files p), None)
      else (FsIOPool (fsi_readersMap p) (alter (λ f, RFile (rf_path f) (rf_refs f + 1)) id (fsi_files p)), Some id)
  | None => (p, None)
  end.

(** [lock.RLockedOpenFile]. *)
Definition Open_file (p : fsIOPool) (path : string) : fsIOPool * nat :=
  (FsIOPool (fsi_readersMap p) (fsi_files p ++ [RFile path 1]), length (fsi_files p)).

(** The second section. *)
Definition Open_save (p : fsIOPool) (path : string) (id : nat) : fsIOPool :=
  FsIOPool (<[path := id]> (fsi_readersMap p)) (fsi_files p).

(** [Close] runs under the mutex. *)
Definition Close_path (p : fsIOPool) (path : string) : fsIOPool :=
  match fsi_readersMap p !! path with
  | None => p
  | Some id =>
      let p := FsIOPool (fsi_readersMap p)
                 (alter (λ f, if rf_refs f =? 0 then f else RFile (rf_path f) (rf_refs f - 1)) id (fsi_files p)) in
      if file_closed p id then FsIOPool (delete path (fsi_readersMap p)) (fsi_files p) else p
  end.

(** ** Readers *)

(** A reader is idle, about to open the path, has opened the file, or reads it;
    or it has not found the file and goes on without it. *)
Inductive rstate := RIdle | ROpening (path : string) | ROpened (path : string) (id : nat) | RReading (path : string) (id : nat)
  | RMissing (path : string).

#[export] Instance rstate_dec : EqDecision rstate.
Proof. solve_decision. Defined.

Record readers := Readers { rd_pool : fsIOPool; rd_threads : list rstate }.

(** What reader [i] does next.  After a failed open it gives up, or does without
    the file and closes nothing ([getObjectInfo]); or it is [GetObject] of
    src/cmd/fs-v1.go, which goes on after errFileNotFound and has the path closed
    when it returns all the same. *)
Inductive revent := EvOpen (i : nat) (path : string) | EvFile (i : nat) | EvFail (i : nat) | EvMiss (i : nat) | EvSave (i : nat)
  | EvClose (i : nat).

Definition rstep (s : readers) (e : revent) : option readers :=
  let p := rd_pool s in
  let set i st p := Some (Readers p (<[i := st]> (rd_threads s))) in
  match e with
  | EvOpen i path =>
      match rd_threads s !! i with
      | Some RIdle =>
          match Open_lookup p path with
          | (p, Some id) => set i (RReading path id) p
          | (p, None) => set i (ROpening path) p
          end
      | _ => None
      end
  | EvFile i =>
      match rd_threads s !! i with
      | Some (ROpening path) => let '(p, id) := Open_file p path in set i (ROpened path id) p
      | _ => None
      end
  | EvFail i => match rd_threads s !! i with Some (ROpening _) => set i RIdle p | _ => None end
  | EvMiss i => match rd_threads s !! i with Some (ROpening path) => set i (RMissing path) p | _ => None end
  | EvSave i => match rd_threads s !! i with Some (ROpened path id) => set i (RReading path id) (Open_save p path id) | _ => None end
  | EvClose i => match rd_threads s !! i with Some (RReading path _ | RMissing path) => set i RIdle (Close_path p path) | _ => None end
  end.

(** The path that a reader is opening. *)
Definition opening (st : rstate) (path : string) : bool :=
  match st with ROpening q | ROpened q _ => bool_decide (q = path) | _ => false end.

(** A reader that goes on without the file of the path. *)
Definition missing (st : rstate) (path : string) : bool :=
  match st with RMissing q => bool_decide (q = path) | _ => false end.

(** The same, where a path is not looked up while another reader is opening it,
    and a file does not appear while a reader goes on without it. *)
Definition serial_step (s : readers) (e : revent) : option readers :=
  match e with
  | EvOpen _ path => if existsb (λ st, opening st path) (rd_threads s) then None else rstep s e
  | EvFile i =>
      match rd_threads s !! i with
      | Some (ROpening path) => if existsb (λ st, missing st path) (rd_threads s) then None else rstep s e
      | _ => None
      end
  | _ => rstep s e
  end.

(** ** Any order *)

Inductive reachable (step : readers → revent → option readers) (n : nat) : readers → Prop :=
| reach_init : reachable step n (Readers newPool (replicate n RIdle))
| reach_step s e s' : reachable step n s → step s e = Some s' → reachable step n s'.

(** A file of the map is open, and is the one of its path; a reader that has
    opened a file has it for itself. *)
Record pool_inv (s : readers) : Prop := {
  pi_map : ∀ path id, fsi_readersMap (rd_pool s) !! path = Some id → ∃ f, fsi_files (rd_pool s) !! id = Some f ∧ rf_path f = path ∧ 1 ≤ rf_refs f;
  pi_own : ∀ i path id, rd_threads s !! i = Some (ROpened path id) → fsi_files (rd_pool s) !! id = Some (RFile path 1) ∧
    (∀ q, fsi_readersMap (rd_pool s) !! q ≠ Some id) ∧ ∀ j q, j ≠ i → rd_threads s !! j ≠ Some (ROpened q id);
}.

(** A thread that is not [ROpened] afterwards. *)
Lemma own_stays s i st p : (∀ path id, st ≠ ROpened path id) →
  (∀ j path id, j ≠ i → rd_threads s !! j = Some (ROpened path id) → fsi_files p !! id = Some (RFile path 1) ∧ (∀ q, fsi_readersMap p !! q ≠ Some id)) →
  pool_inv s → ∀ j path id, <[i := st]> (rd_threads s) !! j = Some (ROpened path id) → fsi_files p !! id = Some (RFile path 1) ∧
    (∀ q, fsi_readersMap p !! q ≠ Some id) ∧ ∀ j' q, j' ≠ j → <[i := st]> (rd_threads s) !! j' ≠ Some (ROpened q id).
Proof.
  intros Hst Hkeep [_ Hown] j path id Hj. apply list_lookup_insert_Some in Hj as [(_ & E & _)|[Hij Hj]]; [by destruct (Hst path id)|].
  destruct (Hkeep j path id (not_eq_sym Hij) Hj) as [H1 H2]. destruct (Hown j path id Hj) as (_ & _ & H3). split_and!; [done|done|].
  intros j' q Hne Hj'. apply list_lookup_insert_Some in Hj' as [(_ & E & _)|[_ Hj']]; [by destruct (Hst q id)|]. by apply (H3 j' q).
Qed.

Lemma alter_map (m : gmap string nat) (l : list rfile) g id : (∀ f, rf_path (g f) = rf_path f) →
  (∀ f, l !! id = Some f → 1 ≤ rf_refs f → 1 ≤ rf_refs (g f) ∨ ∀ path, m !! path ≠ Some id) →
  (∀ path id, m !! path = Some id → ∃ f, l !! id = Some f ∧ rf_path f = path ∧ 1 ≤ rf_refs f) →
  ∀ path id', m !! path = Some id' → ∃ f, alter g id l !! id' = Some f ∧ rf_path f = path ∧ 1 ≤ rf_refs f.
Proof.
  intros Hp Hr Hm path id' Hid. destruct (Hm path id' Hid) as (f & Hf & Hpath & Hrefs). destruct (decide (id = id')) as [->|Hne].
  - rewrite list_lookup_alter_eq, Hf. exists (g f). split; [done|]. rewrite Hp. split; [done|].
    destruct (Hr f Hf Hrefs) as [?|Hno]; [done|]. by destruct (Hno path).
  - rewrite list_lookup_alter_ne by done. by exists f.
Qed.

Lemma close_inv s i path' : pool_inv s → pool_inv (Readers (Close_path (rd_pool s) path') (<[i := RIdle]> (rd_threads s))).
Proof.
  intros Hinv. pose proof Hinv as [Hmap Hown]. unfold Close_path. destruct (fsi_readersMap (rd_pool s) !! path') as [id|] eqn:Em.
  2: { split; cbn [rd_pool rd_threads]; [done|]. apply own_stays; [done| |done].
       intros j q k _ Hj. by destruct (Hown j q k Hj) as (H1 & H2 & _). }
  destruct (Hmap path' id Em) as (f & Hf & Hpath & Hrefs). unfold file_closed. cbn [fsi_files fsi_readersMap].
  rewrite list_lookup_alter_eq, Hf. cbn [fmap option_fmap option_map]. rewrite (proj2 (Z.eqb_neq (rf_refs f) 0)) by lia. cbn [rf_refs].
  assert (Hkeep : ∀ j q k, rd_threads s !! j = Some (ROpened q k) → alter (λ f, if rf_refs f =? 0 then f else RFile (rf_path f) (rf_refs f - 1)) id (fsi_files (rd_pool s)) !! k = Some (RFile q 1)).
  { intros j q k Hj. destruct (Hown j q k Hj) as (H1 & H2 & _). rewrite list_lookup_alter_ne; [done|]. intros ->. by apply (H2 path'). }
  destruct (rf_refs f - 1 =? 0) eqn:Ez; (split; cbn [rd_pool rd_threads]).
  + cbn [fsi_readersMap fsi_files]. intros q k [Hne Hk]%lookup_delete_Some. destruct (Hmap q k Hk) as (f' & Hf' & Hp' & Hr'). exists f'.
    rewrite list_lookup_alter_ne; [done|]. intros ->. rewrite Hf in Hf'. injection Hf' as <-. congruence.
  + apply own_stays; [done| |done]. cbn [fsi_files fsi_readersMap]. intros j q k _ Hj. split; [by apply (Hkeep j)|].
    intros q' [_ Hq']%lookup_delete_Some. by apply (proj1 (proj2 (Hown j q k Hj)) q').
  + cbn [fsi_readersMap fsi_files]. apply Z.eqb_neq in Ez. apply alter_map; [intros f'; by destruct (rf_refs f' =? 0)| |done].
    intros f' Hf' _. rewrite Hf in Hf'. injection Hf' as <-. left. rewrite (proj2 (Z.eqb_neq (rf_refs f) 0)) by lia. simpl. lia.
  + apply own_stays; [done| |done]. cbn [fsi_files fsi_readersMap]. intros j q k _ Hj. split; [by apply (Hkeep j)|].
    apply (proj1 (proj2 (Hown j q k Hj))).
Qed.

Lemma rstep_inv s e s' : pool_inv s → rstep s e = Some s' → pool_inv s'.
Proof.
  intros Hinv Hstep. pose proof Hinv as [Hmap Hown]. destruct e as [i path|i|i|i|i|i]; cbn [rstep] in Hstep;
    destruct (rd_threads s !! i) as [st|] eqn:Ei; try done; destruct st as [|path'|path' id'|path' id'|path']; try done.
  - unfold Open_lookup in Hstep. destruct (fsi_readersMap (rd_pool s) !! path) as [id|] eqn:Em.
    + destruct (Hmap path id Em) as (f & Hf & Hpath & Hrefs). unfold file_closed in Hstep. rewrite Hf in Hstep.
      rewrite (proj2 (Z.eqb_neq _ 0)) in Hstep by lia. injection Hstep as <-. split; cbn [rd_pool rd_threads].
      * cbn [fsi_readersMap fsi_files]. apply alter_map; [done| |done]. intros f' _ ?. left. simpl. lia.
      * apply own_stays; [done| |done]. cbn [fsi_files fsi_readersMap]. intros j q k _ Hj. destruct (Hown j q k Hj) as (H1 & H2 & _).
        split; [|done]. rewrite list_lookup_alter_ne; [done|]. intros ->. by apply (H2 path).
    + injection Hstep as <-. split; cbn [rd_pool rd_threads]; [done|]. apply own_stays; [done| |done].
      intros j q k _ Hj. by destruct (Hown j q k Hj) as (H1 & H2 & _).
  - injection Hstep as <-. split; cbn [rd_pool rd_threads fsi_readersMap fsi_files].
    + intros q k Hk. destruct (Hmap q k Hk) as (f & Hf & Hrest). exists f. split; [by apply lookup_app_l_Some|done].
    + assert (Hlt : ∀ q k, fsi_readersMap (rd_pool s) !! q = Some k → (k < length (fsi_files (rd_pool s)))%nat).
      { intros q k Hk. destruct (Hmap q k Hk) as (f & Hf & _). by eapply lookup_lt_Some. }
      intros j q k Hj. apply list_lookup_insert_Some in Hj as [(<- & E & Hlen)|[Hij Hj]].
      * injection E as <- <-. split_and!.
        -- by rewrite lookup_app_r, Nat.sub_diag by done.
        -- intros q' Hq'. apply Hlt in Hq'. lia.
        -- intros j' q' Hne Hj'. apply list_lookup_insert_Some in Hj' as [(E & _)|[_ Hj']]; [done|].
           destruct (Hown j' q' _ Hj') as (Hf & _). apply lookup_lt_Some in Hf. lia.
      * destruct (Hown j q k Hj) as (H1 & H2 & H3). split_and!; [by apply lookup_app_l_Some|done|].
        intros j' q' Hne Hj'. apply list_lookup_insert_Some in Hj' as [(<- & E & _)|[_ Hj']]; [|by apply (H3 j' q')].
        injection E as _ <-. apply lookup_lt_Some in H1. lia.
  - injection Hstep as <-. split; cbn [rd_pool rd_threads]; [done|]. apply own_stays; [done| |done].
    intros j q k _ Hj. by destruct (Hown j q k Hj) as (H1 & H2 & _).
  - injection Hstep as <-. split; cbn [rd_pool rd_threads]; [done|]. apply own_stays; [done| |done].
    intros j q k _ Hj. by destruct (Hown j q k Hj) as (H1 & H2 & _).
  - injection Hstep as <-. destruct (Hown i path' id' Ei) as (H1 & H2 & H3). split; cbn [rd_pool rd_threads]; unfold Open_save.
    + cbn [fsi_readersMap fsi_files]. intros q k Hk. destruct (decide (path' = q)) as [<-|Hne]; [rewrite lookup_insert_eq in Hk; injection Hk as <-; by eexists|].
      rewrite lookup_insert_ne in Hk by done. by apply Hmap.
    + apply own_stays; [done| |done]. cbn [fsi_files fsi_readersMap]. intros j q k Hji Hj. destruct (Hown j q k Hj) as (H4 & H5 & H6).
      split; [done|]. intros q'. destruct (decide (path' = q')) as [<-|Hne].
      * rewrite lookup_insert_eq. intros [= ->]. by apply (H6 i path' (not_eq_sym Hji)).
      * rewrite lookup_insert_ne by done. apply H5.
  - injection Hstep as <-. by apply close_inv.
  - injection Hstep as <-. by apply close_inv.
Qed.

Lemma reachable_inv n s : reachable rstep n s → pool_inv s.
Proof.
  induction 1 as [|s e s' _ IH Hstep]; [|by eapply rstep_inv].
  split; [done|]. intros i path id Hi. by apply lookup_replicate in Hi as [? _].
Qed.

(** Readers that overlap in any way: the pool never holds a closed file.  The
    branch of [Open] for a closed file in the map is dead. *)
Lemma pool_entries_open : ∀ n s path id, reachable rstep n s → fsi_readersMap (rd_pool s) !! path = Some id →
  ∃ f, fsi_files (rd_pool s) !! id = Some f ∧ rf_path f = path ∧ 1 ≤ rf_refs f.
Proof. intros n s path id Hr. apply (pi_map _ (reachable_inv n s Hr)). Qed.

(** ** One open at a time *)

Definition reading (st : rstate) (path : string) : bool :=
  match st with RReading q _ => bool_decide (q = path) | _ => false end.

(** The readers of a path. *)
Definition nreaders (ths : list rstate) (path : string) : Z := zlen (filter (λ st, reading st path = true) ths).

Lemma nreaders_cons st ths path : nreaders (st :: ths) path = (if reading st path then 1 else 0) + nreaders ths path.
Proof. unfold nreaders, zlen. rewrite filter_cons. destruct (reading st path); [rewrite decide_True by done|rewrite decide_False by done]; cbn [length]; lia. Qed.

Lemma nreaders_insert ths i st st' path : ths !! i = Some st →
  nreaders (<[i := st']> ths) path = nreaders ths path - (if reading st path then 1 else 0) + (if reading st' path then 1 else 0).
Proof.
  revert i. induction ths as [|x ths IH]; intros i Hi; [done|]. destruct i as [|i].
  - injection Hi as ->. change (<[0%nat := st']> (st :: ths)) with (st' :: ths). rewrite !nreaders_cons. lia.
  - change (<[S i := st']> (x :: ths)) with (x :: <[i := st']> ths). rewrite !nreaders_cons, (IH i) by done. lia.
Qed.

Lemma nreaders_zero ths path : (∀ i st, ths !! i = Some st → reading st path = false) → nreaders ths path = 0.
Proof.
  intros Hno. induction ths as [|x ths IH]; [done|]. rewrite nreaders_cons, (Hno 0%nat x eq_refl), IH; [done|]. intros i st Hi. by apply (Hno (S i)).
Qed.

Lemma nreaders_pos ths path : ∀ i id, ths !! i = Some (RReading path id) → nreaders ths path ≠ 0.
Proof.
  induction ths as [|x ths IH]; intros i id Hi; [done|]. rewrite nreaders_cons.
  assert (0 ≤ nreaders ths path) by (unfold nreaders, zlen; lia). destruct i as [|i].
  - injection Hi as ->. cbn [reading]. rewrite bool_decide_true by done. lia.
  - specialize (IH i id Hi). destruct (reading x path); lia.
Qed.

Record serial_inv (s : readers) : Prop := {
  si_pool : pool_inv s;
  si_one : ∀ i j st st' path, rd_threads s !! i = Some st → rd_threads s !! j = Some st' → opening st path = true → opening st' path = true → i = j;
  si_open : ∀ i st path, rd_threads s !! i = Some st → opening st path = true → fsi_readersMap (rd_pool s) !! path = None;
  si_read : ∀ i path id, rd_threads s !! i = Some (RReading path id) → fsi_readersMap (rd_pool s) !! path = Some id;
  si_miss : ∀ i path, rd_threads s !! i = Some (RMissing path) →
    fsi_readersMap (rd_pool s) !! path = None ∧ ∀ j id, rd_threads s !! j ≠ Some (ROpened path id);
  si_refs : ∀ path id, fsi_readersMap (rd_pool s) !! path = Some id → ∃ f, fsi_files (rd_pool s) !! id = Some f ∧ rf_refs f = nreaders (rd_threads s) path;
  si_files : ∀ id f, fsi_files (rd_pool s) !! id = Some f → rf_refs f ≠ 0 →
    fsi_readersMap (rd_pool s) !! rf_path f = Some id ∨ ∃ i, rd_threads s !! i = Some (ROpened (rf_path f) id);
}.

Lemma opening_thread (ths : list rstate) i st' (j : nat) st path : <[i := st']> ths !! j = Some st → opening st path = true →
  (j = i ∧ opening st' path = true) ∨ (ths !! j = Some st ∧ j ≠ i).
Proof. intros Hj Ho. apply list_lookup_insert_Some in Hj as [(-> & -> & _)|[Hne Hj]]; [by left|by right]. Qed.

Lemma missing_stays s (m : gmap string nat) i st' :
  (∀ i path, rd_threads s !! i = Some (RMissing path) → fsi_readersMap (rd_pool s) !! path = None ∧ ∀ j id, rd_threads s !! j ≠ Some (ROpened path id)) →
  (∀ q, st' ≠ RMissing q) → (∀ q id, st' ≠ ROpened q id) → (∀ q, fsi_readersMap (rd_pool s) !! q = None → m !! q = None) →
  ∀ j path, <[i := st']> (rd_threads s) !! j = Some (RMissing path) → m !! path = None ∧ ∀ j' id, <[i := st']> (rd_threads s) !! j' ≠ Some (ROpened path id).
Proof.
  intros Hmiss Hm Ho Hmap j path Hj. apply list_lookup_insert_Some in Hj as [(_ & E & _)|[_ Hj]]; [by destruct (Hm path)|].
  destruct (Hmiss j path Hj) as [H1 H2]. split; [by apply Hmap|]. intros j' id Hj'.
  apply list_lookup_insert_Some in Hj' as [(_ & E & _)|[_ Hj']]; [by destruct (Ho path id)|]. by apply (H2 j' id).
Qed.

(** An open of a path: no reader is opening it. *)
Lemma serial_open s i path s' : serial_inv s → serial_step s (EvOpen i path) = Some s' → serial_inv s'.
Proof.
  intros [Hp Hone Hopen Hread Hmiss Hrefs Hfiles] Hstep. cbn [serial_step] in Hstep.
  destruct (existsb _ _) eqn:Eb; [done|]. assert (Hno : ∀ j st, rd_threads s !! j = Some st → opening st path = false).
  { intros j st Hj. apply not_true_is_false. intros Ho. rewrite (proj2 (existsb_exists _ _)) in Eb; [done|]. exists st.
    split; [apply list_elem_of_In; by eapply list_elem_of_lookup_2|done]. }
  pose proof (rstep_inv _ _ _ Hp Hstep) as Hp'. cbn [rstep] in Hstep. destruct (rd_threads s !! i) as [st|] eqn:Ei; [|done].
  destruct st; try done. unfold Open_lookup in Hstep. destruct (fsi_readersMap (rd_pool s) !! path) as [id|] eqn:Em.
  - destruct (pi_map _ Hp path id Em) as (f & Hf & Hpath & Hge). unfold file_closed in Hstep. rewrite Hf in Hstep.
    rewrite (proj2 (Z.eqb_neq _ 0)) in Hstep by lia. injection Hstep as <-. split; cbn [rd_pool rd_threads fsi_readersMap fsi_files] in *; [done|..].
    + intros a b sa sb q Ha Hb Oa Ob. destruct (opening_thread _ _ _ _ _ _ Ha Oa) as [[_ ?]|[Ha' _]]; [done|].
      destruct (opening_thread _ _ _ _ _ _ Hb Ob) as [[_ ?]|[Hb' _]]; [done|]. by apply (Hone a b sa sb q).
    + intros a sa q Ha Oa. destruct (opening_thread _ _ _ _ _ _ Ha Oa) as [[_ ?]|[Ha' _]]; [done|]. by apply (Hopen a sa).
    + intros a q k Ha. apply list_lookup_insert_Some in Ha as [(_ & E & _)|[_ Ha]]; [by injection E as <- <-|by apply (Hread a)].
    + by apply missing_stays.
    + intros q k Hk. destruct (Hrefs q k Hk) as (f' & Hf' & Hr). rewrite (nreaders_insert _ i RIdle) by done. cbn [reading].
      destruct (decide (id = k)) as [<-|Hne].
      * rewrite list_lookup_alter_eq, Hf'. eexists. split; [done|]. cbn [rf_refs]. rewrite Hr.
        destruct (pi_map _ Hp q id Hk) as (f2 & Hf2 & Hq & _). rewrite Hf in Hf2. injection Hf2 as <-.
        rewrite bool_decide_true by congruence. lia.
      * rewrite list_lookup_alter_ne by done. exists f'. split; [done|]. rewrite Hr. rewrite bool_decide_false; [lia|]. intros ->. congruence.
    + intros k f' Hk Hne. assert (Hold : ∃ f0, fsi_files (rd_pool s) !! k = Some f0 ∧ rf_path f' = rf_path f0 ∧ rf_refs f0 ≠ 0).
      { destruct (decide (id = k)) as [<-|Hik].
        - rewrite list_lookup_alter_eq, Hf in Hk. injection Hk as <-. exists f. split_and!; [done|done|lia].
        - rewrite list_lookup_alter_ne in Hk by done. by exists f'. }
      destruct Hold as (f0 & Hf0 & Ep & Hr0). rewrite Ep. destruct (Hfiles k f0 Hf0 Hr0) as [?|[j Hj]]; [by left|]. right. exists j.
      rewrite list_lookup_insert_ne; [done|]. intros ->. congruence.
  - injection Hstep as <-. split; cbn [rd_pool rd_threads] in *; [done|..].
    + intros a b sa sb q Ha Hb Oa Ob. destruct (opening_thread _ _ _ _ _ _ Ha Oa) as [[-> E1]|[Ha' Hna]], (opening_thread _ _ _ _ _ _ Hb Ob) as [[-> E2]|[Hb' Hnb]].
      * done.
      * apply bool_decide_eq_true in E1. subst q. by rewrite (Hno b sb Hb') in Ob.
      * apply bool_decide_eq_true in E2. subst q. by rewrite (Hno a sa Ha') in Oa.
      * by apply (Hone a b sa sb q).
    + intros a sa q Ha Oa. destruct (opening_thread _ _ _ _ _ _ Ha Oa) as [[-> E1]|[Ha' _]]; [|by apply (Hopen a sa)].
      apply bool_decide_eq_true in E1. by subst q.
    + intros a q k Ha. apply list_lookup_insert_Some in Ha as [(_ & E & _)|[_ Ha]]; [done|by apply (Hread a)].
    + by apply missing_stays.
    + intros q k Hk. destruct (Hrefs q k Hk) as (f' & Hf' & Hr). exists f'. split; [done|]. rewrite (nreaders_insert _ i RIdle) by done. cbn [reading]. lia.
    + intros k f' Hk Hne. destruct (Hfiles k f' Hk Hne) as [?|[j Hj]]; [by left|]. right. exists j. rewrite list_lookup_insert_ne; [done|]. intros ->. congruence.
Qed.

Lemma serial_file s i s' : serial_inv s → serial_step s (EvFile i) = Some s' → serial_inv s'.
Proof.
  intros [Hp Hone Hopen Hread Hmiss Hrefs Hfiles] Hstep. cbn [serial_step] in Hstep.
  destruct (rd_threads s !! i) as [[|path|path k0|path k0|path]|] eqn:Ei; try done. destruct (existsb _ _) eqn:Eb; [done|].
  assert (Hno : ∀ j, rd_threads s !! j ≠ Some (RMissing path)).
  { intros j Hj. rewrite (proj2 (existsb_exists _ _)) in Eb; [done|]. exists (RMissing path).
    split; [apply list_elem_of_In; by eapply list_elem_of_lookup_2|by apply bool_decide_eq_true]. }
  pose proof (rstep_inv _ _ _ Hp Hstep) as Hp'. cbn [rstep] in Hstep. rewrite Ei in Hstep. injection Hstep as <-.
  assert (Hlen : (i < length (rd_threads s))%nat) by (by eapply lookup_lt_Some).
  split; cbn [rd_pool rd_threads fsi_readersMap fsi_files] in *; [done|..].
  - intros a b sa sb q Ha Hb Oa Ob.
    destruct (opening_thread _ _ _ _ _ _ Ha Oa) as [[-> E1]|[Ha' Hna]], (opening_thread _ _ _ _ _ _ Hb Ob) as [[-> E2]|[Hb' Hnb]].
    + done.
    + by apply (Hone i b (ROpening path) sb q).
    + by apply (Hone a i sa (ROpening path) q).
    + by apply (Hone a b sa sb q).
  - intros a sa q Ha Oa. destruct (opening_thread _ _ _ _ _ _ Ha Oa) as [[-> E1]|[Ha' _]]; [by apply (Hopen i (ROpening path))|by apply (Hopen a sa)].
  - intros a q k Ha. apply list_lookup_insert_Some in Ha as [(_ & E & _)|[_ Ha]]; [done|by apply (Hread a)].
  - intros a q Ha. apply list_lookup_insert_Some in Ha as [(_ & E & _)|[_ Ha]]; [done|]. destruct (Hmiss a q Ha) as [H1 H2].
    split; [done|]. intros j id Hj. apply list_lookup_insert_Some in Hj as [(_ & E & _)|[_ Hj]]; [|by apply (H2 j id)].
    injection E as -> _. by apply (Hno a).
  - intros q k Hk. destruct (Hrefs q k Hk) as (f & Hf & Hr). exists f. split; [by apply lookup_app_l_Some|].
    rewrite (nreaders_insert _ i (ROpening path)) by done. cbn [reading]. lia.
  - intros k f Hk Hne. apply lookup_app_Some in Hk as [Hk|[Hge Hk]].
    + destruct (Hfiles k f Hk Hne) as [?|[j Hj]]; [by left|]. right. exists j. rewrite list_lookup_insert_ne; [done|]. intros ->. congruence.
    + apply list_lookup_singleton_Some in Hk as [Hz <-]. right. exists i. cbn [rf_path].
      rewrite list_lookup_insert_eq by done. do 2 f_equal. lia.
Qed.

(** A thread that leaves an open without a file, or is done without one: the pool
    is as before. *)
Lemma serial_leave s i st st' : serial_inv s → rd_threads s !! i = Some st → (∀ q, reading st q = false) → (∀ q id, st ≠ ROpened q id) →
  st' = RIdle ∨ (∃ path, st = ROpening path ∧ st' = RMissing path) → serial_inv (Readers (rd_pool s) (<[i := st']> (rd_threads s))).
Proof.
  intros [Hp Hone Hopen Hread Hmiss Hrefs Hfiles] Ei Hnr Hno Hst'.
  assert (Hidle : (∀ q, opening st' q = false) ∧ (∀ q, reading st' q = false) ∧ ∀ q id, st' ≠ ROpened q id).
  { by destruct Hst' as [->|(path & _ & ->)]. }
  destruct Hidle as (Ho' & Hr' & Hn'). split; cbn [rd_pool rd_threads] in *.
  - split; [apply Hp|]. apply own_stays; [done| |done]. intros j q k _ Hj. by destruct (pi_own _ Hp j q k Hj) as (H1 & H2 & _).
  - intros a b sa sb q Ha Hb Oa Ob. destruct (opening_thread _ _ _ _ _ _ Ha Oa) as [[_ E]|[Ha' _]]; [by rewrite Ho' in E|].
    destruct (opening_thread _ _ _ _ _ _ Hb Ob) as [[_ E]|[Hb' _]]; [by rewrite Ho' in E|]. by apply (Hone a b sa sb q).
  - intros a sa q Ha Oa. destruct (opening_thread _ _ _ _ _ _ Ha Oa) as [[_ E]|[Ha' _]]; [by rewrite Ho' in E|]. by apply (Hopen a sa).
  - intros a q k Ha. apply list_lookup_insert_Some in Ha as [(_ & E & _)|[_ Ha]]; [|by apply (Hread a)].
    specialize (Hr' q). rewrite E in Hr'. cbn [reading] in Hr'. by rewrite bool_decide_true in Hr'.
  - intros a q Ha. assert (Hq : fsi_readersMap (rd_pool s) !! q = None ∧ ∀ j id, rd_threads s !! j ≠ Some (ROpened q id)).
    { apply list_lookup_insert_Some in Ha as [(-> & E & _)|[_ Ha]]; [|by apply (Hmiss a)].
      destruct Hst' as [->|(path & -> & ->)]; [done|]. injection E as ->.
      split; [apply (Hopen a (ROpening q)); [done|by apply bool_decide_eq_true]|].
      intros j id Hj. assert (a = j) as <- by (apply (Hone a j (ROpening q) (ROpened q id) q); [done|done|by apply bool_decide_eq_true..]). congruence. }
    split; [apply Hq|]. intros j id Hj. apply list_lookup_insert_Some in Hj as [(_ & E & _)|[_ Hj]]; [by destruct (Hn' q id)|].
    by apply (proj2 Hq j id).
  - intros q k Hk. destruct (Hrefs q k Hk) as (f & Hf & Hr). exists f. split; [done|].
    rewrite (nreaders_insert _ i st) by done. rewrite Hnr, Hr'. lia.
  - intros k f Hk Hne. destruct (Hfiles k f Hk Hne) as [?|[j Hj]]; [by left|]. right. exists j. rewrite list_lookup_insert_ne; [done|].
    intros ->. by destruct (Hno (rf_path f) k); congruence.
Qed.

Lemma serial_fail s i s' : serial_inv s → rstep s (EvFail i) = Some s' → serial_inv s'.
Proof.
  intros Hs Hstep. cbn [rstep] in Hstep. destruct (rd_threads s !! i) as [[|path|path k0|path k0|path]|] eqn:Ei; try done.
  injection Hstep as <-. apply (serial_leave s i (ROpening path)); [done..|by left].
Qed.

Lemma serial_miss s i s' : serial_inv s → rstep s (EvMiss i) = Some s' → serial_inv s'.
Proof.
  intros Hs Hstep. cbn [rstep] in Hstep. destruct (rd_threads s !! i) as [[|path|path k0|path k0|path]|] eqn:Ei; try done.
  injection Hstep as <-. apply (serial_leave s i (ROpening path)); [done..|right; by exists path].
Qed.

Lemma serial_save s i s' : serial_inv s → rstep s (EvSave i) = Some s' → serial_inv s'.
Proof.
  intros [Hp Hone Hopen Hread Hmiss Hrefs Hfiles] Hstep. pose proof (rstep_inv _ _ _ Hp Hstep) as Hp'. cbn [rstep] in Hstep.
  destruct (rd_threads s !! i) as [[|path|path k0|path k0|path]|] eqn:Ei; try done. injection Hstep as <-.
  destruct (pi_own _ Hp i path k0 Ei) as (Hk0 & _ & _).
  assert (Hnone : fsi_readersMap (rd_pool s) !! path = None) by (apply (Hopen i (ROpened path k0)); [done|by apply bool_decide_eq_true]).
  assert (Hzero : nreaders (rd_threads s) path = 0).
  { apply nreaders_zero. intros j st Hj. destruct st as [|q|q k|q k|q]; try done. cbn [reading]. apply bool_decide_eq_false. intros ->.
    rewrite (Hread j path k Hj) in Hnone. done. }
  split; cbn [rd_pool rd_threads fsi_readersMap fsi_files Open_save] in *; [done|..].
  - intros a b sa sb q Ha Hb Oa Ob. destruct (opening_thread _ _ _ _ _ _ Ha Oa) as [[_ ?]|[Ha' _]]; [done|].
    destruct (opening_thread _ _ _ _ _ _ Hb Ob) as [[_ ?]|[Hb' _]]; [done|]. by apply (Hone a b sa sb q).
  - intros a sa q Ha Oa. destruct (opening_thread _ _ _ _ _ _ Ha Oa) as [[_ ?]|[Ha' Hna]]; [done|].
    rewrite lookup_insert_ne; [by apply (Hopen a sa)|]. intros ->. apply Hna.
    apply (Hone a i sa (ROpened q k0) q); [done|done|done|by apply bool_decide_eq_true].
  - intros a q k Ha. apply list_lookup_insert_Some in Ha as [(_ & E & _)|[_ Ha]].
    + injection E as <- <-. apply lookup_insert_eq.
    + pose proof (Hread a q k Ha) as Hq. rewrite lookup_insert_ne; [done|]. intros ->. congruence.
  - intros a q Ha. apply list_lookup_insert_Some in Ha as [(_ & E & _)|[_ Ha]]; [done|]. destruct (Hmiss a q Ha) as [H1 H2].
    split; [rewrite lookup_insert_ne; [done|]; intros ->; by apply (H2 i k0)|].
    intros j id Hj. apply list_lookup_insert_Some in Hj as [(_ & E & _)|[_ Hj]]; [done|]. by apply (H2 j id).
  - intros q k Hk. rewrite (nreaders_insert _ i (ROpened path k0)) by done. cbn [reading]. destruct (decide (path = q)) as [<-|Hne].
    + rewrite lookup_insert_eq in Hk. injection Hk as <-. exists (RFile path 1). split; [done|]. rewrite bool_decide_true, Hzero by done. done.
    + rewrite lookup_insert_ne in Hk by done. destruct (Hrefs q k Hk) as (f & Hf & Hr). exists f. split; [done|].
      rewrite bool_decide_false by done. lia.
  - intros k f Hk Hne. destruct (Hfiles k f Hk Hne) as [Hm|[j Hj]].
    + left. rewrite lookup_insert_ne; [done|]. intros E. congruence.
    + destruct (decide (j = i)) as [->|Hji].
      * rewrite Ei in Hj. injection Hj as <- <-. left. apply lookup_insert_eq.
      * right. exists j. by rewrite list_lookup_insert_ne.
Qed.

Lemma serial_close s i s' : serial_inv s → rstep s (EvClose i) = Some s' → serial_inv s'.
Proof.
  intros [Hp Hone Hopen Hread Hmiss Hrefs Hfiles] Hstep. pose proof (rstep_inv _ _ _ Hp Hstep) as Hp'. cbn [rstep] in Hstep.
  destruct (rd_threads s !! i) as [[|path|path k0|path k0|path]|] eqn:Ei; try done.
  2: { unfold Close_path in Hstep. rewrite (proj1 (Hmiss i path Ei)) in Hstep. injection Hstep as <-.
       apply (serial_leave s i (RMissing path)); [by split|done..|by left]. }
  pose proof (Hread i path k0 Ei) as Hm. destruct (Hrefs path k0 Hm) as (f & Hf & Hr). destruct (pi_map _ Hp path k0 Hm) as (f' & Hf' & Hpath & Hge).
  rewrite Hf in Hf'. injection Hf' as <-. unfold Close_path in Hstep. rewrite Hm in Hstep. unfold file_closed in Hstep. cbn [fsi_files fsi_readersMap] in Hstep.
  rewrite list_lookup_alter_eq, Hf in Hstep. cbn [fmap option_fmap option_map] in Hstep. rewrite (proj2 (Z.eqb_neq (rf_refs f) 0)) in Hstep by lia. cbn [rf_refs] in Hstep.
  set (fs' := alter _ k0 (fsi_files (rd_pool s))) in Hstep. set (st := <[i := RIdle]> (rd_threads s)) in Hstep.
  assert (Hk0 : fs' !! k0 = Some (RFile path (rf_refs f - 1))).
  { unfold fs'. rewrite list_lookup_alter_eq, Hf. cbn. rewrite (proj2 (Z.eqb_neq (rf_refs f) 0)) by lia. by rewrite Hpath. }
  assert (Hother : ∀ k, k ≠ k0 → fs' !! k = fsi_files (rd_pool s) !! k) by (intros k Hk; unfold fs'; by rewrite list_lookup_alter_ne).
  assert (Hold : ∀ a sa, st !! a = Some sa → sa = RIdle ∨ (a ≠ i ∧ rd_threads s !! a = Some sa)).
  { intros a sa Ha. apply list_lookup_insert_Some in Ha as [(-> & <- & _)|[Hne Ha]]; [by left|by right]. }
  assert (Hn : ∀ q, nreaders st q = nreaders (rd_threads s) q - (if bool_decide (path = q) then 1 else 0)).
  { intros q. unfold st. rewrite (nreaders_insert _ i (RReading path k0)) by done. cbn [reading]. lia. }
  assert (Hmap : ∀ q k, fsi_readersMap (rd_pool s) !! q = Some k → k = k0 → q = path).
  { intros q k Hq ->. destruct (pi_map _ Hp q k0 Hq) as (f2 & Hf2 & Hp2 & _). congruence. }
  assert (Hfile : ∀ k f2, fs' !! k = Some f2 → rf_refs f2 ≠ 0 → ∃ f3, fsi_files (rd_pool s) !! k = Some f3 ∧ rf_path f3 = rf_path f2 ∧ rf_refs f3 ≠ 0).
  { intros k f2 Hk Hne. destruct (decide (k = k0)) as [->|Hkk].
    - rewrite Hk0 in Hk. injection Hk as <-. exists f. split_and!; [done|done|lia].
    - rewrite Hother in Hk by done. by exists f2. }
  assert (Hkeep : ∀ m, (∀ q k, m !! q = Some k → fsi_readersMap (rd_pool s) !! q = Some k) → (∀ q, q ≠ path → m !! q = fsi_readersMap (rd_pool s) !! q) →
    (rf_refs f - 1 ≠ 0 → m !! path = Some k0) → (rf_refs f - 1 = 0 → m !! path = None) → pool_inv (Readers (FsIOPool m fs') st) → serial_inv (Readers (FsIOPool m fs') st)).
  { intros m Hsub Hsame Hnz Hz Hpi. split; cbn [rd_pool rd_threads fsi_readersMap fsi_files]; [done|..].
    - intros a b sa sb q Ha Hb Oa Ob. destruct (Hold a sa Ha) as [->|[_ Ha']]; [done|]. destruct (Hold b sb Hb) as [->|[_ Hb']]; [done|]. by apply (Hone a b sa sb q).
    - intros a sa q Ha Oa. destruct (Hold a sa Ha) as [->|[_ Ha']]; [done|]. destruct (m !! q) eqn:E; [|done]. apply Hsub in E.
      by rewrite (Hopen a sa q Ha' Oa) in E.
    - intros a q k Ha. destruct (Hold a _ Ha) as [?|[Hne Ha']]; [done|]. pose proof (Hread a q k Ha') as Hq.
      destruct (decide (q = path)) as [->|Hqp]; [|by rewrite Hsame]. rewrite Hm in Hq. injection Hq as <-. apply Hnz. intros Ez.
      assert (Hnil : nreaders st path = 0) by (rewrite Hn, bool_decide_true by done; lia).
      by apply (nreaders_pos st path a k0).
    - apply (missing_stays s); [done..|]. intros q Hq. destruct (m !! q) as [k|] eqn:E; [|done]. apply Hsub in E. congruence.
    - intros q k Hk. apply Hsub in Hk as Hk'. destruct (Hrefs q k Hk') as (f2 & Hf2 & Hr2). rewrite Hn. destruct (decide (k = k0)) as [->|Hkk].
      + pose proof (Hmap q k0 Hk' eq_refl) as ->. rewrite bool_decide_true by done. eexists. split; [exact Hk0|]. cbn [rf_refs]. rewrite Hf in Hf2. injection Hf2 as <-. lia.
      + rewrite Hother, bool_decide_false by (done || intros <-; congruence). exists f2. split; [done|]. lia.
    - intros k f2 Hk Hne. destruct (Hfile k f2 Hk Hne) as (f3 & Hf3 & Ep & Hr3). rewrite <- Ep. destruct (Hfiles k f3 Hf3 Hr3) as [Hq|[j Hj]].
      + left. destruct (decide (rf_path f3 = path)) as [E|Hqp]; [|by rewrite Hsame]. rewrite E in Hq |- *. rewrite Hm in Hq. injection Hq as <-.
        apply Hnz. rewrite Hk0 in Hk. injection Hk as <-. done.
      + right. exists j. unfold st. rewrite list_lookup_insert_ne; [done|]. intros ->. congruence. }
  destruct (rf_refs f - 1 =? 0) eqn:Ez; injection Hstep as <-; (apply Hkeep; [..|exact Hp']).
  - intros q k [_ Hq]%lookup_delete_Some. done.
  - intros q Hq. by rewrite lookup_delete_ne.
  - apply Z.eqb_eq in Ez. lia.
  - intros _. apply lookup_delete_eq.
  - done.
  - done.
  - done.
  - apply Z.eqb_neq in Ez. lia.
Qed.

Lemma serial_reachable n s : reachable serial_step n s → serial_inv s.
Proof.
  induction 1 as [|s e s' _ IH Hstep].
  - assert (Hidle : ∀ i st, replicate n RIdle !! i = Some st → st = RIdle) by (intros i st Hi; by apply lookup_replicate in Hi as [? _]).
    split; cbn [rd_pool rd_threads newPool fsi_readersMap fsi_files].
    + by apply (reachable_inv n), reach_init.
    + intros i j st st' path Hi _ Ho. by apply Hidle in Hi as ->.
    + done.
    + intros i path id Hi. by apply Hidle in Hi.
    + intros i path Hi. by apply Hidle in Hi.
    + done.
    + done.
  - destruct e; cbn [serial_step] in Hstep; [by eapply serial_open|by eapply serial_file|by eapply serial_fail|by eapply serial_miss|by eapply serial_save|by eapply serial_close].
Qed.

Lemma nreaders_some ths path : nreaders ths path ≠ 0 → ∃ i id, ths !! i = Some (RReading path id).
Proof.
  intros Hne. destruct (existsb (λ st, reading st path) ths) eqn:E.
  - apply existsb_exists in E as (st & Hin & Hr). apply list_elem_of_In, list_elem_of_lookup in Hin as [i Hi].
    destruct st as [|q|q k|q k|q]; try done. apply bool_decide_eq_true in Hr as ->. by exists i, k.
  - destruct Hne. apply nreaders_zero. intros i st Hi. apply not_true_is_false. intros Hr.
    rewrite (proj2 (existsb_exists _ _)) in E; [done|]. exists st. split; [apply list_elem_of_In; by eapply list_elem_of_lookup_2|done].
Qed.

(** C25.  FS backend: if no reader looks a path up while another one is opening
    it, and no file appears while a reader goes on without it, then in every
    reachable state a reader's file is open and is the file of
    its path, its references are the readers of the path, and every file that is
    open has a reader: when the last one is done, the file is closed and its lock
    is gone. *)
Theorem pool_serial : ∀ n s, reachable serial_step n s →
  (∀ i path id, rd_threads s !! i = Some (RReading path id) →
    ∃ f, fsi_files (rd_pool s) !! id = Some f ∧ rf_path f = path ∧ rf_refs f = nreaders (rd_threads s) path ∧ 1 ≤ rf_refs f) ∧
  (∀ id f, fsi_files (rd_pool s) !! id = Some f → rf_refs f ≠ 0 →
    ∃ i, rd_threads s !! i = Some (RReading (rf_path f) id) ∨ rd_threads s !! i = Some (ROpened (rf_path f) id)).
Proof.
  intros n s Hr. destruct (serial_reachable n s Hr) as [Hp _ _ Hread _ Hrefs Hfiles]. split.
  - intros i path id Hi. apply Hread in Hi. destruct (Hrefs path id Hi) as (f & Hf & Hn), (pi_map _ Hp path id Hi) as (f' & Hf' & Hpath & Hge).
    rewrite Hf in Hf'. injection Hf' as <-. by exists f.
  - intros id f Hf Hne. destruct (Hfiles id f Hf Hne) as [Hm|[i Hi]]; [|exists i; by right].
    destruct (Hrefs _ _ Hm) as (f' & Hf' & Hn). rewrite Hf in Hf'. injection Hf' as <-. rewrite Hn in Hne.
    destruct (nreaders_some _ _ Hne) as (i & k & Hi). exists i. left. pose proof (Hread _ _ _ Hi) as Hk. congruence.
Qed.

(** ** Runs *)

Definition run_reaches (step : readers → revent → option readers) (n : nat) (es : list revent) : option readers :=
  foldl (λ s e, s ≫= λ s, step s e) (Some (Readers newPool (replicate n RIdle))) es.

Lemma run_reachable step n es s : run_reaches step n es = Some s → reachable step n s.
Proof.
  revert s. induction es as [|e es IH] using rev_ind; intros s.
  - intros [= <-]. constructor.
  - unfold run_reaches. rewrite foldl_app. cbn [foldl]. fold (run_reaches step n es).
    destruct (run_reaches step n es) as [s0|]; [|done]. intros Hs. by apply (reach_step _ _ s0 e); [apply IH|].
Qed.

(** Two readers, one after the other, and the first is done. *)
Definition serial_run : list revent := [EvOpen 0 "fs.json"; EvFile 0; EvSave 0; EvOpen 1 "fs.json"; EvClose 0].

Lemma pool_serial_witness : ∃ s, run_reaches serial_step 2 serial_run = Some s ∧ rd_threads s = [RIdle; RReading "fs.json" 0] ∧
  ∃ f, fsi_files (rd_pool s) !! 0%nat = Some f ∧ rf_path f = "fs.json" ∧ rf_refs f = 1.
Proof.
  assert (E : ∃ s, run_reaches serial_step 2 serial_run = Some s) by (eexists; by vm_compute). destruct E as [s E].
  assert (Ht : rd_threads <$> run_reaches serial_step 2 serial_run = Some [RIdle; RReading "fs.json" 0]) by (by vm_compute).
  rewrite E in Ht. injection Ht as Ht. exists s. split; [done|]. split; [done|].
  destruct (proj1 (pool_serial 2 s (run_reachable _ _ _ _ E)) 1%nat "fs.json" 0%nat) as (f & Hf & Hp & Hr & _); [by rewrite Ht|].
  exists f. split_and!; [done|done|]. rewrite Hr, Ht. by vm_compute.
Defined.

(** Two readers that miss the path in the map at the same time: each opens the
    file, and the second file takes the place of the first in the map. *)
Definition race_run : list revent := [EvOpen 0 "fs.json"; EvOpen 1 "fs.json"; EvFile 0; EvSave 0; EvFile 1; EvSave 1].

(** The first reader, when it is done, closes the file that the second one is
    reading; and the first file is never closed, so that its lock stays. *)
Example pool_race :
  (s ← run_reaches rstep 2 (race_run ++ [EvClose 0]); Some (rd_threads s, file_closed (rd_pool s) 1)) =
    Some ([RIdle; RReading "fs.json" 1], true) ∧
  (s ← run_reaches rstep 2 (race_run ++ [EvClose 0; EvClose 1]); Some (rd_threads s, file_closed (rd_pool s) 0)) =
    Some ([RIdle; RIdle], false).
Proof. by vm_compute. Qed.

(** [GetObject] of an object without fs.json, which appears, and is opened by a
    second reader, before [GetObject] returns: the path is closed for both of
    them, and the file of the second reader with it. *)
Definition late_run : list revent := [EvOpen 0 "fs.json"; EvMiss 0; EvOpen 1 "fs.json"; EvFile 1; EvSave 1].

Example pool_late_file :
  (s ← run_reaches rstep 2 (late_run ++ [EvClose 0]); Some (rd_threads s, file_closed (rd_pool s) 0)) =
    Some ([RIdle; RReading "fs.json" 0], true).
Proof. by vm_compute. Qed.
