(* ===== verification/FSList.v ===== *)
(** * Listing objects of the FS backend

    [ListObjects] of src/cmd/fs-v1.go: the same tree walk and pool of walks as the
    XL backend has, over the directories of one file system, where the names of
    objects are files. *)

From S2P Require Import Prelude.
From S2P Require Import GoErrors.
From S2P Require Import GoStrings.
From S2P Require Import XLMeta.
From S2P Require Import Storage.
From S2P Require Import Erasure.
From S2P Require Import XorCode.
From S2P Require Import ObjectNames.
From S2P Require Import DiskContract.
From S2P Require Import XLObject.
From S2P Require Import XLPut.
From S2P Require Import TreeWalk.
From S2P Require Import TreeWalkDisks.
From S2P Require Import WalkPool.
From S2P Require Import XLList.
From S2P Require Import OSFiles.
From S2P Require Import OSTrees.
From S2P Require Import Posix.
From S2P Require Import PosixSpec.
From S2P Require Import PosixOps.
From S2P Require Import PosixRefines.
From S2P Require Import FSFiles.
From S2P Require Import FSObjects.
From S2P Require Import FSSpec.
From S2P Require Import FSPut.
From S2P Require Import FSGet.

Local Open Scope Z_scope.

(** The layer, the pool of walks with the results in their channels, and the
    number of the next walk. *)
Record fs_lister := FSLister {
  fl_fs : fsObjects;
  fl_pool : treeWalkPool;
  fl_chans : gmap nat (list treeWalkResult);
  fl_next : nat;
}.

Section FSListing.
Context `{OSTimes, MapOrder}.
Context (mimedb_DB : string → option string).

(** A helper of the system in a walk. *)
Definition run_px {A} (s : fsObjects) (m : px A) : fsObjects * (A + error) :=
  let '(p, r) := m (fs_px s) in
  (fs_set_os s (px_os p), match r with inl a => inl a | inr e => inr (perr_err e) end).

(** The loop that removes the slash of the leaves. *)
Fixpoint fs_trim_leaves (isLeaf : fsObjects → string → string → go (fsObjects * bool)) (s : fsObjects)
    (bucket prefixDir : string) (entries : list string) : go (fsObjects * list string) :=
  match entries with
  | [] => Ret (s, [])
  | entry :: entries' =>
      '(s, leaf) ← isLeaf s bucket (pathJoin [prefixDir; entry]);
      '(s, rest) ← fs_trim_leaves isLeaf s bucket prefixDir entries';
      mret (s, (if (leaf : bool) then TrimSuffix entry slashSeparator else entry) :: rest)
  end.

(** The closure of [listDirFactory]. *)
Definition fs_listDir (isLeaf : fsObjects → string → string → go (fsObjects * bool))
    (bucket : string) (s : fsObjects) (prefixDir prefixEntry : string)
    : go (fsObjects * (list string * bool * option error)) :=
  let '(s, r) := run_px s (readDir (pathJoin [fsPath s; bucket; prefixDir])) in
  match r with
  | inl entries =>
      let entries := filterMatchingPrefix (sort_Strings entries) prefixEntry in
      if delayIsLeafCheck entries then Ret (s, (entries, true, None))
      else
        '(s, entries) ← fs_trim_leaves isLeaf s bucket prefixDir entries;
        mret (s, (sort_Strings entries, false, None))
  | inr err => Ret (s, ([], false, Some err))
  end.

(** [isLeaf] of [ListObjects]: no file needs to be looked at. *)
Definition fs_isLeaf (s : fsObjects) (bucket object : string) : go (fsObjects * bool) :=
  Ret (s, negb (HasSuffix object slashSeparator)).

Definition entryToObjectInfo (bucket entry : string) (s : fsObjects) : fsObjects * (ObjectInfo + error) :=
  if HasSuffix entry slashSeparator then
    (s, inl {| IsDir := true; Bucket := ""; Name := entry; Size := 0; ObjModTime := zeroTime; MD5Sum := "";
               ContentType := ""; ContentEncoding := ""; UserDefined := ∅; ObjHealInfo := None |})
  else
    (fi ← fs_call (fsStatFile (fsObjPath s bucket entry)) (λ e, objErr (traced e) [bucket; entry]);
     mret (ToObjectInfo mimedb_DB fsMetaV1_zero bucket entry (Some fi))) s.

(** The loop of [ListObjects]; [n] are the keys to go.  It ends with the objects,
    [eof] and the next marker, or with the values to return.  An entry that
    cannot be looked at ends the listing without an error. *)
Fixpoint fs_list_loop (bucket prefix : string) (n : nat) (rs : list treeWalkResult) (s : fsObjects)
    (objInfos : list ObjectInfo) (nextMarker : string)
    : fsObjects * list treeWalkResult * ((list ObjectInfo * bool * string) + (ListObjectsInfo * option error)) :=
  match n, rs with
  | O, _ => (s, rs, inl (objInfos, false, nextMarker))
  | S _, [] => (s, [], inl (objInfos, true, nextMarker))
  | S n', walkResult :: rs' =>
      match tw_err walkResult with
      | Some err =>
          (s, rs', inr (ListObjectsInfo_zero,
             if err_eqb (errorCause (Some err)) (Some (errFileNotFound : error)) then None
             else toObjectErr (Some err) [bucket; prefix]))
      | None =>
          match entryToObjectInfo bucket (tw_entry walkResult) s with
          | (s, inr _) => (s, rs', inr (ListObjectsInfo_zero, None))
          | (s, inl objInfo) =>
              if tw_end walkResult then (s, rs', inl (objInfos ++ [objInfo], true, Name objInfo))
              else fs_list_loop bucket prefix n' rs' s (objInfos ++ [objInfo]) (Name objInfo)
          end
      end
  end.

Definition fs_start_walk (fuel : nat) (s : fsObjects) (bucket prefix marker : string) (recursive : bool)
    : go (fsObjects * list treeWalkResult) :=
  startTreeWalk (λ s dir pm, fs_listDir fs_isLeaf bucket s dir pm) (λ s p, fs_isLeaf s bucket p) (λ _, false)
    fuel prefix marker recursive s.

(** The channels of the walk: from the pool, or new. *)
Definition fs_get_walk (fuel : nat) (li : fs_lister) (bucket prefix marker : string) (recursive : bool)
    : go (fs_lister * (nat * nat)) :=
  '(p, r) ← Release (fl_pool li) (ListParams bucket recursive marker prefix false);
  match r with
  | Some (S _ as resultCh, endWalkCh) =>
      mret (FSLister (fl_fs li) p (fl_chans li) (fl_next li), (resultCh, endWalkCh))
  | _ =>
      '(s, rs) ← fs_start_walk fuel (fl_fs li) bucket prefix marker recursive;
      mret (FSLister s p (<[fl_next li := rs]> (fl_chans li)) (S (fl_next li)), (fl_next li, fl_next li))
  end.

(** [ListObjects] after its checks. *)
Definition fs_list_page (fuel : nat) (li : fs_lister) (bucket prefix marker delimiter : string) (maxKeys : nat)
    : go (fs_lister * (ListObjectsInfo * option error)) :=
  let recursive := negb (bool_decide (delimiter = slashSeparator)) in
  '(li, (walkResultCh, endWalkCh)) ← fs_get_walk fuel li bucket prefix marker recursive;
  let '(s, rs, r) := fs_list_loop bucket prefix maxKeys (default [] (fl_chans li !! walkResultCh)) (fl_fs li) [] "" in
  let chans := <[walkResultCh := rs]> (fl_chans li) in
  match r with
  | inr ret => mret (FSLister s (fl_pool li) chans (fl_next li), ret)
  | inl (objInfos, eof, nextMarker) =>
      let params := ListParams bucket recursive nextMarker prefix false in
      let p := if (eof : bool) then fl_pool li else Set_ (fl_pool li) params walkResultCh endWalkCh in
      mret (FSLister s p chans (fl_next li),
            (fill_result {| IsTruncated := negb eof; NextMarker := ""; Objects := []; Prefixes := [] |} objInfos, None))
  end.

Definition fs_ListObjects (fuel : nat) (li : fs_lister) (bucket prefix marker delimiter : string) (maxKeys : Z)
    : go (fs_lister * (ListObjectsInfo * option error)) :=
  let set s := FSLister s (fl_pool li) (fl_chans li) (fl_next li) in
  let args : fsx unit :=
    bErr ← bucket_err bucket;
    _ ← lift_err (checkListObjsArgs (λ _, bErr) bucket prefix marker delimiter);
    _ ← statBucketDir bucket; mret () in
  match args (fl_fs li) with
  | (s, inr err) => mret (set s, (ListObjectsInfo_zero, Some err))
  | (s, inl _) =>
      if maxKeys =? 0 then mret (set s, (ListObjectsInfo_zero, None))
      else if bool_decide (delimiter = slashSeparator) && bool_decide (prefix = slashSeparator)
      then mret (set s, (ListObjectsInfo_zero, None))
      else
        let maxKeys := if (maxKeys <? 0) || (maxObjectList <? maxKeys) then maxObjectList else maxKeys in
        fs_list_page fuel (set s) bucket prefix marker delimiter (Z.to_nat maxKeys)
  end.

End FSListing.

(** ** What the directories hold *)

(** The entries of a directory: objects, and directories of objects. *)
Definition fs_ls (objects : list string) (dir : string) : list string :=
  if bool_decide (dir = "") || HasSuffix dir "/" then
    remove_dups ((λ o, mem_entry (TrimPrefix o dir)) <$> filter (λ o, HasPrefix o dir = true) objects)
  else [].

Definition fs_leaf (p : string) : bool := negb (HasSuffix p "/").

Section Objects.
Context (objects : list string) (Hon : object_names objects).

Lemma fs_ls_elem dir e : dir_ok dir → e ∈ fs_ls objects dir ↔ ∃ r, dir +:+ r ∈ objects ∧ e = mem_entry r.
Proof.
  intros Hd. unfold fs_ls. rewrite dir_ok_slash by done. rewrite elem_of_remove_dups, list_elem_of_fmap. split.
  - intros (o & -> & [[r ->]%HasPrefix_iff Ho]%list_elem_of_filter). rewrite TrimPrefix_app. by exists r.
  - intros (r & Ho & ->). exists (dir +:+ r). rewrite TrimPrefix_app. split; [done|]. apply list_elem_of_filter.
    by rewrite HasPrefix_app.
Qed.

Lemma fs_ls_dir dir e : e ∈ fs_ls objects dir → dir_ok dir.
Proof.
  intros He. destruct (fs_ls objects dir) as [|x l] eqn:E; [by apply not_elem_of_nil in He|]. clear He.
  unfold fs_ls in E. destruct (_ || _) eqn:Ed; [|done]. assert (Hx : x ∈ x :: l) by left. rewrite <- E in Hx.
  rewrite elem_of_remove_dups, list_elem_of_fmap in Hx. destruct Hx as (o & _ & Ho).
  apply (obj_ls_dir objects Hon dir (mem_entry (TrimPrefix o dir +:+ "/"))). unfold obj_ls. rewrite Ed.
  rewrite elem_of_remove_dups. by apply (list_elem_of_fmap_2 (λ o, mem_entry (TrimPrefix o dir +:+ "/"))).
Qed.

(** An entry is a name, and tells whether it is an object. *)
Lemma fs_ls_entry dir e : dir_ok dir → e ∈ fs_ls objects dir →
  ∃ n, plain_elem n ∧ (e = n ∧ dir +:+ n ∈ objects ∨ e = n +:+ "/" ∧ ∃ r, dir +:+ n +:+ "/" +:+ r ∈ objects).
Proof.
  intros Hd (r & Ho & ->)%fs_ls_elem; [|done]. destruct (obj_below objects Hon dir r Hd Ho) as [[Hn E]|(n & r' & Hn & -> & E)].
  - exists r. split; [done|]. by left.
  - exists n. split; [done|]. right. split; [done|]. by exists r'.
Qed.

Lemma fs_ls_ok : ls_ok (fs_ls objects).
Proof.
  intros dir. destruct (decide (fs_ls objects dir = [])) as [->|Hne]; [by split; constructor|].
  assert (Hd : dir_ok dir). { destruct (fs_ls objects dir) as [|e l] eqn:E; [done|]. apply (fs_ls_dir dir e). rewrite E. left. }
  split.
  - apply Forall_forall. intros e (n & Hn & He)%fs_ls_entry; [|done]. exists n. destruct He as [[-> _]|[-> _]]; auto.
  - apply NoDup_fmap_2_strong; [|unfold fs_ls; destruct (_ || _); [apply NoDup_remove_dups|constructor]].
    intros x y (n & Hn & Hx)%fs_ls_entry (m & Hm & Hy)%fs_ls_entry; [|done|done].
    destruct (TrimSuffix_entry n Hn) as [Hn1 Hn2], (TrimSuffix_entry m Hm) as [Hm1 Hm2].
    destruct Hx as [[-> Hx]|[-> [r Hx]]], Hy as [[-> Hy]|[-> [r' Hy]]]; rewrite ?Hn1, ?Hn2, ?Hm1, ?Hm2; intros ->; try done; exfalso.
    + by apply (on_flat _ Hon _ _ r' Hy Hx); rewrite <- str_app_assoc.
    + by apply (on_flat _ Hon _ _ r Hx Hy); rewrite <- str_app_assoc.
Qed.

Lemma fs_trim_entry dir e : dir_ok dir → e ∈ fs_ls objects dir → trim fs_leaf dir e = e.
Proof.
  intros Hd (n & Hn & He)%fs_ls_entry; [|done]. unfold trim, fs_leaf. destruct He as [[-> _]|[-> _]].
  - destruct (negb _); [|done]. by apply TrimSuffix_entry.
  - rewrite str_app_assoc, HasSuffix_app. done.
Qed.

(** The same names as those of the XL backend. *)
Lemma fs_names_eq dir pm : dir_ok dir → no_slash pm → names (fs_ls objects) fs_leaf dir pm = names (obj_ls objects) (obj_leaf objects) dir pm.
Proof.
  intros Hd Hpm. apply strict_unique; [apply names_strict, fs_ls_ok|apply names_strict, obj_ls_ok, Hon|].
  intros e. rewrite obj_names_elem by done. unfold names. rewrite sort_Strings_perm, list_elem_of_fmap. split.
  - intros (x & -> & [Hp Hx]%list_elem_of_filter). rewrite fs_trim_entry by done.
    apply fs_ls_elem in Hx as (r & Ho & ->); [|done]. exists r. split_and!; [done|done|].
    destruct (mem_entry_cases r) as [[_ E]|(n & r' & -> & _ & E)]; rewrite E in Hp; [done|].
    change (n +:+ "/") with (n +:+ "/" +:+ "") in Hp. by rewrite HasPrefix_no_slash in Hp |- * by done.
  - intros (r & Ho & -> & Hp). assert (Hx : mem_entry r ∈ fs_ls objects dir) by (apply fs_ls_elem; [done|by exists r]).
    exists (mem_entry r). rewrite fs_trim_entry by done. split; [done|]. apply list_elem_of_filter. split; [|done].
    destruct (mem_entry_cases r) as [[_ E]|(n & r' & -> & _ & E)]; rewrite E; [done|].
    change (n +:+ "/") with (n +:+ "/" +:+ ""). by rewrite HasPrefix_no_slash in Hp |- * by done.
Qed.

Lemma fs_walk_paths_eq : ∀ fuel recursive dir pm, dir_ok dir → no_slash pm →
  walk_paths (fs_ls objects) fs_leaf fuel recursive dir pm = walk_paths (obj_ls objects) (obj_leaf objects) fuel recursive dir pm.
Proof.
  induction fuel as [|fuel IH]; intros recursive dir pm Hd Hpm; [done|]. cbn [walk_paths]. rewrite fs_names_eq by done. f_equal.
  apply list_fmap_ext. intros i e He%list_elem_of_lookup_2. destruct (recursive && HasSuffix e "/") eqn:E; [|done].
  apply andb_prop in E as [_ Hs]. destruct (obj_names_dir objects Hon dir pm e Hd Hpm He Hs) as (n & r & Hn & -> & _).
  apply IH; [by apply dir_ok_entry|apply no_slash_nil].
Qed.

Lemma fs_deep_eq : ∀ fuel recursive dir pm, dir_ok dir → no_slash pm →
  deep_enough (fs_ls objects) fs_leaf fuel recursive dir pm ↔ deep_enough (obj_ls objects) (obj_leaf objects) fuel recursive dir pm.
Proof.
  induction fuel as [|fuel IH]; intros recursive dir pm Hd Hpm; [done|]. cbn [deep_enough]. rewrite fs_names_eq by done.
  split; intros Hdeep Hr e He Hs; specialize (Hdeep Hr e He Hs);
    destruct (obj_names_dir objects Hon dir pm e Hd Hpm He Hs) as (n & r & Hn & -> & _);
    apply IH in Hdeep; try done; try (by apply dir_ok_entry); apply no_slash_nil.
Qed.

End Objects.

(** ** Listings of a bucket *)

Lemma Split_elem e : plain_elem e → Split e "/" = [e].
Proof. intros He. apply Split_plain, He. Qed.

Lemma pathJoin3 a b c : a ≠ "" → b ≠ "" → c ≠ "" → pathJoin [a; b; c] = pathJoin [a; b +:+ "/" +:+ c].
Proof.
  intros Ha Hb Hc. unfold pathJoin, path_Join. cbn [last]. f_equal.
  - rewrite !filter_all; [done| |].
    + intros x. rewrite elem_of_cons, list_elem_of_singleton. intros [->| ->]; [done|]. intros [? _]%str_app_empty. done.
    + intros x. rewrite !elem_of_cons, elem_of_nil. naive_solver.
  - rewrite str_app_assoc. by rewrite HasSuffix_slash_app.
Qed.

Section Bucket.
Context `{OSTimes, MapOrder}.
Context (base : list string) (bucket : string) (base_plain : Forall plain_elem base).
Context (bucket_valid : IsValidBucketName bucket = true) (bucket_plain : plain_elem bucket).

Abbreviation kb := (bucket_key base bucket).

(** The files of the bucket are the objects, and no directory is empty. *)
Record bucket_holds (objects : list string) (t : tree) : Prop := {
  bh_dir : t !! kb = Some NDir;
  bh_nodup : NoDup objects;
  bh_name : os_name kb ∧ ∀ o, o ∈ objects → os_name (kb ++ Split o "/") ∧ Forall visible (Split o "/");
  bh_files : ∀ es, is_Some (files t (kb ++ es)) ↔ ∃ o, o ∈ objects ∧ es = Split o "/";
  bh_full : ∀ es, es ≠ [] → t !! (kb ++ es) = Some NDir → ∃ r, is_Some (files t (kb ++ es ++ r));
}.

Context (objects : list string) (s : fsObjects) (Hs : fs_calm base s) (Hh : bucket_holds objects (fs_tree s)).

Let t := fs_tree s.

Lemma holds_tree : tree_ok t.
Proof. apply (fc_calm _ _ Hs). Qed.

Lemma holds_clean o : o ∈ objects → clean_path o.
Proof. intros Ho. eapply Forall_impl; [apply (bh_name _ _ Hh), Ho|]. by intros x [? _]. Qed.

Lemma holds_object o : o ∈ objects → ∃ c, t !! (kb ++ Split o "/") = Some (NFile c).
Proof. intros Ho. destruct (proj2 (bh_files _ _ Hh (Split o "/"))) as [c Hc]; [by exists o|]. exists c. by apply files_Some. Qed.

Lemma holds_names : object_names objects.
Proof.
  split; [apply Forall_forall, holds_clean|apply Hh|]. intros a b r Ha Hb ->. destruct (holds_object _ Ha) as [c Hc], (holds_object _ Hb) as [c' Hc'].
  rewrite Split_slash, app_assoc in Hc. rewrite (tree_above t _ (Split r "/") holds_tree) in Hc'; [done|by eexists|apply Split_ne].
Qed.

Lemma kb_healthy : healthy base (fs_px s).
Proof.
  split; [unfold ioErrCount, maxAllowedIOError; simpl; lia|apply Hs|apply (fc_calm _ _ Hs)|apply (fc_calm _ _ Hs)|].
  apply (tree_above _ base [bucket] holds_tree); [|done]. exists NDir. apply (bh_dir _ _ Hh).
Qed.

Lemma bucketDir_path : pathJoin [abs_path base; bucket] = abs_path kb.
Proof.
  rewrite (pathJoin_parts base [bucket]); [|done|repeat constructor; by apply clean_path_plain|done]. cbn.
  by rewrite Split_elem.
Qed.

Lemma statBucketDir_holds : ∃ fi, statBucketDir bucket s = (s, inl fi).
Proof.
  eexists. unfold statBucketDir. erewrite fs_bind_run.
  2: { unfold getBucketDir. rewrite bucket_valid. cbn [negb]. unfold fs_get. by erewrite fs_bind_run. }
  rewrite (fc_path _ _ Hs), bucketDir_path. apply fs_call_same.
  apply (fsStatDir_ok (fs_px s) (fc_calm _ _ Hs) kb (proj1 (bh_name _ _ Hh))); [by destruct base|apply Hh].
Qed.

(** A directory of the bucket. *)
Lemma dir_path dir : dir_ok dir → pathJoin [abs_path base; bucket; dir] =
  if negb (bool_decide (dir = "")) then abs_path (kb ++ elems dir) +:+ "/" else abs_path (kb ++ elems dir).
Proof.
  intros [->|(d & Hd & ->)].
  - cbn. rewrite app_nil_r, <- bucketDir_path. unfold pathJoin. cbn [last]. f_equal.
    unfold slashSeparator. by rewrite (clean_no_slash bucket) by (by apply clean_path_plain).
  - rewrite bool_decide_false by (by destruct d). cbn [negb]. rewrite pathJoin3; [|done|by intros ->; apply bucket_plain|by destruct d].
    unfold elems. rewrite bool_decide_false, TrimSuffix_app by (by destruct d).
    pose proof (proj2 (pathJoin_abs base (bucket :: Split d "/") base_plain ltac:(by constructor) ltac:(done))) as E.
    rewrite Join_cons_ne, Join_Split in E by apply Split_ne. rewrite <- !str_app_assoc in E. rewrite E. unfold bucket_key. by rewrite <- app_assoc.
Qed.

Lemma obj_dir_there dir pm : obj_dir objects dir pm → t !! (kb ++ elems dir) = Some NDir.
Proof.
  intros (Hd & _ & [->|[r Ho]]); [cbn; rewrite app_nil_r; apply Hh|]. destruct (holds_object _ Ho) as [c Hc].
  rewrite elems_split, app_assoc in Hc by done. apply (tree_above t _ (Split r "/") holds_tree); [by eexists|apply Split_ne].
Qed.

(** What is below a directory belongs to an object. *)
Lemma node_object dir x n : dir_ok dir → t !! (kb ++ elems dir ++ [x]) = Some n →
  ∃ r o, o ∈ objects ∧ Split o "/" = elems dir ++ x :: r ∧ Forall visible (x :: r) ∧ (n = NDir ↔ r ≠ []).
Proof.
  intros Hd Hn. assert (Hr : ∃ r, is_Some (files t (kb ++ (elems dir ++ [x]) ++ r))).
  { destruct n as [|c]; [apply (bh_full _ _ Hh); [by intros [_ ?]%app_eq_nil|done]|]. exists []. rewrite app_nil_r. exists c. by apply files_Some. }
  destruct Hr as [r Hr]. assert (Hf := Hr). apply (bh_files _ _ Hh) in Hr as (o & Ho & E). rewrite <- app_assoc in E. exists r, o.
  destruct (bh_name _ _ Hh) as [_ Hname]. destruct (Hname o Ho) as [_ Hv]. rewrite <- E in Hv. apply Forall_app in Hv as [_ Hv].
  split_and!; [done|by rewrite <- E|done|]. destruct Hf as [c Hf%files_Some]. split.
  - intros -> ->. rewrite app_nil_r in Hf. congruence.
  - intros Hne. rewrite app_assoc in Hf. rewrite (tree_above t _ r holds_tree) in Hn; [congruence|by eexists|done].
Qed.

Lemma dir_entry_elem dir e : dir_ok dir →
  e ∈ shown <$> entries_of t (kb ++ elems dir) ↔ e ∈ fs_ls objects dir.
Proof.
  intros Hd. rewrite fs_ls_elem, list_elem_of_fmap by done. split.
  - intros ([x n] & -> & Hn%entries_of_elem). rewrite <- app_assoc in Hn. destruct (node_object dir x n Hd Hn) as (r & o & Ho & Eo & Hv & Hnr).
    apply Forall_cons in Hv as [[Hx _] Hv]. destruct r as [|y r].
    + exists x. assert (o = dir +:+ x) as <-. { apply Split_inj. by rewrite Eo, elems_split, Split_elem. }
      split; [done|]. unfold shown. destruct n; [by destruct (proj1 Hnr eq_refl)|]. cbn. by rewrite mem_entry_name by apply Hx.
    + exists (x +:+ "/" +:+ Join (y :: r) "/"). assert (o = dir +:+ x +:+ "/" +:+ Join (y :: r) "/") as <-.
      { apply Split_inj. rewrite Eo, elems_split, Split_slash by done. rewrite Split_elem, Split_Join; [done|done| |done].
        eapply Forall_impl; [exact Hv|]. intros z [Hz _]. apply Hz. }
      split; [done|]. rewrite mem_entry_slash by apply Hx. assert (n = NDir) as -> by (by apply Hnr). done.
  - intros (r & Ho & ->). destruct (holds_object _ Ho) as [c Hc]. rewrite elems_split in Hc by done.
    destruct (obj_below objects holds_names dir r Hd Ho) as [[Hn E]|(n & r' & Hn & -> & E)]; rewrite E.
    + exists (r, NFile c). split; [done|]. apply entries_of_elem. rewrite Split_elem in Hc by done. by rewrite <- app_assoc.
    + exists (n, NDir). split; [done|]. apply entries_of_elem. rewrite Split_slash, Split_elem in Hc by done.
      rewrite <- app_assoc. apply (tree_above t _ (Split r' "/") holds_tree); [|apply Split_ne]. rewrite <- !app_assoc. by eexists.
Qed.

Lemma dir_entries dir : dir_ok dir → parseDirents (range_order (entries_of t (kb ++ elems dir))) ≡ₚ fs_ls objects dir.
Proof.
  intros Hd. pose proof (range_order_perm (entries_of t (kb ++ elems dir))) as Hp.
  assert (Hvis : ∀ x n, (x, n) ∈ entries_of t (kb ++ elems dir) → visible x).
  { intros x n Hn%entries_of_elem. rewrite <- app_assoc in Hn. destruct (node_object dir x n Hd Hn) as (r & o & _ & _ & Hv & _).
    by apply Forall_cons in Hv as [? _]. }
  rewrite parseDirents_shown.
  - rewrite Hp. apply NoDup_Permutation; [| |by intros e; apply dir_entry_elem].
    + apply NoDup_fmap_2_strong; [|by eapply NoDup_fmap_1, entries_of_nodup].
      assert (Hsh : ∀ x n, visible x → TrimSuffix (shown (x, n)) "/" = x).
      { intros x [|c] [Hx _]; cbn; by apply TrimSuffix_entry. }
      intros [x n] [y m] Hx Hy E. assert (x = y) as <-. { rewrite <- (Hsh x n), E, Hsh by (by eapply Hvis). done. }
      apply entries_of_elem in Hx, Hy. rewrite Hx in Hy. congruence.
    + unfold fs_ls. destruct (_ || _); [apply NoDup_remove_dups|constructor].
  - intros x Hx. rewrite Hp in Hx. apply list_elem_of_fmap in Hx as ([x' n] & -> & Hin). by apply (Hvis x' n).
Qed.

(** ** The walk *)

Lemma fs_listDir_ok dir pm : obj_dir objects dir pm →
  ∃ es delay, fs_listDir fs_isLeaf bucket s dir pm = Ret (s, (es, delay, None)) ∧ listing (fs_ls objects) fs_leaf dir pm es delay.
Proof.
  intros Hdir. assert (Hd : dir_ok dir) by apply Hdir. unfold fs_listDir, run_px. rewrite (fc_path _ _ Hs), dir_path by done.
  assert (Hname : os_name (kb ++ elems dir)).
  { destruct Hdir as (_ & _ & [->|[r Ho]]); [cbn; rewrite app_nil_r; apply Hh|]. apply (os_name_app_l _ (Split r "/")).
    rewrite <- app_assoc, <- elems_split by done. by apply (bh_name _ _ Hh). }
  rewrite (readDir_dir base (fs_px s) (kb ++ elems dir) _ kb_healthy Hname);
    [|by destruct base|by eapply obj_dir_there]. cbn [px_os fs_px]. assert (fs_set_os s (fs_os s) = s) as -> by (by destruct s).
  destruct (listing_of (fs_ls objects) (fs_ls_ok objects holds_names) dir pm _ (dir_entries dir Hd)) as [Hp Hso].
  unfold px_tree. cbn [px_os fs_px]. fold (fs_tree s). fold t. set (es := filterMatchingPrefix _ _) in *. destruct (delayIsLeafCheck es) eqn:Edelay.
  - exists es, true. split; [done|]. apply listing_delayed; [apply fs_ls_ok, holds_names|done|done|done].
  - assert (Htrim : fs_trim_leaves fs_isLeaf s bucket dir es = Ret (s, trim fs_leaf dir <$> es)).
    { assert (Hes : Forall (λ e, e ∈ fs_ls objects dir) es).
      { apply Forall_forall. intros e He. rewrite Hp in He. by apply list_elem_of_filter in He as [_ ?]. }
      clear Hp Hso Edelay. clearbody es. induction Hes as [|e es He Hes IH]; [done|]. cbn [fs_trim_leaves]. change (fs_isLeaf s bucket (pathJoin [dir; e])) with (Ret (s, fs_leaf (pathJoin [dir; e]))).
      cbn [mbind go_bind]. rewrite IH. cbn [mbind go_bind]. unfold trim at 2, fs_leaf. rewrite pathJoin_dir; [done|done|].
      destruct (fs_ls_entry objects holds_names dir e Hd He) as (n & Hn & [[-> _]|[-> _]]); exists n; auto. }
    rewrite Htrim. cbn [mbind go_bind]. eexists _, false. split; [done|]. by apply listing_trimmed; [apply fs_ls_ok, holds_names|].
Qed.

Lemma fs_walk_env : walk_env (fs_ls objects) fs_leaf (λ s', s' = s) (obj_dir objects)
  (λ s dir pm, fs_listDir fs_isLeaf bucket s dir pm) (λ s p, fs_isLeaf s bucket p).
Proof.
  split.
  - intros dir pm Hd. apply Hd.
  - intros dir pm e Hd He Hsl. rewrite fs_names_eq in He by (apply holds_names || apply Hd).
    by apply (obj_dir_sub objects holds_names dir pm).
  - intros s' dir pm -> Hd. destruct (fs_listDir_ok dir pm Hd) as (es & delay & -> & Hl). by exists s, es, delay.
  - intros s' dir pm e -> Hd He. by exists s.
  - intros dir pm e fuel Hd He Hsl Hdeep. rewrite fs_names_eq in He by (apply holds_names || apply Hd).
    destruct (obj_names_dir objects holds_names dir pm e (proj1 Hd) (proj1 (proj2 Hd)) He Hsl) as (n & r & Hn & -> & Ho & _).
    assert (Hd' : dir_ok (dir +:+ n +:+ "/")) by (apply dir_ok_entry; [apply Hd|done]).
    rewrite fs_walk_paths_eq by (apply holds_names || done || apply no_slash_nil).
    apply fs_deep_eq in Hdeep; [|apply holds_names|done|apply no_slash_nil].
    apply (obj_full objects holds_names fuel (dir +:+ n +:+ "/") r); [done|by rewrite <- !str_app_assoc|done].
Qed.

Context (mimedb_DB : string → option string).
Context (fuel : nat) (fuel_pos : (0 < fuel)%nat).
Context (fuel_deep : ∀ o, o ∈ objects → (length (Split o "/") ≤ fuel)%nat).

Lemma fs_start_walk_ok prefix marker recursive : prefix_ok objects prefix → marker_ok objects recursive prefix marker →
  ∃ rs, fs_start_walk fuel s bucket prefix marker recursive = Ret (s, rs) ∧
    tw_entry <$> rs = rest objects recursive prefix marker ∧ results_ok true rs.
Proof.
  intros (dir & pm & -> & Hdir) Hmk. assert (Hd : dir_ok dir) by apply Hdir. assert (Hpm : no_slash pm) by apply Hdir.
  assert (Hon := holds_names). assert (Hdeep : deep objects fuel dir) by (intros o Ho _; specialize (fuel_deep o Ho); lia).
  assert (Hkeys : walk_paths (fs_ls objects) fs_leaf fuel recursive dir pm = keys objects recursive (dir +:+ pm)).
  { rewrite fs_walk_paths_eq by done. by apply walk_paths_keys. }
  assert (Hm : ∃ m, (marker = dir +:+ m ∨ (marker = "" ∧ m = "")) ∧ fresh_marker (fs_ls objects) fs_leaf fuel recursive dir pm m).
  { destruct Hmk as [->|[[r ->]%HasPrefix_iff Hmk]].
    - exists "". split; [by right|]. right. intros p (r & Hr & ->)%walk_paths_prefix _ (c & r' & E & _);
        [|by apply fs_ls_ok]. rewrite <- str_app_assoc in E. apply str_app_inj_l in E. symmetry in E.
      by apply str_app_empty in E as [? _].
    - exists (pm +:+ r). rewrite str_app_assoc. split; [by left|]. unfold fresh_marker. by rewrite Hkeys, str_app_assoc. }
  destruct Hm as (m & Hm & Hfresh). unfold fs_start_walk.
  destruct (startTreeWalk_ok (fs_ls objects) fs_leaf (fs_ls_ok objects Hon) _ (obj_dir objects) _ _ fs_walk_env
    fuel dir pm m marker recursive s eq_refl Hdir Hpm) as (s' & rs & -> & -> & Hrs & Hok); [|done|done|].
  - apply fs_deep_eq; [done|done|done|]. by apply obj_deep_enough.
  - exists rs. unfold rest. by rewrite <- Hkeys.
Qed.

(** ** A page *)

Definition fs_info_of (o : string) : ObjectInfo :=
  let k := object_key base bucket o in
  ToObjectInfo mimedb_DB fsMetaV1_zero bucket o (Some (finfo t (abs_path k) (NFile (default [] (files t k))))).

Definition fs_dir_info (p : string) : ObjectInfo :=
  {| IsDir := true; Bucket := ""; Name := p; Size := 0; ObjModTime := zeroTime; MD5Sum := "";
     ContentType := ""; ContentEncoding := ""; UserDefined := ∅; ObjHealInfo := None |}.

Definition fs_entry_info (p : string) : ObjectInfo := if HasSuffix p "/" then fs_dir_info p else fs_info_of p.

Lemma fs_entry_name p : Name (fs_entry_info p) = p.
Proof. unfold fs_entry_info. by destruct (HasSuffix _ _). Qed.

Lemma entryToObjectInfo_ok p : (HasSuffix p "/" = false → p ∈ objects) →
  entryToObjectInfo mimedb_DB bucket p s = (s, inl (fs_entry_info p)).
Proof.
  intros Hp. unfold entryToObjectInfo, fs_entry_info, slashSeparator. destruct (HasSuffix p "/"); [done|]. specialize (Hp eq_refl).
  destruct (holds_object p Hp) as [c Hc]. assert (Hk : kb ++ Split p "/" = object_key base bucket p).
  { unfold bucket_key, object_key. by rewrite <- app_assoc. }
  assert (Hpath : fsObjPath s bucket p = abs_path (object_key base bucket p)).
  { unfold fsObjPath. rewrite (fc_path _ _ Hs). rewrite (pathJoin_parts base [bucket; p]); [|done| |done].
    - cbn [fmap list_fmap concat]. by rewrite Split_elem, app_nil_r.
    - rewrite !Forall_cons. split_and!; [by apply clean_path_plain|by apply holds_clean|by apply Forall_nil]. }
  rewrite Hpath. erewrite fs_bind_run.
  2: { apply fs_call_same, (fsStatFile_ok (fs_px s) (fc_calm _ _ Hs) (object_key base bucket p)) with (c := c).
       - rewrite <- Hk. by apply (bh_name _ _ Hh).
       - unfold object_key. by destruct base.
       - by rewrite <- Hk. }
  unfold fs_info_of, files. rewrite <- Hk, Hc. done.
Qed.

Lemma fs_list_loop_ok prefix : ∀ rs k infos mk,
  results_ok true rs → Forall (λ p, HasSuffix p "/" = false → p ∈ objects) (tw_entry <$> rs) → (0 < k)%nat ∨ rs ≠ [] →
  fs_list_loop mimedb_DB bucket prefix k rs s infos mk =
    (s, drop k rs, inl (infos ++ (fs_entry_info <$> take k (tw_entry <$> rs)), bool_decide (length rs ≤ k)%nat,
                        default mk (last (take k (tw_entry <$> rs))))).
Proof.
  induction rs as [|r rs IH]; intros k infos mk Hok Hobj Hk.
  { destruct Hk as [Hk|?]; [|done]. destruct k as [|k]; [lia|]. simpl. by rewrite app_nil_r. }
  destruct k as [|k]; [simpl; by rewrite app_nil_r|].
  rewrite fmap_cons in Hobj. apply Forall_cons in Hobj as [Hr Hobj]. destruct Hok as [Herr Hend].
  apply Forall_cons in Herr as [Hre Herr]. assert (Hend0 : tw_end r = true ↔ rs = []).
  { rewrite (Hend 0%nat r eq_refl). simpl. split; [|by intros ->]. intros [_ ?]. by destruct rs. }
  assert (Hok' : results_ok true rs).
  { split; [done|]. intros i x Hx. rewrite (Hend (S i) x Hx). simpl. split; intros [_ ?]; split; done || lia. }
  cbn [fs_list_loop]. rewrite Hre, entryToObjectInfo_ok, fs_entry_name by done. destruct (tw_end r) eqn:He.
  - rewrite (proj1 Hend0 eq_refl), bool_decide_true by (simpl; lia). simpl. by rewrite drop_nil, take_nil.
  - assert (Hne : rs ≠ []) by (intros E; by apply Hend0 in E). rewrite (IH k _ _ Hok' Hobj (or_intror Hne)).
    rewrite fmap_cons, firstn_cons, fmap_cons, <- app_assoc, last_cons.
    rewrite (bool_decide_ext (length (r :: rs) ≤ S k)%nat (length rs ≤ k)%nat) by (simpl; lia). by destruct (last _).
Qed.

Lemma fs_fill_result_ok : ∀ ps (result : ListObjectsInfo),
  fill_result result (fs_entry_info <$> ps) =
  {| IsTruncated := IsTruncated result; NextMarker := default (NextMarker result) (last ps);
     Objects := Objects result ++ (fs_info_of <$> filter (λ p, HasSuffix p "/" = false) ps);
     Prefixes := Prefixes result ++ filter (λ p, HasSuffix p "/" = true) ps |}.
Proof.
  induction ps as [|p ps IH]; intros [tr nm os prs]; [simpl; by rewrite !app_nil_r|].
  rewrite fmap_cons, last_cons, !filter_cons. cbn [fill_result]. rewrite IH. unfold fs_entry_info.
  destruct (HasSuffix p "/"); simpl; f_equal; try (by destruct (last ps)); by rewrite <- app_assoc.
Qed.

(** The state between listings. *)
Record fs_lister_ok (li : fs_lister) : Prop := {
  flo_fs : fl_fs li = s;
  flo_pool : pool_inv (PoolSys (fl_pool li) [] (fl_next li));
  flo_chans : chans_ok bucket objects (fl_pool li) (fl_chans li);
}.

Lemma fs_get_walk_ok li prefix marker recursive :
  fs_lister_ok li → prefix_ok objects prefix → marker_ok objects recursive prefix marker →
  ∃ li' ch, fs_get_walk fuel li bucket prefix marker recursive = Ret (li', (ch, ch)) ∧ fl_fs li' = s ∧
    pool_inv (PoolSys (fl_pool li') [(ch, ch)] (fl_next li')) ∧ chans_ok bucket objects (fl_pool li') (fl_chans li') ∧
    chan_ok objects (fl_chans li') ch recursive prefix marker.
Proof.
  intros [Hfs Hinv Hch] Hpre Hmk. unfold fs_get_walk. set (params := ListParams bucket recursive marker prefix false).
  assert (Hwok := pi_walks _ Hinv). simpl in Hwok.
  destruct (Release_total _ params Hinv) as (p & r & Hr). simpl in Hr. rewrite Hr. cbn [mbind go_bind]. destruct r as [u|].
  - destruct (Release_Some _ _ _ _ Hwok Hr) as (w & ws & Hp & -> & _ & _ & _ & _ & _ & _ & Hpool).
    assert (Hw : pooled (fl_pool li) params w) by (unfold pooled; rewrite Hp; by left).
    destruct (pi_pooled _ Hinv _ _ Hw) as (Hwe & [Hpos _] & _). apply (inv_release _ _ _ _ _ _ Hr) in Hinv.
    destruct (resultCh w) as [|ch] eqn:Hrc; [lia|].
    eexists _, (S ch). rewrite <- Hwe in Hinv |- *. split_and!; [done|done|done| |by rewrite <- Hrc; apply (Hch params w)].
    intros q x [Hx _]%Hpool. by apply Hch.
  - destruct (Release_None _ _ _ Hwok Hr) as [-> _]. rewrite Hfs.
    destruct (fs_start_walk_ok prefix marker recursive Hpre Hmk) as (rs & -> & Hrs & Hok).
    cbn [mbind go_bind]. eexists _, (fl_next li). split_and!; [done|done|by apply inv_start| |].
    + intros q x Hx Hb Hheal. simpl. apply chan_ok_insert; [|by apply Hch].
      destruct (pi_pooled _ Hinv _ _ Hx) as (_ & Hlt & _). simpl in Hlt. lia.
    + exists rs. simpl. by rewrite lookup_insert_eq.
Qed.

Lemma fs_list_page_ok li prefix marker delimiter k :
  let recursive := negb (bool_decide (delimiter = "/")) in
  fs_lister_ok li → prefix_ok objects prefix → marker_ok objects recursive prefix marker → (0 < k)%nat →
  let todo := rest objects recursive prefix marker in
  ∃ li', fs_list_page mimedb_DB fuel li bucket prefix marker delimiter k =
    Ret (li', ({| IsTruncated := bool_decide (k < length todo)%nat; NextMarker := default "" (last (take k todo));
                  Objects := fs_info_of <$> filter (λ p, HasSuffix p "/" = false) (take k todo);
                  Prefixes := filter (λ p, HasSuffix p "/" = true) (take k todo) |}, None)) ∧ fs_lister_ok li'.
Proof.
  intros recursive Hli Hpre Hmk Hk todo. unfold fs_list_page, slashSeparator. fold recursive.
  destruct (fs_get_walk_ok li prefix marker recursive Hli Hpre Hmk)
    as (li1 & ch & -> & Hfs & Hinv & Hch & (rs & Hl & Hrs & Hok)).
  cbn [mbind go_bind]. rewrite Hl, Hfs. change (default [] (Some rs)) with rs. rewrite fs_list_loop_ok; [|done| |by left].
  2: { rewrite Hrs. apply Forall_forall. intros p [_ Hp]%list_elem_of_filter. by eapply keys_object. }
  rewrite Hrs. fold todo. rewrite app_nil_l, fs_fill_result_ok, !app_nil_l.
  assert (Hlen : length rs = length todo) by (unfold todo; rewrite <- Hrs; by rewrite length_fmap).
  assert (Hother : ∀ q x, pooled (fl_pool li1) q x → lp_bucket q = bucket → lp_heal q = false →
    chan_ok objects (<[ch := drop k rs]> (fl_chans li1)) (resultCh x) (lp_recursive q) (lp_prefix q) (lp_marker q)).
  { intros q x Hx Hb Hheal. apply chan_ok_insert; [|by apply Hch]. intros ->.
    destruct (pi_pooled _ Hinv _ _ Hx) as (E & _ & Hu). apply Hu. simpl. rewrite <- E. left. }
  rewrite Hlen. assert (Htr : negb (bool_decide (length todo ≤ k)%nat) = bool_decide (k < length todo)%nat).
  { rewrite <- bool_decide_not. apply bool_decide_ext. lia. }
  simpl. rewrite Htr. eexists. split; [done|]. case_bool_decide as Heof; split; simpl; try done.
  - by apply (inv_done _ (ch, ch) [] []).
  - by apply (inv_set _ _ (ch, ch) [] []).
  - intros q x [Hx|[-> ->]]%pooled_Set Hb Hheal; [by apply Hother|]. simpl. exists (drop k rs).
    rewrite lookup_insert_eq, fmap_drop, Hrs. fold todo. split_and!; [done| |by apply results_ok_drop].
    destruct (last (take k todo)) as [x|] eqn:Ex.
    + simpl. apply last_Some in Ex as [P E]. symmetry. apply (rest_next objects holds_names recursive prefix marker P).
      fold todo. rewrite <- (take_drop k todo) at 1. rewrite E, <- app_assoc. done.
    + apply last_None in Ex. exfalso. assert (Hz : length (take k todo) = 0%nat) by (by rewrite Ex).
      rewrite length_take in Hz. lia.
Qed.

Lemma fs_ListObjects_ok li prefix marker delimiter maxKeys :
  let recursive := negb (bool_decide (delimiter = "/")) in
  let todo := rest objects recursive prefix marker in
  let page := take (page_size maxKeys) todo in
  fs_lister_ok li → prefix_ok objects prefix → IsValidObjectPrefix prefix = true → delimiter = "" ∨ delimiter = "/" →
  marker_ok objects recursive prefix marker → maxKeys ≠ 0 →
  ∃ li', fs_ListObjects mimedb_DB fuel li bucket prefix marker delimiter maxKeys =
    Ret (li', ({| IsTruncated := bool_decide (page_size maxKeys < length todo)%nat;
                  NextMarker := default "" (last page);
                  Objects := fs_info_of <$> filter (λ p, HasSuffix p "/" = false) page;
                  Prefixes := filter (λ p, HasSuffix p "/" = true) page |}, None)) ∧ fs_lister_ok li'.
Proof.
  intros recursive todo page [Hfs Hinv Hch] Hpre Hvalid Hdel Hmk Hmax. unfold fs_ListObjects. rewrite Hfs.
  destruct statBucketDir_holds as [fi Hfi].
  assert (Hbe : bucket_err bucket s = (s, inl None)).
  { unfold bucket_err. erewrite fs_bind_run; [|apply fs_catch_run; unfold fs_GetBucketInfo; by erewrite fs_bind_run by (by apply fs_err_run)]. done. }
  erewrite fs_bind_run by exact Hbe. unfold checkListObjsArgs, checkBucketExist. rewrite bucket_valid, Hvalid. cbn [negb].
  assert (negb (bool_decide (delimiter = "")) && negb (bool_decide (delimiter = slashSeparator)) = false) as ->.
  { by destruct Hdel as [->| ->]. }
  assert (negb (bool_decide (marker = "")) && negb (HasPrefix marker prefix) = false) as ->.
  { destruct Hmk as [->|[-> _]]; [done|apply andb_false_r]. }
  erewrite fs_bind_run by done. erewrite fs_bind_run by exact Hfi. cbn [mret fsx_ret].
  rewrite (proj2 (Z.eqb_neq maxKeys 0)) by done.
  rewrite (bool_decide_false (prefix = slashSeparator)), andb_false_r by (intros ->; by apply (prefix_not_slash objects)).
  apply (fs_list_page_ok (FSLister s (fl_pool li) (fl_chans li) (fl_next li)) prefix marker delimiter (page_size maxKeys)); [done|done|done|].
  unfold page_size, maxObjectList. destruct (_ || _) eqn:E; bool_prop; lia.
Qed.

End Bucket.

(** ** All pages *)

(** A client that asks for pages until the listing is complete. *)
Fixpoint fs_list_pages `{OSTimes, MapOrder} (mimedb_DB : string → option string) (pages fuel : nat) (li : fs_lister)
    (bucket prefix marker : string) (maxKeys : Z) : go (list ObjectInfo) :=
  match pages with
  | O => Diverge
  | S pages' =>
      '(li, (r, err)) ← fs_ListObjects mimedb_DB fuel li bucket prefix marker "" maxKeys;
      match err with
      | Some _ => Panic
      | None =>
          if IsTruncated r then
            more ← fs_list_pages mimedb_DB pages' fuel li bucket prefix (NextMarker r) maxKeys;
            mret (Objects r ++ more)
          else mret (Objects r)
      end
  end.

Section Pages.
Context `{OSTimes, MapOrder}.
Context (mimedb_DB : string → option string).
Context (base : list string) (bucket : string) (base_plain : Forall plain_elem base).
Context (bucket_valid : IsValidBucketName bucket = true) (bucket_plain : plain_elem bucket).
Context (objects : list string) (s : fsObjects) (Hs : fs_calm base s) (Hh : bucket_holds base bucket objects (fs_tree s)).
Context (fuel : nat) (fuel_pos : (0 < fuel)%nat).
Context (fuel_deep : ∀ o, o ∈ objects → (length (Split o "/") ≤ fuel)%nat).

Abbreviation info := (fs_info_of base bucket s mimedb_DB).

Lemma fs_list_pages_ok prefix maxKeys : prefix_ok objects prefix → IsValidObjectPrefix prefix = true → maxKeys ≠ 0 →
  ∀ pages li marker, fs_lister_ok bucket objects s li → marker_ok objects true prefix marker →
  (length (rest objects true prefix marker) < pages)%nat →
  fs_list_pages mimedb_DB pages fuel li bucket prefix marker maxKeys = Ret (info <$> rest objects true prefix marker).
Proof.
  intros Hpre Hvalid Hmax. assert (Hps : (0 < page_size maxKeys)%nat).
  { unfold page_size, maxObjectList. destruct (_ || _) eqn:E; bool_prop; lia. }
  assert (Hon : object_names objects) by (by eapply holds_names).
  induction pages as [|pages IH]; intros li marker Hli Hmk Hlen; [lia|]. cbn [fs_list_pages].
  destruct (fs_ListObjects_ok base bucket base_plain bucket_valid bucket_plain objects s Hs Hh mimedb_DB fuel fuel_pos fuel_deep
    li prefix marker "" maxKeys Hli Hpre Hvalid (or_introl eq_refl) Hmk Hmax) as (li' & -> & Hli').
  change (negb (bool_decide ("" = "/"))) with true. cbn [mbind go_bind IsTruncated NextMarker Objects].
  set (todo := rest objects true prefix marker) in *. set (k := page_size maxKeys) in *.
  assert (Hkey : ∀ p, p ∈ todo → p ∈ keys objects true prefix) by (by intros p [_ ?]%list_elem_of_filter).
  rewrite filter_all.
  2: { intros p Hp. assert (Hall := keys_recursive_objects objects Hon prefix). rewrite Forall_forall in Hall.
       apply Hall, Hkey. rewrite <- (take_drop k todo), elem_of_app. by left. }
  case_bool_decide as Hk; [|by rewrite take_ge by lia].
  destruct (last (take k todo)) as [x|] eqn:Ex.
  2: { apply last_None in Ex. assert (Hz : length (take k todo) = 0%nat) by (by rewrite Ex). rewrite length_take in Hz. lia. }
  apply last_Some in Ex as [P E]. assert (Htodo : todo = P ++ x :: drop k todo).
  { rewrite <- (take_drop k todo) at 1. rewrite E, <- app_assoc. done. }
  assert (Hnext := rest_next objects Hon _ _ _ _ _ _ Htodo). cbn [default from_option id]. rewrite IH.
  - cbn [mbind go_bind]. rewrite Hnext. unfold mret, go_ret. by rewrite <- fmap_app, take_drop.
  - done.
  - assert (Hx : x ∈ keys objects true prefix) by (apply Hkey; rewrite Htodo; apply elem_of_app; right; left).
    right. split; [by eapply keys_prefix|by left].
  - rewrite Hnext, length_drop. fold todo in Hlen. lia.
Qed.

(** Paging through a bucket from a fresh pool of walks. *)
Lemma fs_list_all prefix maxKeys : prefix_ok objects prefix → IsValidObjectPrefix prefix = true → maxKeys ≠ 0 →
  fs_list_pages mimedb_DB (S (length objects)) fuel (FSLister s newTreeWalkPool ∅ 1) bucket prefix "" maxKeys =
    Ret (info <$> sort_Strings (filter (λ o, HasPrefix o prefix = true) objects)).
Proof.
  intros Hpre Hvalid Hmax. assert (Hon : object_names objects) by (by eapply holds_names).
  rewrite (fs_list_pages_ok prefix maxKeys Hpre Hvalid Hmax); [| |by left|].
  - f_equal. f_equal. unfold rest. apply filter_all. intros p Hp.
    apply (str_lt_append "" p). intros ->. assert (Hc : "" ∈ objects) by (by apply (keys_object objects true prefix)).
    by apply (obj_clean objects Hon), clean_path_ne in Hc.
  - split; [done|apply pool_init_inv|]. intros p w Hw. exfalso. revert Hw. unfold pooled. simpl. rewrite lookup_empty.
    apply not_elem_of_nil.
  - apply Nat.lt_succ_r. unfold rest. etrans; [apply length_filter|]. unfold keys. rewrite sort_Strings_perm.
    apply length_filter.
Qed.

End Pages.

(** ** Put, then list *)

Definition add_object (object : string) (objects : list string) : list string :=
  if decide (object ∈ objects) then objects else object :: objects.

Lemma elem_of_add o object objects : o ∈ add_object object objects ↔ o = object ∨ o ∈ objects.
Proof. unfold add_object. case_decide; set_solver. Qed.

Section PutList.
Context `{OSTimes, MapOrder, FSJson, Hashes} `{!FSJsonContract}.
Context (ReleaseTag : string) (md5_Sum : bytes → bytes) (mimedb_DB : string → option string).
Context (base : list string) (bucket object : string) (Hn : fs_names base bucket object).
Context (object_visible : Forall visible (Split object "/")).

Lemma bucket_object_key es : bucket_key base bucket ++ es = object_key base bucket object ↔ es = Split object "/".
Proof. unfold bucket_key, object_key. rewrite <- app_assoc. split; [by intros [= ?]%app_inv_head|by intros ->]. Qed.

Lemma bucket_not_meta es r : ¬ bucket_key base bucket ++ es `prefix_of` base ++ minioMetaBucket :: r.
Proof.
  intros [k E]. unfold bucket_key in E. rewrite <- !app_assoc in E. apply app_inv_head in E. injection E as E _.
  by apply (fn_bucket _ _ _ Hn).
Qed.

Lemma put_holds s temp content js objects t' : put_ready base bucket object s temp →
  put_done base bucket object (fs_tree s) t' content js →
  (∀ k, t' !! k = Some NDir → fs_tree s !! k = Some NDir ∨ k `prefix_of` object_key base bucket object ∧ k ≠ object_key base bucket object ∨
    k `prefix_of` meta_key base bucket object ∨ k `prefix_of` tmp_key base (fsUUID s) temp) →
  bucket_holds base bucket objects (fs_tree s) → bucket_holds base bucket (add_object object objects) t'.
Proof.
  intros Hr [Ht' Hobj Hmeta Hother Hdirs] Hnew [Hd Hnd [Hb Hname] Hfiles Hfull].
  assert (Hfile : ∀ es, is_Some (files t' (bucket_key base bucket ++ es)) ↔ es = Split object "/" ∨ is_Some (files (fs_tree s) (bucket_key base bucket ++ es))).
  { intros es. destruct (decide (es = Split object "/")) as [->|Hne].
    - rewrite (proj2 (bucket_object_key _) eq_refl). split; [by left|]. intros _. exists content. by apply files_Some.
    - rewrite Hother; [naive_solver|by intros ?%bucket_object_key|].
      intros E. apply (bucket_not_meta es ([bucketMetaPrefix; bucket] ++ Split object "/" ++ [fsMetaJSONFile])). by rewrite E. }
  split.
  - by apply Hdirs.
  - unfold add_object. case_decide; [done|by constructor].
  - split; [done|]. intros o [->|Ho]%elem_of_add; [|by apply Hname]. rewrite (proj2 (bucket_object_key _) eq_refl). split; [apply Hn|done].
  - intros es. rewrite Hfile, Hfiles. setoid_rewrite elem_of_add. naive_solver.
  - intros es Hne [Hold|[[[r E] Hko]|[Hp|Hp]]]%Hnew.
    + destruct (Hfull es Hne Hold) as [r Hf]. exists r. rewrite Hfile. by right.
    + exists r. rewrite Hfile. left. apply bucket_object_key. by rewrite E, app_assoc.
    + by apply bucket_not_meta in Hp.
    + by apply bucket_not_meta in Hp.
Qed.

(** C15.  FS backend: after a put without faults the files of the bucket are the
    objects it held and the new one, and a client that pages through the bucket
    gets each of them exactly once, in order, for every page size. *)
Theorem fs_put_list : ∀ s temp size data metadata sha256sum objects fuel maxKeys,
  let limited := if 0 <? size then io_LimitReader data size else data in
  let content := rd_data limited in
  let objects' := add_object object objects in
  put_ready base bucket object s temp → bucket_holds base bucket objects (fs_tree s) →
  rd_err limited = io_EOF → size ≤ zlen content →
  digests_ok md5_Sum content metadata sha256sum → meta_utf8 (put_fsMeta ReleaseTag md5_Sum content metadata) →
  (∀ o, o ∈ objects' → (length (Split o "/") ≤ fuel)%nat) → maxKeys ≠ 0 →
  ∃ s' info,
    fs_PutObject ReleaseTag md5_Sum mimedb_DB temp bucket object size data metadata sha256sum s = (s', inl info) ∧
    bucket_holds base bucket objects' (fs_tree s') ∧ Size (fs_info_of base bucket s' mimedb_DB object) = zlen content ∧
    fs_list_pages mimedb_DB (S (length objects')) fuel (FSLister s' newTreeWalkPool ∅ 1) bucket "" "" maxKeys =
      Ret (fs_info_of base bucket s' mimedb_DB <$> sort_Strings objects').
Proof.
  intros s temp size data metadata sha256sum objects fuel maxKeys limited content objects' Hr Hh Heof Hsize Hdig Hutf Hfuel Hmax.
  destruct (fs_json_ok _ Hutf) as (js & Hjs & _). pose proof (t4_done _ _ _ Hn s temp Hr content js) as [Hdone _].
  pose proof (fs_PutObject_ok ReleaseTag md5_Sum mimedb_DB _ _ _ Hn s temp Hr content js metadata sha256sum Hdig Hjs size data Heof eq_refl Hsize) as Hput.
  eexists _, _. split; [exact Hput|]. set (s' := fs_with _ _). assert (Hs' : fs_calm base s') by (apply fs_calm_with; [apply Hr|apply Hdone]).
  assert (Hh' : bucket_holds base bucket objects' (fs_tree s')) by (eapply put_holds; [done|exact Hdone|by apply t4_dirs|done]).
  split_and!; [done| |].
  - assert (Ho : files (fs_tree s') (object_key base bucket object) = Some content) by (apply files_Some, Hdone).
    unfold fs_info_of. by rewrite Ho.
  - assert (Hall : filter (λ o, HasPrefix o "" = true) objects' = objects').
    { apply filter_all. intros o _. apply HasPrefix_iff. by exists o. }
    rewrite <- Hall at 2. apply (fs_list_all mimedb_DB base bucket); try done; try apply Hn.
    + assert (Ho : object ∈ objects') by (apply elem_of_add; by left). specialize (Hfuel _ Ho). pose proof (Split_length object). lia.
    + exists "", "". split; [done|]. split_and!; [by left|apply no_slash_nil|by left].
Qed.

End PutList.

(** ** Witness *)

Lemma bucket_holdsb base bucket objects t :
  bool_decide (t !! bucket_key base bucket = Some NDir) && bool_decide (NoDup objects) = true →
  (os_name (bucket_key base bucket) ∧ ∀ o, o ∈ objects → os_name (bucket_key base bucket ++ Split o "/") ∧ Forall visible (Split o "/")) →
  map_Forall (λ k n, ¬ bucket_key base bucket `prefix_of` k ∨ k = bucket_key base bucket ∨
    (n ≠ NDir ∧ drop (length (bucket_key base bucket)) k ∈ ((λ o, Split o "/") <$> objects)) ∨
    (n = NDir ∧ Exists (λ o, drop (length (bucket_key base bucket)) k `prefix_of` Split o "/") objects)) t →
  Forall (λ o, is_Some (files t (bucket_key base bucket ++ Split o "/"))) objects →
  bucket_holds base bucket objects t.
Proof.
  intros [H1 H2]%andb_true_iff Hname Hall Hobj. apply bool_decide_eq_true in H1, H2. rewrite Forall_forall in Hobj. split; [done|done|done| |].
  - intros es. split; [|intros (o & Ho & ->); by apply Hobj]. intros [c Hc%files_Some].
    destruct (Hall _ _ Hc) as [E|[E|[[_ E]|[? _]]]]; [by destruct E; eexists|rewrite E in Hc; congruence| |done].
    rewrite drop_app_length in E. apply list_elem_of_fmap in E as (o & -> & Ho). by exists o.
  - intros es Hne Hd. destruct (Hall _ _ Hd) as [E|[E|[[? _]|[_ E]]]]; [by destruct E; eexists| |done|].
    + destruct Hne. apply (app_inv_head (bucket_key base bucket)). by rewrite app_nil_r.
    + rewrite drop_app_length in E. apply Exists_exists in E as (o & Ho & [r E]). exists r. rewrite <- E. by apply Hobj.
Qed.

#[local] Existing Instances demo_times map_order_rev demo_fsjson demo_fsjson_ok demo_hashes.

Lemma fs_demo_new : fs_names ["disk"] "photos" "b/z.txt".
Proof. split; [|split_and!|split_and!|split_and!]; by apply (bool_decide_unpack _). Qed.

Lemma fs_demo_new_ready : put_ready ["disk"] "photos" "b/z.txt" fs_demo "t-1".
Proof.
  split.
  - apply fs_demo_ready.
  - done.
  - split; [by apply no_file_aboveb|done].
  - split; [by apply no_file_aboveb|done].
  - split; by apply (bool_decide_unpack _).
  - split_and!; [by apply (bool_decide_unpack _)|by apply no_file_aboveb|done].
Qed.

Lemma fs_demo_holds : bucket_holds ["disk"] "photos" ["y"; "a/x.txt"] (fs_tree fs_demo).
Proof.
  apply bucket_holdsb; [by vm_compute| |apply (bool_decide_unpack _); by vm_compute|].
  - split; [by apply (bool_decide_unpack _)|]. intros o Ho. rewrite !elem_of_cons, elem_of_nil in Ho.
    destruct Ho as [->|[->|[]]]; apply (bool_decide_unpack _); by vm_compute.
  - rewrite !Forall_cons. split_and!; [by eexists|by eexists|by apply Forall_nil].
Qed.

(** A new object in a directory of its own; pages of two keys. *)
Lemma fs_put_list_witness : ∃ s' info infos,
  fs_PutObject "dev" demo_digest demo_mime "t-1" "photos" "b/z.txt" 5 {| rd_data := bytes_of_string "hello, world"; rd_err := io_EOF |}
    ∅ "" fs_demo = (s', inl info) ∧
  fs_list_pages demo_mime 4 2 (FSLister s' newTreeWalkPool ∅ 1) "photos" "" "" 2 = Ret infos ∧
  Name <$> infos = ["a/x.txt"; "b/z.txt"; "y"].
Proof.
  destruct (fs_put_list "dev" demo_digest demo_mime ["disk"] "photos" "b/z.txt" fs_demo_new ltac:(by apply (bool_decide_unpack _))
    fs_demo "t-1" 5 {| rd_data := bytes_of_string "hello, world"; rd_err := io_EOF |} ∅ "" ["y"; "a/x.txt"] 2 2 fs_demo_new_ready fs_demo_holds eq_refl)
    as (s' & info & Hput & _ & _ & Hlist).
  - by vm_compute.
  - split; [by vm_compute|by left].
  - split_and!; [by vm_compute|by vm_compute|by vm_compute|apply (bool_decide_unpack _); by vm_compute|by vm_compute].
  - apply Forall_forall, (bool_decide_unpack _). by vm_compute.
  - done.
  - eexists s', info, _. split_and!; [exact Hput|exact Hlist|]. by vm_compute.
Defined.

(** ** A defect *)

(** An entry that cannot be looked at: the listing is empty and without an
    error, although the bucket holds another object. *)
Example list_drops_error :
  let s := fs_set_os fs_demo (OSFS fs_demo_tree (replicate 9 None ++ [Some (EIO, 0%nat)]) (os_statfs demo_os)) in
  ∃ li', fs_ListObjects demo_mime 2 (FSLister s newTreeWalkPool ∅ 1) "photos" "" "" "" 5 = Ret (li', (ListObjectsInfo_zero, None)) ∧
    is_Some (files (fs_tree (fl_fs li')) ["disk"; "photos"; "a"; "x.txt"]).
Proof. eexists. split; [by vm_compute|by eexists]. Qed.
